(* ===== verification/_CoqProject ===== *)
-Q . S2P
Prelude.v
KUtil.v
Ring.v
Dll.v
CapToken.v
AgentNs.v
AgentReg.v
TaskGraph.v
PubSub.v
Supervisor.v
Handles.v
UnixSock.v
InferSvc.v
InferCache.v
InferAsync.v
BCache.v
Bitmap.v
Pmm.v
Mem.v
Bytes.v
KHeap.v
BlockStore.v
LimnFS.v
LfsAlloc.v
LfsTree.v
LfsMap.v
LfsFormat.v
LfsData.v
LfsDir.v
LfsCache.v
Pty.v
Net.v
Tcp.v
NetStack.v
NetWire.v
TcpStream.v
Vmm.v
PmmFrames.v
VmmTree.v
ProcMem.v
CowMem.v
CowFork.v
CowExit.v
CowSpec.v
MemCases.v
Vfs.v
VfsTree.v
VfsSpec.v
VfsProc.v
VfsCases.v
Sched.v
SchedQueue.v
SchedRep.v
SchedInv.v
SchedSafe.v
SchedRun.v
SchedSpec.v
Sync.v
SchedCases.v
Signals.v
