(* ===== verification/Prelude.v ===== *)
(** * Limnx: a verification library for the kernel of the Limnx operating system

    Limnx is a small x86-64/ARM64 operating system for AI agents.  Its kernel
    ([src/kernel/src]) is a set of C components, each with static tables, a lock
    and a few operations that the system calls invoke; this library models the
    components that carry the kernel's own logic and proves what makes them
    correct.

    ** How the code is modelled

    A component is one file.  Its table is a list of records (one field per
    struct member), its static variables are fields of a state record, and each
    C function is one Rocq function from the arguments and the state to the
    result and the new state, with every early return and every guard.
    Integers are [Z] with the wrap-around of their C type written out ([u8],
    [u16], [u32], [u64], [i32]); strings are NUL-terminated buffers; error codes
    are the negative numbers of [errno.h]; memory that code addresses through
    casts is a finite map of bytes ([Mem]).  A function that takes its lock
    twice is also given in its critical sections, so that other operations can
    run between them.  Undefined accesses are [None].

    Code outside a component that it calls is a class with the operations and
    the documented laws: [BlkDev] (the block device below the cache),
    [ProcOps] (process creation for supervisors), [HeapPages] (page supply of the
    heap), [RefCounted] (handle tables), [Linked] (list entries of the caches),
    [BlockStore] (the block cache below the file system; the cache of [BCache] is
    an instance, a finite map of blocks another), [Frames] with its laws
    [FramesOk] (the page allocator below the page tables; the allocator of [Pmm] is
    an instance), [ByteHeap] (the kernel heap below the nodes of the VFS).

    ** The files

    - [Prelude] (this file): record update, machine integers, masks, scans of
      arrays, counting, reachability, tactics.  [KUtil]: string helpers
      ([kutil.h]).  [Ring]: bounded rings of mailboxes and queues.  [Dll]: linked
      LRU lists.  [Bitmap]: byte bitmaps.  [Mem]: byte memory.  [Bytes]: ranges
      and little-endian fields of byte lists.
    - [CapToken] ([ipc/cap_token.c]): capability tokens.  Exact cascading
      revocation; the table invariant and no amplification of authority over any
      interleaving of the critical sections, delegations under way included; the
      race between delegation and revocation.
    - [AgentNs] ([ipc/agent_ns.c]): namespaces and quotas.  Who may join, quota
      admission and its 32-bit overflow, what a reused slot keeps.
    - [AgentReg] ([ipc/agent_reg.c]): agent names and mailboxes.  Sending,
      with others acting between its critical sections, and receiving refine a
      bounded FIFO queue; registration and lookup.
    - [TaskGraph] ([ipc/taskgraph.c]): workflow tasks.  Life cycle of a task,
      authorisation of dependencies, deadlock of cycles.
    - [PubSub] ([ipc/pubsub.c]): topics.  Broadcast into bounded queues,
      isolation of namespaces.
    - [Supervisor] ([ipc/supervisor.c]): restarts of crashed children.  The bound
      on the processes started, what an exit may change.
    - [Handles] ([ipc/eventfd.c], [ipc/epoll.c], [ipc/uring.c]): reference-counted
      tables, the eventfd counter, the epoll interest list as a finite map.
    - [UnixSock] ([ipc/unix_sock.c]): sockets.  Peer pointers are mutual,
      connections are byte streams.
    - [InferSvc], [InferCache], [InferAsync] ([ipc/infer_svc.c]): the registry of
      inference providers with its routing policies and request queue, the LRU
      result cache, and the asynchronous request slots with their worker.
    - [BCache] ([blk/bcache.c]): the write-back block cache is transparent and a
      flush makes it durable.
    - [BlockStore], [LimnFS] ([blk/limnfs.c]): the interface to the block cache and
      the definitions of the file system, all of its operations.  [LfsAlloc]: the
      block and inode bitmaps.  [LfsTree], [LfsMap]: the pointer trees and the map
      from file blocks to disk blocks; no block is in two places.  [LfsFormat]:
      format, sync and mount.  [LfsData]: files are arrays of bytes.  [LfsDir]:
      directories are lists of entries.  [LfsCache]: reads past the cache, what a
      flush repairs, the sampled check of the sequential path.
    - [Pmm] ([mm/pmm.c]): the page allocator, over [Bitmap].
    - [KHeap] ([mm/kheap.c]): the kernel heap, over [Mem] and [Pmm], is a store of
      disjoint byte objects, and fails exactly when it is full and cannot grow.
    - [Vmm] ([mm/vmm.c], [mm/swap.c]): x86-64 page tables in byte memory, fork,
      exit, demand pages and swap, and the walk of the processor.  [PmmFrames]: the
      page allocator satisfies [FramesOk].  [VmmTree]: the tables are a finite map.
      [ProcMem] ([syscall/sys_mm.c], [ipc/shm.c]): the memory system calls and the
      page fault handler.  [CowMem], [CowFork], [CowExit]: what a copy-on-write
      fault, a fork and an exit do to the map and to the bytes of every space.
      [CowSpec]: address spaces are private memories.  [MemCases]: calls that
      damage or lose memory.
    - [Vfs] ([fs/vfs.c]): the node table of the virtual file system over [LimnFS],
      all of its operations.  [VfsTree]: the tree that the parent indices encode.
      [VfsSpec]: path resolution walks that tree, and the files in memory refine a
      map from paths to contents.  [VfsProc] ([fs/vfs.c], [fs/tar.c]): the entries
      of /proc and the boot archive.  [VfsCases]: decimal and octal numbers, and
      calls that lose, leak or double entries.
    - [Sched] ([sched/sched.c], [sched/thread.c], parts of [proc/process.c] and
      [syscall/sys_proc.c]): threads on linked run queues, one processor or several
      with stealing, the process table, signals to processes and groups, waiting.
      [SchedQueue]: a linked queue is a list.  [SchedRep], [SchedInv], [SchedSafe],
      [SchedRun]: the lists behind a state, what a switch does to them, the
      invariant, and every operation.  [SchedSpec]: no thread runs twice or is used
      after it was freed, a thread is ready exactly when it is queued once, and a
      queued thread runs after as many switches as threads are before it.  These
      hold for the runs of [sreach], whose rules name the calls that the callers
      must not make; [SchedCases] shows that the kernel makes some of them.
    - [Sync] ([sync/mutex.c], [sync/futex.c]): a mutex excludes.  [SchedCases]: runs
      that break what the scheduler and the mutex assume.
    - [Signals] ([syscall/sys_signal.c], end of [syscall/syscall.c]): masks, handlers,
      delivery; a handler, also one that further signals interrupt, returns to the
      interrupted code.
    - [Pty] ([pty/pty.c]): pseudo-terminals with their line discipline.  They refine
      a queue of bytes per direction; typed lines are read; others may run any
      critical section whenever a lock is free; what wedges a line.
    - [Net], [Tcp], [NetStack] ([net/net.c], [net/tcp.c]): wire formats and tables,
      the TCP state machine with its timer and calls, ARP, IPv4, ICMP and UDP.
      [NetWire]: the checksum is the complement of the sum modulo 2^16 - 1, what the
      receive path accepts, datagrams to the own host arrive or are dropped at a
      busy socket, the unchecked length.  [TcpStream]: what a reader
      receives is a prefix of what was sent, under loss, duplication, reordering
      and retransmission; where connections stall or are reset.

    ** Bounds and fuel

    Loops over arrays recurse on the list or on its length.  The recursion of
    the token revocation has as fuel one more than the size of the table, and a
    call clears a token before it recurses; the walks over hash chains of the
    block cache have the number of entries, and the walks over the block list of
    the heap the number of headers the heap has room for.  The loops of the file
    system have one more round than the blocks of the request ([read_fuel]) or of
    the directory ([dir_fuel]); a file has at most 2^32 bytes ([MAX_FILE_SIZE]),
    because its size is a 32-bit field.  In each case the
    theorems show that the function returns, so the fuel is enough.  A blocking
    call takes the list of states it sees at its wake-ups, or, in the network,
    a function that stands for what others do; its loop counts down the timeout
    of the code.  The carries of a checksum fold in two rounds ([carry_fuel]).
    Transmission has fuel for the packets a loopback packet causes.  The load of
    a file into memory has one more round than the file has pages.  The loops over
    the 512 entries of page tables are folds over their indices.  Path resolution
    has one round per byte of the path and the nine link levels of the code; an
    unmount has one more pass than there are nodes; the boot archive has one round
    per 512 bytes.  The load of a directory tree from disk has its depth as
    argument, because it does not end on a disk whose directories form a cycle.
    The walks over run queues and over the list of dead threads have the number of
    threads, and a delivery looks at the signals 1 to 31.

    ** Not modelled

    Code that is register access or memory-mapped I/O (architecture support,
    device drivers, interrupt handling), system call dispatch and argument
    checks, the descriptor tables of processes, the boot sequence, and user
    programs.  Of the kernel's own logic the following are left out: the creation
    of processes (fork, exec and the ELF loader, which fill register frames and
    user stacks; the address spaces that they build are in [Vmm]), the teardown of
    a process in [process_terminate], batch inference, network storage, and the
    ARM64 variants of the page allocator's initialisation, of the page tables and
    of signal frames, with the construction of the kernel's own tables at boot
    ([vmm_init]) and the TLB flushes.  Interrupts and memory ordering between
    processors are not represented: the operations under a lock are atomic.  So is
    a call of the scheduler, although it gives up its queue lock while it steals
    from another queue.  The stream theorem of TCP takes the layers below it as a
    network that accepts every segment; the buffer of the IPv4 layer has no
    bound in the model, where the code writes past 1500 bytes. *)

From stdpp Require Export base list numbers decidable sets relations.
From Stdlib Require Export ZArith Lia.

#[global] Open Scope Z_scope.

(** ** Record update

    The C code assigns struct fields one at a time.  [r <| f := v |>] is the
    record [r] with the field [f] replaced; the update is found by type class
    search from the record's eta-expansion. *)

Class Eta (R : Type) := eta : R → R.

Class FieldUpd {R T : Type} (proj : R → T) := field_upd : (T → T) → R → R.

Ltac solve_field_upd :=
  match goal with
  | |- @FieldUpd ?R ?T ?proj =>
      let e := eval unfold eta in (eta : R → R) in
      let e := eval hnf in e in
      match eval pattern proj in e with
      | ?body _ =>
          let u := eval cbv beta in (λ g : T → T, body (λ r, g (proj r))) in
          exact u
      end
  end.

#[global] Hint Extern 1 (FieldUpd _) => solve_field_upd : typeclass_instances.

Declare Scope limnx_scope.
Delimit Scope limnx_scope with limnx.
#[global] Open Scope limnx_scope.

Notation "r <| f := v |>" := (field_upd (proj := f) (λ _, v) r)
  (at level 1, left associativity, f at next level, format "r  <| f  :=  v |>")
  : limnx_scope.

(** ** Machine integers

    Integers are [Z] with the wrap-around of the C type written out. *)

Definition u8 (z : Z) : Z := z mod 2 ^ 8.
Definition u16 (z : Z) : Z := z mod 2 ^ 16.
Definition u32 (z : Z) : Z := z mod 2 ^ 32.
Definition u64 (z : Z) : Z := z mod 2 ^ 64.

(** Conversion to a signed 32-bit [int]. *)
Definition i32 (z : Z) : Z := (z + 2 ^ 31) mod 2 ^ 32 - 2 ^ 31.

(** [b] as a C [int]. *)
Definition b2z (b : bool) : Z := if b then 1 else 0.

Lemma u8_id z : 0 ≤ z < 2 ^ 8 → u8 z = z.
Proof. apply Z.mod_small. Qed.
Lemma u16_id z : 0 ≤ z < 2 ^ 16 → u16 z = z.
Proof. apply Z.mod_small. Qed.
Lemma u32_id z : 0 ≤ z < 2 ^ 32 → u32 z = z.
Proof. apply Z.mod_small. Qed.
Lemma u64_id z : 0 ≤ z < 2 ^ 64 → u64 z = z.
Proof. apply Z.mod_small. Qed.
Lemma u8_range z : 0 ≤ u8 z < 2 ^ 8.
Proof. by apply Z.mod_pos_bound. Qed.
Lemma u16_range z : 0 ≤ u16 z < 2 ^ 16.
Proof. by apply Z.mod_pos_bound. Qed.
Lemma u32_range z : 0 ≤ u32 z < 2 ^ 32.
Proof. by apply Z.mod_pos_bound. Qed.
Lemma u64_range z : 0 ≤ u64 z < 2 ^ 64.
Proof. by apply Z.mod_pos_bound. Qed.
Lemma i32_id z : - 2 ^ 31 ≤ z < 2 ^ 31 → i32 z = z.
Proof. intros ?. unfold i32. rewrite Z.mod_small; lia. Qed.
Lemma i32_range z : - 2 ^ 31 ≤ i32 z < 2 ^ 31.
Proof.
  unfold i32. pose proof (Z.mod_pos_bound (z + 2 ^ 31) (2 ^ 32)). lia.
Qed.

Create HintDb limnx discriminated.
Create Rewrite HintDb limnx_len.
#[export] Hint Resolve u8_range u16_range u32_range u64_range i32_range : limnx.

(** ** Permission and capability masks *)

(** Every bit of [p] is a bit of [q]. *)
Definition mask_sub (p q : Z) : Prop := ∀ i, Z.testbit p i = true → Z.testbit q i = true.

#[export] Instance mask_sub_preorder : PreOrder mask_sub.
Proof. split; unfold mask_sub; red; eauto. Qed.

(** [mask & ~caps == 0] at 32 bits is inclusion of the masks. *)
Lemma land_not32_zero p q :
  0 ≤ p < 2 ^ 32 → Z.land p (u32 (Z.lnot q)) = 0 ↔ mask_sub p q.
Proof.
  intros Hp. unfold mask_sub, u32. split.
  - intros H0 i Hi.
    destruct (decide (i < 0)); [by rewrite Z.testbit_neg_r in Hi by lia|].
    assert (Hf : Z.testbit (Z.land p (Z.lnot q mod 2 ^ 32)) i = false)
      by (rewrite H0; apply Z.bits_0).
    rewrite Z.land_spec, Hi, andb_true_l in Hf.
    destruct (decide (i < 32)).
    + rewrite Z.mod_pow2_bits_low, Z.lnot_spec in Hf by lia. by destruct (Z.testbit q i).
    + exfalso. rewrite (Z.bits_above_log2 p i) in Hi; [done|lia|].
      destruct (decide (p = 0)) as [->|]; [simpl; lia|].
      apply Z.log2_lt_pow2; [lia|]. eapply Z.lt_le_trans; [apply Hp|].
      apply Z.pow_le_mono_r; lia.
  - intros Hsub. apply Z.bits_inj_0. intros i.
    destruct (decide (i < 0)); [by rewrite Z.testbit_neg_r by lia|].
    rewrite Z.land_spec. destruct (Z.testbit p i) eqn:Hi; [|done].
    destruct (decide (i < 32)).
    + rewrite Z.mod_pow2_bits_low, Z.lnot_spec, (Hsub i Hi) by lia. done.
    + by rewrite Z.mod_pow2_bits_high by lia.
Qed.

(** A mask that shares a bit with [need] still does after widening. *)
Lemma mask_sub_land_nonzero p q need :
  mask_sub p q → Z.land p need ≠ 0 → Z.land q need ≠ 0.
Proof.
  intros Hsub Hne Heq. apply Hne, Z.bits_inj_0. intros i.
  rewrite Z.land_spec. destruct (Z.testbit p i) eqn:Hp; [|done].
  apply Hsub in Hp. assert (Z.testbit (Z.land q need) i = false) as Hq
    by (rewrite Heq; apply Z.bits_0).
  by rewrite Z.land_spec, Hp in Hq.
Qed.

(** ** Arrays

    A C array is a list.  [find_idx p l] is the scan
    [for (i = 0; i < n; i++) if (p(l[i])) ...]: the first index that satisfies
    [p], or [None] when the loop runs to its end. *)

Fixpoint find_idx {A} (p : A → bool) (l : list A) : option nat :=
  match l with
  | [] => None
  | x :: l' => if p x then Some O else S <$> find_idx p l'
  end.

Section find_idx.
Context {A : Type} (p : A → bool).
Implicit Types (l : list A) (i : nat).

Lemma find_idx_Some l i :
  find_idx p l = Some i ↔
  ∃ x, l !! i = Some x ∧ p x = true ∧ ∀ j y, (j < i)%nat → l !! j = Some y → p y = false.
Proof.
  revert i. induction l as [|a l IH]; intros i; simpl.
  { split; [done|]. by intros (x & Hx & _). }
  destruct (p a) eqn:Ha.
  - split.
    + intros [= <-]. exists a. split_and!; [done..|lia].
    + intros (x & Hx & Hpx & Hmin). destruct i as [|i]; [done|].
      specialize (Hmin O a ltac:(lia) eq_refl). congruence.
  - rewrite fmap_Some. split.
    + intros (k & Hk & ->). apply IH in Hk as (x & Hx & Hpx & Hmin).
      exists x. split_and!; [done..|]. intros [|j] y ? Hy; simpl in *; [congruence|].
      apply (Hmin j); [lia|done].
    + intros (x & Hx & Hpx & Hmin). destruct i as [|i]; simpl in *; [congruence|].
      exists i. split; [|done]. apply IH. exists x. split_and!; [done..|].
      intros j y ? Hy. apply (Hmin (S j)); [lia|done].
Qed.

Lemma find_idx_None l :
  find_idx p l = None ↔ ∀ i x, l !! i = Some x → p x = false.
Proof.
  induction l as [|a l IH]; simpl.
  { split; [|done]. intros _ i x. by rewrite lookup_nil. }
  destruct (p a) eqn:Ha.
  - split; [done|]. intros H. specialize (H O a eq_refl). congruence.
  - rewrite fmap_None, IH. split.
    + intros H [|i] x Hx; simpl in *; [congruence|eauto].
    + intros H i x Hx. apply (H (S i) x Hx).
Qed.

Lemma find_idx_lookup l i :
  find_idx p l = Some i → ∃ x, l !! i = Some x ∧ p x = true.
Proof. rewrite find_idx_Some. naive_solver. Qed.

Lemma find_idx_lt l i : find_idx p l = Some i → (i < length l)%nat.
Proof. intros (x & Hx & _)%find_idx_lookup. by eapply lookup_lt_Some. Qed.

Lemma find_idx_is_Some l i x :
  l !! i = Some x → p x = true → is_Some (find_idx p l).
Proof.
  intros Hl Hp. destruct (find_idx p l) eqn:E; [done|].
  eapply find_idx_None in E; [|done]. congruence.
Qed.

(** When at most one element satisfies [p], the scan finds it. *)
Lemma find_idx_unique l i x :
  l !! i = Some x → p x = true →
  (∀ j y, l !! j = Some y → p y = true → j = i) →
  find_idx p l = Some i.
Proof.
  intros Hl Hp Hu. apply find_idx_Some. exists x. split_and!; [done..|].
  intros j y ? Hy. destruct (p y) eqn:E; [|done]. specialize (Hu j y Hy E). lia.
Qed.
End find_idx.

Lemma find_idx_ext {A} (p q : A → bool) l :
  (∀ x, p x = q x) → find_idx p l = find_idx q l.
Proof. intros H. induction l as [|a l IH]; [done|]; simpl. by rewrite H, IH. Qed.

Lemma find_idx_ext_in {A} (p q : A → bool) l : (∀ x, x ∈ l → p x = q x) → find_idx p l = find_idx q l.
Proof.
  induction l as [|x l IH]; intros H; [done|]. cbn [find_idx]. rewrite H by (by left). rewrite IH; [done|].
  intros y Hy. apply H. by right.
Qed.

Lemma find_idx_app {A} (p : A → bool) l1 l2 :
  find_idx p (l1 ++ l2) = match find_idx p l1 with Some i => Some i | None => (λ i, (length l1 + i)%nat) <$> find_idx p l2 end.
Proof.
  induction l1 as [|x l1 IH]; cbn [app find_idx length Nat.add]; [by destruct (find_idx p l2)|].
  destruct (p x); [done|]. rewrite IH. destruct (find_idx p l1); [done|]. by destruct (find_idx p l2).
Qed.

Lemma find_idx_fmap {A B} (g : A → B) (p : B → bool) l : find_idx p (g <$> l) = find_idx (λ x, p (g x)) l.
Proof. induction l as [|x l IH]; [done|]. rewrite fmap_cons. cbn [find_idx]. by rewrite IH. Qed.

(** Number of elements that satisfy a test. *)
Definition countb {A} (p : A → bool) (l : list A) : nat := length (filter (λ x, p x = true) l).

Section countb.
Context {A : Type} (p : A → bool).
Implicit Types (l : list A).

Lemma countb_nil : countb p [] = O.
Proof. done. Qed.

Lemma countb_cons x l : countb p (x :: l) = ((if p x then 1 else 0) + countb p l)%nat.
Proof. unfold countb. rewrite filter_cons. case_decide; destruct (p x); simpl; congruence. Qed.

Lemma countb_le l : (countb p l ≤ length l)%nat.
Proof. unfold countb. apply length_filter. Qed.

Lemma countb_insert l i x y :
  l !! i = Some x →
  (countb p (<[i:=y]> l) + (if p x then 1 else 0) = countb p l + (if p y then 1 else 0))%nat.
Proof.
  revert i. induction l as [|a l IH]; intros [|i] Hi; simplify_eq/=; rewrite !countb_cons.
  - destruct (p x), (p y); lia.
  - specialize (IH i Hi). destruct (p a), (p x), (p y); lia.
Qed.

Lemma countb_pos l i x : l !! i = Some x → p x = true → (0 < countb p l)%nat.
Proof.
  intros Hi Hp. revert i Hi. induction l as [|a l IH]; intros [|i] Hi; simplify_eq/=;
    rewrite countb_cons.
  - rewrite Hp. lia.
  - specialize (IH i Hi). lia.
Qed.
End countb.

(** Case analysis on the result of a list update at a known index. *)
Lemma list_lookup_insert_cases {A} (l : list A) i j x y :
  <[i:=x]> l !! j = Some y →
  (j = i ∧ y = x ∧ (i < length l)%nat) ∨ (j ≠ i ∧ l !! j = Some y).
Proof. intros H. apply list_lookup_insert_Some in H. naive_solver. Qed.

Lemma prefix_take {A} (l k : list A) n :
  l `prefix_of` k → (length l ≤ n)%nat → l `prefix_of` take n k.
Proof.
  intros [m ->] Hn. rewrite take_app_ge by done. by exists (take (n - length l) m).
Qed.

(** Filters that agree on the elements of the list; a filter that keeps
    everything; a filter through a map. *)
Lemma filter_ext_in {A} (P Q : A → Prop) `{!∀ x, Decision (P x), !∀ x, Decision (Q x)} (l : list A) :
  (∀ x, x ∈ l → P x ↔ Q x) → filter P l = filter Q l.
Proof.
  induction l as [|a l IH]; intros Hx; [done|]. rewrite !filter_cons.
  rewrite IH by (intros x ?; apply Hx; by right). pose proof (Hx a (list_elem_of_here _ _)).
  repeat case_decide; naive_solver.
Qed.
Lemma filter_all {A} (P : A → Prop) `{!∀ x, Decision (P x)} (l : list A) :
  (∀ x, x ∈ l → P x) → filter P l = l.
Proof.
  induction l as [|a l IH]; intros Hx; [done|]. rewrite filter_cons_True by (apply Hx; by left).
  f_equal. apply IH. intros x ?. apply Hx. by right.
Qed.
Lemma filter_fmap {A B} (f : A → B) (P : B → Prop) `{!∀ x, Decision (P x)} (l : list A) :
  filter P (f <$> l) = f <$> filter (λ x, P (f x)) l.
Proof.
  induction l as [|a l IH]; [done|]. rewrite fmap_cons, !filter_cons, IH. by case_decide.
Qed.

(** Reachability: a predicate that holds initially and that every step
    preserves holds in every reachable state. *)
Lemma rtc_invariant {A} (R : relation A) (P : A → Prop) x y :
  (∀ a b, P a → R a b → P b) → rtc R x y → P x → P y.
Proof. intros HR Hxy. induction Hxy; eauto. Qed.

(** ** Automation *)

(** Decide the boolean guards of a translated handler and rewrite with them. *)
Ltac bool_hyps :=
  repeat match goal with
  | H : andb _ _ = true |- _ => apply andb_true_iff in H as [? ?]
  | H : orb _ _ = false |- _ => apply orb_false_iff in H as [? ?]
  | H : negb _ = true |- _ => apply negb_true_iff in H
  | H : negb _ = false |- _ => apply negb_false_iff in H
  | H : (_ =? _)%Z = true |- _ => apply Z.eqb_eq in H
  | H : (_ =? _)%Z = false |- _ => apply Z.eqb_neq in H
  | H : (_ <? _)%Z = true |- _ => apply Z.ltb_lt in H
  | H : (_ <? _)%Z = false |- _ => apply Z.ltb_ge in H
  | H : (_ <=? _)%Z = true |- _ => apply Z.leb_le in H
  | H : (_ <=? _)%Z = false |- _ => apply Z.leb_gt in H
  | H : bool_decide _ = true |- _ => apply bool_decide_eq_true in H
  | H : bool_decide _ = false |- _ => apply bool_decide_eq_false in H
  end.

(** Split every [if]/[match] of the goal and of the hypotheses. *)
Ltac case_all :=
  repeat (case_match; simplify_eq/=; bool_hyps).

(** Use of the scan lemmas in a hypothesis. *)
Ltac find_hyps :=
  repeat match goal with
  | H : find_idx _ _ = Some _ |- _ => apply find_idx_Some in H as (? & ? & ? & ?)
  end.
