(* ===== verification/KUtil.v ===== *)
(** * KUtil: C strings, memory copies and error codes

    Models [src/kernel/src/kutil.h] (string and memory helpers) and
    [src/kernel/src/errno.h].  A [char *] or a [char x[N]] is the list of the
    bytes from the pointer on; a position past the end of the list reads as
    NUL, so a list without a zero is a string that ends with the list.
    [c_str s] is the string that the bytes [s] hold: everything before the
    first NUL. *)

From S2P Require Import Prelude.

(** ** Error codes ([errno.h]) *)

Abbreviation EPERM := 1 (only parsing).
Abbreviation ENOENT := 2 (only parsing).
Abbreviation ESRCH := 3 (only parsing).
Abbreviation EIO := 5 (only parsing).
Abbreviation EAGAIN := 11 (only parsing).
Abbreviation ENOMEM := 12 (only parsing).
Abbreviation EACCES := 13 (only parsing).
Abbreviation EEXIST := 17 (only parsing).
Abbreviation EINVAL := 22 (only parsing).
Abbreviation ENOSPC := 28 (only parsing).
Abbreviation EMSGSIZE := 90 (only parsing).
Abbreviation EADDRINUSE := 98 (only parsing).
Abbreviation ENOBUFS := 105 (only parsing).
Abbreviation ENOTCONN := 107 (only parsing).
Abbreviation ECONNREFUSED := 111 (only parsing).

(** ** Strings *)

(** [s[i]]. *)
Definition c_at (s : list Z) (i : nat) : Z := default 0 (s !! i).

(** The string held by the bytes [s]. *)
Fixpoint c_str (s : list Z) : list Z :=
  match s with
  | [] => []
  | c :: s' => if c =? 0 then [] else c :: c_str s'
  end.

(** [str_eq]. *)
Fixpoint str_eq (a b : list Z) : bool :=
  match a, b with
  | x :: a', y :: b' =>
      if (x =? 0) || (y =? 0) then x =? y
      else if x =? y then str_eq a' b' else false
  | _, _ => c_at a 0 =? c_at b 0
  end.

(** The loop of [str_copy]: [n] characters may still be written. *)
Fixpoint str_copy_loop (n i : nat) (dst src : list Z) : list Z :=
  match n with
  | O => <[i := 0]> dst
  | S n' =>
      if c_at src i =? 0 then <[i := 0]> dst
      else str_copy_loop n' (S i) (<[i := c_at src i]> dst) src
  end.

(** [str_copy]: at most [max - 1] characters, always NUL-terminated. *)
Definition str_copy (dst src : list Z) (max : nat) : list Z :=
  if decide (max = O) then dst else str_copy_loop (max - 1) 0 dst src.

(** [mem_copy]: the loop [for (i = 0; i < n; i++) d[i] = s[i]]. *)
Fixpoint mem_copy_loop (n i : nat) (dst src : list Z) : list Z :=
  match n with
  | O => dst
  | S n' => mem_copy_loop n' (S i) (<[i := c_at src i]> dst) src
  end.

Definition mem_copy (dst src : list Z) (n : nat) : list Z := mem_copy_loop n 0 dst src.

(** The resource name [ns/<id>] that the cross-namespace checks of the pub/sub
    and task-graph services build for a capability-token lookup: one decimal
    digit below 10, two characters otherwise. *)
Definition ns_resource (ns : Z) : list Z :=
  [110; 115; 47] ++
  (if ns <? 10 then [u8 (48 + u8 ns); 0]
   else [u8 (48 + u8 (ns / 10)); u8 (48 + u8 (ns mod 10)); 0]).

(** ** Lemmas *)

Lemma c_at_drop s i : c_at (drop i s) 0 = c_at s i.
Proof. unfold c_at. by rewrite lookup_drop, Nat.add_0_r. Qed.

Lemma c_str_nonzero s : Forall (λ c, c ≠ 0) (c_str s).
Proof.
  induction s as [|c s IH]; simpl; [constructor|].
  destruct (c =? 0) eqn:E; constructor; [by apply Z.eqb_neq|done].
Qed.

Lemma c_str_app_nul s t : Forall (λ c, c ≠ 0) s → c_str (s ++ 0 :: t) = s.
Proof.
  induction 1 as [|c s Hc _ IH]; [done|]. simpl.
  apply Z.eqb_neq in Hc. by rewrite Hc, IH.
Qed.

Lemma c_str_id s : Forall (λ c, c ≠ 0) s → c_str s = s.
Proof.
  induction 1 as [|c s Hc _ IH]; [done|]; simpl. apply Z.eqb_neq in Hc. by rewrite Hc, IH.
Qed.

Lemma c_str_idemp s : c_str (c_str s) = c_str s.
Proof. apply c_str_id, c_str_nonzero. Qed.

Lemma c_str_nil s : c_at s 0 = 0 ↔ c_str s = [].
Proof.
  destruct s as [|c s]; [done|]. cbn. destruct (c =? 0) eqn:E; bool_hyps; [done|].
  split; [lia|done].
Qed.

Lemma length_c_str s : (length (c_str s) ≤ length s)%nat.
Proof. induction s as [|c s IH]; simpl; [lia|]. destruct (c =? 0); simpl; lia. Qed.

(** [str_eq] decides equality of the strings, whatever follows their NULs. *)
Lemma str_eq_true a b : str_eq a b = true ↔ c_str a = c_str b.
Proof.
  revert b. induction a as [|x a IH]; intros [|y b]; cbn [str_eq c_str].
  - done.
  - destruct y; cbn; split; done.
  - destruct x; cbn; split; done.
  - destruct (x =? 0) eqn:Ex, (y =? 0) eqn:Ey; bool_hyps; subst; cbn [orb].
    + done.
    + split; [intros ?%Z.eqb_eq; congruence|done].
    + split; [intros ?%Z.eqb_eq; congruence|done].
    + destruct (x =? y) eqn:Exy; bool_hyps; subst.
      * rewrite IH. split; congruence.
      * split; [done|congruence].
Qed.

Lemma str_eq_refl a : str_eq a a = true.
Proof. by apply str_eq_true. Qed.

Lemma str_eq_false a b : str_eq a b = false ↔ c_str a ≠ c_str b.
Proof. rewrite <-not_true_iff_false, str_eq_true. done. Qed.

Lemma str_eq_comm a b : str_eq a b = str_eq b a.
Proof.
  destruct (str_eq b a) eqn:E.
  - apply str_eq_true in E. by apply str_eq_true.
  - apply str_eq_false in E. by apply str_eq_false.
Qed.

(** [str_eq] respects equality of the strings on both sides. *)
Definition str_equiv (a b : list Z) : Prop := c_str a = c_str b.

#[export] Instance str_equiv_equivalence : Equivalence str_equiv.
Proof. unfold str_equiv. split; red; [done|by intros ?? ->|by intros ??? -> ->]. Qed.

#[export] Instance str_eq_proper : Proper (str_equiv ==> str_equiv ==> eq) str_eq.
Proof.
  intros a a' Ha b b' Hb. unfold str_equiv in *. destruct (str_eq a' b') eqn:E.
  - apply str_eq_true in E. apply str_eq_true. congruence.
  - apply str_eq_false in E. apply str_eq_false. congruence.
Qed.

Lemma take_c_str_step n s i :
  c_at s i ≠ 0 →
  take (S n) (c_str (drop i s)) = c_at s i :: take n (c_str (drop (S i) s)).
Proof.
  intros Hne. destruct (s !! i) as [c|] eqn:E; [|by unfold c_at in Hne; rewrite E in Hne].
  unfold c_at in *. rewrite E in *. simpl in Hne. rewrite (drop_S s c i E). simpl.
  apply Z.eqb_neq in Hne. by rewrite Hne.
Qed.

Lemma c_str_drop_stop s i : c_at s i = 0 → c_str (drop i s) = [].
Proof. intros H. apply c_str_nil. by rewrite c_at_drop. Qed.

Lemma str_copy_loop_spec n i dst src :
  (i + n < length dst)%nat →
  str_copy_loop n i dst src =
  let s := take n (c_str (drop i src)) in
  take i dst ++ s ++ 0 :: drop (S (i + length s)) dst.
Proof.
  revert i dst. induction n as [|n IH]; intros i dst Hlt; cbn [str_copy_loop].
  - cbn. rewrite Nat.add_0_r. apply insert_take_drop. lia.
  - destruct (c_at src i =? 0) eqn:E; bool_hyps.
    + rewrite c_str_drop_stop by done. cbn. rewrite Nat.add_0_r.
      apply insert_take_drop. lia.
    + rewrite IH by (rewrite length_insert; lia).
      rewrite take_c_str_step by done. cbv zeta.
      rewrite (take_S_r _ i (c_at src i)) by (apply list_lookup_insert_eq; lia).
      rewrite take_insert_ge by lia. rewrite drop_insert_lt by lia.
      rewrite <-app_assoc. cbn [app length]. by rewrite <-Nat.add_succ_comm.
Qed.

(** A bounded copy holds the first [max - 1] characters of its source, in a
    buffer of the same size. *)
Lemma c_str_str_copy dst src max :
  (0 < max ≤ length dst)%nat →
  c_str (str_copy dst src max) = take (max - 1) (c_str src).
Proof.
  intros H. unfold str_copy. rewrite decide_False by lia.
  rewrite str_copy_loop_spec by lia. cbn zeta. rewrite drop_0. cbn [take app].
  apply c_str_app_nul, Forall_take, c_str_nonzero.
Qed.

Lemma length_str_copy dst src max :
  length (str_copy dst src max) = length dst.
Proof.
  unfold str_copy. case_decide; [done|]. generalize (max - 1)%nat as n. intros n.
  generalize O as i. revert dst. induction n as [|n IH]; intros dst i; cbn.
  - apply length_insert.
  - destruct (c_at src i =? 0); [apply length_insert|]. by rewrite IH, length_insert.
Qed.

Lemma mem_copy_loop_spec n i dst src :
  (i + n ≤ length dst)%nat → (i + n ≤ length src)%nat →
  mem_copy_loop n i dst src = take i dst ++ take n (drop i src) ++ drop (i + n) dst.
Proof.
  revert i dst. induction n as [|n IH]; intros i dst Hd Hs; cbn [mem_copy_loop].
  - by rewrite Nat.add_0_r, take_0, app_nil_l, take_drop.
  - destruct (lookup_lt_is_Some_2 src i) as [c Hc]; [lia|].
    rewrite IH by (rewrite ?length_insert; lia).
    unfold c_at. rewrite Hc; cbn.
    rewrite (take_S_r _ i c) by (apply list_lookup_insert_eq; lia).
    rewrite take_insert_ge, drop_insert_lt by lia. rewrite (drop_S src c i Hc). cbn.
    rewrite <-app_assoc. cbn. by rewrite <-Nat.add_succ_comm.
Qed.

(** [mem_copy] replaces the first [n] bytes. *)
Lemma mem_copy_spec dst src n :
  (n ≤ length dst)%nat → (n ≤ length src)%nat →
  mem_copy dst src n = take n src ++ drop n dst.
Proof. intros ??. unfold mem_copy. rewrite mem_copy_loop_spec by lia. done. Qed.

Lemma length_mem_copy dst src n : length (mem_copy dst src n) = length dst.
Proof.
  unfold mem_copy. generalize O as i. revert dst.
  induction n as [|n IH]; intros dst i; [done|]; cbn. by rewrite IH, length_insert.
Qed.

Lemma take_mem_copy dst src n :
  (n ≤ length dst)%nat → (n ≤ length src)%nat → take n (mem_copy dst src n) = take n src.
Proof.
  intros ??. rewrite mem_copy_spec by done.
  rewrite take_app_le by (rewrite length_take; lia). rewrite take_take. f_equal. lia.
Qed.

#[export] Hint Rewrite length_str_copy length_mem_copy @length_insert : limnx_len.
