(* ===== verification/Ring.v ===== *)
(** * Ring: bounded circular buffers

    The kernel's mailboxes ([ipc/agent_reg.c]), topic queues ([ipc/pubsub.c]),
    socket buffers ([ipc/unix_sock.c]) and terminal buffers ([pty/pty.c]) are
    all the same structure: an array of [N] slots, a read position, a write
    position and a count.  This file gives the structure, the assignments the
    code performs on it, its invariant, and the refinement to an abstract
    first-in-first-out list: [ring_contents].

    Positions are [nat]: they stay below [N] (at most 4096), far from the
    width of the [uint32_t] that holds them. *)

From S2P Require Import Prelude.

Record ring (A : Type) := mk_ring {
  r_buf : list A;     (* the array *)
  r_head : nat;       (* head / rd_pos / read_pos *)
  r_tail : nat;       (* tail / wr_pos / write_pos *)
  r_count : nat
}.
Arguments mk_ring {A} _ _ _ _.
Arguments r_buf {A} _.
Arguments r_head {A} _.
Arguments r_tail {A} _.
Arguments r_count {A} _.

#[export] Instance ring_eta A : Eta (ring A) :=
  λ r, mk_ring (r_buf r) (r_head r) (r_tail r) (r_count r).

Section ring.
Context {A : Type} (N : nat).
Implicit Types (r : ring A) (f : A → A) (l : list A).

(** [head = tail = count = 0]: the slots keep their old bytes. *)
Definition ring_reset r : ring A :=
  r <| r_head := O |> <| r_tail := O |> <| r_count := O |>.

(** Write the slot at the tail with [f], then
    [tail = (tail + 1) % N; count++]. *)
Definition ring_put f r : ring A :=
  r <| r_buf := alter f (r_tail r) (r_buf r) |>
    <| r_tail := ((r_tail r + 1) mod N)%nat |>
    <| r_count := (r_count r + 1)%nat |>.

(** [head = (head + 1) % N; count--]. *)
Definition ring_drop r : ring A :=
  r <| r_head := ((r_head r + 1) mod N)%nat |>
    <| r_count := (r_count r - 1)%nat |>.

(** [buf[head]]. *)
Definition ring_peek r : option A := r_buf r !! r_head r.

(** The write position steps back: [if (tail == 0) tail = N - 1; else tail--;
    count--]. *)
Definition ring_unput r : ring A :=
  r <| r_tail := if decide (r_tail r = O) then (N - 1)%nat else (r_tail r - 1)%nat |>
    <| r_count := (r_count r - 1)%nat |>.

(** The queue the buffer holds, oldest first. *)
Definition ring_contents r : list A :=
  take (r_count r) (rotate (r_head r) (r_buf r)).

Definition ring_wf r : Prop :=
  length (r_buf r) = N ∧ (r_head r < N)%nat ∧ (r_count r ≤ N)%nat ∧
  r_tail r = ((r_head r + r_count r) mod N)%nat.

#[export] Instance ring_wf_dec r : Decision (ring_wf r).
Proof. unfold ring_wf. apply _. Defined.

Lemma add_mod_inj a i j :
  (i < N)%nat → (j < N)%nat → ((a + i) mod N = (a + j) mod N)%nat → i = j.
Proof.
  intros Hi Hj H. pose proof (Nat.div_mod_eq (a + i) N). pose proof (Nat.div_mod_eq (a + j) N).
  rewrite H in *. set (q := ((a + i) / N)%nat) in *. set (q' := ((a + j) / N)%nat) in *.
  assert (q = q') by nia. nia.
Qed.

Lemma mod_step a b : (((a mod N) + b) mod N = (a + b) mod N)%nat.
Proof. by rewrite Nat.Div0.add_mod_idemp_l. Qed.

Lemma length_ring_contents r : ring_wf r → length (ring_contents r) = r_count r.
Proof.
  intros (Hl & _ & Hc & _). unfold ring_contents.
  rewrite length_take, length_rotate. lia.
Qed.

Lemma ring_contents_lookup r i :
  ring_wf r →
  ring_contents r !! i =
  if decide (i < r_count r)%nat then r_buf r !! ((r_head r + i) mod N)%nat else None.
Proof.
  intros (Hl & Hh & Hc & _). unfold ring_contents. case_decide.
  - rewrite lookup_take_lt by lia. rewrite lookup_rotate_r by lia.
    unfold rotate_nat_add. f_equal. rewrite Hl.
    rewrite <-Nat2Z.inj_add, <-Nat2Z.inj_mod. lia.
  - apply lookup_ge_None. rewrite length_take. lia.
Qed.

Lemma ring_reset_wf r : (0 < N)%nat → length (r_buf r) = N → ring_wf (ring_reset r).
Proof.
  intros HN Hl. repeat split; cbn; try lia. by rewrite Nat.Div0.mod_0_l.
Qed.

Lemma ring_reset_contents r : ring_contents (ring_reset r) = [].
Proof. done. Qed.

Lemma ring_put_wf f r : ring_wf r → (r_count r < N)%nat → ring_wf (ring_put f r).
Proof.
  intros (Hl & Hh & Hc & Ht) Hlt. repeat split; cbn; try lia.
  - by rewrite length_alter.
  - rewrite Ht, mod_step. f_equal. lia.
Qed.

(** Writing a slot appends to the queue. *)
Lemma ring_put_contents f r :
  ring_wf r → (r_count r < N)%nat →
  ∃ x, r_buf r !! r_tail r = Some x ∧
       ring_contents (ring_put f r) = ring_contents r ++ [f x].
Proof.
  intros Hwf Hlt. pose proof (ring_put_wf f r Hwf Hlt) as Hwf'.
  pose proof Hwf as (Hl & Hh & Hc & Ht).
  destruct (lookup_lt_is_Some_2 (r_buf r) (r_tail r)) as [x Hx].
  { rewrite Ht, Hl. apply Nat.mod_upper_bound. lia. }
  exists x. split; [done|]. apply list_eq. intros i.
  rewrite (ring_contents_lookup _ _ Hwf'). cbn.
  destruct (decide (i < r_count r)%nat).
  - rewrite decide_True by lia.
    rewrite lookup_app_l by (rewrite length_ring_contents; [lia|done]).
    rewrite (ring_contents_lookup _ _ Hwf), decide_True by lia.
    rewrite list_lookup_alter_ne; [done|]. rewrite Ht. intros Heq.
    apply add_mod_inj in Heq; lia.
  - rewrite lookup_app_r by (rewrite length_ring_contents; [lia|done]).
    rewrite length_ring_contents by done.
    case_decide as Hd.
    + assert (i = r_count r) as -> by lia. rewrite <-Ht, list_lookup_alter_eq, Hx.
      by rewrite Nat.sub_diag.
    + symmetry. apply lookup_ge_None. cbn. lia.
Qed.

Lemma ring_drop_wf r : ring_wf r → (0 < r_count r)%nat → ring_wf (ring_drop r).
Proof.
  intros (Hl & Hh & Hc & Ht) Hlt. repeat split; cbn; try lia.
  - apply Nat.mod_upper_bound. lia.
  - rewrite Ht, mod_step. f_equal. lia.
Qed.

(** Reading at the head and stepping over it pops the queue. *)
Lemma ring_drop_contents r :
  ring_wf r → (0 < r_count r)%nat →
  ∃ x, ring_peek r = Some x ∧ ring_contents r = x :: ring_contents (ring_drop r).
Proof.
  intros Hwf Hlt. pose proof (ring_drop_wf r Hwf Hlt) as Hwf'.
  pose proof Hwf as (Hl & Hh & Hc & Ht).
  destruct (lookup_lt_is_Some_2 (r_buf r) (r_head r)) as [x Hx]; [lia|].
  exists x. split; [done|]. apply list_eq. intros [|i].
  - rewrite (ring_contents_lookup _ _ Hwf), decide_True by lia. cbn.
    by rewrite Nat.add_0_r, Nat.mod_small by lia.
  - rewrite (ring_contents_lookup _ _ Hwf). cbn.
    rewrite (ring_contents_lookup _ _ Hwf'). cbn.
    destruct (decide (S i < r_count r)%nat).
    + rewrite decide_True by lia. rewrite mod_step. do 2 f_equal. lia.
    + by rewrite decide_False by lia.
Qed.

Lemma ring_unput_wf r : ring_wf r → (0 < r_count r)%nat → ring_wf (ring_unput r).
Proof.
  intros (Hl & Hh & Hc & Ht) Hlt. repeat split; cbn; try lia. rewrite Ht.
  pose proof (Nat.div_mod_eq (r_head r + r_count r) N) as Hd.
  pose proof (Nat.mod_upper_bound (r_head r + r_count r) N ltac:(lia)).
  set (q := ((r_head r + r_count r) / N)%nat) in *. case_decide as H0.
  - rewrite H0 in Hd. assert (q = 1)%nat as Hq by nia. rewrite Hq in Hd.
    apply (Nat.mod_unique _ _ O); lia.
  - symmetry. assert (q = 0 ∨ q = 1)%nat as [Hq|Hq] by nia; rewrite Hq in Hd;
      symmetry; [apply (Nat.mod_unique _ _ O)|apply (Nat.mod_unique _ _ 1%nat)]; lia.
Qed.

(** Stepping the write position back removes the newest element. *)
Lemma ring_unput_contents r :
  ring_wf r → (0 < r_count r)%nat →
  ring_contents (ring_unput r) = take (r_count r - 1) (ring_contents r).
Proof.
  intros Hwf Hlt. unfold ring_contents. cbn. rewrite take_take. f_equal. lia.
Qed.

Lemma ring_contents_nil r : ring_wf r → ring_contents r = [] ↔ r_count r = O.
Proof. intros Hwf. rewrite <-length_zero_iff_nil. by rewrite length_ring_contents. Qed.
End ring.

#[export] Hint Resolve ring_reset_wf ring_put_wf ring_drop_wf ring_unput_wf : limnx.
