(* ===== verification/Dll.v ===== *)
(** * Dll: doubly linked LRU lists threaded through an array

    The block cache ([blk/bcache.c]: [dll_unlink], [dll_push_head] and the push
    at the tail in [bcache_invalidate]) and the inference cache
    ([ipc/infer_svc.c]: [cache_lru_remove], [cache_lru_push_front]) keep the
    same structure: entries of an array carry the indices of their neighbours
    (-1 for none), and two variables hold the ends.

    The class [Linked] says what such an entry offers; [dll_repr] relates the
    links to the abstract list of indices, and the operations are shown to be
    removal and insertion at either end. *)

From S2P Require Import Prelude.

(** An entry with link fields; [payload] is everything else. *)
Class Linked (E P : Type) := {
  l_prev : E → Z;
  l_next : E → Z;
  set_prev : Z → E → E;
  set_next : Z → E → E;
  payload : E → P;
  l_prev_set_prev v e : l_prev (set_prev v e) = v;
  l_next_set_prev v e : l_next (set_prev v e) = l_next e;
  l_prev_set_next v e : l_prev (set_next v e) = l_prev e;
  l_next_set_next v e : l_next (set_next v e) = v;
  payload_set_prev v e : payload (set_prev v e) = payload e;
  payload_set_next v e : payload (set_next v e) = payload e
}.

(** The array and the two ends. *)
Record dll (E : Type) := mk_dll { d_ent : list E; d_head : Z; d_tail : Z }.
Arguments mk_dll {E} _ _ _.
Arguments d_ent {E} _.
Arguments d_head {E} _.
Arguments d_tail {E} _.
#[export] Instance dll_eta E : Eta (dll E) := λ d, mk_dll (d_ent d) (d_head d) (d_tail d).

Section dll.
Context {E P : Type} `{!Inhabited E} `{!Linked E P}.
Implicit Types (ent : list E) (d : dll E) (l : list nat) (i : nat).

(** [cache[x].lru_next = v] and [cache[x].lru_prev = v]. *)
Definition store_next (x : Z) (v : Z) ent : list E := alter (set_next v) (Z.to_nat x) ent.
Definition store_prev (x : Z) (v : Z) ent : list E := alter (set_prev v) (Z.to_nat x) ent.

Definition dll_unlink (i : nat) d : dll E :=
  let e := d_ent d !!! i in
  let d := if 0 <=? l_prev e
           then d <| d_ent := store_next (l_prev e) (l_next e) (d_ent d) |>
           else d <| d_head := l_next e |> in
  let e := d_ent d !!! i in
  let d := if 0 <=? l_next e
           then d <| d_ent := store_prev (l_next e) (l_prev e) (d_ent d) |>
           else d <| d_tail := l_prev e |> in
  d <| d_ent := store_next (Z.of_nat i) (-1) (store_prev (Z.of_nat i) (-1) (d_ent d)) |>.

Definition dll_push_head (i : nat) d : dll E :=
  let d := d <| d_ent := store_next (Z.of_nat i) (d_head d) (store_prev (Z.of_nat i) (-1) (d_ent d)) |> in
  let d := if 0 <=? d_head d
           then d <| d_ent := store_prev (d_head d) (Z.of_nat i) (d_ent d) |> else d in
  let d := d <| d_head := Z.of_nat i |> in
  if d_tail d <? 0 then d <| d_tail := Z.of_nat i |> else d.

Definition dll_push_tail (i : nat) d : dll E :=
  let d := d <| d_ent := store_prev (Z.of_nat i) (d_tail d) (store_next (Z.of_nat i) (-1) (d_ent d)) |> in
  let d := if 0 <=? d_tail d
           then d <| d_ent := store_next (d_tail d) (Z.of_nat i) (d_ent d) |> else d in
  let d := d <| d_tail := Z.of_nat i |> in
  if d_head d <? 0 then d <| d_head := Z.of_nat i |> else d.

(** ** Representation *)

(** First index of [l], or [z]; last index of [l], or [z]. *)
Definition first_or (l : list nat) (z : Z) : Z := match l with [] => z | i :: _ => Z.of_nat i end.
Definition last_or (z : Z) (l : list nat) : Z := match last l with None => z | Some i => Z.of_nat i end.

(** A segment of the list between the neighbours [p] and [n]. *)
Fixpoint dseg ent (p : Z) (l : list nat) (n : Z) : Prop :=
  match l with
  | [] => True
  | i :: l' => (∃ e, ent !! i = Some e ∧ l_prev e = p ∧ l_next e = first_or l' n) ∧
               dseg ent (Z.of_nat i) l' n
  end.

Definition dll_repr d l : Prop :=
  NoDup l ∧ d_head d = first_or l (-1) ∧ d_tail d = last_or (-1) l ∧ dseg (d_ent d) (-1) l (-1).

(** ** Lemmas *)

Lemma last_or_app z l k : last_or z (l ++ k) = last_or (last_or z l) k.
Proof. unfold last_or. rewrite last_app. by destruct (last k), (last l). Qed.

Lemma first_or_app l k z : first_or (l ++ k) z = first_or l (first_or k z).
Proof. by destruct l. Qed.

Lemma dseg_app ent p l k n :
  dseg ent p (l ++ k) n ↔ dseg ent p l (first_or k n) ∧ dseg ent (last_or p l) k n.
Proof.
  revert p. induction l as [|i l IH]; intros p; cbn [app dseg].
  { split; [done|]. by intros [_ ?]. }
  rewrite IH, first_or_app. change (i :: l) with ([i] ++ l). rewrite last_or_app. cbn. tauto.
Qed.

(** Only the links of the indices of a segment matter. *)
Lemma dseg_frame ent ent' p l n :
  (∀ i e, i ∈ l → ent !! i = Some e → ∃ e', ent' !! i = Some e' ∧ l_prev e' = l_prev e ∧ l_next e' = l_next e) →
  dseg ent p l n → dseg ent' p l n.
Proof.
  revert p. induction l as [|i l IH]; intros p Hf; cbn [dseg]; [done|].
  intros [(e & He & Hp & Hn) Hs]. split.
  - destruct (Hf i e) as (e' & ? & ? & ?); [by left|done|]. exists e'. split_and!; congruence.
  - apply IH; [|done]. intros j e' Hj. apply Hf. by right.
Qed.

Lemma store_next_lookup x v ent i :
  store_next x v ent !! i = if decide (i = Z.to_nat x) then set_next v <$> ent !! i else ent !! i.
Proof.
  unfold store_next. case_decide as H; [subst; apply list_lookup_alter_eq|by apply list_lookup_alter_ne].
Qed.
Lemma store_prev_lookup x v ent i :
  store_prev x v ent !! i = if decide (i = Z.to_nat x) then set_prev v <$> ent !! i else ent !! i.
Proof.
  unfold store_prev. case_decide as H; [subst; apply list_lookup_alter_eq|by apply list_lookup_alter_ne].
Qed.

(** A store into an entry outside the segment does not matter. *)
Lemma dseg_store_next ent p l n x v : Z.to_nat x ∉ l → dseg ent p l n → dseg (store_next x v ent) p l n.
Proof.
  intros Hx. apply dseg_frame. intros i e Hi He. exists e. rewrite store_next_lookup.
  rewrite decide_False by (intros ->; done). done.
Qed.
Lemma dseg_store_prev ent p l n x v : Z.to_nat x ∉ l → dseg ent p l n → dseg (store_prev x v ent) p l n.
Proof.
  intros Hx. apply dseg_frame. intros i e Hi He. exists e. rewrite store_prev_lookup.
  rewrite decide_False by (intros ->; done). done.
Qed.

(** Redirecting the last link, and the first. *)
Lemma dseg_relink_last ent p l n v :
  NoDup l → dseg ent p l n → l ≠ [] → dseg (store_next (last_or (-1) l) v ent) p l v.
Proof.
  intros Hnd Hs Hne. destruct l as [|j l _] using rev_ind; [done|].
  rewrite last_or_app. change (last_or (last_or (-1) l) [j]) with (Z.of_nat j).
  apply dseg_app in Hs as [Hs [(e & He & Hp & Hn) _]]. apply NoDup_app in Hnd as (_ & Hdj & _).
  apply dseg_app. split; [|split; [|done]].
  - apply dseg_store_next; [|done]. rewrite Nat2Z.id. intros Hin. apply (Hdj _ Hin). by left.
  - exists (set_next v e). rewrite store_next_lookup, Nat2Z.id, decide_True, He by done. cbn.
    by rewrite l_prev_set_next, l_next_set_next.
Qed.

Lemma dseg_relink_first ent p l n v :
  NoDup l → dseg ent p l n → l ≠ [] → dseg (store_prev (first_or l (-1)) v ent) v l n.
Proof.
  intros Hnd Hs Hne. destruct l as [|j l]; [done|]. cbn [dseg first_or] in *.
  destruct Hs as [(e & He & Hp & Hn) Hs]. apply NoDup_cons in Hnd as [Hj _]. split.
  - exists (set_prev v e). rewrite store_prev_lookup, Nat2Z.id, decide_True, He by done. cbn.
    by rewrite l_prev_set_prev, l_next_set_prev.
  - apply dseg_store_prev; [|done]. by rewrite Nat2Z.id.
Qed.

(** Stores do not touch the payload. *)
Lemma store_next_payload x v ent : payload <$> store_next x v ent = payload <$> ent.
Proof.
  apply list_eq. intros j. rewrite !list_lookup_fmap, store_next_lookup. case_decide; [|done].
  destruct (ent !! j); cbn; [|done]. by rewrite payload_set_next.
Qed.
Lemma store_prev_payload x v ent : payload <$> store_prev x v ent = payload <$> ent.
Proof.
  apply list_eq. intros j. rewrite !list_lookup_fmap, store_prev_lookup. case_decide; [|done].
  destruct (ent !! j); cbn; [|done]. by rewrite payload_set_prev.
Qed.

Lemma length_payload ent ent' : payload <$> ent' = payload <$> ent → length ent' = length ent.
Proof. intros H. apply (f_equal length) in H. by rewrite !length_fmap in H. Qed.

Lemma last_or_nonneg l : 0 ≤ last_or (-1) l ↔ l ≠ [].
Proof.
  destruct l as [|i l _] using rev_ind; [cbn; split; [lia|done]|].
  rewrite last_or_app. cbn. split; [intros _; by destruct l|lia].
Qed.
Lemma first_or_nonneg l : 0 ≤ first_or l (-1) ↔ l ≠ [].
Proof. destruct l; cbn; split; (done || lia). Qed.

Lemma last_or_in l z : l ≠ [] → Z.to_nat (last_or z l) ∈ l.
Proof.
  destruct l as [|i l _] using rev_ind; [done|]. intros _. rewrite last_or_app. cbn. rewrite Nat2Z.id.
  apply elem_of_app. right. by left.
Qed.
Lemma first_or_in l z : l ≠ [] → Z.to_nat (first_or l z) ∈ l.
Proof. destruct l; [done|]. intros _. cbn. rewrite Nat2Z.id. by left. Qed.

(** ** The operations on the abstract list *)

Lemma dll_unlink_spec d l1 i l2 :
  dll_repr d (l1 ++ i :: l2) →
  let d' := dll_unlink i d in
  dll_repr d' (l1 ++ l2) ∧ payload <$> d_ent d' = payload <$> d_ent d.
Proof.
  intros (Hnd & Hh & Ht & Hs).
  apply dseg_app in Hs as [Hs1 [(e & He & Hp & Hn) Hs2]]. cbn [first_or] in Hs1.
  assert (NoDup l1 ∧ NoDup l2 ∧ (i ∉ l1) ∧ (i ∉ l2) ∧ (∀ x, x ∈ l1 → x ∉ l2)) as (Hnd1 & Hnd2 & Hi1 & Hi2 & Hdis).
  { apply NoDup_app in Hnd as (? & Hd & [? ?]%NoDup_cons). split_and!; [done..| |done|].
    - intros Hin. apply (Hd i Hin). by left.
    - intros x Hx1 Hx2. apply (Hd x Hx1). by right. }
  assert (NoDup (l1 ++ l2)) as Hnd12 by (apply NoDup_app; split_and!; done).
  rewrite first_or_app in Hh. rewrite last_or_app in Ht. change (i :: l2) with ([i] ++ l2) in Ht.
  rewrite last_or_app in Ht. change (last_or (last_or (-1) l1) [i]) with (Z.of_nat i) in Ht.
  unfold dll_unlink. cbv zeta. rewrite (list_lookup_total_correct _ _ _ He), Hp, Hn.
  set (pv := last_or (-1) l1) in *. set (nx := first_or l2 (-1)) in *.
  (* the predecessor, or the head *)
  set (d1 := if 0 <=? pv then _ else _).
  assert (d_head d1 = first_or (l1 ++ l2) (-1) ∧ d_tail d1 = d_tail d ∧ d_ent d1 !! i = Some e ∧
    payload <$> d_ent d1 = payload <$> d_ent d ∧
    dseg (d_ent d1) (-1) l1 nx ∧ dseg (d_ent d1) (Z.of_nat i) l2 (-1)) as (Hh1 & Ht1 & He1 & Hpl1 & Hs11 & Hs12).
  { rewrite first_or_app. subst d1. destruct (0 <=? pv) eqn:Eq; bool_hyps.
    - assert (l1 ≠ []) as Hne by by apply last_or_nonneg.
      pose proof (last_or_in l1 (-1) Hne) as Hin. fold pv in Hin.
      cbn [field_upd d_head d_tail d_ent]. split_and!.
      + rewrite Hh. by destruct l1.
      + done.
      + rewrite store_next_lookup, decide_False by (intros ->; done). done.
      + apply store_next_payload.
      + by apply (dseg_relink_last _ _ _ (Z.of_nat i)).
      + apply dseg_store_next; [|done]. by apply Hdis.
    - assert (l1 = []) as -> by (destruct (decide (l1 = [])) as [|Hne]; [done|]; apply last_or_nonneg in Hne; fold pv in Hne; lia).
      split_and!; done. }
  clearbody d1. rewrite (list_lookup_total_correct _ _ _ He1), Hp, Hn.
  (* the successor, or the tail *)
  set (d2 := if 0 <=? nx then _ else _).
  assert (d_head d2 = first_or (l1 ++ l2) (-1) ∧ d_tail d2 = last_or (-1) (l1 ++ l2) ∧
    payload <$> d_ent d2 = payload <$> d_ent d ∧ dseg (d_ent d2) (-1) (l1 ++ l2) (-1)) as (Hh2 & Ht2 & Hpl2 & Hs2').
  { rewrite last_or_app. fold pv. subst d2. destruct (0 <=? nx) eqn:Eq; bool_hyps.
    - assert (l2 ≠ []) as Hne by by apply first_or_nonneg.
      pose proof (first_or_in l2 (-1) Hne) as Hin. fold nx in Hin.
      cbn [field_upd d_head d_tail d_ent]. split_and!.
      + done.
      + rewrite Ht1, Ht. destruct l2 as [|x l2 _] using rev_ind; [done|]. by rewrite !last_or_app.
      + by rewrite store_prev_payload.
      + apply dseg_app. split.
        * apply dseg_store_prev; [|done]. intros Hx. by apply (Hdis _ Hx).
        * by apply (dseg_relink_first _ (Z.of_nat i)).
    - assert (l2 = []) as -> by (destruct (decide (l2 = [])) as [|Hne]; [done|]; apply first_or_nonneg in Hne; fold nx in Hne; lia).
      cbn [field_upd d_head d_tail d_ent]. rewrite app_nil_r in *. split_and!; done. }
  clearbody d2. cbn [field_upd d_head d_tail d_ent]. split.
  - split_and!; cbn [field_upd d_head d_tail d_ent]; [done..|].
    assert (i ∉ l1 ++ l2) by (rewrite elem_of_app; tauto).
    apply dseg_store_next; [by rewrite Nat2Z.id|]. apply dseg_store_prev; [by rewrite Nat2Z.id|done].
  - by rewrite store_next_payload, store_prev_payload.
Qed.

Lemma dll_push_head_spec d l i :
  dll_repr d l → i ∉ l → (i < length (d_ent d))%nat →
  let d' := dll_push_head i d in
  dll_repr d' (i :: l) ∧ payload <$> d_ent d' = payload <$> d_ent d.
Proof.
  intros (Hnd & Hh & Ht & Hs) Hi [e He]%lookup_lt_is_Some_2. unfold dll_push_head. cbv zeta.
  cbn [field_upd d_head d_tail d_ent].
  set (ent1 := store_next _ _ (store_prev _ _ (d_ent d))).
  assert (payload <$> ent1 = payload <$> d_ent d) as Hpl1
    by (unfold ent1; by rewrite store_next_payload, store_prev_payload).
  assert (ent1 !! i = Some (set_next (d_head d) (set_prev (-1) e))) as He1.
  { unfold ent1. rewrite store_next_lookup, Nat2Z.id, decide_True by done.
    by rewrite store_prev_lookup, Nat2Z.id, decide_True, He by done. }
  assert (dseg ent1 (-1) l (-1)) as Hs1.
  { apply dseg_store_next; [by rewrite Nat2Z.id|]. apply dseg_store_prev; [by rewrite Nat2Z.id|done]. }
  clearbody ent1.
  set (d1 := if 0 <=? d_head d then _ else _).
  assert (d_tail d1 = d_tail d ∧ payload <$> d_ent d1 = payload <$> d_ent d ∧
    dseg (d_ent d1) (-1) (i :: l) (-1)) as (Ht1 & Hpl & Hs2).
  { subst d1. rewrite Hh. destruct (0 <=? first_or l (-1)) eqn:Eq; bool_hyps.
    - assert (l ≠ []) as Hne by by apply first_or_nonneg. cbn [field_upd d_head d_tail d_ent].
      split_and!; [done|by rewrite store_prev_payload|].
      pose proof (first_or_in l (-1) Hne) as Hin. cbn [dseg]. split.
      + eexists. rewrite store_prev_lookup, decide_False by (intros ->; done). rewrite He1.
        split; [reflexivity|]. by rewrite l_prev_set_next, l_next_set_next, l_prev_set_prev, Hh.
      + by apply (dseg_relink_first _ (-1)).
    - assert (l = []) as -> by (destruct l; [done|]; cbn in Eq; lia).
      cbn [field_upd d_head d_tail d_ent dseg]. split_and!; [done..| |done].
      eexists. split; [exact He1|]. by rewrite l_prev_set_next, l_next_set_next, l_prev_set_prev, Hh. }
  clearbody d1. cbn [field_upd d_head d_tail d_ent]. rewrite Ht1, Ht.
  assert (NoDup (i :: l)) by by apply NoDup_cons.
  destruct (last_or (-1) l <? 0) eqn:Eq; bool_hyps; cbn [field_upd d_head d_tail d_ent]; (split; [|done]).
  - assert (l = []) as -> by (destruct (decide (l = [])) as [|Hne]; [done|]; apply last_or_nonneg in Hne; lia).
    split_and!; done.
  - split_and!; cbn [field_upd d_head d_tail d_ent]; [done|done| |done]. rewrite Ht1, Ht.
    assert (l ≠ []) as Hne by by apply last_or_nonneg.
    change (i :: l) with ([i] ++ l). rewrite last_or_app. destruct l as [|x l _] using rev_ind; [done|].
    by rewrite !last_or_app.
Qed.

Lemma dll_push_tail_spec d l i :
  dll_repr d l → i ∉ l → (i < length (d_ent d))%nat →
  let d' := dll_push_tail i d in
  dll_repr d' (l ++ [i]) ∧ payload <$> d_ent d' = payload <$> d_ent d.
Proof.
  intros (Hnd & Hh & Ht & Hs) Hi [e He]%lookup_lt_is_Some_2. unfold dll_push_tail. cbv zeta.
  cbn [field_upd d_head d_tail d_ent].
  set (ent1 := store_prev _ _ (store_next _ _ (d_ent d))).
  assert (payload <$> ent1 = payload <$> d_ent d) as Hpl1
    by (unfold ent1; by rewrite store_prev_payload, store_next_payload).
  assert (ent1 !! i = Some (set_prev (d_tail d) (set_next (-1) e))) as He1.
  { unfold ent1. rewrite store_prev_lookup, Nat2Z.id, decide_True by done.
    by rewrite store_next_lookup, Nat2Z.id, decide_True, He by done. }
  assert (dseg ent1 (-1) l (-1)) as Hs1.
  { apply dseg_store_prev; [by rewrite Nat2Z.id|]. apply dseg_store_next; [by rewrite Nat2Z.id|done]. }
  clearbody ent1.
  set (d1 := if 0 <=? d_tail d then _ else _).
  assert (d_head d1 = d_head d ∧ payload <$> d_ent d1 = payload <$> d_ent d ∧
    dseg (d_ent d1) (-1) (l ++ [i]) (-1)) as (Hh1 & Hpl & Hs2).
  { subst d1. rewrite Ht. destruct (0 <=? last_or (-1) l) eqn:Eq; bool_hyps.
    - assert (l ≠ []) as Hne by by apply last_or_nonneg. cbn [field_upd d_head d_tail d_ent].
      split_and!; [done|by rewrite store_next_payload|].
      pose proof (last_or_in l (-1) Hne) as Hin. apply dseg_app. split.
      + by apply (dseg_relink_last _ _ _ (-1)).
      + split; [|done]. eexists. rewrite store_next_lookup, decide_False by (intros ->; done). rewrite He1.
        split; [reflexivity|]. by rewrite l_prev_set_prev, l_next_set_prev, l_next_set_next, Ht.
    - assert (l = []) as -> by (destruct (decide (l = [])) as [|Hne]; [done|]; apply last_or_nonneg in Hne; lia).
      cbn [field_upd d_head d_tail d_ent dseg app]. split_and!; [done..| |done].
      eexists. split; [exact He1|]. by rewrite l_prev_set_prev, l_next_set_prev, l_next_set_next, Ht. }
  clearbody d1. cbn [field_upd d_head d_tail d_ent]. rewrite Hh1, Hh.
  assert (NoDup (l ++ [i])).
  { apply NoDup_app. split_and!; [done| |apply NoDup_singleton]. intros x Hx ->%list_elem_of_singleton. done. }
  destruct (first_or l (-1) <? 0) eqn:Eq; bool_hyps; cbn [field_upd d_head d_tail d_ent]; (split; [|done]).
  - assert (l = []) as -> by (destruct l; [done|]; cbn in Eq; lia). split_and!; done.
  - assert (l ≠ []) as Hne by by apply first_or_nonneg.
    split_and!; cbn [field_upd d_head d_tail d_ent]; [done| |by rewrite last_or_app|done].
    rewrite Hh1, Hh. by destruct l.
Qed.

(** Storing an entry back with its own links, or any entry outside the list. *)
Lemma dll_repr_set d l i e e' :
  dll_repr d l → d_ent d !! i = Some e →
  (i ∈ l → l_prev e' = l_prev e ∧ l_next e' = l_next e) →
  dll_repr (d <| d_ent := <[i := e']> (d_ent d) |>) l.
Proof.
  intros (Hnd & Hh & Ht & Hs) Hi Hl. split_and!; [done..|]. cbn [field_upd d_ent].
  revert Hs. apply dseg_frame. intros j x Hj Hx. destruct (decide (j = i)) as [->|Hne].
  - rewrite Hi in Hx. injection Hx as <-. exists e'.
    rewrite list_lookup_insert_eq by by eapply lookup_lt_Some. by destruct (Hl Hj).
  - exists x. by rewrite list_lookup_insert_ne.
Qed.

(** The payload of the entries, pointwise. *)
Lemma payload_lookup ent ent' i e :
  payload <$> ent' = payload <$> ent → ent !! i = Some e →
  ∃ e', ent' !! i = Some e' ∧ payload e' = payload e.
Proof.
  intros H Hi. apply (f_equal (.!! i)) in H. rewrite !list_lookup_fmap, Hi in H. cbn in H.
  apply fmap_Some in H as (e' & He' & ->). by exists e'.
Qed.

Lemma dll_tail_last d l i : dll_repr d (l ++ [i]) → d_tail d = Z.of_nat i.
Proof. intros (_ & _ & -> & _). by rewrite last_or_app. Qed.

Lemma dll_tail_nil d l : dll_repr d l → 0 ≤ d_tail d ↔ l ≠ [].
Proof. intros (_ & _ & -> & _). apply last_or_nonneg. Qed.
End dll.
