(* ===== verification/CapToken.v ===== *)
(** * CapToken: delegable, revocable capability tokens

    Models [src/kernel/src/ipc/cap_token.c] and [cap_token.h]: the table of
    [MAX_TOKENS] tokens and the counter of token identifiers, creation,
    delegation (whose lock is released between its three phases), cascading
    revocation, the access check, listing and process cleanup.

    The theorems: revocation removes exactly the delegation subtree; every
    token in a reachable state is bounded, in permissions and in resource, by
    a creation whose creator held those capabilities; the access check is
    exactly the existence of a matching token. *)

From S2P Require Import Prelude KUtil.

Abbreviation MAX_TOKENS := 32%nat (only parsing).
Abbreviation TOKEN_PATH_MAX := 64%nat (only parsing).
Abbreviation TOKEN_MAX_DEPTH := 4 (only parsing).

(** ** State *)

Record cap_token := mk_cap_token {
  tok_id : Z;
  tok_owner_pid : Z;
  tok_target_pid : Z;        (* 0 = bearer *)
  tok_perms : Z;
  tok_resource : list Z;     (* char resource[TOKEN_PATH_MAX] *)
  tok_parent_id : Z;         (* 0 = root token *)
  tok_depth : Z;
  tok_used : bool
}.
#[export] Instance cap_token_eta : Eta cap_token := λ t,
  mk_cap_token (tok_id t) (tok_owner_pid t) (tok_target_pid t) (tok_perms t)
    (tok_resource t) (tok_parent_id t) (tok_depth t) (tok_used t).
#[export] Instance cap_token_inhabited : Inhabited cap_token :=
  populate (mk_cap_token 0 0 0 0 (replicate TOKEN_PATH_MAX 0) 0 0 false).

Record token_info := mk_token_info {
  ti_id : Z;
  ti_target_pid : Z;
  ti_perms : Z;
  ti_resource : list Z
}.

Record token_st := mk_token_st {
  tokens : list cap_token;
  next_token_id : Z
}.
#[export] Instance token_st_eta : Eta token_st := λ s,
  mk_token_st (tokens s) (next_token_id s).

(** The static initialisation: a zeroed table, identifiers from 1. *)
Definition token_init : token_st := mk_token_st (replicate MAX_TOKENS inhabitant) 1.

(** ** Operations *)

(** Simple prefix match: does [path] start with [prefix]? *)
Fixpoint prefix_match (prefix path : list Z) : bool :=
  match prefix with
  | [] => true
  | c :: prefix' =>
      if c =? 0 then true
      else if negb (c_at path 0 =? c) then false
      else prefix_match prefix' (tail path)
  end.

Definition cap_token_create (owner_pid owner_caps perms target_pid : Z)
    (resource : option (list Z)) (st : token_st) : Z * token_st :=
  if negb (Z.land perms (u32 (Z.lnot owner_caps)) =? 0) then (- EPERM, st)
  else
    match find_idx (λ t, negb (tok_used t)) (tokens st) with
    | Some i =>
        let t0 := tokens st !!! i in
        let t :=
          t0 <| tok_used := true |>
             <| tok_id := next_token_id st |>
             <| tok_owner_pid := owner_pid |>
             <| tok_target_pid := target_pid |>
             <| tok_perms := perms |>
             <| tok_parent_id := 0 |>
             <| tok_depth := 0 |>
             <| tok_resource :=
                  match resource with
                  | Some r => str_copy (tok_resource t0) r TOKEN_PATH_MAX
                  | None => <[O := 0]> (tok_resource t0)
                  end |> in
        (i32 (next_token_id st),
         st <| tokens := <[i := t]> (tokens st) |>
            <| next_token_id := u32 (next_token_id st + 1) |>)
    | None => (- ENOMEM, st)
    end.

(** The test [tokens[i].used && tokens[i].id == token_id]. *)
Definition token_is (token_id : Z) (t : cap_token) : bool :=
  tok_used t && (tok_id t =? token_id).

(** First part of [revoke_cascade_locked]: clear the token itself. *)
Definition revoke_self (token_id : Z) (ts : list cap_token) : list cap_token :=
  match find_idx (token_is token_id) ts with
  | Some i => <[i := (ts !!! i) <| tok_used := false |>]> ts
  | None => ts
  end.

(** The scan of one pass: positions [i], [i+1], ... ([n] of them), with the
    recursive call on each used child, in the current table. *)
Fixpoint revoke_scan (rec : Z → list cap_token → list cap_token)
    (token_id : Z) (i n : nat) (ts : list cap_token) (found : bool)
    : list cap_token * bool :=
  match n with
  | O => (ts, found)
  | S n' =>
      match ts !! i with
      | Some t =>
          if tok_used t && (tok_parent_id t =? token_id)
          then revoke_scan rec token_id (S i) n' (rec (tok_id t) ts) true
          else revoke_scan rec token_id (S i) n' ts found
      | None => (ts, found)
      end
  end.

(** The passes: repeat the scan until it finds no child. *)
Fixpoint revoke_passes (rec : Z → list cap_token → list cap_token)
    (passes : nat) (token_id : Z) (ts : list cap_token) : list cap_token :=
  match passes with
  | O => ts
  | S passes' =>
      let '(ts', found) := revoke_scan rec token_id 0 MAX_TOKENS ts false in
      if found then revoke_passes rec passes' token_id ts' else ts'
  end.

(** [revoke_cascade_locked].  Every call clears a used token before it
    recurses, so [fuel] larger than the number of used tokens is enough. *)
Fixpoint revoke_cascade_locked (fuel : nat) (token_id : Z) (ts : list cap_token)
    : list cap_token :=
  match fuel with
  | O => ts
  | S fuel' =>
      revoke_passes (revoke_cascade_locked fuel') MAX_TOKENS token_id
        (revoke_self token_id ts)
  end.

Definition revoke_fuel : nat := S MAX_TOKENS.

Definition cap_token_revoke (token_id caller_pid : Z) (st : token_st) : Z * token_st :=
  match find_idx (token_is token_id) (tokens st) with
  | Some i =>
      if negb (tok_owner_pid (tokens st !!! i) =? caller_pid) then (- EPERM, st)
      else (0, st <| tokens := revoke_cascade_locked revoke_fuel token_id (tokens st) |>)
  | None => (- ENOENT, st)
  end.

(** The body of the loop of [cap_token_check]: does this token grant the access? *)
Definition token_grants (pid needed_cap : Z) (resource : option (list Z)) (t : cap_token)
    : bool :=
  if negb (tok_used t) then false
  else if negb (tok_target_pid t =? 0) && negb (tok_target_pid t =? pid) then false
  else if Z.land (tok_perms t) needed_cap =? 0 then false
  else
    match resource with
    | Some r =>
        if negb (c_at (tok_resource t) 0 =? 0) then prefix_match (tok_resource t) r
        else true
    | None => true
    end.

Definition cap_token_check (pid needed_cap : Z) (resource : option (list Z))
    (st : token_st) : Z :=
  match find_idx (token_grants pid needed_cap resource) (tokens st) with
  | Some _ => 1
  | None => 0
  end.

(** The loop of [cap_token_list]: [room] entries of the buffer are left. *)
Fixpoint token_list_loop (owner_pid : Z) (room : nat) (ts : list cap_token)
    : list token_info :=
  match ts, room with
  | [], _ | _, O => []
  | t :: ts', S room' =>
      if tok_used t && (tok_owner_pid t =? owner_pid)
      then mk_token_info (tok_id t) (tok_target_pid t) (tok_perms t) (tok_resource t)
             :: token_list_loop owner_pid room' ts'
      else token_list_loop owner_pid room ts'
  end.

(** [cap_token_list]: the entries written to the buffer and their number. *)
Definition cap_token_list (owner_pid max_count : Z) (st : token_st)
    : Z * list token_info :=
  let out := token_list_loop owner_pid (Z.to_nat max_count) (tokens st) in
  (Z.of_nat (length out), out).

(** What the first critical section of [cap_token_delegate] passes on. *)
Record delegation := mk_delegation {
  dg_perms : Z;
  dg_parent_resource : list Z;
  dg_parent_id : Z;
  dg_depth : Z
}.

(** First critical section of [cap_token_delegate]: find and check the parent. *)
Definition delegate_check (parent_id caller_pid perms : Z) (resource : option (list Z))
    (st : token_st) : Z + delegation :=
  match find_idx (token_is parent_id) (tokens st) with
  | None => inl (- ENOENT)
  | Some i =>
      let parent := tokens st !!! i in
      if negb (tok_target_pid parent =? 0) && negb (tok_target_pid parent =? caller_pid)
      then inl (- EPERM)
      else
        let perms := if perms =? 0 then tok_perms parent else perms in
        if negb (Z.land perms (u32 (Z.lnot (tok_perms parent))) =? 0) then inl (- EPERM)
        else if
          match resource with
          | Some r =>
              negb (c_at r 0 =? 0) && negb (c_at (tok_resource parent) 0 =? 0)
                && negb (prefix_match (tok_resource parent) r)
          | None => false
          end
        then inl (- EPERM)
        else if TOKEN_MAX_DEPTH <=? tok_depth parent then inl (- EPERM)
        else inr (mk_delegation perms (tok_resource parent) (tok_id parent)
                    (u8 (tok_depth parent + 1)))
  end.

(** [resource && resource[0] ? resource : parent_resource]. *)
Definition delegate_resource (resource : option (list Z)) (d : delegation) : list Z :=
  match resource with
  | Some r => if negb (c_at r 0 =? 0) then r else dg_parent_resource d
  | None => dg_parent_resource d
  end.

(** Last critical section of [cap_token_delegate]: set the parent linkage. *)
Definition delegate_link (new_id : Z) (d : delegation) (st : token_st) : token_st :=
  match find_idx (token_is (u32 new_id)) (tokens st) with
  | Some i =>
      st <| tokens :=
        <[i := (tokens st !!! i) <| tok_parent_id := dg_parent_id d |>
                                 <| tok_depth := dg_depth d |>]> (tokens st) |>
  | None => st
  end.

(** [cap_token_delegate] run without interference: check, create, link. *)
Definition cap_token_delegate (parent_id caller_pid target_pid perms : Z)
    (resource : option (list Z)) (st : token_st) : Z * token_st :=
  match delegate_check parent_id caller_pid perms resource st with
  | inl e => (e, st)
  | inr d =>
      let '(new_id, st1) :=
        cap_token_create caller_pid (dg_perms d) (dg_perms d) target_pid
          (Some (delegate_resource resource d)) st in
      if 0 <? new_id then (new_id, delegate_link new_id d st1) else (new_id, st1)
  end.

(** One entry of [cap_token_cleanup_pid]: owned by, or targeting, the process. *)
Definition token_cleanup_one (pid : Z) (t : cap_token) : cap_token :=
  if tok_used t then
    if tok_owner_pid t =? pid then t <| tok_used := false |>
    else if tok_target_pid t =? pid then t <| tok_used := false |>
    else t
  else t.

Definition cap_token_cleanup_pid (pid : Z) (st : token_st) : token_st :=
  st <| tokens := token_cleanup_one pid <$> tokens st |>.

(** ** Specification *)

(** [descends ts root x]: the identifier [x] is [root] or is reached from it by
    delegation through used tokens of [ts]. *)
Inductive descends (ts : list cap_token) (root : Z) : Z → Prop :=
  | descends_root : descends ts root root
  | descends_child i t :
      ts !! i = Some t → tok_used t = true →
      descends ts root (tok_parent_id t) → descends ts root (tok_id t).

(** Identifiers of used tokens are unique. *)
Definition ids_unique (ts : list cap_token) : Prop :=
  ∀ i j t u, ts !! i = Some t → ts !! j = Some u →
    tok_used t = true → tok_used u = true → tok_id t = tok_id u → i = j.

(** [ts'] is [ts] with some tokens cleared. *)
Definition clears (ts ts' : list cap_token) : Prop :=
  length ts' = length ts ∧
  ∀ i t, ts !! i = Some t →
    ts' !! i = Some t ∨ (tok_used t = true ∧ ts' !! i = Some (t <| tok_used := false |>)).

(** Some used token of [ts] with identifier [x] is cleared in [ts']. *)
Definition cleared (ts ts' : list cap_token) (x : Z) : Prop :=
  ∃ i t, ts !! i = Some t ∧ tok_used t = true ∧ tok_id t = x ∧
    ts' !! i = Some (t <| tok_used := false |>).

Definition no_used (x : Z) (ts : list cap_token) : Prop :=
  ∀ i t, ts !! i = Some t → tok_used t = true → tok_id t ≠ x.

(** What a cascade from [root] achieves in a table. *)
Record revoked (root : Z) (ts ts' : list cap_token) : Prop := {
  rv_clears : clears ts ts';
  rv_sound : ∀ x, cleared ts ts' x → descends ts root x;
  rv_root : no_used root ts';
  rv_closed : ∀ i t, ts' !! i = Some t → tok_used t = true →
    tok_parent_id t ≠ root ∧ ¬ cleared ts ts' (tok_parent_id t)
}.

(** The scan's invariant: as [revoked], but children of [root] may be left at
    the positions not yet visited. *)
Record revoking (root : Z) (n : nat) (ts ts' : list cap_token) : Prop := {
  rg_clears : clears ts ts';
  rg_sound : ∀ x, cleared ts ts' x → descends ts root x;
  rg_root : no_used root ts';
  rg_done : ∀ i t, (i < n)%nat → ts' !! i = Some t → tok_used t = true → tok_parent_id t ≠ root;
  rg_closed : ∀ i t, ts' !! i = Some t → tok_used t = true →
    cleared ts ts' (tok_parent_id t) → tok_parent_id t = root
}.

(** Per-token invariant, relative to the next identifier. *)
Record token_ok (next : Z) (t : cap_token) : Prop := {
  ok_len : length (tok_resource t) = TOKEN_PATH_MAX;
  ok_str : (length (c_str (tok_resource t)) < TOKEN_PATH_MAX)%nat;
  ok_used : tok_used t = true →
    1 ≤ tok_id t < next ∧ 0 ≤ tok_parent_id t < tok_id t ∧
    0 ≤ tok_depth t ≤ TOKEN_MAX_DEPTH ∧ 0 ≤ tok_perms t < 2 ^ 32
}.

(** A token is attenuated with respect to its parent.  A sub-token that was delegated
    before its parent was linked to its own parent is less deep than it should be. *)
Definition attenuates (child parent : cap_token) : Prop :=
  mask_sub (tok_perms child) (tok_perms parent) ∧
  c_str (tok_resource parent) `prefix_of` c_str (tok_resource child) ∧
  tok_depth child ≤ tok_depth parent + 1.

Record token_wf (st : token_st) : Prop := {
  wf_len : length (tokens st) = MAX_TOKENS;
  wf_next : 1 ≤ next_token_id st ≤ 2 ^ 31;
  wf_tok : ∀ i t, tokens st !! i = Some t → token_ok (next_token_id st) t;
  wf_uniq : ids_unique (tokens st);
  wf_chain : ∀ i j c p, tokens st !! i = Some c → tokens st !! j = Some p →
    tok_used c = true → tok_used p = true → tok_parent_id c = tok_id p → attenuates c p
}.

(** A delegation under way: it passed its checks, or it also created its token.  The
    table is unlocked in both states. *)
Inductive flight :=
  | Checked (d : delegation) (caller_pid target_pid : Z) (resource : list Z)
  | Made (new_id : Z) (d : delegation).

(** The table and the delegations under way. *)
Record token_sys := mk_token_sys { sys_st : token_st; sys_flights : list flight }.

(** The critical sections as data, to speak of sequences of them.  [OpDelegate] is the
    first of [cap_token_delegate]; [OpAdvance k] the next one of the [k]-th delegation
    under way. *)
Inductive token_op :=
  | OpCreate (owner_pid owner_caps perms target_pid : Z) (resource : option (list Z))
  | OpRevoke (token_id caller_pid : Z)
  | OpDelegate (parent_id caller_pid target_pid perms : Z) (resource : option (list Z))
  | OpAdvance (k : nat)
  | OpCleanup (pid : Z).

Definition advance (k : nat) (sy : token_sys) : token_sys :=
  match sys_flights sy !! k with
  | None => sy
  | Some (Checked d c tg r) =>
      let '(new_id, st) := cap_token_create c (dg_perms d) (dg_perms d) tg (Some r) (sys_st sy) in
      mk_token_sys st (if 0 <? new_id then <[k := Made new_id d]> (sys_flights sy) else delete k (sys_flights sy))
  | Some (Made new_id d) => mk_token_sys (delegate_link new_id d (sys_st sy)) (delete k (sys_flights sy))
  end.

Definition run_token_op (o : token_op) (sy : token_sys) : token_sys :=
  let st := sys_st sy in
  let fl := sys_flights sy in
  match o with
  | OpCreate ow caps p tg r => mk_token_sys (cap_token_create ow caps p tg r st).2 fl
  | OpRevoke x c => mk_token_sys (cap_token_revoke x c st).2 fl
  | OpDelegate pa c tg p r =>
      match delegate_check pa c p r st with
      | inl _ => sy
      | inr d => mk_token_sys st (fl ++ [Checked d c tg (delegate_resource r d)])
      end
  | OpAdvance k => advance k sy
  | OpCleanup pid => mk_token_sys (cap_token_cleanup_pid pid st) fl
  end.

(** Arguments fit their C types, and fewer than [2^31 - 1] tokens were created
    before (the identifier counter has not reached the sign bit). *)
Definition token_op_ok (o : token_op) (sy : token_sys) : Prop :=
  next_token_id (sys_st sy) < 2 ^ 31 ∧
  match o with
  | OpCreate _ _ p _ _ | OpDelegate _ _ _ p _ => 0 ≤ p < 2 ^ 32
  | _ => True
  end.

(** [token_run ops sy]: the critical sections [ops], latest first and interleaved in
    any way, lead from the initial state to [sy]. *)
Inductive token_run : list token_op → token_sys → Prop :=
  | token_run_init : token_run [] (mk_token_sys token_init [])
  | token_run_step ops o sy :
      token_run ops sy → token_op_ok o sy → token_run (o :: ops) (run_token_op o sy).

(** Permissions and a resource are covered by a creation in [ops]: by a creator that
    held all of the permissions, for a resource that contains this one. *)
Definition covered_by (ops : list token_op) (perms : Z) (resource : list Z) : Prop :=
  ∃ ow caps p tg r, OpCreate ow caps p tg r ∈ ops ∧ mask_sub p caps ∧
    mask_sub perms p ∧ take 63 (c_str (default [] r)) `prefix_of` resource.
Definition covered (ops : list token_op) (t : cap_token) : Prop :=
  covered_by ops (tok_perms t) (c_str (tok_resource t)).

(** ** Strings and single operations *)

Lemma prefix_match_spec p s : prefix_match p s = true ↔ c_str p `prefix_of` c_str s.
Proof.
  revert s. induction p as [|c p IH]; intros s; cbn [prefix_match c_str].
  { split; [intros _; apply prefix_nil|done]. }
  destruct (c =? 0) eqn:Ec; bool_hyps.
  { split; [intros _; apply prefix_nil|done]. }
  destruct s as [|d s]; cbn [c_at c_str tail lookup list_lookup default].
  - cbn. destruct c; [done|..]; (split; [done|]); intros H%prefix_nil_not; done.
  - cbn. destruct (d =? c) eqn:Edc; bool_hyps; subst; cbn.
    + apply Z.eqb_neq in Ec as ->. rewrite IH. split.
      * apply prefix_cons.
      * apply prefix_cons_inv_2.
    + split; [done|]. destruct (d =? 0); [intros H%prefix_nil_not; done|].
      intros H%prefix_cons_inv_1. congruence.
Qed.

(** The access check holds exactly when a used token grants the access. *)
Lemma token_grants_spec pid cap res t :
  token_grants pid cap res t = true ↔
  tok_used t = true ∧ (tok_target_pid t = 0 ∨ tok_target_pid t = pid) ∧
  Z.land (tok_perms t) cap ≠ 0 ∧
  (∀ r, res = Some r → c_str (tok_resource t) `prefix_of` c_str r).
Proof.
  unfold token_grants. destruct (tok_used t); cbn [negb]; [|naive_solver].
  destruct (tok_target_pid t =? 0) eqn:E0, (tok_target_pid t =? pid) eqn:E1; bool_hyps;
    cbn [negb andb]; [..|naive_solver];
    (destruct (Z.land (tok_perms t) cap =? 0) eqn:Ep; bool_hyps; [naive_solver|]);
    (destruct res as [r|]; [|naive_solver]);
    (destruct (c_at (tok_resource t) 0 =? 0) eqn:Er; bool_hyps; cbn [negb];
     [apply c_str_nil in Er|rewrite prefix_match_spec]; [|naive_solver]);
    (split; [|naive_solver]); intros _; split_and!; auto;
    intros r' [= ->]; rewrite Er; apply prefix_nil.
Qed.

Lemma token_list_loop_spec pid room ts :
  token_list_loop pid room ts =
  take room ((λ t, mk_token_info (tok_id t) (tok_target_pid t) (tok_perms t) (tok_resource t))
    <$> filter (λ t, tok_used t && (tok_owner_pid t =? pid) = true) ts).
Proof.
  revert room. induction ts as [|t ts IH]; intros [|room]; cbn [token_list_loop]; try done.
  rewrite filter_cons. case_decide as H.
  - rewrite H, fmap_cons. cbn [take]. by rewrite IH.
  - apply not_true_is_false in H. rewrite H. apply IH.
Qed.

(** ** Cascading revocation *)

Section clears.
Implicit Types (ts : list cap_token).

Lemma clears_refl ts : clears ts ts.
Proof. split; auto. Qed.

Lemma clears_used ts ts' i t :
  clears ts ts' → ts' !! i = Some t → tok_used t = true → ts !! i = Some t.
Proof.
  intros [Hlen H] Hi Hu. destruct (ts !! i) as [u|] eqn:E.
  - destruct (H i u E) as [H'|[_ H']]; rewrite Hi in H'; simplify_eq/=; done.
  - apply lookup_ge_None in E. apply lookup_lt_Some in Hi. lia.
Qed.

Lemma clears_trans ts1 ts2 ts3 : clears ts1 ts2 → clears ts2 ts3 → clears ts1 ts3.
Proof.
  intros [L1 H1] [L2 H2]. split; [congruence|]. intros i t Hi.
  destruct (H1 i t Hi) as [H|[Hu H]]; destruct (H2 i _ H) as [H'|[Hu' H']]; auto; done.
Qed.

Lemma cleared_split ts1 ts2 ts3 x :
  clears ts1 ts2 → clears ts2 ts3 → cleared ts1 ts3 x →
  cleared ts1 ts2 x ∨ cleared ts2 ts3 x.
Proof.
  intros [L1 H1] [L2 H2] (i & t & Hi & Hu & Hx & H3).
  destruct (H1 i t Hi) as [H|[_ H]].
  - right. exists i, t. done.
  - left. exists i, t. done.
Qed.

Lemma clears_unique ts ts' : clears ts ts' → ids_unique ts → ids_unique ts'.
Proof.
  intros Hc Hu i j t u Hi Hj Ht Hju. eapply Hu; eauto using clears_used.
Qed.

Lemma clears_no_used ts ts' x : clears ts ts' → no_used x ts → no_used x ts'.
Proof. intros Hc Hn i t Hi Hu. eapply Hn; eauto using clears_used. Qed.

Lemma clears_count ts ts' :
  clears ts ts' → (countb tok_used ts' ≤ countb tok_used ts)%nat.
Proof.
  revert ts'. induction ts as [|t ts IH]; intros [|t' ts'] [L H]; try done.
  rewrite !countb_cons.
  assert (clears ts ts') as Hc.
  { split; [by injection L|]. intros i u Hi. apply (H (S i) u Hi). }
  specialize (IH ts' Hc).
  destruct (H O t eq_refl) as [[= ->]|[Ht [= ->]]]; cbn; [lia|]. rewrite Ht. lia.
Qed.

Lemma descends_clears ts ts' r x : clears ts ts' → descends ts' r x → descends ts r x.
Proof.
  intros Hc. induction 1 as [|i t Hi Hu _ IH]; [constructor|].
  eapply descends_child; eauto using clears_used.
Qed.

Lemma descends_trans ts r y x : descends ts r y → descends ts y x → descends ts r x.
Proof. intros Hr. induction 1; eauto using descends. Qed.
End clears.

#[export] Hint Resolve clears_refl clears_trans clears_used clears_unique clears_no_used
  descends_clears descends_trans : limnx.

Lemma revoke_self_spec root ts i t :
  ids_unique ts → ts !! i = Some t → tok_used t = true → tok_id t = root →
  revoking root 0 ts (revoke_self root ts) ∧
  (countb tok_used (revoke_self root ts) < countb tok_used ts)%nat.
Proof.
  intros Huniq Hi Hu Hid.
  assert (find_idx (token_is root) ts = Some i) as Hf.
  { apply (find_idx_unique _ _ _ t); [done|unfold token_is; rewrite Hu; cbn; lia|].
    intros j u Hj Hju. unfold token_is in Hju. bool_hyps. eapply Huniq; eauto; congruence. }
  unfold revoke_self. rewrite Hf, (list_lookup_total_correct _ _ _ Hi).
  pose proof (lookup_lt_Some _ _ _ Hi) as Hlt.
  assert (clears ts (<[i:=t <| tok_used := false |>]> ts)) as Hc.
  { split; [by rewrite length_insert|]. intros j u Hj. destruct (decide (j = i)) as [->|].
    - simplify_eq. right. by rewrite list_lookup_insert_eq.
    - left. by rewrite list_lookup_insert_ne. }
  assert (∀ x, cleared ts (<[i:=t <| tok_used := false |>]> ts) x → x = root) as Hcl.
  { intros x (j & u & Hj & Huu & Hx & Hjc).
    apply list_lookup_insert_cases in Hjc as [(-> & _ & _)|(_ & Hj')]; [congruence|].
    rewrite Hj in Hj'. injection Hj' as E. rewrite E in Huu. done. }
  split; [split|].
  - done.
  - intros x ->%Hcl. constructor.
  - intros j u Hj Huu Hidu.
    apply list_lookup_insert_cases in Hj as [(-> & -> & _)|(Hne & Hj)]; [done|].
    apply Hne. eapply Huniq; eauto; congruence.
  - lia.
  - intros j u Hj _ ?%Hcl. done.
  - pose proof (countb_insert tok_used ts i t (t <| tok_used := false |>) Hi) as Hn.
    rewrite Hu in Hn. cbn in Hn. lia.
Qed.

(** What the scan needs of the recursive call. *)
Definition cascade_ok (fuel : nat) (rec : Z → list cap_token → list cap_token) : Prop :=
  ∀ ts i t, length ts = MAX_TOKENS → ids_unique ts → ts !! i = Some t →
    tok_used t = true → (countb tok_used ts < fuel)%nat → revoked (tok_id t) ts (rec (tok_id t) ts).

Lemma revoking_child root i ts cur cur' t :
  revoking root i ts cur → cur !! i = Some t → tok_used t = true → tok_parent_id t = root →
  revoked (tok_id t) cur cur' → revoking root (S i) ts cur'.
Proof.
  intros [Hc Hs Hr Hd Hcl] Hi Hu Hp [Rc Rs Rr Rcl]. split.
  - eauto with limnx.
  - intros x [H|H]%(cleared_split _ _ _ _ Hc Rc); [auto|].
    eapply descends_trans; [|by eapply descends_clears, Rs].
    eapply descends_child; [by eapply clears_used|done|]. rewrite Hp. constructor.
  - eauto with limnx.
  - intros j u Hj Hju Huu. destruct (decide (j = i)) as [->|].
    + pose proof (clears_used _ _ _ _ Rc Hju Huu) as Hiu. simplify_eq.
      exfalso. by eapply Rr.
    + apply (Hd j u); eauto with lia limnx.
  - intros j u Hj Huu [H|H]%(cleared_split _ _ _ _ Hc Rc).
    + eapply Hcl; eauto with limnx.
    + exfalso. eapply Rcl; eauto.
Qed.

Lemma revoking_weaken root n m ts cur : (m ≤ n)%nat → revoking root n ts cur → revoking root m ts cur.
Proof. intros ? [? ? ? Hd ?]. split; try done. intros j u ?. apply Hd. lia. Qed.

Lemma revoke_scan_spec fuel rec root ts n i cur found :
  cascade_ok fuel rec → ids_unique ts → length ts = MAX_TOKENS →
  (countb tok_used cur < fuel)%nat → (i + n = MAX_TOKENS)%nat → revoking root i ts cur →
  revoking root MAX_TOKENS ts (revoke_scan rec root i n cur found).1 ∧
  (countb tok_used (revoke_scan rec root i n cur found).1 ≤ countb tok_used cur)%nat.
Proof.
  intros Hrec Huniq Hlen. revert i cur found. induction n as [|n IH]; intros i cur found Hfuel Hin Hinv.
  { by replace i with MAX_TOKENS in Hinv by lia. }
  cbn [revoke_scan]. pose proof (proj1 (rg_clears _ _ _ _ Hinv)) as Hlc.
  destruct (lookup_lt_is_Some_2 cur i) as [t Ht]; [lia|]. rewrite Ht.
  destruct (tok_used t && (tok_parent_id t =? root)) eqn:E; bool_hyps.
  - assert (revoked (tok_id t) cur (rec (tok_id t) cur)) as Hrv.
    { eapply Hrec; eauto using clears_unique, rg_clears. lia. }
    pose proof (clears_count _ _ (rv_clears _ _ _ Hrv)) as Hle.
    destruct (IH (S i) (rec (tok_id t) cur) true) as [H1 H2];
      [lia|lia|by eapply revoking_child|]. split; [done|lia].
  - apply IH; [done|lia|]. destruct Hinv as [Hc Hs Hr Hd Hcl]. split; try done.
    intros j u Hj Hu Huu. destruct (decide (j = i)) as [->|]; [|apply (Hd j u); lia || done].
    simplify_eq. intros Hp. apply Z.eqb_eq in Hp. rewrite Hp, Huu in E. done.
Qed.

Lemma revoke_passes_S rec p root ts :
  revoke_passes rec (S p) root ts =
  (if (revoke_scan rec root 0 MAX_TOKENS ts false).2
   then revoke_passes rec p root (revoke_scan rec root 0 MAX_TOKENS ts false).1
   else (revoke_scan rec root 0 MAX_TOKENS ts false).1).
Proof. cbn [revoke_passes]. by destruct (revoke_scan _ _ _ _ _ _) as [? [|]]. Qed.

Lemma revoke_passes_spec fuel rec root ts passes cur :
  cascade_ok fuel rec → ids_unique ts → length ts = MAX_TOKENS →
  (countb tok_used cur < fuel)%nat → revoking root 0 ts cur →
  revoking root MAX_TOKENS ts (revoke_passes rec (S passes) root cur).
Proof.
  intros Hrec Huniq Hlen. revert cur. induction passes as [|p IH]; intros cur Hfuel Hinv;
    pose proof (revoke_scan_spec fuel rec root ts MAX_TOKENS 0 cur false
      Hrec Huniq Hlen Hfuel eq_refl Hinv) as [Hsc Hle];
    rewrite revoke_passes_S; case_match; [exact Hsc|exact Hsc| |exact Hsc].
  apply IH; [lia|]. eapply revoking_weaken; [|exact Hsc]. lia.
Qed.

Lemma revoking_revoked root ts ts' : revoking root MAX_TOKENS ts ts' → length ts = MAX_TOKENS →
  revoked root ts ts'.
Proof.
  intros [Hc Hs Hr Hd Hcl] Hlen. split; try done. intros i t Hi Hu.
  assert (tok_parent_id t ≠ root) as Hne.
  { apply (Hd i t); [|done..]. apply lookup_lt_Some in Hi. destruct Hc as [Hl _].
    congruence. }
  split; [done|]. intros H. apply Hne. by eapply Hcl.
Qed.

(** With more fuel than used tokens the cascade completes: the result does not
    depend on the fuel beyond that bound. *)
Lemma revoke_cascade_spec fuel : cascade_ok fuel (revoke_cascade_locked fuel).
Proof.
  induction fuel as [|fuel IH]; intros ts i t Hlen Huniq Hi Hu Hfuel; [lia|].
  cbn [revoke_cascade_locked]. destruct (revoke_self_spec (tok_id t) ts i t) as [Hrg Hlt]; [done..|].
  apply revoking_revoked; [|done]. eapply (revoke_passes_spec fuel); try done. lia.
Qed.

Arguments revoke_cascade_locked : simpl never.

(** The closure of [revoked]: every descendant of the root is cleared. *)
Lemma revoked_complete root ts ts' x :
  ids_unique ts → revoked root ts ts' → descends ts root x → no_used x ts'.
Proof.
  intros Huniq [Hc Hs Hr Hcl]. induction 1 as [|j u Hj Hu Hd IH]; [done|].
  intros i t Hi Ht Hid. pose proof (clears_used _ _ _ _ Hc Hi Ht) as Hi0.
  assert (i = j) as -> by (eapply Huniq; eauto). simplify_eq.
  destruct (Hcl j u Hi Hu) as [Hne Hncl].
  inversion Hd as [Heq|k w Hk Hw _ Heq]; [congruence|]. rewrite <-Heq in *. apply Hncl.
  exists k, w. split_and!; [done..|].
  destruct (proj2 Hc k w Hk) as [H|[_ H]]; [|done]. exfalso. by eapply IH.
Qed.

Lemma revoke_fuel_enough ts :
  length ts = MAX_TOKENS → (countb tok_used ts < revoke_fuel)%nat.
Proof. intros Hl. pose proof (countb_le tok_used ts). unfold revoke_fuel. lia. Qed.

(** The exact effect of a cascade, slot by slot. *)
Lemma revoked_exact root ts ts' i t :
  ids_unique ts → revoked root ts ts' → ts !! i = Some t →
  (tok_used t = true ∧ descends ts root (tok_id t) → ts' !! i = Some (t <| tok_used := false |>)) ∧
  (¬ (tok_used t = true ∧ descends ts root (tok_id t)) → ts' !! i = Some t).
Proof.
  intros Huniq Hrv Hi. destruct (proj2 (rv_clears _ _ _ Hrv) i t Hi) as [H|[Hu H]].
  - split; [|done]. intros [Hu Hd]. exfalso. by eapply (revoked_complete root ts ts').
  - split; [done|]. intros Hn. exfalso. apply Hn. split; [done|].
    eapply rv_sound; [done|]. exists i, t. done.
Qed.

(** ** The table invariant *)

Lemma clears_wf st ts' :
  token_wf st → clears (tokens st) ts' → token_wf (st <| tokens := ts' |>).
Proof.
  intros [Hlen Hnext Htok Hu Hch] Hc. split; cbn.
  - destruct Hc. congruence.
  - done.
  - intros i t Hi. assert (i < length (tokens st))%nat as Hlt
      by (destruct Hc as [<- _]; by eapply lookup_lt_Some).
    destruct (lookup_lt_is_Some_2 _ _ Hlt) as [t0 Ht0].
    destruct (Htok i t0 Ht0) as [Hrl Hsl Hok].
    destruct (proj2 Hc i t0 Ht0) as [H|[_ H]]; rewrite H in Hi; simplify_eq; split; done.
  - eauto with limnx.
  - intros i j c p Hi Hj Hcu Hpu. apply (Hch i j); eauto with limnx.
Qed.

Lemma cleanup_clears pid ts : clears ts (token_cleanup_one pid <$> ts).
Proof.
  split; [by rewrite length_fmap|]. intros i t Hi. rewrite list_lookup_fmap, Hi. cbn.
  unfold token_cleanup_one. case_all; auto.
Qed.

Lemma token_insert_wf st i t0 t :
  token_wf st → next_token_id st < 2 ^ 31 →
  tokens st !! i = Some t0 → tok_used t0 = false →
  tok_used t = true → tok_id t = next_token_id st →
  0 ≤ tok_parent_id t < next_token_id st → 0 ≤ tok_depth t ≤ TOKEN_MAX_DEPTH →
  0 ≤ tok_perms t < 2 ^ 32 → length (tok_resource t) = TOKEN_PATH_MAX →
  (length (c_str (tok_resource t)) < TOKEN_PATH_MAX)%nat →
  (∀ j p, tokens st !! j = Some p → tok_used p = true → tok_parent_id t = tok_id p →
     attenuates t p) →
  token_wf (mk_token_st (<[i:=t]> (tokens st)) (u32 (next_token_id st + 1))).
Proof.
  intros [Hlen Hnext Htok Hu Hch] Hlt Hi Hfree Ht Hid Hpar Hdep Hperm Hres Hstr Hatt.
  rewrite u32_id by lia. split; cbn.
  - by rewrite length_insert.
  - lia.
  - intros j u Hj. apply list_lookup_insert_cases in Hj as [(-> & -> & _)|(_ & Hj)].
    + split; [done..|]. intros _. lia.
    + destruct (Htok j u Hj) as [Hrl Hsl Hok]. split; [done..|]. intros Huu. specialize (Hok Huu). lia.
  - intros j k u v Hj Hk Huu Hvu Heq.
    apply list_lookup_insert_cases in Hj as [(-> & -> & _)|(Hj1 & Hj)];
      apply list_lookup_insert_cases in Hk as [(-> & -> & _)|(Hk1 & Hk)]; [done|..].
    + destruct (Htok k v Hk) as [_ _ Hok]. specialize (Hok Hvu). lia.
    + destruct (Htok j u Hj) as [_ _ Hok]. specialize (Hok Huu). lia.
    + by eapply Hu.
  - intros j k c p Hj Hk Hcu Hpu Heq.
    apply list_lookup_insert_cases in Hj as [(-> & -> & _)|(Hj1 & Hj)];
      apply list_lookup_insert_cases in Hk as [(-> & -> & _)|(Hk1 & Hk)].
    + lia.
    + by eapply Hatt.
    + destruct (Htok j c Hj) as [_ _ Hok]. specialize (Hok Hcu). lia.
    + by eapply Hch.
Qed.

(** The three outcomes of a creation. *)
Lemma cap_token_create_cases ow caps perms tg res st :
  token_wf st → next_token_id st < 2 ^ 31 → 0 ≤ perms < 2 ^ 32 →
  (¬ mask_sub perms caps ∧ cap_token_create ow caps perms tg res st = (- EPERM, st)) ∨
  (mask_sub perms caps ∧ (∀ i t, tokens st !! i = Some t → tok_used t = true) ∧
     cap_token_create ow caps perms tg res st = (- ENOMEM, st)) ∨
  (mask_sub perms caps ∧ ∃ i t0 r,
     tokens st !! i = Some t0 ∧ tok_used t0 = false ∧
     length r = TOKEN_PATH_MAX ∧ c_str r = take 63 (c_str (default [] res)) ∧
     cap_token_create ow caps perms tg res st =
     (next_token_id st,
      mk_token_st (<[i := mk_cap_token (next_token_id st) ow tg perms r 0 0 true]> (tokens st))
        (u32 (next_token_id st + 1)))).
Proof.
  intros Hwf Hlt Hp. unfold cap_token_create.
  pose proof (land_not32_zero perms caps Hp) as Hland.
  destruct (Z.land perms (u32 (Z.lnot caps)) =? 0) eqn:E; bool_hyps; cbn [negb].
  2: { left. split; [|done]. by rewrite <-Hland. }
  right. apply Hland in E.
  destruct (find_idx _ _) as [i|] eqn:Ef.
  - right. split; [done|]. apply find_idx_lookup in Ef as (t0 & Hi & Hfree). bool_hyps.
    rewrite (list_lookup_total_correct _ _ _ Hi).
    destruct (wf_tok _ Hwf i t0 Hi) as [Hrl _ _]. pose proof (wf_next _ Hwf).
    eexists i, t0, _. split_and!; [done|done| | |].
    3: { rewrite i32_id by lia. reflexivity. }
    + destruct res; autorewrite with limnx_len; done.
    + destruct res as [r|]; cbn [default].
      * apply c_str_str_copy. lia.
      * destruct (tok_resource t0); done.
  - left. split_and!; [done| |done]. intros i t Hi.
    rewrite find_idx_None in Ef. specialize (Ef i t Hi). by bool_hyps.
Qed.

(** A delegation that passes its checks comes from a usable, shallow parent and
    asks for no more than the parent has. *)
Lemma delegate_check_inr pa caller perms res st d :
  token_wf st → 0 ≤ perms < 2 ^ 32 → delegate_check pa caller perms res st = inr d →
  ∃ i p, tokens st !! i = Some p ∧ tok_used p = true ∧ tok_id p = pa ∧
    (tok_target_pid p = 0 ∨ tok_target_pid p = caller) ∧
    dg_perms d = (if perms =? 0 then tok_perms p else perms) ∧
    0 ≤ dg_perms d < 2 ^ 32 ∧ mask_sub (dg_perms d) (tok_perms p) ∧
    c_str (tok_resource p) `prefix_of` c_str (delegate_resource res d) ∧
    dg_parent_resource d = tok_resource p ∧
    dg_parent_id d = pa ∧ dg_depth d = tok_depth p + 1 ∧ tok_depth p < TOKEN_MAX_DEPTH.
Proof.
  intros Hwf Hp. unfold delegate_check.
  destruct (find_idx _ _) as [i|] eqn:Ef; [|done].
  apply find_idx_lookup in Ef as (p & Hi & His). unfold token_is in His. bool_hyps.
  rewrite (list_lookup_total_correct _ _ _ Hi).
  destruct (wf_tok _ Hwf i p Hi) as [_ _ Hok]. specialize (Hok ltac:(done)).
  destruct (negb (tok_target_pid p =? 0) && negb (tok_target_pid p =? caller)) eqn:Et; [done|].
  set (perms' := if perms =? 0 then tok_perms p else perms).
  assert (0 ≤ perms' < 2 ^ 32) as Hp' by (unfold perms'; case_match; lia).
  pose proof (land_not32_zero perms' (tok_perms p) Hp') as Hland.
  destruct (Z.land perms' _ =? 0) eqn:El; bool_hyps; cbn [negb]; [|done]. apply Hland in El.
  destruct (match res with Some _ => _ | None => _ end) eqn:Er; [done|].
  destruct (TOKEN_MAX_DEPTH <=? tok_depth p) eqn:Ed; [done|]. intros [= <-]. bool_hyps.
  exists i, p. cbn. rewrite u8_id by lia. split_and!; try done; try lia.
  unfold delegate_resource. destruct res as [r|]; [|done].
  destruct (c_at r 0 =? 0); cbn [negb]; cbn [dg_parent_resource]; [done|].
  cbn [negb andb] in Er. destruct (c_at (tok_resource p) 0 =? 0) eqn:E0; bool_hyps.
  - apply c_str_nil in E0 as ->. apply prefix_nil.
  - cbn [negb andb] in Er. bool_hyps. by apply prefix_match_spec.
Qed.

Lemma delegate_link_fresh st i t0 t d :
  token_wf st → tokens st !! i = Some t0 → tok_used t0 = false →
  tok_used t = true → tok_id t = next_token_id st → 0 ≤ next_token_id st < 2 ^ 31 →
  delegate_link (next_token_id st) d
    (mk_token_st (<[i:=t]> (tokens st)) (u32 (next_token_id st + 1))) =
  mk_token_st (<[i := t <| tok_parent_id := dg_parent_id d |> <| tok_depth := dg_depth d |>]>
    (tokens st)) (u32 (next_token_id st + 1)).
Proof.
  intros Hwf Hi Hfree Ht Hid Hn. unfold delegate_link. cbn [tokens].
  pose proof (lookup_lt_Some _ _ _ Hi) as Hlt.
  assert (<[i:=t]> (tokens st) !! i = Some t) as Hii by by rewrite list_lookup_insert_eq.
  rewrite (find_idx_unique _ _ i t Hii).
  - rewrite (list_lookup_total_correct _ _ _ Hii). cbn. by rewrite list_insert_insert_eq.
  - unfold token_is. rewrite Ht, u32_id by lia. cbn. lia.
  - intros j u Hj Hu. unfold token_is in Hu. bool_hyps. rewrite u32_id in * by lia.
    apply list_lookup_insert_cases in Hj as [(-> & _)|(Hne & Hj)]; [done|].
    destruct (wf_tok _ Hwf j u Hj) as [_ _ Hok]. specialize (Hok ltac:(done)). lia.
Qed.

(** A delegation either leaves the table alone and reports an error, or adds
    one token that attenuates its parent. *)
Lemma cap_token_delegate_cases pa caller tg perms res st :
  token_wf st → next_token_id st < 2 ^ 31 → 0 ≤ perms < 2 ^ 32 →
  ((cap_token_delegate pa caller tg perms res st).2 = st ∧
   (cap_token_delegate pa caller tg perms res st).1 < 0) ∨
  (∃ i t0 t j p, tokens st !! i = Some t0 ∧ tok_used t0 = false ∧
     tokens st !! j = Some p ∧ tok_used p = true ∧ tok_id p = pa ∧
     (tok_target_pid p = 0 ∨ tok_target_pid p = caller) ∧
     tok_used t = true ∧ tok_id t = next_token_id st ∧ tok_parent_id t = pa ∧
     tok_owner_pid t = caller ∧ tok_target_pid t = tg ∧
     0 ≤ tok_perms t < 2 ^ 32 ∧ length (tok_resource t) = TOKEN_PATH_MAX ∧
     (length (c_str (tok_resource t)) < TOKEN_PATH_MAX)%nat ∧
     attenuates t p ∧ tok_depth t = tok_depth p + 1 ∧ tok_depth t ≤ TOKEN_MAX_DEPTH ∧
     cap_token_delegate pa caller tg perms res st =
     (next_token_id st,
      mk_token_st (<[i := t]> (tokens st)) (u32 (next_token_id st + 1)))).
Proof.
  intros Hwf Hlt Hp. unfold cap_token_delegate.
  destruct (delegate_check _ _ _ _ _) as [e|d] eqn:Ec.
  { left. split; [done|]. unfold delegate_check in Ec. case_all; simplify_eq/=; lia. }
  apply delegate_check_inr in Ec as (j & p & Hj & Hu & Hid & Htg & Hperm & Hrange & Hsub & Hpre & _ & Hpa & Hd & Hdep);
    [|done..].
  destruct (cap_token_create_cases caller (dg_perms d) (dg_perms d) tg
    (Some (delegate_resource res d)) st Hwf Hlt Hrange)
    as [[Hn _]|[(_ & _ & ->)|(_ & i & t0 & r & Hi & Hfree & Hrl & Hr & ->)]].
  { exfalso. by apply Hn. }
  { left. done. }
  right. pose proof (wf_next _ Hwf) as Hn1. rewrite (proj2 (Z.ltb_lt _ _)) by lia.
  rewrite (delegate_link_fresh st i t0) by (done || lia).
  destruct (wf_tok _ Hwf j p Hj) as [_ Hsl _].
  exists i, t0, (mk_cap_token (next_token_id st) caller tg (dg_perms d) r (dg_parent_id d)
    (dg_depth d) true), j, p. cbn [tok_resource tok_depth tok_perms tok_parent_id].
  split_and!; try done; try lia.
  - rewrite Hr, length_take. lia.
  - split_and!; [done| |cbn; lia]. cbn. rewrite Hr. apply prefix_take; [done|lia].
Qed.

(** ** Sequences of operations *)

Lemma token_init_wf : token_wf token_init.
Proof.
  assert (∀ i t, tokens token_init !! i = Some t → t = inhabitant) as Hz.
  { intros i t [-> _]%lookup_replicate. done. }
  split.
  - done.
  - cbn. lia.
  - intros i t ->%Hz. split; [done|cbn; lia|done].
  - intros i j t u ->%Hz _. done.
  - intros i j c p ->%Hz _. done.
Qed.

Lemma find_token_is st i x :
  find_idx (token_is x) (tokens st) = Some i →
  ∃ t, tokens st !! i = Some t ∧ tok_used t = true ∧ tok_id t = x.
Proof.
  intros (t & Hi & Ht)%find_idx_lookup. unfold token_is in Ht. bool_hyps. eauto.
Qed.

(** A cascade on a well-formed table started at a used token. *)
Lemma revoke_cascade_revoked st i t :
  token_wf st → tokens st !! i = Some t → tok_used t = true →
  revoked (tok_id t) (tokens st) (revoke_cascade_locked revoke_fuel (tok_id t) (tokens st)).
Proof.
  intros [Hlen _ _ Huniq _] Hi Hu.
  eapply revoke_cascade_spec; eauto using revoke_fuel_enough.
Qed.

(** Revocation by the owner runs the cascade. *)
Lemma cap_token_revoke_owner st i t :
  token_wf st → tokens st !! i = Some t → tok_used t = true →
  cap_token_revoke (tok_id t) (tok_owner_pid t) st =
  (0, st <| tokens := revoke_cascade_locked revoke_fuel (tok_id t) (tokens st) |>).
Proof.
  intros Hwf Hi Hu. unfold cap_token_revoke.
  rewrite (find_idx_unique _ _ i t Hi).
  - by rewrite (list_lookup_total_correct _ _ _ Hi), Z.eqb_refl.
  - unfold token_is. by rewrite Hu, Z.eqb_refl.
  - intros j u Hj Huj. unfold token_is in Huj. bool_hyps.
    eapply (wf_uniq _ Hwf); eauto; congruence.
Qed.

Lemma cap_token_revoke_clears x caller st :
  token_wf st → clears (tokens st) (tokens (cap_token_revoke x caller st).2).
Proof.
  intros Hwf. unfold cap_token_revoke. destruct (find_idx _ _) as [i|] eqn:Ef; [|apply clears_refl].
  apply find_token_is in Ef as (t & Hi & Hu & <-).
  case_match; cbn [snd tokens]; [apply clears_refl|].
  eapply rv_clears, revoke_cascade_revoked; eauto.
Qed.

Lemma cap_token_revoke_next x c st : (cap_token_revoke x c st).2 = st <| tokens := tokens (cap_token_revoke x c st).2 |>.
Proof.
  unfold cap_token_revoke. destruct (find_idx _ _); [case_match|]; cbn [snd]; [by destruct st| |by destruct st].
  generalize (revoke_cascade_locked revoke_fuel x (tokens st)). intros ts'. by destruct st.
Qed.

Lemma create_wf ow caps p tg r st :
  token_wf st → next_token_id st < 2 ^ 31 → 0 ≤ p < 2 ^ 32 → token_wf (cap_token_create ow caps p tg r st).2.
Proof.
  intros Hwf Hlt Hok. pose proof (wf_next _ Hwf).
  destruct (cap_token_create_cases ow caps p tg r st Hwf Hlt Hok) as [[_ ->]|[(_ & _ & ->)|(_ & i & t0 & rr & Hi & Hf & Hrl & Hr & ->)]];
    try done. cbn [snd]. eapply (token_insert_wf _ _ _ _ Hwf Hlt Hi Hf); cbn; try done; try lia.
  - rewrite Hr, length_take. lia.
  - intros j q Hj Hq Hz. destruct (wf_tok _ Hwf j q Hj) as [_ _ H2]. specialize (H2 Hq). lia.
Qed.

Lemma revoke_wf x c st : token_wf st → token_wf (cap_token_revoke x c st).2.
Proof.
  intros Hwf. rewrite cap_token_revoke_next. apply clears_wf; [done|]. by apply cap_token_revoke_clears.
Qed.

(** *** Delegations under way

    Between two critical sections of a delegation its parent may be revoked, and its
    token may be seen, delegated and revoked. *)

(** The tokens of [st'] that are not new are those of [st], but for the linkage of [x]. *)
Record evolves (x : Z) (st st' : token_st) : Prop := {
  ev_next : next_token_id st ≤ next_token_id st';
  ev_tok : ∀ j p', tokens st' !! j = Some p' → tok_used p' = true → tok_id p' < next_token_id st →
    ∃ p, tokens st !! j = Some p ∧ tok_used p = true ∧ tok_id p' = tok_id p ∧ tok_perms p' = tok_perms p ∧
      tok_resource p' = tok_resource p ∧ tok_depth p ≤ tok_depth p' ∧ (tok_id p ≠ x → p' = p)
}.

Lemma evolves_refl st : evolves 0 st st.
Proof. split; [done|]. intros j p Hj Hu _. by exists p. Qed.

Lemma evolves_clears st ts' : clears (tokens st) ts' → evolves 0 st (st <| tokens := ts' |>).
Proof.
  intros Hc. split; [done|]. intros j p' Hj Hu _. exists p'. split_and!; try done. by eapply clears_used.
Qed.

Lemma evolves_create ow caps p tg r st :
  token_wf st → next_token_id st < 2 ^ 31 → 0 ≤ p < 2 ^ 32 → evolves 0 st (cap_token_create ow caps p tg r st).2.
Proof.
  intros Hwf Hlt Hok. pose proof (wf_next _ Hwf).
  destruct (cap_token_create_cases ow caps p tg r st Hwf Hlt Hok) as [[_ ->]|[(_ & _ & ->)|(_ & i & t0 & rr & Hi & Hf & Hrl & Hr & ->)]];
    [apply evolves_refl..|]. split; cbn; [rewrite u32_id; lia|].
  intros j q [(-> & -> & _)|(_ & Hj)]%list_lookup_insert_cases Hu Hid; [cbn in Hid; lia|]. by exists q.
Qed.

(** What a delegation under way may still rely on; [lim] is above its parent. *)
Record deleg_ok (ops : list token_op) (st : token_st) (d : delegation) (res : list Z) (lim : Z) : Prop := {
  do_perms : 0 ≤ dg_perms d < 2 ^ 32;
  do_parent : 0 ≤ dg_parent_id d < lim;
  do_depth : 0 ≤ dg_depth d ≤ TOKEN_MAX_DEPTH;
  do_cov : covered_by ops (dg_perms d) res;
  do_att : ∀ j p, tokens st !! j = Some p → tok_used p = true → tok_id p = dg_parent_id d →
    mask_sub (dg_perms d) (tok_perms p) ∧ c_str (tok_resource p) `prefix_of` res ∧ dg_depth d ≤ tok_depth p + 1
}.

Definition flight_ok (ops : list token_op) (st : token_st) (f : flight) : Prop :=
  match f with
  | Checked d _ _ r => deleg_ok ops st d (c_str r) (next_token_id st)
  | Made id d => 1 ≤ id < next_token_id st ∧
      ∀ i t, tokens st !! i = Some t → tok_used t = true → tok_id t = id →
        deleg_ok ops st d (c_str (tok_resource t)) id ∧ tok_perms t = dg_perms d ∧ tok_depth t = 0
  end.

Lemma covered_by_mono ops o p r : covered_by ops p r → covered_by (o :: ops) p r.
Proof.
  intros (ow & caps & q & tg & x & Hin & H). exists ow, caps, q, tg, x.
  split; [by apply list_elem_of_further|done].
Qed.
Lemma covered_by_sub ops p r p' r' : covered_by ops p r → mask_sub p' p → r `prefix_of` r' → covered_by ops p' r'.
Proof.
  intros (ow & caps & q & tg & x & Hin & Hs & Hp & Hr) Hm Hpre. exists ow, caps, q, tg, x.
  split_and!; [done|done|by etrans|by etrans].
Qed.
Lemma covered_mono ops o t : covered ops t → covered (o :: ops) t.
Proof. apply covered_by_mono. Qed.

Lemma deleg_ok_evolves ops o x st st' d r lim :
  evolves x st st' → lim ≤ next_token_id st → deleg_ok ops st d r lim → deleg_ok (o :: ops) st' d r lim.
Proof.
  intros [_ Ht] Hl [H1 H2 H3 H4 H5]. split; [done..|by apply covered_by_mono|].
  intros j p' Hj Hu Hid. destruct (Ht j p' Hj Hu ltac:(lia)) as (p & Hp & Hpu & E1 & E2 & E3 & E4 & _).
  destruct (H5 j p Hp Hpu ltac:(lia)) as (A & B & C). rewrite E2, E3. split_and!; [done|done|lia].
Qed.

(** The linkage of another token, and any other step, leave a delegation valid. *)
Lemma flight_ok_evolves ops o x st st' f :
  evolves x st st' → (∀ d, f ≠ Made x d) → flight_ok ops st f → flight_ok (o :: ops) st' f.
Proof.
  intros Hev Hx. destruct f as [d c tg r|id d]; cbn.
  - intros H. eapply deleg_ok_evolves in H; [|done..]. destruct H. split; try done. pose proof (ev_next _ _ _ Hev). lia.
  - intros [Hid H]. pose proof (ev_next _ _ _ Hev). split; [lia|]. intros i t Hi Hu Ht.
    destruct (ev_tok _ _ _ Hev i t Hi Hu ltac:(lia)) as (p & Hp & Hpu & E1 & E2 & E3 & _ & E5).
    assert (t = p) as -> by (apply E5; intros Hq; apply (Hx d); f_equal; lia).
    destruct (H i p Hp Hpu ltac:(lia)) as (A & B & C). split_and!; [|done|done]. eapply deleg_ok_evolves, A; [done|lia].
Qed.

Definition made_id (f : flight) : option Z := match f with Made id _ => Some id | _ => None end.

(** The invariant of a run. *)
Record token_inv (ops : list token_op) (sy : token_sys) : Prop := {
  ti_wf : token_wf (sys_st sy);
  ti_cov : ∀ i t, tokens (sys_st sy) !! i = Some t → tok_used t = true → covered ops t;
  ti_fl : ∀ k f, sys_flights sy !! k = Some f → flight_ok ops (sys_st sy) f;
  ti_made : ∀ k k' id d d', sys_flights sy !! k = Some (Made id d) → sys_flights sy !! k' = Some (Made id d') → k = k'
}.

(** A step of the table that changes no token but by clearing it, or adds one. *)
Lemma token_inv_evolves ops o st fl st' :
  token_inv ops (mk_token_sys st fl) → token_wf st' → evolves 0 st st' →
  (∀ i t, tokens st' !! i = Some t → tok_used t = true → next_token_id st ≤ tok_id t → covered (o :: ops) t) →
  token_inv (o :: ops) (mk_token_sys st' fl).
Proof.
  intros [Hwf Hcov Hfl Hm] Hwf' Hev Hnew. cbn in *. split; cbn; [done| | |done].
  - intros i t Hi Hu. destruct (decide (tok_id t < next_token_id st)) as [Hl|]; [|apply (Hnew i); [done|done|lia]].
    destruct (ev_tok _ _ _ Hev i t Hi Hu Hl) as (p & Hp & Hpu & E1 & E2 & E3 & _).
    unfold covered. rewrite E2, E3. by apply covered_by_mono, (Hcov i p).
  - intros k f Hk. eapply flight_ok_evolves; [done| |by apply (Hfl k)].
    intros d ->. destruct (Hfl k _ Hk) as [? _]. lia.
Qed.

Lemma lookup_delete_flight k k' (fl : list flight) f :
  delete k fl !! k' = Some f → ∃ j, fl !! j = Some f ∧ j ≠ k ∧ (j = if decide (k' < k)%nat then k' else S k')%nat.
Proof.
  destruct (decide (k' < k)%nat) as [Hl|Hl].
  - rewrite list_lookup_delete_lt by lia. intros H. exists k'. split_and!; [done|lia|done].
  - rewrite list_lookup_delete_ge by lia. intros H. exists (S k'). split_and!; [done|lia|done].
Qed.

Lemma token_inv_drop ops st fl k : token_inv ops (mk_token_sys st fl) → token_inv ops (mk_token_sys st (delete k fl)).
Proof.
  intros [Hwf Hcov Hfl Hm]. split; cbn in *; [done|done| |].
  - intros k' f (j & Hj & _)%lookup_delete_flight. by apply (Hfl j).
  - intros k1 k2 id d d' (j1 & H1 & _ & E1)%lookup_delete_flight (j2 & H2 & _ & E2)%lookup_delete_flight.
    pose proof (Hm _ _ _ _ _ H1 H2). repeat case_decide; lia.
Qed.

Lemma token_inv_check ops st fl pa c tg p r d :
  token_inv ops (mk_token_sys st fl) → 0 ≤ p < 2 ^ 32 → delegate_check pa c p r st = inr d →
  token_inv (OpDelegate pa c tg p r :: ops) (mk_token_sys st (fl ++ [Checked d c tg (delegate_resource r d)])).
Proof.
  intros Hinv Hp Hd. pose proof (ti_wf _ _ Hinv) as Hwf. cbn in Hwf.
  apply delegate_check_inr in Hd as (i & q & Hi & Hu & Hid & _ & _ & Hrange & Hsub & Hpre & _ & Hpa & Hdep & Hlim); [|done..].
  pose proof (ok_used _ _ (wf_tok _ Hwf i q Hi) Hu) as Hok.
  destruct (token_inv_evolves _ (OpDelegate pa c tg p r) _ _ st Hinv Hwf (evolves_refl st)) as [_ Hcov Hfl Hm].
  { intros j t Hj Htu. pose proof (ok_used _ _ (wf_tok _ Hwf j t Hj) Htu). lia. }
  cbn in *. split; cbn; [done..| |].
  - intros k f [Hk|[_ Hk]]%lookup_app_Some; [by apply (Hfl k)|]. apply list_lookup_singleton_Some in Hk as [_ <-].
    split; [done|lia|lia| |].
    + eapply covered_by_sub; [by apply (Hcov i q)|done|done].
    + intros j u Hj Huu Hui. assert (j = i) as -> by (eapply (wf_uniq _ Hwf); eauto; congruence). simplify_eq. split_and!; [done|done|lia].
  - intros k1 k2 id d1 d2 [H1|[_ H1]]%lookup_app_Some [H2|[_ H2]]%lookup_app_Some; [by eapply Hm|..];
      apply list_lookup_singleton_Some in H1 as [_ ?] || apply list_lookup_singleton_Some in H2 as [_ ?]; done.
Qed.

Lemma token_inv_create ops st fl k d c tg r :
  token_inv ops (mk_token_sys st fl) → next_token_id st < 2 ^ 31 → fl !! k = Some (Checked d c tg r) →
  token_inv (OpAdvance k :: ops) (advance k (mk_token_sys st fl)).
Proof.
  intros Hinv Hlt Hk. unfold advance. cbn. rewrite Hk. pose proof (ti_wf _ _ Hinv) as Hwf. cbn in Hwf.
  pose proof (ti_fl _ _ Hinv k _ Hk) as Hd. cbn in Hd. pose proof (do_perms _ _ _ _ _ Hd) as Hp. pose proof (wf_next _ Hwf) as Hn.
  pose proof (create_wf c (dg_perms d) (dg_perms d) tg (Some r) st Hwf Hlt Hp) as Hwf'.
  pose proof (evolves_create c (dg_perms d) (dg_perms d) tg (Some r) st Hwf Hlt Hp) as Hev.
  assert (Hsame : token_inv (OpAdvance k :: ops) (mk_token_sys st fl)).
  { apply (token_inv_evolves _ _ st _ st Hinv Hwf (evolves_refl st)). intros j t Hj Htu.
    pose proof (ok_used _ _ (wf_tok _ Hwf j t Hj) Htu). lia. }
  destruct (cap_token_create_cases c (dg_perms d) (dg_perms d) tg (Some r) st Hwf Hlt Hp)
    as [[_ ->]|[(_ & _ & ->)|(_ & i & t0 & rr & Hi & Hf & Hrl & Hr & E)]]; [by apply token_inv_drop..|].
  rewrite E in *. cbn [snd] in *. rewrite (proj2 (Z.ltb_lt _ _)) by lia. cbn [default] in Hr.
  assert (Hpre : ∀ x, (length x < TOKEN_PATH_MAX)%nat → x `prefix_of` c_str r → x `prefix_of` c_str rr)
    by (intros x Hx Hxr; rewrite Hr; apply prefix_take; [done|lia]).
  assert (Hcr : covered_by (OpAdvance k :: ops) (dg_perms d) (c_str rr)).
  { apply covered_by_mono. destruct (do_cov _ _ _ _ _ Hd) as (ow & caps & q & tg' & x & Hin & Hs & Hm & Hx).
    exists ow, caps, q, tg', x. split_and!; [done|done|done|]. apply Hpre; [rewrite length_take; lia|done]. }
  destruct (token_inv_evolves _ (OpAdvance k) _ _ _ Hinv Hwf' Hev) as [_ Hcov Hfl Hm].
  { intros j t [(-> & -> & _)|(_ & Hj)]%list_lookup_insert_cases Hu Hge; [done|].
    pose proof (ok_used _ _ (wf_tok _ Hwf j t Hj) Hu). lia. }
  cbn in *. split; cbn; [done|done| |].
  - intros k' f [(-> & -> & _)|(_ & Hk')]%list_lookup_insert_cases; [|by apply (Hfl k')].
    unfold flight_ok; cbn. split; [rewrite u32_id by lia; lia|].
    intros j t [(-> & -> & _)|(Hne & Hj)]%list_lookup_insert_cases Hu Hid; cbn in *; [|pose proof (ok_used _ _ (wf_tok _ Hwf j t Hj) Hu); lia].
    split_and!; [|done|done]. destruct (deleg_ok_evolves ops (OpAdvance k) 0 st _ d (c_str r) (next_token_id st) Hev ltac:(lia) Hd) as [? ? ? _ Ha].
    split; try done. intros j p Hj Hpu Hpid. destruct (Ha j p Hj Hpu Hpid) as (A & B & C). split_and!; [done| |done].
    apply Hpre; [|done]. apply (ok_str _ _ (wf_tok _ Hwf' j p Hj)).
  - intros k1 k2 id d1 d2 [(-> & [= -> ->] & _)|(N1 & H1)]%list_lookup_insert_cases [(-> & E2 & _)|(N2 & H2)]%list_lookup_insert_cases; [done|..|by eapply Hm].
    + destruct (ti_fl _ _ Hinv k2 _ H2) as [? _]. cbn in *. lia.
    + injection E2 as -> ->. destruct (ti_fl _ _ Hinv k1 _ H1) as [? _]. cbn in *. lia.
Qed.

Lemma delegate_link_cases id d st :
  token_wf st → 0 ≤ id < 2 ^ 32 →
  delegate_link id d st = st ∨
  ∃ i t, tokens st !! i = Some t ∧ tok_used t = true ∧ tok_id t = id ∧
    delegate_link id d st = st <| tokens := <[i := t <| tok_parent_id := dg_parent_id d |> <| tok_depth := dg_depth d |>]> (tokens st) |>.
Proof.
  intros Hwf Hid. unfold delegate_link. rewrite u32_id by lia.
  destruct (find_idx _ _) as [i|] eqn:Ef; [|by left]. right.
  apply find_token_is in Ef as (t & Hi & Hu & Ht). exists i, t. by rewrite (list_lookup_total_correct _ _ _ Hi).
Qed.

(** The last critical section; its token may have been delegated meanwhile. *)
Lemma link_wf ops st i t d :
  token_wf st → tokens st !! i = Some t → tok_used t = true → tok_depth t = 0 → tok_perms t = dg_perms d →
  deleg_ok ops st d (c_str (tok_resource t)) (tok_id t) →
  token_wf (st <| tokens := <[i := t <| tok_parent_id := dg_parent_id d |> <| tok_depth := dg_depth d |>]> (tokens st) |>).
Proof.
  intros [Hlen Hnext Htok Hu Hch] Hi Htu Hd0 Hp [Hpr Hpa Hde _ Hatt].
  pose proof (ok_used _ _ (Htok i t Hi) Htu) as Hok. split; cbn.
  - by rewrite length_insert.
  - done.
  - intros j u [(-> & -> & _)|(_ & Hj)]%list_lookup_insert_cases; [|by apply (Htok j)].
    destruct (Htok i t Hi). split; cbn; [done..|]. intros _. lia.
  - intros j k u v [(-> & -> & _)|(Hj1 & Hj)]%list_lookup_insert_cases [(-> & -> & _)|(Hk1 & Hk)]%list_lookup_insert_cases; cbn; intros; [done|..];
      by eapply Hu.
  - intros j k c p [(-> & -> & _)|(Hj1 & Hj)]%list_lookup_insert_cases [(-> & -> & _)|(Hk1 & Hk)]%list_lookup_insert_cases; cbn; intros Hcu Hpu Heq.
    + lia.
    + destruct (Hatt k p Hk Hpu ltac:(lia)) as (A & B & C). split_and!; cbn; [by rewrite Hp|done|lia].
    + destruct (Hch j i c t Hj Hi Hcu Htu Heq) as (A & B & C). split_and!; cbn; [done|done|lia].
    + by eapply Hch.
Qed.

Lemma token_inv_link ops st fl k id d :
  token_inv ops (mk_token_sys st fl) → fl !! k = Some (Made id d) →
  token_inv (OpAdvance k :: ops) (advance k (mk_token_sys st fl)).
Proof.
  intros Hinv Hk. unfold advance. cbn. rewrite Hk. pose proof (ti_wf _ _ Hinv) as Hwf. cbn in Hwf. pose proof (wf_next _ Hwf) as Hn.
  destruct (ti_fl _ _ Hinv k _ Hk) as [Hid Hmade]. cbn in *.
  destruct (delegate_link_cases id d st Hwf ltac:(lia)) as [->|(i & t & Hi & Hu & Ht & ->)].
  { apply token_inv_drop, (token_inv_evolves _ _ st _ st Hinv Hwf (evolves_refl st)). intros j t Hj Htu.
    pose proof (ok_used _ _ (wf_tok _ Hwf j t Hj) Htu). lia. }
  destruct (Hmade i t Hi Hu Ht) as (Hd & Hp & H0). destruct Hinv as [_ Hcov Hfl Hm]. cbn in *.
  assert (Hev : evolves id st (st <| tokens := <[i := t <| tok_parent_id := dg_parent_id d |> <| tok_depth := dg_depth d |>]> (tokens st) |>)).
  { split; [done|]. cbn. intros j p' [(-> & -> & _)|(_ & Hj)]%list_lookup_insert_cases Hpu _; [|by exists p'].
    exists t. cbn. split_and!; try done. pose proof (do_depth _ _ _ _ _ Hd). lia. }
  split; cbn; [subst id; by eapply link_wf| | |].
  - intros j u [(-> & -> & _)|(_ & Hj)]%list_lookup_insert_cases Huu; apply covered_mono; [|by apply (Hcov j)].
    unfold covered. cbn. by apply (Hcov i t).
  - intros k' f (j & Hj & Hne & _)%lookup_delete_flight. eapply flight_ok_evolves; [done| |by apply (Hfl j)].
    intros d' ->. by apply Hne, (Hm _ _ _ _ _ Hj Hk).
  - intros k1 k2 x d1 d2 (j1 & H1 & _ & E1)%lookup_delete_flight (j2 & H2 & _ & E2)%lookup_delete_flight.
    pose proof (Hm _ _ _ _ _ H1 H2). repeat case_decide; lia.
Qed.

Lemma token_run_invariant ops sy : token_run ops sy → token_inv ops sy.
Proof.
  induction 1 as [|ops o [st fl] _ Hinv [Hlt Hok]].
  { split; cbn [sys_st sys_flights]; [apply token_init_wf| |done|done]. by intros i t [-> _]%lookup_replicate. }
  pose proof (ti_wf _ _ Hinv) as Hwf. cbn in Hwf, Hlt.
  assert (Hold : ∀ o' (st' : token_st), tokens st' = tokens st ∨ clears (tokens st) (tokens st') →
    ∀ i t, tokens st' !! i = Some t → tok_used t = true → next_token_id st ≤ tok_id t → covered (o' :: ops) t).
  { intros o' st' Hc i t Hi Hu Hge. assert (tokens st !! i = Some t) as Hi'.
    { destruct Hc as [<-|Hc]; [done|]. by eapply clears_used. }
    pose proof (ok_used _ _ (wf_tok _ Hwf i t Hi') Hu). lia. }
  destruct o as [ow caps p tg r|x c|pa c tg p r|k|pid]; cbn.
  - eapply token_inv_evolves; [done|by apply create_wf|by apply evolves_create|].
    intros i t Hi Hu Hge.
    destruct (cap_token_create_cases ow caps p tg r st Hwf Hlt Hok) as [[_ E]|[(_ & _ & E)|(Hsub & j & t0 & rr & Hj & Hf & Hrl & Hr & E)]];
      rewrite E in Hi; cbn in Hi; [eapply (Hold _ st); eauto..|].
    apply list_lookup_insert_cases in Hi as [(-> & -> & _)|(_ & Hi)]; [|eapply (Hold _ st); eauto].
    exists ow, caps, p, tg, r. cbn. rewrite Hr. split_and!; [apply list_elem_of_here|done..].
  - eapply token_inv_evolves; [done|by apply revoke_wf| |eapply Hold; right; by apply cap_token_revoke_clears].
    rewrite cap_token_revoke_next. by apply evolves_clears, cap_token_revoke_clears.
  - destruct (delegate_check pa c p r st) as [e|d] eqn:Ed; [|by apply token_inv_check].
    eapply token_inv_evolves; [done|done|apply evolves_refl|by eapply (Hold _ st); left].
  - destruct (fl !! k) as [[d c tg r|id d]|] eqn:Ek.
    + by eapply token_inv_create.
    + by eapply token_inv_link.
    + unfold advance. cbn. rewrite Ek. eapply token_inv_evolves; [done|done|apply evolves_refl|by eapply (Hold _ st); left].
  - eapply token_inv_evolves; [done|apply clears_wf; [done|apply cleanup_clears]|apply evolves_clears, cleanup_clears|].
    eapply Hold. right. apply cleanup_clears.
Qed.

(** ** Main theorems *)

(** C1.  Revocation is exact.  When the owner of a used token revokes it, the
    call succeeds and clears precisely the used tokens that descend from it by
    delegation, through any number of levels; every other slot of the table is
    left as it was.  (In particular the recursion has terminated: the fuel
    exceeds the number of used tokens.) *)
Theorem cap_token_revoke_exact st i t :
  token_wf st → tokens st !! i = Some t → tok_used t = true →
  let r := cap_token_revoke (tok_id t) (tok_owner_pid t) st in
  r.1 = 0 ∧ next_token_id r.2 = next_token_id st ∧
  ∀ j u, tokens st !! j = Some u →
    (tok_used u = true ∧ descends (tokens st) (tok_id t) (tok_id u) →
       tokens r.2 !! j = Some (u <| tok_used := false |>)) ∧
    (¬ (tok_used u = true ∧ descends (tokens st) (tok_id t) (tok_id u)) →
       tokens r.2 !! j = Some u).
Proof.
  intros Hwf Hi Hu. rewrite (cap_token_revoke_owner st i t Hwf Hi Hu). cbn [fst snd tokens].
  split_and!; [done|done|]. intros j u Hj.
  apply revoked_exact; [apply Hwf|by eapply revoke_cascade_revoked|done].
Qed.

(** C2.  No amplification of authority.  Whatever sequence of creations,
    delegations, revocations and process exits leads to a state, with the three
    critical sections of every delegation interleaved with the others in any way, and
    as long as fewer than 2^31 tokens were created, every used token carries a subset
    of the permissions of some earlier creation, whose creator held all of them, and
    its resource lies under the (63-character) resource of that creation. *)
Theorem token_authority_bounded ops sy i t :
  token_run ops sy → tokens (sys_st sy) !! i = Some t → tok_used t = true → covered ops t.
Proof. intros Hrun. by apply (ti_cov _ _ (token_run_invariant ops sy Hrun)). Qed.

(** C3.  The table invariant holds in every state that creations, revocations, exits and
    the critical sections of delegations, interleaved in any way, can reach before
    2^31 tokens were created: identifiers of used tokens are unique and below the
    counter, delegation depth is at most [TOKEN_MAX_DEPTH], stored resources are
    NUL-terminated inside their buffer, and each token whose parent is still in the
    table has a subset of the parent's permissions, a resource under the parent's and
    at most the parent's depth plus one.  (It is less deep when it was delegated from
    a token that was not yet linked to its own parent.) *)
Theorem token_run_wf ops sy : token_run ops sy → token_wf (sys_st sy).
Proof. intros Hrun. apply (ti_wf _ _ (token_run_invariant ops sy Hrun)). Qed.

(** After a revocation, access is granted exactly by the tokens outside
    the revoked subtree: the check answers 1 if and only if a used token that
    does not descend from the revoked one targets the process (or is a bearer
    token), shares a permission bit with the request and has the requested
    resource under its own. *)
Theorem cap_token_check_after_revoke st i t pid cap res :
  token_wf st → tokens st !! i = Some t → tok_used t = true →
  cap_token_check pid cap res
    (cap_token_revoke (tok_id t) (tok_owner_pid t) st).2 = 1 ↔
  ∃ j u, tokens st !! j = Some u ∧ tok_used u = true ∧
    ¬ descends (tokens st) (tok_id t) (tok_id u) ∧
    (tok_target_pid u = 0 ∨ tok_target_pid u = pid) ∧ Z.land (tok_perms u) cap ≠ 0 ∧
    (∀ r, res = Some r → c_str (tok_resource u) `prefix_of` c_str r).
Proof.
  intros Hwf Hi Hu. pose proof (revoke_cascade_revoked st i t Hwf Hi Hu) as Hrv.
  rewrite (cap_token_revoke_owner st i t Hwf Hi Hu). cbn [snd].
  unfold cap_token_check. cbn [field_upd tokens].
  set (ts' := revoke_cascade_locked _ _ _) in *.
  destruct (find_idx (token_grants pid cap res) ts') as [k|] eqn:Ef.
  - split; [intros _|done]. apply find_idx_lookup in Ef as (u & Hk & Hg%token_grants_spec).
    exists k, u. destruct Hg as (Huu & Hrest). split_and!; [eapply clears_used; eauto; apply Hrv|done| |apply Hrest..].
    intros Hd. eapply (revoked_complete _ _ _ _ (wf_uniq _ Hwf) Hrv Hd); eauto.
  - split; [done|]. intros (j & u & Hj & Huu & Hnd & Hg). exfalso.
    rewrite find_idx_None in Ef.
    destruct (revoked_exact _ _ _ j u (wf_uniq _ Hwf) Hrv Hj) as [_ Hsame].
    specialize (Ef j u (Hsame ltac:(naive_solver))).
    apply not_true_iff_false in Ef. apply Ef, token_grants_spec. naive_solver.
Qed.

(** ** Witnesses and scenarios

    Process 10 creates a [CAP_INFER] token for process 20, which delegates it
    to process 30, which delegates it to process 40. *)

Definition run_token_ops (ops : list token_op) : token_sys :=
  foldr run_token_op (mk_token_sys token_init []) ops.

(** The second delegation starts before the token of the first is linked. *)
Definition sample_ops : list token_op :=
  [OpAdvance 0; OpAdvance 0; OpDelegate 2 30 40 0 None; OpAdvance 0; OpAdvance 0; OpDelegate 1 20 30 0 (Some [109; 49]);
   OpCreate 10 0x1FFF 0x100 20 (Some [109])].
Definition overlapped_ops : list token_op :=
  [OpAdvance 0; OpAdvance 1; OpDelegate 2 30 40 0 None; OpAdvance 0; OpDelegate 1 20 30 0 (Some [109; 49]);
   OpCreate 10 0x1FFF 0x100 20 (Some [109])].

Definition sample_sys : token_sys := Eval vm_compute in run_token_ops sample_ops.
Definition sample_tokens : token_st := sys_st sample_sys.

Definition tok1 : cap_token := Eval vm_compute in tokens (sys_st sample_sys) !!! 0%nat.
Definition tok2 : cap_token := Eval vm_compute in tokens (sys_st sample_sys) !!! 1%nat.
Definition tok3 : cap_token := Eval vm_compute in tokens (sys_st sample_sys) !!! 2%nat.

Lemma run_token_ops_run ops :
  Forall (λ o, match o with OpCreate _ _ p _ _ | OpDelegate _ _ _ p _ => 0 ≤ p < 2 ^ 32 | _ => True end) ops →
  (∀ n, next_token_id (sys_st (run_token_ops (drop n ops))) < 2 ^ 31) → token_run ops (run_token_ops ops).
Proof.
  induction 1 as [|o ops Ho _ IH]; intros Hn; [constructor|].
  apply token_run_step; [|split; [exact (Hn 1%nat)|done]].
  apply IH. intros n. exact (Hn (S n)).
Qed.

Lemma sample_run : token_run sample_ops sample_sys.
Proof.
  assert (sample_sys = run_token_ops sample_ops) as -> by (vm_compute; reflexivity).
  apply run_token_ops_run; [repeat constructor; done|]. intros n. do 8 (destruct n as [|n]; [by vm_compute|]). by vm_compute.
Qed.

Lemma sample_wf : token_wf sample_tokens.
Proof. apply (ti_wf _ _ (token_run_invariant _ _ sample_run)). Qed.

Lemma cap_token_revoke_exact_witness :
  (cap_token_revoke 1 10 sample_tokens).1 = 0 ∧
  tok_used <$> (tokens (cap_token_revoke 1 10 sample_tokens).2 !! 2%nat) = Some false.
Proof.
  pose proof (cap_token_revoke_exact sample_tokens 0 tok1
    sample_wf eq_refl eq_refl) as H.
  change (tok_id tok1) with 1 in H.
  change (tok_owner_pid tok1) with 10 in H.
  destruct H as (H0 & _ & Hex). split; [exact H0|].
  destruct (Hex 2%nat tok3 eq_refl) as [Hdesc _].
  rewrite Hdesc; [done|]. split; [done|]. apply (descends_child _ _ 2 tok3); [done|done|].
  change (tok_parent_id tok3)
    with (tok_id tok2).
  apply (descends_child _ _ 1 tok2); [done|done|]. constructor.
Defined.

Lemma token_authority_bounded_witness :
  covered sample_ops tok3.
Proof.
  apply (token_authority_bounded sample_ops sample_sys 2 tok3);
    [apply sample_run|reflexivity|reflexivity].
Defined.

(** The sub-token of a token that is not yet linked has depth 1 although its parent
    then gets depth 1 itself. *)
Lemma token_run_wf_witness :
  token_wf (sys_st (run_token_ops overlapped_ops)) ∧
  (tok_depth <$> tokens (sys_st (run_token_ops (OpAdvance 0 :: overlapped_ops)))) !! 2%nat = Some 1 ∧
  (tok_depth <$> tokens (sys_st (run_token_ops (OpAdvance 0 :: overlapped_ops)))) !! 1%nat = Some 1.
Proof.
  split; [|split; by vm_compute]. apply (token_run_wf overlapped_ops), run_token_ops_run; [repeat constructor; done|].
  intros n. do 7 (destruct n as [|n]; [by vm_compute|]). by vm_compute.
Defined.

Lemma cap_token_check_after_revoke_witness :
  cap_token_check 40 0x100 (Some [109; 49; 50]) (cap_token_revoke 3 30 sample_tokens).2 = 1 →
  ∃ j u, tokens sample_tokens !! j = Some u ∧
    ¬ descends (tokens sample_tokens) 3 (tok_id u) ∧ Z.land (tok_perms u) 0x100 ≠ 0.
Proof.
  intros H.
  apply (cap_token_check_after_revoke sample_tokens 2 tok3 40 0x100
    (Some [109; 49; 50]) sample_wf eq_refl eq_refl) in H
    as (j & u & Hj & _ & Hd & _ & Hp & _).
  exists j, u. auto.
Defined.

(** The delegation of process 20 interrupted between its first two critical
    sections by a revocation of the parent. *)
Definition delegate_race (st : token_st) : option (Z * Z * token_st) :=
  match delegate_check 1 20 0 None st with
  | inl _ => None
  | inr d =>
      let '(rv, st1) := cap_token_revoke 1 10 st in
      let '(new_id, st2) :=
        cap_token_create 20 (dg_perms d) (dg_perms d) 30 (Some (delegate_resource None d)) st1 in
      Some (rv, new_id, delegate_link new_id d st2)
  end.

(** The lock that [cap_token_delegate] releases between its check and the
    creation of the sub-token leaves a window: a revocation of the parent that
    runs in it succeeds, returns 0, and yet the delegation completes and the
    recipient holds the revoked permission afterwards. *)
Theorem delegate_revoke_race :
  ∃ st' new_id,
    delegate_race (sys_st (run_token_ops [OpCreate 10 0x1FFF 0x100 20 None])) = Some (0, new_id, st') ∧
    0 < new_id ∧ cap_token_check 30 0x100 None st' = 1 ∧
    (cap_token_revoke 1 10 st').1 = - ENOENT.
Proof. eexists _, _. split; [vm_compute; reflexivity|]. by vm_compute. Qed.

(** Process cleanup clears exactly the used tokens the process owns or is
    the target of, and every other slot keeps its value: in contrast to
    [cap_token_revoke], tokens delegated further from a cleared token stay
    valid. *)
Theorem cap_token_cleanup_exact pid st i t :
  tokens st !! i = Some t →
  tokens (cap_token_cleanup_pid pid st) !! i =
  Some (if decide (tok_used t = true ∧ (tok_owner_pid t = pid ∨ tok_target_pid t = pid))
        then t <| tok_used := false |> else t).
Proof.
  intros Hi. cbn. rewrite list_lookup_fmap, Hi. cbn. f_equal. unfold token_cleanup_one.
  case_decide as Hd; case_all; naive_solver.
Qed.

Lemma cap_token_cleanup_exact_witness :
  tok_used <$> (tokens (cap_token_cleanup_pid 10 sample_tokens) !! 1%nat) = Some true ∧
  cap_token_check 30 0x100 (Some [109; 49]) (cap_token_cleanup_pid 10 sample_tokens) = 1.
Proof.
  split; [|by vm_compute].
  rewrite (cap_token_cleanup_exact 10 sample_tokens 1 tok2);
    reflexivity.
Defined.
