(* ===== verification/AgentNs.v ===== *)
(** * AgentNs: agent namespaces and their quotas

    Models [src/kernel/src/ipc/agent_ns.c] and [agent_ns.h]: the table of
    [MAX_NAMESPACES] namespaces (slot 0 is the global namespace and is never
    allocated), creation, joining, quotas and cleanup.  The agent registry's
    [agent_unregister_ns], which cleanup calls for each destroyed namespace, is
    in [AgentReg]; here cleanup returns the list of namespaces it destroyed, in
    the order of the calls. *)

From S2P Require Import Prelude KUtil.

Abbreviation MAX_NAMESPACES := 8%nat (only parsing).
Abbreviation NS_NAME_MAX := 32%nat (only parsing).
Abbreviation NS_QUOTA_PROCS := 0 (only parsing).
Abbreviation NS_QUOTA_MEM_PAGES := 1 (only parsing).

(** ** State *)

Record agent_namespace := mk_ns {
  ns_name : list Z;
  ns_owner_pid : Z;
  ns_used : bool;
  ns_max_procs : Z;          (* 0 = unlimited *)
  ns_max_mem_pages : Z;      (* 0 = unlimited *)
  ns_cur_procs : Z;
  ns_cur_mem_pages : Z
}.
#[export] Instance agent_namespace_eta : Eta agent_namespace := λ n,
  mk_ns (ns_name n) (ns_owner_pid n) (ns_used n) (ns_max_procs n) (ns_max_mem_pages n)
    (ns_cur_procs n) (ns_cur_mem_pages n).
#[export] Instance agent_namespace_inhabited : Inhabited agent_namespace :=
  populate (mk_ns (replicate NS_NAME_MAX 0) 0 false 0 0 0 0).

Abbreviation ns_table := (list agent_namespace) (only parsing).

Definition ns_init : list agent_namespace := replicate MAX_NAMESPACES inhabitant.

(** ** Operations *)

(** The search for a free slot starts at 1. *)
Definition ns_free_slot (tbl : ns_table) : option nat :=
  S <$> find_idx (λ n, negb (ns_used n)) (drop 1 tbl).

Definition agent_ns_create (name : option (list Z)) (owner_pid : Z) (tbl : ns_table)
    : Z * ns_table :=
  match ns_free_slot tbl with
  | Some i =>
      let n0 := tbl !!! i in
      let n :=
        n0 <| ns_used := true |>
           <| ns_owner_pid := owner_pid |>
           <| ns_name :=
                match name with
                | Some s => str_copy (ns_name n0) s NS_NAME_MAX
                | None => <[O := 0]> (ns_name n0)
                end |> in
      (Z.of_nat i, <[i := n]> tbl)
  | None => (- ENOMEM, tbl)
  end.

Definition agent_ns_join (ns_id caller_pid caller_uid : Z) (tbl : ns_table) : Z :=
  if ns_id =? 0 then 0
  else if (Z.of_nat MAX_NAMESPACES <=? ns_id) || negb (ns_used (tbl !!! Z.to_nat ns_id))
  then - ENOENT
  else if negb (caller_uid =? 0) && negb (ns_owner_pid (tbl !!! Z.to_nat ns_id) =? caller_pid)
  then - EPERM
  else 0.

(** The loop of [agent_ns_cleanup_pid] from slot [i] on ([n] slots left): the
    table, and the namespaces destroyed. *)
Fixpoint ns_cleanup_loop (pid : Z) (i n : nat) (tbl : ns_table) : ns_table * list Z :=
  match n with
  | O => (tbl, [])
  | S n' =>
      let ns := tbl !!! i in
      if ns_used ns && (ns_owner_pid ns =? pid) then
        let '(tbl', gone) := ns_cleanup_loop pid (S i) n' (<[i := ns <| ns_used := false |>]> tbl) in
        (tbl', Z.of_nat i :: gone)
      else ns_cleanup_loop pid (S i) n' tbl
  end.

Definition agent_ns_cleanup_pid (pid : Z) (tbl : ns_table) : ns_table * list Z :=
  ns_cleanup_loop pid 1 (MAX_NAMESPACES - 1) tbl.

Definition agent_ns_valid (ns_id : Z) (tbl : ns_table) : Z :=
  if ns_id =? 0 then 1
  else if Z.of_nat MAX_NAMESPACES <=? ns_id then 0
  else b2z (ns_used (tbl !!! Z.to_nat ns_id)).

Definition agent_ns_set_quota (ns_id resource limit caller_pid caller_uid : Z)
    (tbl : ns_table) : Z * ns_table :=
  if (ns_id =? 0) || (Z.of_nat MAX_NAMESPACES <=? ns_id) then (- ENOENT, tbl)
  else
    let i := Z.to_nat ns_id in
    let n := tbl !!! i in
    if negb (ns_used n) then (- ENOENT, tbl)
    else if negb (caller_uid =? 0) && negb (ns_owner_pid n =? caller_pid) then (- EPERM, tbl)
    else if resource =? NS_QUOTA_PROCS then (0, <[i := n <| ns_max_procs := limit |>]> tbl)
    else if resource =? NS_QUOTA_MEM_PAGES
    then (0, <[i := n <| ns_max_mem_pages := limit |>]> tbl)
    else (- EINVAL, tbl).

(** [cur + count <= max] is an addition of [uint32_t]. *)
Definition agent_ns_quota_check (ns_id resource count : Z) (tbl : ns_table) : Z :=
  if (ns_id =? 0) || (Z.of_nat MAX_NAMESPACES <=? ns_id) then 1
  else
    let n := tbl !!! Z.to_nat ns_id in
    if negb (ns_used n) then 1
    else if resource =? NS_QUOTA_PROCS then
      if ns_max_procs n =? 0 then 1
      else b2z (u32 (ns_cur_procs n + count) <=? ns_max_procs n)
    else if resource =? NS_QUOTA_MEM_PAGES then
      if ns_max_mem_pages n =? 0 then 1
      else b2z (u32 (ns_cur_mem_pages n + count) <=? ns_max_mem_pages n)
    else 1.

(** [int32_t val = (int32_t)cur + delta; cur = (val > 0) ? (uint32_t)val : 0]. *)
Definition quota_add (cur delta : Z) : Z :=
  let val := i32 (i32 cur + delta) in
  if 0 <? val then u32 val else 0.

Definition agent_ns_quota_adjust (ns_id resource delta : Z) (tbl : ns_table) : ns_table :=
  if (ns_id =? 0) || (Z.of_nat MAX_NAMESPACES <=? ns_id) then tbl
  else
    let i := Z.to_nat ns_id in
    let n := tbl !!! i in
    if negb (ns_used n) then tbl
    else if resource =? NS_QUOTA_PROCS
    then <[i := n <| ns_cur_procs := quota_add (ns_cur_procs n) delta |>]> tbl
    else if resource =? NS_QUOTA_MEM_PAGES
    then <[i := n <| ns_cur_mem_pages := quota_add (ns_cur_mem_pages n) delta |>]> tbl
    else tbl.

(** ** Specification *)

(** The identifier names an allocated namespace. *)
Definition ns_live (ns_id : Z) (tbl : ns_table) : Prop :=
  1 ≤ ns_id < Z.of_nat MAX_NAMESPACES ∧ ns_used (tbl !!! Z.to_nat ns_id) = true.

(** May administer (join, set quotas of) the namespace: its owner, or root. *)
Definition ns_admin (n : agent_namespace) (pid uid : Z) : Prop :=
  uid = 0 ∨ ns_owner_pid n = pid.

(** The limit and the usage that a quota resource denotes. *)
Definition quota_max (resource : Z) (n : agent_namespace) : Z :=
  if resource =? NS_QUOTA_PROCS then ns_max_procs n else ns_max_mem_pages n.
Definition quota_cur (resource : Z) (n : agent_namespace) : Z :=
  if resource =? NS_QUOTA_PROCS then ns_cur_procs n else ns_cur_mem_pages n.

Definition is_quota_resource (resource : Z) : Prop :=
  resource = NS_QUOTA_PROCS ∨ resource = NS_QUOTA_MEM_PAGES.

(** ** Lemmas *)

Lemma ns_guard ns_id :
  0 ≤ ns_id → (ns_id =? 0) || (Z.of_nat MAX_NAMESPACES <=? ns_id) = false ↔
  1 ≤ ns_id < Z.of_nat MAX_NAMESPACES.
Proof. intros ?. rewrite orb_false_iff, Z.eqb_neq, Z.leb_gt. lia. Qed.

Lemma ns_free_slot_Some tbl i :
  ns_free_slot tbl = Some i →
  (1 ≤ i < length tbl)%nat ∧ ∃ n, tbl !! i = Some n ∧ ns_used n = false.
Proof.
  unfold ns_free_slot. intros (k & Hk & ->)%fmap_Some.
  apply find_idx_lookup in Hk as (n & Hn & Hu). rewrite lookup_drop in Hn. bool_hyps.
  pose proof (lookup_lt_Some _ _ _ Hn). split; [lia|eauto].
Qed.

Lemma quota_add_exact cur delta :
  0 ≤ cur < 2 ^ 31 → 0 ≤ cur + delta < 2 ^ 31 → quota_add cur delta = cur + delta.
Proof.
  intros Hc Hs. unfold quota_add. rewrite !i32_id by (rewrite ?i32_id by lia; lia).
  destruct (0 <? cur + delta) eqn:E; bool_hyps; [apply u32_id; lia|lia].
Qed.

Lemma ns_cleanup_loop_length pid i n tbl :
  length (ns_cleanup_loop pid i n tbl).1 = length tbl.
Proof.
  revert i tbl. induction n as [|n IH]; intros i tbl; [done|]. cbn [ns_cleanup_loop].
  case_match; [|apply IH].
  specialize (IH (S i) (<[i:=(tbl !!! i) <| ns_used := false |>]> tbl)).
  destruct (ns_cleanup_loop _ _ _ _). cbn in *. by rewrite IH, length_insert.
Qed.

(** What cleanup does to one slot. *)
Definition ns_cleanup_one (pid : Z) (x : agent_namespace) : agent_namespace :=
  if ns_used x && (ns_owner_pid x =? pid) then x <| ns_used := false |> else x.

Lemma ns_cleanup_loop_spec pid i n tbl :
  (i + n ≤ length tbl)%nat →
  (∀ j x, tbl !! j = Some x → (ns_cleanup_loop pid i n tbl).1 !! j =
     Some (if decide (i ≤ j < i + n)%nat then ns_cleanup_one pid x else x)) ∧
  (∀ z, z ∈ (ns_cleanup_loop pid i n tbl).2 ↔ ∃ j x, z = Z.of_nat j ∧ (i ≤ j < i + n)%nat ∧
     tbl !! j = Some x ∧ ns_used x = true ∧ ns_owner_pid x = pid).
Proof.
  revert i tbl. induction n as [|n IH]; intros i tbl Hlen; cbn [ns_cleanup_loop].
  { split.
    - intros j x Hj. by rewrite decide_False by lia.
    - intros z. cbn [snd]. split; [by intros ?%not_elem_of_nil|]. intros (j & x & _ & ? & _). lia. }
  destruct (lookup_lt_is_Some_2 tbl i) as [x Hx]; [lia|].
  rewrite (list_lookup_total_correct _ _ _ Hx).
  destruct (ns_used x && (ns_owner_pid x =? pid)) eqn:E.
  - destruct (IH (S i) (<[i:=x <| ns_used := false |>]> tbl)) as [IH1 IH2];
      [rewrite length_insert; lia|].
    destruct (ns_cleanup_loop _ _ _ _) as [tbl' gone]. cbn [fst snd] in *. split.
    + intros j y Hj. destruct (decide (j = i)) as [->|Hne].
      * simplify_eq. rewrite (IH1 i (x <| ns_used := false |>)), decide_False, decide_True by
          (rewrite ?list_lookup_insert_eq; done || lia).
        unfold ns_cleanup_one. by rewrite E.
      * rewrite (IH1 j y) by by rewrite list_lookup_insert_ne. f_equal.
        destruct (decide (S i ≤ j < S i + n)%nat), (decide (i ≤ j < i + S n)%nat); done || lia.
    + intros z. rewrite elem_of_cons, IH2. bool_hyps. split.
      * intros [->|(j & y & -> & Hj & Hy & Hu & Ho)]; [exists i, x; split_and!; done || lia|].
        rewrite list_lookup_insert_ne in Hy by lia. exists j, y. split_and!; done || lia.
      * intros (j & y & -> & Hj & Hy & Hu & Ho). destruct (decide (j = i)) as [->|]; [by left|].
        right. exists j, y. rewrite list_lookup_insert_ne by done. split_and!; done || lia.
  - destruct (IH (S i) tbl) as [IH1 IH2]; [lia|]. split.
    + intros j y Hj. rewrite (IH1 j y Hj). f_equal. destruct (decide (j = i)) as [->|].
      * simplify_eq. rewrite decide_False, decide_True by lia. unfold ns_cleanup_one. by rewrite E.
      * destruct (decide (S i ≤ j < S i + n)%nat), (decide (i ≤ j < i + S n)%nat); done || lia.
    + intros z. rewrite IH2. split; intros (j & y & -> & Hj & Hy & Hu & Ho).
      * exists j, y. split_and!; done || lia.
      * exists j, y. destruct (decide (j = i)) as [->|]; [|split_and!; done || lia].
        simplify_eq. rewrite Hu, Z.eqb_refl in E. done.
Qed.

(** ** Main theorems *)

(** Joining a namespace succeeds exactly for the global namespace, and for
    an allocated namespace when the caller is root or its owner. *)
Theorem agent_ns_join_iff ns_id pid uid tbl :
  0 ≤ ns_id →
  agent_ns_join ns_id pid uid tbl = 0 ↔
  ns_id = 0 ∨ (ns_live ns_id tbl ∧ ns_admin (tbl !!! Z.to_nat ns_id) pid uid).
Proof.
  intros Hns. unfold agent_ns_join, ns_live, ns_admin. set (n := tbl !!! Z.to_nat ns_id).
  destruct (ns_id =? 0) eqn:E0; bool_hyps; [naive_solver|].
  destruct (Z.of_nat MAX_NAMESPACES <=? ns_id) eqn:E1; bool_hyps; cbn [orb]; [split; [done|lia]|].
  destruct (ns_used n) eqn:Eu; cbn [negb]; [|naive_solver].
  destruct (uid =? 0) eqn:E2, (ns_owner_pid n =? pid) eqn:E3; bool_hyps; cbn [negb andb];
    split; try done; intros; right || naive_solver; split; auto with lia.
Qed.

(** C39.  Quota admission.  If the check admits [count] more units of a limited
    resource and the usage is then adjusted by [count], the new usage is the
    old one plus [count] and stays within the limit.  (The sums must fit in 31
    bits, where the [uint32_t] and [int32_t] arithmetic of the code is exact.) *)
Theorem quota_admission ns_id resource count tbl :
  ns_live ns_id tbl → length tbl = MAX_NAMESPACES → is_quota_resource resource →
  let n := tbl !!! Z.to_nat ns_id in
  let n' := agent_ns_quota_adjust ns_id resource count tbl !!! Z.to_nat ns_id in
  0 ≤ quota_cur resource n → 0 ≤ count → quota_cur resource n + count < 2 ^ 31 →
  quota_max resource n ≠ 0 → agent_ns_quota_check ns_id resource count tbl = 1 →
  quota_cur resource n' = quota_cur resource n + count ∧
  quota_cur resource n' ≤ quota_max resource n' ∧ quota_max resource n' = quota_max resource n.
Proof.
  intros [Hid Hu] Hlen Hres n n' Hc0 Hct Hsum Hmax Hchk. subst n n'.
  unfold agent_ns_quota_check, agent_ns_quota_adjust in *.
  rewrite (proj2 (ns_guard ns_id ltac:(lia))) in * by lia.
  rewrite Hu in *. cbn [negb] in *. set (n := tbl !!! Z.to_nat ns_id) in *.
  assert (Z.to_nat ns_id < length tbl)%nat by lia.
  unfold quota_cur, quota_max, b2z in *.
  destruct Hres as [-> | ->]; cbn [Z.eqb Pos.eqb] in *;
    rewrite list_lookup_total_insert_eq by done; cbn;
    rewrite quota_add_exact by lia; rewrite u32_id in Hchk by lia;
    case_all; lia.
Qed.

(** Creation does not reset the quota fields: the namespace allocated in a
    slot starts with the limits and the usage counters that the slot's
    previous namespace left behind. *)
Theorem agent_ns_create_keeps_quota name owner tbl i tbl' :
  agent_ns_create name owner tbl = (Z.of_nat i, tbl') →
  ns_used (tbl' !!! i) = true ∧ ns_owner_pid (tbl' !!! i) = owner ∧
  ∀ resource, quota_max resource (tbl' !!! i) = quota_max resource (tbl !!! i) ∧
              quota_cur resource (tbl' !!! i) = quota_cur resource (tbl !!! i).
Proof.
  unfold agent_ns_create. destruct (ns_free_slot tbl) as [k|] eqn:Ef; [|intros [= ? _]; lia].
  intros [= Hk <-]. apply Nat2Z.inj in Hk as ->.
  apply ns_free_slot_Some in Ef as [Hlt _].
  rewrite list_lookup_total_insert_eq by lia. done.
Qed.

(** The quota check adds at 32 bits: a request so large that the sum wraps
    around is admitted although it exceeds the limit. *)
Theorem quota_check_wraps ns_id count tbl :
  ns_live ns_id tbl → let n := tbl !!! Z.to_nat ns_id in
  0 ≤ ns_cur_mem_pages n → 0 ≤ count < 2 ^ 32 →
  2 ^ 32 ≤ ns_cur_mem_pages n + count < 2 ^ 32 + ns_max_mem_pages n →
  ns_max_mem_pages n < 2 ^ 32 →
  agent_ns_quota_check ns_id NS_QUOTA_MEM_PAGES count tbl = 1.
Proof.
  intros [Hid Hu] n Hc Hct Hsum Hmax. subst n. unfold agent_ns_quota_check.
  rewrite (proj2 (ns_guard ns_id ltac:(lia))) by lia. rewrite Hu. cbn [negb Z.eqb Pos.eqb].
  set (n := tbl !!! Z.to_nat ns_id) in *. destruct (ns_max_mem_pages n =? 0); [done|].
  assert (u32 (ns_cur_mem_pages n + count) = ns_cur_mem_pages n + count - 2 ^ 32) as ->.
  { unfold u32. symmetry. apply (Z.mod_unique _ _ 1); lia. }
  unfold b2z. destruct (_ <=? _) eqn:E; bool_hyps; [done|lia].
Qed.

(** Cleanup of a process destroys exactly the namespaces it owns: their
    slots are freed (and every other slot is unchanged), and the identifiers
    passed on to the agent registry are exactly those. *)
Theorem agent_ns_cleanup_exact pid tbl j x :
  length tbl = MAX_NAMESPACES → tbl !! j = Some x →
  (agent_ns_cleanup_pid pid tbl).1 !! j =
    Some (if decide (j = O) then x else ns_cleanup_one pid x) ∧
  (Z.of_nat j ∈ (agent_ns_cleanup_pid pid tbl).2 ↔
     j ≠ O ∧ ns_used x = true ∧ ns_owner_pid x = pid).
Proof.
  intros Hlen Hj. pose proof (lookup_lt_Some _ _ _ Hj).
  destruct (ns_cleanup_loop_spec pid 1 (MAX_NAMESPACES - 1) tbl) as [H1 H2]; [lia|].
  unfold agent_ns_cleanup_pid. split.
  - rewrite (H1 j x Hj). f_equal.
    destruct (decide (1 ≤ j < 1 + (MAX_NAMESPACES - 1))%nat), (decide (j = O)); done || lia.
  - rewrite H2. split.
    + intros (k & y & Hk & Hr & Hy & Hu & Ho). apply Nat2Z.inj in Hk as ->. simplify_eq.
      split_and!; done || lia.
    + intros (Hne & Hu & Ho). exists j, x. split_and!; done || lia.
Qed.

(** ** Witnesses

    Process 10 owns namespace 1, limited to two processes and one of them in
    use, and to 16 pages; then it exits and process 20 creates a namespace. *)

Definition ns_tbl1 : ns_table := Eval vm_compute in
  let t1 := (agent_ns_create (Some [97]) 10 ns_init).2 in
  let t2 := (agent_ns_set_quota 1 NS_QUOTA_PROCS 2 10 1000 t1).2 in
  let t3 := (agent_ns_set_quota 1 NS_QUOTA_MEM_PAGES 16 10 1000 t2).2 in
  let t4 := agent_ns_quota_adjust 1 NS_QUOTA_MEM_PAGES 8 t3 in
  agent_ns_quota_adjust 1 NS_QUOTA_PROCS 1 t4.

Definition ns_tbl2 : ns_table := Eval vm_compute in (agent_ns_cleanup_pid 10 ns_tbl1).1.
Definition ns_tbl3 : ns_table := Eval vm_compute in (agent_ns_create (Some [98]) 20 ns_tbl2).2.

Lemma ns_tbl1_live : ns_live 1 ns_tbl1.
Proof. split; [lia|reflexivity]. Qed.

Lemma agent_ns_join_iff_witness :
  agent_ns_join 1 10 1000 ns_tbl1 = 0 ∧ agent_ns_join 1 20 1000 ns_tbl1 ≠ 0.
Proof.
  split.
  - apply (agent_ns_join_iff 1 10 1000 ns_tbl1); [lia|]. right.
    split; [apply ns_tbl1_live|by right].
  - rewrite (agent_ns_join_iff 1 20 1000 ns_tbl1); [|lia].
    intros [H|[_ [H|H]]]; discriminate H.
Defined.

Lemma quota_admission_witness :
  quota_cur NS_QUOTA_PROCS (agent_ns_quota_adjust 1 NS_QUOTA_PROCS 1 ns_tbl1 !!! 1%nat) ≤ 2.
Proof.
  pose proof (quota_admission 1 NS_QUOTA_PROCS 1 ns_tbl1 ns_tbl1_live eq_refl
    (or_introl eq_refl)) as H.
  apply H; vm_compute; congruence.
Defined.

(** Namespace 1 of process 20 starts with the two-process limit and one process
    already counted. *)
Lemma agent_ns_create_keeps_quota_witness :
  agent_ns_create (Some [98]) 20 ns_tbl2 = (1, ns_tbl3) ∧
  quota_max NS_QUOTA_PROCS (ns_tbl3 !!! 1%nat) = 2 ∧
  quota_cur NS_QUOTA_PROCS (ns_tbl3 !!! 1%nat) = 1 ∧
  agent_ns_quota_check 1 NS_QUOTA_PROCS 2 ns_tbl3 = 0.
Proof.
  split; [reflexivity|].
  destruct (agent_ns_create_keeps_quota (Some [98]) 20 ns_tbl2 1 ns_tbl3 eq_refl) as (_ & _ & H).
  destruct (H NS_QUOTA_PROCS) as [-> ->]. by vm_compute.
Defined.

Lemma quota_check_wraps_witness :
  agent_ns_quota_check 1 NS_QUOTA_MEM_PAGES (2 ^ 32 - 8) ns_tbl1 = 1.
Proof.
  apply (quota_check_wraps 1 (2 ^ 32 - 8) ns_tbl1 ns_tbl1_live); vm_compute; try split; congruence.
Defined.

Lemma agent_ns_cleanup_exact_witness :
  1 ∈ (agent_ns_cleanup_pid 10 ns_tbl1).2.
Proof.
  apply (agent_ns_cleanup_exact 10 ns_tbl1 1 (ns_tbl1 !!! 1%nat)); [reflexivity|reflexivity|].
  split_and!; [lia|reflexivity|reflexivity].
Defined.
