(* ===== verification/AgentReg.v ===== *)
(** * AgentReg: the agent name registry and its mailboxes

    Models [src/kernel/src/ipc/agent_reg.c] and [agent_reg.h]: a table of
    [MAX_AGENTS] named agents, scoped by namespace, each with a mailbox of
    [AGENT_MBOX_SLOTS] messages; registration, lookup, removal, and message
    passing with optional delegation of a capability token ([CapToken]).

    [agent_send] releases its lock while the token is delegated; it is modelled
    as the three phases of the code ([agent_send_find], the delegation,
    [agent_send_enqueue]) and their composition.  Whether a process is alive
    ([process_lookup] and the state of its main thread) is a parameter. *)

From S2P Require Import Prelude KUtil Ring CapToken.

Abbreviation MAX_AGENTS := 16%nat (only parsing).
Abbreviation AGENT_NAME_MAX := 32%nat (only parsing).
Abbreviation AGENT_MBOX_SLOTS := 4%nat (only parsing).
Abbreviation AGENT_MSG_MAX := 256 (only parsing).

(** ** State *)

Record agent_mbox_msg := mk_msg {
  msg_sender_pid : Z;
  msg_token_id : Z;          (* delegated token, 0 = none *)
  msg_len : Z;
  msg_data : list Z          (* uint8_t data[AGENT_MSG_MAX] *)
}.
#[export] Instance agent_mbox_msg_eta : Eta agent_mbox_msg := λ m,
  mk_msg (msg_sender_pid m) (msg_token_id m) (msg_len m) (msg_data m).
#[export] Instance agent_mbox_msg_inhabited : Inhabited agent_mbox_msg :=
  populate (mk_msg 0 0 0 (replicate (Z.to_nat AGENT_MSG_MAX) 0)).

Record agent_entry := mk_agent {
  ag_name : list Z;
  ag_pid : Z;
  ag_ns_id : Z;
  ag_used : bool;
  ag_mbox : ring agent_mbox_msg
}.
#[export] Instance agent_entry_eta : Eta agent_entry := λ e,
  mk_agent (ag_name e) (ag_pid e) (ag_ns_id e) (ag_used e) (ag_mbox e).
#[export] Instance agent_entry_inhabited : Inhabited agent_entry :=
  populate (mk_agent (replicate AGENT_NAME_MAX 0) 0 0 false
    (mk_ring (replicate AGENT_MBOX_SLOTS inhabitant) 0 0 0)).

Abbreviation agent_table := (list agent_entry) (only parsing).

Definition agent_init : list agent_entry := replicate MAX_AGENTS inhabitant.

(** ** Registration and lookup *)

(** The test of the scans: a used entry of this namespace with this name. *)
Definition agent_is (name : list Z) (ns_id : Z) (e : agent_entry) : bool :=
  ag_used e && (ag_ns_id e =? ns_id) && str_eq (ag_name e) name.

Definition agent_register_ns (name : list Z) (pid ns_id : Z) (tbl : agent_table)
    : Z * agent_table :=
  match find_idx (agent_is name ns_id) tbl with
  | Some i =>
      let e := tbl !!! i in
      (0, <[i := e <| ag_pid := pid |> <| ag_mbox := ring_reset (ag_mbox e) |>]> tbl)
  | None =>
      match find_idx (λ e, negb (ag_used e)) tbl with
      | Some i =>
          let e := tbl !!! i in
          (0, <[i := e <| ag_name := str_copy (ag_name e) name AGENT_NAME_MAX |>
                       <| ag_pid := pid |>
                       <| ag_ns_id := ns_id |>
                       <| ag_used := true |>
                       <| ag_mbox := ring_reset (ag_mbox e) |>]> tbl)
      | None => (- ENOMEM, tbl)
      end
  end.

(** The loop of [agent_lookup_ns]: entries of dead processes are freed on the
    way; the result is the [pid] of the first live one. *)
Fixpoint agent_lookup_loop (alive : Z → bool) (name : list Z) (ns_id : Z)
    (tbl : agent_table) : option Z * agent_table :=
  match tbl with
  | [] => (None, [])
  | e :: tbl' =>
      if agent_is name ns_id e then
        if negb (alive (ag_pid e)) then
          let '(r, t) := agent_lookup_loop alive name ns_id tbl' in
          (r, e <| ag_used := false |> :: t)
        else (Some (ag_pid e), e :: tbl')
      else
        let '(r, t) := agent_lookup_loop alive name ns_id tbl' in (r, e :: t)
  end.

(** The return code, [*pid_out] when it is written, and the table. *)
Definition agent_lookup_ns (alive : Z → bool) (name : list Z) (ns_id : Z)
    (tbl : agent_table) : Z * option Z * agent_table :=
  match agent_lookup_loop alive name ns_id tbl with
  | (Some pid, t) => (0, Some pid, t)
  | (None, t) => (- ESRCH, None, t)
  end.

(** Legacy wrappers for the global namespace. *)
Definition agent_register (name : list Z) (pid : Z) (tbl : agent_table) : Z * agent_table :=
  agent_register_ns name pid 0 tbl.
Definition agent_lookup (alive : Z → bool) (name : list Z) (tbl : agent_table)
    : Z * option Z * agent_table :=
  agent_lookup_ns alive name 0 tbl.

Definition agent_unregister_pid (pid : Z) (tbl : agent_table) : agent_table :=
  (λ e, if ag_used e && (ag_pid e =? pid) then e <| ag_used := false |> else e) <$> tbl.

Definition agent_unregister_ns (ns_id : Z) (tbl : agent_table) : agent_table :=
  (λ e, if ag_used e && (ag_ns_id e =? ns_id) then e <| ag_used := false |> else e) <$> tbl.

(** ** Messages *)

(** The target scan of [agent_send]. *)
Definition agent_reachable (name : list Z) (ns_id : Z) (e : agent_entry) : bool :=
  if negb (ag_used e) then false
  else if negb (ag_ns_id e =? ns_id) && negb (ag_ns_id e =? 0) && negb (ns_id =? 0)
  then false
  else str_eq (ag_name e) name.

(** First critical section of [agent_send]: the target and room in its mailbox. *)
Definition agent_send_find (name : list Z) (ns_id : Z) (tbl : agent_table) : Z + nat :=
  match find_idx (agent_reachable name ns_id) tbl with
  | None => inl (- ENOENT)
  | Some i =>
      if decide (AGENT_MBOX_SLOTS ≤ r_count (ag_mbox (tbl !!! i)))%nat
      then inl (- ENOBUFS) else inr i
  end.

(** [if (len > AGENT_MSG_MAX) len = AGENT_MSG_MAX]. *)
Definition msg_clip (len : Z) : Z := if AGENT_MSG_MAX <? len then AGENT_MSG_MAX else len.

(** Fill the slot at the tail. *)
Definition msg_fill (sender_pid token len : Z) (data : list Z) (m : agent_mbox_msg)
    : agent_mbox_msg :=
  m <| msg_sender_pid := sender_pid |>
    <| msg_token_id := token |>
    <| msg_len := len |>
    <| msg_data := mem_copy (msg_data m) data (Z.to_nat len) |>.

(** Last critical section of [agent_send]: the target slot must still be in use
    when a token was delegated; then enqueue. *)
Definition agent_send_enqueue (idx : nat) (recheck : bool) (sender_pid token len : Z)
    (data : list Z) (tbl : agent_table) : Z * agent_table :=
  let e := tbl !!! idx in
  if recheck && negb (ag_used e) then (- ENOENT, tbl)
  else
    (0, <[idx := e <| ag_mbox :=
           ring_put AGENT_MBOX_SLOTS (msg_fill sender_pid token len data) (ag_mbox e) |>]> tbl).

(** The delegation in the middle of [agent_send]: same permissions and resource,
    for the process of the target entry; a failed delegation sends token 0. *)
Definition agent_send_delegate (token_id sender_pid target_pid : Z) (ts : token_st)
    : Z * token_st :=
  let '(new_tok, ts') := cap_token_delegate token_id sender_pid target_pid 0 (Some [0]) ts in
  (if 0 <? new_tok then u32 new_tok else 0, ts').

(** [agent_send] ([sender_caps] is ignored by the code).  The lock is free while a token
    is delegated; [mid] is what others do to the registry meanwhile. *)
Definition agent_send (mid : agent_table → agent_table) (name : list Z) (ns_id sender_pid : Z) (data : list Z) (len token_id : Z)
    (tbl : agent_table) (ts : token_st) : Z * agent_table * token_st :=
  let len := msg_clip len in
  match agent_send_find name ns_id tbl with
  | inl e => (e, tbl, ts)
  | inr i =>
      if negb (token_id =? 0) then
        let '(tok, ts') := agent_send_delegate token_id sender_pid (ag_pid (tbl !!! i)) ts in
        let '(r, tbl') := agent_send_enqueue i true sender_pid tok len data (mid tbl) in
        (r, tbl', ts')
      else
        let '(r, tbl') := agent_send_enqueue i false sender_pid 0 len data tbl in
        (r, tbl', ts)
  end.

(** What [agent_recv] writes through its pointers. *)
Record recv_out := mk_recv { rc_sender : Z; rc_token : Z; rc_data : list Z }.

Definition agent_recv (pid max_len : Z) (tbl : agent_table)
    : Z * option recv_out * agent_table :=
  match find_idx (λ e, ag_used e && (ag_pid e =? pid)) tbl with
  | None => (- ESRCH, None, tbl)
  | Some i =>
      let e := tbl !!! i in
      if decide (r_count (ag_mbox e) = O) then (- EAGAIN, None, tbl)
      else
        let slot := r_buf (ag_mbox e) !!! r_head (ag_mbox e) in
        let copy_len := if max_len <? msg_len slot then max_len else msg_len slot in
        (copy_len,
         Some (mk_recv (msg_sender_pid slot) (msg_token_id slot)
                 (take (Z.to_nat copy_len) (msg_data slot))),
         <[i := e <| ag_mbox := ring_drop AGENT_MBOX_SLOTS (ag_mbox e) |>]> tbl)
  end.

(** ** Invariant *)

Definition slot_wf (m : agent_mbox_msg) : Prop :=
  length (msg_data m) = Z.to_nat AGENT_MSG_MAX ∧ 0 ≤ msg_len m ≤ AGENT_MSG_MAX.

Definition agent_wf (e : agent_entry) : Prop :=
  length (ag_name e) = AGENT_NAME_MAX ∧ ring_wf AGENT_MBOX_SLOTS (ag_mbox e) ∧
  Forall slot_wf (r_buf (ag_mbox e)).

(** No two used entries of a namespace carry the same name. *)
Definition agents_unique (tbl : agent_table) : Prop :=
  ∀ i j e f, tbl !! i = Some e → tbl !! j = Some f → ag_used e = true → ag_used f = true →
    ag_ns_id e = ag_ns_id f → c_str (ag_name e) = c_str (ag_name f) → i = j.

Definition agents_wf (tbl : agent_table) : Prop :=
  length tbl = MAX_AGENTS ∧ Forall agent_wf tbl ∧ agents_unique tbl.

(** The operations of the registry, each run to the end without the others. *)
Inductive agent_step (alive : Z → bool) : agent_table → agent_table → Prop :=
  | step_register name pid ns tbl :
      (length (c_str name) < AGENT_NAME_MAX)%nat →
      agent_step alive tbl (agent_register_ns name pid ns tbl).2
  | step_lookup name ns tbl :
      agent_step alive tbl (agent_lookup_ns alive name ns tbl).2
  | step_unregister_pid pid tbl : agent_step alive tbl (agent_unregister_pid pid tbl)
  | step_unregister_ns ns tbl : agent_step alive tbl (agent_unregister_ns ns tbl)
  | step_send name ns sender data len tok tbl ts :
      0 ≤ len → (Z.to_nat (msg_clip len) ≤ length data)%nat →
      agent_step alive tbl (agent_send id name ns sender data len tok tbl ts).1.2
  | step_recv pid max_len tbl : agent_step alive tbl (agent_recv pid max_len tbl).2.

(** The messages waiting in a mailbox: sender, token and bytes, oldest first. *)
Definition msg_view (m : agent_mbox_msg) : Z * Z * list Z :=
  (msg_sender_pid m, msg_token_id m, take (Z.to_nat (msg_len m)) (msg_data m)).
Definition mbox_queue (e : agent_entry) : list (Z * Z * list Z) :=
  msg_view <$> ring_contents (ag_mbox e).

(** ** Lemmas *)

Lemma agent_is_true name ns e :
  agent_is name ns e = true ↔
  ag_used e = true ∧ ag_ns_id e = ns ∧ c_str (ag_name e) = c_str name.
Proof.
  unfold agent_is. rewrite !andb_true_iff, Z.eqb_eq, str_eq_true. naive_solver.
Qed.

Lemma agents_lookup tbl i :
  agents_wf tbl → (i < length tbl)%nat → ∃ e, tbl !! i = Some e ∧ tbl !!! i = e ∧ agent_wf e.
Proof.
  intros (_ & Hf & _) [e He]%lookup_lt_is_Some_2. exists e. split_and!; [done| |].
  - by apply list_lookup_total_correct.
  - by eapply Forall_lookup_1.
Qed.

(** Changing entries pointwise, without making a used entry or renaming one,
    keeps the names unique. *)
Lemma agents_unique_mono tbl tbl' :
  (∀ i e', tbl' !! i = Some e' → ag_used e' = true → ∃ e, tbl !! i = Some e ∧
     ag_used e = true ∧ ag_ns_id e = ag_ns_id e' ∧ ag_name e = ag_name e') →
  agents_unique tbl → agents_unique tbl'.
Proof.
  intros Hm Hu i j e f Hi Hj Hue Huf Hns Hn.
  destruct (Hm _ _ Hi Hue) as (e0 & ? & ? & ? & ?), (Hm _ _ Hj Huf) as (f0 & ? & ? & ? & ?).
  eapply (Hu i j e0 f0); congruence.
Qed.

Lemma agents_wf_update tbl i e e' :
  agents_wf tbl → tbl !! i = Some e → agent_wf e' →
  ag_used e' = ag_used e → ag_ns_id e' = ag_ns_id e → ag_name e' = ag_name e →
  agents_wf (<[i:=e']> tbl).
Proof.
  intros (Hl & Hf & Hu) Hi He' H1 H2 H3. split_and!.
  - by rewrite length_insert.
  - by apply Forall_insert.
  - eapply agents_unique_mono; [|done]. intros j f [(-> & -> & _)|(? & ?)]%list_lookup_insert_cases Huf;
      [exists e|exists f]; split_and!; congruence.
Qed.

(** Freeing entries keeps the invariant. *)
Definition freed (e e' : agent_entry) : Prop := e' = e ∨ e' = e <| ag_used := false |>.

Lemma agents_wf_free tbl tbl' : Forall2 freed tbl tbl' → agents_wf tbl → agents_wf tbl'.
Proof.
  intros HF (Hl & Hw & Hu). split_and!.
  - by rewrite <-(Forall2_length _ _ _ HF).
  - apply Forall_lookup. intros i e' Hi.
    destruct (Forall2_lookup_r _ _ _ _ _ HF Hi) as (e & He & [-> | ->]);
      by apply (Forall_lookup_1 _ _ _ _ Hw He).
  - eapply agents_unique_mono; [|done]. intros i e' Hi Hue.
    destruct (Forall2_lookup_r _ _ _ _ _ HF Hi) as (e & He & [-> | ->]); [by exists e|done].
Qed.

Lemma freed_fmap (p : agent_entry → bool) tbl :
  Forall2 freed tbl ((λ e, if p e then e <| ag_used := false |> else e) <$> tbl).
Proof. induction tbl as [|e tbl IH]; constructor; [|done]. destruct (p e); [by right|by left]. Qed.

Lemma freed_refl tbl : Forall2 freed tbl tbl.
Proof. induction tbl; constructor; [by left|done]. Qed.

Lemma freed_lookup alive name ns tbl : Forall2 freed tbl (agent_lookup_loop alive name ns tbl).2.
Proof.
  induction tbl as [|e tbl IH]; cbn; [constructor|].
  destruct (agent_lookup_loop alive name ns tbl) as [r t]. cbn in IH.
  destruct (agent_is name ns e); [destruct (alive (ag_pid e))|]; cbn;
    constructor; (done || (by left) || (by right) || apply freed_refl).
Qed.

Lemma agent_reset_wf e : agent_wf e → agent_wf (e <| ag_mbox := ring_reset (ag_mbox e) |>).
Proof.
  intros (H1 & H2 & H3). split_and!; cbn; [done| |done].
  apply ring_reset_wf; [lia|]. by destruct H2.
Qed.

Lemma agent_register_ns_wf name pid ns tbl :
  (length (c_str name) < AGENT_NAME_MAX)%nat →
  agents_wf tbl → agents_wf (agent_register_ns name pid ns tbl).2.
Proof.
  intros Hn Hwf. unfold agent_register_ns.
  destruct (find_idx (agent_is name ns) tbl) as [i|] eqn:E; cbn.
  - destruct (agents_lookup tbl i Hwf) as (e & Hi & -> & He); [by eapply find_idx_lt|].
    apply (agents_wf_update tbl i e); [done..| |done|done|done]. apply (agent_reset_wf e He).
  - destruct (find_idx (λ e, negb (ag_used e)) tbl) as [i|] eqn:E2; cbn; [|done].
    destruct (agents_lookup tbl i Hwf) as (e & Hi & -> & He); [by eapply find_idx_lt|].
    destruct Hwf as (Hl & Hf & Hu). destruct He as (H1 & H2 & H3).
    assert (c_str (str_copy (ag_name e) name AGENT_NAME_MAX) = c_str name) as Hc.
    { rewrite c_str_str_copy by lia. rewrite take_ge; [done|lia]. }
    split_and!.
    + by rewrite length_insert.
    + apply Forall_insert; [done|]. split_and!; cbn; [by rewrite length_str_copy| |done].
      apply ring_reset_wf; [lia|apply H2].
    + intros j k f g [(-> & -> & _)|(? & Hf')]%list_lookup_insert_cases
        [(-> & -> & _)|(? & Hg)]%list_lookup_insert_cases Huf Hug Hns Hnm; cbn in *; [done|..].
      * eapply find_idx_None in E; [|done]. apply not_true_iff_false in E. rewrite agent_is_true in E.
        naive_solver congruence.
      * eapply find_idx_None in E; [|done]. apply not_true_iff_false in E. rewrite agent_is_true in E.
        naive_solver congruence.
      * eapply (Hu j k f g); done.
Qed.

Lemma msg_clip_range len : 0 ≤ len → 0 ≤ msg_clip len ≤ AGENT_MSG_MAX.
Proof. intros. unfold msg_clip. case_all; lia. Qed.

Lemma msg_fill_wf sender tok len data m :
  slot_wf m → 0 ≤ len ≤ AGENT_MSG_MAX → slot_wf (msg_fill sender tok len data m).
Proof. intros [H1 H2] Hl. split; cbn; [|done]. by rewrite length_mem_copy. Qed.

Lemma msg_fill_view sender tok len data m :
  slot_wf m → 0 ≤ len ≤ AGENT_MSG_MAX → (Z.to_nat len ≤ length data)%nat →
  msg_view (msg_fill sender tok len data m) = (sender, tok, take (Z.to_nat len) data).
Proof. intros [H1 H2] Hl Hd. unfold msg_view. cbn. by rewrite take_mem_copy by lia. Qed.

(** Filling a mailbox slot and stepping over one, on the abstract queue. *)
Lemma mbox_put_spec e sender tok len data :
  let e' := e <| ag_mbox := ring_put AGENT_MBOX_SLOTS (msg_fill sender tok len data) (ag_mbox e) |> in
  agent_wf e → 0 ≤ len ≤ AGENT_MSG_MAX → (Z.to_nat len ≤ length data)%nat →
  (r_count (ag_mbox e) < AGENT_MBOX_SLOTS)%nat →
  agent_wf e' ∧ mbox_queue e' = mbox_queue e ++ [(sender, tok, take (Z.to_nat len) data)].
Proof.
  intros e' (H1 & H2 & H3) Hl Hd Hc. subst e'.
  destruct (ring_put_contents _ (msg_fill sender tok len data) _ H2 Hc) as (m & Hm & Heq).
  pose proof (Forall_lookup_1 _ _ _ _ H3 Hm) as Hwm. split.
  - split_and!; cbn; [done|by apply ring_put_wf|].
    apply Forall_alter; [done|]. intros x Hx Hsx. apply msg_fill_wf; [|done].
    by apply (Forall_lookup_1 _ _ _ _ H3 Hx).
  - unfold mbox_queue. cbn [field_upd ag_mbox]. rewrite Heq, fmap_app. cbn. by rewrite msg_fill_view.
Qed.

Lemma mbox_drop_spec e :
  let e' := e <| ag_mbox := ring_drop AGENT_MBOX_SLOTS (ag_mbox e) |> in
  agent_wf e → (0 < r_count (ag_mbox e))%nat →
  agent_wf e' ∧ ∃ m, r_buf (ag_mbox e) !!! r_head (ag_mbox e) = m ∧ slot_wf m ∧
    mbox_queue e = msg_view m :: mbox_queue e'.
Proof.
  intros e' (H1 & H2 & H3) Hc. subst e'.
  destruct (ring_drop_contents _ _ H2 Hc) as (m & Hm & Heq). split.
  - split_and!; cbn; [done|by apply ring_drop_wf|done].
  - exists m. split_and!.
    + by apply list_lookup_total_correct.
    + by apply (Forall_lookup_1 _ _ _ _ H3 Hm).
    + unfold mbox_queue. rewrite Heq. done.
Qed.

Lemma mbox_queue_length e : agent_wf e → length (mbox_queue e) = r_count (ag_mbox e).
Proof.
  intros (_ & H & _). unfold mbox_queue. rewrite length_fmap. by eapply length_ring_contents.
Qed.

(** Where a message of a sender that passed the first critical section ends up: in the
    table [tbl] of the last one. *)
Definition delivered (i : nat) (recheck : bool) (msg : Z * Z * list Z) (tbl : agent_table) (r : Z) (tbl' : agent_table) : Prop :=
  ∃ e, tbl !! i = Some e ∧
    if recheck && negb (ag_used e) then r = - ENOENT ∧ tbl' = tbl
    else r = 0 ∧ ∃ e', tbl' = <[i := e']> tbl ∧ ag_used e' = ag_used e ∧ ag_pid e' = ag_pid e ∧ ag_name e' = ag_name e ∧ ag_ns_id e' = ag_ns_id e ∧
      if decide (length (mbox_queue e) < AGENT_MBOX_SLOTS)%nat then agent_wf e' ∧ mbox_queue e' = mbox_queue e ++ [msg]
      else r_count (ag_mbox e') = S AGENT_MBOX_SLOTS.

Lemma enqueue_delivered i recheck sender t len data tbl :
  agents_wf tbl → (i < MAX_AGENTS)%nat → 0 ≤ len ≤ AGENT_MSG_MAX → (Z.to_nat len ≤ length data)%nat →
  let '(r, tbl') := agent_send_enqueue i recheck sender t len data tbl in
  delivered i recheck (sender, t, take (Z.to_nat len) data) tbl r tbl'.
Proof.
  intros Hwf Hi Hl Hd. destruct (agents_lookup tbl i Hwf) as (e & He & Ee & Hew); [destruct Hwf as [-> _]; done|].
  unfold agent_send_enqueue. rewrite Ee. destruct (recheck && negb (ag_used e)) eqn:Er; exists e; (split; [done|]); rewrite Er; [done|].
  split; [done|]. eexists. split; [reflexivity|]. do 4 (split; [done|]). pose proof (mbox_queue_length e Hew) as Hq.
  case_decide as Hc; [by apply mbox_put_spec; [..|lia]|]. cbn. destruct Hew as (_ & (_ & _ & ? & _) & _). lia.
Qed.

(** The outcomes of [agent_send]. *)
Lemma agent_send_cases mid name ns sender data len tok tbl ts :
  agents_wf tbl → agents_wf (mid tbl) → 0 ≤ len → (Z.to_nat (msg_clip len) ≤ length data)%nat →
  let '(r, tbl', ts') := agent_send mid name ns sender data len tok tbl ts in
  match find_idx (agent_reachable name ns) tbl with
  | None => r = - ENOENT ∧ tbl' = tbl
  | Some i => ∃ e, tbl !! i = Some e ∧
      if decide (length (mbox_queue e) = AGENT_MBOX_SLOTS) then r = - ENOBUFS ∧ tbl' = tbl
      else if tok =? 0 then delivered i false (sender, 0, take (Z.to_nat (msg_clip len)) data) tbl r tbl'
      else delivered i true (sender, (agent_send_delegate tok sender (ag_pid e) ts).1, take (Z.to_nat (msg_clip len)) data) (mid tbl) r tbl'
  end.
Proof.
  intros Hwf Hwm Hlen Hd. unfold agent_send, agent_send_find. cbv zeta.
  destruct (find_idx (agent_reachable name ns) tbl) as [i|] eqn:E; [|done].
  destruct (agents_lookup tbl i Hwf) as (e & Hi & Hie & He); [by eapply find_idx_lt|].
  assert (i < MAX_AGENTS)%nat as Hlt by (destruct Hwf as [<- _]; by eapply lookup_lt_Some).
  pose proof (mbox_queue_length e He) as Hq. pose proof (msg_clip_range len Hlen) as Hcl. destruct He as (_ & (_ & _ & Hmax & _) & _).
  rewrite Hie. case_decide as Hc.
  { exists e. split; [done|]. by rewrite decide_True by lia. }
  destruct (tok =? 0) eqn:Et; cbn [negb].
  - pose proof (enqueue_delivered i false sender 0 (msg_clip len) data tbl Hwf Hlt Hcl Hd) as H.
    destruct (agent_send_enqueue _ _ _ _ _ _ _) as [r tbl']. exists e. split; [done|]. by rewrite decide_False by lia.
  - rewrite Hie. destruct (agent_send_delegate tok sender (ag_pid e) ts) as [t ts'] eqn:Ed.
    pose proof (enqueue_delivered i true sender t (msg_clip len) data (mid tbl) Hwm Hlt Hcl Hd) as H.
    destruct (agent_send_enqueue _ _ _ _ _ _ _) as [r tbl']. exists e. split; [done|]. rewrite decide_False by lia. by rewrite Ed.
Qed.

(** Run without the others, a message that finds room arrives. *)
Lemma delivered_wf i recheck msg tbl r tbl' e :
  agents_wf tbl → tbl !! i = Some e → (length (mbox_queue e) < AGENT_MBOX_SLOTS)%nat → delivered i recheck msg tbl r tbl' → agents_wf tbl'.
Proof.
  intros Hwf Hi Hq (e0 & He & H). rewrite Hi in He. injection He as <-. destruct (recheck && negb (ag_used e)); [by destruct H as [_ ->]|].
  destruct H as (_ & e' & -> & E1 & E2 & E3 & E4 & H). rewrite decide_True in H by done.
  apply (agents_wf_update tbl i e); [done..|by destruct H|congruence|congruence|congruence].
Qed.

Lemma agent_send_wf name ns sender data len tok tbl ts :
  agents_wf tbl → 0 ≤ len → (Z.to_nat (msg_clip len) ≤ length data)%nat →
  agents_wf (agent_send id name ns sender data len tok tbl ts).1.2.
Proof.
  intros Hwf Hlen Hd. pose proof (agent_send_cases id name ns sender data len tok tbl ts Hwf Hwf Hlen Hd) as H.
  destruct (agent_send _ _ _ _ _ _ _ _ _) as [[r tbl'] ts']. cbn.
  destruct (find_idx _ _) as [i|] eqn:Ef; [|by destruct H as [_ ->]]. destruct H as (e & He & H).
  assert (agent_wf e) as Hew by (by apply (Forall_lookup_1 _ _ _ _ (proj1 (proj2 Hwf)) He)).
  pose proof (mbox_queue_length e Hew) as Hq. destruct Hew as (_ & (_ & _ & Hmax & _) & _).
  case_decide; [by destruct H as [_ ->]|]. destruct (tok =? 0); (eapply delivered_wf; [done|done|lia|exact H]).
Qed.

Lemma agent_recv_wf pid max_len tbl : agents_wf tbl → agents_wf (agent_recv pid max_len tbl).2.
Proof.
  intros Hwf. unfold agent_recv. destruct (find_idx _ tbl) as [i|] eqn:E; [|done].
  destruct (agents_lookup tbl i Hwf) as (e & Hi & -> & He); [by eapply find_idx_lt|].
  case_decide; [done|]. cbn.
  apply (agents_wf_update tbl i e); [done..| |done|done|done].
  apply (mbox_drop_spec e); [done|lia].
Qed.

Lemma agent_init_wf : agents_wf agent_init.
Proof.
  split_and!; [done| |].
  - repeat constructor; vm_compute; congruence.
  - intros i j e f [-> _]%lookup_replicate _ Hu. discriminate Hu.
Qed.

(** The result of the lookup scan. *)
Lemma agent_lookup_loop_hit alive name ns tbl i e :
  find_idx (agent_is name ns) tbl = Some i → tbl !! i = Some e → alive (ag_pid e) = true →
  agent_lookup_loop alive name ns tbl = (Some (ag_pid e), tbl).
Proof.
  revert i. induction tbl as [|f tbl IH]; intros i Hf Hi Ha; cbn in Hf; [done|].
  cbn [agent_lookup_loop]. destruct (agent_is name ns f) eqn:E.
  - simplify_eq/=. by rewrite Ha.
  - apply fmap_Some in Hf as (k & Hk & ->). cbn in Hi. by rewrite (IH k).
Qed.

Lemma agent_run_wf alive tbl : rtc (agent_step alive) agent_init tbl → agents_wf tbl.
Proof.
  intros Hr. apply (rtc_invariant (agent_step alive) agents_wf agent_init); [|done|apply agent_init_wf].
  intros a b Ha Hs. destruct Hs as [name pid ns tbl1 Hn|name ns tbl1|pid tbl1|ns tbl1| |].
  - by apply agent_register_ns_wf.
  - eapply agents_wf_free; [|done]. pose proof (freed_lookup alive name ns tbl1).
    unfold agent_lookup_ns. by destruct (agent_lookup_loop alive name ns tbl1) as [[?|] ?].
  - eapply agents_wf_free; [|done]. apply freed_fmap.
  - eapply agents_wf_free; [|done]. apply freed_fmap.
  - by apply agent_send_wf.
  - by apply agent_recv_wf.
Qed.

(** ** Main theorems *)

(** In every state reachable from the empty registry the mailboxes are
    well-formed rings of well-formed messages, and a name of fewer than 32
    characters is held by at most one used entry of its namespace. *)
Theorem agent_reachable_wf alive tbl :
  rtc (agent_step alive) agent_init tbl → agents_wf tbl.
Proof. apply agent_run_wf. Qed.

(** Registration and lookup: a successful registration under a name of
    fewer than 32 characters is found by a lookup in the same namespace, which
    returns the registered process while it is alive and changes nothing; its
    mailbox starts empty. *)
Theorem agent_register_lookup alive name pid ns tbl tbl' :
  agents_wf tbl → (length (c_str name) < AGENT_NAME_MAX)%nat → alive pid = true →
  agent_register_ns name pid ns tbl = (0, tbl') →
  agent_lookup_ns alive name ns tbl' = (0, Some pid, tbl') ∧
  ∃ i e, find_idx (agent_is name ns) tbl' = Some i ∧ tbl' !! i = Some e ∧
    ag_pid e = pid ∧ mbox_queue e = [].
Proof.
  intros Hwf Hn Ha Hreg.
  assert (∃ i e, find_idx (agent_is name ns) tbl' = Some i ∧ tbl' !! i = Some e ∧
    ag_pid e = pid ∧ mbox_queue e = []) as (i & e & Hf & Hi & <- & Hq).
  { pose proof (agent_register_ns_wf name pid ns tbl Hn Hwf) as (_ & _ & Hu).
    rewrite Hreg in Hu. cbn in Hu. unfold agent_register_ns in Hreg.
    assert (∃ i e, tbl' !! i = Some e ∧ agent_is name ns e = true ∧ ag_pid e = pid ∧ mbox_queue e = [])
      as (i & e & Hi & He & Hp & Hq).
    { destruct (find_idx (agent_is name ns) tbl) as [i|] eqn:E; [|
        destruct (find_idx (λ e, negb (ag_used e)) tbl) as [i|] eqn:E2; [|done]].
      - injection Hreg as <-.
        destruct (agents_lookup tbl i Hwf) as (e & Hi & -> & He); [by eapply find_idx_lt|].
        eexists i, _. split; [apply list_lookup_insert_eq; by eapply lookup_lt_Some|].
        apply find_idx_lookup in E as (e0 & He0 & Hm). rewrite Hi in He0. by injection He0 as <-.
      - injection Hreg as <-.
        destruct (agents_lookup tbl i Hwf) as (e & Hi & -> & He); [by eapply find_idx_lt|].
        eexists i, _. split; [apply list_lookup_insert_eq; by eapply lookup_lt_Some|].
        split; [|done]. apply agent_is_true. cbn. split_and!; [done..|].
        destruct He as (He & _). rewrite c_str_str_copy by lia. rewrite take_ge; [done|lia]. }
    exists i, e. split_and!; [|done..]. apply (find_idx_unique _ _ _ e); [done..|].
    intros j f Hj Hfm. apply agent_is_true in He as (? & ? & ?), Hfm as (? & ? & ?).
    eapply Hu; [done..| |]; congruence. }
  split; [|by exists i, e]. unfold agent_lookup_ns. by rewrite (agent_lookup_loop_hit _ _ _ _ i e).
Qed.

(** C28.  Sending refines appending to the recipient's queue, whatever others do to the
    registry while the lock is free for the delegation of a token, as long as it is
    well-formed.  With no reachable recipient, or with four messages waiting, the call
    fails and nothing changes.  Otherwise, without a token, the first 256 bytes of the
    message and its sender become the last message of the first reachable entry, and
    no other entry changes.  With a token the same happens, with the delegated token,
    to the entry as it is after the delegation, if it is still in use and its mailbox
    has room then; if it is no longer in use the call fails with [-ENOENT] and changes
    nothing; and if the mailbox was filled meanwhile, the call succeeds and the mailbox
    counts five messages in its four slots. *)
Theorem agent_send_refines mid name ns sender data len tok tbl ts :
  agents_wf tbl → agents_wf (mid tbl) → 0 ≤ len → (Z.to_nat (msg_clip len) ≤ length data)%nat →
  let '(r, tbl', ts') := agent_send mid name ns sender data len tok tbl ts in
  match find_idx (agent_reachable name ns) tbl with
  | None => r < 0 ∧ tbl' = tbl
  | Some i => ∃ e, tbl !! i = Some e ∧
      if decide (length (mbox_queue e) = AGENT_MBOX_SLOTS) then r < 0 ∧ tbl' = tbl
      else if tok =? 0 then delivered i false (sender, 0, take (Z.to_nat (msg_clip len)) data) tbl r tbl'
      else delivered i true (sender, (agent_send_delegate tok sender (ag_pid e) ts).1, take (Z.to_nat (msg_clip len)) data) (mid tbl) r tbl'
  end.
Proof.
  intros Hwf Hwm Hlen Hd. pose proof (agent_send_cases mid name ns sender data len tok tbl ts Hwf Hwm Hlen Hd) as H.
  destruct (agent_send _ _ _ _ _ _ _ _ _) as [[r tbl'] ts']. destruct (find_idx _ _) as [i|]; [|by destruct H as [-> ->]].
  destruct H as (e & He & H). exists e. split; [done|]. case_decide; [by destruct H as [-> ->]|]. by destruct (tok =? 0).
Qed.

(** The error for a full mailbox is [-ENOBUFS]. *)
Lemma agent_send_full mid name ns sender data len tok tbl ts i e :
  find_idx (agent_reachable name ns) tbl = Some i → tbl !! i = Some e → (AGENT_MBOX_SLOTS ≤ r_count (ag_mbox e))%nat →
  agent_send mid name ns sender data len tok tbl ts = (- ENOBUFS, tbl, ts).
Proof.
  intros Hf Hi Hc. unfold agent_send, agent_send_find. rewrite Hf, (list_lookup_total_correct _ _ _ Hi). by rewrite decide_True.
Qed.

(** Receiving refines taking the first message of the queue: a process
    that owns no entry gets [-ESRCH], one with an empty mailbox [-EAGAIN];
    otherwise the oldest message is removed and its sender, token and bytes
    (cut to the caller's buffer) are returned with the number of bytes. *)
Theorem agent_recv_refines pid max_len tbl :
  agents_wf tbl → 0 ≤ max_len →
  let '(r, out, tbl') := agent_recv pid max_len tbl in
  match find_idx (λ e, ag_used e && (ag_pid e =? pid)) tbl with
  | None => r = - ESRCH ∧ out = None ∧ tbl' = tbl
  | Some i => ∃ e, tbl !! i = Some e ∧
      match mbox_queue e with
      | [] => r = - EAGAIN ∧ out = None ∧ tbl' = tbl
      | (sender, tok, bytes) :: q =>
          out = Some (mk_recv sender tok (take (Z.to_nat max_len) bytes)) ∧
          r = Z.of_nat (Nat.min (Z.to_nat max_len) (length bytes)) ∧
          ∃ e', tbl' = <[i := e']> tbl ∧ mbox_queue e' = q ∧
            ag_used e' = ag_used e ∧ ag_pid e' = ag_pid e ∧ ag_name e' = ag_name e
      end
  end.
Proof.
  intros Hwf Hm. unfold agent_recv. destruct (find_idx _ tbl) as [i|] eqn:E; [|done].
  destruct (agents_lookup tbl i Hwf) as (e & Hi & Hie & He); [by eapply find_idx_lt|].
  rewrite Hie. pose proof (mbox_queue_length e He) as Hq. case_decide as Hc.
  { exists e. split; [done|]. rewrite Hc in Hq. apply nil_length_inv in Hq. by rewrite Hq. }
  exists e. split; [done|]. destruct (mbox_drop_spec e He) as [Hw (m & -> & [Hl1 Hl2] & ->)]; [lia|].
  unfold msg_view at 1. split_and!.
  - do 2 f_equal. rewrite take_take. f_equal. case_all; lia.
  - rewrite length_take. case_all; lia.
  - eexists. split; [reflexivity|]. done.
Qed.

(** ** Witnesses

    Process 7 is the agent [a] of namespace 1 and has three messages waiting;
    process 10 holds token 1, which it may delegate. *)

Definition reg_name : list Z := [97; 0].
Definition reg_alive (pid : Z) : bool := pid =? 7.
Definition reg_tokens : token_st := Eval vm_compute in
  (cap_token_create 10 0x1FFF 0x100 10 None token_init).2.
Definition reg_tbl1 : agent_table := Eval vm_compute in
  (agent_register_ns reg_name 7 1 agent_init).2.
Definition reg_send (byte : Z) (tbl : agent_table) : agent_table :=
  (agent_send id reg_name 1 10 [byte] 1 0 tbl reg_tokens).1.2.
Definition reg_tbl4 : agent_table := Eval vm_compute in reg_send 3 (reg_send 2 (reg_send 1 reg_tbl1)).

Lemma reg_reachable1 : rtc (agent_step reg_alive) agent_init reg_tbl1.
Proof. apply rtc_once. apply (step_register reg_alive reg_name 7 1 agent_init). vm_compute. lia. Qed.

Lemma reg_send_step b tbl : agent_step reg_alive tbl (reg_send b tbl).
Proof. apply step_send; vm_compute; [congruence|lia]. Qed.

Lemma reg_reachable4 : rtc (agent_step reg_alive) agent_init reg_tbl4.
Proof.
  change reg_tbl4 with (reg_send 3 (reg_send 2 (reg_send 1 reg_tbl1))).
  do 3 (eapply rtc_r; [|apply reg_send_step]). apply reg_reachable1.
Qed.

Lemma reg_tbl4_wf : agents_wf reg_tbl4.
Proof. eapply agent_run_wf, reg_reachable4. Qed.

(** Two senders with a token each pass the room check while one slot is left
    (the first critical section of [agent_send]); then both enqueue. *)
Definition send_race (tbl : agent_table) : option (Z * Z * agent_table) :=
  match agent_send_find reg_name 1 tbl, agent_send_find reg_name 1 tbl with
  | inr i, inr j =>
      let '(r1, tbl1) := agent_send_enqueue i true 10 0 1 [4] tbl in
      let '(r2, tbl2) := agent_send_enqueue j true 11 0 1 [5] tbl1 in
      Some (r1, r2, tbl2)
  | _, _ => None
  end.

(** The lock that [agent_send] releases around the delegation of a token
    leaves a window: room in the mailbox is not checked again, so two
    senders that both saw the last free slot both succeed, the mailbox counts
    five messages in four slots, and the oldest unread message is
    overwritten by the newest. *)
Theorem agent_send_overflow :
  ∃ tbl tbl' e e', rtc (agent_step reg_alive) agent_init tbl ∧
    tbl !! O = Some e ∧ mbox_queue e = [(10, 0, [1]); (10, 0, [2]); (10, 0, [3])] ∧
    send_race tbl = Some (0, 0, tbl') ∧ tbl' !! O = Some e' ∧
    r_count (ag_mbox e') = 5%nat ∧ mbox_queue e' = [(11, 0, [5]); (10, 0, [2]); (10, 0, [3]); (10, 0, [4])].
Proof.
  eexists reg_tbl4, _, _, _. split; [apply reg_reachable4|].
  split; [vm_compute; reflexivity|]. split; [vm_compute; reflexivity|].
  split; [vm_compute; reflexivity|]. split; [vm_compute; reflexivity|]. by vm_compute.
Qed.

Lemma agent_reachable_wf_witness : agents_wf reg_tbl4.
Proof. apply (agent_reachable_wf reg_alive), reg_reachable4. Defined.

Lemma agent_register_lookup_witness :
  agent_lookup_ns reg_alive reg_name 1 reg_tbl1 = (0, Some 7, reg_tbl1).
Proof.
  apply (agent_register_lookup reg_alive reg_name 7 1 agent_init reg_tbl1);
    [apply agent_init_wf|vm_compute; lia|reflexivity|reflexivity].
Defined.

(** The recipient takes its oldest message while the token of the sender is delegated. *)
Lemma agent_send_refines_witness :
  ∃ e', (agent_send (λ tbl, (agent_recv 7 8 tbl).2) reg_name 1 10 [9] 1 1 reg_tbl4 reg_tokens).1.2 = <[O := e']> (agent_recv 7 8 reg_tbl4).2 ∧
    last (mbox_queue e') = Some (10, 2, [9]).
Proof.
  pose proof (agent_send_refines (λ tbl, (agent_recv 7 8 tbl).2) reg_name 1 10 [9] 1 1 reg_tbl4 reg_tokens
    reg_tbl4_wf (agent_recv_wf 7 8 reg_tbl4 reg_tbl4_wf)) as H.
  destruct (agent_send _ _ _ _ _ _ _ _ _) as [[r t] ts].
  destruct H as (e & He & H); [lia|vm_compute; lia|].
  injection He as <-. destruct H as (e1 & He1 & H). vm_compute in He1. injection He1 as <-.
  destruct H as (_ & e' & Ht & _ & _ & _ & _ & H). rewrite decide_True in H by (vm_compute; lia).
  exists e'. split; [exact Ht|]. destruct H as [_ ->]. vm_compute. reflexivity.
Defined.

Lemma agent_recv_refines_witness :
  (agent_recv 7 8 reg_tbl4).1 = (1, Some (mk_recv 10 0 [1])).
Proof.
  pose proof (agent_recv_refines 7 8 reg_tbl4 reg_tbl4_wf) as H.
  destruct (agent_recv 7 8 reg_tbl4) as [[r o] t].
  destruct H as (e & He & H); [lia|]. injection He as <-. by destruct H as (-> & -> & _).
Defined.
