(* ===== verification/TaskGraph.v ===== *)
(** * TaskGraph: workflow tasks with dependencies

    Models [src/kernel/src/ipc/taskgraph.c] and [taskgraph.h]: a table of
    [MAX_TASKS] tasks, each with up to [MAX_TASK_DEPS] dependencies, a state
    (pending, running, done, failed) and a result.  A dependency on a task of
    another namespace needs [CAP_XNS_TASK] or a capability token ([CapToken]);
    the lock is released around that check, so [taskgraph_depend] is its two
    critical sections and their composition. *)

From stdpp Require Import gmap.
From S2P Require Import Prelude KUtil CapToken.

Abbreviation MAX_TASKS := 32%nat (only parsing).
Abbreviation MAX_TASK_DEPS := 4%nat (only parsing).
Abbreviation TASK_NAME_MAX := 32%nat (only parsing).
Abbreviation CAP_XNS_TASK := 0x200 (only parsing).

(** ** State *)

Inductive task_state := TASK_PENDING | TASK_RUNNING | TASK_DONE | TASK_FAILED.
#[export] Instance task_state_eq_dec : EqDecision task_state.
Proof. solve_decision. Defined.

Record workflow_task := mk_task {
  tk_id : Z;
  tk_owner_pid : Z;
  tk_worker_pid : Z;
  tk_name : list Z;
  tk_ns_id : Z;
  tk_deps : list Z;
  tk_dep_count : nat;
  tk_status : task_state;
  tk_result : Z;
  tk_used : bool
}.
#[export] Instance workflow_task_eta : Eta workflow_task := λ t,
  mk_task (tk_id t) (tk_owner_pid t) (tk_worker_pid t) (tk_name t) (tk_ns_id t) (tk_deps t)
    (tk_dep_count t) (tk_status t) (tk_result t) (tk_used t).
#[export] Instance workflow_task_inhabited : Inhabited workflow_task :=
  populate (mk_task 0 0 0 (replicate TASK_NAME_MAX 0) 0 (replicate MAX_TASK_DEPS 0) 0
    TASK_PENDING 0 false).

Record taskgraph_st := mk_tg { tasks : list workflow_task; next_task_id : Z }.
#[export] Instance taskgraph_st_eta : Eta taskgraph_st := λ s, mk_tg (tasks s) (next_task_id s).

Definition taskgraph_init : taskgraph_st := mk_tg (replicate MAX_TASKS inhabitant) 1.

(** ** Operations *)

Definition task_is (id : Z) (t : workflow_task) : bool := tk_used t && (tk_id t =? id).

(** The index of the task, [None] for the null pointer. *)
Definition find_task (id : Z) (st : taskgraph_st) : option nat :=
  find_idx (task_is id) (tasks st).

(** The store through the pointer that [find_task] returned. *)
Definition set_task (i : nat) (t : workflow_task) (st : taskgraph_st) : taskgraph_st :=
  st <| tasks := <[i := t]> (tasks st) |>.

(** The name loop of [taskgraph_create]; a null name gives the empty string. *)
Definition task_set_name (name : option (list Z)) (t : workflow_task) : workflow_task :=
  t <| tk_name := match name with
                  | Some s => str_copy (tk_name t) s TASK_NAME_MAX
                  | None => <[O := 0]> (tk_name t)
                  end |>.

Definition taskgraph_create (name : option (list Z)) (ns_id owner_pid : Z) (st : taskgraph_st)
    : Z * taskgraph_st :=
  match find_idx (λ t, negb (tk_used t)) (tasks st) with
  | None => (- ENOMEM, st)
  | Some i =>
      let id := next_task_id st in
      let t := (tasks st !!! i)
        <| tk_used := true |> <| tk_id := id |> <| tk_owner_pid := owner_pid |>
        <| tk_worker_pid := 0 |> <| tk_ns_id := ns_id |> <| tk_dep_count := O |>
        <| tk_status := TASK_PENDING |> <| tk_result := 0 |> in
      let t := task_set_name name t <| tk_deps := replicate MAX_TASK_DEPS 0 |> in
      (i32 id, set_task i t st <| next_task_id := u32 (id + 1) |>)
  end.

(** First critical section of [taskgraph_depend]: the indices of both tasks. *)
Definition depend_check (task_id dep_id caller_pid : Z) (st : taskgraph_st) : Z + (nat * nat) :=
  match find_task task_id st with
  | None => inl (- ENOENT)
  | Some i =>
      let t := tasks st !!! i in
      if negb (tk_owner_pid t =? caller_pid) then inl (- EPERM)
      else if negb (bool_decide (tk_status t = TASK_PENDING)) then inl (- EINVAL)
      else match find_task dep_id st with
           | None => inl (- ENOENT)
           | Some j => inr (i, j)
           end
  end.

(** The capability check outside the lock: true when access is granted. *)
Definition depend_xns (dep_ns caller_pid caller_caps : Z) (ts : token_st) : bool :=
  if Z.land caller_caps CAP_XNS_TASK =? 0
  then negb (cap_token_check caller_pid CAP_XNS_TASK (Some (ns_resource dep_ns)) ts =? 0)
  else true.

(** Re-validation after the lock was taken again. *)
Definition depend_recheck (task_id dep_id caller_pid : Z) (st : taskgraph_st) : Z + nat :=
  match find_task task_id st, find_task dep_id st with
  | Some i, Some _ =>
      let t := tasks st !!! i in
      if negb (tk_owner_pid t =? caller_pid) then inl (- EPERM)
      else if negb (bool_decide (tk_status t = TASK_PENDING)) then inl (- EINVAL)
      else inr i
  | _, _ => inl (- ENOENT)
  end.

(** The end of [taskgraph_depend], on the task at index [i]. *)
Definition depend_add (i : nat) (task_id dep_id : Z) (st : taskgraph_st) : Z * taskgraph_st :=
  let t := tasks st !!! i in
  if task_id =? dep_id then (- EINVAL, st)
  else if decide (MAX_TASK_DEPS ≤ tk_dep_count t)%nat then (- ENOMEM, st)
  else if decide (dep_id ∈ take (tk_dep_count t) (tk_deps t)) then (0, st)
  else
    (0, set_task i (t <| tk_deps := <[tk_dep_count t := dep_id]> (tk_deps t) |>
                      <| tk_dep_count := (tk_dep_count t + 1)%nat |>) st).

(** [taskgraph_depend] run without interference. *)
Definition taskgraph_depend (task_id dep_id caller_pid caller_caps : Z) (ts : token_st)
    (st : taskgraph_st) : Z * taskgraph_st :=
  match depend_check task_id dep_id caller_pid st with
  | inl e => (e, st)
  | inr (i, j) =>
      let dep_ns := tk_ns_id (tasks st !!! j) in
      if negb (dep_ns =? tk_ns_id (tasks st !!! i)) then
        if negb (depend_xns dep_ns caller_pid caller_caps ts) then (- EPERM, st)
        else match depend_recheck task_id dep_id caller_pid st with
             | inl e => (e, st)
             | inr i => depend_add i task_id dep_id st
             end
      else depend_add i task_id dep_id st
  end.

(** The dependency loop of [taskgraph_start]: [dep && dep->status == TASK_DONE]
    for each of the ids. *)
Definition dep_done (st : taskgraph_st) (id : Z) : bool :=
  match find_task id st with
  | None => false
  | Some j => bool_decide (tk_status (tasks st !!! j) = TASK_DONE)
  end.

Definition taskgraph_start (task_id caller_pid : Z) (st : taskgraph_st) : Z * taskgraph_st :=
  match find_task task_id st with
  | None => (- ENOENT, st)
  | Some i =>
      let t := tasks st !!! i in
      if negb (bool_decide (tk_status t = TASK_PENDING)) then (- EINVAL, st)
      else if forallb (dep_done st) (take (tk_dep_count t) (tk_deps t)) then
        (0, set_task i (t <| tk_status := TASK_RUNNING |> <| tk_worker_pid := caller_pid |>) st)
      else (- EAGAIN, st)
  end.

Definition taskgraph_complete (task_id result caller_pid caller_ns_id : Z) (st : taskgraph_st)
    : Z * taskgraph_st :=
  match find_task task_id st with
  | None => (- ENOENT, st)
  | Some i =>
      let t := tasks st !!! i in
      if negb (tk_owner_pid t =? caller_pid) && negb (tk_worker_pid t =? caller_pid) &&
         negb (tk_ns_id t =? caller_ns_id) then (- EPERM, st)
      else
        (0, set_task i (t <| tk_status := if 0 <=? result then TASK_DONE else TASK_FAILED |>
                          <| tk_result := result |>) st)
  end.

Record task_status := mk_task_status {
  ts_id : Z; ts_status : task_state; ts_dep_count : nat; ts_result : Z;
  ts_deps : list Z; ts_name : list Z
}.

Definition taskgraph_status (task_id : Z) (st : taskgraph_st) : Z * option task_status :=
  match find_task task_id st with
  | None => (- ENOENT, None)
  | Some i =>
      let t := tasks st !!! i in
      (0, Some (mk_task_status (tk_id t) (tk_status t) (tk_dep_count t) (tk_result t)
                  (tk_deps t) (tk_name t)))
  end.

Definition taskgraph_is_done (task_id : Z) (st : taskgraph_st) : bool :=
  match find_task task_id st with
  | None => true
  | Some i =>
      let s := tk_status (tasks st !!! i) in
      bool_decide (s = TASK_DONE) || bool_decide (s = TASK_FAILED)
  end.

Definition taskgraph_cleanup_pid (pid : Z) (st : taskgraph_st) : taskgraph_st :=
  st <| tasks := (λ t, if tk_used t && (tk_owner_pid t =? pid) then t <| tk_used := false |> else t)
                   <$> tasks st |>.

(** ** Invariant *)

(** The dependencies of a task: the first [dep_count] entries of [deps]. *)
Definition active_deps (t : workflow_task) : list Z := take (tk_dep_count t) (tk_deps t).

Definition task_wf (next : Z) (t : workflow_task) : Prop :=
  length (tk_name t) = TASK_NAME_MAX ∧ length (tk_deps t) = MAX_TASK_DEPS ∧
  (tk_dep_count t ≤ MAX_TASK_DEPS)%nat ∧
  (tk_used t = true → 0 < tk_id t < next ∧ NoDup (active_deps t) ∧
     (tk_id t ∉ active_deps t) ∧ Forall (λ d, 0 < d < next) (active_deps t)).

(** The used task with an identifier. *)
Definition has_task (st : taskgraph_st) (id : Z) (i : nat) (t : workflow_task) : Prop :=
  tasks st !! i = Some t ∧ tk_used t = true ∧ tk_id t = id.

Definition tg_wf (st : taskgraph_st) : Prop :=
  length (tasks st) = MAX_TASKS ∧ 1 ≤ next_task_id st ∧
  Forall (task_wf (next_task_id st)) (tasks st) ∧
  ∀ id i j t u, has_task st id i t → has_task st id j u → i = j.

(** The calls of the component, to the end and without interference. *)
Inductive tg_call :=
  | TgCreate (name : option (list Z)) (ns owner : Z)
  | TgDepend (task dep pid caps : Z) (ts : token_st)
  | TgStart (task pid : Z)
  | TgComplete (task result pid ns : Z)
  | TgCleanup (pid : Z).

Definition tg_exec (c : tg_call) (st : taskgraph_st) : taskgraph_st :=
  match c with
  | TgCreate name ns owner => (taskgraph_create name ns owner st).2
  | TgDepend task dep pid caps ts => (taskgraph_depend task dep pid caps ts st).2
  | TgStart task pid => (taskgraph_start task pid st).2
  | TgComplete task result pid ns => (taskgraph_complete task result pid ns st).2
  | TgCleanup pid => taskgraph_cleanup_pid pid st
  end.

(** One call, as long as the 32-bit identifier counter has not wrapped. *)
Definition tg_step (P : taskgraph_st → tg_call → Prop) (st st' : taskgraph_st) : Prop :=
  ∃ c, P st c ∧ next_task_id st < 2 ^ 32 - 1 ∧ st' = tg_exec c st.
Definition any_call (st : taskgraph_st) (c : tg_call) : Prop := True.

(** ** Lemmas *)

Lemma find_task_has st id i :
  tg_wf st → find_task id st = Some i ↔ ∃ t, has_task st id i t.
Proof.
  intros (_ & _ & _ & Hu). unfold find_task, task_is. split.
  - intros (t & Hi & Ht)%find_idx_lookup. bool_hyps. by exists t.
  - intros (t & Ht). pose proof Ht as (Hi & Hus & Hid).
    apply (find_idx_unique _ _ _ t); [done| |].
    + rewrite Hus, Hid. cbn. apply Z.eqb_refl.
    + intros j u Hj Hm. bool_hyps. by apply (Hu id j i u t).
Qed.

Lemma find_task_spec st id :
  tg_wf st →
  match find_task id st with
  | Some i => ∃ t, has_task st id i t ∧ tasks st !!! i = t ∧ task_wf (next_task_id st) t
  | None => ∀ i t, ¬ has_task st id i t
  end.
Proof.
  intros Hwf. destruct (find_task id st) as [i|] eqn:E.
  - apply find_task_has in E as (t & Ht); [|done]. exists t. split_and!; [done| |].
    + by apply list_lookup_total_correct, Ht.
    + destruct Hwf as (_ & _ & Hf & _). eapply Forall_lookup_1; [done|apply Ht].
  - intros i t Ht. assert (find_task id st = Some i) as E2 by (apply find_task_has; eauto). congruence.
Qed.

Lemma dep_done_true st id :
  tg_wf st → dep_done st id = true ↔ ∃ j u, has_task st id j u ∧ tk_status u = TASK_DONE.
Proof.
  intros Hwf. unfold dep_done. pose proof (find_task_spec st id Hwf) as H.
  destruct (find_task id st) as [i|].
  - destruct H as (t & Ht & -> & _). rewrite bool_decide_eq_true. split; [by eauto|].
    intros (j & u & Hu & Hs). destruct Hwf as (_ & _ & _ & Hun).
    assert (j = i) as -> by eauto. destruct Hu as (Hu & _), Ht as (Ht & _). congruence.
  - split; [done|]. intros (j & u & Hu & _). by destruct (H j u).
Qed.

(** Storing a task back under its own identity keeps the invariant. *)
Lemma set_task_wf st i t t' :
  tg_wf st → tasks st !! i = Some t → tk_used t = true → tk_used t' = true →
  tk_id t' = tk_id t → task_wf (next_task_id st) t' → tg_wf (set_task i t' st).
Proof.
  intros (Hl & Hn & Hf & Hu) Hi Hut Hut' Hid Hw. split_and!; cbn [set_task field_upd tasks next_task_id].
  - by rewrite length_insert.
  - done.
  - by apply Forall_insert.
  - intros id j k a b (Ha & Hua & Hia) (Hb & Hub & Hib). cbn in Ha, Hb.
    apply list_lookup_insert_cases in Ha as [(-> & -> & _)|(? & Ha)];
      apply list_lookup_insert_cases in Hb as [(-> & -> & _)|(? & Hb)]; [done|..].
    + apply (Hu id i k t b); split_and!; congruence.
    + apply (Hu id j i a t); split_and!; congruence.
    + by apply (Hu id j k a b).
Qed.

Lemma set_task_has st i t' id j u :
  has_task (set_task i t' st) id j u →
  (j = i ∧ u = t' ∧ tk_id t' = id ∧ (i < length (tasks st))%nat) ∨ (j ≠ i ∧ has_task st id j u).
Proof.
  intros (Hj & Hu & Hid). cbn in Hj.
  apply list_lookup_insert_cases in Hj as [(-> & -> & ?)|(? & ?)]; [left|right]; done.
Qed.

Lemma task_wf_mono n m t : n ≤ m → task_wf n t → task_wf m t.
Proof.
  intros Hnm (H1 & H2 & H3 & H4). split_and!; [done..|]. intros Hu.
  destruct (H4 Hu) as (? & ? & ? & Hf). split_and!; [lia|lia|done|done|].
  eapply Forall_impl; [exact Hf|]. cbn. lia.
Qed.

(** The two outcomes of [taskgraph_create]. *)
Lemma taskgraph_create_cases name ns owner st :
  tg_wf st →
  let '(r, st') := taskgraph_create name ns owner st in
  (r = - ENOMEM ∧ st' = st ∧ Forall (λ t, tk_used t = true) (tasks st)) ∨
  (∃ i t t', tasks st !! i = Some t ∧ tk_used t = false ∧ r = i32 (next_task_id st) ∧
     st' = set_task i t' st <| next_task_id := u32 (next_task_id st + 1) |> ∧
     length (tk_name t') = TASK_NAME_MAX ∧ tk_used t' = true ∧ tk_id t' = next_task_id st ∧
     tk_owner_pid t' = owner ∧ tk_ns_id t' = ns ∧ tk_status t' = TASK_PENDING ∧
     tk_deps t' = replicate MAX_TASK_DEPS 0 ∧ tk_dep_count t' = O).
Proof.
  intros (Hl & Hn & Hf & _). unfold taskgraph_create.
  destruct (find_idx _ (tasks st)) as [i|] eqn:E.
  - right. apply find_idx_lookup in E as (t & Hi & Ht). bool_hyps.
    rewrite (list_lookup_total_correct _ _ _ Hi).
    eexists i, t, _. split; [done|]. split; [done|]. split; [done|]. split; [reflexivity|].
    cbn. destruct (Forall_lookup_1 _ _ _ _ Hf Hi) as (Hln & _).
    split; [|done]. destruct name; [by rewrite length_str_copy|by rewrite length_insert].
  - left. split_and!; [done..|]. apply Forall_lookup. intros i t Hi.
    eapply find_idx_None in E; [|done]. by bool_hyps.
Qed.

Lemma taskgraph_create_wf name ns owner st :
  tg_wf st → next_task_id st < 2 ^ 32 - 1 → tg_wf (taskgraph_create name ns owner st).2.
Proof.
  intros Hwf Hlt. pose proof (taskgraph_create_cases name ns owner st Hwf) as H.
  destruct (taskgraph_create name ns owner st) as [r st']. cbn.
  destruct H as [(_ & -> & _)|(i & t & t' & Hi & Hut & _ & -> & Hln & Hu & Hid & _ & _ & _ & Hd & Hc)]; [done|].
  destruct Hwf as (Hl & Hn & Hf & Hun). rewrite u32_id by lia.
  split_and!; cbn [set_task field_upd tasks next_task_id].
  - by rewrite length_insert.
  - lia.
  - apply Forall_insert.
    + eapply Forall_impl; [done|]. intros x. apply task_wf_mono. lia.
    + split_and!; [done|by rewrite Hd|lia|]. intros _. unfold active_deps. rewrite Hc, Hid. cbn.
      split_and!; [lia|lia|constructor|apply not_elem_of_nil|constructor].
  - assert (∀ k b, tasks st !! k = Some b → tk_used b = true → tk_id b < next_task_id st) as Hlt'.
    { intros k b Hb Hub. destruct (Forall_lookup_1 _ _ _ _ Hf Hb) as (_ & _ & _ & H). naive_solver lia. }
    intros id j k a b (Ha & Hua & Hia) (Hb & Hub & Hib). cbn in Ha, Hb.
    apply list_lookup_insert_cases in Ha as [(-> & -> & _)|(? & Ha)];
      apply list_lookup_insert_cases in Hb as [(-> & -> & _)|(? & Hb)]; [done|..].
    + specialize (Hlt' k b Hb Hub). lia.
    + specialize (Hlt' j a Ha Hua). lia.
    + by apply (Hun id j k a b).
Qed.

(** When [depend_add] changes the state, it appends a new dependency. *)
Lemma depend_add_cases i task_id dep_id st t :
  tg_wf st → has_task st task_id i t →
  let '(r, st') := depend_add i task_id dep_id st in
  (st' = st ∧ (r = - EINVAL ∧ task_id = dep_id ∨ r = - ENOMEM ∧ tk_dep_count t = MAX_TASK_DEPS ∨
               r = 0 ∧ dep_id ∈ active_deps t)) ∨
  (r = 0 ∧ task_id ≠ dep_id ∧ (dep_id ∉ active_deps t) ∧ ∃ t', st' = set_task i t' st ∧
     active_deps t' = active_deps t ++ [dep_id] ∧ tk_dep_count t' = S (tk_dep_count t) ∧
     (tk_dep_count t' ≤ MAX_TASK_DEPS)%nat ∧ length (tk_deps t') = length (tk_deps t) ∧
     t' = t <| tk_deps := tk_deps t' |> <| tk_dep_count := tk_dep_count t' |>).
Proof.
  intros (_ & _ & Hf & _) (Hi & Hu & Hid). unfold depend_add.
  rewrite (list_lookup_total_correct _ _ _ Hi).
  destruct (Forall_lookup_1 _ _ _ _ Hf Hi) as (_ & Hld & Hc & _).
  destruct (task_id =? dep_id) eqn:E; bool_hyps; [left; naive_solver|].
  case_decide; [left; split; [done|]; right; left; split; [done|lia]|].
  case_decide; [left; naive_solver|]. right. split_and!; [done..|].
  eexists. split; [reflexivity|]. unfold active_deps. cbn.
  split_and!; [|lia|lia|by rewrite length_insert|by destruct t].
  rewrite Nat.add_1_r. rewrite (take_S_r _ _ dep_id) by (apply list_lookup_insert_eq; lia).
  by rewrite take_insert_ge by lia.
Qed.

Lemma depend_add_wf i task_id dep_id st t j u :
  tg_wf st → has_task st task_id i t → has_task st dep_id j u →
  tg_wf (depend_add i task_id dep_id st).2.
Proof.
  intros Hwf Ht Hd. pose proof (depend_add_cases i task_id dep_id st t Hwf Ht) as H.
  destruct (depend_add i task_id dep_id st) as [r st']. cbn.
  destruct H as [(-> & _)|(_ & Hne & Hnin & t' & -> & Hact & Hc & Hle & Hld & Heq)]; [done|].
  pose proof Hwf as (_ & _ & Hf & _).
  destruct Ht as (Hi & Hu & Hid), Hd as (Hj & Huj & Hidj).
  destruct (Forall_lookup_1 _ _ _ _ Hf Hi) as (Hw1 & Hw2 & Hw3 & Hw4).
  destruct (Forall_lookup_1 _ _ _ _ Hf Hj) as (_ & _ & _ & Hw5).
  destruct (Hw4 Hu) as (Hr & Hnd & Hself & Hfa), (Hw5 Huj) as (Hrj & _).
  assert (tk_id t' = tk_id t ∧ tk_used t' = tk_used t ∧ tk_name t' = tk_name t) as (Hid' & Hu' & Hn')
    by by rewrite Heq.
  apply (set_task_wf st i t); [done..|congruence|done|].
  split_and!; [congruence|congruence|done|]. intros _. rewrite Hact, Hid'. split_and!; [lia|lia| | |].
  - apply NoDup_app. split_and!; [done| |apply NoDup_singleton].
    intros x Hx ->%list_elem_of_singleton. done.
  - rewrite elem_of_app, list_elem_of_singleton. intros [?|?]; [done|congruence].
  - apply Forall_app. split; [done|]. constructor; [lia|constructor].
Qed.

(** The outcomes of [taskgraph_depend]: refused, or an addition that passed the
    namespace check. *)
Lemma taskgraph_depend_cases task_id dep_id pid caps ts st :
  tg_wf st →
  (∃ e, taskgraph_depend task_id dep_id pid caps ts st = (e, st) ∧ e < 0) ∨
  (∃ i t j u, has_task st task_id i t ∧ has_task st dep_id j u ∧ tk_owner_pid t = pid ∧
     tk_status t = TASK_PENDING ∧
     (tk_ns_id t = tk_ns_id u ∨ depend_xns (tk_ns_id u) pid caps ts = true) ∧
     taskgraph_depend task_id dep_id pid caps ts st = depend_add i task_id dep_id st).
Proof.
  intros Hwf. unfold taskgraph_depend, depend_check, depend_recheck.
  pose proof (find_task_spec st task_id Hwf) as Ht. pose proof (find_task_spec st dep_id Hwf) as Hd.
  destruct (find_task task_id st) as [i|]; [|left; by eexists].
  destruct Ht as (t & Ht & -> & _).
  destruct (tk_owner_pid t =? pid) eqn:Eo; cbn [negb]; [|left; by eexists].
  case_bool_decide as Es; cbn [negb]; [|left; by eexists].
  destruct (find_task dep_id st) as [j|]; [|left; by eexists].
  destruct Hd as (u & Hu & Huj & _). pose proof (list_lookup_total_correct _ _ _ (proj1 Ht)) as Hti.
  rewrite Huj, Hti. bool_hyps.
  destruct (tk_ns_id u =? tk_ns_id t) eqn:En; cbn [negb]; bool_hyps.
  - right. exists i, t, j, u. split_and!; (done || apply Ht || apply Hu || by left).
  - destruct (depend_xns _ _ _ _) eqn:Ex; cbn [negb]; [|left; by eexists].
    right. exists i, t, j, u. split_and!; (done || apply Ht || apply Hu || by right).
Qed.

Lemma tg_exec_wf c st : tg_wf st → next_task_id st < 2 ^ 32 - 1 → tg_wf (tg_exec c st).
Proof.
  intros Hwf Hlt. destruct c as [name ns owner|task dep pid caps ts|task pid|task result pid ns|pid];
    cbn [tg_exec].
  - by apply taskgraph_create_wf.
  - destruct (taskgraph_depend_cases task dep pid caps ts st Hwf)
      as [(e & -> & _)|(i & t & j & u & Ht & Hu & _ & _ & _ & ->)]; [done|].
    by eapply depend_add_wf.
  - unfold taskgraph_start. pose proof (find_task_spec st task Hwf) as Ht.
    destruct (find_task task st) as [i|]; [|done]. destruct Ht as (t & Ht & -> & Hw).
    case_bool_decide; cbn [negb]; [|done]. destruct (forallb _ _); [|done]. cbn.
    apply (set_task_wf st i t); [done|apply Ht|apply Ht|apply Ht|done|exact Hw].
  - unfold taskgraph_complete. pose proof (find_task_spec st task Hwf) as Ht.
    destruct (find_task task st) as [i|]; [|done]. destruct Ht as (t & Ht & -> & Hw).
    destruct (_ && _); [done|]. cbn.
    apply (set_task_wf st i t); [done|apply Ht|apply Ht|apply Ht|done|exact Hw].
  - destruct Hwf as (Hl & Hn & Hf & Hu). split_and!; cbn.
    + by rewrite length_fmap.
    + done.
    + apply Forall_fmap. eapply Forall_impl; [done|]. intros t Ht. cbn.
      destruct (_ && _); [|done]. destruct Ht as (? & ? & ? & _). by split_and!.
    + intros id i j a b (Ha & Hua & Hia) (Hb & Hub & Hib). cbn in Ha, Hb.
      rewrite list_lookup_fmap in Ha, Hb. apply fmap_Some in Ha as (a0 & Ha & ->), Hb as (b0 & Hb & ->).
      revert Hua Hub Hia Hib. destruct (_ && _); [done|]. destruct (_ && _); [done|].
      intros. by apply (Hu id i j a0 b0).
Qed.

Lemma tg_init_wf : tg_wf taskgraph_init.
Proof.
  split_and!; [done|done| |].
  - repeat constructor; cbn; (lia || done).
  - intros id i j t u (Hi & Hu & _). apply lookup_replicate in Hi as [-> _]. discriminate Hu.
Qed.

Lemma tg_run_wf P st : rtc (tg_step P) taskgraph_init st → tg_wf st.
Proof.
  intros Hr. apply (rtc_invariant (tg_step P) tg_wf taskgraph_init); [|done|apply tg_init_wf].
  intros a b Ha (c & _ & Hlt & ->). by apply tg_exec_wf.
Qed.

(** What a call does to the status of a task that is there before and after. *)
Lemma tg_exec_transition c st id i t j t' :
  tg_wf st → next_task_id st < 2 ^ 32 - 1 → has_task st id i t → has_task (tg_exec c st) id j t' →
  tk_status t' = tk_status t ∨
  ((∃ pid, c = TgStart id pid) ∧ tk_status t = TASK_PENDING ∧ tk_status t' = TASK_RUNNING ∧
     Forall (λ d, ∃ k u, has_task st d k u ∧ tk_status u = TASK_DONE) (active_deps t)) ∨
  (∃ result pid ns, c = TgComplete id result pid ns ∧
     tk_status t' = (if 0 <=? result then TASK_DONE else TASK_FAILED) ∧
     (tk_owner_pid t = pid ∨ tk_worker_pid t = pid ∨ tk_ns_id t = ns)).
Proof.
  intros Hwf Hlt Ht Ht'.
  assert (has_task st id j t' → tk_status t' = tk_status t) as Hsame.
  { intros H. destruct Hwf as (_ & _ & _ & Hu). assert (i = j) as -> by eauto.
    destruct Ht as (? & _), H as (? & _). congruence. }
  assert (∀ k u, has_task st id k u → k = i ∧ u = t) as Huniq.
  { intros k u H. destruct Hwf as (_ & _ & _ & Hu). assert (k = i) as -> by eauto.
    destruct Ht as (? & _), H as (? & _). split; congruence. }
  destruct c as [name ns owner|task dep pid caps ts|task pid|task result pid ns|pid];
    cbn [tg_exec] in Ht'.
  - left. pose proof (taskgraph_create_cases name ns owner st Hwf) as H.
    destruct (taskgraph_create name ns owner st) as [r st'].
    destruct H as [(_ & -> & _)|(k & u & u' & Hk & Huu & _ & -> & _ & _ & Hid & _)]; [auto|].
    apply set_task_has in Ht' as [(-> & -> & Hid' & _)|(_ & ?)]; [|auto].
    destruct Hwf as (_ & _ & Hf & _), Ht as (Hti & Hut & Htid).
    destruct (Forall_lookup_1 _ _ _ _ Hf Hti) as (_ & _ & _ & H). destruct (H Hut). lia.
  - left. destruct (taskgraph_depend_cases task dep pid caps ts st Hwf)
      as [(e & He & _)|(k & u & k' & u' & Hk & Hk' & _ & _ & _ & He)]; rewrite He in Ht'; [auto|].
    pose proof (depend_add_cases k task dep st u Hwf Hk) as H.
    destruct (depend_add k task dep st) as [r st'].
    destruct H as [(-> & _)|(_ & _ & _ & v & -> & _ & _ & _ & _ & Heq)]; [auto|].
    apply set_task_has in Ht' as [(-> & -> & Hid & _)|(_ & ?)]; [|auto].
    assert (task = id) as -> by (destruct Hk as (_ & _ & <-); by rewrite <-Hid, Heq).
    destruct (Huniq _ _ Hk) as [-> ->]. by rewrite Heq.
  - unfold taskgraph_start in Ht'. pose proof (find_task_spec st task Hwf) as H.
    destruct (find_task task st) as [k|]; [|auto]. destruct H as (u & Hu & Hku & _). rewrite Hku in Ht'.
    case_bool_decide as Es; cbn [negb] in Ht'; [|auto].
    destruct (forallb _ _) eqn:Ef; cbn [snd] in Ht'; [|auto].
    apply set_task_has in Ht' as [(-> & -> & Hid & _)|(_ & ?)]; [|auto]. cbn in Hid.
    assert (task = id) as -> by (destruct Hu as (_ & _ & <-); done).
    destruct (Huniq _ _ Hu) as [-> ->]. right; left. split_and!; [by eauto|done|done|].
    apply Forall_forall. intros d Hd. rewrite List.forallb_forall in Ef.
    apply dep_done_true; [done|]. by apply Ef, list_elem_of_In.
  - unfold taskgraph_complete in Ht'. pose proof (find_task_spec st task Hwf) as H.
    destruct (find_task task st) as [k|]; [|auto]. destruct H as (u & Hu & Hku & _). rewrite Hku in Ht'.
    destruct (_ && _) eqn:Ea; cbn [snd] in Ht'; [auto|].
    apply set_task_has in Ht' as [(-> & -> & Hid & _)|(_ & ?)]; [|auto]. cbn in Hid.
    assert (task = id) as -> by (destruct Hu as (_ & _ & <-); done).
    destruct (Huniq _ _ Hu) as [-> ->]. right; right. exists result, pid, ns. split_and!; [done..|].
    rewrite !andb_false_iff, !negb_false_iff, !Z.eqb_eq in Ea. naive_solver.
  - left. apply Hsame. destruct Ht' as (H1 & H2 & H3). cbn in H1. rewrite list_lookup_fmap in H1.
    apply fmap_Some in H1 as (u & Hu & ->). revert H2 H3. destruct (_ && _); [done|]. intros; by split_and!.
Qed.

(** ** Dependency cycles *)

(** Every task of [S] is pending and depends on a task of [S]. *)
Definition stuck (S : gset Z) (st : taskgraph_st) : Prop :=
  ∀ id, id ∈ S → ∃ i t d, has_task st id i t ∧ tk_status t = TASK_PENDING ∧
    d ∈ active_deps t ∧ d ∈ S.

(** Calls that neither complete nor remove a task of [S]. *)
Definition spares (S : gset Z) (st : taskgraph_st) (c : tg_call) : Prop :=
  match c with
  | TgComplete id _ _ _ => id ∉ S
  | TgCleanup pid => ∀ id i t, id ∈ S → has_task st id i t → tk_owner_pid t ≠ pid
  | _ => True
  end.

Lemma set_task_other st i t' id j u :
  has_task st id j u → j ≠ i → has_task (set_task i t' st) id j u.
Proof. intros (H1 & H2 & H3) Hne. split_and!; [|done..]. cbn. by rewrite list_lookup_insert_ne. Qed.

Lemma set_task_same st i t t' id :
  has_task st id i t → tk_used t' = true → tk_id t' = id → has_task (set_task i t' st) id i t'.
Proof.
  intros (H1 & H2 & H3) Hu Hid. split_and!; [|done..]. cbn. apply list_lookup_insert_eq.
  by eapply lookup_lt_Some.
Qed.

(** A task of a stuck set cannot be started. *)
Lemma stuck_start S st id pid :
  tg_wf st → stuck S st → id ∈ S → taskgraph_start id pid st = (- EAGAIN, st).
Proof.
  intros Hwf Hs Hid. destruct (Hs id Hid) as (i & t & d & Ht & Hp & Hd & HdS).
  unfold taskgraph_start. assert (find_task id st = Some i) as -> by (apply find_task_has; eauto).
  rewrite (list_lookup_total_correct _ _ _ (proj1 Ht)), bool_decide_eq_true_2 by done. cbn [negb].
  destruct (forallb _ _) eqn:Ef; [|done]. exfalso. rewrite List.forallb_forall in Ef.
  specialize (Ef d ltac:(by apply list_elem_of_In)). apply dep_done_true in Ef as (k & u & Hu & Hdone); [|done].
  destruct (Hs d HdS) as (k' & u' & _ & Hu' & Hpend & _).
  destruct Hwf as (_ & _ & _ & Hun). assert (k' = k) as -> by eauto.
  destruct Hu as (? & _), Hu' as (? & _). congruence.
Qed.

(** Replacing the task of an identifier outside [S], or one of [S] by a pending
    task with at least its dependencies, keeps [S] stuck. *)
Lemma stuck_set_task S st i t t' id :
  tg_wf st → stuck S st → has_task st id i t → tk_used t' = true → tk_id t' = id →
  (id ∈ S → tk_status t' = tk_status t ∧ active_deps t ⊆ active_deps t') →
  stuck S (set_task i t' st).
Proof.
  intros Hwf Hs Ht Hu' Hid' Hsub x Hx. destruct (Hs x Hx) as (j & u & d & Hu & Hp & Hd & HdS).
  destruct (decide (j = i)) as [->|Hne].
  - destruct Hu as (Hu1 & Hu2 & Hu3), Ht as (Ht1 & Ht2 & Ht3). assert (u = t) as -> by congruence.
    assert (x = id) as -> by congruence. destruct (Hsub Hx) as [Hst Hin].
    exists i, t', d. split_and!; [by apply (set_task_same st i t)|congruence|by apply Hin|done].
  - exists j, u, d. split_and!; [by apply set_task_other|done..].
Qed.

Lemma stuck_exec S c st :
  tg_wf st → stuck S st → spares S st c → stuck S (tg_exec c st).
Proof.
  intros Hwf Hs Hsp. destruct c as [name ns owner|task dep pid caps ts|task pid|task result pid ns|pid];
    cbn [tg_exec spares] in *.
  - pose proof (taskgraph_create_cases name ns owner st Hwf) as H.
    destruct (taskgraph_create name ns owner st) as [r st'].
    destruct H as [(_ & -> & _)|(k & u & u' & Hk & Huu & _ & -> & _)]; [done|].
    intros x Hx. destruct (Hs x Hx) as (j & v & d & Hv & ?). exists j, v, d. split; [|done].
    apply (set_task_other st k u'); [done|]. intros ->. destruct Hv as (? & ? & _). congruence.
  - destruct (taskgraph_depend_cases task dep pid caps ts st Hwf)
      as [(e & -> & _)|(k & u & k' & u' & Hk & Hk' & _ & _ & _ & ->)]; [done|].
    pose proof (depend_add_cases k task dep st u Hwf Hk) as H.
    destruct (depend_add k task dep st) as [r st'].
    destruct H as [(-> & _)|(_ & _ & _ & v & -> & Ha & _ & _ & _ & Heq)]; [done|].
    apply (stuck_set_task S st k u v task); [done..| | |].
    + rewrite Heq. apply Hk.
    + rewrite Heq. apply Hk.
    + intros _. rewrite Ha. split; [by rewrite Heq|set_solver].
  - destruct (decide (task ∈ S)) as [Hin|Hout]; [by rewrite (stuck_start S) by done|].
    unfold taskgraph_start. pose proof (find_task_spec st task Hwf) as H.
    destruct (find_task task st) as [k|]; [|done]. destruct H as (u & Hu & -> & _).
    case_bool_decide; cbn [negb]; [|done]. destruct (forallb _ _); [|done].
    apply (stuck_set_task S st k u _ task); [done|done|done|apply Hu|apply Hu|done].
  - unfold taskgraph_complete. pose proof (find_task_spec st task Hwf) as H.
    destruct (find_task task st) as [k|]; [|done]. destruct H as (u & Hu & -> & _).
    destruct (_ && _); [done|].
    apply (stuck_set_task S st k u _ task); [done|done|done|apply Hu|apply Hu|done].
  - intros x Hx. destruct (Hs x Hx) as (j & v & d & Hv & ?). exists j, v, d. split; [|done].
    pose proof (Hsp x j v Hx Hv) as Hne. destruct Hv as (H1 & H2 & H3). split_and!; [|done..].
    cbn. rewrite list_lookup_fmap, H1. cbn. apply Z.eqb_neq in Hne. by rewrite H2, Hne.
Qed.

(** ** Main theorems *)

(** In every state reachable while the identifier counter has not
    wrapped, the used tasks have distinct identifiers, and each has at most
    four dependencies, all distinct, on identifiers already handed out, and
    none on itself. *)
Theorem taskgraph_reachable_wf st : rtc (tg_step any_call) taskgraph_init st → tg_wf st.
Proof. apply tg_run_wf. Qed.

(** C34.  Life cycle of a task: over any call, its status stays the same, or it
    goes from pending to running by a start in a state in which all its
    dependencies are done, or it becomes done or failed by a completion from
    its owner, its worker or a process of its namespace.  In particular no
    task becomes pending again.  This holds until 2^32 - 2 tasks have been
    created, when the counter of the identifiers is about to wrap. *)
Theorem task_lifecycle c st id i t j t' :
  rtc (tg_step any_call) taskgraph_init st → next_task_id st < 2 ^ 32 - 1 →
  has_task st id i t → has_task (tg_exec c st) id j t' →
  tk_status t' = tk_status t ∨
  ((∃ pid, c = TgStart id pid) ∧ tk_status t = TASK_PENDING ∧ tk_status t' = TASK_RUNNING ∧
     Forall (λ d, ∃ k u, has_task st d k u ∧ tk_status u = TASK_DONE) (active_deps t)) ∨
  (∃ result pid ns, c = TgComplete id result pid ns ∧
     tk_status t' = (if 0 <=? result then TASK_DONE else TASK_FAILED) ∧
     (tk_owner_pid t = pid ∨ tk_worker_pid t = pid ∨ tk_ns_id t = ns)).
Proof. intros Hr%tg_run_wf. by apply tg_exec_transition. Qed.

(** C35.  A dependency that was added crosses a namespace boundary only with
    the capability [CAP_XNS_TASK] or a token for the resource of the other
    task's namespace; the task was pending, belongs to the caller, and its
    dependencies grow by at most the new one. *)
Theorem taskgraph_depend_authorised task dep pid caps ts st st' :
  tg_wf st → taskgraph_depend task dep pid caps ts st = (0, st') →
  ∃ i t j u, has_task st task i t ∧ has_task st dep j u ∧ tk_owner_pid t = pid ∧
    tk_status t = TASK_PENDING ∧
    (tk_ns_id t = tk_ns_id u ∨ Z.land caps CAP_XNS_TASK ≠ 0 ∨
       cap_token_check pid CAP_XNS_TASK (Some (ns_resource (tk_ns_id u))) ts ≠ 0) ∧
    (st' = st ∧ dep ∈ active_deps t ∨
     ∃ t', st' = set_task i t' st ∧ active_deps t' = active_deps t ++ [dep]).
Proof.
  intros Hwf H. destruct (taskgraph_depend_cases task dep pid caps ts st Hwf)
    as [(e & He & ?)|(i & t & j & u & Ht & Hu & Ho & Hs & Hx & He)]; rewrite H in He; [simplify_eq; lia|].
  exists i, t, j, u. split; [done|]. split; [done|]. split; [done|]. split; [done|]. split.
  - destruct Hx as [?|Hx]; [by left|right]. unfold depend_xns in Hx.
    destruct (Z.land caps CAP_XNS_TASK =? 0) eqn:E; bool_hyps; auto.
  - pose proof (depend_add_cases i task dep st t Hwf Ht) as Hc. rewrite <-He in Hc.
    destruct Hc as [(-> & [[? _]|[[? _]|[_ ?]]])|(_ & _ & _ & t' & -> & ? & _)]; [done|done|by left|].
    right. by exists t'.
Qed.

(** Dependencies may form cycles, and a cycle is a deadlock: when every
    task of a set is pending and depends on a task of the set, then after any
    calls that do not complete or remove one of them, starting any of them
    still answers [-EAGAIN]. *)
Theorem task_cycle_deadlock S st st' id pid :
  tg_wf st → stuck S st → rtc (tg_step (spares S)) st st' → id ∈ S →
  taskgraph_start id pid st' = (- EAGAIN, st').
Proof.
  intros Hwf Hs Hr Hid.
  destruct (rtc_invariant (tg_step (spares S)) (λ s, tg_wf s ∧ stuck S s) st st')
    as [Hwf' Hs']; [|done|done|by apply (stuck_start S)].
  intros a b [Ha Has] (c & Hc & Hlt & ->). split; [by apply tg_exec_wf|by apply stuck_exec].
Qed.

(** ** Witnesses

    Process 5 creates tasks 1 and 2 in namespace 1 and makes each depend on the
    other; it also creates task 3, on which task 4 depends. *)

Definition tg_sample_calls : list tg_call :=
  [TgCreate (Some [97]) 1 5; TgCreate None 1 5; TgCreate None 1 5; TgCreate None 2 5;
   TgDepend 1 2 5 0 token_init; TgDepend 2 1 5 0 token_init; TgDepend 4 3 5 0x200 token_init;
   TgStart 3 6; TgComplete 3 0 6 2].

Definition tg_run (cs : list tg_call) : taskgraph_st :=
  fold_left (λ s c, tg_exec c s) cs taskgraph_init.

Lemma tg_run_rtc cs :
  forallb (λ k, next_task_id (tg_run (take k cs)) <? 2 ^ 32 - 1) (seq 0 (length cs)) = true →
  rtc (tg_step any_call) taskgraph_init (tg_run cs).
Proof.
  intros Hall. assert (∀ k, (k < length cs)%nat → next_task_id (tg_run (take k cs)) < 2 ^ 32 - 1) as H.
  { intros k Hk. rewrite List.forallb_forall in Hall. apply Z.ltb_lt, Hall, in_seq. lia. }
  clear Hall. induction cs as [|c cs IH] using rev_ind; [done|]. rewrite length_app in H. cbn in H.
  eapply rtc_r.
  - apply IH. intros k Hk. specialize (H k ltac:(lia)). by rewrite take_app_le in H by lia.
  - exists c. split; [done|]. specialize (H (length cs) ltac:(lia)). rewrite take_app_length in H.
    split; [done|]. unfold tg_run. by rewrite fold_left_app.
Qed.

Definition tg_sample : taskgraph_st := Eval vm_compute in tg_run tg_sample_calls.
Definition tg_task1 : workflow_task := Eval vm_compute in tasks tg_sample !!! 0%nat.
Definition tg_task2 : workflow_task := Eval vm_compute in tasks tg_sample !!! 1%nat.
Definition tg_task4 : workflow_task := Eval vm_compute in tasks tg_sample !!! 3%nat.
Definition tg_task4_run : workflow_task := Eval vm_compute in
  tasks (tg_exec (TgStart 4 8) tg_sample) !!! 3%nat.

Lemma tg_sample_reachable : rtc (tg_step any_call) taskgraph_init tg_sample.
Proof. apply (tg_run_rtc tg_sample_calls). vm_compute. reflexivity. Qed.

Lemma tg_sample_wf : tg_wf tg_sample.
Proof. eapply tg_run_wf, tg_sample_reachable. Qed.

Lemma taskgraph_reachable_wf_witness : tg_wf tg_sample.
Proof. apply taskgraph_reachable_wf, tg_sample_reachable. Defined.

(** Task 4 starts because task 3, its only dependency, is done. *)
Lemma task_lifecycle_witness :
  Forall (λ d, ∃ k u, has_task tg_sample d k u ∧ tk_status u = TASK_DONE) (active_deps tg_task4).
Proof.
  destruct (task_lifecycle (TgStart 4 8) tg_sample 4 3 tg_task4 3 tg_task4_run
    tg_sample_reachable) as [H|[(_ & _ & _ & H)|(? & ? & ? & H & _)]].
  - reflexivity.
  - split_and!; reflexivity.
  - split_and!; reflexivity.
  - discriminate H.
  - exact H.
  - discriminate H.
Defined.

Lemma taskgraph_depend_authorised_witness :
  ∃ i t, has_task tg_sample 1 i t ∧ tk_owner_pid t = 5 ∧ tk_status t = TASK_PENDING.
Proof.
  destruct (taskgraph_depend_authorised 1 3 5 0 token_init tg_sample
    (taskgraph_depend 1 3 5 0 token_init tg_sample).2 tg_sample_wf eq_refl)
    as (i & t & _ & _ & Ht & _ & Ho & Hs & _).
  by exists i, t.
Defined.

Lemma task_cycle_deadlock_witness :
  taskgraph_start 1 9 tg_sample = (- EAGAIN, tg_sample) ∧
  taskgraph_start 2 9 (tg_exec (TgStart 4 8) tg_sample) = (- EAGAIN, tg_exec (TgStart 4 8) tg_sample).
Proof.
  assert (stuck {[1; 2]} tg_sample) as Hs.
  { intros x [->%elem_of_singleton | ->%elem_of_singleton]%elem_of_union.
    - exists 0%nat, tg_task1, 2. split_and!; [split_and!; reflexivity|reflexivity|left|set_solver].
    - exists 1%nat, tg_task2, 1. split_and!; [split_and!; reflexivity|reflexivity|left|set_solver]. }
  split.
  - apply (task_cycle_deadlock {[1; 2]} tg_sample); [apply tg_sample_wf|done|done|set_solver].
  - apply (task_cycle_deadlock {[1; 2]} tg_sample); [apply tg_sample_wf|done| |set_solver].
    apply rtc_once. exists (TgStart 4 8). split_and!; [done|reflexivity|reflexivity].
Defined.
