(* ===== verification/PubSub.v ===== *)
(** * PubSub: topics with per-subscriber message queues

    Models [src/kernel/src/ipc/pubsub.c] and [pubsub.h]: [MAX_TOPICS] topics,
    each with [MAX_SUBSCRIBERS] subscriptions that hold a queue of
    [TOPIC_QUEUE_SLOTS] messages and drop the oldest message when full.
    Topics of another namespace need [CAP_XNS_PUBSUB] or a capability token
    ([CapToken]); the lock is released around that check, so subscribing and
    publishing are their critical sections and the composition. *)

From S2P Require Import Prelude KUtil Ring CapToken.

Abbreviation MAX_TOPICS := 16%nat (only parsing).
Abbreviation MAX_SUBSCRIBERS := 8%nat (only parsing).
Abbreviation TOPIC_NAME_MAX := 32%nat (only parsing).
Abbreviation TOPIC_MSG_MAX := 256 (only parsing).
Abbreviation TOPIC_QUEUE_SLOTS := 4%nat (only parsing).
Abbreviation CAP_XNS_PUBSUB := 0x400 (only parsing).

(** ** State *)

Record topic_msg := mk_tmsg {
  tm_publisher_pid : Z;
  tm_len : Z;
  tm_data : list Z
}.
#[export] Instance topic_msg_eta : Eta topic_msg := λ m,
  mk_tmsg (tm_publisher_pid m) (tm_len m) (tm_data m).
#[export] Instance topic_msg_inhabited : Inhabited topic_msg :=
  populate (mk_tmsg 0 0 (replicate (Z.to_nat TOPIC_MSG_MAX) 0)).

Record topic_sub := mk_sub {
  sub_pid : Z;
  sub_ns_id : Z;
  sub_q : ring topic_msg;       (* msgs, head, tail, count *)
  sub_used : bool
}.
#[export] Instance topic_sub_eta : Eta topic_sub := λ s,
  mk_sub (sub_pid s) (sub_ns_id s) (sub_q s) (sub_used s).
#[export] Instance topic_sub_inhabited : Inhabited topic_sub :=
  populate (mk_sub 0 0 (mk_ring (replicate TOPIC_QUEUE_SLOTS inhabitant) 0 0 0) false).

Record topic := mk_topic {
  tp_name : list Z;
  tp_owner_pid : Z;
  tp_ns_id : Z;
  tp_subs : list topic_sub;
  tp_used : bool
}.
#[export] Instance topic_eta : Eta topic := λ t,
  mk_topic (tp_name t) (tp_owner_pid t) (tp_ns_id t) (tp_subs t) (tp_used t).
#[export] Instance topic_inhabited : Inhabited topic :=
  populate (mk_topic (replicate TOPIC_NAME_MAX 0) 0 0 (replicate MAX_SUBSCRIBERS inhabitant) false).

Abbreviation topic_table := (list topic) (only parsing).

Definition pubsub_init : list topic := replicate MAX_TOPICS inhabitant.

(** ** Operations *)

(** [check_xns_access], true for 1. *)
Definition check_xns_access (topic_ns caller_ns caller_pid caller_caps : Z) (ts : token_st) : bool :=
  if caller_ns =? topic_ns then true
  else if topic_ns =? 0 then true
  else if negb (Z.land caller_caps CAP_XNS_PUBSUB =? 0) then true
  else negb (cap_token_check caller_pid CAP_XNS_PUBSUB (Some (ns_resource topic_ns)) ts =? 0).

(** The comparison loop of [pubsub_topic_create]: [n] positions are left. *)
Fixpoint topic_name_match (n j : nat) (a b : list Z) : bool :=
  match n with
  | O => true
  | S n' =>
      if negb (c_at a j =? c_at b j) then false
      else if c_at b j =? 0 then true
      else topic_name_match n' (S j) a b
  end.

Definition topic_dup (name : list Z) (ns_id : Z) (t : topic) : bool :=
  tp_used t && (tp_ns_id t =? ns_id) && topic_name_match TOPIC_NAME_MAX 0 (tp_name t) name.

Definition pubsub_topic_create (name : list Z) (ns_id owner_pid : Z) (tbl : topic_table)
    : Z * topic_table :=
  match find_idx (topic_dup name ns_id) tbl with
  | Some _ => (- EEXIST, tbl)
  | None =>
      match find_idx (λ t, negb (tp_used t)) tbl with
      | None => (- ENOMEM, tbl)
      | Some i =>
          let t := tbl !!! i in
          (Z.of_nat i,
           <[i := t <| tp_used := true |> <| tp_owner_pid := owner_pid |> <| tp_ns_id := ns_id |>
                    <| tp_name := str_copy (tp_name t) name TOPIC_NAME_MAX |>
                    <| tp_subs := (λ s, s <| sub_used := false |>
                                          <| sub_q := ring_reset (sub_q s) |>) <$> tp_subs t |>]> tbl)
      end
  end.

(** Whether the caller's request leaves the lock for the access check. *)
Definition xns_needed (topic_ns caller_ns : Z) : bool :=
  negb (caller_ns =? topic_ns) && negb (topic_ns =? 0).

(** The end of [pubsub_subscribe], under the lock. *)
Definition subscribe_add (tid : nat) (pid sub_ns : Z) (tbl : topic_table) : Z * topic_table :=
  let tp := tbl !!! tid in
  match find_idx (λ s, sub_used s && (sub_pid s =? pid)) (tp_subs tp) with
  | Some _ => (0, tbl)
  | None =>
      match find_idx (λ s, negb (sub_used s)) (tp_subs tp) with
      | None => (- ENOMEM, tbl)
      | Some i =>
          let s := tp_subs tp !!! i in
          (0, <[tid := tp <| tp_subs := <[i :=
                 s <| sub_used := true |> <| sub_pid := pid |> <| sub_ns_id := sub_ns |>
                   <| sub_q := ring_reset (sub_q s) |>]> (tp_subs tp) |>]> tbl)
      end
  end.

Definition pubsub_subscribe (topic_id pid sub_ns caller_caps : Z) (ts : token_st)
    (tbl : topic_table) : Z * topic_table :=
  if Z.of_nat MAX_TOPICS <=? topic_id then (- EINVAL, tbl)
  else
    let tid := Z.to_nat topic_id in
    if negb (tp_used (tbl !!! tid)) then (- ENOENT, tbl)
    else
      let topic_ns := tp_ns_id (tbl !!! tid) in
      if xns_needed topic_ns sub_ns then
        if negb (check_xns_access topic_ns sub_ns pid caller_caps ts) then (- EPERM, tbl)
        else if negb (tp_used (tbl !!! tid)) then (- ENOENT, tbl)
        else subscribe_add tid pid sub_ns tbl
      else subscribe_add tid pid sub_ns tbl.

Definition tmsg_fill (publisher_pid len : Z) (data : list Z) (m : topic_msg) : topic_msg :=
  m <| tm_publisher_pid := publisher_pid |> <| tm_len := len |>
    <| tm_data := mem_copy (tm_data m) data (Z.to_nat len) |>.

(** The body of the delivery loop for one subscription. *)
Definition deliver (publisher_pid len : Z) (data : list Z) (s : topic_sub) : topic_sub :=
  if negb (sub_used s) then s
  else
    let q := if decide (TOPIC_QUEUE_SLOTS ≤ r_count (sub_q s))%nat
             then ring_drop TOPIC_QUEUE_SLOTS (sub_q s) else sub_q s in
    s <| sub_q := ring_put TOPIC_QUEUE_SLOTS (tmsg_fill publisher_pid len data) q |>.

(** The delivery loop: the number of deliveries and the table. *)
Definition publish_all (tid : nat) (publisher_pid len : Z) (data : list Z) (tbl : topic_table)
    : Z * topic_table :=
  let tp := tbl !!! tid in
  (Z.of_nat (countb sub_used (tp_subs tp)),
   <[tid := tp <| tp_subs := deliver publisher_pid len data <$> tp_subs tp |>]> tbl).

Definition pubsub_publish (topic_id publisher_pid pub_ns caller_caps : Z) (data : list Z) (len : Z)
    (ts : token_st) (tbl : topic_table) : Z * topic_table :=
  if Z.of_nat MAX_TOPICS <=? topic_id then (- EINVAL, tbl)
  else if TOPIC_MSG_MAX <? len then (- EMSGSIZE, tbl)
  else
    let tid := Z.to_nat topic_id in
    if negb (tp_used (tbl !!! tid)) then (- ENOENT, tbl)
    else
      let topic_ns := tp_ns_id (tbl !!! tid) in
      if xns_needed topic_ns pub_ns then
        if negb (check_xns_access topic_ns pub_ns publisher_pid caller_caps ts) then (- EPERM, tbl)
        else if negb (tp_used (tbl !!! tid)) then (- ENOENT, tbl)
        else publish_all tid publisher_pid len data tbl
      else publish_all tid publisher_pid len data tbl.

(** The code, the publisher and bytes copied out, and the table. *)
Definition pubsub_recv (topic_id pid max_len : Z) (tbl : topic_table)
    : Z * option (Z * list Z) * topic_table :=
  if Z.of_nat MAX_TOPICS <=? topic_id then (- EINVAL, None, tbl)
  else
    let tid := Z.to_nat topic_id in
    let tp := tbl !!! tid in
    if negb (tp_used tp) then (- ENOENT, None, tbl)
    else
      match find_idx (λ s, sub_used s && (sub_pid s =? pid)) (tp_subs tp) with
      | None => (- ENOENT, None, tbl)
      | Some i =>
          let s := tp_subs tp !!! i in
          if decide (r_count (sub_q s) = O) then (- EAGAIN, None, tbl)
          else
            let m := r_buf (sub_q s) !!! r_head (sub_q s) in
            let copy_len := if max_len <? tm_len m then max_len else tm_len m in
            (copy_len, Some (tm_publisher_pid m, take (Z.to_nat copy_len) (tm_data m)),
             <[tid := tp <| tp_subs :=
                 <[i := s <| sub_q := ring_drop TOPIC_QUEUE_SLOTS (sub_q s) |>]> (tp_subs tp) |>]> tbl)
      end.

(** One iteration of [pubsub_cleanup_pid]. *)
Definition topic_cleanup (pid : Z) (t : topic) : topic :=
  if negb (tp_used t) then t
  else
    let t := t <| tp_subs := (λ s, if sub_used s && (sub_pid s =? pid)
                                   then s <| sub_used := false |> else s) <$> tp_subs t |> in
    if tp_owner_pid t =? pid then t <| tp_used := false |> else t.

Definition pubsub_cleanup_pid (pid : Z) (tbl : topic_table) : topic_table :=
  topic_cleanup pid <$> tbl.

(** ** Invariant and abstract queues *)

Definition tmsg_wf (m : topic_msg) : Prop :=
  length (tm_data m) = Z.to_nat TOPIC_MSG_MAX ∧ 0 ≤ tm_len m ≤ TOPIC_MSG_MAX.

Definition sub_wf (s : topic_sub) : Prop :=
  ring_wf TOPIC_QUEUE_SLOTS (sub_q s) ∧ Forall tmsg_wf (r_buf (sub_q s)).

(** A process has at most one subscription to a topic. *)
Definition subs_unique (subs : list topic_sub) : Prop :=
  ∀ i j s u, subs !! i = Some s → subs !! j = Some u → sub_used s = true → sub_used u = true →
    sub_pid s = sub_pid u → i = j.

Definition topic_wf (t : topic) : Prop :=
  length (tp_name t) = TOPIC_NAME_MAX ∧ length (tp_subs t) = MAX_SUBSCRIBERS ∧
  Forall sub_wf (tp_subs t) ∧ subs_unique (tp_subs t).

Definition topics_unique (tbl : topic_table) : Prop :=
  ∀ i j t u, tbl !! i = Some t → tbl !! j = Some u → tp_used t = true → tp_used u = true →
    tp_ns_id t = tp_ns_id u → c_str (tp_name t) = c_str (tp_name u) → i = j.

Definition pubsub_wf (tbl : topic_table) : Prop :=
  length tbl = MAX_TOPICS ∧ Forall topic_wf tbl ∧ topics_unique tbl.

Definition tmsg_view (m : topic_msg) : Z * list Z :=
  (tm_publisher_pid m, take (Z.to_nat (tm_len m)) (tm_data m)).

(** The messages waiting in a subscription, oldest first. *)
Definition sub_queue (s : topic_sub) : list (Z * list Z) := tmsg_view <$> ring_contents (sub_q s).

(** The last [n] elements. *)
Definition keep_last {A} (n : nat) (l : list A) : list A := drop (length l - n) l.

(** The calls of the component, with valid arguments. *)
Inductive pubsub_step : topic_table → topic_table → Prop :=
  | step_topic_create name ns owner tbl :
      (length (c_str name) < TOPIC_NAME_MAX)%nat →
      pubsub_step tbl (pubsub_topic_create name ns owner tbl).2
  | step_subscribe tid pid ns caps ts tbl :
      0 ≤ tid → pubsub_step tbl (pubsub_subscribe tid pid ns caps ts tbl).2
  | step_publish tid pid ns caps data len ts tbl :
      0 ≤ tid → 0 ≤ len → (Z.to_nat len ≤ length data)%nat →
      pubsub_step tbl (pubsub_publish tid pid ns caps data len ts tbl).2
  | step_topic_recv tid pid max_len tbl :
      0 ≤ tid → pubsub_step tbl (pubsub_recv tid pid max_len tbl).2
  | step_cleanup pid tbl : pubsub_step tbl (pubsub_cleanup_pid pid tbl).

(** ** Lemmas *)

Lemma keep_last_id {A} n (l : list A) : (length l ≤ n)%nat → keep_last n l = l.
Proof. intros ?. unfold keep_last. by replace (length l - n)%nat with O by lia. Qed.

Lemma keep_last_keep_last {A} n (l k : list A) :
  keep_last n (keep_last n l ++ k) = keep_last n (l ++ k).
Proof.
  unfold keep_last. rewrite !length_app, length_drop.
  destruct (decide (length l ≤ n)%nat).
  - replace (length l - n)%nat with O by lia. rewrite drop_0. f_equal. lia.
  - rewrite <-drop_app_le by lia. rewrite drop_drop. f_equal. lia.
Qed.

Lemma topic_name_match_spec n j a b :
  (length (c_str (drop j b)) < n)%nat →
  topic_name_match n j a b = true ↔ c_str (drop j a) = c_str (drop j b).
Proof.
  revert j. induction n as [|n IH]; intros j Hlen; [lia|]. cbn [topic_name_match].
  destruct (c_at a j =? c_at b j) eqn:E; cbn [negb]; bool_hyps.
  - destruct (c_at b j =? 0) eqn:E0; bool_hyps.
    + rewrite !c_str_drop_stop by congruence. done.
    + assert (∀ s, c_at s j ≠ 0 → c_str (drop j s) = c_at s j :: c_str (drop (S j) s)) as Hd.
      { intros s Hs. unfold c_at in Hs |- *. destruct (s !! j) as [c|] eqn:Ec; [|done].
        rewrite (drop_S s c j Ec). cbn in Hs |- *. apply Z.eqb_neq in Hs. by rewrite Hs. }
      pose proof (Hd b E0) as Hb. pose proof (Hd a ltac:(congruence)) as Ha. rewrite Hb in Hlen.
      cbn [length] in Hlen. rewrite Ha, Hb, E, IH by lia. split; [congruence|]. by intros [=].
  - split; [done|]. intros Heq. exfalso. apply E. rewrite <-(c_at_drop a), <-(c_at_drop b).
    revert Heq. generalize (drop j a) as x, (drop j b) as y. intros x y Hxy.
    assert (∀ s, c_at s 0 = default 0 (head (c_str s))) as Hh.
    { intros [|c s]; [done|]. cbn. by destruct (c =? 0) eqn:Ec; bool_hyps. }
    by rewrite !Hh, Hxy.
Qed.

Lemma topic_dup_true name ns t :
  (length (c_str name) < TOPIC_NAME_MAX)%nat →
  topic_dup name ns t = true ↔ tp_used t = true ∧ tp_ns_id t = ns ∧ c_str (tp_name t) = c_str name.
Proof.
  intros Hn. unfold topic_dup. rewrite !andb_true_iff, Z.eqb_eq, topic_name_match_spec by done.
  rewrite !drop_0. naive_solver.
Qed.

Lemma topic_lookup tbl i :
  pubsub_wf tbl → (i < length tbl)%nat → ∃ t, tbl !! i = Some t ∧ tbl !!! i = t ∧ topic_wf t.
Proof.
  intros (_ & Hf & _) [t Ht]%lookup_lt_is_Some_2. exists t.
  split_and!; [done|by apply list_lookup_total_correct|by eapply Forall_lookup_1].
Qed.

Lemma sub_lookup t i :
  topic_wf t → (i < length (tp_subs t))%nat →
  ∃ s, tp_subs t !! i = Some s ∧ tp_subs t !!! i = s ∧ sub_wf s.
Proof.
  intros (_ & _ & Hf & _) [s Hs]%lookup_lt_is_Some_2. exists s.
  split_and!; [done|by apply list_lookup_total_correct|by eapply Forall_lookup_1].
Qed.

Lemma sub_queue_length s : sub_wf s → length (sub_queue s) = r_count (sub_q s).
Proof. intros (H & _). unfold sub_queue. rewrite length_fmap. by eapply length_ring_contents. Qed.

Lemma sub_drop_spec s :
  let s' := s <| sub_q := ring_drop TOPIC_QUEUE_SLOTS (sub_q s) |> in
  sub_wf s → (0 < r_count (sub_q s))%nat →
  sub_wf s' ∧ ∃ m, r_buf (sub_q s) !!! r_head (sub_q s) = m ∧ tmsg_wf m ∧
    sub_queue s = tmsg_view m :: sub_queue s'.
Proof.
  intros s' (H1 & H2) Hc. subst s'.
  destruct (ring_drop_contents _ _ H1 Hc) as (m & Hm & Heq). split.
  - split; cbn; [by apply ring_drop_wf|done].
  - exists m. split_and!; [by apply list_lookup_total_correct|by apply (Forall_lookup_1 _ _ _ _ H2 Hm)|].
    unfold sub_queue. by rewrite Heq.
Qed.

Lemma sub_put_spec s pub len data :
  let s' := s <| sub_q := ring_put TOPIC_QUEUE_SLOTS (tmsg_fill pub len data) (sub_q s) |> in
  sub_wf s → 0 ≤ len ≤ TOPIC_MSG_MAX → (Z.to_nat len ≤ length data)%nat →
  (r_count (sub_q s) < TOPIC_QUEUE_SLOTS)%nat →
  sub_wf s' ∧ sub_queue s' = sub_queue s ++ [(pub, take (Z.to_nat len) data)].
Proof.
  intros s' (H1 & H2) Hl Hd Hc. subst s'.
  destruct (ring_put_contents _ (tmsg_fill pub len data) _ H1 Hc) as (m & Hm & Heq).
  destruct (Forall_lookup_1 _ _ _ _ H2 Hm) as [Hm1 Hm2]. split.
  - split; cbn; [by apply ring_put_wf|]. apply Forall_alter; [done|].
    intros x Hx [Hx1 Hx2]. split; cbn; [by rewrite length_mem_copy|done].
  - unfold sub_queue. cbn [field_upd sub_q]. rewrite Heq, fmap_app. cbn. unfold tmsg_view at 2. cbn.
    by rewrite take_mem_copy by lia.
Qed.

(** Delivery appends the message and keeps the four newest. *)
Lemma deliver_spec s pub len data :
  sub_wf s → 0 ≤ len ≤ TOPIC_MSG_MAX → (Z.to_nat len ≤ length data)%nat →
  let s' := deliver pub len data s in
  sub_wf s' ∧ sub_used s' = sub_used s ∧ sub_pid s' = sub_pid s ∧
  (sub_used s = true →
     sub_queue s' = keep_last TOPIC_QUEUE_SLOTS (sub_queue s ++ [(pub, take (Z.to_nat len) data)])) ∧
  (sub_used s = false → s' = s).
Proof.
  intros Hwf Hl Hd. unfold deliver. destruct (sub_used s) eqn:Eu; cbn [negb]; [|done].
  pose proof (sub_queue_length s Hwf) as Hq. pose proof Hwf as ((_ & _ & Hc4 & _) & _).
  unfold keep_last. case_decide as Hc.
  - destruct (sub_drop_spec s Hwf) as [Hwf1 (m & _ & _ & Hq1)]; [lia|].
    set (s1 := s <| sub_q := _ |>) in *.
    destruct (sub_put_spec s1 pub len data) as [Hw2 Hq2]; [done..|cbn; lia|].
    split_and!; [exact Hw2|done|done| |done]. intros _. etrans; [exact Hq2|].
    rewrite Hq1 in Hq |- *. cbn [length] in Hq. rewrite length_app. cbn [length app].
    replace (S (length (sub_queue s1)) + 1 - 4)%nat with 1%nat by lia. done.
  - destruct (sub_put_spec s pub len data) as [Hw2 Hq2]; [done..|lia|].
    split_and!; [exact Hw2|done|done| |done]. intros _. etrans; [exact Hq2|].
    rewrite length_app. cbn. replace (length (sub_queue s) + 1 - 4)%nat with O by lia. done.
Qed.

(** Storing a topic back under its own identity keeps the invariant. *)
Lemma pubsub_update_wf tbl i t t' :
  pubsub_wf tbl → tbl !! i = Some t → topic_wf t' →
  (tp_used t' = true → tp_used t = true) → tp_ns_id t' = tp_ns_id t → tp_name t' = tp_name t →
  pubsub_wf (<[i := t']> tbl).
Proof.
  intros (Hl & Hf & Hu) Hi Hw H1 H2 H3. split_and!.
  - by rewrite length_insert.
  - by apply Forall_insert.
  - intros j k a b [(-> & -> & _)|(? & Ha)]%list_lookup_insert_cases
      [(-> & -> & _)|(? & Hb)]%list_lookup_insert_cases Hua Hub Hns Hn; [done|..].
    + eapply (Hu i k t b); [done..|auto|done| |]; congruence.
    + eapply (Hu j i a t); [done..|auto| |]; congruence.
    + by eapply (Hu j k a b).
Qed.

Lemma pubsub_topic_create_wf name ns owner tbl :
  (length (c_str name) < TOPIC_NAME_MAX)%nat →
  pubsub_wf tbl → pubsub_wf (pubsub_topic_create name ns owner tbl).2.
Proof.
  intros Hn Hwf. unfold pubsub_topic_create.
  destruct (find_idx (topic_dup name ns) tbl) as [i|] eqn:E; cbn; [done|].
  destruct (find_idx (λ t, negb (tp_used t)) tbl) as [i|] eqn:E2; cbn; [|done].
  destruct (topic_lookup tbl i Hwf) as (t & Hi & -> & Ht); [by eapply find_idx_lt|].
  destruct Hwf as (Hl & Hf & Hu), Ht as (H1 & H2 & H3 & H4).
  assert (∀ j u, tbl !! j = Some u → tp_used u = true → tp_ns_id u = ns →
    c_str (tp_name u) ≠ c_str name) as Hno.
  { intros j u Hj Huu Hns Hnm. eapply find_idx_None in E; [|done].
    rewrite (proj2 (topic_dup_true name ns u Hn)) in E by done. done. }
  assert (c_str (str_copy (tp_name t) name TOPIC_NAME_MAX) = c_str name) as Hc.
  { rewrite c_str_str_copy by lia. rewrite take_ge; [done|lia]. }
  split_and!.
  - by rewrite length_insert.
  - apply Forall_insert; [done|]. split_and!; cbn.
    + by rewrite length_str_copy.
    + by rewrite length_fmap.
    + apply Forall_fmap. eapply Forall_impl; [done|]. intros s [Hs1 Hs2]. split; cbn; [|done].
      apply ring_reset_wf; [lia|apply Hs1].
    + intros a b s u Ha Hb Hus. rewrite list_lookup_fmap in Ha.
      apply fmap_Some in Ha as (s0 & _ & ->). discriminate Hus.
  - intros j k a b [(-> & -> & _)|(? & Ha)]%list_lookup_insert_cases
      [(-> & -> & _)|(? & Hb)]%list_lookup_insert_cases Hua Hub Hns Hnm; cbn in *; [done|..].
    + exfalso. eapply (Hno k b); [done..|congruence].
    + exfalso. eapply (Hno j a); [done..|congruence].
    + by eapply (Hu j k a b).
Qed.

Lemma subscribe_add_wf tid pid ns tbl :
  (tid < length tbl)%nat → pubsub_wf tbl → pubsub_wf (subscribe_add tid pid ns tbl).2.
Proof.
  intros Hlt Hwf. destruct (topic_lookup tbl tid Hwf Hlt) as (t & Hi & Hit & Ht).
  unfold subscribe_add. rewrite Hit.
  destruct (find_idx (λ s, sub_used s && (sub_pid s =? pid)) (tp_subs t)) as [i|] eqn:E; cbn; [done|].
  destruct (find_idx (λ s, negb (sub_used s)) (tp_subs t)) as [i|] eqn:E2; cbn; [|done].
  destruct (sub_lookup t i Ht) as (s & Hs & -> & [Hw1 Hw2]); [by eapply find_idx_lt|].
  pose proof Ht as (H1 & H2 & H3 & H4).
  apply (pubsub_update_wf tbl tid t); [done|done| |done|done|done]. split_and!; cbn.
  - done.
  - by rewrite length_insert.
  - apply Forall_insert; [done|]. split; cbn; [|done]. apply ring_reset_wf; [lia|apply Hw1].
  - assert (∀ j u, tp_subs t !! j = Some u → sub_used u = true → sub_pid u ≠ pid) as Hno.
    { intros j u Hj Hu Hp. eapply find_idx_None in E; [|done]. by rewrite Hu, Hp, Z.eqb_refl in E. }
    intros j k a b [(-> & -> & _)|(? & Ha)]%list_lookup_insert_cases
      [(-> & -> & _)|(? & Hb)]%list_lookup_insert_cases Hua Hub Hp; cbn in *; [done|..].
    + by destruct (Hno k b).
    + by destruct (Hno j a).
    + by eapply (H4 j k a b).
Qed.

(** Changing subscriptions without renaming or reviving one keeps the topic
    well-formed. *)
Lemma topic_subs_wf t subs' :
  topic_wf t → length subs' = length (tp_subs t) → Forall sub_wf subs' →
  (∀ i s', subs' !! i = Some s' → sub_used s' = true →
     ∃ s, tp_subs t !! i = Some s ∧ sub_used s = true ∧ sub_pid s = sub_pid s') →
  topic_wf (t <| tp_subs := subs' |>).
Proof.
  intros (H1 & H2 & H3 & H4) Hl Hf Hm. split_and!; cbn; [done|congruence|done|].
  intros i j a b Ha Hb Hua Hub Hp.
  destruct (Hm _ _ Ha Hua) as (a0 & ? & ? & ?), (Hm _ _ Hb Hub) as (b0 & ? & ? & ?).
  eapply (H4 i j a0 b0); congruence.
Qed.

Lemma publish_all_wf tid pub len data tbl :
  (tid < length tbl)%nat → 0 ≤ len ≤ TOPIC_MSG_MAX → (Z.to_nat len ≤ length data)%nat →
  pubsub_wf tbl → pubsub_wf (publish_all tid pub len data tbl).2.
Proof.
  intros Hlt Hlen Hd Hwf. destruct (topic_lookup tbl tid Hwf Hlt) as (t & Hi & Hit & Ht).
  unfold publish_all. rewrite Hit. cbn [snd].
  apply (pubsub_update_wf tbl tid t); [done|done| |done|done|done].
  pose proof Ht as (H1 & H2 & H3 & H4). apply topic_subs_wf; [done|by rewrite length_fmap| |].
  - apply Forall_fmap. eapply Forall_impl; [done|]. intros s Hs. by apply deliver_spec.
  - intros i s' Hs' Hu. rewrite list_lookup_fmap in Hs'. apply fmap_Some in Hs' as (s & Hs & ->).
    destruct (deliver_spec s pub len data) as (_ & Hu' & Hp & _); [by eapply Forall_lookup_1|done..|].
    exists s. by rewrite <-Hu', <-Hp.
Qed.

Lemma pubsub_step_wf tbl tbl' : pubsub_wf tbl → pubsub_step tbl tbl' → pubsub_wf tbl'.
Proof.
  intros Hwf Hs. pose proof Hwf as (Hl & _).
  destruct Hs as [name ns owner tbl Hn|tid pid ns caps ts tbl Ht|tid pid ns caps data len ts tbl Ht Hlen Hd|
                  tid pid max_len tbl Ht|pid tbl].
  - by apply pubsub_topic_create_wf.
  - unfold pubsub_subscribe. destruct (_ <=? tid) eqn:E; bool_hyps; [done|].
    assert (Z.to_nat tid < length tbl)%nat by lia.
    repeat (destruct (negb _); [done|]). destruct (xns_needed _ _); [|by apply subscribe_add_wf].
    repeat (destruct (negb _); [done|]). by apply subscribe_add_wf.
  - unfold pubsub_publish. destruct (_ <=? tid) eqn:E; bool_hyps; [done|].
    destruct (_ <? len) eqn:E2; bool_hyps; [done|].
    assert (Z.to_nat tid < length tbl)%nat by lia.
    repeat (destruct (negb _); [done|]). destruct (xns_needed _ _); [|by apply publish_all_wf].
    repeat (destruct (negb _); [done|]). by apply publish_all_wf.
  - unfold pubsub_recv. destruct (_ <=? tid) eqn:E; bool_hyps; [done|].
    destruct (topic_lookup tbl (Z.to_nat tid) Hwf) as (t & Hi & -> & Htw); [lia|].
    destruct (negb _); [done|]. destruct (find_idx _ (tp_subs t)) as [i|] eqn:Ef; [|done].
    destruct (sub_lookup t i Htw) as (s & Hs & -> & Hsw); [by eapply find_idx_lt|].
    case_decide; [done|]. cbn [snd].
    apply (pubsub_update_wf tbl (Z.to_nat tid) t); [done|done| |done|done|done].
    pose proof Htw as (_ & _ & H3 & _). apply topic_subs_wf; [done|by rewrite length_insert| |].
    + apply Forall_insert; [done|]. apply (sub_drop_spec s); [done|lia].
    + intros j s' [(-> & -> & _)|(? & ?)]%list_lookup_insert_cases ?; [by exists s|by exists s'].
  - destruct Hwf as (_ & Hf & Hu). split_and!.
    + by unfold pubsub_cleanup_pid; rewrite length_fmap.
    + apply Forall_fmap. eapply Forall_impl; [done|]. intros t Ht. cbn. unfold topic_cleanup.
      destruct (negb _); [done|].
      set (t1 := t <| tp_subs := _ |>). assert (topic_wf t1) as Hw.
      { pose proof Ht as (_ & _ & H3 & _). apply topic_subs_wf; [done|by rewrite length_fmap| |].
        - apply Forall_fmap. eapply Forall_impl; [done|]. intros s Hs. cbn. by destruct (_ && _).
        - intros i s' Hs' Hus. rewrite list_lookup_fmap in Hs'. apply fmap_Some in Hs' as (s & Hs & ->).
          exists s. revert Hus. by destruct (_ && _). }
      clearbody t1. by destruct (_ =? _).
    + intros i j a b Ha Hb Hua Hub Hns Hn. unfold pubsub_cleanup_pid in Ha, Hb.
      rewrite list_lookup_fmap in Ha, Hb. apply fmap_Some in Ha as (a0 & Ha & ->), Hb as (b0 & Hb & ->).
      assert (∀ t, tp_used (topic_cleanup pid t) = true → tp_used t = true) as Hmono.
      { intros t. unfold topic_cleanup. destruct (tp_used t) eqn:Eu; cbn [negb]; [done|congruence]. }
      assert (∀ t, tp_ns_id (topic_cleanup pid t) = tp_ns_id t ∧ tp_name (topic_cleanup pid t) = tp_name t) as Hid.
      { intros t. unfold topic_cleanup. destruct (tp_used t); cbn; [|done]. by destruct (tp_owner_pid t =? pid). }
      destruct (Hid a0) as [Hia Hna], (Hid b0) as [Hib Hnb]. rewrite Hia, Hib in Hns. rewrite Hna, Hnb in Hn.
      by apply (Hu i j a0 b0); auto.
Qed.

Lemma pubsub_init_wf : pubsub_wf pubsub_init.
Proof.
  split_and!; [done| |].
  - apply Forall_replicate. split_and!; [done|done| |].
    + apply Forall_replicate. split; [by vm_compute; split_and!; auto with lia|].
      apply Forall_replicate. split; [done|cbn; lia].
    + intros i j s u Hi _ Hu. apply lookup_replicate in Hi as [-> _]. discriminate Hu.
  - intros i j t u Hi _ Hu. apply lookup_replicate in Hi as [-> _]. discriminate Hu.
Qed.

Lemma pubsub_run_wf tbl : rtc pubsub_step pubsub_init tbl → pubsub_wf tbl.
Proof.
  intros Hr. apply (rtc_invariant pubsub_step pubsub_wf pubsub_init); [|done|apply pubsub_init_wf].
  intros a b. apply pubsub_step_wf.
Qed.

(** The namespace rule for topics, as a proposition. *)
Definition topic_access (topic_ns ns pid caps : Z) (ts : token_st) : Prop :=
  ns = topic_ns ∨ topic_ns = 0 ∨ Z.land caps CAP_XNS_PUBSUB ≠ 0 ∨
  cap_token_check pid CAP_XNS_PUBSUB (Some (ns_resource topic_ns)) ts ≠ 0.

Lemma check_xns_access_true topic_ns ns pid caps ts :
  check_xns_access topic_ns ns pid caps ts = true ↔ topic_access topic_ns ns pid caps ts.
Proof.
  unfold check_xns_access, topic_access. destruct (ns =? topic_ns) eqn:E1; bool_hyps; [naive_solver|].
  destruct (topic_ns =? 0) eqn:E2; bool_hyps; [naive_solver|].
  destruct (Z.land caps CAP_XNS_PUBSUB =? 0) eqn:E3; cbn [negb]; bool_hyps; [|naive_solver].
  rewrite negb_true_iff, Z.eqb_neq. naive_solver.
Qed.

Lemma xns_gate topic_ns ns pid caps ts :
  topic_access topic_ns ns pid caps ts ↔
  xns_needed topic_ns ns = false ∨ check_xns_access topic_ns ns pid caps ts = true.
Proof.
  rewrite check_xns_access_true. split; [by right|]. intros [H|?]; [|done].
  unfold xns_needed in H. apply andb_false_iff in H as [H|H]; bool_hyps; [by left|by right; left].
Qed.

(** [pubsub_publish] on a used topic, decided by the namespace rule. *)
Lemma pubsub_publish_eq tid pid ns caps data len ts tbl t :
  tbl !! tid = Some t → length tbl = MAX_TOPICS → tp_used t = true → len ≤ TOPIC_MSG_MAX →
  (topic_access (tp_ns_id t) ns pid caps ts →
     pubsub_publish (Z.of_nat tid) pid ns caps data len ts tbl = publish_all tid pid len data tbl) ∧
  (¬ topic_access (tp_ns_id t) ns pid caps ts →
     pubsub_publish (Z.of_nat tid) pid ns caps data len ts tbl = (- EPERM, tbl)).
Proof.
  intros Ht Hl Hu Hlen. pose proof (lookup_lt_Some _ _ _ Ht). unfold pubsub_publish.
  destruct (_ <=? Z.of_nat tid) eqn:E; bool_hyps; [lia|].
  destruct (_ <? len) eqn:E2; bool_hyps; [lia|].
  rewrite Nat2Z.id, (list_lookup_total_correct _ _ _ Ht), Hu, xns_gate. cbn [negb].
  destruct (xns_needed _ _), (check_xns_access _ _ _ _ _); naive_solver.
Qed.

Lemma publish_all_spec tid pub len data tbl t :
  pubsub_wf tbl → tbl !! tid = Some t → 0 ≤ len ≤ TOPIC_MSG_MAX → (Z.to_nat len ≤ length data)%nat →
  ∃ t', publish_all tid pub len data tbl = (Z.of_nat (countb sub_used (tp_subs t)), <[tid := t']> tbl) ∧
    tp_used t' = tp_used t ∧ tp_ns_id t' = tp_ns_id t ∧
    ∀ i s, tp_subs t !! i = Some s → ∃ s', tp_subs t' !! i = Some s' ∧
      sub_used s' = sub_used s ∧ sub_pid s' = sub_pid s ∧
      sub_queue s' = if sub_used s
        then keep_last TOPIC_QUEUE_SLOTS (sub_queue s ++ [(pub, take (Z.to_nat len) data)])
        else sub_queue s.
Proof.
  intros Hwf Ht Hlen Hd. unfold publish_all. rewrite (list_lookup_total_correct _ _ _ Ht).
  eexists. split; [reflexivity|]. split; [done|]. split; [done|]. intros i s Hs.
  destruct Hwf as (_ & Hf & _). destruct (Forall_lookup_1 _ _ _ _ Hf Ht) as (_ & _ & Hfs & _).
  pose proof (Forall_lookup_1 _ _ _ _ Hfs Hs) as Hsw.
  destruct (deliver_spec s pub len data Hsw Hlen Hd) as (_ & H1 & H2 & H3 & H4).
  exists (deliver pub len data s). split_and!; [|done|done|].
  - cbn. by rewrite list_lookup_fmap, Hs.
  - destruct (sub_used s); [by apply H3|by rewrite H4].
Qed.

(** A sequence of publications by one process to one topic: each message with
    its publisher. *)
Fixpoint publish_seq (tid pid ns caps : Z) (msgs : list (list Z)) (ts : token_st) (tbl : topic_table)
    : topic_table :=
  match msgs with
  | [] => tbl
  | m :: msgs' =>
      publish_seq tid pid ns caps msgs' ts
        (pubsub_publish tid pid ns caps m (Z.of_nat (length m)) ts tbl).2
  end.

(** ** Main theorems *)

(** C31.  In every reachable state the subscription queues are well-formed rings of
    well-formed messages, a process subscribes to a topic at most once, and
    two used topics of a namespace have different names. *)
Theorem pubsub_reachable_wf tbl : rtc pubsub_step pubsub_init tbl → pubsub_wf tbl.
Proof. apply pubsub_run_wf. Qed.

(** Publishing is broadcast into bounded queues: after any sequence of
    permitted publications, the queue of every active subscription holds the
    last four of its old messages followed by the published ones, in order. *)
Theorem publish_seq_queue msgs tid pid ns caps ts tbl t :
  pubsub_wf tbl → tbl !! tid = Some t → tp_used t = true →
  topic_access (tp_ns_id t) ns pid caps ts →
  Forall (λ m, (length m ≤ Z.to_nat TOPIC_MSG_MAX)%nat) msgs →
  ∃ t', publish_seq (Z.of_nat tid) pid ns caps msgs ts tbl !! tid = Some t' ∧
    ∀ i s, tp_subs t !! i = Some s → sub_used s = true →
      ∃ s', tp_subs t' !! i = Some s' ∧ sub_pid s' = sub_pid s ∧
        sub_queue s' = keep_last TOPIC_QUEUE_SLOTS (sub_queue s ++ ((λ m, (pid, m)) <$> msgs)).
Proof.
  intros Hwf Ht Hu Hacc Hm. revert tbl t Hwf Ht Hu Hacc.
  induction Hm as [|m msgs Hlen _ IH]; intros tbl t Hwf Ht Hu Hacc; cbn [publish_seq].
  { exists t. split; [done|]. intros i s Hs Hus. exists s. split_and!; [done..|].
    cbn. rewrite app_nil_r. symmetry. apply keep_last_id.
    destruct Hwf as (_ & Hf & _), (Forall_lookup_1 _ _ _ _ Hf Ht) as (_ & _ & Hfs & _).
    pose proof (Forall_lookup_1 _ _ _ _ Hfs Hs) as Hsw. rewrite (sub_queue_length s Hsw).
    by destruct Hsw as ((_ & _ & Hc & _) & _). }
  pose proof Hwf as (Hl & _).
  destruct (pubsub_publish_eq tid pid ns caps m (Z.of_nat (length m)) ts tbl t) as [He0 _]; [done..|lia|].
  rewrite He0 by done.
  destruct (publish_all_spec tid pid (Z.of_nat (length m)) m tbl t) as (t1 & Heq & Hu1 & Hns1 & Hsub);
    [done..|lia|lia|].
  pose proof (publish_all_wf tid pid (Z.of_nat (length m)) m tbl) as Hwf1. rewrite Heq in Hwf1 |- *.
  cbn [snd] in Hwf1 |- *. pose proof (lookup_lt_Some _ _ _ Ht) as Hlt.
  destruct (IH (<[tid := t1]> tbl) t1) as (t' & Ht' & Hq); [apply Hwf1; done || lia| | | |].
  { by apply list_lookup_insert_eq. }
  { congruence. }
  { by rewrite Hns1. }
  exists t'. split; [done|]. intros i s Hs Hus. destruct (Hsub i s Hs) as (s1 & Hs1 & Hu1' & Hp1 & Hq1).
  destruct (Hq i s1 Hs1) as (s' & Hs' & Hp' & Hq'); [congruence|]. exists s'. split_and!; [done|congruence|].
  rewrite Hq', Hq1, Hus, Nat2Z.id, take_ge by done. rewrite keep_last_keep_last.
  by rewrite <-app_assoc.
Qed.

(** Namespace isolation: publishing to a topic in use is refused with [-EPERM]
    and changes nothing exactly when the caller is in another namespace, the
    topic is not global, and the caller has neither [CAP_XNS_PUBSUB] nor a
    token for the topic's namespace; otherwise it reaches every active
    subscriber and returns their number. *)
Theorem publish_isolation tid pid ns caps data len ts tbl t :
  pubsub_wf tbl → tbl !! tid = Some t → tp_used t = true →
  0 ≤ len ≤ TOPIC_MSG_MAX → (Z.to_nat len ≤ length data)%nat →
  (topic_access (tp_ns_id t) ns pid caps ts ∧
   (pubsub_publish (Z.of_nat tid) pid ns caps data len ts tbl).1 =
     Z.of_nat (countb sub_used (tp_subs t))) ∨
  (¬ topic_access (tp_ns_id t) ns pid caps ts ∧
   pubsub_publish (Z.of_nat tid) pid ns caps data len ts tbl = (- EPERM, tbl)).
Proof.
  intros Hwf Ht Hu Hlen Hd. pose proof Hwf as (Hl & _).
  destruct (pubsub_publish_eq tid pid ns caps data len ts tbl t) as [H1 H2]; [done..|lia|].
  destruct (check_xns_access (tp_ns_id t) ns pid caps ts) eqn:E.
  - apply check_xns_access_true in E. left. split; [done|]. rewrite H1 by done.
    destruct (publish_all_spec tid pid len data tbl t) as (t' & -> & _); done.
  - right. rewrite <-check_xns_access_true, E. split; [done|]. apply H2.
    by rewrite <-check_xns_access_true, E.
Qed.

(** Receiving takes the oldest message of the caller's own subscription: no
    subscription gives [-ENOENT], an empty queue [-EAGAIN], and otherwise the
    publisher and the bytes (cut to the caller's buffer) are returned and
    that message alone is removed. *)
Theorem pubsub_recv_refines tid pid max_len tbl t :
  pubsub_wf tbl → tbl !! tid = Some t → tp_used t = true → 0 ≤ max_len →
  let '(r, out, tbl') := pubsub_recv (Z.of_nat tid) pid max_len tbl in
  match find_idx (λ s, sub_used s && (sub_pid s =? pid)) (tp_subs t) with
  | None => r = - ENOENT ∧ out = None ∧ tbl' = tbl
  | Some i => ∃ s, tp_subs t !! i = Some s ∧
      match sub_queue s with
      | [] => r = - EAGAIN ∧ out = None ∧ tbl' = tbl
      | (pub, bytes) :: q =>
          out = Some (pub, take (Z.to_nat max_len) bytes) ∧
          r = Z.of_nat (Nat.min (Z.to_nat max_len) (length bytes)) ∧
          ∃ s', tbl' = <[tid := t <| tp_subs := <[i := s']> (tp_subs t) |>]> tbl ∧
            sub_queue s' = q ∧ sub_used s' = sub_used s ∧ sub_pid s' = sub_pid s
      end
  end.
Proof.
  intros Hwf Ht Hu Hm. pose proof Hwf as (Hl & _ & _). pose proof (lookup_lt_Some _ _ _ Ht).
  unfold pubsub_recv. destruct (_ <=? Z.of_nat tid) eqn:E; bool_hyps; [lia|].
  rewrite Nat2Z.id, (list_lookup_total_correct _ _ _ Ht), Hu. cbn [negb].
  destruct (find_idx _ (tp_subs t)) as [i|] eqn:Ef; [|done].
  destruct (topic_lookup tbl tid Hwf) as (t0 & Ht0 & _ & Htw); [done|].
  rewrite Ht in Ht0. injection Ht0 as <-.
  destruct (sub_lookup t i Htw) as (s & Hs & -> & Hsw); [by eapply find_idx_lt|].
  pose proof (sub_queue_length s Hsw) as Hq. case_decide as Hc.
  { exists s. split; [done|]. rewrite Hc in Hq. apply nil_length_inv in Hq. by rewrite Hq. }
  exists s. split; [done|]. destruct (sub_drop_spec s Hsw) as [Hw (m & -> & [Hl1 Hl2] & ->)]; [lia|].
  unfold tmsg_view at 1. split_and!.
  - do 2 f_equal. rewrite take_take. f_equal. case_all; lia.
  - rewrite length_take. case_all; lia.
  - eexists. split; [reflexivity|]. done.
Qed.

(** ** Witnesses

    Process 5 owns topic 0 (name [t]) of namespace 1; process 6 of the same
    namespace subscribes. *)

Definition ps_tbl1 : topic_table := Eval vm_compute in (pubsub_topic_create [116] 1 5 pubsub_init).2.
Definition ps_tbl2 : topic_table := Eval vm_compute in (pubsub_subscribe 0 6 1 0 token_init ps_tbl1).2.
Definition ps_topic : topic := Eval vm_compute in ps_tbl2 !!! O.
Definition ps_sub : topic_sub := Eval vm_compute in tp_subs ps_topic !!! O.
Definition ps_msgs : list (list Z) := [[1]; [2]; [3]; [4]; [5]; [6]].
Definition ps_tbl3 : topic_table := Eval vm_compute in publish_seq 0 5 1 0 [[1]; [2]] token_init ps_tbl2.
Definition ps_topic3 : topic := Eval vm_compute in ps_tbl3 !!! O.

Lemma ps_reach2 : rtc pubsub_step pubsub_init ps_tbl2.
Proof.
  eapply rtc_r; [apply rtc_once, (step_topic_create [116] 1 5); vm_compute; lia|].
  by apply (step_subscribe 0 6 1 0 token_init ps_tbl1).
Qed.

Lemma ps_wf2 : pubsub_wf ps_tbl2.
Proof. apply pubsub_run_wf, ps_reach2. Qed.

Lemma ps_wf3 : pubsub_wf ps_tbl3.
Proof.
  change ps_tbl3 with (pubsub_publish 0 5 1 0 [2] 1 token_init
    (pubsub_publish 0 5 1 0 [1] 1 token_init ps_tbl2).2).2.
  eapply pubsub_step_wf; [|apply step_publish; cbn; lia].
  eapply pubsub_step_wf; [|apply step_publish; cbn; lia]. apply ps_wf2.
Qed.

(** In the window of [pubsub_subscribe]: process 9 of namespace 2 passes the
    access check for topic 0 with a token for namespace 1; then the owner
    exits and process 7 re-creates slot 0 as a topic of namespace 3; the
    subscription is completed on it. *)
Definition subscribe_race (ts : token_st) (tbl : topic_table) : option (Z * topic_table) :=
  let topic_ns := tp_ns_id (tbl !!! O) in
  if xns_needed topic_ns 2 && check_xns_access topic_ns 2 9 0 ts then
    let tbl1 := pubsub_cleanup_pid 5 tbl in
    let '(_, tbl2) := pubsub_topic_create [120] 3 7 tbl1 in
    if negb (tp_used (tbl2 !!! O)) then None else Some (subscribe_add 0 9 2 tbl2)
  else None.

Definition ps_token : token_st := Eval vm_compute in
  (cap_token_create 1 0x1FFF CAP_XNS_PUBSUB 9 (Some (ns_resource 1)) token_init).2.

(** After it re-acquires its lock, [pubsub_subscribe] checks only that the slot
    is in use: when the topic was replaced by one of another namespace in the
    window, the subscription goes through, although the caller has no access
    to that namespace, and a publication there reaches it. *)
Theorem subscribe_reuse_race :
  ∃ tbl tbl' t, rtc pubsub_step pubsub_init tbl ∧ subscribe_race ps_token tbl = Some (0, tbl') ∧
    tbl' !! O = Some t ∧ tp_ns_id t = 3 ∧ ¬ topic_access 3 2 9 0 ps_token ∧
    (pubsub_subscribe 0 9 2 0 ps_token (pubsub_topic_create [120] 3 7 pubsub_init).2).1 = - EPERM ∧
    (pubsub_recv 0 9 8 (pubsub_publish 0 7 3 0 [42] 1 ps_token tbl').2).1 = (1, Some (7, [42])).
Proof.
  eexists ps_tbl2, _, _. split; [apply ps_reach2|]. split; [vm_compute; reflexivity|].
  split; [vm_compute; reflexivity|]. split; [done|]. split; [|by vm_compute].
  rewrite <-check_xns_access_true. by vm_compute.
Qed.

Lemma pubsub_reachable_wf_witness : pubsub_wf ps_tbl2.
Proof. apply pubsub_reachable_wf, ps_reach2. Defined.

(** Six publications, a queue of four: the subscriber is left with the last
    four. *)
Lemma publish_seq_queue_witness :
  ∃ t' s', publish_seq 0 5 1 0 ps_msgs token_init ps_tbl2 !! O = Some t' ∧
    tp_subs t' !! O = Some s' ∧ sub_queue s' = [(5, [3]); (5, [4]); (5, [5]); (5, [6])].
Proof.
  destruct (publish_seq_queue ps_msgs O 5 1 0 token_init ps_tbl2 ps_topic) as (t' & Ht & Hq).
  - apply ps_wf2.
  - reflexivity.
  - reflexivity.
  - by left.
  - repeat constructor; cbn; lia.
  - destruct (Hq O ps_sub eq_refl eq_refl) as (s' & Hs & _ & Hqs). exists t', s'.
    split; [exact Ht|]. split; [exact Hs|]. rewrite Hqs. reflexivity.
Defined.

Lemma publish_isolation_witness :
  (pubsub_publish 0 5 1 0 [1] 1 token_init ps_tbl2).1 = 1 ∧
  pubsub_publish 0 5 2 0 [1] 1 token_init ps_tbl2 = (- EPERM, ps_tbl2).
Proof.
  split.
  - destruct (publish_isolation O 5 1 0 [1] 1 token_init ps_tbl2 ps_topic) as [[_ H]|[H _]];
      [apply ps_wf2|reflexivity|reflexivity|lia|cbn; lia|exact H|].
    destruct H. by left.
  - destruct (publish_isolation O 5 2 0 [1] 1 token_init ps_tbl2 ps_topic) as [[H _]|[_ H]];
      [apply ps_wf2|reflexivity|reflexivity|lia|cbn; lia| |exact H].
    apply check_xns_access_true in H. vm_compute in H. discriminate H.
Defined.

Lemma pubsub_recv_refines_witness :
  (pubsub_recv 0 6 8 ps_tbl3).1 = (1, Some (5, [1])).
Proof.
  pose proof (pubsub_recv_refines O 6 8 ps_tbl3 ps_topic3 ps_wf3 eq_refl eq_refl) as H.
  change (Z.of_nat 0) with 0 in H. destruct (pubsub_recv 0 6 8 ps_tbl3) as [[r o] t].
  destruct H as (s & Hs & H); [lia|]. injection Hs as <-. by destruct H as (-> & -> & _).
Defined.
