(* ===== verification/Supervisor.v ===== *)
(** * Supervisor: process supervision with restart policies

    Models [src/kernel/src/ipc/supervisor.c] and [supervisor.h]: supervisors
    with child specifications, the restart policies one-for-one and
    one-for-all, and the rate limit on restarts.

    The rest of the kernel that the supervisor acts on (the file system and ELF
    loader that start a process, the process table that is signalled) is the
    interface [ProcOps]: a world [W] threaded through the calls.  The lock is
    not held across those calls; the definitions are the calls without
    interference. *)

From Stdlib Require Import Sorting.Sorted.
From S2P Require Import Prelude KUtil.

Abbreviation MAX_SUPERVISORS := 8%nat (only parsing).
Abbreviation MAX_SUPER_CHILDREN := 8%nat (only parsing).
Abbreviation SUPER_NAME_MAX := 32%nat (only parsing).
Abbreviation SUPER_PATH_MAX := 64%nat (only parsing).
Abbreviation SUPER_MAX_RESTARTS := 5 (only parsing).
Abbreviation SUPER_RESTART_WINDOW := 50 (only parsing).
Abbreviation SUPER_ONE_FOR_ONE := 0 (only parsing).
Abbreviation SUPER_ONE_FOR_ALL := 1 (only parsing).

(** ** State *)

Record super_child := mk_child {
  ch_pid : Z;
  ch_elf_path : list Z;
  ch_ns_id : Z;
  ch_caps : Z;
  ch_used : bool
}.
#[export] Instance super_child_eta : Eta super_child := λ c,
  mk_child (ch_pid c) (ch_elf_path c) (ch_ns_id c) (ch_caps c) (ch_used c).
#[export] Instance super_child_inhabited : Inhabited super_child :=
  populate (mk_child 0 (replicate SUPER_PATH_MAX 0) 0 0 false).

Record supervisor := mk_super {
  sv_owner_pid : Z;
  sv_id : Z;
  sv_used : bool;
  sv_policy : Z;
  sv_child_count : Z;
  sv_name : list Z;
  sv_children : list super_child;
  sv_restart_window_start : Z;
  sv_restart_count : Z
}.
#[export] Instance supervisor_eta : Eta supervisor := λ s,
  mk_super (sv_owner_pid s) (sv_id s) (sv_used s) (sv_policy s) (sv_child_count s) (sv_name s)
    (sv_children s) (sv_restart_window_start s) (sv_restart_count s).
#[export] Instance supervisor_inhabited : Inhabited supervisor :=
  populate (mk_super 0 0 false 0 0 (replicate SUPER_NAME_MAX 0)
    (replicate MAX_SUPER_CHILDREN inhabitant) 0 0).

Abbreviation super_table := (list supervisor) (only parsing).

(** [supervisor_init] on the zeroed table. *)
Definition supervisor_init (tbl : super_table) : super_table :=
  imap (λ i s, s <| sv_used := false |> <| sv_id := Z.of_nat i |>) tbl.

Definition super_zero : list supervisor := replicate MAX_SUPERVISORS inhabitant.

(** ** Creation *)

(** The name loops [for (j = 0; j < n && src[j]; j++) dst[j] = src[j]]: unlike
    [str_copy] they write no NUL after the copied characters. *)
Fixpoint raw_copy_loop (n j : nat) (dst src : list Z) : list Z :=
  match n with
  | O => dst
  | S n' =>
      if c_at src j =? 0 then dst
      else raw_copy_loop n' (S j) (<[j := c_at src j]> dst) src
  end.

(** The loop, then [dst[n] = 0]. *)
Definition raw_copy (n : nat) (dst src : list Z) : list Z :=
  <[n := 0]> (raw_copy_loop n 0 dst src).

Definition supervisor_create (owner_pid : Z) (name : list Z) (tbl : super_table) : Z * super_table :=
  match find_idx (λ s, negb (sv_used s)) tbl with
  | None => (-1, tbl)
  | Some i =>
      let s := tbl !!! i in
      (Z.of_nat i,
       <[i := s <| sv_used := true |> <| sv_owner_pid := owner_pid |>
                <| sv_policy := SUPER_ONE_FOR_ONE |> <| sv_child_count := 0 |>
                <| sv_restart_window_start := 0 |> <| sv_restart_count := 0 |>
                <| sv_name := raw_copy (SUPER_NAME_MAX - 1) (sv_name s) name |>
                <| sv_children := (λ c, c <| ch_used := false |>) <$> sv_children s |>]> tbl)
  end.

(** [super_id >= MAX_SUPERVISORS || !supervisors[super_id].used]. *)
Definition super_invalid (super_id : Z) (tbl : super_table) : bool :=
  (Z.of_nat MAX_SUPERVISORS <=? super_id) || negb (sv_used (tbl !!! Z.to_nat super_id)).

Definition supervisor_add_child (super_id : Z) (elf_path : list Z) (ns_id caps : Z)
    (tbl : super_table) : Z * super_table :=
  if super_invalid super_id tbl then (-1, tbl)
  else
    let sv := tbl !!! Z.to_nat super_id in
    match find_idx (λ c, negb (ch_used c)) (sv_children sv) with
    | None => (-1, tbl)
    | Some i =>
        let c := sv_children sv !!! i in
        let c := c <| ch_used := true |> <| ch_ns_id := ns_id |> <| ch_caps := caps |>
                   <| ch_pid := 0 |>
                   <| ch_elf_path := raw_copy (SUPER_PATH_MAX - 1) (ch_elf_path c) elf_path |> in
        (Z.of_nat i,
         <[Z.to_nat super_id := sv <| sv_children := <[i := c]> (sv_children sv) |>
                                   <| sv_child_count := u8 (sv_child_count sv + 1) |>]> tbl)
    end.

Definition supervisor_set_policy (super_id policy : Z) (tbl : super_table) : Z * super_table :=
  if super_invalid super_id tbl then (-1, tbl)
  else if SUPER_ONE_FOR_ALL <? policy then (-1, tbl)
  else (0, <[Z.to_nat super_id := (tbl !!! Z.to_nat super_id) <| sv_policy := policy |>]> tbl).

(** What [supervisor_list] reports for one supervisor. *)
Record super_info := mk_sinfo {
  si_id : Z; si_policy : Z; si_child_count : Z; si_name : list Z; si_owner_pid : Z;
  si_child_pids : list Z; si_restart_count : Z
}.
Definition super_info_of (sv : supervisor) : super_info :=
  mk_sinfo (sv_id sv) (sv_policy sv) (sv_child_count sv) (sv_name sv) (sv_owner_pid sv)
    ((λ c, if ch_used c then ch_pid c else 0) <$> sv_children sv) (sv_restart_count sv).

(** The loop: [room] entries of the buffer are left. *)
Fixpoint supervisor_list_loop (tbl : super_table) (room : Z) : list super_info :=
  match tbl with
  | [] => []
  | sv :: tbl' =>
      if room <=? 0 then []
      else if sv_used sv then super_info_of sv :: supervisor_list_loop tbl' (room - 1)
      else supervisor_list_loop tbl' room
  end.
Definition supervisor_list (max_count : Z) (tbl : super_table) : Z * list super_info :=
  let out := supervisor_list_loop tbl max_count in (Z.of_nat (length out), out).

(** ** The rate limit of [supervisor_on_exit]

    The supervisor after the accounting, and whether a restart may go on. *)
Definition restart_admit (now : Z) (sv : supervisor) : bool * supervisor :=
  let sv := if SUPER_RESTART_WINDOW <? u64 (now - sv_restart_window_start sv)
            then sv <| sv_restart_count := 0 |> <| sv_restart_window_start := now |> else sv in
  let sv := sv <| sv_restart_count := u32 (sv_restart_count sv + 1) |> in
  (negb (SUPER_MAX_RESTARTS <? sv_restart_count sv), sv).

(** ** Acting on processes *)

(** What the supervisor uses of the loader and the process table.
    [load_elf path] is [supervisor_load_elf]: the new process, or none.
    [configure pid parent caps ns] stands for the stores into the new process
    (parent, capabilities, daemon flag, namespace, console descriptors) and
    [sched_add].  [kill_pid] is [process_lookup] and [SIGKILL] when the process
    has not exited. *)
Class ProcOps (W : Type) := {
  load_elf : list Z → W → option Z * W;
  configure : Z → Z → Z → Z → W → W;
  kill_pid : Z → W → W
}.

Section procs.
Context {W : Type} `{!ProcOps W}.

(** [supervisor_restart_child] on child [j] of supervisor [i]. *)
Definition supervisor_restart_child (i j : nat) (st : super_table * W) : super_table * W :=
  let '(tbl, w) := st in
  let sv := tbl !!! i in
  let ch := sv_children sv !!! j in
  if negb (ch_used ch) then st
  else
    match load_elf (ch_elf_path ch) w with
    | (None, w') => (tbl, w')
    | (Some pid, w') =>
        (<[i := sv <| sv_children := <[j := ch <| ch_pid := pid |>]> (sv_children sv) |>]> tbl,
         configure pid (sv_owner_pid sv) (u32 (ch_caps ch)) (ch_ns_id ch) w')
    end.

(** The indices of the children that satisfy a test, in order. *)
Definition collect (p : super_child → bool) (l : list super_child) : list nat :=
  (filter (λ jc : nat * super_child, p jc.2 = true) (imap pair l)).*1.

Definition restart_children (i : nat) (js : list nat) (st : super_table * W) : super_table * W :=
  fold_left (λ s j, supervisor_restart_child i j s) js st.

Definition supervisor_start (super_id : Z) (st : super_table * W) : Z * (super_table * W) :=
  if super_invalid super_id st.1 then (-1, st)
  else
    let i := Z.to_nat super_id in
    let js := collect (λ c, ch_used c && (ch_pid c =? 0)) (sv_children (st.1 !!! i)) in
    (Z.of_nat (length js), restart_children i js st).

Definition kill_all (pids : list Z) (w : W) : W := fold_left (λ w p, kill_pid p w) pids w.

Definition supervisor_stop (super_id caller_pid : Z) (st : super_table * W)
    : Z * (super_table * W) :=
  let '(tbl, w) := st in
  if super_invalid super_id tbl then (- EINVAL, st)
  else
    let i := Z.to_nat super_id in
    let sv := tbl !!! i in
    if negb (sv_owner_pid sv =? caller_pid) then (- EACCES, st)
    else
      let pids := ch_pid <$> filter (λ c, ch_used c && negb (ch_pid c =? 0) = true) (sv_children sv) in
      (0, (<[i := sv <| sv_used := false |>
                     <| sv_children := (λ c, c <| ch_used := false |> <| ch_pid := 0 |>)
                                         <$> sv_children sv |>
                     <| sv_child_count := 0 |>]> tbl,
           kill_all pids w)).

(** The body of [supervisor_on_exit] once supervisor [i] has child [j] with
    this pid. *)
Definition on_exit_child (now pid : Z) (i j : nat) (st : super_table * W) : super_table * W :=
  let '(tbl, w) := st in
  let '(ok, sv) := restart_admit now (tbl !!! i) in
  let tbl := <[i := sv]> tbl in
  if negb ok then (tbl, w)
  else if sv_policy sv =? SUPER_ONE_FOR_ONE then supervisor_restart_child i j (tbl, w)
  else
    let pids := ch_pid <$> filter (λ c, ch_used c && negb (ch_pid c =? pid) = true) (sv_children sv) in
    restart_children i (collect ch_used (sv_children sv)) (tbl, kill_all pids w).

(** The first supervisor with such a child handles the exit. *)
Definition has_child (pid : Z) (sv : supervisor) : bool :=
  sv_used sv && existsb (λ c, ch_used c && (ch_pid c =? pid)) (sv_children sv).

Definition supervisor_on_exit (now pid exit_status : Z) (st : super_table * W) : super_table * W :=
  if exit_status =? 0 then st
  else
    match find_idx (has_child pid) st.1 with
    | None => st
    | Some i =>
        match find_idx (λ c, ch_used c && (ch_pid c =? pid)) (sv_children (st.1 !!! i)) with
        | None => st
        | Some j => on_exit_child now pid i j st
        end
    end.
End procs.

(** ** Invariant *)

Definition child_wf (c : super_child) : Prop := length (ch_elf_path c) = SUPER_PATH_MAX.

(** [child_count] counts the used children. *)
Definition super_wf (s : supervisor) : Prop :=
  length (sv_name s) = SUPER_NAME_MAX ∧ length (sv_children s) = MAX_SUPER_CHILDREN ∧
  Forall child_wf (sv_children s) ∧ sv_child_count s = Z.of_nat (countb ch_used (sv_children s)) ∧
  0 ≤ sv_policy s ≤ SUPER_ONE_FOR_ALL.

Definition supers_wf (tbl : super_table) : Prop :=
  length tbl = MAX_SUPERVISORS ∧ Forall super_wf tbl.

Inductive super_step {W} `{!ProcOps W} : super_table * W → super_table * W → Prop :=
  | step_sv_create owner name tbl w :
      super_step (tbl, w) ((supervisor_create owner name tbl).2, w)
  | step_sv_add sid path ns caps tbl w :
      0 ≤ sid → super_step (tbl, w) ((supervisor_add_child sid path ns caps tbl).2, w)
  | step_sv_policy sid policy tbl w :
      0 ≤ sid → 0 ≤ policy → super_step (tbl, w) ((supervisor_set_policy sid policy tbl).2, w)
  | step_sv_start sid st : 0 ≤ sid → super_step st (supervisor_start sid st).2
  | step_sv_stop sid pid st : 0 ≤ sid → super_step st (supervisor_stop sid pid st).2
  | step_sv_exit now pid status st : super_step st (supervisor_on_exit now pid status st).

(** ** Lemmas on the unterminated copy *)

Lemma length_raw_copy_loop n j dst src : length (raw_copy_loop n j dst src) = length dst.
Proof.
  revert j dst. induction n as [|n IH]; intros j dst; cbn; [done|].
  destruct (_ =? 0); [done|]. by rewrite IH, length_insert.
Qed.

Lemma length_raw_copy n dst src : length (raw_copy n dst src) = length dst.
Proof. unfold raw_copy. by rewrite length_insert, length_raw_copy_loop. Qed.

Lemma raw_copy_loop_spec n j dst src :
  (j + n ≤ length dst)%nat →
  raw_copy_loop n j dst src =
  let s := take n (c_str (drop j src)) in take j dst ++ s ++ drop (j + length s) dst.
Proof.
  revert j dst. induction n as [|n IH]; intros j dst Hlt; cbn [raw_copy_loop].
  - rewrite take_0. cbv zeta. cbn [length app]. by rewrite Nat.add_0_r, take_drop.
  - destruct (c_at src j =? 0) eqn:E; bool_hyps.
    + rewrite c_str_drop_stop, take_nil by done. cbv zeta. cbn [length app].
      by rewrite Nat.add_0_r, take_drop.
    + rewrite IH by (rewrite length_insert; lia). rewrite take_c_str_step by done. cbv zeta.
      rewrite (take_S_r _ j (c_at src j)) by (apply list_lookup_insert_eq; lia).
      rewrite take_insert_ge by lia. rewrite drop_insert_lt by lia.
      rewrite <-app_assoc. cbn [app length]. by rewrite <-Nat.add_succ_comm.
Qed.

Lemma c_str_app s t : Forall (λ c, c ≠ 0) s → c_str (s ++ t) = s ++ c_str t.
Proof.
  induction 1 as [|c s Hc _ IH]; [done|]. cbn. apply Z.eqb_neq in Hc. by rewrite Hc, IH.
Qed.

Lemma c_str_take_nul l n : (n < length l)%nat → c_str (<[n := 0]> l) = c_str (take n l).
Proof.
  revert n. induction l as [|c l IH]; intros [|n] Hn; cbn in *; [lia|lia|done|].
  destruct (c =? 0); [done|]. by rewrite IH by lia.
Qed.

(** The string that results: the copied characters followed by what the buffer
    held behind them. *)
Lemma c_str_raw_copy n dst src :
  (n < length dst)%nat → let s := take n (c_str src) in
  c_str (raw_copy n dst src) = s ++ c_str (drop (length s) (take n dst)).
Proof.
  intros Hn s. unfold raw_copy. rewrite c_str_take_nul by (rewrite length_raw_copy_loop; lia).
  rewrite raw_copy_loop_spec by lia. cbn zeta. rewrite drop_0. fold s. cbn [take app Nat.add].
  assert (length s ≤ n)%nat by (subst s; rewrite length_take; lia).
  rewrite take_0, app_nil_l, take_app_ge by done.
  rewrite c_str_app by apply Forall_take, c_str_nonzero.
  rewrite take_drop_commute. do 4 f_equal. lia.
Qed.

(** ** Lemmas on the invariant *)

Lemma super_lookup tbl i :
  supers_wf tbl → (i < MAX_SUPERVISORS)%nat → ∃ s, tbl !! i = Some s ∧ tbl !!! i = s ∧ super_wf s.
Proof.
  intros (Hl & Hf) Hi. destruct (lookup_lt_is_Some_2 tbl i) as [s Hs]; [lia|]. exists s.
  split_and!; [done|by apply list_lookup_total_correct|by eapply Forall_lookup_1].
Qed.

Lemma supers_insert_wf tbl i s : supers_wf tbl → super_wf s → supers_wf (<[i := s]> tbl).
Proof. intros (Hl & Hf) Hs. split; [by rewrite length_insert|by apply Forall_insert]. Qed.

Lemma countb_unused (f : super_child → super_child) l :
  (∀ c, ch_used (f c) = false) → countb ch_used (f <$> l) = O.
Proof.
  intros Hf. induction l as [|c l IH]; [done|]. cbn [fmap list_fmap]. by rewrite countb_cons, Hf, IH.
Qed.

(** Changing the pid of a child. *)
Lemma super_set_pid_wf s j c pid :
  super_wf s → sv_children s !! j = Some c →
  super_wf (s <| sv_children := <[j := c <| ch_pid := pid |>]> (sv_children s) |>).
Proof.
  intros (H1 & H2 & H3 & H4 & H5) Hj.
  pose proof (countb_insert ch_used _ _ _ (c <| ch_pid := pid |>) Hj) as Hc.
  change (ch_used (c <| ch_pid := pid |>)) with (ch_used c) in Hc.
  unfold super_wf. cbn [field_upd sv_name sv_children sv_child_count sv_policy].
  split; [done|]. split; [by rewrite length_insert|]. split; [|by split; [lia|]].
  apply Forall_insert; [done|]. by apply (Forall_lookup_1 _ _ _ _ H3 Hj).
Qed.

Lemma restart_admit_fields now sv :
  let sv' := (restart_admit now sv).2 in
  sv_children sv' = sv_children sv ∧ sv_policy sv' = sv_policy sv ∧ sv_used sv' = sv_used sv ∧
  sv_name sv' = sv_name sv ∧ sv_child_count sv' = sv_child_count sv ∧
  sv_owner_pid sv' = sv_owner_pid sv.
Proof. unfold restart_admit. cbn. by destruct (_ <? _). Qed.

Lemma restart_admit_wf now sv : super_wf sv → super_wf (restart_admit now sv).2.
Proof.
  destruct (restart_admit_fields now sv) as (H1 & H2 & H3 & H4 & H5 & H6).
  unfold super_wf. by rewrite H1, H2, H4, H5.
Qed.

Section procs_wf.
Context {W : Type} `{!ProcOps W}.
Implicit Types (st : super_table * W).

Lemma supervisor_restart_child_wf i j st :
  (i < MAX_SUPERVISORS)%nat → (j < MAX_SUPER_CHILDREN)%nat →
  supers_wf st.1 → supers_wf (supervisor_restart_child i j st).1.
Proof.
  destruct st as [tbl w]. intros Hi Hj Hwf. cbn in Hwf.
  destruct (super_lookup tbl i Hwf Hi) as (s & Hs & Hst & Hsw). unfold supervisor_restart_child.
  rewrite Hst. destruct (lookup_lt_is_Some_2 (sv_children s) j) as [c Hc].
  { destruct Hsw as (_ & Hl & _). lia. }
  rewrite (list_lookup_total_correct _ _ _ Hc). destruct (negb _); [done|].
  destruct (load_elf _ w) as [[pid|] w']; [|done]. cbn.
  apply supers_insert_wf; [done|]. by apply super_set_pid_wf.
Qed.

Lemma collect_lt p l j : j ∈ collect p l → (j < length l)%nat.
Proof.
  unfold collect. rewrite list_elem_of_fmap. intros ((k & c) & -> & [_ H]%list_elem_of_filter).
  apply list_elem_of_lookup in H as (n & Hn). rewrite list_lookup_imap in Hn.
  apply fmap_Some in Hn as (c' & Hc' & [= -> ->]). by eapply lookup_lt_Some.
Qed.

Lemma collect_holds p l j : j ∈ collect p l → p (l !!! j) = true.
Proof.
  unfold collect. rewrite list_elem_of_fmap. intros ((k & c) & -> & [Hp H]%list_elem_of_filter).
  apply list_elem_of_lookup in H as (n & Hn). rewrite list_lookup_imap in Hn.
  apply fmap_Some in Hn as (c' & Hc' & [= -> ->]). cbn in *. by rewrite (list_lookup_total_correct _ _ _ Hc').
Qed.

Lemma length_collect p l : length (collect p l) = countb p l.
Proof.
  unfold collect. rewrite length_fmap.
  enough (∀ (f : nat → nat), length (filter (λ jc : nat * super_child, p jc.2 = true) (imap (λ n c, (f n, c)) l)) = countb p l)
    as H by apply (H id).
  induction l as [|c l IH]; intros f; [done|]. rewrite imap_cons, filter_cons, countb_cons. cbn [snd].
  specialize (IH (f ∘ S)). unfold compose in *. destruct (p c); [rewrite decide_True by done|rewrite decide_False by done];
    cbn [length]; rewrite <-IH; done.
Qed.

Lemma restart_children_wf i js st :
  (i < MAX_SUPERVISORS)%nat → Forall (λ j, (j < MAX_SUPER_CHILDREN)%nat) js →
  supers_wf st.1 → supers_wf (restart_children i js st).1.
Proof.
  intros Hi Hjs. revert st. unfold restart_children.
  induction Hjs as [|j js Hj _ IH]; intros st Hwf; [done|]. cbn.
  by apply IH, supervisor_restart_child_wf.
Qed.

Lemma collect_valid p s :
  super_wf s → Forall (λ j, (j < MAX_SUPER_CHILDREN)%nat) (collect p (sv_children s)).
Proof.
  intros (_ & Hl & _). apply Forall_forall. intros j Hj%collect_lt. lia.
Qed.
End procs_wf.

Lemma supervisor_create_wf owner name tbl :
  supers_wf tbl → supers_wf (supervisor_create owner name tbl).2.
Proof.
  intros Hwf. unfold supervisor_create. destruct (find_idx _ tbl) as [i|] eqn:E; [|done].
  destruct (super_lookup tbl i Hwf) as (s & Hs & -> & Hsw).
  { apply find_idx_lt in E. destruct Hwf. lia. }
  cbn [snd]. apply supers_insert_wf; [done|]. destruct Hsw as (H1 & H2 & H3 & H4 & H5).
  unfold super_wf. cbn [field_upd sv_name sv_children sv_child_count sv_policy].
  split; [by rewrite length_raw_copy|]. split; [by rewrite length_fmap|].
  split; [apply Forall_fmap; eapply Forall_impl; [done|]; by intros c Hc|].
  split; [by rewrite countb_unused|lia].
Qed.

Lemma supervisor_add_child_wf sid path ns caps tbl :
  0 ≤ sid → supers_wf tbl → supers_wf (supervisor_add_child sid path ns caps tbl).2.
Proof.
  intros Hsid Hwf. unfold supervisor_add_child, super_invalid.
  destruct (_ <=? sid) eqn:E; bool_hyps; [done|]. cbn [orb].
  destruct (super_lookup tbl (Z.to_nat sid) Hwf) as (s & Hs & -> & Hsw); [lia|].
  destruct (negb _); [done|]. destruct (find_idx _ (sv_children s)) as [j|] eqn:Ef; [|done].
  apply find_idx_lookup in Ef as (c & Hj & Hc). bool_hyps.
  rewrite (list_lookup_total_correct _ _ _ Hj). cbn [snd]. apply supers_insert_wf; [done|].
  destruct Hsw as (H1 & H2 & H3 & H4 & H5).
  set (c' := c <| ch_used := true |> <| ch_ns_id := ns |> <| ch_caps := caps |>
    <| ch_pid := 0 |> <| ch_elf_path := _ |>).
  pose proof (countb_insert ch_used _ _ _ c' Hj) as Hcnt.
  change (ch_used c') with true in Hcnt. rewrite Hc in Hcnt.
  pose proof (countb_le ch_used (<[j := c']> (sv_children s))) as Hle. rewrite length_insert in Hle.
  unfold super_wf. cbn [field_upd sv_name sv_children sv_child_count sv_policy].
  split; [done|]. split; [by rewrite length_insert|]. split.
  - apply Forall_insert; [done|]. unfold child_wf, c'. cbn [field_upd ch_elf_path].
    rewrite length_raw_copy. by apply (Forall_lookup_1 _ _ _ _ H3 Hj).
  - rewrite u8_id by lia. split; [lia|done].
Qed.

Lemma super_step_wf {W} `{!ProcOps W} (st st' : super_table * W) :
  supers_wf st.1 → super_step st st' → supers_wf st'.1.
Proof.
  intros Hwf Hs. destruct Hs as [owner name tbl w|sid path ns caps tbl w H0|sid policy tbl w H0 Hp|
    sid st H0|sid pid st H0|now pid status st]; cbn [fst] in *.
  - by apply supervisor_create_wf.
  - by apply supervisor_add_child_wf.
  - unfold supervisor_set_policy, super_invalid. destruct (_ <=? sid) eqn:E; bool_hyps; [done|]. cbn [orb].
    destruct (super_lookup tbl (Z.to_nat sid) Hwf) as (s & Hs & -> & Hsw); [lia|].
    destruct (negb _); [done|]. destruct (_ <? policy) eqn:E2; bool_hyps; [done|]. cbn [snd].
    apply supers_insert_wf; [done|]. destruct Hsw as (H1 & H2 & H3 & H4 & H5).
    unfold super_wf. cbn [field_upd sv_name sv_children sv_child_count sv_policy]. done.
  - unfold supervisor_start, super_invalid. destruct (_ <=? sid) eqn:E; bool_hyps; [done|]. cbn [orb].
    destruct (super_lookup st.1 (Z.to_nat sid) Hwf) as (s & Hs & -> & Hsw); [lia|].
    destruct (negb _); [done|]. cbn [snd]. apply restart_children_wf; [lia| |done].
    by apply collect_valid.
  - destruct st as [tbl w]. unfold supervisor_stop, super_invalid. cbn [fst] in Hwf.
    destruct (_ <=? sid) eqn:E; bool_hyps; [done|]. cbn [orb].
    destruct (super_lookup tbl (Z.to_nat sid) Hwf) as (s & Hs & -> & Hsw); [lia|].
    do 2 (destruct (negb _); [done|]). cbn [fst snd].
    apply supers_insert_wf; [done|]. destruct Hsw as (H1 & H2 & H3 & H4 & H5).
    unfold super_wf. cbn [field_upd sv_name sv_children sv_child_count sv_policy].
    split; [done|]. split; [by rewrite length_fmap|].
    split; [apply Forall_fmap; eapply Forall_impl; [done|]; by intros c Hc|].
    split; [by rewrite countb_unused|lia].
  - unfold supervisor_on_exit. destruct (status =? 0); [done|].
    destruct (find_idx (has_child pid) st.1) as [i|] eqn:Ei; [|done].
    assert (i < MAX_SUPERVISORS)%nat as Hi by (apply find_idx_lt in Ei; destruct Hwf; lia).
    destruct (super_lookup st.1 i Hwf Hi) as (s & Hs & Hst & Hsw). rewrite Hst.
    destruct (find_idx _ (sv_children s)) as [j|] eqn:Ej; [|done].
    assert (j < MAX_SUPER_CHILDREN)%nat as Hj.
    { apply find_idx_lt in Ej. destruct Hsw as (_ & Hl & _). lia. }
    destruct st as [tbl w]. cbn [fst] in *. unfold on_exit_child. rewrite Hst.
    destruct (restart_admit now s) as [ok s'] eqn:Ea.
    assert (super_wf s') as Hsw' by (pose proof (restart_admit_wf now s Hsw) as H; by rewrite Ea in H).
    pose proof (supers_insert_wf tbl i s' Hwf Hsw'). destruct (negb ok); [done|].
    destruct (_ =? _); [by apply supervisor_restart_child_wf|].
    apply restart_children_wf; [done|by apply collect_valid|done].
Qed.

Definition super_boot : super_table := supervisor_init super_zero.

Lemma super_boot_wf : supers_wf super_boot.
Proof. split; [done|]. repeat constructor; vm_compute; congruence. Qed.

(** ** The restart rate *)

(** Number of restarts admitted at the given times. *)
Fixpoint admitted (times : list Z) (sv : supervisor) : nat :=
  match times with
  | [] => O
  | now :: times' =>
      let '(ok, sv') := restart_admit now sv in
      ((if ok then 1 else 0) + admitted times' sv')%nat
  end.

(** One admission inside a window, and one that opens a window. *)
Lemma restart_admit_same now sv :
  let s := sv_restart_window_start sv in let c := sv_restart_count sv in
  s ≤ now ≤ s + SUPER_RESTART_WINDOW → 0 ≤ c < 2 ^ 32 - 1 →
  ∃ sv', restart_admit now sv = (bool_decide (c < SUPER_MAX_RESTARTS), sv') ∧
    sv_restart_window_start sv' = s ∧ sv_restart_count sv' = c + 1.
Proof.
  intros s c Hn Hc. subst s c. unfold restart_admit. rewrite u64_id by lia.
  destruct (_ <? now - _) eqn:E; bool_hyps; [lia|]. rewrite u32_id by lia.
  exists (sv <| sv_restart_count := sv_restart_count sv + 1 |>). split; [|done]. f_equal.
  change (sv_restart_count _) with (sv_restart_count sv + 1) at 1. case_bool_decide; destruct (_ <? _) eqn:E2; bool_hyps; done || lia.
Qed.

Lemma restart_admit_new now sv :
  SUPER_RESTART_WINDOW < now - sv_restart_window_start sv → now < 2 ^ 64 →
  0 ≤ sv_restart_window_start sv →
  ∃ sv', restart_admit now sv = (true, sv') ∧
    sv_restart_window_start sv' = now ∧ sv_restart_count sv' = 1.
Proof.
  intros Hn Hlt Hs. unfold restart_admit. rewrite u64_id by lia.
  destruct (_ <? now - _) eqn:E; bool_hyps; [|lia]. eexists. split; [reflexivity|done].
Qed.

(** Without a new window the count only grows. *)
Lemma admitted_in_window times sv :
  let s := sv_restart_window_start sv in let c := sv_restart_count sv in
  Forall (λ t, s ≤ t ≤ s + SUPER_RESTART_WINDOW) times →
  0 ≤ c → c + Z.of_nat (length times) < 2 ^ 32 →
  Z.of_nat (admitted times sv) ≤ Z.max 0 (SUPER_MAX_RESTARTS - c).
Proof.
  intros s c Hf. subst s c. revert sv Hf. induction times as [|t times IH]; intros sv Hf Hc Hlen; [cbn; lia|].
  apply Forall_cons in Hf as [Ht Hf]. cbn [length] in Hlen. cbn [admitted].
  destruct (restart_admit_same t sv) as (sv' & -> & Hs' & Hc'); [done|lia|].
  rewrite <-Hs' in Hf. specialize (IH sv' Hf). rewrite Hc' in IH. case_bool_decide; lia.
Qed.

(** Over a span of 50 ticks at most one new window opens. *)
Lemma admitted_span times sv a :
  let s := sv_restart_window_start sv in let c := sv_restart_count sv in
  Sorted Z.le times → Forall (λ t, a ≤ t ≤ a + SUPER_RESTART_WINDOW) times →
  0 ≤ s ≤ a → a + SUPER_RESTART_WINDOW < 2 ^ 64 → 0 ≤ c → c + Z.of_nat (length times) < 2 ^ 32 →
  Z.of_nat (admitted times sv) ≤ Z.max 0 (SUPER_MAX_RESTARTS - c) + SUPER_MAX_RESTARTS.
Proof.
  intros s c Hso Hf. subst s c. apply Sorted_StronglySorted in Hso; [|intros ???; lia].
  revert sv. induction Hso as [|t times Hso IH Hle]; intros sv Hs Hs' Hc Hlen; [cbn; lia|].
  apply Forall_cons in Hf as [Ht Hf]. cbn [length] in Hlen. cbn [admitted].
  destruct (decide (SUPER_RESTART_WINDOW < t - sv_restart_window_start sv)).
  - destruct (restart_admit_new t sv) as (sv' & -> & Hw & Hc'); [lia..|].
    assert (Forall (λ u, sv_restart_window_start sv' ≤ u ≤ sv_restart_window_start sv' + SUPER_RESTART_WINDOW)
      times) as Hft.
    { rewrite Hw. rewrite Forall_forall in Hle, Hf |- *. intros x Hx.
      specialize (Hle x Hx). specialize (Hf x Hx). lia. }
    pose proof (admitted_in_window times sv' Hft) as Hb. rewrite Hc' in Hb. lia.
  - destruct (restart_admit_same t sv) as (sv' & -> & Hw & Hc'); [lia..|].
    specialize (IH Hf sv'). rewrite Hw, Hc' in IH. case_bool_decide; lia.
Qed.

(** The verdicts depend on the accounting fields alone. *)
Lemma admitted_ext times sv sv' :
  sv_restart_window_start sv' = sv_restart_window_start sv → sv_restart_count sv' = sv_restart_count sv →
  admitted times sv' = admitted times sv.
Proof.
  revert sv sv'. induction times as [|t times IH]; intros sv sv' Hs Hc; [done|]. cbn [admitted].
  unfold restart_admit. rewrite Hs.
  destruct (SUPER_RESTART_WINDOW <? _); cbn; rewrite ?Hc; f_equal; apply IH; cbn; congruence.
Qed.

(** ** What a restart may change *)

(** The configured part of a child and of a supervisor: everything but the pids
    and the restart accounting. *)
Definition child_spec (c : super_child) := (ch_elf_path c, ch_ns_id c, ch_caps c, ch_used c).
Definition super_spec (s : supervisor) :=
  (sv_owner_pid s, sv_used s, sv_policy s, sv_child_count s, sv_name s, child_spec <$> sv_children s).

Lemma fmap_insert_same {A B} (f : A → B) (l : list A) (i : nat) x y :
  l !! i = Some x → f y = f x → f <$> <[i := y]> l = f <$> l.
Proof.
  intros Hi Hf. rewrite list_fmap_insert. apply list_insert_id. by rewrite list_lookup_fmap, Hi, Hf.
Qed.

Section frame.
Context {W : Type} `{!ProcOps W}.
Implicit Types (st : super_table * W).

(** A restart changes at most the pid of the one child. *)
Lemma restart_child_cases i j tbl w :
  (supervisor_restart_child i j (tbl, w)).1 = tbl ∨
  ∃ s c pid, tbl !!! i = s ∧ sv_children s !!! j = c ∧ ch_used c = true ∧
    (load_elf (ch_elf_path c) w).1 = Some pid ∧
    (supervisor_restart_child i j (tbl, w)).1 =
    <[i := s <| sv_children := <[j := c <| ch_pid := pid |>]> (sv_children s) |>]> tbl.
Proof.
  unfold supervisor_restart_child. cbv zeta. set (s := tbl !!! i). set (c := sv_children s !!! j).
  destruct (ch_used c) eqn:Eu; cbn [negb]; [|by left].
  destruct (load_elf (ch_elf_path c) w) as [[pid|] w'] eqn:El; [|by left].
  right. exists s, c, pid. by rewrite El.
Qed.

Lemma restart_child_spec i j st :
  (i < length st.1)%nat → (j < length (sv_children (st.1 !!! i)))%nat →
  super_spec <$> (supervisor_restart_child i j st).1 = super_spec <$> st.1.
Proof.
  destruct st as [tbl w]. cbn [fst]. intros [s Hs]%lookup_lt_is_Some_2 Hj.
  rewrite (list_lookup_total_correct _ _ _ Hs) in Hj. apply lookup_lt_is_Some_2 in Hj as [c Hc].
  destruct (restart_child_cases i j tbl w) as [-> | (s' & c' & pid & Hs' & Hc' & _ & _ & ->)]; [done|].
  rewrite (list_lookup_total_correct _ _ _ Hs) in Hs'. subst s'.
  rewrite (list_lookup_total_correct _ _ _ Hc) in Hc'. subst c'.
  apply (fmap_insert_same _ _ _ s); [done|].
  change (super_spec (s <| sv_children := ?l |>)) with
    (sv_owner_pid s, sv_used s, sv_policy s, sv_child_count s, sv_name s, child_spec <$> l).
  unfold super_spec. by rewrite (fmap_insert_same _ _ _ c).
Qed.

(** The specification determines the shape of the table. *)
Lemma super_spec_shape tbl tbl' i :
  super_spec <$> tbl' = super_spec <$> tbl →
  length tbl' = length tbl ∧
  ((i < length tbl)%nat → length (sv_children (tbl' !!! i)) = length (sv_children (tbl !!! i))).
Proof.
  intros H. assert (length tbl' = length tbl) as Hl
    by (apply (f_equal length) in H; by rewrite !length_fmap in H).
  split; [done|]. intros Hi. destruct (lookup_lt_is_Some_2 tbl i) as [s Hs]; [done|].
  destruct (lookup_lt_is_Some_2 tbl' i) as [s' Hs']; [lia|].
  rewrite (list_lookup_total_correct _ _ _ Hs), (list_lookup_total_correct _ _ _ Hs').
  apply (f_equal (.!! i)) in H. rewrite !list_lookup_fmap, Hs, Hs' in H. cbn in H.
  injection H as _ _ _ _ _ H. apply (f_equal length) in H. by rewrite !length_fmap in H.
Qed.

Lemma restart_children_spec i js st :
  (i < length st.1)%nat → Forall (λ j, (j < length (sv_children (st.1 !!! i)))%nat) js →
  super_spec <$> (restart_children i js st).1 = super_spec <$> st.1.
Proof.
  unfold restart_children. revert st. induction js as [|j js IH]; intros st Hi Hf; [done|].
  apply Forall_cons in Hf as [Hj Hf]. cbn [fold_left].
  pose proof (restart_child_spec i j st Hi Hj) as Hspec.
  destruct (super_spec_shape _ _ i Hspec) as [Hl Hc].
  rewrite IH; [done|by rewrite Hl|]. by rewrite Hc.
Qed.

(** The exit of a process never alters what is configured. *)
Lemma on_exit_spec now pid status st :
  supers_wf st.1 → super_spec <$> (supervisor_on_exit now pid status st).1 = super_spec <$> st.1.
Proof.
  intros Hwf. unfold supervisor_on_exit. destruct (status =? 0); [done|].
  destruct (find_idx (has_child pid) st.1) as [i|] eqn:Ei; [|done].
  assert (i < MAX_SUPERVISORS)%nat as Hi by (apply find_idx_lt in Ei; destruct Hwf; lia).
  destruct (super_lookup st.1 i Hwf Hi) as (s & Hs & Hst & Hsw). rewrite Hst.
  destruct (find_idx _ (sv_children s)) as [j|] eqn:Ej; [|done]. apply find_idx_lt in Ej.
  destruct st as [tbl w]. cbn [fst] in *. unfold on_exit_child. rewrite Hst.
  destruct (restart_admit now s) as [ok s'] eqn:Ea.
  destruct (restart_admit_fields now s) as (H1 & H2 & H3 & H4 & H5 & H6).
  rewrite Ea in *. cbn [snd] in *.
  assert (super_spec <$> <[i := s']> tbl = super_spec <$> tbl) as Hss.
  { apply (fmap_insert_same _ _ _ s); [done|]. unfold super_spec. congruence. }
  assert (<[i := s']> tbl !!! i = s') as His.
  { apply list_lookup_total_insert_eq. by eapply lookup_lt_Some. }
  assert (i < length (<[i := s']> tbl))%nat as Hlen.
  { rewrite length_insert. by eapply lookup_lt_Some. }
  destruct (negb ok); [done|]. destruct (_ =? _).
  + etrans; [apply restart_child_spec|]; cbn [fst]; [done|rewrite His; congruence|done].
  + etrans; [apply restart_children_spec|]; cbn [fst]; [done| |done].
    rewrite His. apply Forall_forall. intros k. apply collect_lt.
Qed.
End frame.

Lemma sorted_sublist (l k : list Z) : l `sublist_of` k → Sorted Z.le k → Sorted Z.le l.
Proof.
  intros Hsub Hk. apply StronglySorted_Sorted. apply Sorted_StronglySorted in Hk; [|intros ???; lia].
  induction Hsub as [|x l k Hsub IH|x l k Hsub IH]; [done| |]; apply StronglySorted_inv in Hk as [Hk Hx]; [|by apply IH].
  constructor; [by apply IH|]. apply Forall_forall. intros y Hy. rewrite Forall_forall in Hx.
  apply Hx. by eapply elem_of_sublist.
Qed.

(** ** Counting the processes a supervisor starts *)

(** A world that counts the calls of the loader. *)
Record counted (W : Type) := mk_counted { loads : nat; inner : W }.
Arguments mk_counted {W} _ _.
Arguments loads {W} _.
Arguments inner {W} _.

#[export] Instance counted_ops {W} `{!ProcOps W} : ProcOps (counted W) := {|
  load_elf path w := let '(r, w') := load_elf path (inner w) in (r, mk_counted (S (loads w)) w');
  configure pid parent caps ns w := mk_counted (loads w) (configure pid parent caps ns (inner w));
  kill_pid pid w := mk_counted (loads w) (kill_pid pid (inner w))
|}.

(** An exit as [supervisor_on_exit] sees it. *)
Record exit_event := mk_exit { ex_now : Z; ex_pid : Z; ex_status : Z }.

Section rate.
Context {W : Type} `{!ProcOps W}.
Implicit Types (st : super_table * counted W) (e : exit_event).

Definition on_exit e st := supervisor_on_exit (ex_now e) (ex_pid e) (ex_status e) st.

(** The processes that supervisor [i] starts while the exits [es] are handled
    one after the other: what each exit of one of its children adds to the
    count of loads. *)
Fixpoint starts_by (i : nat) (es : list exit_event) st : nat :=
  match es with
  | [] => O
  | e :: es' =>
      ((if decide (find_idx (has_child (ex_pid e)) st.1 = Some i)
        then loads (on_exit e st).2 - loads st.2 else 0) + starts_by i es' (on_exit e st))%nat
  end.

(** One restart starts one child, or under one-for-all every child. *)
Definition per_restart (sv : supervisor) : nat :=
  if sv_policy sv =? SUPER_ONE_FOR_ONE then 1%nat else Z.to_nat (sv_child_count sv).

(** The accounting of supervisor [k]. *)
Definition acct (tbl : super_table) (k : nat) : Z * Z :=
  (sv_restart_window_start (tbl !!! k), sv_restart_count (tbl !!! k)).

Lemma acct_insert tbl i k sv :
  (i < length tbl)%nat → acct (<[i := sv]> tbl) k =
  if decide (k = i) then (sv_restart_window_start sv, sv_restart_count sv) else acct tbl k.
Proof.
  intros Hi. unfold acct. destruct (decide (k = i)) as [->|Hne].
  - by rewrite list_lookup_total_insert_eq.
  - by rewrite list_lookup_total_insert_ne.
Qed.

(** One restart: the accounting stays, and a used child is loaded once. *)
Lemma restart_child_count i j st :
  (i < length st.1)%nat →
  (∀ k, acct (supervisor_restart_child i j st).1 k = acct st.1 k) ∧
  loads (supervisor_restart_child i j st).2 =
  (loads st.2 + if ch_used (sv_children (st.1 !!! i) !!! j) then 1 else 0)%nat.
Proof.
  destruct st as [tbl w]. intros Hi. cbn [fst] in Hi. unfold supervisor_restart_child. cbn [fst snd].
  destruct (ch_used _); cbn [negb]; [|split; [done|cbn; lia]].
  cbn [load_elf counted_ops]. destruct (load_elf _ (inner w)) as [[pid|] w']; cbn [fst snd configure counted_ops loads];
    (split; [|lia]); [|done]. intros k. rewrite acct_insert by done. by destruct (decide _) as [->|].
Qed.

Lemma super_spec_used tbl tbl' i j :
  super_spec <$> tbl' = super_spec <$> tbl → (i < length tbl)%nat →
  (j < length (sv_children (tbl !!! i)))%nat →
  ch_used (sv_children (tbl' !!! i) !!! j) = ch_used (sv_children (tbl !!! i) !!! j).
Proof.
  intros H Hi Hj. destruct (super_spec_shape _ _ i H) as [Hl Hc]. specialize (Hc Hi).
  destruct (lookup_lt_is_Some_2 tbl i) as [s Hs]; [done|].
  destruct (lookup_lt_is_Some_2 tbl' i) as [s' Hs']; [lia|].
  rewrite (list_lookup_total_correct _ _ _ Hs) in *. rewrite (list_lookup_total_correct _ _ _ Hs') in *.
  destruct (lookup_lt_is_Some_2 (sv_children s) j) as [c Hcj]; [done|].
  destruct (lookup_lt_is_Some_2 (sv_children s') j) as [c' Hcj']; [lia|].
  rewrite (list_lookup_total_correct _ _ _ Hcj), (list_lookup_total_correct _ _ _ Hcj').
  apply (f_equal (.!! i)) in H. rewrite !list_lookup_fmap, Hs, Hs' in H. cbn in H.
  injection H as _ _ _ _ _ H. apply (f_equal (.!! j)) in H. rewrite !list_lookup_fmap, Hcj, Hcj' in H.
  cbn in H. injection H as _ _ _ ->. done.
Qed.

Lemma restart_children_count i js st :
  (i < length st.1)%nat →
  Forall (λ j, (j < length (sv_children (st.1 !!! i)))%nat ∧
               ch_used (sv_children (st.1 !!! i) !!! j) = true) js →
  (∀ k, acct (restart_children i js st).1 k = acct st.1 k) ∧
  loads (restart_children i js st).2 = (loads st.2 + length js)%nat.
Proof.
  unfold restart_children. revert st. induction js as [|j js IH]; intros st Hi Hf; [split; [done|cbn; lia]|].
  apply Forall_cons in Hf as [[Hj Hu] Hf]. cbn [fold_left length].
  destruct (restart_child_count i j st Hi) as [Ha Hl]. rewrite Hu in Hl.
  pose proof (restart_child_spec i j st Hi Hj) as Hspec.
  destruct (super_spec_shape _ _ i Hspec) as [Hlen Hch].
  destruct (IH (supervisor_restart_child i j st)) as [Ha' Hl']; [lia| |].
  { eapply Forall_impl; [exact Hf|]. intros k [Hk Hku]. rewrite Hch by done. split; [done|].
    by rewrite (super_spec_used st.1). }
  split; [intros k; by rewrite Ha', Ha|lia].
Qed.

Lemma kill_all_loads pids (w : counted W) : loads (kill_all pids w) = loads w.
Proof. unfold kill_all. revert w. induction pids as [|p pids IH]; intros w; [done|]. cbn. by rewrite IH. Qed.

(** The rate limit's verdict on an exit at [now]. *)
Definition admits (now : Z) (sv : supervisor) : bool := (restart_admit now sv).1.

(** An exit that supervisor [i] handles: its accounting takes the exit in, and
    when the limit admits it the supervisor starts [per_restart] processes. *)
Lemma on_exit_handled e st i :
  supers_wf st.1 → ex_status e ≠ 0 → find_idx (has_child (ex_pid e)) st.1 = Some i →
  let sv := st.1 !!! i in let sv' := (restart_admit (ex_now e) sv).2 in
  acct (on_exit e st).1 i = (sv_restart_window_start sv', sv_restart_count sv') ∧
  loads (on_exit e st).2 = (loads st.2 + if admits (ex_now e) sv then per_restart sv else 0)%nat.
Proof.
  intros Hwf Hs Hi sv sv'. subst sv sv'. unfold on_exit, supervisor_on_exit, admits.
  rewrite (proj2 (Z.eqb_neq _ _)) by done. rewrite Hi.
  pose proof Hi as Hlt%find_idx_lt. apply find_idx_lookup in Hi as (s & Hsi & Hc).
  destruct (super_lookup st.1 i Hwf) as (s' & Hs' & Hst & Hsw); [destruct Hwf; lia|].
  assert (s' = s) as -> by congruence. rewrite Hst.
  unfold has_child in Hc. apply andb_true_iff in Hc as [_ Hc]. apply existsb_exists in Hc as (c & Hin & Hc).
  apply list_elem_of_In, list_elem_of_lookup in Hin as [k Hk].
  destruct (find_idx_is_Some (λ c, ch_used c && (ch_pid c =? ex_pid e)) _ _ _ Hk Hc) as [j Hj]. rewrite Hj.
  apply find_idx_lookup in Hj as (cj & Hcj & Hused). apply andb_true_iff in Hused as [Hused _].
  destruct st as [tbl w]. cbn [fst snd] in *. unfold on_exit_child. rewrite Hst.
  destruct (restart_admit_fields (ex_now e) s) as (Hch & Hpol & _ & _ & Hcnt & _).
  destruct (restart_admit (ex_now e) s) as [ok s1]. cbn [fst snd] in *.
  assert (Hlt' : (i < length (<[i := s1]> tbl))%nat) by (by rewrite length_insert).
  assert (His : <[i := s1]> tbl !!! i = s1) by (by apply list_lookup_total_insert_eq).
  assert (Hacct : acct (<[i := s1]> tbl) i = (sv_restart_window_start s1, sv_restart_count s1))
    by (unfold acct; by rewrite His).
  destruct ok; cbn [negb]; [|by split; [|cbn; lia]]. unfold per_restart. rewrite Hpol.
  destruct (sv_policy s =? 0).
  - destruct (restart_child_count i j (<[i := s1]> tbl, w) Hlt') as [-> ->]. cbn [fst snd].
    rewrite His, Hch, (list_lookup_total_correct _ _ _ Hcj), Hused. done.
  - destruct (restart_children_count i (collect ch_used (sv_children s1))
      (<[i := s1]> tbl, kill_all (ch_pid <$> filter (λ c, ch_used c && negb (ch_pid c =? ex_pid e) = true)
        (sv_children s1)) w) Hlt') as [Ha Hl].
    { cbn [fst]. rewrite His. apply Forall_forall. intros x Hx. split; [by apply collect_lt in Hx|].
      by apply collect_holds. }
    rewrite Ha, Hl. cbn [fst snd]. rewrite kill_all_loads, length_collect, Hch. split; [done|].
    destruct Hsw as (_ & _ & _ & -> & _). lia.
Qed.

(** An exit that supervisor [i] does not handle leaves its accounting. *)
Lemma on_exit_other e st i :
  supers_wf st.1 → ex_status e = 0 ∨ find_idx (has_child (ex_pid e)) st.1 ≠ Some i →
  acct (on_exit e st).1 i = acct st.1 i ∧ (ex_status e = 0 → on_exit e st = st).
Proof.
  intros Hwf Hor. unfold on_exit, supervisor_on_exit. destruct (_ =? 0) eqn:E0; bool_hyps; [done|].
  split; [|done]. destruct Hor as [?|Hne]; [done|].
  destruct (find_idx (has_child _) st.1) as [k|] eqn:Ek; [|done].
  assert (k ≠ i) by congruence. apply find_idx_lt in Ek.
  destruct (super_lookup st.1 k Hwf) as (s & Hs & Hst & Hsw); [destruct Hwf; lia|]. rewrite Hst.
  destruct (find_idx _ (sv_children s)) as [j|] eqn:Ej; [|done].
  destruct st as [tbl w]. cbn [fst] in *. unfold on_exit_child. rewrite Hst.
  destruct (restart_admit_fields (ex_now e) s) as (Hch & _).
  destruct (restart_admit (ex_now e) s) as [ok s1]. cbn [snd] in *.
  assert (Hlt' : (k < length (<[k := s1]> tbl))%nat) by (by rewrite length_insert).
  assert (Hacct : acct (<[k := s1]> tbl) i = acct tbl i) by (rewrite acct_insert by done; by rewrite decide_False).
  destruct (negb ok); [done|]. destruct (_ =? _).
  - destruct (restart_child_count k j (<[k := s1]> tbl, w) Hlt') as [-> _]. done.
  - edestruct (restart_children_count k (collect ch_used (sv_children s1))) as [-> _]; [exact Hlt'| |done].
    cbn [fst]. rewrite list_lookup_total_insert_eq by done. apply Forall_forall. intros x Hx.
    split; [by apply collect_lt in Hx|by apply collect_holds].
Qed.

Lemma on_exit_keeps e st :
  supers_wf st.1 → supers_wf (on_exit e st).1 ∧ super_spec <$> (on_exit e st).1 = super_spec <$> st.1.
Proof.
  intros Hwf. split.
  - apply (super_step_wf st); [done|]. apply step_sv_exit.
  - by apply on_exit_spec.
Qed.

(** What supervisor [i] starts over a history of exits is [per_restart] for
    each admitted exit. *)
Lemma starts_by_admitted i es st :
  supers_wf st.1 → (i < MAX_SUPERVISORS)%nat →
  ∃ times, times `sublist_of` (ex_now <$> es) ∧
    starts_by i es st = (per_restart (st.1 !!! i) * admitted times (st.1 !!! i))%nat.
Proof.
  intros Hwf Hi. revert st Hwf. induction es as [|e es IH]; intros st Hwf; [exists []; cbn; split; [done|lia]|].
  destruct (on_exit_keeps e st Hwf) as [Hwf' Hspec]. destruct (IH _ Hwf') as (times & Hsub & Heq).
  assert (Hper : per_restart ((on_exit e st).1 !!! i) = per_restart (st.1 !!! i)).
  { destruct (super_lookup _ i Hwf Hi) as (s & Hs & -> & _). destruct (super_lookup _ i Hwf' Hi) as (s' & Hs' & -> & _).
    apply (f_equal (.!! i)) in Hspec. rewrite !list_lookup_fmap, Hs, Hs' in Hspec. cbn in Hspec.
    unfold per_restart. injection Hspec as _ _ -> -> _ _. done. }
  rewrite Hper in Heq. cbn [starts_by fmap list_fmap]. rewrite Heq.
  destruct (decide (ex_status e ≠ 0 ∧ find_idx (has_child (ex_pid e)) st.1 = Some i)) as [[H0 Hh]|Hno].
  - destruct (on_exit_handled e st i Hwf H0 Hh) as [Ha Hl]. apply pair_equal_spec in Ha as [Hw Hc].
    exists (ex_now e :: times). split; [by constructor|]. rewrite decide_True by done. cbn [admitted].
    rewrite (admitted_ext times _ _ Hw Hc), Hl. unfold admits.
    destruct (restart_admit _ _) as [[] sv']; cbn [fst snd]; lia.
  - destruct (on_exit_other e st i Hwf) as [Ha H0].
    { destruct (decide (ex_status e = 0)); [by left|right]. intros ?. by apply Hno. }
    apply pair_equal_spec in Ha as [Hw Hc]. exists times. split; [by constructor|].
    rewrite (admitted_ext times _ _ Hw Hc). case_decide; [|done]. rewrite H0; [lia|].
    destruct (decide (ex_status e = 0)); [done|]. exfalso. by apply Hno.
Qed.
End rate.

(** ** Main theorems *)

(** In every reachable state the child counter of each supervisor is the number
    of its used child slots, and its policy is one of the two policies. *)
Theorem super_reachable_wf {W} `{!ProcOps W} (w : W) st :
  rtc super_step (super_boot, w) st → supers_wf st.1.
Proof.
  intros Hr. apply (rtc_invariant super_step (λ s, supers_wf s.1) (super_boot, w)); [|done|apply super_boot_wf].
  intros a b. apply super_step_wf.
Qed.


(** The exit of a process never alters what is configured: after
    [supervisor_on_exit] every supervisor keeps its owner, policy, children,
    paths, capabilities and namespaces.  A clean exit, and the exit of a
    process that no supervisor watches, change nothing at all; and once the
    rate limit refuses, no process is started or killed. *)
Theorem on_exit_frame {W} `{!ProcOps W} now pid status (st : super_table * W) :
  supers_wf st.1 →
  let st' := supervisor_on_exit now pid status st in
  super_spec <$> st'.1 = super_spec <$> st.1 ∧
  (status = 0 ∨ find_idx (has_child pid) st.1 = None → st' = st) ∧
  (∀ i, find_idx (has_child pid) st.1 = Some i → (restart_admit now (st.1 !!! i)).1 = false →
     st'.2 = st.2).
Proof.
  intros Hwf st'. split; [by apply on_exit_spec|]. subst st'.
  unfold supervisor_on_exit. destruct (status =? 0) eqn:E0; bool_hyps; [done|].
  destruct (find_idx (has_child pid) st.1) as [i|] eqn:Ei; [|done].
  assert (i < MAX_SUPERVISORS)%nat as Hi by (apply find_idx_lt in Ei; destruct Hwf; lia).
  destruct (super_lookup st.1 i Hwf Hi) as (s & Hs & Hst & Hsw). rewrite Hst.
  split; [naive_solver|].
  - intros i' [= <-] Hno. rewrite Hst in Hno. destruct (find_idx _ (sv_children s)) as [j|]; [|done].
    destruct st as [tbl w]. cbn [fst] in *. unfold on_exit_child. rewrite Hst.
    destruct (restart_admit now s) as [ok s']. cbn in Hno. by subst ok.
Qed.

(** The program a child slot names: the given path followed by the rest of the
    path that the slot held before.  The copy writes no terminator, so a slot
    that was used for a longer path does not name the program asked for. *)
Theorem add_child_path sid path ns caps tbl i tbl' :
  supers_wf tbl → 0 ≤ sid → supervisor_add_child sid path ns caps tbl = (Z.of_nat i, tbl') →
  ∃ c c', sv_children (tbl !!! Z.to_nat sid) !! i = Some c ∧
    sv_children (tbl' !!! Z.to_nat sid) !! i = Some c' ∧ ch_used c = false ∧ ch_used c' = true ∧
    ch_pid c' = 0 ∧ ch_caps c' = caps ∧ ch_ns_id c' = ns ∧
    let s := take (SUPER_PATH_MAX - 1) (c_str path) in
    c_str (ch_elf_path c') =
      s ++ c_str (drop (length s) (take (SUPER_PATH_MAX - 1) (ch_elf_path c))).
Proof.
  intros Hwf Hsid. unfold supervisor_add_child, super_invalid.
  destruct (_ <=? sid) eqn:E; bool_hyps; [intros [= ? _]; lia|]. cbn [orb].
  destruct (super_lookup tbl (Z.to_nat sid) Hwf) as (s & Hs & -> & Hsw); [lia|].
  destruct (negb _); [intros [= ? _]; lia|].
  destruct (find_idx _ (sv_children s)) as [j|] eqn:Ef; [|intros [= ? _]; lia].
  intros [= ->%Nat2Z.inj <-]. apply find_idx_lookup in Ef as (c & Hj & Hc). bool_hyps.
  rewrite (list_lookup_total_correct _ _ _ Hj).
  rewrite list_lookup_total_insert_eq by by eapply lookup_lt_Some.
  eexists c, _. split; [done|]. split; [apply list_lookup_insert_eq; by eapply lookup_lt_Some|].
  do 5 (split; [done|]). cbn [field_upd ch_elf_path]. apply c_str_raw_copy.
  destruct Hsw as (_ & _ & H3 & _). pose proof (Forall_lookup_1 _ _ _ _ H3 Hj) as Hl.
  unfold child_wf in Hl. lia.
Qed.

(** ** Witnesses

    A world that records what the supervisor does: every path loads as the
    next pid. *)

Inductive sv_event := EvLoad (path : list Z) | EvConfigure (pid parent caps ns : Z) | EvKill (pid : Z).

Definition sv_world : Type := Z * list sv_event.
#[export] Instance sv_world_ops : ProcOps sv_world := {|
  load_elf path w := (Some w.1, (w.1 + 1, w.2 ++ [EvLoad (c_str path)]));
  configure pid parent caps ns w := (w.1, w.2 ++ [EvConfigure pid parent caps ns]);
  kill_pid pid w := (w.1, w.2 ++ [EvKill pid])
|}.

Definition sv_run (w : sv_world) : super_table * sv_world :=
  let t1 := (supervisor_create 5 [115] super_boot).2 in
  let t2 := (supervisor_add_child 0 [47; 97; 98; 99] 1 3 t1).2 in
  (supervisor_start 0 (t2, w)).2.
Definition sv_st : super_table * sv_world := Eval vm_compute in sv_run (100, []).

Lemma sv_reachable : rtc super_step (super_boot, (100, [])) sv_st.
Proof.
  replace sv_st with (sv_run (100, [])) by (vm_compute; reflexivity). unfold sv_run.
  eapply rtc_l; [apply (step_sv_create 5 [115])|].
  eapply rtc_l; [apply (step_sv_add 0 [47; 97; 98; 99] 1 3); lia|].
  apply rtc_once. apply step_sv_start. lia.
Qed.

Lemma super_reachable_wf_witness : supers_wf sv_st.1.
Proof. apply (super_reachable_wf (100, [])), sv_reachable. Defined.

Lemma sv_st_wf : supers_wf sv_st.1.
Proof. split; [reflexivity|]. repeat constructor; vm_compute; congruence. Qed.

(** The child of [sv_st] has pid 100, and each restart gives it the next pid.
    Ten restarts within 50 ticks do happen: five at tick 50, in the window
    that opened at boot, and five at tick 51, in the next one. *)
Definition sv_counted : super_table * counted sv_world := (sv_st.1, mk_counted 0%nat sv_st.2).
Definition sv_crashes : list exit_event :=
  imap (λ k t, mk_exit t (100 + Z.of_nat k) 1) (replicate 5 50 ++ replicate 5 51).


Lemma on_exit_frame_witness :
  supervisor_on_exit 7 999 1 sv_st = sv_st ∧ supervisor_on_exit 7 100 0 sv_st = sv_st.
Proof.
  split; apply (on_exit_frame (W:=sv_world)); [apply sv_st_wf|by right|apply sv_st_wf|by left].
Defined.

(** Stop the supervisor, create one in its place and add the child [/z]: it
    runs [/zbc]. *)
Definition sv_tbl_stopped : super_table := Eval vm_compute in
  (supervisor_create 6 [116] (supervisor_stop 0 5 sv_st).2.1).2.

Lemma sv_tbl_stopped_wf : supers_wf sv_tbl_stopped.
Proof. split; [reflexivity|]. repeat constructor; vm_compute; congruence. Qed.

Lemma add_child_path_witness :
  ∃ c', sv_children ((supervisor_add_child 0 [47; 122; 0] 1 3 sv_tbl_stopped).2 !!! O) !! O = Some c' ∧
    c_str (ch_elf_path c') = [47; 122; 98; 99].
Proof.
  destruct (add_child_path 0 [47; 122; 0] 1 3 sv_tbl_stopped O
    (supervisor_add_child 0 [47; 122; 0] 1 3 sv_tbl_stopped).2 sv_tbl_stopped_wf) as
    (c & c' & Hc & Hc' & _ & _ & _ & _ & _ & Hp); [lia|reflexivity|].
  exists c'. split; [exact Hc'|]. rewrite Hp. vm_compute in Hc. injection Hc as <-. reflexivity.
Defined.
