(* ===== verification/Handles.v ===== *)
(** * Handles: eventfd, epoll and uring tables

    Models [src/kernel/src/ipc/eventfd.c], [epoll.c] and [uring.c] with their
    headers: three tables of reference-counted kernel objects behind file
    descriptors.  What the three share is the class [RefCounted]: a slot is
    taken with one reference, [ref] adds one, [close] drops one and frees the
    slot with the last; the laws are proved for each table, and the theorem on
    balanced references is proved from the laws alone. *)

From stdpp Require Import gmap.
From S2P Require Import Prelude KUtil.

Abbreviation MAX_EVENTFDS := 16%nat (only parsing).
Abbreviation MAX_EPOLL_INSTANCES := 8%nat (only parsing).
Abbreviation EPOLL_MAX_FDS := 64%nat (only parsing).
Abbreviation MAX_URING_INSTANCES := 4%nat (only parsing).
Abbreviation URING_MAX_ENTRIES := 32 (only parsing).
Abbreviation EFD_SEMAPHORE := 2 (only parsing).
Abbreviation EPOLL_CTL_ADD := 1 (only parsing).
Abbreviation EPOLL_CTL_DEL := 3 (only parsing).
Abbreviation EPOLL_CTL_MOD := 2 (only parsing).

(** ** Reference-counted slots *)

(** [used] and [refs] of a slot, and the bodies of the [ref] and [close]
    operations on a used slot. *)
Class RefCounted (A : Type) := {
  rc_used : A → bool;
  rc_refs : A → Z;
  rc_ref : A → A;
  rc_close : A → A;
  rc_ref_law x : rc_used x = true → rc_refs x < 2 ^ 32 - 1 → 0 ≤ rc_refs x →
    rc_used (rc_ref x) = true ∧ rc_refs (rc_ref x) = rc_refs x + 1;
  rc_close_law x : rc_used x = true → 0 < rc_refs x →
    rc_refs (rc_close x) = rc_refs x - 1 ∧
    rc_used (rc_close x) = negb (rc_refs x =? 1)
}.

(** [idx < 0 || idx >= n || !tbl[idx].used]. *)
Definition bad_handle {A} (used : A → bool) `{!Inhabited A} (n : nat) (idx : Z) (tbl : list A) : bool :=
  (idx <? 0) || (Z.of_nat n <=? idx) || negb (used (tbl !!! Z.to_nat idx)).

(** ** eventfd *)

Record eventfd := mk_eventfd { efd_counter : Z; efd_refs : Z; efd_flags : Z; efd_used : bool }.
#[export] Instance eventfd_eta : Eta eventfd := λ e,
  mk_eventfd (efd_counter e) (efd_refs e) (efd_flags e) (efd_used e).
#[export] Instance eventfd_inhabited : Inhabited eventfd := populate (mk_eventfd 0 0 0 false).

Definition eventfd_alloc (flags : Z) (tbl : list eventfd) : Z * list eventfd :=
  match find_idx (λ e, negb (efd_used e)) tbl with
  | None => (-1, tbl)
  | Some i =>
      (Z.of_nat i,
       <[i := (tbl !!! i) <| efd_used := true |> <| efd_counter := 0 |> <| efd_refs := 1 |>
                          <| efd_flags := flags |>]> tbl)
  end.

(** The critical section of [eventfd_read]: the value and the new state when the
    counter is positive. *)
Definition eventfd_take (e : eventfd) : option (Z * eventfd) :=
  if 0 <? efd_counter e then
    if negb (Z.land (efd_flags e) EFD_SEMAPHORE =? 0)
    then Some (1, e <| efd_counter := efd_counter e - 1 |>)
    else Some (efd_counter e, e <| efd_counter := 0 |>)
  else None.

(** The loop of [eventfd_read].  Each element of [sched] is what other threads
    do to the table during one [sched_yield]; [None] when the caller is still
    waiting at the end of it. *)
Fixpoint eventfd_read_loop (sched : list (list eventfd → list eventfd)) (idx : nat) (nonblock : bool)
    (tbl : list eventfd) : option (Z * option Z) * list eventfd :=
  match eventfd_take (tbl !!! idx) with
  | Some (v, e) => (Some (8, Some v), <[idx := e]> tbl)
  | None =>
      if nonblock then (Some (-1, None), tbl)
      else if negb (efd_used (tbl !!! idx)) then (Some (-1, None), tbl)
      else match sched with
           | [] => (None, tbl)
           | f :: sched' => eventfd_read_loop sched' idx nonblock (f tbl)
           end
  end.

Definition eventfd_read (sched : list (list eventfd → list eventfd)) (idx : Z) (nonblock : bool)
    (tbl : list eventfd) : option (Z * option Z) * list eventfd :=
  if bad_handle efd_used MAX_EVENTFDS idx tbl then (Some (-1, None), tbl)
  else eventfd_read_loop sched (Z.to_nat idx) nonblock tbl.

Definition eventfd_write (idx value : Z) (tbl : list eventfd) : Z * list eventfd :=
  if bad_handle efd_used MAX_EVENTFDS idx tbl then (-1, tbl)
  else
    let e := tbl !!! Z.to_nat idx in
    (8, <[Z.to_nat idx := e <| efd_counter := u64 (efd_counter e + value) |>]> tbl).

Definition eventfd_close_slot (e : eventfd) : eventfd :=
  let e := if 0 <? efd_refs e then e <| efd_refs := efd_refs e - 1 |> else e in
  if efd_refs e =? 0 then e <| efd_used := false |> <| efd_counter := 0 |> else e.

Definition eventfd_close (idx : Z) (tbl : list eventfd) : list eventfd :=
  if bad_handle efd_used MAX_EVENTFDS idx tbl then tbl
  else <[Z.to_nat idx := eventfd_close_slot (tbl !!! Z.to_nat idx)]> tbl.

Definition eventfd_ref_slot (e : eventfd) : eventfd := e <| efd_refs := u32 (efd_refs e + 1) |>.

Definition eventfd_ref (idx : Z) (tbl : list eventfd) : list eventfd :=
  if bad_handle efd_used MAX_EVENTFDS idx tbl then tbl
  else <[Z.to_nat idx := eventfd_ref_slot (tbl !!! Z.to_nat idx)]> tbl.

(** A pointer into the table is its index. *)
Definition eventfd_get (idx : Z) (tbl : list eventfd) : option nat :=
  if bad_handle efd_used MAX_EVENTFDS idx tbl then None else Some (Z.to_nat idx).

Definition eventfd_index (p : nat) (tbl : list eventfd) : Z :=
  if (Z.of_nat p <? Z.of_nat MAX_EVENTFDS) && efd_used (tbl !!! p) then Z.of_nat p else -1.

Definition eventfd_readable (idx : Z) (tbl : list eventfd) : bool :=
  if bad_handle efd_used MAX_EVENTFDS idx tbl then false
  else 0 <? efd_counter (tbl !!! Z.to_nat idx).

(** ** epoll *)

Record epoll_interest := mk_interest { in_fd : Z; in_events : Z; in_data : Z }.
#[export] Instance epoll_interest_eta : Eta epoll_interest := λ e,
  mk_interest (in_fd e) (in_events e) (in_data e).
#[export] Instance epoll_interest_inhabited : Inhabited epoll_interest := populate (mk_interest 0 0 0).

Record epoll_instance := mk_epoll {
  ep_used : bool; ep_refs : Z; ep_interests : list epoll_interest; ep_interest_count : Z
}.
#[export] Instance epoll_instance_eta : Eta epoll_instance := λ e,
  mk_epoll (ep_used e) (ep_refs e) (ep_interests e) (ep_interest_count e).
#[export] Instance epoll_instance_inhabited : Inhabited epoll_instance :=
  populate (mk_epoll false 0 (replicate EPOLL_MAX_FDS inhabitant) 0).

Definition epoll_create_instance (tbl : list epoll_instance) : Z * list epoll_instance :=
  match find_idx (λ e, negb (ep_used e)) tbl with
  | None => (-1, tbl)
  | Some i =>
      let e := tbl !!! i in
      (Z.of_nat i,
       <[i := e <| ep_used := true |> <| ep_refs := 1 |> <| ep_interest_count := 0 |>
                <| ep_interests := (λ x, x <| in_fd := -1 |>) <$> ep_interests e |>]> tbl)
  end.

(** The three operations on a valid instance. *)
Definition epoll_ctl_add (fd events data : Z) (e : epoll_instance) : Z * epoll_instance :=
  match find_idx (λ x, in_fd x =? fd) (ep_interests e) with
  | Some _ => (- EEXIST, e)
  | None =>
      match find_idx (λ x, in_fd x =? -1) (ep_interests e) with
      | None => (- ENOBUFS, e)
      | Some i =>
          (0, e <| ep_interests := <[i := (ep_interests e !!! i) <| in_fd := fd |>
                      <| in_events := events |> <| in_data := data |>]> (ep_interests e) |>
                <| ep_interest_count := u32 (ep_interest_count e + 1) |>)
      end
  end.

Definition epoll_ctl_mod (fd events data : Z) (e : epoll_instance) : Z * epoll_instance :=
  match find_idx (λ x, in_fd x =? fd) (ep_interests e) with
  | None => (- ENOENT, e)
  | Some i =>
      (0, e <| ep_interests := <[i := (ep_interests e !!! i)
                  <| in_events := events |> <| in_data := data |>]> (ep_interests e) |>)
  end.

Definition epoll_ctl_del (fd : Z) (e : epoll_instance) : Z * epoll_instance :=
  match find_idx (λ x, in_fd x =? fd) (ep_interests e) with
  | None => (- ENOENT, e)
  | Some i =>
      (0, e <| ep_interests := <[i := (ep_interests e !!! i) <| in_fd := -1 |>
                  <| in_events := 0 |> <| in_data := 0 |>]> (ep_interests e) |>
            <| ep_interest_count := if 0 <? ep_interest_count e then ep_interest_count e - 1
                                    else ep_interest_count e |>)
  end.

Definition epoll_ctl (idx op fd events data : Z) (tbl : list epoll_instance)
    : Z * list epoll_instance :=
  if bad_handle ep_used MAX_EPOLL_INSTANCES idx tbl then (- EINVAL, tbl)
  else
    let i := Z.to_nat idx in
    let e := tbl !!! i in
    if op =? EPOLL_CTL_ADD then
      let '(r, e') := epoll_ctl_add fd events data e in (r, <[i := e']> tbl)
    else if op =? EPOLL_CTL_MOD then
      let '(r, e') := epoll_ctl_mod fd events data e in (r, <[i := e']> tbl)
    else if op =? EPOLL_CTL_DEL then
      let '(r, e') := epoll_ctl_del fd e in (r, <[i := e']> tbl)
    else (- EINVAL, tbl).

Definition epoll_close_slot (e : epoll_instance) : epoll_instance :=
  let e := if 0 <? ep_refs e then e <| ep_refs := ep_refs e - 1 |> else e in
  if ep_refs e =? 0 then e <| ep_used := false |> <| ep_interest_count := 0 |> else e.

Definition epoll_close (idx : Z) (tbl : list epoll_instance) : list epoll_instance :=
  if bad_handle ep_used MAX_EPOLL_INSTANCES idx tbl then tbl
  else <[Z.to_nat idx := epoll_close_slot (tbl !!! Z.to_nat idx)]> tbl.

Definition epoll_ref_slot (e : epoll_instance) : epoll_instance :=
  e <| ep_refs := u32 (ep_refs e + 1) |>.

Definition epoll_ref (idx : Z) (tbl : list epoll_instance) : list epoll_instance :=
  if bad_handle ep_used MAX_EPOLL_INSTANCES idx tbl then tbl
  else <[Z.to_nat idx := epoll_ref_slot (tbl !!! Z.to_nat idx)]> tbl.

Definition epoll_get (idx : Z) (tbl : list epoll_instance) : option nat :=
  if bad_handle ep_used MAX_EPOLL_INSTANCES idx tbl then None else Some (Z.to_nat idx).

Definition epoll_index (p : option nat) : Z :=
  match p with
  | None => -1
  | Some i => if Z.of_nat i <? Z.of_nat MAX_EPOLL_INSTANCES then Z.of_nat i else -1
  end.

(** ** uring *)

Record uring_instance := mk_uring { ur_used : bool; ur_refs : Z; ur_max_entries : Z }.
#[export] Instance uring_instance_eta : Eta uring_instance := λ u,
  mk_uring (ur_used u) (ur_refs u) (ur_max_entries u).
#[export] Instance uring_instance_inhabited : Inhabited uring_instance := populate (mk_uring false 0 0).

Definition uring_create (entries : Z) (tbl : list uring_instance) : Z * list uring_instance :=
  let entries := if (entries =? 0) || (URING_MAX_ENTRIES <? entries)
                 then URING_MAX_ENTRIES else entries in
  match find_idx (λ u, negb (ur_used u)) tbl with
  | None => (-1, tbl)
  | Some i =>
      (Z.of_nat i,
       <[i := (tbl !!! i) <| ur_used := true |> <| ur_refs := 1 |> <| ur_max_entries := entries |>]> tbl)
  end.

Definition uring_close_slot (u : uring_instance) : uring_instance :=
  let u := if 0 <? ur_refs u then u <| ur_refs := ur_refs u - 1 |> else u in
  if ur_refs u =? 0 then u <| ur_used := false |> else u.

Definition uring_close (idx : Z) (tbl : list uring_instance) : list uring_instance :=
  if bad_handle ur_used MAX_URING_INSTANCES idx tbl then tbl
  else <[Z.to_nat idx := uring_close_slot (tbl !!! Z.to_nat idx)]> tbl.

Definition uring_ref_slot (u : uring_instance) : uring_instance := u <| ur_refs := u32 (ur_refs u + 1) |>.

Definition uring_ref (idx : Z) (tbl : list uring_instance) : list uring_instance :=
  if bad_handle ur_used MAX_URING_INSTANCES idx tbl then tbl
  else <[Z.to_nat idx := uring_ref_slot (tbl !!! Z.to_nat idx)]> tbl.

Definition uring_get (idx : Z) (tbl : list uring_instance) : option nat :=
  if bad_handle ur_used MAX_URING_INSTANCES idx tbl then None else Some (Z.to_nat idx).

Definition uring_index (p : option nat) : Z :=
  match p with
  | None => -1
  | Some i => if Z.of_nat i <? Z.of_nat MAX_URING_INSTANCES then Z.of_nat i else -1
  end.

(** ** Invariants and specifications *)

#[export] Program Instance eventfd_refcounted : RefCounted eventfd := {|
  rc_used := efd_used; rc_refs := efd_refs; rc_ref := eventfd_ref_slot; rc_close := eventfd_close_slot
|}.
Next Obligation. intros x Hu Hlt H0. split; [done|]. cbn. apply u32_id. lia. Qed.
Next Obligation.
  intros x Hu H0. unfold eventfd_close_slot. destruct (0 <? efd_refs x) eqn:E; bool_hyps; [|lia].
  change (efd_refs (x <| efd_refs := efd_refs x - 1 |>)) with (efd_refs x - 1).
  destruct (efd_refs x - 1 =? 0) eqn:E1, (efd_refs x =? 1) eqn:E2; bool_hyps; cbn; (done || lia).
Qed.

#[export] Program Instance epoll_refcounted : RefCounted epoll_instance := {|
  rc_used := ep_used; rc_refs := ep_refs; rc_ref := epoll_ref_slot; rc_close := epoll_close_slot
|}.
Next Obligation. intros x Hu Hlt H0. split; [done|]. cbn. apply u32_id. lia. Qed.
Next Obligation.
  intros x Hu H0. unfold epoll_close_slot. destruct (0 <? ep_refs x) eqn:E; bool_hyps; [|lia].
  change (ep_refs (x <| ep_refs := ep_refs x - 1 |>)) with (ep_refs x - 1).
  destruct (ep_refs x - 1 =? 0) eqn:E1, (ep_refs x =? 1) eqn:E2; bool_hyps; cbn; (done || lia).
Qed.

#[export] Program Instance uring_refcounted : RefCounted uring_instance := {|
  rc_used := ur_used; rc_refs := ur_refs; rc_ref := uring_ref_slot; rc_close := uring_close_slot
|}.
Next Obligation. intros x Hu Hlt H0. split; [done|]. cbn. apply u32_id. lia. Qed.
Next Obligation.
  intros x Hu H0. unfold uring_close_slot. destruct (0 <? ur_refs x) eqn:E; bool_hyps; [|lia].
  change (ur_refs (x <| ur_refs := ur_refs x - 1 |>)) with (ur_refs x - 1).
  destruct (ur_refs x - 1 =? 0) eqn:E1, (ur_refs x =? 1) eqn:E2; bool_hyps; cbn; (done || lia).
Qed.

(** A sequence of [ref] (true) and [close] (false) calls on one slot; a freed
    slot ignores them. *)
Fixpoint rc_run {A} `{!RefCounted A} (ops : list bool) (x : A) : A :=
  match ops with
  | [] => x
  | o :: ops' =>
      rc_run ops' (if rc_used x then (if o then rc_ref x else rc_close x) else x)
  end.

(** References held after a sequence: the slot is gone at the first zero. *)
Fixpoint rc_balance (ops : list bool) (n : Z) : Z :=
  match ops with
  | [] => n
  | o :: ops' => if n =? 0 then 0 else rc_balance ops' (if o then n + 1 else n - 1)
  end.

Lemma rc_run_spec {A} `{!RefCounted A} ops (x : A) :
  rc_used x = true → 0 < rc_refs x → rc_refs x + Z.of_nat (length ops) < 2 ^ 32 →
  rc_used (rc_run ops x) = negb (rc_balance ops (rc_refs x) =? 0) ∧
  rc_refs (rc_run ops x) = rc_balance ops (rc_refs x).
Proof.
  revert x. induction ops as [|o ops IH]; intros x Hu H0 Hlt.
  - cbn. destruct (rc_refs x =? 0) eqn:E; bool_hyps; [lia|done].
  - cbn [rc_run rc_balance length] in *. rewrite Hu. destruct (rc_refs x =? 0) eqn:E; bool_hyps; [lia|].
    destruct o.
    + destruct (rc_ref_law x) as [Hu' Hr']; [done|lia|lia|]. rewrite <-Hr'. apply IH; [done|lia|lia].
    + destruct (rc_close_law x) as [Hr' Hu']; [done|done|]. rewrite <-Hr'.
      destruct (rc_refs x =? 1) eqn:E1; bool_hyps; cbn in Hu'.
      * assert (rc_refs (rc_close x) = 0) as Hz by lia. rewrite Hz. clear IH.
        assert (∀ y : A, rc_used y = false → rc_run ops y = y) as Hdead.
        { intros y Hy. clear -Hy. induction ops as [|? ops IH]; [done|]. cbn. by rewrite Hy. }
        assert (rc_balance ops 0 = 0) as -> by by destruct ops. by rewrite Hdead.
      * apply IH; [done|lia|lia].
Qed.

(** *** eventfd: what is read was written *)

Inductive efd_op := EfdWrite (value : Z) | EfdRead.

(** One call on the slot: the state and the value read (0 when none). *)
Definition efd_exec (o : efd_op) (e : eventfd) : Z * eventfd :=
  match o with
  | EfdWrite v => (0, e <| efd_counter := u64 (efd_counter e + v) |>)
  | EfdRead => match eventfd_take e with Some (v, e') => (v, e') | None => (0, e) end
  end.

Fixpoint efd_run (ops : list efd_op) (e : eventfd) : Z * eventfd :=
  match ops with
  | [] => (0, e)
  | o :: ops' => let '(v, e1) := efd_exec o e in let '(s, e2) := efd_run ops' e1 in (v + s, e2)
  end.

Definition efd_written (ops : list efd_op) : Z :=
  foldr (λ o s, match o with EfdWrite v => v + s | EfdRead => s end) 0 ops.

Lemma efd_exec_sum o e :
  0 ≤ efd_counter e < 2 ^ 64 →
  let '(v, e') := efd_exec o e in
  (v + efd_counter e') mod 2 ^ 64 =
    (efd_counter e + (match o with EfdWrite w => w | EfdRead => 0 end)) mod 2 ^ 64 ∧
  0 ≤ efd_counter e' < 2 ^ 64.
Proof.
  intros Hc. destruct o as [w|]; cbn [efd_exec].
  - cbn [field_upd efd_counter]. split; [|apply u64_range]. unfold u64. by rewrite Z.add_0_l, Zmod_mod.
  - unfold eventfd_take. destruct (0 <? efd_counter e) eqn:E; bool_hyps; [|split; [f_equal; lia|lia]].
    destruct (negb _); cbn; (split; [f_equal; lia|lia]).
Qed.

(** *** epoll: a finite map from descriptors to interests *)

Definition epoll_view (e : epoll_instance) : gmap Z (Z * Z) :=
  list_to_map ((λ x, (in_fd x, (in_events x, in_data x))) <$>
                 filter (λ x, in_fd x ≠ -1) (ep_interests e)).

Definition epoll_wf (e : epoll_instance) : Prop :=
  length (ep_interests e) = EPOLL_MAX_FDS ∧
  ep_interest_count e = Z.of_nat (countb (λ x, negb (in_fd x =? -1)) (ep_interests e)) ∧
  ∀ i j x y, ep_interests e !! i = Some x → ep_interests e !! j = Some y →
    in_fd x ≠ -1 → in_fd x = in_fd y → i = j.

(** The keys of the view are the descriptors of the used slots. *)
Lemma epoll_view_lookup e fd v :
  epoll_wf e →
  epoll_view e !! fd = Some v ↔
  fd ≠ -1 ∧ ∃ i x, ep_interests e !! i = Some x ∧ in_fd x = fd ∧ v = (in_events x, in_data x).
Proof.
  intros (_ & _ & Hu). unfold epoll_view. rewrite <-elem_of_list_to_map.
  - rewrite list_elem_of_fmap. split.
    + intros (x & [= -> ->] & [Hne (i & Hi)%list_elem_of_lookup]%list_elem_of_filter).
      split; [done|]. by exists i, x.
    + intros (Hne & i & x & Hi & <- & ->). exists x. split; [done|].
      apply list_elem_of_filter. split; [done|]. by eapply list_elem_of_lookup_2.
  - rewrite <-list_fmap_compose. revert Hu. generalize (ep_interests e) as l. intros l.
    induction l as [|x l IH]; intros Hu; [constructor|].
    assert (NoDup ((fst ∘ (λ x0, (in_fd x0, (in_events x0, in_data x0)))) <$>
      filter (λ x0, in_fd x0 ≠ -1) l)) as IH'.
    { apply IH. intros i j a b Ha Hb Hne Heq. specialize (Hu (S i) (S j) a b Ha Hb Hne Heq). lia. }
    rewrite filter_cons. case_decide as Hx; [|done]. cbn. constructor; [|done].
    rewrite list_elem_of_fmap. intros (y & Heq & [_ (j & Hj)%list_elem_of_lookup]%list_elem_of_filter).
    cbn in Heq. specialize (Hu O (S j) x y eq_refl Hj Hx Heq). lia.
Qed.

Lemma epoll_view_none e fd :
  epoll_wf e → fd ≠ -1 →
  epoll_view e !! fd = None ↔ find_idx (λ x, in_fd x =? fd) (ep_interests e) = None.
Proof.
  intros Hwf Hne. rewrite find_idx_None, eq_None_not_Some. split.
  - intros H i x Hi. apply Z.eqb_neq. intros Heq. apply H. eexists.
    apply epoll_view_lookup; [done|]. split; [done|]. by exists i, x.
  - intros H [v (_ & i & x & Hi & Hfd & _)%epoll_view_lookup]; [|done].
    specialize (H i x Hi). rewrite Hfd, Z.eqb_refl in H. done.
Qed.

(** Two well-formed instances whose slots correspond have corresponding views. *)
Lemma epoll_view_insert e e' i x x' :
  epoll_wf e → epoll_wf e' → ep_interests e !! i = Some x →
  ep_interests e' = <[i := x']> (ep_interests e) → ∀ fd,
  epoll_view e' !! fd =
    if decide (fd = in_fd x' ∧ fd ≠ -1) then Some (in_events x', in_data x')
    else if decide (in_fd x = fd) then None
    else epoll_view e !! fd.
Proof.
  intros Hwf Hwf' Hi Heq fd. pose proof (lookup_lt_Some _ _ _ Hi) as Hlt.
  apply option_eq. intros v. rewrite epoll_view_lookup, Heq by done.
  case_decide as H1; [|case_decide as H2].
  - destruct H1 as [-> Hne]. split.
    + intros (_ & j & y & Hj & Hfd & ->). pose proof Hwf' as (_ & _ & Hu).
      rewrite Heq in Hu.
      assert (j = i) as -> by (eapply Hu; [exact Hj|by apply list_lookup_insert_eq|congruence|done]).
      rewrite list_lookup_insert_eq in Hj by done. by injection Hj as <-.
    + intros [= <-]. split; [done|]. exists i, x'. by rewrite list_lookup_insert_eq.
  - split; [|done]. intros (Hne & j & y & Hj & Hfdy & ->).
    apply list_lookup_insert_cases in Hj as [(-> & -> & _)|(Hji & Hj)]; [naive_solver|].
    destruct Hwf as (_ & _ & Hu). exfalso. apply Hji. eapply (Hu j i y x); congruence.
  - rewrite epoll_view_lookup by done. split; intros (Hne & j & y & Hj & Hfdy & ->); (split; [done|]).
    + apply list_lookup_insert_cases in Hj as [(-> & -> & _)|(Hji & Hj)]; [naive_solver|by exists j, y].
    + exists j, y. destruct (decide (j = i)) as [->|]; [naive_solver|]. by rewrite list_lookup_insert_ne.
Qed.

Definition is_live (x : epoll_interest) : bool := negb (in_fd x =? -1).

Lemma is_live_true x : is_live x = true ↔ in_fd x ≠ -1.
Proof. unfold is_live. by rewrite negb_true_iff, Z.eqb_neq. Qed.

(** Every slot taken: the count is the capacity. *)
Lemma epoll_full e :
  epoll_wf e → find_idx (λ x, in_fd x =? -1) (ep_interests e) = None ↔
  ep_interest_count e = Z.of_nat EPOLL_MAX_FDS.
Proof.
  intros (Hl & -> & _). rewrite find_idx_None. change (λ x, negb (in_fd x =? -1)) with is_live.
  rewrite <-Hl. generalize (ep_interests e) as l. intros l. split.
  - intros H. f_equal. induction l as [|x l IH]; [done|]. rewrite countb_cons.
    rewrite IH by (intros i; apply (H (S i))). specialize (H O x eq_refl). unfold is_live. by rewrite H.
  - intros Heq. apply Nat2Z.inj in Heq. revert Heq. induction l as [|x l IH]; intros Heq [|i] y Hi; try done.
    + cbn in Hi. injection Hi as <-. rewrite countb_cons in Heq. unfold is_live at 1 in Heq.
      destruct (in_fd x =? -1); [|done]. pose proof (countb_le is_live l). cbn in Heq. lia.
    + apply (IH ltac:(rewrite countb_cons in Heq; destruct (is_live x); cbn in Heq;
        pose proof (countb_le is_live l); lia) i). exact Hi.
Qed.

Lemma epoll_wf_insert e e' i x x' :
  epoll_wf e → ep_interests e !! i = Some x → ep_interests e' = <[i := x']> (ep_interests e) →
  ep_interest_count e' + b2z (is_live x) = ep_interest_count e + b2z (is_live x') →
  (∀ j y, j ≠ i → ep_interests e !! j = Some y → in_fd y = in_fd x' → in_fd x' = -1) →
  epoll_wf e'.
Proof.
  intros (Hl & Hc & Hu) Hi Heq Hcnt Hfresh.
  change (λ x, negb (in_fd x =? -1)) with is_live in Hc.
  pose proof (countb_insert is_live _ _ _ x' Hi) as Hci. unfold epoll_wf. rewrite Heq.
  change (λ x, negb (in_fd x =? -1)) with is_live. split_and!.
  - by rewrite length_insert.
  - unfold b2z in Hcnt. destruct (is_live x), (is_live x'); lia.
  - intros j k a b [(-> & -> & _)|(Hj & Ha)]%list_lookup_insert_cases
      [(-> & -> & _)|(Hk & Hb)]%list_lookup_insert_cases Hne Hab; [done|..].
    + destruct Hne. by apply (Hfresh k b).
    + destruct Hne. rewrite Hab. apply (Hfresh j a); done.
    + by apply (Hu j k a b).
Qed.

Lemma find_fd e fd i :
  find_idx (λ x, in_fd x =? fd) (ep_interests e) = Some i →
  ∃ x, ep_interests e !! i = Some x ∧ ep_interests e !!! i = x ∧ in_fd x = fd.
Proof.
  intros (x & Hi & Hx)%find_idx_lookup. bool_hyps. exists x.
  split_and!; [done|by apply list_lookup_total_correct|done].
Qed.

Lemma epoll_count_range e : epoll_wf e → 0 ≤ ep_interest_count e ≤ Z.of_nat EPOLL_MAX_FDS.
Proof. intros (Hl & -> & _). pose proof (countb_le (λ x, negb (in_fd x =? -1)) (ep_interests e)). lia. Qed.

Lemma epoll_add_spec fd events data e :
  epoll_wf e → fd ≠ -1 →
  let '(r, e') := epoll_ctl_add fd events data e in
  match epoll_view e !! fd with
  | Some _ => r = - EEXIST ∧ e' = e
  | None =>
      if decide (ep_interest_count e = Z.of_nat EPOLL_MAX_FDS) then r = - ENOBUFS ∧ e' = e
      else r = 0 ∧ epoll_wf e' ∧ epoll_view e' = <[fd := (events, data)]> (epoll_view e)
  end.
Proof.
  intros Hwf Hne. unfold epoll_ctl_add. pose proof (epoll_view_none e fd Hwf Hne) as Hn.
  pose proof (epoll_full e Hwf) as Hfull. pose proof (epoll_count_range e Hwf).
  destruct (find_idx (λ x, in_fd x =? fd) (ep_interests e)) as [k|] eqn:E.
  { destruct (epoll_view e !! fd); [done|]. by destruct Hn as [Hn _]; discriminate Hn. }
  rewrite (proj2 Hn eq_refl). destruct (find_idx (λ x, in_fd x =? -1) _) as [i|] eqn:E2;
    [|by rewrite decide_True by by apply Hfull].
  rewrite decide_False by (intros Hc; apply Hfull in Hc; done).
  destruct (find_fd e (-1) i E2) as (x & Hi & -> & Hx).
  set (e' := e <| ep_interests := _ |> <| ep_interest_count := _ |>).
  set (x' := x <| in_fd := fd |> <| in_events := events |> <| in_data := data |>) in *.
  assert (epoll_wf e') as Hwf'.
  { apply (epoll_wf_insert e e' i x x'); [done|done|done| |].
    - assert (is_live x = false) as -> by (apply not_true_iff_false; rewrite is_live_true; naive_solver).
      rewrite (proj2 (is_live_true x')) by done. cbn.
      assert (ep_interest_count e ≠ Z.of_nat EPOLL_MAX_FDS) by (intros Hc; apply Hfull in Hc; done).
      rewrite u32_id by lia. lia.
    - intros j y _ Hy Hfd. eapply find_idx_None in E; [|done]. bool_hyps. done. }
  split_and!; [done|done|]. apply map_eq. intros k.
  rewrite (epoll_view_insert e e' i x x') by done. case_decide as Hk.
  - destruct Hk as [-> _]. by rewrite lookup_insert_eq.
  - rewrite lookup_insert_ne by (intros ->; by apply Hk). case_decide as Hk2; [|done].
    subst k. symmetry. apply eq_None_not_Some. intros [v [Hm _]%epoll_view_lookup]; congruence.
Qed.

Lemma epoll_mod_spec fd events data e :
  epoll_wf e → fd ≠ -1 →
  let '(r, e') := epoll_ctl_mod fd events data e in
  match epoll_view e !! fd with
  | None => r = - ENOENT ∧ e' = e
  | Some _ => r = 0 ∧ epoll_wf e' ∧ epoll_view e' = <[fd := (events, data)]> (epoll_view e)
  end.
Proof.
  intros Hwf Hne. unfold epoll_ctl_mod. pose proof (epoll_view_none e fd Hwf Hne) as Hn.
  destruct (find_idx (λ x, in_fd x =? fd) (ep_interests e)) as [i|] eqn:E;
    [|by rewrite (proj2 Hn eq_refl)].
  destruct (epoll_view e !! fd) as [v|]; [|by destruct Hn as [Hn _]; discriminate Hn].
  destruct (find_fd e fd i E) as (x & Hi & -> & Hx).
  set (e' := e <| ep_interests := _ |>). set (x' := x <| in_events := events |> <| in_data := data |>) in *.
  assert (epoll_wf e') as Hwf'.
  { apply (epoll_wf_insert e e' i x x'); [done|done|done|done|].
    intros j y Hj Hy Hfd. destruct Hwf as (_ & _ & Hu). destruct Hj.
    apply (Hu j i y x); [done|done| |done]. change (in_fd x') with (in_fd x) in Hfd. congruence. }
  split_and!; [done|done|]. apply map_eq. intros k.
  rewrite (epoll_view_insert e e' i x x') by done. change (in_fd x') with (in_fd x). rewrite Hx.
  case_decide as Hk.
  - destruct Hk as [-> _]. by rewrite lookup_insert_eq.
  - destruct (decide (fd = k)) as [->|]; [naive_solver|]. by rewrite lookup_insert_ne.
Qed.

Lemma epoll_del_spec fd e :
  epoll_wf e → fd ≠ -1 →
  let '(r, e') := epoll_ctl_del fd e in
  match epoll_view e !! fd with
  | None => r = - ENOENT ∧ e' = e
  | Some _ => r = 0 ∧ epoll_wf e' ∧ epoll_view e' = delete fd (epoll_view e)
  end.
Proof.
  intros Hwf Hne. unfold epoll_ctl_del. pose proof (epoll_view_none e fd Hwf Hne) as Hn.
  destruct (find_idx (λ x, in_fd x =? fd) (ep_interests e)) as [i|] eqn:E;
    [|by rewrite (proj2 Hn eq_refl)].
  destruct (epoll_view e !! fd) as [v|]; [|by destruct Hn as [Hn _]; discriminate Hn].
  destruct (find_fd e fd i E) as (x & Hi & -> & Hx).
  set (e' := e <| ep_interests := _ |> <| ep_interest_count := _ |>).
  set (x' := x <| in_fd := -1 |> <| in_events := 0 |> <| in_data := 0 |>) in *.
  assert (is_live x = true) as Hlive by (apply is_live_true; congruence).
  assert (epoll_wf e') as Hwf'.
  { apply (epoll_wf_insert e e' i x x'); [done|done|done| |done].
    rewrite Hlive. assert (0 < ep_interest_count e) as Hpos.
    { destruct Hwf as (_ & -> & _). change (λ x, negb (in_fd x =? -1)) with is_live.
      pose proof (countb_pos is_live _ i x Hi Hlive). lia. }
    unfold e'. cbn [field_upd ep_interest_count]. destruct (_ <? _) eqn:E3; bool_hyps; [|lia].
    change (is_live x') with false. cbn. lia. }
  split_and!; [done|done|]. apply map_eq. intros k.
  rewrite (epoll_view_insert e e' i x x') by done. change (in_fd x') with (-1). rewrite Hx.
  rewrite decide_False by naive_solver. case_decide as Hk.
  - subst k. by rewrite lookup_delete_eq.
  - by rewrite lookup_delete_ne.
Qed.

(** ** Main theorems *)

(** Reference counting, for every table that satisfies the laws of
    [RefCounted]: after any sequence of [ref] and [close] calls on a live slot
    the slot is in use exactly when references are left, and [refs] is their
    number; it is freed by the last close and not before. *)
Theorem refcount_balanced {A} `{!RefCounted A} ops (x : A) :
  rc_used x = true → 0 < rc_refs x → rc_refs x + Z.of_nat (length ops) < 2 ^ 32 →
  rc_used (rc_run ops x) = negb (rc_balance ops (rc_refs x) =? 0) ∧
  rc_refs (rc_run ops x) = rc_balance ops (rc_refs x).
Proof. apply rc_run_spec. Qed.

(** Conservation of an eventfd counter: over any sequence of writes and reads,
    in either mode, the values read plus the counter at the end equal the
    counter at the start plus the values written, modulo 2^64. *)
Theorem eventfd_conservation ops e :
  0 ≤ efd_counter e < 2 ^ 64 →
  let '(total, e') := efd_run ops e in
  (total + efd_counter e') mod 2 ^ 64 = (efd_counter e + efd_written ops) mod 2 ^ 64 ∧
  0 ≤ efd_counter e' < 2 ^ 64.
Proof.
  revert e. induction ops as [|o ops IH]; intros e Hc; cbn [efd_run].
  { cbn. rewrite Z.add_0_r. done. }
  pose proof (efd_exec_sum o e Hc) as Ho. destruct (efd_exec o e) as [v e1]. destruct Ho as [Ho Hc1].
  specialize (IH e1 Hc1). destruct (efd_run ops e1) as [s e2]. destruct IH as [IH Hc2].
  split; [|done]. rewrite <-Z.add_assoc, <-Zplus_mod_idemp_r, IH, Zplus_mod_idemp_r.
  rewrite Z.add_assoc, <-Zplus_mod_idemp_l, Ho, Zplus_mod_idemp_l. f_equal.
  change (efd_written (o :: ops)) with
    (match o with EfdWrite w => w + efd_written ops | EfdRead => efd_written ops end).
  destruct o; lia.
Qed.

(** The abstract operation on a map of interests; [full] when it has no room. *)
Definition epoll_spec (op fd events data : Z) (full : bool) (m : gmap Z (Z * Z)) : Z * gmap Z (Z * Z) :=
  if op =? EPOLL_CTL_ADD then
    match m !! fd with
    | Some _ => (- EEXIST, m)
    | None => if full then (- ENOBUFS, m) else (0, <[fd := (events, data)]> m)
    end
  else if op =? EPOLL_CTL_MOD then
    match m !! fd with None => (- ENOENT, m) | Some _ => (0, <[fd := (events, data)]> m) end
  else if op =? EPOLL_CTL_DEL then
    match m !! fd with None => (- ENOENT, m) | Some _ => (0, delete fd m) end
  else (- EINVAL, m).

(** The interest list of an epoll instance implements a finite map of at most
    64 descriptors: add inserts a new key or answers [-EEXIST] or, when the
    map is full, [-ENOBUFS]; mod replaces and del removes an existing key or
    answers [-ENOENT]; any other operation answers [-EINVAL]; an error
    changes nothing, and every other instance is untouched. *)
Theorem epoll_ctl_refines idx op fd events data tbl e :
  tbl !! idx = Some e → length tbl = MAX_EPOLL_INSTANCES → ep_used e = true → epoll_wf e → fd ≠ -1 →
  ∃ r e', epoll_ctl (Z.of_nat idx) op fd events data tbl = (r, <[idx := e']> tbl) ∧ epoll_wf e' ∧
    (r < 0 → e' = e) ∧
    (r, epoll_view e') =
      epoll_spec op fd events data (bool_decide (ep_interest_count e = Z.of_nat EPOLL_MAX_FDS)) (epoll_view e).
Proof.
  intros Hi Hl Hu Hwf Hne. pose proof (lookup_lt_Some _ _ _ Hi) as Hlt.
  unfold epoll_ctl, bad_handle, epoll_spec.
  destruct (Z.of_nat idx <? 0) eqn:E1; bool_hyps; [lia|].
  destruct (_ <=? Z.of_nat idx) eqn:E2; bool_hyps; [lia|].
  rewrite Nat2Z.id, (list_lookup_total_correct _ _ _ Hi), Hu. cbn [orb negb].
  destruct (op =? EPOLL_CTL_ADD); [|destruct (op =? EPOLL_CTL_MOD); [|destruct (op =? EPOLL_CTL_DEL)]].
  - pose proof (epoll_add_spec fd events data e Hwf Hne) as H.
    destruct (epoll_ctl_add fd events data e) as [r e']. exists r, e'. split; [done|].
    destruct (epoll_view e !! fd); [naive_solver|].
    case_bool_decide; case_decide; try done; [naive_solver|].
    destruct H as (-> & ? & ->). split; [done|]. split; [intros ?; lia|done].
  - pose proof (epoll_mod_spec fd events data e Hwf Hne) as H.
    destruct (epoll_ctl_mod fd events data e) as [r e']. exists r, e'. split; [done|].
    destruct (epoll_view e !! fd); [|naive_solver].
    destruct H as (-> & ? & ->). split; [done|]. split; [intros ?; lia|done].
  - pose proof (epoll_del_spec fd e Hwf Hne) as H.
    destruct (epoll_ctl_del fd e) as [r e']. exists r, e'. split; [done|].
    destruct (epoll_view e !! fd); [|naive_solver].
    destruct H as (-> & ? & ->). split; [done|]. split; [intros ?; lia|done].
  - exists (- EINVAL), e. by rewrite list_insert_id.
Qed.

(** ** Witnesses *)

Definition efd_sample : eventfd := Eval vm_compute in
  (eventfd_alloc 0 (replicate MAX_EVENTFDS inhabitant)).2 !!! O.
Definition epoll_tbl : list epoll_instance := Eval vm_compute in
  (epoll_create_instance (replicate MAX_EPOLL_INSTANCES inhabitant)).2.
Definition epoll_sample : epoll_instance := Eval vm_compute in epoll_tbl !!! O.

(** Two extra references and three closes free the slot; two do not. *)
Lemma refcount_balanced_witness :
  efd_used (rc_run [true; true; false; false; false] efd_sample) = false ∧
  efd_used (rc_run [true; true; false; false] efd_sample) = true.
Proof.
  split.
  - destruct (refcount_balanced (A:=eventfd) [true; true; false; false; false] efd_sample) as [H _];
      [reflexivity|cbn; lia|cbn; lia|exact H].
  - destruct (refcount_balanced (A:=eventfd) [true; true; false; false] efd_sample) as [H _];
      [reflexivity|cbn; lia|cbn; lia|exact H].
Defined.

Lemma eventfd_conservation_witness :
  let '(total, e') := efd_run [EfdWrite 5; EfdRead; EfdWrite 7] efd_sample in
  (total + efd_counter e') mod 2 ^ 64 = 12.
Proof.
  destruct (eventfd_conservation [EfdWrite 5; EfdRead; EfdWrite 7] efd_sample) as [H _];
    [cbn; lia|exact H].
Defined.

Lemma epoll_sample_wf : epoll_wf epoll_sample.
Proof.
  split_and!; [reflexivity|reflexivity|]. intros i j x y Hi _ Hne.
  destruct Hne. change (ep_interests epoll_sample) with (replicate EPOLL_MAX_FDS (mk_interest (-1) 0 0)) in Hi.
  by apply lookup_replicate in Hi as [-> _].
Qed.

Lemma epoll_ctl_refines_witness :
  ∃ e', (epoll_ctl 0 EPOLL_CTL_ADD 4 1 9 epoll_tbl).2 = <[O := e']> epoll_tbl ∧
    epoll_view e' = <[4 := (1, 9)]> (epoll_view epoll_sample).
Proof.
  destruct (epoll_ctl_refines O EPOLL_CTL_ADD 4 1 9 epoll_tbl epoll_sample) as (r & e' & He & _ & _ & H);
    [reflexivity|reflexivity|reflexivity|apply epoll_sample_wf|lia|].
  exists e'. split; [by change 0 with (Z.of_nat O); rewrite He|].
  apply (f_equal snd) in H. exact H.
Defined.
