(* ===== verification/UnixSock.v ===== *)
(** * UnixSock: local stream sockets

    Models [src/kernel/src/ipc/unix_sock.c] and [unix_sock.h]: a table of
    sockets with the states free, unbound, bound, listening, connected; a
    receive ring of 4096 bytes per socket; peer pointers between the two ends
    of a connection; and a backlog of unaccepted connections per listener.

    A pointer to a socket is its index in the table, the null pointer [None].
    The blocking loops of send and receive take the list of what other threads
    do to the table during each [sched_yield]. *)

From S2P Require Import Prelude KUtil Ring.

Abbreviation MAX_UNIX_SOCKS := 16%nat (only parsing).
Abbreviation UNIX_SOCK_PATH_MAX := 108%nat (only parsing).
Abbreviation UNIX_SOCK_BACKLOG := 4%nat (only parsing).
Definition UNIX_SOCK_BUF_SZ : nat := Z.to_nat 4096.

(** ** State *)

Inductive usock_state :=
  | USOCK_FREE | USOCK_UNBOUND | USOCK_BOUND | USOCK_LISTENING | USOCK_CONNECTED | USOCK_CLOSED.
#[export] Instance usock_state_eq_dec : EqDecision usock_state.
Proof. solve_decision. Defined.

Record unix_sock := mk_usock {
  us_state : usock_state;
  us_peer_closed : bool;
  us_refs : Z;
  us_path : list Z;
  us_ring : ring Z;                    (* buf, rd_pos, wr_pos, count *)
  us_peer : option nat;
  us_backlog : list (option nat);
  us_backlog_count : Z
}.
#[export] Instance unix_sock_eta : Eta unix_sock := λ s,
  mk_usock (us_state s) (us_peer_closed s) (us_refs s) (us_path s) (us_ring s) (us_peer s)
    (us_backlog s) (us_backlog_count s).
#[export] Instance unix_sock_inhabited : Inhabited unix_sock :=
  populate (mk_usock USOCK_FREE false 0 (replicate UNIX_SOCK_PATH_MAX 0)
    (mk_ring (replicate UNIX_SOCK_BUF_SZ 0) 0 0 0) None (replicate UNIX_SOCK_BACKLOG None) 0).

Abbreviation usock_table := (list unix_sock) (only parsing).

Definition usock_init : list unix_sock := replicate MAX_UNIX_SOCKS inhabitant.

Definition is_state (st : usock_state) (s : unix_sock) : bool := bool_decide (us_state s = st).

(** ** Allocation, binding, listening *)

(** The assignments to a fresh socket. *)
Definition usock_reset (s : unix_sock) : unix_sock :=
  s <| us_state := USOCK_UNBOUND |> <| us_peer_closed := false |> <| us_refs := 1 |>
    <| us_path := <[O := 0]> (us_path s) |> <| us_ring := ring_reset (us_ring s) |>
    <| us_peer := None |> <| us_backlog_count := 0 |>
    <| us_backlog := (λ _, None) <$> us_backlog s |>.

(** The allocation loop, which occurs three times in the code. *)
Definition usock_take (tbl : usock_table) : option (nat * usock_table) :=
  match find_idx (is_state USOCK_FREE) tbl with
  | None => None
  | Some i => Some (i, <[i := usock_reset (tbl !!! i)]> tbl)
  end.

Definition unix_sock_alloc (tbl : usock_table) : Z * usock_table :=
  match usock_take tbl with
  | None => (- ENOMEM, tbl)
  | Some (i, tbl') => (Z.of_nat i, tbl')
  end.

Definition usock_bad (idx : Z) : bool := (idx <? 0) || (Z.of_nat MAX_UNIX_SOCKS <=? idx).

(** A bound or listening socket with this path. *)
Definition path_taken (path : list Z) (s : unix_sock) : bool :=
  (is_state USOCK_BOUND s || is_state USOCK_LISTENING s) && str_eq (us_path s) path.

Definition unix_sock_bind (idx : Z) (path : list Z) (tbl : usock_table) : Z * usock_table :=
  if usock_bad idx then (- EINVAL, tbl)
  else
    let i := Z.to_nat idx in
    let s := tbl !!! i in
    if negb (is_state USOCK_UNBOUND s) then (- EINVAL, tbl)
    else if existsb (λ js : nat * unix_sock, negb (js.1 =? i)%nat && path_taken path js.2) (imap pair tbl)
    then (- EADDRINUSE, tbl)
    else
      (0, <[i := s <| us_path := str_copy (us_path s) path UNIX_SOCK_PATH_MAX |>
                   <| us_state := USOCK_BOUND |>]> tbl).

Definition unix_sock_listen (idx : Z) (tbl : usock_table) : Z * usock_table :=
  if usock_bad idx then (- EINVAL, tbl)
  else
    let i := Z.to_nat idx in
    let s := tbl !!! i in
    if negb (is_state USOCK_BOUND s) then (- EINVAL, tbl)
    else (0, <[i := s <| us_state := USOCK_LISTENING |>]> tbl).

(** ** Connecting *)

(** Link the two fresh sockets as peers: [client->state = ...; server->state =
    ...; client->peer = server; server->peer = client]. *)
Definition usock_link (c v : nat) (tbl : usock_table) : usock_table :=
  alter (λ s, s <| us_state := USOCK_CONNECTED |> <| us_peer := Some c |>) v
    (alter (λ s, s <| us_state := USOCK_CONNECTED |> <| us_peer := Some v |>) c tbl).

(** The first null entry of the backlog takes the server socket. *)
Definition backlog_push (v : nat) (s : unix_sock) : unix_sock :=
  match find_idx (λ o, bool_decide (o = None)) (us_backlog s) with
  | None => s
  | Some k => s <| us_backlog := <[k := Some v]> (us_backlog s) |>
                <| us_backlog_count := us_backlog_count s + 1 |>
  end.

Definition unix_sock_connect (path : list Z) (tbl : usock_table) : Z * usock_table :=
  match find_idx (λ s, is_state USOCK_LISTENING s && str_eq (us_path s) path) tbl with
  | None => (- ECONNREFUSED, tbl)
  | Some l =>
      if Z.of_nat UNIX_SOCK_BACKLOG <=? us_backlog_count (tbl !!! l) then (- EAGAIN, tbl)
      else
        match usock_take tbl with
        | None => (- ENOMEM, tbl)
        | Some (c, tbl1) =>
            match usock_take tbl1 with
            | None => (- ENOMEM, alter (λ s, s <| us_state := USOCK_FREE |>) c tbl1)
            | Some (v, tbl2) =>
                (Z.of_nat c, alter (backlog_push v) l (usock_link c v tbl2))
            end
        end
  end.

Definition unix_sock_accept (listen_idx : Z) (tbl : usock_table) : Z * usock_table :=
  if usock_bad listen_idx then (- EINVAL, tbl)
  else
    let l := Z.to_nat listen_idx in
    let s := tbl !!! l in
    if negb (is_state USOCK_LISTENING s) then (- EINVAL, tbl)
    else if us_backlog_count s =? 0 then (- EAGAIN, tbl)
    else
      match find_idx (λ o, bool_decide (o ≠ None)) (us_backlog s) with
      | None => (- EAGAIN, tbl)
      | Some k =>
          match us_backlog s !!! k with
          | None => (- EAGAIN, tbl)
          | Some v =>
              (if decide (v < MAX_UNIX_SOCKS)%nat then Z.of_nat v else - EINVAL,
               <[l := s <| us_backlog := <[k := None]> (us_backlog s) |>
                        <| us_backlog_count := us_backlog_count s - 1 |>]> tbl)
          end
      end.

(** ** Data *)

(** The copy loop of [unix_sock_send]: bytes go into the ring while there is
    room; the number copied and the ring. *)
Fixpoint ring_fill (bytes : list Z) (r : ring Z) : nat * ring Z :=
  match bytes with
  | [] => (O, r)
  | b :: bytes' =>
      if decide (r_count r < UNIX_SOCK_BUF_SZ)%nat then
        let '(n, r') := ring_fill bytes' (ring_put UNIX_SOCK_BUF_SZ (λ _, b) r) in (S n, r')
      else (O, r)
  end.

(** The copy loop of [unix_sock_recv]: at most [n] bytes leave the ring. *)
Fixpoint ring_drain (n : nat) (r : ring Z) : list Z * ring Z :=
  match n with
  | O => ([], r)
  | S n' =>
      if decide (r_count r = O) then ([], r)
      else
        let '(l, r') := ring_drain n' (ring_drop UNIX_SOCK_BUF_SZ r) in
        ((r_buf r !!! r_head r) :: l, r')
  end.

Abbreviation usock_sched := (list (list unix_sock → list unix_sock)) (only parsing).

(** The loop of [unix_sock_send] to the socket [p]; [bytes] is what is left to
    send and [total] the number already sent. *)
Fixpoint send_loop (sched : usock_sched) (p : nat) (nonblock : bool) (bytes : list Z) (total : Z)
    (tbl : usock_table) : option Z * usock_table :=
  if decide (bytes = []) then (Some total, tbl)
  else if us_peer_closed (tbl !!! p) then (Some (if 0 <? total then total else - ENOTCONN), tbl)
  else
    let s := tbl !!! p in
    let '(n, r) := ring_fill bytes (us_ring s) in
    let tbl := <[p := s <| us_ring := r |>]> tbl in
    let total := total + Z.of_nat n in
    let bytes := drop n bytes in
    if decide (bytes = []) then (Some total, tbl)
    else if (0 <? total) && bool_decide (UNIX_SOCK_BUF_SZ ≤ r_count r)%nat then (Some total, tbl)
    else if nonblock then (Some (if 0 <? total then total else - EAGAIN), tbl)
    else match sched with
         | [] => (None, tbl)
         | f :: sched' => send_loop sched' p nonblock bytes total (f tbl)
         end.

Definition unix_sock_send (sched : usock_sched) (us : option nat) (bytes : list Z) (nonblock : bool)
    (tbl : usock_table) : option Z * usock_table :=
  match us with
  | None => (Some (- ENOTCONN), tbl)
  | Some i =>
      let s := tbl !!! i in
      if negb (is_state USOCK_CONNECTED s) then (Some (- ENOTCONN), tbl)
      else match us_peer s with
           | None => (Some (- ENOTCONN), tbl)
           | Some p => send_loop sched p nonblock bytes 0 tbl
           end
  end.

(** The loop of [unix_sock_recv] on socket [i]; [acc] is what was received and
    [n] the room left.  Bytes stay in the ring only when the room is used up
    ([ring_drain_left]), and then the loop ends. *)
Fixpoint recv_loop (sched : usock_sched) (i : nat) (nonblock : bool) (n : nat) (acc : list Z)
    (tbl : usock_table) : option (Z * list Z) * usock_table :=
  if decide (n = O) then (Some (Z.of_nat (length acc), acc), tbl)
  else
    let s := tbl !!! i in
    let '(l, r) := ring_drain n (us_ring s) in
    let tbl := <[i := s <| us_ring := r |>]> tbl in
    let acc := acc ++ l in
    let n := (n - length l)%nat in
    if decide (r_count r = O) then
      if us_peer_closed s then (Some (Z.of_nat (length acc), acc), tbl)
      else if decide (0 < length acc)%nat then (Some (Z.of_nat (length acc), acc), tbl)
      else if nonblock then (Some (- EAGAIN, []), tbl)
      else match sched with
           | [] => (None, tbl)
           | f :: sched' => recv_loop sched' i nonblock n acc (f tbl)
           end
    else (Some (Z.of_nat (length acc), acc), tbl).

Definition unix_sock_recv (sched : usock_sched) (us : option nat) (len : nat) (nonblock : bool)
    (tbl : usock_table) : option (Z * list Z) * usock_table :=
  match us with
  | None => (Some (- ENOTCONN, []), tbl)
  | Some i =>
      let s := tbl !!! i in
      if negb (is_state USOCK_CONNECTED s) && negb (is_state USOCK_CLOSED s)
      then (Some (- ENOTCONN, []), tbl)
      else recv_loop sched i nonblock len [] tbl
  end.

(** ** Closing and polling *)

Definition unix_sock_close (us : option nat) (tbl : usock_table) : usock_table :=
  match us with
  | None => tbl
  | Some i =>
      let s := tbl !!! i in
      let s := if 0 <? us_refs s then s <| us_refs := us_refs s - 1 |> else s in
      let tbl := <[i := s]> tbl in
      if 0 <? us_refs s then tbl
      else
        let tbl := match us_peer s with
                   | Some p => alter (λ q, q <| us_peer_closed := true |> <| us_peer := None |>) p tbl
                   | None => tbl
                   end in
        alter (λ s, s <| us_state := USOCK_FREE |> <| us_peer := None |>
                      <| us_path := <[O := 0]> (us_path s) |>) i tbl
  end.

Definition unix_sock_get (idx : Z) : option nat :=
  if usock_bad idx then None else Some (Z.to_nat idx).

Definition unix_sock_readable (us : option nat) (tbl : usock_table) : bool :=
  match us with
  | None => false
  | Some i => bool_decide (0 < r_count (us_ring (tbl !!! i)))%nat || us_peer_closed (tbl !!! i)
  end.

Definition unix_sock_writable (us : option nat) (tbl : usock_table) : bool :=
  match us with
  | None => false
  | Some i => match us_peer (tbl !!! i) with
              | None => false
              | Some p => bool_decide (r_count (us_ring (tbl !!! p)) < UNIX_SOCK_BUF_SZ)%nat
              end
  end.

Definition unix_sock_has_backlog (us : option nat) (tbl : usock_table) : bool :=
  match us with
  | None => false
  | Some i => 0 <? us_backlog_count (tbl !!! i)
  end.

(** ** Invariant *)

Definition usock_ok (s : unix_sock) : Prop :=
  ring_wf UNIX_SOCK_BUF_SZ (us_ring s) ∧ length (us_path s) = UNIX_SOCK_PATH_MAX ∧
  length (us_backlog s) = UNIX_SOCK_BACKLOG ∧
  (us_state s = USOCK_LISTENING →
     us_backlog_count s = Z.of_nat (countb (λ o, bool_decide (o ≠ None)) (us_backlog s))) ∧
  (us_peer s ≠ None → us_state s = USOCK_CONNECTED ∧ us_peer_closed s = false) ∧
  (us_state s = USOCK_UNBOUND ∨ us_state s = USOCK_BOUND →
     us_backlog_count s = 0 ∧ Forall (λ o, o = None) (us_backlog s)).

(** The two ends of a connection point at each other. *)
Definition peers_ok (tbl : usock_table) : Prop :=
  ∀ i s j, tbl !! i = Some s → us_peer s = Some j →
    i ≠ j ∧ ∃ q, tbl !! j = Some q ∧ us_peer q = Some i.

(** No two bound or listening sockets have the same path. *)
Definition paths_ok (tbl : usock_table) : Prop :=
  ∀ i j s q, tbl !! i = Some s → tbl !! j = Some q →
    (us_state s = USOCK_BOUND ∨ us_state s = USOCK_LISTENING) →
    (us_state q = USOCK_BOUND ∨ us_state q = USOCK_LISTENING) →
    c_str (us_path s) = c_str (us_path q) → i = j.

Definition usocks_wf (tbl : usock_table) : Prop :=
  length tbl = MAX_UNIX_SOCKS ∧ Forall usock_ok tbl ∧ peers_ok tbl ∧ paths_ok tbl.

(** The calls of the component.  Send and receive without blocking: a blocking
    call is a sequence of them with the steps of other threads in between. *)
Inductive usock_step : usock_table → usock_table → Prop :=
  | step_us_alloc tbl : usock_step tbl (unix_sock_alloc tbl).2
  | step_us_bind idx path tbl :
      (length (c_str path) < UNIX_SOCK_PATH_MAX)%nat → usock_step tbl (unix_sock_bind idx path tbl).2
  | step_us_listen idx tbl : usock_step tbl (unix_sock_listen idx tbl).2
  | step_us_connect path tbl : usock_step tbl (unix_sock_connect path tbl).2
  | step_us_accept idx tbl : usock_step tbl (unix_sock_accept idx tbl).2
  | step_us_send i bytes tbl :
      (i < MAX_UNIX_SOCKS)%nat → usock_step tbl (unix_sock_send [] (Some i) bytes true tbl).2
  | step_us_recv i len tbl :
      (i < MAX_UNIX_SOCKS)%nat → usock_step tbl (unix_sock_recv [] (Some i) len true tbl).2
  | step_us_close i tbl :
      (i < MAX_UNIX_SOCKS)%nat → usock_step tbl (unix_sock_close (Some i) tbl).

(** ** Lemmas on the byte ring *)

Lemma buf_sz_pos : (0 < UNIX_SOCK_BUF_SZ)%nat.
Proof. unfold UNIX_SOCK_BUF_SZ. lia. Qed.

#[local] Opaque UNIX_SOCK_BUF_SZ.

(** Filling appends the longest prefix that fits. *)
Lemma ring_fill_spec bytes r :
  ring_wf UNIX_SOCK_BUF_SZ r →
  let n := Nat.min (length bytes) (UNIX_SOCK_BUF_SZ - r_count r) in
  let '(m, r') := ring_fill bytes r in
  m = n ∧ ring_wf UNIX_SOCK_BUF_SZ r' ∧ ring_contents r' = ring_contents r ++ take n bytes ∧
  r_count r' = (r_count r + n)%nat.
Proof.
  revert r. induction bytes as [|b bytes IH]; intros r Hwf; cbn [ring_fill length].
  { cbn. rewrite app_nil_r. split_and!; [done|apply Hwf..|done|lia]. }
  case_decide as Hc.
  - pose proof (ring_put_wf _ (λ _, b) r Hwf Hc) as Hwf1.
    destruct (ring_put_contents _ (λ _, b) r Hwf Hc) as (x & _ & Hcont).
    specialize (IH _ Hwf1). destruct (ring_fill bytes _) as [m r'].
    destruct IH as (-> & Hwf' & Hc' & Hcnt'). change (r_count (ring_put _ _ r)) with (r_count r + 1)%nat in *.
    replace (Nat.min (S (length bytes)) (UNIX_SOCK_BUF_SZ - r_count r)) with
      (S (Nat.min (length bytes) (UNIX_SOCK_BUF_SZ - (r_count r + 1)))) by lia.
    split; [done|]. split; [done|]. split; [|lia].
    rewrite Hc', Hcont, <-app_assoc. done.
  - replace (UNIX_SOCK_BUF_SZ - r_count r)%nat with O by lia. rewrite Nat.min_0_r, app_nil_r.
    split_and!; [done|apply Hwf..|done|lia].
Qed.

(** Draining takes the longest prefix that fits. *)
Lemma ring_drain_spec n r :
  ring_wf UNIX_SOCK_BUF_SZ r →
  let '(l, r') := ring_drain n r in
  l = take n (ring_contents r) ∧ ring_wf UNIX_SOCK_BUF_SZ r' ∧
  ring_contents r' = drop n (ring_contents r) ∧ r_count r' = (r_count r - n)%nat.
Proof.
  revert r. induction n as [|n IH]; intros r Hwf; cbn [ring_drain].
  { rewrite take_0, drop_0. split; [done|]. split; [done|]. split; [done|lia]. }
  case_decide as Hc.
  - apply (ring_contents_nil _ r Hwf) in Hc as Hnil. rewrite Hnil. cbn. split; [done|]. split; [done|]. split; [done|lia].
  - destruct (ring_drop_contents _ r Hwf) as (x & Hx & Hcont); [lia|].
    pose proof (ring_drop_wf _ r Hwf ltac:(lia)) as Hwf1.
    specialize (IH _ Hwf1). destruct (ring_drain n _) as [l r'].
    destruct IH as (-> & Hwf' & Hc' & Hcnt). change (r_count (ring_drop _ r)) with (r_count r - 1)%nat in Hcnt.
    unfold ring_peek in Hx. rewrite (list_lookup_total_correct _ _ _ Hx), Hcont. cbn [take drop].
    split; [done|]. split; [done|]. split; [done|lia].
Qed.

Lemma ring_drain_left n r l r' :
  ring_wf UNIX_SOCK_BUF_SZ r → ring_drain n r = (l, r') → r_count r' ≠ O → length l = n.
Proof.
  intros Hwf Hd Hc. pose proof (ring_drain_spec n r Hwf) as H. rewrite Hd in H.
  destruct H as (-> & _ & _ & Hcnt). rewrite length_take, (length_ring_contents _ r Hwf). lia.
Qed.

(** ** Lemmas on the invariant *)

Definition bound_or_listening (s : unix_sock) : Prop :=
  us_state s = USOCK_BOUND ∨ us_state s = USOCK_LISTENING.

Lemma alter_insert {A} (f : A → A) (l : list A) i x : l !! i = Some x → alter f i l = <[i := f x]> l.
Proof.
  intros Hi. apply list_eq. intros j. destruct (decide (j = i)) as [->|Hne].
  - rewrite list_lookup_alter_eq, Hi, list_lookup_insert_eq by by eapply lookup_lt_Some. done.
  - by rewrite list_lookup_alter_ne, list_lookup_insert_ne.
Qed.

Lemma usock_lookup tbl i :
  usocks_wf tbl → (i < MAX_UNIX_SOCKS)%nat → ∃ s, tbl !! i = Some s ∧ tbl !!! i = s ∧ usock_ok s.
Proof.
  intros (Hl & Hf & _) Hi. destruct (lookup_lt_is_Some_2 tbl i) as [s Hs]; [lia|]. exists s.
  split_and!; [done|by apply list_lookup_total_correct|by apply (Forall_lookup_1 _ _ _ _ Hf Hs)].
Qed.

(** Updating a socket without touching its peer pointer. *)
Lemma usocks_update tbl i s s' :
  usocks_wf tbl → tbl !! i = Some s → usock_ok s' → us_peer s' = us_peer s →
  (bound_or_listening s' → ∀ j q, j ≠ i → tbl !! j = Some q → bound_or_listening q →
     c_str (us_path q) ≠ c_str (us_path s')) →
  usocks_wf (<[i := s']> tbl).
Proof.
  intros (Hl & Hf & Hp & Hpa) Hi Hok Hpeer Hfresh. pose proof (lookup_lt_Some _ _ _ Hi) as Hlt. split_and!.
  - by rewrite length_insert.
  - by apply Forall_insert.
  - intros a x b Ha Hb. assert (∃ x0, tbl !! a = Some x0 ∧ us_peer x0 = Some b) as (x0 & Ha0 & Hb0).
    { apply list_lookup_insert_cases in Ha as [(-> & -> & _)|(_ & ?)]; [exists s|exists x]; split; congruence. }
    destruct (Hp a x0 b Ha0 Hb0) as (Hne & q & Hq & Hqa). split; [done|].
    destruct (decide (b = i)) as [->|].
    + exists s'. rewrite list_lookup_insert_eq by done. split; [done|]. congruence.
    + exists q. by rewrite list_lookup_insert_ne.
  - intros a b x y [(-> & -> & _)|(Hai & Ha)]%list_lookup_insert_cases
      [(-> & -> & _)|(Hbi & Hb)]%list_lookup_insert_cases Hx Hy Heq; [done|..].
    + by destruct (Hfresh Hx b y Hbi Hb Hy).
    + by destruct (Hfresh Hy a x Hai Ha Hx).
    + by apply (Hpa a b x y).
Qed.

(** The usual case: the path stays, and the socket was bound if it is now. *)
Lemma usocks_update_same tbl i s s' :
  usocks_wf tbl → tbl !! i = Some s → usock_ok s' → us_peer s' = us_peer s →
  (bound_or_listening s' → bound_or_listening s ∧ us_path s' = us_path s) →
  usocks_wf (<[i := s']> tbl).
Proof.
  intros Hwf Hi Hok Hpeer Hb. apply (usocks_update tbl i s); [done..|].
  intros Hs' j q Hj Hq Hbq Heq. destruct (Hb Hs') as [Hs Hpath]. rewrite Hpath in Heq.
  destruct Hwf as (_ & _ & _ & Hpa). apply Hj. by apply (Hpa j i q s).
Qed.

Lemma usock_reset_ok s : usock_ok s → usock_ok (usock_reset s).
Proof.
  intros (H1 & H2 & H3 & _). split_and!; cbn.
  - apply ring_reset_wf; [apply buf_sz_pos|apply H1].
  - by rewrite length_insert.
  - by rewrite length_fmap.
  - done.
  - done.
  - intros _. split; [done|]. apply Forall_fmap. by apply Forall_true.
Qed.

Lemma usock_take_spec tbl :
  usocks_wf tbl →
  match usock_take tbl with
  | None => ∀ i s, tbl !! i = Some s → us_state s ≠ USOCK_FREE
  | Some (i, tbl') => ∃ s, tbl !! i = Some s ∧ us_state s = USOCK_FREE ∧ us_peer s = None ∧
      tbl' = <[i := usock_reset s]> tbl ∧ usocks_wf tbl'
  end.
Proof.
  intros Hwf. unfold usock_take, is_state. destruct (find_idx _ tbl) as [i|] eqn:E.
  - apply find_idx_lookup in E as (s & Hi & Hs). bool_hyps. exists s.
    rewrite (list_lookup_total_correct _ _ _ Hi).
    destruct Hwf as (Hl & Hf & Hrest). pose proof (Forall_lookup_1 _ _ _ _ Hf Hi) as Hok.
    assert (us_peer s = None) as Hpeer.
    { destruct Hok as (_ & _ & _ & _ & Hpc & _). destruct (us_peer s); [|done].
      destruct (Hpc ltac:(done)). congruence. }
    split_and!; [done..|].
    apply (usocks_update_same tbl i s); [done|done|by apply usock_reset_ok|done|].
    intros [H|H]; discriminate H.
  - intros i s Hi. eapply find_idx_None in E; [|done]. by bool_hyps.
Qed.

(** Ending a connection, and making one. *)
Lemma usocks_unlink tbl i p s q s' q' :
  usocks_wf tbl → tbl !! i = Some s → tbl !! p = Some q → us_peer s = Some p →
  usock_ok s' → usock_ok q' → us_peer s' = None → us_peer q' = None →
  ¬ bound_or_listening s' → ¬ bound_or_listening q' →
  usocks_wf (<[i := s']> (<[p := q']> tbl)).
Proof.
  intros (Hl & Hf & Hp & Hpa) Hi Hpq Hsp Hoks Hokq Hs' Hq' Hbs Hbq.
  destruct (Hp i s p Hi Hsp) as (Hne & q0 & Hq0 & Hqi). rewrite Hpq in Hq0. injection Hq0 as <-.
  assert (i < length tbl ∧ p < length tbl)%nat as [Hli Hlp] by (split; by eapply lookup_lt_Some).
  split_and!.
  - by rewrite !length_insert.
  - by repeat apply Forall_insert.
  - intros a x b Ha Hb. apply list_lookup_insert_cases in Ha as [(_ & -> & _)|(Hai & Ha)]; [congruence|].
    apply list_lookup_insert_cases in Ha as [(_ & -> & _)|(Hap & Ha)]; [congruence|].
    destruct (Hp a x b Ha Hb) as (Hab & y & Hy & Hya). split; [done|].
    assert (b ≠ i) by (intros ->; simplify_eq; congruence).
    assert (b ≠ p) by (intros ->; simplify_eq; congruence).
    exists y. by rewrite !list_lookup_insert_ne by done.
  - intros a b x y Ha Hb Hx Hy Heq.
    apply list_lookup_insert_cases in Ha as [(_ & -> & _)|(Hai & Ha)]; [done|].
    apply list_lookup_insert_cases in Ha as [(_ & -> & _)|(Hap & Ha)]; [done|].
    apply list_lookup_insert_cases in Hb as [(_ & -> & _)|(Hbi & Hb)]; [done|].
    apply list_lookup_insert_cases in Hb as [(_ & -> & _)|(Hbp & Hb)]; [done|].
    by apply (Hpa a b x y).
Qed.

Lemma usocks_link tbl c v sc sv :
  usocks_wf tbl → c ≠ v → tbl !! c = Some sc → tbl !! v = Some sv →
  us_peer sc = None → us_peer sv = None →
  us_state sc = USOCK_UNBOUND → us_state sv = USOCK_UNBOUND →
  us_peer_closed sc = false → us_peer_closed sv = false →
  usocks_wf (usock_link c v tbl).
Proof.
  intros (Hl & Hf & Hp & Hpa) Hne Hc Hv Hpc Hpv Hsc Hsv Hcc Hcv. unfold usock_link.
  rewrite (alter_insert _ _ c sc) by done. rewrite (alter_insert _ _ v sv) by by rewrite list_lookup_insert_ne.
  set (sc' := sc <| us_state := _ |> <| us_peer := _ |>).
  set (sv' := sv <| us_state := _ |> <| us_peer := _ |>).
  assert (c < length tbl ∧ v < length tbl)%nat as [Hlc Hlv] by (split; by eapply lookup_lt_Some).
  split_and!.
  - by rewrite !length_insert.
  - repeat apply Forall_insert; [done|..];
      [destruct (Forall_lookup_1 _ _ _ _ Hf Hc) as (H1 & H2 & H3 & _)|
       destruct (Forall_lookup_1 _ _ _ _ Hf Hv) as (H1 & H2 & H3 & _)];
      (split_and!; [apply H1..|done|done|done|done|intros [?|?]; done]).
  - intros a x b Ha Hb.
    apply list_lookup_insert_cases in Ha as [(-> & -> & _)|(Hav & Ha)].
    { injection Hb as <-. split; [done|]. exists sc'.
      by rewrite list_lookup_insert_ne, list_lookup_insert_eq by done. }
    apply list_lookup_insert_cases in Ha as [(-> & -> & _)|(Hac & Ha)].
    { injection Hb as <-. split; [done|]. exists sv'. by rewrite list_lookup_insert_eq by (by rewrite length_insert). }
    destruct (Hp a x b Ha Hb) as (Hab & y & Hy & Hya). split; [done|].
    assert (b ≠ c) by (intros ->; simplify_eq; congruence).
    assert (b ≠ v) by (intros ->; simplify_eq; congruence).
    exists y. by rewrite !list_lookup_insert_ne by done.
  - assert (¬ bound_or_listening sc' ∧ ¬ bound_or_listening sv') as [Hnc Hnv] by (split; intros [?|?]; done).
    intros a b x y Ha Hb Hx Hy Heq.
    apply list_lookup_insert_cases in Ha as [(_ & -> & _)|(Hai & Ha)]; [done|].
    apply list_lookup_insert_cases in Ha as [(_ & -> & _)|(Hap & Ha)]; [done|].
    apply list_lookup_insert_cases in Hb as [(_ & -> & _)|(Hbi & Hb)]; [done|].
    apply list_lookup_insert_cases in Hb as [(_ & -> & _)|(Hbp & Hb)]; [done|].
    by apply (Hpa a b x y).
Qed.

Lemma usock_bad_false idx : usock_bad idx = false → (Z.to_nat idx < MAX_UNIX_SOCKS)%nat.
Proof. unfold usock_bad. intros [? ?]%orb_false_iff. bool_hyps. lia. Qed.

Lemma unix_sock_bind_wf idx path tbl :
  (length (c_str path) < UNIX_SOCK_PATH_MAX)%nat →
  usocks_wf tbl → usocks_wf (unix_sock_bind idx path tbl).2.
Proof.
  intros Hpath Hwf. unfold unix_sock_bind. destruct (usock_bad idx) eqn:Eb; [done|].
  apply usock_bad_false in Eb. destruct (usock_lookup tbl _ Hwf Eb) as (s & Hs & -> & Hok).
  unfold is_state at 1. case_bool_decide as Est; cbn [negb]; [|done].
  destruct (existsb _ _) eqn:Ex; [done|]. cbn [snd].
  destruct Hok as (H1 & H2 & H3 & H4 & H5 & H6). destruct H6 as [H6 H7]; [by left|].
  apply (usocks_update tbl _ s); [done|done| |done|].
  - split_and!; [apply H1..|by cbn; rewrite length_str_copy|done|done| |done].
    cbn. intros Hp. destruct (H5 Hp). congruence.
  - intros _ j q Hj Hq Hb Heq. apply not_true_iff_false in Ex. apply Ex, existsb_exists.
    exists (j, q). split.
    + apply list_elem_of_In, list_elem_of_lookup. exists j. by rewrite list_lookup_imap, Hq.
    + cbn [fst snd]. apply andb_true_iff. split; [by apply negb_true_iff, Nat.eqb_neq|].
      unfold path_taken. apply andb_true_iff. split.
      * unfold is_state. apply orb_true_iff. destruct Hb as [Hb|Hb]; [left|right];
          by apply bool_decide_eq_true.
      * apply str_eq_true. rewrite Heq. cbn [field_upd us_path].
        rewrite c_str_str_copy by lia. rewrite take_ge; [done|lia].
Qed.

Lemma unix_sock_listen_wf idx tbl : usocks_wf tbl → usocks_wf (unix_sock_listen idx tbl).2.
Proof.
  intros Hwf. unfold unix_sock_listen. destruct (usock_bad idx) eqn:Eb; [done|].
  apply usock_bad_false in Eb. destruct (usock_lookup tbl _ Hwf Eb) as (s & Hs & -> & Hok).
  unfold is_state. case_bool_decide as Est; cbn [negb]; [|done]. cbn [snd].
  destruct Hok as (H1 & H2 & H3 & H4 & H5 & H6). destruct H6 as [H6 H7]; [by right|].
  apply (usocks_update_same tbl _ s); [done|done| |done|].
  - split; [exact H1|]. split; [exact H2|]. split; [exact H3|]. split.
    { intros _. cbn [field_upd us_backlog us_backlog_count]. rewrite H6. clear -H7. induction H7 as [|o l Ho _ IH]; [done|].
      rewrite countb_cons. rewrite bool_decide_eq_false_2 by naive_solver. exact IH. }
    split; [|intros [?|?]; done]. cbn. intros Hp. destruct (H5 Hp). congruence.
  - intros _. split; [by left|done].
Qed.

Lemma backlog_push_ok v s : usock_ok s → us_state s = USOCK_LISTENING → usock_ok (backlog_push v s).
Proof.
  intros (H1 & H2 & H3 & H4 & H5 & H6) Hst. unfold backlog_push.
  destruct (find_idx _ (us_backlog s)) as [k|] eqn:E; [|by split_and!].
  apply find_idx_lookup in E as (o & Hk & Ho). bool_hyps. subst o.
  split_and!; [apply H1..|done|by cbn; rewrite length_insert| |done|].
  - intros _. cbn [field_upd us_backlog us_backlog_count]. rewrite (H4 Hst).
    pose proof (countb_insert (λ o, bool_decide (o ≠ None)) _ _ _ (Some v) Hk) as Hc.
    cbv beta in Hc. rewrite bool_decide_eq_false_2, bool_decide_eq_true_2 in Hc by naive_solver. lia.
  - cbn. rewrite Hst. intros [?|?]; done.
Qed.

Lemma backlog_push_fields v s :
  us_peer (backlog_push v s) = us_peer s ∧ us_state (backlog_push v s) = us_state s ∧
  us_path (backlog_push v s) = us_path s.
Proof. unfold backlog_push. by destruct (find_idx _ _). Qed.

Lemma unix_sock_connect_wf path tbl : usocks_wf tbl → usocks_wf (unix_sock_connect path tbl).2.
Proof.
  intros Hwf. unfold unix_sock_connect.
  destruct (find_idx _ tbl) as [l|] eqn:El; [|done].
  apply find_idx_lookup in El as (sl & Hl & Hsl). unfold is_state in Hsl. bool_hyps.
  rewrite (list_lookup_total_correct _ _ _ Hl). destruct (_ <=? _); [done|].
  pose proof (usock_take_spec tbl Hwf) as Ht. destruct (usock_take tbl) as [[c tbl1]|]; [|done].
  destruct Ht as (sc & Hc & Hsc & Hpc & -> & Hwf1).
  pose proof (usock_take_spec _ Hwf1) as Ht.
  destruct (usock_take (<[c:=usock_reset sc]> tbl)) as [[v tbl2]|].
  - destruct Ht as (sv & Hv & Hsv & Hpv & -> & Hwf2). cbn [snd].
    assert (c < length tbl)%nat as Hlc by by eapply lookup_lt_Some.
    assert (c ≠ v) as Hne.
    { intros ->. rewrite list_lookup_insert_eq in Hv by done. by injection Hv as <-. }
    rewrite list_lookup_insert_ne in Hv by done.
    assert (l ≠ c ∧ l ≠ v) as [Hlc' Hlv'] by (split; intros ->; simplify_eq; congruence).
    set (tbl2 := <[v := _]> _) in *.
    assert (usocks_wf (usock_link c v tbl2)) as Hwf3.
    { apply (usocks_link tbl2 c v (usock_reset sc) (usock_reset sv)); try done; subst tbl2.
      - by rewrite list_lookup_insert_ne, list_lookup_insert_eq by done.
      - rewrite list_lookup_insert_eq; [done|]. rewrite length_insert. by eapply lookup_lt_Some. }
    assert (usock_link c v tbl2 !! l = Some sl) as Hsl'.
    { unfold usock_link. rewrite !list_lookup_alter_ne by done. subst tbl2.
      by rewrite !list_lookup_insert_ne by done. }
    rewrite (alter_insert _ _ l sl Hsl').
    destruct (backlog_push_fields v sl) as (Hf1 & Hf2 & Hf3).
    apply (usocks_update_same _ l sl); [done|done| |done|].
    + apply backlog_push_ok; [|done]. destruct Hwf3 as (_ & Hf & _). by apply (Forall_lookup_1 _ _ _ _ Hf Hsl').
    + intros _. split; [by right|done].
  - cbn [snd]. rewrite (alter_insert _ _ c (usock_reset sc))
      by (apply list_lookup_insert_eq; by eapply lookup_lt_Some).
    apply (usocks_update_same _ c (usock_reset sc)); [done| | |done|].
    + apply list_lookup_insert_eq. by eapply lookup_lt_Some.
    + destruct Hwf1 as (_ & Hf & _).
      destruct (Forall_lookup_1 _ _ _ _ Hf (list_lookup_insert_eq tbl c (usock_reset sc)
        ltac:(by eapply lookup_lt_Some))) as (H1 & H2 & H3 & _).
      split_and!; [apply H1..|done|done|done|done|intros [?|?]; done].
    + intros [?|?]; done.
Qed.

Lemma unix_sock_accept_wf idx tbl : usocks_wf tbl → usocks_wf (unix_sock_accept idx tbl).2.
Proof.
  intros Hwf. unfold unix_sock_accept. destruct (usock_bad idx) eqn:Eb; [done|].
  apply usock_bad_false in Eb. destruct (usock_lookup tbl _ Hwf Eb) as (s & Hs & -> & Hok).
  unfold is_state. case_bool_decide as Est; cbn [negb]; [|done].
  destruct (_ =? 0) eqn:E0; [done|].
  destruct (find_idx _ (us_backlog s)) as [k|] eqn:Ek; [|done].
  apply find_idx_lookup in Ek as (o & Hk & Ho). rewrite (list_lookup_total_correct _ _ _ Hk).
  destruct o as [v|]; [|done]. cbn [snd].
  destruct Hok as (H1 & H2 & H3 & H4 & H5 & H6).
  apply (usocks_update_same tbl _ s); [done|done| |done|by intros _; split; [right|]].
  split_and!; [apply H1..|done|by cbn; rewrite length_insert| |done|cbn; rewrite Est; intros [?|?]; done].
  intros _. cbn [field_upd us_backlog us_backlog_count]. rewrite (H4 Est).
  pose proof (countb_insert (λ o, bool_decide (o ≠ None)) _ _ _ None Hk) as Hc.
  cbv beta in Hc. rewrite bool_decide_eq_true_2, bool_decide_eq_false_2 in Hc by naive_solver. lia.
Qed.

(** Replacing the ring of a socket. *)
Lemma usock_ring_ok s r : usock_ok s → ring_wf UNIX_SOCK_BUF_SZ r → usock_ok (s <| us_ring := r |>).
Proof. intros (H1 & H2 & H3 & H4 & H5 & H6) Hr. split_and!; [apply Hr..|done|done|done|done|done]. Qed.

Lemma usocks_ring tbl i s r :
  usocks_wf tbl → tbl !! i = Some s → ring_wf UNIX_SOCK_BUF_SZ r →
  usocks_wf (<[i := s <| us_ring := r |>]> tbl).
Proof.
  intros Hwf Hi Hr. apply (usocks_update_same tbl i s); [done|done| |done|done].
  apply usock_ring_ok; [|done]. destruct Hwf as (_ & Hf & _). by apply (Forall_lookup_1 _ _ _ _ Hf Hi).
Qed.

(** The result of a transfer of [n] bytes that does not wait. *)
Definition sent_code (n : nat) : Z := if decide (n = O) then - EAGAIN else Z.of_nat n.

(** A send that does not wait: one pass over the peer's ring. *)
Lemma send_loop_nonblock p bytes tbl s :
  usocks_wf tbl → tbl !! p = Some s → bytes ≠ [] → us_peer_closed s = false →
  let n := Nat.min (length bytes) (UNIX_SOCK_BUF_SZ - r_count (us_ring s)) in
  ∃ r', send_loop [] p true bytes 0 tbl = (Some (sent_code n), <[p := s <| us_ring := r' |>]> tbl) ∧
    ring_wf UNIX_SOCK_BUF_SZ r' ∧ ring_contents r' = ring_contents (us_ring s) ++ take n bytes.
Proof.
  intros Hwf Hp Hb Ec n. cbn [send_loop]. rewrite decide_False by done.
  rewrite (list_lookup_total_correct _ _ _ Hp), Ec.
  assert (usock_ok s) as (Hr & _).
  { destruct Hwf as (_ & Hf & _). by apply (Forall_lookup_1 _ _ _ _ Hf Hp). }
  pose proof (ring_fill_spec bytes (us_ring s) Hr) as H. destruct (ring_fill bytes (us_ring s)) as [m r'].
  destruct H as (-> & Hr' & Hc & Hcnt). fold n in Hc, Hcnt |- *. exists r'. split; [|done].
  assert (0 < length bytes)%nat as Hpos by (destruct bytes; [done|cbn; lia]).
  unfold sent_code. destruct (decide (drop n bytes = [])) as [Hd|Hd].
  { apply (f_equal length) in Hd. rewrite length_drop in Hd. cbn in Hd.
    rewrite decide_False by lia. do 2 f_equal. }
  destruct (0 <? 0 + Z.of_nat n) eqn:E0; bool_hyps; cbn [andb].
  - rewrite decide_False by lia. by destruct (bool_decide _).
  - by rewrite decide_True by lia.
Qed.

(** A receive that does not wait. *)
Lemma recv_loop_nonblock i len tbl s :
  usocks_wf tbl → tbl !! i = Some s → len ≠ O →
  let l := take len (ring_contents (us_ring s)) in
  ∃ r', recv_loop [] i true len [] tbl =
      (Some (if us_peer_closed s then (Z.of_nat (length l), l)
             else if decide (l = []) then (- EAGAIN, []) else (Z.of_nat (length l), l)),
       <[i := s <| us_ring := r' |>]> tbl) ∧
    ring_wf UNIX_SOCK_BUF_SZ r' ∧ ring_contents r' = drop len (ring_contents (us_ring s)).
Proof.
  intros Hwf Hi Hlen l. cbn [recv_loop]. rewrite decide_False by done.
  rewrite (list_lookup_total_correct _ _ _ Hi).
  assert (usock_ok s) as (Hr & _).
  { destruct Hwf as (_ & Hf & _). by apply (Forall_lookup_1 _ _ _ _ Hf Hi). }
  pose proof (ring_drain_spec len (us_ring s) Hr) as H.
  destruct (ring_drain len (us_ring s)) as [l0 r'] eqn:Ed.
  destruct H as (-> & Hr' & Hc & Hcnt). fold l. exists r'. split; [|done]. cbn [app].
  destruct (decide (r_count r' = O)) as [H0|H0].
  - destruct (us_peer_closed s); [done|]. destruct (decide (0 < length l)%nat) as [Hl|Hl].
    + rewrite decide_False by (intros Hn; rewrite Hn in Hl; cbn in Hl; lia). done.
    + by rewrite decide_True by (apply nil_length_inv; lia).
  - pose proof (ring_drain_left _ _ _ _ Hr Ed H0) as Hll. fold l in Hll.
    destruct (us_peer_closed s); [done|]. rewrite decide_False; [done|].
    intros Hn. rewrite Hn in Hll. by destruct Hlen.
Qed.

Lemma unix_sock_send_wf i bytes tbl :
  (i < MAX_UNIX_SOCKS)%nat → usocks_wf tbl → usocks_wf (unix_sock_send [] (Some i) bytes true tbl).2.
Proof.
  intros Hi Hwf. destruct (usock_lookup tbl i Hwf Hi) as (s & Hs & Hst & Hok).
  unfold unix_sock_send. rewrite Hst. destruct (negb _); [done|].
  destruct (us_peer s) as [p|] eqn:Ep; [|done].
  destruct Hwf as (Hl & Hf & Hp & Hpa). destruct (Hp i s p Hs Ep) as (_ & q & Hq & _).
  destruct (decide (bytes = [])) as [->|Hb]; [done|]. destruct (us_peer_closed q) eqn:Ec.
  { cbn [send_loop]. rewrite decide_False by done. by rewrite (list_lookup_total_correct _ _ _ Hq), Ec. }
  destruct (send_loop_nonblock p bytes tbl q) as (r' & -> & Hr' & _); [done..|].
  by apply usocks_ring.
Qed.

Lemma unix_sock_recv_wf i len tbl :
  (i < MAX_UNIX_SOCKS)%nat → usocks_wf tbl → usocks_wf (unix_sock_recv [] (Some i) len true tbl).2.
Proof.
  intros Hi Hwf. destruct (usock_lookup tbl i Hwf Hi) as (s & Hs & Hst & Hok).
  unfold unix_sock_recv. rewrite Hst. destruct (_ && _); [done|].
  destruct (decide (len = O)) as [->|Hlen]; [done|].
  destruct (recv_loop_nonblock i len tbl s) as (r' & -> & Hr' & _); [done..|]. by apply usocks_ring.
Qed.

Lemma unix_sock_close_wf i tbl :
  (i < MAX_UNIX_SOCKS)%nat → usocks_wf tbl → usocks_wf (unix_sock_close (Some i) tbl).
Proof.
  intros Hi Hwf. destruct (usock_lookup tbl i Hwf Hi) as (s & Hs & Hst & Hok).
  unfold unix_sock_close. rewrite Hst. cbv zeta.
  set (s1 := if 0 <? us_refs s then _ else s).
  assert (us_peer s1 = us_peer s ∧ us_state s1 = us_state s ∧ us_path s1 = us_path s ∧ usock_ok s1)
    as (Hp1 & Hst1 & Hpa1 & Hok1) by (subst s1; destruct (0 <? us_refs s); done).
  assert (usocks_wf (<[i := s1]> tbl)) as Hwf1.
  { apply (usocks_update_same tbl i s); [done..|]. unfold bound_or_listening. by rewrite Hst1, Hpa1. }
  destruct (0 <? us_refs s1); [done|].
  assert (<[i := s1]> tbl !! i = Some s1) as Hi1 by (apply list_lookup_insert_eq; by eapply lookup_lt_Some).
  set (free := λ s0, s0 <| us_state := USOCK_FREE |> <| us_peer := None |> <| us_path := <[O := 0]> (us_path s0) |>).
  assert (∀ x, usock_ok x → usock_ok (free x)) as Hfree.
  { intros x (H1 & H2 & H3 & _). split_and!; [apply H1..|by cbn; rewrite length_insert|done|done|done|intros [?|?]; done]. }
  assert (∀ x, ¬ bound_or_listening (free x)) as Hnb by (intros x [?|?]; done).
  destruct (us_peer s1) as [p|] eqn:Ep.
  - destruct Hwf1 as (Hl & Hf & Hp & Hpa). destruct (Hp i s1 p Hi1 Ep) as (Hne & q & Hq & Hqi).
    rewrite (alter_insert _ _ p q Hq).
    rewrite (alter_insert _ _ i s1) by by rewrite list_lookup_insert_ne.
    pose proof (Forall_lookup_1 _ _ _ _ Hf Hq) as (H1 & H2 & H3 & H4 & H5 & H6).
    assert (us_state q = USOCK_CONNECTED) as Hcon by (apply H5; congruence).
    apply (usocks_unlink _ i p s1 q); [done|done|done|done|by apply Hfree| |done|done|apply Hnb|].
    + split_and!; [apply H1..|done|done|done|done|done].
    + intros [H|H]; cbn in H; congruence.
  - rewrite (alter_insert _ _ i s1 Hi1).
    apply (usocks_update_same _ i s1); [done|done|by apply Hfree|done|].
    intros Hb. by destruct (Hnb _ Hb).
Qed.

Lemma usock_step_wf tbl tbl' : usocks_wf tbl → usock_step tbl tbl' → usocks_wf tbl'.
Proof.
  intros Hwf Hs. destruct Hs as [tbl|idx path tbl Hp|idx tbl|path tbl|idx tbl|i bytes tbl Hi|i len tbl Hi|i tbl Hi].
  - unfold unix_sock_alloc. pose proof (usock_take_spec tbl Hwf) as H.
    destruct (usock_take tbl) as [[i tbl']|]; [|done]. by destruct H as (s & _ & _ & _ & _ & H).
  - by apply unix_sock_bind_wf.
  - by apply unix_sock_listen_wf.
  - by apply unix_sock_connect_wf.
  - by apply unix_sock_accept_wf.
  - by apply unix_sock_send_wf.
  - by apply unix_sock_recv_wf.
  - by apply unix_sock_close_wf.
Qed.

Lemma usock_init_wf : usocks_wf usock_init.
Proof.
  split_and!; [done| | |].
  - apply Forall_replicate. split.
    { split_and!; [apply length_replicate|apply buf_sz_pos|apply Nat.le_0_l|].
      symmetry. apply Nat.Div0.mod_0_l. }
    do 3 (split; [done|]). split; [done|]. intros [H|H]; discriminate H.
  - intros i s j [-> _]%lookup_replicate H. discriminate H.
  - intros i j s q [-> _]%lookup_replicate _ [H|H]; discriminate H.
Qed.

Lemma usock_run_wf tbl : rtc usock_step usock_init tbl → usocks_wf tbl.
Proof.
  intros Hr. apply (rtc_invariant usock_step usocks_wf usock_init); [|done|apply usock_init_wf].
  intros a b. apply usock_step_wf.
Qed.

(** The bytes on their way to a socket, oldest first. *)
Definition incoming (i : nat) (tbl : usock_table) : list Z := ring_contents (us_ring (tbl !!! i)).

(** ** Main theorems *)

(** In every reachable state the peer pointers of connected sockets point at
    each other, no two bound or listening sockets have the same path, the
    rings are well-formed, and the backlog counters count the backlog. *)
Theorem usock_reachable_wf tbl : rtc usock_step usock_init tbl → usocks_wf tbl.
Proof. apply usock_run_wf. Qed.

(** C32.  A connection is a byte stream.  A send that does not wait transfers the
    longest prefix of the data that fits into the peer's 4096-byte ring and
    returns its length ([-EAGAIN] when nothing fits), and a receive of the
    peer then returns the oldest bytes: what it returns followed by what is
    still on its way is exactly what was on its way before followed by the
    bytes sent.  Nothing is lost, repeated or reordered. *)
Theorem usock_stream tbl i p s bytes len :
  usocks_wf tbl → tbl !! i = Some s → us_peer s = Some p → bytes ≠ [] → len ≠ O →
  let n := Nat.min (length bytes) (UNIX_SOCK_BUF_SZ - length (incoming p tbl)) in
  let '(r, tbl1) := unix_sock_send [] (Some i) bytes true tbl in
  let '(out, tbl2) := unix_sock_recv [] (Some p) len true tbl1 in
  r = Some (sent_code n) ∧
  incoming p tbl1 = incoming p tbl ++ take n bytes ∧
  out = Some (if decide (incoming p tbl1 = []) then (- EAGAIN, [])
              else (Z.of_nat (length (take len (incoming p tbl1))), take len (incoming p tbl1))) ∧
  take len (incoming p tbl1) ++ incoming p tbl2 = incoming p tbl ++ take n bytes.
Proof.
  intros Hwf Hi Hp Hb Hlen n. pose proof Hwf as (Hl & Hf & Hpe & _).
  destruct (Hpe i s p Hi Hp) as (Hne & q & Hq & Hqi).
  pose proof (Forall_lookup_1 _ _ _ _ Hf Hi) as (_ & _ & _ & _ & Hs5 & _).
  pose proof (Forall_lookup_1 _ _ _ _ Hf Hq) as (Hr & _ & _ & _ & Hq5 & _).
  destruct Hs5 as [Hsst _]; [congruence|]. destruct Hq5 as [Hqst Hqc]; [congruence|].
  pose proof (lookup_lt_Some _ _ _ Hq) as Hlt.
  assert (incoming p tbl = ring_contents (us_ring q)) as Hin
    by (unfold incoming; by rewrite (list_lookup_total_correct _ _ _ Hq)).
  unfold unix_sock_send. rewrite (list_lookup_total_correct _ _ _ Hi). unfold is_state at 1.
  rewrite bool_decide_eq_true_2 by done. cbn [negb]. rewrite Hp.
  destruct (send_loop_nonblock p bytes tbl q) as (r1 & -> & Hr1 & Hc1); [done..|].
  rewrite <-(length_ring_contents _ _ Hr), <-Hin in Hc1 |- *. fold n in Hc1 |- *.
  set (q1 := q <| us_ring := r1 |>). set (tbl1 := <[p := q1]> tbl).
  assert (tbl1 !! p = Some q1) as Hq1 by by apply list_lookup_insert_eq.
  assert (usocks_wf tbl1) as Hwf1 by by apply usocks_ring.
  unfold unix_sock_recv. rewrite (list_lookup_total_correct _ _ _ Hq1). unfold is_state.
  change (us_state q1) with (us_state q). rewrite bool_decide_eq_true_2 by done. cbn [negb andb].
  destruct (recv_loop_nonblock p len tbl1 q1) as (r2 & -> & Hr2 & Hc2); [done..|].
  change (us_peer_closed q1) with (us_peer_closed q). rewrite Hqc.
  change (us_ring q1) with r1 in Hc2 |- *.
  assert (incoming p tbl1 = ring_contents r1) as ->
    by (unfold incoming; by rewrite (list_lookup_total_correct _ _ _ Hq1)).
  assert (incoming p (<[p := q1 <| us_ring := r2 |>]> tbl1) = ring_contents r2) as ->.
  { unfold incoming. rewrite list_lookup_total_insert_eq; [done|]. unfold tbl1. by rewrite length_insert. }
  split; [done|]. split; [done|]. split.
  - do 2 f_equal. destruct (ring_contents r1) as [|b l]; [by rewrite take_nil|].
    destruct len; [done|]. done.
  - rewrite Hc2, take_drop. exact Hc1.
Qed.

(** ** Scenarios *)

(** Socket 0 listens on [/s]; a client connects: sockets 1 and 2 are peers. *)
Definition us_path0 : list Z := [47; 115].
Definition us_listening (tbl : usock_table) : usock_table :=
  (unix_sock_listen 0 (unix_sock_bind 0 us_path0 (unix_sock_alloc tbl).2).2).2.
Definition us_tbl : usock_table := (unix_sock_connect us_path0 (us_listening usock_init)).2.

Lemma us_tbl_reachable : rtc usock_step usock_init us_tbl.
Proof.
  unfold us_tbl, us_listening.
  eapply rtc_l; [apply step_us_alloc|]. eapply rtc_l; [apply (step_us_bind 0 us_path0); vm_compute; lia|].
  eapply rtc_l; [apply (step_us_listen 0)|]. apply rtc_once, step_us_connect.
Qed.

(** One round: a server listens on slot [l], a client connects, and both close
    their descriptors without the connection being accepted. *)
Definition us_round (tbl : usock_table) : usock_table :=
  let '(l, t1) := unix_sock_alloc tbl in
  let t2 := (unix_sock_listen l (unix_sock_bind l us_path0 t1).2).2 in
  let '(c, t3) := unix_sock_connect us_path0 t2 in
  unix_sock_close (unix_sock_get c) (unix_sock_close (unix_sock_get l) t3).

(** Closing a listening socket does not release the connections in its backlog:
    their server ends stay connected although no descriptor refers to them and
    nothing can accept or close them.  Fourteen rounds of connecting and
    closing leave fourteen such sockets, and after that no connection can be
    made although every descriptor is closed. *)
Theorem listener_close_leaks :
  ∃ tbl, rtc usock_step usock_init tbl ∧ tbl = Nat.iter 14 us_round usock_init ∧
    countb (is_state USOCK_CONNECTED) tbl = 14%nat ∧ countb (is_state USOCK_LISTENING) tbl = 0%nat ∧
    (unix_sock_connect us_path0 (us_listening tbl)).1 = - ENOMEM.
Proof.
  exists (Nat.iter 14 us_round usock_init). split; [|split; [done|by vm_compute]].
  assert (∀ tbl, length tbl = MAX_UNIX_SOCKS → rtc usock_step tbl (us_round tbl)) as Hround.
  { intros tbl Hl. unfold us_round.
    destruct (unix_sock_alloc tbl) as [l t1] eqn:E1.
    destruct (unix_sock_connect _ _) as [c t3] eqn:E2.
    assert (∀ idx t, rtc usock_step t (unix_sock_close (unix_sock_get idx) t)) as Hc.
    { intros idx t. unfold unix_sock_get. destruct (usock_bad idx) eqn:Eb; [done|].
      apply rtc_once, step_us_close. by apply usock_bad_false. }
    eapply rtc_l; [apply step_us_alloc|]. rewrite E1. cbn [snd].
    eapply rtc_l; [apply (step_us_bind l us_path0); vm_compute; lia|].
    eapply rtc_l; [apply (step_us_listen l)|].
    eapply rtc_l; [apply (step_us_connect us_path0)|]. rewrite E2. cbn [snd].
    etrans; apply Hc. }
  generalize 14%nat as n. induction n as [|n IH]; [done|]. cbn [Nat.iter nat_rect].
  etrans; [exact IH|]. apply Hround. by apply usock_run_wf in IH as [? _].
Qed.

(** Connections are accepted in the order of backlog slots, not of arrival:
    clients A, B connect, A is accepted, C connects, and the next accept
    returns C's connection before B's. *)
Theorem accept_not_fifo :
  let t0 := us_listening usock_init in
  let '(a, t1) := unix_sock_connect us_path0 t0 in
  let '(b, t2) := unix_sock_connect us_path0 t1 in
  let '(sa, t3) := unix_sock_accept 0 t2 in
  let '(c, t4) := unix_sock_connect us_path0 t3 in
  let '(s2, t5) := unix_sock_accept 0 t4 in
  let '(s3, t6) := unix_sock_accept 0 t5 in
  us_peer (t6 !!! Z.to_nat sa) = Some (Z.to_nat a) ∧
  us_peer (t6 !!! Z.to_nat s2) = Some (Z.to_nat c) ∧
  us_peer (t6 !!! Z.to_nat s3) = Some (Z.to_nat b) ∧ b < c.
Proof. by vm_compute. Qed.

(** ** Witnesses *)

Lemma usock_reachable_wf_witness : usocks_wf us_tbl.
Proof. apply usock_reachable_wf, us_tbl_reachable. Defined.

Lemma us_tbl_wf : usocks_wf us_tbl.
Proof. apply usock_run_wf, us_tbl_reachable. Qed.

Lemma us_tbl_peer : us_peer (us_tbl !!! 1%nat) = Some 2%nat.
Proof. vm_compute. reflexivity. Qed.

Lemma us_tbl_lookup1 : us_tbl !! 1%nat = Some (us_tbl !!! 1%nat).
Proof. apply list_lookup_lookup_total_lt. destruct us_tbl_wf as [-> _]. lia. Qed.

Lemma us_tbl_incoming : incoming 2 us_tbl = [].
Proof. vm_compute. reflexivity. Qed.

Lemma usock_stream_witness :
  ∃ tbl1, unix_sock_send [] (Some 1%nat) [7; 8; 9] true us_tbl = (Some 3, tbl1) ∧
    (unix_sock_recv [] (Some 2%nat) 2 true tbl1).1 = Some (2, [7; 8]).
Proof.
  pose proof (usock_stream us_tbl 1 2 (us_tbl !!! 1%nat) [7; 8; 9] 2 us_tbl_wf us_tbl_lookup1 us_tbl_peer)
    as H. rewrite us_tbl_incoming in H.
  destruct (unix_sock_send [] (Some 1%nat) [7; 8; 9] true us_tbl) as [r tbl1].
  destruct (unix_sock_recv [] (Some 2%nat) 2 true tbl1) as [out tbl2] eqn:Er.
  destruct H as (-> & Hin & -> & _); [done|done|].
  exists tbl1. split; [reflexivity|]. rewrite Er. rewrite Hin. reflexivity.
Defined.
