(* ===== verification/InferSvc.v ===== *)
(** * InferSvc: the inference service registry, routing and request queue

    Models the first half of [src/kernel/src/ipc/infer_svc.c] with
    [infer_svc.h]: the table of inference providers, health reports and their
    timeout, the three routing policies (least loaded, round robin, weighted by
    inverse load), the swap of a provider's socket, and the queue of requests
    that wait for a provider.

    Which processes are alive and their namespaces ([process_lookup]) and the
    timer ([arch_timer_get_ticks], cut to 32 bits) are arguments. *)

From S2P Require Import Prelude KUtil.

Abbreviation MAX_INFER_SERVICES := 16%nat (only parsing).
Abbreviation INFER_NAME_MAX := 32%nat (only parsing).
Abbreviation INFER_SOCK_PATH_MAX := 108%nat (only parsing).
Abbreviation INFER_HEALTH_TIMEOUT := 3600 (only parsing).
Abbreviation INFER_ROUTE_LEAST_LOADED := 0 (only parsing).
Abbreviation INFER_ROUTE_ROUND_ROBIN := 1 (only parsing).
Abbreviation INFER_ROUTE_WEIGHTED := 2 (only parsing).
Abbreviation INFER_QUEUE_SIZE := 16%nat (only parsing).
Abbreviation INFER_QUEUE_TIMEOUT := 36000 (only parsing).

(** ** State *)

Record infer_service := mk_svc {
  sc_name : list Z;
  sc_sock_path : list Z;
  sc_provider_pid : Z;
  sc_load : Z;
  sc_last_heartbeat : Z;
  sc_total_requests : Z;
  sc_ns_id : Z;
  sc_healthy : bool;
  sc_used : bool
}.
#[export] Instance infer_service_eta : Eta infer_service := λ s,
  mk_svc (sc_name s) (sc_sock_path s) (sc_provider_pid s) (sc_load s) (sc_last_heartbeat s)
    (sc_total_requests s) (sc_ns_id s) (sc_healthy s) (sc_used s).
#[export] Instance infer_service_inhabited : Inhabited infer_service :=
  populate (mk_svc (replicate INFER_NAME_MAX 0) (replicate INFER_SOCK_PATH_MAX 0) 0 0 0 0 0 false false).

Record infer_queue_entry := mk_qent {
  qe_name : list Z;
  qe_caller_pid : Z;
  qe_enqueue_tick : Z;
  qe_ready : bool;
  qe_timed_out : bool;
  qe_used : bool
}.
#[export] Instance infer_queue_entry_eta : Eta infer_queue_entry := λ e,
  mk_qent (qe_name e) (qe_caller_pid e) (qe_enqueue_tick e) (qe_ready e) (qe_timed_out e) (qe_used e).
#[export] Instance infer_queue_entry_inhabited : Inhabited infer_queue_entry :=
  populate (mk_qent (replicate INFER_NAME_MAX 0) 0 0 false false false).

Record infer_st := mk_infer {
  infer_table : list infer_service;
  route_policy : Z;
  rr_counter : Z;
  infer_queue : list infer_queue_entry;
  infer_queue_total_queued : Z;
  infer_queue_total_timeouts : Z
}.
#[export] Instance infer_st_eta : Eta infer_st := λ s,
  mk_infer (infer_table s) (route_policy s) (rr_counter s) (infer_queue s)
    (infer_queue_total_queued s) (infer_queue_total_timeouts s).

Definition infer_init : infer_st :=
  mk_infer (replicate MAX_INFER_SERVICES inhabitant) INFER_ROUTE_LEAST_LOADED 0
    (replicate INFER_QUEUE_SIZE inhabitant) 0 0.

Definition set_svc (i : nat) (s : infer_service) (st : infer_st) : infer_st :=
  st <| infer_table := <[i := s]> (infer_table st) |>.
Definition set_qent (i : nat) (e : infer_queue_entry) (st : infer_st) : infer_st :=
  st <| infer_queue := <[i := e]> (infer_queue st) |>.

(** ** The request queue *)

Definition infer_queue_enqueue (now : Z) (name : list Z) (caller_pid : Z) (st : infer_st) : Z * infer_st :=
  match find_idx (λ e, negb (qe_used e)) (infer_queue st) with
  | None => (- ENOBUFS, st)
  | Some i =>
      let e := infer_queue st !!! i in
      (Z.of_nat i,
       set_qent i (e <| qe_used := true |> <| qe_name := str_copy (qe_name e) name INFER_NAME_MAX |>
                     <| qe_caller_pid := caller_pid |> <| qe_enqueue_tick := u32 now |>
                     <| qe_ready := false |> <| qe_timed_out := false |>) st
         <| infer_queue_total_queued := u32 (infer_queue_total_queued st + 1) |>)
  end.

Definition queue_bad (slot : Z) : bool := (slot <? 0) || (Z.of_nat INFER_QUEUE_SIZE <=? slot).

Definition infer_queue_check (slot : Z) (st : infer_st) : Z :=
  if queue_bad slot then - EINVAL
  else
    let e := infer_queue st !!! Z.to_nat slot in
    if negb (qe_used e) then - EINVAL
    else if qe_ready e then 1
    else if qe_timed_out e then - EAGAIN
    else 0.

Definition infer_queue_remove (slot : Z) (st : infer_st) : infer_st :=
  if queue_bad slot then st
  else
    let i := Z.to_nat slot in
    set_qent i ((infer_queue st !!! i) <| qe_used := false |> <| qe_ready := false |>
                                       <| qe_timed_out := false |>) st.

Definition queue_waiting (e : infer_queue_entry) : bool :=
  qe_used e && negb (qe_ready e || qe_timed_out e).

(** The scan of [infer_queue_drain]: [i] is the position, [tick] and [slot] the
    best so far. *)
Fixpoint drain_scan (name : list Z) (q : list infer_queue_entry) (i : nat) (tick : Z) (slot : option nat)
    : option nat :=
  match q with
  | [] => slot
  | e :: q' =>
      if queue_waiting e && str_eq (qe_name e) name && (qe_enqueue_tick e <? tick)
      then drain_scan name q' (S i) (qe_enqueue_tick e) (Some i)
      else drain_scan name q' (S i) tick slot
  end.

Definition infer_queue_drain (name : list Z) (st : infer_st) : infer_st :=
  match drain_scan name (infer_queue st) 0 0xFFFFFFFF None with
  | None => st
  | Some i => set_qent i ((infer_queue st !!! i) <| qe_ready := true |>) st
  end.

(** One entry of [infer_queue_expire], and how many timed out. *)
Definition queue_stale (now : Z) (e : infer_queue_entry) : bool :=
  queue_waiting e && (INFER_QUEUE_TIMEOUT <? u32 (u32 now - qe_enqueue_tick e)).

Definition infer_queue_expire (now : Z) (st : infer_st) : infer_st :=
  st <| infer_queue := (λ e, if queue_stale now e then e <| qe_timed_out := true |> else e)
                         <$> infer_queue st |>
     <| infer_queue_total_timeouts :=
          u32 (infer_queue_total_timeouts st + Z.of_nat (countb (queue_stale now) (infer_queue st))) |>.

(** [infer_queue_get_stat]: capacity, pending, total queued, total timeouts. *)
Definition infer_queue_get_stat (st : infer_st) : Z * Z * Z * Z :=
  (Z.of_nat INFER_QUEUE_SIZE, Z.of_nat (countb queue_waiting (infer_queue st)),
   infer_queue_total_queued st, infer_queue_total_timeouts st).

(** ** Registration and health *)

(** The fields that (re-)registration sets. *)
Definition svc_reset (name sock_path : list Z) (ns : Z) (s : infer_service) : infer_service :=
  s <| sc_name := str_copy (sc_name s) name INFER_NAME_MAX |>
    <| sc_sock_path := str_copy (sc_sock_path s) sock_path INFER_SOCK_PATH_MAX |>
    <| sc_ns_id := ns |> <| sc_load := 0 |> <| sc_healthy := false |>
    <| sc_last_heartbeat := 0 |> <| sc_total_requests := 0 |>.

(** [proc_ns pid] is the namespace of the process when it exists. *)
Definition infer_register (proc_ns : Z → option Z) (name sock_path : list Z) (pid : Z) (st : infer_st)
    : Z * infer_st :=
  let ns := default 0 (proc_ns pid) in
  match find_idx (λ s, sc_used s && (sc_provider_pid s =? pid)) (infer_table st) with
  | Some i => (0, set_svc i (svc_reset name sock_path ns (infer_table st !!! i)) st)
  | None =>
      match find_idx (λ s, negb (sc_used s)) (infer_table st) with
      | Some i =>
          (0, set_svc i (svc_reset name sock_path ns
                ((infer_table st !!! i) <| sc_used := true |> <| sc_provider_pid := pid |>)) st)
      | None => (- ENOSPC, st)
      end
  end.

Definition infer_lookup (name : list Z) (st : infer_st) : Z :=
  match find_idx (λ s, sc_used s && str_eq (sc_name s) name) (infer_table st) with
  | Some i => Z.of_nat i
  | None => - ENOENT
  end.

Definition infer_get (idx : Z) (st : infer_st) : option nat :=
  if (idx <? 0) || (Z.of_nat MAX_INFER_SERVICES <=? idx) then None
  else if sc_used (infer_table st !!! Z.to_nat idx) then Some (Z.to_nat idx) else None.

Definition infer_unregister_pid (pid : Z) (st : infer_st) : infer_st :=
  st <| infer_table := (λ s, if sc_used s && (sc_provider_pid s =? pid) then
            s <| sc_used := false |> <| sc_name := <[O := 0]> (sc_name s) |>
              <| sc_sock_path := <[O := 0]> (sc_sock_path s) |> <| sc_provider_pid := 0 |>
              <| sc_ns_id := 0 |> <| sc_load := 0 |> <| sc_healthy := false |>
              <| sc_last_heartbeat := 0 |> <| sc_total_requests := 0 |>
          else s) <$> infer_table st |>.

(** The health report drains one request that waits for the service. *)
Definition infer_health (now pid load : Z) (st : infer_st) : Z * infer_st :=
  match find_idx (λ s, sc_used s && (sc_provider_pid s =? pid)) (infer_table st) with
  | None => (- ESRCH, st)
  | Some i =>
      let s := infer_table st !!! i in
      let st1 := set_svc i (s <| sc_load := load |> <| sc_healthy := true |>
                              <| sc_last_heartbeat := u32 now |>) st in
      (0, infer_queue_drain (str_copy (replicate INFER_NAME_MAX 0) (sc_name s) INFER_NAME_MAX) st1)
  end.

Definition svc_stale (now : Z) (s : infer_service) : bool :=
  sc_used s && sc_healthy s && (INFER_HEALTH_TIMEOUT <? u32 (u32 now - sc_last_heartbeat s)).

Definition infer_health_check (now : Z) (st : infer_st) : Z * infer_st :=
  (Z.of_nat (countb (svc_stale now) (infer_table st)),
   st <| infer_table := (λ s, if svc_stale now s then s <| sc_healthy := false |> else s)
                          <$> infer_table st |>).

Definition infer_set_policy (policy : Z) (st : infer_st) : Z * infer_st :=
  if INFER_ROUTE_WEIGHTED <? policy then (- EINVAL, st)
  else (0, st <| route_policy := policy |> <| rr_counter := 0 |>).

Definition infer_get_policy (st : infer_st) : Z := route_policy st.

Definition infer_swap (name new_sock_path : list Z) (pid : Z) (st : infer_st) : Z * infer_st :=
  match find_idx (λ s, sc_used s && str_eq (sc_name s) name && (sc_provider_pid s =? pid))
          (infer_table st) with
  | None => (- ENOENT, st)
  | Some i =>
      let s := infer_table st !!! i in
      (0, set_svc i (s <| sc_sock_path := str_copy (sc_sock_path s) new_sock_path INFER_SOCK_PATH_MAX |>
                       <| sc_load := 0 |> <| sc_healthy := false |> <| sc_last_heartbeat := 0 |>) st)
  end.

(** ** Routing *)

(** The test of the candidate loop of [infer_route] and, with the namespace
    filter, of [infer_route_ns]. *)
Definition route_match (name : list Z) (s : infer_service) : bool :=
  sc_used s && str_eq (sc_name s) name && sc_healthy s.
Definition route_match_ns (name : list Z) (ns_id : Z) (s : infer_service) : bool :=
  route_match name s && negb (negb (ns_id =? 0) && negb (sc_ns_id s =? ns_id)).

(** The candidate loop: entries of dead providers are freed on the way. *)
Fixpoint route_collect (alive : Z → bool) (p : infer_service → bool) (i : nat) (tbl : list infer_service)
    : list nat * list infer_service :=
  match tbl with
  | [] => ([], [])
  | s :: tbl' =>
      let '(c, t) := route_collect alive p (S i) tbl' in
      if p s then
        if alive (sc_provider_pid s) then (i :: c, s :: t)
        else (c, s <| sc_used := false |> <| sc_healthy := false |> :: t)
      else (c, s :: t)
  end.

(** [max_load] of the weighted policy. *)
Definition max_load (loads : list Z) : Z := foldl (λ m l, if m <? l then l else m) 0 loads.

Definition route_weight (max load : Z) : Z := u32 (u32 (max - load) + 1).

(** The cumulative loop: the position of the first candidate whose cumulative
    weight exceeds [pick]. *)
Fixpoint weighted_scan (ws : list Z) (pick cumulative : Z) (j : nat) : option nat :=
  match ws with
  | [] => None
  | w :: ws' =>
      let c := u32 (cumulative + w) in
      if pick <? c then Some j else weighted_scan ws' pick c (S j)
  end.

(** The weighted policy on the candidates' loads: a position. *)
Definition weighted_pick (loads : list Z) (rr : Z) : nat :=
  let ws := route_weight (max_load loads) <$> loads in
  let total := foldl (λ t w, u32 (t + w)) 0 ws in
  let pick := rr mod (if total =? 0 then 1 else total) in
  default (length loads - 1)%nat (weighted_scan ws pick 0 0).

(** The least-loaded loop: a position, or none when no load is below
    0xFFFFFFFF. *)
Fixpoint least_scan (loads : list Z) (best : Z) (chosen : option nat) (j : nat) : option nat :=
  match loads with
  | [] => chosen
  | l :: loads' =>
      if l <? best then least_scan loads' l (Some j) (S j) else least_scan loads' best chosen (S j)
  end.

(** The policy switch: the chosen position among [n > 0] candidates with these
    loads, and the new counter. *)
Definition route_choose (policy rr : Z) (loads : list Z) : option nat * Z :=
  if policy =? INFER_ROUTE_ROUND_ROBIN then
    (Some (Z.to_nat (rr mod Z.of_nat (length loads))), u32 (rr + 1))
  else if policy =? INFER_ROUTE_WEIGHTED then (Some (weighted_pick loads rr), u32 (rr + 1))
  else (least_scan loads 0xFFFFFFFF None 0, rr).

(** The rest of both routing functions, once the candidates are known. *)
Definition route_finish (cands : list nat) (tbl : list infer_service) (st : infer_st) : Z * infer_st :=
  let st := st <| infer_table := tbl |> in
  if decide (cands = []) then (- ENOENT, st)
  else
    let loads := (λ i, sc_load (tbl !!! i)) <$> cands in
    let '(pos, rr) := route_choose (route_policy st) (rr_counter st) loads in
    let st := st <| rr_counter := rr |> in
    match pos with
    | None => (-1, st)
    | Some j =>
        let i := cands !!! j in
        let s := tbl !!! i in
        (Z.of_nat i, set_svc i (s <| sc_total_requests := u32 (sc_total_requests s + 1) |>) st)
    end.

Definition infer_route (alive : Z → bool) (name : list Z) (st : infer_st) : Z * infer_st :=
  let '(cands, tbl) := route_collect alive (route_match name) 0 (infer_table st) in
  route_finish cands tbl st.

Definition infer_route_ns (alive : Z → bool) (name : list Z) (ns_id : Z) (st : infer_st) : Z * infer_st :=
  let '(cands, tbl) := route_collect alive (route_match_ns name ns_id) 0 (infer_table st) in
  route_finish cands tbl st.

(** ** Specifications *)

(** A provider that a request may be routed to. *)
Definition eligible (alive : Z → bool) (p : infer_service → bool) (s : infer_service) : bool :=
  p s && alive (sc_provider_pid s).

(** The positions, from [i] on, that satisfy a test. *)
Fixpoint positions {A} (p : A → bool) (i : nat) (l : list A) : list nat :=
  match l with
  | [] => []
  | x :: l' => if p x then i :: positions p (S i) l' else positions p (S i) l'
  end.

(** The table after the candidate loop. *)
Definition route_sweep (alive : Z → bool) (p : infer_service → bool) (s : infer_service) : infer_service :=
  if p s && negb (alive (sc_provider_pid s)) then s <| sc_used := false |> <| sc_healthy := false |> else s.

(** Sum of the first [j] weights. *)
Definition psum (ws : list Z) (j : nat) : Z := foldr Z.add 0 (take j ws).

(** Weights without wrap-around. *)
Definition exact_weight (max load : Z) : Z := max - load + 1.

(** The results of [n] routing calls in a row. *)
Fixpoint route_run (alive : Z → bool) (name : list Z) (n : nat) (st : infer_st) : list Z * infer_st :=
  match n with
  | O => ([], st)
  | S n' =>
      let '(r, st1) := infer_route alive name st in
      let '(rs, st2) := route_run alive name n' st1 in (r :: rs, st2)
  end.

(** ** Lemmas *)

Lemma positions_spec {A} (p : A → bool) i l k :
  k ∈ positions p i l ↔ ∃ x, (i ≤ k)%nat ∧ l !! (k - i)%nat = Some x ∧ p x = true.
Proof.
  revert i. induction l as [|a l IH]; intros i; cbn [positions].
  { rewrite elem_of_nil. split; [done|]. intros (x & _ & H & _). by rewrite lookup_nil in H. }
  assert (k ∈ positions p (S i) l ↔ ∃ x, (S i ≤ k)%nat ∧ (a :: l) !! (k - i)%nat = Some x ∧ p x = true) as IH'.
  { rewrite IH. split; intros (x & Hk & Hx & Hp); exists x; (split; [done|]);
      replace (k - i)%nat with (S (k - S i)) in * by lia; done. }
  destruct (p a) eqn:Ha.
  - rewrite elem_of_cons, IH'. split.
    + intros [->|(x & ? & ? & ?)]; [exists a; rewrite Nat.sub_diag; split_and!; done || lia|].
      exists x. split_and!; done || lia.
    + intros (x & Hk & Hx & Hp). destruct (decide (k = i)) as [->|]; [by left|].
      right. exists x. split_and!; done || lia.
  - rewrite IH'. split; intros (x & Hk & Hx & Hp); exists x; (split; [|done]); [lia|].
    destruct (decide (k = i)) as [->|]; [|lia].
    rewrite Nat.sub_diag in Hx. cbn in Hx. congruence.
Qed.

Lemma positions_ext {A} (p q : A → bool) i l k :
  Forall2 (λ x y, p x = q y) l k → positions p i l = positions q i k.
Proof.
  intros HF. revert i. induction HF as [|x y l k Hxy _ IH]; intros i; cbn; [done|].
  by rewrite Hxy, IH.
Qed.

Lemma route_collect_spec alive p i tbl :
  route_collect alive p i tbl = (positions (eligible alive p) i tbl, route_sweep alive p <$> tbl).
Proof.
  revert i. induction tbl as [|s tbl IH]; intros i; cbn [route_collect positions fmap list_fmap]; [done|].
  rewrite IH. unfold eligible, route_sweep. by destruct (p s), (alive (sc_provider_pid s)).
Qed.

Lemma least_scan_spec loads best chosen j :
  match least_scan loads best chosen j with
  | Some k =>
      (chosen = Some k ∧ Forall (λ l, best ≤ l) loads) ∨
      (∃ m l, k = (j + m)%nat ∧ loads !! m = Some l ∧ l < best ∧ Forall (λ x, l ≤ x) loads)
  | None => chosen = None ∧ Forall (λ l, best ≤ l) loads
  end.
Proof.
  revert best chosen j. induction loads as [|l loads IH]; intros best chosen j; cbn [least_scan].
  { destruct chosen; [left|]; split; done || constructor. }
  destruct (l <? best) eqn:E; bool_hyps.
  - specialize (IH l (Some j) (S j)). destruct (least_scan loads l (Some j) (S j)) as [k|]; [|by destruct IH].
    right. destruct IH as [([= <-] & Hf)|(m & x & -> & Hm & Hx & Hf)].
    + exists O, l. split_and!; [lia|done|done|]. constructor; [lia|done].
    + exists (S m), x. split_and!; [lia|done|lia|]. constructor; [lia|done].
  - specialize (IH best chosen (S j)). destruct (least_scan loads best chosen (S j)) as [k|].
    + destruct IH as [(-> & Hf)|(m & x & -> & Hm & Hx & Hf)].
      * left. split; [done|]. constructor; [lia|done].
      * right. exists (S m), x. split_and!; [lia|done|done|]. constructor; [lia|done].
    + destruct IH as (-> & Hf). split; [done|]. constructor; [lia|done].
Qed.

Lemma max_load_spec loads m :
  Forall (λ l, l ≤ foldl (λ m l, if m <? l then l else m) m loads) loads ∧
  m ≤ foldl (λ m l, if m <? l then l else m) m loads.
Proof.
  revert m. induction loads as [|l loads IH]; intros m; cbn [foldl].
  { split; [constructor|lia]. }
  destruct (IH (if m <? l then l else m)) as [H1 H2]. destruct (m <? l) eqn:E; bool_hyps;
    (split; [constructor; [lia|done]|lia]).
Qed.

Lemma psum_S ws j w : ws !! j = Some w → psum ws (S j) = psum ws j + w.
Proof.
  intros Hj. unfold psum. rewrite (take_S_r _ _ _ Hj), foldr_app. cbn. rewrite Z.add_0_r.
  generalize (take j ws) as l. induction l as [|x l IH]; cbn; lia.
Qed.

Lemma psum_cons w ws j : psum (w :: ws) (S j) = w + psum ws j.
Proof. done. Qed.

Lemma psum_nonneg ws j : Forall (λ w, 0 < w) ws → 0 ≤ psum ws j.
Proof.
  intros Hf. unfold psum. apply (Forall_take _ j) in Hf. induction Hf as [|w l Hw _ IH]; cbn in *; lia.
Qed.

(** The cumulative loop finds the interval of prefix sums that holds [pick]. *)
Lemma weighted_scan_spec ws pick c k :
  Forall (λ w, 0 < w) ws → 0 ≤ c → c + psum ws (length ws) < 2 ^ 32 →
  c ≤ pick < c + psum ws (length ws) →
  ∃ j, weighted_scan ws pick c k = Some (k + j)%nat ∧ (j < length ws)%nat ∧
    c + psum ws j ≤ pick < c + psum ws (S j).
Proof.
  revert c k. induction ws as [|w ws IH]; intros c k Hf Hc Hsum Hpick; [cbn in Hpick; lia|].
  apply Forall_cons in Hf as [Hw Hf]. cbn [length] in *. rewrite psum_cons in *.
  pose proof (psum_nonneg ws (length ws) Hf). cbn [weighted_scan]. rewrite u32_id by lia.
  destruct (pick <? c + w) eqn:E; bool_hyps.
  - exists O. rewrite Nat.add_0_r. change (psum (w :: ws) 0) with 0.
    change (psum (w :: ws) 1) with (w + 0). split_and!; done || lia.
  - destruct (IH (c + w) (S k)) as (j & -> & Hj & Hlo & Hhi); [done|lia|lia|lia|].
    exists (S j). rewrite !psum_cons. split_and!; [f_equal; lia|lia|lia|lia].
Qed.

Lemma weight_sum ws t :
  Forall (λ w, 0 < w) ws → 0 ≤ t → t + psum ws (length ws) < 2 ^ 32 →
  foldl (λ t w, u32 (t + w)) t ws = t + psum ws (length ws).
Proof.
  revert t. induction ws as [|w ws IH]; intros t Hf Ht Hsum; [cbn; lia|].
  apply Forall_cons in Hf as [Hw Hf]. cbn [length foldl] in *. rewrite psum_cons in *.
  pose proof (psum_nonneg ws (length ws) Hf). rewrite u32_id by lia. rewrite IH by (done || lia). lia.
Qed.

(** The result of the policy switch is a position among the candidates. *)
Lemma route_choose_spec policy rr loads :
  loads ≠ [] → 0 ≤ rr → Forall (λ l, 0 ≤ l < 2 ^ 32) loads →
  match (route_choose policy rr loads).1 with
  | Some j => (j < length loads)%nat
  | None => policy ≠ INFER_ROUTE_ROUND_ROBIN ∧ policy ≠ INFER_ROUTE_WEIGHTED ∧
      Forall (λ l, l = 2 ^ 32 - 1) loads
  end.
Proof.
  intros Hne Hrr Hf. assert (0 < length loads)%nat as Hlen by (destruct loads; [done|cbn; lia]).
  unfold route_choose. destruct (policy =? INFER_ROUTE_ROUND_ROBIN) eqn:E1; bool_hyps.
  { cbn. pose proof (Z.mod_pos_bound rr (Z.of_nat (length loads)) ltac:(lia)). lia. }
  destruct (policy =? INFER_ROUTE_WEIGHTED) eqn:E2; bool_hyps.
  { cbn. unfold weighted_pick. destruct (weighted_scan _ _ _ _) as [j|] eqn:Ew; cbn; [|lia].
    assert (∀ ws pick c k j, weighted_scan ws pick c k = Some j → (j < k + length ws)%nat) as H.
    { intros ws. induction ws as [|w ws IH]; intros pick c k j0; cbn [weighted_scan length]; [done|].
      destruct (_ <? _); [intros [= <-]; lia|]. intros H%IH. lia. }
    apply H in Ew. rewrite length_fmap in Ew. lia. }
  cbn [fst]. pose proof (least_scan_spec loads 0xFFFFFFFF None 0) as H.
  destruct (least_scan _ _ _ _) as [k|].
  - destruct H as [[[=] _]|(m & l & -> & Hm & _)]. by eapply lookup_lt_Some.
  - destruct H as [_ H]. split_and!; [done..|]. rewrite Forall_forall in Hf, H |- *.
    intros l Hl. specialize (Hf l Hl). specialize (H l Hl). lia.
Qed.

(** Both routing functions end the same way. *)
Lemma route_finish_cases alive p st :
  0 ≤ rr_counter st → Forall (λ s, 0 ≤ sc_load s < 2 ^ 32) (infer_table st) →
  let cands := positions (eligible alive p) 0 (infer_table st) in
  let tbl := route_sweep alive p <$> infer_table st in
  let '(r, st') := route_finish cands tbl st in
  route_policy st' = route_policy st ∧
  ((r = - ENOENT ∧ cands = [] ∧ infer_table st' = tbl) ∨
   (r = -1 ∧ cands ≠ [] ∧ infer_table st' = tbl ∧ route_policy st ≠ INFER_ROUTE_ROUND_ROBIN ∧ route_policy st ≠ INFER_ROUTE_WEIGHTED ∧
      ∀ i s, infer_table st !! i = Some s → eligible alive p s = true → sc_load s = 2 ^ 32 - 1) ∨
   (∃ i s, r = Z.of_nat i ∧ infer_table st !! i = Some s ∧ eligible alive p s = true ∧
      infer_table st' = <[i := s <| sc_total_requests := u32 (sc_total_requests s + 1) |>]> tbl)).
Proof.
  intros Hrr Hloads cands tbl. unfold route_finish. case_decide as Hc; [by eauto|].
  set (loads := (λ i, sc_load (tbl !!! i)) <$> cands).
  assert (∀ i, i ∈ cands → ∃ s, infer_table st !! i = Some s ∧ eligible alive p s = true ∧ tbl !!! i = s) as Hin.
  { intros i (s & _ & Hs & He)%positions_spec. rewrite Nat.sub_0_r in Hs. exists s. split_and!; [done..|].
    apply list_lookup_total_correct. unfold tbl. rewrite list_lookup_fmap, Hs. cbn. f_equal.
    unfold route_sweep, eligible in *. by destruct (p s), (alive (sc_provider_pid s)). }
  pose proof (route_choose_spec (route_policy st) (rr_counter st) loads) as H.
  change (route_policy (st <| infer_table := tbl |>)) with (route_policy st).
  change (rr_counter (st <| infer_table := tbl |>)) with (rr_counter st).
  destruct (route_choose (route_policy st) (rr_counter st) loads) as [pos rr]. cbn [fst] in H.
  assert (loads ≠ []) as Hln by (unfold loads; by destruct cands).
  assert (Forall (λ l, 0 ≤ l < 2 ^ 32) loads) as Hlf.
  { apply Forall_fmap, Forall_forall. intros i Hi. destruct (Hin i Hi) as (s & Hs & _ & Ht).
    cbn. rewrite Ht. by apply (Forall_lookup_1 _ _ _ _ Hloads Hs). }
  specialize (H Hln Hrr Hlf). destruct pos as [j|].
  - split; [done|]. right; right. unfold loads in H. rewrite length_fmap in H.
    destruct (lookup_lt_is_Some_2 cands j H) as [i Hi].
    rewrite (list_lookup_total_correct _ _ _ Hi).
    destruct (Hin i) as (s & Hs & He & ->); [by eapply list_elem_of_lookup_2|]. by exists i, s.
  - split; [done|]. right; left. destruct H as (Hp1 & Hp2 & Hall). split_and!; [done..|].
    intros i s Hs He. assert (i ∈ cands) as Hi.
    { apply positions_spec. exists s. rewrite Nat.sub_0_r. split_and!; [lia|done..]. }
    destruct (Hin i Hi) as (s' & Hs' & _ & Ht). simplify_eq.
    unfold loads in Hall. rewrite Forall_fmap, Forall_forall in Hall. specialize (Hall i Hi).
    cbn in Hall. congruence.
Qed.

(** ** Main theorems *)

(** C33.  Routing in a namespace is sound: the index returned is a used, healthy
    provider of that name, alive, and in the namespace asked for (any for
    namespace 0); its request counter goes up by one, the used and healthy providers of
    that name and namespace whose process has died are removed, and nothing else in the
    table changes.  [-ENOENT] means that there is no such provider, and -1 occurs only
    under a policy that is neither round robin nor weighted, that is the least-loaded
    one, when every such provider reports the load 0xFFFFFFFF. *)
Theorem infer_route_ns_sound alive name ns st :
  0 ≤ rr_counter st → Forall (λ s, 0 ≤ sc_load s < 2 ^ 32) (infer_table st) →
  let ok s := sc_used s = true ∧ sc_healthy s = true ∧ c_str (sc_name s) = c_str name ∧
              alive (sc_provider_pid s) = true ∧ (ns = 0 ∨ sc_ns_id s = ns) in
  let swept := route_sweep alive (route_match_ns name ns) <$> infer_table st in
  let '(r, st') := infer_route_ns alive name ns st in
  (r = - ENOENT ∧ infer_table st' = swept ∧ ∀ i s, infer_table st !! i = Some s → ¬ ok s) ∨
  (r = -1 ∧ infer_table st' = swept ∧ route_policy st ≠ INFER_ROUTE_ROUND_ROBIN ∧ route_policy st ≠ INFER_ROUTE_WEIGHTED ∧
     ∀ i s, infer_table st !! i = Some s → ok s → sc_load s = 2 ^ 32 - 1) ∨
  (∃ i s, r = Z.of_nat i ∧ infer_table st !! i = Some s ∧ ok s ∧
     infer_table st' = <[i := s <| sc_total_requests := u32 (sc_total_requests s + 1) |>]> swept).
Proof.
  intros Hrr Hloads ok swept. unfold infer_route_ns. rewrite route_collect_spec. cbv beta iota.
  pose proof (route_finish_cases alive (route_match_ns name ns) st Hrr Hloads) as H. cbv zeta in H.
  fold swept in H |- *. destruct (route_finish _ swept st) as [r st']. destruct H as [_ H].
  assert (∀ s, eligible alive (route_match_ns name ns) s = true ↔ ok s) as Hok.
  { intros s. unfold eligible, route_match_ns, route_match, ok.
    rewrite !andb_true_iff, negb_true_iff, andb_false_iff, !negb_false_iff, !Z.eqb_eq, str_eq_true.
    naive_solver. }
  destruct H as [(-> & Hc & Ht)|[(-> & _ & Ht & Hp & Hp2 & Hl)|(i & s & -> & Hi & He & Ht)]].
  - left. split_and!; [done..|]. intros i s Hi Hs%Hok.
    assert (i ∈ positions (eligible alive (route_match_ns name ns)) 0 (infer_table st)) as Hin
      by (apply positions_spec; exists s; rewrite Nat.sub_0_r; split_and!; [lia|done..]).
    rewrite Hc in Hin. by apply elem_of_nil in Hin.
  - right; left. split_and!; [done..|]. intros i s Hi Hs%Hok. eauto.
  - right; right. exists i, s. split_and!; [done| done|by apply Hok..|done].
Qed.

(** The weighted policy: as long as the weights [max - load + 1] do not
    overflow 32 bits, the candidate at position [j] is chosen exactly for the
    counter values that fall, modulo the total weight, into an interval of
    length [weight j]: each candidate gets its share of every [total]
    consecutive requests, and a lower load means a larger share. *)
Theorem weighted_pick_share loads rr j :
  let m := max_load loads in
  let ws := exact_weight m <$> loads in
  let total := psum ws (length ws) in
  loads ≠ [] → Forall (λ l, 0 ≤ l) loads → total < 2 ^ 32 → 0 ≤ rr → (j < length loads)%nat →
  weighted_pick loads rr = j ↔ psum ws j ≤ rr mod total < psum ws (S j).
Proof.
  intros m ws total Hne Hf Htot Hrr Hj.
  destruct (max_load_spec loads 0) as [Hmax _]. fold (max_load loads) in Hmax. fold m in Hmax.
  assert (Forall (λ w, 0 < w) ws) as Hpos.
  { apply Forall_fmap. eapply Forall_impl; [exact Hmax|]. intros l Hl. cbv beta in Hl. unfold compose, exact_weight. lia. }
  assert (∀ k w, ws !! k = Some w → psum ws k + w ≤ total) as Hle.
  { intros k w Hk. rewrite <-(psum_S _ _ _ Hk). unfold total, psum.
    rewrite <-(take_drop (S k) (take (length ws) ws)), take_take, Nat.min_l by (by eapply lookup_lt_Some in Hk).
    rewrite foldr_app. assert (0 ≤ foldr Z.add 0 (drop (S k) (take (length ws) ws))) as H0.
    { apply Forall_drop with (n:=S k) in Hpos. rewrite firstn_all.
      induction Hpos as [|w' l Hw' _ IH]; cbn in *; lia. }
    revert H0. generalize (foldr Z.add 0 (drop (S k) (take (length ws) ws))) as x.
    generalize (take (S k) ws) as l. intros l x Hx. induction l as [|y l IH]; cbn; lia. }
  assert (route_weight m <$> loads = ws) as Hws.
  { apply list_fmap_ext. intros k l Hl. unfold route_weight, exact_weight.
    pose proof (Forall_lookup_1 _ _ _ _ Hmax Hl). pose proof (Forall_lookup_1 _ _ _ _ Hf Hl).
    specialize (Hle k (exact_weight m l)). unfold ws in Hle. rewrite list_lookup_fmap, Hl in Hle.
    specialize (Hle eq_refl). fold ws in Hle. unfold exact_weight in Hle.
    pose proof (psum_nonneg ws k Hpos). cbv beta in *. rewrite (u32_id (m - l)) by lia. rewrite u32_id by lia. done. }
  assert (0 < total) as Htp.
  { destruct loads as [|l loads]; [done|]. specialize (Hle O _ eq_refl).
    pose proof (Forall_lookup_1 _ _ O _ Hpos eq_refl). cbn in *. lia. }
  unfold weighted_pick. fold m. rewrite Hws, weight_sum by (done || lia). rewrite Z.add_0_l. fold total.
  destruct (total =? 0) eqn:E; bool_hyps; [lia|].
  pose proof (Z.mod_pos_bound rr total Htp) as Hmod.
  destruct (weighted_scan_spec ws (rr mod total) 0 0) as (k & -> & Hk & Hlo & Hhi); [done|lia|lia|lia|].
  cbn [from_option id Nat.add]. rewrite !Z.add_0_l in Hlo, Hhi.
  split; [by intros <-|]. intros [Hl Hh].
  assert (∀ a b, (a < b)%nat → (b ≤ length ws)%nat → psum ws (S a) ≤ psum ws b) as Hmono.
  { intros a b Hab Hb. induction b as [|b IH]; [lia|]. destruct (decide (a = b)) as [->|]; [lia|].
    destruct (lookup_lt_is_Some_2 ws b) as [w Hw]; [lia|]. rewrite (psum_S _ _ _ Hw).
    pose proof (Forall_lookup_1 _ _ _ _ Hpos Hw). cbn in *. specialize (IH ltac:(lia) ltac:(lia)). lia. }
  assert (length ws = length loads) as Hlw by apply length_fmap.
  destruct (decide (k < j)%nat); [specialize (Hmono k j ltac:(lia) ltac:(lia)); lia|].
  destruct (decide (j < k)%nat); [specialize (Hmono j k ltac:(lia) ltac:(lia)); lia|]. lia.
Qed.

(** *** Round robin *)

Definition candidates (alive : Z → bool) (name : list Z) (st : infer_st) : list nat :=
  positions (eligible alive (route_match name)) 0 (infer_table st).

Lemma eligible_sweep alive name s :
  eligible alive (route_match name) (route_sweep alive (route_match name) s) =
  eligible alive (route_match name) s.
Proof.
  unfold route_sweep. destruct (route_match name s && negb (alive (sc_provider_pid s))) eqn:E; [|done].
  bool_hyps. unfold eligible. rewrite H0. by rewrite !andb_false_r.
Qed.

Lemma rr_step alive name st :
  let c := candidates alive name st in
  route_policy st = INFER_ROUTE_ROUND_ROBIN → c ≠ [] → 0 ≤ rr_counter st < 2 ^ 32 - 1 →
  ∃ st', infer_route alive name st =
      (Z.of_nat (c !!! Z.to_nat (rr_counter st mod Z.of_nat (length c))), st') ∧
    route_policy st' = INFER_ROUTE_ROUND_ROBIN ∧ rr_counter st' = rr_counter st + 1 ∧
    candidates alive name st' = c.
Proof.
  intros c Hp Hc Hrr. unfold infer_route. rewrite route_collect_spec. cbv beta iota.
  fold (candidates alive name st). fold c. unfold route_finish. rewrite decide_False by done.
  change (route_policy (st <| infer_table := _ |>)) with (route_policy st).
  change (rr_counter (st <| infer_table := _ |>)) with (rr_counter st).
  unfold route_choose. rewrite Hp, Z.eqb_refl, length_fmap. cbv beta iota.
  rewrite (u32_id (rr_counter st + 1)) by lia.
  set (k := Z.to_nat (rr_counter st mod Z.of_nat (length c))).
  set (tbl := route_sweep alive (route_match name) <$> infer_table st).
  eexists. split; [reflexivity|]. split; [done|]. split; [done|].
  unfold candidates, c. symmetry. apply positions_ext. cbn [set_svc field_upd infer_table].
  assert (k < length c)%nat as Hk.
  { assert (0 < length c)%nat by (destruct c; [done|cbn; lia]).
    pose proof (Z.mod_pos_bound (rr_counter st) (Z.of_nat (length c)) ltac:(lia)). unfold k. lia. }
  destruct (lookup_lt_is_Some_2 c k Hk) as [i Hi]. rewrite (list_lookup_total_correct _ _ _ Hi).
  apply Forall2_same_length_lookup. split; [unfold tbl; by rewrite length_insert, length_fmap|].
  intros a x y Hx Hy. apply list_lookup_insert_cases in Hy as [(-> & -> & _)|(_ & Hy)].
  - assert (tbl !! i = Some (route_sweep alive (route_match name) x)) as Ht
      by (unfold tbl; by rewrite list_lookup_fmap, Hx).
    rewrite (list_lookup_total_correct _ _ _ Ht), <-(eligible_sweep alive name x). done.
  - unfold tbl in Hy. rewrite list_lookup_fmap, Hx in Hy. injection Hy as <-. by rewrite eligible_sweep.
Qed.

(** Round robin is fair: as long as providers do not come, go or change their
    health and the 32-bit counter does not wrap, any [k] requests in a row go
    to the candidates in cyclic order; so every provider gets exactly one of
    any [n] requests in a row for [n] candidates. *)
Theorem round_robin_fair alive name st k :
  let c := candidates alive name st in
  route_policy st = INFER_ROUTE_ROUND_ROBIN → c ≠ [] →
  0 ≤ rr_counter st → rr_counter st + Z.of_nat k < 2 ^ 32 →
  (route_run alive name k st).1 =
    (λ j, Z.of_nat (c !!! Z.to_nat ((rr_counter st + Z.of_nat j) mod Z.of_nat (length c)))) <$> seq 0 k.
Proof.
  intros c Hp Hc Hrr Hlt. subst c. revert st Hp Hc Hrr Hlt.
  induction k as [|k IH]; intros st Hp Hc Hrr Hlt; [done|]. cbn [route_run].
  destruct (rr_step alive name st) as (st1 & -> & Hp1 & Hrr1 & Hc1); [done|done|lia|].
  specialize (IH st1 Hp1). rewrite Hc1, Hrr1 in IH.
  destruct (route_run alive name k st1) as [rs st2]. cbn [fst] in IH |- *.
  rewrite IH by (done || lia). cbn [seq fmap list_fmap]. f_equal.
  - by rewrite Z.add_0_r.
  - rewrite <-fmap_S_seq, <-list_fmap_compose. apply list_fmap_ext. intros j x _. cbn.
    do 4 f_equal. lia.
Qed.

(** *** Health and the request queue *)

(** A health check marks exactly the healthy providers whose last report is
    more than 3600 ticks old (on the 32-bit clock, so across its wrap-around)
    and returns their number. *)
Theorem health_check_exact now st i s :
  infer_table st !! i = Some s → 0 ≤ sc_last_heartbeat s < 2 ^ 32 →
  ∀ age, 0 ≤ age < 2 ^ 32 → now = sc_last_heartbeat s + age →
  let '(n, st') := infer_health_check now st in
  infer_table st' !! i =
    Some (if decide (sc_used s = true ∧ sc_healthy s = true ∧ INFER_HEALTH_TIMEOUT < age)
          then s <| sc_healthy := false |> else s) ∧
  n = Z.of_nat (countb sc_healthy (infer_table st)) - Z.of_nat (countb sc_healthy (infer_table st')).
Proof.
  intros Hi Hh age Hage ->. cbn [infer_health_check]. split.
  - cbn [field_upd infer_table]. rewrite list_lookup_fmap, Hi. cbn. f_equal.
    assert (u32 (u32 (sc_last_heartbeat s + age) - sc_last_heartbeat s) = age) as Hel.
    { unfold u32. rewrite Zminus_mod_idemp_l. replace (sc_last_heartbeat s + age - sc_last_heartbeat s)
        with age by lia. by apply Z.mod_small. }
    unfold svc_stale. rewrite Hel.
    destruct (sc_used s), (sc_healthy s); cbn [andb]; try (rewrite decide_False by naive_solver; done).
    destruct (_ <? age) eqn:E; bool_hyps; [rewrite decide_True by done|rewrite decide_False by lia]; done.
  - cbn [field_upd infer_table]. generalize (infer_table st) as l. intros l. clear.
    set (now := _ + age). clearbody now. induction l as [|x l IH]; [done|].
    cbn [fmap list_fmap]. rewrite !countb_cons. destruct (svc_stale now x) eqn:E.
    + unfold svc_stale in E. bool_hyps. cbn [field_upd sc_healthy]. rewrite H1. lia.
    + destruct (sc_healthy x); lia.
Qed.

Lemma drain_scan_spec name q i tick slot :
  match drain_scan name q i tick slot with
  | Some k =>
      (slot = Some k ∧ ∀ m e, q !! m = Some e → queue_waiting e = true → c_str (qe_name e) = c_str name →
         tick ≤ qe_enqueue_tick e) ∨
      (∃ m e, k = (i + m)%nat ∧ q !! m = Some e ∧ queue_waiting e = true ∧
         c_str (qe_name e) = c_str name ∧ qe_enqueue_tick e < tick ∧
         ∀ m' e', q !! m' = Some e' → queue_waiting e' = true → c_str (qe_name e') = c_str name →
           qe_enqueue_tick e ≤ qe_enqueue_tick e')
  | None => slot = None ∧
      ∀ m e, q !! m = Some e → queue_waiting e = true → c_str (qe_name e) = c_str name →
        tick ≤ qe_enqueue_tick e
  end.
Proof.
  revert i tick slot. induction q as [|e q IH]; intros i tick slot; cbn [drain_scan].
  { destruct slot; [left|]; (split; [done|]); intros m e He; by rewrite lookup_nil in He. }
  destruct (queue_waiting e && str_eq (qe_name e) name && (qe_enqueue_tick e <? tick)) eqn:E.
  - bool_hyps. apply str_eq_true in H1. specialize (IH (S i) (qe_enqueue_tick e) (Some i)).
    destruct (drain_scan name q (S i) (qe_enqueue_tick e) (Some i)) as [k|]; [|by destruct IH].
    right. destruct IH as [([= <-] & Hmin)|(m & x & -> & Hm & Hw & Hn & Hlt & Hmin)].
    + exists O, e. split_and!; [lia|done..|]. intros [|m'] e' He' ??; cbn in He'; [simplify_eq; lia|eauto].
    + exists (S m), x. split_and!; [lia|done|done|done|lia|].
      intros [|m'] e' He' ??; cbn in He'; [simplify_eq; lia|eauto].
  - assert (queue_waiting e = true → c_str (qe_name e) = c_str name → tick ≤ qe_enqueue_tick e) as Hhd.
    { intros Hw Hn. apply str_eq_true in Hn. rewrite Hw, Hn in E. cbn in E. by bool_hyps. }
    specialize (IH (S i) tick slot). destruct (drain_scan name q (S i) tick slot) as [k|].
    + destruct IH as [(-> & Hmin)|(m & x & -> & Hm & Hw & Hn & Hlt & Hmin)].
      * left. split; [done|]. intros [|m'] e' He' ??; cbn in He'; [simplify_eq; auto|eauto].
      * right. exists (S m), x. split_and!; [lia|done..|].
        intros [|m'] e' He' Hw' Hn'; cbn in He'; [simplify_eq; specialize (Hhd Hw' Hn'); lia|eauto].
    + destruct IH as (-> & Hmin). split; [done|].
      intros [|m'] e' He' ??; cbn in He'; [simplify_eq; auto|eauto].
Qed.

(** A health report wakes the oldest waiting request: of the requests queued
    for the provider's name that are neither ready nor timed out, the one with
    the smallest enqueue tick becomes ready (if its tick is below 0xFFFFFFFF)
    and no other entry of the queue changes. *)
Theorem drain_wakes_oldest name st :
  let waiting e := queue_waiting e = true ∧ c_str (qe_name e) = c_str name in
  let st' := infer_queue_drain name st in
  (infer_queue st' = infer_queue st ∧
     ∀ i e, infer_queue st !! i = Some e → waiting e → 2 ^ 32 - 1 ≤ qe_enqueue_tick e) ∨
  (∃ i e, infer_queue st !! i = Some e ∧ waiting e ∧
     infer_queue st' = <[i := e <| qe_ready := true |>]> (infer_queue st) ∧
     infer_queue_check (Z.of_nat i) st' = (if decide (i < INFER_QUEUE_SIZE)%nat then 1 else - EINVAL) ∧
     ∀ j f, infer_queue st !! j = Some f → waiting f → qe_enqueue_tick e ≤ qe_enqueue_tick f).
Proof.
  intros waiting st'. unfold st', infer_queue_drain.
  pose proof (drain_scan_spec name (infer_queue st) 0 0xFFFFFFFF None) as H.
  destruct (drain_scan name (infer_queue st) 0 0xFFFFFFFF None) as [k|].
  - right. destruct H as [[[=] _]|(m & e & -> & Hm & Hw & Hn & Hlt & Hmin)]. cbn [Nat.add] in *.
    exists m, e. rewrite (list_lookup_total_correct _ _ _ Hm).
    split; [done|]. split; [done|]. split; [done|]. split; [|intros j f Hj [??]; eauto].
    unfold infer_queue_check, queue_bad. destruct (Z.of_nat m <? 0) eqn:E0; bool_hyps; [lia|].
    destruct (_ <=? Z.of_nat m) eqn:E1; bool_hyps; cbn [orb].
    + by rewrite decide_False by lia.
    + rewrite decide_True by lia. cbn [set_qent field_upd infer_queue]. rewrite Nat2Z.id.
      rewrite list_lookup_total_insert_eq by by eapply lookup_lt_Some.
      unfold queue_waiting in Hw. bool_hyps. cbn. by rewrite H.
  - left. destruct H as [_ Hmin]. split; [done|]. intros i e Hi [Hw Hn]. specialize (Hmin i e Hi Hw Hn). lia.
Qed.

(** The least-loaded policy chooses a candidate of minimal load. *)
Theorem least_loaded_minimal alive name ns st i st' :
  0 ≤ rr_counter st → Forall (λ s, 0 ≤ sc_load s < 2 ^ 32) (infer_table st) →
  route_policy st = INFER_ROUTE_LEAST_LOADED → infer_route_ns alive name ns st = (Z.of_nat i, st') →
  ∃ s, infer_table st !! i = Some s ∧ eligible alive (route_match_ns name ns) s = true ∧
    ∀ j q, infer_table st !! j = Some q → eligible alive (route_match_ns name ns) q = true →
      sc_load s ≤ sc_load q.
Proof.
  intros Hrr Hloads Hpol. unfold infer_route_ns. rewrite route_collect_spec. cbv beta iota.
  set (p := route_match_ns name ns). set (c := positions (eligible alive p) 0 (infer_table st)).
  set (tbl := route_sweep alive p <$> infer_table st). unfold route_finish.
  case_decide as Hc; [intros [= ? _]; lia|].
  change (route_policy (st <| infer_table := tbl |>)) with (route_policy st).
  change (rr_counter (st <| infer_table := tbl |>)) with (rr_counter st).
  unfold route_choose. rewrite Hpol. cbn [Z.eqb Pos.eqb].
  assert (∀ j, j ∈ c ↔ ∃ q, infer_table st !! j = Some q ∧ eligible alive p q = true) as Hin.
  { intros j. unfold c. rewrite positions_spec, Nat.sub_0_r. split; [naive_solver|].
    intros (q & ? & ?). exists q. split; [lia|done]. }
  assert (∀ j q, infer_table st !! j = Some q → eligible alive p q = true → tbl !!! j = q) as Ht.
  { intros j q Hj He. apply list_lookup_total_correct. unfold tbl. rewrite list_lookup_fmap, Hj. cbn.
    f_equal. unfold route_sweep, eligible in *. by destruct (p q), (alive (sc_provider_pid q)). }
  set (loads := (λ i, sc_load (tbl !!! i)) <$> c).
  pose proof (least_scan_spec loads 0xFFFFFFFF None 0) as H.
  destruct (least_scan loads 0xFFFFFFFF None 0) as [k|]; [|intros [= ? _]; lia].
  destruct H as [[[=] _]|(m & l & -> & Hm & _ & Hmin)]. cbn [Nat.add].
  unfold loads in Hm. rewrite list_lookup_fmap in Hm. apply fmap_Some in Hm as (i0 & Hi0 & ->).
  rewrite (list_lookup_total_correct _ _ _ Hi0). intros [= ->%Nat2Z.inj _].
  destruct (proj1 (Hin i)) as (s & Hs & He); [by eapply list_elem_of_lookup_2|].
  exists s. split; [done|]. split; [done|]. intros j q Hj Hq.
  unfold loads in Hmin. rewrite Forall_fmap, Forall_forall in Hmin.
  specialize (Hmin j (proj2 (Hin j) ltac:(by exists q))). cbn in Hmin.
  by rewrite (Ht j q), (Ht i s) in Hmin by done.
Qed.

(** ** Witnesses

    Two providers (processes 7 and 8) of the service [m] in namespace 1, with
    loads 5 and 2; process 9, also registered, is dead. *)

Definition is_name : list Z := [109; 0].
Definition is_alive (pid : Z) : bool := negb (pid =? 9).
Definition is_ns (pid : Z) : option Z := Some 1.
Definition is_st : infer_st := Eval vm_compute in
  let s1 := (infer_register is_ns is_name [97] 7 infer_init).2 in
  let s2 := (infer_register is_ns is_name [98] 8 s1).2 in
  let s3 := (infer_register is_ns is_name [99] 9 s2).2 in
  let s4 := (infer_health 100 7 5 s3).2 in
  let s5 := (infer_health 100 8 2 s4).2 in
  (infer_health 100 9 0 s5).2.
Definition is_rr : infer_st := Eval vm_compute in (infer_set_policy INFER_ROUTE_ROUND_ROBIN is_st).2.
Definition is_svc0 : infer_service := Eval vm_compute in infer_table is_st !!! O.
Definition is_queued : infer_st := Eval vm_compute in
  let s1 := (infer_queue_enqueue 50 is_name 20 is_st).2 in (infer_queue_enqueue 40 is_name 21 s1).2.

Lemma is_loads : Forall (λ s, 0 ≤ sc_load s < 2 ^ 32) (infer_table is_st).
Proof. repeat constructor; vm_compute; congruence. Qed.

Lemma infer_route_ns_sound_witness :
  ∃ i s, infer_route_ns is_alive is_name 1 is_st = (Z.of_nat i, (infer_route_ns is_alive is_name 1 is_st).2) ∧
    infer_table is_st !! i = Some s ∧ sc_healthy s = true ∧ sc_ns_id s = 1.
Proof.
  pose proof (infer_route_ns_sound is_alive is_name 1 is_st) as H.
  replace (infer_route_ns is_alive is_name 1 is_st) with (1, (infer_route_ns is_alive is_name 1 is_st).2) in *
    by (vm_compute; reflexivity).
  destruct H as [(Hr & _)|[(Hr & _)|(i & s & Hr & Hi & (_ & Hh & _ & _ & Hns) & _)]];
    [cbn; lia|apply is_loads|discriminate Hr|discriminate Hr|].
  exists i, s. split; [by rewrite <-Hr|]. split; [exact Hi|]. split; [exact Hh|]. destruct Hns as [Hns|Hns]; [discriminate Hns|exact Hns].
Defined.

(** Loads 5 and 2: weights 1 and 4. *)
Lemma weighted_pick_share_witness : weighted_pick [5; 2] 8 = 1%nat ∧ weighted_pick [5; 2] 10 = 0%nat.
Proof.
  split.
  - apply (weighted_pick_share [5; 2] 8 1); [done|repeat constructor; lia|vm_compute; done|lia|cbn; lia|].
    vm_compute. split; congruence.
  - apply (weighted_pick_share [5; 2] 10 0); [done|repeat constructor; lia|vm_compute; done|lia|cbn; lia|].
    vm_compute. split; congruence.
Defined.

Lemma round_robin_fair_witness : (route_run is_alive is_name 4 is_rr).1 = [0; 1; 0; 1].
Proof.
  rewrite (round_robin_fair is_alive is_name is_rr 4);
    [vm_compute; reflexivity|reflexivity|vm_compute; congruence|cbn; lia|cbn; lia].
Defined.

Lemma health_check_exact_witness :
  infer_table (infer_health_check 3701 is_st).2 !! O = Some (is_svc0 <| sc_healthy := false |>).
Proof.
  pose proof (health_check_exact 3701 is_st O is_svc0 eq_refl) as H.
  destruct (infer_health_check 3701 is_st) as [n st'].
  destruct (H ltac:(cbn; lia) 3601) as [Hi _]; [lia|reflexivity|]. etrans; [exact Hi|reflexivity].
Defined.

Lemma least_loaded_minimal_witness :
  ∃ s, infer_table is_st !! 1%nat = Some s ∧ sc_load s = 2.
Proof.
  destruct (least_loaded_minimal is_alive is_name 1 is_st 1 (infer_route_ns is_alive is_name 1 is_st).2)
    as (s & Hs & _); [cbn; lia|apply is_loads|reflexivity|vm_compute; reflexivity|].
  exists s. split; [exact Hs|]. vm_compute in Hs. injection Hs as <-. reflexivity.
Defined.

(** Of two waiting requests the one queued at tick 40 is woken. *)
Example drain_example :
  infer_queue_check 1 (infer_queue_drain is_name is_queued) = 1 ∧
  infer_queue_check 0 (infer_queue_drain is_name is_queued) = 0.
Proof. by vm_compute. Qed.
