(* ===== verification/InferCache.v ===== *)
(** * InferCache: the cache of inference results

    Models the result cache of [src/kernel/src/ipc/infer_svc.c]: [INFER_CACHE_SIZE]
    entries keyed by the FNV-1a hash of the service name and the request and
    by the name, in least-recently-used order (the links of [Dll]), with a
    time to live.

    The abstract cache is a list of keys with their responses, most recently
    used first; every operation is shown to implement the corresponding
    operation on that list. *)

From S2P Require Import Prelude KUtil Dll.

Abbreviation INFER_NAME_MAX := 32%nat (only parsing).
Abbreviation INFER_CACHE_SIZE := 32%nat (only parsing).
Abbreviation INFER_CACHE_RESP_MAX := 256 (only parsing).
Abbreviation INFER_CACHE_DEFAULT_TTL := 180 (only parsing).

(** ** State *)

Record infer_cache_entry := mk_ice {
  ce_hash : Z;
  ce_name : list Z;
  ce_response : list Z;
  ce_resp_len : Z;
  ce_insert_tick : Z;
  ce_lru_prev : Z;
  ce_lru_next : Z;
  ce_used : bool
}.
#[export] Instance infer_cache_entry_eta : Eta infer_cache_entry := λ e,
  mk_ice (ce_hash e) (ce_name e) (ce_response e) (ce_resp_len e) (ce_insert_tick e)
    (ce_lru_prev e) (ce_lru_next e) (ce_used e).
#[export] Instance infer_cache_entry_inhabited : Inhabited infer_cache_entry :=
  populate (mk_ice 0 (replicate INFER_NAME_MAX 0) (replicate (Z.to_nat INFER_CACHE_RESP_MAX) 0) 0 0 0 0 false).

(** The link fields; the payload is the rest. *)
#[export] Program Instance infer_cache_linked :
    Linked infer_cache_entry (Z * list Z * list Z * Z * Z * bool) := {|
  l_prev := ce_lru_prev; l_next := ce_lru_next;
  set_prev v e := e <| ce_lru_prev := v |>; set_next v e := e <| ce_lru_next := v |>;
  payload e := (ce_hash e, ce_name e, ce_response e, ce_resp_len e, ce_insert_tick e, ce_used e)
|}.
Solve All Obligations with done.

Record icache_st := mk_ic {
  ic_dll : dll infer_cache_entry;       (* infer_cache, cache_lru_head, cache_lru_tail *)
  cache_hits : Z;
  cache_misses : Z;
  cache_evictions : Z;
  cache_ttl : Z
}.
#[export] Instance icache_st_eta : Eta icache_st := λ s,
  mk_ic (ic_dll s) (cache_hits s) (cache_misses s) (cache_evictions s) (cache_ttl s).

Definition icache_init : icache_st :=
  mk_ic (mk_dll (replicate INFER_CACHE_SIZE inhabitant) (-1) (-1)) 0 0 0 INFER_CACHE_DEFAULT_TTL.

Abbreviation ic_ent st := (d_ent (ic_dll st)) (only parsing).

(** ** Operations *)

Definition fnv_step (h b : Z) : Z := u64 (Z.lxor h (u8 b) * 0x100000001b3).

(** [fnv1a_hash] over the name and the first [len] bytes of the request. *)
Definition fnv1a_hash (name data : list Z) (len : nat) : Z :=
  foldl fnv_step (foldl fnv_step 0xcbf29ce484222325 (c_str name)) (take len data).

(** [cache_lru_remove] and [cache_lru_push_front]. *)
Definition cache_lru_remove (i : nat) (st : icache_st) : icache_st :=
  st <| ic_dll := dll_unlink i (ic_dll st) |>.
Definition cache_lru_push_front (i : nat) (st : icache_st) : icache_st :=
  st <| ic_dll := dll_push_head i (ic_dll st) |>.

Definition ic_set (i : nat) (e : infer_cache_entry) (st : icache_st) : icache_st :=
  st <| ic_dll := (ic_dll st) <| d_ent := <[i := e]> (d_ent (ic_dll st)) |> |>.

Definition ic_match (h : Z) (name : list Z) (e : infer_cache_entry) : bool :=
  ce_used e && (ce_hash e =? h) && str_eq (ce_name e) name.

(** The code and the bytes copied out. *)
Definition infer_cache_lookup (name req : list Z) (req_len : nat) (resp_max : Z) (st : icache_st)
    : Z * list Z * icache_st :=
  let h := fnv1a_hash name req req_len in
  match find_idx (ic_match h name) (ic_ent st) with
  | Some i =>
      let e := ic_ent st !!! i in
      let copy_len := if resp_max <? ce_resp_len e then resp_max else ce_resp_len e in
      (copy_len, take (Z.to_nat copy_len) (ce_response e),
       (cache_lru_push_front i (cache_lru_remove i st)) <| cache_hits := u32 (cache_hits st + 1) |>)
  | None => (- ENOENT, [], st <| cache_misses := u32 (cache_misses st + 1) |>)
  end.

(** The fields stored on insertion. *)
Definition ic_fill (h : Z) (name resp : list Z) (resp_len now : Z) (e : infer_cache_entry) : infer_cache_entry :=
  e <| ce_hash := h |> <| ce_name := str_copy (ce_name e) name INFER_NAME_MAX |>
    <| ce_response := mem_copy (ce_response e) resp (Z.to_nat resp_len) |>
    <| ce_resp_len := resp_len |> <| ce_insert_tick := u32 now |> <| ce_used := true |>.

(** A free slot, or the tail of the LRU list, evicted. *)
Definition ic_slot (st : icache_st) : option nat * icache_st :=
  match find_idx (λ e, negb (ce_used e)) (ic_ent st) with
  | Some i => (Some i, st)
  | None =>
      if 0 <=? d_tail (ic_dll st) then
        let i := Z.to_nat (d_tail (ic_dll st)) in
        let st := cache_lru_remove i st in
        (Some i, (ic_set i ((ic_ent st !!! i) <| ce_used := false |>) st)
                   <| cache_evictions := u32 (cache_evictions st + 1) |>)
      else (None, st)
  end.

Definition infer_cache_insert (now : Z) (name req : list Z) (req_len : nat) (resp : list Z) (resp_len : Z)
    (st : icache_st) : icache_st :=
  if INFER_CACHE_RESP_MAX <? resp_len then st
  else
    let h := fnv1a_hash name req req_len in
    match find_idx (ic_match h name) (ic_ent st) with
    | Some i =>
        let e := ic_ent st !!! i in
        let e := e <| ce_response := mem_copy (ce_response e) resp (Z.to_nat resp_len) |>
                   <| ce_resp_len := resp_len |> <| ce_insert_tick := u32 now |> in
        cache_lru_push_front i (cache_lru_remove i (ic_set i e st))
    | None =>
        match ic_slot st with
        | (None, st) => st
        | (Some i, st) =>
            cache_lru_push_front i (ic_set i (ic_fill h name resp resp_len now (ic_ent st !!! i)) st)
        end
    end.

Definition infer_cache_flush (st : icache_st) : icache_st :=
  st <| ic_dll := mk_dll ((λ e, e <| ce_used := false |> <| ce_lru_prev := -1 |> <| ce_lru_next := -1 |>)
                            <$> ic_ent st) (-1) (-1) |>.

(** [infer_cache_get_stat]: hits, misses, evictions, size, capacity, ttl. *)
Definition infer_cache_get_stat (st : icache_st) : Z * Z * Z * Z * Z * Z :=
  (cache_hits st, cache_misses st, cache_evictions st, Z.of_nat (countb ce_used (ic_ent st)),
   Z.of_nat INFER_CACHE_SIZE, cache_ttl st).

Definition infer_cache_set_ttl (ttl : Z) (st : icache_st) : icache_st := st <| cache_ttl := ttl |>.

Definition ic_stale (now ttl : Z) (e : infer_cache_entry) : bool :=
  ce_used e && (ttl <? u32 (u32 now - ce_insert_tick e)).

(** The loop of [infer_cache_expire] over [n] slots from [i] on. *)
Fixpoint expire_loop (now : Z) (n i : nat) (st : icache_st) : icache_st :=
  match n with
  | O => st
  | S n' =>
      let st := if ic_stale now (cache_ttl st) (ic_ent st !!! i)
                then let st := cache_lru_remove i st in
                     ic_set i ((ic_ent st !!! i) <| ce_used := false |>) st
                else st in
      expire_loop now n' (S i) st
  end.
Definition infer_cache_expire (now : Z) (st : icache_st) : icache_st :=
  expire_loop now INFER_CACHE_SIZE 0 st.

(** ** The abstract cache *)

(** Key: hash and name.  Value: response and insertion tick. *)
Abbreviation ckey := (Z * list Z)%type (only parsing).
Abbreviation cval := (list Z * Z)%type (only parsing).
Abbreviation acache := (list ((Z * list Z) * (list Z * Z))) (only parsing).

Definition key_is (k : ckey) (x : ckey * cval) : bool := bool_decide (x.1 = k).

(** Move the entry of the key to the front. *)
Definition ac_lookup (k : ckey) (L : acache) : option cval * acache :=
  match find_idx (key_is k) L with
  | None => (None, L)
  | Some n => match L !! n with
              | None => (None, L)
              | Some x => (Some x.2, x :: delete n L)
              end
  end.

(** Replace the entry of the key, or add it at the front after dropping the
    last of a full cache. *)
Definition ac_insert (k : ckey) (v : cval) (L : acache) : acache :=
  match find_idx (key_is k) L with
  | Some n => (k, v) :: delete n L
  | None => (k, v) :: (if decide (length L < INFER_CACHE_SIZE)%nat then L else take (length L - 1) L)
  end.

Definition ac_expire (now ttl : Z) (L : acache) : acache :=
  filter (λ x, ¬ ttl < u32 (u32 now - x.2.2)) L.

(** ** Representation *)

Definition entry_view (e : infer_cache_entry) : ckey * cval :=
  ((ce_hash e, c_str (ce_name e)), (take (Z.to_nat (ce_resp_len e)) (ce_response e), ce_insert_tick e)).

Definition ice_wf (e : infer_cache_entry) : Prop :=
  length (ce_name e) = INFER_NAME_MAX ∧ length (ce_response e) = Z.to_nat INFER_CACHE_RESP_MAX ∧
  0 ≤ ce_resp_len e ≤ INFER_CACHE_RESP_MAX.

(** The indices [l] in LRU order are the used entries, with distinct keys. *)
Definition ic_repr_at (st : icache_st) (l : list nat) : Prop :=
  length (ic_ent st) = INFER_CACHE_SIZE ∧ Forall ice_wf (ic_ent st) ∧ dll_repr (ic_dll st) l ∧
  (∀ i e, ic_ent st !! i = Some e → ce_used e = true ↔ i ∈ l) ∧
  (∀ i, i ∈ l → (i < INFER_CACHE_SIZE)%nat) ∧
  NoDup ((λ i, (entry_view (ic_ent st !!! i)).1) <$> l).

Definition ic_view_at (st : icache_st) (l : list nat) : acache :=
  (λ i, entry_view (ic_ent st !!! i)) <$> l.

Definition ic_repr (st : icache_st) (L : acache) : Prop :=
  ∃ l, ic_repr_at st l ∧ L = ic_view_at st l.

(** ** Lemmas *)

Lemma payload_same e e' :
  payload e' = payload e →
  entry_view e' = entry_view e ∧ ce_used e' = ce_used e ∧ (ice_wf e → ice_wf e').
Proof.
  intros [= H1 H2 H3 H4 H5 H6]. unfold entry_view, ice_wf. by rewrite H1, H2, H3, H4, H5, H6.
Qed.

(** Relinking: a new order of the same indices, the same payloads. *)
Lemma ic_relink st d' l l' :
  ic_repr_at st l → dll_repr d' l' → l' ≡ₚ l → payload <$> d_ent d' = payload <$> ic_ent st →
  ic_repr_at (st <| ic_dll := d' |>) l' ∧ ic_view_at (st <| ic_dll := d' |>) l' = ic_view_at st l'.
Proof.
  intros (Hlen & Hwf & _ & Hused & Hlt & Hkeys) Hd' Hp Hpl.
  assert (∀ i e', d_ent d' !! i = Some e' → ∃ e, ic_ent st !! i = Some e ∧ payload e' = payload e) as Hback.
  { intros i e' Hi. symmetry in Hpl. destruct (payload_lookup _ _ _ _ Hpl Hi) as (e & He & Heq). by exists e. }
  assert (∀ i, (i < INFER_CACHE_SIZE)%nat → entry_view (d_ent d' !!! i) = entry_view (ic_ent st !!! i)) as Hv.
  { intros i Hi. destruct (lookup_lt_is_Some_2 (ic_ent st) i) as [e He]; [lia|].
    destruct (payload_lookup _ _ _ _ Hpl He) as (e' & He' & Heq).
    rewrite (list_lookup_total_correct _ _ _ He), (list_lookup_total_correct _ _ _ He').
    by apply payload_same. }
  assert (∀ i, i ∈ l' → (i < INFER_CACHE_SIZE)%nat) as Hlt' by (intros i; rewrite Hp; apply Hlt).
  assert (ic_view_at (st <| ic_dll := d' |>) l' = ic_view_at st l') as Hview.
  { apply list_fmap_ext. intros k i Hi. cbn. apply Hv, Hlt'. by eapply list_elem_of_lookup_2. }
  split; [|done]. split_and!; cbn.
  - by rewrite (length_payload (E:=infer_cache_entry) _ _ Hpl).
  - apply Forall_lookup. intros i e' Hi. destruct (Hback i e' Hi) as (e & He & Heq).
    apply (payload_same e e' Heq). by apply (Forall_lookup_1 _ _ _ _ Hwf He).
  - done.
  - intros i e' Hi. destruct (Hback i e' Hi) as (e & He & Heq).
    destruct (payload_same e e' Heq) as (_ & -> & _). rewrite Hp. by apply Hused.
  - done.
  - apply (f_equal (fmap fst)) in Hview. unfold ic_view_at in Hview. rewrite <-!list_fmap_compose in Hview.
    unfold compose in Hview. cbn in Hview. rewrite Hview. by rewrite Hp.
Qed.

(** Moving a used entry to the front. *)
Lemma ic_touch st l1 i l2 :
  ic_repr_at st (l1 ++ i :: l2) →
  let st' := cache_lru_push_front i (cache_lru_remove i st) in
  ic_repr_at st' (i :: l1 ++ l2) ∧ ic_view_at st' (i :: l1 ++ l2) = ic_view_at st (i :: l1 ++ l2).
Proof.
  intros Hr. pose proof Hr as (Hlen & _ & Hd & _ & Hlt & _).
  destruct (dll_unlink_spec _ _ _ _ Hd) as [Hd1 Hpl1].
  assert (i ∉ l1 ++ l2) as Hi.
  { destruct Hd as (Hnd & _). rewrite <-Permutation_middle in Hnd. by apply NoDup_cons in Hnd as []. }
  destruct (dll_push_head_spec _ _ i Hd1 Hi) as [Hd2 Hpl2].
  { rewrite (length_payload (E:=infer_cache_entry) _ _ Hpl1). rewrite Hlen. apply Hlt.
    apply elem_of_app. right. by left. }
  apply (ic_relink st _ (l1 ++ i :: l2)); [done|exact Hd2|by rewrite Permutation_middle|].
  exact (eq_trans Hpl2 Hpl1).
Qed.

(** Storing into an entry outside the list, or changing only the value of one
    inside it. *)
Lemma ic_set_repr st l i e e' :
  ic_repr_at st l → ic_ent st !! i = Some e → ice_wf e' → ce_used e' = ce_used e →
  (i ∈ l → l_prev e' = l_prev e ∧ l_next e' = l_next e ∧ (entry_view e').1 = (entry_view e).1) →
  ic_repr_at (ic_set i e' st) l.
Proof.
  intros (Hlen & Hwf & Hd & Hused & Hlt & Hkeys) Hi Hw Hu Hl. pose proof (lookup_lt_Some _ _ _ Hi) as Hil.
  split_and!; cbn [ic_set field_upd ic_dll d_ent].
  - by rewrite length_insert.
  - by apply Forall_insert.
  - apply (dll_repr_set _ _ _ e); [done..|]. intros Hin. by destruct (Hl Hin) as (? & ? & _).
  - intros j x [(-> & -> & _)|(_ & Hx)]%list_lookup_insert_cases; [rewrite Hu|]; by apply Hused.
  - done.
  - erewrite list_fmap_ext; [exact Hkeys|]. intros k j Hj. cbn.
    destruct (decide (j = i)) as [->|]; [|by rewrite list_lookup_total_insert_ne].
    rewrite list_lookup_total_insert_eq by done. rewrite (list_lookup_total_correct _ _ _ Hi).
    apply Hl. by eapply list_elem_of_lookup_2.
Qed.

(** Dropping an entry: unlinked and no longer used. *)
Lemma ic_drop st l1 i l2 :
  ic_repr_at st (l1 ++ i :: l2) →
  let st1 := cache_lru_remove i st in
  let st' := ic_set i ((ic_ent st1 !!! i) <| ce_used := false |>) st1 in
  ic_repr_at st' (l1 ++ l2) ∧ ic_view_at st' (l1 ++ l2) = ic_view_at st (l1 ++ l2).
Proof.
  intros Hr st1 st'. pose proof Hr as (Hlen & Hwf & Hd & Hused & Hlt & Hkeys).
  destruct (dll_unlink_spec _ _ _ _ Hd) as [Hd1 Hpl1]. fold (ic_ent st1) in Hpl1.
  assert (i ∉ l1 ++ l2) as Hi.
  { destruct Hd as (Hnd & _). rewrite <-Permutation_middle in Hnd. by apply NoDup_cons in Hnd as []. }
  assert (∀ j, j ∈ l1 ++ l2 → j ∈ l1 ++ i :: l2) as Hsub.
  { intros j. rewrite !elem_of_app, elem_of_cons. tauto. }
  assert (length (ic_ent st1) = INFER_CACHE_SIZE) as Hlen1
    by exact (eq_trans (length_payload (E:=infer_cache_entry) _ _ Hpl1) Hlen).
  assert (i < INFER_CACHE_SIZE)%nat as Hil by (apply Hlt; rewrite elem_of_app; right; by left).
  destruct (lookup_lt_is_Some_2 (ic_ent st1) i) as [e1 He1]; [lia|].
  unfold st'. rewrite (list_lookup_total_correct _ _ _ He1).
  assert (∀ j, j ∈ l1 ++ l2 → entry_view (<[i := e1 <| ce_used := false |>]> (ic_ent st1) !!! j) =
    entry_view (ic_ent st !!! j)) as Hv.
  { intros j Hj. rewrite list_lookup_total_insert_ne by (intros ->; done).
    destruct (lookup_lt_is_Some_2 (ic_ent st) j) as [e He]; [rewrite Hlen; auto|].
    destruct (payload_lookup _ _ _ _ Hpl1 He) as (e' & He' & Heq).
    rewrite (list_lookup_total_correct _ _ _ He), (list_lookup_total_correct _ _ _ He').
    by apply payload_same. }
  assert (∀ j x, ic_ent st1 !! j = Some x → ice_wf x ∧ (ce_used x = true ↔ j ∈ l1 ++ i :: l2)) as Hx.
  { intros j x Hj. symmetry in Hpl1. destruct (payload_lookup _ _ _ _ Hpl1 Hj) as (e & He & Heq).
    destruct (payload_same e x (eq_sym Heq)) as (_ & Hu & Hw). split.
    - apply Hw. by apply (Forall_lookup_1 _ _ _ _ Hwf He).
    - rewrite Hu. by apply Hused. }
  split; [split_and!; cbn [ic_set field_upd ic_dll d_ent]|].
  - by rewrite length_insert.
  - apply Forall_insert; [|by apply (Hx i e1 He1)]. apply Forall_lookup. intros j x Hj. by apply (Hx j x Hj).
  - apply (dll_repr_set _ _ _ e1); [exact Hd1|exact He1|done].
  - intros j x [(-> & -> & _)|(Hne & Hj)]%list_lookup_insert_cases; [done|].
    rewrite (proj2 (Hx j x Hj)), !elem_of_app, elem_of_cons. naive_solver.
  - auto.
  - erewrite list_fmap_ext; [|intros k j Hj; apply (f_equal fst), Hv; by eapply list_elem_of_lookup_2].
    rewrite <-Permutation_middle in Hkeys. cbn in Hkeys. by apply NoDup_cons in Hkeys as [].
  - apply list_fmap_ext. intros k j Hj. cbn. apply Hv. by eapply list_elem_of_lookup_2.
Qed.

(** Adding an entry with a new key at the front. *)
Lemma ic_add st l i e e' :
  ic_repr_at st l → ic_ent st !! i = Some e → i ∉ l → ice_wf e' → ce_used e' = true →
  (entry_view e').1 ∉ (ic_view_at st l).*1 →
  let st' := cache_lru_push_front i (ic_set i e' st) in
  ic_repr_at st' (i :: l) ∧ ic_view_at st' (i :: l) = entry_view e' :: ic_view_at st l.
Proof.
  intros (Hlen & Hwf & Hd & Hused & Hlt & Hkeys) Hi Hil Hw Hu Hfresh st'.
  pose proof (lookup_lt_Some _ _ _ Hi) as Hlti.
  assert (dll_repr (ic_dll (ic_set i e' st)) l) as Hd1 by (apply (dll_repr_set _ _ _ e); done).
  destruct (dll_push_head_spec _ _ i Hd1 Hil) as [Hd2 Hpl].
  { cbn. by rewrite length_insert. }
  cbn [ic_set field_upd ic_dll d_ent] in Hpl.
  assert (∀ j x, ic_ent st' !! j = Some x → ∃ y, <[i := e']> (ic_ent st) !! j = Some y ∧ payload x = payload y) as Hback.
  { intros j x Hj. symmetry in Hpl. destruct (payload_lookup _ _ _ _ Hpl Hj) as (y & Hy & Heq). by exists y. }
  assert (∀ j, (j < INFER_CACHE_SIZE)%nat → entry_view (ic_ent st' !!! j) =
    if decide (j = i) then entry_view e' else entry_view (ic_ent st !!! j)) as Hv.
  { intros j Hj. destruct (lookup_lt_is_Some_2 (<[i := e']> (ic_ent st)) j) as [y Hy].
    { rewrite length_insert. lia. }
    destruct (payload_lookup _ _ _ _ Hpl Hy) as (x & Hx & Heq). rewrite (list_lookup_total_correct _ _ _ Hx).
    destruct (payload_same _ _ Heq) as (-> & _ & _).
    apply list_lookup_insert_cases in Hy as [(-> & -> & _)|(Hne & Hy)]; [by rewrite decide_True|].
    by rewrite decide_False, (list_lookup_total_correct _ _ _ Hy) by done. }
  assert (ic_view_at st' (i :: l) = entry_view e' :: ic_view_at st l) as Hview.
  { unfold ic_view_at. cbn [fmap list_fmap]. f_equal.
    - rewrite Hv by lia. by rewrite decide_True.
    - apply list_fmap_ext. intros k j Hj. apply list_elem_of_lookup_2 in Hj. rewrite Hv by auto.
      rewrite decide_False by (intros ->; done). done. }
  split; [|done]. split_and!.
  - unfold st'. cbn. rewrite (length_payload (E:=infer_cache_entry) _ _ Hpl). by rewrite length_insert.
  - apply Forall_lookup. intros j x Hj. destruct (Hback j x Hj) as (y & Hy & Heq).
    apply (payload_same _ _ Heq). apply list_lookup_insert_cases in Hy as [(-> & -> & _)|(_ & Hy)]; [done|].
    by apply (Forall_lookup_1 _ _ _ _ Hwf Hy).
  - exact Hd2.
  - intros j x Hj. destruct (Hback j x Hj) as (y & Hy & Heq). destruct (payload_same _ _ Heq) as (_ & -> & _).
    rewrite elem_of_cons. apply list_lookup_insert_cases in Hy as [(-> & -> & _)|(Hne & Hy)]; [naive_solver|].
    rewrite (Hused j y Hy). naive_solver.
  - intros j [->|Hj]%elem_of_cons; [lia|auto].
  - apply (f_equal (fmap fst)) in Hview. unfold ic_view_at at 1 in Hview. rewrite <-list_fmap_compose in Hview.
    unfold compose in Hview. rewrite Hview. cbn [fmap list_fmap]. constructor; [done|].
    unfold ic_view_at. rewrite <-list_fmap_compose. exact Hkeys.
Qed.

Lemma elem_of_key st l i : i ∈ l → (entry_view (ic_ent st !!! i)).1 ∈ (ic_view_at st l).*1.
Proof.
  intros Hi. unfold ic_view_at. rewrite <-list_fmap_compose.
  by apply (list_elem_of_fmap_2 (fst ∘ (λ i, entry_view (ic_ent st !!! i)))).
Qed.

(** The scan of the table finds what the abstract cache holds. *)
Lemma ic_find_Some st l h name i :
  ic_repr_at st l → find_idx (ic_match h name) (ic_ent st) = Some i →
  ∃ l1 l2, l = l1 ++ i :: l2 ∧ (entry_view (ic_ent st !!! i)).1 = (h, c_str name) ∧
    find_idx (key_is (h, c_str name)) (ic_view_at st l) = Some (length l1).
Proof.
  intros (Hlen & Hwf & Hd & Hused & Hlt & Hkeys) (e & Hi & Hm)%find_idx_lookup.
  unfold ic_match in Hm. bool_hyps.
  match goal with H : str_eq _ _ = true |- _ => apply str_eq_true in H as Hname end.
  assert (i ∈ l) as Hin by by apply (Hused i e).
  apply list_elem_of_split in Hin as (l1 & l2 & ->). exists l1, l2.
  rewrite (list_lookup_total_correct _ _ _ Hi).
  assert ((entry_view e).1 = (h, c_str name)) as Hk by (cbn; congruence).
  split_and!; [done..|]. unfold ic_view_at. rewrite fmap_app. cbn [fmap list_fmap].
  assert ((λ i, entry_view (ic_ent st !!! i)) <$> l1 ++ i :: l2 =
    ((λ i, entry_view (ic_ent st !!! i)) <$> l1) ++ entry_view (ic_ent st !!! i) ::
    ((λ i, entry_view (ic_ent st !!! i)) <$> l2)) as Hsplit by by rewrite fmap_app.
  apply find_idx_Some. exists (entry_view e). split_and!.
  - rewrite lookup_app_r by (by rewrite length_fmap). rewrite length_fmap, Nat.sub_diag. cbn.
    by rewrite (list_lookup_total_correct _ _ _ Hi).
  - by apply bool_decide_eq_true.
  - intros j y Hj Hy. apply bool_decide_eq_false. intros Hyk.
    rewrite lookup_app_l in Hy by (by rewrite length_fmap).
    apply list_lookup_fmap_Some in Hy as (k & Hy' & Hk').
    rewrite fmap_app in Hkeys. apply NoDup_app in Hkeys as (_ & Hdis & _).
    apply (Hdis (h, c_str name)).
    + apply list_elem_of_fmap. exists k. split; [by rewrite <-Hyk, Hy'|]. by eapply list_elem_of_lookup_2.
    + cbn. rewrite (list_lookup_total_correct _ _ _ Hi), <-Hk. by left.
Qed.

Lemma ic_find_None st l h name :
  ic_repr_at st l → find_idx (ic_match h name) (ic_ent st) = None →
  find_idx (key_is (h, c_str name)) (ic_view_at st l) = None ∧
  ((h, c_str name) ∉ (ic_view_at st l).*1).
Proof.
  intros (Hlen & Hwf & Hd & Hused & Hlt & Hkeys) Hf.
  assert (∀ x, x ∈ ic_view_at st l → x.1 ≠ (h, c_str name)) as Hno.
  { intros x (i & -> & Hi)%list_elem_of_fmap Hk.
    destruct (lookup_lt_is_Some_2 (ic_ent st) i) as [e He]; [rewrite Hlen; auto|].
    rewrite (list_lookup_total_correct _ _ _ He) in Hk. injection Hk as Hh Hn.
    rewrite find_idx_None in Hf. specialize (Hf i e He). unfold ic_match in Hf.
    rewrite (proj2 (Hused i e He) Hi), Hh, Z.eqb_refl in Hf. cbn in Hf. apply str_eq_false in Hf. done. }
  split.
  - apply find_idx_None. intros j x Hx. apply bool_decide_eq_false. apply Hno. by eapply list_elem_of_lookup_2.
  - intros (x & Hx & Hin)%list_elem_of_fmap. by apply (Hno x Hin).
Qed.

Lemma view_app st l1 l2 : ic_view_at st (l1 ++ l2) = ic_view_at st l1 ++ ic_view_at st l2.
Proof. apply fmap_app. Qed.
Lemma length_view st l : length (ic_view_at st l) = length l.
Proof. apply length_fmap. Qed.
Lemma view_delete st l1 i l2 : delete (length l1) (ic_view_at st (l1 ++ i :: l2)) = ic_view_at st (l1 ++ l2).
Proof.
  rewrite !view_app. change (ic_view_at st (i :: l2)) with (entry_view (ic_ent st !!! i) :: ic_view_at st l2).
  by rewrite <-(length_view st l1), delete_middle.
Qed.
Lemma view_lookup st l1 i l2 :
  ic_view_at st (l1 ++ i :: l2) !! length l1 = Some (entry_view (ic_ent st !!! i)).
Proof.
  rewrite view_app. change (ic_view_at st (i :: l2)) with (entry_view (ic_ent st !!! i) :: ic_view_at st l2).
  by rewrite list_lookup_middle by (by rewrite length_view).
Qed.

(** The indices of the list fit the table. *)
Lemma ic_length st l : ic_repr_at st l → (length l ≤ INFER_CACHE_SIZE)%nat.
Proof.
  intros (_ & _ & (Hnd & _) & _ & Hlt & _).
  rewrite <-(length_seq INFER_CACHE_SIZE 0). apply submseteq_length, NoDup_submseteq; [done|].
  intros i Hi. apply elem_of_seq. specialize (Hlt i Hi). lia.
Qed.

(** A table without a free slot is full. *)
Lemma ic_full st l :
  ic_repr_at st l → find_idx (λ e, negb (ce_used e)) (ic_ent st) = None → length l = INFER_CACHE_SIZE.
Proof.
  intros Hr Hf. pose proof (ic_length _ _ Hr) as Hle. destruct Hr as (Hlen & _ & _ & Hused & _).
  enough (INFER_CACHE_SIZE ≤ length l)%nat by lia.
  rewrite <-(length_seq INFER_CACHE_SIZE 0). apply submseteq_length, NoDup_submseteq; [apply NoDup_seq|].
  intros i Hi%elem_of_seq. destruct (lookup_lt_is_Some_2 (ic_ent st) i) as [e He]; [lia|].
  apply (Hused i e He). rewrite find_idx_None in Hf. specialize (Hf i e He). cbv beta in Hf. by bool_hyps.
Qed.

Lemma ic_free st l i :
  ic_repr_at st l → find_idx (λ e, negb (ce_used e)) (ic_ent st) = Some i →
  (i ∉ l) ∧ (length l < INFER_CACHE_SIZE)%nat.
Proof.
  intros Hr (e & He & Hu)%find_idx_lookup. bool_hyps. pose proof Hr as (Hlen & _ & (Hnd & _) & Hused & Hlt & _).
  assert (i ∉ l) as Hi. { intros Hin. apply (Hused i e He) in Hin. congruence. }
  split; [done|]. apply lookup_lt_Some in He.
  enough (length (i :: l) ≤ INFER_CACHE_SIZE)%nat by (cbn in *; lia).
  rewrite <-(length_seq INFER_CACHE_SIZE 0). apply submseteq_length, NoDup_submseteq; [by apply NoDup_cons|].
  intros j [->|Hj]%elem_of_cons; apply elem_of_seq; [lia|]. specialize (Hlt j Hj). lia.
Qed.

(** ** Refinement of the operations *)

Lemma lookup_implements st L name req resp_max :
  ic_repr st L → 0 ≤ resp_max →
  let '(r, out, st') := infer_cache_lookup name req (length req) resp_max st in
  match ac_lookup (fnv1a_hash name req (length req), c_str name) L with
  | (Some v, L') => out = take (Z.to_nat resp_max) v.1 ∧ r = Z.of_nat (length out) ∧ ic_repr st' L'
  | (None, L') => out = [] ∧ r = - ENOENT ∧ ic_repr st' L'
  end ∧ cache_ttl st' = cache_ttl st.
Proof.
  intros (l & Hr & ->) Hmax. unfold infer_cache_lookup, ac_lookup. cbv zeta.
  set (h := fnv1a_hash _ _ _). destruct (find_idx (ic_match h name) _) as [i|] eqn:Ef.
  - destruct (ic_find_Some _ _ _ _ _ Hr Ef) as (l1 & l2 & -> & Hk & ->).
    rewrite view_lookup, view_delete. split; [|done].
    destruct (ic_touch _ _ _ _ Hr) as [Hr' Hv]. cbn [snd fst entry_view].
    assert (ice_wf (ic_ent st !!! i)) as (_ & Hrl & Hb).
    { destruct Hr as (Hlen & Hwf & _). destruct (find_idx_lookup _ _ _ Ef) as (e & He & _).
      rewrite (list_lookup_total_correct _ _ _ He). by apply (Forall_lookup_1 _ _ _ _ Hwf He). }
    rewrite take_take. set (e := ic_ent st !!! i) in *. split_and!.
    + f_equal. destruct (resp_max <? ce_resp_len e) eqn:Eq; bool_hyps; lia.
    + rewrite length_take. destruct (resp_max <? ce_resp_len e) eqn:Eq; bool_hyps; lia.
    + exists (i :: l1 ++ l2). split; [exact Hr'|]. symmetry. exact Hv.
  - destruct (ic_find_None _ _ _ _ Hr Ef) as [-> _]. split_and!; [done..| |done]. exists l. done.
Qed.

(** The key and the value of a filled entry. *)
Lemma ic_fill_view h name resp n now e :
  ice_wf e → (length (c_str name) < INFER_NAME_MAX)%nat → 0 ≤ n ≤ INFER_CACHE_RESP_MAX → n ≤ Z.of_nat (length resp) →
  ice_wf (ic_fill h name resp n now e) ∧
  entry_view (ic_fill h name resp n now e) = ((h, c_str name), (take (Z.to_nat n) resp, u32 now)).
Proof.
  intros (Hn & Hl & _) Hname Hb Hresp. unfold ic_fill, ice_wf, entry_view.
  cbn [field_upd ce_hash ce_name ce_response ce_resp_len ce_insert_tick].
  rewrite length_str_copy, length_mem_copy. split; [split_and!; (done || lia)|].
  rewrite c_str_str_copy by (rewrite Hn; lia). rewrite take_ge by lia.
  by rewrite take_mem_copy by (rewrite ?Hl; lia).
Qed.

Lemma insert_implements st L now name req resp n :
  ic_repr st L → (length (c_str name) < INFER_NAME_MAX)%nat → 0 ≤ n ≤ Z.of_nat (length resp) →
  let st' := infer_cache_insert now name req (length req) resp n st in
  ic_repr st' (if INFER_CACHE_RESP_MAX <? n then L else
     ac_insert (fnv1a_hash name req (length req), c_str name) (take (Z.to_nat n) resp, u32 now) L) ∧
  cache_ttl st' = cache_ttl st.
Proof.
  intros (l & Hr & ->) Hname Hn. unfold infer_cache_insert, ac_insert. cbv zeta.
  destruct (INFER_CACHE_RESP_MAX <? n) eqn:Eb; bool_hyps; [split; [by exists l|done]|].
  set (h := fnv1a_hash _ _ _). destruct (find_idx (ic_match h name) _) as [i|] eqn:Ef.
  - destruct (ic_find_Some _ _ _ _ _ Hr Ef) as (l1 & l2 & -> & Hk & ->). rewrite view_delete.
    destruct (find_idx_lookup _ _ _ Ef) as (e & He & _). rewrite (list_lookup_total_correct _ _ _ He) in *.
    set (e' := e <|ce_response := _|> <|ce_resp_len := n|> <|ce_insert_tick := _|>).
    pose proof Hr as (Hlen & Hwf & _ & Hused & Hlt & _).
    pose proof (Forall_lookup_1 _ _ _ _ Hwf He) as (Hw1 & Hw2 & _).
    assert (ice_wf e') by (unfold ice_wf, e'; cbn; rewrite length_mem_copy; split_and!; [done|done|lia|lia]).
    assert (ic_repr_at (ic_set i e' st) (l1 ++ i :: l2)) as Hr1 by by apply (ic_set_repr _ _ _ e).
    destruct (ic_touch _ _ _ _ Hr1) as [Hr2 Hv2]. split; [|done]. exists (i :: l1 ++ l2).
    split; [exact Hr2|]. rewrite Hv2. unfold ic_view_at. cbn [fmap list_fmap ic_set field_upd ic_dll d_ent]. f_equal.
    + rewrite list_lookup_total_insert_eq by by eapply lookup_lt_Some.
      unfold entry_view, e'. cbn [field_upd ce_hash ce_name ce_response ce_resp_len ce_insert_tick].
      rewrite take_mem_copy by (rewrite ?Hw2; lia). by injection Hk as -> ->.
    + apply list_fmap_ext. intros k j Hj. rewrite list_lookup_total_insert_ne; [done|]. intros ->.
      destruct Hr as (_ & _ & (Hnd & _) & _). rewrite <-Permutation_middle in Hnd.
      apply NoDup_cons in Hnd as [Hni _]. by apply Hni, (list_elem_of_lookup_2 _ k).
  - destruct (ic_find_None _ _ _ _ Hr Ef) as [-> Hfresh]. unfold ic_slot.
    destruct (find_idx (λ e, negb (ce_used e)) _) as [i|] eqn:Es.
    + destruct (ic_free _ _ _ Hr Es) as [Hil Hlt]. destruct (find_idx_lookup _ _ _ Es) as (e & He & _).
      pose proof Hr as (_ & Hwf & _). pose proof (Forall_lookup_1 _ _ _ _ Hwf He) as Hw.
      rewrite (list_lookup_total_correct _ _ _ He).
      destruct (ic_fill_view h name resp n now e Hw Hname) as [Hw' Hv']; [lia..|].
      destruct (ic_add st l i e _ Hr He Hil Hw' eq_refl) as [Hr2 Hv2]; [by rewrite Hv'|].
      split; [|done]. exists (i :: l). split; [exact Hr2|].
      rewrite decide_True by (by rewrite length_view). by rewrite Hv2, Hv'.
    + pose proof (ic_full _ _ Hr Es) as Hfull. pose proof Hr as (Hlen & _ & Hd & _).
      destruct l as [|i l1 _] using rev_ind; [done|]. rewrite (dll_tail_last _ _ _ Hd).
      rewrite (proj2 (Z.leb_le 0 (Z.of_nat i)) ltac:(lia)), Nat2Z.id.
      destruct (ic_drop _ _ _ _ Hr) as [Hr1 Hv1]. rewrite app_nil_r in *. cbv zeta in *.
      set (st1 := ic_set i _ _) in *.
      assert (∃ e, ic_ent st1 !! i = Some e ∧ ice_wf e ∧ (i ∉ l1)) as (e & He & Hw & Hil).
      { pose proof Hr1 as (Hlen1 & Hwf & _). destruct (lookup_lt_is_Some_2 (ic_ent st1) i) as [e He].
        { rewrite Hlen1. destruct Hr as (_ & _ & _ & _ & Hlt & _). apply Hlt, elem_of_app. right. by left. }
        exists e. split_and!; [done|by apply (Forall_lookup_1 _ _ _ _ Hwf He)|].
        destruct Hd as (Hnd & _). rewrite <-Permutation_cons_append in Hnd. by apply NoDup_cons in Hnd as []. }
      cbn [field_upd ic_dll]. rewrite (list_lookup_total_correct _ _ _ He).
      destruct (ic_fill_view h name resp n now e Hw Hname) as [Hw' Hv']; [lia..|].
      destruct (ic_add st1 l1 i e _ Hr1 He Hil Hw' eq_refl) as [Hr2 Hv2].
      { rewrite Hv', Hv1. rewrite view_app, fmap_app, elem_of_app in Hfresh. tauto. }
      split; [|done]. exists (i :: l1). split; [exact Hr2|].
      etransitivity; [|symmetry; exact Hv2]. rewrite decide_False by (rewrite length_view; lia).
      rewrite Hv', Hv1, view_app, length_app, !length_view. cbn [length].
      rewrite Nat.add_sub, take_app_le by (rewrite length_view; lia).
      by rewrite (take_ge (ic_view_at st l1)) by (rewrite length_view; lia).
Qed.

(** The indices of the list that the expiry loop leaves. *)
Definition keep (now i n : Z) (st : icache_st) (j : nat) : Prop :=
  ¬ (i ≤ Z.of_nat j < i + n ∧ cache_ttl st < u32 (u32 now - (entry_view (ic_ent st !!! j)).2.2)).
#[export] Instance keep_dec now i n st j : Decision (keep now i n st j).
Proof. unfold keep. apply _. Defined.

(** The keys and values seen through two states agree where the views do. *)
Lemma view_agree st st' l :
  ic_view_at st' l = ic_view_at st l ↔
  ∀ j, j ∈ l → entry_view (ic_ent st' !!! j) = entry_view (ic_ent st !!! j).
Proof.
  split.
  - intros Hv j Hj. apply list_elem_of_lookup in Hj as [k Hk]. apply (f_equal (.!! k)) in Hv. unfold ic_view_at in Hv.
    rewrite !list_lookup_fmap, Hk in Hv. by apply (inj Some) in Hv.
  - intros Hv. apply list_fmap_ext. intros k j Hj. apply Hv. by eapply list_elem_of_lookup_2.
Qed.

Lemma expire_loop_spec now n i st l :
  ic_repr_at st l → (i + n ≤ INFER_CACHE_SIZE)%nat →
  let st' := expire_loop now n i st in
  let l' := filter (keep now (Z.of_nat i) (Z.of_nat n) st) l in
  ic_repr_at st' l' ∧ ic_view_at st' l' = ic_view_at st l' ∧ cache_ttl st' = cache_ttl st.
Proof.
  revert i st l. induction n as [|n IH]; intros i st l Hr Hn; cbv zeta; cbn [expire_loop].
  { rewrite filter_all; [done|]. intros j _. unfold keep. intros [? _]. lia. }
  pose proof Hr as (Hlen & _ & _ & Hused & Hlt & _).
  destruct (lookup_lt_is_Some_2 (ic_ent st) i) as [e He]; [lia|].
  rewrite (list_lookup_total_correct _ _ _ He).
  destruct (ic_stale now (cache_ttl st) e) eqn:Es; unfold ic_stale in Es.
  - bool_hyps. destruct (list_elem_of_split l i) as (l1 & l2 & ->); [by apply (Hused i e He)|].
    assert (i ∉ l1 ++ l2) as Hi.
    { destruct Hr as (_ & _ & (Hnd & _) & _). rewrite <-Permutation_middle in Hnd. by apply NoDup_cons in Hnd as []. }
    destruct (ic_drop _ _ _ _ Hr) as [Hr1 Hv1]. cbv zeta in Hr1, Hv1 |- *.
    set (st1 := ic_set i _ _) in *. assert (cache_ttl st1 = cache_ttl st) as Httl by done. clearbody st1.
    destruct (IH (S i) st1 (l1 ++ l2) Hr1 ltac:(lia)) as (Hr2 & Hv2 & Ht2). rewrite view_agree in Hv1.
    assert (filter (keep now (Z.of_nat (S i)) (Z.of_nat n) st1) (l1 ++ l2) =
      filter (keep now (Z.of_nat i) (Z.of_nat (S n)) st) (l1 ++ i :: l2)) as Heq.
    { rewrite (filter_app _ l1 (i :: l2)), filter_cons_False, <-filter_app;
        [|unfold keep; rewrite (list_lookup_total_correct _ _ _ He); cbn; intros Hk; apply Hk; split; [lia|done]].
      apply filter_ext_in. intros j Hj. unfold keep. rewrite (Hv1 j Hj), Httl.
      assert (j ≠ i) by (intros ->; done). split; intros Hk [Hb Hs]; apply Hk; (split; [lia|done]). }
    rewrite <-Heq. split_and!; [done| |congruence]. rewrite Hv2. apply view_agree.
    intros j [_ Hj]%list_elem_of_filter. auto.
  - destruct (IH (S i) st l Hr ltac:(lia)) as (Hr2 & Hv2 & Ht2).
    assert (filter (keep now (Z.of_nat (S i)) (Z.of_nat n) st) l =
      filter (keep now (Z.of_nat i) (Z.of_nat (S n)) st) l) as <-; [|done].
    apply filter_ext_in. intros j Hj. unfold keep. destruct (decide (j = i)) as [->|].
    + rewrite (list_lookup_total_correct _ _ _ He). rewrite (proj2 (Hused i e He) Hj) in Es. cbn in Es |- *.
      bool_hyps. split; intros _ [? ?]; lia.
    + split; intros Hk [Hb Hs]; apply Hk; (split; [lia|done]).
Qed.

Lemma expire_implements st L now :
  ic_repr st L →
  let st' := infer_cache_expire now st in
  ic_repr st' (ac_expire now (cache_ttl st) L) ∧ cache_ttl st' = cache_ttl st.
Proof.
  intros (l & Hr & ->). destruct (expire_loop_spec now INFER_CACHE_SIZE 0 st l Hr) as (Hr' & Hv & Ht); [lia|].
  cbv zeta. split; [|exact Ht]. eexists. split; [exact Hr'|]. etransitivity; [|symmetry; exact Hv].
  unfold ac_expire, ic_view_at. rewrite filter_fmap. f_equal. apply filter_ext_in. intros j Hj. unfold keep.
  destruct Hr as (_ & _ & _ & _ & Hlt & _). specialize (Hlt j Hj). split; intros Hk; [|intros Hs; apply Hk].
  - intros [_ Hs]. exact (Hk Hs).
  - split; [lia|exact Hs].
Qed.

Lemma flush_implements st L : ic_repr st L → ic_repr (infer_cache_flush st) [].
Proof.
  intros (l & (Hlen & Hwf & _) & _). exists []. split; [|done]. split_and!; cbn.
  - by rewrite length_fmap.
  - apply Forall_fmap. by apply (Forall_impl _ _ _ Hwf).
  - split_and!; (constructor || done).
  - intros i e (x & -> & _)%list_lookup_fmap_Some. cbn. split; [done|]. by intros ?%elem_of_nil.
  - by intros i ?%elem_of_nil.
  - constructor.
Qed.

Lemma size_implements st l : ic_repr_at st l → countb ce_used (ic_ent st) = length l.
Proof.
  intros (Hlen & _ & (Hnd & _) & Hused & Hlt & _).
  assert (filter (λ i, ce_used (ic_ent st !!! i) = true) (seq 0 INFER_CACHE_SIZE) ≡ₚ l) as Hp.
  { apply NoDup_Permutation; [apply NoDup_filter, NoDup_seq|done|]. intros i. rewrite list_elem_of_filter, elem_of_seq.
    split.
    - intros [Hu Hi]. destruct (lookup_lt_is_Some_2 (ic_ent st) i) as [e He]; [lia|].
      apply (Hused i e He). by rewrite (list_lookup_total_correct _ _ _ He) in Hu.
    - intros Hi. specialize (Hlt i Hi). destruct (lookup_lt_is_Some_2 (ic_ent st) i) as [e He]; [lia|].
      rewrite (list_lookup_total_correct _ _ _ He). split; [by apply (Hused i e He)|lia]. }
  rewrite <-Hp. unfold countb. rewrite <-Hlen.
  replace (ic_ent st) with ((λ i, ic_ent st !!! i) <$> seq 0 (length (ic_ent st))) at 1.
  { by rewrite filter_fmap, length_fmap. }
  apply list_eq. intros i. rewrite list_lookup_fmap. destruct (decide (i < length (ic_ent st))%nat) as [Hi|Hi].
  - rewrite lookup_seq_lt by done. cbn. destruct (lookup_lt_is_Some_2 (ic_ent st) i Hi) as [e He].
    by rewrite (list_lookup_total_correct _ _ _ He).
  - rewrite lookup_seq_ge by lia. symmetry. apply lookup_ge_None_2. lia.
Qed.

(** ** Histories of cache operations *)

Inductive cache_op :=
  | CLookup (name req : list Z) (resp_max : Z)
  | CInsert (now : Z) (name req resp : list Z)
  | CFlush
  | CSetTtl (ttl : Z)
  | CExpire (now : Z)
  | CSize.

(** What the operation answers: a code and the bytes copied out. *)
Definition cache_exec (op : cache_op) (st : icache_st) : (Z * list Z) * icache_st :=
  match op with
  | CLookup name req resp_max => infer_cache_lookup name req (length req) resp_max st
  | CInsert now name req resp =>
      ((0, []), infer_cache_insert now name req (length req) resp (Z.of_nat (length resp)) st)
  | CFlush => ((0, []), infer_cache_flush st)
  | CSetTtl ttl => ((0, []), infer_cache_set_ttl ttl st)
  | CExpire now => ((0, []), infer_cache_expire now st)
  | CSize => let '(_, _, _, size, _, _) := infer_cache_get_stat st in ((size, []), st)
  end.

(** The same on the abstract cache and its time to live. *)
Definition acache_exec (op : cache_op) (a : acache * Z) : (Z * list Z) * (acache * Z) :=
  match op with
  | CLookup name req resp_max =>
      match ac_lookup (fnv1a_hash name req (length req), c_str name) a.1 with
      | (Some v, L) => let out := take (Z.to_nat resp_max) v.1 in ((Z.of_nat (length out), out), (L, a.2))
      | (None, L) => ((- ENOENT, []), (L, a.2))
      end
  | CInsert now name req resp =>
      ((0, []), (if INFER_CACHE_RESP_MAX <? Z.of_nat (length resp) then a.1 else
                 ac_insert (fnv1a_hash name req (length req), c_str name) (resp, u32 now) a.1, a.2))
  | CFlush => ((0, []), ([], a.2))
  | CSetTtl ttl => ((0, []), (a.1, ttl))
  | CExpire now => ((0, []), (ac_expire now a.2 a.1, a.2))
  | CSize => ((Z.of_nat (length a.1), []), a)
  end.

(** Names fit their buffer with the NUL, and lengths are not negative. *)
Definition cache_op_ok (op : cache_op) : Prop :=
  match op with
  | CLookup _ _ resp_max => 0 ≤ resp_max
  | CInsert _ name _ _ => (length (c_str name) < INFER_NAME_MAX)%nat
  | _ => True
  end.

Fixpoint cache_run {St} (exec : cache_op → St → (Z * list Z) * St) (ops : list cache_op) (st : St)
    : list (Z * list Z) * St :=
  match ops with
  | [] => ([], st)
  | op :: ops' => let '(o, st1) := exec op st in
                  let '(os, st2) := cache_run exec ops' st1 in (o :: os, st2)
  end.

Definition cache_sim (st : icache_st) (a : acache * Z) : Prop := ic_repr st a.1 ∧ cache_ttl st = a.2.

Lemma cache_init_sim : cache_sim icache_init ([], INFER_CACHE_DEFAULT_TTL).
Proof.
  split; [|done]. exists []. split; [|done]. split_and!.
  - done.
  - by apply Forall_replicate.
  - split_and!; (constructor || done).
  - intros i e [-> _]%lookup_replicate. split; [done|]. by intros ?%elem_of_nil.
  - by intros i ?%elem_of_nil.
  - constructor.
Qed.

Lemma cache_exec_sim op st a :
  cache_op_ok op → cache_sim st a →
  (cache_exec op st).1 = (acache_exec op a).1 ∧ cache_sim (cache_exec op st).2 (acache_exec op a).2.
Proof.
  destruct a as [L ttl]. intros Hok [Hr Ht]. cbn [fst snd] in Hr, Ht.
  destruct op as [name req m|now name req resp| |t|now|]; cbn [cache_exec acache_exec fst snd cache_op_ok] in *.
  - pose proof (lookup_implements st L name req m Hr Hok) as H.
    destruct (infer_cache_lookup _ _ _ _ _) as [[r out] st'].
    destruct (ac_lookup _ _) as [[v|] L']; destruct H as [(-> & -> & ?) ?]; (split; [done|]); split; cbn; congruence.
  - destruct (insert_implements st L now name req resp (Z.of_nat (length resp)) Hr Hok) as [H H']; [lia|].
    rewrite Nat2Z.id, take_ge in H by done. split; [done|]. split; [exact H|]. etransitivity; [exact H'|exact Ht].
  - split; [done|]. split; [by eapply flush_implements|exact Ht].
  - split; [done|]. split; [exact Hr|done].
  - rewrite <-Ht. destruct (expire_implements st L now Hr) as [H H']. split; [done|]. split; [exact H|exact H'].
  - destruct Hr as (l & Hr & ->). cbn [infer_cache_get_stat]. rewrite (size_implements _ _ Hr), length_view.
    split; [done|]. split; [by exists l|exact Ht].
Qed.

Lemma cache_run_sim ops st a :
  Forall cache_op_ok ops → cache_sim st a →
  (cache_run cache_exec ops st).1 = (cache_run acache_exec ops a).1 ∧
  cache_sim (cache_run cache_exec ops st).2 (cache_run acache_exec ops a).2.
Proof.
  intros Hok. revert st a. induction Hok as [|op ops Hop _ IH]; intros st a Hs; [done|]. cbn [cache_run].
  destruct (cache_exec_sim op st a Hop Hs) as [H1 H2].
  destruct (cache_exec op st) as [o st1], (acache_exec op a) as [o' a1]. cbn [fst snd] in H1, H2. subst o'.
  specialize (IH st1 a1 H2). destruct (cache_run cache_exec ops st1), (cache_run acache_exec ops a1).
  cbn [fst snd] in *. destruct IH as [-> ?]. done.
Qed.

(** C29.  Any history of lookups, insertions, expirations and flushes of the result
    cache answers exactly what a list of at most [INFER_CACHE_SIZE] keys in
    least-recently-used order answers: the array, the free slots and the index
    links implement that list.  Inserted names are shorter than
    [INFER_NAME_MAX], 32 characters. *)
Theorem infer_cache_refines ops :
  Forall cache_op_ok ops →
  let '(out, st) := cache_run cache_exec ops icache_init in
  let '(out', (L, ttl)) := cache_run acache_exec ops ([], INFER_CACHE_DEFAULT_TTL) in
  out = out' ∧ ic_repr st L ∧ cache_ttl st = ttl ∧ (length L ≤ INFER_CACHE_SIZE)%nat.
Proof.
  intros Hok. destruct (cache_run_sim ops _ _ Hok cache_init_sim) as [H1 H2].
  destruct (cache_run cache_exec _ _) as [out st], (cache_run acache_exec _ _) as [out' [L ttl]].
  cbn [fst snd] in *. destruct H2 as [Hr Ht]. cbn [fst snd] in *. split_and!; [done..|].
  destruct Hr as (l & Hr & ->). rewrite length_view. by apply (ic_length _ _ Hr).
Qed.

(** ** Retention *)

(** The key is among the [m + 1] most recently used, with the value. *)
Definition holds_at (k : ckey) (v : cval) (m : nat) (L : acache) : Prop :=
  ∃ n, find_idx (key_is k) L = Some n ∧ L !! n = Some (k, v) ∧ (n ≤ m)%nat.

Lemma find_idx_delete {A} (q : A → bool) (l : list A) n p x :
  find_idx q l = Some n → l !! p = Some x → q x = false →
  ∃ n', find_idx q (delete p l) = Some n' ∧ delete p l !! n' = l !! n ∧ (n' ≤ n)%nat.
Proof.
  revert n p. induction l as [|a l IH]; intros n p Hn Hp Hx; [done|]. cbn [find_idx] in Hn.
  destruct p as [|p]; cbn in Hp.
  - cbn. injection Hp as ->. rewrite Hx in Hn. apply fmap_Some in Hn as (k & Hk & ->).
    exists k. split_and!; [done..|lia].
  - change (delete (S p) (a :: l)) with (a :: delete p l). cbn [find_idx]. destruct (q a) eqn:Ea.
    + injection Hn as <-. exists O. split_and!; [done..|lia].
    + apply fmap_Some in Hn as (k & Hk & ->). destruct (IH k p Hk Hp Hx) as (n' & Hn' & Hl & Hle).
      exists (S n'). rewrite Hn'. split_and!; [done..|lia].
Qed.

Lemma find_idx_take {A} (q : A → bool) (l : list A) n m :
  find_idx q l = Some n → (n < m)%nat → find_idx q (take m l) = Some n.
Proof.
  intros (x & Hx & Hq & Hmin)%find_idx_Some Hm. apply find_idx_Some. exists x.
  rewrite lookup_take_lt by done. split_and!; [done..|]. intros j y Hj Hy. apply (Hmin j y Hj).
  by apply lookup_take_Some in Hy as [? _].
Qed.

Lemma key_is_eq k v : key_is k (k, v) = true.
Proof. by apply bool_decide_eq_true. Qed.
Lemma key_is_ne k k' v : k' ≠ k → key_is k (k', v) = false.
Proof. intros. by apply bool_decide_eq_false. Qed.

Lemma holds_cons k v m k' v' L : k' ≠ k → holds_at k v m L → holds_at k v (S m) ((k', v') :: L).
Proof.
  intros Hne (n & Hn & Hl & Hm). exists (S n). cbn [find_idx].
  rewrite key_is_ne by done. rewrite Hn.
  split_and!; [done..|lia].
Qed.

Lemma holds_delete k v m p x L :
  holds_at k v m L → L !! p = Some x → x.1 ≠ k → holds_at k v m (delete p L).
Proof.
  intros (n & Hn & Hl & Hm) Hp Hx.
  destruct (find_idx_delete _ _ _ p x Hn Hp) as (n' & Hn' & Hl' & Hle); [by apply bool_decide_eq_false|].
  exists n'. rewrite Hl', Hl. split_and!; [done..|lia].
Qed.

Lemma key_is_found k L n : find_idx (key_is k) L = Some n → ∃ v, L !! n = Some (k, v).
Proof. intros ([k' v] & Hl & Hk)%find_idx_lookup. apply bool_decide_eq_true in Hk. cbn in Hk. subst. by exists v. Qed.

(** What was just inserted is found, at the front. *)
Lemma ac_lookup_insert k v L : ac_lookup k (ac_insert k v L) = (Some v, ac_insert k v L).
Proof.
  assert (∃ M, ac_insert k v L = (k, v) :: M) as (M & ->) by (unfold ac_insert; case_match; by eexists).
  unfold ac_lookup. cbn [find_idx]. by rewrite key_is_eq.
Qed.

(** A lookup right after an insertion of the same string and request bytes. *)
Lemma cache_insert_lookup st L now name name' req req' m resp n :
  ic_repr st L → c_str name' = c_str name → (length (c_str name) < INFER_NAME_MAX)%nat →
  0 ≤ n ≤ INFER_CACHE_RESP_MAX → n ≤ Z.of_nat (length resp) → take m req' = take m req →
  (infer_cache_lookup name' req' m n (infer_cache_insert now name req m resp n st)).1 = (n, take (Z.to_nat n) resp).
Proof.
  intros HL Hname Hlen Hn Hresp Hreq. set (rq := take m req).
  assert (∀ nm r, c_str nm = c_str name → take m r = rq → fnv1a_hash nm r m = fnv1a_hash name rq (length rq)) as Hh.
  { intros nm r Hnm Hr. unfold fnv1a_hash. by rewrite Hnm, Hr, (firstn_all rq). }
  assert (∀ nm, c_str nm = c_str name → fnv1a_hash nm rq (length rq) = fnv1a_hash name rq (length rq)) as Hh'.
  { intros nm Hnm. unfold fnv1a_hash. by rewrite Hnm. }
  assert (infer_cache_insert now name req m resp n st = infer_cache_insert now name rq (length rq) resp n st) as ->
    by (unfold infer_cache_insert; by rewrite (Hh name req)).
  destruct (insert_implements st L now name rq resp n HL Hlen ltac:(lia)) as [Hrep _].
  rewrite (proj2 (Z.ltb_ge _ n)) in Hrep by lia. set (c1 := infer_cache_insert _ _ _ _ _ _ _) in *. clearbody c1.
  assert (infer_cache_lookup name' req' m n c1 = infer_cache_lookup name' rq (length rq) n c1) as ->
    by (unfold infer_cache_lookup; by rewrite (Hh name' req' Hname Hreq), (Hh' name' Hname)).
  pose proof (lookup_implements c1 _ name' rq n Hrep ltac:(lia)) as Hlk.
  destruct (infer_cache_lookup name' rq (length rq) n c1) as [[r out] c2].
  rewrite (Hh' name' Hname), Hname, ac_lookup_insert in Hlk. cbn [fst snd] in *. destruct Hlk as [(-> & -> & _) _].
  rewrite take_take, Nat.min_id. f_equal. rewrite length_take. lia.
Qed.

(** A history of lookups and insertions of other values that leaves [k] alone. *)
Definition harmless (k : ckey) (op : cache_op) : Prop :=
  match op with
  | CLookup _ _ _ | CSize => True
  | CInsert _ name req _ => (fnv1a_hash name req (length req), c_str name) ≠ k
  | _ => False
  end.

Lemma holds_step k v m op a :
  harmless k op → holds_at k v m a.1 → (S m < INFER_CACHE_SIZE)%nat → (length a.1 ≤ INFER_CACHE_SIZE)%nat →
  holds_at k v (S m) (acache_exec op a).2.1 ∧ (length (acache_exec op a).2.1 ≤ INFER_CACHE_SIZE)%nat.
Proof.
  destruct a as [L ttl]. cbn [fst snd]. intros Hh Hold Hm Hlen.
  assert (holds_at k v (S m) L) as Hold' by (destruct Hold as (n & ? & ? & ?); exists n; split_and!; [done..|lia]).
  destruct op as [name req mx|now name req resp| |t|now|]; cbn [harmless acache_exec fst snd] in *; try done.
  - set (k' := (_, _)). unfold ac_lookup. destruct (find_idx (key_is k') L) as [p|] eqn:Ef; [|done].
    destruct (key_is_found _ _ _ Ef) as (v' & Hp). rewrite Hp. cbn [fst snd]. split.
    + destruct (decide (k' = k)) as [Heq|Hne].
      * rewrite Heq in *. destruct Hold as (n & Hn & Hl & _). rewrite Ef in Hn. injection Hn as ->.
        rewrite Hp in Hl. injection Hl as ->. exists O. cbn [find_idx].
        rewrite key_is_eq. split_and!; [done..|lia].
      * apply holds_cons; [done|]. by apply (holds_delete _ _ _ _ (k', v')).
    + cbn [length]. rewrite length_delete by done. apply lookup_lt_Some in Hp. lia.
  - set (k' := (_, _)) in *. case_match eqn:Eb; [done|]. unfold ac_insert.
    destruct (find_idx (key_is k') L) as [p|] eqn:Ef.
    + destruct (key_is_found _ _ _ Ef) as (v' & Hp). split.
      * apply holds_cons; [done|]. by apply (holds_delete _ _ _ _ (k', v')).
      * cbn [length]. rewrite length_delete by done. apply lookup_lt_Some in Hp. lia.
    + case_decide; (split; [apply holds_cons; [done|]|cbn [length]; rewrite ?length_take; lia]); [done|].
      destruct Hold as (n & Hn & Hl & Hle). exists n. rewrite lookup_take_lt by lia.
      split_and!; [apply find_idx_take; [done|lia]|done|done].
Qed.

Lemma holds_run k v m ops a :
  Forall (harmless k) ops → holds_at k v m a.1 → (m + length ops < INFER_CACHE_SIZE)%nat →
  (length a.1 ≤ INFER_CACHE_SIZE)%nat →
  holds_at k v (m + length ops) (cache_run acache_exec ops a).2.1.
Proof.
  intros Hh. revert m a. induction Hh as [|op ops Hop _ IH]; intros m a Hold Hm Hlen; cbn [cache_run length] in *.
  { by rewrite Nat.add_0_r. }
  destruct (holds_step k v m op a Hop Hold ltac:(lia) Hlen) as [H1 H2].
  destruct (acache_exec op a) as [o a1]. cbn [fst snd] in *. specialize (IH (S m) a1 H1 ltac:(lia) H2).
  destruct (cache_run acache_exec ops a1) as [os a2]. cbn [fst snd] in *. by rewrite <-Nat.add_succ_comm.
Qed.

(** The run on a history in two parts. *)
Lemma cache_run_app {St} (exec : cache_op → St → (Z * list Z) * St) ops1 ops2 st :
  cache_run exec (ops1 ++ ops2) st =
  let '(o1, st1) := cache_run exec ops1 st in
  let '(o2, st2) := cache_run exec ops2 st1 in (o1 ++ o2, st2).
Proof.
  revert st. induction ops1 as [|op ops IH]; intros st; cbn [cache_run app].
  { by destruct (cache_run exec ops2 st). }
  destruct (exec op st) as [o st1]. rewrite IH. destruct (cache_run exec ops st1) as [os st2].
  by destruct (cache_run exec ops2 st2).
Qed.

(** A cached response is still served, byte for byte, after up to 31 further
    lookups and insertions under other keys: after any history [pre], the
    lookup that follows the insertion and the [ops] returns the response. *)
Theorem infer_cache_retention pre now name req resp ops resp_max :
  Forall cache_op_ok (pre ++ CInsert now name req resp :: ops) →
  Z.of_nat (length resp) ≤ INFER_CACHE_RESP_MAX →
  Forall (harmless (fnv1a_hash name req (length req), c_str name)) ops →
  (length ops < INFER_CACHE_SIZE)%nat → Z.of_nat (length resp) ≤ resp_max →
  let st := (cache_run cache_exec (pre ++ CInsert now name req resp :: ops) icache_init).2 in
  (cache_exec (CLookup name req resp_max) st).1 = (Z.of_nat (length resp), resp).
Proof.
  intros Hok Hlen Hh Hn Hmax st. set (k := (fnv1a_hash name req (length req), c_str name)) in *.
  destruct (cache_run_sim _ _ _ Hok cache_init_sim) as [_ Hs]. fold st in Hs.
  destruct (cache_exec_sim (CLookup name req resp_max) _ _ ltac:(cbn; lia) Hs) as [-> _].
  apply Forall_app in Hok as [Hpre _]. destruct (cache_run_sim _ _ _ Hpre cache_init_sim) as [_ [Hs1 _]].
  rewrite cache_run_app. destruct (cache_run acache_exec pre _) as [o1 [L ttl]]. cbn [fst snd] in Hs1.
  destruct Hs1 as (l & Hr & HL). pose proof (ic_length _ _ Hr) as Hll. eassert (length L = length l) as Hll' by (rewrite HL; apply length_view).
  cbn [cache_run acache_exec fst snd]. rewrite (proj2 (Z.ltb_ge _ _)) by done. fold k.
  set (L1 := ac_insert k _ L).
  assert (holds_at k (resp, u32 now) 0 L1 ∧ (length L1 ≤ INFER_CACHE_SIZE)%nat) as [Hh1 Hl1].
  { assert (∃ M, L1 = (k, (resp, u32 now)) :: M ∧ (length M < INFER_CACHE_SIZE)%nat) as (M & -> & HM).
    { unfold L1, ac_insert. destruct (find_idx _ L) as [p|] eqn:Ef.
      - eexists. split; [done|]. apply find_idx_lt in Ef as Hp. rewrite length_delete by by apply lookup_lt_is_Some_2. lia.
      - eexists. split; [done|]. case_decide; [lia|]. rewrite length_take. lia. }
    split; [|cbn; lia]. exists O. cbn [find_idx].
    rewrite key_is_eq. done. }
  pose proof (holds_run k _ 0 ops (L1, ttl) Hh Hh1 ltac:(lia) Hl1) as (n & Hf & Hl & _).
  destruct (cache_run acache_exec ops (L1, ttl)) as [o2 [L2 t2]]. cbn [fst snd] in *. fold k.
  unfold ac_lookup. rewrite Hf, Hl. cbn [fst snd]. by rewrite take_ge by lia.
Qed.

(** Sample history: fills beyond the capacity, a hit, expiry. *)
Definition cache_sample : list cache_op :=
  ((λ i, CInsert 7 [108; 0] [Z.of_nat i] [Z.of_nat i; 1]) <$> seq 0 34) ++
  [CLookup [108; 0] [0] 16; CLookup [108; 0] [2] 16; CSetTtl 3; CExpire 20; CSize].

Lemma cache_sample_ok : Forall cache_op_ok cache_sample.
Proof. unfold cache_sample. repeat constructor; cbn; lia. Qed.

Lemma infer_cache_refines_witness :
  drop 34 (cache_run cache_exec cache_sample icache_init).1 =
    [(-2, []); (2, [2; 1]); (0, []); (0, []); (0, [])] ∧
  Forall cache_op_ok cache_sample ∧
  (let '(out, st) := cache_run cache_exec cache_sample icache_init in
   let '(out', (L, ttl)) := cache_run acache_exec cache_sample ([], INFER_CACHE_DEFAULT_TTL) in
   out = out' ∧ ic_repr st L ∧ cache_ttl st = ttl ∧ (length L ≤ INFER_CACHE_SIZE)%nat).
Proof.
  split; [by vm_compute|]. split; [exact cache_sample_ok|].
  exact (infer_cache_refines cache_sample cache_sample_ok).
Defined.

Definition retention_ops : list cache_op :=
  ((λ i, CInsert 7 [108; 0] [Z.of_nat i] [9]) <$> seq 1 31).

Lemma infer_cache_retention_witness :
  (cache_exec (CLookup [108; 0] [0] 64)
     (cache_run cache_exec ([] ++ CInsert 7 [108; 0] [0] [5; 6] :: retention_ops) icache_init).2).1 = (2, [5; 6]).
Proof.
  apply (infer_cache_retention [] 7 [108; 0] [0] [5; 6] retention_ops 64).
  - repeat constructor; cbn; lia.
  - by vm_compute.
  - apply Forall_fmap, Forall_forall. intros i Hi.
    apply elem_of_seq in Hi. do 32 (destruct i as [|i]; [first [lia|vm_compute; congruence]|]). lia.
  - by vm_compute.
  - by vm_compute.
Defined.
