(* ===== verification/InferAsync.v ===== *)
(** * InferAsync: asynchronous inference requests

    Models the asynchronous part of [src/kernel/src/ipc/infer_svc.c]: a table of
    [INFER_ASYNC_SIZE] slots that processes submit to, poll and collect from,
    and a worker thread ([infer_async_process_one]) that routes the oldest
    pending request to a provider, stores the response, caches it
    ([InferCache]) and signals the request's eventfd ([Handles]).

    The worker drops the lock while it talks to the provider.  It is modelled
    as two steps: [async_pick] (up to the first unlock) and [async_finish]
    (from the answer of the provider on); what the routing and the socket
    calls in between answered is the argument [io_outcome] of the second.
    Other processes may run between the two. *)

From S2P Require Import Prelude KUtil Handles Dll InferCache.

Abbreviation INFER_ASYNC_SIZE := 16%nat (only parsing).
Abbreviation INFER_ASYNC_REQ_MAX := 256 (only parsing).
Abbreviation INFER_ASYNC_RESP_MAX := 256 (only parsing).
Abbreviation INFER_ASYNC_TIMEOUT := 90 (only parsing).

(** ** State *)

Inductive async_state := ASYNC_FREE | ASYNC_PENDING | ASYNC_READY | ASYNC_ERROR.
#[export] Instance async_state_eq_dec : EqDecision async_state.
Proof. solve_decision. Defined.

Definition async_state_z (s : async_state) : Z :=
  match s with ASYNC_FREE => 0 | ASYNC_PENDING => 1 | ASYNC_READY => 2 | ASYNC_ERROR => 3 end.

Record infer_async_entry := mk_async {
  as_name : list Z;
  as_request : list Z;
  as_req_len : Z;
  as_response : list Z;
  as_resp_len : Z;
  as_owner_pid : Z;
  as_eventfd_idx : Z;
  as_error_code : Z;
  as_submit_tick : Z;
  as_ns_id : Z;
  as_state : async_state
}.
#[export] Instance infer_async_entry_eta : Eta infer_async_entry := λ e,
  mk_async (as_name e) (as_request e) (as_req_len e) (as_response e) (as_resp_len e) (as_owner_pid e)
    (as_eventfd_idx e) (as_error_code e) (as_submit_tick e) (as_ns_id e) (as_state e).
#[export] Instance infer_async_entry_inhabited : Inhabited infer_async_entry :=
  populate (mk_async (replicate INFER_NAME_MAX 0) (replicate (Z.to_nat INFER_ASYNC_REQ_MAX) 0) 0
    (replicate (Z.to_nat INFER_ASYNC_RESP_MAX) 0) 0 0 0 0 0 0 ASYNC_FREE).

(** The slots, the result cache and the eventfd table. *)
Record async_st := mk_as {
  as_tbl : list infer_async_entry;
  as_cache : icache_st;
  as_efds : list eventfd
}.
#[export] Instance async_st_eta : Eta async_st := λ s, mk_as (as_tbl s) (as_cache s) (as_efds s).

Definition async_init : async_st :=
  mk_as (replicate INFER_ASYNC_SIZE inhabitant) icache_init (replicate MAX_EVENTFDS inhabitant).

Definition set_async (i : nat) (e : infer_async_entry) (st : async_st) : async_st :=
  st <| as_tbl := <[i := e]> (as_tbl st) |>.

Definition is_astate (s : async_state) (e : infer_async_entry) : bool := bool_decide (as_state e = s).

(** ** Operations *)

(** The fields stored on submission; [ns] is the namespace of the process, if
    it still exists. *)
Definition async_fill (now : Z) (name req : list Z) (req_len owner_pid eventfd_idx : Z) (ns : option Z)
    (e : infer_async_entry) : infer_async_entry :=
  e <| as_name := str_copy (as_name e) name INFER_NAME_MAX |>
    <| as_request := if 0 <? req_len then mem_copy (as_request e) req (Z.to_nat req_len) else as_request e |>
    <| as_req_len := req_len |> <| as_resp_len := 0 |> <| as_owner_pid := owner_pid |>
    <| as_eventfd_idx := eventfd_idx |> <| as_error_code := 0 |> <| as_submit_tick := u32 now |>
    <| as_ns_id := default 0 ns |> <| as_state := ASYNC_PENDING |>.

(** [lookup] is [process_lookup], with the namespace of the process found. *)
Definition infer_async_submit (lookup : Z → option Z) (now : Z) (name req : list Z)
    (req_len owner_pid eventfd_idx : Z) (st : async_st) : Z * async_st :=
  if INFER_ASYNC_REQ_MAX <? req_len then (- EINVAL, st)
  else
    match find_idx (is_astate ASYNC_FREE) (as_tbl st) with
    | None => (- ENOBUFS, st)
    | Some i =>
        (Z.of_nat i + 1,
         set_async i (async_fill now name req req_len owner_pid eventfd_idx (lookup owner_pid)
                        (as_tbl st !!! i)) st)
    end.

(** The guards of [infer_async_poll] and [infer_async_result]: the index out of
    range, or a slot that is free or somebody else's. *)
Definition async_bad (request_id caller_pid : Z) (st : async_st) : bool :=
  let idx := request_id - 1 in
  (idx <? 0) || (Z.of_nat INFER_ASYNC_SIZE <=? idx) ||
  (let e := as_tbl st !!! Z.to_nat idx in
   is_astate ASYNC_FREE e || negb (as_owner_pid e =? caller_pid)).

Definition async_err (e : infer_async_entry) : Z :=
  if negb (as_error_code e =? 0) then - as_error_code e else - ENOENT.

Definition infer_async_poll (request_id caller_pid : Z) (st : async_st) : Z :=
  if async_bad request_id caller_pid st then - EINVAL
  else
    let e := as_tbl st !!! Z.to_nat (request_id - 1) in
    match as_state e with
    | ASYNC_ERROR => async_err e
    | s => async_state_z s
    end.

(** The code and the bytes copied out. *)
Definition infer_async_result (request_id caller_pid resp_max : Z) (st : async_st) : Z * list Z * async_st :=
  if async_bad request_id caller_pid st then (- EINVAL, [], st)
  else
    let i := Z.to_nat (request_id - 1) in
    let e := as_tbl st !!! i in
    match as_state e with
    | ASYNC_PENDING => (- EAGAIN, [], st)
    | ASYNC_ERROR => (async_err e, [], set_async i (e <| as_state := ASYNC_FREE |>) st)
    | _ =>
        let copy_len := if resp_max <? as_resp_len e then resp_max else as_resp_len e in
        (copy_len, (if 0 <? copy_len then take (Z.to_nat copy_len) (as_response e) else []),
         set_async i (e <| as_state := ASYNC_FREE |>) st)
    end.

(** The scan for the oldest pending request: the best index so far and its
    tick. *)
Fixpoint async_oldest (l : list infer_async_entry) (i : nat) (best : option nat) (oldest : Z) : option nat * Z :=
  match l with
  | [] => (best, oldest)
  | e :: l' =>
      if is_astate ASYNC_PENDING e && (as_submit_tick e <? oldest)
      then async_oldest l' (S i) (Some i) (as_submit_tick e)
      else async_oldest l' (S i) best oldest
  end.

(** What the worker copies out before it releases the lock. *)
Record async_job := mk_job {
  job_best : nat;
  job_name : list Z;
  job_req : list Z;
  job_req_len : Z;
  job_efd : Z;
  job_ns_id : Z;
  job_tick : Z
}.

(** [name] and [req_copy] are local buffers of the worker. *)
Definition async_pick (st : async_st) : option async_job :=
  match async_oldest (as_tbl st) 0 None 0xFFFFFFFF with
  | (None, _) => None
  | (Some best, tick) =>
      let e := as_tbl st !!! best in
      Some (mk_job best (str_copy (replicate INFER_NAME_MAX 0) (as_name e) INFER_NAME_MAX)
              (if 0 <? as_req_len e
               then mem_copy (replicate (Z.to_nat INFER_ASYNC_REQ_MAX) 0) (as_request e) (Z.to_nat (as_req_len e))
               else replicate (Z.to_nat INFER_ASYNC_REQ_MAX) 0)
              (as_req_len e) (as_eventfd_idx e) (as_ns_id e) tick)
  end.

(** How the calls made without the lock ended: no provider for the name, the
    provider gone, no connection, the request not sent, or the number of bytes
    received with the contents of the receive buffer. *)
Inductive io_outcome :=
  | IoNoRoute
  | IoNoService
  | IoNoConn
  | IoSendFailed
  | IoReceived (received : Z) (resp_tmp : list Z).

(** [if (state == PENDING) { state = ERROR; error_code = code; }]. *)
Definition async_fail (i : nat) (code : Z) (st : async_st) : async_st :=
  let e := as_tbl st !!! i in
  if is_astate ASYNC_PENDING e
  then set_async i (e <| as_state := ASYNC_ERROR |> <| as_error_code := code |>) st
  else st.

(** [if (efd >= 0) eventfd_write(efd, 1)]. *)
Definition async_signal (efd : Z) (st : async_st) : async_st :=
  if 0 <=? efd then st <| as_efds := (eventfd_write efd 1 (as_efds st)).2 |> else st.

(** Storing what was received, and caching it. *)
Definition async_store (now : Z) (j : async_job) (received : Z) (resp_tmp : list Z) (st : async_st) : async_st :=
  let i := job_best j in
  let e := as_tbl st !!! i in
  if is_astate ASYNC_PENDING e then
    if 0 <? received then
      let rlen := if INFER_ASYNC_RESP_MAX <? received then INFER_ASYNC_RESP_MAX else received in
      let st := set_async i (e <| as_response := mem_copy (as_response e) resp_tmp (Z.to_nat rlen) |>
                               <| as_resp_len := rlen |> <| as_state := ASYNC_READY |>) st in
      if (0 <? job_req_len j) && (rlen <=? INFER_CACHE_RESP_MAX)
      then st <| as_cache := infer_cache_insert now (job_name j) (job_req j) (Z.to_nat (job_req_len j))
                               resp_tmp rlen (as_cache st) |>
      else st
    else set_async i (e <| as_state := ASYNC_ERROR |> <| as_error_code := ENOENT |>) st
  else st.

Definition async_finish (now : Z) (j : async_job) (o : io_outcome) (st : async_st) : Z * async_st :=
  match o with
  | IoNoRoute =>
      if INFER_ASYNC_TIMEOUT <? u32 (u32 now - job_tick j)
      then (1, async_signal (job_efd j) (async_fail (job_best j) EAGAIN st))
      else (0, st)
  | IoNoService => (1, async_signal (job_efd j) (async_fail (job_best j) ENOENT st))
  | IoNoConn => (1, async_signal (job_efd j) (async_fail (job_best j) ECONNREFUSED st))
  | IoSendFailed => (1, async_signal (job_efd j) (async_fail (job_best j) EIO st))
  | IoReceived received resp_tmp =>
      (1, async_signal (job_efd j) (async_store now j received resp_tmp st))
  end.

(** [io] answers the calls made for the job, when nothing else runs. *)
Definition infer_async_process_one (now : Z) (io : async_job → io_outcome) (st : async_st) : Z * async_st :=
  match async_pick st with
  | None => (0, st)
  | Some j => async_finish now j (io j) st
  end.

(** One slot of [infer_async_expire]: the slot, and the eventfds. *)
Definition async_expire_one (now : Z) (e : infer_async_entry) (efds : list eventfd)
    : infer_async_entry * list eventfd :=
  if is_astate ASYNC_PENDING e && (INFER_ASYNC_TIMEOUT <? u32 (u32 now - as_submit_tick e))
  then (e <| as_state := ASYNC_ERROR |> <| as_error_code := EAGAIN |>,
        if 0 <=? as_eventfd_idx e then (eventfd_write (as_eventfd_idx e) 1 efds).2 else efds)
  else (e, efds).

Fixpoint async_expire_loop (now : Z) (l : list infer_async_entry) (efds : list eventfd)
    : list infer_async_entry * list eventfd :=
  match l with
  | [] => ([], efds)
  | e :: l' =>
      let '(e, efds) := async_expire_one now e efds in
      let '(l', efds) := async_expire_loop now l' efds in
      (e :: l', efds)
  end.

Definition infer_async_expire (now : Z) (st : async_st) : async_st :=
  let '(l, efds) := async_expire_loop now (as_tbl st) (as_efds st) in
  st <| as_tbl := l |> <| as_efds := efds |>.

Definition infer_async_cleanup_pid (pid : Z) (st : async_st) : async_st :=
  st <| as_tbl := (λ e, if negb (is_astate ASYNC_FREE e) && (as_owner_pid e =? pid)
                        then e <| as_state := ASYNC_FREE |> else e) <$> as_tbl st |>.

(** ** Steps *)

(** Who acts: a process that submits, one that collects, the worker, the timer, or
    the exit of a process. *)
Inductive async_actor := BySubmit (pid : Z) | ByResult (pid : Z) | ByWorker | ByTimer | ByExit (pid : Z).

(** What they do to the table, in any order.  A worker that was interrupted holds some
    job, picked in an earlier state. *)
Inductive async_step : async_actor → async_st → async_st → Prop :=
  | AsSubmit lookup now name req len pid efd st :
      0 ≤ len ≤ Z.of_nat (length req) →
      async_step (BySubmit pid) st (infer_async_submit lookup now name req len pid efd st).2
  | AsResult id pid max st : async_step (ByResult pid) st (infer_async_result id pid max st).2
  | AsFinish now j o st :
      (∀ n b, o = IoReceived n b → n ≤ Z.of_nat (length b)) →
      async_step ByWorker st (async_finish now j o st).2
  | AsExpire now st : async_step ByTimer st (infer_async_expire now st)
  | AsCleanup pid st : async_step (ByExit pid) st (infer_async_cleanup_pid pid st).

(** ** Invariant *)

Definition async_entry_wf (e : infer_async_entry) : Prop :=
  length (as_name e) = INFER_NAME_MAX ∧ (length (c_str (as_name e)) < INFER_NAME_MAX)%nat ∧
  length (as_request e) = Z.to_nat INFER_ASYNC_REQ_MAX ∧ 0 ≤ as_req_len e ≤ INFER_ASYNC_REQ_MAX ∧
  length (as_response e) = Z.to_nat INFER_ASYNC_RESP_MAX ∧ 0 ≤ as_resp_len e ≤ INFER_ASYNC_RESP_MAX.

#[export] Instance async_entry_wf_dec e : Decision (async_entry_wf e).
Proof. unfold async_entry_wf. apply _. Defined.

Definition async_wf (st : async_st) : Prop :=
  length (as_tbl st) = INFER_ASYNC_SIZE ∧ Forall async_entry_wf (as_tbl st).

(** The life of a slot, with who may move it: submitted for a process, answered by the
    worker or failed by it or by the timer, and then collected by its owner.  Only the
    exit of its owner frees a slot that is still pending. *)
Inductive slot_edge : async_actor → infer_async_entry → infer_async_entry → Prop :=
  | EdgeStay a e : slot_edge a e e
  | EdgeSubmit pid e e' :
      as_state e = ASYNC_FREE → as_state e' = ASYNC_PENDING → as_owner_pid e' = pid → as_resp_len e' = 0 → as_error_code e' = 0 →
      slot_edge (BySubmit pid) e e'
  | EdgeReady e resp n :
      as_state e = ASYNC_PENDING →
      slot_edge ByWorker e (e <| as_response := resp |> <| as_resp_len := n |> <| as_state := ASYNC_READY |>)
  | EdgeError a e code :
      a = ByWorker ∨ a = ByTimer → as_state e = ASYNC_PENDING → code ≠ 0 →
      slot_edge a e (e <| as_state := ASYNC_ERROR |> <| as_error_code := code |>)
  | EdgeCollect pid e :
      as_state e = ASYNC_READY ∨ as_state e = ASYNC_ERROR → as_owner_pid e = pid →
      slot_edge (ByResult pid) e (e <| as_state := ASYNC_FREE |>)
  | EdgeExit pid e :
      as_state e ≠ ASYNC_FREE → as_owner_pid e = pid → slot_edge (ByExit pid) e (e <| as_state := ASYNC_FREE |>).

(** ** Lemmas *)

Lemma is_astate_true s e : is_astate s e = true ↔ as_state e = s.
Proof. apply bool_decide_eq_true. Qed.
Lemma is_astate_false s e : is_astate s e = false ↔ as_state e ≠ s.
Proof. apply bool_decide_eq_false. Qed.

(** A slot that is not free is one of the table. *)
Lemma async_slot st i : as_state (as_tbl st !!! i) ≠ ASYNC_FREE → as_tbl st !! i = Some (as_tbl st !!! i).
Proof.
  intros H. destruct (as_tbl st !! i) as [e|] eqn:Hi; [by rewrite (list_lookup_total_correct _ _ _ Hi)|].
  rewrite list_lookup_total_alt, Hi in H. done.
Qed.

(** One slot changes along an edge. *)
Definition async_ok (a : async_actor) (st st' : async_st) : Prop :=
  async_wf st' ∧ Forall2 (slot_edge a) (as_tbl st) (as_tbl st').

Lemma async_ok_refl a st : async_wf st → async_ok a st st.
Proof. intros H. split; [done|]. apply Forall2_same_length_lookup_2; [done|]. intros i x y ? ?. simplify_eq. constructor. Qed.

Lemma set_async_ok a st i e e' :
  async_wf st → as_tbl st !! i = Some e → slot_edge a e e' → async_entry_wf e' → async_ok a st (set_async i e' st).
Proof.
  intros [Hlen Hwf] Hi Hed He. split; [split; cbn|cbn].
  - by rewrite length_insert.
  - by apply Forall_insert.
  - apply Forall2_same_length_lookup_2; [by rewrite length_insert|]. intros j x y Hx Hy.
    apply list_lookup_insert_cases in Hy as [(-> & -> & _)|(_ & Hy)]; simplify_eq; [done|constructor].
Qed.

Lemma async_ok_tbl a st st1 st2 : async_ok a st st1 → as_tbl st2 = as_tbl st1 → async_ok a st st2.
Proof. unfold async_ok, async_wf. by intros H ->. Qed.

Lemma as_tbl_signal efd st : as_tbl (async_signal efd st) = as_tbl st.
Proof. unfold async_signal. by case_match. Qed.

Lemma async_fill_wf now name req len pid efd ns e :
  async_entry_wf e → 0 ≤ len ≤ INFER_ASYNC_REQ_MAX → async_entry_wf (async_fill now name req len pid efd ns e).
Proof.
  intros (Hn & Hc & Hr & Hrl & Hp & Hpl) Hl. unfold async_fill, async_entry_wf.
  cbn [field_upd as_name as_request as_req_len as_response as_resp_len].
  rewrite length_str_copy, c_str_str_copy, length_take by (rewrite Hn; lia).
  split_and!; try done; try lia. case_match; [by rewrite length_mem_copy|done].
Qed.

Lemma async_fail_ok i code st : async_wf st → code ≠ 0 → async_ok ByWorker st (async_fail i code st).
Proof.
  intros Hwf Hc. unfold async_fail. case_match eqn:Ep; [|by apply async_ok_refl]. apply is_astate_true in Ep.
  pose proof (async_slot st i ltac:(congruence)) as Hi. eapply set_async_ok; [done|exact Hi|by constructor; [left|..]|].
  destruct Hwf as [_ Hwf]. exact (Forall_lookup_1 _ _ _ _ Hwf Hi).
Qed.

Lemma async_store_ok now j n b st :
  async_wf st → n ≤ Z.of_nat (length b) → async_ok ByWorker st (async_store now j n b st).
Proof.
  intros Hwf Hb. unfold async_store. cbv zeta. case_match eqn:Ep; [|by apply async_ok_refl]. apply is_astate_true in Ep.
  pose proof (async_slot st (job_best j) ltac:(congruence)) as Hi.
  assert (async_entry_wf (as_tbl st !!! job_best j)) as (? & ? & ? & ? & Hr & ?)
    by (destruct Hwf as [_ Hwf]; exact (Forall_lookup_1 _ _ _ _ Hwf Hi)).
  destruct (0 <? n) eqn:En; bool_hyps.
  - set (rlen := if _ <? n then _ else n).
    assert (0 ≤ rlen ≤ INFER_ASYNC_RESP_MAX) as Hrl.
    { unfold rlen. destruct (INFER_ASYNC_RESP_MAX <? n) eqn:Eq; bool_hyps; lia. }
    eapply async_ok_tbl; [eapply (set_async_ok ByWorker st (job_best j)); [done|exact Hi|by constructor|]|by case_match].
    unfold async_entry_wf. cbn. rewrite length_mem_copy. done.
  - eapply set_async_ok; [done|exact Hi|by constructor; [left|..]|done].
Qed.

Lemma async_expire_loop_tbl now l efds :
  (async_expire_loop now l efds).1 =
  (λ e, if is_astate ASYNC_PENDING e && (INFER_ASYNC_TIMEOUT <? u32 (u32 now - as_submit_tick e))
        then e <| as_state := ASYNC_ERROR |> <| as_error_code := EAGAIN |> else e) <$> l.
Proof.
  revert efds. induction l as [|e l IH]; intros efds; [done|]. cbn [async_expire_loop]. rewrite fmap_cons.
  destruct (async_expire_one now e efds) as [e' efds'] eqn:Ee. specialize (IH efds').
  destruct (async_expire_loop now l efds') as [l' efds'']. cbn [fst] in *. rewrite IH. f_equal.
  unfold async_expire_one in Ee. by case_match; simplify_eq.
Qed.

Lemma async_map_ok a st tbl' f :
  async_wf st → tbl' = f <$> as_tbl st →
  (∀ e, slot_edge a e (f e)) → (∀ e, async_entry_wf e → async_entry_wf (f e)) →
  ∀ st', as_tbl st' = tbl' → async_ok a st st'.
Proof.
  intros [Hlen Hwf] -> He Hw st' Ht. unfold async_ok, async_wf. rewrite Ht, length_fmap. split_and!; [done| |].
  - apply Forall_fmap. by apply (Forall_impl _ _ _ Hwf).
  - apply Forall2_fmap_r, Forall_Forall2_diag. by apply Forall_true.
Qed.


(** ** The worker *)

Lemma async_oldest_spec l i best oldest :
  let '(b, t) := async_oldest l i best oldest in
  t ≤ oldest ∧ (∀ k e, l !! k = Some e → as_state e = ASYNC_PENDING → t ≤ as_submit_tick e) ∧
  ((b = best ∧ t = oldest) ∨
   ∃ k e, b = Some (i + k)%nat ∧ l !! k = Some e ∧ as_state e = ASYNC_PENDING ∧ as_submit_tick e = t).
Proof.
  revert i best oldest. induction l as [|e l IH]; intros i best oldest; cbn [async_oldest].
  { split_and!; [lia|done|by left]. }
  destruct (is_astate ASYNC_PENDING e && (as_submit_tick e <? oldest)) eqn:Eq; bool_hyps.
  - match goal with H : is_astate _ _ = true |- _ => apply is_astate_true in H end.
    specialize (IH (S i) (Some i) (as_submit_tick e)). destruct (async_oldest l _ _ _) as [b t].
    destruct IH as (Hle & Hmin & Hor). split_and!; [lia| |].
    + intros [|k] x Hx; cbn in Hx; simplify_eq; [done|by apply (Hmin k)].
    + right. destruct Hor as [[-> ->]|(k & x & -> & Hx & ? & ?)].
      * exists O, e. rewrite Nat.add_0_r. done.
      * exists (S k), x. rewrite Nat.add_succ_r. done.
  - specialize (IH (S i) best oldest). destruct (async_oldest l _ _ _) as [b t].
    destruct IH as (Hle & Hmin & Hor). split_and!; [done| |].
    + intros [|k] x Hx Hp; cbn in Hx; simplify_eq; [|by apply (Hmin k)].
      apply andb_false_iff in Eq as [Hf|Hf]; [by apply is_astate_false in Hf|bool_hyps; lia].
    + destruct Hor as [[-> ->]|(k & x & -> & Hx & ? & ?)]; [by left|right].
      exists (S k), x. rewrite Nat.add_succ_r. done.
Qed.

(** The worker takes a pending request, none of which is older (by the tick it
    was submitted at), and works on a copy of its name, request, namespace and
    eventfd; it finds nothing to do only when nothing is pending (but for a
    request stamped with the last tick before the counter wraps). *)
Theorem async_pick_oldest st :
  match async_pick st with
  | Some j => ∃ e, as_tbl st !! job_best j = Some e ∧ as_state e = ASYNC_PENDING ∧
      job_req_len j = as_req_len e ∧ job_efd j = as_eventfd_idx e ∧ job_ns_id j = as_ns_id e ∧
      c_str (job_name j) = take 31 (c_str (as_name e)) ∧
      ∀ k x, as_tbl st !! k = Some x → as_state x = ASYNC_PENDING → as_submit_tick e ≤ as_submit_tick x
  | None => ∀ k x, as_tbl st !! k = Some x → as_state x = ASYNC_PENDING → 0xFFFFFFFF ≤ as_submit_tick x
  end.
Proof.
  unfold async_pick. pose proof (async_oldest_spec (as_tbl st) 0 None 0xFFFFFFFF) as H.
  destruct (async_oldest _ _ _ _) as [[b|] t]; destruct H as (Hle & Hmin & Hor).
  - destruct Hor as [[? _]|(k & e & Hb & He & Hp & Ht)]; [done|]. injection Hb as ->. cbn [Nat.add] in *.
    exists e. cbn [job_best job_req_len job_efd job_ns_id job_name].
    rewrite (list_lookup_total_correct _ _ _ He), c_str_str_copy by (rewrite length_replicate; lia).
    split_and!; [done..|]. rewrite Ht. done.
  - destruct Hor as [[_ ->]|(k & e & ? & _)]; done.
Qed.

(** What the worker copied out. *)
Lemma async_pick_job st j e :
  async_pick st = Some j → as_tbl st !! job_best j = Some e → async_entry_wf e →
  as_state e = ASYNC_PENDING ∧ job_req_len j = as_req_len e ∧ c_str (job_name j) = c_str (as_name e) ∧
  length (job_req j) = Z.to_nat INFER_ASYNC_REQ_MAX ∧
  take (Z.to_nat (as_req_len e)) (job_req j) = take (Z.to_nat (as_req_len e)) (as_request e).
Proof.
  unfold async_pick. pose proof (async_oldest_spec (as_tbl st) 0 None 0xFFFFFFFF) as H.
  destruct (async_oldest _ _ _ _) as [[b|] t]; [|done]. destruct H as (_ & _ & Hor).
  destruct Hor as [[? _]|(k & x & Hb & Hx & Hp & Ht)]; [done|]. injection Hb as ->. cbn [Nat.add] in *.
  intros Hj. apply (inj Some) in Hj. subst j. cbn [job_best job_req_len job_name job_req]. intros He (Hn & Hc & Hr & Hrl & _).
  rewrite He in Hx. injection Hx as <-. rewrite (list_lookup_total_correct _ _ _ He).
  rewrite c_str_str_copy by (rewrite length_replicate; lia). rewrite take_ge by lia.
  split_and!; [done..| |].
  - case_match; [by rewrite length_mem_copy, length_replicate|by rewrite length_replicate].
  - case_match eqn:El; bool_hyps.
    + apply take_mem_copy; rewrite ?length_replicate; lia.
    + assert (as_req_len e = 0) as -> by lia. done.
Qed.

(** After a response has been stored in a slot. *)
Lemma async_store_spec now j n b st e :
  as_tbl st !! job_best j = Some e → as_state e = ASYNC_PENDING → async_entry_wf e →
  0 < n ≤ INFER_ASYNC_RESP_MAX → n ≤ Z.of_nat (length b) →
  ∃ e', as_tbl (async_store now j n b st) !! job_best j = Some e' ∧ as_state e' = ASYNC_READY ∧
    as_owner_pid e' = as_owner_pid e ∧ as_resp_len e' = n ∧ take (Z.to_nat n) (as_response e') = take (Z.to_nat n) b ∧
  (0 < job_req_len j →
   as_cache (async_store now j n b st) =
   infer_cache_insert now (job_name j) (job_req j) (Z.to_nat (job_req_len j)) b n (as_cache st)).
Proof.
  intros He Hp (_ & _ & _ & _ & Hr & _) Hn Hb. unfold async_store. cbv zeta.
  rewrite (list_lookup_total_correct _ _ _ He), (proj2 (is_astate_true _ _) Hp), (proj2 (Z.ltb_lt 0 n)) by lia.
  rewrite (proj2 (Z.ltb_ge _ n)) by lia. rewrite (proj2 (Z.leb_le n _)), andb_true_r by lia.
  set (e' := e <| as_response := _ |> <| as_resp_len := n |> <| as_state := ASYNC_READY |>).
  exists e'. pose proof (lookup_lt_Some _ _ _ He) as Hlt. split_and!.
  - case_match; cbn; by apply list_lookup_insert_eq.
  - done.
  - done.
  - done.
  - unfold e'. cbn. apply take_mem_copy; lia.
  - intros Hl. rewrite (proj2 (Z.ltb_lt 0 (job_req_len j)) Hl). done.
Qed.

(** The guard of poll and result on a slot in use. *)
Lemma async_bad_slot i pid st e :
  async_wf st → as_tbl st !! i = Some e → as_state e ≠ ASYNC_FREE →
  async_bad (Z.of_nat i + 1) pid st = negb (as_owner_pid e =? pid) ∧
  as_tbl st !!! Z.to_nat (Z.of_nat i + 1 - 1) = e.
Proof.
  intros [Hlen _] He Hne. unfold async_bad. rewrite Z.add_simpl_r, Nat2Z.id, (list_lookup_total_correct _ _ _ He).
  apply lookup_lt_Some in He. rewrite (proj2 (is_astate_false _ _) Hne).
  rewrite (proj2 (Z.ltb_ge _ 0)), (proj2 (Z.leb_gt _ _)) by lia. done.
Qed.

(** End to end.  If the slot the worker picked in [st0] is untouched when the
    provider's response of [n] bytes arrives, the owner polls it as ready and
    collects exactly those bytes, the slot is free again, every other process
    is refused, and a later synchronous request for the same service and the
    same bytes is answered with the response from the cache. *)
Theorem async_delivery st0 st j e now n b L :
  async_pick st0 = Some j → as_tbl st0 !! job_best j = Some e →
  as_tbl st !! job_best j = Some e → async_wf st → ic_repr (as_cache st) L →
  0 < n ≤ INFER_ASYNC_RESP_MAX → n ≤ Z.of_nat (length b) →
  let id := Z.of_nat (job_best j) + 1 in
  let '(r, st1) := async_finish now j (IoReceived n b) st in
  r = 1 ∧ infer_async_poll id (as_owner_pid e) st1 = 2 ∧
  (∀ max, 0 ≤ max →
     let '(c, out, st2) := infer_async_result id (as_owner_pid e) max st1 in
     c = n `min` max ∧ out = take (Z.to_nat (n `min` max)) b ∧
     as_state (as_tbl st2 !!! job_best j) = ASYNC_FREE) ∧
  (∀ pid max, pid ≠ as_owner_pid e → infer_async_result id pid max st1 = (- EINVAL, [], st1)) ∧
  (0 < as_req_len e →
     (infer_cache_lookup (as_name e) (take (Z.to_nat (as_req_len e)) (as_request e)) (Z.to_nat (as_req_len e)) n
        (as_cache st1)).1 = (n, take (Z.to_nat n) b)).
Proof.
  intros Hpick He0 He Hwf HL Hn Hb id. cbn [async_finish].
  assert (async_entry_wf e) as Hew by (destruct Hwf as [_ Hf]; exact (Forall_lookup_1 _ _ _ _ Hf He)).
  destruct (async_pick_job _ _ _ Hpick He0 Hew) as (Hp & Hrl & Hname & Hjl & Hreq).
  destruct (async_store_spec now j n b st e He Hp Hew Hn Hb) as (e' & He' & Hs' & Ho' & Hn' & Hr' & Hc').
  destruct (async_store_ok now j n b st Hwf Hb) as [Hwf' _].
  set (st1 := async_signal (job_efd j) (async_store now j n b st)).
  assert (as_tbl st1 = as_tbl (async_store now j n b st)) as Ht by apply as_tbl_signal.
  assert (as_cache st1 = as_cache (async_store now j n b st)) as Hca by (unfold st1, async_signal; by case_match).
  assert (async_wf st1) as Hwf1 by (unfold async_wf; by rewrite Ht).
  rewrite <-Ht in He'. rewrite <-Hca in Hc'. clearbody st1. clear Ht Hca Hwf'.
  assert (∀ pid, async_bad id pid st1 = negb (as_owner_pid e =? pid)) as Hbad.
  { intros pid. rewrite <-Ho'. apply (async_bad_slot (job_best j) pid st1 e' Hwf1 He'). congruence. }
  destruct (async_bad_slot (job_best j) 0 st1 e' Hwf1 He') as [_ Hidx]; [congruence|]. fold id in Hidx.
  assert (Z.to_nat (id - 1) = job_best j) as Hid by (unfold id; lia).
  split_and!.
  - done.
  - unfold infer_async_poll. rewrite Hbad, Z.eqb_refl. cbn [negb]. by rewrite Hidx, Hs'.
  - intros max Hmax. unfold infer_async_result. rewrite Hbad, Z.eqb_refl. cbn [negb]. rewrite Hidx, Hs', Hn', Hid.
    cbv zeta. set (c := if max <? n then max else n).
    assert (c = n `min` max) as -> by (unfold c; destruct (max <? n) eqn:Eq; bool_hyps; lia). split_and!.
    + done.
    + destruct (0 <? n `min` max) eqn:Eq; bool_hyps.
      * replace (Z.to_nat (n `min` max)) with (Z.to_nat (n `min` max) `min` Z.to_nat n)%nat by lia.
        by rewrite <-!take_take, Hr'.
      * assert (n `min` max = 0) as -> by lia. done.
    + cbn. by rewrite list_lookup_total_insert_eq by by eapply lookup_lt_Some.
  - intros pid max Hne. unfold infer_async_result. rewrite Hbad. by rewrite (proj2 (Z.eqb_neq _ _)).
  - intros Hlen. rewrite Hrl in Hc'. rewrite (Hc' Hlen).
    destruct Hew as (_ & Hcn & Hrq & Hb2 & _). rewrite <-Hname in Hcn.
    apply (cache_insert_lookup (as_cache st) L); [done|by rewrite Hname|done|lia|done|by rewrite Hreq, take_take, Nat.min_id].
Qed.

(** ** Samples *)

(** Process 1 submits request [7] for service "l" at tick 10. *)
Definition async_s1 : async_st :=
  (infer_async_submit (λ _, None) 10 [108; 0] [7] 1 1 (-1) async_init).2.
Definition async_j1 : async_job := default (mk_job 0 [] [] 0 0 0 0) (async_pick async_s1).

Lemma async_init_wf : async_wf async_init.
Proof. split; [done|]. apply (bool_decide_unpack _). by vm_compute. Qed.

Lemma async_s1_step : async_step (BySubmit 1) async_init async_s1.
Proof. apply (AsSubmit (λ _, None) 10 [108; 0] [7] 1 1 (-1)). cbn. lia. Qed.

Lemma async_s1_wf : async_wf async_s1.
Proof. split; [done|]. apply (bool_decide_unpack _). by vm_compute. Qed.


Lemma async_s1_cache : ic_repr (as_cache async_s1) [].
Proof. exact (proj1 cache_init_sim). Qed.

(** The delivery of the response [5; 6] to it. *)
Lemma async_delivery_witness :
  let e := as_tbl async_s1 !!! O in
  let '(r, st1) := async_finish 12 async_j1 (IoReceived 2 [5; 6]) async_s1 in
  infer_async_poll 1 1 st1 = 2 ∧ (infer_async_result 1 1 64 st1).1 = (2, [5; 6]) ∧
  infer_async_result 1 2 64 st1 = (-22, [], st1) ∧
  (infer_cache_lookup (as_name e) [7] 1 2 (as_cache st1)).1 = (2, [5; 6]).
Proof.
  pose proof (async_delivery async_s1 async_s1 async_j1 (as_tbl async_s1 !!! O) 12 2 [5; 6] []) as H.
  specialize (H ltac:(by vm_compute) ltac:(by vm_compute) ltac:(by vm_compute) async_s1_wf async_s1_cache
    ltac:(lia) ltac:(by vm_compute)).
  cbv zeta in H |- *. destruct (async_finish 12 async_j1 (IoReceived 2 [5; 6]) async_s1) as [r st1].
  destruct H as (_ & H1 & H2 & H3 & H4). split_and!.
  - exact H1.
  - specialize (H2 64 ltac:(lia)). change (Z.of_nat (job_best async_j1) + 1) with 1 in H2.
    change (as_owner_pid (as_tbl async_s1 !!! O)) with 1 in H2.
    destruct (infer_async_result 1 1 64 st1) as [[c out] st2]. destruct H2 as (-> & -> & _). done.
  - apply (H3 2 64). by vm_compute.
  - exact (H4 ltac:(by vm_compute)).
Defined.

(** The worker rechecks only that the slot is pending.  Process 1's request
    times out while the provider works and process 1 collects the error; the
    slot is reused by process 2 with another request; the answer to process 1
    then reaches process 2 as the answer to its own. *)
Theorem async_slot_reuse :
  let s2 := infer_async_expire 110 async_s1 in
  let '(c, _, s3) := infer_async_result 1 1 64 s2 in
  let '(id, s4) := infer_async_submit (λ _, None) 111 [109; 0] [8] 1 2 (-1) s3 in
  let '(_, s5) := async_finish 112 async_j1 (IoReceived 2 [5; 6]) s4 in
  c = - EAGAIN ∧ id = 1 ∧ job_req_len async_j1 = 1 ∧ take 1 (job_req async_j1) = [7] ∧
  (infer_async_result id 2 64 s5).1 = (2, [5; 6]).
Proof. by vm_compute. Qed.
