(* ===== verification/BCache.v ===== *)
(** * BCache: the write-back block cache

    Models [src/kernel/src/blk/bcache.c]: [BCACHE_ENTRIES] blocks of
    [BLOCK_SIZE] bytes, found through hash chains threaded through the entries
    ([hash_next]) and replaced in least-recently-used order (the links of
    [Dll]).  Writes stay in the cache until the entry is evicted, invalidated or
    flushed.

    The disk below is the interface [BlkDev]: the multi-sector requests of the
    virtio driver with what the cache relies on.  The abstract cache is the
    plain array of blocks that a reader sees ([bc_view]).

    The walks of the hash chains are loops of the source; they run with fuel
    [BCACHE_ENTRIES] + 1 and are shown to end within it ([hash_find_spec],
    [hash_remove_spec]), since a chain has no repetition. *)

From S2P Require Import Prelude KUtil Dll.

Abbreviation BCACHE_ENTRIES := 256%nat (only parsing).
Abbreviation HASH_BUCKETS := 256%nat (only parsing).
Abbreviation BLOCK_SIZE := 4096%nat (only parsing).
Abbreviation SECTORS_PER_BLOCK := 8 (only parsing).

(** ** The block device *)

(** Requests of [SECTORS_PER_BLOCK] sectors from a sector on.  A read answers
    a code, what it left in the buffer, and the device; a write a code and the
    device.  [blk_block d b] is the contents of block [b].  A request that
    reports success has been carried out; a read that fails may have left
    anything in the buffer; of a write that fails nothing is assumed. *)
Class BlkDev (D : Type) := {
  blk_read_multi : Z → D → Z * list Z * D;
  blk_write_multi : Z → list Z → D → Z * D;
  blk_block : D → Z → list Z;
  blk_block_len d b : length (blk_block d b) = BLOCK_SIZE;
  blk_read_len s d : length (blk_read_multi s d).1.2 = BLOCK_SIZE;
  blk_read_ok b d buf d' : blk_read_multi (b * SECTORS_PER_BLOCK) d = (0, buf, d') → buf = blk_block d b;
  blk_read_same s d b : blk_block (blk_read_multi s d).2 b = blk_block d b;
  blk_write_ok b buf d d' :
    length buf = BLOCK_SIZE → blk_write_multi (b * SECTORS_PER_BLOCK) buf d = (0, d') →
    ∀ b', blk_block d' b' = if decide (b' = b) then buf else blk_block d b'
}.

(** ** State *)

Record bcache_entry := mk_bce {
  be_data : list Z;
  be_tag : Z;
  be_valid : bool;
  be_dirty : bool;
  be_lru_prev : Z;
  be_lru_next : Z;
  be_hash_next : Z
}.
#[export] Instance bcache_entry_eta : Eta bcache_entry := λ e,
  mk_bce (be_data e) (be_tag e) (be_valid e) (be_dirty e) (be_lru_prev e) (be_lru_next e) (be_hash_next e).
#[export] Instance bcache_entry_inhabited : Inhabited bcache_entry :=
  populate (mk_bce (replicate BLOCK_SIZE 0) 0 false false 0 0 0).

#[export] Program Instance bcache_linked :
    Linked bcache_entry (list Z * Z * bool * bool * Z) := {|
  l_prev := be_lru_prev; l_next := be_lru_next;
  set_prev v e := e <| be_lru_prev := v |>; set_next v e := e <| be_lru_next := v |>;
  payload e := (be_data e, be_tag e, be_valid e, be_dirty e, be_hash_next e)
|}.
Solve All Obligations with done.

Record bcache_st := mk_bc {
  bc_dll : dll bcache_entry;        (* cache, lru_head, lru_tail *)
  bc_hash : list Z;                 (* hash_table *)
  bc_hits : Z;
  bc_misses : Z
}.
#[export] Instance bcache_st_eta : Eta bcache_st := λ s,
  mk_bc (bc_dll s) (bc_hash s) (bc_hits s) (bc_misses s).

Abbreviation bc_ent st := (d_ent (bc_dll st)) (only parsing).

(** ** Operations *)

Definition bc_set (i : nat) (e : bcache_entry) (st : bcache_st) : bcache_st :=
  st <| bc_dll := (bc_dll st) <| d_ent := <[i := e]> (bc_ent st) |> |>.

(** [dll_unlink] and [dll_push_head]: promotion to most recently used. *)
Definition bc_promote (i : nat) (st : bcache_st) : bcache_st :=
  st <| bc_dll := dll_push_head i (dll_unlink i (bc_dll st)) |>.

Definition hash_fn (block_no : Z) : nat := Z.to_nat (block_no mod Z.of_nat HASH_BUCKETS).

(** The loop of [hash_find]; [None] if the fuel runs out. *)
Fixpoint hash_find_loop (fuel : nat) (block_no idx : Z) (ent : list bcache_entry) : option Z :=
  match fuel with
  | O => None
  | S fuel' =>
      if 0 <=? idx then
        let e := ent !!! Z.to_nat idx in
        if be_valid e && (be_tag e =? block_no) then Some idx
        else hash_find_loop fuel' block_no (be_hash_next e) ent
      else Some (-1)
  end.
Definition hash_find (block_no : Z) (st : bcache_st) : option Z :=
  hash_find_loop (S BCACHE_ENTRIES) block_no (bc_hash st !!! hash_fn block_no) (bc_ent st).

Definition hash_insert (i : nat) (st : bcache_st) : bcache_st :=
  let e := bc_ent st !!! i in
  let bucket := hash_fn (be_tag e) in
  (bc_set i (e <| be_hash_next := bc_hash st !!! bucket |>) st)
    <| bc_hash := <[bucket := Z.of_nat i]> (bc_hash st) |>.

(** The walk of [hash_remove] to the entry before [idx]. *)
Fixpoint hash_prev_loop (fuel : nat) (idx prev : Z) (ent : list bcache_entry) : option Z :=
  match fuel with
  | O => None
  | S fuel' =>
      if (0 <=? prev) && negb (be_hash_next (ent !!! Z.to_nat prev) =? idx)
      then hash_prev_loop fuel' idx (be_hash_next (ent !!! Z.to_nat prev)) ent
      else Some prev
  end.
(** Taking entry [i] out of the chain of its bucket. *)
Definition hash_unchain (i : nat) (st : bcache_st) : option bcache_st :=
  let e := bc_ent st !!! i in
  let bucket := hash_fn (be_tag e) in
  if bc_hash st !!! bucket =? Z.of_nat i
  then Some (st <| bc_hash := <[bucket := be_hash_next e]> (bc_hash st) |>)
  else
    prev ← hash_prev_loop (S BCACHE_ENTRIES) (Z.of_nat i) (bc_hash st !!! bucket) (bc_ent st);
    Some (if 0 <=? prev
          then bc_set (Z.to_nat prev) ((bc_ent st !!! Z.to_nat prev) <| be_hash_next := be_hash_next e |>) st
          else st).
Definition hash_remove (i : nat) (st : bcache_st) : option bcache_st :=
  st ← hash_unchain i st;
  Some (bc_set i ((bc_ent st !!! i) <| be_hash_next := -1 |>) st).

(** The block-sized copy loops. *)
Definition block_copy (dst src : list Z) : list Z := mem_copy dst src BLOCK_SIZE.

Section bcache.
Context {D : Type} `{!BlkDev D}.
Implicit Types (st : bcache_st) (d : D).

Definition writeback_entry (i : nat) (st : bcache_st) (d : D) : Z * bcache_st * D :=
  let e := bc_ent st !!! i in
  if negb (be_valid e) || negb (be_dirty e) then (0, st, d)
  else
    let '(rc, d) := blk_write_multi (be_tag e * SECTORS_PER_BLOCK) (be_data e) d in
    if negb (rc =? 0) then (-1, st, d)
    else (0, bc_set i (e <| be_dirty := false |>) st, d).

(** What [bcache_read] and [bcache_write] do to the victim before reuse. *)
Definition bc_evict (i : nat) (st : bcache_st) (d : D) : option (bcache_st * D) :=
  let e := bc_ent st !!! i in
  let '(st, d) := if be_valid e && be_dirty e
                  then let '(_, st, d) := writeback_entry i st d in (st, d)
                  else (st, d) in
  if be_valid (bc_ent st !!! i) then st ← hash_remove i st; Some (st, d) else Some (st, d).

(** The code, the bytes given to the caller, the cache and the disk. *)
Definition bcache_read (block_no : Z) (st : bcache_st) (d : D) : option (Z * list Z * bcache_st * D) :=
  idx ← hash_find block_no st;
  if 0 <=? idx then
    let i := Z.to_nat idx in
    let st := bc_promote i (st <| bc_hits := u64 (bc_hits st + 1) |>) in
    Some (0, take BLOCK_SIZE (be_data (bc_ent st !!! i)), st, d)
  else
    let st := st <| bc_misses := u64 (bc_misses st + 1) |> in
    let victim := d_tail (bc_dll st) in
    if victim <? 0 then Some (-1, [], st, d)
    else
      let v := Z.to_nat victim in
      '(st, d) ← bc_evict v st d;
      let '(rc, buf, d) := blk_read_multi (block_no * SECTORS_PER_BLOCK) d in
      let e := bc_ent st !!! v in
      let st := bc_set v (e <| be_data := buf |>) st in
      if negb (rc =? 0) then Some (-1, [], st, d)
      else
        let e := bc_ent st !!! v in
        let st := bc_set v (e <| be_tag := block_no |> <| be_valid := true |> <| be_dirty := false |>) st in
        let st := bc_promote v (hash_insert v st) in
        Some (0, take BLOCK_SIZE (be_data (bc_ent st !!! v)), st, d).

Definition bcache_write (block_no : Z) (buf : list Z) (st : bcache_st) (d : D) : option (Z * bcache_st * D) :=
  idx ← hash_find block_no st;
  if 0 <=? idx then
    let i := Z.to_nat idx in
    let e := bc_ent st !!! i in
    let st := bc_set i (e <| be_data := block_copy (be_data e) buf |> <| be_dirty := true |>) st in
    Some (0, bc_promote i st, d)
  else
    let victim := d_tail (bc_dll st) in
    if victim <? 0 then
      let '(rc, d) := blk_write_multi (block_no * SECTORS_PER_BLOCK) buf d in
      Some ((if negb (rc =? 0) then -1 else 0), st, d)
    else
      let v := Z.to_nat victim in
      '(st, d) ← bc_evict v st d;
      let e := bc_ent st !!! v in
      let st := bc_set v (e <| be_data := block_copy (be_data e) buf |> <| be_tag := block_no |>
                            <| be_valid := true |> <| be_dirty := true |>) st in
      Some (0, bc_promote v (hash_insert v st), d).

Definition bcache_invalidate (block_no : Z) (st : bcache_st) (d : D) : option (bcache_st * D) :=
  idx ← hash_find block_no st;
  if 0 <=? idx then
    let i := Z.to_nat idx in
    let '(st, d) := if be_dirty (bc_ent st !!! i)
                    then let '(_, st, d) := writeback_entry i st d in (st, d) else (st, d) in
    st ← hash_remove i st;
    let st := bc_set i ((bc_ent st !!! i) <| be_valid := false |> <| be_dirty := false |>) st in
    Some (st <| bc_dll := dll_push_tail i (dll_unlink i (bc_dll st)) |>, d)
  else Some (st, d).

(** One turn of the loop of [bcache_flush], between taking and releasing the
    lock. *)
Definition bcache_flush_one (i : nat) (st : bcache_st) (d : D) : bcache_st * D :=
  let e := bc_ent st !!! i in
  if be_valid e && be_dirty e
  then let '(_, st, d) := writeback_entry i st d in (st, d)
  else (st, d).

Definition bcache_flush (st : bcache_st) (d : D) : bcache_st * D :=
  foldl (λ '(st, d) i, bcache_flush_one i st d) (st, d) (seq 0 BCACHE_ENTRIES).
End bcache.

Definition bcache_dirty_count (st : bcache_st) : Z :=
  Z.of_nat (countb (λ e, be_valid e && be_dirty e) (bc_ent st)).

Definition bcache_stats (st : bcache_st) : Z * Z := (bc_hits st, bc_misses st).

Definition bce_clear (e : bcache_entry) : bcache_entry :=
  e <| be_tag := 0 |> <| be_valid := false |> <| be_dirty := false |>
    <| be_lru_prev := -1 |> <| be_lru_next := -1 |> <| be_hash_next := -1 |>.

(** [bcache_init]: every entry cleared, every bucket empty, and all entries
    pushed on the list. *)
Definition bcache_init (st : bcache_st) : bcache_st :=
  mk_bc (foldl (λ d i, dll_push_head i d) (mk_dll (bce_clear <$> bc_ent st) (-1) (-1)) (seq 0 BCACHE_ENTRIES))
    (replicate HASH_BUCKETS (-1)) 0 0.

(** The cache before [bcache_init]: zeroed static storage. *)
Definition bcache_zero : bcache_st :=
  mk_bc (mk_dll (replicate BCACHE_ENTRIES inhabitant) (-1) (-1)) (replicate HASH_BUCKETS 0) 0 0.

(** ** Hash chains *)

(** From [x] along [nx] through the indices [c] to [y]. *)
Fixpoint hpath (nx : nat → Z) (x : Z) (c : list nat) (y : Z) : Prop :=
  match c with
  | [] => x = y
  | i :: c' => x = Z.of_nat i ∧ hpath nx (nx i) c' y
  end.

Lemma hpath_app nx x c1 c2 y :
  hpath nx x (c1 ++ c2) y ↔ ∃ z, hpath nx x c1 z ∧ hpath nx z c2 y.
Proof.
  revert x. induction c1 as [|i c1 IH]; intros x; cbn [app hpath].
  - split; [by eexists|]. by intros (z & -> & ?).
  - rewrite IH. naive_solver.
Qed.

Lemma hpath_frame nx nx' x c y : (∀ i, i ∈ c → nx' i = nx i) → hpath nx x c y → hpath nx' x c y.
Proof.
  revert x. induction c as [|i c IH]; intros x Hf; cbn [hpath]; [done|]. intros [-> Hp]. split; [done|].
  rewrite Hf by (by left). apply IH; [|done]. intros j Hj. apply Hf. by right.
Qed.

Lemma hash_find_loop_spec ent fuel b x c :
  hpath (λ i, be_hash_next (ent !!! i)) x c (-1) → (length c < fuel)%nat →
  hash_find_loop fuel b x ent =
  Some (match find_idx (λ i, be_valid (ent !!! i) && (be_tag (ent !!! i) =? b)) c with
        | Some k => Z.of_nat (c !!! k) | None => -1 end).
Proof.
  revert fuel x. induction c as [|i c IH]; intros [|fuel] x Hp Hl; cbn [length hpath] in *; try lia.
  - by subst x.
  - destruct Hp as [-> Hp]. cbn [hash_find_loop]. rewrite (proj2 (Z.leb_le 0 _)), Nat2Z.id by lia. cbn [find_idx].
    destruct (be_valid _ && _) eqn:Eq; [done|]. rewrite (IH fuel _ Hp) by lia.
    by destruct (find_idx _ c).
Qed.

(** The walk stops at the entry before [i], or at the end when [i] is absent. *)
Lemma hash_prev_loop_in ent fuel i x c p :
  hpath (λ j, be_hash_next (ent !!! j)) x (c ++ [p]) (Z.of_nat i) → i ∉ c ++ [p] → (length c < fuel)%nat →
  hash_prev_loop fuel (Z.of_nat i) x ent = Some (Z.of_nat p).
Proof.
  revert fuel x. induction c as [|q c IH]; intros [|fuel] x Hp Hi Hl; cbn [length app hpath] in *; try lia.
  - destruct Hp as [-> Hp]. cbn [hash_prev_loop]. by rewrite Nat2Z.id, Hp, Z.eqb_refl, andb_false_r.
  - destruct Hp as [-> Hp]. cbn [hash_prev_loop]. rewrite (proj2 (Z.leb_le 0 _)), Nat2Z.id by lia.
    assert (be_hash_next (ent !!! q) ≠ Z.of_nat i) as Hne.
    { destruct c as [|r c]; cbn [app hpath] in Hp; destruct Hp as [-> _]; intros ?%Nat2Z.inj; subst;
        apply Hi; right; by left. }
    apply Z.eqb_neq in Hne. rewrite Hne. cbn [negb andb]. apply IH; [done| |lia].
    intros ?. apply Hi. by right.
Qed.

Lemma hash_prev_loop_out ent fuel i x c :
  hpath (λ j, be_hash_next (ent !!! j)) x c (-1) → i ∉ c → (length c < fuel)%nat →
  hash_prev_loop fuel (Z.of_nat i) x ent = Some (-1).
Proof.
  revert fuel x. induction c as [|q c IH]; intros [|fuel] x Hp Hi Hl; cbn [length hpath] in *; try lia.
  - by subst x.
  - destruct Hp as [-> Hp]. cbn [hash_prev_loop]. rewrite (proj2 (Z.leb_le 0 _)), Nat2Z.id by lia.
    assert (be_hash_next (ent !!! q) ≠ Z.of_nat i) as Hne.
    { destruct c as [|r c]; cbn [hpath] in Hp; [rewrite Hp; lia|]. destruct Hp as [-> _]. intros ?%Nat2Z.inj; subst.
      apply Hi. right. by left. }
    apply Z.eqb_neq in Hne. rewrite Hne. cbn [negb andb]. apply IH; [done| |lia].
    intros ?. apply Hi. by right.
Qed.

(** The chains hold exactly the entries that satisfy [P], each in the bucket of
    its tag. *)
Definition hashed (nx tg : nat → Z) (ht : list Z) (P : nat → Prop) : Prop :=
  ∀ b, (b < HASH_BUCKETS)%nat → ∃ c, hpath nx (ht !!! b) c (-1) ∧ NoDup c ∧
    ∀ i, i ∈ c ↔ (i < BCACHE_ENTRIES)%nat ∧ P i ∧ hash_fn (tg i) = b.

Lemma hashed_ext nx nx' tg tg' ht P Q :
  (∀ i, (i < BCACHE_ENTRIES)%nat → P i → nx' i = nx i ∧ tg' i = tg i) →
  (∀ i, (i < BCACHE_ENTRIES)%nat → P i ↔ Q i) →
  hashed nx tg ht P → hashed nx' tg' ht Q.
Proof.
  intros Hn HPQ Hh b Hb. destruct (Hh b Hb) as (c & Hp & Hnd & Hc). exists c. split_and!; [|done|].
  - eapply hpath_frame; [|exact Hp]. intros i (Hi & HP & _)%Hc. by apply Hn.
  - intros i. rewrite Hc. split; intros (Hi & HP & Ht); (split; [done|]); rewrite HPQ in *; try done;
      (split; [done|]); rewrite <-Ht; [|symmetry]; f_equal; apply Hn; try done; by apply HPQ.
Qed.

Lemma hash_fn_lt b : (hash_fn b < HASH_BUCKETS)%nat.
Proof. unfold hash_fn. pose proof (Z.mod_pos_bound b (Z.of_nat HASH_BUCKETS)). lia. Qed.

Lemma chain_length (c : list nat) :
  NoDup c → (∀ i, i ∈ c → (i < BCACHE_ENTRIES)%nat) → (length c ≤ BCACHE_ENTRIES)%nat.
Proof.
  intros Hnd Hc. rewrite <-(length_seq BCACHE_ENTRIES 0). apply submseteq_length, NoDup_submseteq; [done|].
  intros i Hi. apply elem_of_seq. specialize (Hc i Hi). lia.
Qed.

(** ** Shape: the table, the buckets and the LRU list of all entries *)

Definition bc_shape st : Prop :=
  length (bc_ent st) = BCACHE_ENTRIES ∧ length (bc_hash st) = HASH_BUCKETS ∧
  ∃ l, dll_repr (bc_dll st) l ∧ l ≡ₚ seq 0 BCACHE_ENTRIES.

Abbreviation bent st i := (bc_ent st !!! i) (only parsing).
Abbreviation bnx st := (λ i, be_hash_next (bc_ent st !!! i)) (only parsing).
Abbreviation btg st := (λ i, be_tag (bc_ent st !!! i)) (only parsing).

Lemma payload_total (ent ent' : list bcache_entry) i :
  payload <$> ent' = payload <$> ent → payload (ent' !!! i) = payload (ent !!! i).
Proof.
  intros H. apply (f_equal (.!! i)) in H. rewrite !list_lookup_fmap in H. rewrite !list_lookup_total_alt.
  destruct (ent' !! i), (ent !! i); cbn in *; congruence.
Qed.

Lemma bc_set_ent st i e j :
  bc_shape st → (i < BCACHE_ENTRIES)%nat → bent (bc_set i e st) j = if decide (j = i) then e else bent st j.
Proof.
  intros [Hl _] Hi. cbn. case_decide as Hj; [subst j; rewrite list_lookup_total_insert_eq by lia; done|].
  by rewrite list_lookup_total_insert_ne.
Qed.

Lemma bc_set_shape st i e :
  bc_shape st → l_prev e = l_prev (bent st i) → l_next e = l_next (bent st i) → bc_shape (bc_set i e st).
Proof.
  intros (Hl & Hh & l & Hd & Hp) H1 H2. split_and!; cbn; [by rewrite length_insert|done|].
  exists l. split; [|done]. destruct (bc_ent st !! i) as [x|] eqn:Hi.
  - rewrite (list_lookup_total_correct _ _ _ Hi) in *. by apply (dll_repr_set _ _ _ x).
  - rewrite list_insert_ge by (by apply lookup_ge_None_1). by destruct (bc_dll st).
Qed.

Lemma bc_shape_hash st ht : bc_shape st → length ht = HASH_BUCKETS → bc_shape (st <| bc_hash := ht |>).
Proof. intros (Hl & _ & Hd) Hh. split_and!; done. Qed.

(** Moving an entry inside the LRU list. *)
Lemma bc_relink st i f :
  bc_shape st → (i < BCACHE_ENTRIES)%nat →
  (∀ d l, dll_repr d l → i ∉ l → (i < length (d_ent d))%nat →
     ∃ l', dll_repr (f i d) l' ∧ l' ≡ₚ i :: l ∧ payload <$> d_ent (f i d) = payload <$> d_ent d) →
  let st' := st <| bc_dll := f i (dll_unlink i (bc_dll st)) |> in
  bc_shape st' ∧ ∀ j, payload (bent st' j) = payload (bent st j).
Proof.
  intros (Hl & Hh & l & Hd & Hp) Hi Hf st'.
  assert (i ∈ l) as Hin by (rewrite Hp; apply elem_of_seq; lia).
  apply list_elem_of_split in Hin as (l1 & l2 & ->). destruct (dll_unlink_spec _ _ _ _ Hd) as [Hd1 Hpl1].
  destruct (Hf _ _ Hd1) as (l' & Hd2 & Hp2 & Hpl2).
  { destruct Hd as (Hnd & _). rewrite <-Permutation_middle in Hnd. by apply NoDup_cons in Hnd as []. }
  { rewrite (length_payload (E:=bcache_entry) _ _ Hpl1). lia. }
  assert (payload <$> bc_ent st' = payload <$> bc_ent st) as Hpl by exact (eq_trans Hpl2 Hpl1).
  split; [split_and!|].
  - rewrite (length_payload (E:=bcache_entry) _ _ Hpl). done.
  - done.
  - exists l'. split; [exact Hd2|]. by rewrite Hp2, Permutation_middle.
  - intros j. by apply payload_total.
Qed.

Lemma bc_promote_shape st i :
  bc_shape st → (i < BCACHE_ENTRIES)%nat →
  bc_shape (bc_promote i st) ∧ ∀ j, payload (bent (bc_promote i st) j) = payload (bent st j).
Proof.
  intros Hs Hi. apply (bc_relink st i dll_push_head Hs Hi). intros d l Hd Hil Hlt.
  exists (i :: l). destruct (dll_push_head_spec d l i Hd Hil Hlt) as [? ?]. done.
Qed.

Lemma hash_insert_shape st i :
  bc_shape st → (i < BCACHE_ENTRIES)%nat → bc_shape (hash_insert i st).
Proof.
  intros Hs Hi. unfold hash_insert. cbv zeta. apply bc_shape_hash; [by apply bc_set_shape|].
  rewrite length_insert. apply Hs.
Qed.

Lemma hash_insert_hashed st i P :
  bc_shape st → (i < BCACHE_ENTRIES)%nat → ¬ P i → hashed (bnx st) (btg st) (bc_hash st) P →
  let st' := hash_insert i st in
  hashed (bnx st') (btg st') (bc_hash st') (λ j, P j ∨ j = i).
Proof.
  intros Hs Hi HP Hh st' b Hb. set (bk := hash_fn (btg st i)). destruct (Hh b Hb) as (c & Hp & Hnd & Hc).
  assert (∀ j, bent st' j = if decide (j = i) then (bent st i) <| be_hash_next := bc_hash st !!! bk |> else bent st j) as He.
  { intros j. exact (bc_set_ent st i _ j Hs Hi). }
  assert (i ∉ c) as Hic by (intros (_ & ? & _)%Hc; done).
  assert (hpath (bnx st') (bc_hash st !!! b) c (-1)) as Hp'.
  { eapply hpath_frame; [|exact Hp]. intros j Hj. cbv beta. rewrite He, decide_False by (intros ->; done). done. }
  assert (∀ j, btg st' j = btg st j) as Ht.
  { intros j. cbv beta. rewrite He. by case_decide; [subst j|]. }
  assert (bc_hash st' !!! b = if decide (b = bk) then Z.of_nat i else bc_hash st !!! b) as Hhd.
  { change (bc_hash st') with (<[bk := Z.of_nat i]> (bc_hash st)). case_decide; subst.
    - rewrite list_lookup_total_insert_eq; [done|]. destruct Hs as (_ & -> & _). done.
    - by rewrite list_lookup_total_insert_ne. }
  cbv beta in Ht. destruct (decide (b = bk)) as [->|Hne].
  - exists (i :: c). rewrite Hhd. split_and!.
    + cbn [hpath]. split; [done|]. rewrite He, decide_True by done. exact Hp'.
    + by apply NoDup_cons.
    + intros j. rewrite elem_of_cons, Hc, Ht. split; [naive_solver|]. intros (? & [?| ->] & ?); tauto.
  - exists c. rewrite Hhd. split_and!; [done..|].
    intros j. rewrite Hc, Ht. split; [tauto|]. intros (? & [?| ->] & Hb'); [tauto|]. by destruct Hne.
Qed.

(** Everything but the links and the chains. *)
Definition same_core (st st' : bcache_st) : Prop :=
  ∀ j, let e := bent st j in let e' := bent st' j in
    be_data e' = be_data e ∧ be_tag e' = be_tag e ∧ be_valid e' = be_valid e ∧ be_dirty e' = be_dirty e.

Lemma same_core_eqs st st' :
  same_core st st' →
  (∀ j, be_data (bent st' j) = be_data (bent st j)) ∧ (∀ j, be_tag (bent st' j) = be_tag (bent st j)) ∧
  (∀ j, be_valid (bent st' j) = be_valid (bent st j)) ∧ (∀ j, be_dirty (bent st' j) = be_dirty (bent st j)).
Proof. intros H. split_and!; intros j; apply (H j). Qed.

Lemma hash_insert_core st i : bc_shape st → (i < BCACHE_ENTRIES)%nat → same_core st (hash_insert i st).
Proof.
  intros Hs Hi j. cbv zeta. unfold hash_insert. cbv zeta. set (e := _ <| be_hash_next := _ |>).
  change (bc_ent ((bc_set i e st) <| bc_hash := _ |>)) with (bc_ent (bc_set i e st)).
  rewrite (bc_set_ent st i _ j Hs Hi). by case_decide; [subst j|].
Qed.

(** The chain [c] of the entry's bucket has become [c'], without it. *)
Definition unchained (i : nat) (c : list nat) (st st1 : bcache_st) : Prop :=
  let bk := hash_fn (be_tag (bent st i)) in
  bc_shape st1 ∧ same_core st st1 ∧
  (∃ c', hpath (bnx st1) (bc_hash st1 !!! bk) c' (-1) ∧ NoDup c' ∧ ∀ j, j ∈ c' ↔ j ∈ c ∧ j ≠ i) ∧
  (∀ b, b ≠ bk → bc_hash st1 !!! b = bc_hash st !!! b) ∧
  (∀ j, (j ∉ c) → bnx st1 j = bnx st j).

Lemma hash_unchain_in st i c :
  bc_shape st → hpath (bnx st) (bc_hash st !!! hash_fn (be_tag (bent st i))) c (-1) → NoDup c →
  (∀ j, j ∈ c → (j < BCACHE_ENTRIES)%nat) → i ∈ c →
  ∃ st1, hash_unchain i st = Some st1 ∧ unchained i c st st1.
Proof.
  intros Hs Hp Hnd Hc Hic. pose proof (chain_length c Hnd Hc) as Hcl. unfold hash_unchain, unchained.
  set (bk := hash_fn (be_tag (bent st i))) in *. cbv zeta.
  apply list_elem_of_split in Hic as (c1 & c2 & ->).
  assert (NoDup (c1 ++ c2) ∧ (i ∉ c1 ++ c2)) as [Hnd12 Hi12].
  { rewrite <-Permutation_middle in Hnd. by apply NoDup_cons in Hnd as []. }
  assert (∀ j, j ∈ c1 ++ c2 ↔ j ∈ c1 ++ i :: c2 ∧ j ≠ i) as Hel.
  { intros j. rewrite elem_of_app in *. rewrite elem_of_app, elem_of_cons. split; [|tauto].
    intros Hj. split; [tauto|]. intros ->. done. }
  apply hpath_app in Hp as (z & Hpa & Hpb). cbn [hpath] in Hpb. destruct Hpb as [-> Hpb].
  destruct c1 as [|p c1 _] using rev_ind.
  + cbn [hpath] in Hpa. rewrite Hpa, Z.eqb_refl. eexists. split; [reflexivity|].
    assert (length (bc_hash st) = HASH_BUCKETS) as Hhl by apply Hs. split_and!; try done.
    * apply bc_shape_hash; [done|]. by rewrite length_insert.
    * exists c2. split; [|split; [by apply Hnd12|done]].
      cbn. rewrite list_lookup_total_insert_eq by (rewrite Hhl; apply hash_fn_lt). done.
    * intros b Hb. cbn. by rewrite list_lookup_total_insert_ne.
  + assert (bc_hash st !!! bk ≠ Z.of_nat i) as Hne.
    { destruct c1 as [|q c1]; cbn [app hpath] in Hpa; destruct Hpa as [-> _]; intros ?%Nat2Z.inj; subst;
        apply Hi12; by left. }
    apply Z.eqb_neq in Hne. rewrite Hne.
    assert (p < BCACHE_ENTRIES)%nat as Hpl. { assert (p ∈ (c1 ++ [p]) ++ i :: c2) as ?%Hc by set_solver. done. }
    rewrite (hash_prev_loop_in _ _ _ _ c1 p Hpa); [|intros ?; apply Hi12, elem_of_app; by left|].
    2:{ rewrite !length_app in Hcl. cbn in Hcl. lia. }
    cbn [mbind option_bind]. rewrite (proj2 (Z.leb_le 0 _)), Nat2Z.id by lia.
    set (st1 := bc_set p _ st). exists st1. split; [done|].
    assert (∀ j, bent st1 j = if decide (j = p) then (bent st p) <| be_hash_next := be_hash_next (bent st i) |> else bent st j)
      as He by (intros j; by apply bc_set_ent).
    assert (p ∉ c1) as Hpc1.
    { apply NoDup_app in Hnd12 as (Hnd1 & _). apply NoDup_app in Hnd1 as (_ & Hd1 & _). intros Hin. apply (Hd1 p Hin). by left. }
    assert (p ∉ c2) as Hpc2.
    { apply NoDup_app in Hnd12 as (_ & Hd1 & _). apply Hd1, elem_of_app. right. by left. }
    split_and!; try done.
    * by apply bc_set_shape.
    * intros j. cbv zeta. rewrite He. by case_decide; [subst j|].
    * exists ((c1 ++ [p]) ++ c2). split; [|done]. change (bc_hash st1) with (bc_hash st). apply hpath_app. exists (bnx st i).
      apply hpath_app in Hpa as (y & Hpa & Hpp). cbn [hpath] in Hpp. destruct Hpp as [-> Hpp]. split.
      -- apply hpath_app. eexists. split; [|split; [reflexivity|]].
         ++ eapply hpath_frame; [|exact Hpa]. intros j Hj. cbv beta. by rewrite He, decide_False by (intros ->; done).
         ++ cbv beta. rewrite He, decide_True by done. done.
      -- eapply hpath_frame; [|exact Hpb]. intros j Hj. cbv beta. by rewrite He, decide_False by (intros ->; done).
    * intros j Hj. cbv beta. rewrite He, decide_False; [done|]. intros ->. apply Hj. set_solver.
Qed.

Lemma hash_unchain_out st i c :
  bc_shape st → hpath (bnx st) (bc_hash st !!! hash_fn (be_tag (bent st i))) c (-1) → NoDup c →
  (∀ j, j ∈ c → (j < BCACHE_ENTRIES)%nat) → i ∉ c →
  ∃ st1, hash_unchain i st = Some st1 ∧ unchained i c st st1.
Proof.
  intros Hs Hp Hnd Hc Hic. pose proof (chain_length c Hnd Hc) as Hcl. unfold hash_unchain, unchained.
  set (bk := hash_fn (be_tag (bent st i))) in *. cbv zeta.
  assert (bc_hash st !!! bk ≠ Z.of_nat i) as Hne.
  { destruct c as [|q c]; cbn [hpath] in Hp; [lia|]. destruct Hp as [-> _]. intros ?%Nat2Z.inj; subst. apply Hic. by left. }
  apply Z.eqb_neq in Hne. rewrite Hne. rewrite (hash_prev_loop_out _ _ _ _ c Hp Hic) by lia.
  exists st. split_and!; try done. exists c. split_and!; [done..|]. intros j. split; [|tauto]. intros Hj. split; [done|]. by intros ->.
Qed.

(** [hash_remove] always finds the end of its walk, and takes the entry out of
    its chain if it was there.  It changes nothing else. *)
Lemma hash_remove_spec st i P :
  bc_shape st → (i < BCACHE_ENTRIES)%nat → hashed (bnx st) (btg st) (bc_hash st) P →
  ∃ st', hash_remove i st = Some st' ∧ bc_shape st' ∧ same_core st st' ∧
    hashed (bnx st') (btg st') (bc_hash st') (λ j, P j ∧ j ≠ i).
Proof.
  intros Hs Hi Hh. set (bk := hash_fn (be_tag (bent st i))).
  destruct (Hh bk (hash_fn_lt _)) as (c & Hp & Hnd & Hc).
  assert (∃ st1, hash_unchain i st = Some st1 ∧ unchained i c st st1)
    as (st1 & Hst1 & Hs1 & Hcore1 & (c' & Hp1 & Hnd1 & Hc1) & Hb1 & Hn1).
  { destruct (decide (i ∈ c)); [apply hash_unchain_in|apply hash_unchain_out];
      try done; intros j Hj; by apply Hc in Hj as [? _]. }
  unfold hash_remove. rewrite Hst1. cbn [mbind option_bind]. eexists. split; [reflexivity|].
  set (st' := bc_set i _ st1).
  assert (∀ j, bent st' j = if decide (j = i) then (bent st1 i) <| be_hash_next := -1 |> else bent st1 j)
    as He by (intros j; by apply bc_set_ent).
  assert (∀ j, btg st' j = btg st j) as Ht.
  { intros j. cbv beta. rewrite He. case_decide; [subst j|]; apply (Hcore1 _). }
  split_and!.
  - by apply bc_set_shape.
  - intros j. cbv zeta. rewrite He. case_decide; [subst j|]; apply (Hcore1 _).
  - cbv beta in Ht. intros b Hb. change (bc_hash st') with (bc_hash st1). destruct (decide (b = bk)) as [->|Hbk].
    + exists c'. split_and!; [|done|].
      * eapply hpath_frame; [|exact Hp1]. intros j [_ Hj]%Hc1. cbv beta. by rewrite He, decide_False.
      * intros j. rewrite Hc1, Hc, Ht. tauto.
    + destruct (Hh b Hb) as (c0 & Hp0 & Hnd0 & Hc0). exists c0. rewrite (Hb1 b Hbk). split_and!; [|done|].
      * eapply hpath_frame; [|exact Hp0]. intros j Hj. apply Hc0 in Hj as (_ & _ & Hjb). cbv beta.
        rewrite He, decide_False by (intros ->; done). apply Hn1. intros (_ & _ & ?)%Hc. congruence.
      * intros j. rewrite Hc0, Ht. split; [|tauto]. intros (? & ? & Hb'). split_and!; try done. intros ->. done.
Qed.

(** ** Invariant *)

Section bcache_inv.
Context {D : Type} `{!BlkDev D}.
Implicit Types (st : bcache_st) (d : D) (f : Z → list Z) (P : nat → Prop).

(** The entries [P] are the ones in the chains; [f] is what readers see.  An
    entry can be valid but in no chain after a failed read; it is clean then. *)
Record bc_inv st d f P : Prop := {
  bi_shape : bc_shape st;
  bi_len i : (i < BCACHE_ENTRIES)%nat → length (be_data (bent st i)) = BLOCK_SIZE;
  bi_hash : hashed (bnx st) (btg st) (bc_hash st) P;
  bi_uniq i j : (i < BCACHE_ENTRIES)%nat → (j < BCACHE_ENTRIES)%nat → P i → P j →
    be_tag (bent st i) = be_tag (bent st j) → i = j;
  bi_valid i : (i < BCACHE_ENTRIES)%nat → P i → be_valid (bent st i) = true;
  bi_dirty i : (i < BCACHE_ENTRIES)%nat → be_valid (bent st i) = true → be_dirty (bent st i) = true → P i;
  bi_data i : (i < BCACHE_ENTRIES)%nat → P i → f (be_tag (bent st i)) = be_data (bent st i);
  bi_clean i : (i < BCACHE_ENTRIES)%nat → P i → be_dirty (bent st i) = false →
    be_data (bent st i) = blk_block d (be_tag (bent st i));
  bi_disk b : (∀ i, (i < BCACHE_ENTRIES)%nat → P i → be_tag (bent st i) ≠ b) → f b = blk_block d b
}.

Definition fupd f (b : Z) (x : list Z) : Z → list Z := λ b', if decide (b' = b) then x else f b'.

Lemma hashed_dec nx tg ht P i : hashed nx tg ht P → (i < BCACHE_ENTRIES)%nat → P i ∨ ¬ P i.
Proof.
  intros Hh Hi. destruct (Hh (hash_fn (tg i)) (hash_fn_lt _)) as (c & _ & _ & Hc).
  destruct (decide (i ∈ c)) as [Hin|Hin]; [left; by apply Hc in Hin as (_ & ? & _)|right].
  intros HP. by apply Hin, Hc.
Qed.

(** Only the contents matter, not the order of the LRU list. *)
Lemma bc_inv_same st st' d f P :
  bc_inv st d f P → bc_shape st' → same_core st st' →
  hashed (bnx st') (btg st') (bc_hash st') P → bc_inv st' d f P.
Proof.
  intros [? Hl ? Hu Hv Hd Hda Hc Hdi] Hs Hsc Hh.
  destruct (same_core_eqs _ _ Hsc) as (E1 & E2 & E3 & E4).
  split; try done; try (intros i; rewrite ?E1, ?E2, ?E3, ?E4; auto).
  - intros j. rewrite E2. apply Hu.
  - intros Hi. apply Hdi. intros j Hj Hp. rewrite <-E2. auto.
Qed.

Lemma payload_core st st' :
  (∀ j, payload (bent st' j) = payload (bent st j)) →
  same_core st st' ∧ ∀ j, bnx st' j = bnx st j.
Proof. intros H. split; intros j; specialize (H j); injection H as H1 H2 H3 H4 H5; done. Qed.

Lemma bc_inv_relinked st st' d f P :
  bc_inv st d f P → bc_shape st' → bc_hash st' = bc_hash st →
  (∀ j, payload (bent st' j) = payload (bent st j)) → bc_inv st' d f P.
Proof.
  intros Hi Hs Hh Hp. destruct (payload_core _ _ Hp) as [Hc Hn]. apply (bc_inv_same st); [done..|]. rewrite Hh.
  eapply hashed_ext; [|by intros|apply Hi]. intros i _ _. split; [apply Hn|apply (Hc i)].
Qed.

Lemma bc_promote_inv st i d f P :
  bc_inv st d f P → (i < BCACHE_ENTRIES)%nat → bc_inv (bc_promote i st) d f P.
Proof.
  intros Hi Hlt. destruct (bc_promote_shape st i (bi_shape _ _ _ _ Hi) Hlt) as [Hs Hp].
  by apply (bc_inv_relinked st).
Qed.

(** The hash lookup agrees with the contents. *)
Lemma hash_find_spec st d f P b :
  bc_inv st d f P →
  (∃ i, hash_find b st = Some (Z.of_nat i) ∧ (i < BCACHE_ENTRIES)%nat ∧ P i ∧ be_tag (bent st i) = b) ∨
  (hash_find b st = Some (-1) ∧ ∀ i, (i < BCACHE_ENTRIES)%nat → P i → be_tag (bent st i) ≠ b).
Proof.
  intros Hi. destruct (bi_hash _ _ _ _ Hi (hash_fn b) (hash_fn_lt _)) as (c & Hp & Hnd & Hc).
  assert (length c ≤ BCACHE_ENTRIES)%nat as Hl by (apply chain_length; [done|]; intros j Hj; by apply Hc in Hj as [? _]).
  unfold hash_find. rewrite (hash_find_loop_spec _ _ _ _ c Hp) by lia.
  destruct (find_idx _ c) as [k|] eqn:Ef.
  - apply find_idx_lookup in Ef as (i & Hk & Hm). bool_hyps. left. exists i.
    rewrite (list_lookup_total_correct _ _ _ Hk). apply list_elem_of_lookup_2, Hc in Hk as (? & ? & _). done.
  - right. split; [done|]. intros i Hlt HP Ht. rewrite find_idx_None in Ef.
    assert (i ∈ c) as [k Hk]%list_elem_of_lookup by (apply Hc; by rewrite Ht).
    specialize (Ef k i Hk). cbv beta in Ef. by rewrite (bi_valid _ _ _ _ Hi i Hlt HP), Ht, Z.eqb_refl in Ef.
Qed.

(** The victim is an entry. *)
Lemma bc_victim st : bc_shape st → ∃ v, d_tail (bc_dll st) = Z.of_nat v ∧ (v < BCACHE_ENTRIES)%nat.
Proof.
  intros (_ & _ & l & Hd & Hp). destruct l as [|v l _] using rev_ind.
  { apply Permutation_nil_l in Hp. done. }
  exists v. split; [by apply (dll_tail_last _ l)|].
  assert (v ∈ l ++ [v]) as Hv by (apply elem_of_app; right; by left). rewrite Hp in Hv. apply elem_of_seq in Hv. lia.
Qed.

(** Writes of the device succeed. *)
Context (writes_ok : ∀ s buf d, (blk_write_multi s buf d).1 = 0).

Lemma writeback_spec st d f P i :
  bc_inv st d f P → (i < BCACHE_ENTRIES)%nat →
  ∃ st' d', writeback_entry i st d = (0, st', d') ∧ bc_inv st' d' f P ∧
    (be_valid (bent st' i) = true → be_dirty (bent st' i) = false) ∧
    (∀ j, be_valid (bent st' j) = be_valid (bent st j) ∧ be_tag (bent st' j) = be_tag (bent st j) ∧
          (be_dirty (bent st j) = false → be_dirty (bent st' j) = false)).
Proof.
  intros Hi Hlt. unfold writeback_entry. cbv zeta.
  destruct (be_valid (bent st i)) eqn:Ev; cbn [negb orb]; [|exists st, d; split_and!; try done; by rewrite Ev].
  destruct (be_dirty (bent st i)) eqn:Ed; cbn [negb]; [|exists st, d; split_and!; done].
  pose proof (bi_dirty _ _ _ _ Hi i Hlt Ev Ed) as HP.
  pose proof (writes_ok (be_tag (bent st i) * SECTORS_PER_BLOCK) (be_data (bent st i)) d) as Hw.
  destruct (blk_write_multi _ _ d) as [rc d'] eqn:Ew. cbn in Hw. subst rc. cbn [negb Z.eqb].
  pose proof (blk_write_ok _ _ _ _ (bi_len _ _ _ _ Hi i Hlt) Ew) as Hblk.
  set (st' := bc_set i _ st). exists st', d'.
  assert (∀ j, bent st' j = if decide (j = i) then (bent st i) <| be_dirty := false |> else bent st j) as He
    by (intros j; apply bc_set_ent; [apply Hi|done]).
  assert (∀ j, be_data (bent st' j) = be_data (bent st j)) as E1 by (intros j; rewrite He; by case_decide; [subst|]).
  assert (∀ j, be_tag (bent st' j) = be_tag (bent st j)) as E2 by (intros j; rewrite He; by case_decide; [subst|]).
  assert (∀ j, be_valid (bent st' j) = be_valid (bent st j)) as E3 by (intros j; rewrite He; by case_decide; [subst|]).
  split_and!; [done| | |].
  - destruct Hi as [Hs Hl Hh Hu Hv Hd Hda Hc Hdi]. split.
    + by apply bc_set_shape.
    + intros j. rewrite E1. auto.
    + change (bc_hash st') with (bc_hash st). eapply hashed_ext; [|by intros|exact Hh]. intros j _ _. cbv beta.
      rewrite He. by case_decide; [subst|].
    + intros j k. rewrite !E2. apply Hu.
    + intros j. rewrite E3. auto.
    + intros j. rewrite E3, He. case_decide; [done|]. auto.
    + intros j. rewrite E1, E2. auto.
    + intros j. rewrite E1, E2. intros Hj HPj Hdj. rewrite Hblk. destruct (decide (j = i)) as [->|Hji]; [by rewrite decide_True|].
      rewrite He, decide_False in Hdj by done. rewrite decide_False; [by apply Hc|].
      intros Htag. by apply Hji, (Hu j i).
    + intros b Hj. rewrite Hblk. rewrite decide_False; [|intros ->; by apply (Hj i Hlt HP); rewrite E2].
      apply Hdi. intros k Hk HPk. rewrite <-E2. auto.
  - intros _. by rewrite He, decide_True.
  - intros j. split_and!; [done..|]. rewrite He. by case_decide.
Qed.

Lemma bc_evict_spec st d f P v :
  bc_inv st d f P → (v < BCACHE_ENTRIES)%nat →
  ∃ st' d', bc_evict v st d = Some (st', d') ∧ bc_inv st' d' f (λ j, P j ∧ j ≠ v) ∧
    (∀ j, be_tag (bent st' j) = be_tag (bent st j)) ∧ (be_valid (bent st' v) = true → be_dirty (bent st' v) = false).
Proof.
  intros Hi Hlt. unfold bc_evict. cbv zeta.
  set (w := if be_valid (bent st v) && be_dirty (bent st v) then _ else _).
  assert (∃ st1 d1, w = (st1, d1) ∧ bc_inv st1 d1 f P ∧ (be_valid (bent st1 v) = true → be_dirty (bent st1 v) = false) ∧
    (∀ j, be_tag (bent st1 j) = be_tag (bent st j))) as (st1 & d1 & -> & Hi1 & Hcl & Htg).
  { subst w. destruct (be_valid (bent st v) && be_dirty (bent st v)) eqn:Eq.
    - destruct (writeback_spec st d f P v Hi Hlt) as (st1 & d1 & -> & Hi1 & Hc & Hsame).
      exists st1, d1. split_and!; try done. intros j. apply (Hsame j).
    - exists st, d. split_and!; try done. intros Hv. rewrite Hv in Eq. done. }
  destruct (be_valid (bent st1 v)) eqn:Ev.
  - destruct (hash_remove_spec st1 v P (bi_shape _ _ _ _ Hi1) Hlt (bi_hash _ _ _ _ Hi1))
      as (st2 & Hr & Hs2 & Hsc & Hh2). rewrite Hr. cbn [mbind option_bind]. exists st2, d1.
    destruct (same_core_eqs _ _ Hsc) as (E1 & E2 & E3 & E4).
    split_and!; [done| | |].
    + pose proof (hashed_dec _ _ _ _ v (bi_hash _ _ _ _ Hi1) Hlt) as Hdec.
      destruct Hi1 as [Hs Hl Hh Hu Hv Hd Hda Hc Hdi].
      split; [done|intros j; rewrite E1; auto|done| | | | | |].
      * intros j k ? ? [? _] [? _]. rewrite !E2. auto.
      * intros j ? [? _]. rewrite E3. auto.
      * intros j Hj. rewrite E3, E4. intros Hvj Hdj. split; [auto|]. intros ->. rewrite (Hcl eq_refl) in Hdj. done.
      * intros j ? [? _]. rewrite E1, E2. auto.
      * intros j ? [? _]. rewrite E1, E2, E4. auto.
      * intros j Hj. destruct Hdec as [HP|HP].
        -- destruct (decide (be_tag (bent st1 v) = j)) as [<-|Hne].
           ++ rewrite <-Hc, Hda; auto.
           ++ apply Hdi. intros k Hk HPk. destruct (decide (k = v)) as [->|]; [done|]. rewrite <-E2. by apply Hj.
        -- apply Hdi. intros k Hk HPk. rewrite <-E2. apply Hj; [done|]. split; [done|]. by intros ->.
    + intros j. by rewrite E2, Htg.
    + rewrite E4. auto.
  - exists st1, d1. split_and!; [done| |done|by rewrite Ev].
    assert (∀ j, (j < BCACHE_ENTRIES)%nat → P j ↔ P j ∧ j ≠ v) as HPQ.
    { intros j Hj. split; [|tauto]. intros HP. split; [done|]. intros ->.
      by rewrite (bi_valid _ _ _ _ Hi1 v Hj HP) in Ev. }
    destruct Hi1 as [Hs Hl Hh Hu Hv Hd Hda Hc Hdi]. split; try done; try (intros i' H' [? _]; by auto).
    + eapply hashed_ext; [|exact HPQ|exact Hh]. by intros.
    + intros i' j' H1 H2 [? _] [? _]. auto.
    + intros i' H1 H2 H3. apply HPQ; auto.
    + intros b Hb. apply Hdi. intros i' H1 H2. apply Hb; [done|]. by apply HPQ.
Qed.

Lemma bc_set_set st i e e' : bc_set i e' (bc_set i e st) = bc_set i e' st.
Proof. unfold bc_set. cbn. by rewrite list_insert_insert_eq. Qed.

(** Storing into an entry that is in no chain. *)
Lemma bc_scratch st d f Q v e' :
  bc_inv st d f Q → (v < BCACHE_ENTRIES)%nat → ¬ Q v → length (be_data e') = BLOCK_SIZE →
  l_prev e' = l_prev (bent st v) → l_next e' = l_next (bent st v) →
  (be_valid e' = true → be_dirty e' = false) → bc_inv (bc_set v e' st) d f Q.
Proof.
  intros [Hs Hl Hh Hu Hv Hd Hda Hc Hdi] Hlt HQ Hx Hp Hn Hcl.
  assert (∀ j, bent (bc_set v e' st) j = if decide (j = v) then e' else bent st j) as He
    by (intros j; by apply bc_set_ent).
  assert (∀ j, Q j → bent (bc_set v e' st) j = bent st j) as HeQ.
  { intros j HQj. rewrite He, decide_False; [done|]. by intros ->. }
  split.
  - by apply bc_set_shape.
  - intros j Hj. rewrite He. case_decide; auto.
  - eapply hashed_ext; [|by intros|exact Hh]. intros j _ HQj. cbv beta. by rewrite HeQ.
  - intros j k ? ? ? ?. rewrite !HeQ by done. by apply Hu.
  - intros j ? ?. rewrite HeQ by done. auto.
  - intros j Hj. rewrite He. case_decide; [|auto]. intros Hva Hdi'. rewrite Hcl in Hdi'; done.
  - intros j ? ?. rewrite HeQ by done. auto.
  - intros j ? ?. rewrite HeQ by done. auto.
  - intros b Hb. apply Hdi. intros j Hj HQj. rewrite <-(HeQ j HQj). auto.
Qed.

(** Reusing the victim for block [b]: the entry stored and chained. *)
Lemma bc_fill_chain st d f Q v b x e' :
  bc_inv st d f Q → (v < BCACHE_ENTRIES)%nat → ¬ Q v →
  (∀ i, (i < BCACHE_ENTRIES)%nat → Q i → be_tag (bent st i) ≠ b) →
  length x = BLOCK_SIZE → (be_dirty e' = false → x = blk_block d b) →
  be_data e' = x → be_tag e' = b → be_valid e' = true →
  l_prev e' = l_prev (bent st v) → l_next e' = l_next (bent st v) →
  let st' := hash_insert v (bc_set v e' st) in
  bc_inv st' d (fupd f b x) (λ j, Q j ∨ j = v) ∧ be_data (bent st' v) = x.
Proof.
  intros [Hs Hl Hh Hu Hv Hd Hda Hc Hdi] Hlt HQ Hfresh Hx Hcl Ed Et Ev Hp Hn. cbv zeta.
  set (st1 := bc_set v e' st). set (st2 := hash_insert v st1).
  assert (bc_shape st1) as Hs1 by by apply bc_set_shape.
  assert (∀ j, bent st1 j = if decide (j = v) then e' else bent st j) as He by (intros j; by apply bc_set_ent).
  assert (∀ j, Q j → bent st1 j = bent st j) as HeQ.
  { intros j HQj. rewrite He, decide_False; [done|]. by intros ->. }
  assert (hashed (bnx st1) (btg st1) (bc_hash st1) Q) as Hh1.
  { eapply hashed_ext; [|by intros|exact Hh]. intros j _ HQj. cbv beta. by rewrite HeQ. }
  pose proof (hash_insert_hashed st1 v Q Hs1 Hlt HQ Hh1) as Hh2. cbv zeta in Hh2. fold st2 in Hh2.
  pose proof (hash_insert_shape st1 v Hs1 Hlt) as Hs2. fold st2 in Hs2.
  assert (same_core st1 st2) as Hsc by by apply hash_insert_core.
  destruct (same_core_eqs _ _ Hsc) as (E1 & E2 & E3 & E4).
  assert (be_tag (bent st1 v) = b) as Htv by (by rewrite He, decide_True).
  split; [split|].
  - exact Hs2.
  - intros j Hj. rewrite E1, He. case_decide; [by rewrite Ed|auto].
  - exact Hh2.
  - intros j k Hj Hk. rewrite !E2. intros [HQj| ->] [HQk| ->] Heq; [|exfalso|exfalso|done].
    + rewrite !HeQ in Heq by done. by apply Hu.
    + rewrite Htv, HeQ in Heq by done. by apply (Hfresh j).
    + rewrite Htv, HeQ in Heq by done. by apply (Hfresh k).
  - intros j Hj [HQj| ->]; rewrite E3; [rewrite HeQ by done; auto|]. by rewrite He, decide_True.
  - intros j Hj. rewrite E3, E4, He. case_decide; [by right|left]. auto.
  - intros j Hj [HQj| ->]; rewrite E1, E2; unfold fupd.
    + rewrite HeQ by done. rewrite decide_False by (by apply Hfresh). auto.
    + rewrite Htv, decide_True by done. by rewrite He, decide_True.
  - intros j Hj [HQj| ->]; rewrite E1, E2, E4.
    + rewrite HeQ by done. auto.
    + rewrite Htv. rewrite He, decide_True by done. rewrite Ed. auto.
  - intros b' Hb'. unfold fupd. rewrite decide_False.
    + apply Hdi. intros j Hj HQj. rewrite <-(HeQ j HQj), <-E2. apply Hb'; [done|by left].
    + intros ->. apply (Hb' v Hlt); [by right|]. by rewrite E2.
  - by rewrite E1, He, decide_True.
Qed.

Lemma bc_fill st d f Q v b x e' :
  bc_inv st d f Q → (v < BCACHE_ENTRIES)%nat → ¬ Q v →
  (∀ i, (i < BCACHE_ENTRIES)%nat → Q i → be_tag (bent st i) ≠ b) →
  length x = BLOCK_SIZE → (be_dirty e' = false → x = blk_block d b) →
  be_data e' = x → be_tag e' = b → be_valid e' = true →
  l_prev e' = l_prev (bent st v) → l_next e' = l_next (bent st v) →
  let st' := bc_promote v (hash_insert v (bc_set v e' st)) in
  bc_inv st' d (fupd f b x) (λ j, Q j ∨ j = v) ∧ be_data (bent st' v) = x.
Proof.
  intros Hi Hlt HQ Hfresh Hx Hcl Ed Et Ev Hp Hn st'.
  destruct (bc_fill_chain st d f Q v b x e') as [Hi2 Hd2]; [done..|]. set (st2 := hash_insert v _) in *.
  destruct (bc_promote_shape st2 v (bi_shape _ _ _ _ Hi2) Hlt) as [_ Hp3].
  split; [by apply bc_promote_inv|]. pose proof (proj1 (payload_core _ _ Hp3) v) as (Hd3 & _).
  exact (eq_trans Hd3 Hd2).
Qed.

(** ** Operations on the contents *)

Definition bc_ok st d f : Prop := ∃ P, bc_inv st d f P.

Lemma bc_ok_ext st d f f' : (∀ b, f' b = f b) → bc_ok st d f → bc_ok st d f'.
Proof.
  intros Hf (P & [Hs Hl Hh Hu Hv Hd Hda Hc Hdi]). exists P. split; try done.
  - intros i ? ?. rewrite Hf. auto.
  - intros b Hb. rewrite Hf. auto.
Qed.

Lemma bc_ok_promote st d f i : bc_ok st d f → (i < BCACHE_ENTRIES)%nat → bc_ok (bc_promote i st) d f.
Proof. intros (P & Hi) Hlt. exists P. by apply bc_promote_inv. Qed.

(** Counters do not matter. *)
Lemma bc_inv_counters st d f P h m :
  bc_inv st d f P → bc_inv (st <| bc_hits := h |> <| bc_misses := m |>) d f P.
Proof. by intros [Hs Hl Hh Hu Hv Hd Hda Hc Hdi]; split. Qed.

(** The disk changes only towards what readers see: by the write-back of a
    victim. *)
Definition settles d d' f : Prop := ∀ b, blk_block d' b = blk_block d b ∨ blk_block d' b = f b.

Lemma writeback_settles st d f P i :
  bc_inv st d f P → (i < BCACHE_ENTRIES)%nat → settles d (writeback_entry i st d).2 f.
Proof.
  intros Hi Hlt. unfold writeback_entry. cbv zeta.
  destruct (be_valid (bent st i)) eqn:Ev; cbn [negb orb]; [|by left].
  destruct (be_dirty (bent st i)) eqn:Ed; cbn [negb]; [|by left].
  pose proof (bi_dirty _ _ _ _ Hi i Hlt Ev Ed) as HP.
  pose proof (writes_ok (be_tag (bent st i) * SECTORS_PER_BLOCK) (be_data (bent st i)) d) as Hw.
  destruct (blk_write_multi _ _ d) as [rc d'] eqn:Ew. cbn in Hw. subst rc. cbn [negb Z.eqb snd].
  intros b. rewrite (blk_write_ok _ _ _ _ (bi_len _ _ _ _ Hi i Hlt) Ew b).
  case_decide as E; [right|by left]. by rewrite E, (bi_data _ _ _ _ Hi i Hlt HP).
Qed.

Lemma evict_settles st d f P v st' d' :
  bc_inv st d f P → (v < BCACHE_ENTRIES)%nat → bc_evict v st d = Some (st', d') → settles d d' f.
Proof.
  intros Hi Hlt. unfold bc_evict. cbv zeta. pose proof (writeback_settles st d f P v Hi Hlt) as Hw.
  destruct (be_valid (bent st v) && be_dirty (bent st v)).
  - destruct (writeback_entry v st d) as [[rc st1] d1]. cbn [snd] in Hw.
    destruct (be_valid (bent st1 v)); [|by intros [= _ <-]].
    destruct (hash_remove v st1); cbn [mbind option_bind]; [|done]. by intros [= _ <-].
  - destruct (be_valid (bent st v)); [|by intros [= _ <-]; left].
    destruct (hash_remove v st); cbn [mbind option_bind]; [|done]. by intros [= _ <-]; left.
Qed.

Lemma bcache_read_settles st d f b rc out st' d' :
  bc_ok st d f → bcache_read b st d = Some (rc, out, st', d') → settles d d' f.
Proof.
  intros (P & Hi). unfold bcache_read.
  destruct (hash_find_spec st d f P b Hi) as [(i & -> & Hlt & HP & Ht)|[-> _]]; cbn [mbind option_bind].
  { rewrite (proj2 (Z.leb_le 0 _)) by lia. intros [= _ _ _ <-]. by left. }
  cbv zeta. change (0 <=? -1) with false. cbv iota.
  pose proof (bc_inv_counters _ _ _ _ (bc_hits st) (u64 (bc_misses st + 1)) Hi) as Hi1.
  change (st <| bc_hits := bc_hits st |> <| bc_misses := _ |>) with (st <| bc_misses := u64 (bc_misses st + 1) |>) in Hi1.
  set (st1 := st <| bc_misses := _ |>) in *.
  destruct (bc_victim st1 (bi_shape _ _ _ _ Hi1)) as (v & -> & Hlt).
  rewrite (proj2 (Z.ltb_ge _ 0)), Nat2Z.id by lia.
  destruct (bc_evict v st1 d) as [[st2 d2]|] eqn:Ee; cbn [mbind option_bind]; [|done].
  pose proof (evict_settles _ _ _ _ _ _ _ Hi1 Hlt Ee) as Hset.
  pose proof (blk_read_same (b * SECTORS_PER_BLOCK) d2) as Hsame.
  destruct (blk_read_multi _ d2) as [[rc1 buf] d3]. cbn [snd] in Hsame.
  assert (Hset3 : settles d d3 f) by (intros b'; rewrite Hsame; apply Hset).
  destruct (negb (rc1 =? 0)); by intros [= _ _ _ <-].
Qed.

(** Some read of the device fails. *)
Definition read_faults : Prop := ∃ s d, (blk_read_multi s d).1.1 ≠ 0.

Lemma bcache_read_spec st d f b :
  bc_ok st d f →
  ∃ rc out st' d', bcache_read b st d = Some (rc, out, st', d') ∧ bc_ok st' d' f ∧
    ((rc = 0 ∧ out = f b) ∨ (rc = -1 ∧ out = [] ∧ read_faults)).
Proof.
  intros (P & Hi). unfold bcache_read.
  destruct (hash_find_spec st d f P b Hi) as [(i & -> & Hlt & HP & Ht)|[-> Hmiss]]; cbn [mbind option_bind].
  - rewrite (proj2 (Z.leb_le 0 _)), Nat2Z.id by lia. cbv zeta.
    pose proof (bc_inv_counters _ _ _ _ (u64 (bc_hits st + 1)) (bc_misses st) Hi) as Hi1.
    change (st <| bc_hits := _ |> <| bc_misses := bc_misses st |>) with (st <| bc_hits := u64 (bc_hits st + 1) |>) in Hi1.
    set (st1 := st <| bc_hits := _ |>) in *.
    destruct (bc_promote_shape st1 i (bi_shape _ _ _ _ Hi1) Hlt) as [_ Hp].
    destruct (proj1 (payload_core _ _ Hp) i) as (Hd & _).
    eexists _, _, _, _. split; [reflexivity|]. split; [exists P; by apply bc_promote_inv|left]. split; [done|].
    rewrite Hd, <-(bi_data _ _ _ _ Hi1 i Hlt HP). change (be_tag (bent st1 i)) with (be_tag (bent st i)).
    rewrite Ht, take_ge; [done|]. rewrite <-Ht, (bi_data _ _ _ _ Hi i Hlt HP), (bi_len _ _ _ _ Hi i Hlt). done.
  - cbv zeta. change (0 <=? -1) with false. cbv iota.
    pose proof (bc_inv_counters _ _ _ _ (bc_hits st) (u64 (bc_misses st + 1)) Hi) as Hi1.
    change (st <| bc_hits := bc_hits st |> <| bc_misses := _ |>) with (st <| bc_misses := u64 (bc_misses st + 1) |>) in Hi1.
    set (st1 := st <| bc_misses := _ |>) in *.
    destruct (bc_victim st1 (bi_shape _ _ _ _ Hi1)) as (v & -> & Hlt).
    rewrite (proj2 (Z.ltb_ge _ 0)), Nat2Z.id by lia.
    destruct (bc_evict_spec st1 d f P v Hi1 Hlt) as (st2 & d2 & -> & Hi2 & Htg & Hcl). cbn [mbind option_bind].
    pose proof (blk_read_len (b * SECTORS_PER_BLOCK) d2) as Hlen.
    pose proof (blk_read_same (b * SECTORS_PER_BLOCK) d2) as Hsame.
    destruct (blk_read_multi _ d2) as [[rc buf] d3] eqn:Er. cbn [fst snd] in Hlen, Hsame.
    assert (bc_inv st2 d3 f (λ j, P j ∧ j ≠ v)) as Hi3.
    { destruct Hi2 as [Hs Hl Hh Hu Hv Hd Hda Hc Hdi]. split; try done.
      - intros i ? ? ?. rewrite Hsame. auto.
      - intros b' Hb'. rewrite Hsame. auto. }
    destruct (rc =? 0) eqn:Erc; cbn [negb]; bool_hyps.
    + subst rc. rewrite bc_set_set. rewrite bc_set_ent, decide_True by (done || apply Hi3).
      match goal with |- context [bc_set v ?e st2] => destruct (bc_fill st2 d3 f (λ j, P j ∧ j ≠ v) v b buf e) as [Hi4 Hd4] end;
        [exact Hi3|exact Hlt|by intros [_ ?]| |exact Hlen|intros _; rewrite Hsame; by apply (blk_read_ok b d2 buf d3)
        |reflexivity|reflexivity|reflexivity|reflexivity|reflexivity|].
      { intros i Hil [HPi _]. rewrite Htg. by apply Hmiss. }
      assert (f b = buf) as Hfb.
      { rewrite (bi_disk _ _ _ _ Hi b Hmiss). apply blk_read_ok in Er as ->.
        rewrite <-(bi_disk _ _ _ _ Hi b Hmiss). symmetry. rewrite <-(bi_disk _ _ _ _ Hi2 b); [done|].
        intros i Hil [HPi _]. rewrite Htg. by apply Hmiss. }
      eexists _, _, _, _. split; [reflexivity|]. split.
      * eapply bc_ok_ext; [|eexists; exact Hi4]. intros b'. unfold fupd. case_decide; [by subst|done].
      * left. split; [done|]. etransitivity; [|symmetry; exact Hfb]. etransitivity; [|apply (take_ge buf); by rewrite Hlen].
        f_equal. exact Hd4.
    + eexists _, _, _, _. split; [reflexivity|]. split.
      * exists (λ j, P j ∧ j ≠ v). apply bc_scratch; try done. by intros [_ ?].
      * right. split_and!; [done..|]. eexists _, _. by rewrite Er.
Qed.

Lemma block_copy_id dst buf : length dst = BLOCK_SIZE → length buf = BLOCK_SIZE → block_copy dst buf = buf.
Proof.
  intros Hd Hb. unfold block_copy. rewrite mem_copy_spec by lia.
  rewrite take_ge by lia. rewrite drop_ge by lia. by rewrite app_nil_r.
Qed.

Lemma bcache_write_spec st d f b buf :
  bc_ok st d f → length buf = BLOCK_SIZE →
  ∃ st' d', bcache_write b buf st d = Some (0, st', d') ∧ bc_ok st' d' (fupd f b buf).
Proof.
  intros (P & Hi) Hbuf. unfold bcache_write.
  destruct (hash_find_spec st d f P b Hi) as [(i & -> & Hlt & HP & Ht)|[-> Hmiss]]; cbn [mbind option_bind].
  - rewrite (proj2 (Z.leb_le 0 _)), Nat2Z.id by lia. cbv zeta.
    rewrite block_copy_id by (by rewrite ?(bi_len _ _ _ _ Hi i Hlt)).
    set (st1 := bc_set i _ st). eexists _, _. split; [reflexivity|].
    apply bc_ok_promote; [|done]. exists P.
    assert (∀ j, bent st1 j = if decide (j = i) then (bent st i) <| be_data := buf |> <| be_dirty := true |> else bent st j)
      as He by (intros j; apply bc_set_ent; [apply Hi|done]).
    destruct Hi as [Hs Hl Hh Hu Hv Hd Hda Hc Hdi].
    assert (∀ j, be_tag (bent st1 j) = be_tag (bent st j)) as E2 by (intros j; rewrite He; by case_decide; [subst|]).
    assert (∀ j, be_valid (bent st1 j) = be_valid (bent st j)) as E3 by (intros j; rewrite He; by case_decide; [subst|]).
    split.
    + by apply bc_set_shape.
    + intros j Hj. rewrite He. case_decide; [done|auto].
    + eapply hashed_ext; [|by intros|exact Hh]. intros j _ _. cbv beta. rewrite He. by case_decide; [subst|].
    + intros j k. rewrite !E2. apply Hu.
    + intros j. rewrite E3. auto.
    + intros j Hj. rewrite E3, He. case_decide; [by subst|auto].
    + intros j Hj HPj. rewrite E2, He. unfold fupd. destruct (decide (j = i)) as [->|Hne]; [by rewrite decide_True|].
      rewrite decide_False; [auto|]. intros Htj. by apply Hne, Hu; try done; rewrite Ht.
    + intros j Hj HPj. rewrite E2, He. case_decide; [done|auto].
    + intros b' Hb'. unfold fupd. rewrite decide_False.
      * apply Hdi. intros j Hj HPj. rewrite <-E2. auto.
      * intros ->. apply (Hb' i Hlt HP). by rewrite E2.
  - change (0 <=? -1) with false. cbv iota zeta.
    destruct (bc_victim st (bi_shape _ _ _ _ Hi)) as (v & -> & Hlt).
    rewrite (proj2 (Z.ltb_ge _ 0)), Nat2Z.id by lia.
    destruct (bc_evict_spec st d f P v Hi Hlt) as (st2 & d2 & -> & Hi2 & Htg & Hcl). cbn [mbind option_bind].
    rewrite block_copy_id by (by rewrite ?(bi_len _ _ _ _ Hi2 v Hlt)).
    match goal with |- context [bc_set v ?e st2] => destruct (bc_fill st2 d2 f (λ j, P j ∧ j ≠ v) v b buf e) as [Hi4 _] end;
      [exact Hi2|exact Hlt|by intros [_ ?]| |exact Hbuf| |reflexivity|reflexivity|reflexivity|reflexivity|reflexivity|].
    { intros i Hil [HPi _]. rewrite Htg. by apply Hmiss. }
    { done. }
    eexists _, _. split; [reflexivity|]. eexists. exact Hi4.
Qed.

Lemma bcache_invalidate_spec st d f b :
  bc_ok st d f → ∃ st' d', bcache_invalidate b st d = Some (st', d') ∧ bc_ok st' d' f.
Proof.
  intros (P & Hi). unfold bcache_invalidate.
  destruct (hash_find_spec st d f P b Hi) as [(i & -> & Hlt & HP & Ht)|[-> Hmiss]]; cbn [mbind option_bind];
    [|eexists _, _; split; [reflexivity|by exists P]].
  rewrite (proj2 (Z.leb_le 0 _)), Nat2Z.id by lia. cbv zeta.
  destruct (bc_evict_spec st d f P i Hi Hlt) as (st2 & d2 & Hev & Hi2 & _ & Hcl).
  pose proof (bi_valid _ _ _ _ Hi i Hlt HP) as Hv. unfold bc_evict in Hev. rewrite Hv in Hev. cbn [andb] in Hev.
  destruct (writeback_spec st d f P i Hi Hlt) as (st1 & d1 & Hwb & _ & _ & Hsame). rewrite Hwb in *.
  set (w := if be_dirty (bent st i) then _ else _) in Hev. set (w' := if be_dirty (bent st i) then _ else _).
  assert (w' = w) as -> by done. destruct w as [st1' d1'] eqn:Ew.
  assert (be_valid (bent st1' i) = true) as Hv1.
  { subst w. destruct (be_dirty (bent st i)); injection Ew as <- <-; [|done]. by rewrite (proj1 (Hsame i)). }
  rewrite Hv1 in Hev. destruct (hash_remove i st1') as [st2'|]; [|done]. cbn [mbind option_bind] in *.
  injection Hev as -> ->. set (st3 := bc_set i _ st2). eexists _, _. split; [reflexivity|].
  assert (bc_inv st3 d2 f (λ j, P j ∧ j ≠ i)) as Hi3.
  { apply bc_scratch; try done; [by intros [_ ?]|]. by apply (bi_len _ _ _ _ Hi2 i Hlt). }
  eexists. eapply (bc_inv_relinked st3); [exact Hi3| |reflexivity|];
    destruct (bc_relink st3 i dll_push_tail (bi_shape _ _ _ _ Hi3) Hlt) as [Hs4 Hp4]; try done;
    intros dd l Hd Hil Hdl; exists (l ++ [i]); destruct (dll_push_tail_spec dd l i Hd Hil Hdl) as [? ?];
    split_and!; try done; by rewrite Permutation_app_comm.
Qed.

Lemma bcache_flush_one_spec st d f i :
  bc_ok st d f → (i < BCACHE_ENTRIES)%nat →
  let '(st', d') := bcache_flush_one i st d in
  bc_ok st' d' f ∧ (be_valid (bent st' i) && be_dirty (bent st' i) = false) ∧
  ∀ j, be_valid (bent st j) && be_dirty (bent st j) = false → be_valid (bent st' j) && be_dirty (bent st' j) = false.
Proof.
  intros (P & Hi) Hlt. unfold bcache_flush_one. cbv zeta.
  destruct (be_valid (bent st i) && be_dirty (bent st i)) eqn:Eq.
  - destruct (writeback_spec st d f P i Hi Hlt) as (st1 & d1 & -> & Hi1 & Hcl & Hsame).
    split_and!; [by exists P| |].
    + destruct (be_valid (bent st1 i)); [by rewrite (Hcl eq_refl)|done].
    + intros j Hj. destruct (Hsame j) as (-> & _ & Hd). destruct (be_valid (bent st j)); [cbn in *; auto|done].
  - split_and!; [by exists P|done|done].
Qed.

Lemma bcache_flush_loop_spec st d f k n :
  bc_ok st d f → (k + n ≤ BCACHE_ENTRIES)%nat →
  (∀ j, (j < k)%nat → be_valid (bent st j) && be_dirty (bent st j) = false) →
  let '(st', d') := foldl (λ '(st, d) i, bcache_flush_one i st d) (st, d) (seq k n) in
  bc_ok st' d' f ∧ ∀ j, (j < k + n)%nat → be_valid (bent st' j) && be_dirty (bent st' j) = false.
Proof.
  revert st d k. induction n as [|n IH]; intros st d k Hok Hn Hk; cbn [seq foldl].
  { split; [done|]. intros j Hj. apply Hk. lia. }
  pose proof (bcache_flush_one_spec st d f k Hok ltac:(lia)) as H1. destruct (bcache_flush_one k st d) as [st1 d1].
  destruct H1 as (Hok1 & Hc1 & Hk1). specialize (IH st1 d1 (S k) Hok1 ltac:(lia)).
  destruct (foldl _ _ _) as [st2 d2]. rewrite Nat.add_succ_r. apply IH. intros j Hj.
  destruct (decide (j = k)) as [->|]; [done|]. apply Hk1, Hk. lia.
Qed.

(** After a flush the disk holds what readers see. *)
Lemma bcache_flush_spec st d f :
  bc_ok st d f →
  let '(st', d') := bcache_flush st d in bc_ok st' d' f ∧ ∀ b, blk_block d' b = f b.
Proof.
  intros Hok. pose proof (bcache_flush_loop_spec st d f 0 BCACHE_ENTRIES Hok ltac:(lia) ltac:(lia)) as H.
  fold (bcache_flush st d) in H. destruct (bcache_flush st d) as [st' d']. destruct H as [Hok' Hcl].
  split; [done|]. intros b. destruct Hok' as (P & Hi). symmetry.
  destruct (hash_find_spec st' d' f P b Hi) as [(i & _ & Hlt & HP & <-)|[_ Hmiss]]; [|by apply Hi].
  rewrite (bi_data _ _ _ _ Hi i Hlt HP). apply (bi_clean _ _ _ _ Hi i Hlt HP).
  specialize (Hcl i ltac:(lia)). by rewrite (bi_valid _ _ _ _ Hi i Hlt HP) in Hcl.
Qed.

(** ** Histories *)

Inductive bc_op :=
  | BRead (b : Z)
  | BWrite (b : Z) (buf : list Z)
  | BInvalidate (b : Z)
  | BFlushOne (i : nat)
  | BFlush.

Definition bc_op_ok (op : bc_op) : Prop :=
  match op with
  | BWrite _ buf => length buf = BLOCK_SIZE
  | BFlushOne i => (i < BCACHE_ENTRIES)%nat
  | _ => True
  end.

Definition bc_exec (op : bc_op) (s : bcache_st * D) : option ((Z * list Z) * (bcache_st * D)) :=
  let '(st, d) := s in
  match op with
  | BRead b => '(rc, out, st, d) ← bcache_read b st d; Some ((rc, out), (st, d))
  | BWrite b buf => '(rc, st, d) ← bcache_write b buf st d; Some ((rc, []), (st, d))
  | BInvalidate b => s ← bcache_invalidate b st d; Some ((0, []), s)
  | BFlushOne i => Some ((0, []), bcache_flush_one i st d)
  | BFlush => Some ((0, []), bcache_flush st d)
  end.

(** The same on a plain array of blocks. *)
Definition disk_exec (op : bc_op) f : (Z * list Z) * (Z → list Z) :=
  match op with
  | BRead b => ((0, f b), f)
  | BWrite b buf => ((0, []), fupd f b buf)
  | _ => ((0, []), f)
  end.

Fixpoint bc_run (ops : list bc_op) (s : bcache_st * D) : option (list (Z * list Z) * (bcache_st * D)) :=
  match ops with
  | [] => Some ([], s)
  | op :: ops' => '(o, s) ← bc_exec op s; '(os, s) ← bc_run ops' s; Some (o :: os, s)
  end.

Fixpoint disk_run (ops : list bc_op) f : list (Z * list Z) * (Z → list Z) :=
  match ops with
  | [] => ([], f)
  | op :: ops' => let '(o, f) := disk_exec op f in let '(os, f) := disk_run ops' f in (o :: os, f)
  end.

(** The answer of the array, or the report of a failed device read. *)
Definition bc_answer (o o' : Z * list Z) : Prop := o = o' ∨ (o = (-1, []) ∧ read_faults).

Lemma bc_exec_spec op st d f :
  bc_op_ok op → bc_ok st d f →
  ∃ o st' d', bc_exec op (st, d) = Some (o, (st', d')) ∧ bc_answer o (disk_exec op f).1 ∧
    bc_ok st' d' (disk_exec op f).2.
Proof.
  intros Hop Hok. destruct op as [b|b buf|b|i|]; cbn [bc_exec disk_exec fst snd bc_op_ok] in *.
  - destruct (bcache_read_spec st d f b Hok) as (rc & out & st' & d' & -> & Hok' & Hor). cbn [mbind option_bind].
    eexists _, _, _. split_and!; [reflexivity| |done]. destruct Hor as [[-> ->]|(-> & -> & ?)]; [by left|by right].
  - destruct (bcache_write_spec st d f b buf Hok Hop) as (st' & d' & -> & Hok'). cbn [mbind option_bind].
    eexists _, _, _. split_and!; [reflexivity|by left|done].
  - destruct (bcache_invalidate_spec st d f b Hok) as (st' & d' & -> & Hok'). cbn [mbind option_bind].
    eexists _, _, _. split_and!; [reflexivity|by left|done].
  - pose proof (bcache_flush_one_spec st d f i Hok Hop) as H. destruct (bcache_flush_one i st d) as [st' d'].
    eexists _, _, _. split_and!; [reflexivity|by left|by destruct H].
  - pose proof (bcache_flush_spec st d f Hok) as H. destruct (bcache_flush st d) as [st' d'].
    eexists _, _, _. split_and!; [reflexivity|by left|by destruct H].
Qed.

Lemma bc_run_spec ops st d f :
  Forall bc_op_ok ops → bc_ok st d f →
  ∃ os st' d', bc_run ops (st, d) = Some (os, (st', d')) ∧ Forall2 bc_answer os (disk_run ops f).1 ∧
    bc_ok st' d' (disk_run ops f).2.
Proof.
  intros Hops. revert st d f. induction Hops as [|op ops Hop _ IH]; intros st d f Hok; cbn [bc_run disk_run].
  { eexists _, _, _. split_and!; [reflexivity|constructor|done]. }
  destruct (bc_exec_spec op st d f Hop Hok) as (o & st1 & d1 & -> & Ho & Hok1). cbn [mbind option_bind].
  destruct (disk_exec op f) as [o' f1]. cbn [fst snd] in Ho, Hok1.
  destruct (IH st1 d1 f1 Hok1) as (os & st2 & d2 & -> & Hos & Hok2). cbn [mbind option_bind].
  destruct (disk_run ops f1) as [os' f2]. cbn [fst snd] in *. eexists _, _, _. split_and!; [reflexivity|by constructor|done].
Qed.
End bcache_inv.

(** ** Initialisation *)

Lemma push_all_spec (d : dll bcache_entry) l k :
  dll_repr d l → NoDup (l ++ k) → (∀ i, i ∈ k → (i < length (d_ent d))%nat) →
  let d' := foldl (λ d i, dll_push_head i d) d k in
  dll_repr d' (reverse k ++ l) ∧ payload <$> d_ent d' = payload <$> d_ent d.
Proof.
  revert d l. induction k as [|i k IH]; intros d l Hd Hnd Hk; cbn [foldl]; [done|].
  assert (i ∉ l) as Hi. { apply NoDup_app in Hnd as (_ & H & _). intros Hin. apply (H i Hin). by left. }
  destruct (dll_push_head_spec d l i Hd Hi) as [Hd1 Hp1]; [apply Hk; by left|].
  destruct (IH (dll_push_head i d) (i :: l) Hd1) as [Hd2 Hp2].
  - cbn. by rewrite <-Permutation_middle in Hnd.
  - intros j Hj. rewrite (length_payload (E:=bcache_entry) _ _ Hp1). apply Hk. by right.
  - rewrite reverse_cons, <-app_assoc. split; [exact Hd2|exact (eq_trans Hp2 Hp1)].
Qed.

Lemma push_seq_spec (ent : list bcache_entry) n :
  length ent = n →
  let d' := foldl (λ d i, dll_push_head i d) (mk_dll ent (-1) (-1)) (seq 0 n) in
  (∃ l, dll_repr d' l ∧ l ≡ₚ seq 0 n) ∧ payload <$> d_ent d' = payload <$> ent.
Proof.
  intros Hl d'. destruct (push_all_spec (mk_dll ent (-1) (-1)) [] (seq 0 n)) as [Hr Hp].
  { split_and!; (constructor || done). }
  { apply NoDup_seq. }
  { intros i Hi%elem_of_seq. change (d_ent _) with ent. lia. }
  split; [|exact Hp]. exists (reverse (seq 0 n) ++ []). split; [exact Hr|]. by rewrite app_nil_r, reverse_Permutation.
Qed.

(** A cache without valid entries shows the disk. *)
Lemma bc_empty_ok `{!BlkDev D} (d : D) dl :
  length (d_ent dl) = BCACHE_ENTRIES → (∃ l, dll_repr dl l ∧ l ≡ₚ seq 0 BCACHE_ENTRIES) →
  (∀ i, (i < BCACHE_ENTRIES)%nat → be_valid (d_ent dl !!! i) = false) →
  (∀ i, (i < BCACHE_ENTRIES)%nat → length (be_data (d_ent dl !!! i)) = BLOCK_SIZE) →
  bc_ok (mk_bc dl (replicate HASH_BUCKETS (-1)) 0 0) d (blk_block d).
Proof.
  intros Hl Hr Hv Hd. exists (λ _, False). split; cbn [bc_dll bc_hash].
  - split_and!; cbn [bc_dll bc_hash]; [exact Hl|apply length_replicate|exact Hr].
  - exact Hd.
  - intros b Hb. exists []. split_and!; [|constructor|].
    + cbn [hpath]. apply list_lookup_total_correct, lookup_replicate_2, Hb.
    + intros i. split; [by intros ?%elem_of_nil|]. intros (_ & [] & _).
  - intros i j _ _ [].
  - intros i _ [].
  - intros i Hi Hvi. rewrite (Hv i Hi) in Hvi. discriminate Hvi.
  - intros i _ [].
  - intros i _ [].
  - intros b _. reflexivity.
Qed.

Lemma bc_cleared_ok `{!BlkDev D} (d : D) dl (ent : list bcache_entry) :
  payload <$> d_ent dl = payload <$> (bce_clear <$> ent) → (∃ l, dll_repr dl l ∧ l ≡ₚ seq 0 BCACHE_ENTRIES) →
  length ent = BCACHE_ENTRIES → (∀ i, (i < BCACHE_ENTRIES)%nat → length (be_data (ent !!! i)) = BLOCK_SIZE) →
  bc_ok (mk_bc dl (replicate HASH_BUCKETS (-1)) 0 0) d (blk_block d).
Proof.
  intros Hp Hr Hl Hd. apply bc_empty_ok; [|exact Hr| |].
  - rewrite (length_payload (E:=bcache_entry) _ _ Hp). by rewrite length_fmap.
  - intros i Hi. pose proof (payload_total _ _ i Hp) as He.
    apply (f_equal (λ x, x.1.1.2)) in He. etransitivity; [exact He|].
    rewrite (list_lookup_total_fmap bce_clear _ i) by lia. reflexivity.
  - intros i Hi. pose proof (payload_total _ _ i Hp) as He.
    apply (f_equal (λ x, x.1.1.1.1)) in He. etransitivity; [apply (f_equal length He)|].
    rewrite (list_lookup_total_fmap bce_clear _ i) by lia. exact (Hd i Hi).
Qed.

Lemma bcache_init_ok `{!BlkDev D} (d : D) st :
  length (bc_ent st) = BCACHE_ENTRIES → (∀ i, (i < BCACHE_ENTRIES)%nat → length (be_data (bent st i)) = BLOCK_SIZE) →
  bc_ok (bcache_init st) d (blk_block d).
Proof.
  intros Hl Hd. unfold bcache_init. destruct (push_seq_spec (bce_clear <$> bc_ent st) BCACHE_ENTRIES) as [Hr Hp];
    [by rewrite length_fmap|].
  cbv zeta in Hr, Hp. revert Hr Hp. generalize (foldl (λ d i, dll_push_head i d) (mk_dll (bce_clear <$> bc_ent st) (-1) (-1)) (seq 0 BCACHE_ENTRIES)).
  intros dl Hr Hp. exact (bc_cleared_ok d dl (bc_ent st) Hp Hr Hl Hd).
Qed.

Lemma bcache_zero_ok `{!BlkDev D} (d : D) : bc_ok (bcache_init bcache_zero) d (blk_block d).
Proof.
  apply bcache_init_ok.
  - apply length_replicate.
  - intros i Hi. unfold bcache_zero. cbn [bc_dll d_ent]. rewrite lookup_total_replicate_2 by done.
    apply length_replicate.
Qed.

(** ** Properties *)

(** C4.  The cache is transparent.  Over a device whose writes succeed, every
    history of reads, writes, invalidations and flushes (interleaved entry by
    entry) runs to its end, and each read answers what a plain array of blocks
    would: the last write of the block, or the disk's initial contents.  A
    failed device read is reported as such and loses nothing. *)
Theorem bcache_refines `{!BlkDev D} (d : D) ops :
  (∀ s buf (d : D), (blk_write_multi s buf d).1 = 0) → Forall bc_op_ok ops →
  ∃ os st' d', bc_run ops (bcache_init bcache_zero, d) = Some (os, (st', d')) ∧
    Forall2 (bc_answer (D:=D)) os (disk_run ops (blk_block d)).1.
Proof.
  intros Hw Hops. destruct (bc_run_spec Hw ops _ d _ Hops (bcache_zero_ok d)) as (os & st' & d' & Hr & Ho & _).
  by exists os, st', d'.
Qed.

(** C5.  Durability.  When a history ends with a flush, the disk holds the last
    write of every block. *)
Theorem bcache_flush_durable `{!BlkDev D} (d : D) ops :
  (∀ s buf (d : D), (blk_write_multi s buf d).1 = 0) → Forall bc_op_ok ops →
  ∃ os st' d', bc_run (ops ++ [BFlush]) (bcache_init bcache_zero, d) = Some (os, (st', d')) ∧
    ∀ b, blk_block d' b = (disk_run ops (blk_block d)).2 b.
Proof.
  intros Hw Hops. destruct (bc_run_spec Hw ops _ d _ Hops (bcache_zero_ok d)) as (os & st1 & d1 & Hr & _ & Hok).
  pose proof (bcache_flush_spec Hw st1 d1 _ Hok) as Hf. destruct (bcache_flush st1 d1) as [st2 d2] eqn:Ef.
  exists (os ++ [(0, [])]), st2, d2. split; [|by apply Hf].
  assert (∀ ops s os s1, bc_run ops s = Some (os, s1) → bc_run (ops ++ [BFlush]) s =
    '(o, s2) ← bc_exec BFlush s1; Some (os ++ [o], s2)) as Happ.
  { clear. induction ops as [|op ops IH]; intros s os s1 Hr; cbn [bc_run app] in *.
    - injection Hr as <- <-. by destruct (bc_exec BFlush s) as [[o s2]|].
    - destruct (bc_exec op s) as [[o s']|]; cbn [mbind option_bind] in *; [|done].
      destruct (bc_run ops s') as [[os' s'']|] eqn:Er; cbn [mbind option_bind] in *; [|done].
      injection Hr as <- <-. rewrite (IH _ _ _ Er). by destruct (bc_exec BFlush s'') as [[o2 s2]|]. }
  rewrite (Happ _ _ _ _ Hr). cbn [bc_exec mbind option_bind]. by rewrite Ef.
Qed.

(** ** A concrete disk *)

(** A log of the blocks written, newest first; unwritten blocks are zero. *)
Definition log_block (d : list (Z * list Z)) (b : Z) : list Z :=
  match find_idx (λ x, x.1 =? b) d with
  | Some k => resize BLOCK_SIZE 0 (d !!! k).2
  | None => replicate BLOCK_SIZE 0
  end.

#[export] Program Instance log_disk : BlkDev (list (Z * list Z)) := {|
  blk_read_multi s d := (0, log_block d (s / SECTORS_PER_BLOCK), d);
  blk_write_multi s buf d := (0, (s / SECTORS_PER_BLOCK, buf) :: d);
  blk_block := log_block
|}.
Next Obligation. intros d b. unfold log_block. case_match; [apply length_resize|apply length_replicate]. Qed.
Next Obligation. intros s d. cbn [fst snd]. unfold log_block. case_match; [apply length_resize|apply length_replicate]. Qed.
Next Obligation. intros b d buf d' H. pose proof (Z.div_mul b 8 ltac:(lia)). congruence. Qed.
Next Obligation. done. Qed.
Next Obligation.
  intros b buf d d' Hl H b'. pose proof (Z.div_mul b 8 ltac:(lia)) as Hb.
  assert (d' = (b, buf) :: d) as -> by congruence.
  unfold log_block. cbn [find_idx fst]. destruct (b =? b') eqn:Eq; bool_hyps.
  - subst. rewrite decide_True by done. cbn. apply resize_all_alt. done.
  - rewrite decide_False by done. by destruct (find_idx _ d).
Qed.

(** A disk that refuses every write, and reads as zero. *)
#[export] Program Instance ro_disk : BlkDev unit := {|
  blk_read_multi s d := (0, replicate BLOCK_SIZE 0, d);
  blk_write_multi s buf d := (-1, d);
  blk_block d b := replicate BLOCK_SIZE 0
|}.
Next Obligation. intros. apply length_replicate. Qed.
Next Obligation. intros. apply length_replicate. Qed.
Next Obligation. intros b d buf d' H. by injection H. Qed.
Next Obligation. done. Qed.
Next Obligation. intros b buf d d' _ H. done. Qed.

Definition ones : list Z := replicate BLOCK_SIZE 1.
Definition bc_sample : list bc_op := [BWrite 5 ones; BRead 5; BRead 261; BInvalidate 5; BRead 5].

Lemma bc_sample_ok : Forall bc_op_ok bc_sample.
Proof. repeat constructor; apply length_replicate. Qed.

Lemma bcache_refines_witness :
  (∀ s buf d, (blk_write_multi (D:=list (Z * list Z)) s buf d).1 = 0) ∧ Forall bc_op_ok bc_sample ∧
  ∃ os st' d', bc_run (D:=list (Z * list Z)) bc_sample (bcache_init bcache_zero, []) = Some (os, (st', d')) ∧
    Forall2 (bc_answer (D:=list (Z * list Z))) os (disk_run bc_sample (blk_block [])).1.
Proof.
  split; [done|]. split; [exact bc_sample_ok|].
  apply (bcache_refines (D:=list (Z * list Z)) [] bc_sample); [done|exact bc_sample_ok].
Defined.

Lemma bcache_flush_durable_witness :
  ∃ os st' d', bc_run (D:=list (Z * list Z)) (bc_sample ++ [BFlush]) (bcache_init bcache_zero, []) = Some (os, (st', d')) ∧
    ∀ b, blk_block d' b = (disk_run bc_sample (blk_block [])).2 b.
Proof.
  apply (bcache_flush_durable (D:=list (Z * list Z)) [] bc_sample); [done|exact bc_sample_ok].
Defined.

(** The result of the write-back of a victim is not looked at.  A write that
    was reported as successful is lost when the device refuses the write-back
    at eviction: 255 reads of other blocks later, the block reads as before. *)
Definition lost_write_run : list (Z * list Z) :=
  match bc_run (D:=unit) (BWrite 1000 ones :: (BRead ∘ Z.of_nat <$> seq 0 256) ++ [BRead 1000])
          (bcache_init bcache_zero, ()) with
  | Some (os, _) => os
  | None => []
  end.

Theorem bcache_lost_write :
  lost_write_run !! O = Some (0, []) ∧ last lost_write_run = Some (0, replicate BLOCK_SIZE 0).
Proof. by vm_compute. Qed.
