(* ===== verification/Bitmap.v ===== *)
(** * Bitmap: byte arrays used as bit sets

    The page-frame bitmap ([mm/pmm.c]: [bitmap_set], [bitmap_clear],
    [bitmap_test]), the swap bitmap ([mm/swap.c]) and the block and inode
    bitmaps of the file system ([blk/limnfs.c]) are the same structure: bit
    [p mod 8] of byte [p / 8], set when the unit [p] is in use, searched by a
    linear scan for a clear bit.

    The abstract bitmap is the set of numbers whose bit is set; [bm_free] counts
    the clear ones. *)

From S2P Require Import Prelude.

(** ** Operations *)

Definition bm_mask (p : nat) : Z := Z.shiftl 1 (Z.of_nat (p mod 8)).

(** [bitmap[page / 8] |= (1 << (page % 8))]. *)
Definition bm_set (p : nat) (bm : list Z) : list Z :=
  <[(p / 8)%nat := u8 (Z.lor (bm !!! (p / 8)%nat) (bm_mask p))]> bm.

(** [bitmap[page / 8] &= ~(1 << (page % 8))]. *)
Definition bm_clear (p : nat) (bm : list Z) : list Z :=
  <[(p / 8)%nat := u8 (Z.land (bm !!! (p / 8)%nat) (Z.lnot (bm_mask p)))]> bm.

(** [(bitmap[page / 8] >> (page % 8)) & 1]. *)
Definition bm_test (p : nat) (bm : list Z) : bool :=
  negb (Z.land (Z.shiftr (bm !!! (p / 8)%nat) (Z.of_nat (p mod 8))) 1 =? 0).

(** The scan [for (i = i; i < i + n; i++) if (!test(i)) return i]. *)
Fixpoint bm_scan (n i : nat) (bm : list Z) : option nat :=
  match n with
  | O => None
  | S n' => if bm_test i bm then bm_scan n' (S i) bm else Some i
  end.

(** Number of clear bits below [n]. *)
Definition bm_free (n : nat) (bm : list Z) : nat := length (filter (λ p, bm_test p bm = false) (seq 0 n)).

(** The bytes are bytes, and there are enough of them for [n] bits. *)
Definition bm_ok (n : nat) (bm : list Z) : Prop :=
  (n ≤ 8 * length bm)%nat ∧ Forall (λ b, 0 ≤ b < 2 ^ 8) bm.

(** ** Lemmas *)

Lemma bm_test_bit p bm : bm_test p bm = Z.testbit (bm !!! (p / 8)%nat) (Z.of_nat (p mod 8)).
Proof.
  unfold bm_test. set (b := bm !!! _). set (k := Z.of_nat _).
  assert (0 ≤ k) by (unfold k; lia).
  change 1 with (Z.ones 1). rewrite Z.land_ones by lia. change (2 ^ 1) with 2.
  assert (Z.shiftr b k mod 2 = Z.b2z (Z.testbit b k)) as ->.
  { rewrite <-Z.bit0_mod, Z.shiftr_spec by lia. by rewrite Z.add_0_l. }
  by destruct (Z.testbit b k).
Qed.

Lemma bm_mask_bit p k : 0 ≤ k → Z.testbit (bm_mask p) k = bool_decide (k = Z.of_nat (p mod 8)).
Proof.
  intros Hk. unfold bm_mask. rewrite Z.shiftl_spec by done.
  destruct (decide (k = Z.of_nat (p mod 8))) as [->|Hne].
  - by rewrite Z.sub_diag, bool_decide_true.
  - rewrite bool_decide_false by done. destruct (decide (k < Z.of_nat (p mod 8))).
    + by rewrite Z.testbit_neg_r by lia.
    + change 1 with (2 ^ 0). apply Z.pow2_bits_false. lia.
Qed.

Lemma bm_same_byte p q : (q / 8 = p / 8)%nat → (q mod 8 = p mod 8)%nat → q = p.
Proof. intros H1 H2. pose proof (Nat.div_mod_eq p 8). pose proof (Nat.div_mod_eq q 8). lia. Qed.

Lemma bm_low_bit p : 0 ≤ Z.of_nat (p mod 8) < 8.
Proof. pose proof (Nat.mod_upper_bound p 8). lia. Qed.

Lemma testbit_u8 b k : 0 ≤ k < 8 → Z.testbit (u8 b) k = Z.testbit b k.
Proof. intros. unfold u8. by rewrite Z.mod_pow2_bits_low by lia. Qed.

Lemma bm_in_range n p bm : bm_ok n bm → (p < n)%nat → (p / 8 < length bm)%nat.
Proof. intros [H _] Hp. apply Nat.Div0.div_lt_upper_bound. lia. Qed.

Lemma bm_test_set n p q bm :
  bm_ok n bm → (p < n)%nat → bm_test q (bm_set p bm) = bool_decide (q = p) || bm_test q bm.
Proof.
  intros Hok Hp. pose proof (bm_in_range _ _ _ Hok Hp) as Hlt. pose proof (bm_low_bit q) as Hq.
  rewrite !bm_test_bit. unfold bm_set. destruct (decide (q / 8 = p / 8)%nat) as [He|Hne].
  - rewrite He, list_lookup_total_insert_eq by done. rewrite testbit_u8, Z.lor_spec, bm_mask_bit by lia.
    rewrite orb_comm. f_equal. apply bool_decide_ext. split; [|by intros ->].
    intros H. apply bm_same_byte; lia.
  - rewrite list_lookup_total_insert_ne by done. rewrite bool_decide_false; [done|]. by intros ->.
Qed.

Lemma bm_test_clear n p q bm :
  bm_ok n bm → (p < n)%nat → bm_test q (bm_clear p bm) = negb (bool_decide (q = p)) && bm_test q bm.
Proof.
  intros Hok Hp. pose proof (bm_in_range _ _ _ Hok Hp) as Hlt. pose proof (bm_low_bit q) as Hq.
  rewrite !bm_test_bit. unfold bm_clear. destruct (decide (q / 8 = p / 8)%nat) as [He|Hne].
  - rewrite He, list_lookup_total_insert_eq by done. rewrite testbit_u8, Z.land_spec, Z.lnot_spec, bm_mask_bit by lia.
    rewrite andb_comm. f_equal. f_equal. apply bool_decide_ext. split; [|by intros ->].
    intros H. apply bm_same_byte; lia.
  - rewrite list_lookup_total_insert_ne by done. rewrite bool_decide_false; [done|]. by intros ->.
Qed.

Lemma bm_set_ok n p bm : bm_ok n bm → bm_ok n (bm_set p bm).
Proof.
  intros [H1 H2]. split; unfold bm_set; [by rewrite length_insert|].
  apply Forall_insert; [done|]. apply u8_range.
Qed.
Lemma bm_clear_ok n p bm : bm_ok n bm → bm_ok n (bm_clear p bm).
Proof.
  intros [H1 H2]. split; unfold bm_clear; [by rewrite length_insert|].
  apply Forall_insert; [done|]. apply u8_range.
Qed.
#[export] Hint Resolve bm_set_ok bm_clear_ok : limnx.

(** The scan finds the first clear bit, or there is none. *)
Lemma bm_scan_Some n i bm p :
  bm_scan n i bm = Some p ↔
  (i ≤ p < i + n)%nat ∧ bm_test p bm = false ∧ ∀ q, (i ≤ q < p)%nat → bm_test q bm = true.
Proof.
  revert i. induction n as [|n IH]; intros i; cbn [bm_scan].
  { split; [done|]. lia. }
  destruct (bm_test i bm) eqn:Ei.
  - rewrite IH. split.
    + intros (Hr & Hp & Hq). split_and!; [lia..|done|]. intros q Hq'. destruct (decide (q = i)) as [->|]; [done|].
      apply Hq. lia.
    + intros (Hr & Hp & Hq). destruct (decide (p = i)) as [->|]; [congruence|]. split_and!; [lia..|done|].
      intros q Hq'. apply Hq. lia.
  - split.
    + intros [= <-]. split_and!; [lia..|done|]. lia.
    + intros (Hr & Hp & Hq). destruct (decide (p = i)) as [->|]; [done|].
      specialize (Hq i). rewrite Hq in Ei by lia. done.
Qed.

Lemma bm_scan_None n i bm : bm_scan n i bm = None ↔ ∀ q, (i ≤ q < i + n)%nat → bm_test q bm = true.
Proof.
  revert i. induction n as [|n IH]; intros i; cbn [bm_scan].
  { split; [|done]. intros _ q. lia. }
  destruct (bm_test i bm) eqn:Ei.
  - rewrite IH. split.
    + intros H q Hq. destruct (decide (q = i)) as [->|]; [done|]. apply H. lia.
    + intros H q Hq. apply H. lia.
  - split; [done|]. intros H. rewrite H in Ei by lia. done.
Qed.

(** ** Counting *)

Lemma bm_free_agree n bm bm' :
  (∀ p, (p < n)%nat → bm_test p bm' = bm_test p bm) → bm_free n bm' = bm_free n bm.
Proof.
  intros H. unfold bm_free. f_equal. apply filter_ext_in. intros p Hp%elem_of_seq. by rewrite H by lia.
Qed.

(** One bit changes from clear to set. *)
Lemma bm_free_take n p bm bm' :
  (p < n)%nat → bm_test p bm = false → bm_test p bm' = true →
  (∀ q, (q < n)%nat → q ≠ p → bm_test q bm' = bm_test q bm) →
  bm_free n bm = S (bm_free n bm').
Proof.
  intros Hp H0 H1 Hother. unfold bm_free.
  assert (p ∈ seq 0 n) as Hin by (apply elem_of_seq; lia).
  assert (seq 0 n ≡ₚ p :: filter (λ q, q ≠ p) (seq 0 n)) as Hperm.
  { apply NoDup_Permutation; [apply NoDup_seq| |].
    - apply NoDup_cons. split; [|apply NoDup_filter, NoDup_seq]. rewrite list_elem_of_filter. tauto.
    - intros q. rewrite elem_of_cons, list_elem_of_filter. destruct (decide (q = p)) as [->|]; tauto. }
  rewrite Hperm. rewrite filter_cons_True, filter_cons_False by (done || congruence).
  cbn [length]. f_equal. f_equal. apply filter_ext_in. intros q [Hne Hq%elem_of_seq]%list_elem_of_filter.
  by rewrite Hother by (done || lia).
Qed.

Lemma bm_free_set n p bm :
  bm_ok n bm → (p < n)%nat → bm_test p bm = false → bm_free n bm = S (bm_free n (bm_set p bm)).
Proof.
  intros Hok Hp H0. apply (bm_free_take n p); [done..| |].
  - rewrite (bm_test_set n) by done. by rewrite bool_decide_true.
  - intros q Hq Hne. rewrite (bm_test_set n) by done. by rewrite bool_decide_false.
Qed.

Lemma bm_free_clear n p bm :
  bm_ok n bm → (p < n)%nat → bm_test p bm = true → bm_free n (bm_clear p bm) = S (bm_free n bm).
Proof.
  intros Hok Hp H1. apply (bm_free_take n p); [done| |done|].
  - rewrite (bm_test_clear n) by done. by rewrite bool_decide_true.
  - intros q Hq Hne. rewrite (bm_test_clear n) by done. by rewrite bool_decide_false.
Qed.

Lemma bm_free_pos n p bm : (p < n)%nat → bm_test p bm = false → (0 < bm_free n bm)%nat.
Proof.
  intros Hp H0. unfold bm_free. assert (p ∈ filter (λ p, bm_test p bm = false) (seq 0 n)) as Hin.
  { apply list_elem_of_filter. split; [done|]. apply elem_of_seq. lia. }
  destruct (filter _ _); [by apply elem_of_nil in Hin|cbn; lia].
Qed.

Lemma bm_free_zero n bm : bm_free n bm = O ↔ ∀ p, (p < n)%nat → bm_test p bm = true.
Proof.
  split.
  - intros H p Hp. destruct (bm_test p bm) eqn:E; [done|]. pose proof (bm_free_pos n p bm Hp E). lia.
  - intros H. unfold bm_free. destruct (filter _ _) as [|p l] eqn:E; [done|].
    assert (p ∈ filter (λ p, bm_test p bm = false) (seq 0 n)) as [Hf Hp%elem_of_seq]%list_elem_of_filter
      by (rewrite E; by left).
    rewrite H in Hf by lia. done.
Qed.

(** A fresh bitmap. *)
Lemma bm_test_replicate b n p :
  (p < 8 * n)%nat → bm_test p (replicate n b) = Z.testbit b (Z.of_nat (p mod 8)).
Proof.
  intros Hp. rewrite bm_test_bit. rewrite lookup_total_replicate_2; [done|]. apply Nat.Div0.div_lt_upper_bound. lia.
Qed.
