(* ===== verification/Pmm.v ===== *)
(** * Pmm: the physical page allocator

    Models [src/kernel/src/mm/pmm.c]: one bit per page frame (set when in use),
    a 16-bit reference count per frame for copy-on-write sharing, the number of
    free frames and a hint where the next scan starts.

    Page numbers are [nat]; addresses are [Z], [PAGE_SIZE] times a page number,
    and 0 is the failure result (page 0 is reserved).  Of the two versions of
    [pmm_init], the x86-64 one (from the boot loader's memory map) is modelled.

    Proved: the free count always equals the number of clear bits; an
    allocation returns a frame that was free and fails only when none is left;
    what the contiguous allocator finds and what it misses; a frame is freed
    exactly when its last reference goes. *)

From S2P Require Import Prelude Bitmap.

Abbreviation PAGE_SIZE := 4096 (only parsing).

(** ** State *)

Record pmm_st := mk_pmm {
  bitmap : list Z;
  total_pages : nat;
  free_pages : Z;
  refcounts : list Z;
  alloc_hint : nat
}.
#[export] Instance pmm_st_eta : Eta pmm_st := λ s,
  mk_pmm (bitmap s) (total_pages s) (free_pages s) (refcounts s) (alloc_hint s).

Definition page_of (phys_addr : Z) : nat := Z.to_nat (phys_addr / PAGE_SIZE).
Definition addr_of (page : nat) : Z := Z.of_nat page * PAGE_SIZE.

(** ** Operations *)

(** [bitmap_set(i); free_pages--; refcounts[i] = 1]. *)
Definition pmm_take (i : nat) (st : pmm_st) : pmm_st :=
  st <| bitmap := bm_set i (bitmap st) |> <| free_pages := u64 (free_pages st - 1) |>
     <| refcounts := <[i := 1]> (refcounts st) |>.

Definition pmm_alloc_page (st : pmm_st) : Z * pmm_st :=
  match bm_scan (total_pages st - alloc_hint st) (alloc_hint st) (bitmap st) with
  | Some i => (addr_of i, (pmm_take i st) <| alloc_hint := S i |>)
  | None =>
      match bm_scan (alloc_hint st - 1) 1 (bitmap st) with
      | Some i => (addr_of i, (pmm_take i st) <| alloc_hint := S i |>)
      | None => (0, st)
      end
  end.

(** The search for [count] clear bits in a row among the [n] bits from [i] on;
    [run] clear bits from [start] end just before [i]. *)
Fixpoint run_scan (count n i run start : nat) (bm : list Z) : option nat :=
  match n with
  | O => None
  | S n' =>
      if bm_test i bm then run_scan count n' (S i) 0 start bm
      else
        let start := if decide (run = O) then i else start in
        let run := S run in
        if decide (run = count) then Some start
        else run_scan count n' (S i) run start bm
  end.

Definition take_run (start count : nat) (st : pmm_st) : pmm_st :=
  foldl (λ st j, pmm_take j st) st (seq start count).

Definition pmm_alloc_contiguous (count : nat) (st : pmm_st) : Z * pmm_st :=
  if decide (count = O) then (0, st)
  else if decide (count = 1)%nat then pmm_alloc_page st
  else
    let begin := if decide (0 < alloc_hint st)%nat then alloc_hint st else 1%nat in
    let found s := (addr_of s, (take_run s count st) <| alloc_hint := (s + count)%nat |>) in
    match run_scan count (total_pages st - begin) begin 0 0 (bitmap st) with
    | Some s => found s
    | None =>
        if decide (1 < begin)%nat then
          match run_scan count (begin - 1) 1 0 0 (bitmap st) with
          | Some s => found s
          | None => (0, st)
          end
        else (0, st)
    end.

Definition pmm_mark_used (page_num : nat) (st : pmm_st) : pmm_st :=
  if bool_decide (page_num = O) || bool_decide (total_pages st ≤ page_num)%nat then st
  else if bm_test page_num (bitmap st) then st
  else pmm_take page_num st.

(** [None]: the page lies beyond the bitmap, which the code does not check. *)
Definition pmm_free_page (phys_addr : Z) (st : pmm_st) : option pmm_st :=
  let page := page_of phys_addr in
  if decide (page = O) then Some st
  else if decide (8 * length (bitmap st) ≤ page)%nat then None
  else if negb (bm_test page (bitmap st)) then Some st
  else
    rc ← refcounts st !! page;
    if 1 <? rc then Some (st <| refcounts := <[page := rc - 1]> (refcounts st) |>)
    else Some (st <| refcounts := <[page := 0]> (refcounts st) |>
                  <| bitmap := bm_clear page (bitmap st) |>
                  <| free_pages := u64 (free_pages st + 1) |>).

Definition pmm_ref_inc (phys_addr : Z) (st : pmm_st) : pmm_st :=
  let page := page_of phys_addr in
  if bool_decide (0 < page)%nat && bool_decide (page < total_pages st)%nat
  then st <| refcounts := <[page := u16 ((refcounts st !!! page) + 1)]> (refcounts st) |>
  else st.

Definition pmm_ref_dec (phys_addr : Z) (st : pmm_st) : Z * pmm_st :=
  let page := page_of phys_addr in
  if bool_decide (page = O) || bool_decide (total_pages st ≤ page)%nat then (0, st)
  else
    let rc := refcounts st !!! page in
    let rc := if 0 <? rc then rc - 1 else rc in
    (rc, st <| refcounts := <[page := rc]> (refcounts st) |>).

Definition pmm_ref_get (phys_addr : Z) (st : pmm_st) : Z :=
  let page := page_of phys_addr in
  if decide (total_pages st ≤ page)%nat then 0 else refcounts st !!! page.

Definition pmm_get_total_pages (st : pmm_st) : nat := total_pages st.
Definition pmm_get_free_pages (st : pmm_st) : Z := free_pages st.

(** ** Initialisation (x86-64) *)

(** An entry of the boot loader's memory map. *)
Record memmap_entry := mk_mm { mm_base : Z; mm_length : Z; mm_usable : bool }.
#[export] Instance memmap_entry_inhabited : Inhabited memmap_entry := populate (mk_mm 0 0 false).

(** Pass 1. *)
Definition highest_step (h : Z) (e : memmap_entry) : Z :=
  let top := u64 (mm_base e + mm_length e) in if h <? top then top else h.
Definition highest_addr (entries : list memmap_entry) : Z := foldl highest_step 0 entries.

(** Pass 3: a usable region, page by page. *)
Definition pmm_release (st : pmm_st) (p : nat) : pmm_st :=
  st <| bitmap := bm_clear p (bitmap st) |> <| free_pages := u64 (free_pages st + 1) |>.
Definition release_region (st : pmm_st) (e : memmap_entry) : pmm_st :=
  if mm_usable e then
    foldl pmm_release st (seq (page_of (mm_base e)) (page_of (mm_length e)))
  else st.

(** Marking pages in use again: [if (!bitmap_test(p)) { bitmap_set(p);
    free_pages--; }]. *)
Definition pmm_reserve (st : pmm_st) (p : nat) : pmm_st :=
  if bm_test p (bitmap st) then st
  else st <| bitmap := bm_set p (bitmap st) |> <| free_pages := u64 (free_pages st - 1) |>.

(** Round up to a page: [(x + PAGE_SIZE - 1) & ~(PAGE_SIZE - 1)]. *)
Definition page_ceil (x : Z) : Z := Z.land (u64 (x + PAGE_SIZE - 1)) (u64 (Z.lnot (PAGE_SIZE - 1))).

(** [bitmap_size], in bytes. *)
Definition bitmap_size (total : nat) : nat := (total + 7) / 8.

(** Pass 2: the first usable region large enough for the bitmap. *)
Definition bitmap_phys (entries : list memmap_entry) : option Z :=
  let bsize := bitmap_size (page_of (highest_addr entries)) in
  i ← find_idx (λ e, mm_usable e && (Z.of_nat bsize <=? mm_length e)) entries;
  Some (mm_base (entries !!! i)).

(** The pages of the bitmap, and of the reference counts right after it. *)
Definition bitmap_pages (total : nat) (bm_phys : Z) : list nat :=
  let bm_end := page_of (u64 (bm_phys + Z.of_nat (bitmap_size total) + PAGE_SIZE - 1)) in
  seq (page_of bm_phys) (bm_end - page_of bm_phys).
Definition refcount_pages (total : nat) (bm_phys : Z) : list nat :=
  let rc_phys := u64 (bm_phys + page_ceil (Z.of_nat (bitmap_size total))) in
  let rc_end := page_of (u64 (rc_phys + Z.of_nat total * 2 + PAGE_SIZE - 1)) in
  seq (page_of rc_phys) (rc_end - page_of rc_phys).

(** [None]: no region is large enough for the bitmap (the kernel panics). *)
Definition pmm_init (entries : list memmap_entry) : option pmm_st :=
  let total := page_of (highest_addr entries) in
  bm_phys ← bitmap_phys entries;
  let st := mk_pmm (replicate (bitmap_size total) 0xFF) total 0 [] 1 in
  let st := foldl release_region st entries in
  let st := pmm_reserve st 0 in
  let st := foldl pmm_reserve st (bitmap_pages total bm_phys) in
  let st := foldl pmm_reserve st (refcount_pages total bm_phys) in
  Some (st <| refcounts := (λ p, if bool_decide (0 < p)%nat && bm_test p (bitmap st) then 1 else 0)
                             <$> seq 0 total |>).

(** ** Invariant *)

(** The books are balanced. *)
Definition pmm_wf (st : pmm_st) : Prop :=
  bm_ok (total_pages st) (bitmap st) ∧ length (refcounts st) = total_pages st ∧
  Forall (λ r, 0 ≤ r < 2 ^ 16) (refcounts st) ∧
  free_pages st = Z.of_nat (bm_free (total_pages st) (bitmap st)) ∧
  (1 ≤ alloc_hint st ≤ total_pages st)%nat ∧ bm_test 0 (bitmap st) = true ∧
  Z.of_nat (total_pages st) * PAGE_SIZE < 2 ^ 64.

(** The page is free. *)
Definition page_free (st : pmm_st) (p : nat) : Prop := (p < total_pages st)%nat ∧ bm_test p (bitmap st) = false.

(** ** Lemmas *)

Lemma bm_free_le n bm : (bm_free n bm ≤ n)%nat.
Proof. unfold bm_free. etransitivity; [apply length_filter|]. by rewrite length_seq. Qed.

Lemma addr_page p : page_of (addr_of p) = p.
Proof. unfold page_of, addr_of. rewrite Z.div_mul by lia. apply Nat2Z.id. Qed.

Lemma page_free_dec st p : Decision (page_free st p).
Proof. unfold page_free. apply _. Defined.
#[export] Existing Instance page_free_dec.

Lemma pmm_take_test st p q :
  pmm_wf st → (p < total_pages st)%nat →
  bm_test q (bitmap (pmm_take p st)) = bool_decide (q = p) || bm_test q (bitmap st).
Proof. intros (Hok & _) Hp. by apply (bm_test_set (total_pages st)). Qed.

Lemma pmm_take_wf st p : pmm_wf st → page_free st p → pmm_wf (pmm_take p st).
Proof.
  intros Hwf Hp. pose proof Hwf as (Hok & Hl & Hr & Hf & Hh & H0 & Ht). destruct Hp as [Hp Hc].
  pose proof (bm_free_set _ _ _ Hok Hp Hc) as Hfr. pose proof (bm_free_le (total_pages st) (bitmap st)).
  split_and!; cbn [pmm_take field_upd bitmap total_pages free_pages refcounts alloc_hint].
  - by apply bm_set_ok.
  - by rewrite length_insert.
  - apply Forall_insert; [done|lia].
  - rewrite Hf, u64_id by lia. lia.
  - lia.
  - lia.
  - rewrite (bm_test_set (total_pages st)) by done. by rewrite H0, orb_true_r.
  - done.
Qed.

Lemma pmm_take_free st p q :
  pmm_wf st → (p < total_pages st)%nat → page_free (pmm_take p st) q ↔ page_free st q ∧ q ≠ p.
Proof.
  intros Hwf Hp. unfold page_free. change (total_pages (pmm_take p st)) with (total_pages st).
  rewrite (pmm_take_test st p q Hwf Hp). destruct (decide (q = p)) as [->|Hne].
  - rewrite bool_decide_true by done. cbn. naive_solver.
  - rewrite bool_decide_false by done. cbn. naive_solver.
Qed.

Lemma pmm_hint_wf st h : pmm_wf st → (1 ≤ h ≤ total_pages st)%nat → pmm_wf (st <| alloc_hint := h |>).
Proof. intros (Hok & Hl & Hr & Hf & Hh & H0 & Ht) [??]. by split_and!. Qed.

Lemma pmm_free_nonzero st p : pmm_wf st → page_free st p → (0 < p)%nat.
Proof. intros (_ & _ & _ & _ & _ & H0 & _) [_ Hp]. destruct p; [congruence|lia]. Qed.

(** The two scans of [pmm_alloc_page] together: a free page, or none. *)
Lemma pmm_scan_spec st :
  pmm_wf st →
  (∀ i, (bm_scan (total_pages st - alloc_hint st) (alloc_hint st) (bitmap st) = Some i ∨
         bm_scan (alloc_hint st - 1) 1 (bitmap st) = Some i) → page_free st i) ∧
  (bm_scan (total_pages st - alloc_hint st) (alloc_hint st) (bitmap st) = None →
   bm_scan (alloc_hint st - 1) 1 (bitmap st) = None → free_pages st = 0).
Proof.
  intros (Hok & Hl & Hr & Hf & Hh & H0 & Ht). split_and!.
  - intros i [(? & ? & _)%bm_scan_Some|(? & ? & _)%bm_scan_Some]; (split; [lia|done]).
  - rewrite !bm_scan_None. intros H1 H2. rewrite Hf.
    enough (bm_free (total_pages st) (bitmap st) = O) by lia. apply bm_free_zero. intros p Hp.
    destruct (decide (p = O)) as [->|]; [done|]. destruct (decide (p < alloc_hint st)%nat); [apply H2|apply H1]; lia.
Qed.

(** A successful allocation of the pages [P]. *)
Definition allocated (st st' : pmm_st) (P : nat → Prop) : Prop :=
  pmm_wf st' ∧ total_pages st' = total_pages st ∧ (∀ q, P q → page_free st q ∧ (0 < q)%nat) ∧
  (∀ q, page_free st' q ↔ page_free st q ∧ ¬ P q) ∧
  (∀ q, P q → refcounts st' !! q = Some 1) ∧ (∀ q, ¬ P q → refcounts st' !! q = refcounts st !! q).

Lemma pmm_take_allocated st p h :
  pmm_wf st → page_free st p → (1 ≤ h ≤ total_pages st)%nat →
  allocated st ((pmm_take p st) <| alloc_hint := h |>) (λ q, q = p).
Proof.
  intros Hwf Hp Hh. pose proof Hwf as (_ & Hl & _). pose proof Hp as [Hlt _]. split_and!.
  - apply pmm_hint_wf; [by apply pmm_take_wf|done].
  - done.
  - intros q ->. split; [done|]. by apply (pmm_free_nonzero st).
  - intros q. apply (pmm_take_free st p q Hwf Hlt).
  - intros q ->. cbn. apply list_lookup_insert_eq. lia.
  - intros q Hq. cbn. by apply list_lookup_insert_ne.
Qed.

(** [pmm_alloc_page] returns the address of a page that was free, which is then
    the only change: the page is in use with one reference.  It fails, with
    nothing changed, only when no page is free. *)
Theorem pmm_alloc_page_exact st :
  pmm_wf st →
  let '(a, st') := pmm_alloc_page st in
  (∃ p, a = addr_of p ∧ a ≠ 0 ∧ allocated st st' (λ q, q = p) ∧ free_pages st' = free_pages st - 1) ∨
  (a = 0 ∧ st' = st ∧ free_pages st = 0 ∧ ∀ p, ¬ page_free st p).
Proof.
  intros Hwf. destruct (pmm_scan_spec st Hwf) as (Hsome & Hnone). unfold pmm_alloc_page.
  assert (∀ i, page_free st i → ∃ p, addr_of i = addr_of p ∧ addr_of i ≠ 0 ∧
    allocated st ((pmm_take i st) <| alloc_hint := S i |>) (λ q, q = p) ∧
    free_pages ((pmm_take i st) <| alloc_hint := S i |>) = free_pages st - 1) as Hok.
  { intros i Hi. exists i. pose proof (pmm_free_nonzero st i Hwf Hi). pose proof Hi as [Hlt Hc]. split_and!.
    - done.
    - unfold addr_of. lia.
    - apply pmm_take_allocated; [done..|lia].
    - cbn. pose proof Hwf as (_ & _ & _ & Hf & _ & _ & Ht). rewrite Hf.
      pose proof (bm_free_pos _ _ _ Hlt Hc). pose proof (bm_free_le (total_pages st) (bitmap st)).
      apply u64_id. lia. }
  destruct (bm_scan (total_pages st - alloc_hint st) _ _) as [i|] eqn:E1; [left; apply Hok, Hsome; by left|].
  destruct (bm_scan (alloc_hint st - 1) _ _) as [i|] eqn:E2; [left; apply Hok, Hsome; by right|].
  right. split_and!; [done..|by apply Hnone|]. intros p [Hp Hc].
  pose proof Hwf as (_ & _ & _ & Hf & _). rewrite (Hnone eq_refl eq_refl) in Hf.
  pose proof (bm_free_pos _ _ _ Hp Hc). lia.
Qed.

(** ** Contiguous allocation *)

Definition free_run (bm : list Z) (s count : nat) : Prop := ∀ q, (s ≤ q < s + count)%nat → bm_test q bm = false.

(** A clear bit prolongs the run, or starts one. *)
Lemma run_step bm i run start :
  bm_test i bm = false → ((0 < run)%nat → (start + run = i)%nat ∧ free_run bm start run) →
  let s := if decide (run = O) then i else start in
  (s + S run = S i)%nat ∧ free_run bm s (S run).
Proof.
  intros Et Hinv. cbv zeta. case_decide as Hr.
  - subst run. split; [lia|]. intros q Hq. assert (q = i) as -> by lia. done.
  - destruct (Hinv ltac:(lia)) as [? Hf]. split; [lia|]. intros q Hq. destruct (decide (q = i)) as [->|]; [done|].
    apply Hf. lia.
Qed.

Lemma run_scan_Some count n i run start bm s :
  run_scan count n i run start bm = Some s → (run < count)%nat →
  ((0 < run)%nat → (start + run = i)%nat ∧ free_run bm start run) →
  free_run bm s count ∧ (s + count ≤ i + n)%nat ∧ ((run = 0)%nat → (i ≤ s)%nat) ∧ ((0 < run)%nat → (start ≤ s)%nat).
Proof.
  revert i run start. induction n as [|n IH]; intros i run start Hs Hrun Hinv; cbn [run_scan] in Hs; [done|].
  destruct (bm_test i bm) eqn:Et.
  - apply IH in Hs as (? & ? & Hge & _); [|lia|lia]. specialize (Hge eq_refl). split_and!; [done|lia..|].
    intros Hr. destruct (Hinv Hr). lia.
  - set (st := if decide (run = O) then i else start) in *.
    destruct (run_step bm i run start Et Hinv) as [Hst Hfr]. fold st in Hst, Hfr.
    case_decide as Hc.
    + injection Hs as <-. rewrite <-Hc. split_and!; [done|lia| |]; subst st; case_decide; lia.
    + apply IH in Hs as (? & ? & _ & Hge); [|lia|done]. specialize (Hge ltac:(lia)).
      split_and!; [done|lia| |]; subst st; case_decide; lia.
Qed.

Lemma run_scan_None count n i run start bm :
  run_scan count n i run start bm = None → (run < count)%nat →
  ((0 < run)%nat → (start + run = i)%nat ∧ free_run bm start run) →
  ∀ s, (i - run ≤ s)%nat → (s + count ≤ i + n)%nat → ¬ free_run bm s count.
Proof.
  revert i run start. induction n as [|n IH]; intros i run start Hs Hrun Hinv s Hge Hle; cbn [run_scan] in Hs.
  { lia. }
  destruct (bm_test i bm) eqn:Et.
  - intros Hf. destruct (decide (s ≤ i)%nat).
    + specialize (Hf i ltac:(lia)). congruence.
    + by apply (IH (S i) 0%nat start Hs ltac:(lia) ltac:(lia) s ltac:(lia) ltac:(lia)).
  - set (st := if decide (run = O) then i else start) in *.
    destruct (run_step bm i run start Et Hinv) as [Hst Hfr]. fold st in Hst, Hfr.
    case_decide as Hc; [done|]. apply (IH (S i) (S run) st Hs ltac:(lia) ltac:(done) s); lia.
Qed.

Definition in_run (s count q : nat) : Prop := (s ≤ q < s + count)%nat.

Lemma allocated_trans st st1 st2 P Q :
  allocated st st1 P → allocated st1 st2 Q → allocated st st2 (λ q, P q ∨ Q q).
Proof.
  intros (Hw1 & Ht1 & HP1 & Hf1 & Hr1 & Ho1) (Hw2 & Ht2 & HP2 & Hf2 & Hr2 & Ho2). split_and!.
  - done.
  - congruence.
  - intros q [Hq|Hq]; [auto|]. destruct (HP2 q Hq) as [Hfree ?]. split; [|done]. by apply Hf1 in Hfree as [? _].
  - intros q. rewrite Hf2, Hf1. tauto.
  - intros q [Hq|Hq]; [|auto]. rewrite Ho2; [auto|]. intros HQ. apply HP2 in HQ as [Hfree _].
    apply Hf1 in Hfree as [_ Hn]. done.
  - intros q Hq. rewrite Ho2, Ho1; [done|tauto|tauto].
Qed.

Lemma allocated_ext st st' P Q : (∀ q, P q ↔ Q q) → allocated st st' P → allocated st st' Q.
Proof.
  intros H (Hw & Ht & HP & Hf & Hr & Ho). split_and!; [done..| | | |].
  - intros q Hq. by apply HP, H.
  - intros q. rewrite Hf. by rewrite (H q).
  - intros q Hq. by apply Hr, H.
  - intros q Hq. apply Ho. by rewrite (H q).
Qed.

Lemma take_run_allocated st s count :
  pmm_wf st → (s + count ≤ total_pages st)%nat → free_run (bitmap st) s count →
  allocated st (take_run s count st) (in_run s count) ∧
  alloc_hint (take_run s count st) = alloc_hint st ∧
  free_pages (take_run s count st) = free_pages st - Z.of_nat count.
Proof.
  unfold take_run. revert st s. induction count as [|n IH]; intros st s Hwf Hle Hfr; cbn [seq foldl].
  { split_and!; [|done|lia]. unfold allocated, in_run. split_and!; try done; intros q; try lia.
    split; [intros ?; split; [done|lia]|tauto]. }
  assert (page_free st s) as Hs by (split; [lia|apply Hfr; lia]).
  assert (allocated st (pmm_take s st) (λ q, q = s)) as Ha.
  { pose proof Hwf as (_ & _ & _ & _ & Hh & _). pose proof (pmm_take_allocated st s (alloc_hint st) Hwf Hs Hh) as H.
    by destruct st. }
  destruct (IH (pmm_take s st) (S s)) as (Ha' & Hh' & Hfp).
  - by apply Ha.
  - cbn. lia.
  - intros q Hq. rewrite (pmm_take_test st s q Hwf) by (apply Hs). rewrite bool_decide_false by lia. apply Hfr. lia.
  - split_and!.
    + eapply allocated_ext; [|exact (allocated_trans _ _ _ _ _ Ha Ha')]. unfold in_run. intros q. lia.
    + etransitivity; [exact Hh'|done].
    + etransitivity; [exact Hfp|]. cbn. destruct Hs as [Hlt Hc]. pose proof (bm_free_pos _ _ _ Hlt Hc).
      pose proof (bm_free_le (total_pages st) (bitmap st)). pose proof Hwf as (_ & _ & _ & Hf & _ & _ & Ht).
      rewrite Hf, u64_id by lia. lia.
Qed.

(** [pmm_alloc_contiguous] returns the first of [count] consecutive pages that
    were free, which become in use with one reference each.  It fails only when
    there is no such run above the allocation hint and none below it. *)
Theorem pmm_contiguous_exact count st :
  pmm_wf st → (1 < count)%nat →
  let '(a, st') := pmm_alloc_contiguous count st in
  (∃ s, a = addr_of s ∧ a ≠ 0 ∧ (s + count ≤ total_pages st)%nat ∧ allocated st st' (in_run s count) ∧
        free_pages st' = free_pages st - Z.of_nat count) ∨
  (a = 0 ∧ st' = st ∧
   (∀ s, (alloc_hint st ≤ s)%nat → (s + count ≤ total_pages st)%nat → ¬ free_run (bitmap st) s count) ∧
   (∀ s, (1 ≤ s)%nat → (s + count ≤ alloc_hint st)%nat → ¬ free_run (bitmap st) s count)).
Proof.
  intros Hwf Hc. pose proof Hwf as (Hok & _ & _ & _ & Hh & H0 & _). unfold pmm_alloc_contiguous.
  rewrite !decide_False by lia. rewrite decide_True by lia.
  assert (∀ s, (1 ≤ s)%nat → (s + count ≤ total_pages st)%nat → free_run (bitmap st) s count →
    let st' := (take_run s count st) <| alloc_hint := (s + count)%nat |> in
    ∃ s', addr_of s = addr_of s' ∧ addr_of s ≠ 0 ∧ (s' + count ≤ total_pages st)%nat ∧
      allocated st st' (in_run s' count) ∧ free_pages st' = free_pages st - Z.of_nat count) as Hfound.
  { intros s Hs Hle Hfr. destruct (take_run_allocated st s count Hwf Hle Hfr) as ((Hw & Ht & Ha) & _ & Hf).
    exists s. split_and!; [done|unfold addr_of; lia|done| |exact Hf].
    split_and!; [|done|exact (proj1 Ha)|exact (proj1 (proj2 Ha))|apply Ha|apply Ha].
    apply pmm_hint_wf; [done|]. rewrite Ht. lia. }
  destruct (run_scan count (total_pages st - alloc_hint st) _ _ _ _) as [s|] eqn:E1.
  - apply run_scan_Some in E1 as (Hfr & Hle & Hge & _); [|lia|lia]. specialize (Hge eq_refl).
    left. apply Hfound; [lia..|done].
  - pose proof (run_scan_None _ _ _ _ _ _ E1 ltac:(lia) ltac:(lia)) as Hn1. case_decide as Hb.
    + destruct (run_scan count (alloc_hint st - 1) _ _ _ _) as [s|] eqn:E2.
      * apply run_scan_Some in E2 as (Hfr & Hle & Hge & _); [|lia|lia]. specialize (Hge eq_refl).
        left. apply Hfound; [lia..|done].
      * pose proof (run_scan_None _ _ _ _ _ _ E2 ltac:(lia) ltac:(lia)) as Hn2.
        right. split_and!; [done..| |]; intros s ? ?; [apply Hn1|apply Hn2]; lia.
    + right. split_and!; [done..| |]; intros s ? ?; [apply Hn1; lia|lia].
Qed.

(** ** Freeing and sharing *)

(** [pmm_free_page] on a page of the machine.  A page that is free already (a
    double free) and page 0 are left alone; a shared page loses a reference; the
    last reference frees it. *)
Lemma pmm_free_page_cases st p :
  pmm_wf st → (p < total_pages st)%nat →
  ∃ st', pmm_free_page (addr_of p) st = Some st' ∧ pmm_wf st' ∧ total_pages st' = total_pages st ∧
    (if bool_decide (p = O) || negb (bm_test p (bitmap st)) then st' = st
     else if 1 <? refcounts st !!! p
     then refcounts st' = <[p := (refcounts st !!! p) - 1]> (refcounts st) ∧ bitmap st' = bitmap st
     else refcounts st' = <[p := 0]> (refcounts st) ∧ page_free st' p ∧
          (∀ q, q ≠ p → page_free st' q ↔ page_free st q)).
Proof.
  intros Hwf Hp. pose proof Hwf as (Hok & Hl & Hr & Hf & Hh & H0 & Ht). unfold pmm_free_page. rewrite addr_page. cbv zeta.
  destruct (decide (p = O)) as [->|Hnz]; [exists st; by rewrite bool_decide_true|].
  rewrite bool_decide_false by done. cbn [orb].
  rewrite decide_False by (destruct Hok; lia).
  destruct (bm_test p (bitmap st)) eqn:Et; cbn [negb]; [|by exists st].
  destruct (lookup_lt_is_Some_2 (refcounts st) p) as [rc Hrc]; [lia|].
  rewrite Hrc, (list_lookup_total_correct _ _ _ Hrc). cbn [mbind option_bind].
  pose proof (Forall_lookup_1 _ _ _ _ Hr Hrc) as Hrb. cbv beta in Hrb.
  destruct (1 <? rc) eqn:E1; bool_hyps; eexists; (split; [reflexivity|]).
  - split_and!; try done. destruct Hh. split_and!; try done; cbn; [by rewrite length_insert|apply Forall_insert; [done|lia]].
  - pose proof (bm_free_clear _ _ _ Hok Hp Et) as Hfc.
    pose proof (bm_free_le (total_pages st) (bm_clear p (bitmap st))).
    assert (∀ q, bm_test q (bm_clear p (bitmap st)) = negb (bool_decide (q = p)) && bm_test q (bitmap st)) as Hb
      by (intros q; by apply (bm_test_clear (total_pages st))).
    split_and!; try done.
    + destruct Hh. split_and!; cbn [field_upd bitmap total_pages free_pages refcounts alloc_hint]; try done.
      * by apply bm_clear_ok.
      * by rewrite length_insert.
      * apply Forall_insert; [done|lia].
      * rewrite Hf, u64_id by lia. lia.
      * rewrite Hb, bool_decide_false by lia. done.
    + split; [done|]. cbn [field_upd bitmap]. by rewrite Hb, bool_decide_true.
    + intros q Hq. unfold page_free. cbn [field_upd bitmap total_pages]. rewrite Hb, bool_decide_false by done. done.
Qed.

(** [n] calls of [pmm_free_page] on one page. *)
Fixpoint free_n (n : nat) (p : nat) (st : pmm_st) : option pmm_st :=
  match n with
  | O => Some st
  | S n' => st' ← pmm_free_page (addr_of p) st; free_n n' p st'
  end.

Fixpoint ref_n (n : nat) (p : nat) (st : pmm_st) : pmm_st :=
  match n with
  | O => st
  | S n' => pmm_ref_inc (addr_of p) (ref_n n' p st)
  end.

Lemma pmm_ref_inc_wf st p : pmm_wf st → pmm_wf (pmm_ref_inc (addr_of p) st).
Proof.
  intros (Hok & Hl & Hr & Hf & [Hh1 Hh2] & H0 & Ht). unfold pmm_ref_inc. cbv zeta. case_match; [|by split_and!].
  split_and!; cbn; try done; [by rewrite length_insert|]. apply Forall_insert; [done|apply u16_range].
Qed.

(** Taking [n] more references. *)
Lemma ref_n_spec n st p rc :
  pmm_wf st → (0 < p < total_pages st)%nat → refcounts st !! p = Some rc → rc + Z.of_nat n < 2 ^ 16 →
  let st' := ref_n n p st in
  pmm_wf st' ∧ total_pages st' = total_pages st ∧ bitmap st' = bitmap st ∧ refcounts st' !! p = Some (rc + Z.of_nat n).
Proof.
  intros Hwf Hp Hrc. induction n as [|n IH]; intros Hn; cbn [ref_n].
  { rewrite Z.add_0_r. done. }
  destruct IH as (Hw & Ht & Hb & Hr); [lia|]. set (st1 := ref_n n p st) in *. clearbody st1.
  split; [by apply pmm_ref_inc_wf|]. unfold pmm_ref_inc. rewrite addr_page. cbv zeta.
  rewrite (bool_decide_true (0 < p)%nat), (bool_decide_true (p < total_pages st1)%nat) by lia.
  cbn [andb]. split_and!; [done..|].
  cbn. pose proof Hw as (_ & _ & Hf & _). pose proof (Forall_lookup_1 _ _ _ _ Hf Hr) as Hb'. cbv beta in Hb'.
  rewrite list_lookup_insert_eq by (by eapply lookup_lt_Some).
  rewrite (list_lookup_total_correct _ _ _ Hr), u16_id by lia. f_equal. lia.
Qed.

(** Dropping [n] of more than [n] references. *)
Lemma free_n_shared n st p rc :
  pmm_wf st → (0 < p < total_pages st)%nat → bm_test p (bitmap st) = true → refcounts st !! p = Some rc →
  Z.of_nat n < rc →
  ∃ st', free_n n p st = Some st' ∧ pmm_wf st' ∧ total_pages st' = total_pages st ∧ bitmap st' = bitmap st ∧
    refcounts st' !! p = Some (rc - Z.of_nat n).
Proof.
  revert st rc. induction n as [|n IH]; intros st rc Hwf Hp Ht Hrc Hn; cbn [free_n].
  { exists st. rewrite Z.sub_0_r. done. }
  destruct (pmm_free_page_cases st p Hwf) as (st1 & -> & Hw1 & Ht1 & Hc); [lia|]. cbn [mbind option_bind].
  rewrite bool_decide_false, Ht in Hc by lia. cbn [orb negb] in Hc.
  rewrite (list_lookup_total_correct _ _ _ Hrc), (proj2 (Z.ltb_lt 1 rc)) in Hc by lia. destruct Hc as [Hr1 Hb1].
  pose proof (lookup_lt_Some _ _ _ Hrc) as Hl.
  destruct (IH st1 (rc - 1)) as (st2 & Hf & Hw2 & Ht2 & Hb2 & Hr2).
  - done.
  - lia.
  - congruence.
  - rewrite Hr1. by apply list_lookup_insert_eq.
  - lia.
  - exists st2. split_and!; [done..|congruence|congruence|]. rewrite Hr2. f_equal. lia.
Qed.

(** A page in use with one reference that gets [n] more (as when [n] address
    spaces share it copy-on-write) survives [n] frees and is freed by the
    next one, as long as the 16-bit count does not overflow. *)
Theorem pmm_last_reference st p n :
  pmm_wf st → (0 < p < total_pages st)%nat → bm_test p (bitmap st) = true → refcounts st !! p = Some 1 →
  Z.of_nat n < 2 ^ 16 - 1 →
  ∃ st1 st2, free_n n p (ref_n n p st) = Some st1 ∧ bm_test p (bitmap st1) = true ∧
    pmm_free_page (addr_of p) st1 = Some st2 ∧ page_free st2 p ∧
    (∀ q, q ≠ p → page_free st2 q ↔ page_free st q) ∧ free_pages st2 = free_pages st + 1.
Proof.
  intros Hwf Hp Ht Hrc Hn. destruct (ref_n_spec n st p 1 Hwf Hp Hrc ltac:(lia)) as (Hw0 & Ht0 & Hb0 & Hr0).
  destruct (free_n_shared n (ref_n n p st) p (1 + Z.of_nat n)) as (st1 & Hf & Hw1 & Ht1 & Hb1 & Hr1); [done|lia|congruence|done|lia|].
  replace (1 + Z.of_nat n - Z.of_nat n) with 1 in Hr1 by lia.
  destruct (pmm_free_page_cases st1 p Hw1) as (st2 & Hf2 & Hw2 & Ht2 & Hc); [lia|].
  assert (bm_test p (bitmap st1) = true) as Htt by congruence.
  rewrite bool_decide_false, Htt in Hc by lia. cbn [orb negb] in Hc.
  rewrite (list_lookup_total_correct _ _ _ Hr1) in Hc. change (1 <? 1) with false in Hc. destruct Hc as (_ & Hfr & Ho).
  assert (∀ q, page_free st1 q ↔ page_free st q) as Hsame.
  { intros q. unfold page_free. by rewrite Hb1, Hb0, Ht1, Ht0. }
  exists st1, st2. split_and!; [done..| |].
  - intros q Hq. by rewrite Ho, Hsame.
  - destruct Hw2 as (_ & _ & _ & -> & _). destruct Hwf as (_ & _ & _ & -> & _). destruct Hfr as [_ Hfr].
    rewrite Ht2, Ht1, Ht0. rewrite (bm_free_take (total_pages st) p (bitmap st2) (bitmap st)); [lia|lia|done|done|].
    intros q Hq Hne. specialize (Ho q Hne). rewrite Hsame in Ho. unfold page_free in Ho. rewrite Ht2, Ht1, Ht0 in Ho.
    destruct (bm_test q (bitmap st)), (bm_test q (bitmap st2)); naive_solver.
Qed.

(** ** Initialisation *)

(** The bookkeeping of the bitmap alone, before the counts exist. *)
Definition pmm_books (st : pmm_st) : Prop :=
  bm_ok (total_pages st) (bitmap st) ∧ free_pages st = Z.of_nat (bm_free (total_pages st) (bitmap st)) ∧
  Z.of_nat (total_pages st) * PAGE_SIZE < 2 ^ 64.

Lemma pmm_reserve_books st p :
  pmm_books st → (p < total_pages st)%nat →
  let st' := pmm_reserve st p in
  pmm_books st' ∧ total_pages st' = total_pages st ∧ alloc_hint st' = alloc_hint st ∧
  ∀ q, bm_test q (bitmap st') = bool_decide (q = p) || bm_test q (bitmap st).
Proof.
  intros (Hok & Hf & Ht) Hp. unfold pmm_reserve. cbv zeta. destruct (bm_test p (bitmap st)) eqn:Et.
  - split_and!; try done. intros q. destruct (decide (q = p)) as [->|]; [by rewrite bool_decide_true, Et|].
    by rewrite bool_decide_false.
  - pose proof (bm_free_set _ _ _ Hok Hp Et). pose proof (bm_free_le (total_pages st) (bitmap st)).
    split_and!; try done.
    + split_and!; cbn [field_upd bitmap total_pages free_pages]; [by apply bm_set_ok| |done].
      rewrite Hf, u64_id by lia. lia.
    + intros q. by apply (bm_test_set (total_pages st)).
Qed.

Lemma pmm_reserve_all st l :
  pmm_books st → Forall (λ p, (p < total_pages st)%nat) l →
  let st' := foldl pmm_reserve st l in
  pmm_books st' ∧ total_pages st' = total_pages st ∧ alloc_hint st' = alloc_hint st ∧
  ∀ q, bm_test q (bitmap st') = bool_decide (q ∈ l) || bm_test q (bitmap st).
Proof.
  revert st. induction l as [|p l IH]; intros st Hb Hl; cbn [foldl]; [done|].
  apply Forall_cons in Hl as [Hp Hl]. destruct (pmm_reserve_books st p Hb Hp) as (Hb1 & Ht1 & Hh1 & Hq1).
  destruct (IH (pmm_reserve st p) Hb1) as (Hb2 & Ht2 & Hh2 & Hq2); [by rewrite Ht1|].
  split_and!; [done|congruence|congruence|]. intros q. rewrite Hq2, Hq1, orb_assoc. f_equal.
  rewrite orb_comm, <-bool_decide_or. apply bool_decide_ext. by rewrite elem_of_cons.
Qed.

Lemma pmm_release_all st l :
  pmm_books st → Forall (λ p, (p < total_pages st)%nat) l → NoDup l → Forall (λ p, bm_test p (bitmap st) = true) l →
  let st' := foldl pmm_release st l in
  pmm_books st' ∧ total_pages st' = total_pages st ∧ alloc_hint st' = alloc_hint st ∧
  ∀ q, bm_test q (bitmap st') = negb (bool_decide (q ∈ l)) && bm_test q (bitmap st).
Proof.
  revert st. induction l as [|p l IH]; intros st Hb Hl Hnd Hu; cbn [foldl]; [done|].
  apply Forall_cons in Hl as [Hp Hl]. apply NoDup_cons in Hnd as [Hpl Hnd]. apply Forall_cons in Hu as [Hup Hu].
  destruct Hb as (Hok & Hf & Ht). set (st1 := pmm_release st p).
  pose proof (bm_free_clear _ _ _ Hok Hp Hup). pose proof (bm_free_le (total_pages st) (bm_clear p (bitmap st))).
  assert (∀ q, bm_test q (bitmap st1) = negb (bool_decide (q = p)) && bm_test q (bitmap st)) as Hq1
    by (intros q; by apply (bm_test_clear (total_pages st))).
  destruct (IH st1) as (Hb2 & Ht2 & Hh2 & Hq2).
  - split_and!; cbn [st1 pmm_release field_upd bitmap total_pages free_pages]; [by apply bm_clear_ok| |done].
    rewrite Hf, u64_id by lia. lia.
  - done.
  - done.
  - apply Forall_forall. intros q Hq. rewrite Hq1. rewrite bool_decide_false by (intros ->; done).
    by apply (proj1 (Forall_forall _ _) Hu).
  - split_and!; [done|done|done|]. intros q. rewrite Hq2, Hq1, andb_assoc, <-negb_orb. f_equal. f_equal.
    rewrite orb_comm, <-bool_decide_or. apply bool_decide_ext. by rewrite elem_of_cons.
Qed.

(** The pages of the usable regions, in the order of the map. *)
Definition region_pages (e : memmap_entry) : list nat :=
  if mm_usable e then seq (page_of (mm_base e)) (page_of (mm_length e)) else [].
Definition usable_pages (entries : list memmap_entry) : list nat := mjoin (region_pages <$> entries).

Lemma release_regions entries st :
  foldl release_region st entries = foldl pmm_release st (usable_pages entries).
Proof.
  revert st. induction entries as [|e entries IH]; intros st; [done|].
  unfold usable_pages. cbn [foldl fmap list_fmap mjoin list_join]. rewrite foldl_app, IH. f_equal.
  unfold release_region, region_pages. by destruct (mm_usable e).
Qed.

(** A sane memory map: addresses and lengths of 64 bits, no page in two usable
    regions. *)
Definition memmap_ok (entries : list memmap_entry) : Prop :=
  Forall (λ e, 0 ≤ mm_base e ∧ 0 ≤ mm_length e ∧ mm_base e + mm_length e < 2 ^ 64) entries ∧
  NoDup (usable_pages entries).

Lemma highest_addr_spec entries :
  Forall (λ e, 0 ≤ mm_base e ∧ 0 ≤ mm_length e ∧ mm_base e + mm_length e < 2 ^ 64) entries →
  0 ≤ highest_addr entries < 2 ^ 64 ∧ ∀ e, e ∈ entries → mm_base e + mm_length e ≤ highest_addr entries.
Proof.
  intros Hall. unfold highest_addr.
  enough (∀ h, 0 ≤ h < 2 ^ 64 → h ≤ foldl highest_step h entries < 2 ^ 64 ∧
    ∀ e, e ∈ entries → mm_base e + mm_length e ≤ foldl highest_step h entries) as H.
  { destruct (H 0 ltac:(lia)) as [? ?]. split; [lia|done]. }
  induction Hall as [|e entries He _ IH]; intros h Hh; cbn [foldl].
  { split; [lia|]. by intros e ?%elem_of_nil. }
  set (h1 := highest_step h e).
  assert (h ≤ h1 < 2 ^ 64 ∧ mm_base e + mm_length e ≤ h1) as [Hh1 Hle].
  { unfold h1, highest_step. rewrite u64_id by lia. destruct (h <? _) eqn:E; bool_hyps; lia. }
  destruct (IH h1 ltac:(lia)) as [Hr Hall']. split; [lia|]. intros x [->|Hx]%elem_of_cons; [lia|auto].
Qed.

Lemma usable_pages_lt entries p :
  Forall (λ e, 0 ≤ mm_base e ∧ 0 ≤ mm_length e ∧ mm_base e + mm_length e < 2 ^ 64) entries →
  p ∈ usable_pages entries → (p < page_of (highest_addr entries))%nat.
Proof.
  intros Hall Hp. destruct (highest_addr_spec _ Hall) as [Hh Hle]. unfold usable_pages in Hp.
  apply list_elem_of_join in Hp as (l & Hp & (e & -> & He)%list_elem_of_fmap).
  unfold region_pages in Hp. destruct (mm_usable e); [|by apply elem_of_nil in Hp]. apply elem_of_seq in Hp.
  specialize (Hle e He). pose proof (proj1 (Forall_forall _ _) Hall e He) as (? & ? & ?). cbv beta in *.
  unfold page_of in *. pose proof (Z.div_pos (mm_base e) PAGE_SIZE). pose proof (Z.div_pos (mm_length e) PAGE_SIZE).
  assert (mm_base e / PAGE_SIZE + mm_length e / PAGE_SIZE ≤ highest_addr entries / PAGE_SIZE); [|lia].
  apply Z.div_le_lower_bound; [lia|]. pose proof (Z.mul_div_le (mm_base e) PAGE_SIZE).
  pose proof (Z.mul_div_le (mm_length e) PAGE_SIZE). lia.
Qed.

Lemma bitmap_size_ok total : bm_ok total (replicate (bitmap_size total) 0xFF).
Proof.
  split; [|by apply Forall_replicate; lia]. rewrite length_replicate. unfold bitmap_size.
  pose proof (Nat.div_mod_eq (total + 7) 8). pose proof (Nat.mod_upper_bound (total + 7) 8). lia.
Qed.

Lemma bitmap_full total p : (p < total)%nat → bm_test p (replicate (bitmap_size total) 0xFF) = true.
Proof.
  intros Hp. rewrite bm_test_replicate.
  - assert (∀ k, (k < 8)%nat → Z.testbit 0xFF (Z.of_nat k) = true) as H.
    { intros k Hk. do 8 (destruct k as [|k]; [done|]). lia. }
    apply H. apply Nat.mod_upper_bound. lia.
  - unfold bitmap_size. pose proof (Nat.div_mod_eq (total + 7) 8). pose proof (Nat.mod_upper_bound (total + 7) 8). lia.
Qed.

(** After initialisation the books are balanced, and the free pages are exactly
    the usable ones except page 0 and the pages that hold the bitmap and the
    reference counts, provided these fit below the end of memory (which the
    code does not check for the counts). *)
Theorem pmm_init_exact entries bm_phys :
  memmap_ok entries → bitmap_phys entries = Some bm_phys →
  let total := page_of (highest_addr entries) in
  (0 < total)%nat →
  Forall (λ p, (p < total)%nat) (bitmap_pages total bm_phys ++ refcount_pages total bm_phys) →
  ∃ st, pmm_init entries = Some st ∧ pmm_wf st ∧ total_pages st = total ∧
    ∀ p, page_free st p ↔ p ∈ usable_pages entries ∧ p ≠ O ∧
      (p ∉ bitmap_pages total bm_phys) ∧ (p ∉ refcount_pages total bm_phys).
Proof.
  intros [Hall Hnd] Hbp total Ht [Hbm Hrc]%Forall_app. destruct (highest_addr_spec _ Hall) as [Hh _].
  unfold pmm_init. rewrite Hbp. cbn [mbind option_bind]. cbv zeta. fold total. rewrite release_regions.
  set (st0 := mk_pmm _ total 0 [] 1).
  assert (pmm_books st0) as Hb0.
  { split_and!; cbn [st0 bitmap total_pages free_pages].
    - apply bitmap_size_ok.
    - rewrite (proj2 (bm_free_zero _ _)); [done|]. intros p Hp. by apply bitmap_full.
    - unfold total, page_of. pose proof (Z.mul_div_le (highest_addr entries) PAGE_SIZE).
      pose proof (Z.div_pos (highest_addr entries) PAGE_SIZE). lia. }
  destruct (pmm_release_all st0 (usable_pages entries) Hb0) as (Hb1 & Ht1 & Hh1 & Hq1).
  { apply Forall_forall. intros p. by apply usable_pages_lt. }
  { done. }
  { apply Forall_forall. intros p Hp. apply bitmap_full. by apply usable_pages_lt. }
  set (st1 := foldl pmm_release st0 _) in *. cbn [st0 total_pages bitmap alloc_hint] in Ht1, Hq1, Hh1.
  destruct (pmm_reserve_books st1 0 Hb1) as (Hb2 & Ht2 & Hh2 & Hq2); [lia|]. set (st2 := pmm_reserve st1 0) in *.
  destruct (pmm_reserve_all st2 (bitmap_pages total bm_phys) Hb2) as (Hb3 & Ht3 & Hh3 & Hq3);
    [by rewrite Ht2, Ht1|]. set (st3 := foldl pmm_reserve st2 _) in *.
  destruct (pmm_reserve_all st3 (refcount_pages total bm_phys) Hb3) as (Hb4 & Ht4 & Hh4 & Hq4);
    [by rewrite Ht3, Ht2, Ht1|]. set (st4 := foldl pmm_reserve st3 _) in *.
  assert (total_pages st4 = total) as Htot by congruence. clearbody st1 st2 st3 st4.
  eexists. split; [reflexivity|]. split_and!.
  - destruct Hb4 as (Hok & Hf & Hlt). rewrite <-Htot.
    split_and!; cbn [field_upd bitmap total_pages free_pages refcounts alloc_hint]; try done; try lia.
    + by rewrite length_fmap, length_seq.
    + apply Forall_fmap, Forall_true. intros p. cbn. case_match; lia.
    + rewrite Hq4, Hq3, Hq2, (bool_decide_true (0 = 0)%nat) by done. cbn [orb]. by rewrite !orb_true_r.
  - exact Htot.
  - intros p. unfold page_free. cbn [field_upd bitmap total_pages]. rewrite Htot, Hq4, Hq3, Hq2, Hq1.
    rewrite !orb_false_iff, andb_false_iff, negb_false_iff, !bool_decide_eq_false, bool_decide_eq_true. split.
    + intros (Hp & ? & ? & ? & [?|Hf]); [done|]. by rewrite bitmap_full in Hf.
    + intros (Hu & ? & ? & ?). split_and!; try done; [by apply usable_pages_lt|by left].
Qed.

(** ** Samples *)

(** A machine of 16 pages; the bitmap and the counts take pages 1 and 2. *)
Definition pmm_map : list memmap_entry := [mk_mm 0 4096 false; mk_mm 4096 61440 true].
Definition pmm_boot : pmm_st := Eval vm_compute in default (mk_pmm [] 0 0 [] 0) (pmm_init pmm_map).

#[export] Instance pmm_wf_dec st : Decision (pmm_wf st).
Proof. unfold pmm_wf, bm_ok. apply _. Defined.

Lemma pmm_boot_wf : pmm_wf pmm_boot.
Proof. apply (bool_decide_unpack _). by vm_compute. Qed.

Lemma pmm_init_exact_witness :
  memmap_ok pmm_map ∧ bitmap_phys pmm_map = Some 4096 ∧
  ∃ st, pmm_init pmm_map = Some st ∧ pmm_wf st ∧ total_pages st = 16%nat ∧
    ∀ p, page_free st p ↔ p ∈ usable_pages pmm_map ∧ p ≠ O ∧
      (p ∉ bitmap_pages 16 4096) ∧ (p ∉ refcount_pages 16 4096).
Proof.
  assert (memmap_ok pmm_map) as Hok.
  { split; [repeat constructor; cbn; lia|]. apply (bool_decide_unpack _). by vm_compute. }
  split; [exact Hok|]. split; [by vm_compute|].
  apply (pmm_init_exact pmm_map 4096 Hok); [by vm_compute|vm_compute; lia|].
  apply (bool_decide_unpack _). by vm_compute.
Defined.

Lemma pmm_alloc_page_exact_witness :
  pmm_wf pmm_boot ∧ (pmm_alloc_page pmm_boot).1 = 12288 ∧
  (let '(a, st') := pmm_alloc_page pmm_boot in
   (∃ p, a = addr_of p ∧ a ≠ 0 ∧ allocated pmm_boot st' (λ q, q = p) ∧ free_pages st' = free_pages pmm_boot - 1) ∨
   (a = 0 ∧ st' = pmm_boot ∧ free_pages pmm_boot = 0 ∧ ∀ p, ¬ page_free pmm_boot p)).
Proof.
  split; [exact pmm_boot_wf|]. split; [by vm_compute|]. exact (pmm_alloc_page_exact pmm_boot pmm_boot_wf).
Defined.

Lemma pmm_contiguous_exact_witness :
  (pmm_alloc_contiguous 4 pmm_boot).1 = 12288 ∧
  (let '(a, st') := pmm_alloc_contiguous 4 pmm_boot in
   (∃ s, a = addr_of s ∧ a ≠ 0 ∧ (s + 4 ≤ total_pages pmm_boot)%nat ∧ allocated pmm_boot st' (in_run s 4) ∧
      free_pages st' = free_pages pmm_boot - Z.of_nat 4) ∨
   (a = 0 ∧ st' = pmm_boot ∧
    (∀ s, (alloc_hint pmm_boot ≤ s)%nat → (s + 4 ≤ total_pages pmm_boot)%nat → ¬ free_run (bitmap pmm_boot) s 4) ∧
    (∀ s, (1 ≤ s)%nat → (s + 4 ≤ alloc_hint pmm_boot)%nat → ¬ free_run (bitmap pmm_boot) s 4))).
Proof.
  split; [by vm_compute|]. apply (pmm_contiguous_exact 4 pmm_boot pmm_boot_wf). lia.
Defined.

(** Page 3 in use with one reference. *)
Definition pmm_one : pmm_st := Eval vm_compute in (pmm_alloc_page pmm_boot).2.
Lemma pmm_one_wf : pmm_wf pmm_one.
Proof. apply (bool_decide_unpack _). by vm_compute. Qed.

Lemma pmm_last_reference_witness :
  pmm_wf pmm_one ∧ bm_test 3 (bitmap pmm_one) = true ∧ refcounts pmm_one !! 3%nat = Some 1 ∧
  ∃ st1 st2, free_n 5 3 (ref_n 5 3 pmm_one) = Some st1 ∧ bm_test 3 (bitmap st1) = true ∧
    pmm_free_page (addr_of 3) st1 = Some st2 ∧ page_free st2 3 ∧
    (∀ q, q ≠ 3%nat → page_free st2 q ↔ page_free pmm_one q) ∧ free_pages st2 = free_pages pmm_one + 1.
Proof.
  split; [exact pmm_one_wf|]. split; [by vm_compute|]. split; [by vm_compute|].
  apply (pmm_last_reference pmm_one 3 5 pmm_one_wf); [cbn; lia|by vm_compute|by vm_compute|lia].
Defined.

(** ** Where the code falls short *)

(** A run of free pages across the allocation hint is not found: with every
    page but the bookkeeping pages free and the hint in the middle, 8 pages in
    a row exist and the allocator reports that they do not. *)
Theorem pmm_contiguous_misses :
  let st := pmm_boot <| alloc_hint := 9%nat |> in
  pmm_wf st ∧ (∀ q, in_run 5 8 q → page_free st q) ∧ pmm_alloc_contiguous 8 st = (0, st).
Proof.
  cbv zeta. split_and!; [apply (bool_decide_unpack _); by vm_compute| |by vm_compute].
  unfold in_run. intros q Hq. apply (bool_decide_unpack _).
  do 13 (destruct q as [|q]; [try lia; by vm_compute|]). lia.
Qed.

(** The reference count wraps at 16 bits: the page with 65535 references that
    gets one more counts none, and the next single free releases it while
    65535 references remain. *)
Theorem pmm_refcount_wraps :
  let st := pmm_one <| refcounts := <[3%nat := 65535]> (refcounts pmm_one) |> in
  let st1 := pmm_ref_inc (addr_of 3) st in
  pmm_wf st1 ∧ pmm_ref_get (addr_of 3) st1 = 0 ∧
  ∃ st2, pmm_free_page (addr_of 3) st1 = Some st2 ∧ page_free st2 3.
Proof.
  cbv zeta. split_and!; [apply (bool_decide_unpack _); by vm_compute|by vm_compute|].
  eexists. split; [by vm_compute|]. apply (bool_decide_unpack _). by vm_compute.
Qed.
