(* ===== verification/Mem.v ===== *)
(** * Mem: byte-addressed memory

    The memory that the heap ([mm/kheap.c]), the page tables ([mm/vmm.c]) and
    the swap code ([mm/swap.c]) read and write through casts of integers to
    pointers: bytes by address, 64-bit words in little-endian order, and the
    byte loops ([heap_memcpy], the zeroing of a page) of these files.

    A cell that was never written reads as 0; no theorem depends on that. *)

From stdpp Require Export gmap.
From S2P Require Import Prelude.

#[global] Open Scope Z_scope.

Abbreviation mem := (gmap Z Z).

Definition byte_at (m : mem) (a : Z) : Z := default 0 (m !! a).

(** The little-endian bytes of a word, and the word of some bytes. *)
Fixpoint le_bytes (n : nat) (v : Z) : list Z :=
  match n with
  | O => []
  | S n' => v mod 256 :: le_bytes n' (v / 256)
  end.

Definition le_val (bs : list Z) : Z := foldr (λ b acc, b + 256 * acc) 0 bs.

(** [p[0] = b0; p[1] = b1; ...] and [p[0], p[1], ..., p[n - 1]]. *)
Fixpoint store_bytes (m : mem) (a : Z) (bs : list Z) : mem :=
  match bs with
  | [] => m
  | b :: bs' => store_bytes (<[a := b]> m) (a + 1) bs'
  end.

Definition load_bytes (m : mem) (a : Z) (n : nat) : list Z :=
  (λ i, byte_at m (a + Z.of_nat i)) <$> seq 0 n.

Definition load64 (m : mem) (a : Z) : Z := le_val (load_bytes m a 8).
Definition store64 (m : mem) (a : Z) (v : Z) : mem := store_bytes m a (le_bytes 8 v).

(** [for (i = 0; i < n; i++) d[i] = s[i]]: byte by byte, so that an overlap of
    the two areas shows. *)
Fixpoint copy_loop (n : nat) (d s : Z) (m : mem) : mem :=
  match n with
  | O => m
  | S n' => copy_loop n' (d + 1) (s + 1) (<[d := byte_at m s]> m)
  end.

(** ** Words *)

Lemma le_bytes_length n v : length (le_bytes n v) = n.
Proof. revert v. induction n; intros v; simpl; [done|]. by rewrite IHn. Qed.

Lemma le_val_bytes n v : le_val (le_bytes n v) = v mod 256 ^ Z.of_nat n.
Proof.
  revert v. induction n as [|n IH]; intros v; [by rewrite Z.mod_1_r|].
  cbn [le_bytes le_val foldr]. change (foldr _ 0 ?l) with (le_val l). rewrite IH.
  replace (Z.of_nat (S n)) with (1 + Z.of_nat n) by lia.
  rewrite Z.pow_add_r, Z.pow_1_r, Z.rem_mul_r by lia. done.
Qed.

Lemma le_bytes_range n v : Forall (λ b, 0 ≤ b < 256) (le_bytes n v).
Proof.
  revert v. induction n as [|n IH]; intros v; simpl; [done|].
  constructor; [by apply Z.mod_pos_bound|apply IH].
Qed.

Lemma le_val_range bs :
  Forall (λ b, 0 ≤ b < 256) bs → 0 ≤ le_val bs < 256 ^ Z.of_nat (length bs).
Proof.
  induction 1 as [|b bs ? _ IH]; [done|]. cbn [le_val foldr].
  change (foldr _ 0 ?l) with (le_val l).
  cbn [length]. replace (Z.of_nat (S (length bs))) with (1 + Z.of_nat (length bs)) by lia.
  rewrite Z.pow_add_r, Z.pow_1_r by lia. lia.
Qed.

Lemma le_bytes_val bs :
  Forall (λ b, 0 ≤ b < 256) bs → le_bytes (length bs) (le_val bs) = bs.
Proof.
  induction 1 as [|b bs Hb _ IH]; [done|]. cbn [le_val foldr length le_bytes].
  change (foldr _ 0 ?l) with (le_val l). rewrite (Z.mul_comm 256).
  rewrite Z.mod_add, Z.mod_small, Z.div_add, Z.div_small, Z.add_0_l, IH by lia. done.
Qed.

(** ** Loads after stores *)

Lemma byte_at_insert m a b v :
  byte_at (<[a := v]> m) b = if decide (a = b) then v else byte_at m b.
Proof.
  unfold byte_at. destruct (decide (a = b)) as [->|].
  - by rewrite lookup_insert_eq.
  - by rewrite lookup_insert_ne by done.
Qed.

Lemma byte_at_store m a bs b :
  byte_at (store_bytes m a bs) b =
  if decide (a ≤ b < a + Z.of_nat (length bs)) then bs !!! Z.to_nat (b - a) else byte_at m b.
Proof.
  revert m a. induction bs as [|v bs IH]; intros m a; simpl.
  { by rewrite decide_False by lia. }
  rewrite IH, byte_at_insert. clear IH. destruct (decide (a = b)) as [->|].
  - rewrite decide_False by lia. rewrite decide_True by lia.
    by replace (Z.to_nat (b - b)) with O by lia.
  - destruct (decide (a + 1 ≤ b < a + 1 + Z.of_nat (length bs))).
    + rewrite decide_True by lia.
      by replace (Z.to_nat (b - a)) with (S (Z.to_nat (b - (a + 1)))) by lia.
    + by rewrite decide_False by lia.
Qed.

Lemma byte_at_store_ne m a bs b :
  b < a ∨ a + Z.of_nat (length bs) ≤ b → byte_at (store_bytes m a bs) b = byte_at m b.
Proof. intros ?. rewrite byte_at_store, decide_False by lia. done. Qed.

Lemma load_bytes_length m a n : length (load_bytes m a n) = n.
Proof. unfold load_bytes. by rewrite length_fmap, length_seq. Qed.

Lemma load_bytes_lookup m a n i :
  (i < n)%nat → load_bytes m a n !! i = Some (byte_at m (a + Z.of_nat i)).
Proof.
  intros ?. unfold load_bytes. rewrite list_lookup_fmap, lookup_seq_lt by done. done.
Qed.

(** A load sees only the bytes it loads. *)
Lemma load_bytes_ext m m' a n :
  (∀ b, a ≤ b < a + Z.of_nat n → byte_at m b = byte_at m' b) →
  load_bytes m a n = load_bytes m' a n.
Proof.
  intros Heq. apply list_fmap_ext. intros i j Hj. apply lookup_seq in Hj as [-> ?].
  apply Heq. lia.
Qed.

Lemma load_store_bytes_eq m a bs : load_bytes (store_bytes m a bs) a (length bs) = bs.
Proof.
  apply list_eq_same_length with (length bs); [done|by rewrite load_bytes_length|].
  intros i x y Hi Hx Hy. rewrite load_bytes_lookup in Hx by done.
  rewrite byte_at_store, decide_True in Hx by lia.
  replace (Z.to_nat (a + Z.of_nat i - a)) with i in Hx by lia.
  rewrite (list_lookup_total_correct bs i y Hy) in Hx. congruence.
Qed.

Lemma load_store_bytes_ne m a bs b n :
  b + Z.of_nat n ≤ a ∨ a + Z.of_nat (length bs) ≤ b →
  load_bytes (store_bytes m a bs) b n = load_bytes m b n.
Proof. intros ?. apply load_bytes_ext. intros c ?. apply byte_at_store_ne. lia. Qed.

Lemma load64_ext m m' a :
  (∀ b, a ≤ b < a + 8 → byte_at m b = byte_at m' b) → load64 m a = load64 m' a.
Proof. intros ?. unfold load64. f_equal. by apply load_bytes_ext. Qed.

Lemma load_store64_eq m a v : 0 ≤ v < 2 ^ 64 → load64 (store64 m a v) a = v.
Proof.
  intros ?. unfold load64, store64.
  replace 8%nat with (length (le_bytes 8 v)) at 1 by apply le_bytes_length.
  rewrite load_store_bytes_eq, le_val_bytes. by apply Z.mod_small.
Qed.

Lemma load_store64_ne m a v b :
  b + 8 ≤ a ∨ a + 8 ≤ b → load64 (store64 m a v) b = load64 m b.
Proof.
  intros ?. unfold load64, store64. rewrite load_store_bytes_ne; [done|].
  rewrite le_bytes_length. lia.
Qed.

Lemma byte_at_store64_ne m a v b :
  b < a ∨ a + 8 ≤ b → byte_at (store64 m a v) b = byte_at m b.
Proof. intros ?. apply byte_at_store_ne. rewrite le_bytes_length. lia. Qed.

(** ** Byte loops *)

Lemma byte_at_copy_ne n d s m b :
  b < d ∨ d + Z.of_nat n ≤ b → byte_at (copy_loop n d s m) b = byte_at m b.
Proof.
  revert d s m. induction n as [|n IH]; intros d s m Hb; simpl; [done|].
  rewrite IH, byte_at_insert, decide_False by lia. done.
Qed.

(** A copy between areas that do not overlap moves the source's bytes. *)
Lemma load_copy_loop n d s m :
  s + Z.of_nat n ≤ d ∨ d + Z.of_nat n ≤ s →
  load_bytes (copy_loop n d s m) d n = load_bytes m s n.
Proof.
  revert d s m. induction n as [|n IH]; intros d s m Hd; [done|].
  change (load_bytes (copy_loop n (d + 1) (s + 1) (<[d := byte_at m s]> m)) d (S n)
          = load_bytes m s (S n)).
  assert (Hsplit : ∀ m a k, load_bytes m a (S k) = byte_at m a :: load_bytes m (a + 1) k).
  { intros m0 a k. unfold load_bytes. cbn [seq fmap list_fmap]. f_equal.
    - f_equal. lia.
    - rewrite <- fmap_S_seq, <- list_fmap_compose. apply list_fmap_ext.
      intros ? ? _. simpl. f_equal. lia. }
  rewrite !Hsplit, IH by lia. f_equal.
  - rewrite byte_at_copy_ne, byte_at_insert, decide_True by lia. done.
  - apply load_bytes_ext. intros b ?. rewrite byte_at_insert, decide_False by lia. done.
Qed.

(** ** Masks *)

(** A mask cut to 64 bits masks a 64-bit word like the uncut one. *)
Lemma land_u64 x y : 0 ≤ x < 2 ^ 64 → Z.land x (u64 y) = Z.land x y.
Proof.
  intros ?. unfold u64. rewrite <- !Z.land_ones by lia.
  rewrite (Z.land_comm y), Z.land_assoc, Z.land_ones, Z.mod_small by lia. done.
Qed.

(** [x & ~(2^n - 1)] rounds down. *)
Lemma land_align x n : 0 ≤ n → 0 ≤ x < 2 ^ 64 → Z.land x (u64 (Z.lnot (Z.ones n))) = x / 2 ^ n * 2 ^ n.
Proof.
  intros ??. rewrite land_u64, <- Z.ldiff_land, Z.ldiff_ones_r by done.
  by rewrite Z.shiftr_div_pow2, Z.shiftl_mul_pow2 by done.
Qed.
