(* ===== verification/Bytes.v ===== *)
(** * Bytes: byte buffers

    The parts of a buffer: ranges of bytes that are read and overwritten, and the
    little-endian fields of packed C structs and arrays of 32-bit words.  Used for
    disk blocks ([blk/limnfs.c]) and network packets ([net/net.c], [net/tcp.c]). *)

From S2P Require Import Prelude Mem.

(** ** Parts of a buffer *)

(** [n] bytes from offset [off]. *)
Definition slice {A} (off n : nat) (l : list A) : list A := take n (drop off l).

(** [for (i = 0; i < n; i++) buf[off + i] = bs[i]]. *)
Definition splice {A} (off : nat) (bs l : list A) : list A :=
  take off l ++ bs ++ drop (off + length bs) l.

Section slices.
Context {A : Type}.
Implicit Types (l bs : list A).

Lemma length_splice off bs l : (off + length bs ≤ length l)%nat → length (splice off bs l) = length l.
Proof. intros. unfold splice. rewrite !length_app, length_take, length_drop. lia. Qed.

Lemma length_slice off n l : (off + n ≤ length l)%nat → length (slice off n l) = n.
Proof. intros. unfold slice. rewrite length_take, length_drop. lia. Qed.

Lemma slice_splice_eq off bs l :
  (off + length bs ≤ length l)%nat → slice off (length bs) (splice off bs l) = bs.
Proof.
  intros. unfold slice, splice. rewrite drop_app_length' by (rewrite length_take; lia).
  by rewrite take_app_length.
Qed.

Lemma lookup_splice off bs l i :
  (off + length bs ≤ length l)%nat →
  splice off bs l !! i = if decide (off ≤ i < off + length bs)%nat then bs !! (i - off)%nat else l !! i.
Proof.
  intros Hl. unfold splice. case_decide.
  - rewrite lookup_app_r by (rewrite length_take; lia). rewrite length_take, Nat.min_l by lia.
    by rewrite lookup_app_l by lia.
  - destruct (decide (i < off)%nat).
    + rewrite lookup_app_l by (rewrite length_take; lia). by rewrite lookup_take_lt by lia.
    + rewrite lookup_app_r by (rewrite length_take; lia). rewrite length_take, Nat.min_l by lia.
      rewrite lookup_app_r by lia. rewrite lookup_drop. f_equal. lia.
Qed.

Lemma lookup_slice off n l i : slice off n l !! i = if decide (i < n)%nat then l !! (off + i)%nat else None.
Proof.
  unfold slice. case_decide; [by rewrite lookup_take_lt, lookup_drop|].
  by rewrite lookup_take_ge by lia.
Qed.

Lemma slice_splice_ne off bs l off' n :
  (off + length bs ≤ length l)%nat → (off' + n ≤ off)%nat ∨ (off + length bs ≤ off')%nat →
  slice off' n (splice off bs l) = slice off' n l.
Proof.
  intros Hl Hd. apply list_eq. intros i. rewrite !lookup_slice. case_decide; [|done].
  rewrite lookup_splice, decide_False by lia. done.
Qed.

Lemma slice_full l n : length l = n → slice 0 n l = l.
Proof. intros. unfold slice. rewrite drop_0, take_ge by lia. done. Qed.

Lemma Forall_splice (P : A → Prop) off bs l : Forall P bs → Forall P l → Forall P (splice off bs l).
Proof.
  intros. unfold splice. apply Forall_app. split; [by apply Forall_take|].
  apply Forall_app. split; [done|by apply Forall_drop].
Qed.

Lemma Forall_slice (P : A → Prop) off n l : Forall P l → Forall P (slice off n l).
Proof. intros. unfold slice. by apply Forall_take, Forall_drop. Qed.
End slices.

(** ** Fields and words *)

Definition is_byte (b : Z) : Prop := 0 ≤ b < 256.

(** The unsigned field of [n] bytes at [off], and the store to it. *)
Definition get_field (off n : nat) (l : list Z) : Z := le_val (slice off n l).
Definition set_field (off n : nat) (v : Z) (l : list Z) : list Z := splice off (le_bytes n v) l.

(** [((uint32_t * )buf)[i]]. *)
Definition get32 (i : nat) (l : list Z) : Z := get_field (4 * i) 4 l.
Definition set32 (i : nat) (v : Z) (l : list Z) : list Z := set_field (4 * i) 4 v l.

Lemma get_set_field_eq off n v l :
  (off + n ≤ length l)%nat → 0 ≤ v < 256 ^ Z.of_nat n → get_field off n (set_field off n v l) = v.
Proof.
  intros. unfold get_field, set_field. rewrite <- (le_bytes_length n v) at 1.
  rewrite slice_splice_eq by (by rewrite le_bytes_length). rewrite le_val_bytes. by apply Z.mod_small.
Qed.

Lemma get_set_field_ne off n v l off' n' :
  (off + n ≤ length l)%nat → (off' + n' ≤ off)%nat ∨ (off + n ≤ off')%nat →
  get_field off' n' (set_field off n v l) = get_field off' n' l.
Proof.
  intros. unfold get_field, set_field. rewrite slice_splice_ne; rewrite ?le_bytes_length; done.
Qed.

Lemma length_set_field off n v l : (off + n ≤ length l)%nat → length (set_field off n v l) = length l.
Proof. intros. unfold set_field. apply length_splice. by rewrite le_bytes_length. Qed.

Lemma set_field_bytes off n v l : Forall is_byte l → Forall is_byte (set_field off n v l).
Proof. intros. apply Forall_splice; [apply le_bytes_range|done]. Qed.

Lemma get_field_range off n l :
  (off + n ≤ length l)%nat → Forall is_byte l → 0 ≤ get_field off n l < 256 ^ Z.of_nat n.
Proof.
  intros Hl Hb. unfold get_field. rewrite <- (length_slice off n l Hl) at 3.
  apply le_val_range. by apply Forall_slice.
Qed.

Lemma get32_set32 i j v l :
  (4 * i + 4 ≤ length l)%nat → 0 ≤ v < 2 ^ 32 →
  get32 j (set32 i v l) = if decide (j = i) then v else get32 j l.
Proof.
  intros. unfold get32, set32. case_decide as E.
  - rewrite E. by apply get_set_field_eq.
  - apply get_set_field_ne; lia.
Qed.

Lemma get_field_zero off n k : get_field off n (replicate k 0) = 0.
Proof.
  unfold get_field, slice. rewrite drop_replicate, take_replicate.
  generalize (n `min` (k - off))%nat as j. intros j. induction j as [|j IH]; [done|].
  cbn [replicate le_val foldr]. change (foldr _ 0 ?l) with (le_val l). by rewrite IH.
Qed.
