(* ===== verification/KHeap.v ===== *)
(** * KHeap: the kernel heap

    Models [src/kernel/src/mm/kheap.c]: a first-fit allocator whose block
    headers live in the heap's own memory and form a doubly linked list in
    address order.  Headers are read and written as four 64-bit words of the
    byte memory of [Mem]; every access is checked against the mapped part of
    the heap, and [None] is the page fault outside of it (or a walk over the
    list that does not end within the number of headers the heap has room for).

    The pages come from another component: the class [HeapPages] gives the
    start of the heap and one round of the loop of [heap_expand], which on
    ARM64 reserves the page under the heap and on x86-64 allocates a frame and
    maps it.

    Proved: the allocator implements a store of disjoint byte objects.  Any
    sequence of allocations, frees, reallocations and writes of a client that
    stays inside its objects runs without a fault, and every object keeps its
    bytes until the client changes them. *)

From S2P Require Import Prelude Mem Bitmap Pmm.

Abbreviation ALIGNMENT := 16 (only parsing).
Abbreviation HEADER_SIZE := 32 (only parsing).
Abbreviation KHEAP_MAX := 0x40000000 (only parsing).

(** What the heap needs of the page supply: [heap_grow va] is the body of the
    loop that backs the page at [va]; false when it fails.  The bounds on the
    start keep the sums below from wrapping for requests up to 512 MB. *)
Class HeapPages (P : Type) := {
  kheap_start : Z;
  heap_grow : Z → P → bool * P;
  kheap_start_page : kheap_start mod PAGE_SIZE = 0;
  kheap_start_range : 0 < kheap_start < 2 ^ 64 - 0x60002000
}.

(** The fields of [block_header_t], by offset. *)
Inductive bh_field := F_SIZE | F_FREE | F_NEXT | F_PREV.
Definition bh_off (f : bh_field) : Z :=
  match f with F_SIZE => 0 | F_FREE => 8 | F_NEXT => 16 | F_PREV => 24 end.

Record heap_st (P : Type) := mk_heap {
  heap_mem : mem;
  heap_head : Z;
  heap_current_end : Z;
  heap_pages : P
}.
Arguments mk_heap {P} _ _ _ _.
Arguments heap_mem {P} _.
Arguments heap_head {P} _.
Arguments heap_current_end {P} _.
Arguments heap_pages {P} _.
#[export] Instance heap_st_eta P : Eta (heap_st P) := λ h,
  mk_heap (heap_mem h) (heap_head h) (heap_current_end h) (heap_pages h).

Definition align_up (val align : Z) : Z :=
  Z.land (u64 (val + align - 1)) (u64 (Z.lnot (align - 1))).

Section ops.
Context {P : Type} `{!HeapPages P}.
Implicit Types (h : heap_st P).

(** [p->f] and [p->f = v]. *)
Definition hdr_mapped (p : Z) h : bool :=
  (kheap_start <=? p) && (p + HEADER_SIZE <=? heap_current_end h).
Definition rd (f : bh_field) (p : Z) h : option Z :=
  if hdr_mapped p h then Some (load64 (heap_mem h) (p + bh_off f)) else None.
Definition wr (f : bh_field) (p v : Z) h : option (heap_st P) :=
  if hdr_mapped p h then Some (h <| heap_mem := store64 (heap_mem h) (p + bh_off f) v |>) else None.

(** More than the headers that the mapped heap has room for. *)
Definition walk_fuel h : nat := S (Z.to_nat ((heap_current_end h - kheap_start) / 48)).

Definition heap_memcpy (dst src n : Z) h : heap_st P :=
  h <| heap_mem := copy_loop (Z.to_nat n) dst src (heap_mem h) |>.

Fixpoint map_pages (n : nat) h : bool * heap_st P :=
  match n with
  | O => (true, h)
  | S n' =>
      let '(ok, pg) := heap_grow (heap_current_end h) (heap_pages h) in
      let h := h <| heap_pages := pg |> in
      if ok then map_pages n' (h <| heap_current_end := u64 (heap_current_end h + PAGE_SIZE) |>)
      else (false, h)
  end.

(** [while (tail->next) tail = tail->next]. *)
Fixpoint tail_loop (fuel : nat) (tail : Z) h : option Z :=
  match fuel with
  | O => None
  | S fuel' =>
      next ← rd F_NEXT tail h;
      if next =? 0 then Some tail else tail_loop fuel' next h
  end.

Definition heap_tail h : option Z :=
  if heap_head h =? 0 then Some 0 else tail_loop (walk_fuel h) (heap_head h) h.

(** [tail && tail->is_free && (uint64_t)tail + tail->size == expand_start]. *)
Definition tail_extends (tail expand_start : Z) h : option bool :=
  if tail =? 0 then Some false
  else
    is_free ← rd F_FREE tail h;
    size ← rd F_SIZE tail h;
    Some (negb (is_free =? 0) && (u64 (tail + size) =? expand_start)).

(** The new free block behind [tail]. *)
Definition append_block (tail new_block total_new : Z) h : option (heap_st P) :=
  h ← wr F_SIZE new_block total_new h;
  h ← wr F_FREE new_block 1 h;
  h ← wr F_NEXT new_block 0 h;
  h ← wr F_PREV new_block tail h;
  if tail =? 0 then Some h else wr F_NEXT tail new_block h.

(** The result 0 is the null pointer. *)
Definition heap_expand (min_size : Z) h : option (Z * heap_st P) :=
  let pages_needed := u64 (min_size + PAGE_SIZE - 1) / PAGE_SIZE in
  let expand_start := heap_current_end h in
  let total_new := u64 (pages_needed * PAGE_SIZE) in
  if u64 (kheap_start + KHEAP_MAX) <? u64 (expand_start + total_new) then Some (0, h)
  else
    let '(ok, h) := map_pages (Z.to_nat pages_needed) h in
    if negb ok then Some (0, h)
    else
      tail ← heap_tail h;
      extends ← tail_extends tail expand_start h;
      if (extends : bool) then
        size ← rd F_SIZE tail h;
        h ← wr F_SIZE tail (u64 (size + total_new)) h;
        Some (tail, h)
      else
        h ← append_block tail expand_start total_new h;
        Some (expand_start, h).

(** [None]: the panic when the first page cannot be had. *)
Definition kheap_init (m : mem) (pg : P) : option (heap_st P) :=
  let h := mk_heap m 0 kheap_start pg in
  r ← heap_expand PAGE_SIZE h;
  if r.1 =? 0 then None else Some (r.2 <| heap_head := r.1 |>).

(** The first-fit search; 0 at the end of the list. *)
Fixpoint fit_loop (fuel : nat) (block total_needed : Z) h : option Z :=
  match fuel with
  | O => None
  | S fuel' =>
      if block =? 0 then Some 0
      else
        is_free ← rd F_FREE block h;
        size ← rd F_SIZE block h;
        if negb (is_free =? 0) && (total_needed <=? size) then Some block
        else next ← rd F_NEXT block h; fit_loop fuel' next total_needed h
  end.

(** Cut the block, linking the remainder in behind it. *)
Definition split_block (block total_needed remainder : Z) h : option (heap_st P) :=
  let split := u64 (block + total_needed) in
  h ← wr F_SIZE split remainder h;
  h ← wr F_FREE split 1 h;
  next ← rd F_NEXT block h;
  h ← wr F_NEXT split next h;
  h ← wr F_PREV split block h;
  next ← rd F_NEXT block h;
  h ← (if next =? 0 then Some h else wr F_PREV next split h);
  h ← wr F_NEXT block split h;
  wr F_SIZE block total_needed h.

Definition take_block (block total_needed : Z) h : option (heap_st P) :=
  size ← rd F_SIZE block h;
  let remainder := u64 (size - total_needed) in
  h ← (if 48 <=? remainder then split_block block total_needed remainder h else Some h);
  wr F_FREE block 0 h.

(** The size of the block for a request of [size] bytes. *)
Definition total_needed (size : Z) : Z :=
  let total := align_up (u64 (size + HEADER_SIZE)) ALIGNMENT in
  if total <? 48 then 48 else total.

(** One round of the loop over [attempt]: [None] inside when nothing fits. *)
Definition try_fit (total : Z) h : option (option (Z * heap_st P)) :=
  block ← fit_loop (walk_fuel h) (heap_head h) total h;
  if block =? 0 then Some None
  else h ← take_block block total h; Some (Some (u64 (block + HEADER_SIZE), h)).

Definition kmalloc (size : Z) h : option (Z * heap_st P) :=
  if size =? 0 then Some (0, h)
  else
    let total := total_needed size in
    r ← try_fit total h;
    match r with
    | Some ph => Some ph
    | None =>
        e ← heap_expand total h;
        let '(new_block, h) := e in
        if new_block =? 0 then Some (0, h)
        else
          let h := if heap_head h =? 0 then h <| heap_head := new_block |> else h in
          r ← try_fit total h;
          match r with
          | Some ph => Some ph
          | None => Some (0, h)
          end
    end.

(** Coalesce with the next block, and with the previous block, if free. *)
Definition merge_next (block : Z) h : option (heap_st P) :=
  next ← rd F_NEXT block h;
  if next =? 0 then Some h
  else
    is_free ← rd F_FREE next h;
    if is_free =? 0 then Some h
    else
      size ← rd F_SIZE block h;
      nsize ← rd F_SIZE next h;
      h ← wr F_SIZE block (u64 (size + nsize)) h;
      next' ← rd F_NEXT next h;
      h ← wr F_NEXT block next' h;
      next' ← rd F_NEXT block h;
      if next' =? 0 then Some h else wr F_PREV next' block h.

Definition merge_prev (block : Z) h : option (heap_st P) :=
  prev ← rd F_PREV block h;
  if prev =? 0 then Some h
  else
    is_free ← rd F_FREE prev h;
    if is_free =? 0 then Some h
    else
      psize ← rd F_SIZE prev h;
      size ← rd F_SIZE block h;
      h ← wr F_SIZE prev (u64 (psize + size)) h;
      next ← rd F_NEXT block h;
      h ← wr F_NEXT prev next h;
      next ← rd F_NEXT block h;
      if next =? 0 then Some h else wr F_PREV next prev h.

Definition kfree (ptr : Z) h : option (heap_st P) :=
  if ptr =? 0 then Some h
  else
    let block := u64 (ptr - HEADER_SIZE) in
    h ← wr F_FREE block 1 h;
    h ← merge_next block h;
    merge_prev block h.

Definition krealloc (ptr new_size : Z) h : option (Z * heap_st P) :=
  if ptr =? 0 then kmalloc new_size h
  else if new_size =? 0 then h ← kfree ptr h; Some (0, h)
  else
    let block := u64 (ptr - HEADER_SIZE) in
    let total := align_up (u64 (new_size + HEADER_SIZE)) ALIGNMENT in
    size ← rd F_SIZE block h;
    if total <=? size then Some (ptr, h)
    else
      r ← kmalloc new_size h;
      let '(new_ptr, h) := r in
      if new_ptr =? 0 then Some (0, h)
      else
        size ← rd F_SIZE block h;
        let copy_size := u64 (size - HEADER_SIZE) in
        let copy_size := if new_size <? copy_size then new_size else copy_size in
        h ← kfree ptr (heap_memcpy new_ptr ptr copy_size h);
        Some (new_ptr, h).
End ops.

(** ** Invariant

    [L] lists the blocks in address order.  Blocks do not overlap but need not
    be adjacent: an expansion that runs out of pages half-way leaves a gap. *)

Record blk := mk_blk { b_addr : Z; b_size : Z; b_free : bool }.
#[export] Instance blk_eq_dec : EqDecision blk.
Proof. solve_decision. Defined.
Abbreviation b_end b := (b_addr b + b_size b).
Abbreviation b_ptr b := (b_addr b + HEADER_SIZE).

Definition blk_ok (b : blk) : Prop :=
  48 ≤ b_size b ∧ b_addr b mod ALIGNMENT = 0 ∧ b_size b mod ALIGNMENT = 0.

Fixpoint ordered (lo : Z) (L : list blk) (hi : Z) : Prop :=
  match L with
  | [] => lo ≤ hi
  | b :: L' => lo ≤ b_addr b ∧ blk_ok b ∧ ordered (b_end b) L' hi
  end.

(** The first and the last address of a list, or [d]. *)
Definition haddr (L : list blk) (d : Z) : Z := match L with [] => d | b :: _ => b_addr b end.
Fixpoint laddr (d : Z) (L : list blk) : Z := match L with [] => d | b :: L' => laddr (b_addr b) L' end.

Definition node (m : mem) (b : blk) (prev next : Z) : Prop :=
  load64 m (b_addr b + bh_off F_SIZE) = b_size b ∧ load64 m (b_addr b + bh_off F_FREE) = b2z (b_free b) ∧
  load64 m (b_addr b + bh_off F_NEXT) = next ∧ load64 m (b_addr b + bh_off F_PREV) = prev.

Fixpoint seg (m : mem) (prev : Z) (L : list blk) (next : Z) : Prop :=
  match L with
  | [] => True
  | b :: L' => node m b prev (haddr L' next) ∧ seg m (b_addr b) L' next
  end.

Definition hdr_of (L : list blk) (a : Z) : Prop :=
  ∃ b, b ∈ L ∧ b_addr b ≤ a < b_addr b + HEADER_SIZE.

Lemma ordered_le lo L hi : ordered lo L hi → lo ≤ hi.
Proof.
  revert lo. induction L as [|b L IH]; intros lo; simpl; [done|].
  intros (? & [? _] & ?%IH). lia.
Qed.

Lemma ordered_elem lo L hi b :
  ordered lo L hi → b ∈ L → lo ≤ b_addr b ∧ blk_ok b ∧ b_end b ≤ hi.
Proof.
  revert lo. induction L as [|c L IH]; intros lo; simpl; [by intros _ ?%not_elem_of_nil|].
  intros (? & Hok & HL) [->|Hb]%elem_of_cons.
  - split_and!; [done..|]. by eapply ordered_le.
  - destruct (IH _ HL Hb) as (? & ? & ?). destruct Hok. split_and!; [lia|done|lia].
Qed.

Lemma ordered_app lo L1 L2 hi :
  ordered lo (L1 ++ L2) hi ↔ ∃ mid, ordered lo L1 mid ∧ ordered mid L2 hi.
Proof.
  revert lo. induction L1 as [|b L1 IH]; intros lo; simpl.
  - split; [intros ?; by exists lo|]. intros (mid & ? & HL2).
    destruct L2; simpl in *; [lia|]. destruct HL2 as (? & ? & ?). split_and!; [lia|done..].
  - rewrite IH. naive_solver.
Qed.

Lemma ordered_lower lo lo' L hi : ordered lo L hi → lo' ≤ lo → ordered lo' L hi.
Proof. intros H Hle. apply (ordered_app lo' [] L hi). by exists lo. Qed.

Lemma ordered_upper lo L hi hi' : ordered lo L hi → hi ≤ hi' → ordered lo L hi'.
Proof. intros H Hle. rewrite <- (app_nil_r L). apply ordered_app. by exists hi. Qed.

(** A block in the middle separates the two sides. *)
Lemma ordered_mid lo L1 b L2 hi :
  ordered lo (L1 ++ b :: L2) hi ↔
  ordered lo L1 (b_addr b) ∧ blk_ok b ∧ ordered (b_end b) L2 hi.
Proof.
  rewrite ordered_app. split.
  - intros (mid & H1 & ? & ? & ?). split_and!; [|done..]. by eapply ordered_upper.
  - intros (? & ? & ?). exists (b_addr b). split; [done|]. simpl. split_and!; [lia|done..].
Qed.

(** No more blocks than the walks have fuel for. *)
Lemma ordered_length lo L hi : ordered lo L hi → 48 * Z.of_nat (length L) ≤ hi - lo.
Proof.
  revert lo. induction L as [|b L IH]; intros lo; simpl; [lia|].
  intros (? & [? _] & ?%IH). lia.
Qed.

Lemma laddr_app d L b : laddr d (L ++ [b]) = b_addr b.
Proof. revert d. induction L; intros d; simpl; [done|]. apply IHL. Qed.

Lemma seg_app m p L1 L2 n :
  seg m p (L1 ++ L2) n ↔ seg m p L1 (haddr L2 n) ∧ seg m (laddr p L1) L2 n.
Proof.
  revert p. induction L1 as [|b L1 IH]; intros p; simpl; [naive_solver|].
  rewrite IH. destruct L1; simpl; naive_solver.
Qed.

Lemma node_ext m m' b p n :
  (∀ a, b_addr b ≤ a < b_addr b + HEADER_SIZE → byte_at m' a = byte_at m a) →
  node m b p n → node m' b p n.
Proof.
  intros Heq (Hs & Hf & Hn & Hp). unfold node, bh_off in *.
  split_and!; (etrans; [|eassumption]); apply load64_ext; intros a ?; apply Heq; lia.
Qed.

Lemma seg_ext m m' p L n lo hi :
  ordered lo L hi → (∀ a, lo ≤ a < hi → byte_at m' a = byte_at m a) → seg m p L n → seg m' p L n.
Proof.
  revert lo p. induction L as [|b L IH]; intros lo p; simpl; [done|].
  intros (? & [? _] & HL) Heq [Hn Hs]. pose proof (ordered_le _ _ _ HL). split.
  - eapply node_ext; [|done]. intros a ?. apply Heq. lia.
  - eapply IH; [done| |done]. intros a ?. apply Heq. lia.
Qed.

(** Relinking the first block of a list to a new predecessor, and the last one
    to a new successor. *)
Definition set_prev_of (n q : Z) (m : mem) : mem :=
  if n =? 0 then m else store64 m (n + bh_off F_PREV) q.
Definition set_next_of (p q : Z) (m : mem) : mem :=
  if p =? 0 then m else store64 m (p + bh_off F_NEXT) q.

(** Read through the stores of a goal. *)
Ltac mem_simp :=
  repeat first [rewrite load_store64_eq by lia | rewrite load_store64_ne by lia
               | rewrite byte_at_store64_ne by lia].

Lemma set_prev_of_seg m p L n q lo hi :
  0 < lo → ordered lo L hi → 0 ≤ q < 2 ^ 64 → seg m p L n → seg (set_prev_of (haddr L 0) q m) q L n.
Proof.
  intros Hlo HL Hq. destruct L as [|b L]; simpl; [done|].
  destruct HL as (? & [? _] & HL). intros [(Hs & Hf & Hn & Hp) Hseg].
  unfold set_prev_of. rewrite (proj2 (Z.eqb_neq _ _)) by lia. split.
  - unfold node, bh_off in *. by mem_simp.
  - eapply seg_ext; [done| |done]. intros a ?. unfold bh_off. by mem_simp.
Qed.

Lemma set_prev_of_byte m L q lo hi a :
  0 < lo → ordered lo L hi → ¬ hdr_of L a → byte_at (set_prev_of (haddr L 0) q m) a = byte_at m a.
Proof.
  intros Hlo HL Ha. unfold set_prev_of. destruct L as [|b L]; [done|]. simpl.
  destruct (b_addr b =? 0); [done|]. apply byte_at_store64_ne. unfold bh_off.
  destruct (decide (a < b_addr b + 24)); [lia|].
  destruct (decide (b_addr b + 32 ≤ a)); [lia|]. exfalso. apply Ha.
  exists b. split; [by left|]. lia.
Qed.

Lemma set_prev_of_low m L q lo hi a :
  0 < lo → ordered lo L hi → a < lo → byte_at (set_prev_of (haddr L 0) q m) a = byte_at m a.
Proof.
  intros Hlo HL Ha. eapply set_prev_of_byte; [done..|]. intros (b & Hb & ?).
  destruct (ordered_elem _ _ _ _ HL Hb) as (? & _). lia.
Qed.

Lemma set_next_of_seg m L n q lo hi :
  0 < lo → ordered lo L hi → 0 ≤ q < 2 ^ 64 → seg m 0 L n → seg (set_next_of (laddr 0 L) q m) 0 L q.
Proof.
  intros Hlo HL Hq. destruct L as [|b L _] using rev_ind; [done|].
  rewrite laddr_app. apply ordered_mid in HL as (HL & [? _] & Hhi). simpl in Hhi.
  pose proof (ordered_le _ _ _ HL). rewrite !seg_app.
  intros [Hseg [(Hs & Hf & Hn & Hp) _]].
  unfold set_next_of. rewrite (proj2 (Z.eqb_neq _ _)) by lia. simpl in *. split.
  - eapply seg_ext; [done| |done]. intros a ?. unfold bh_off. by mem_simp.
  - unfold node, bh_off in *. by mem_simp.
Qed.

Section proofs.
Context {P : Type} `{!HeapPages P}.
Implicit Types (h : heap_st P) (L : list blk).

Record heap_repr h L : Prop := {
  hr_head : heap_head h = haddr L 0;
  hr_seg : seg (heap_mem h) 0 L 0;
  hr_ord : ordered kheap_start L (heap_current_end h);
  hr_max : heap_current_end h ≤ kheap_start + KHEAP_MAX;
  hr_page : heap_current_end h mod PAGE_SIZE = 0
}.

Lemma mapped_elem h L b :
  ordered kheap_start L (heap_current_end h) → b ∈ L → hdr_mapped (b_addr b) h = true.
Proof.
  intros HL Hb. destruct (ordered_elem _ _ _ _ HL Hb) as (? & [? _] & ?).
  unfold hdr_mapped. apply andb_true_iff. split; apply Z.leb_le; lia.
Qed.

Lemma hdr_mapped_range h p :
  kheap_start ≤ p → p + HEADER_SIZE ≤ heap_current_end h → hdr_mapped p h = true.
Proof. intros. unfold hdr_mapped. apply andb_true_iff. split; apply Z.leb_le; lia. Qed.

Lemma rd_node h b p n f :
  hdr_mapped (b_addr b) h = true → node (heap_mem h) b p n →
  rd f (b_addr b) h =
  Some (match f with F_SIZE => b_size b | F_FREE => b2z (b_free b) | F_NEXT => n | F_PREV => p end).
Proof. intros Hm (Hs & Hf & Hn & Hp). unfold rd. rewrite Hm. f_equal. by destruct f. Qed.

Lemma rd_mapped h p f : hdr_mapped p h = true → rd f p h = Some (load64 (heap_mem h) (p + bh_off f)).
Proof. intros Hm. unfold rd. by rewrite Hm. Qed.

Lemma wr_mapped h p v f :
  hdr_mapped p h = true → wr f p v h = Some (h <| heap_mem := store64 (heap_mem h) (p + bh_off f) v |>).
Proof. intros Hm. unfold wr. by rewrite Hm. Qed.

Lemma hdr_mapped_mem h m p : hdr_mapped p (h <| heap_mem := m |>) = hdr_mapped p h.
Proof. done. Qed.

(** The optional relink of the code is [set_prev_of]. *)
Lemma wr_prev_opt h L lo hi q :
  kheap_start ≤ lo → hi ≤ heap_current_end h → ordered lo L hi →
  (if haddr L 0 =? 0 then Some h else wr F_PREV (haddr L 0) q h) =
  Some (h <| heap_mem := set_prev_of (haddr L 0) q (heap_mem h) |>).
Proof.
  intros Hlo Hhi HL. unfold set_prev_of. destruct (haddr L 0 =? 0) eqn:E.
  - by destruct h.
  - destruct L as [|b L]; [done|]. simpl in *. destruct HL as (? & [? _] & ?%ordered_le).
    by rewrite wr_mapped by (apply hdr_mapped_range; lia).
Qed.

Definition fits (tot : Z) (b : blk) : bool := b_free b && (tot <=? b_size b).

(** The first-fit search over a suffix of the list. *)
Lemma fit_loop_spec tot h L : ∀ fuel p,
  (length L < fuel)%nat → ordered kheap_start L (heap_current_end h) → seg (heap_mem h) p L 0 →
  (fit_loop fuel (haddr L 0) tot h = Some 0 ∧ Forall (λ b, fits tot b = false) L) ∨
  (∃ L1 b L2, L = L1 ++ b :: L2 ∧ fit_loop fuel (haddr L 0) tot h = Some (b_addr b) ∧
     fits tot b = true ∧ Forall (λ b, fits tot b = false) L1).
Proof.
  pose proof kheap_start_range as Hst.
  induction L as [|b L IH]; intros [|fuel] p Hf Hord Hseg; [lia| |simpl in Hf; lia|].
  { left. done. }
  pose proof (mapped_elem h (b :: L) b Hord (list_elem_of_here _ _)) as Hm.
  destruct Hseg as [Hn Hseg]. cbn [fit_loop haddr].
  assert (Hb : (b_addr b =? 0) = false) by (apply Z.eqb_neq; destruct Hord; lia).
  rewrite Hb, !(rd_node h b _ _ _ Hm Hn). cbn [mbind option_bind].
  replace (negb (b2z (b_free b) =? 0)) with (b_free b) by (by destruct (b_free b)).
  destruct (b_free b && (tot <=? b_size b)) eqn:Efit.
  { right. exists [], b, L. split_and!; [done..|]. constructor. }
  destruct Hord as (? & [? _] & Hord).
  assert (Hord' : ordered kheap_start L (heap_current_end h)) by (eapply ordered_lower; [done|lia]).
  destruct (IH fuel (b_addr b) ltac:(simpl in Hf; lia) Hord' Hseg)
    as [[-> HF]|(L1 & c & L2 & -> & -> & Hc & HF)].
  - left. split; [done|]. by constructor.
  - right. exists (b :: L1), c, L2. split_and!; [done..|]. by constructor.
Qed.

Lemma walk_fuel_enough h L :
  ordered kheap_start L (heap_current_end h) → (length L < walk_fuel h)%nat.
Proof.
  intros HL%ordered_length. unfold walk_fuel.
  assert (Z.of_nat (length L) ≤ (heap_current_end h - kheap_start) / 48)
    by (apply Z.div_le_lower_bound; lia).
  lia.
Qed.

(** ** Carving a block *)

Definition carve (b : blk) (tot : Z) : list blk :=
  if 48 <=? b_size b - tot
  then [mk_blk (b_addr b) tot false; mk_blk (b_addr b + tot) (b_size b - tot) true]
  else [mk_blk (b_addr b) (b_size b) false].

Definition untouched (L : list blk) (m m' : mem) : Prop :=
  ∀ a, ¬ hdr_of L a → byte_at m' a = byte_at m a.

Lemma hdr_of_app L1 L2 a : hdr_of (L1 ++ L2) a ↔ hdr_of L1 a ∨ hdr_of L2 a.
Proof. unfold hdr_of. setoid_rewrite elem_of_app. naive_solver. Qed.

Lemma hdr_of_cons b L a :
  hdr_of (b :: L) a ↔ b_addr b ≤ a < b_addr b + HEADER_SIZE ∨ hdr_of L a.
Proof. unfold hdr_of. setoid_rewrite elem_of_cons. naive_solver. Qed.

Lemma hdr_of_nil a : hdr_of [] a ↔ False.
Proof. unfold hdr_of. setoid_rewrite elem_of_nil. naive_solver. Qed.

Lemma mod16_mid x y : x mod 16 = 0 → y mod 16 = 0 → (x + y) mod 16 = 0.
Proof. intros. rewrite Z.add_mod, H, H0 by lia. done. Qed.
Lemma mod16_sub x y : x mod 16 = 0 → y mod 16 = 0 → (x - y) mod 16 = 0.
Proof. intros. rewrite Zminus_mod, H, H0 by lia. done. Qed.

(** Symbolic execution: all operations below only change the memory. *)
Lemma heap_mem_id h : h = h <| heap_mem := heap_mem h |>.
Proof. by destruct h. Qed.

Lemma rd_upd h m f p :
  kheap_start ≤ p → p + HEADER_SIZE ≤ heap_current_end h →
  rd f p (h <| heap_mem := m |>) = Some (load64 m (p + bh_off f)).
Proof. intros. apply rd_mapped. by apply hdr_mapped_range. Qed.

Lemma wr_upd h m f p v :
  kheap_start ≤ p → p + HEADER_SIZE ≤ heap_current_end h →
  wr f p v (h <| heap_mem := m |>) = Some (h <| heap_mem := store64 m (p + bh_off f) v |>).
Proof. intros. rewrite wr_mapped by (by apply hdr_mapped_range). by destruct h. Qed.

Lemma wr_prev_upd h m L lo hi q :
  kheap_start ≤ lo → hi ≤ heap_current_end h → ordered lo L hi →
  (if haddr L 0 =? 0 then Some (h <| heap_mem := m |>) else wr F_PREV (haddr L 0) q (h <| heap_mem := m |>)) =
  Some (h <| heap_mem := set_prev_of (haddr L 0) q m |>).
Proof. intros. by rewrite (wr_prev_opt (h <| heap_mem := m |>) L lo hi). Qed.

Ltac hstep :=
  repeat first [rewrite rd_upd by lia; cbn [mbind option_bind]
               | rewrite wr_upd by lia; cbn [mbind option_bind]].

Lemma haddr_mid L1 b b' L L' :
  b_addr b = b_addr b' → haddr (L1 ++ b :: L) 0 = haddr (L1 ++ b' :: L') 0.
Proof. by destruct L1. Qed.

Lemma haddr_range lo L hi : 0 < lo → ordered lo L hi → 0 ≤ haddr L 0 ≤ hi.
Proof.
  intros Hlo HL. pose proof (ordered_le _ _ _ HL). destruct L; simpl in *; [lia|].
  destruct HL as (? & [? _] & ?%ordered_le). lia.
Qed.

Lemma laddr_range lo L hi : 0 < lo → ordered lo L hi → 0 ≤ laddr 0 L ≤ hi.
Proof.
  intros Hlo HL. pose proof (ordered_le _ _ _ HL).
  destruct L as [|b L _] using rev_ind; simpl in *; [lia|].
  rewrite laddr_app. apply ordered_mid in HL as (?%ordered_le & [? _] & ?%ordered_le). lia.
Qed.

Lemma split_block_spec h L1 b L2 tot :
  heap_repr h (L1 ++ b :: L2) → 48 ≤ tot → tot mod 16 = 0 → 48 ≤ b_size b - tot →
  ∃ h', split_block (b_addr b) tot (b_size b - tot) h = Some h' ∧
    heap_repr h' (L1 ++ mk_blk (b_addr b) tot (b_free b)
                     :: mk_blk (b_addr b + tot) (b_size b - tot) true :: L2) ∧
    untouched (b :: mk_blk (b_addr b + tot) (b_size b - tot) true :: L2) (heap_mem h) (heap_mem h').
Proof.
  intros [Hh Hs Ho Hmax Hpg] Ht Ht16 Hrem. pose proof kheap_start_range as Hst.
  pose proof Ho as (Ho1 & (Hb & Ha16 & Hs16) & Ho2)%ordered_mid.
  pose proof (ordered_le _ _ _ Ho1). pose proof (ordered_le _ _ _ Ho2).
  rewrite seg_app in Hs. destruct Hs as (Hs1 & (Hn1 & Hn2 & Hn3 & Hn4) & Hs2).
  pose proof (haddr_range (b_end b) L2 _ ltac:(lia) Ho2).
  unfold split_block. rewrite (u64_id (b_addr b + tot)), (heap_mem_id h) by lia.
  set (s := b_addr b + tot) in *. set (m := heap_mem h) in *. hstep.
  set (m2 := store64 (store64 m (s + bh_off F_SIZE) (b_size b - tot)) (s + bh_off F_FREE) 1).
  replace (load64 m2 (b_addr b + bh_off F_NEXT)) with (haddr L2 0)
    by (unfold m2, bh_off, s in *; mem_simp; done).
  set (m4 := store64 (store64 m2 (s + bh_off F_NEXT) (haddr L2 0)) (s + bh_off F_PREV) (b_addr b)).
  replace (load64 m4 (b_addr b + bh_off F_NEXT)) with (haddr L2 0)
    by (unfold m4, m2, bh_off, s in *; mem_simp; done).
  rewrite (wr_prev_upd h _ L2 (b_end b) (heap_current_end h)) by (done || lia). cbn [mbind option_bind]. hstep.
  eexists. split; [reflexivity|].
  set (m5 := set_prev_of (haddr L2 0) s m4).
  assert (H5 : ∀ a, a < b_end b → byte_at m5 a = byte_at m4 a)
    by (intros a ?; eapply set_prev_of_low; [|exact Ho2|]; lia).
  assert (H5w : ∀ a, a + 8 ≤ b_end b → load64 m5 a = load64 m4 a)
    by (intros a ?; apply load64_ext; intros; apply H5; lia).
  assert (Hs4 : seg m4 (b_addr b) L2 0).
  { eapply seg_ext; [exact Ho2| |exact Hs2]. intros a ?. unfold m4, m2, bh_off, s. by mem_simp. }
  apply (set_prev_of_seg _ _ _ _ s (b_end b) (heap_current_end h)) in Hs4; [|lia|done|lia].
  fold m5 in Hs4. split.
  - constructor; [|cbn [heap_mem]|cbn [heap_current_end]|done..].
    + etrans; [exact Hh|]. by apply haddr_mid.
    + change (seg (store64 (store64 m5 (b_addr b + bh_off F_NEXT) s) (b_addr b + bh_off F_SIZE) tot) 0
        (L1 ++ mk_blk (b_addr b) tot (b_free b) :: mk_blk s (b_size b - tot) true :: L2) 0).
      rewrite seg_app. split; [|split; [unfold node|]].
      * eapply seg_ext; [exact Ho1| |exact Hs1]. intros a ?. unfold bh_off.
        mem_simp. rewrite H5 by lia. unfold m4, m2, bh_off, s. by mem_simp.
      * cbn [b_addr b_size b_free haddr]. unfold bh_off in *. mem_simp.
        rewrite !H5w by lia. unfold m4, m2, bh_off, s in *. by mem_simp.
      * cbn [b_addr seg]. split.
        -- unfold node. cbn [b_addr b_size b_free]. unfold bh_off. mem_simp.
           rewrite !H5w by (unfold s; lia). unfold m4, m2, bh_off, s. by mem_simp.
        -- eapply seg_ext; [exact Ho2| |exact Hs4]. intros a ?. unfold bh_off. by mem_simp.
    + apply ordered_mid. cbn [b_addr b_size ordered]. unfold blk_ok. cbn [b_addr b_size].
      split_and!; [done|lia|done..|unfold s; lia|lia|by apply mod16_mid|by apply mod16_sub|].
      by replace (s + (b_size b - tot)) with (b_end b) by (unfold s; lia).
  - intros a. rewrite !hdr_of_cons. cbn [b_addr]. intros Ha.
    change (byte_at (store64 (store64 m5 (b_addr b + bh_off F_NEXT) s) (b_addr b + bh_off F_SIZE) tot) a
            = byte_at m a).
    unfold bh_off. rewrite !byte_at_store64_ne by (naive_solver lia).
    unfold m5. erewrite set_prev_of_byte; [|..|exact Ho2|naive_solver]; [|lia].
    unfold m4, m2, bh_off. rewrite !byte_at_store64_ne by (naive_solver lia). done.
Qed.

(** Changing the header of one block. *)
Lemma seg_mid_update m m' L1 b b' L2 lo hi :
  ordered lo (L1 ++ b :: L2) hi → b_addr b' = b_addr b →
  (∀ a, ¬ (b_addr b ≤ a < b_addr b + HEADER_SIZE) → byte_at m' a = byte_at m a) →
  seg m 0 (L1 ++ b :: L2) 0 → node m' b' (laddr 0 L1) (haddr L2 0) →
  seg m' 0 (L1 ++ b' :: L2) 0.
Proof.
  intros (Ho1 & [? _] & Ho2)%ordered_mid Hb Heq. rewrite !seg_app.
  intros (Hs1 & _ & Hs2) Hn. cbn [haddr] in *. rewrite Hb. split; [|split; [done|rewrite Hb]].
  - eapply seg_ext; [exact Ho1| |exact Hs1]. intros a ?. apply Heq. lia.
  - eapply seg_ext; [exact Ho2| |exact Hs2]. intros a ?. apply Heq. lia.
Qed.

Lemma set_free_spec h L1 b L2 f :
  heap_repr h (L1 ++ b :: L2) →
  ∃ h', wr F_FREE (b_addr b) (b2z f) h = Some h' ∧
    heap_repr h' (L1 ++ mk_blk (b_addr b) (b_size b) f :: L2) ∧
    untouched [b] (heap_mem h) (heap_mem h').
Proof.
  intros [Hh Hs Ho Hmax Hpg]. pose proof kheap_start_range as Hst.
  pose proof Ho as (Ho1 & (Hb & Ha16 & Hs16) & Ho2)%ordered_mid.
  pose proof (ordered_le _ _ _ Ho1). pose proof (ordered_le _ _ _ Ho2).
  rewrite wr_mapped by (apply hdr_mapped_range; lia). eexists. split; [reflexivity|].
  assert (Heq : ∀ a, ¬ (b_addr b ≤ a < b_addr b + HEADER_SIZE) →
            byte_at (store64 (heap_mem h) (b_addr b + bh_off F_FREE) (b2z f)) a = byte_at (heap_mem h) a)
    by (intros a ?; unfold bh_off; mem_simp; done).
  split.
  - constructor; [| | |done..].
    + etrans; [exact Hh|]. by apply haddr_mid.
    + change (seg (store64 (heap_mem h) (b_addr b + bh_off F_FREE) (b2z f)) 0
        (L1 ++ mk_blk (b_addr b) (b_size b) f :: L2) 0).
      eapply seg_mid_update; [exact Ho|done|exact Heq|exact Hs|].
      apply seg_app in Hs as (_ & (Hn1 & Hn2 & Hn3 & Hn4) & _).
      assert (0 ≤ b2z f < 2 ^ 64) by (destruct f; simpl; lia).
      unfold node, bh_off in *. cbn [b_addr b_size b_free] in *. by mem_simp.
    + apply ordered_mid. by split_and!.
  - intros a. rewrite hdr_of_cons, hdr_of_nil. intros Ha. apply Heq. tauto.
Qed.

(** The final memory of both merges: [a] absorbs its successor [b]. *)
Lemma merge_repr h L1 a b L2 :
  heap_repr h (L1 ++ a :: b :: L2) →
  let m' := set_prev_of (haddr L2 0) (b_addr a)
              (store64 (store64 (heap_mem h) (b_addr a + bh_off F_SIZE) (b_size a + b_size b))
                 (b_addr a + bh_off F_NEXT) (haddr L2 0)) in
  heap_repr (h <| heap_mem := m' |>) (L1 ++ mk_blk (b_addr a) (b_size a + b_size b) (b_free a) :: L2) ∧
  untouched (a :: L2) (heap_mem h) m'.
Proof.
  intros [Hh Hs Ho Hmax Hpg]. pose proof kheap_start_range as Hst.
  pose proof Ho as (Ho1 & (Ha & Ha16 & Has) & (Hab & (Hb & Hb16 & Hbs) & Ho2))%ordered_mid.
  pose proof (ordered_le _ _ _ Ho1). pose proof (ordered_le _ _ _ Ho2).
  pose proof (haddr_range (b_end b) L2 _ ltac:(lia) Ho2).
  rewrite seg_app in Hs. destruct Hs as (Hs1 & (Hn1 & Hn2 & Hn3 & Hn4) & _ & Hs2).
  intros m'. set (m2 := store64 (store64 _ _ _) _ _) in m'.
  assert (Hlow : ∀ x, x < b_end b → byte_at m' x = byte_at m2 x)
    by (intros x ?; eapply set_prev_of_low; [|exact Ho2|]; lia).
  assert (Hlow64 : ∀ x, x + 8 ≤ b_end b → load64 m' x = load64 m2 x)
    by (intros x ?; apply load64_ext; intros; apply Hlow; lia).
  assert (Hs2' : seg m' (b_addr a) L2 0).
  { eapply set_prev_of_seg; [|exact Ho2| |]; [lia..|].
    eapply seg_ext; [exact Ho2| |exact Hs2]. intros x ?. unfold m2, bh_off. by mem_simp. }
  split.
  - constructor; [| | |done..].
    + etrans; [exact Hh|]. by apply haddr_mid.
    + change (seg m' 0 (L1 ++ mk_blk (b_addr a) (b_size a + b_size b) (b_free a) :: L2) 0).
      apply seg_app. split; [|split; [|done]].
      * eapply seg_ext; [exact Ho1| |exact Hs1]. intros x ?. rewrite Hlow by lia.
        unfold m2, bh_off. by mem_simp.
      * unfold node. cbn [b_addr b_size b_free]. unfold bh_off in *. rewrite !Hlow64 by lia.
        unfold m2. by mem_simp.
    + apply ordered_mid. unfold blk_ok. cbn [b_addr b_size].
      split_and!; [done|lia|done|by apply mod16_mid|]. eapply ordered_lower; [done|lia].
  - intros x. rewrite hdr_of_cons. intros Hx. unfold m'.
    erewrite set_prev_of_byte; [|..|exact Ho2|naive_solver]; [|lia].
    unfold m2, bh_off. rewrite !byte_at_store64_ne by (naive_solver lia). done.
Qed.

(** ** Freeing *)

Definition live (L : list blk) : list blk := filter (λ b, b_free b = false) L.

Lemma live_app L1 L2 : live (L1 ++ L2) = live L1 ++ live L2.
Proof. apply filter_app. Qed.
Lemma live_cons b L : live (b :: L) = if b_free b then live L else b :: live L.
Proof. unfold live. rewrite filter_cons. by destruct (b_free b). Qed.

(** [b] absorbs the head of [L] if that is free. *)
Definition absorb (b : blk) (L : list blk) : list blk :=
  match L with
  | c :: L' => if b_free c then mk_blk (b_addr b) (b_size b + b_size c) (b_free b) :: L' else b :: L
  | [] => [b]
  end.

Lemma untouched_refl L m : untouched L m m.
Proof. by intros a _. Qed.
Lemma untouched_trans L m1 m2 m3 : untouched L m1 m2 → untouched L m2 m3 → untouched L m1 m3.
Proof. intros H1 H2 a Ha. by rewrite H2, H1. Qed.
Lemma untouched_sub L L' m m' :
  (∀ a, hdr_of L a → hdr_of L' a) → untouched L m m' → untouched L' m m'.
Proof. intros Hs H a Ha. apply H. naive_solver. Qed.

Lemma free_b2z f : (b2z f =? 0) = negb f.
Proof. by destruct f. Qed.

Lemma merge_next_spec h L1 b L2 :
  heap_repr h (L1 ++ b :: L2) →
  ∃ h', merge_next (b_addr b) h = Some h' ∧ heap_repr h' (L1 ++ absorb b L2) ∧
    untouched (L1 ++ b :: L2) (heap_mem h) (heap_mem h').
Proof.
  intros Hr. pose proof Hr as [_ Hs Ho Hmax _]. pose proof kheap_start_range as Hst.
  pose proof Ho as (Ho1 & (Hb & _) & Ho2)%ordered_mid.
  pose proof (ordered_le _ _ _ Ho1). pose proof (ordered_le _ _ _ Ho2).
  apply seg_app in Hs as (_ & Hn & Hs2). unfold merge_next.
  rewrite (rd_node h b _ _ F_NEXT ltac:(apply hdr_mapped_range; lia) Hn). cbn [mbind option_bind].
  destruct L2 as [|c L2].
  { exists h. split_and!; [reflexivity|exact Hr|apply untouched_refl]. }
  destruct Hs2 as [Hc Hs2]. destruct Ho2 as (Hbc & (Hcs & _) & Ho3).
  pose proof (ordered_le _ _ _ Ho3). pose proof (haddr_range (b_end c) L2 _ ltac:(lia) Ho3).
  assert (Hmc : hdr_mapped (b_addr c) h = true) by (apply hdr_mapped_range; lia).
  cbn [haddr absorb]. rewrite (proj2 (Z.eqb_neq (b_addr c) 0)) by lia.
  rewrite (rd_node h c _ _ F_FREE Hmc Hc). cbn [mbind option_bind]. rewrite free_b2z.
  destruct (b_free c) eqn:Hfc; cbn [negb].
  2: { exists h. split_and!; [reflexivity|exact Hr|apply untouched_refl]. }
  rewrite (rd_node h b _ _ F_SIZE ltac:(apply hdr_mapped_range; lia) Hn), (rd_node h c _ _ F_SIZE Hmc Hc).
  cbn [mbind option_bind]. rewrite (u64_id (b_size b + b_size c)) by lia.
  destruct (merge_repr h L1 b c L2 Hr) as [Hr' Hu]. destruct Hc as (_ & _ & Hc & _).
  eexists. split; [|split; [exact Hr'|]].
  - rewrite (heap_mem_id h) at 1. hstep. unfold bh_off in *.
    rewrite !(load_store64_ne _ _ _ (b_addr c + 16)) by lia. rewrite Hc. mem_simp.
    rewrite (wr_prev_upd h _ L2 (b_end c) (heap_current_end h)) by (done || lia). done.
  - eapply untouched_sub; [|exact Hu]. intros a. rewrite hdr_of_app, !hdr_of_cons. tauto.
Qed.

Lemma merge_prev_spec h L1 b L2 :
  heap_repr h (L1 ++ b :: L2) → b_free b = true →
  ∃ h' L', merge_prev (b_addr b) h = Some h' ∧ heap_repr h' L' ∧ live L' = live L1 ++ live L2 ∧
    untouched (L1 ++ b :: L2) (heap_mem h) (heap_mem h').
Proof.
  intros Hr Hfb. pose proof Hr as [_ Hs Ho Hmax _]. pose proof kheap_start_range as Hst.
  pose proof Ho as (Ho1 & (Hb & _) & Ho2)%ordered_mid.
  pose proof (ordered_le _ _ _ Ho1). pose proof (ordered_le _ _ _ Ho2).
  pose proof (haddr_range (b_end b) L2 _ ltac:(lia) Ho2).
  apply seg_app in Hs as (Hs1 & Hn & _).
  assert (Hmb : hdr_mapped (b_addr b) h = true) by (apply hdr_mapped_range; lia).
  assert (Hid : live (L1 ++ b :: L2) = live L1 ++ live L2) by (rewrite live_app, live_cons, Hfb; done).
  unfold merge_prev. rewrite (rd_node h b _ _ F_PREV Hmb Hn). cbn [mbind option_bind].
  destruct L1 as [|a L1 _] using rev_ind.
  { exists h, (b :: L2). split_and!; [reflexivity|exact Hr|exact Hid|apply untouched_refl]. }
  rewrite laddr_app. apply ordered_mid in Ho1 as (Ho1 & (Has & _) & Ho1'). simpl in Ho1'.
  pose proof (ordered_le _ _ _ Ho1). apply seg_app in Hs1 as (_ & Ha & _). cbn [haddr] in Ha.
  assert (Hma : hdr_mapped (b_addr a) h = true) by (apply hdr_mapped_range; lia).
  rewrite (proj2 (Z.eqb_neq (b_addr a) 0)) by lia.
  rewrite (rd_node h a _ _ F_FREE Hma Ha). cbn [mbind option_bind]. rewrite free_b2z.
  destruct (b_free a) eqn:Hfa; cbn [negb].
  2: { eexists h, _. split_and!; [reflexivity|exact Hr|exact Hid|apply untouched_refl]. }
  rewrite (rd_node h a _ _ F_SIZE Hma Ha), (rd_node h b _ _ F_SIZE Hmb Hn).
  cbn [mbind option_bind]. rewrite (u64_id (b_size a + b_size b)) by lia.
  rewrite <- app_assoc in Hr. destruct (merge_repr h L1 a b L2 Hr) as [Hr' Hu].
  destruct Hn as (_ & _ & Hn & _).
  eexists _, _. split; [|split; [exact Hr'|split]].
  - rewrite (heap_mem_id h) at 1. hstep. unfold bh_off in *.
    rewrite !(load_store64_ne _ _ _ (b_addr b + 16)) by lia. rewrite Hn.
    rewrite (wr_prev_upd h _ L2 (b_end b) (heap_current_end h)) by (done || lia). done.
  - rewrite !live_app, !live_cons. cbn [b_free]. by rewrite Hfa, app_nil_r.
  - eapply untouched_sub; [|exact Hu]. intros x. rewrite !hdr_of_app, !hdr_of_cons. tauto.
Qed.

Lemma hdr_of_absorb b L a : hdr_of (absorb b L) a → hdr_of (b :: L) a.
Proof.
  destruct L as [|c L]; simpl; [done|]. destruct (b_free c); [|done].
  rewrite !hdr_of_cons. cbn [b_addr]. tauto.
Qed.

(** Freeing a block removes it from the live blocks and writes to no byte
    outside of the headers. *)
Lemma kfree_spec h L1 b L2 :
  heap_repr h (L1 ++ b :: L2) →
  ∃ h' L', kfree (b_ptr b) h = Some h' ∧ heap_repr h' L' ∧ live L' = live L1 ++ live L2 ∧
    untouched (L1 ++ b :: L2) (heap_mem h) (heap_mem h').
Proof.
  intros Hr. pose proof (hr_ord _ _ Hr) as (Ho1 & (Hb & _) & Ho2)%ordered_mid.
  pose proof (hr_max _ _ Hr). pose proof kheap_start_range as Hst.
  pose proof (ordered_le _ _ _ Ho1). pose proof (ordered_le _ _ _ Ho2).
  unfold kfree. rewrite (proj2 (Z.eqb_neq (b_ptr b) 0)) by lia.
  replace (u64 (b_ptr b - HEADER_SIZE)) with (b_addr b) by (rewrite u64_id; lia).
  destruct (set_free_spec h L1 b L2 true Hr) as (h1 & E1 & Hr1 & Hu1).
  change (b2z true) with 1 in E1. rewrite E1. cbn [mbind option_bind].
  set (b1 := mk_blk (b_addr b) (b_size b) true) in *.
  destruct (merge_next_spec h1 L1 b1 L2 Hr1) as (h2 & E2 & Hr2 & Hu2).
  cbn [b_addr b1] in E2. rewrite E2. cbn [mbind option_bind].
  assert (∃ b2 L3, absorb b1 L2 = b2 :: L3 ∧ b_addr b2 = b_addr b ∧ b_free b2 = true ∧ live L3 = live L2)
    as (b2 & L3 & Eab & Ea & Hf & Hl).
  { destruct L2 as [|c L2]; [by eexists _, _|]. cbn [absorb]. rewrite live_cons.
    destruct (b_free c) eqn:Hc; eexists _, _; split_and!; try done. by rewrite live_cons, Hc. }
  rewrite Eab in Hr2. destruct (merge_prev_spec h2 L1 b2 L3 Hr2 Hf) as (h3 & L' & E3 & Hr3 & Hl3 & Hu3).
  rewrite Ea in E3. exists h3, L'. split_and!; [done|done|by rewrite Hl3, Hl|].
  eapply untouched_trans; [|eapply untouched_trans].
  - eapply untouched_sub; [|exact Hu1]. intros a. rewrite hdr_of_app, !hdr_of_cons, hdr_of_nil. tauto.
  - eapply untouched_sub; [|exact Hu2]. intros a. rewrite !hdr_of_app, !hdr_of_cons. done.
  - eapply untouched_sub; [|exact Hu3]. intros a. rewrite <- Eab, !hdr_of_app.
    intros [?|?%hdr_of_absorb]; [by left|right]. rewrite hdr_of_cons in *. done.
Qed.

(** ** Allocating *)

Lemma take_block_spec h L1 b L2 tot :
  heap_repr h (L1 ++ b :: L2) → 48 ≤ tot → tot mod 16 = 0 → fits tot b = true →
  ∃ h', take_block (b_addr b) tot h = Some h' ∧ heap_repr h' (L1 ++ carve b tot ++ L2) ∧
    untouched (L1 ++ carve b tot ++ L2) (heap_mem h) (heap_mem h').
Proof.
  intros Hr Ht Ht16 Hfit. unfold fits in Hfit. bool_hyps.
  pose proof Hr as [_ Hs Ho Hmax _]. pose proof kheap_start_range as Hst.
  pose proof Ho as (Ho1 & (Hb & _) & Ho2)%ordered_mid.
  pose proof (ordered_le _ _ _ Ho1). pose proof (ordered_le _ _ _ Ho2).
  apply seg_app in Hs as (_ & Hn & _). unfold take_block.
  rewrite (rd_node h b _ _ F_SIZE ltac:(apply hdr_mapped_range; lia) Hn). cbn [mbind option_bind].
  rewrite (u64_id (b_size b - tot)) by lia. unfold carve.
  destruct (48 <=? b_size b - tot) eqn:E; bool_hyps.
  - destruct (split_block_spec h L1 b L2 tot Hr Ht Ht16 E) as (h1 & -> & Hr1 & Hu1).
    cbn [mbind option_bind].
    destruct (set_free_spec h1 L1 _ _ false Hr1) as (h2 & E2 & Hr2 & Hu2).
    cbn [b_addr b_size] in *. change (b2z false) with 0 in E2.
    exists h2. split_and!; [done..|]. eapply untouched_trans.
    + eapply untouched_sub; [|exact Hu1]. intros a.
      cbn [app]. rewrite !hdr_of_app, !hdr_of_cons. cbn [b_addr]. tauto.
    + eapply untouched_sub; [|exact Hu2]. intros a.
      cbn [app]. rewrite !hdr_of_app, !hdr_of_cons, hdr_of_nil. cbn [b_addr]. tauto.
  - destruct (set_free_spec h L1 b L2 false Hr) as (h2 & E2 & Hr2 & Hu2).
    change (b2z false) with 0 in E2. exists h2. split_and!; [done..|].
    eapply untouched_sub; [|exact Hu2]. intros a.
    cbn [app]. rewrite !hdr_of_app, !hdr_of_cons, hdr_of_nil. cbn [b_addr]. tauto.
Qed.

(** [n] pages can be had at [va], one after the other. *)
Fixpoint pages_available (n : nat) (va : Z) (pg : P) : bool :=
  match n with
  | O => true
  | S n' => let '(ok, pg') := heap_grow va pg in ok && pages_available n' (va + PAGE_SIZE) pg'
  end.

(** The heap has room below its limit for [tot] bytes, rounded up to pages,
    and the pages can be had. *)
Definition can_grow (tot : Z) h : bool :=
  let n := (tot + PAGE_SIZE - 1) / PAGE_SIZE in
  (heap_current_end h + n * PAGE_SIZE <=? kheap_start + KHEAP_MAX) &&
  pages_available (Z.to_nat n) (heap_current_end h) (heap_pages h).

(** The end of the heap moves page by page; the blocks stay. *)
Lemma map_pages_spec L n : ∀ h,
  heap_repr h L → heap_current_end h + Z.of_nat n * PAGE_SIZE ≤ kheap_start + KHEAP_MAX →
  ∃ ok h', map_pages n h = (ok, h') ∧ ok = pages_available n (heap_current_end h) (heap_pages h) ∧
    heap_repr h' L ∧ heap_mem h' = heap_mem h ∧ heap_head h' = heap_head h ∧
    (ok = true → heap_current_end h' = heap_current_end h + Z.of_nat n * PAGE_SIZE).
Proof.
  pose proof kheap_start_range as Hst.
  induction n as [|n IH]; intros h Hr Hle; cbn [map_pages pages_available].
  { exists true, h. split_and!; [done..|lia]. }
  pose proof (ordered_le _ _ _ (hr_ord _ _ Hr)).
  destruct (heap_grow (heap_current_end h) (heap_pages h)) as [[] pg].
  2: { exists false, (h <| heap_pages := pg |>). split_and!; [done|done|by destruct Hr|done..]. }
  destruct (IH (h <| heap_pages := pg |> <| heap_current_end := heap_current_end h + PAGE_SIZE |>))
    as (ok & h' & E & Hok & Hr' & Hm & Hh & Hend).
  - destruct Hr as [Hh Hs Ho Hmax Hpg]. constructor; [done..| |cbn|].
    + eapply ordered_upper; [exact Ho|]. cbn. lia.
    + change (heap_current_end h + PAGE_SIZE ≤ kheap_start + KHEAP_MAX). lia.
    + change ((heap_current_end h + PAGE_SIZE) mod PAGE_SIZE = 0).
      rewrite Z.add_mod, Hpg by lia. done.
  - change (heap_current_end h + PAGE_SIZE + Z.of_nat n * PAGE_SIZE ≤ kheap_start + KHEAP_MAX). lia.
  - exists ok, h'. rewrite u64_id by (change (heap_current_end (h <| heap_pages := pg |>))
      with (heap_current_end h); lia).
    split_and!; [done..|]. intros Ht. rewrite (Hend Ht).
    change (heap_current_end h + PAGE_SIZE + Z.of_nat n * PAGE_SIZE = heap_current_end h + Z.of_nat (S n) * PAGE_SIZE).
    lia.
Qed.

Lemma tail_loop_spec h L : ∀ fuel p,
  L ≠ [] → (length L < fuel)%nat → ordered kheap_start L (heap_current_end h) → seg (heap_mem h) p L 0 →
  tail_loop fuel (haddr L 0) h = Some (laddr 0 L).
Proof.
  pose proof kheap_start_range as Hst.
  induction L as [|b L IH]; intros [|fuel] p Hne Hf Hord Hseg; [done..|simpl in Hf; lia|].
  pose proof (mapped_elem h (b :: L) b Hord (list_elem_of_here _ _)) as Hm.
  destruct Hseg as [Hn Hseg]. cbn [tail_loop haddr laddr].
  rewrite (rd_node h b _ _ F_NEXT Hm Hn). cbn [mbind option_bind].
  destruct Hord as (? & [? _] & Hord).
  assert (Hord' : ordered kheap_start L (heap_current_end h)) by (eapply ordered_lower; [done|lia]).
  destruct L as [|c L]; [done|].
  rewrite (proj2 (Z.eqb_neq (haddr (c :: L) 0) 0)) by (destruct Hord' as (? & _); simpl; lia).
  rewrite (IH fuel (b_addr b)) by (done || simpl in *; lia). done.
Qed.

Lemma heap_tail_spec h L : heap_repr h L → heap_tail h = Some (laddr 0 L).
Proof.
  intros [Hh Hs Ho _ _]. pose proof kheap_start_range as Hst. unfold heap_tail. rewrite Hh.
  destruct L as [|b L]; [done|].
  rewrite (proj2 (Z.eqb_neq (haddr (b :: L) 0) 0)) by (destruct Ho as (? & _); simpl; lia).
  eapply tail_loop_spec; [done|by apply walk_fuel_enough|done..].
Qed.

(** [if (!heap_head) heap_head = p]. *)
Definition fix_head (p : Z) h : heap_st P :=
  if heap_head h =? 0 then h <| heap_head := p |> else h.

Lemma fix_head_mem p h : heap_mem (fix_head p h) = heap_mem h.
Proof. unfold fix_head. by destruct (heap_head h =? 0). Qed.

Lemma append_spec h L e tot :
  heap_repr h L → ordered kheap_start L e → e + tot = heap_current_end h → 48 ≤ tot →
  e mod 16 = 0 → tot mod 16 = 0 →
  ∃ h', append_block (laddr 0 L) e tot h = Some h' ∧
    heap_repr (fix_head e h') (L ++ [mk_blk e tot true]) ∧ heap_head h' = heap_head h ∧
    untouched (L ++ [mk_blk e tot true]) (heap_mem h) (heap_mem h').
Proof.
  intros [Hh Hs _ Hmax Hpg] Ho Hend Ht He16 Ht16. pose proof kheap_start_range as Hst.
  pose proof (ordered_le _ _ _ Ho). pose proof (laddr_range _ _ _ (proj1 Hst) Ho) as Hl.
  unfold append_block. rewrite (heap_mem_id h). hstep.
  set (m4 := store64 (store64 _ _ _) _ _).
  assert (Hs4 : seg m4 0 L 0).
  { eapply seg_ext; [exact Ho| |exact Hs]. intros a ?. unfold m4, bh_off. by mem_simp. }
  assert (Hn4 : node m4 (mk_blk e tot true) (laddr 0 L) 0).
  { unfold node, m4, bh_off. cbn [b_addr b_size b_free]. by mem_simp. }
  set (m5 := set_next_of (laddr 0 L) e m4).
  assert (Hs5 : seg m5 0 L e) by (eapply set_next_of_seg; [|exact Ho|lia|exact Hs4]; lia).
  exists (h <| heap_mem := m5 |>).
  assert (Hlast : laddr 0 L ≠ 0 → ∃ b, b ∈ L ∧ laddr 0 L = b_addr b ∧ kheap_start ≤ b_addr b ∧ b_end b ≤ e ∧ 48 ≤ b_size b).
  { intros Hne. destruct L as [|b L _] using rev_ind; [done|]. exists b. rewrite laddr_app.
    assert (Hb : b ∈ L ++ [b]) by (apply elem_of_app; right; by left).
    destruct (ordered_elem _ _ _ _ Ho Hb) as (? & [? _] & ?). by split_and!. }
  assert (Hout : ∀ a, ¬ hdr_of L a → byte_at m5 a = byte_at m4 a).
  { intros a Ha. unfold m5, set_next_of. destruct (laddr 0 L =? 0) eqn:E; bool_hyps; [done|].
    destruct (Hlast E) as (b & Hb & -> & _). apply byte_at_store64_ne. unfold bh_off.
    destruct (decide (b_addr b ≤ a < b_addr b + 32)); [|lia]. exfalso. apply Ha. by exists b. }
  split_and!.
  - unfold m5, set_next_of. destruct (laddr 0 L =? 0) eqn:E; bool_hyps; [done|].
    destruct (Hlast E) as (b & Hb & -> & ? & ? & ?). by rewrite wr_upd by lia.
  - assert (Hr : heap_head (fix_head e (h <| heap_mem := m5 |>)) = haddr (L ++ [mk_blk e tot true]) 0).
    { unfold fix_head. change (heap_head (h <| heap_mem := m5 |>)) with (heap_head h). rewrite Hh.
      destruct L as [|b L]; [done|]. simpl. destruct Ho as (? & _).
      rewrite (proj2 (Z.eqb_neq (b_addr b) 0)) by lia. done. }
    assert (Hc : heap_current_end (fix_head e (h <| heap_mem := m5 |>)) = heap_current_end h)
      by (unfold fix_head; by case_match).
    constructor; rewrite ?Hc; [done| | |done..].
    + rewrite fix_head_mem. apply seg_app. split; [exact Hs5|].
      split; [|done]. change (node m5 (mk_blk e tot true) (laddr 0 L) 0).
      eapply node_ext; [|exact Hn4]. intros a Ha. apply Hout. cbn [b_addr] in Ha.
      intros (b & Hb & ?). destruct (ordered_elem _ _ _ _ Ho Hb) as (? & [? _] & ?). lia.
    + apply ordered_mid. unfold blk_ok. cbn [b_addr b_size ordered]. split_and!; [done..|lia].
  - done.
  - intros a. rewrite hdr_of_app, hdr_of_cons. cbn [b_addr]. intros Ha.
    change (byte_at m5 a = byte_at (heap_mem h) a). rewrite Hout by tauto.
    unfold m4, bh_off. rewrite !byte_at_store64_ne by (naive_solver lia). done.
Qed.

(** The tail grows in place. *)
Lemma extend_spec h L b tot :
  heap_repr h (L ++ [b]) → b_end b + tot ≤ heap_current_end h → 0 ≤ tot → tot mod 16 = 0 →
  ∃ h', wr F_SIZE (b_addr b) (b_size b + tot) h = Some h' ∧
    heap_repr h' (L ++ [mk_blk (b_addr b) (b_size b + tot) (b_free b)]) ∧
    heap_head h' = heap_head h ∧ untouched [b] (heap_mem h) (heap_mem h').
Proof.
  intros [Hh Hs Ho Hmax Hpg] Hle Ht Ht16. pose proof kheap_start_range as Hst.
  pose proof Ho as (Ho1 & (Hb & Ha16 & Hs16) & Ho2)%ordered_mid.
  pose proof (ordered_le _ _ _ Ho1). rewrite wr_mapped by (apply hdr_mapped_range; lia).
  eexists. split; [reflexivity|].
  assert (Heq : ∀ a, ¬ (b_addr b ≤ a < b_addr b + HEADER_SIZE) →
            byte_at (store64 (heap_mem h) (b_addr b + bh_off F_SIZE) (b_size b + tot)) a = byte_at (heap_mem h) a)
    by (intros a ?; unfold bh_off; mem_simp; done).
  split_and!; [|done|].
  - constructor; [| | |done..].
    + etrans; [exact Hh|]. by apply haddr_mid.
    + change (seg (store64 (heap_mem h) (b_addr b + bh_off F_SIZE) (b_size b + tot)) 0
        (L ++ [mk_blk (b_addr b) (b_size b + tot) (b_free b)]) 0).
      eapply seg_mid_update; [exact Ho|done|exact Heq|exact Hs|].
      apply seg_app in Hs as (_ & (Hn1 & Hn2 & Hn3 & Hn4) & _).
      unfold node, bh_off in *. cbn [b_addr b_size b_free] in *. by mem_simp.
    + apply ordered_mid. unfold blk_ok. cbn [b_addr b_size ordered].
      split_and!; [done|lia|done|by apply mod16_mid|].
      change (b_addr b + (b_size b + tot) ≤ heap_current_end h). lia.
  - intros a. rewrite hdr_of_cons, hdr_of_nil. intros Ha. apply Heq. tauto.
Qed.

Lemma align_up_16 v : 0 ≤ v → v + 15 < 2 ^ 64 → align_up v ALIGNMENT = (v + 15) / 16 * 16.
Proof.
  intros. unfold align_up. rewrite (u64_id (v + 16 - 1)) by lia.
  change (16 - 1) with (Z.ones 4). rewrite land_align by lia. change (2 ^ 4) with 16. f_equal. f_equal. lia.
Qed.

Lemma total_needed_spec size :
  0 < size ≤ 2 ^ 29 → size + 32 ≤ total_needed size ≤ size + 47 ∧ 48 ≤ total_needed size ∧
  total_needed size mod 16 = 0.
Proof.
  intros ?. unfold total_needed. rewrite (u64_id (size + 32)), align_up_16 by lia.
  pose proof (Z.div_mod (size + 32 + 15) 16 ltac:(lia)).
  pose proof (Z.mod_pos_bound (size + 32 + 15) 16 ltac:(lia)).
  destruct (_ <? 48) eqn:E; bool_hyps; [split_and!; [lia..|done]|].
  split_and!; [lia..|]. by apply Z.mod_mul.
Qed.

(** The second half of [heap_expand], once the pages are mapped. *)
Definition expand_link (e tot : Z) h : option (Z * heap_st P) :=
  tail ← heap_tail h;
  extends ← tail_extends tail e h;
  if (extends : bool) then
    size ← rd F_SIZE tail h;
    h ← wr F_SIZE tail (u64 (size + tot)) h;
    Some (tail, h)
  else
    h ← append_block tail e tot h;
    Some (e, h).

Lemma tail_extends_spec h L b e :
  heap_repr h (L ++ [b]) →
  tail_extends (b_addr b) e h = Some (b_free b && (b_end b =? e)) ∧ rd F_SIZE (b_addr b) h = Some (b_size b).
Proof.
  intros [_ Hs Ho Hmax _]. pose proof kheap_start_range as Hst.
  pose proof Ho as (Ho1 & (Hb & _) & Ho2)%ordered_mid. cbn [ordered] in Ho2.
  pose proof (ordered_le _ _ _ Ho1). apply seg_app in Hs as (_ & Hn & _).
  assert (Hm : hdr_mapped (b_addr b) h = true) by (apply hdr_mapped_range; lia).
  unfold tail_extends. rewrite (proj2 (Z.eqb_neq (b_addr b) 0)) by lia.
  rewrite !(rd_node h b _ _ _ Hm Hn). cbn [mbind option_bind].
  by rewrite free_b2z, negb_involutive, (u64_id (b_end b)) by lia.
Qed.

Lemma expand_link_spec h L e tot :
  heap_repr h L → ordered kheap_start L e → e + tot = heap_current_end h → 48 ≤ tot →
  e mod 16 = 0 → tot mod 16 = 0 →
  ∃ p h', expand_link e tot h = Some (p, h') ∧ p ≠ 0 ∧ heap_head h' = heap_head h ∧
    ∃ L1 b, heap_repr (fix_head p h') (L1 ++ [b]) ∧ b_free b = true ∧ tot ≤ b_size b ∧
      live (L1 ++ [b]) = live L ∧ untouched (L1 ++ [b]) (heap_mem h) (heap_mem h').
Proof.
  intros Hr Ho Hend Ht He16 Ht16. pose proof kheap_start_range as Hst.
  pose proof (ordered_le _ _ _ Ho). pose proof (hr_max _ _ Hr).
  destruct (append_spec h L e tot) as (h2 & E2 & Hr2 & Hh2 & Hu2); [done..|].
  unfold expand_link. rewrite (heap_tail_spec h L Hr). cbn [mbind option_bind].
  assert (Happ : ∃ p h', (h' ← append_block (laddr 0 L) e tot h; Some (e, h')) = Some (p, h') ∧ p ≠ 0 ∧ heap_head h' = heap_head h ∧
    ∃ L1 b, heap_repr (fix_head p h') (L1 ++ [b]) ∧ b_free b = true ∧ tot ≤ b_size b ∧
      live (L1 ++ [b]) = live L ∧ untouched (L1 ++ [b]) (heap_mem h) (heap_mem h')).
  { rewrite E2. eexists _, h2. split; [done|]. split; [lia|]. split; [done|]. eexists _, _.
    split_and!; [exact Hr2|done|cbn [b_size]; lia| |exact Hu2].
    rewrite live_app, live_cons. cbn [b_free]. by rewrite app_nil_r. }
  destruct L as [|b L _] using rev_ind; [exact Happ|].
  rewrite laddr_app in *. destruct (tail_extends_spec h L b e Hr) as [-> ->].
  cbn [mbind option_bind]. destruct (b_free b && (b_end b =? e)) eqn:Ex; [|exact Happ].
  apply andb_true_iff in Ex as [Hfb Hadj%Z.eqb_eq].
  pose proof Ho as (Ho1 & (Hb & _) & _)%ordered_mid. pose proof (ordered_le _ _ _ Ho1).
  rewrite (u64_id (b_size b + tot)) by lia.
  destruct (extend_spec h L b tot Hr) as (h3 & E3 & Hr3 & Hh3 & Hu3); [lia..|done|].
  rewrite E3. cbn [mbind option_bind].
  eexists _, h3. split; [done|]. split; [lia|]. split; [done|].
  exists L, (mk_blk (b_addr b) (b_size b + tot) (b_free b)). split_and!; [|done|cbn [b_size]; lia|..].
  - unfold fix_head. rewrite Hh3, (hr_head _ _ Hr).
    rewrite (proj2 (Z.eqb_neq (haddr (L ++ [b]) 0) 0)); [exact Hr3|].
    destruct L; simpl in *; [lia|]. destruct Ho1; lia.
  - rewrite !live_app, !live_cons. cbn [b_free]. by rewrite Hfb.
  - eapply untouched_sub; [|exact Hu3]. intros a. rewrite hdr_of_app, !hdr_of_cons, hdr_of_nil. cbn [b_addr]. tauto.
Qed.

Lemma heap_expand_spec h L tot :
  heap_repr h L → 48 ≤ tot ≤ 2 ^ 29 + 48 →
  ∃ p h', heap_expand tot h = Some (p, h') ∧ heap_head h' = heap_head h ∧
    (p = 0 ∧ can_grow tot h = false ∧ heap_repr h' L ∧ heap_mem h' = heap_mem h ∨
     p ≠ 0 ∧ can_grow tot h = true ∧ ∃ L1 b, heap_repr (fix_head p h') (L1 ++ [b]) ∧ fits tot b = true ∧
       live (L1 ++ [b]) = live L ∧ untouched (L1 ++ [b]) (heap_mem h) (heap_mem h')).
Proof.
  intros Hr Ht. pose proof Hr as [Hh Hs Ho Hmax Hpg]. pose proof kheap_start_range as Hst.
  pose proof (ordered_le _ _ _ Ho) as Hle0. unfold heap_expand, can_grow.
  rewrite (u64_id (tot + PAGE_SIZE - 1)) by lia.
  pose proof (Z.div_mod (tot + PAGE_SIZE - 1) PAGE_SIZE ltac:(lia)) as Hdm.
  pose proof (Z.mod_pos_bound (tot + PAGE_SIZE - 1) PAGE_SIZE ltac:(lia)) as Hmb.
  set (n := (tot + PAGE_SIZE - 1) / PAGE_SIZE) in *.
  rewrite (u64_id (n * PAGE_SIZE)), (u64_id (kheap_start + KHEAP_MAX)),
    (u64_id (heap_current_end h + n * PAGE_SIZE)) by lia.
  destruct (_ <? _) eqn:Elim; bool_hyps.
  { exists 0, h. rewrite (proj2 (Z.leb_gt _ _)) by lia. split_and!; [done..|by left]. }
  rewrite (proj2 (Z.leb_le _ _)) by lia. cbn [andb].
  destruct (map_pages_spec L (Z.to_nat n) h Hr ltac:(lia)) as (ok & h1 & E1 & <- & Hr1 & Hm1 & Hh1 & Hend).
  rewrite E1. destruct ok; cbn [negb]; [|exists 0, h1; split_and!; [done..|by left]].
  specialize (Hend eq_refl).
  destruct (expand_link_spec h1 L (heap_current_end h) (n * PAGE_SIZE)) 
    as (p & h' & E & Hp & Hh' & L1 & b & Hr' & Hf & Hb & Hl & Hu);
    [done..|lia|lia| | |].
  { apply Z.mod_divide in Hpg as [k ->]; [|lia].
    replace (k * PAGE_SIZE) with (k * 256 * 16) by lia. by apply Z.mod_mul. }
  { replace (n * PAGE_SIZE) with (n * 256 * 16) by lia. by apply Z.mod_mul. }
  exists p, h'. split; [exact E|]. split; [congruence|]. right. split; [done|]. split; [done|]. exists L1, b. rewrite Hm1 in Hu.
  split_and!; [done| |done..]. unfold fits. rewrite Hf. apply Z.leb_le. lia.
Qed.

(** [L'] is a heap with one more live block [b] than [L]. *)
Definition one_more (tot : Z) (L L' : list blk) (b : blk) : Prop :=
  ∃ L1 L2, L' = L1 ++ b :: L2 ∧ b_free b = false ∧ tot ≤ b_size b ∧ live L1 ++ live L2 = live L.

Lemma try_fit_spec h L tot :
  heap_repr h L → 48 ≤ tot → tot mod 16 = 0 →
  (try_fit tot h = Some None ∧ Forall (λ b, fits tot b = false) L) ∨
  (∃ h' L' b, try_fit tot h = Some (Some (b_ptr b, h')) ∧ heap_repr h' L' ∧ one_more tot L L' b ∧
     (∀ a, hdr_of L a → hdr_of L' a) ∧ untouched L' (heap_mem h) (heap_mem h') ∧
     Exists (λ b, fits tot b = true) L).
Proof.
  intros Hr Ht Ht16. pose proof Hr as [Hh Hs Ho Hmax _]. pose proof kheap_start_range as Hst.
  unfold try_fit. rewrite Hh.
  destruct (fit_loop_spec tot h L (walk_fuel h) 0) as [[-> HF]|(L1 & b & L2 & -> & -> & Hfit & _)];
    [by apply walk_fuel_enough|done..|by left|right].
  cbn [mbind option_bind]. pose proof Ho as (Ho1 & (Hb & _) & Ho2)%ordered_mid.
  pose proof (ordered_le _ _ _ Ho1). pose proof (ordered_le _ _ _ Ho2).
  rewrite (proj2 (Z.eqb_neq (b_addr b) 0)) by lia.
  destruct (take_block_spec h L1 b L2 tot Hr Ht Ht16 Hfit) as (h' & -> & Hr' & Hu).
  cbn [mbind option_bind]. rewrite (u64_id (b_ptr b)) by lia.
  assert (Hex : Exists (λ b, fits tot b = true) (L1 ++ b :: L2)) by (apply Exists_app; right; by constructor).
  unfold fits in Hfit. apply andb_true_iff in Hfit as [Hf Hle%Z.leb_le].
  assert (Hlive : live (L1 ++ b :: L2) = live L1 ++ live L2) by (rewrite live_app, live_cons, Hf; done).
  unfold carve in *. destruct (48 <=? b_size b - tot); bool_hyps; cbn [app] in *.
  - eexists h', _, (mk_blk (b_addr b) tot false). split_and!; [done|exact Hr'| | |exact Hu|exact Hex].
    + eexists L1, _. split_and!; [done|done|cbn [b_size]; lia|]. rewrite live_cons. cbn [b_free]. by rewrite Hlive.
    + intros a. rewrite !hdr_of_app, !hdr_of_cons. cbn [b_addr]. tauto.
  - eexists h', _, (mk_blk (b_addr b) (b_size b) false). split_and!; [done|exact Hr'| | |exact Hu|exact Hex].
    + eexists L1, _. split_and!; [done|done|cbn [b_size]; lia|]. by rewrite Hlive.
    + intros a. rewrite !hdr_of_app, !hdr_of_cons. cbn [b_addr]. tauto.
Qed.

Lemma kmalloc_spec h L size :
  heap_repr h L → 0 < size ≤ 2 ^ 29 →
  ∃ p h' L', kmalloc size h = Some (p, h') ∧ heap_repr h' L' ∧ untouched L' (heap_mem h) (heap_mem h') ∧
    (p = 0 ∧ live L' = live L ∧ Forall (λ b, fits (total_needed size) b = false) L ∧
       can_grow (total_needed size) h = false ∨
     (∃ b, p = b_ptr b ∧ one_more (size + 32) L L' b) ∧
       (Exists (λ b, fits (total_needed size) b = true) L ∨ can_grow (total_needed size) h = true)).
Proof.
  intros Hr Hsz. destruct (total_needed_spec size Hsz) as (Hb1 & Hb2 & H16).
  assert (Hone : ∀ L L' b, one_more (total_needed size) L L' b → one_more (size + 32) L L' b).
  { intros ? ? ? (? & ? & ? & ? & ? & ?). eexists _, _. split_and!; [done..|lia|done]. }
  unfold kmalloc. rewrite (proj2 (Z.eqb_neq size 0)) by lia.
  destruct (try_fit_spec h L _ Hr Hb2 H16) as [[-> HF]|(h' & L' & b & -> & Hr' & Hl & _ & Hu & Hex)].
  2: { eexists _, h', L'. split_and!; [done..|]. right. eauto 6. }
  cbn [mbind option_bind].
  destruct (heap_expand_spec h L (total_needed size) Hr ltac:(lia))
    as (p & h1 & -> & _ & [(-> & Hg & Hr1 & Hm)|(Hp & Hg & L1 & b & Hr1 & Hfit & Hlive & Hu1)]); cbn [mbind option_bind].
  { eexists 0, h1, L. split_and!; [done..| |by left]. rewrite Hm. apply untouched_refl. }
  rewrite (proj2 (Z.eqb_neq p 0)) by done. change (if heap_head h1 =? 0 then _ else h1) with (fix_head p h1).
  destruct (try_fit_spec _ _ _ Hr1 Hb2 H16) as [[_ HF']|(h' & L' & c & -> & Hr' & Hone' & Hin & Hu & _)].
  { exfalso. apply Forall_app in HF' as [_ HF']. apply Forall_cons in HF' as [HF' _]. congruence. }
  exists (b_ptr c), h', L'. rewrite fix_head_mem in Hu. split_and!; [done..| |right].
  - eapply untouched_trans; [|exact Hu]. by eapply untouched_sub; [|exact Hu1].
  - split; [|by right]. exists c. split; [done|]. apply Hone in Hone' as (La & Lb & ? & ? & ? & Hl).
    exists La, Lb. split_and!; [done..|congruence].
Qed.

(** ** Objects

    What clients see: byte objects by pointer. *)

Record obj_repr h (O : gmap Z (list Z)) L : Prop := {
  or_heap : heap_repr h L;
  or_obj p bs : O !! p = Some bs →
    ∃ b, b ∈ live L ∧ p = b_ptr b ∧ Z.of_nat (length bs) + HEADER_SIZE ≤ b_size b ∧
      load_bytes (heap_mem h) p (length bs) = bs;
  or_live b : b ∈ live L → is_Some (O !! b_ptr b)
}.

Lemma elem_of_live b L : b ∈ live L ↔ b ∈ L ∧ b_free b = false.
Proof. unfold live. rewrite list_elem_of_filter. tauto. Qed.

Lemma ordered_disjoint lo L hi b c :
  ordered lo L hi → b ∈ L → c ∈ L → b = c ∨ b_end b ≤ b_addr c ∨ b_end c ≤ b_addr b.
Proof.
  intros HL Hb Hc. apply list_elem_of_split in Hb as (L1 & L2 & ->).
  pose proof HL as (Ho1 & _ & Ho2)%ordered_mid.
  apply elem_of_app in Hc as [Hc|[->|Hc]%elem_of_cons]; [|by left|].
  - destruct (ordered_elem _ _ _ _ Ho1 Hc) as (_ & _ & ?). tauto.
  - destruct (ordered_elem _ _ _ _ Ho2 Hc) as (? & _). tauto.
Qed.

(** The payload of a block holds no header. *)
Lemma payload_untouched lo L hi b m m' n :
  ordered lo L hi → b ∈ L → untouched L m m' → Z.of_nat n + HEADER_SIZE ≤ b_size b →
  load_bytes m' (b_ptr b) n = load_bytes m (b_ptr b) n.
Proof.
  intros HL Hb Hu Hn. apply load_bytes_ext. intros a Ha. apply Hu. intros (c & Hc & Hac).
  destruct (ordered_elem _ _ _ _ HL Hc) as (_ & [? _] & _).
  destruct (ordered_disjoint _ _ _ _ _ HL Hb Hc) as [<-|[?|?]]; lia.
Qed.

(** Distinct objects do not overlap. *)
Lemma obj_disjoint h O L p q bs cs :
  obj_repr h O L → O !! p = Some bs → O !! q = Some cs → p ≠ q →
  p + Z.of_nat (length bs) ≤ q ∨ q + Z.of_nat (length cs) ≤ p.
Proof.
  intros [Hr Ho _] (b & [Hb _]%elem_of_live & -> & ? & _)%Ho (c & [Hc _]%elem_of_live & -> & ? & _)%Ho Hne.
  destruct (ordered_disjoint _ _ _ _ _ (hr_ord _ _ Hr) Hb Hc) as [->|[?|?]]; [done|lia..].
Qed.

(** A live block is the block of an object, which is its pointer's only one. *)
Lemma obj_block h O L p bs :
  obj_repr h O L → O !! p = Some bs →
  ∃ L1 b L2, L = L1 ++ b :: L2 ∧ p = b_ptr b ∧ b_free b = false ∧
    Z.of_nat (length bs) + HEADER_SIZE ≤ b_size b ∧ load_bytes (heap_mem h) p (length bs) = bs.
Proof.
  intros [_ Ho _] (b & [Hb Hf]%elem_of_live & -> & ? & ?)%Ho.
  apply list_elem_of_split in Hb as (L1 & L2 & ->). by exists L1, b, L2.
Qed.

Lemma live_ptr_range h L b :
  heap_repr h L → b ∈ L → b_ptr b ≠ 0 ∧ b_ptr b < 2 ^ 64 ∧ b_ptr b mod 16 = 0 ∧
    kheap_start ≤ b_addr b ∧ b_end b ≤ heap_current_end h.
Proof.
  intros Hr Hb. pose proof kheap_start_range. pose proof (hr_max _ _ Hr).
  destruct (ordered_elem _ _ _ _ (hr_ord _ _ Hr) Hb) as (? & (? & ? & ?) & ?).
  split_and!; [lia|lia|by apply mod16_mid|lia|lia].
Qed.

Lemma kmalloc_obj h O L size :
  obj_repr h O L → 0 < size ≤ 2 ^ 29 →
  ∃ p h' L', kmalloc size h = Some (p, h') ∧
    (p = 0 ∧ obj_repr h' O L' ∨
     p ≠ 0 ∧ O !! p = None ∧ obj_repr h' (<[p := load_bytes (heap_mem h') p (Z.to_nat size)]> O) L').
Proof.
  intros [Hr Ho Hl] Hsz.
  destruct (kmalloc_spec h L size Hr Hsz) as (p & h' & L' & E & Hr' & Hu & Hcase).
  exists p, h', L'. split; [done|].
  assert (Hkeep : ∀ q bs, live L ⊆ live L' → O !! q = Some bs → ∃ b, b ∈ live L' ∧ q = b_ptr b ∧
      Z.of_nat (length bs) + HEADER_SIZE ≤ b_size b ∧ load_bytes (heap_mem h') q (length bs) = bs).
  { intros q bs Hsub (b & Hb & -> & ? & Hbs)%Ho. apply Hsub in Hb. exists b. split_and!; [done..|].
    apply elem_of_live in Hb as [Hb _]. by erewrite payload_untouched by (try apply (hr_ord _ _ Hr'); done). }
  destruct Hcase as [(-> & HL & _)|[(b & -> & L1 & L2 & -> & Hf & Hb & HL) _]].
  { left. split; [done|]. constructor; [done|..]; rewrite HL in *; [intros; by apply Hkeep|done]. }
  right. assert (Hbin : b ∈ L1 ++ b :: L2) by (apply elem_of_app; right; by left).
  destruct (live_ptr_range _ _ _ Hr' Hbin) as (Hp0 & _). split; [done|].
  assert (Hsub : live L ⊆ live (L1 ++ b :: L2)).
  { rewrite <- HL, live_app, live_cons, Hf. intros c. rewrite !elem_of_app, elem_of_cons. tauto. }
  assert (Hnew : O !! b_ptr b = None).
  { destruct (O !! b_ptr b) as [bs|] eqn:EO; [|done]. exfalso.
    destruct (Ho _ _ EO) as (c & Hc & Hbc & _). rewrite <- HL in Hc.
    pose proof (hr_ord _ _ Hr') as (Ho1 & (? & _) & Ho2)%ordered_mid.
    apply elem_of_app in Hc as [[Hc _]%elem_of_live|[Hc _]%elem_of_live].
    - destruct (ordered_elem _ _ _ _ Ho1 Hc) as (_ & [? _] & ?). lia.
    - destruct (ordered_elem _ _ _ _ Ho2 Hc) as (? & _). lia. }
  split; [done|]. constructor; [done|..].
  - intros q bs [[<- <-]|[Hne Hq]]%lookup_insert_Some; [|by apply Hkeep].
    exists b. rewrite load_bytes_length. split_and!; [|done|lia|done]. by apply elem_of_live.
  - intros c. rewrite live_app, live_cons, Hf, elem_of_app, elem_of_cons. intros Hc.
    destruct (decide (c = b)) as [->|]; [by rewrite lookup_insert_eq|].
    apply lookup_insert_is_Some'. right. apply Hl. rewrite <- HL, elem_of_app. tauto.
Qed.

Lemma kfree_obj h O L p bs :
  obj_repr h O L → O !! p = Some bs → ∃ h' L', kfree p h = Some h' ∧ obj_repr h' (delete p O) L'.
Proof.
  intros Hor Hp. destruct (obj_block _ _ _ _ _ Hor Hp) as (L1 & b & L2 & -> & -> & Hf & _).
  pose proof Hor as [Hr Ho Hl]. destruct (kfree_spec h L1 b L2 Hr) as (h' & L' & E & Hr' & HL & Hu).
  exists h', L'. split; [done|]. constructor; [done|..].
  - intros q cs [Hne Hq]%lookup_delete_Some. destruct (Ho _ _ Hq) as (c & Hc & -> & ? & Hcs).
    exists c. split_and!; [|done|done|].
    + rewrite HL. rewrite live_app, live_cons, Hf in Hc. apply elem_of_app.
      apply elem_of_app in Hc as [?|[->|?]%elem_of_cons]; [by left|done|by right].
    + apply elem_of_live in Hc as [Hc _].
      by erewrite payload_untouched by (try apply (hr_ord _ _ Hr); done).
  - intros c Hc. assert (Hc' : c ∈ live (L1 ++ b :: L2)).
    { rewrite HL in Hc. rewrite live_app, live_cons, Hf, elem_of_app, elem_of_cons.
      apply elem_of_app in Hc. tauto. }
    rewrite lookup_delete_ne; [by apply Hl|]. intros Heq.
    pose proof (hr_ord _ _ Hr) as (Ho1 & (? & _) & Ho2)%ordered_mid. rewrite HL in Hc.
    apply elem_of_app in Hc as [[Hc _]%elem_of_live|[Hc _]%elem_of_live].
    + destruct (ordered_elem _ _ _ _ Ho1 Hc) as (_ & [? _] & ?). lia.
    + destruct (ordered_elem _ _ _ _ Ho2 Hc) as (? & _). lia.
Qed.

(** A client writes a byte of its object. *)
Definition client_write (p : Z) (i : nat) (v : Z) h : heap_st P :=
  h <| heap_mem := <[p + Z.of_nat i := v]> (heap_mem h) |>.

(** Writing below the payloads changes no header. *)
Lemma payload_write_repr h L m' b :
  heap_repr h L → b ∈ L → (∀ a, ¬ (b_ptr b ≤ a < b_end b) → byte_at m' a = byte_at (heap_mem h) a) →
  heap_repr (h <| heap_mem := m' |>) L.
Proof.
  intros [Hh Hs Ho Hmax Hpg] Hb Heq. constructor; [done| |done..].
  change (seg m' 0 L 0). apply list_elem_of_split in Hb as (L1 & L2 & ->).
  pose proof Ho as (Ho1 & [? _] & Ho2)%ordered_mid. rewrite seg_app in *.
  destruct Hs as (Hs1 & Hn & Hs2). split; [|split].
  - eapply seg_ext; [exact Ho1| |exact Hs1]. intros a ?. apply Heq. lia.
  - eapply node_ext; [|exact Hn]. intros a ?. apply Heq. lia.
  - eapply seg_ext; [exact Ho2| |exact Hs2]. intros a ?. apply Heq. lia.
Qed.

Lemma write_obj h O L p bs m' :
  obj_repr h O L → O !! p = Some bs →
  (∀ a, ¬ (p ≤ a < p + Z.of_nat (length bs)) → byte_at m' a = byte_at (heap_mem h) a) →
  obj_repr (h <| heap_mem := m' |>) (<[p := load_bytes m' p (length bs)]> O) L.
Proof.
  intros Hor Hp Heq. pose proof Hor as [Hr Ho Hl].
  destruct (Ho _ _ Hp) as (b & Hb & -> & Hlen & _). constructor.
  - apply elem_of_live in Hb as [Hb _]. eapply payload_write_repr; [done|exact Hb|].
    intros a ?. apply Heq. lia.
  - intros q cs [[<- <-]|[Hne Hq]]%lookup_insert_Some.
    { exists b. rewrite load_bytes_length. by split_and!. }
    destruct (Ho _ _ Hq) as (c & Hc & Hqc & ? & Hcs). exists c. split_and!; [done..|].
    change (load_bytes m' q (length cs) = cs). rewrite <- Hcs at 2. apply load_bytes_ext. intros a ?.
    apply Heq. destruct (obj_disjoint _ _ _ _ _ _ _ Hor Hp Hq Hne); lia.
  - intros c Hc. apply lookup_insert_is_Some'. right. by apply Hl.
Qed.

Lemma load_bytes_take m a n k : take k (load_bytes m a n) = load_bytes m a (k `min` n).
Proof. unfold load_bytes. by rewrite <- fmap_take, take_seq. Qed.

(** The object after a reallocation to [n] bytes: the old bytes as far as they
    go, then whatever the memory holds. *)
Definition resized (n : nat) (bs junk : list Z) : list Z := take n bs ++ drop (length (take n bs)) junk.

Lemma resized_eq n bs junk : length junk = n → take (length (take n bs)) junk = take n bs → junk = resized n bs junk.
Proof. intros _ Ht. unfold resized. rewrite <- Ht at 1. by rewrite take_drop. Qed.

(** The header of an object's block, as [kfree] and [krealloc] find it. *)
Lemma obj_header h O L p bs :
  obj_repr h O L → O !! p = Some bs →
  ∃ b, b ∈ live L ∧ p = b_ptr b ∧ u64 (p - HEADER_SIZE) = b_addr b ∧ rd F_SIZE (b_addr b) h = Some (b_size b) ∧
    Z.of_nat (length bs) + HEADER_SIZE ≤ b_size b < 2 ^ 64 ∧ 0 < b_addr b.
Proof.
  intros Hor Hp. pose proof Hor as [Hr Ho _].
  destruct (obj_block _ _ _ _ _ Hor Hp) as (L1 & b & L2 & -> & -> & Hf & ? & _).
  assert (Hb : b ∈ L1 ++ b :: L2) by (apply elem_of_app; right; by left).
  destruct (live_ptr_range _ _ _ Hr Hb) as (? & ? & _ & ? & ?).
  pose proof kheap_start_range. pose proof (hr_max _ _ Hr).
  exists b. split_and!; [by apply elem_of_live|done|rewrite u64_id; lia| |lia..].
  pose proof (hr_seg _ _ Hr) as (_ & Hn & _)%seg_app.
  by rewrite (rd_node h b _ _ F_SIZE (mapped_elem _ _ _ (hr_ord _ _ Hr) Hb) Hn).
Qed.

(** The copy of [krealloc]. *)
Lemma realloc_copy h O L p q bs cs b n :
  obj_repr h O L → O !! p = Some bs → O !! q = Some cs → p ≠ q →
  b ∈ live L → p = b_ptr b → length cs = Z.to_nat n → 0 < n →
  Z.of_nat (length bs) + HEADER_SIZE ≤ b_size b →
  let k := Z.min n (b_size b - HEADER_SIZE) in
  let h' := heap_memcpy q p k h in
  ∃ X, obj_repr h' (<[q := X]> O) L ∧ length X = Z.to_nat n ∧
    take (length (take (Z.to_nat n) bs)) X = take (Z.to_nat n) bs.
Proof.
  intros Hor Hp Hq Hne Hb -> Hlen Hn Hsz k h'. pose proof Hor as [Hr Ho _].
  set (m' := copy_loop (Z.to_nat k) q (b_ptr b) (heap_mem h)).
  assert (Hr' : obj_repr h' (<[q := load_bytes m' q (length cs)]> O) L).
  { eapply write_obj; [done..|]. intros a ?. apply byte_at_copy_ne. lia. }
  exists (load_bytes m' q (length cs)). split_and!; [done|by rewrite load_bytes_length|].
  destruct (Ho _ _ Hq) as (c & Hc & -> & ? & _). apply elem_of_live in Hb as [Hb _], Hc as [Hc _].
  assert (Hd : b_end b ≤ b_addr c ∨ b_end c ≤ b_addr b).
  { destruct (ordered_disjoint _ _ _ _ _ (hr_ord _ _ Hr) Hb Hc) as [->|]; done. }
  assert (Hcp : load_bytes m' (b_ptr c) (Z.to_nat k) = load_bytes (heap_mem h) (b_ptr b) (Z.to_nat k))
    by (apply load_copy_loop; lia).
  destruct (Ho _ _ Hp) as (b' & _ & Hpb & _ & Hbs). rewrite length_take.
  rewrite load_bytes_take. transitivity (load_bytes (heap_mem h) (b_ptr b) (Z.to_nat n `min` length bs)).
  - replace ((_ `min` _) `min` _)%nat with ((Z.to_nat n `min` length bs) `min` Z.to_nat k)%nat by lia.
    by rewrite <- load_bytes_take, Hcp, load_bytes_take, Nat.min_l by lia.
  - rewrite <- load_bytes_take. by rewrite Hbs.
Qed.

(** The block is large enough: only the view of the object changes. *)
Lemma resize_in_place h O L p bs b n :
  obj_repr h O L → O !! p = Some bs → b ∈ live L → p = b_ptr b → Z.of_nat n + HEADER_SIZE ≤ b_size b →
  obj_repr h (<[p := resized n bs (load_bytes (heap_mem h) p n)]> (delete p O)) L.
Proof.
  intros [Hr Ho Hl] Hp Hb Hpb Hn. set (X := load_bytes (heap_mem h) p n).
  rewrite <- (resized_eq n bs X).
  - rewrite insert_delete_eq. constructor; [done|..].
    + intros q cs [[<- <-]|[Hne Hq]]%lookup_insert_Some; [|by apply Ho].
      exists b. unfold X. rewrite load_bytes_length. by split_and!.
    + intros c Hc. apply lookup_insert_is_Some'. right. by apply Hl.
  - apply load_bytes_length.
  - destruct (Ho _ _ Hp) as (_ & _ & _ & _ & Hbs). unfold X. rewrite load_bytes_take, length_take.
    replace ((_ `min` _) `min` _)%nat with (n `min` length bs)%nat by lia.
    by rewrite <- load_bytes_take, Hbs.
Qed.

Lemma krealloc_obj h O L p bs n :
  obj_repr h O L → O !! p = Some bs → 0 < n ≤ 2 ^ 29 →
  ∃ q h' L', krealloc p n h = Some (q, h') ∧
    (q = 0 ∧ obj_repr h' O L' ∨
     q ≠ 0 ∧ obj_repr h' (<[q := resized (Z.to_nat n) bs (load_bytes (heap_mem h') q (Z.to_nat n))]> (delete p O)) L').
Proof.
  intros Hor Hp Hn. destruct (obj_header _ _ _ _ _ Hor Hp) as (b & Hb & Hpb & Ha & Hsz & Hlen & Hpos).
  unfold krealloc. rewrite (proj2 (Z.eqb_neq p 0)), (proj2 (Z.eqb_neq n 0)), Ha, Hsz by lia.
  cbn [mbind option_bind]. rewrite (u64_id (n + HEADER_SIZE)), align_up_16 by lia.
  pose proof (Z.div_mod (n + HEADER_SIZE + 15) 16 ltac:(lia)).
  pose proof (Z.mod_pos_bound (n + HEADER_SIZE + 15) 16 ltac:(lia)).
  destruct (_ <=? _) eqn:Efit; bool_hyps.
  { eexists p, h, L. split; [done|]. right. split; [lia|]. eapply resize_in_place; [done..|lia]. }
  destruct (kmalloc_obj h O L n Hor Hn) as (q & h1 & L1 & E1 & [[-> Hor1]|(Hq0 & HqO & Hor1)]);
    rewrite E1; cbn [mbind option_bind].
  { eexists 0, h1, L1. split; [done|]. by left. }
  rewrite (proj2 (Z.eqb_neq q 0)) by done.
  assert (Hne : p ≠ q) by congruence. set (O1 := <[q := _]> O) in Hor1.
  assert (Hp1 : O1 !! p = Some bs) by (unfold O1; by rewrite lookup_insert_ne by done).
  assert (Hq1 : O1 !! q = Some (load_bytes (heap_mem h1) q (Z.to_nat n))) by apply lookup_insert_eq.
  destruct (obj_header _ _ _ _ _ Hor1 Hp1) as (c & Hc & Hpc & Hac & Hszc & Hlenc & _).
  assert (Hbc : b_addr b = b_addr c) by congruence. rewrite Hbc, Hszc. cbn [mbind option_bind].
  destruct (realloc_copy h1 O1 L1 p q bs _ c n Hor1 Hp1 Hq1 Hne Hc Hpc (load_bytes_length _ _ _)) as (X & HX & HXl & HXt);
    [lia..|].
  assert (Hpx : <[q := X]> O1 !! p = Some bs) by (by rewrite lookup_insert_ne by done).
  destruct (kfree_obj _ _ _ _ _ HX Hpx) as (h2 & L2 & E2 & Hor2).
  rewrite (u64_id (b_size c - HEADER_SIZE)) by lia.
  replace (if n <? b_size c - HEADER_SIZE then n else b_size c - HEADER_SIZE) with (n `min` (b_size c - HEADER_SIZE))
    by (destruct (n <? _) eqn:?; bool_hyps; lia).
  rewrite E2. cbn [mbind option_bind]. exists q, h2, L2. split; [done|]. right. split; [done|].
  unfold O1 in Hor2. rewrite insert_insert_eq, delete_insert_ne in Hor2 by done.
  assert (Hfin : load_bytes (heap_mem h2) q (Z.to_nat n) = X).
  { destruct (or_obj _ _ _ Hor2 q X) as (_ & _ & _ & _ & Hx); [apply lookup_insert_eq|]. by rewrite <- HXl. }
  by rewrite Hfin, <- (resized_eq (Z.to_nat n) bs X).
Qed.

(** ** Clients *)

(** What a client does: it frees, resizes and writes only objects it has, and
    requests at most 512 MB. *)
Inductive heap_op :=
  | HMalloc (size : Z)
  | HFree (p : Z)
  | HRealloc (p n : Z)
  | HWrite (p : Z) (i : nat) (v : Z).

Definition heap_op_ok (op : heap_op) : Prop :=
  match op with HMalloc n | HRealloc _ n => 0 < n ≤ 2 ^ 29 | _ => True end.

(** An operation on the heap and on the client's view of its objects. *)
Definition heap_exec (op : heap_op) (s : heap_st P * gmap Z (list Z)) :
    option (heap_st P * gmap Z (list Z)) :=
  let '(h, ob) := s in
  match op with
  | HMalloc size =>
      r ← kmalloc size h;
      let '(p, h') := r in
      Some (h', if p =? 0 then ob else <[p := load_bytes (heap_mem h') p (Z.to_nat size)]> ob)
  | HFree p =>
      match ob !! p with
      | Some _ => h' ← kfree p h; Some (h', delete p ob)
      | None => Some s
      end
  | HRealloc p n =>
      match ob !! p with
      | Some bs =>
          r ← krealloc p n h;
          let '(q, h') := r in
          Some (h', if q =? 0 then ob
                    else <[q := resized (Z.to_nat n) bs (load_bytes (heap_mem h') q (Z.to_nat n))]> (delete p ob))
      | None => Some s
      end
  | HWrite p i v =>
      match ob !! p with
      | Some bs => if decide (i < length bs)%nat then Some (client_write p i v h, <[p := <[i := v]> bs]> ob) else Some s
      | None => Some s
      end
  end.

Fixpoint heap_run (ops : list heap_op) (s : heap_st P * gmap Z (list Z)) :=
  match ops with
  | [] => Some s
  | op :: ops' => s' ← heap_exec op s; heap_run ops' s'
  end.

Lemma load_insert_byte m p n i v :
  (i < n)%nat → load_bytes (<[p + Z.of_nat i := v]> m) p n = <[i := v]> (load_bytes m p n).
Proof.
  intros ?. apply list_eq_same_length with n; rewrite ?length_insert, ?load_bytes_length; [done..|].
  intros j x y Hj Hx Hy. rewrite load_bytes_lookup, byte_at_insert in Hx by done.
  rewrite list_lookup_insert in Hy. rewrite load_bytes_length, load_bytes_lookup in Hy by done.
  destruct (decide (i = j)); case_decide; case_decide; naive_solver lia.
Qed.

Lemma heap_exec_ok op h O L :
  obj_repr h O L → heap_op_ok op → ∃ h' O' L', heap_exec op (h, O) = Some (h', O') ∧ obj_repr h' O' L'.
Proof.
  intros Hor Hok. destruct op as [size|p|p n|p i v]; cbn [heap_exec heap_op_ok] in *.
  - destruct (kmalloc_obj h O L size Hor Hok) as (p & h' & L' & -> & [[-> Hor']|(Hp & _ & Hor')]);
      cbn [mbind option_bind]; [by eexists _, _, _|].
    rewrite (proj2 (Z.eqb_neq p 0)) by done. by eexists _, _, _.
  - destruct (O !! p) as [bs|] eqn:Hp; [|by eexists _, _, _].
    destruct (kfree_obj h O L p bs Hor Hp) as (h' & L' & -> & Hor'). by eexists _, _, _.
  - destruct (O !! p) as [bs|] eqn:Hp; [|by eexists _, _, _].
    destruct (krealloc_obj h O L p bs n Hor Hp Hok) as (q & h' & L' & -> & [[-> Hor']|(Hq & Hor')]);
      cbn [mbind option_bind]; [by eexists _, _, _|].
    rewrite (proj2 (Z.eqb_neq q 0)) by done. by eexists _, _, _.
  - destruct (O !! p) as [bs|] eqn:Hp; [|by eexists _, _, _].
    destruct (decide (i < length bs)%nat); [|by eexists _, _, _].
    eexists _, _, L. split; [done|]. destruct (or_obj _ _ _ Hor _ _ Hp) as (_ & _ & _ & _ & Hbs).
    rewrite <- Hbs at 1. rewrite <- load_insert_byte by done. eapply write_obj; [done..|].
    intros a ?. rewrite byte_at_insert, decide_False by lia. done.
Qed.

Lemma heap_run_ok ops : ∀ h O L,
  obj_repr h O L → Forall heap_op_ok ops → ∃ h' O' L', heap_run ops (h, O) = Some (h', O') ∧ obj_repr h' O' L'.
Proof.
  induction ops as [|op ops IH]; intros h O L Hor Hok; [by eexists _, _, _|].
  apply Forall_cons in Hok as [Hop Hok].
  destruct (heap_exec_ok op h O L Hor Hop) as (h' & O' & L' & E & Hor'). cbn [heap_run]. rewrite E. eauto.
Qed.

Lemma kheap_init_obj m pg h : kheap_init m pg = Some h → ∃ L, obj_repr h ∅ L.
Proof.
  pose proof kheap_start_range as Hst. unfold kheap_init.
  assert (Hr : heap_repr (mk_heap m 0 kheap_start pg) []).
  { constructor; cbn; [done..|lia|apply kheap_start_page]. }
  destruct (heap_expand_spec _ [] PAGE_SIZE Hr ltac:(lia))
    as (p & h1 & -> & Hh1 & [(-> & _)|(Hp & _ & L1 & b & Hr1 & _ & Hl & _)]); cbn [mbind option_bind fst snd]; [done|].
  rewrite (proj2 (Z.eqb_neq p 0)) by done. intros [= <-]. exists (L1 ++ [b]).
  unfold fix_head in Hr1. rewrite Hh1 in Hr1. cbn [heap_head Z.eqb] in Hr1.
  constructor; [done|by intros ? ? ?%lookup_empty_Some|]. rewrite Hl. by intros c ?%not_elem_of_nil.
Qed.

(** C36.  The heap is a store of disjoint objects.  From a heap that initialised,
    every sequence of allocations, frees, reallocations and writes by clients
    that ask for 1 byte to 512 MB at a time (the size computation wraps for
    sizes near 2^64: [kmalloc_wraps]) and stay inside their objects runs to its end without a fault; at the end
    every object holds the bytes its owner last put there (a reallocation keeps
    the old ones as far as they fit), is aligned to 16 bytes, lies in the mapped
    heap behind room for its header, and overlaps no other object. *)
Theorem kheap_objects m pg h ops :
  kheap_init m pg = Some h → Forall heap_op_ok ops →
  ∃ h' ob, heap_run ops (h, ∅) = Some (h', ob) ∧
    (∀ p bs, ob !! p = Some bs →
       load_bytes (heap_mem h') p (length bs) = bs ∧ p mod ALIGNMENT = 0 ∧
       kheap_start + HEADER_SIZE ≤ p ∧ p + Z.of_nat (length bs) ≤ heap_current_end h') ∧
    (∀ p q bs cs, ob !! p = Some bs → ob !! q = Some cs → p ≠ q →
       p + Z.of_nat (length bs) ≤ q ∨ q + Z.of_nat (length cs) ≤ p).
Proof.
  intros [L Hor]%kheap_init_obj Hok.
  destruct (heap_run_ok ops h ∅ L Hor Hok) as (h' & ob & L' & E & Hor').
  exists h', ob. split_and!; [done| |intros; by eapply obj_disjoint].
  intros p bs (b & [Hb _]%elem_of_live & -> & ? & ?)%(or_obj _ _ _ Hor').
  destruct (live_ptr_range _ _ _ (or_heap _ _ _ Hor') Hb) as (_ & _ & ? & ? & ?).
  split_and!; [done|done|lia|lia].
Qed.

(** C37.  When an allocation fails.  A request of 1 byte to 512 MB always returns,
    and it returns NULL exactly when no free block is large enough and the heap
    cannot grow: the request with its header, rounded up to pages, does not fit
    below the heap's limit, or one of those pages cannot be had.  A request that
    fails changes no live block and no byte outside of the headers. *)
Theorem kmalloc_fails_exact h L size :
  heap_repr h L → 0 < size ≤ 2 ^ 29 →
  ∃ p h', kmalloc size h = Some (p, h') ∧
    (p = 0 ↔ (∀ b, b ∈ L → b_free b = true → b_size b < total_needed size) ∧
             can_grow (total_needed size) h = false) ∧
    (p = 0 → ∃ L', heap_repr h' L' ∧ live L' = live L ∧
       ∀ a, ¬ hdr_of L' a → byte_at (heap_mem h') a = byte_at (heap_mem h) a).
Proof.
  intros Hr Hsz. destruct (kmalloc_spec h L size Hr Hsz) as (p & h' & L' & E & Hr' & Hu & Hcase).
  exists p, h'. split; [done|].
  assert (Hnofit : ∀ b, fits (total_needed size) b = false ↔ (b_free b = true → b_size b < total_needed size)).
  { intros b. unfold fits. destruct (b_free b); cbn [andb]; [|naive_solver]. rewrite Z.leb_gt. naive_solver. }
  destruct Hcase as [(-> & Hl & HF & Hg)|[(b & -> & L1 & L2 & -> & _) Hyes]].
  - split; [|by exists L']. split; [|done]. intros _. split; [|done].
    intros b Hb. apply Hnofit. by rewrite Forall_forall in HF; apply HF.
  - destruct (live_ptr_range _ _ b Hr') as (Hp & _); [apply elem_of_app; right; by left|].
    split; [|done]. split; [done|]. intros [HF Hg]. exfalso. destruct Hyes as [Hex|Hg']; [|congruence].
    apply Exists_exists in Hex as (c & Hc & Hfit). specialize (HF c Hc). apply Hnofit in HF. congruence.
Qed.

(** The size computation wraps: a request within 47 bytes of 2^64 is served
    exactly like a request for one byte, with a block whose payload is 16
    bytes. *)
Theorem kmalloc_wraps size h :
  2 ^ 64 - 47 ≤ size < 2 ^ 64 → kmalloc size h = kmalloc 1 h ∧ total_needed size = 48.
Proof.
  intros Hsz. assert (total_needed size = 48).
  { unfold total_needed, align_up, u64.
    destruct (decide (size < 2 ^ 64 - 32)).
    - rewrite (Z.mod_small (size + 32)) by lia.
      replace ((size + 32 + 16 - 1) mod 2 ^ 64) with (size + 47 - 2 ^ 64)
        by (rewrite <- (Z.mod_add _ (-1)), Z.mod_small; lia).
      change (Z.lnot (16 - 1) mod 2 ^ 64) with (u64 (Z.lnot (Z.ones 4))).
      rewrite land_align, Z.div_small by lia. done.
    - replace ((size + 32) mod 2 ^ 64) with (size + 32 - 2 ^ 64)
        by (rewrite <- (Z.mod_add (size + 32) (-1)), Z.mod_small; lia).
      rewrite (Z.mod_small (_ + 16 - 1)) by lia.
      change (Z.lnot (16 - 1) mod 2 ^ 64) with (u64 (Z.lnot (Z.ones 4))).
      rewrite land_align by lia. change (2 ^ 4) with 16.
      assert ((size + 32 - 2 ^ 64 + 16 - 1) / 16 * 16 < 48); [|by rewrite (proj2 (Z.ltb_lt _ _))].
      pose proof (Z.mul_div_le (size + 32 - 2 ^ 64 + 16 - 1) 16). lia. }
  split; [|done]. unfold kmalloc. rewrite (proj2 (Z.eqb_neq size 0)) by lia. by rewrite H.
Qed.
End proofs.

(** ** ARM64: the heap is identity-mapped; its pages are reserved in the page
    allocator. *)
#[export] Program Instance arm64_heap_pages : HeapPages pmm_st := {|
  kheap_start := 0x44000000;
  heap_grow va st := (true, pmm_mark_used (page_of va) st)
|}.
Next Obligation. done. Qed.
Next Obligation. done. Qed.

Definition demo_heap : option (heap_st pmm_st) := kheap_init ∅ (mk_pmm [] 0 0 [] 0).
Definition demo_ops : list heap_op :=
  [HMalloc 5; HMalloc 4000; HWrite 0x44000020 4 7; HMalloc 16; HRealloc 0x44000020 100; HFree 0x44000050].

Lemma kheap_objects_witness :
  ∃ h h' ob, demo_heap = Some h ∧ heap_run demo_ops (h, ∅) = Some (h', ob) ∧
    (∀ p bs, ob !! p = Some bs →
       load_bytes (heap_mem h') p (length bs) = bs ∧ p mod ALIGNMENT = 0 ∧
       kheap_start + HEADER_SIZE ≤ p ∧ p + Z.of_nat (length bs) ≤ heap_current_end h').
Proof.
  destruct demo_heap as [h|] eqn:E; [|by vm_compute in E].
  destruct (kheap_objects ∅ (mk_pmm [] 0 0 [] 0) h demo_ops) as (h' & ob & Hrun & Hobj & _).
  - exact E.
  - repeat constructor; simpl; lia.
  - exists h, h', ob. by split_and!.
Defined.

(** The run above really moves the first object, with its bytes. *)
Lemma demo_heap_run :
  match demo_heap with
  | Some h =>
      match heap_run demo_ops (h, ∅) with
      | Some (_, ob) => (λ x, (x.1, length x.2, take 6 x.2)) <$> map_to_list ob
      | None => []
      end
  | None => []
  end = [(0x44001050, 100%nat, [0; 0; 0; 0; 7; 0]); (0x44001020, 16%nat, [0; 0; 0; 0; 0; 0])].
Proof. by vm_compute. Qed.

(** A machine with [n] page frames left. *)
Program Definition budget_pages : HeapPages nat := {|
  kheap_start := 0xFFFFFFFF90000000;
  heap_grow _ n := match n with O => (false, O) | S n' => (true, n') end
|}.
Next Obligation. done. Qed.
Next Obligation. done. Qed.

Definition one_page_heap : heap_st nat :=
  Eval vm_compute in default (mk_heap ∅ 0 0 O) (@kheap_init _ budget_pages ∅ 1%nat).

Lemma one_page_heap_init : @kheap_init _ budget_pages ∅ 1%nat = Some one_page_heap.
Proof. by vm_compute. Qed.
Lemma one_page_heap_full : fst <$> @kmalloc _ budget_pages 5000 one_page_heap = Some 0.
Proof. by vm_compute. Qed.
Lemma one_page_heap_wrap :
  fst <$> @kmalloc _ budget_pages (2 ^ 64 - 1) one_page_heap = Some 0xFFFFFFFF90000020.
Proof. by vm_compute. Qed.

(** The one page is full for 5000 bytes and no second page can be had; 100 bytes
    fit. *)
Lemma kmalloc_fails_exact_witness :
  ∃ L, @heap_repr _ budget_pages one_page_heap L ∧
    (∀ b, b ∈ L → b_free b = true → b_size b < total_needed 5000) ∧
    @can_grow _ budget_pages (total_needed 5000) one_page_heap = false ∧
    ∃ b, b ∈ L ∧ b_free b = true ∧ total_needed 100 ≤ b_size b.
Proof.
  destruct (@kheap_init_obj _ budget_pages ∅ 1%nat one_page_heap one_page_heap_init) as [L Hor].
  exists L. split; [apply Hor|].
  destruct (@kmalloc_fails_exact _ budget_pages one_page_heap L 5000 (or_heap _ _ _ Hor) ltac:(lia))
    as (p & h1 & E & [Hno _] & _).
  destruct (@kmalloc_fails_exact _ budget_pages one_page_heap L 100 (or_heap _ _ _ Hor) ltac:(lia))
    as (q & h2 & E2 & [_ Hyes] & _).
  pose proof one_page_heap_full as E5. rewrite E in E5. cbn in E5. injection E5 as ->.
  destruct (Hno eq_refl) as [Hn Hg]. split; [done|]. split; [done|].
  assert (Hq : q ≠ 0) by (intros ->; vm_compute in E2; congruence).
  destruct (Exists_dec (λ b, b_free b = true ∧ total_needed 100 ≤ b_size b) L) as [Hex|Hnex].
  - apply Exists_exists in Hex as (b & Hb & ? & ?). eauto.
  - exfalso. apply Hq, Hyes. split; [|by vm_compute]. intros b Hb Hf.
    apply not_Exists_Forall in Hnex; [|solve_decision]. rewrite Forall_forall in Hnex. specialize (Hnex b Hb). 
    destruct (decide (b_size b < total_needed 100)); [done|]. exfalso. apply Hnex. split; [done|lia].
Defined.

Lemma kmalloc_wraps_witness :
  @kmalloc _ budget_pages (2 ^ 64 - 1) one_page_heap = @kmalloc _ budget_pages 1 one_page_heap ∧
  (fst <$> @kmalloc _ budget_pages (2 ^ 64 - 1) one_page_heap) = Some 0xFFFFFFFF90000020.
Proof.
  split; [|exact one_page_heap_wrap].
  exact (proj1 (@kmalloc_wraps _ budget_pages (2 ^ 64 - 1) one_page_heap ltac:(lia))).
Defined.
