(* ===== verification/BlockStore.v ===== *)
(** * BlockStore: what the file system needs of the block cache

    LimnFS ([blk/limnfs.c]) reads and writes 4096-byte blocks through
    [bcache_read] and [bcache_write], and for long reads goes past the cache to
    the device ([virtio_blk_read_multi]).  The class [BlockStore] is that
    interface: the operations, the array of blocks that a reader sees ([bs_rep]),
    what the device itself holds ([bs_raw]), and the laws, which are those of a
    device that works.  The block cache of [BCache] over such a device is an
    instance ([bcache_store]), so that the theorems about the file system hold
    over the cache as it is written; note that nothing ties [bs_raw] to
    [bs_rep], because the cache writes back late. *)

From S2P Require Import Prelude Mem Bytes KUtil Dll BCache.

(** A block of zeros. *)
Definition zero_block : list Z := replicate 4096 0.
#[global] Arguments zero_block : simpl never.

(** ** The interface *)

Class BlockStore (S : Type) := {
  bs_read : Z → S → Z * list Z * S;
  bs_write : Z → list Z → S → Z * S;
  bs_bulk : Z → nat → S → Z * list Z * S;
  bs_rep : S → (Z → list Z) → Prop;
  bs_raw : S → Z → list Z;
  bs_len s f b : bs_rep s f → length (f b) = 4096%nat;
  bs_read_ok s f b : bs_rep s f → ∃ s', bs_read b s = (0, f b, s') ∧ bs_rep s' f ∧
    ∀ c, bs_raw s' c = bs_raw s c ∨ bs_raw s' c = f c;
  bs_write_ok s f b buf :
    bs_rep s f → length buf = 4096%nat → ∃ s', bs_write b buf s = (0, s') ∧ bs_rep s' (fupd f b buf);
  bs_bulk_ok s f b n :
    bs_rep s f →
    ∃ s', bs_bulk b n s = (0, mjoin ((λ i, bs_raw s (b + Z.of_nat i)) <$> seq 0 n), s') ∧ bs_rep s' f ∧
      ∀ c, bs_raw s' c = bs_raw s c ∨ bs_raw s' c = f c
}.

(** ** The block cache as a block store *)

Section bcache_store.
Context {D : Type} `{!BlkDev D}.
Implicit Types (s : bcache_st * D) (d : D).

(** A request for [n] blocks from [b] on, served by the device. *)
Fixpoint dev_bulk (b : Z) (n : nat) (d : D) : Z * list Z * D :=
  match n with
  | O => (0, [], d)
  | S n' =>
      let '(rc, buf, d) := blk_read_multi (b * SECTORS_PER_BLOCK) d in
      if negb (rc =? 0) then (-1, [], d)
      else let '(rc, rest, d) := dev_bulk (b + 1) n' d in (rc, buf ++ rest, d)
  end.

Definition store_read (b : Z) s : Z * list Z * (bcache_st * D) :=
  match bcache_read b s.1 s.2 with
  | Some (rc, out, st, d) => (rc, out, (st, d))
  | None => (-1, [], s)
  end.

Definition store_write (b : Z) (buf : list Z) s : Z * (bcache_st * D) :=
  match bcache_write b buf s.1 s.2 with
  | Some (rc, st, d) => (rc, (st, d))
  | None => (-1, s)
  end.

Definition store_bulk (b : Z) (n : nat) s : Z * list Z * (bcache_st * D) :=
  let '(rc, out, d) := dev_bulk b n s.2 in (rc, out, (s.1, d)).

(** The device works. *)
Context (reads_ok : ∀ n d, (blk_read_multi n d).1.1 = 0)
        (writes_ok : ∀ n buf d, (blk_write_multi n buf d).1 = 0).

Lemma dev_bulk_ok n : ∀ b d,
  ∃ d', dev_bulk b n d = (0, mjoin ((λ i, blk_block d (b + Z.of_nat i)) <$> seq 0 n), d') ∧
    ∀ c, blk_block d' c = blk_block d c.
Proof.
  induction n as [|n IH]; intros b d; cbn [dev_bulk]; [by exists d|].
  pose proof (reads_ok (b * SECTORS_PER_BLOCK) d) as Hr.
  pose proof (blk_read_same (b * SECTORS_PER_BLOCK) d) as Hs.
  destruct (blk_read_multi _ d) as [[rc buf] d1] eqn:E. cbn [fst snd] in Hr, Hs. subst rc.
  apply blk_read_ok in E as ->. cbn [negb Z.eqb].
  destruct (IH (b + 1) d1) as (d' & -> & Hd). exists d'. split; [|intros c; by rewrite Hd, Hs].
  f_equal. f_equal. cbn [seq]. rewrite fmap_cons, Z.add_0_r.
  change (mjoin (?x :: ?l)) with (x ++ mjoin l). f_equal.
  rewrite <- fmap_S_seq, <- list_fmap_compose. f_equal. apply list_fmap_ext. intros ? i _.
  cbn [compose]. rewrite Hs. f_equal. lia.
Qed.

Lemma bc_ok_len st d f b : bc_ok st d f → length (f b) = 4096%nat.
Proof.
  intros (P & Hi). destruct (hash_find_spec st d f P b Hi) as [(i & _ & Hlt & HP & <-)|[_ Hm]].
  - by rewrite (bi_data _ _ _ _ Hi i Hlt HP), (bi_len _ _ _ _ Hi i Hlt).
  - rewrite (bi_disk _ _ _ _ Hi b Hm). apply blk_block_len.
Qed.

Program Definition bcache_store : BlockStore (bcache_st * D) := {|
  bs_read := store_read;
  bs_write := store_write;
  bs_bulk := store_bulk;
  bs_rep s f := bc_ok s.1 s.2 f;
  bs_raw s := blk_block s.2
|}.
Next Obligation. intros [st d] f b. apply bc_ok_len. Qed.
Next Obligation.
  intros [st d] f b Hok. cbn [fst snd] in *. unfold store_read. cbn [fst snd].
  destruct (bcache_read_spec writes_ok st d f b Hok) as (rc & out & st' & d' & E & Hok' & [[-> ->]|(_ & _ & s & d0 & Hf)]).
  - rewrite E. eexists. split; [done|]. split; [done|]. by apply (bcache_read_settles writes_ok _ _ _ _ _ _ _ _ Hok E).
  - by rewrite reads_ok in Hf.
Qed.
Next Obligation.
  intros [st d] f b buf Hok Hlen. cbn [fst snd] in *. unfold store_write. cbn [fst snd].
  destruct (bcache_write_spec writes_ok st d f b buf Hok Hlen) as (st' & d' & E & Hok'). rewrite E. by eexists.
Qed.
Next Obligation.
  intros [st d] f b n Hok. cbn [fst snd] in *. unfold store_bulk. cbn [fst snd].
  destruct (dev_bulk_ok n b d) as (d' & -> & Hd). eexists. split; [done|]. cbn [fst snd]. split; [|by left].
  destruct Hok as (P & [Hs Hl Hh Hu Hv Hdy Hda Hc Hdi]). exists P.
  split; try done; [intros i ???; rewrite Hd; by apply Hc|intros c Hc'; rewrite Hd; by apply Hdi].
Qed.
End bcache_store.

(** ** A disk without a cache *)

Definition plain_block (m : gmap Z (list Z)) (b : Z) : list Z := default zero_block (m !! b).

#[export] Program Instance plain_store : BlockStore (gmap Z (list Z)) := {|
  bs_read b m := (0, plain_block m b, m);
  bs_write b buf m := (0, <[b := buf]> m);
  bs_bulk b n m := (0, mjoin ((λ i, plain_block m (b + Z.of_nat i)) <$> seq 0 n), m);
  bs_rep m f := ∀ b, f b = plain_block m b ∧ length (f b) = 4096%nat;
  bs_raw := plain_block
|}.
Next Obligation. intros m f b Hr. apply Hr. Qed.
Next Obligation. intros m f b Hr. exists m. destruct (Hr b) as [-> _]. split_and!; [done..|by left]. Qed.
Next Obligation.
  intros m f b buf Hr Hl. eexists. split; [done|]. intros c. unfold plain_block, fupd.
  case_decide as E; [by rewrite E, lookup_insert_eq|]. rewrite lookup_insert_ne by done. apply Hr.
Qed.
Next Obligation. intros m f b n Hr. exists m. split_and!; [done..|by left]. Qed.
