(* ===== verification/LimnFS.v ===== *)
(** * LimnFS: the on-disk file system

    Models [src/kernel/src/blk/limnfs.c], all of it: format and mount, the block
    and inode bitmaps, inodes, the block map of a file (ten direct blocks and
    trees of pointer blocks of depth one to three), file data, directories,
    creation, deletion and truncation.  The block cache below is the class
    [BlockStore].

    The disk is blocks of bytes: inodes, directory entries and pointers are read
    from and written to the bytes at the offsets of the packed C structs.  The
    three cases of single, double and triple indirection repeat the same code
    for one more level each; they are one function by recursion on the level
    ([tree_get], [tree_put], [free_tree]).  Results of the cache that the code
    ignores are ignored here; a failed read leaves the old contents of the
    scratch buffer.

    This file holds the definitions; the proofs are in [LfsAlloc], [LfsTree],
    [LfsMap], [LfsFormat], [LfsData], [LfsDir] and [LfsCache]. *)

From S2P Require Import Prelude KUtil Mem Bytes Bitmap BlockStore.

Abbreviation LIMNFS_MAGIC := 0x4C494D46 (only parsing).
Abbreviation LIMNFS_TYPE_FREE := 0 (only parsing).
Abbreviation LIMNFS_TYPE_FILE := 1 (only parsing).
Abbreviation LIMNFS_TYPE_DIR := 2 (only parsing).
Abbreviation LIMNFS_BLOCK_SIZE := 4096 (only parsing).
Abbreviation LIMNFS_MAX_INODES := 1024 (only parsing).
Abbreviation LIMNFS_MAX_DIRECT := 10 (only parsing).
Abbreviation LIMNFS_DENTRY_SIZE := 64 (only parsing).
Abbreviation LIMNFS_DENTRIES_PER_BLOCK := 64 (only parsing).
Abbreviation LIMNFS_PTRS_PER_BLOCK := 1024 (only parsing).

(** ** On-disk structures *)

Record limnfs_super := mk_super {
  sb_magic : Z;
  sb_total_blocks : Z;
  sb_total_inodes : Z;
  sb_block_size : Z;
  sb_inode_tbl_start : Z;
  sb_data_start : Z;
  sb_free_blocks : Z;
  sb_free_inodes : Z;
  sb_reserved : list Z
}.
#[export] Instance limnfs_super_eta : Eta limnfs_super := λ s,
  mk_super (sb_magic s) (sb_total_blocks s) (sb_total_inodes s) (sb_block_size s) (sb_inode_tbl_start s)
    (sb_data_start s) (sb_free_blocks s) (sb_free_inodes s) (sb_reserved s).

Record limnfs_inode := mk_inode {
  in_type : Z;
  in_mode : Z;
  in_size : Z;
  in_block_count : Z;
  in_direct : list Z;
  in_indirect : Z;
  in_double : Z;
  in_triple : Z;
  in_parent : Z;
  in_uid : Z;
  in_gid : Z;
  in_reserved : list Z
}.
#[export] Instance limnfs_inode_eta : Eta limnfs_inode := λ i,
  mk_inode (in_type i) (in_mode i) (in_size i) (in_block_count i) (in_direct i) (in_indirect i)
    (in_double i) (in_triple i) (in_parent i) (in_uid i) (in_gid i) (in_reserved i).

(** [sizeof(limnfs_inode_t)]: the struct is packed. *)
Abbreviation INODE_SIZE := 116%nat (only parsing).

Definition zero_inode : limnfs_inode := mk_inode 0 0 0 0 (replicate 10 0) 0 0 0 0 0 0 (replicate 44 0).
Definition zero_super : limnfs_super := mk_super 0 0 0 0 0 0 0 0 (replicate 4064 0).

(** The bytes of the structs. *)
Definition super_bytes (s : limnfs_super) : list Z :=
  mjoin (le_bytes 4 <$> [sb_magic s; sb_total_blocks s; sb_total_inodes s; sb_block_size s; sb_inode_tbl_start s;
                         sb_data_start s; sb_free_blocks s; sb_free_inodes s]) ++ sb_reserved s.
Definition super_of_bytes (l : list Z) : limnfs_super :=
  mk_super (get32 0 l) (get32 1 l) (get32 2 l) (get32 3 l) (get32 4 l) (get32 5 l) (get32 6 l) (get32 7 l)
    (slice 32 4064 l).

Definition inode_bytes (i : limnfs_inode) : list Z :=
  le_bytes 2 (in_type i) ++ le_bytes 2 (in_mode i) ++ le_bytes 4 (in_size i) ++ le_bytes 4 (in_block_count i) ++
  mjoin (le_bytes 4 <$> in_direct i) ++ le_bytes 4 (in_indirect i) ++ le_bytes 4 (in_double i) ++
  le_bytes 4 (in_triple i) ++ le_bytes 4 (in_parent i) ++ le_bytes 2 (in_uid i) ++ le_bytes 2 (in_gid i) ++
  in_reserved i.
Definition inode_of_bytes (l : list Z) : limnfs_inode :=
  mk_inode (get_field 0 2 l) (get_field 2 2 l) (get_field 4 4 l) (get_field 8 4 l)
    ((λ k, get_field (12 + 4 * k) 4 l) <$> seq 0 10) (get_field 52 4 l) (get_field 56 4 l) (get_field 60 4 l)
    (get_field 64 4 l) (get_field 68 2 l) (get_field 70 2 l) (slice 72 44 l).

(** The [i]-th [limnfs_dentry_t] of a block: the inode number, and the name. *)
Definition dent_inode (i : nat) (l : list Z) : Z := get_field (64 * i) 4 l.
Definition dent_name (i : nat) (l : list Z) : list Z := slice (64 * i + 6) 58 l.

(** [entries[i].inode = ino; .name_len = len; .file_type = type; lfs_str_copy(.name, name, 58)]. *)
Definition dent_put (i : nat) (ino len type : Z) (name l : list Z) : list Z :=
  let l := set_field (64 * i) 4 ino l in
  let l := set_field (64 * i + 4) 1 len l in
  let l := set_field (64 * i + 5) 1 type l in
  splice (64 * i + 6) (str_copy (dent_name i l) name 58) l.

(** [entries[i].inode = 0; entries[i].name[0] = 0]. *)
Definition dent_erase (i : nat) (l : list Z) : list Z :=
  set_field (64 * i + 6) 1 0 (set_field (64 * i) 4 0 l).

(** ** State *)

Record lfs_st (St : Type) := mk_lfs {
  lfs_mounted : bool;
  lfs_super : limnfs_super;
  lfs_block_bitmap : list Z;
  lfs_block_bitmap_bytes : Z;
  lfs_inode_bitmap : list Z;
  lfs_hint : Z;              (* alloc_hint *)
  lfs_store : St
}.
Arguments mk_lfs {St} _ _ _ _ _ _ _.
Arguments lfs_mounted {St} _.
Arguments lfs_super {St} _.
Arguments lfs_block_bitmap {St} _.
Arguments lfs_block_bitmap_bytes {St} _.
Arguments lfs_inode_bitmap {St} _.
Arguments lfs_hint {St} _.
Arguments lfs_store {St} _.
#[export] Instance lfs_st_eta St : Eta (lfs_st St) := λ l,
  mk_lfs (lfs_mounted l) (lfs_super l) (lfs_block_bitmap l) (lfs_block_bitmap_bytes l) (lfs_inode_bitmap l)
    (lfs_hint l) (lfs_store l).

Section limnfs.
Context {St : Type} `{!BlockStore St}.
Implicit Types (fs : lfs_st St) (ino : limnfs_inode) (buf : list Z).

(** [bcache_read] and [bcache_write] on the file system's state. *)
Definition bread (b : Z) fs : Z * list Z * lfs_st St :=
  let '(r, x, s) := bs_read b (lfs_store fs) in (r, x, fs <| lfs_store := s |>).
Definition bwrite (b : Z) buf fs : Z * lfs_st St :=
  let '(r, s) := bs_write b buf (lfs_store fs) in (r, fs <| lfs_store := s |>).

(** A read into a scratch buffer that holds [buf]. *)
Definition bread_into buf (b : Z) fs : Z * list Z * lfs_st St :=
  let '(r, x, fs) := bread b fs in (r, if r =? 0 then x else buf, fs).

(** *** Flushing the bitmaps and the superblock *)

Definition bitmap_blocks (bytes : Z) : Z :=
  let n := bytes / LIMNFS_BLOCK_SIZE in if n =? 0 then 1 else n.

Fixpoint flush_bitmap_loop (n : nat) (b : Z) fs : Z * lfs_st St :=
  match n with
  | O => (0, fs)
  | S n' =>
      let offset := u32 (b * LIMNFS_BLOCK_SIZE) in
      let remain := u32 (lfs_block_bitmap_bytes fs - offset) in
      let remain := if LIMNFS_BLOCK_SIZE <? remain then LIMNFS_BLOCK_SIZE else remain in
      let buf := splice 0 (slice (Z.to_nat offset) (Z.to_nat remain) (lfs_block_bitmap fs)) zero_block in
      let '(r, fs) := bwrite (1 + b) buf fs in
      if negb (r =? 0) then (-1, fs) else flush_bitmap_loop n' (b + 1) fs
  end.

Definition flush_block_bitmap fs : Z * lfs_st St :=
  flush_bitmap_loop (Z.to_nat (bitmap_blocks (lfs_block_bitmap_bytes fs))) 0 fs.

Definition flush_inode_bitmap fs : Z * lfs_st St :=
  bwrite (1 + bitmap_blocks (lfs_block_bitmap_bytes fs)) (splice 0 (take 128 (lfs_inode_bitmap fs)) zero_block) fs.

Definition flush_superblock fs : Z * lfs_st St := bwrite 0 (super_bytes (lfs_super fs)) fs.

(** *** Blocks *)

Definition take_bit (i : nat) fs : lfs_st St :=
  fs <| lfs_block_bitmap := bm_set i (lfs_block_bitmap fs) |>
     <| lfs_super := (lfs_super fs) <| sb_free_blocks := u32 (sb_free_blocks (lfs_super fs) - 1) |> |>
     <| lfs_hint := u32 (Z.of_nat i + 1) |>.

Definition limnfs_alloc_block fs : Z * lfs_st St :=
  let data_start := sb_data_start (lfs_super fs) in
  let start := if data_start <=? lfs_hint fs then lfs_hint fs else data_start in
  match bm_scan (Z.to_nat (sb_total_blocks (lfs_super fs) - start)) (Z.to_nat start) (lfs_block_bitmap fs) with
  | Some i => (Z.of_nat i, take_bit i fs)
  | None =>
      match bm_scan (Z.to_nat (start - data_start)) (Z.to_nat data_start) (lfs_block_bitmap fs) with
      | Some i => (Z.of_nat i, take_bit i fs)
      | None => (0, fs)
      end
  end.

Definition limnfs_free_block (blk : Z) fs : lfs_st St :=
  if (blk <? sb_data_start (lfs_super fs)) || (sb_total_blocks (lfs_super fs) <=? blk) then fs
  else fs <| lfs_block_bitmap := bm_clear (Z.to_nat blk) (lfs_block_bitmap fs) |>
          <| lfs_super := (lfs_super fs) <| sb_free_blocks := u32 (sb_free_blocks (lfs_super fs) + 1) |> |>.

(** *** The block map of a file *)

(** The pointer below the pointer block [r] of a tree of [k] levels. *)
Fixpoint tree_get (k : nat) (r idx : Z) fs : Z * lfs_st St :=
  match k with
  | O => (r, fs)
  | S k' =>
      let '(rc, buf, fs) := bread r fs in
      if negb (rc =? 0) then (0, fs)
      else
        let p := get32 (Z.to_nat (idx / LIMNFS_PTRS_PER_BLOCK ^ Z.of_nat k')) buf in
        if p =? 0 then (0, fs)
        else tree_get k' p (idx mod LIMNFS_PTRS_PER_BLOCK ^ Z.of_nat k') fs
  end.

Definition get_file_block ino (lb : Z) fs : Z * lfs_st St :=
  if lb <? LIMNFS_MAX_DIRECT then (in_direct ino !!! Z.to_nat lb, fs)
  else
    let idx := lb - LIMNFS_MAX_DIRECT in
    if (idx <? LIMNFS_PTRS_PER_BLOCK) && negb (in_indirect ino =? 0) then tree_get 1 (in_indirect ino) idx fs
    else
      let dbl_offset := idx - LIMNFS_PTRS_PER_BLOCK in
      if (LIMNFS_PTRS_PER_BLOCK <=? idx) && negb (in_double ino =? 0)
         && (dbl_offset <? LIMNFS_PTRS_PER_BLOCK * LIMNFS_PTRS_PER_BLOCK)
      then tree_get 2 (in_double ino) dbl_offset fs
      else
        let triple_base := LIMNFS_MAX_DIRECT + LIMNFS_PTRS_PER_BLOCK +
                           LIMNFS_PTRS_PER_BLOCK * LIMNFS_PTRS_PER_BLOCK in
        if (triple_base <=? lb) && negb (in_triple ino =? 0)
        then tree_get 3 (in_triple ino) (lb - triple_base) fs
        else (0, fs).

(** A zeroed new block; 0 when the disk is full. *)
Definition new_block fs : Z * lfs_st St :=
  let '(b, fs) := limnfs_alloc_block fs in
  if b =? 0 then (0, fs) else let '(_, fs) := bwrite b zero_block fs in (b, fs).

(** Store [blk] at [idx] below the pointer block [r] of a tree of [k] levels
    (at least 1), adding missing pointer blocks on the way; [buf] is the scratch
    buffer (zeros at the start, because the new data block was just cleared in
    it; with three levels, which use another buffer, zeros stand for its earlier
    contents, which matter only when the device fails).  false: out of blocks,
    [blk] was given back. *)
Fixpoint tree_put (k : nat) (r idx blk : Z) buf fs : bool * lfs_st St :=
  match k with
  | O => (true, fs)
  | S k' =>
      let i := Z.to_nat (idx / LIMNFS_PTRS_PER_BLOCK ^ Z.of_nat k') in
      let '(_, buf, fs) := bread_into buf r fs in
      match k' with
      | O => let '(_, fs) := bwrite r (set32 i blk buf) fs in (true, fs)
      | S _ =>
          let rest := idx mod LIMNFS_PTRS_PER_BLOCK ^ Z.of_nat k' in
          let c := get32 i buf in
          if c =? 0 then
            let '(c, fs) := new_block fs in
            if c =? 0 then (false, limnfs_free_block blk fs)
            else
              let '(_, buf, fs) := bread_into zero_block r fs in
              let buf := set32 i c buf in
              let '(_, fs) := bwrite r buf fs in
              tree_put k' c rest blk buf fs
          else tree_put k' c rest blk buf fs
      end
  end.

(** The same from a root that may have to be added: the root and success. *)
Definition root_put (k : nat) (r idx blk : Z) fs : bool * Z * lfs_st St :=
  if r =? 0 then
    let '(r, fs) := new_block fs in
    if r =? 0 then (false, 0, limnfs_free_block blk fs)
    else let '(ok, fs) := tree_put k r idx blk zero_block fs in (ok, r, fs)
  else let '(ok, fs) := tree_put k r idx blk zero_block fs in (ok, r, fs).

Definition alloc_file_block ino (lb : Z) fs : Z * limnfs_inode * lfs_st St :=
  let '(blk, fs) := new_block fs in
  if blk =? 0 then (0, ino, fs)
  else
    let '(ok, ino, fs) :=
      if lb <? LIMNFS_MAX_DIRECT then (true, ino <| in_direct := <[Z.to_nat lb := blk]> (in_direct ino) |>, fs)
      else
        let idx := lb - LIMNFS_MAX_DIRECT in
        if idx <? LIMNFS_PTRS_PER_BLOCK then
          let '(ok, r, fs) := root_put 1 (in_indirect ino) idx blk fs in (ok, ino <| in_indirect := r |>, fs)
        else
          let dbl_offset := idx - LIMNFS_PTRS_PER_BLOCK in
          if dbl_offset <? LIMNFS_PTRS_PER_BLOCK * LIMNFS_PTRS_PER_BLOCK then
            let '(ok, r, fs) := root_put 2 (in_double ino) dbl_offset blk fs in (ok, ino <| in_double := r |>, fs)
          else
            let tri_offset := dbl_offset - LIMNFS_PTRS_PER_BLOCK * LIMNFS_PTRS_PER_BLOCK in
            let '(ok, r, fs) := root_put 3 (in_triple ino) tri_offset blk fs in (ok, ino <| in_triple := r |>, fs) in
    if (ok : bool) then (blk, ino <| in_block_count := u32 (in_block_count ino + 1) |>, fs) else (0, ino, fs).

(** *** Inodes *)

Definition inodes_per_block : Z := LIMNFS_BLOCK_SIZE / 116.
Definition inode_block (n : Z) fs : Z := u32 (sb_inode_tbl_start (lfs_super fs) + n / inodes_per_block).
Definition inode_offset (n : Z) : nat := (Z.to_nat (n mod inodes_per_block) * INODE_SIZE)%nat.

Definition limnfs_read_inode (n : Z) fs : option limnfs_inode * lfs_st St :=
  if LIMNFS_MAX_INODES <=? n then (None, fs)
  else
    let '(rc, buf, fs) := bread (inode_block n fs) fs in
    if negb (rc =? 0) then (None, fs)
    else (Some (inode_of_bytes (slice (inode_offset n) INODE_SIZE buf)), fs).

Definition limnfs_write_inode (n : Z) ino fs : Z * lfs_st St :=
  if LIMNFS_MAX_INODES <=? n then (-1, fs)
  else
    let '(rc, buf, fs) := bread (inode_block n fs) fs in
    if negb (rc =? 0) then (-1, fs)
    else bwrite (inode_block n fs) (splice (inode_offset n) (inode_bytes ino) buf) fs.

Definition add_free_inodes (d : Z) fs : lfs_st St :=
  fs <| lfs_super := (lfs_super fs) <| sb_free_inodes := u32 (sb_free_inodes (lfs_super fs) + d) |> |>.

Definition limnfs_alloc_inode fs : Z * lfs_st St :=
  match bm_scan (Z.to_nat LIMNFS_MAX_INODES - 1) 1 (lfs_inode_bitmap fs) with
  | Some i =>
      let fs := add_free_inodes (-1) (fs <| lfs_inode_bitmap := bm_set i (lfs_inode_bitmap fs) |>) in
      let '(_, fs) := flush_inode_bitmap fs in
      let '(_, fs) := flush_superblock fs in
      (Z.of_nat i, fs)
  | None => (-1, fs)
  end.

(** [if (ptrs[i]) limnfs_free_block(ptrs[i])] for every pointer of a block. *)
Definition free_ptr fs (p : Z) : lfs_st St := if p =? 0 then fs else limnfs_free_block p fs.
Definition free_ptrs (ps : list Z) fs : lfs_st St := foldl free_ptr fs ps.
Definition block_ptrs buf : list Z := (λ i, get32 i buf) <$> seq 0 (Z.to_nat LIMNFS_PTRS_PER_BLOCK).

(** Free everything below the pointer block [r] of a tree of [k] levels, and
    [r]; the scratch buffer and the state. *)
Fixpoint free_tree (k : nat) (r : Z) buf fs : list Z * lfs_st St :=
  let '(rc, buf, fs) := bread_into buf r fs in
  let '(buf, fs) :=
    if negb (rc =? 0) then (buf, fs)
    else
      match k with
      | O | S O => (buf, free_ptrs (block_ptrs buf) fs)
      | S k' =>
          foldl (λ '(buf, fs) i,
            if get32 i buf =? 0 then (buf, fs)
            else
              let '(buf, fs) := free_tree k' (get32 i buf) buf fs in
              let '(_, buf, fs) := bread_into buf r fs in (buf, fs))
            (buf, fs) (seq 0 (Z.to_nat LIMNFS_PTRS_PER_BLOCK))
      end in
  (buf, limnfs_free_block r fs).

Definition free_root (k : nat) (r : Z) fs : lfs_st St :=
  if r =? 0 then fs else (free_tree k r zero_block fs).2.

Definition limnfs_free_inode (n : Z) fs : lfs_st St :=
  if (n =? 0) || (LIMNFS_MAX_INODES <=? n) then fs
  else
    match limnfs_read_inode n fs with
    | (None, fs) => fs
    | (Some ino, fs) =>
        let fs := free_ptrs (in_direct ino) fs in
        let fs := free_root 1 (in_indirect ino) fs in
        let fs := free_root 2 (in_double ino) fs in
        let fs := free_root 3 (in_triple ino) fs in
        let '(_, fs) := limnfs_write_inode n zero_inode fs in
        let fs := add_free_inodes 1 (fs <| lfs_inode_bitmap := bm_clear (Z.to_nat n) (lfs_inode_bitmap fs) |>) in
        let '(_, fs) := flush_inode_bitmap fs in
        let '(_, fs) := flush_superblock fs in
        fs
    end.

(** *** Format, mount, sync *)

Definition bitmap_bytes_for (total_blocks : Z) : Z :=
  let bytes := u32 (total_blocks + 7) / 8 in
  let bytes := if bytes <? 4096 then 4096 else bytes in
  Z.land (u32 (bytes + LIMNFS_BLOCK_SIZE - 1)) (u32 (Z.lnot (LIMNFS_BLOCK_SIZE - 1))).

Fixpoint zero_table (n : nat) (b : Z) fs : Z * lfs_st St :=
  match n with
  | O => (0, fs)
  | S n' =>
      let '(rc, fs) := bwrite b zero_block fs in
      if negb (rc =? 0) then (-1, fs) else zero_table n' (b + 1) fs
  end.

(** [heap_ok]: the heap has room for the bitmap. *)
Definition limnfs_format (heap_ok : bool) (total_blocks : Z) fs : Z * lfs_st St :=
  let bitmap_bytes := bitmap_bytes_for total_blocks in
  if negb heap_ok then (-1, fs <| lfs_block_bitmap := [] |>)
  else
    let nblocks := bitmap_bytes / LIMNFS_BLOCK_SIZE in
    let inode_blocks := (LIMNFS_MAX_INODES * 128 + LIMNFS_BLOCK_SIZE - 1) / LIMNFS_BLOCK_SIZE in
    let inode_tbl_start := u32 (1 + nblocks + 1) in
    let data_start := u32 (inode_tbl_start + inode_blocks) in
    let fs := fs <| lfs_block_bitmap_bytes := bitmap_bytes |>
                 <| lfs_super := mk_super LIMNFS_MAGIC total_blocks LIMNFS_MAX_INODES LIMNFS_BLOCK_SIZE
                      inode_tbl_start data_start (u32 (total_blocks - data_start)) (LIMNFS_MAX_INODES - 1)
                      (replicate 4064 0) |> in
    let '(rc, fs) := flush_superblock fs in
    if negb (rc =? 0) then (-1, fs)
    else
      let bm := foldl (λ bm b, bm_set b bm) (replicate (Z.to_nat bitmap_bytes) 0) (seq 0 (Z.to_nat data_start)) in
      let '(rc, fs) := flush_block_bitmap (fs <| lfs_block_bitmap := bm |>) in
      if negb (rc =? 0) then (-1, fs)
      else
        let '(rc, fs) := flush_inode_bitmap (fs <| lfs_inode_bitmap := bm_set 0 (replicate 128 0) |>) in
        if negb (rc =? 0) then (-1, fs)
        else
          let '(rc, fs) := zero_table (Z.to_nat inode_blocks) inode_tbl_start fs in
          if negb (rc =? 0) then (-1, fs)
          else
            let root := zero_inode <| in_type := LIMNFS_TYPE_DIR |> <| in_mode := 7 |> in
            let '(rc, fs) := limnfs_write_inode 0 root fs in
            if negb (rc =? 0) then (-1, fs) else (0, fs <| lfs_mounted := true |>).

Fixpoint mount_bitmap (n : nat) (b : Z) (bm : list Z) fs : option (list Z) * lfs_st St :=
  match n with
  | O => (Some bm, fs)
  | S n' =>
      let '(rc, buf, fs) := bread (1 + b) fs in
      if negb (rc =? 0) then (None, fs)
      else
        let offset := u32 (b * LIMNFS_BLOCK_SIZE) in
        let remain := u32 (lfs_block_bitmap_bytes fs - offset) in
        let remain := if LIMNFS_BLOCK_SIZE <? remain then LIMNFS_BLOCK_SIZE else remain in
        mount_bitmap n' (b + 1) (splice (Z.to_nat offset) (take (Z.to_nat remain) buf) bm) fs
  end.

(** [heap_ok]: as above; the fresh buffer holds arbitrary bytes, here zeros,
    all of which are overwritten. *)
Definition limnfs_mount (heap_ok : bool) fs : Z * lfs_st St :=
  let '(rc, buf, fs) := bread 0 fs in
  if negb (rc =? 0) then (-1, fs)
  else if negb (get32 0 buf =? LIMNFS_MAGIC) then (-1, fs)
  else
    let fs := fs <| lfs_super := super_of_bytes buf |> in
    let bitmap_bytes := bitmap_bytes_for (sb_total_blocks (lfs_super fs)) in
    if negb heap_ok then (-1, fs <| lfs_block_bitmap := [] |>)
    else
      let fs := fs <| lfs_block_bitmap_bytes := bitmap_bytes |> in
      let n := bitmap_blocks bitmap_bytes in
      let '(bm, fs) := mount_bitmap (Z.to_nat n) 0 (replicate (Z.to_nat bitmap_bytes) 0) fs in
      match bm with
      | None => (-1, fs)
      | Some bm =>
          let '(rc, buf, fs) := bread (1 + n) (fs <| lfs_block_bitmap := bm |>) in
          if negb (rc =? 0) then (-1, fs)
          else (0, fs <| lfs_inode_bitmap := take 128 buf |> <| lfs_mounted := true |>)
      end.

Definition limnfs_sync fs : lfs_st St :=
  if negb (lfs_mounted fs) then fs
  else
    let '(_, fs) := flush_block_bitmap fs in
    let '(_, fs) := flush_inode_bitmap fs in
    let '(_, fs) := flush_superblock fs in
    fs.

Definition limnfs_mounted fs : Z := if lfs_mounted fs then 1 else 0.

Definition limnfs_get_stats fs : option (Z * Z * Z * Z) :=
  if negb (lfs_mounted fs) then None
  else
    let sb := lfs_super fs in
    Some (sb_total_blocks sb, sb_free_blocks sb, sb_total_inodes sb, sb_free_inodes sb).

(** *** File data *)

(** [while (run < max_run)]: the number of blocks that follow each other on disk. *)
Fixpoint run_length (n : nat) ino (lb disk_block run : Z) fs : Z * lfs_st St :=
  match n with
  | O => (run, fs)
  | S n' =>
      let '(next, fs) := get_file_block ino (u32 (lb + run)) fs in
      if next =? u32 (disk_block + run) then run_length n' ino lb disk_block (run + 1) fs else (run, fs)
  end.

(** The attempt to read several blocks in one request; [None]: not taken. *)
Definition read_bulk ino (lb disk_block block_offset left : Z) fs : option (list Z) * lfs_st St :=
  if (block_offset =? 0) && (LIMNFS_BLOCK_SIZE <=? left) then
    let max_run := u32 (left / LIMNFS_BLOCK_SIZE) in
    let max_run := if 8 <? max_run then 8 else max_run in
    let '(run, fs) := run_length (Z.to_nat (max_run - 1)) ino lb disk_block 1 fs in
    if 1 <? run then
      let '(rc, bs, s) := bs_bulk disk_block (Z.to_nat run) (lfs_store fs) in
      (if rc =? 0 then Some bs else None, fs <| lfs_store := s |>)
    else (None, fs)
  else (None, fs).

(** The loop of [limnfs_read_data]; [out] are the bytes read so far.  Every
    round but the first and the last reads at least a block. *)
Fixpoint read_loop (fuel : nat) ino (offset len : Z) (out : list Z) fs : list Z * lfs_st St :=
  match fuel with
  | O => (out, fs)
  | S fuel' =>
      let n := Z.of_nat (length out) in
      if len <=? n then (out, fs)
      else
        let lb := u32 ((offset + n) / LIMNFS_BLOCK_SIZE) in
        let block_offset := (offset + n) mod LIMNFS_BLOCK_SIZE in
        let '(disk_block, fs) := get_file_block ino lb fs in
        if disk_block =? 0 then (out, fs)
        else
          let '(bulk, fs) := read_bulk ino lb disk_block block_offset (len - n) fs in
          match bulk with
          | Some bs => read_loop fuel' ino offset len (out ++ bs) fs
          | None =>
              let '(rc, buf, fs) := bread disk_block fs in
              if negb (rc =? 0) then (out, fs)
              else
                let chunk := Z.min (LIMNFS_BLOCK_SIZE - block_offset) (len - n) in
                read_loop fuel' ino offset len
                  (out ++ slice (Z.to_nat block_offset) (Z.to_nat chunk) buf) fs
          end
  end.

Definition read_fuel (len : Z) : nat := Z.to_nat (len / LIMNFS_BLOCK_SIZE + 2).

(** [while (bytes_read + BLOCK_SIZE <= len)] of the sequential path: batches of
    up to 64 blocks. *)
Fixpoint seq_batches (fuel : nat) (blk len : Z) (out : list Z) fs : option (Z * list Z) * lfs_st St :=
  match fuel with
  | O => (Some (blk, out), fs)
  | S fuel' =>
      let n := Z.of_nat (length out) in
      if n + LIMNFS_BLOCK_SIZE <=? len then
        let remain_blocks := u32 ((len - n) / LIMNFS_BLOCK_SIZE) in
        let batch := if 64 <? remain_blocks then 64 else remain_blocks in
        let '(rc, bs, s) := bs_bulk blk (Z.to_nat batch) (lfs_store fs) in
        let fs := fs <| lfs_store := s |> in
        if negb (rc =? 0) then (None, fs)
        else seq_batches fuel' (u32 (blk + batch)) len (out ++ bs) fs
      else (Some (blk, out), fs)
  end.

(** The spot checks: true when every checked block follows the first one. *)
Fixpoint spot_check ino (start_lb first_blk n_blocks : Z) (checks : list Z) fs : bool * lfs_st St :=
  match checks with
  | [] => (true, fs)
  | c :: checks' =>
      if (c =? 0) || (n_blocks <=? c) then spot_check ino start_lb first_blk n_blocks checks' fs
      else
        let '(blk, fs) := get_file_block ino (u32 (start_lb + c)) fs in
        if blk =? u32 (first_blk + c) then spot_check ino start_lb first_blk n_blocks checks' fs
        else (false, fs)
  end.

Definition limnfs_read_data_sequential ino (offset len : Z) fs : option (list Z) * lfs_st St :=
  let start_lb := u32 (offset / LIMNFS_BLOCK_SIZE) in
  let end_lb := u32 ((offset + len - 1) / LIMNFS_BLOCK_SIZE) in
  let '(first_blk, fs) := get_file_block ino start_lb fs in
  if first_blk =? 0 then (None, fs)
  else
    let n_blocks := u32 (end_lb - start_lb + 1) in
    let '(ok, fs) := spot_check ino start_lb first_blk n_blocks
                       [1; n_blocks / 4; n_blocks / 2; u32 (n_blocks - 1)] fs in
    if negb ok then (None, fs)
    else
      let block_offset := offset mod LIMNFS_BLOCK_SIZE in
      let '(head, fs) :=
        if block_offset =? 0 then (Some (first_blk, []), fs)
        else
          let '(rc, buf, fs) := bread first_blk fs in
          if negb (rc =? 0) then (None, fs)
          else
            let chunk := Z.min (LIMNFS_BLOCK_SIZE - block_offset) len in
            (Some (u32 (first_blk + 1), slice (Z.to_nat block_offset) (Z.to_nat chunk) buf), fs) in
      match head with
      | None => (None, fs)
      | Some (blk, out) =>
          let '(mid, fs) := seq_batches (read_fuel len) blk len out fs in
          match mid with
          | None => (None, fs)
          | Some (blk, out) =>
              let n := Z.of_nat (length out) in
              if n <? len then
                let '(rc, buf, fs) := bread blk fs in
                if negb (rc =? 0) then (None, fs)
                else (Some (out ++ take (Z.to_nat (len - n)) buf), fs)
              else (Some out, fs)
          end
      end.

(** [None]: -1; otherwise the bytes read, whose number is returned. *)
Definition limnfs_read_data (n offset len : Z) fs : option (list Z) * lfs_st St :=
  match limnfs_read_inode n fs with
  | (None, fs) => (None, fs)
  | (Some ino, fs) =>
      if in_size ino <=? offset then (Some [], fs)
      else
        let len := Z.min len (in_size ino - offset) in
        let '(fast, fs) := if 32 * 1024 <=? len then limnfs_read_data_sequential ino offset len fs else (None, fs) in
        match fast with
        | Some out => (Some out, fs)
        | None => let '(out, fs) := read_loop (read_fuel len) ino offset len [] fs in (Some out, fs)
        end
  end.

(** The loop of [limnfs_write_data]: the bytes written so far are the first [n]
    of [data]. *)
Fixpoint write_loop (fuel : nat) ino (offset n : Z) (data : list Z) fs : Z * limnfs_inode * lfs_st St :=
  match fuel with
  | O => (n, ino, fs)
  | S fuel' =>
      let len := Z.of_nat (length data) in
      if len <=? n then (n, ino, fs)
      else
        let lb := u32 ((offset + n) / LIMNFS_BLOCK_SIZE) in
        let block_offset := (offset + n) mod LIMNFS_BLOCK_SIZE in
        let '(disk_block, fs) := get_file_block ino lb fs in
        let '(disk_block, ino, fs) :=
          if disk_block =? 0 then alloc_file_block ino lb fs else (disk_block, ino, fs) in
        if disk_block =? 0 then (n, ino, fs)
        else
          let '(rc, buf, fs) := bread disk_block fs in
          if negb (rc =? 0) then (n, ino, fs)
          else
            let chunk := Z.min (LIMNFS_BLOCK_SIZE - block_offset) (len - n) in
            let buf := splice (Z.to_nat block_offset) (slice (Z.to_nat n) (Z.to_nat chunk) data) buf in
            let '(rc, fs) := bwrite disk_block buf fs in
            if negb (rc =? 0) then (n, ino, fs)
            else write_loop fuel' ino offset (n + chunk) data fs
  end.

Definition limnfs_write_data (n offset : Z) (data : list Z) fs : Z * lfs_st St :=
  match limnfs_read_inode n fs with
  | (None, fs) => (-1, fs)
  | (Some ino, fs) =>
      let '(written, ino, fs) := write_loop (read_fuel (Z.of_nat (length data))) ino offset 0 data fs in
      let fin := offset + written in
      let ino := if in_size ino <? fin then ino <| in_size := u32 fin |> else ino in
      let '(_, fs) := limnfs_write_inode n ino fs in
      (written, fs)
  end.

(** *** Directories *)

(** The double loop of the directory operations: block by block, entry by
    entry, over the first [total] entries, to the first one that satisfies
    [test]; the disk block, the entry's index in it and the block. *)
Fixpoint dir_scan (fuel : nat) ino (test : nat → list Z → bool) (total lb : Z) fs
    : option (Z * nat * list Z) * lfs_st St :=
  match fuel with
  | O => (None, fs)
  | S fuel' =>
      let seen := lb * LIMNFS_DENTRIES_PER_BLOCK in
      if seen <? total then
        let '(disk_block, fs) := get_file_block ino lb fs in
        if disk_block =? 0 then (None, fs)
        else
          let '(rc, buf, fs) := bread disk_block fs in
          if negb (rc =? 0) then (None, fs)
          else
            match find_idx (λ i, test i buf) (seq 0 (Z.to_nat (Z.min LIMNFS_DENTRIES_PER_BLOCK (total - seen)))) with
            | Some i => (Some (disk_block, i, buf), fs)
            | None => dir_scan fuel' ino test total (lb + 1) fs
            end
      else (None, fs)
  end.

Definition dir_total ino : Z := in_size ino / LIMNFS_DENTRY_SIZE.
Definition dir_fuel (total : Z) : nat := Z.to_nat (total / LIMNFS_DENTRIES_PER_BLOCK + 1).
Definition dent_named (name : list Z) (i : nat) buf : bool :=
  negb (dent_inode i buf =? 0) && str_eq (dent_name i buf) name.
Definition dent_free (i : nat) buf : bool := dent_inode i buf =? 0.

(** The checks at the start of every directory operation. *)
Definition read_dir (n : Z) fs : option limnfs_inode * lfs_st St :=
  match limnfs_read_inode n fs with
  | (Some ino, fs) => if in_type ino =? LIMNFS_TYPE_DIR then (Some ino, fs) else (None, fs)
  | (None, fs) => (None, fs)
  end.

Definition limnfs_dir_lookup (n : Z) (name : list Z) fs : Z * lfs_st St :=
  match read_dir n fs with
  | (None, fs) => (-1, fs)
  | (Some dir, fs) =>
      let total := dir_total dir in
      match dir_scan (dir_fuel total) dir (dent_named name) total 0 fs with
      | (Some (_, i, buf), fs) => (i32 (dent_inode i buf), fs)
      | (None, fs) => (-1, fs)
      end
  end.

(** An entry after the last one; the directory's block may have to be
    allocated. *)
Definition dir_append (n : Z) dir (name : list Z) (child type : Z) fs : Z * lfs_st St :=
  let name_len := Z.of_nat (length (c_str name)) in
  let total := dir_total dir in
  let lb := total / LIMNFS_DENTRIES_PER_BLOCK in
  let within := Z.to_nat (total mod LIMNFS_DENTRIES_PER_BLOCK) in
  let '(disk_block, dir, fs) :=
    let '(disk_block, fs) := get_file_block dir lb fs in
    if disk_block =? 0 then alloc_file_block dir lb fs else (disk_block, dir, fs) in
  if disk_block =? 0 then (-1, fs)
  else
    let '(rc, buf, fs) := bread disk_block fs in
    if negb (rc =? 0) then (-1, fs)
    else
      let '(rc, fs) := bwrite disk_block (dent_put within child name_len type name buf) fs in
      if negb (rc =? 0) then (-1, fs)
      else
        let '(_, fs) := limnfs_write_inode n (dir <| in_size := u32 ((total + 1) * LIMNFS_DENTRY_SIZE) |>) fs in
        (0, fs).

Definition limnfs_dir_add (n : Z) (name : list Z) (child type : Z) fs : Z * lfs_st St :=
  match read_dir n fs with
  | (None, fs) => (-1, fs)
  | (Some dir, fs) =>
      let name_len := Z.of_nat (length (c_str name)) in
      if (name_len =? 0) || (57 <? name_len) then (-1, fs)
      else
        let total := dir_total dir in
        match dir_scan (dir_fuel total) dir dent_free total 0 fs with
        | (Some (disk_block, i, buf), fs) =>
            let '(_, fs) := bwrite disk_block (dent_put i child name_len type name buf) fs in (0, fs)
        | (None, fs) => dir_append n dir name child type fs
        end
  end.

Definition limnfs_dir_remove (n : Z) (name : list Z) fs : Z * lfs_st St :=
  match read_dir n fs with
  | (None, fs) => (-1, fs)
  | (Some dir, fs) =>
      let total := dir_total dir in
      match dir_scan (dir_fuel total) dir (dent_named name) total 0 fs with
      | (Some (disk_block, i, buf), fs) => let '(_, fs) := bwrite disk_block (dent_erase i buf) fs in (0, fs)
      | (None, fs) => (-1, fs)
      end
  end.

(** The live entries of one block: the [index]-th, or how many were seen. *)
Fixpoint iter_block (idxs : list nat) (index : Z) buf (seen : Z) : (nat + Z) :=
  match idxs with
  | [] => inr seen
  | i :: idxs' =>
      if dent_inode i buf =? 0 then iter_block idxs' index buf seen
      else if seen =? index then inl i else iter_block idxs' index buf (seen + 1)
  end.

Fixpoint iter_loop (fuel : nat) ino (index total lb live_seen : Z) fs : option (list Z) * lfs_st St :=
  match fuel with
  | O => (None, fs)
  | S fuel' =>
      let seen := lb * LIMNFS_DENTRIES_PER_BLOCK in
      if seen <? total then
        let '(disk_block, fs) := get_file_block ino lb fs in
        if disk_block =? 0 then (None, fs)
        else
          let '(rc, buf, fs) := bread disk_block fs in
          if negb (rc =? 0) then (None, fs)
          else
            match iter_block (seq 0 (Z.to_nat (Z.min LIMNFS_DENTRIES_PER_BLOCK (total - seen)))) index buf live_seen with
            | inl i => (Some (slice (64 * i) 64 buf), fs)
            | inr live_seen => iter_loop fuel' ino index total (lb + 1) live_seen fs
            end
      else (None, fs)
  end.

(** The bytes of the [index]-th live entry; [None]: -1. *)
Definition limnfs_dir_iter (n index : Z) fs : option (list Z) * lfs_st St :=
  match read_dir n fs with
  | (None, fs) => (None, fs)
  | (Some dir, fs) => let total := dir_total dir in iter_loop (dir_fuel total) dir index total 0 0 fs
  end.

(** *** Creation and deletion *)

Definition create_node (type mode parent : Z) (name : list Z) fs : Z * lfs_st St :=
  let '(n, fs) := limnfs_alloc_inode fs in
  if n <? 0 then (-1, fs)
  else
    let ino := zero_inode <| in_type := type |> <| in_mode := mode |> <| in_parent := parent |> in
    let '(rc, fs) := limnfs_write_inode n ino fs in
    if negb (rc =? 0) then (-1, limnfs_free_inode n fs)
    else
      let '(rc, fs) := limnfs_dir_add parent name n type fs in
      if negb (rc =? 0) then (-1, limnfs_free_inode n fs) else (n, fs).

Definition limnfs_create_file (parent : Z) (name : list Z) fs : Z * lfs_st St :=
  create_node LIMNFS_TYPE_FILE 6 parent name fs.
Definition limnfs_create_dir (parent : Z) (name : list Z) fs : Z * lfs_st St :=
  create_node LIMNFS_TYPE_DIR 7 parent name fs.

Definition limnfs_delete (parent : Z) (name : list Z) fs : Z * lfs_st St :=
  let '(child, fs) := limnfs_dir_lookup parent name fs in
  if child <? 0 then (-1, fs)
  else
    match limnfs_read_inode child fs with
    | (None, fs) => (-1, fs)
    | (Some ino, fs) =>
        let '(nonempty, fs) :=
          if in_type ino =? LIMNFS_TYPE_DIR
          then let '(e, fs) := limnfs_dir_iter child 0 fs in (bool_decide (is_Some e), fs)
          else (false, fs) in
        if (nonempty : bool) then (-1, fs)
        else
          let '(rc, fs) := limnfs_dir_remove parent name fs in
          if negb (rc =? 0) then (-1, fs) else (0, limnfs_free_inode child fs)
    end.

(** *** Truncation *)

(** Free the pointers of a block from index [lo] on and clear them; is any
    pointer left? *)
Definition trunc_ptrs (lo : Z) buf fs : bool * list Z * lfs_st St :=
  foldl (λ '(used, buf, fs) i,
    let p := get32 i buf in
    let '(buf, fs) := if (lo <=? Z.of_nat i) && negb (p =? 0) then (set32 i 0 buf, limnfs_free_block p fs) else (buf, fs) in
    ((used : bool) || negb (get32 i buf =? 0), buf, fs))
    (false, buf, fs) (seq 0 (Z.to_nat LIMNFS_PTRS_PER_BLOCK)).

(** An intermediate block [mid], the [i]-th of the pointer block [parent], of
    which the entries from [lo] on go; [used] as before, [buf] the scratch
    buffer. *)
Definition trunc_mid (parent : Z) (i : nat) (mid lo : Z) (used : bool) buf fs : bool * list Z * lfs_st St :=
  if lo <? LIMNFS_PTRS_PER_BLOCK then
    let '(rc, buf, fs) := bread_into buf mid fs in
    if negb (rc =? 0) then (used, buf, fs)
    else
      let '(any, buf, fs) := trunc_ptrs lo buf fs in
      if negb any then
        let fs := limnfs_free_block mid fs in
        let '(_, buf, fs) := bread_into buf parent fs in
        let buf := set32 i 0 buf in
        let '(_, fs) := bwrite parent buf fs in
        (used, buf, fs)
      else
        let '(_, fs) := bwrite mid buf fs in
        let '(_, buf, fs) := bread_into buf parent fs in
        (true, buf, fs)
  else (true, buf, fs).

(** The entries of the pointer block [dbl], of which the first stands for the
    file's blocks from [base] on (counted in the tree); blocks from [start] on
    go. *)
Definition trunc_dbl (dbl base start : Z) buf fs : bool * list Z * lfs_st St :=
  foldl (λ '(used, buf, fs) j,
    let mid := get32 j buf in
    if mid =? 0 then (used, buf, fs)
    else
      let j_base := u32 (base + Z.of_nat j * LIMNFS_PTRS_PER_BLOCK) in
      let lo := if j_base <? start then start - j_base else 0 in
      trunc_mid dbl j mid lo used buf fs)
    (false, buf, fs) (seq 0 (Z.to_nat LIMNFS_PTRS_PER_BLOCK)).

Definition trunc_tri (tri start : Z) buf fs : bool * list Z * lfs_st St :=
  foldl (λ '(used, buf, fs) i,
    let dbl := get32 i buf in
    if dbl =? 0 then (used, buf, fs)
    else
      let '(rc, buf, fs) := bread_into buf dbl fs in
      if negb (rc =? 0) then (used, buf, fs)
      else
        let i_base := u32 (Z.of_nat i * LIMNFS_PTRS_PER_BLOCK * LIMNFS_PTRS_PER_BLOCK) in
        let '(any, buf, fs) := trunc_dbl dbl i_base start buf fs in
        if negb any then
          let fs := limnfs_free_block dbl fs in
          let '(_, buf, fs) := bread_into buf tri fs in
          let buf := set32 i 0 buf in
          let '(_, fs) := bwrite tri buf fs in
          (used, buf, fs)
        else
          let '(_, buf, fs) := bread_into buf tri fs in
          (true, buf, fs))
    (false, buf, fs) (seq 0 (Z.to_nat LIMNFS_PTRS_PER_BLOCK)).

(** The root [r] of one of the trees: [shrink] handles its entries; the root is
    freed when none is left ([wb]: written back otherwise). *)
Definition trunc_root (wb : bool) (shrink : list Z → lfs_st St → bool * list Z * lfs_st St) (r : Z) fs
    : Z * lfs_st St :=
  if r =? 0 then (0, fs)
  else
    let '(rc, buf, fs) := bread r fs in
    if negb (rc =? 0) then (r, fs)
    else
      let '(used, buf, fs) := shrink buf fs in
      if negb used then (0, limnfs_free_block r fs)
      else if wb then let '(_, fs) := bwrite r buf fs in (r, fs) else (r, fs).

Definition trunc_direct (new_blocks : Z) (ds : list Z) fs : list Z * lfs_st St :=
  foldl (λ '(ds, fs) i,
    if (new_blocks <=? Z.of_nat i) && negb (ds !!! i =? 0)
    then (<[i := 0]> ds, limnfs_free_block (ds !!! i) fs) else (ds, fs))
    (ds, fs) (seq 0 (Z.to_nat LIMNFS_MAX_DIRECT)).

Definition over (x base : Z) : Z := if base <? x then x - base else 0.

Definition limnfs_truncate (n new_size : Z) fs : Z * lfs_st St :=
  match limnfs_read_inode n fs with
  | (None, fs) => (-1, fs)
  | (Some ino, fs) =>
      if in_size ino <=? new_size then limnfs_write_inode n (ino <| in_size := new_size |>) fs
      else
        let new_blocks := if new_size =? 0 then 0 else u32 (new_size + LIMNFS_BLOCK_SIZE - 1) / LIMNFS_BLOCK_SIZE in
        let '(ds, fs) := trunc_direct new_blocks (in_direct ino) fs in
        let '(ind, fs) := trunc_root true (trunc_ptrs (over new_blocks LIMNFS_MAX_DIRECT)) (in_indirect ino) fs in
        let dbl_base := LIMNFS_MAX_DIRECT + LIMNFS_PTRS_PER_BLOCK in
        let '(dbl, fs) := trunc_root false (trunc_dbl (in_double ino) 0 (over new_blocks dbl_base)) (in_double ino) fs in
        let tri_base := dbl_base + LIMNFS_PTRS_PER_BLOCK * LIMNFS_PTRS_PER_BLOCK in
        let '(tri, fs) := trunc_root false (trunc_tri (in_triple ino) (over new_blocks tri_base)) (in_triple ino) fs in
        let meta := (if ind =? 0 then 0 else 1) + (if dbl =? 0 then 0 else 1) + (if tri =? 0 then 0 else 1) in
        limnfs_write_inode n
          (ino <| in_direct := ds |> <| in_indirect := ind |> <| in_double := dbl |> <| in_triple := tri |>
               <| in_size := new_size |> <| in_block_count := u32 (new_blocks + meta) |>) fs
  end.
End limnfs.
