(* ===== verification/LfsAlloc.v ===== *)
(** * LfsAlloc: blocks and inodes of LimnFS

    The first layer of proofs about [LimnFS]: what a read and a write of the
    block store do to the file system's state, the block allocator, and the
    inode table as an array of records. *)

From S2P Require Import Prelude KUtil Mem Bytes Bitmap Dll BCache BlockStore LimnFS.

Section alloc.
Context {St : Type} `{!BlockStore St}.
Implicit Types (fs : lfs_st St) (f : Z → list Z) (ino : limnfs_inode).

(** The blocks a reader sees. *)
Definition fs_rep fs f : Prop := bs_rep (lfs_store fs) f.

(** Everything but the store. *)
Definition meta fs := (lfs_mounted fs, lfs_super fs, lfs_block_bitmap fs, lfs_block_bitmap_bytes fs,
                       lfs_inode_bitmap fs, lfs_hint fs).

Lemma meta_store fs s : meta (fs <| lfs_store := s |>) = meta fs.
Proof. done. Qed.

Lemma meta_fields fs fs' : meta fs' = meta fs →
  lfs_super fs' = lfs_super fs ∧ lfs_block_bitmap fs' = lfs_block_bitmap fs ∧ lfs_hint fs' = lfs_hint fs ∧
  lfs_inode_bitmap fs' = lfs_inode_bitmap fs ∧ lfs_block_bitmap_bytes fs' = lfs_block_bitmap_bytes fs.
Proof. unfold meta. naive_solver. Qed.

(** The device holds what readers see. *)
Definition clean fs f : Prop := ∀ b, bs_raw (lfs_store fs) b = f b.

Lemma bread_spec fs f b :
  fs_rep fs f → ∃ fs', bread b fs = (0, f b, fs') ∧ meta fs' = meta fs ∧ fs_rep fs' f ∧ (clean fs f → clean fs' f).
Proof.
  intros Hr. unfold bread. destruct (bs_read_ok _ f b Hr) as (s' & -> & Hr' & Hc).
  eexists. split; [done|]. split_and!; [done..|]. intros Hcl c. destruct (Hc c) as [E|E]; [|exact E].
  etrans; [exact E|]. apply Hcl.
Qed.

Lemma bread_into_spec fs f b old :
  fs_rep fs f → ∃ fs', bread_into old b fs = (0, f b, fs') ∧ meta fs' = meta fs ∧ fs_rep fs' f.
Proof.
  intros Hr. unfold bread_into. destruct (bread_spec fs f b Hr) as (fs' & -> & Hm & Hr' & _). by exists fs'.
Qed.

Lemma bwrite_spec fs f b buf :
  fs_rep fs f → length buf = 4096%nat →
  ∃ fs', bwrite b buf fs = (0, fs') ∧ meta fs' = meta fs ∧ fs_rep fs' (fupd f b buf).
Proof.
  intros Hr Hl. unfold bwrite. destruct (bs_write_ok _ f b buf Hr Hl) as (s' & -> & Hr'). by eexists.
Qed.

Lemma fupd_eq f b x : fupd f b x b = x.
Proof. unfold fupd. by rewrite decide_True. Qed.
Lemma fupd_ne f b x c : c ≠ b → fupd f b x c = f c.
Proof. intros. unfold fupd. by rewrite decide_False. Qed.

Lemma zero_block_length : length zero_block = 4096%nat.
Proof. apply length_replicate. Qed.

(** ** The block allocator *)

Abbreviation data_start fs := (sb_data_start (lfs_super fs)).
Abbreviation total_blocks fs := (sb_total_blocks (lfs_super fs)).

(** The layout: the inode table lies before the data blocks, the bitmap has a
    bit for every block, the hint is within the disk. *)
Record geo fs : Prop := {
  geo_table : 0 < sb_inode_tbl_start (lfs_super fs) ∧ sb_inode_tbl_start (lfs_super fs) + 32 ≤ data_start fs;
  geo_total : data_start fs < 2 ^ 32 ∧ total_blocks fs < 2 ^ 32;
  geo_bits : bm_ok (Z.to_nat (total_blocks fs)) (lfs_block_bitmap fs);
  geo_hint : 0 ≤ lfs_hint fs ≤ Z.max (data_start fs) (total_blocks fs)
}.

(** A data block that is in use. *)
Definition used fs (b : Z) : Prop :=
  data_start fs ≤ b < total_blocks fs ∧ bm_test (Z.to_nat b) (lfs_block_bitmap fs) = true.

Lemma geo_meta fs fs' : meta fs' = meta fs → geo fs → geo fs'.
Proof.
  intros (E1 & E2 & E3 & _)%meta_fields [Ht Hn Hb Hh]. by constructor; rewrite ?E1, ?E2, ?E3.
Qed.

Lemma used_meta fs fs' b : meta fs' = meta fs → used fs' b ↔ used fs b.
Proof. intros (E1 & E2 & _)%meta_fields. unfold used. by rewrite E1, E2. Qed.

Lemma used_range fs b : geo fs → used fs b → 0 < data_start fs ≤ b ∧ b < 2 ^ 32.
Proof. intros Hg [? _]. pose proof (geo_table _ Hg). pose proof (geo_total _ Hg). lia. Qed.

(** The layout does not change. *)
Definition same_layout fs fs' : Prop :=
  sb_inode_tbl_start (lfs_super fs') = sb_inode_tbl_start (lfs_super fs) ∧
  data_start fs' = data_start fs ∧ total_blocks fs' = total_blocks fs ∧
  lfs_inode_bitmap fs' = lfs_inode_bitmap fs ∧ lfs_block_bitmap_bytes fs' = lfs_block_bitmap_bytes fs.

#[export] Instance same_layout_preorder : PreOrder same_layout.
Proof.
  split; [by intros fs|]. intros a b c (H1 & H2 & H3 & H4 & H5) (J1 & J2 & J3 & J4 & J5).
  unfold same_layout. split_and!; congruence.
Qed.

Lemma same_layout_meta fs fs' : meta fs' = meta fs → same_layout fs fs'.
Proof. intros (E1 & _ & _ & E4 & E5)%meta_fields. unfold same_layout. by rewrite E1, E4, E5. Qed.

Lemma take_bit_spec fs i :
  geo fs → data_start fs ≤ Z.of_nat i < total_blocks fs →
  geo (take_bit i fs) ∧ same_layout fs (take_bit i fs) ∧
  ∀ b, used (take_bit i fs) b ↔ used fs b ∨ b = Z.of_nat i.
Proof.
  intros Hg Hi. pose proof Hg as [Ht Hn Hb Hh]. split_and!; [|done|].
  - constructor; [done..|by apply bm_set_ok|].
    change (lfs_hint (take_bit i fs)) with (u32 (Z.of_nat i + 1)).
    change (0 ≤ u32 (Z.of_nat i + 1) ≤ Z.max (data_start fs) (total_blocks fs)). rewrite u32_id by lia. lia.
  - intros b. unfold used.
    change (data_start (take_bit i fs)) with (data_start fs).
    change (total_blocks (take_bit i fs)) with (total_blocks fs).
    change (lfs_block_bitmap (take_bit i fs)) with (bm_set i (lfs_block_bitmap fs)).
    rewrite (bm_test_set (Z.to_nat (total_blocks fs))) by (done || lia).
    rewrite orb_true_iff, bool_decide_eq_true. split.
    + intros [? [E|E]]; [right; lia|by left].
    + intros [[? ?]|E]; [tauto|split; [lia|left; lia]].
Qed.

(** An allocation takes a block that was not in use; it fails only when every
    data block is in use. *)
Lemma limnfs_alloc_block_spec fs :
  geo fs →
  let '(b, fs') := limnfs_alloc_block fs in
  lfs_store fs' = lfs_store fs ∧ geo fs' ∧ same_layout fs fs' ∧
  (b = 0 ∧ fs' = fs ∧ (∀ c, data_start fs ≤ c < total_blocks fs → used fs c) ∨
   0 < b ∧ data_start fs ≤ b < total_blocks fs ∧ ¬ used fs b ∧ ∀ c, used fs' c ↔ used fs c ∨ c = b).
Proof.
  intros Hg. pose proof Hg as [Ht Hn Hb Hh]. unfold limnfs_alloc_block.
  set (start := if _ <=? _ then _ else _).
  assert (Hs : data_start fs ≤ start ≤ Z.max (data_start fs) (total_blocks fs))
    by (unfold start; destruct (_ <=? _) eqn:E; bool_hyps; lia).
  assert (Hfound : ∀ i, data_start fs ≤ Z.of_nat i < total_blocks fs → bm_test i (lfs_block_bitmap fs) = false →
    lfs_store (take_bit i fs) = lfs_store fs ∧ geo (take_bit i fs) ∧ same_layout fs (take_bit i fs) ∧
    (Z.of_nat i = 0 ∧ take_bit i fs = fs ∧ (∀ c, data_start fs ≤ c < total_blocks fs → used fs c) ∨
     0 < Z.of_nat i ∧ data_start fs ≤ Z.of_nat i < total_blocks fs ∧ ¬ used fs (Z.of_nat i) ∧
     ∀ c, used (take_bit i fs) c ↔ used fs c ∨ c = Z.of_nat i)).
  { intros i Hi Hfree. destruct (take_bit_spec fs i Hg Hi) as (? & ? & ?).
    split_and!; [done..|right]. split_and!; [lia..| |done].
    intros [_ E]. rewrite Nat2Z.id in E. congruence. }
  destruct (bm_scan _ (Z.to_nat start) _) as [i|] eqn:E1.
  { apply bm_scan_Some in E1 as (? & ? & _). apply Hfound; [lia|done]. }
  destruct (bm_scan _ (Z.to_nat (data_start fs)) _) as [i|] eqn:E2.
  { apply bm_scan_Some in E2 as (? & ? & _). apply Hfound; [lia|done]. }
  split_and!; [done..|left]. split_and!; [done..|]. intros c Hc. split; [done|].
  rewrite bm_scan_None in E1, E2. destruct (decide (start ≤ c)); [apply E1|apply E2]; lia.
Qed.

(** A new block is zeroed, and no block in use changes. *)
Lemma new_block_spec fs f :
  fs_rep fs f → geo fs →
  let '(b, fs') := new_block fs in
  geo fs' ∧ same_layout fs fs' ∧
  (b = 0 ∧ fs_rep fs' f ∧ (∀ c, used fs' c ↔ used fs c) ∧ (∀ c, data_start fs ≤ c < total_blocks fs → used fs c) ∨
   0 < b < 2 ^ 32 ∧ data_start fs ≤ b ∧ ¬ used fs b ∧ (∀ c, used fs' c ↔ used fs c ∨ c = b) ∧ fs_rep fs' (fupd f b zero_block)).
Proof.
  intros Hr Hg. unfold new_block. pose proof (limnfs_alloc_block_spec fs Hg) as Ha.
  pose proof (geo_total _ Hg).
  destruct (limnfs_alloc_block fs) as [b fs1]. destruct Ha as (Hst & Hg1 & Hl1 & Hcase).
  assert (Hr1 : fs_rep fs1 f) by (unfold fs_rep; by rewrite Hst).
  destruct Hcase as [(-> & -> & Hfull)|(Hb & Hrange & Hnu & Hu)].
  { split_and!; [done..|left]. by split_and!. }
  rewrite (proj2 (Z.eqb_neq b 0)) by lia.
  destruct (bwrite_spec fs1 f b zero_block Hr1 zero_block_length) as (fs2 & -> & Hm2 & Hr2).
  split_and!; [by eapply geo_meta|etrans; [exact Hl1|by apply same_layout_meta]|right].
  split_and!; [lia..|done| |done]. intros c. by rewrite (used_meta _ _ _ Hm2).
Qed.

Lemma limnfs_free_block_spec fs b :
  geo fs → data_start fs ≤ b < total_blocks fs →
  let fs' := limnfs_free_block b fs in
  lfs_store fs' = lfs_store fs ∧ geo fs' ∧ same_layout fs fs' ∧ ∀ c, used fs' c ↔ used fs c ∧ c ≠ b.
Proof.
  intros Hg Hb fs'. pose proof Hg as [Ht Hn Hbm Hh]. unfold fs', limnfs_free_block.
  rewrite (proj2 (Z.ltb_ge b (data_start fs))), (proj2 (Z.leb_gt (total_blocks fs) b)) by lia. cbn [orb].
  split_and!; [done| |done|].
  - constructor; [done..|by apply bm_clear_ok|done].
  - intros c. unfold used. set (fs1 := fs <| lfs_block_bitmap := _ |> <| lfs_super := _ |>).
    change (lfs_block_bitmap fs1) with (bm_clear (Z.to_nat b) (lfs_block_bitmap fs)).
    change (data_start fs1) with (data_start fs). change (total_blocks fs1) with (total_blocks fs).
    split.
    + intros [? Ht']. rewrite (bm_test_clear (Z.to_nat (total_blocks fs))) in Ht' by (done || lia).
      apply andb_true_iff in Ht' as [E ?]. apply negb_true_iff, bool_decide_eq_false in E.
      split_and!; [lia..|done|]. intros ->. done.
    + intros [[? ?] Hne]. split; [done|]. rewrite (bm_test_clear (Z.to_nat (total_blocks fs))) by (done || lia).
      apply andb_true_iff. split; [|done]. apply negb_true_iff, bool_decide_eq_false. lia.
Qed.

(** ** The inode table *)

Record inode_ok ino : Prop := {
  io_type : 0 ≤ in_type ino < 2 ^ 16;
  io_mode : 0 ≤ in_mode ino < 2 ^ 16;
  io_size : 0 ≤ in_size ino < 2 ^ 32;
  io_count : 0 ≤ in_block_count ino < 2 ^ 32;
  io_direct : length (in_direct ino) = 10%nat ∧ Forall (λ b, 0 ≤ b < 2 ^ 32) (in_direct ino);
  io_indirect : 0 ≤ in_indirect ino < 2 ^ 32;
  io_double : 0 ≤ in_double ino < 2 ^ 32;
  io_triple : 0 ≤ in_triple ino < 2 ^ 32;
  io_parent : 0 ≤ in_parent ino < 2 ^ 32;
  io_uid : 0 ≤ in_uid ino < 2 ^ 16;
  io_gid : 0 ≤ in_gid ino < 2 ^ 16;
  io_reserved : length (in_reserved ino) = 44%nat ∧ Forall is_byte (in_reserved ino)
}.

Lemma inode_bytes_length ino : inode_ok ino → length (inode_bytes ino) = INODE_SIZE.
Proof.
  intros [???? [Hd _] ?????? [Hr _]]. destruct ino as [t m s c d i1 i2 i3 p u g r]. cbn in Hd, Hr.
  do 11 (destruct d as [|? d]; try done). unfold inode_bytes. cbn -[Z.modulo Z.div length]. cbn [length]. by rewrite Hr.
Qed.

Lemma word2 v : 0 ≤ v < 2 ^ 16 → le_val (le_bytes 2 v) = v.
Proof. intros. rewrite le_val_bytes. by apply Z.mod_small. Qed.
Lemma word4 v : 0 ≤ v < 2 ^ 32 → le_val (le_bytes 4 v) = v.
Proof. intros. rewrite le_val_bytes. by apply Z.mod_small. Qed.

(** Reading back what was written. *)
Lemma inode_of_inode_bytes ino : inode_ok ino → inode_of_bytes (inode_bytes ino) = ino.
Proof.
  intros [H1 H2 H3 H4 [Hd Hdr] H5 H6 H7 H8 H9 H10 [Hr _]].
  destruct ino as [t m s c d i1 i2 i3 p u g r]. cbn [in_type in_mode in_size in_block_count in_direct in_indirect
    in_double in_triple in_parent in_uid in_gid in_reserved] in *.
  do 11 (destruct d as [|? d]; try done). repeat (apply Forall_cons in Hdr as [? Hdr]).
  unfold inode_of_bytes, inode_bytes. cbn [in_type in_mode in_size in_block_count in_direct in_indirect
    in_double in_triple in_parent in_uid in_gid in_reserved].
  f_equal; try (etrans; [|apply word2; done]; reflexivity); try (etrans; [|apply word4; done]; reflexivity).
  - cbn [fmap list_fmap seq]. repeat f_equal; (etrans; [|apply word4; done]); reflexivity.
  - etrans; [|apply (take_ge r 44); by rewrite Hr]. reflexivity.
Qed.

Lemma inode_of_bytes_ok l : length l = INODE_SIZE → Forall is_byte l → inode_ok (inode_of_bytes l).
Proof.
  intros Hl Hb.
  assert (H2 : ∀ off, (off + 2 ≤ 116)%nat → 0 ≤ get_field off 2 l < 2 ^ 16)
    by (intros; apply (get_field_range off 2 l); [lia|done]).
  assert (H4 : ∀ off, (off + 4 ≤ 116)%nat → 0 ≤ get_field off 4 l < 2 ^ 32)
    by (intros; apply (get_field_range off 4 l); [lia|done]).
  constructor; cbn [inode_of_bytes in_type in_mode in_size in_block_count in_direct in_indirect in_double in_triple
    in_parent in_uid in_gid in_reserved]; try (apply H2; lia); try (apply H4; lia).
  - split; [by rewrite length_fmap, length_seq|]. apply Forall_fmap, Forall_forall. intros k Hk.
    apply elem_of_seq in Hk. apply H4. lia.
  - split; [apply length_slice; lia|by apply Forall_slice].
Qed.

Lemma le_bytes_is_byte n v : Forall is_byte (le_bytes n v).
Proof. apply le_bytes_range. Qed.

Lemma inode_bytes_is_byte ino : inode_ok ino → Forall is_byte (inode_bytes ino).
Proof.
  intros [???? _ ?????? [_ Hr]]. unfold inode_bytes. repeat (apply Forall_app; split); try apply le_bytes_is_byte; [|done].
  generalize (in_direct ino) as d. intros d. induction d as [|x d IH]; [constructor|].
  change (mjoin (le_bytes 4 <$> x :: d)) with (le_bytes 4 x ++ mjoin (le_bytes 4 <$> d)).
  apply Forall_app. split; [apply le_bytes_is_byte|done].
Qed.

Lemma zero_inode_ok : inode_ok zero_inode.
Proof. constructor; cbn [zero_inode in_direct in_reserved]; try done; split; try done; apply Forall_replicate; done. Qed.

(** Inode [n] on disk. *)
Definition dinode fs f (n : Z) : limnfs_inode :=
  inode_of_bytes (slice (inode_offset n) INODE_SIZE (f (inode_block n fs))).

Lemma inode_block_eq fs n :
  geo fs → 0 ≤ n < LIMNFS_MAX_INODES → inode_block n fs = sb_inode_tbl_start (lfs_super fs) + n / 35 ∧
    inode_block n fs < data_start fs.
Proof.
  intros Hg Hn. pose proof (geo_table _ Hg). pose proof (geo_total _ Hg). unfold inode_block.
  change inodes_per_block with 35. assert (0 ≤ n / 35 ≤ 31).
  { split; [apply Z.div_pos; lia|]. apply Z.lt_succ_r, Z.div_lt_upper_bound; lia. }
  rewrite u32_id by lia. lia.
Qed.

Lemma inode_offset_bound n : 0 ≤ n → (inode_offset n + INODE_SIZE ≤ 4096)%nat.
Proof.
  intros. unfold inode_offset. change inodes_per_block with 35.
  pose proof (Z.mod_pos_bound n 35 ltac:(lia)). lia.
Qed.

Lemma inode_slots n m fs :
  geo fs → 0 ≤ n < LIMNFS_MAX_INODES → 0 ≤ m < LIMNFS_MAX_INODES → n ≠ m → inode_block n fs = inode_block m fs →
  (inode_offset m + INODE_SIZE ≤ inode_offset n)%nat ∨ (inode_offset n + INODE_SIZE ≤ inode_offset m)%nat.
Proof.
  intros Hg Hn Hm Hne. destruct (inode_block_eq fs n Hg Hn) as [-> _], (inode_block_eq fs m Hg Hm) as [-> _].
  intros E. unfold inode_offset. change inodes_per_block with 35.
  pose proof (Z.div_mod n 35 ltac:(lia)). pose proof (Z.div_mod m 35 ltac:(lia)).
  pose proof (Z.mod_pos_bound n 35 ltac:(lia)). pose proof (Z.mod_pos_bound m 35 ltac:(lia)). lia.
Qed.

Lemma limnfs_read_inode_spec fs f n :
  fs_rep fs f → 0 ≤ n < LIMNFS_MAX_INODES →
  ∃ fs', limnfs_read_inode n fs = (Some (dinode fs f n), fs') ∧ meta fs' = meta fs ∧ fs_rep fs' f ∧
    (clean fs f → clean fs' f).
Proof.
  intros Hr Hn. unfold limnfs_read_inode. rewrite (proj2 (Z.leb_gt _ n)) by lia.
  destruct (bread_spec fs f (inode_block n fs) Hr) as (fs' & -> & Hm & Hr' & Hc). by exists fs'.
Qed.

(** The disk holds bytes. *)
Definition all_bytes f : Prop := ∀ b, Forall is_byte (f b).

Lemma all_bytes_fupd f b x : all_bytes f → Forall is_byte x → all_bytes (fupd f b x).
Proof. intros Hf Hx c. unfold fupd. by case_decide. Qed.

Lemma zero_block_bytes : Forall is_byte zero_block.
Proof. by apply Forall_replicate. Qed.

Lemma dinode_meta fs fs' f n : meta fs' = meta fs → dinode fs' f n = dinode fs f n.
Proof. intros (E & _)%meta_fields. unfold dinode, inode_block. by rewrite E. Qed.

Lemma dinode_layout fs fs' f n : same_layout fs fs' → dinode fs' f n = dinode fs f n.
Proof. intros (E & _). unfold dinode, inode_block. by rewrite E. Qed.

Lemma dinode_ok fs f n : fs_rep fs f → all_bytes f → 0 ≤ n → inode_ok (dinode fs f n).
Proof.
  intros Hr Hb Hn. pose proof (inode_offset_bound n Hn). apply inode_of_bytes_ok; [|by apply Forall_slice].
  apply length_slice. by rewrite (bs_len _ f _ Hr).
Qed.

(** A write of inode [n] changes inode [n] and nothing else. *)
Lemma limnfs_write_inode_spec fs f n ino :
  fs_rep fs f → geo fs → all_bytes f → 0 ≤ n < LIMNFS_MAX_INODES → inode_ok ino →
  ∃ fs' f', limnfs_write_inode n ino fs = (0, fs') ∧ meta fs' = meta fs ∧ fs_rep fs' f' ∧ all_bytes f' ∧
    dinode fs' f' n = ino ∧ (∀ m, 0 ≤ m < LIMNFS_MAX_INODES → m ≠ n → dinode fs' f' m = dinode fs f m) ∧
    (∀ b, data_start fs ≤ b → f' b = f b).
Proof.
  intros Hr Hg Hby Hn Hok. unfold limnfs_write_inode. rewrite (proj2 (Z.leb_gt _ n)) by lia.
  destruct (bread_spec fs f (inode_block n fs) Hr) as (fs1 & -> & Hm1 & Hr1 & _). cbn [negb Z.eqb].
  assert (Eb : inode_block n fs1 = inode_block n fs) by (unfold inode_block; by rewrite (proj1 (meta_fields _ _ Hm1))).
  rewrite Eb. pose proof (inode_offset_bound n ltac:(lia)) as Hoff. pose proof (bs_len _ f (inode_block n fs) Hr) as Hlen.
  pose proof (inode_bytes_length ino Hok) as Hil. set (buf := splice _ _ _).
  assert (Hbl : length buf = 4096%nat) by (unfold buf; rewrite length_splice by lia; done).
  destruct (bwrite_spec fs1 f (inode_block n fs) buf Hr1 Hbl) as (fs2 & -> & Hm2 & Hr2).
  exists fs2, (fupd f (inode_block n fs) buf). split_and!; [done|congruence|done| | | |].
  - apply all_bytes_fupd; [done|]. apply Forall_splice; [by apply inode_bytes_is_byte|done].
  - rewrite (dinode_meta fs fs2) by congruence. unfold dinode. rewrite fupd_eq. unfold buf. rewrite <- Hil at 1.
    rewrite slice_splice_eq by lia. by apply inode_of_inode_bytes.
  - intros m Hm Hne. rewrite (dinode_meta fs fs2) by congruence. unfold dinode, fupd.
    case_decide as E; [|done]. rewrite E. f_equal. unfold buf. rewrite slice_splice_ne; [done|lia|].
    rewrite Hil. destruct (inode_slots n m fs Hg Hn Hm ltac:(done) ltac:(done)); lia.
  - intros b Hb. apply fupd_ne. destruct (inode_block_eq fs n Hg Hn). lia.
Qed.
End alloc.

Abbreviation data_start fs := (sb_data_start (lfs_super fs)).
Abbreviation total_blocks fs := (sb_total_blocks (lfs_super fs)).
