(* ===== verification/LfsTree.v ===== *)
(** * LfsTree: the block map of LimnFS

    The blocks of a file are reached through ten direct pointers and three
    trees of pointer blocks.  A position in a tree is the path of indices from
    its root; [walk] follows a path.  The functions of the code are shown to
    look up and to extend this map: a new block appears at exactly the position
    asked for, no other position changes, and no two positions share a block. *)

From S2P Require Import Prelude KUtil Mem Bytes Bitmap Dll BCache BlockStore LimnFS LfsAlloc.

Implicit Types (f : Z → list Z) (p q : list nat).

(** The block at the end of a path; 0 when a pointer on the way is null. *)
Fixpoint walk f (r : Z) p : Z :=
  match p with
  | [] => r
  | i :: p' => if r =? 0 then 0 else walk f (get32 i (f r)) p'
  end.

(** The path of block [idx] of a tree of [k] levels. *)
Fixpoint digits (k : nat) (idx : Z) : list nat :=
  match k with
  | O => []
  | S k' => Z.to_nat (idx / 1024 ^ Z.of_nat k') :: digits k' (idx mod 1024 ^ Z.of_nat k')
  end.

Definition path_ok (k : nat) p : Prop := (length p ≤ k)%nat ∧ Forall (λ i, Z.of_nat i < 1024) p.

Lemma walk_0 f p : walk f 0 p = 0.
Proof. by destruct p. Qed.

Lemma walk_cons f r i p : r ≠ 0 → walk f r (i :: p) = walk f (get32 i (f r)) p.
Proof. intros Hr. cbn [walk]. by rewrite (proj2 (Z.eqb_neq r 0)). Qed.

Lemma walk_app f r p q : walk f r (p ++ q) = walk f (walk f r p) q.
Proof.
  revert r. induction p as [|i p IH]; intros r; [done|]. cbn [app walk].
  destruct (r =? 0) eqn:E; [by rewrite walk_0|]. apply IH.
Qed.

Lemma path_ok_nil k : path_ok k [].
Proof. split; [simpl; lia|constructor]. Qed.
Lemma path_ok_cons k i p : path_ok (S k) (i :: p) ↔ Z.of_nat i < 1024 ∧ path_ok k p.
Proof. unfold path_ok. rewrite Forall_cons. cbn [length]. intuition lia. Qed.
Lemma path_ok_app k p q : path_ok k (p ++ q) → path_ok k p.
Proof. unfold path_ok. rewrite length_app, Forall_app. intuition lia. Qed.
#[export] Hint Resolve path_ok_nil : limnx.

Lemma digits_length k idx : length (digits k idx) = k.
Proof. revert idx. induction k; intros; simpl; [done|]. by rewrite IHk. Qed.

Lemma pow1024_pos k : 0 < 1024 ^ Z.of_nat k.
Proof. apply Z.pow_pos_nonneg; lia. Qed.

Lemma digits_step k idx :
  0 ≤ idx < 1024 ^ Z.of_nat (S k) →
  0 ≤ idx / 1024 ^ Z.of_nat k < 1024 ∧ 0 ≤ idx mod 1024 ^ Z.of_nat k < 1024 ^ Z.of_nat k.
Proof.
  intros Hi. pose proof (pow1024_pos k). split; [|by apply Z.mod_pos_bound].
  rewrite Nat2Z.inj_succ, Z.pow_succ_r in Hi by lia. split; [apply Z.div_pos; lia|].
  apply Z.div_lt_upper_bound; lia.
Qed.

Lemma digits_ok k idx : 0 ≤ idx < 1024 ^ Z.of_nat k → path_ok k (digits k idx).
Proof.
  revert idx. induction k as [|k IH]; intros idx Hi; [apply path_ok_nil|].
  destruct (digits_step k idx Hi) as [? ?]. cbn [digits]. apply path_ok_cons. split; [lia|by apply IH].
Qed.

Lemma digits_inj k a b :
  0 ≤ a < 1024 ^ Z.of_nat k → 0 ≤ b < 1024 ^ Z.of_nat k → digits k a = digits k b → a = b.
Proof.
  revert a b. induction k as [|k IH]; intros a b Ha Hb; [simpl in *; lia|].
  destruct (digits_step k a Ha) as [Ha1 Ha2], (digits_step k b Hb) as [Hb1 Hb2].
  cbn [digits]. intros [= E1 E2]. apply IH in E2; [|done..].
  pose proof (pow1024_pos k). rewrite (Z.div_mod a (1024 ^ Z.of_nat k)), (Z.div_mod b (1024 ^ Z.of_nat k)) by lia.
  rewrite E2. f_equal. f_equal. lia.
Qed.

(** A walk sees only the pointer blocks on its way. *)
Lemma walk_frame f f' r p :
  (∀ q i s, p = q ++ i :: s → walk f r q ≠ 0 → f' (walk f r q) = f (walk f r q)) → walk f' r p = walk f r p.
Proof.
  revert r. induction p as [|i p IH]; intros r Hf; [done|]. cbn [walk].
  destruct (r =? 0) eqn:E; [done|]. bool_hyps.
  pose proof (Hf [] i p eq_refl E) as Hr. cbn [walk] in Hr. rewrite Hr. apply IH. intros q j s -> Hq.
  specialize (Hf (i :: q) j s eq_refl). rewrite walk_cons in Hf by done. by apply Hf.
Qed.

Section tree.
Context {St : Type} `{!BlockStore St}.
Implicit Types (fs : lfs_st St) (ino : limnfs_inode).

Lemma tree_get_spec k : ∀ r idx fs f,
  fs_rep fs f → r ≠ 0 →
  ∃ fs', tree_get k r idx fs = (walk f r (digits k idx), fs') ∧ meta fs' = meta fs ∧ fs_rep fs' f ∧
    (clean fs f → clean fs' f).
Proof.
  induction k as [|k IH]; intros r idx fs f Hr Hne; [by exists fs|].
  cbn [tree_get digits walk]. rewrite (proj2 (Z.eqb_neq r 0)) by done.
  destruct (bread_spec fs f r Hr) as (fs1 & -> & Hm & Hr1 & Hc). cbn [negb Z.eqb].
  set (c := get32 _ (f r)). destruct (c =? 0) eqn:E; bool_hyps.
  - exists fs1. rewrite E, walk_0. by split_and!.
  - destruct (IH c (idx mod 1024 ^ Z.of_nat k) fs1 f Hr1 E) as (fs2 & -> & Hm2 & Hr2 & Hc2).
    exists fs2. split_and!; [done|congruence|done|tauto].
Qed.

(** No two positions share a block, and every block is in use. *)
Definition tinj f (r : Z) (k : nat) : Prop :=
  ∀ p q, path_ok k p → path_ok k q → walk f r p = walk f r q → walk f r p ≠ 0 → p = q.
Definition tused fs f (r : Z) (k : nat) : Prop :=
  ∀ p, path_ok k p → walk f r p ≠ 0 → used fs (walk f r p).

(** What an extension of a tree of [k] levels at the path [P] does: with [ok],
    [blk] is at [P]; otherwise every block was in use and [blk] was given back.
    New pointer blocks, the root [r'] perhaps, are on the way to [P] and were not
    in use; only pointer blocks of the tree change. *)
Record grew (k : nat) (r r' : Z) (P : list nat) (blk : Z) fs f (ok : bool) fs' f' : Prop := {
  g_rep : fs_rep fs' f';
  g_geo : geo fs';
  g_lay : same_layout fs fs';
  g_bytes : all_bytes f → all_bytes f';
  g_old p : path_ok k p → walk f r p ≠ 0 → walk f' r' p = walk f r p;
  g_new p : path_ok k p → walk f r p = 0 → walk f' r' p ≠ 0 →
    p = P ∧ ok = true ∨ (∃ q, q ≠ [] ∧ P = p ++ q) ∧ ¬ used fs (walk f' r' p);
  g_hit : walk f' r' P = if ok then blk else 0;
  g_inj : tinj f' r' k;
  g_used b : used fs' b ↔ used fs b ∧ (ok = true ∨ b ≠ blk) ∨
    ∃ p, path_ok k p ∧ walk f r p = 0 ∧ walk f' r' p = b ∧ b ≠ 0 ∧ p ≠ P;
  g_frame b : b < data_start fs ∨ used fs b → (∀ p, path_ok k p → (length p < k)%nat → walk f r p = b → b = 0) → f' b = f b;
  g_root : r ≠ 0 → r' = r;
  g_full c : ok = false → data_start fs ≤ c < total_blocks fs → c ≠ blk → used fs' c
}.

(** ** Extending a tree through one child *)

Section graft.
Context (k : nat) (r : Z) (i : nat) (P' : list nat) (blk c : Z) (fs fs1 fs' : lfs_st St) (f f1 f' : Z → list Z) (ok : bool).
Context (Hi : Z.of_nat i < 1024) (Hr : r ≠ 0) (Hru : used fs r).
Context (Hinj : tinj f r (S k)) (Hus : tused fs f r (S k)).
Context (HP : path_ok k P') (HPne : P' ≠ []) (Hblk : used fs blk) (Hblk_new : ∀ p, path_ok (S k) p → walk f r p ≠ blk).
Context (Hc : c ≠ 0) (Hci : get32 i (f1 r) = c) (Hcj : ∀ j, j ≠ i → get32 j (f1 r) = get32 j (f r)).
Context (Hf1 : ∀ b, b ≠ r → b < data_start fs ∨ used fs b → f1 b = f b) (Hby : all_bytes f → all_bytes f1).
(** The child was there, or it is a new zeroed block. *)
Context (Hchild :
  (get32 i (f r) = c ∧ (∀ p, walk f1 c p = walk f c p) ∧ ∀ b, used fs1 b ↔ used fs b) ∨
  (get32 i (f r) = 0 ∧ ¬ used fs c ∧ data_start fs ≤ c ∧ (∀ b, used fs1 b ↔ used fs b ∨ b = c) ∧
   ∀ p, p ≠ [] → walk f1 c p = 0)).
Context (Hlay : same_layout fs fs1) (Hg : grew k c c P' blk fs1 f1 ok fs' f').

Lemma graft_used b : used fs b → used fs1 b.
Proof. destruct Hchild as [(_ & _ & ->)|(_ & _ & _ & -> & _)]; tauto. Qed.

(** A block in use before is in the new subtree only where it was before. *)
Lemma graft_back p v : path_ok k p → walk f' c p = v → v ≠ 0 → used fs v → v ≠ blk → walk f r (i :: p) = v.
Proof.
  intros Hp Hv Hv0 Hvu Hvb. rewrite walk_cons by done.
  destruct (decide (walk f1 c p = 0)) as [E|E].
  - exfalso. destruct (g_new _ _ _ _ _ _ _ _ _ _ Hg p Hp E) as [[-> Hok]|[_ Hn]]; [congruence| |].
    + pose proof (g_hit _ _ _ _ _ _ _ _ _ _ Hg) as Hh. rewrite Hok in Hh. congruence.
    + apply Hn. rewrite Hv. by apply graft_used.
  - rewrite (g_old _ _ _ _ _ _ _ _ _ _ Hg p Hp E) in Hv.
    destruct Hchild as [(-> & Hw & _)|(_ & Hcu & _ & _ & Hz)]; [congruence|].
    destruct p as [|j p]; [|by rewrite Hz in E]. cbn [walk] in Hv. congruence.
Qed.

Lemma graft_child_ne p v :
  path_ok k p → used fs v → v ≠ 0 → walk f1 c p = v → walk f r (i :: p) = v.
Proof.
  intros Hp Hvu Hv0 Hv. rewrite walk_cons by done.
  destruct Hchild as [(-> & Hw & _)|(_ & Hcu & _ & _ & Hz)]; [congruence|].
  destruct p as [|j p]; [cbn [walk] in Hv; congruence|]. by rewrite Hz in Hv.
Qed.

Lemma graft_root : f' r = f1 r.
Proof.
  apply (g_frame _ _ _ _ _ _ _ _ _ _ Hg); [right; by apply graft_used|].
  intros p Hp _ E. apply graft_child_ne in E; [|done..].
  assert (E2 : i :: p = []); [|done]. apply Hinj; [by apply path_ok_cons|apply path_ok_nil|done|congruence].
Qed.

Lemma graft_hit p : walk f' r (i :: p) = walk f' c p.
Proof. rewrite walk_cons by done. by rewrite graft_root, Hci. Qed.

Lemma graft_other j p : j ≠ i → path_ok (S k) (j :: p) → walk f' r (j :: p) = walk f r (j :: p).
Proof.
  intros Hj Hp. rewrite !walk_cons by done. rewrite graft_root, Hcj by done.
  apply walk_frame. intros q x s -> Hq.
  assert (Hpq : path_ok (S k) (j :: q)).
  { apply (path_ok_app _ (j :: q) (x :: s)). done. }
  set (b := walk f (get32 j (f r)) q) in *. assert (Eb : walk f r (j :: q) = b) by (by rewrite walk_cons).
  assert (Hbu : used fs b) by (rewrite <- Eb; apply Hus; [done|congruence]).
  rewrite (g_frame _ _ _ _ _ _ _ _ _ _ Hg b); [|right; by apply graft_used|].
  - apply Hf1; [|by right]. intros E. rewrite E in Eb.
    assert (j :: q = []); [|done]. apply Hinj; [done|apply path_ok_nil|done|congruence].
  - intros p Hp' _ E. apply graft_child_ne in E; [|done..]. exfalso.
    assert (i :: p = j :: q); [|congruence]. apply Hinj; [by apply path_ok_cons|done|congruence|congruence].
Qed.

Lemma graft_old p : path_ok (S k) p → walk f r p ≠ 0 → walk f' r p = walk f r p.
Proof.
  intros Hp Hw. destruct p as [|j p]; [done|]. destruct (decide (j = i)) as [->|]; [|by apply graft_other].
  apply path_ok_cons in Hp as [_ Hp]. rewrite graft_hit. rewrite walk_cons in * by done.
  destruct Hchild as [(E & Hwk & _)|(E & _)]; [|by rewrite E, walk_0 in Hw].
  rewrite E in *. rewrite (g_old _ _ _ _ _ _ _ _ _ _ Hg p Hp); by rewrite Hwk.
Qed.

Lemma graft_new p :
  path_ok (S k) p → walk f r p = 0 → walk f' r p ≠ 0 →
  p = i :: P' ∧ ok = true ∨ (∃ q, q ≠ [] ∧ i :: P' = p ++ q) ∧ ¬ used fs (walk f' r p).
Proof.
  intros Hp H0 Hw. destruct p as [|j p]; [done|].
  destruct (decide (j = i)) as [->|]; [|by rewrite graft_other in Hw].
  apply path_ok_cons in Hp as [_ Hp]. rewrite graft_hit in *. rewrite walk_cons in H0 by done.
  destruct (decide (walk f1 c p = 0)) as [E|E].
  - destruct (g_new _ _ _ _ _ _ _ _ _ _ Hg p Hp E Hw) as [[-> ?]|[(q & ? & ->) Hn]]; [by left|right].
    split; [by exists q|]. intros Hu. by apply Hn, graft_used.
  - destruct Hchild as [(Ec & Hwk & _)|(_ & Hcu & _ & _ & Hz)].
    + rewrite Ec, <- Hwk in H0. done.
    + destruct p as [|j p]; [|by rewrite Hz in E]. right. split; [by exists P'|].
      by rewrite (g_old _ _ _ _ _ _ _ _ _ _ Hg [] Hp E).
Qed.

Lemma graft_inj : tinj f' r (S k).
Proof.
  (* a position of the old part has an old block *)
  assert (Hold : ∀ p, path_ok (S k) p → (∀ p', p ≠ i :: p') → walk f' r p ≠ 0 →
            walk f' r p = walk f r p ∧ used fs (walk f r p)).
  { intros [|j p] Hp Hni Hw; [done|]. assert (j ≠ i) by (intros ->; by eapply Hni).
    rewrite graft_other in Hw |- * by done. split; [done|by apply Hus]. }
  assert (Hmix : ∀ p q, path_ok (S k) (i :: p) → path_ok (S k) q → (∀ p', q ≠ i :: p') →
            walk f' r (i :: p) = walk f' r q → walk f' r q ≠ 0 → False).
  { intros p q [_ Hp]%path_ok_cons Hq Hni E Hw. destruct (Hold q Hq Hni Hw) as [E2 Hu].
    rewrite graft_hit, E2 in E. assert (Hnb : walk f r q ≠ blk) by (by apply Hblk_new).
    apply graft_back in E; [|done|congruence|done|done]. apply (Hni p). symmetry.
    apply Hinj; [by apply path_ok_cons|done|done|congruence]. }
  assert (Hdec : ∀ p, (∃ p', p = i :: p') ∨ ∀ p', p ≠ i :: p').
  { intros [|j p]; [by right|]. destruct (decide (j = i)) as [->|]; [left; by eexists|right; congruence]. }
  intros p q Hp Hq E Hw.
  destruct (Hdec p) as [[p' ->]|Hnp], (Hdec q) as [[q' ->]|Hnq].
  - f_equal. rewrite !graft_hit in E. rewrite graft_hit in Hw.
    apply (g_inj _ _ _ _ _ _ _ _ _ _ Hg); [by apply path_ok_cons in Hp as [_ ?]|by apply path_ok_cons in Hq as [_ ?]|done|done].
  - exfalso. eapply Hmix; [exact Hp|exact Hq|done|done|congruence].
  - exfalso. eapply Hmix; [exact Hq|exact Hp|done|done|congruence].
  - destruct (Hold p Hp Hnp Hw) as [E1 _]. destruct (Hold q Hq Hnq ltac:(congruence)) as [E2 _].
    apply Hinj; [done|done|congruence|congruence].
Qed.

Lemma graft_used_iff b :
  used fs' b ↔ used fs b ∧ (ok = true ∨ b ≠ blk) ∨
    ∃ p, path_ok (S k) p ∧ walk f r p = 0 ∧ walk f' r p = b ∧ b ≠ 0 ∧ p ≠ i :: P'.
Proof.
  rewrite (g_used _ _ _ _ _ _ _ _ _ _ Hg b). split.
  - intros [[Hu Hok]|(p & Hp & H0 & Hb & Hb0 & Hne)].
    + destruct Hchild as [(_ & _ & Hiff)|(Ec & _ & _ & Hiff & _)]; apply Hiff in Hu; [by left|].
      destruct Hu as [Hu| ->]; [by left|right]. exists [i].
      split_and!; [by apply path_ok_cons; auto with limnx| | |done|by intros [= <-]].
      * by rewrite walk_cons, Ec by done.
      * rewrite graft_hit. by apply (g_old _ _ _ _ _ _ _ _ _ _ Hg []); auto with limnx.
    + right. exists (i :: p). split_and!; [by apply path_ok_cons| |by rewrite graft_hit|done|congruence].
      rewrite walk_cons by done. destruct Hchild as [(-> & Hw & _)|(-> & _)]; [congruence|apply walk_0].
  - intros [[Hu Hok]|(p & Hp & H0 & Hb & Hb0 & Hne)].
    + left. split; [by apply graft_used|done].
    + destruct p as [|j p]; [done|].
      destruct (decide (j = i)) as [->|]; [|rewrite graft_other in Hb by done; congruence].
      apply path_ok_cons in Hp as [_ Hp]. rewrite graft_hit in Hb. rewrite walk_cons in H0 by done.
      destruct (decide (walk f1 c p = 0)) as [E|E].
      * right. exists p. split_and!; [done..|congruence].
      * rewrite (g_old _ _ _ _ _ _ _ _ _ _ Hg p Hp E) in Hb.
        destruct Hchild as [(Ec & Hw & _)|(_ & Hcu & _ & Hiff & Hz)].
        { rewrite Ec, <- Hw in H0. done. }
        destruct p as [|j p]; [|by rewrite Hz in E]. cbn [walk] in Hb. subst b. left.
        split; [apply Hiff; by right|right]. congruence.
Qed.

Lemma graft_frame b :
  b < data_start fs ∨ used fs b →
  (∀ p, path_ok (S k) p → (length p < S k)%nat → walk f r p = b → b = 0) → f' b = f b.
Proof.
  intros Hb Hno. assert (Hbr : b ≠ r).
  { intros ->. apply Hr, (Hno []); [apply path_ok_nil|simpl; lia|done]. }
  rewrite (g_frame _ _ _ _ _ _ _ _ _ _ Hg b); [by apply Hf1| |].
  - destruct Hb as [Hb|Hb]; [left; by rewrite (proj1 (proj2 Hlay))|right; by apply graft_used].
  - intros p Hp Hl E. destruct Hchild as [(Ec & Hw & _)|(_ & Hcu & Hcd & _ & Hz)].
    + apply (Hno (i :: p)); [by apply path_ok_cons|simpl; lia|]. rewrite walk_cons, Ec by done. congruence.
    + destruct p as [|j p]; [|by rewrite Hz in E]. cbn [walk] in E. subst b.
      destruct Hb as [?|?]; [lia|done].
Qed.

Lemma graft_grew : grew (S k) r r (i :: P') blk fs f ok fs' f'.
Proof.
  constructor.
  - apply Hg.
  - apply Hg.
  - etrans; [exact Hlay|apply Hg].
  - intros Hb. by apply Hg, Hby.
  - apply graft_old.
  - apply graft_new.
  - rewrite graft_hit. apply Hg.
  - apply graft_inj.
  - apply graft_used_iff.
  - apply graft_frame.
  - done.
  - intros b Hok Hb. apply (g_full _ _ _ _ _ _ _ _ _ _ Hg); [done|].
    destruct Hlay as (_ & -> & -> & _). done.
Qed.
End graft.

(** A store into a pointer block. *)
Lemma set32_block b i v : length b = 4096%nat → Z.of_nat i < 1024 → length (set32 i v b) = 4096%nat.
Proof. intros. unfold set32. rewrite length_set_field by lia. done. Qed.

Lemma get32_set32_block b i j v :
  length b = 4096%nat → Z.of_nat i < 1024 → 0 ≤ v < 2 ^ 32 →
  get32 j (set32 i v b) = if decide (j = i) then v else get32 j b.
Proof. intros. apply get32_set32; [lia|done]. Qed.

Lemma get32_zero i : get32 i zero_block = 0.
Proof. apply get_field_zero. Qed.

Lemma walk_zero_block f r p : f r = zero_block → p ≠ [] → walk f r p = 0.
Proof.
  intros Hf. destruct p as [|i p]; [done|]. intros _. cbn [walk].
  destruct (r =? 0); [done|]. by rewrite Hf, get32_zero, walk_0.
Qed.

(** The last pointer block: one word is stored. *)
Lemma leaf_grew r i blk fs f fs' :
  geo fs → same_layout fs fs' → geo fs' → (∀ b, used fs' b ↔ used fs b) →
  length (f r) = 4096%nat → Z.of_nat i < 1024 → r ≠ 0 → used fs r →
  tinj f r 1 → get32 i (f r) = 0 → 0 < blk < 2 ^ 32 → (∀ p, path_ok 1 p → walk f r p ≠ blk) →
  let f' := fupd f r (set32 i blk (f r)) in
  fs_rep fs' f' → grew 1 r r [i] blk fs f true fs' f'.
Proof.
  intros Hg Hl Hg' Hu Hlen Hi Hr Hru Hinj Hc0 Hb Hbn f' Hrep.
  assert (Hw : ∀ j, walk f' r [j] = if decide (j = i) then blk else walk f r [j]).
  { intros j. rewrite !walk_cons by done. cbn [walk]. unfold f'. rewrite fupd_eq.
    apply get32_set32_block; [done|done|lia]. }
  assert (Hp1 : ∀ p, path_ok 1 p → p = [] ∨ ∃ j, p = [j]).
  { intros [|j [|]] [Hp _]; [by left|right; by eexists|simpl in Hp; lia]. }
  assert (Hwi : walk f r [i] = 0) by (rewrite walk_cons by done; done).
  constructor; [done|done|done| | | | | | | |done|done].
  - intros Hby. apply all_bytes_fupd; [done|]. apply set_field_bytes, Hby.
  - intros p Hp H0. destruct (Hp1 p Hp) as [->|[j ->]]; [done|]. rewrite Hw. case_decide; [congruence|done].
  - intros p Hp H0 H1. destruct (Hp1 p Hp) as [->|[j ->]]; [done|]. left. rewrite Hw in H1.
    case_decide; [by subst|congruence].
  - rewrite Hw. by rewrite decide_True.
  - intros p q Hp Hq E Hn. destruct (Hp1 p Hp) as [->|[a ->]], (Hp1 q Hq) as [->|[b ->]]; [done|..].
    + change (walk f' r []) with r in E. rewrite Hw in E. case_decide; [by apply (Hbn []) in E|]. by apply Hinj.
    + change (walk f' r []) with r in E. rewrite Hw in E. case_decide; [symmetry in E; by apply (Hbn []) in E|].
      apply Hinj; [done|done|done|congruence].
    + rewrite !Hw in E. repeat case_decide; [congruence| | |].
      * symmetry in E. by apply (Hbn [b]) in E.
      * by apply (Hbn [a]) in E.
      * apply Hinj; try done. rewrite Hw, decide_False in Hn; done.
  - intros b. rewrite Hu. split; [intros ?; left; auto|]. intros [[? _]|(p & Hp & H0 & H1 & Hb0 & Hne)]; [done|].
    destruct (Hp1 p Hp) as [->|[j ->]]; [done|]. rewrite Hw in H1. case_decide; congruence.
  - intros b _ Hno. apply fupd_ne. intros ->. apply Hr, (Hno []); [apply path_ok_nil|simpl; lia|done].
Qed.

(** Out of blocks: [blk] is given back and nothing else happens. *)
Lemma fail_grew k r P blk fs f fs1 :
  geo fs1 → same_layout fs fs1 → fs_rep fs1 f → (∀ b, used fs1 b ↔ used fs b) → used fs blk →
  (∀ c, data_start fs ≤ c < total_blocks fs → used fs1 c) →
  tinj f r k → walk f r P = 0 → grew k r r P blk fs f false (limnfs_free_block blk fs1) f.
Proof.
  intros Hg Hl Hr Hu Hb Hfull Hinj H0.
  assert (Hb1 : data_start fs1 ≤ blk < total_blocks fs1) by (apply Hu in Hb; apply Hb).
  destruct (limnfs_free_block_spec fs1 blk Hg Hb1) as (Hst & Hg2 & Hl2 & Hu2).
  constructor; try done.
  - unfold fs_rep. by rewrite Hst.
  - by etrans.
  - intros b. rewrite Hu2, Hu. split.
    + intros [? ?]. left. split; [done|by right].
    + intros [[? [?|?]]|(p & ? & ? & ? & ? & _)]; [done..|congruence].
  - intros c _ Hc Hne. apply Hu2. split; [by apply Hfull|done].
Qed.

Lemma tree_put_spec k : ∀ r idx blk buf fs f,
  (0 < k)%nat → fs_rep fs f → geo fs → r ≠ 0 → used fs r → 0 ≤ idx < 1024 ^ Z.of_nat k →
  tinj f r k → tused fs f r k → walk f r (digits k idx) = 0 →
  0 < blk < 2 ^ 32 → used fs blk → (∀ p, path_ok k p → walk f r p ≠ blk) →
  ∃ ok fs' f', tree_put k r idx blk buf fs = (ok, fs') ∧ grew k r r (digits k idx) blk fs f ok fs' f'.
Proof.
  induction k as [|k IH]; [lia|]. intros r idx blk buf fs f _ Hrep Hg Hr Hru Hidx Hinj Hus H0 Hb Hbu Hbn.
  destruct (digits_step k idx Hidx) as [Hd Hm]. cbn [tree_put digits] in *.
  set (i := Z.to_nat (idx / 1024 ^ Z.of_nat k)) in *.
  assert (Hi : Z.of_nat i < 1024) by (unfold i; lia).
  pose proof (bs_len _ _ r Hrep) as Hlen.
  destruct (bread_into_spec fs f r buf Hrep) as (fs1 & -> & Hm1 & Hrep1).
  assert (Hu1 : ∀ b, used fs1 b ↔ used fs b) by (intros; by apply used_meta).
  pose proof (geo_meta _ _ Hm1 Hg) as Hg1. pose proof (same_layout_meta _ _ Hm1) as Hl1.
  destruct k as [|k].
  { cbn [digits] in *. destruct (bwrite_spec fs1 f r (set32 i blk (f r)) Hrep1) as (fs2 & -> & Hm2 & Hrep2);
      [by apply set32_block|].
    eexists true, fs2, _. split; [done|]. assert (Hm' : meta fs2 = meta fs) by congruence.
    apply leaf_grew; try done; [by apply same_layout_meta|by eapply geo_meta|intros; by apply used_meta|].
    rewrite walk_cons in H0 by done. done. }
  set (rest := idx mod 1024 ^ Z.of_nat (S k)) in *.
  pose proof (digits_ok (S k) rest Hm) as HP. set (P' := digits (S k) rest) in *.
  assert (HPne : P' ≠ []) by (unfold P'; by cbn [digits]).
  rewrite walk_cons in H0 by done. destruct (get32 i (f r) =? 0) eqn:Ec; bool_hyps.
  2: { destruct (IH (get32 i (f r)) rest blk (f r) fs1 f) as (ok & fs' & f' & E & Hgr);
         [lia|done|done|done| |done| | |done|done|by apply Hu1| |].
       - apply Hu1. specialize (Hus [i]). rewrite walk_cons in Hus by done.
         apply Hus; [by apply path_ok_cons; auto with limnx|done].
       - intros p q Hp Hq E Hne. assert (i :: p = i :: q); [|congruence].
         apply Hinj; [by apply path_ok_cons..| |]; rewrite !walk_cons by done; done.
       - intros p Hp Hne. apply Hu1. specialize (Hus (i :: p)). rewrite walk_cons in Hus by done.
         apply Hus; [by apply path_ok_cons|done].
       - intros p Hp. specialize (Hbn (i :: p)). rewrite walk_cons in Hbn by done.
         apply Hbn. by apply path_ok_cons.
       - exists ok, fs', f'. split; [exact E|].
         eapply (graft_grew (S k) r i P' blk (get32 i (f r)) fs fs1 fs' f f f' ok); try done. by left. }
  pose proof (new_block_spec fs1 f Hrep1 Hg1) as Hnb. destruct (new_block fs1) as [c fs2].
  destruct Hnb as (Hg2 & Hl2 & [(-> & Hrep2 & Hu2 & Hfull)|(Hc & Hcd & Hcu & Hu2 & Hrep2)]).
  { eexists false, _, f. split; [done|]. apply fail_grew; try done.
    - by etrans.
    - intros b. by rewrite Hu2, Hu1.
    - intros b. destruct Hl1 as (_ & <- & <- & _). intros Hb'. by apply Hu2, Hfull.
    - rewrite walk_cons by done. done. }
  rewrite (proj2 (Z.eqb_neq c 0)) by lia.
  destruct (bread_into_spec fs2 _ r zero_block Hrep2) as (fs3 & -> & Hm3 & Hrep3).
  assert (Hcr : r ≠ c) by (intros ->; by apply Hcu, Hu1). rewrite fupd_ne by done.
  destruct (bwrite_spec fs3 _ r (set32 i c (f r)) Hrep3) as (fs4 & -> & Hm4 & Hrep4); [by apply set32_block|].
  set (f1 := fupd (fupd f c zero_block) r (set32 i c (f r))) in *.
  assert (Hm42 : meta fs4 = meta fs2) by congruence.
  assert (Hu4 : ∀ b, used fs4 b ↔ used fs b ∨ b = c) by (intros b; by rewrite (used_meta _ _ _ Hm42), Hu2, Hu1).
  assert (Hfc : f1 c = zero_block) by (unfold f1; rewrite fupd_ne by done; apply fupd_eq).
  assert (Hwz : ∀ p, p ≠ [] → walk f1 c p = 0) by (intros; by apply walk_zero_block).
  assert (Hcu' : ¬ used fs c) by (intros Hx; by apply Hcu, Hu1).
  destruct (IH c rest blk (set32 i c (f r)) fs4 f1) as (ok & fs' & f' & E & Hgr);
    [lia|done|by eapply geo_meta|lia|apply Hu4; by right|done| | |by apply Hwz|done|apply Hu4; by left| |].
  { intros p q _ _ E Hne. destruct p as [|? p]; [|by rewrite Hwz in Hne]. destruct q as [|? q]; [done|].
    by rewrite (Hwz (_ :: _)) in E. }
  { intros p _ Hne. destruct p as [|? p]; [|by rewrite Hwz in Hne]. apply Hu4. by right. }
  { intros p _. destruct p as [|? p]; [|rewrite Hwz by done; lia]. cbn [walk]. congruence. }
  exists ok, fs', f'. split; [exact E|].
  eapply (graft_grew (S k) r i P' blk c fs fs4 fs' f f1 f' ok); try done.
  - lia.
  - unfold f1. rewrite fupd_eq. rewrite get32_set32_block by (done || lia). by rewrite decide_True.
  - intros j Hj. unfold f1. rewrite fupd_eq. rewrite get32_set32_block by (done || lia). by rewrite decide_False.
  - intros b Hbr Hbu'. unfold f1. rewrite !fupd_ne; [done| |done].
    intros ->. destruct Hbu' as [?|?]; [|done]. rewrite (proj1 (proj2 Hl1)) in Hcd. lia.
  - intros Hby. apply all_bytes_fupd; [|apply set_field_bytes, Hby]. apply all_bytes_fupd; [done|apply zero_block_bytes].
  - right. rewrite (proj1 (proj2 Hl1)) in Hcd. by split_and!.
  - etrans; [exact Hl1|]. etrans; [exact Hl2|]. by apply same_layout_meta.
Qed.

(** A root that had to be added: the tree was empty. *)
Lemma plant_grew k c P blk fs f fs1 ok fs' f' :
  path_ok k P → P ≠ [] → 0 < c → data_start fs ≤ c → ¬ used fs c → used fs blk → blk ≠ 0 →
  (∀ b, used fs1 b ↔ used fs b ∨ b = c) → same_layout fs fs1 →
  grew k c c P blk fs1 (fupd f c zero_block) ok fs' f' → grew k 0 c P blk fs f ok fs' f'.
Proof.
  intros HP HPne Hc Hcd Hcu Hb Hb0 Hu Hl Hg. set (f1 := fupd f c zero_block) in *.
  assert (Hz : ∀ p, p ≠ [] → walk f1 c p = 0) by (intros; apply walk_zero_block; [apply fupd_eq|done]).
  assert (Hroot : walk f' c [] = c) by done.
  constructor; try apply Hg.
  - by etrans; [|apply Hg].
  - intros Hby. apply Hg, all_bytes_fupd; [done|apply zero_block_bytes].
  - intros p _ H0. by rewrite walk_0 in H0.
  - intros p Hp _ H1. destruct (decide (p = [])) as [->|Hne].
    + right. split; [by exists P|]. by rewrite Hroot.
    + destruct (g_new _ _ _ _ _ _ _ _ _ _ Hg p Hp (Hz p Hne) H1) as [?|[? Hn]]; [by left|right].
      split; [done|]. intros Hx. apply Hn, Hu. by left.
  - intros b. rewrite (g_used _ _ _ _ _ _ _ _ _ _ Hg b), Hu. split.
    + intros [[[Hx| ->] Hok]|(p & Hp & H0 & Hw & Hb' & Hne)]; [by left| |].
      * right. exists []. rewrite walk_0, Hroot. split_and!; [apply path_ok_nil|done|done|lia|done].
      * right. exists p. by rewrite walk_0.
    + intros [[Hx Hok]|(p & Hp & _ & Hw & Hb' & Hne)]; [left; split; [by left|done]|].
      destruct (decide (p = [])) as [->|Hpe]; [|right; exists p; split_and!; try done; by apply Hz].
      left. rewrite Hroot in Hw. split; [by right|]. right. congruence.
  - intros b Hbu Hno. assert (Hbc : b ≠ c) by (intros ->; destruct Hbu; [lia|done]).
    rewrite (g_frame _ _ _ _ _ _ _ _ _ _ Hg b); [by apply fupd_ne| |].
    + destruct Hbu; [left|right; apply Hu; by left]. by destruct Hl as (_ & -> & _).
    + intros p Hp _ E. destruct (decide (p = [])) as [->|Hne]; [cbn [walk] in E; congruence|]. by rewrite <- E, Hz.
  - done.
  - intros b Hok Hb'. apply Hg; [done|]. by destruct Hl as (_ & -> & -> & _).
Qed.

(** The empty tree cannot be extended. *)
Lemma fail_grew_root k P blk fs f fs1 :
  geo fs1 → same_layout fs fs1 → fs_rep fs1 f → (∀ b, used fs1 b ↔ used fs b) → used fs blk →
  (∀ c, data_start fs ≤ c < total_blocks fs → used fs1 c) →
  grew k 0 0 P blk fs f false (limnfs_free_block blk fs1) f.
Proof.
  intros. apply fail_grew; [done..| |apply walk_0]. intros p q _ _ _ Hn. by rewrite walk_0 in Hn.
Qed.

(** Block [idx] of a tree of [k] levels is added, with the root if needed. *)
Lemma root_put_spec k r idx blk fs f :
  (0 < k)%nat → fs_rep fs f → geo fs → 0 ≤ idx < 1024 ^ Z.of_nat k →
  tinj f r k → tused fs f r k → walk f r (digits k idx) = 0 →
  0 < blk < 2 ^ 32 → used fs blk → (∀ p, path_ok k p → walk f r p ≠ blk) →
  ∃ ok r' fs' f', root_put k r idx blk fs = (ok, r', fs') ∧ 0 ≤ r' < 2 ^ 32 ∧ grew k r r' (digits k idx) blk fs f ok fs' f'.
Proof.
  intros Hk Hrep Hg Hidx Hinj Hus H0 Hb Hbu Hbn. unfold root_put. destruct (r =? 0) eqn:Er; bool_hyps.
  2: { pose proof (Hus [] (path_ok_nil k) Er) as Hru. cbn [walk] in Hru.
       destruct (tree_put_spec k r idx blk zero_block fs f) as (ok & fs' & f' & -> & Hgr); try done.
       exists ok, r, fs', f'. pose proof (used_range _ _ Hg Hru). split_and!; [done|lia|lia|done]. }
  subst r. pose proof (new_block_spec fs f Hrep Hg) as Hnb. destruct (new_block fs) as [c fs1].
  destruct Hnb as (Hg1 & Hl1 & [(-> & Hrep1 & Hu1 & Hfull)|(Hc & Hcd & Hcu & Hu1 & Hrep1)]).
  { eexists false, 0, _, f. split_and!; [done|lia|lia|]. apply fail_grew_root; try done.
    intros c Hc. by apply Hu1, Hfull. }
  rewrite (proj2 (Z.eqb_neq c 0)) by lia.
  assert (Hz : ∀ p, p ≠ [] → walk (fupd f c zero_block) c p = 0)
    by (intros; apply walk_zero_block; [apply fupd_eq|done]).
  assert (HPne : digits k idx ≠ []) by (destruct k; [lia|done]).
  destruct (tree_put_spec k c idx blk zero_block fs1 (fupd f c zero_block)) as (ok & fs' & f' & -> & Hgr);
    [done|done|done|lia|apply Hu1; by right|done| | |by apply Hz|done|apply Hu1; by left| |].
  - intros p q _ _ E Hn. destruct p; [|by rewrite Hz in Hn]. destruct q; [done|]. by rewrite (Hz (_ :: _)) in E.
  - intros p _ Hn. destruct p; [|by rewrite Hz in Hn]. apply Hu1. by right.
  - intros p _. destruct p; [|rewrite Hz by done; lia]. cbn [walk]. congruence.
  - exists ok, c, fs', f'. split_and!; [done|lia|lia|].
    apply (plant_grew k c _ blk fs f fs1); try done; [by apply digits_ok|lia|lia].
Qed.
End tree.
