(* ===== verification/LfsMap.v ===== *)
(** * LfsMap: the blocks of a file

    A position of a file is a direct pointer or a path in one of the three trees
    of pointer blocks.  [fs_inv] is the invariant of the disk: over all inodes
    no two positions share a block, and every block at a position is in use.
    [alloc_file_block] adds a zeroed block at the position asked for, keeps the
    invariant and every other position of every file, and fails only when at
    most one data block is left. *)

From S2P Require Import Prelude KUtil Mem Bytes Bitmap Dll BCache BlockStore LimnFS LfsAlloc LfsTree.

Implicit Types (f : Z → list Z) (ino : limnfs_inode).

(** ** Positions *)

Inductive pos := Direct (i : nat) | Tree (k : nat) (p : list nat).
Implicit Types (x y : pos).

#[export] Instance pos_eq_dec : EqDecision pos.
Proof. solve_decision. Defined.

Definition root ino (k : nat) : Z :=
  match k with 1%nat => in_indirect ino | 2%nat => in_double ino | _ => in_triple ino end.
Definition set_root ino (k : nat) (r : Z) : limnfs_inode :=
  match k with
  | 1%nat => ino <| in_indirect := r |>
  | 2%nat => ino <| in_double := r |>
  | _ => ino <| in_triple := r |>
  end.

Definition pos_ok x : Prop :=
  match x with Direct i => (i < 10)%nat | Tree k p => (1 ≤ k ≤ 3)%nat ∧ path_ok k p end.
Definition at_pos f ino x : Z :=
  match x with Direct i => in_direct ino !!! i | Tree k p => walk f (root ino k) p end.

(** The blocks that hold data, not pointers. *)
Definition data_pos x : Prop := match x with Direct _ => True | Tree k p => length p = k end.

Abbreviation MAX_FILE_BLOCKS := (10 + 1024 + 1024 * 1024 + 1024 * 1024 * 1024) (only parsing).

(** The position of the logical block [lb], and the index in its tree. *)
Definition lpos (lb : Z) : pos :=
  if lb <? 10 then Direct (Z.to_nat lb)
  else if lb - 10 <? 1024 then Tree 1 (digits 1 (lb - 10))
  else if lb - 10 - 1024 <? 1024 * 1024 then Tree 2 (digits 2 (lb - 10 - 1024))
  else Tree 3 (digits 3 (lb - 10 - 1024 - 1024 * 1024)).

(** The disk block of logical block [lb]; 0: a hole. *)
Definition bmap f ino (lb : Z) : Z := at_pos f ino (lpos lb).

(** The first logical block of each tree. *)
Definition tree_base (k : nat) : Z := match k with 1%nat => 10 | 2%nat => 1034 | _ => 1049610 end.

Lemma lpos_cases lb :
  0 ≤ lb < MAX_FILE_BLOCKS →
  (lb < 10 ∧ lpos lb = Direct (Z.to_nat lb)) ∨
  ∃ k, (1 ≤ k ≤ 3)%nat ∧ 10 ≤ lb ∧ 0 ≤ lb - tree_base k < 1024 ^ Z.of_nat k ∧
    lpos lb = Tree k (digits k (lb - tree_base k)).
Proof.
  intros Hlb. unfold lpos.
  change (1024 * 1024) with 1048576 in *. change (10 + 1024 + 1048576 + 1048576 * 1024) with 1074791434 in Hlb.
  destruct (lb <? 10) eqn:E1; bool_hyps; [by left|right].
  destruct (lb - 10 <? 1024) eqn:E2; bool_hyps.
  { exists 1%nat. change (1024 ^ Z.of_nat 1) with 1024. change (tree_base 1) with 10. split_and!; lia || done. }
  destruct (lb - 10 - 1024 <? 1048576) eqn:E3; bool_hyps.
  { exists 2%nat. change (1024 ^ Z.of_nat 2) with 1048576. change (tree_base 2) with 1034.
    split_and!; try lia. do 2 f_equal. lia. }
  exists 3%nat. change (1024 ^ Z.of_nat 3) with 1073741824. change (tree_base 3) with 1049610.
  split_and!; try lia. do 2 f_equal. lia.
Qed.

Lemma lpos_ok lb : 0 ≤ lb < MAX_FILE_BLOCKS → pos_ok (lpos lb) ∧ data_pos (lpos lb).
Proof.
  intros [[? ->]|(k & Hk & _ & Hi & ->)]%lpos_cases; cbn [pos_ok data_pos]; [split; [lia|done]|].
  rewrite digits_length. split; [|done]. split; [done|by apply digits_ok].
Qed.

Lemma lpos_inj a b :
  0 ≤ a < MAX_FILE_BLOCKS → 0 ≤ b < MAX_FILE_BLOCKS → lpos a = lpos b → a = b.
Proof.
  intros Ha Hb. destruct (lpos_cases a Ha) as [[? ->]|(k & Hk & _ & Hi & ->)],
    (lpos_cases b Hb) as [[? ->]|(k' & Hk' & _ & Hi' & ->)]; try done.
  - intros [= ?]. lia.
  - intros [= <- E]. apply digits_inj in E; [lia|done..].
Qed.

(** ** The invariant of the disk *)

Section map.
Context {St : Type} `{!BlockStore St}.
Implicit Types (fs : lfs_st St) (I : Z → limnfs_inode) (n m : Z).

Lemma get_file_block_spec ino lb fs f :
  fs_rep fs f → 0 ≤ lb < MAX_FILE_BLOCKS →
  ∃ fs', get_file_block ino lb fs = (bmap f ino lb, fs') ∧ meta fs' = meta fs ∧ fs_rep fs' f ∧
    (clean fs f → clean fs' f).
Proof.
  intros Hr Hlb. unfold get_file_block, bmap, lpos.
  change (1024 * 1024) with 1048576. change (10 + 1024 + 1048576) with 1049610.
  assert (Ht : ∀ (k : nat) (i : Z), root ino k ≠ 0 →
    ∃ fs', tree_get k (root ino k) i fs = (at_pos f ino (Tree k (digits k i)), fs') ∧ meta fs' = meta fs ∧ fs_rep fs' f ∧
    (clean fs f → clean fs' f)) by (intros; by apply tree_get_spec).
  destruct (lb <? 10) eqn:E1; bool_hyps; [by exists fs|].
  destruct (lb - 10 <? 1024) eqn:E2; bool_hyps.
  { rewrite (proj2 (Z.leb_gt 1024 (lb - 10))), (proj2 (Z.leb_gt 1049610 lb)) by lia. cbn [andb].
    destruct (in_indirect ino =? 0) eqn:E; bool_hyps; cbn [negb]; [|by apply (Ht 1%nat)].
    exists fs. cbn [at_pos root]. rewrite E, walk_0. done. }
  rewrite (proj2 (Z.leb_le 1024 (lb - 10))) by lia. cbn [andb].
  destruct (lb - 10 - 1024 <? 1048576) eqn:E3; bool_hyps.
  { rewrite andb_true_r, (proj2 (Z.leb_gt 1049610 lb)) by lia. cbn [andb].
    destruct (in_double ino =? 0) eqn:E; bool_hyps; cbn [negb]; [|by apply (Ht 2%nat)].
    exists fs. cbn [at_pos root]. rewrite E, walk_0. done. }
  rewrite andb_false_r, (proj2 (Z.leb_le 1049610 lb)) by lia. cbn [andb].
  replace (lb - 10 - 1024 - 1048576) with (lb - 1049610) by lia.
  destruct (in_triple ino =? 0) eqn:E; bool_hyps; cbn [negb]; [|by apply (Ht 3%nat)].
  exists fs. cbn [at_pos root]. rewrite E, walk_0. done.
Qed.

(** [I] are the inodes: those on disk, and the copy in memory of the one that is
    being changed. *)
Record fs_inv fs f I : Prop := {
  fi_rep : fs_rep fs f;
  fi_geo : geo fs;
  fi_bytes : all_bytes f;
  fi_ino n : 0 ≤ n < LIMNFS_MAX_INODES → inode_ok (I n);
  fi_inj n m x y : 0 ≤ n < LIMNFS_MAX_INODES → 0 ≤ m < LIMNFS_MAX_INODES → pos_ok x → pos_ok y →
    at_pos f (I n) x = at_pos f (I m) y → at_pos f (I n) x ≠ 0 → n = m ∧ x = y;
  fi_used n x : 0 ≤ n < LIMNFS_MAX_INODES → pos_ok x → at_pos f (I n) x ≠ 0 → used fs (at_pos f (I n) x)
}.

(** Every block in use belongs to a file. *)
Definition no_leak fs f I : Prop :=
  ∀ b, used fs b → ∃ n x, 0 ≤ n < LIMNFS_MAX_INODES ∧ pos_ok x ∧ at_pos f (I n) x = b.

Definition iupd I n ino : Z → limnfs_inode := λ m, if decide (m = n) then ino else I m.
Lemma iupd_eq I n ino : iupd I n ino n = ino.
Proof. unfold iupd. by rewrite decide_True. Qed.
Lemma iupd_ne I n ino m : m ≠ n → iupd I n ino m = I m.
Proof. intros. unfold iupd. by rewrite decide_False. Qed.

(** A position sees only the pointer blocks on its way. *)
Lemma at_pos_frame f f' ino x :
  (∀ k p q, x = Tree k (p ++ q) → q ≠ [] → walk f (root ino k) p ≠ 0 →
     f' (walk f (root ino k) p) = f (walk f (root ino k) p)) → at_pos f' ino x = at_pos f ino x.
Proof.
  destruct x as [i|k p]; [done|]. intros H. cbn [at_pos]. apply walk_frame. intros q i s -> Hq.
  by apply (H k q (i :: s)).
Qed.

(** A change outside the blocks in use is not seen. *)
Lemma at_pos_used fs f f' I n x :
  fs_inv fs f I → 0 ≤ n < LIMNFS_MAX_INODES → pos_ok x → (∀ b, used fs b → f' b = f b) →
  at_pos f' (I n) x = at_pos f (I n) x.
Proof.
  intros Hi Hn Hx Hf. apply at_pos_frame. intros k p q -> _ Hw. apply Hf.
  destruct Hx as [Hk Hp%path_ok_app]. by apply (fi_used _ _ _ Hi n (Tree k p)).
Qed.

Lemma fs_inv_grow fs f I fs' f' :
  fs_inv fs f I → fs_rep fs' f' → geo fs' → all_bytes f' →
  (∀ b, used fs b → used fs' b) → (∀ b, used fs b → f' b = f b) → fs_inv fs' f' I.
Proof.
  intros Hi Hr Hg Hb Hu Hf. pose proof (at_pos_used fs f f' I) as Ha.
  pose proof Hi as [_ _ _ Ho Hj Hus]. split; [done..| |].
  - intros n m x y Hn Hm Hx Hy. rewrite !Ha by done. by apply Hj.
  - intros n x Hn Hx. rewrite !Ha by done. intros. by apply Hu, Hus.
Qed.

Lemma fs_inv_meta fs f I fs' : fs_inv fs f I → meta fs' = meta fs → fs_rep fs' f → fs_inv fs' f I.
Proof.
  intros Hi Hm Hr. pose proof Hi as [? ? ? ? ? ?]. apply (fs_inv_grow fs f I); try done; [by eapply geo_meta|].
  intros. by apply (used_meta fs fs').
Qed.

Lemma fi_tinj fs f I n k : fs_inv fs f I → 0 ≤ n < LIMNFS_MAX_INODES → (1 ≤ k ≤ 3)%nat → tinj f (root (I n) k) k.
Proof.
  intros Hi Hn Hk p q Hp Hq E H0. destruct (fi_inj _ _ _ Hi n n (Tree k p) (Tree k q)); try done. congruence.
Qed.
Lemma fi_tused fs f I n k : fs_inv fs f I → 0 ≤ n < LIMNFS_MAX_INODES → (1 ≤ k ≤ 3)%nat → tused fs f (root (I n) k) k.
Proof. intros Hi Hn Hk p Hp H0. by apply (fi_used _ _ _ Hi n (Tree k p)). Qed.

(** ** Adding a block *)

Lemma root_set_eq ino k r : root (set_root ino k r) k = r.
Proof. by destruct k as [|[|[|k]]]. Qed.
Lemma root_set_ne ino k r j : (1 ≤ k ≤ 3)%nat → (1 ≤ j ≤ 3)%nat → j ≠ k → root (set_root ino k r) j = root ino j.
Proof. intros. destruct k as [|[|[|k]]], j as [|[|[|j]]]; try lia; done. Qed.
Lemma direct_set_root ino k r : in_direct (set_root ino k r) = in_direct ino.
Proof. by destruct k as [|[|[|k]]]. Qed.
Lemma set_root_ok ino k r : inode_ok ino → 0 ≤ r < 2 ^ 32 → inode_ok (set_root ino k r).
Proof. intros [] ?. by destruct k as [|[|[|k]]]; constructor. Qed.

(** What adding a block at position [x0] of file [n] does to the state. *)
Record extended n x0 blk fs f I ok ino' fs' f' : Prop := {
  ex_inv : fs_inv fs' f' (iupd I n ino');
  ex_lay : same_layout fs fs';
  ex_hit : at_pos f' ino' x0 = if (ok : bool) then blk else 0;
  ex_old m x : 0 ≤ m < LIMNFS_MAX_INODES → pos_ok x → at_pos f (I m) x ≠ 0 →
    at_pos f' (iupd I n ino' m) x = at_pos f (I m) x;
  ex_data m x : 0 ≤ m < LIMNFS_MAX_INODES → pos_ok x → data_pos x → (m, x) ≠ (n, x0) →
    at_pos f' (iupd I n ino' m) x = at_pos f (I m) x;
  ex_frame b : b < data_start fs ∨ used fs b →
    (∀ k p, (1 ≤ k ≤ 3)%nat → path_ok k p → (length p < k)%nat → at_pos f (I n) (Tree k p) = b → b = 0) → f' b = f b;
  ex_used b : used fs' b → (used fs b ∧ (ok = true ∨ b ≠ blk)) ∨ ∃ x, pos_ok x ∧ at_pos f' ino' x = b;
  ex_fail x : ok = false → (∀ g, at_pos g (I n) x = 0) ∨ ∀ g, at_pos g (I n) x = at_pos g ino' x;
  ex_full c : ok = false → data_start fs ≤ c < total_blocks fs → c ≠ blk → used fs' c
}.

Section extend.
Context (n : Z) (blk : Z) (fs fs' : lfs_st St) (f f' : Z → list Z) (I : Z → limnfs_inode) (ok : bool).
Context (Hi : fs_inv fs f I) (Hn : 0 ≤ n < LIMNFS_MAX_INODES).
Context (Hblk : used fs blk) (Hbn : ∀ m x, 0 ≤ m < LIMNFS_MAX_INODES → pos_ok x → at_pos f (I m) x ≠ blk).

(** Into a tree. *)
Section tree.
Context (k : nat) (r' : Z) (P : list nat) (Hk : (1 ≤ k ≤ 3)%nat) (HP : path_ok k P) (HPl : length P = k) (Hr' : 0 ≤ r' < 2 ^ 32).
Context (Hg : grew k (root (I n) k) r' P blk fs f ok fs' f').
Let ino' := set_root (I n) k r'.

(** Positions outside the tree. *)
Definition outside m x : Prop := m ≠ n ∨ ∀ p, x ≠ Tree k p.

Lemma ext_in p : at_pos f' (iupd I n ino' n) (Tree k p) = walk f' r' p.
Proof. rewrite iupd_eq. cbn [at_pos]. unfold ino'. by rewrite root_set_eq. Qed.

Lemma ext_out m x :
  0 ≤ m < LIMNFS_MAX_INODES → pos_ok x → outside m x → at_pos f' (iupd I n ino' m) x = at_pos f (I m) x.
Proof.
  intros Hm Hx Ho. transitivity (at_pos f' (I m) x).
  - destruct (decide (m = n)) as [->|]; [|by rewrite iupd_ne]. rewrite iupd_eq.
    destruct x as [i|j p]; cbn [at_pos]; unfold ino'; [by rewrite direct_set_root|].
    destruct Ho as [Ho|Ho]; [by destruct Ho|]. destruct Hx as [Hj _]. rewrite root_set_ne; [done|done|done|]. intros ->. by eapply Ho.
  - apply at_pos_frame. intros j p q -> _ Hw. destruct Hx as [Hj Hp%path_ok_app].
    set (b := walk f (root (I m) j) p) in *. assert (Hbu : used fs b) by (by apply (fi_used _ _ _ Hi m (Tree j p))).
    apply (g_frame _ _ _ _ _ _ _ _ _ _ Hg b); [by right|]. intros p' Hp' _ E. exfalso.
    destruct (fi_inj _ _ _ Hi n m (Tree k p') (Tree j p)) as [En Ex]; try done.
    + cbn [at_pos]. congruence.
    + destruct Ho as [Ho|Ho]; [congruence|]. injection Ex as -> _. by eapply Ho.
Qed.

(** A block of another file, or of another part of this one, is not in the tree. *)
Lemma ext_mix m x p :
  0 ≤ m < LIMNFS_MAX_INODES → pos_ok x → outside m x → path_ok k p →
  walk f' r' p = at_pos f (I m) x → at_pos f (I m) x ≠ 0 → False.
Proof.
  intros Hm Hx Ho Hp E H0. pose proof (fi_used _ _ _ Hi m x Hm Hx H0) as Hu. pose proof (Hbn m x Hm Hx) as Hb.
  destruct (decide (walk f (root (I n) k) p = 0)) as [Ew|Ew].
  - destruct (g_new _ _ _ _ _ _ _ _ _ _ Hg p Hp Ew) as [[-> Hok]|[_ Hnu]]; [congruence| |].
    + pose proof (g_hit _ _ _ _ _ _ _ _ _ _ Hg) as Hh. rewrite Hok in Hh. congruence.
    + apply Hnu. by rewrite E.
  - rewrite (g_old _ _ _ _ _ _ _ _ _ _ Hg p Hp Ew) in E.
    destruct (fi_inj _ _ _ Hi n m (Tree k p) x) as [En Ex]; try done.
    destruct Ho as [Ho|Ho]; [congruence|]. by eapply Ho.
Qed.

Lemma inside_dec m x : (m = n ∧ ∃ p, x = Tree k p) ∨ outside m x.
Proof.
  unfold outside. destruct (decide (m = n)) as [->|]; [|tauto]. destruct x as [i|j p]; [by right; right|].
  destruct (decide (j = k)) as [->|]; [left; eauto|right; right; congruence].
Qed.

Lemma ext_inv : fs_inv fs' f' (iupd I n ino').
Proof.
  split; [apply Hg|apply Hg|apply Hg, Hi| | |].
  - intros m Hm. unfold iupd. case_decide; [|by apply Hi]. apply set_root_ok; [by apply Hi|done].
  - intros a b x y Ha Hb Hx Hy E H0.
    destruct (inside_dec a x) as [[-> (p & ->)]|Ho], (inside_dec b y) as [[-> (q & ->)]|Ho'].
    + rewrite !ext_in in E. rewrite ext_in in H0. split; [done|f_equal].
      apply (g_inj _ _ _ _ _ _ _ _ _ _ Hg); [apply Hx|apply Hy|done|done].
    + exfalso. rewrite ext_in in E, H0. rewrite ext_out in E by done.
      eapply (ext_mix b y p); [done|done|done|apply Hx|done|congruence].
    + exfalso. rewrite ext_in in E. rewrite ext_out in E, H0 by done.
      eapply (ext_mix a x q); [done|done|done|apply Hy|done|congruence].
    + rewrite !ext_out in E by done. rewrite ext_out in H0 by done. by apply (fi_inj _ _ _ Hi).
  - intros m x Hm Hx H0. apply (g_used _ _ _ _ _ _ _ _ _ _ Hg).
    destruct (inside_dec m x) as [[-> (p & ->)]|Ho].
    + rewrite ext_in in *. destruct Hx as [_ Hp]. destruct (decide (walk f (root (I n) k) p = 0)) as [Ew|Ew].
      * destruct (decide (p = P)) as [->|]; [|right; by exists p]. left.
        rewrite (g_hit _ _ _ _ _ _ _ _ _ _ Hg) in *. destruct ok; [|done]. split; [done|by left].
      * rewrite (g_old _ _ _ _ _ _ _ _ _ _ Hg p Hp Ew). left. split; [by apply (fi_used _ _ _ Hi n (Tree k p))|].
        right. by apply (Hbn n (Tree k p)).
    + rewrite ext_out in * by done. left. split; [by apply (fi_used _ _ _ Hi)|right; by apply Hbn].
Qed.

Lemma tree_extended : extended n (Tree k P) blk fs f I ok ino' fs' f'.
Proof.
  split.
  - apply ext_inv.
  - apply Hg.
  - pose proof (ext_in P) as E. rewrite iupd_eq in E. rewrite E. apply Hg.
  - intros m x Hm Hx H0. destruct (inside_dec m x) as [[-> (p & ->)]|Ho]; [|by apply ext_out].
    rewrite ext_in. apply Hg; [apply Hx|done].
  - intros m x Hm Hx Hd Hne. destruct (inside_dec m x) as [[-> (p & ->)]|Ho]; [|by apply ext_out].
    destruct Hx as [_ Hp]. rewrite ext_in. cbn [at_pos data_pos] in *.
    destruct (decide (walk f (root (I n) k) p = 0)) as [Ew|Ew]; [|by apply Hg].
    rewrite Ew. destruct (decide (walk f' r' p = 0)) as [|Ew']; [done|exfalso].
    destruct (g_new _ _ _ _ _ _ _ _ _ _ Hg p Hp Ew Ew') as [[-> _]|[(q & Hq & Eq) _]]; [done|].
    apply Hq, nil_length_inv. apply (f_equal length) in Eq. rewrite length_app in Eq. lia.
  - intros b Hb Hno. apply (g_frame _ _ _ _ _ _ _ _ _ _ Hg b Hb). intros p Hp Hl E. by apply (Hno k p).
  - intros b [Hu|(p & Hp & _ & E & _)]%(g_used _ _ _ _ _ _ _ _ _ _ Hg); [by left|right].
    exists (Tree k p). split; [done|]. pose proof (ext_in p) as E'. rewrite iupd_eq in E'. congruence.
  - intros x _. destruct x as [i|j p]; cbn [at_pos]; unfold ino'; [right; by rewrite direct_set_root|].
    destruct (decide (root (I n) j = 0)) as [->|Hj]; [left; intros; apply walk_0|right]. intros g. f_equal.
    pose proof (g_root _ _ _ _ _ _ _ _ _ _ Hg) as Hroot. clear -Hroot Hj Hk.
    destruct k as [|[|[|[|k2]]]], j as [|[|[|j2]]]; try lia; cbn [root set_root] in *; try done; symmetry; by apply Hroot.
  - apply Hg.
Qed.
End tree.

(** Into a direct pointer. *)
Lemma direct_extended i :
  (i < 10)%nat → ok = true → at_pos f (I n) (Direct i) = 0 →
  extended n (Direct i) blk fs f I ok ((I n) <| in_direct := <[i := blk]> (in_direct (I n)) |>) fs f.
Proof.
  intros Hlt Hok H0. set (ino' := _ <| in_direct := _ |>).
  pose proof (fi_ino _ _ _ Hi n Hn) as Hio. destruct (io_direct _ Hio) as [Hlen Hdr].
  assert (Hhit : at_pos f (iupd I n ino' n) (Direct i) = blk).
  { rewrite iupd_eq. change (<[i := blk]> (in_direct (I n)) !!! i = blk).
    apply list_lookup_total_insert_eq. by rewrite Hlen. }
  assert (Hoth : ∀ m x, (m, x) ≠ (n, Direct i) → at_pos f (iupd I n ino' m) x = at_pos f (I m) x).
  { intros m x Hne. destruct (decide (m = n)) as [->|]; [|by rewrite iupd_ne]. rewrite iupd_eq.
    destruct x as [j|k p]; [|by destruct k as [|[|[|k]]]].
    change (<[i := blk]> (in_direct (I n)) !!! j = in_direct (I n) !!! j).
    apply list_lookup_total_insert_ne. congruence. }
  assert (Hcase : ∀ m x, {(m, x) = (n, Direct i)} + {(m, x) ≠ (n, Direct i)}) by (intros; apply decide, _).
  split; try done.
  - split; try apply Hi.
    + intros m Hm. unfold iupd. case_decide; [|by apply Hi]. pose proof (used_range _ _ (fi_geo _ _ _ Hi) Hblk).
      destruct Hio. constructor; try done. change (in_direct ino') with (<[i := blk]> (in_direct (I n))).
      rewrite length_insert. split; [done|]. apply Forall_insert; [done|lia].
    + intros a b x y Ha Hb Hx Hy E Hne.
      destruct (Hcase a x) as [[= -> ->]|Hax], (Hcase b y) as [[= -> ->]|Hby']; [done|..].
      * rewrite Hhit, Hoth in E by done. by destruct (Hbn b y).
      * rewrite Hhit, Hoth in E by done. by destruct (Hbn a x).
      * rewrite !Hoth in E by done. rewrite Hoth in Hne by done. by apply (fi_inj _ _ _ Hi).
    + intros m x Hm Hx Hne. destruct (Hcase m x) as [[= -> ->]|Hmx]; [by rewrite Hhit|].
      rewrite Hoth in * by done. by apply (fi_used _ _ _ Hi).
  - rewrite Hok. by rewrite iupd_eq in Hhit.
  - intros m x Hm Hx Hne. apply Hoth. intros [= -> ->]. done.
  - intros m x Hm Hx _ Hne. by apply Hoth.
  - intros b Hu. left. split; [done|by left].
  - by rewrite Hok.
  - by rewrite Hok.
Qed.
End extend.

(** What [alloc_file_block] keeps of an inode. *)
Definition same_attrs ino ino' : Prop :=
  in_type ino' = in_type ino ∧ in_mode ino' = in_mode ino ∧ in_size ino' = in_size ino ∧
  in_parent ino' = in_parent ino ∧ in_uid ino' = in_uid ino ∧ in_gid ino' = in_gid ino ∧
  in_reserved ino' = in_reserved ino.

#[export] Instance same_attrs_preorder : PreOrder same_attrs.
Proof.
  split; [by intros ino|]. unfold same_attrs. intros a b c (?&?&?&?&?&?&?) (?&?&?&?&?&?&?). split_and!; congruence.
Qed.

Lemma same_attrs_root ino k r : same_attrs ino (set_root ino k r).
Proof. by destruct k as [|[|[|k]]]. Qed.

(** All data blocks but one are in use. *)
Definition nearly_full fs : Prop := ∃ d, ∀ c, data_start fs ≤ c < total_blocks fs → c ≠ d → used fs c.

(** The step of [alloc_file_block] on the whole disk. *)
Record added n lb fs f I b ino' fs' f' : Prop := {
  ad_inv : fs_inv fs' f' (iupd I n ino');
  ad_lay : same_layout fs fs';
  ad_attrs : same_attrs (I n) ino';
  ad_hit : bmap f' ino' lb = b;
  ad_data m x : 0 ≤ m < LIMNFS_MAX_INODES → pos_ok x → data_pos x → (m, x) ≠ (n, lpos lb) →
    at_pos f' (iupd I n ino' m) x = at_pos f (I m) x;
  ad_zero : b ≠ 0 → f' b = zero_block;
  ad_keep m x : 0 ≤ m < LIMNFS_MAX_INODES → pos_ok x → data_pos x → at_pos f (I m) x ≠ 0 →
    f' (at_pos f (I m) x) = f (at_pos f (I m) x);
  ad_low c : c < data_start fs → f' c = f c;
  ad_fail x : b = 0 → (∀ g, at_pos g (I n) x = 0) ∨ ∀ g, at_pos g (I n) x = at_pos g ino' x;
  ad_leak : no_leak fs f I → no_leak fs' f' (iupd I n ino');
  ad_full : b = 0 → nearly_full fs'
}.

(** Inodes with the same pointers. *)
Lemma fs_inv_ptrs fs f I J :
  (∀ m x, 0 ≤ m < LIMNFS_MAX_INODES → at_pos f (J m) x = at_pos f (I m) x) →
  (∀ m, 0 ≤ m < LIMNFS_MAX_INODES → inode_ok (J m)) → fs_inv fs f I → fs_inv fs f J.
Proof.
  intros Hp Hok [? ? ? Ho Hj Hu]. split; try done.
  - intros a b x y Ha Hb. rewrite !Hp by done. by apply Hj.
  - intros m x Hm. rewrite !Hp by done. by apply Hu.
Qed.

Lemma no_leak_ptrs fs f I J :
  (∀ m x, 0 ≤ m < LIMNFS_MAX_INODES → at_pos f (J m) x = at_pos f (I m) x) → no_leak fs f I → no_leak fs f J.
Proof.
  intros Hp Hl b Hb. destruct (Hl b Hb) as (m & x & Hm & Hx & E). exists m, x. by rewrite Hp.
Qed.

(** Replacing one inode by one with the same pointers. *)
Lemma at_pos_iupd f I n ino ino' m x :
  at_pos f ino' x = at_pos f ino x → at_pos f (iupd I n ino' m) x = at_pos f (iupd I n ino m) x.
Proof. intros. unfold iupd. by case_decide. Qed.

Lemma inode_ok_iupd I n ino :
  (∀ m, 0 ≤ m < LIMNFS_MAX_INODES → inode_ok (I m)) → inode_ok ino →
  ∀ m, 0 ≤ m < LIMNFS_MAX_INODES → inode_ok (iupd I n ino m).
Proof. intros HI Ho m Hm. unfold iupd. case_decide; [done|by apply HI]. Qed.

Lemma iupd_same I n m : iupd I n (I n) m = I m.
Proof. unfold iupd. case_decide; by subst. Qed.

Lemma at_pos_count f ino c x : at_pos f (ino <| in_block_count := c |>) x = at_pos f ino x.
Proof. by destruct x as [i|[|[|[|k]]] p]. Qed.
Lemma at_pos_size f ino c x : at_pos f (ino <| in_size := c |>) x = at_pos f ino x.
Proof. by destruct x as [i|[|[|[|k]]] p]. Qed.

Lemma fs_inv_count fs f I n ino c :
  0 ≤ c < 2 ^ 32 → 0 ≤ n < LIMNFS_MAX_INODES → (∀ m, 0 ≤ m < LIMNFS_MAX_INODES → inode_ok (I m)) →
  fs_inv fs f (iupd I n ino) → fs_inv fs f (iupd I n (ino <| in_block_count := c |>)).
Proof.
  intros Hc Hn HI Hi. apply (fs_inv_ptrs fs f (iupd I n ino)); [|apply inode_ok_iupd; [done|]|done].
  - intros m x Hm. apply at_pos_iupd, at_pos_count.
  - pose proof (fi_ino _ _ _ Hi n Hn) as Ho. rewrite iupd_eq in Ho. by destruct Ho; constructor.
Qed.

(** From the tree or the direct pointers to the disk: [fs1] and [f1] are the
    state after the new data block was taken and cleared. *)
Lemma extended_added n lb blk fs fs1 f I ok ino' c fs' f' :
  let f1 := fupd f blk zero_block in
  fs_inv fs f I → 0 ≤ n < LIMNFS_MAX_INODES → 0 ≤ lb < MAX_FILE_BLOCKS →
  0 < blk → data_start fs ≤ blk → ¬ used fs blk → (∀ b, used fs1 b ↔ used fs b ∨ b = blk) → same_layout fs fs1 →
  same_attrs (I n) ino' → 0 ≤ c < 2 ^ 32 →
  extended n (lpos lb) blk fs1 f1 I ok ino' fs' f' →
  added n lb fs f I (if (ok : bool) then blk else 0) (if ok then ino' <| in_block_count := c |> else ino') fs' f'.
Proof.
  intros f1 Hi Hn Hlb Hb Hbd Hbu Hu1 Hl1 Hat Hc He.
  destruct (lpos_ok lb Hlb) as [Hx0 Hd0].
  assert (Hf1 : ∀ b, used fs b → f1 b = f b) by (intros b Hx; apply fupd_ne; by intros ->).
  assert (Hp1 : ∀ m x, 0 ≤ m < LIMNFS_MAX_INODES → pos_ok x → at_pos f1 (I m) x = at_pos f (I m) x)
    by (intros; by eapply at_pos_used).
  assert (Hnb : ∀ m x, 0 ≤ m < LIMNFS_MAX_INODES → pos_ok x → at_pos f (I m) x ≠ blk).
  { intros m x Hm Hx E. apply Hbu. rewrite <- E. apply Hi; [done..|lia]. }
  set (ino2 := if ok then _ else ino').
  assert (Hp2 : ∀ m x, at_pos f' (iupd I n ino2 m) x = at_pos f' (iupd I n ino' m) x).
  { intros m x. unfold iupd. case_decide; [|done]. unfold ino2. destruct ok; [apply at_pos_count|done]. }
  assert (Hp3 : ∀ x, at_pos f' ino2 x = at_pos f' ino' x).
  { intros x. specialize (Hp2 n x). by rewrite !iupd_eq in Hp2. }
  assert (Hleak : no_leak fs f I → no_leak fs' f' (iupd I n ino2)).
  { intros Hno b [[[Hu|Eb]%Hu1 Hok]|(x & Hx & E)]%(ex_used _ _ _ _ _ _ _ _ _ _ He).
    - destruct (Hno b Hu) as (m & x & Hm & Hx & E). exists m, x. split; [done|]. split; [done|].
      rewrite Hp2. rewrite (ex_old _ _ _ _ _ _ _ _ _ _ He); rewrite ?Hp1; try done.
      rewrite E. pose proof (used_range _ _ (fi_geo _ _ _ Hi) Hu). lia.
    - subst b. destruct Hok as [->|]; [|done]. exists n, (lpos lb). split_and!; [lia..|done|].
      rewrite Hp2, iupd_eq. apply (ex_hit _ _ _ _ _ _ _ _ _ _ He).
    - exists n, x. split_and!; [lia..|done|]. by rewrite Hp2, iupd_eq. }
  split; [| | | | | | | | |done|].
  - unfold ino2. destruct ok; [apply fs_inv_count; try done; [apply Hi|]|]; apply He.
  - etrans; [exact Hl1|apply He].
  - unfold ino2. destruct ok; [|done]. etrans; [exact Hat|done].
  - unfold bmap. rewrite Hp3. apply He.
  - intros m x Hm Hx Hd Hne. rewrite Hp2, (ex_data _ _ _ _ _ _ _ _ _ _ He) by done. by apply Hp1.
  - intros Hok. destruct ok; [|done]. rewrite (ex_frame _ _ _ _ _ _ _ _ _ _ He blk); [apply fupd_eq|right; apply Hu1; by right|].
    intros k p Hk Hp _. rewrite Hp1 by done. intros E. by destruct (Hnb n (Tree k p)).
  - intros m x Hm Hx Hd H0. pose proof (fi_used _ _ _ Hi m x Hm Hx H0) as Hu.
    rewrite (ex_frame _ _ _ _ _ _ _ _ _ _ He); [by apply Hf1|right; apply Hu1; by left|].
    intros k p Hk Hp Hl. rewrite Hp1 by done. intros E. exfalso.
    destruct (fi_inj _ _ _ Hi n m (Tree k p) x) as [_ <-]; try done; [congruence|].
    cbn [data_pos] in Hd. lia.
  - intros b Hlow. rewrite (ex_frame _ _ _ _ _ _ _ _ _ _ He).
    + apply fupd_ne. lia.
    + left. by destruct Hl1 as (_ & -> & _).
    + intros k p Hk Hp _. rewrite Hp1 by done. intros E.
      destruct (decide (b = 0)) as [|Hb0]; [done|]. exfalso.
      assert (Hbu' : used fs b) by (rewrite <- E; apply Hi; [done..|congruence]). destruct Hbu' as [? _]. lia.
  - intros x Hok. unfold ino2. destruct ok; [lia|]. by apply (ex_fail _ _ _ _ _ _ _ _ _ _ He).
  - intros Hok. assert (Ho : ok = false) by (destruct ok; [lia|done]). exists blk. intros d Hd Hne.
    apply (ex_full _ _ _ _ _ _ _ _ _ _ He); [done| |done].
    destruct (ex_lay _ _ _ _ _ _ _ _ _ _ He) as (_ & <- & <- & _). done.
Qed.

Lemma alloc_file_block_spec n lb fs f I :
  fs_inv fs f I → 0 ≤ n < LIMNFS_MAX_INODES → 0 ≤ lb < MAX_FILE_BLOCKS → bmap f (I n) lb = 0 →
  ∃ b ino' fs' f', alloc_file_block (I n) lb fs = (b, ino', fs') ∧ added n lb fs f I b ino' fs' f'.
Proof.
  intros Hi Hn Hlb H0. unfold alloc_file_block.
  pose proof (new_block_spec fs f (fi_rep _ _ _ Hi) (fi_geo _ _ _ Hi)) as Hnb. destruct (new_block fs) as [blk fs1].
  destruct Hnb as (Hg1 & Hl1 & [(-> & Hrep1 & Hu1 & Hfull)|(Hb & Hbd & Hbu & Hu1 & Hrep1)]).
  { exists 0, (I n), fs1, f. split; [done|].
    assert (Hi1 : fs_inv fs1 f I).
    { apply (fs_inv_grow fs f I); try done; [apply Hi|]. intros. by apply Hu1. }
    assert (Hp : ∀ m x, at_pos f (iupd I n (I n) m) x = at_pos f (I m) x) by (intros; by rewrite iupd_same).
    split; try done.
    - apply (fs_inv_ptrs fs1 f I); [intros; apply Hp| |done]. intros m Hm. rewrite iupd_same. by apply Hi.
    - intros x _. by right.
    - intros Hl. apply (no_leak_ptrs fs1 f I); [intros; apply Hp|]. intros b Hb. by apply Hl, Hu1.
    - intros _. exists 0. intros c Hc _. destruct Hl1 as (_ & E1 & E2 & _). rewrite E1, E2 in Hc. by apply Hu1, Hfull. }
  rewrite (proj2 (Z.eqb_neq blk 0)) by lia.
  set (f1 := fupd f blk zero_block) in *.
  assert (Hf1 : ∀ b, used fs b → f1 b = f b) by (intros b Hx; apply fupd_ne; by intros ->).
  assert (Hi1 : fs_inv fs1 f1 I).
  { apply (fs_inv_grow fs f I); try done; [|intros; apply Hu1; by left].
    apply all_bytes_fupd; [apply Hi|apply zero_block_bytes]. }
  assert (Hp1 : ∀ m x, 0 ≤ m < LIMNFS_MAX_INODES → pos_ok x → at_pos f1 (I m) x = at_pos f (I m) x)
    by (intros; by eapply at_pos_used).
  assert (Hnb : ∀ m x, 0 ≤ m < LIMNFS_MAX_INODES → pos_ok x → at_pos f1 (I m) x ≠ blk).
  { intros m x Hm Hx. rewrite Hp1 by done. intros E. apply Hbu. rewrite <- E. apply Hi; [done..|lia]. }
  assert (Hbu1 : used fs1 blk) by (apply Hu1; by right).
  destruct (lpos_ok lb Hlb) as [Hx0 Hd0]. unfold bmap in H0. rewrite <- Hp1 in H0 by done.
  assert (Hput : ∀ k, (1 ≤ k ≤ 3)%nat → 0 ≤ lb - tree_base k < 1024 ^ Z.of_nat k →
            lpos lb = Tree k (digits k (lb - tree_base k)) →
            ∃ ok r' fs' f', root_put k (root (I n) k) (lb - tree_base k) blk fs1 = (ok, r', fs') ∧
              extended n (lpos lb) blk fs1 f1 I ok (set_root (I n) k r') fs' f').
  { intros k Hk Hidx Ex. rewrite Ex in *. destruct Hx0 as [_ Hdp]. cbn [at_pos] in H0.
    destruct (root_put_spec k (root (I n) k) (lb - tree_base k) blk fs1 f1) as (ok & r' & fs' & f' & E & Hr' & Hgr);
      try done; [lia|apply (fi_tinj fs1 f1 I); done|apply (fi_tused fs1 f1 I); done| |].
    { intros p Hp. by apply (Hnb n (Tree k p)). }
    exists ok, r', fs', f'. split; [done|]. apply tree_extended; done. }
  assert (Hfin : ∀ k ok r' fs' f', extended n (lpos lb) blk fs1 f1 I ok (set_root (I n) k r') fs' f' →
    ∃ b ino' fs2 f2, (if (ok : bool) then (blk, (set_root (I n) k r') <| in_block_count := u32 (in_block_count (set_root (I n) k r') + 1) |>, fs')
      else (0, set_root (I n) k r', fs')) = (b, ino', fs2) ∧ added n lb fs f I b ino' fs2 f2).
  { intros k ok r' fs' f' He.
    pose proof (extended_added n lb blk fs fs1 f I ok _ (u32 (in_block_count (set_root (I n) k r') + 1)) fs' f'
      Hi Hn Hlb ltac:(lia) Hbd Hbu Hu1 Hl1 (same_attrs_root _ k r') (u32_range _) He) as Ha.
    destruct ok; eexists _, _, _, f'; split; done. }
  change (1024 * 1024) with 1048576 in *.
  destruct (lb <? 10) eqn:E1; bool_hyps.
  { assert (Ex : lpos lb = Direct (Z.to_nat lb)) by (unfold lpos; by rewrite (proj2 (Z.ltb_lt lb 10))).
    rewrite Ex in H0. set (ino' := (I n) <| in_direct := _ |>).
    pose proof (direct_extended n blk fs1 f1 I true Hi1 Hn Hbu1 Hnb (Z.to_nat lb) ltac:(lia) eq_refl H0) as He.
    rewrite <- Ex in He.
    pose proof (extended_added n lb blk fs fs1 f I true ino' (u32 (in_block_count ino' + 1)) fs1 f1
      Hi Hn Hlb ltac:(lia) Hbd Hbu Hu1 Hl1 ltac:(done) (u32_range _) He) as Ha.
    eexists _, _, _, f1. by split. }
  assert (Hstep : ∀ k, (1 ≤ k ≤ 3)%nat → 0 ≤ lb - tree_base k < 1024 ^ Z.of_nat k →
    lpos lb = Tree k (digits k (lb - tree_base k)) →
    ∃ b ino' fs2 f2,
      (let '(ok, ino1, fs1) := let '(ok, r, fs1) := root_put k (root (I n) k) (lb - tree_base k) blk fs1 in
         (ok, set_root (I n) k r, fs1) in
       if (ok : bool) then (blk, ino1 <| in_block_count := u32 (in_block_count ino1 + 1) |>, fs1) else (0, ino1, fs1))
      = (b, ino', fs2) ∧ added n lb fs f I b ino' fs2 f2).
  { intros k Hk Hidx Ex. destruct (Hput k Hk Hidx Ex) as (ok & r' & fs' & f' & -> & He). by apply (Hfin k ok r' fs' f'). }
  destruct (lpos_cases lb Hlb) as [[? _]|(k & Hk & _ & Hidx & Ex)]; [lia|].
  specialize (Hstep k Hk Hidx Ex). destruct k as [|[|[|[|k]]]]; try lia; cbn [tree_base root set_root] in *.
  - change (1024 ^ Z.of_nat 1) with 1024 in Hidx. rewrite (proj2 (Z.ltb_lt (lb - 10) 1024)) by lia. exact Hstep.
  - change (1024 ^ Z.of_nat 2) with 1048576 in Hidx. rewrite (proj2 (Z.ltb_ge (lb - 10) 1024)) by lia.
    replace (lb - 10 - 1024) with (lb - 1034) by lia. rewrite (proj2 (Z.ltb_lt (lb - 1034) 1048576)) by lia. exact Hstep.
  - rewrite (proj2 (Z.ltb_ge (lb - 10) 1024)) by lia. replace (lb - 10 - 1024) with (lb - 1034) by lia.
    rewrite (proj2 (Z.ltb_ge (lb - 1034) 1048576)) by lia. replace (lb - 1034 - 1048576) with (lb - 1049610) by lia.
    exact Hstep.
Qed.

(** ** The disk between two operations *)

(** The inodes are those on disk. *)
Definition disk_inv fs f : Prop := fs_inv fs f (dinode fs f).
End map.
