(* ===== verification/LfsFormat.v ===== *)
(** * LfsFormat: making, saving and mounting a file system

    A formatted disk satisfies the invariant: no data block is in use, every
    inode but the root directory is free.  [limnfs_sync] followed by
    [limnfs_mount] restores the superblock and both bitmaps. *)

From S2P Require Import Prelude KUtil Mem Bytes Bitmap Dll BCache BlockStore LimnFS LfsAlloc LfsTree LfsMap.

(** ** The superblock *)

Record super_ok (s : limnfs_super) : Prop := {
  so_magic : 0 ≤ sb_magic s < 2 ^ 32;
  so_blocks : 0 ≤ sb_total_blocks s < 2 ^ 32;
  so_inodes : 0 ≤ sb_total_inodes s < 2 ^ 32;
  so_size : 0 ≤ sb_block_size s < 2 ^ 32;
  so_table : 0 ≤ sb_inode_tbl_start s < 2 ^ 32;
  so_data : 0 ≤ sb_data_start s < 2 ^ 32;
  so_free : 0 ≤ sb_free_blocks s < 2 ^ 32;
  so_free_inodes : 0 ≤ sb_free_inodes s < 2 ^ 32;
  so_reserved : length (sb_reserved s) = 4064%nat ∧ Forall is_byte (sb_reserved s)
}.

Lemma super_bytes_length s : super_ok s → length (super_bytes s) = 4096%nat.
Proof. intros [???????? [Hr _]]. unfold super_bytes. rewrite length_app, Hr. reflexivity. Qed.

Lemma super_bytes_is_byte s : super_ok s → Forall is_byte (super_bytes s).
Proof.
  intros [???????? [_ Hr]]. unfold super_bytes. apply Forall_app. split; [|done].
  cbn [fmap list_fmap mjoin list_join]. repeat (apply Forall_app; split); try apply le_bytes_range. constructor.
Qed.

Lemma super_of_super_bytes s : super_ok s → super_of_bytes (super_bytes s) = s.
Proof.
  intros [H1 H2 H3 H4 H5 H6 H7 H8 [Hr _]]. destruct s as [a b c d e g h i r]. cbn [sb_magic sb_total_blocks sb_total_inodes
    sb_block_size sb_inode_tbl_start sb_data_start sb_free_blocks sb_free_inodes sb_reserved] in *.
  unfold super_of_bytes, super_bytes. cbn [sb_magic sb_total_blocks sb_total_inodes
    sb_block_size sb_inode_tbl_start sb_data_start sb_free_blocks sb_free_inodes sb_reserved].
  f_equal; try (etrans; [|apply word4; done]; reflexivity).
  etrans; [|apply (take_ge r 4064); by rewrite Hr]. reflexivity.
Qed.

(** ** The size of the bitmap *)

(** Enough bytes, a whole number of blocks. *)
Lemma bitmap_bytes_spec t :
  0 ≤ t < 2 ^ 32 - 8 →
  let bytes := bitmap_bytes_for t in
  bytes mod 4096 = 0 ∧ 4096 ≤ bytes ≤ 2 ^ 29 + 4096 ∧ t ≤ 8 * bytes.
Proof.
  intros Ht. unfold bitmap_bytes_for. rewrite (u32_id (t + 7)) by lia.
  pose proof (Z.div_mod (t + 7) 8 ltac:(lia)). pose proof (Z.mod_pos_bound (t + 7) 8 ltac:(lia)).
  set (m := if _ <? _ then _ else _).
  assert (Hm : (t + 7) / 8 ≤ m ∧ 4096 ≤ m ≤ 2 ^ 29) by (unfold m; destruct (_ <? _) eqn:?; bool_hyps; lia).
  rewrite u32_id by lia.
  replace (Z.land (m + 4096 - 1) (u32 (Z.lnot (4096 - 1)))) with ((m + 4095) / 4096 * 4096).
  - rewrite Z.mod_mul by lia. pose proof (Z.div_mod (m + 4095) 4096 ltac:(lia)).
    pose proof (Z.mod_pos_bound (m + 4095) 4096 ltac:(lia)). lia.
  - symmetry. unfold u32. rewrite <- (Z.land_ones (Z.lnot _) 32), (Z.land_comm (Z.lnot _)), Z.land_assoc by lia.
    rewrite Z.land_ones, (Z.mod_small (m + 4096 - 1)) by lia. change (4096 - 1) with (Z.ones 12).
    rewrite <- Z.ldiff_land, Z.ldiff_ones_r, Z.shiftr_div_pow2, Z.shiftl_mul_pow2 by lia.
    change (2 ^ 12) with 4096. do 2 f_equal. lia.
Qed.

Section format.
Context {St : Type} `{!BlockStore St}.
Implicit Types (fs : lfs_st St) (f : Z → list Z).

(** ** The bitmap on disk *)

(** The bitmap is cut into blocks 1, 2, ... *)
Definition bitmap_stored f (nb : Z) (bm : list Z) : Prop :=
  ∀ b, 0 ≤ b < nb → f (1 + b) = slice (Z.to_nat (4096 * b)) 4096 bm.

(** The bitmap in memory has its size. *)
Record bitmap_ok fs (nb : Z) : Prop := {
  bo_blocks : 1 ≤ nb < 2 ^ 19;
  bo_bytes : lfs_block_bitmap_bytes fs = 4096 * nb;
  bo_len : Z.of_nat (length (lfs_block_bitmap fs)) = 4096 * nb;
  bo_byte : Forall is_byte (lfs_block_bitmap fs)
}.

Lemma bitmap_blocks_eq nb : 1 ≤ nb → bitmap_blocks (4096 * nb) = nb.
Proof.
  intros. unfold bitmap_blocks. rewrite Z.mul_comm, Z.div_mul by lia. by rewrite (proj2 (Z.eqb_neq nb 0)) by lia.
Qed.

Lemma splice_all (l : list Z) : length l = 4096%nat → splice 0 l zero_block = l.
Proof.
  intros Hl. unfold splice. cbn [take app Nat.add]. rewrite drop_ge, app_nil_r; [done|].
  rewrite zero_block_length. lia.
Qed.

Lemma flush_bitmap_loop_spec nb n : ∀ b fs f,
  bitmap_ok fs nb → fs_rep fs f → all_bytes f → 0 ≤ b → b + Z.of_nat n = nb →
  ∃ fs' f', flush_bitmap_loop n b fs = (0, fs') ∧ meta fs' = meta fs ∧ fs_rep fs' f' ∧ all_bytes f' ∧
    (∀ c, b ≤ c < nb → f' (1 + c) = slice (Z.to_nat (4096 * c)) 4096 (lfs_block_bitmap fs)) ∧
    (∀ c, c < 1 + b ∨ 1 + nb ≤ c → f' c = f c).
Proof.
  induction n as [|n IH]; intros b fs f Hb Hr Hby Hb0 Hn; cbn [flush_bitmap_loop].
  { exists fs, f. split_and!; try done. intros; lia. }
  pose proof Hb as [Hnb Hbytes Hlen Hbyte].
  rewrite (u32_id (b * 4096)), Hbytes, (u32_id (4096 * nb - _)) by lia.
  set (rem := if 4096 <? _ then _ else _). assert (Erem : rem = 4096) by (unfold rem; destruct (_ <? _) eqn:?; bool_hyps; lia).
  rewrite Erem. change (Z.to_nat 4096) with 4096%nat. replace (b * 4096) with (4096 * b) by lia.
  set (bs := slice _ _ _). assert (Hbl : length bs = 4096%nat) by (apply length_slice; lia).
  rewrite splice_all by done. destruct (bwrite_spec fs f (1 + b) bs Hr Hbl) as (fs1 & -> & Hm1 & Hr1). cbn [negb Z.eqb].
  destruct (meta_fields _ _ Hm1) as (_ & Em & _ & _ & Eb).
  destruct (IH (b + 1) fs1 (fupd f (1 + b) bs)) as (fs' & f' & -> & Hm' & Hr' & Hby' & Hnew & Hold); try done; [| |lia..|].
  - constructor; by rewrite ?Em, ?Eb.
  - apply all_bytes_fupd; [done|by apply Forall_slice].
  - exists fs', f'. split_and!; [done|congruence|done|done| |].
    + intros c Hc. destruct (decide (c = b)) as [->|]; [|rewrite <- Em; apply Hnew; lia].
      rewrite Hold by lia. apply fupd_eq.
    + intros c Hc. rewrite Hold by lia. apply fupd_ne. lia.
Qed.

Lemma flush_block_bitmap_spec nb fs f :
  bitmap_ok fs nb → fs_rep fs f → all_bytes f →
  ∃ fs' f', flush_block_bitmap fs = (0, fs') ∧ meta fs' = meta fs ∧ fs_rep fs' f' ∧ all_bytes f' ∧
    bitmap_stored f' nb (lfs_block_bitmap fs) ∧ (∀ c, c < 1 ∨ 1 + nb ≤ c → f' c = f c).
Proof.
  intros Hb Hr Hby. unfold flush_block_bitmap. pose proof (bo_blocks _ _ Hb). rewrite (bo_bytes _ _ Hb), bitmap_blocks_eq by lia.
  destruct (flush_bitmap_loop_spec nb (Z.to_nat nb) 0 fs f) as (fs' & f' & ? & ? & ? & ? & Hnew & ?); try done; [lia..|].
  by exists fs', f'.
Qed.

Lemma flush_inode_bitmap_spec nb fs f :
  bitmap_ok fs nb → fs_rep fs f → all_bytes f → length (lfs_inode_bitmap fs) = 128%nat → Forall is_byte (lfs_inode_bitmap fs) →
  ∃ fs' x, flush_inode_bitmap fs = (0, fs') ∧ meta fs' = meta fs ∧ fs_rep fs' (fupd f (1 + nb) x) ∧
    Forall is_byte x ∧ take 128 x = lfs_inode_bitmap fs.
Proof.
  intros Hb Hr Hby Hl Hib. unfold flush_inode_bitmap. pose proof (bo_blocks _ _ Hb). rewrite (bo_bytes _ _ Hb), bitmap_blocks_eq by lia.
  rewrite take_ge by lia. set (x := splice _ _ _).
  destruct (bwrite_spec fs f (1 + nb) x Hr) as (fs' & -> & Hm & Hr').
  { unfold x. rewrite length_splice; rewrite zero_block_length; [done|lia]. }
  exists fs', x. split_and!; try done.
  - unfold x. apply Forall_splice; [done|apply zero_block_bytes].
  - pose proof (slice_splice_eq 0 (lfs_inode_bitmap fs) zero_block) as E. rewrite zero_block_length in E.
    specialize (E ltac:(lia)). unfold slice in E. rewrite drop_0, Hl in E. exact E.
Qed.

Lemma flush_superblock_spec fs f :
  fs_rep fs f → super_ok (lfs_super fs) →
  ∃ fs', flush_superblock fs = (0, fs') ∧ meta fs' = meta fs ∧ fs_rep fs' (fupd f 0 (super_bytes (lfs_super fs))).
Proof. intros Hr Hs. apply bwrite_spec; [done|by apply super_bytes_length]. Qed.

(** ** Format *)

Lemma zero_table_spec n : ∀ b fs f,
  fs_rep fs f → all_bytes f →
  ∃ fs' f', zero_table n b fs = (0, fs') ∧ meta fs' = meta fs ∧ fs_rep fs' f' ∧ all_bytes f' ∧
    (∀ c, b ≤ c < b + Z.of_nat n → f' c = zero_block) ∧ (∀ c, c < b ∨ b + Z.of_nat n ≤ c → f' c = f c).
Proof.
  induction n as [|n IH]; intros b fs f Hr Hby; cbn [zero_table].
  { exists fs, f. split_and!; try done. intros; lia. }
  destruct (bwrite_spec fs f b zero_block Hr zero_block_length) as (fs1 & -> & Hm1 & Hr1). cbn [negb Z.eqb].
  destruct (IH (b + 1) fs1 _ Hr1) as (fs' & f' & -> & Hm' & Hr' & Hby' & Hz & Ho);
    [apply all_bytes_fupd; [done|apply zero_block_bytes]|].
  exists fs', f'. split_and!; [done|congruence|done|done| |].
  - intros c Hc. destruct (decide (c = b)) as [->|]; [rewrite Ho by lia; apply fupd_eq|apply Hz; lia].
  - intros c Hc. rewrite Ho by lia. apply fupd_ne. lia.
Qed.

(** The system blocks are marked. *)
Lemma bm_set_all N ds bm :
  bm_ok N bm → (ds ≤ N)%nat →
  let bm' := foldl (λ bm b, bm_set b bm) bm (seq 0 ds) in
  bm_ok N bm' ∧ length bm' = length bm ∧ ∀ p, bm_test p bm' = bool_decide (p < ds)%nat || bm_test p bm.
Proof.
  intros Hok. induction ds as [|ds IH]; intros Hle; [done|].
  rewrite seq_S, foldl_app. cbn [foldl Nat.add]. destruct (IH ltac:(lia)) as (Hok' & Hl & Ht). cbv zeta in *.
  split_and!; [by apply bm_set_ok|unfold bm_set; by rewrite length_insert|].
  intros p. rewrite (bm_test_set N) by (done || lia). rewrite Ht. destruct (bm_test p bm); [by rewrite !orb_true_r|].
  rewrite !orb_false_r, <- bool_decide_or. apply bool_decide_ext. lia.
Qed.

(** What a file system in memory is: the sizes of its parts and its layout. *)
Record lfs_ok fs (nb : Z) : Prop := {
  lo_super : super_ok (lfs_super fs);
  lo_magic : sb_magic (lfs_super fs) = LIMNFS_MAGIC;
  lo_bitmap : bitmap_ok fs nb;
  lo_size : bitmap_bytes_for (sb_total_blocks (lfs_super fs)) = 4096 * nb;
  lo_table : sb_inode_tbl_start (lfs_super fs) = 2 + nb;
  lo_data : sb_data_start (lfs_super fs) = 34 + nb;
  lo_inodes : length (lfs_inode_bitmap fs) = 128%nat ∧ Forall is_byte (lfs_inode_bitmap fs)
}.

Lemma lfs_ok_meta fs fs' nb : meta fs' = meta fs → lfs_ok fs nb → lfs_ok fs' nb.
Proof.
  intros (E1 & E2 & _ & E4 & E5)%meta_fields [? ? [] ? ? ? ?].
  constructor; rewrite ?E1, ?E4; try done. constructor; by rewrite ?E2, ?E5.
Qed.

(** An inode without blocks. *)
Definition no_blocks ino : Prop :=
  in_direct ino = replicate 10 0 ∧ in_indirect ino = 0 ∧ in_double ino = 0 ∧ in_triple ino = 0.

Lemma no_blocks_at f ino x : no_blocks ino → pos_ok x → at_pos f ino x = 0.
Proof.
  intros (Hd & H1 & H2 & H3) Hx. destruct x as [i|k p]; cbn [at_pos].
  - rewrite Hd. by apply lookup_total_replicate_2.
  - replace (root ino k) with 0; [apply walk_0|]. by destruct k as [|[|[|k]]].
Qed.

Lemma empty_disk_inv fs f :
  fs_rep fs f → geo fs → all_bytes f → (∀ n, 0 ≤ n < LIMNFS_MAX_INODES → no_blocks (dinode fs f n)) → disk_inv fs f.
Proof.
  intros Hr Hg Hb Hn. split; try done.
  - intros n ?. apply dinode_ok; [done|done|lia].
  - intros n m x y ? ? ? ? _ H. by rewrite no_blocks_at in H by auto.
  - intros n x ? ? H. by rewrite no_blocks_at in H by auto.
Qed.

Definition root_inode : limnfs_inode := zero_inode <| in_type := LIMNFS_TYPE_DIR |> <| in_mode := 7 |>.

Lemma zero_inode_bytes off : (off + INODE_SIZE ≤ 4096)%nat → inode_of_bytes (slice off INODE_SIZE zero_block) = zero_inode.
Proof.
  intros Hoff. unfold slice, zero_block. rewrite drop_replicate, take_replicate.
  replace (INODE_SIZE `min` (4096 - off))%nat with INODE_SIZE by lia. reflexivity.
Qed.

Definition formatted (t : Z) fs f : Prop :=
  disk_inv fs f ∧ lfs_ok fs (bitmap_bytes_for t / 4096) ∧ lfs_mounted fs = true ∧ sb_total_blocks (lfs_super fs) = t ∧
  (∀ b, ¬ used fs b) ∧ dinode fs f 0 = root_inode ∧
  (∀ n, 0 < n < LIMNFS_MAX_INODES → dinode fs f n = zero_inode) ∧
  (∀ i, (i < 1024)%nat → bm_test i (lfs_inode_bitmap fs) = bool_decide (i = 0%nat)).

Lemma limnfs_format_spec t fs f :
  0 ≤ t < 2 ^ 32 - 8 → 0 ≤ lfs_hint fs ≤ t → fs_rep fs f → all_bytes f →
  ∃ fs' f', limnfs_format true t fs = (0, fs') ∧ formatted t fs' f'.
Proof.
  intros Ht Hh Hr Hby. destruct (bitmap_bytes_spec t Ht) as (Hmod & Hbb & Htb). unfold formatted.
  set (bytes := bitmap_bytes_for t) in *. set (nb := bytes / 4096).
  assert (Enb : bytes = 4096 * nb) by (pose proof (Z.div_mod bytes 4096 ltac:(lia)); unfold nb; lia).
  assert (Hnb : 1 ≤ nb < 2 ^ 19) by lia.
  unfold limnfs_format. fold bytes nb. cbn [negb].
  change ((1024 * 128 + 4096 - 1) / 4096) with 32. rewrite (u32_id (1 + nb + 1)), (u32_id (1 + nb + 1 + 32)) by lia.
  replace (1 + nb + 1) with (2 + nb) by lia. replace (2 + nb + 32) with (34 + nb) by lia.
  set (sup := mk_super _ _ _ _ _ _ _ _ _). set (fs1 := fs <| lfs_block_bitmap_bytes := bytes |> <| lfs_super := sup |>).
  assert (Hsup : super_ok sup).
  { constructor; unfold sup; cbn [sb_magic sb_total_blocks sb_total_inodes sb_block_size sb_inode_tbl_start
      sb_data_start sb_free_blocks sb_free_inodes sb_reserved]; try lia; [apply u32_range|]. split; [apply length_replicate|by apply Forall_replicate]. }
  destruct (flush_superblock_spec fs1 f Hr Hsup) as (fs2 & -> & Hm2 & Hr2). cbn [negb Z.eqb].
  assert (Hby2 : all_bytes (fupd f 0 (super_bytes (lfs_super fs1)))) by (apply all_bytes_fupd; [done|by apply super_bytes_is_byte]).
  set (bm := foldl _ _ _).
  assert (Hbm0 : bm_ok (8 * Z.to_nat bytes) (replicate (Z.to_nat bytes) 0)).
  { split; [rewrite length_replicate; lia|by apply Forall_replicate]. }
  destruct (bm_set_all _ (Z.to_nat (34 + nb)) _ Hbm0 ltac:(lia)) as (Hbm & Hbml & Hbmt). cbv zeta in *. fold bm in Hbm, Hbml, Hbmt.
  rewrite length_replicate in Hbml. set (fs3 := fs2 <| lfs_block_bitmap := bm |>).
  destruct (meta_fields _ _ Hm2) as (Es2 & _ & Eh2 & _ & Eb2).
  assert (Hb3 : bitmap_ok fs3 nb).
  { constructor; [done| | |apply Hbm]; [change (lfs_block_bitmap_bytes fs2 = 4096 * nb); by rewrite Eb2|].
    change (Z.of_nat (length bm) = 4096 * nb). lia. }
  destruct (flush_block_bitmap_spec nb fs3 _ Hb3 Hr2 Hby2) as (fs4 & f4 & -> & Hm4 & Hr4 & Hby4 & _ & _). cbn [negb Z.eqb].
  destruct (meta_fields _ _ Hm4) as (Es4 & Ebm4 & Eh4 & _ & Eb4).
  set (ib := bm_set 0 (replicate 128 0)). set (fs5 := fs4 <| lfs_inode_bitmap := ib |>).
  assert (Hib0 : bm_ok 1024 (replicate 128 0)) by (split; [done|by apply Forall_replicate]).
  assert (Hib : Forall is_byte ib) by apply (bm_set_ok 1024 0 _ Hib0).
  destruct (flush_inode_bitmap_spec nb fs5 f4) as (fs6 & x & -> & Hm6 & Hr6 & Hxb & _); try done.
  { constructor; [done|change (lfs_block_bitmap_bytes fs4 = 4096 * nb)|change (Z.of_nat (length (lfs_block_bitmap fs4)) = 4096 * nb)|
      change (Forall is_byte (lfs_block_bitmap fs4))]; rewrite ?Eb4, ?Ebm4; apply Hb3. }
  cbn [negb Z.eqb]. destruct (meta_fields _ _ Hm6) as (Es6 & Ebm6 & Eh6 & Ei6 & Eb6).
  change (lfs_super fs5) with (lfs_super fs4) in Es6. change (lfs_hint fs5) with (lfs_hint fs4) in Eh6.
  change (lfs_block_bitmap fs5) with (lfs_block_bitmap fs4) in Ebm6. change (lfs_inode_bitmap fs5) with ib in Ei6.
  change (lfs_block_bitmap_bytes fs5) with (lfs_block_bitmap_bytes fs4) in Eb6.
  assert (Hby6 : all_bytes (fupd f4 (1 + nb) x)) by (by apply all_bytes_fupd).
  destruct (zero_table_spec 32 (2 + nb) fs6 _ Hr6 Hby6) as (fs7 & f7 & E7 & Hm7 & Hr7 & Hby7 & Hz7 & _).
  change (Z.to_nat 32) with 32%nat. rewrite E7. cbn [negb Z.eqb].
  destruct (meta_fields _ _ Hm7) as (Es7 & Ebm7 & Eh7 & Ei7 & Eb7).
  assert (Es : lfs_super fs7 = sup) by (rewrite Es7, Es6, Es4; exact Es2).
  assert (Eh : lfs_hint fs7 = lfs_hint fs) by (rewrite Eh7, Eh6, Eh4; exact Eh2).
  assert (Ebm : lfs_block_bitmap fs7 = bm) by (rewrite Ebm7, Ebm6, Ebm4; done).
  assert (Eib : lfs_inode_bitmap fs7 = ib) by (rewrite Ei7, Ei6; done).
  assert (Ebs : lfs_block_bitmap_bytes fs7 = bytes) by (rewrite Eb7, Eb6, Eb4; exact Eb2).
  assert (Hg7 : geo fs7).
  { constructor; rewrite Es, ?Ebm, ?Eh; unfold sup; cbn [sb_inode_tbl_start sb_data_start sb_total_blocks]; [lia|lia| |lia].
    destruct Hbm as [Hbm1 Hbm2]. split; [lia|done]. }
  destruct (limnfs_write_inode_spec fs7 f7 0 root_inode) as (fs8 & f8 & E8 & Hm8 & Hr8 & Hby8 & Hd8 & Ho8 & _); try done.
  { pose proof zero_inode_ok as []. by constructor. }
  unfold root_inode in E8. rewrite E8. cbn [negb Z.eqb]. set (fs9 := fs8 <| lfs_mounted := true |>).
  exists fs9, f8. split; [done|].
  assert (Hdn : ∀ m, 0 < m < LIMNFS_MAX_INODES → dinode fs9 f8 m = zero_inode).
  { intros m Hm. change (dinode fs8 f8 m = zero_inode). rewrite Ho8 by lia. unfold dinode.
    destruct (inode_block_eq fs7 m Hg7 ltac:(lia)) as [Ei _]. rewrite Ei, Es. unfold sup. cbn [sb_inode_tbl_start].
    assert (0 ≤ m / 35 ≤ 31) by (split; [apply Z.div_pos; lia|apply Z.lt_succ_r, Z.div_lt_upper_bound; lia]).
    rewrite Hz7 by lia. apply zero_inode_bytes, inode_offset_bound. lia. }
  assert (Hd0 : dinode fs9 f8 0 = root_inode) by exact Hd8.
  destruct (meta_fields _ _ Hm8) as (Es8 & Ebm8 & _ & Ei8 & Eb8).
  assert (Hok8 : lfs_ok fs8 nb).
  { constructor; rewrite ?Es8, ?Es, ?Ei8, ?Eib; try done. constructor; rewrite ?Eb8, ?Ebs, ?Ebm8, ?Ebm; try done; [lia|apply Hbm]. }
  split_and!.
  - apply empty_disk_inv; [done| |done|].
    + pose proof (geo_meta _ _ Hm8 Hg7) as []. by constructor.
    + intros n Hn. destruct (decide (n = 0)) as [->|]; [by rewrite Hd0|]. rewrite Hdn by lia. done.
  - destruct Hok8 as [? ? [] ? ? ? ?]. constructor; try done.
  - done.
  - change (sb_total_blocks (lfs_super fs8) = t). by rewrite Es8, Es.
  - intros b [Hb1 Hb2]. change (bm_test (Z.to_nat b) (lfs_block_bitmap fs8) = true) in Hb2.
    change (data_start fs8 ≤ b < total_blocks fs8) in Hb1. rewrite Es8, Es in Hb1. rewrite Ebm8, Ebm, Hbmt in Hb2.
    change (34 + nb ≤ b < t) in Hb1. rewrite bool_decide_false in Hb2 by lia.
    rewrite bm_test_replicate, Z.bits_0 in Hb2 by lia. done.
  - exact Hd0.
  - exact Hdn.
  - intros i Hi. change (bm_test i (lfs_inode_bitmap fs8) = bool_decide (i = 0%nat)). rewrite Ei8, Eib. unfold ib.
    rewrite (bm_test_set 1024) by (done || lia). rewrite bm_test_replicate, Z.bits_0 by lia. apply orb_false_r.
Qed.

(** ** Sync and mount *)

(** The disk holds the superblock and the bitmaps that are in memory. *)
Definition saved f (nb : Z) (sup : limnfs_super) (bm ib : list Z) : Prop :=
  f 0 = super_bytes sup ∧ bitmap_stored f nb bm ∧ take 128 (f (1 + nb)) = ib.

Lemma limnfs_sync_spec nb fs f :
  lfs_ok fs nb → lfs_mounted fs = true → fs_rep fs f → all_bytes f →
  ∃ f', meta (limnfs_sync fs) = meta fs ∧ fs_rep (limnfs_sync fs) f' ∧ all_bytes f' ∧
    saved f' nb (lfs_super fs) (lfs_block_bitmap fs) (lfs_inode_bitmap fs) ∧ ∀ c, 2 + nb ≤ c → f' c = f c.
Proof.
  intros Hok Hmt Hr Hby. unfold limnfs_sync. rewrite Hmt. cbn [negb]. pose proof (bo_blocks _ _ (lo_bitmap _ _ Hok)).
  destruct (flush_block_bitmap_spec nb fs f (lo_bitmap _ _ Hok) Hr Hby) as (fs1 & f1 & -> & Hm1 & Hr1 & Hby1 & Hst & Hf1).
  pose proof (lfs_ok_meta _ _ _ Hm1 Hok) as Hok1. destruct (lo_inodes _ _ Hok1) as [Hil Hib].
  destruct (flush_inode_bitmap_spec nb fs1 f1) as (fs2 & x & -> & Hm2 & Hr2 & Hxb & Hx); try done; [apply Hok1|].
  pose proof (lfs_ok_meta _ _ _ Hm2 Hok1) as Hok2.
  destruct (flush_superblock_spec fs2 _ Hr2 (lo_super _ _ Hok2)) as (fs3 & -> & Hm3 & Hr3).
  destruct (meta_fields _ _ Hm1) as (E1 & E2 & _ & E4 & _), (meta_fields _ _ Hm2) as (E1' & _).
  eexists. split; [congruence|]. split; [exact Hr3|]. split_and!.
  - apply all_bytes_fupd; [by apply all_bytes_fupd|]. apply super_bytes_is_byte, Hok2.
  - split_and!.
    + rewrite fupd_eq. congruence.
    + intros b Hb. rewrite !fupd_ne by lia. by apply Hst.
    + rewrite fupd_ne, fupd_eq by lia. congruence.
  - intros c Hc. rewrite !fupd_ne by lia. apply Hf1. lia.
Qed.

Lemma splice_slice_agree (acc bm : list Z) off :
  length acc = length bm → (off + 4096 ≤ length bm)%nat → take off acc = take off bm →
  take (off + 4096) (splice off (slice off 4096 bm) acc) = take (off + 4096) bm.
Proof.
  intros Hl Hoff Ht. assert (Hsl : length (slice off 4096 bm) = 4096%nat) by (by apply length_slice).
  revert Hoff Hsl. generalize 4096%nat as w. intros w Hoff Hsl.
  apply list_eq. intros i. destruct (decide (i < off + w)%nat); [|by rewrite !lookup_take_ge by lia].
  rewrite !lookup_take_lt by done. rewrite lookup_splice by lia. rewrite Hsl. case_decide as Hd.
  - rewrite lookup_slice, decide_True by lia. f_equal. lia.
  - rewrite <- (lookup_take_lt acc off), Ht by lia. by rewrite lookup_take_lt by lia.
Qed.

Lemma mount_bitmap_spec nb bm n : ∀ b acc fs f,
  fs_rep fs f → bitmap_stored f nb bm → lfs_block_bitmap_bytes fs = 4096 * nb → Z.of_nat (length bm) = 4096 * nb → nb < 2 ^ 19 →
  length acc = length bm → 0 ≤ b → b + Z.of_nat n = nb → take (Z.to_nat (4096 * b)) acc = take (Z.to_nat (4096 * b)) bm →
  ∃ fs', mount_bitmap n b acc fs = (Some bm, fs') ∧ meta fs' = meta fs ∧ fs_rep fs' f.
Proof.
  induction n as [|n IH]; intros b acc fs f Hr Hst Hby Hlen Hnb Hl Hb Hn Ht; cbn [mount_bitmap].
  { exists fs. split_and!; try done. do 2 f_equal. rewrite !take_ge in Ht by lia. done. }
  destruct (bread_spec fs f (1 + b) Hr) as (fs1 & -> & Hm1 & Hr1 & _). cbn [negb Z.eqb].
  destruct (meta_fields _ _ Hm1) as (_ & _ & _ & _ & Eb).
  rewrite (u32_id (b * 4096)), Eb, Hby, (u32_id (4096 * nb - _)) by lia.
  set (rem := if 4096 <? _ then _ else _). assert (Erem : rem = 4096) by (unfold rem; destruct (_ <? _) eqn:?; bool_hyps; lia).
  rewrite Erem. change (Z.to_nat 4096) with 4096%nat. rewrite (Hst b) by lia. replace (b * 4096) with (4096 * b) by lia.
  rewrite (take_ge (slice _ _ _)) by (rewrite length_slice by lia; lia).
  assert (Hsl : length (slice (Z.to_nat (4096 * b)) 4096 bm) = 4096%nat) by (apply length_slice; lia).
  destruct (IH (b + 1) (splice (Z.to_nat (4096 * b)) (slice (Z.to_nat (4096 * b)) 4096 bm) acc) fs1 f)
    as (fs' & -> & Hm' & Hr'); try done; [by rewrite Eb|by rewrite length_splice by lia|lia..| |].
  - replace (Z.to_nat (4096 * (b + 1))) with (Z.to_nat (4096 * b) + 4096)%nat by lia.
    apply splice_slice_agree; [done|lia|done].
  - exists fs'. split_and!; [done|congruence|done].
Qed.

Lemma limnfs_mount_spec nb fs0 f sup bm ib :
  fs_rep fs0 f → super_ok sup → sb_magic sup = LIMNFS_MAGIC → bitmap_bytes_for (sb_total_blocks sup) = 4096 * nb →
  1 ≤ nb < 2 ^ 19 → Z.of_nat (length bm) = 4096 * nb → saved f nb sup bm ib →
  ∃ s, limnfs_mount true fs0 = (0, mk_lfs true sup bm (4096 * nb) ib (lfs_hint fs0) s) ∧ bs_rep s f.
Proof.
  intros Hr Hs Hmg Hsz Hnb Hlen (H0 & Hst & Hib). unfold limnfs_mount.
  destruct (bread_spec fs0 f 0 Hr) as (fs1 & -> & Hm1 & Hr1 & _). cbn [negb Z.eqb]. rewrite H0.
  assert (Em : get32 0 (super_bytes sup) = sb_magic sup) by (by rewrite <- (super_of_super_bytes sup Hs) at 2).
  rewrite Em, Hmg, Z.eqb_refl. cbn [negb]. rewrite super_of_super_bytes by done.
  set (fs2 := fs1 <| lfs_super := sup |>). change (lfs_super fs2) with sup. rewrite Hsz, bitmap_blocks_eq by lia.
  set (fs3 := fs2 <| lfs_block_bitmap_bytes := 4096 * nb |>).
  destruct (mount_bitmap_spec nb bm (Z.to_nat nb) 0 (replicate (Z.to_nat (4096 * nb)) 0) fs3 f) as (fs4 & -> & Hm4 & Hr4);
    try done; [lia|rewrite length_replicate; lia|lia|].
  set (fs5 := fs4 <| lfs_block_bitmap := bm |>).
  destruct (bread_spec fs5 f (1 + nb) Hr4) as (fs6 & -> & Hm6 & Hr6 & _). cbn [negb Z.eqb]. rewrite Hib.
  exists (lfs_store fs6). split; [|exact Hr6]. f_equal.
  destruct fs6 as [m6 s6 b6 by6 i6 h6 st6]. unfold meta in Hm6. cbn in Hm6. injection Hm6 as -> -> -> -> -> ->.
  destruct fs4 as [m4 s4 b4 by4 i4 h4 st4]. unfold meta in Hm4. cbn in Hm4. injection Hm4 as -> -> -> -> -> ->.
  destruct (meta_fields _ _ Hm1) as (_ & _ & Eh & _). cbn. by rewrite Eh.
Qed.

(** C17.  A sync followed by a mount, from whatever the memory holds, restores the
    superblock, the block bitmap and the inode bitmap; the mounted disk satisfies
    the invariant of the disk and shows the same inode table and data blocks. *)
Theorem limnfs_sync_mount nb fs f fs0 :
  lfs_ok fs nb → lfs_mounted fs = true → disk_inv fs f →
  lfs_store fs0 = lfs_store (limnfs_sync fs) → 0 ≤ lfs_hint fs0 ≤ total_blocks fs →
  ∃ fs2 f2, limnfs_mount true fs0 = (0, fs2) ∧ lfs_mounted fs2 = true ∧ lfs_super fs2 = lfs_super fs ∧
    lfs_block_bitmap fs2 = lfs_block_bitmap fs ∧ lfs_inode_bitmap fs2 = lfs_inode_bitmap fs ∧
    disk_inv fs2 f2 ∧ (∀ c, sb_inode_tbl_start (lfs_super fs) ≤ c → f2 c = f c) ∧
    ∀ n, 0 ≤ n < LIMNFS_MAX_INODES → dinode fs2 f2 n = dinode fs f n.
Proof.
  intros Hok Hmt Hi Est Hh.
  destruct (limnfs_sync_spec nb fs f Hok Hmt (fi_rep _ _ _ Hi) (fi_bytes _ _ _ Hi)) as (f2 & _ & Hr2 & Hby2 & Hsv & Hf2).
  pose proof (lo_bitmap _ _ Hok) as [Hnb _ Hlen _].
  destruct (limnfs_mount_spec nb fs0 f2 (lfs_super fs) (lfs_block_bitmap fs) (lfs_inode_bitmap fs)) as (s & E & Hs);
    try done; try apply Hok; [unfold fs_rep; by rewrite Est|].
  rewrite <- (lo_table _ _ Hok) in Hf2. set (fs2 := mk_lfs _ _ _ _ _ _ s) in E.
  assert (Hg2 : geo fs2) by (destruct (fi_geo _ _ _ Hi); constructor; try done; cbn; lia).
  assert (Hd : ∀ n, 0 ≤ n < LIMNFS_MAX_INODES → dinode fs2 f2 n = dinode fs f n).
  { intros n Hn. unfold dinode. change (inode_block n fs2) with (inode_block n fs).
    rewrite Hf2; [done|]. destruct (inode_block_eq fs n (fi_geo _ _ _ Hi) Hn) as [-> _].
    pose proof (Z.div_pos n 35). lia. }
  pose proof (geo_table _ (fi_geo _ _ _ Hi)).
  exists fs2, f2. split_and!; try done.
  apply (fs_inv_ptrs fs2 f2 (dinode fs f)); [intros; by rewrite Hd|intros m Hm; apply dinode_ok; try done; lia|].
  apply (fs_inv_grow fs f); try done. intros b [Hb _]. apply Hf2. lia.
Qed.
End format.

(** ** A small disk *)

Definition blank {St} (s : St) : lfs_st St := mk_lfs false zero_super [] 0 (replicate 128 0) 0 s.

Lemma blank_store {St} (s : St) : lfs_store (blank s) = s.
Proof. done. Qed.
Lemma blank_hint {St} (s : St) : lfs_hint (blank s) = 0.
Proof. done. Qed.

Definition disk100 : lfs_st (gmap Z (list Z)) := (limnfs_format true 100 (blank ∅)).2.

Lemma blank_rep : fs_rep (blank (∅ : gmap Z (list Z))) (λ _, zero_block).
Proof. intros b. split; [done|apply zero_block_length]. Qed.

Lemma disk100_formatted : ∃ f, formatted 100 disk100 f.
Proof.
  destruct (limnfs_format_spec 100 (blank (∅ : gmap Z (list Z))) (λ _, zero_block)) as (fs' & f' & E & Hf);
    [done|done|apply blank_rep|intros b; apply zero_block_bytes|].
  exists f'. unfold disk100. by rewrite E.
Qed.

Lemma limnfs_sync_mount_witness :
  ∃ fs2, limnfs_mount true (blank (lfs_store (limnfs_sync disk100))) = (0, fs2) ∧
    lfs_block_bitmap fs2 = lfs_block_bitmap disk100.
Proof.
  destruct disk100_formatted as (f & Hi & Hok & Hmt & Ht & _).
  destruct (limnfs_sync_mount (bitmap_bytes_for 100 / 4096) disk100 f (blank (lfs_store (limnfs_sync disk100))) Hok Hmt Hi
    (blank_store _)) as (fs2 & f2 & E & _ & _ & Hb & _); [rewrite Ht, blank_hint; lia|]. exists fs2. exact (conj E Hb).
Defined.
