(* ===== verification/LfsData.v ===== *)
(** * LfsData: reading and writing files

    The contents of a file are its bytes, none where the file has a hole
    ([fbyte]).  [limnfs_write_data] puts the bytes at the offset, changes no
    other byte of any file, and is short only when the disk is full;
    [limnfs_read_data] returns the bytes up to the first hole.  A read of two
    blocks or more goes to the device, so it needs the device to be up to date
    ([clean]); the last section shows what happens otherwise. *)

From S2P Require Import Prelude KUtil Mem Bytes Bitmap Dll BCache BlockStore LimnFS LfsAlloc LfsTree LfsMap LfsFormat.

Implicit Types (f : Z → list Z) (ino : limnfs_inode) (data out : list Z).

(** Byte [o] of a file. *)
Definition fbyte f ino (o : Z) : option Z :=
  let b := bmap f ino (o / 4096) in if b =? 0 then None else f b !! Z.to_nat (o mod 4096).

Abbreviation MAX_FILE_SIZE := (2 ^ 32) (only parsing).

Lemma lb_range o : 0 ≤ o < MAX_FILE_SIZE → 0 ≤ o / 4096 < 1048576.
Proof. intros. split; [apply Z.div_pos; lia|apply Z.div_lt_upper_bound; lia]. Qed.

Lemma lb_blocks o : 0 ≤ o < MAX_FILE_SIZE → 0 ≤ o / 4096 < MAX_FILE_BLOCKS.
Proof. intros H%lb_range. lia. Qed.

Lemma fbyte_size f ino c o : fbyte f (ino <| in_size := c |>) o = fbyte f ino o.
Proof. unfold fbyte, bmap. by rewrite at_pos_size. Qed.

Section data.
Context {St : Type} `{!BlockStore St}.
Implicit Types (fs : lfs_st St) (I : Z → limnfs_inode) (n m o : Z).

(** ** Writing *)

(** A byte in a block that was added is zero. *)
Definition zfill (t : bool) (v : option Z) : option Z := if t then Some (default 0 v) else v.

(** The blocks that the bytes from [lo] to [hi] touch. *)
Definition touched (lo hi : Z) (lb : Z) : bool := (lo <? hi) && (lo / 4096 <=? lb) && (lb <=? (hi - 1) / 4096).

(** The bytes from [lo] to [hi] of file [n] are now those of [v]; holes of [n] in
    the blocks [T] are zeros now, nothing else changed. *)
Record wrote n (lo hi : Z) (T : Z → bool) (v : Z → Z) fs f I ino' fs' f' : Prop := {
  wr_inv : fs_inv fs' f' (iupd I n ino');
  wr_lay : same_layout fs fs';
  wr_attrs : same_attrs (I n) ino';
  wr_new o : lo ≤ o < hi → fbyte f' ino' o = Some (v o);
  wr_same m o : 0 ≤ m < LIMNFS_MAX_INODES → 0 ≤ o < MAX_FILE_SIZE → m ≠ n ∨ o < lo ∨ hi ≤ o →
    fbyte f' (iupd I n ino' m) o = zfill (bool_decide (m = n) && T (o / 4096)) (fbyte f (I m) o);
  wr_low c : c < data_start fs → f' c = f c;
  wr_leak : no_leak fs f I → no_leak fs' f' (iupd I n ino')
}.

Lemma same_block_byte o lb : o / 4096 = lb → o = lb * 4096 + o mod 4096.
Proof. intros <-. pose proof (Z.div_mod o 4096). lia. Qed.

(** A data block is no pointer block: storing to it moves no position. *)
Lemma at_pos_store fs f I n lb buf m x :
  fs_inv fs f I → 0 ≤ n < LIMNFS_MAX_INODES → 0 ≤ lb < MAX_FILE_BLOCKS → bmap f (I n) lb ≠ 0 →
  0 ≤ m < LIMNFS_MAX_INODES → pos_ok x → at_pos (fupd f (bmap f (I n) lb) buf) (I m) x = at_pos f (I m) x.
Proof.
  intros Hi Hn Hlb H0 Hm Hx. destruct (lpos_ok lb Hlb) as [Hok Hd]. apply at_pos_frame.
  intros k p q -> Hq Hw. apply fupd_ne. intros E. destruct Hx as [Hk Hp].
  assert (Hp' : path_ok k p) by (by apply path_ok_app in Hp).
  destruct (fi_inj _ _ _ Hi m n (Tree k p) (lpos lb)) as [_ Ex]; try done.
  rewrite <- Ex in Hd. cbn [data_pos] in Hd. destruct Hp as [Hl _]. rewrite length_app in Hl.
  apply Hq, nil_length_inv. lia.
Qed.

Lemma fs_inv_store fs f I n lb buf fs' :
  fs_inv fs f I → 0 ≤ n < LIMNFS_MAX_INODES → 0 ≤ lb < MAX_FILE_BLOCKS → bmap f (I n) lb ≠ 0 →
  Forall is_byte buf → meta fs' = meta fs → fs_rep fs' (fupd f (bmap f (I n) lb) buf) →
  fs_inv fs' (fupd f (bmap f (I n) lb) buf) I.
Proof.
  intros Hi Hn Hlb H0 Hb Hm Hr. pose proof (at_pos_store fs f I n lb buf) as Ha.
  pose proof Hi as [_ Hg Hby Ho Hj Hu]. split; [done|by eapply geo_meta|by apply all_bytes_fupd|done| |].
  - intros a b x y Ha' Hb' Hx Hy. rewrite !Ha by done. by apply Hj.
  - intros m x Hm' Hx. rewrite !Ha by done. intros. apply (used_meta fs fs'); [done|]. by apply Hu.
Qed.

(** Storing [bs] at offset [bo] of block [lb] of file [n]. *)
Lemma store_wrote fs f I n lb (bo : Z) bs fs' :
  let b := bmap f (I n) lb in
  let f' := fupd f b (splice (Z.to_nat bo) bs (f b)) in
  fs_inv fs f I → 0 ≤ n < LIMNFS_MAX_INODES → 0 ≤ lb < 1048576 → b ≠ 0 →
  0 ≤ bo → bo + Z.of_nat (length bs) ≤ 4096 → Forall is_byte bs → meta fs' = meta fs → fs_rep fs' f' →
  wrote n (lb * 4096 + bo) (lb * 4096 + bo + Z.of_nat (length bs)) (λ _, false)
    (λ o, bs !!! Z.to_nat (o - (lb * 4096 + bo))) fs f I (I n) fs' f'.
Proof.
  intros b f' Hi Hn Hlb H0 Hbo Hle Hbs Hm Hr. assert (Hlb' : 0 ≤ lb < MAX_FILE_BLOCKS) by lia.
  pose proof (bs_len _ _ b (fi_rep _ _ _ Hi)) as Hlen.
  assert (Hp : ∀ m o, 0 ≤ m < LIMNFS_MAX_INODES → 0 ≤ o < MAX_FILE_SIZE → bmap f' (I m) (o / 4096) = bmap f (I m) (o / 4096)).
  { intros m o Hm' Ho. apply (at_pos_store fs f I n lb); try done. apply lpos_ok. by apply lb_blocks. }
  assert (Hhit : f' b = splice (Z.to_nat bo) bs (f b)) by apply fupd_eq.
  assert (Hinv : fs_inv fs' f' I).
  { apply fs_inv_store with fs; try done. apply Forall_splice; [done|apply Hi]. }
  split; try done.
  - apply (fs_inv_ptrs fs' f' I); [intros; by rewrite iupd_same|intros m Hm'; rewrite iupd_same; by apply Hi|done].
  - by apply same_layout_meta.
  - intros o Ho. assert (El : o / 4096 = lb) by (symmetry; apply (Z.div_unique_pos _ _ _ (o - lb * 4096)); lia).
    pose proof (same_block_byte o lb El) as Eo. unfold fbyte. rewrite Hp by lia. rewrite El. fold b.
    rewrite (proj2 (Z.eqb_neq b 0)) by done. rewrite Hhit, lookup_splice by lia.
    rewrite decide_True by lia. rewrite list_lookup_lookup_total_lt by lia. do 2 f_equal. lia.
  - intros m o Hm' Ho Hout. rewrite iupd_same, andb_false_r. cbn [zfill]. unfold fbyte. rewrite Hp by done.
    set (c := bmap f (I m) (o / 4096)). destruct (c =? 0) eqn:Ec; [done|]. bool_hyps.
    destruct (decide (c = b)) as [E|E]; [|unfold f'; by rewrite fupd_ne].
    destruct (lpos_ok _ (lb_blocks o Ho)) as [Hxo _], (lpos_ok _ Hlb') as [Hxl _].
    destruct (fi_inj _ _ _ Hi m n (lpos (o / 4096)) (lpos lb)) as [-> Ex]; try done.
    apply lpos_inj in Ex; [|by apply lb_blocks|done]. pose proof (same_block_byte o lb Ex) as Eo.
    pose proof (Z.mod_pos_bound o 4096). rewrite E, Hhit. rewrite lookup_splice by lia.
    rewrite decide_False; [done|]. intros ?. destruct Hout as [?|?]; [done|]. lia.
  - intros c Hc. apply fupd_ne. intros ->.
    assert (Hu : used fs b) by (apply Hi; [done|by apply lpos_ok|done]). destruct Hu as [? _]. lia.
  - intros Hl c Hc. apply (used_meta fs fs' c Hm) in Hc. destruct (Hl c Hc) as (m & x & Hm' & Hx & E). exists m, x.
    split; [done|]. split; [done|]. rewrite iupd_same. rewrite <- E. by apply (at_pos_store fs f I n lb).
Qed.

(** Adding a block writes nothing. *)
Lemma added_wrote n lb lo fs f I b ino' fs' f' :
  fs_inv fs f I → 0 ≤ n < LIMNFS_MAX_INODES → 0 ≤ lb < MAX_FILE_BLOCKS → bmap f (I n) lb = 0 →
  added n lb fs f I b ino' fs' f' → ∀ v, wrote n lo lo (λ c, negb (b =? 0) && (c =? lb)) v fs f I ino' fs' f'.
Proof.
  intros Hi Hn Hlb H0 Ha v. split; try apply Ha; [intros; lia|]. intros m o Hm Ho _.
  destruct (lpos_ok _ (lb_blocks o Ho)) as [Hx Hd].
  destruct (decide ((m, lpos (o / 4096)) = (n, lpos lb))) as [[= -> Ex]|Hne].
  - apply lpos_inj in Ex; [|by apply lb_blocks|done]. unfold fbyte. rewrite Ex, iupd_eq.
    rewrite (ad_hit _ _ _ _ _ _ _ _ _ Ha), H0, !Z.eqb_refl, bool_decide_true by done.
    destruct (b =? 0) eqn:Eb; [done|]. bool_hyps. cbn [negb andb zfill default].
    rewrite (ad_zero _ _ _ _ _ _ _ _ _ Ha Eb). unfold zero_block. apply lookup_replicate_2.
    pose proof (Z.mod_pos_bound o 4096). lia.
  - replace (bool_decide (m = n) && _) with false.
    2: { symmetry. destruct (bool_decide (m = n)) eqn:Em; [|done]. apply bool_decide_eq_true in Em.
         destruct (o / 4096 =? lb) eqn:El; [|by rewrite andb_false_r]. bool_hyps. subst m. by rewrite El in Hne. }
    pose proof (ad_data _ _ _ _ _ _ _ _ _ Ha m _ Hm Hx Hd Hne) as E. cbn [zfill]. unfold fbyte, bmap. rewrite E.
    destruct (_ =? 0) eqn:E0; [done|]. bool_hyps. f_equal. by apply (ad_keep _ _ _ _ _ _ _ _ _ Ha).
Qed.

Lemma iupd_iupd I n ino ino' m : iupd (iupd I n ino) n ino' m = iupd I n ino' m.
Proof. unfold iupd. by case_decide. Qed.

(** One write after another. *)
Lemma zfill_zfill a b v : zfill a (zfill b v) = zfill (a || b) v.
Proof. by destruct a, b, v. Qed.

Lemma wrote_trans n lo mid hi T1 T2 v fs f I ino1 fs1 f1 ino2 fs2 f2 :
  lo ≤ mid ≤ hi → 0 ≤ lo → hi ≤ MAX_FILE_SIZE → 0 ≤ n < LIMNFS_MAX_INODES →
  wrote n lo mid T1 v fs f I ino1 fs1 f1 → wrote n mid hi T2 v fs1 f1 (iupd I n ino1) ino2 fs2 f2 →
  wrote n lo hi (λ c, T1 c || T2 c) v fs f I ino2 fs2 f2.
Proof.
  intros Hmid Hlo Hhi Hn H1 H2. pose proof (wr_attrs _ _ _ _ _ _ _ _ _ _ _ H2) as Ha. rewrite iupd_eq in Ha.
  pose proof (wr_inv _ _ _ _ _ _ _ _ _ _ _ H2) as Hi2.
  split.
  - apply (fs_inv_ptrs fs2 f2 (iupd (iupd I n ino1) n ino2)); [intros; by rewrite iupd_iupd| |done].
    intros m Hm. rewrite <- (iupd_iupd I n ino1). by apply Hi2.
  - etrans; [apply H1|apply H2].
  - etrans; [apply H1|done].
  - intros o Ho. destruct (decide (o < mid)); [|apply H2; lia].
    pose proof (wr_new _ _ _ _ _ _ _ _ _ _ _ H1 o ltac:(lia)) as E1.
    pose proof (wr_same _ _ _ _ _ _ _ _ _ _ _ H2 n o Hn ltac:(lia) ltac:(lia)) as E. rewrite !iupd_eq, E1 in E.
    rewrite E. by destruct (_ && _).
  - intros m o Hm Ho Hout. rewrite <- (iupd_iupd I n ino1 ino2).
    rewrite (wr_same _ _ _ _ _ _ _ _ _ _ _ H2 m o Hm Ho ltac:(lia)), (wr_same _ _ _ _ _ _ _ _ _ _ _ H1 m o Hm Ho ltac:(lia)).
    by rewrite zfill_zfill, orb_comm, andb_orb_distrib_r.
  - intros c Hc. rewrite (wr_low _ _ _ _ _ _ _ _ _ _ _ H2); [by apply H1|].
    by destruct (wr_lay _ _ _ _ _ _ _ _ _ _ _ H1) as (_ & -> & _).
  - intros Hl. apply (no_leak_ptrs fs2 f2 (iupd (iupd I n ino1) n ino2)); [intros; by rewrite iupd_iupd|].
    by apply H2, H1.
Qed.

Lemma wrote_ext n lo hi T T' v v' fs f I ino' fs' f' :
  (∀ c, T c = T' c) → (∀ o, lo ≤ o < hi → v o = v' o) →
  wrote n lo hi T v fs f I ino' fs' f' → wrote n lo hi T' v' fs f I ino' fs' f'.
Proof.
  intros HT Hv []. split; try done; [intros o Ho; rewrite <- Hv by done; by auto|].
  intros m o. rewrite <- HT. auto.
Qed.

Lemma wrote_nil n lo v fs f I fs' :
  fs_inv fs f I → meta fs' = meta fs → fs_rep fs' f → wrote n lo lo (λ _, false) v fs f I (I n) fs' f.
Proof.
  intros Hi Hm Hr. split; try done.
  - apply (fs_inv_ptrs fs' f I); [intros; by rewrite iupd_same| |by apply (fs_inv_meta fs)].
    intros m Hm'. rewrite iupd_same. by apply Hi.
  - by apply same_layout_meta.
  - intros o Ho. lia.
  - intros m o _ _ _. by rewrite iupd_same, andb_false_r.
  - intros Hl b Hb. apply (used_meta fs fs' b Hm) in Hb. destruct (Hl b Hb) as (m & x & ? & ? & ?).
    exists m, x. by rewrite iupd_same.
Qed.

Lemma slice_total data a c i :
  (a + c ≤ length data)%nat → (i < c)%nat → slice a c data !!! i = data !!! (a + i)%nat.
Proof. intros. rewrite !list_lookup_total_alt, lookup_slice. by rewrite decide_True. Qed.

Lemma touched_nil lo c : touched lo lo c = false.
Proof. unfold touched. by rewrite Z.ltb_irrefl. Qed.

Lemma wrote_empty n lo v fs f I fs' :
  fs_inv fs f I → meta fs' = meta fs → fs_rep fs' f → wrote n lo lo (touched lo lo) v fs f I (I n) fs' f.
Proof.
  intros. apply (wrote_ext _ _ _ (λ _, false) _ v v); [intros; by rewrite touched_nil|done|by apply wrote_nil].
Qed.

(** Blocks that were there have no holes. *)
Lemma wrote_fill n lo hi T T' v fs f I ino' fs' f' :
  fs_inv fs f I → (∀ c, 0 ≤ c < 1048576 → T' c = T c ∨ bmap f (I n) c ≠ 0) →
  wrote n lo hi T v fs f I ino' fs' f' → wrote n lo hi T' v fs f I ino' fs' f'.
Proof.
  intros Hi HT []. split; try done. intros m o Hm Ho Hout. rewrite wr_same0 by done.
  destruct (decide (m = n)) as [->|]; [|by rewrite bool_decide_false]. rewrite bool_decide_true by done. cbn [andb].
  destruct (HT (o / 4096)) as [->|Hb]; [by apply lb_range|done|].
  assert (Hs : is_Some (fbyte f (I n) o)).
  { unfold fbyte. rewrite (proj2 (Z.eqb_neq _ 0)) by done. apply lookup_lt_is_Some.
    rewrite (bs_len _ _ _ (fi_rep _ _ _ Hi)). pose proof (Z.mod_pos_bound o 4096). lia. }
  destruct Hs as [x ->]. by destruct (T _), (T' _).
Qed.

(** The touched blocks of a write whose first chunk ends at [mid]. *)
Lemma touched_split lb lo mid hi c t :
  lo / 4096 = lb → lo < mid ≤ hi → mid ≤ (lb + 1) * 4096 → mid = hi ∨ mid = (lb + 1) * 4096 →
  t = (c =? lb) → touched lo hi c = t || touched mid hi c.
Proof.
  intros <- Hm Hle Hal ->. unfold touched. rewrite (proj2 (Z.ltb_lt lo hi)) by lia. cbn [andb].
  pose proof (Z.div_mod lo 4096 ltac:(lia)). pose proof (Z.mod_pos_bound lo 4096 ltac:(lia)).
  destruct Hal as [->| ->].
  - rewrite Z.ltb_irrefl, orb_false_r. cbn [andb].
    assert (E : (hi - 1) / 4096 = lo / 4096) by (symmetry; apply (Z.div_unique_pos _ _ _ (hi - 1 - 4096 * (lo / 4096))); lia).
    rewrite E. destruct (Z.leb_spec (lo / 4096) c), (Z.leb_spec c (lo / 4096)), (Z.eqb_spec c (lo / 4096)); try done; lia.
  - rewrite Z.div_mul by lia. set (e := (hi - 1) / 4096).
    assert (He : lo / 4096 ≤ e) by (apply Z.div_le_mono; lia).
    destruct (decide ((lo / 4096 + 1) * 4096 < hi)).
    + rewrite (proj2 (Z.ltb_lt _ hi)) by done. cbn [andb].
      destruct (Z.leb_spec (lo / 4096) c), (Z.leb_spec c e), (Z.eqb_spec c (lo / 4096)), (Z.leb_spec (lo / 4096 + 1) c); try done; lia.
    + rewrite (proj2 (Z.ltb_ge _ hi)) by lia. cbn [andb]. rewrite orb_false_r.
      assert (e = lo / 4096) by (symmetry; apply (Z.div_unique_pos _ _ _ (hi - 1 - 4096 * (lo / 4096))); lia).
      destruct (Z.leb_spec (lo / 4096) c), (Z.leb_spec c e), (Z.eqb_spec c (lo / 4096)); try done; lia.
Qed.

(** A block to write to: the file's, or a new one. *)
Lemma ensure_block n lo v fs f I lb :
  fs_inv fs f I → 0 ≤ n < LIMNFS_MAX_INODES → 0 ≤ lb < MAX_FILE_BLOCKS →
  ∃ b ino' fs' f',
    (let '(disk_block, fs) := get_file_block (I n) lb fs in
     if disk_block =? 0 then alloc_file_block (I n) lb fs else (disk_block, I n, fs)) = (b, ino', fs') ∧
    b = bmap f' ino' lb ∧
    (b = 0 → nearly_full fs' ∧ ∀ x, (∀ g, at_pos g (I n) x = 0) ∨ ∀ g, at_pos g (I n) x = at_pos g ino' x) ∧
    wrote n lo lo (λ c, negb (b =? 0) && (bmap f (I n) lb =? 0) && (c =? lb)) v fs f I ino' fs' f'.
Proof.
  intros Hi Hn Hlb. destruct (get_file_block_spec (I n) lb fs f (fi_rep _ _ _ Hi) Hlb) as (fs1 & -> & Hm1 & Hr1 & _).
  pose proof (fs_inv_meta _ _ _ _ Hi Hm1 Hr1) as Hi1. pose proof (wrote_nil n lo v _ _ _ _ Hi Hm1 Hr1) as Hw1.
  destruct (bmap f (I n) lb =? 0) eqn:E; bool_hyps.
  - destruct (alloc_file_block_spec n lb fs1 f I Hi1 Hn Hlb E) as (b & ino' & fs' & f' & -> & Ha).
    exists b, ino', fs', f'. split_and!; [done|symmetry; apply Ha|intros Hb; split; [by apply Ha|intros; by apply (ad_fail _ _ _ _ _ _ _ _ _ Ha)]|].
    pose proof (added_wrote n lb lo fs1 f I b ino' fs' f' Hi1 Hn Hlb E Ha v) as [].
    destruct Hw1 as [_ Hl1 _ _ _ _ Hk1]. split; try done; [by etrans| |by rewrite <- (proj1 (proj2 Hl1))|].
    + intros m o. rewrite andb_true_r. auto.
    + intros Hl. apply wr_leak0. intros c Hc. by apply Hl, (used_meta fs fs1 c Hm1).
  - exists (bmap f (I n) lb), (I n), fs1, f. split_and!; [done..|].
    apply (wrote_ext _ _ _ (λ _, false) _ v v); [|done|done]. intros c. by rewrite andb_false_r.
Qed.

Lemma write_loop_spec n off data fuel : ∀ k fs f I,
  let len := Z.of_nat (length data) in
  fs_inv fs f I → 0 ≤ n < LIMNFS_MAX_INODES → 0 ≤ off → off + len ≤ MAX_FILE_SIZE → 0 ≤ k ≤ len →
  Forall is_byte data → len ≤ k ∨ (off + k) mod 4096 + (len - k) ≤ 4096 * Z.of_nat fuel →
  ∃ w ino' fs' f', write_loop fuel (I n) off k data fs = (w, ino', fs') ∧ k ≤ w ≤ len ∧ (w < len → nearly_full fs') ∧
    wrote n (off + k) (off + w) (touched (off + k) (off + w)) (λ o, data !!! Z.to_nat (o - off)) fs f I ino' fs' f'.
Proof.
  induction fuel as [|fuel IH]; intros k fs f I len Hi Hn Hoff Hmax Hk Hby Hfuel; cbn [write_loop]; fold len.
  { pose proof (Z.mod_pos_bound (off + k) 4096). exists k, (I n), fs, f. split_and!; [done|lia..|].
    apply wrote_empty; try done. apply Hi. }
  destruct (len <=? k) eqn:E; bool_hyps.
  { exists k, (I n), fs, f. split_and!; [done|lia..|]. apply wrote_empty; try done. apply Hi. }
  pose proof (lb_range (off + k) ltac:(lia)) as Hlb. set (lb := (off + k) / 4096) in *.
  pose proof (Z.mod_pos_bound (off + k) 4096 ltac:(lia)) as Hbo.
  pose proof (same_block_byte (off + k) lb eq_refl) as Eo. set (bo := (off + k) mod 4096) in *.
  rewrite u32_id by lia. set (v := λ o, data !!! Z.to_nat (o - off)).
  destruct (ensure_block n (off + k) v fs f I lb Hi Hn ltac:(lia)) as (b & ino1 & fs1 & f1 & Eb & Hb & Hfull & Hw1).
  destruct (get_file_block (I n) lb fs) as [db fs0]. rewrite Eb. clear Eb db fs0.
  destruct (b =? 0) eqn:E0; bool_hyps.
  { exists k, ino1, fs1, f1. split_and!; [done|lia..|intros _; by apply Hfull|].
    apply (wrote_ext _ _ _ _ (touched (off + k) (off + k)) v v) in Hw1; [exact Hw1| |done].
    intros c. by rewrite touched_nil. }
  pose proof (wr_inv _ _ _ _ _ _ _ _ _ _ _ Hw1) as Hi1. set (I1 := iupd I n ino1) in *.
  assert (EI : ino1 = I1 n) by (unfold I1; by rewrite iupd_eq). rewrite EI in Hb.
  destruct (bread_spec fs1 f1 b (fi_rep _ _ _ Hi1)) as (fs2 & -> & Hm2 & Hr2 & _). cbn [negb Z.eqb].
  pose proof (bs_len _ _ b (fi_rep _ _ _ Hi1)) as Hlen.
  set (chunk := Z.min _ _). set (bs := slice (Z.to_nat k) (Z.to_nat chunk) data).
  assert (Hbl : length bs = Z.to_nat chunk) by (apply length_slice; lia).
  destruct (bwrite_spec fs2 f1 b (splice (Z.to_nat bo) bs (f1 b)) Hr2) as (fs3 & -> & Hm3 & Hr3);
    [rewrite length_splice by lia; done|]. cbn [negb Z.eqb].
  pose proof (store_wrote fs1 f1 I1 n lb bo bs fs3) as Hw2. cbn zeta in Hw2. rewrite <- Hb in Hw2.
  specialize (Hw2 Hi1 Hn Hlb E0 ltac:(lia) ltac:(lia) ltac:(by apply Forall_slice) ltac:(congruence) Hr3).
  rewrite <- Eo, Hbl, Z2Nat.id in Hw2 by lia.
  apply (wrote_ext _ _ _ _ (λ _, false) _ v) in Hw2; [|done|].
  2: { intros o Ho. unfold v, bs. rewrite slice_total by lia. f_equal. lia. }
  pose proof (wrote_trans n (off + k) (off + k) (off + k + chunk) _ _ v fs f I ino1 fs1 f1 (I1 n) fs3 _
    ltac:(lia) ltac:(lia) ltac:(lia) Hn Hw1 Hw2) as Hw3. rewrite <- EI in Hw3.
  set (f3 := fupd f1 b _) in *.
  destruct (IH (k + chunk) fs3 f3 I1) as (w & ino' & fs' & f' & E4 & Hw & Hf & Hw4); try done; [|lia| |].
  - apply (wr_inv _ _ _ _ _ _ _ _ _ _ _ Hw3).
  - fold len. destruct (decide (chunk = len - k)) as [->|].
    + left. lia.
    + right. replace (off + (k + chunk)) with ((lb + 1) * 4096) by lia. rewrite Z.mod_mul by lia. lia.
  - rewrite <- EI in E4. fold len in Hf, Hw. exists w, ino', fs', f'. split_and!; [done|lia..|done|].
    replace (off + (k + chunk)) with (off + k + chunk) in Hw4 by lia.
    pose proof (wrote_trans n (off + k) (off + k + chunk) (off + w) _ _ v fs f I ino1 fs3 f3 ino' fs' f'
      ltac:(lia) ltac:(lia) ltac:(lia) Hn Hw3 Hw4) as Hw5.
    eapply (wrote_fill n (off + k) (off + w) _ (touched (off + k) (off + w))); [exact Hi| |exact Hw5].
    intros c Hc. destruct (decide (bmap f (I n) c = 0)) as [Ec|]; [left|by right].
    rewrite orb_false_r. apply (touched_split lb); try done; [lia..|].
    destruct (c =? lb) eqn:Ecl; bool_hyps; [|by rewrite andb_false_r].
    subst c. by rewrite Ec.
Qed.

(** ** The disk after a write *)

(** The contents of a file depend on its pointers and on blocks in use. *)
Lemma fbyte_same fs f f' I m ino o :
  fs_inv fs f I → 0 ≤ m < LIMNFS_MAX_INODES → 0 ≤ o < MAX_FILE_SIZE → (∀ b, used fs b → f' b = f b) →
  (∀ x, at_pos f' ino x = at_pos f' (I m) x) → fbyte f' ino o = fbyte f (I m) o.
Proof.
  intros Hi Hm Ho Hf Hp. destruct (lpos_ok _ (lb_blocks o Ho)) as [Hx _].
  unfold fbyte, bmap. rewrite Hp, (at_pos_used fs f f' I) by done.
  destruct (_ =? 0) eqn:E; [done|]. bool_hyps. by rewrite Hf by (by apply Hi).
Qed.

(** The changed inode is written: the disk is in order again. *)
Lemma commit_inode fs f I n ino1 ino2 :
  fs_inv fs f (iupd I n ino1) → 0 ≤ n < LIMNFS_MAX_INODES → inode_ok ino2 →
  (∀ m, 0 ≤ m < LIMNFS_MAX_INODES → m ≠ n → dinode fs f m = I m) →
  (∀ g x, at_pos g ino2 x = at_pos g ino1 x) →
  ∃ fs' f', limnfs_write_inode n ino2 fs = (0, fs') ∧ disk_inv fs' f' ∧ meta fs' = meta fs ∧
    dinode fs' f' n = ino2 ∧ (∀ m, 0 ≤ m < LIMNFS_MAX_INODES → m ≠ n → dinode fs' f' m = I m) ∧
    (∀ b, data_start fs ≤ b → f' b = f b) ∧
    (∀ m o, 0 ≤ m < LIMNFS_MAX_INODES → 0 ≤ o < MAX_FILE_SIZE → fbyte f' (dinode fs' f' m) o = fbyte f (iupd I n ino1 m) o) ∧
    (no_leak fs f (iupd I n ino1) → no_leak fs' f' (dinode fs' f')).
Proof.
  intros Hi Hn Hok HI Hp.
  destruct (limnfs_write_inode_spec fs f n ino2) as (fs' & f' & E & Hm & Hr & Hby & Hd & Ho & Hf); try done; try apply Hi.
  assert (Hf' : ∀ b, used fs b → f' b = f b) by (intros b [? _]; apply Hf; lia).
  assert (HJ : ∀ m x, 0 ≤ m < LIMNFS_MAX_INODES → at_pos f' (dinode fs' f' m) x = at_pos f' (iupd I n ino1 m) x).
  { intros m x Hm'. destruct (decide (m = n)) as [->|]; [by rewrite iupd_eq, Hd|]. rewrite iupd_ne, Ho by done.
    by rewrite HI. }
  assert (Hi' : fs_inv fs' f' (iupd I n ino1)).
  { apply (fs_inv_grow fs f); try done; [eapply geo_meta; [done|apply Hi]|]. intros. by apply (used_meta fs fs'). }
  exists fs', f'. split_and!; try done.
  - apply (fs_inv_ptrs fs' f' (iupd I n ino1)); try done. intros m Hm'. apply dinode_ok; [done|done|lia].
  - intros m Hm' Hne. rewrite Ho by done. by apply HI.
  - intros m o Hm' Ho'. apply (fbyte_same fs f f' (iupd I n ino1)); try done. intros x. by apply HJ.
  - intros Hl. apply (no_leak_ptrs fs' f' (iupd I n ino1)); [done|]. intros b Hb. apply (used_meta fs fs' b Hm) in Hb.
    destruct (Hl b Hb) as (m & x & Hm' & Hx & Ex). exists m, x. split; [done|]. split; [done|]. rewrite <- Ex.
    by apply (at_pos_used fs f f').
Qed.

(** The effect of a write of [w] bytes of [data] on the whole disk. *)
Record write_effect n off w data fs f fs' f' : Prop := {
  we_inv : disk_inv fs' f';
  we_leak : no_leak fs f (dinode fs f) → no_leak fs' f' (dinode fs' f');
  we_lay : same_layout fs fs';
  we_size : in_size (dinode fs' f' n) = Z.max (in_size (dinode fs f n)) (off + w);
  we_type : in_type (dinode fs' f' n) = in_type (dinode fs f n);
  we_other m : 0 ≤ m < LIMNFS_MAX_INODES → m ≠ n → dinode fs' f' m = dinode fs f m;
  we_new o : off ≤ o < off + w → fbyte f' (dinode fs' f' n) o = data !! Z.to_nat (o - off);
  we_same m o : 0 ≤ m < LIMNFS_MAX_INODES → 0 ≤ o < MAX_FILE_SIZE → m ≠ n ∨ o < off ∨ off + w ≤ o →
    fbyte f' (dinode fs' f' m) o =
      zfill (bool_decide (m = n) && touched off (off + w) (o / 4096)) (fbyte f (dinode fs f m) o)
}.

Lemma limnfs_write_data_spec n off data fs f :
  let len := Z.of_nat (length data) in
  disk_inv fs f → 0 ≤ n < LIMNFS_MAX_INODES → 0 ≤ off → off + len < MAX_FILE_SIZE → Forall is_byte data →
  ∃ w fs' f', limnfs_write_data n off data fs = (w, fs') ∧ 0 ≤ w ≤ len ∧ (w < len → nearly_full fs') ∧
    write_effect n off w data fs f fs' f'.
Proof.
  intros len Hi Hn Hoff Hmax Hby. unfold limnfs_write_data.
  destruct (limnfs_read_inode_spec fs f n (fi_rep _ _ _ Hi) Hn) as (fs1 & -> & Hm1 & Hr1 & _).
  pose proof (fs_inv_meta _ _ _ _ Hi Hm1 Hr1) as Hi1. fold len. set (I := dinode fs f) in *.
  destruct (write_loop_spec n off data (read_fuel len) 0 fs1 f I) as (w & ino1 & fs2 & f2 & -> & Hw & Hfull & Hwr);
    try done; [lia|lia| |].
  { right. fold len. unfold read_fuel. pose proof (Z.mod_pos_bound (off + 0) 4096). pose proof (Z.div_mod len 4096).
    pose proof (Z.mod_pos_bound len 4096). assert (0 ≤ len / 4096) by (apply Z.div_pos; lia). lia. }
  fold len in Hw, Hfull. rewrite Z.add_0_r in Hwr. set (ino2 := if _ <? _ then _ else _).
  pose proof (wr_inv _ _ _ _ _ _ _ _ _ _ _ Hwr) as Hi2. pose proof (wr_attrs _ _ _ _ _ _ _ _ _ _ _ Hwr) as (Ht & _ & Hs & _).
  pose proof (fi_ino _ _ _ Hi2 n Hn) as Hok1. rewrite iupd_eq in Hok1.
  assert (Hok2 : inode_ok ino2).
  { unfold ino2. destruct (_ <? _); [|done]. destruct Hok1. constructor; try done. apply u32_range. }
  assert (Hsz : in_size ino2 = Z.max (in_size (I n)) (off + w)).
  { unfold ino2. rewrite <- Hs. destruct (_ <? _) eqn:E; bool_hyps; [|lia].
    change (u32 (off + w) = Z.max (in_size ino1) (off + w)). rewrite u32_id by lia. lia. }
  assert (Hl2 : same_layout fs fs2) by (etrans; [by apply same_layout_meta|apply Hwr]).
  destruct (commit_inode fs2 f2 I n ino1 ino2) as (fs3 & f3 & -> & Hi3 & Hm3 & Hd3 & Ho3 & _ & Hb3 & Hl3); try done.
  { intros m Hm Hne. rewrite (dinode_layout fs fs2) by done. unfold I, dinode. do 2 f_equal.
    apply (wr_low _ _ _ _ _ _ _ _ _ _ _ Hwr). destruct (inode_block_eq fs m (fi_geo _ _ _ Hi) Hm).
    by rewrite (proj1 (meta_fields _ _ Hm1)). }
  { intros g x. unfold ino2. destruct (_ <? _); [apply at_pos_size|done]. }
  exists w, fs3, f3. split_and!; [done|lia..| |].
  { intros Hlt. destruct (Hfull Hlt) as (d & Hd). exists d. destruct (same_layout_meta _ _ Hm3) as (_ & -> & -> & _).
    intros c Hc Hne. apply (used_meta fs2 fs3); [done|by apply Hd]. }
  split; try done.
  - intros Hl. apply Hl3, Hwr. intros b Hb. by apply Hl, (used_meta fs fs1 b Hm1).
  - etrans; [exact Hl2|by apply same_layout_meta].
  - by rewrite Hd3.
  - rewrite Hd3. unfold ino2. by destruct (_ <? _).
  - intros o Ho. rewrite Hb3 by lia. rewrite iupd_eq.
    rewrite (wr_new _ _ _ _ _ _ _ _ _ _ _ Hwr o Ho). symmetry. apply list_lookup_lookup_total_lt. lia.
  - intros m o Hm Ho Hout. rewrite Hb3 by done. by apply (wr_same _ _ _ _ _ _ _ _ _ _ _ Hwr).
Qed.

(** ** Reading *)

(** The bytes from [o] on, [k] of them or fewer when there is a hole. *)
Fixpoint fread f ino (k : nat) (o : Z) : list Z :=
  match k with
  | O => []
  | S k' => match fbyte f ino o with Some v => v :: fread f ino k' (o + 1) | None => [] end
  end.

Lemma fread_app f ino l r o :
  (∀ i : nat, (i < length l)%nat → fbyte f ino (o + Z.of_nat i) = l !! i) →
  fread f ino (length l + r) o = l ++ fread f ino r (o + Z.of_nat (length l)).
Proof.
  revert o. induction l as [|v l IH]; intros o Hl; cbn [length app Nat.add fread]; [by rewrite Z.add_0_r|].
  pose proof (Hl 0%nat ltac:(simpl; lia)) as H0. rewrite Z.add_0_r in H0. change ((v :: l) !! 0%nat) with (Some v) in H0. rewrite H0.
  f_equal. rewrite IH; [do 2 f_equal; lia|]. intros i Hi. specialize (Hl (S i) ltac:(simpl; lia)).
  change ((v :: l) !! S i) with (l !! i) in Hl. rewrite <- Hl. f_equal. lia.
Qed.

Lemma fread_hole f ino k o : fbyte f ino o = None → fread f ino k o = [].
Proof. intros E. destruct k; cbn [fread]; [done|]. by rewrite E. Qed.

Lemma fread_full f ino k o :
  (∀ i : nat, (i < k)%nat → is_Some (fbyte f ino (o + Z.of_nat i))) →
  length (fread f ino k o) = k ∧ ∀ i, (i < k)%nat → fread f ino k o !! i = fbyte f ino (o + Z.of_nat i).
Proof.
  revert o. induction k as [|k IH]; intros o Hk; cbn [fread]; [split; [done|intros; lia]|].
  destruct (Hk 0%nat ltac:(lia)) as [v Ev]. rewrite Z.add_0_r in Ev. rewrite Ev.
  destruct (IH (o + 1)) as [Hl Hi].
  { intros i Hi. specialize (Hk (S i) ltac:(lia)). by replace (o + 1 + Z.of_nat i) with (o + Z.of_nat (S i)) by lia. }
  split; [simpl; by rewrite Hl|]. intros [|i] Hlt; [by rewrite Z.add_0_r|].
  change ((v :: ?l) !! S i) with (l !! i). rewrite Hi by lia. f_equal. lia.
Qed.

(** Part of a block. *)
Lemma fread_chunk f ino o c r :
  length (f (bmap f ino (o / 4096))) = 4096%nat → bmap f ino (o / 4096) ≠ 0 → (Z.to_nat (o mod 4096) + c ≤ 4096)%nat →
  fread f ino (c + r) o = slice (Z.to_nat (o mod 4096)) c (f (bmap f ino (o / 4096))) ++ fread f ino r (o + Z.of_nat c).
Proof.
  intros Hl H0 Hc. set (l := slice _ _ _). assert (Hlen : length l = c) by (apply length_slice; lia).
  rewrite <- Hlen at 1. rewrite (fread_app f ino l); [by rewrite Hlen|]. intros i Hi. rewrite Hlen in Hi.
  pose proof (Z.mod_pos_bound o 4096 ltac:(lia)). pose proof (Z.div_mod o 4096 ltac:(lia)).
  assert (Ed : (o + Z.of_nat i) / 4096 = o / 4096) by (symmetry; apply (Z.div_unique_pos _ _ _ (o mod 4096 + Z.of_nat i)); lia).
  assert (Em : (o + Z.of_nat i) mod 4096 = o mod 4096 + Z.of_nat i) by (rewrite Z.mod_eq, Ed by lia; lia).
  unfold fbyte. rewrite Ed, Em. rewrite (proj2 (Z.eqb_neq _ 0)) by done. unfold l. rewrite lookup_slice.
  rewrite decide_True by done. f_equal. lia.
Qed.

(** Whole blocks. *)
Lemma fread_blocks f ino lb run r :
  0 ≤ lb → (∀ j : nat, (j < run)%nat → bmap f ino (lb + Z.of_nat j) ≠ 0 ∧ length (f (bmap f ino (lb + Z.of_nat j))) = 4096%nat) →
  fread f ino (4096 * run + r) (lb * 4096) =
    mjoin ((λ j, f (bmap f ino (lb + Z.of_nat j))) <$> seq 0 run) ++ fread f ino r ((lb + Z.of_nat run) * 4096).
Proof.
  revert lb. induction run as [|run IH]; intros lb Hlb Hb.
  { cbn [seq]. rewrite Nat.mul_0_r, Z.add_0_r. done. }
  destruct (Hb 0%nat ltac:(lia)) as [H0 Hl]. rewrite Z.add_0_r in H0, Hl.
  replace (4096 * S run + r)%nat with (4096 + (4096 * run + r))%nat by lia.
  assert (Ed : (lb * 4096) / 4096 = lb) by (by apply Z.div_mul).
  assert (Em : (lb * 4096) mod 4096 = 0) by (by apply Z.mod_mul).
  rewrite fread_chunk; rewrite ?Ed, ?Em; try done. change (Z.to_nat 0) with 0%nat. rewrite slice_full by done.
  cbn [seq]. rewrite fmap_cons, Z.add_0_r. change (mjoin (?x :: ?l)) with (x ++ mjoin l). rewrite <- app_assoc. f_equal.
  replace (lb * 4096 + Z.of_nat 4096) with ((lb + 1) * 4096) by lia. rewrite IH; [|lia|].
  - f_equal; [|f_equal; lia]. f_equal. rewrite <- fmap_S_seq, <- list_fmap_compose. apply list_fmap_ext. intros ? j _.
    cbn [compose]. do 2 f_equal. lia.
  - intros j Hj. replace (lb + 1 + Z.of_nat j) with (lb + Z.of_nat (S j)) by lia. apply Hb. lia.
Qed.

Section reading.
Context (fs0 : lfs_st St) (f : Z → list Z) (I : Z → limnfs_inode) (n : Z).
Context (Hi : fs_inv fs0 f I) (Hn : 0 ≤ n < LIMNFS_MAX_INODES).

Lemma read_block_len lb : length (f (bmap f (I n) lb)) = 4096%nat.
Proof. apply (bs_len _ _ _ (fi_rep _ _ _ Hi)). Qed.

Lemma bmap_used lb : 0 ≤ lb < MAX_FILE_BLOCKS → bmap f (I n) lb ≠ 0 → used fs0 (bmap f (I n) lb).
Proof. intros Hlb H0. apply Hi; [done|by apply lpos_ok|done]. Qed.

(** The file's blocks from [lb] on, [run] of them, follow each other. *)
Definition contiguous (lb run : Z) : Prop := ∀ j, 0 ≤ j < run → bmap f (I n) (lb + j) = bmap f (I n) lb + j.

Lemma run_length_spec lb k : ∀ run fs,
  fs_rep fs f → 0 ≤ lb → 1 ≤ run → lb + run + Z.of_nat k ≤ 1048576 → bmap f (I n) lb ≠ 0 → contiguous lb run →
  ∃ r fs', run_length k (I n) lb (bmap f (I n) lb) run fs = (r, fs') ∧ run ≤ r ≤ run + Z.of_nat k ∧
    meta fs' = meta fs ∧ fs_rep fs' f ∧ (clean fs f → clean fs' f) ∧ contiguous lb r.
Proof.
  induction k as [|k IH]; intros run fs Hr Hlb Hrun Hmax H0 Hc; cbn [run_length].
  { exists run, fs. split_and!; try done; lia. }
  rewrite (u32_id (lb + run)) by lia.
  destruct (get_file_block_spec (I n) (lb + run) fs f Hr ltac:(lia)) as (fs1 & -> & Hm1 & Hr1 & Hc1).
  pose proof (Hc (run - 1) ltac:(lia)) as El. set (db := bmap f (I n) lb) in *.
  assert (Hu : 0 < db ∧ db + run < 2 ^ 32).
  { pose proof (fi_geo _ _ _ Hi) as Hg. pose proof (geo_total _ Hg). pose proof (geo_table _ Hg).
    destruct (bmap_used lb ltac:(lia) H0) as [Hd _]. fold db in Hd.
    assert (Hr0 : bmap f (I n) (lb + (run - 1)) ≠ 0) by lia. destruct (bmap_used (lb + (run - 1)) ltac:(lia) Hr0) as [? _]. lia. }
  rewrite (u32_id (db + run)) by lia. destruct (_ =? db + run) eqn:E; bool_hyps.
  - destruct (IH (run + 1) fs1 Hr1 Hlb ltac:(lia) ltac:(lia) H0) as (r & fs2 & -> & Hrr & Hm2 & Hr2 & Hc2 & Hcr).
    { intros j Hj. destruct (decide (j = run)) as [->|]; [done|apply Hc; lia]. }
    exists r, fs2. split_and!; try done; [lia|lia|congruence|tauto].
  - exists run, fs1. split_and!; try done; lia.
Qed.

(** Several blocks at once, from the device. *)
Lemma read_bulk_spec lb bo left fs :
  fs_rep fs f → 0 ≤ lb → lb + left / 4096 ≤ 1048576 → 0 < left → clean fs f ∨ left < 8192 → bmap f (I n) lb ≠ 0 →
  ∃ res fs', read_bulk (I n) lb (bmap f (I n) lb) bo left fs = (res, fs') ∧
    meta fs' = meta fs ∧ fs_rep fs' f ∧ (clean fs f → clean fs' f) ∧
    (res = None ∨ ∃ run : nat, (0 < run)%nat ∧ 4096 * Z.of_nat run ≤ left ∧ bo = 0 ∧
       res = Some (mjoin ((λ j, f (bmap f (I n) (lb + Z.of_nat j))) <$> seq 0 run)) ∧
       ∀ j, (j < run)%nat → bmap f (I n) (lb + Z.of_nat j) ≠ 0).
Proof.
  intros Hr Hlb Hmax Hleft Hcl H0. unfold read_bulk.
  destruct ((bo =? 0) && (4096 <=? left)) eqn:Eb; [|exists None, fs; split_and!; try done; by left].
  apply andb_true_iff in Eb as [Ebo El]. bool_hyps.
  assert (Hd : 1 ≤ left / 4096) by (apply Z.div_le_lower_bound; lia).
  rewrite u32_id by lia. set (mr := if 8 <? left / 4096 then 8 else left / 4096).
  assert (Hmr : 1 ≤ mr ≤ left / 4096) by (unfold mr; destruct (8 <? _) eqn:?; bool_hyps; lia).
  pose proof (Z.div_mod left 4096 ltac:(lia)). pose proof (Z.mod_pos_bound left 4096 ltac:(lia)).
  destruct (run_length_spec lb (Z.to_nat (mr - 1)) 1 fs Hr Hlb ltac:(lia) ltac:(lia) H0)
    as (r & fs1 & -> & Hrr & Hm1 & Hr1 & Hc1 & Hcont).
  { intros j Hj. replace j with 0 by lia. by rewrite !Z.add_0_r. }
  destruct (1 <? r) eqn:Er; [|exists None, fs1; split_and!; try done; by left]. bool_hyps.
  destruct Hcl as [Hcl|?]; [|exfalso; assert (left / 4096 < 2) by (apply Z.div_lt_upper_bound; lia); lia].
  destruct (bs_bulk_ok _ f (bmap f (I n) lb) (Z.to_nat r) Hr1) as (s & -> & Hr2 & Hc2). cbn [Z.eqb].
  eexists _, _. split; [done|]. split_and!; [done|done| |].
  - intros _ c. change (bs_raw s c = f c). destruct (Hc2 c) as [->|E]; [by apply Hc1|done].
  - right. exists (Z.to_nat r).
    assert (Hj : ∀ j, (j < Z.to_nat r)%nat → bmap f (I n) (lb + Z.of_nat j) = bmap f (I n) lb + Z.of_nat j)
      by (intros; apply Hcont; lia).
    split_and!; [lia|lia|done| |].
    + do 2 f_equal. apply list_fmap_ext. intros i j [-> Hlt]%lookup_seq. cbn [Nat.add] in *.
      rewrite Hj by done. apply (Hc1 Hcl).
    + intros j Hlt. rewrite Hj by done. pose proof (bmap_used lb ltac:(lia) H0) as [? _].
      pose proof (geo_table _ (fi_geo _ _ _ Hi)). lia.
Qed.

Lemma mjoin_blocks_length lb run : ∀ a,
  length (mjoin ((λ j, f (bmap f (I n) (lb + Z.of_nat j))) <$> seq a run)) = (4096 * run)%nat.
Proof.
  induction run as [|run IH]; intros a; [done|]. cbn [seq]. rewrite fmap_cons.
  change (mjoin (?x :: ?l)) with (x ++ mjoin l). rewrite length_app, IH, read_block_len. lia.
Qed.

Lemma read_loop_spec off len fuel : ∀ out fs,
  fs_rep fs f → 0 ≤ off → off + len ≤ MAX_FILE_SIZE → Z.of_nat (length out) ≤ len → clean fs f ∨ len < 8192 →
  len ≤ Z.of_nat (length out) ∨ (off + Z.of_nat (length out)) mod 4096 + (len - Z.of_nat (length out)) ≤ 4096 * Z.of_nat fuel →
  ∃ fs', read_loop fuel (I n) off len out fs =
      (out ++ fread f (I n) (Z.to_nat (len - Z.of_nat (length out))) (off + Z.of_nat (length out)), fs') ∧
    meta fs' = meta fs ∧ fs_rep fs' f ∧ (clean fs f → clean fs' f).
Proof.
  induction fuel as [|fuel IH]; intros out fs Hr Hoff Hmax Hlen Hcl Hfuel; cbn [read_loop]; set (k := Z.of_nat (length out)) in *.
  { pose proof (Z.mod_pos_bound (off + k) 4096). exists fs. replace (Z.to_nat (len - k)) with 0%nat by lia. cbn [fread].
    by rewrite app_nil_r. }
  destruct (len <=? k) eqn:E; bool_hyps.
  { exists fs. replace (Z.to_nat (len - k)) with 0%nat by lia. cbn [fread]. by rewrite app_nil_r. }
  pose proof (lb_range (off + k) ltac:(lia)) as Hlb. pose proof (Z.mod_pos_bound (off + k) 4096 ltac:(lia)) as Hbo.
  pose proof (same_block_byte (off + k) _ eq_refl) as Eo.
  rewrite (u32_id (_ / 4096)) by lia. set (lb := (off + k) / 4096) in *. set (bo := (off + k) mod 4096) in *.
  destruct (get_file_block_spec (I n) lb fs f Hr ltac:(lia)) as (fs1 & -> & Hm1 & Hr1 & Hc1).
  destruct (bmap f (I n) lb =? 0) eqn:E0.
  { exists fs1. rewrite fread_hole, app_nil_r; [done|]. unfold fbyte. fold lb. by rewrite E0. }
  bool_hyps. assert (Hdiv : (len - k) / 4096 ≤ 1048576 - lb).
  { apply Z.lt_succ_r, Z.div_lt_upper_bound; lia. }
  destruct (read_bulk_spec lb bo (len - k) fs1) as (res & fs2 & -> & Hm2 & Hr2 & Hc2 & Hres); try done; [lia..| |].
  { destruct Hcl as [?|?]; [left; by apply Hc1|right; lia]. }
  assert (Hcl2 : clean fs2 f ∨ len < 8192) by tauto.
  assert (Hgo : ∀ bs : list Z, (bs ≠ [])  → fread f (I n) (Z.to_nat (len - k)) (off + k) =
      bs ++ fread f (I n) (Z.to_nat (len - k - Z.of_nat (length bs))) (off + k + Z.of_nat (length bs)) →
      Z.of_nat (length bs) ≤ len - k → (Z.of_nat (length bs) = len - k ∨ (off + k + Z.of_nat (length bs)) mod 4096 = 0) →
      ∀ fs3, meta fs3 = meta fs2 → fs_rep fs3 f → (clean fs2 f → clean fs3 f) →
      ∃ fs', read_loop fuel (I n) off len (out ++ bs) fs3 = (out ++ fread f (I n) (Z.to_nat (len - k)) (off + k), fs') ∧
        meta fs' = meta fs ∧ fs_rep fs' f ∧ (clean fs f → clean fs' f)).
  { intros bs Hne Efr Hle Hal fs3 Hm3 Hr3 Hc3. assert (Hpos : (0 < length bs)%nat) by (destruct bs; [done|simpl; lia]).
    assert (Elen : Z.of_nat (length (out ++ bs)) = k + Z.of_nat (length bs)) by (rewrite length_app; lia).
    destruct (IH (out ++ bs) fs3) as (fs' & -> & Hm' & Hr' & Hc'); rewrite ?Elen; try done; [lia|tauto| |].
    { destruct Hal as [?|Ez]; [left; lia|right]. rewrite Z.add_assoc, Ez. destruct Hfuel; [lia|].
      assert (4096 - bo ≤ Z.of_nat (length bs)); [|lia].
      destruct (decide (4096 - bo ≤ Z.of_nat (length bs))); [done|exfalso].
      rewrite Eo in Ez. rewrite <- Z.add_assoc, Z.add_comm, Z.mod_add in Ez by lia.
      rewrite Z.mod_small in Ez by lia. lia. }
    exists fs'. split_and!; [|congruence|done|tauto]. rewrite Efr, app_assoc. do 3 f_equal; lia. }
  destruct Hres as [->|(run & Hrun & Hrl & Ebo & -> & Hnz)].
  - destruct (bread_spec fs2 f (bmap f (I n) lb) Hr2) as (fs3 & -> & Hm3 & Hr3 & Hc3). cbn [negb Z.eqb].
    set (chunk := Z.min _ _).
    assert (Hsl : length (slice (Z.to_nat bo) (Z.to_nat chunk) (f (bmap f (I n) lb))) = Z.to_nat chunk)
      by (apply length_slice; rewrite read_block_len; lia).
    apply Hgo; try done.
    + intros En. rewrite En in Hsl. cbn [length] in Hsl. lia.
    + rewrite Hsl. replace (Z.to_nat (len - k)) with (Z.to_nat chunk + Z.to_nat (len - k - chunk))%nat by lia.
      rewrite fread_chunk; fold lb bo; [|apply read_block_len|done|lia].
      f_equal. f_equal; lia.
    + rewrite Hsl. lia.
    + rewrite Hsl. destruct (decide (chunk = len - k)); [left; lia|right].
      replace (off + k + Z.of_nat (Z.to_nat chunk)) with ((lb + 1) * 4096) by lia. by apply Z.mod_mul.
  - apply Hgo; try done; rewrite ?mjoin_blocks_length; [| |lia|].
    + intros En. apply (f_equal length) in En. rewrite mjoin_blocks_length in En. cbn [length] in En. lia.
    + replace (off + k) with (lb * 4096) by lia.
      replace (Z.to_nat (len - k)) with (4096 * run + Z.to_nat (len - k - Z.of_nat (4096 * run)))%nat by lia.
      rewrite fread_blocks; [|lia|intros; split; [by apply Hnz|apply read_block_len]].
      f_equal. f_equal; lia.
    + right. replace (off + k + Z.of_nat (4096 * run)) with ((lb + Z.of_nat run) * 4096) by lia. by apply Z.mod_mul.
Qed.

(** *** The sequential path *)

(** The sampled blocks are in sequence with the first. *)
Definition sampled (lb nb : Z) : Prop :=
  ∀ c, c ∈ [1; nb / 4; nb / 2; u32 (nb - 1)] → c ≠ 0 → c < nb → bmap f (I n) (lb + c) = u32 (bmap f (I n) lb + c).

Lemma spot_check_spec lb nb checks : ∀ fs,
  fs_rep fs f → 0 ≤ lb → lb + nb ≤ 1048576 → (∀ c, c ∈ checks → 0 ≤ c) →
  ∃ ok fs', spot_check (I n) lb (bmap f (I n) lb) nb checks fs = (ok, fs') ∧ meta fs' = meta fs ∧ fs_rep fs' f ∧
    (clean fs f → clean fs' f) ∧
    (ok = true → ∀ c, c ∈ checks → c ≠ 0 → c < nb → bmap f (I n) (lb + c) = u32 (bmap f (I n) lb + c)).
Proof.
  induction checks as [|c cs IH]; intros fs Hr Hlb Hmax Hcs; cbn [spot_check].
  { exists true, fs. split_and!; try done. intros _ c Hc. by apply elem_of_nil in Hc. }
  assert (Hcs' : ∀ c, c ∈ cs → 0 ≤ c) by (intros; apply Hcs; by right).
  destruct ((c =? 0) || (nb <=? c)) eqn:E.
  { destruct (IH fs Hr Hlb Hmax Hcs') as (ok & fs' & -> & ? & ? & ? & Hok). exists ok, fs'. split_and!; try done.
    intros Ht d [->|Hd]%elem_of_cons Hd0 Hlt; [|by apply Hok]. apply orb_true_iff in E as [E|E]; bool_hyps; lia. }
  apply orb_false_iff in E as [E1 E2]. bool_hyps. pose proof (Hcs c ltac:(left)).
  rewrite (u32_id (lb + c)) by lia.
  destruct (get_file_block_spec (I n) (lb + c) fs f Hr ltac:(lia)) as (fs1 & -> & Hm1 & Hr1 & Hc1).
  destruct (_ =? u32 _) eqn:E; bool_hyps; [|by exists false, fs1].
  destruct (IH fs1 Hr1 Hlb Hmax Hcs') as (ok & fs' & -> & ? & ? & ? & Hok). exists ok, fs'.
  split_and!; [done|congruence|done|tauto|]. intros Ht d [->|Hd]%elem_of_cons Hd0 Hlt; [done|by apply Hok].
Qed.

(** A run of blocks in sequence, read past the cache. *)
Section sequence.
Context (lb nb : Z) (Hlb : 0 ≤ lb) (Hmax : lb + nb ≤ 1048576) (H0 : bmap f (I n) lb ≠ 0) (Hcont : contiguous lb nb) (Hnb : 0 < nb).

Lemma sequence_range : 0 < bmap f (I n) lb ∧ bmap f (I n) lb + nb < 2 ^ 32.
Proof.
  pose proof (fi_geo _ _ _ Hi) as Hg. pose proof (geo_total _ Hg). pose proof (geo_table _ Hg).
  destruct (bmap_used lb ltac:(lia) H0) as [Hd _]. pose proof (Hcont (nb - 1) ltac:(lia)) as El.
  assert (Hr0 : bmap f (I n) (lb + (nb - 1)) ≠ 0) by lia.
  destruct (bmap_used (lb + (nb - 1)) ltac:(lia) Hr0) as [? _]. lia.
Qed.

Lemma seq_batches_spec len fuel : ∀ a out fs,
  fs_rep fs f → clean fs f → 0 ≤ a → a + (len - Z.of_nat (length out)) / 4096 ≤ nb → Z.of_nat (length out) ≤ len →
  (len - Z.of_nat (length out)) / 4096 ≤ Z.of_nat fuel →
  let full := (len - Z.of_nat (length out)) / 4096 in
  ∃ fs', seq_batches fuel (bmap f (I n) lb + a) len out fs =
      (Some (bmap f (I n) lb + a + full, out ++ mjoin ((λ j, f (bmap f (I n) (lb + a + Z.of_nat j))) <$> seq 0 (Z.to_nat full))), fs') ∧
    meta fs' = meta fs ∧ fs_rep fs' f ∧ clean fs' f.
Proof.
  pose proof sequence_range as Hbase. set (base := bmap f (I n) lb) in *.
  induction fuel as [|fuel IH]; intros a out fs Hr Hcl Ha Han Hle Hfuel full; cbn [seq_batches];
    set (k := Z.of_nat (length out)) in *.
  { assert (Hf0 : full = 0) by (pose proof (Z.div_pos (len - k) 4096 ltac:(lia) ltac:(lia)); unfold full; lia).
    rewrite Hf0, Z.add_0_r. cbn [Z.to_nat seq]. rewrite app_nil_r. by exists fs. }
  pose proof (Z.div_mod (len - k) 4096 ltac:(lia)) as Hdm. pose proof (Z.mod_pos_bound (len - k) 4096 ltac:(lia)).
  fold full in Hdm, Han, Hfuel. destruct (k + 4096 <=? len) eqn:E; bool_hyps.
  2: { assert (Hf0 : full = 0) by lia. rewrite Hf0, Z.add_0_r. cbn [Z.to_nat seq]. rewrite app_nil_r. by exists fs. }
  fold full. rewrite (u32_id full) by lia. set (batch := if 64 <? full then 64 else full).
  assert (Hb : 1 ≤ batch ≤ full) by (unfold batch; destruct (64 <? full) eqn:?; bool_hyps; lia).
  destruct (bs_bulk_ok _ f (base + a) (Z.to_nat batch) Hr) as (s & -> & Hr2 & Hc2). cbn [negb Z.eqb].
  rewrite (u32_id (base + a + batch)) by lia. set (fs1 := fs <| lfs_store := s |>).
  assert (Hcl1 : clean fs1 f).
  { intros c. change (bs_raw s c = f c). destruct (Hc2 c) as [->|?]; [apply Hcl|done]. }
  assert (Hbs : mjoin ((λ i, bs_raw (lfs_store fs) (base + a + Z.of_nat i)) <$> seq 0 (Z.to_nat batch)) =
                mjoin ((λ j, f (bmap f (I n) (lb + a + Z.of_nat j))) <$> seq 0 (Z.to_nat batch))).
  { f_equal. apply list_fmap_ext. intros i j [-> Hlt]%lookup_seq. cbn [Nat.add] in *.
    replace (lb + a + Z.of_nat i) with (lb + (a + Z.of_nat i)) by lia. rewrite Hcont by lia. fold base.
    rewrite Z.add_assoc. apply Hcl. }
  rewrite Hbs. set (bs := mjoin _). assert (Hbl : length bs = (4096 * Z.to_nat batch)%nat) by apply mjoin_blocks_length.
  assert (Elen : Z.of_nat (length (out ++ bs)) = k + 4096 * batch) by (rewrite length_app, Hbl; lia).
  assert (Hf1 : (len - Z.of_nat (length (out ++ bs))) / 4096 = full - batch).
  { rewrite Elen. symmetry. apply (Z.div_unique_pos _ _ _ ((len - k) mod 4096)); lia. }
  specialize (IH (a + batch) (out ++ bs) fs1). rewrite Hf1, Z.add_assoc in IH.
  destruct IH as (fs' & -> & Hm' & Hr' & Hc'); try done; try lia. exists fs'. split_and!; try done. do 3 f_equal; [lia|].
  rewrite <- app_assoc. f_equal. unfold bs. replace (Z.to_nat full) with (Z.to_nat batch + Z.to_nat (full - batch))%nat by lia.
  rewrite seq_app, fmap_app, join_app. f_equal. cbn [Nat.add].
  set (r := Z.to_nat (full - batch)).
  replace (seq (Z.to_nat batch) r) with (Nat.add (Z.to_nat batch) <$> seq 0 r) by (rewrite fmap_add_seq; f_equal; lia).
  rewrite <- list_fmap_compose. f_equal.
  apply list_fmap_ext. intros i j _. cbn [compose]. do 2 f_equal. lia.
Qed.
End sequence.

(** The blocks that [len] bytes from [off] on touch. *)
Definition first_lb (off : Z) : Z := off / 4096.
Definition span (off len : Z) : Z := (off + len - 1) / 4096 - off / 4096 + 1.

Lemma read_sequential_spec off len fs :
  fs_rep fs f → clean fs f → 0 ≤ off → 4096 ≤ len → off + len ≤ MAX_FILE_SIZE →
  (sampled (first_lb off) (span off len) → contiguous (first_lb off) (span off len)) →
  ∃ res fs', limnfs_read_data_sequential (I n) off len fs = (res, fs') ∧ meta fs' = meta fs ∧ fs_rep fs' f ∧ clean fs' f ∧
    (res = None ∨ res = Some (fread f (I n) (Z.to_nat len) off)).
Proof.
  intros Hr Hcl Hoff Hlen Hmax Hsp. unfold limnfs_read_data_sequential.
  pose proof (lb_range off ltac:(lia)) as Hlb. pose proof (lb_range (off + len - 1) ltac:(lia)) as Hend.
  rewrite !(u32_id (_ / 4096)) by lia. unfold first_lb, span in Hsp. set (lb := off / 4096) in *.
  set (e := (off + len - 1) / 4096) in *.
  destruct (get_file_block_spec (I n) lb fs f Hr ltac:(lia)) as (fs1 & -> & Hm1 & Hr1 & Hc1). specialize (Hc1 Hcl).
  destruct (bmap f (I n) lb =? 0) eqn:E0; [exists None, fs1; split_and!; try done; by left|]. bool_hyps.
  pose proof (Z.div_mod off 4096 ltac:(lia)) as Hdo. fold lb in Hdo. set (bo := off mod 4096) in *.
  pose proof (Z.mod_pos_bound off 4096 ltac:(lia)) as Hbo. fold bo in Hbo.
  pose proof (Z.div_mod (off + len - 1) 4096 ltac:(lia)) as Hde. fold e in Hde.
  pose proof (Z.mod_pos_bound (off + len - 1) 4096 ltac:(lia)) as Hme.
  assert (Hle : lb ≤ e) by lia. rewrite (u32_id (e - lb + 1)) by lia. set (nb := e - lb + 1) in *.
  destruct (spot_check_spec lb nb [1; nb / 4; nb / 2; u32 (nb - 1)] fs1 Hr1) as (ok & fs2 & -> & Hm2 & Hr2 & Hc2 & Hok); [lia|lia| |].
  { intros c Hc. repeat (apply elem_of_cons in Hc as [->|Hc]); [lia|apply Z.div_pos; lia|apply Z.div_pos; lia|apply u32_range|].
    by apply elem_of_nil in Hc. }
  specialize (Hc2 Hc1). destruct ok; cbn [negb].
  2: { exists None, fs2. split_and!; try done; [congruence|by left]. }
  specialize (Hsp (Hok eq_refl)). assert (Hnb : 0 < nb) by lia.
  pose proof (sequence_range lb nb ltac:(lia) ltac:(lia) E0 Hsp Hnb) as Hbase. set (base := bmap f (I n) lb) in *.
  (* the first block, if it is read in part *)
  set (hd := if bo =? 0 then _ else _). set (hb := if bo =? 0 then 0 else 4096 - bo).
  set (ha := if bo =? 0 then 0 else 1).
  assert (Hhd : ∃ out fs3, hd = (Some (base + ha, out), fs3) ∧ Z.of_nat (length out) = hb ∧ off + hb = (lb + ha) * 4096 ∧
    meta fs3 = meta fs ∧ fs_rep fs3 f ∧ clean fs3 f ∧
    fread f (I n) (Z.to_nat len) off = out ++ fread f (I n) (Z.to_nat (len - hb)) (off + hb)).
  { unfold hd, hb, ha. destruct (bo =? 0) eqn:Eb; bool_hyps.
    - exists [], fs2. rewrite !Z.add_0_r, Z.sub_0_r. split_and!; try done; [lia|congruence].
    - destruct (bread_spec fs2 f base Hr2) as (fs3 & -> & Hm3 & Hr3 & Hc3). cbn [negb Z.eqb].
      rewrite u32_id by lia. rewrite Z.min_l by lia. eexists _, fs3. split; [done|].
      rewrite length_slice by (unfold base; rewrite read_block_len; lia).
      split_and!; [lia|lia|congruence|done|by apply Hc3|].
      replace (Z.to_nat len) with (Z.to_nat (4096 - bo) + Z.to_nat (len - (4096 - bo)))%nat by lia.
      rewrite fread_chunk; [|apply read_block_len|done|fold bo; lia]. fold lb bo base. f_equal. f_equal; lia. }
  destruct Hhd as (out & fs3 & -> & Ho & Hal & Hm3 & Hr3 & Hc3 & Efr).
  assert (Hha : 0 ≤ ha ≤ 1 ∧ 0 ≤ hb < 4096) by (unfold ha, hb; destruct (bo =? 0) eqn:?; bool_hyps; lia).
  pose proof (Z.div_mod (len - hb) 4096 ltac:(lia)) as Hdf. pose proof (Z.mod_pos_bound (len - hb) 4096 ltac:(lia)) as Hmf.
  destruct (seq_batches_spec lb nb ltac:(lia) ltac:(lia) E0 Hsp Hnb len (read_fuel len) ha out fs3) as (fs4 & E4 & Hm4 & Hr4 & Hc4);
    rewrite ?Ho; try done; [lia|lia|lia| |].
  { unfold read_fuel. assert ((len - hb) / 4096 ≤ len / 4096) by (apply Z.div_le_mono; lia).
    pose proof (Z.div_pos len 4096). lia. }
  fold base in E4. rewrite Ho in E4. rewrite E4. set (full := (len - hb) / 4096) in *. set (bs := mjoin _).
  assert (Hbl : length bs = (4096 * Z.to_nat full)%nat) by apply mjoin_blocks_length.
  assert (Hfull : 0 ≤ full) by lia.
  assert (Efr2 : fread f (I n) (Z.to_nat len) off =
            (out ++ bs) ++ fread f (I n) (Z.to_nat ((len - hb) mod 4096)) ((lb + ha + full) * 4096)).
  { rewrite Efr, <- app_assoc. f_equal. rewrite Hal.
    replace (Z.to_nat (len - hb)) with (4096 * Z.to_nat full + Z.to_nat ((len - hb) mod 4096))%nat by lia.
    rewrite fread_blocks; [|lia|].
    - unfold bs. do 2 f_equal. lia.
    - intros j Hj. split; [|apply read_block_len]. replace (lb + ha + Z.of_nat j) with (lb + (ha + Z.of_nat j)) by lia.
      rewrite Hsp by lia. fold base. lia. }
  rewrite length_app, Hbl. replace (Z.of_nat (length out + 4096 * Z.to_nat full)) with (hb + 4096 * full) by lia.
  destruct (_ <? len) eqn:El; bool_hyps.
  - destruct (bread_spec fs4 f (base + ha + full) Hr4) as (fs5 & -> & Hm5 & Hr5 & Hc5). cbn [negb Z.eqb].
    eexists _, fs5. split; [done|]. split_and!; [congruence|done|by apply Hc5|]. right. rewrite Efr2. f_equal.
    replace (Z.to_nat (len - (hb + 4096 * full))) with (Z.to_nat ((len - hb) mod 4096)) by lia.
    set (q := Z.to_nat ((len - hb) mod 4096)). rewrite <- (Nat.add_0_r q) at 2.
    assert (Ebm : bmap f (I n) (lb + ha + full) = base + ha + full).
    { replace (lb + ha + full) with (lb + (ha + full)) by lia. rewrite Hsp by lia. fold base. lia. }
    assert (Ed : ((lb + ha + full) * 4096) / 4096 = lb + ha + full) by (by apply Z.div_mul).
    assert (Em : ((lb + ha + full) * 4096) mod 4096 = 0) by (by apply Z.mod_mul).
    rewrite fread_chunk; rewrite ?Ed, ?Em, ?Ebm; [|rewrite <- Ebm; apply read_block_len|lia|cbn; lia].
    cbn [fread]. rewrite app_nil_r. done.
  - eexists _, fs4. split; [done|]. split_and!; [congruence|done|done|]. right. rewrite Efr2.
    replace ((len - hb) mod 4096) with 0 by lia. cbn [Z.to_nat fread]. by rewrite app_nil_r.
Qed.
End reading.

Lemma limnfs_read_data_spec n off len fs f :
  let ino := dinode fs f n in
  let len' := Z.min len (in_size ino - off) in
  disk_inv fs f → 0 ≤ n < LIMNFS_MAX_INODES → 0 ≤ off → 0 ≤ len → clean fs f ∨ len < 8192 →
  (32768 ≤ len' → sampled f (dinode fs f) n (first_lb off) (span off len') →
   contiguous f (dinode fs f) n (first_lb off) (span off len')) →
  ∃ fs', limnfs_read_data n off len fs = (Some (fread f ino (Z.to_nat len') off), fs') ∧
    meta fs' = meta fs ∧ fs_rep fs' f ∧ (clean fs f → clean fs' f).
Proof.
  intros ino len' Hi Hn Hoff Hlen Hcl Hseq. unfold limnfs_read_data.
  destruct (limnfs_read_inode_spec fs f n (fi_rep _ _ _ Hi) Hn) as (fs1 & -> & Hm1 & Hr1 & Hc1). fold ino.
  pose proof (io_size _ (fi_ino _ _ _ Hi n Hn)) as Hsz. fold ino in Hsz.
  destruct (in_size ino <=? off) eqn:E; bool_hyps.
  { exists fs1. replace (Z.to_nat len') with 0%nat by lia. done. }
  fold len'. assert (Hl' : 0 ≤ len' ∧ off + len' ≤ in_size ino) by lia.
  assert (Hloop : ∀ fs2, meta fs2 = meta fs → fs_rep fs2 f → (clean fs f → clean fs2 f) →
    ∃ fs', (let '(out, fs0) := read_loop (read_fuel len') ino off len' [] fs2 in (Some out, fs0)) =
      (Some (fread f ino (Z.to_nat len') off), fs') ∧ meta fs' = meta fs ∧ fs_rep fs' f ∧ (clean fs f → clean fs' f)).
  { intros fs2 Hm2 Hr2 Hc2.
    destruct (read_loop_spec fs f (dinode fs f) n Hi Hn off len' (read_fuel len') [] fs2) as (fs3 & E3 & Hm3 & Hr3 & Hc3);
      [done|lia|lia|cbn; lia|destruct Hcl; [left; auto|right; lia]| |].
    { right. cbn [length]. unfold read_fuel. pose proof (Z.mod_pos_bound (off + 0) 4096). pose proof (Z.div_mod len' 4096).
      pose proof (Z.mod_pos_bound len' 4096). pose proof (Z.div_pos len' 4096). lia. }
    cbn [length] in E3. rewrite Z.sub_0_r, Z.add_0_r in E3. fold ino in E3. rewrite E3.
    exists fs3. split_and!; [done|congruence|done|tauto]. }
  destruct (32 * 1024 <=? len') eqn:El; bool_hyps; [|by apply Hloop].
  assert (Hcf : clean fs f) by (destruct Hcl; [done|lia]).
  destruct (read_sequential_spec fs f (dinode fs f) n Hi Hn off len' fs1) as (res & fs2 & E2 & Hm2 & Hr2 & Hc2 & Hres);
    [done|auto|lia|lia|lia|apply Hseq; lia|]. fold ino in E2, Hres. rewrite E2.
  destruct Hres as [->| ->]; [apply Hloop; [congruence|done|done]|].
  exists fs2. split_and!; [done|congruence|done|done].
Qed.

(** ** Files as arrays of bytes *)

(** The abstract file: its size, and its bytes, none in a hole. *)
Record afile := mk_afile { a_size : Z; a_byte : Z → option Z }.
Implicit Types (A : Z → afile).

(** A write of [w] bytes: they are there, and what was a hole in the blocks that
    are touched reads as zeros. *)
Definition awrite n off data w A : Z → afile := λ m,
  if decide (m = n) then
    mk_afile (Z.max (a_size (A n)) (off + w))
      (λ o, if decide (off ≤ o < off + w) then data !! Z.to_nat (o - off)
            else zfill (touched off (off + w) (o / 4096)) (a_byte (A n) o))
  else A m.

(** A read: the bytes below the size, up to the first hole. *)
Fixpoint collect (byte : Z → option Z) (k : nat) (o : Z) : list Z :=
  match k with
  | O => []
  | S k' => match byte o with Some v => v :: collect byte k' (o + 1) | None => [] end
  end.
Definition aread n off len A : list Z := collect (a_byte (A n)) (Z.to_nat (Z.min len (a_size (A n) - off))) off.

Inductive fop := FWrite (n off : Z) (data : list Z) | FRead (n off len : Z).

(** Arguments within the limits; reads of less than two blocks. *)
Definition fop_ok (op : fop) : Prop :=
  match op with
  | FWrite n off data => 0 ≤ n < LIMNFS_MAX_INODES ∧ 0 ≤ off ∧ off + Z.of_nat (length data) < MAX_FILE_SIZE ∧ Forall is_byte data
  | FRead n off len => 0 ≤ n < LIMNFS_MAX_INODES ∧ 0 ≤ off ∧ 0 ≤ len < 8192
  end.

(** The result and the state after each operation. *)
Fixpoint run_fops (ops : list fop) fs : list ((Z + option (list Z)) * lfs_st St) :=
  match ops with
  | [] => []
  | FWrite n off data :: ops' => let '(w, fs) := limnfs_write_data n off data fs in (inl w, fs) :: run_fops ops' fs
  | FRead n off len :: ops' => let '(r, fs) := limnfs_read_data n off len fs in (inr r, fs) :: run_fops ops' fs
  end.

(** The results are those of the abstract files; a write is short only on a full disk. *)
Fixpoint obeys A (ops : list fop) (res : list ((Z + option (list Z)) * lfs_st St)) : Prop :=
  match ops, res with
  | [], [] => True
  | FWrite n off data :: ops', (inl w, fs) :: res' =>
      0 ≤ w ≤ Z.of_nat (length data) ∧ (w < Z.of_nat (length data) → nearly_full fs) ∧
      obeys (awrite n off data w A) ops' res'
  | FRead n off len :: ops', (inr r, fs) :: res' => r = Some (aread n off len A) ∧ obeys A ops' res'
  | _, _ => False
  end.

Definition shows fs f A : Prop :=
  ∀ n, 0 ≤ n < LIMNFS_MAX_INODES → a_size (A n) = in_size (dinode fs f n) ∧
    ∀ o, 0 ≤ o < MAX_FILE_SIZE → a_byte (A n) o = fbyte f (dinode fs f n) o.

Lemma fread_collect f ino byte k : ∀ o,
  0 ≤ o → o + Z.of_nat k ≤ MAX_FILE_SIZE ∨ k = 0%nat → (∀ o, 0 ≤ o < MAX_FILE_SIZE → byte o = fbyte f ino o) →
  fread f ino k o = collect byte k o.
Proof.
  induction k as [|k IH]; intros o Ho Hk Hb; [done|]. cbn [fread collect]. rewrite Hb by lia.
  destruct (fbyte f ino o); [|done]. f_equal. apply IH; [lia|left; lia|done].
Qed.

Lemma shows_write fs f A n off w data fs' f' :
  shows fs f A → 0 ≤ n < LIMNFS_MAX_INODES → write_effect n off w data fs f fs' f' → shows fs' f' (awrite n off data w A).
Proof.
  intros Hs Hn We m Hm. unfold awrite. destruct (Hs m Hm) as [Hsz Hb]. case_decide as Em.
  - subst m. cbn [a_size a_byte]. rewrite (we_size _ _ _ _ _ _ _ _ We), Hsz. split; [done|].
    intros o Ho. case_decide as Hr; [symmetry; by apply We|].
    rewrite (we_same _ _ _ _ _ _ _ _ We n o Hn Ho ltac:(lia)), bool_decide_true by done. by rewrite Hb.
  - rewrite (we_other _ _ _ _ _ _ _ _ We m Hm Em) at 1. split; [done|]. intros o Ho.
    rewrite (we_same _ _ _ _ _ _ _ _ We m o Hm Ho ltac:(by left)), bool_decide_false by done. by apply Hb.
Qed.

(** Reading keeps the disk. *)
Lemma disk_inv_meta fs f fs' : disk_inv fs f → meta fs' = meta fs → fs_rep fs' f → disk_inv fs' f.
Proof.
  intros Hi Hm Hr. pose proof (fs_inv_meta _ _ _ _ Hi Hm Hr) as Hi'. apply (fs_inv_ptrs fs' f (dinode fs f)); [| |done].
  - intros m x Hm'. by rewrite (dinode_meta fs fs').
  - intros m Hm'. rewrite (dinode_meta fs fs') by done. by apply Hi.
Qed.

Lemma no_leak_meta fs f fs' : no_leak fs f (dinode fs f) → meta fs' = meta fs → no_leak fs' f (dinode fs' f).
Proof.
  intros Hl Hm b Hb. apply (used_meta fs fs' b Hm) in Hb. destruct (Hl b Hb) as (m & x & ? & ? & ?).
  exists m, x. by rewrite (dinode_meta fs fs').
Qed.

(** C14.  Reads and writes of files, in any order, behave like arrays of bytes: a
    write stores its bytes at its offset and changes nothing else in any file
    (holes of the blocks it touches become zeros), is short only when at most one
    data block of the disk is free, and a read of less than two blocks returns
    the bytes below the size up to the first hole.  Writes end below 2^32, the
    largest size that the byte count of an inode holds. *)
Theorem lfs_files_refine ops : ∀ fs f A,
  disk_inv fs f → shows fs f A → Forall fop_ok ops → obeys A ops (run_fops ops fs).
Proof.
  induction ops as [|[n off data|n off len] ops IH]; intros fs f A Hi Hs Hops; cbn [run_fops]; [done|..];
    apply Forall_cons in Hops as [Hop Hops].
  - destruct Hop as (Hn & Hoff & Hmax & Hby).
    destruct (limnfs_write_data_spec n off data fs f Hi Hn Hoff Hmax Hby) as (w & fs' & f' & -> & Hw & Hfull & We).
    cbn [obeys]. split_and!; [lia..|done|]. apply (IH fs' f'); [apply We|by apply (shows_write fs f)|done].
  - destruct Hop as (Hn & Hoff & Hlen). destruct (Hs n Hn) as [Hsz Hb].
    destruct (limnfs_read_data_spec n off len fs f Hi Hn Hoff) as (fs' & -> & Hm & Hr & _);
      [lia|right; lia|intros; lia|].
    cbn [obeys]. pose proof (io_size _ (fi_ino _ _ _ Hi n Hn)) as Hb32. split.
    + unfold aread. rewrite Hsz. f_equal. apply fread_collect; [done| |by apply Hb].
      destruct (decide (off ≤ in_size (dinode fs f n))); [left|right]; lia.
    + apply (IH fs' f); [|by intros m Hm'; rewrite (dinode_meta fs fs') by done; apply Hs|done].
      by apply (disk_inv_meta fs).
Qed.

(** C15.  Reads and writes keep the disk consistent: no block is ever in two
    places of one file or in two files, every block of a file is marked as in
    use, and, when the disk starts so, every block that is marked belongs to a
    file. *)
Theorem lfs_files_invariant ops : ∀ fs f,
  disk_inv fs f → no_leak fs f (dinode fs f) → Forall fop_ok ops →
  Forall (λ '(_, fs'), ∃ f', disk_inv fs' f' ∧ no_leak fs' f' (dinode fs' f')) (run_fops ops fs).
Proof.
  induction ops as [|[n off data|n off len] ops IH]; intros fs f Hi Hl Hops; cbn [run_fops]; [constructor|..];
    apply Forall_cons in Hops as [Hop Hops].
  - destruct Hop as (Hn & Hoff & Hmax & Hby).
    destruct (limnfs_write_data_spec n off data fs f Hi Hn Hoff Hmax Hby) as (w & fs' & f' & -> & Hw & Hfull & We).
    assert (Hl' : no_leak fs' f' (dinode fs' f')) by (by apply We).
    constructor; [exists f'; split; [apply We|done]|]. apply (IH fs' f'); [apply We|done|done].
  - destruct Hop as (Hn & Hoff & Hlen).
    destruct (limnfs_read_data_spec n off len fs f Hi Hn Hoff) as (fs' & -> & Hm & Hr & _); [lia|right; lia|intros; lia|].
    assert (Hi' : disk_inv fs' f) by (by apply (disk_inv_meta fs)).
    assert (Hl' : no_leak fs' f (dinode fs' f)) by (by apply (no_leak_meta fs)).
    constructor; [by exists f|]. by apply (IH fs' f).
Qed.
End data.

(** A write and reads on a fresh disk: two bytes across a block boundary. *)
Definition sample_fops : list fop := [FWrite 1 4095 [7; 9]; FRead 1 4094 4; FRead 1 0 8000; FRead 2 0 10].

Lemma sample_fops_ok : Forall fop_ok sample_fops.
Proof. unfold sample_fops. repeat constructor; try done; unfold is_byte; lia. Qed.

Lemma formatted_no_leak {St} `{!BlockStore St} t (fs : lfs_st St) f : formatted t fs f → no_leak fs f (dinode fs f).
Proof. intros (_ & _ & _ & _ & Hu & _) b Hb. by apply Hu in Hb. Qed.

Lemma lfs_files_refine_witness : ∃ A, a_size (A 1) = 0 ∧ obeys A sample_fops (run_fops sample_fops disk100).
Proof.
  destruct disk100_formatted as (f & Hf). pose proof Hf as (Hi & _ & _ & _ & _ & _ & Hz & _).
  exists (λ n, mk_afile (in_size (dinode disk100 f n)) (fbyte f (dinode disk100 f n))). split.
  - cbn [a_size]. by rewrite Hz by lia.
  - apply (lfs_files_refine sample_fops disk100 f); [exact Hi|done|exact sample_fops_ok].
Defined.

Lemma lfs_files_invariant_witness :
  Forall (λ '(_, fs'), ∃ f', disk_inv fs' f' ∧ no_leak fs' f' (dinode fs' f')) (run_fops sample_fops disk100).
Proof.
  destruct disk100_formatted as (f & Hf). pose proof Hf as (Hi & _).
  apply (lfs_files_invariant sample_fops disk100 f); [exact Hi|by apply (formatted_no_leak 100)|exact sample_fops_ok].
Defined.
