(* ===== verification/LfsDir.v ===== *)
(** * LfsDir: directories

    A directory is a file of 64-byte entries.  Its contents are the list of the
    pairs of an inode number, 0 in an erased entry, and a name ([ents]).  The
    directory operations are those of such a list: lookup finds the first live
    entry of the name, add overwrites the first erased entry or appends, remove
    erases the first live entry of the name. *)

From S2P Require Import Prelude KUtil Mem Bytes Bitmap Dll BCache BlockStore LimnFS LfsAlloc LfsTree LfsMap LfsFormat LfsData.

Implicit Types (f : Z → list Z) (ino : limnfs_inode) (s l : list Z).

(** ** Entries *)

Definition entry : Type := Z * list Z.

(** The entry in 64 bytes. *)
Definition ent_of l : entry := (le_val (take 4 l), c_str (drop 6 l)).

Definition ent_bytes f ino (i : Z) : list Z := slice (Z.to_nat (64 * (i mod 64))) 64 (f (bmap f ino (i / 64))).
Definition ent f ino (i : Z) : entry := ent_of (ent_bytes f ino i).
Definition ents f ino : list entry := (λ i, ent f ino (Z.of_nat i)) <$> seq 0 (Z.to_nat (dir_total ino)).

(** Every entry is there. *)
Definition dir_full f ino : Prop := ∀ i, 0 ≤ i < dir_total ino → is_Some (fbyte f ino (64 * i)).

Lemma ent_div i : (64 * i) / 4096 = i / 64.
Proof. change 4096 with (64 * 64). rewrite <- Z.div_div, (Z.mul_comm 64 i), Z.div_mul by lia. done. Qed.

Lemma ent_mod i : (64 * i) mod 4096 = 64 * (i mod 64).
Proof. change 4096 with (64 * 64). by rewrite Z.mul_mod_distr_l. Qed.

Lemma dent_inode_ent (j : nat) l : dent_inode j l = (ent_of (slice (64 * j) 64 l)).1.
Proof. unfold dent_inode, get_field, ent_of, slice. cbn [fst]. by rewrite take_take. Qed.

Lemma dent_name_ent (j : nat) l : c_str (dent_name j l) = (ent_of (slice (64 * j) 64 l)).2.
Proof.
  unfold dent_name, ent_of, slice. cbn [snd]. rewrite skipn_firstn_comm, drop_drop. done.
Qed.

(** The bytes of an entry are bytes of the file. *)
Lemma ent_bytes_lookup f ino i (k : nat) :
  bmap f ino (i / 64) ≠ 0 → 0 ≤ i → (k < 64)%nat → ent_bytes f ino i !! k = fbyte f ino (64 * i + Z.of_nat k).
Proof.
  intros H0 Hi Hk. unfold ent_bytes, fbyte. rewrite lookup_slice, decide_True by done.
  pose proof (Z.mod_pos_bound i 64 ltac:(lia)). pose proof (Z.div_mod i 64 ltac:(lia)).
  assert (Ed : (64 * i + Z.of_nat k) / 4096 = i / 64)
    by (symmetry; apply (Z.div_unique_pos _ _ _ (64 * (i mod 64) + Z.of_nat k)); lia).
  assert (Em : (64 * i + Z.of_nat k) mod 4096 = 64 * (i mod 64) + Z.of_nat k) by (rewrite Z.mod_eq, Ed by lia; lia).
  rewrite Ed, Em, (proj2 (Z.eqb_neq _ 0)) by done. f_equal. lia.
Qed.

Lemma fbyte_present f ino i :
  length (f (bmap f ino (i / 64))) = 4096%nat → is_Some (fbyte f ino (64 * i)) ↔ bmap f ino (i / 64) ≠ 0.
Proof.
  intros Hl. unfold fbyte. rewrite ent_div, ent_mod. destruct (_ =? 0) eqn:E; bool_hyps.
  - split; [by intros []|done].
  - split; [done|]. intros _. apply lookup_lt_is_Some. rewrite Hl. pose proof (Z.mod_pos_bound i 64). lia.
Qed.

Section dir.
Context {St : Type} `{!BlockStore St}.
Implicit Types (fs : lfs_st St) (n m : Z).

(** Two files with the same bytes at an entry have the same entry. *)
Lemma ent_bytes_frame fs fs' f f' ino ino' i :
  fs_rep fs f → fs_rep fs' f' → 0 ≤ i → is_Some (fbyte f ino (64 * i)) →
  (∀ o, 64 * i ≤ o < 64 * i + 64 → fbyte f' ino' o = fbyte f ino o) → ent_bytes f' ino' i = ent_bytes f ino i.
Proof.
  intros Hr Hr' Hi Hs He. pose proof (He (64 * i) ltac:(lia)) as H0.
  assert (Hs' : is_Some (fbyte f' ino' (64 * i))) by (by rewrite H0).
  apply fbyte_present in Hs; [|apply (bs_len _ _ _ Hr)]. apply fbyte_present in Hs'; [|apply (bs_len _ _ _ Hr')].
  apply list_eq. intros k. destruct (decide (k < 64)%nat).
  - rewrite !ent_bytes_lookup by done. apply He. lia.
  - unfold ent_bytes. rewrite !lookup_slice. by rewrite !decide_False.
Qed.

(** ** The scan *)

Definition live_named s (e : entry) : bool := negb (e.1 =? 0) && bool_decide (e.2 = c_str s).
Definition erased (e : entry) : bool := e.1 =? 0.

Lemma dent_named_ent s j l : dent_named s j l = live_named s (ent_of (slice (64 * j) 64 l)).
Proof.
  unfold dent_named, live_named. rewrite <- dent_inode_ent, <- dent_name_ent. f_equal.
  apply eq_bool_prop_intro. rewrite bool_decide_spec. rewrite <- str_eq_true. by destruct (str_eq _ _).
Qed.
Lemma dent_free_ent j l : dent_free j l = erased (ent_of (slice (64 * j) 64 l)).
Proof. unfold dent_free, erased. by rewrite <- dent_inode_ent. Qed.

Lemma ent_index lb (j : nat) :
  (j < 64)%nat → (64 * lb + Z.of_nat j) / 64 = lb ∧ (64 * lb + Z.of_nat j) mod 64 = Z.of_nat j.
Proof.
  intros Hj. split; [symmetry; apply (Z.div_unique_pos _ _ _ (Z.of_nat j)); lia|].
  symmetry. apply (Z.mod_unique_pos _ _ lb); lia.
Qed.

(** The entries of one block. *)
Lemma block_ents f ino lb c :
  0 ≤ lb → (c ≤ 64)%nat →
  (λ i, ent f ino (Z.of_nat i)) <$> seq (Z.to_nat (64 * lb)) c =
  (λ j, ent_of (slice (64 * j) 64 (f (bmap f ino lb)))) <$> seq 0 c.
Proof.
  intros Hlb Hc. rewrite <- (Nat.add_0_r (Z.to_nat (64 * lb))), <- fmap_add_seq, <- list_fmap_compose. apply list_fmap_ext.
  intros k j [-> Hk]%lookup_seq. cbn [compose Nat.add]. unfold ent, ent_bytes.
  replace (Z.of_nat (Z.to_nat (64 * lb) + k)) with (64 * lb + Z.of_nat k) by lia.
  destruct (ent_index lb k ltac:(lia)) as [-> ->]. do 2 f_equal. lia.
Qed.

Lemma dir_scan_spec t (test : nat → list Z → bool) ino total fuel : ∀ lb fs f,
  (∀ j l, test j l = t (ent_of (slice (64 * j) 64 l))) →
  fs_rep fs f → 0 ≤ lb → total < 2 ^ 26 → total ≤ 64 * (lb + Z.of_nat fuel) →
  (∀ i, 0 ≤ i < total → bmap f ino (i / 64) ≠ 0) →
  ∃ fs', dir_scan fuel ino test total lb fs =
      (match find_idx (λ i, t (ent f ino (Z.of_nat i))) (seq (Z.to_nat (64 * lb)) (Z.to_nat (total - 64 * lb))) with
       | Some k => let i := 64 * lb + Z.of_nat k in
                   Some (bmap f ino (i / 64), Z.to_nat (i mod 64), f (bmap f ino (i / 64)))
       | None => None
       end, fs') ∧ meta fs' = meta fs ∧ fs_rep fs' f.
Proof.
  induction fuel as [|fuel IH]; intros lb fs f Ht Hr Hlb Hmax Hfuel Hb; cbn [dir_scan].
  { replace (Z.to_nat (total - 64 * lb)) with 0%nat by lia. by exists fs. }
  destruct (lb * 64 <? total) eqn:E; bool_hyps.
  2: { replace (Z.to_nat (total - 64 * lb)) with 0%nat by lia. by exists fs. }
  assert (Hpos : bmap f ino lb ≠ 0).
  { specialize (Hb (64 * lb) ltac:(lia)). by rewrite Z.mul_comm, Z.div_mul in Hb by lia. }
  destruct (get_file_block_spec ino lb fs f Hr ltac:(lia)) as (fs1 & -> & Hm1 & Hr1 & _).
  rewrite (proj2 (Z.eqb_neq _ 0)) by done.
  destruct (bread_spec fs1 f (bmap f ino lb) Hr1) as (fs2 & -> & Hm2 & Hr2 & _). cbn [negb Z.eqb].
  set (c := Z.to_nat (Z.min 64 (total - lb * 64))). set (rest := Z.to_nat (total - 64 * (lb + 1))).
  replace (Z.to_nat (total - 64 * lb)) with (c + rest)%nat by lia. rewrite seq_app, find_idx_app, length_seq.
  replace (find_idx (λ i, t (ent f ino (Z.of_nat i))) (seq (Z.to_nat (64 * lb)) c))
    with (find_idx (λ i, test i (f (bmap f ino lb))) (seq 0 c)).
  2: { rewrite <- (find_idx_fmap (λ i, ent f ino (Z.of_nat i)) t), block_ents, find_idx_fmap by lia. apply find_idx_ext_in.
       intros j _. by rewrite Ht. }
  destruct (find_idx _ (seq 0 c)) as [j|] eqn:Ej.
  - assert (Hj : (j < c)%nat) by (apply find_idx_lt in Ej; by rewrite length_seq in Ej).
    exists fs2. cbv zeta. destruct (ent_index lb j ltac:(lia)) as [-> ->]. rewrite Nat2Z.id. split_and!; [done|congruence|done].
  - destruct (IH (lb + 1) fs2 f) as (fs3 & -> & Hm3 & Hr3); try done; [lia|lia|].
    fold rest. replace (Z.to_nat (64 * (lb + 1))) with (Z.to_nat (64 * lb) + 64)%nat by lia.
    exists fs3. split_and!; [|congruence|done]. destruct (decide (rest = 0%nat)) as [->|Hne]; [done|].
    replace c with 64%nat by lia. destruct (find_idx _ (seq _ rest)) as [k|]; [|done]. cbn [fmap option_fmap option_map].
    replace (64 * lb + Z.of_nat (64 + k)) with (64 * (lb + 1) + Z.of_nat k) by lia. done.
Qed.

(** ** Changing an entry *)

Lemma splice_of_agree {A} (l l' : list A) off k :
  length l' = length l → (off + k ≤ length l)%nat → (∀ i, (i < off ∨ off + k ≤ i)%nat → l' !! i = l !! i) →
  l' = splice off (slice off k l') l.
Proof.
  intros Hl Hk Ho. assert (Hs : length (slice off k l') = k) by (apply length_slice; lia).
  apply list_eq. intros i. rewrite lookup_splice by lia. rewrite Hs. case_decide.
  - rewrite lookup_slice, decide_True by lia. f_equal. lia.
  - apply Ho. lia.
Qed.

Lemma lookup_set_field off k v l i :
  (off + k ≤ length l)%nat → (i < off ∨ off + k ≤ i)%nat → set_field off k v l !! i = l !! i.
Proof.
  intros Hl Hi. unfold set_field. rewrite lookup_splice by (by rewrite le_bytes_length).
  rewrite le_bytes_length, decide_False by lia. done.
Qed.

(** [l'] is [l] with another entry [j]. *)
Definition entry_set (j : nat) (e : entry) l l' : Prop :=
  length l' = 4096%nat ∧ (∀ i, (i < 64 * j ∨ 64 * j + 64 ≤ i)%nat → l' !! i = l !! i) ∧
  ent_of (slice (64 * j) 64 l') = e.

Lemma entry_set_intro j e l l' :
  length l' = 4096%nat → (∀ i, (i < 64 * j ∨ 64 * j + 64 ≤ i)%nat → l' !! i = l !! i) →
  dent_inode j l' = e.1 → c_str (dent_name j l') = e.2 → entry_set j e l l'.
Proof.
  intros H1 H2 H3 H4. split_and!; [done..|]. rewrite (surjective_pairing e), <- H3, <- H4, dent_inode_ent, dent_name_ent.
  apply surjective_pairing.
Qed.

Lemma dent_put_set j child len ty s l :
  length l = 4096%nat → (j < 64)%nat → 0 ≤ child < 2 ^ 32 →
  entry_set j (child, take 57 (c_str s)) l (dent_put j child len ty s l).
Proof.
  intros Hl Hj Hc. unfold dent_put. set (l1 := set_field (64 * j) 4 child l).
  set (l2 := set_field (64 * j + 4) 1 len l1). set (l3 := set_field (64 * j + 5) 1 ty l2).
  assert (H1 : length l1 = 4096%nat) by (unfold l1; rewrite length_set_field by lia; done).
  assert (H2 : length l2 = 4096%nat) by (unfold l2; rewrite length_set_field by lia; done).
  assert (H3 : length l3 = 4096%nat) by (unfold l3; rewrite length_set_field by lia; done).
  set (nm := str_copy (dent_name j l3) s 58).
  assert (Hd : length (dent_name j l3) = 58%nat) by (apply length_slice; lia).
  assert (Hn : length nm = 58%nat) by (unfold nm; by rewrite length_str_copy).
  apply entry_set_intro; cbn [fst snd].
  - rewrite length_splice by lia. done.
  - intros i Hi. rewrite lookup_splice, decide_False by lia. unfold l3. rewrite lookup_set_field by lia.
    unfold l2. rewrite lookup_set_field by lia. unfold l1. by rewrite lookup_set_field by lia.
  - unfold dent_inode, get_field. rewrite slice_splice_ne by lia. change (get_field (64 * j) 4 l3 = child).
    unfold l3. rewrite get_set_field_ne by lia. unfold l2. rewrite get_set_field_ne by lia. unfold l1. apply get_set_field_eq; [lia|done].
  - unfold dent_name. pose proof (slice_splice_eq (64 * j + 6) nm l3 ltac:(lia)) as E. rewrite Hn in E. rewrite E.
    unfold nm. rewrite c_str_str_copy; [done|]. rewrite Hd. lia.
Qed.

Lemma dent_erase_set j l : length l = 4096%nat → (j < 64)%nat → entry_set j (0, []) l (dent_erase j l).
Proof.
  intros Hl Hj. unfold dent_erase. set (l1 := set_field (64 * j) 4 0 l).
  assert (H1 : length l1 = 4096%nat) by (unfold l1; rewrite length_set_field by lia; done).
  apply entry_set_intro; cbn [fst snd].
  - rewrite length_set_field by lia. done.
  - intros i Hi. rewrite lookup_set_field by lia. unfold l1. by rewrite lookup_set_field by lia.
  - unfold dent_inode. rewrite get_set_field_ne by lia. apply get_set_field_eq; [lia|done].
  - apply c_str_nil. unfold c_at, dent_name. rewrite lookup_slice, decide_True by lia.
    unfold set_field. rewrite lookup_splice by (rewrite le_bytes_length; lia).
    rewrite le_bytes_length, decide_True by lia. replace (64 * j + 6 + 0 - (64 * j + 6))%nat with 0%nat by lia. done.
Qed.

(** The bytes stay bytes. *)
Lemma str_copy_bytes dst s k : Forall is_byte dst → Forall is_byte s → Forall is_byte (str_copy dst s k).
Proof.
  intros Hd Hs. unfold str_copy. case_decide; [done|]. generalize (k - 1)%nat as c. intros c.
  assert (Hc : ∀ i, is_byte (c_at s i)).
  { intros i. unfold c_at. destruct (s !! i) as [x|] eqn:E; cbn; [|unfold is_byte; lia].
    by apply (proj1 (Forall_lookup _ _) Hs i x E). }
  generalize 0%nat as i. revert dst Hd. induction c as [|c IH]; intros dst Hd i; cbn [str_copy_loop].
  - apply Forall_insert; [done|unfold is_byte; lia].
  - destruct (c_at s i =? 0); [apply Forall_insert; [done|unfold is_byte; lia]|]. apply IH. by apply Forall_insert.
Qed.

Lemma dent_put_bytes j child len ty s l : Forall is_byte l → Forall is_byte s → Forall is_byte (dent_put j child len ty s l).
Proof.
  intros Hl Hs. unfold dent_put. apply Forall_splice; [|by repeat apply set_field_bytes].
  apply str_copy_bytes; [|done]. apply Forall_slice. by repeat apply set_field_bytes.
Qed.
Lemma dent_erase_bytes j l : Forall is_byte l → Forall is_byte (dent_erase j l).
Proof. intros Hl. by repeat apply set_field_bytes. Qed.

(** ** Directories of the disk *)

Implicit Types (I : Z → limnfs_inode) (A : Z → option (list entry)) (es : list entry) (e : entry).

(** The directories and their contents; the other inodes are none. *)
Definition dirs_shown f I A : Prop :=
  ∀ m, 0 ≤ m < LIMNFS_MAX_INODES →
    match A m with
    | Some es => in_type (I m) = LIMNFS_TYPE_DIR ∧ dir_full f (I m) ∧ es = ents f (I m)
    | None => in_type (I m) ≠ LIMNFS_TYPE_DIR
    end.

Definition dupd A n es : Z → option (list entry) := λ m, if decide (m = n) then Some es else A m.

Lemma dir_total_range ino : inode_ok ino → 0 ≤ dir_total ino < 2 ^ 26.
Proof.
  intros Ho. pose proof (io_size _ Ho). unfold dir_total.
  split; [apply Z.div_pos; lia|apply Z.div_lt_upper_bound; lia].
Qed.

Lemma length_ents f ino : length (ents f ino) = Z.to_nat (dir_total ino).
Proof. unfold ents. by rewrite length_fmap, length_seq. Qed.

Lemma ents_lookup f ino (i : nat) : (i < Z.to_nat (dir_total ino))%nat → ents f ino !! i = Some (ent f ino (Z.of_nat i)).
Proof. intros Hi. unfold ents. rewrite list_lookup_fmap, lookup_seq_lt by done. done. Qed.

(** The whole entry is there when its first byte is. *)
Lemma entry_present fs f ino i o :
  fs_rep fs f → 0 ≤ i → is_Some (fbyte f ino (64 * i)) → 64 * i ≤ o < 64 * i + 64 → is_Some (fbyte f ino o).
Proof.
  intros Hr Hi Hs Ho. apply fbyte_present in Hs; [|apply (bs_len _ _ _ Hr)].
  replace o with (64 * i + Z.of_nat (Z.to_nat (o - 64 * i))) by lia.
  rewrite <- ent_bytes_lookup by (done || lia). apply lookup_lt_is_Some. unfold ent_bytes.
  rewrite length_slice; [lia|]. rewrite (bs_len _ _ _ Hr). pose proof (Z.mod_pos_bound i 64). lia.
Qed.

(** An entry outside the bytes that were written. *)
Lemma ent_wrote n lo hi T v fs f I ino' fs' f' m i :
  wrote n lo hi T v fs f I ino' fs' f' → fs_rep fs f → 0 ≤ m < LIMNFS_MAX_INODES → 0 ≤ i < 2 ^ 26 →
  is_Some (fbyte f (I m) (64 * i)) → m ≠ n ∨ 64 * i + 64 ≤ lo ∨ hi ≤ 64 * i →
  ent f' (iupd I n ino' m) i = ent f (I m) i ∧ is_Some (fbyte f' (iupd I n ino' m) (64 * i)).
Proof.
  intros Hw Hr Hm Hi Hs Hout.
  assert (He : ∀ o, 64 * i ≤ o < 64 * i + 64 → fbyte f' (iupd I n ino' m) o = fbyte f (I m) o).
  { intros o Ho. rewrite (wr_same _ _ _ _ _ _ _ _ _ _ _ Hw m o Hm ltac:(lia) ltac:(lia)).
    destruct (entry_present fs f (I m) i o Hr ltac:(lia) Hs Ho) as [x ->]. by destruct (_ && _). }
  split; [|by rewrite He by lia]. unfold ent. f_equal.
  apply (ent_bytes_frame fs fs'); [done|apply Hw|lia|done|done].
Qed.

(** A directory whose bytes stay has its entries. *)
Lemma dir_frame fs f fs' f' ino :
  fs_rep fs f → fs_rep fs' f' → inode_ok ino → dir_full f ino →
  (∀ o, 0 ≤ o < MAX_FILE_SIZE → is_Some (fbyte f ino o) → fbyte f' ino o = fbyte f ino o) →
  dir_full f' ino ∧ ents f' ino = ents f ino.
Proof.
  intros Hr Hr' Ho Hd Hb. pose proof (dir_total_range _ Ho) as Ht.
  assert (Hent : ∀ i, 0 ≤ i < dir_total ino → ent f' ino i = ent f ino i ∧ is_Some (fbyte f' ino (64 * i))).
  { intros i Hir. split; [|rewrite Hb; [by apply Hd|lia|by apply Hd]]. unfold ent. f_equal.
    apply (ent_bytes_frame fs fs'); [done|done|lia|by apply Hd|]. intros o Hoi. apply Hb; [lia|].
    apply (entry_present fs f ino i); [done|lia|by apply Hd|done]. }
  split; [intros i Hir; by apply Hent|]. unfold ents. apply list_fmap_ext.
  intros k i [-> Hk]%lookup_seq. cbn [Nat.add]. apply Hent. lia.
Qed.

(** One directory changes, the bytes of the other files stay. *)
Lemma dirs_shown_upd n fs f I fs' f' ino2 A es :
  fs_inv fs f I → fs_rep fs' f' → dirs_shown f I A →
  (∀ m o, 0 ≤ m < LIMNFS_MAX_INODES → 0 ≤ o < MAX_FILE_SIZE → m ≠ n → fbyte f' (I m) o = fbyte f (I m) o) →
  in_type ino2 = LIMNFS_TYPE_DIR → dir_full f' ino2 → es = ents f' ino2 → dirs_shown f' (iupd I n ino2) (dupd A n es).
Proof.
  intros Hi Hr' Hs Hb Ht Hd He m Hm. unfold dupd. case_decide as E; [subst m; by rewrite iupd_eq|].
  rewrite iupd_ne by done. specialize (Hs m Hm). destruct (A m) as [esm|]; [|done]. destruct Hs as (Htm & Hdm & Hem).
  destruct (dir_frame fs f fs' f' (I m)) as [Hd' He']; try done; [apply Hi|by apply Hi|intros; by apply Hb|].
  split_and!; [done|done|]. congruence.
Qed.

Lemma wrote_others n lo hi T v fs f I ino' fs' f' m o :
  wrote n lo hi T v fs f I ino' fs' f' → 0 ≤ m < LIMNFS_MAX_INODES → 0 ≤ o < MAX_FILE_SIZE → m ≠ n →
  fbyte f' (I m) o = fbyte f (I m) o.
Proof.
  intros Hw Hm Ho Hne. pose proof (wr_same _ _ _ _ _ _ _ _ _ _ _ Hw m o Hm Ho ltac:(by left)) as E.
  by rewrite iupd_ne, bool_decide_false in E by done.
Qed.

(** Storing an entry in its block. *)
Lemma store_entry n i e buf fs f I fs' :
  let b := bmap f (I n) (i / 64) in
  fs_inv fs f I → 0 ≤ n < LIMNFS_MAX_INODES → 0 ≤ i < 2 ^ 26 → b ≠ 0 →
  entry_set (Z.to_nat (i mod 64)) e (f b) buf → Forall is_byte buf →
  meta fs' = meta fs → fs_rep fs' (fupd f b buf) →
  (∃ v, wrote n (64 * i) (64 * i + 64) (λ _, false) v fs f I (I n) fs' (fupd f b buf)) ∧ ent (fupd f b buf) (I n) i = e.
Proof.
  intros b Hi Hn Hir H0 (Hl & Ho & He) Hby Hm Hr.
  pose proof (Z.mod_pos_bound i 64 ltac:(lia)) as Hmod. pose proof (Z.div_mod i 64 ltac:(lia)) as Hdiv.
  pose proof (bs_len _ _ b (fi_rep _ _ _ Hi)) as Hbl. set (j := Z.to_nat (i mod 64)) in *.
  assert (Hlb : 0 ≤ i / 64 < 1048576) by (split; [apply Z.div_pos; lia|apply Z.div_lt_upper_bound; lia]).
  assert (Eb : buf = splice (64 * j) (slice (64 * j) 64 buf) (f b)) by (apply splice_of_agree; [congruence|lia|done]).
  assert (Hsl : length (slice (64 * j) 64 buf) = 64%nat) by (apply length_slice; lia).
  pose proof (store_wrote fs f I n (i / 64) (64 * (i mod 64)) (slice (64 * j) 64 buf) fs') as Hw. cbv zeta in Hw.
  replace (Z.to_nat (64 * (i mod 64))) with (64 * j)%nat in Hw by lia. fold b in Hw. rewrite <- Eb, Hsl in Hw.
  specialize (Hw Hi Hn Hlb H0 ltac:(lia) ltac:(lia) ltac:(by apply Forall_slice) Hm Hr).
  replace (i / 64 * 4096 + 64 * (i mod 64)) with (64 * i) in Hw by lia.
  split; [by eexists|]. unfold ent, ent_bytes. replace (Z.to_nat (64 * (i mod 64))) with (64 * j)%nat by lia.
  replace (bmap (fupd f b buf) (I n) (i / 64)) with b; [by rewrite fupd_eq|]. symmetry.
  apply (at_pos_store fs f I n (i / 64)); try done; [lia|]. apply lpos_ok. lia.
Qed.

(** ** The operations *)

(** The list operations. *)
Definition alookup s es : Z := match find_idx (live_named s) es with Some k => i32 (es !!! k).1 | None => -1 end.
Definition aadd s (child : Z) es : list entry :=
  match find_idx erased es with Some k => <[k := (child, c_str s)]> es | None => es ++ [(child, c_str s)] end.
Definition aremove s es : list entry := match find_idx (live_named s) es with Some k => <[k := (0, [])]> es | None => es end.

Lemma wrote_dinode n lo hi T v fs f I ino' fs' f' m :
  wrote n lo hi T v fs f I ino' fs' f' → geo fs → 0 ≤ m < LIMNFS_MAX_INODES → dinode fs' f' m = dinode fs f m.
Proof.
  intros Hw Hg Hm. rewrite (dinode_layout fs fs') by apply Hw. unfold dinode. do 2 f_equal.
  apply (wr_low _ _ _ _ _ _ _ _ _ _ _ Hw). by destruct (inode_block_eq fs m Hg Hm).
Qed.

Lemma read_dir_spec n fs f A :
  disk_inv fs f → dirs_shown f (dinode fs f) A → 0 ≤ n < LIMNFS_MAX_INODES →
  ∃ fs', read_dir n fs = (match A n with Some _ => Some (dinode fs f n) | None => None end, fs') ∧
    meta fs' = meta fs ∧ fs_rep fs' f.
Proof.
  intros Hi Hs Hn. unfold read_dir.
  destruct (limnfs_read_inode_spec fs f n (fi_rep _ _ _ Hi) Hn) as (fs1 & -> & Hm1 & Hr1 & _).
  specialize (Hs n Hn). exists fs1. destruct (A n) as [es|].
  - destruct Hs as (-> & _). done.
  - rewrite (proj2 (Z.eqb_neq _ _)) by done. done.
Qed.

Lemma dir_fuel_enough total : 0 ≤ total < 2 ^ 26 → total ≤ 64 * (0 + Z.of_nat (dir_fuel total)).
Proof.
  intros Ht. unfold dir_fuel. pose proof (Z.div_mod total 64 ltac:(lia)). pose proof (Z.mod_pos_bound total 64 ltac:(lia)).
  pose proof (Z.div_pos total 64). lia.
Qed.

(** The scan of a directory finds the first entry of its list. *)
Lemma scan_ents t test n fs f A es :
  disk_inv fs f → dirs_shown f (dinode fs f) A → 0 ≤ n < LIMNFS_MAX_INODES → A n = Some es →
  (∀ j l, test j l = t (ent_of (slice (64 * j) 64 l))) →
  ∀ fs1, meta fs1 = meta fs → fs_rep fs1 f →
  let ino := dinode fs f n in
  ∃ fs', dir_scan (dir_fuel (dir_total ino)) ino test (dir_total ino) 0 fs1 =
      (match find_idx t es with
       | Some k => let i := Z.of_nat k in Some (bmap f ino (i / 64), Z.to_nat (i mod 64), f (bmap f ino (i / 64)))
       | None => None
       end, fs') ∧ meta fs' = meta fs ∧ fs_rep fs' f.
Proof.
  intros Hi Hs Hn En Ht fs1 Hm1 Hr1 ino. specialize (Hs n Hn). rewrite En in Hs. destruct Hs as (_ & Hd & ->).
  fold ino in Hd |- *. pose proof (dir_total_range _ (fi_ino _ _ _ Hi n Hn)) as Htot. fold ino in Htot.
  destruct (dir_scan_spec t test ino (dir_total ino) (dir_fuel (dir_total ino)) 0 fs1 f Ht Hr1) as (fs2 & -> & Hm2 & Hr2);
    [lia|lia| | |].
  - apply dir_fuel_enough, Htot.
  - intros i Hir. apply fbyte_present; [apply (bs_len _ _ _ Hr1)|by apply Hd].
  - exists fs2. split_and!; [|congruence|done]. unfold ents. rewrite find_idx_fmap, Z.mul_0_r, Z.sub_0_r.
    change (Z.to_nat 0) with 0%nat. by destruct (find_idx _ _).
Qed.

Lemma limnfs_dir_lookup_spec n s fs f A :
  disk_inv fs f → dirs_shown f (dinode fs f) A → 0 ≤ n < LIMNFS_MAX_INODES →
  ∃ fs', limnfs_dir_lookup n s fs = (match A n with Some es => alookup s es | None => -1 end, fs') ∧
    meta fs' = meta fs ∧ fs_rep fs' f.
Proof.
  intros Hi Hs Hn. unfold limnfs_dir_lookup.
  destruct (read_dir_spec n fs f A Hi Hs Hn) as (fs1 & -> & Hm1 & Hr1). destruct (A n) as [es|] eqn:En; [|by exists fs1].
  destruct (scan_ents (live_named s) (dent_named s) n fs f A es Hi Hs Hn En (dent_named_ent s) fs1 Hm1 Hr1) as (fs2 & -> & Hm2 & Hr2).
  exists fs2. split; [|done]. unfold alookup. destruct (find_idx (live_named s) es) as [k|] eqn:Ek; [|done].
  specialize (Hs n Hn). rewrite En in Hs. destruct Hs as (_ & _ & ->). do 2 f_equal.
  apply find_idx_lt in Ek. rewrite length_ents in Ek. rewrite (list_lookup_total_correct _ _ _ (ents_lookup _ _ _ Ek)).
  rewrite dent_inode_ent. unfold ent, ent_bytes. do 4 f_equal. pose proof (Z.mod_pos_bound (Z.of_nat k) 64). lia.
Qed.

(** The contents of directory [n] become [es]; no other file changes. *)
Record dir_change n es fs f A fs' f' : Prop := {
  dc_inv : disk_inv fs' f';
  dc_shown : dirs_shown f' (dinode fs' f') (dupd A n es);
  dc_other m : 0 ≤ m < LIMNFS_MAX_INODES → m ≠ n → dinode fs' f' m = dinode fs f m;
  dc_bytes m o : 0 ≤ m < LIMNFS_MAX_INODES → 0 ≤ o < MAX_FILE_SIZE → m ≠ n →
    fbyte f' (dinode fs' f' m) o = fbyte f (dinode fs f m) o
}.

(** The same inodes in front of a changed disk. *)
Lemma fs_inv_dinode fs f I fs' f' :
  fs_inv fs' f' I → (∀ m, 0 ≤ m < LIMNFS_MAX_INODES → dinode fs' f' m = I m) → disk_inv fs' f'.
Proof.
  intros Hi Hd. apply (fs_inv_ptrs fs' f' I); [intros; by rewrite Hd|intros m Hm; rewrite Hd by done; by apply Hi|done].
Qed.

Lemma dirs_shown_dinode f I J A :
  dirs_shown f I A → (∀ m, 0 ≤ m < LIMNFS_MAX_INODES → J m = I m) → dirs_shown f J A.
Proof. intros Hs HJ m Hm. rewrite HJ by done. by apply Hs. Qed.

(** Overwriting entry [k]. *)
Lemma change_entry n (k : nat) e es buf fs f A fs2 :
  let b := bmap f (dinode fs f n) (Z.of_nat k / 64) in
  disk_inv fs f → dirs_shown f (dinode fs f) A → 0 ≤ n < LIMNFS_MAX_INODES → A n = Some es → (k < length es)%nat →
  entry_set (Z.to_nat (Z.of_nat k mod 64)) e (f b) buf → Forall is_byte buf → meta fs2 = meta fs → fs_rep fs2 f →
  ∃ fs' f', bwrite b buf fs2 = (0, fs') ∧ dir_change n (<[k := e]> es) fs f A fs' f'.
Proof.
  intros b Hi Hs Hn En Hk He Hby Hm2 Hr2. set (I := dinode fs f) in *. pose proof (Hs n Hn) as Hsn. rewrite En in Hsn.
  destruct Hsn as (Ht & Hd & Ees). pose proof (dir_total_range (I n) (fi_ino _ _ _ Hi n Hn)) as Htot.
  rewrite Ees, length_ents in Hk. assert (Hkr : 0 ≤ Z.of_nat k < dir_total (I n)) by lia.
  assert (Hb0 : b ≠ 0) by (apply fbyte_present; [apply (bs_len _ _ _ (fi_rep _ _ _ Hi))|by apply Hd]).
  destruct (bwrite_spec fs2 f b buf Hr2 (proj1 He)) as (fs3 & -> & Hm3 & Hr3).
  exists fs3, (fupd f b buf). split; [done|]. assert (Hm' : meta fs3 = meta fs) by congruence.
  destruct (store_entry n (Z.of_nat k) e buf fs f I fs3 Hi Hn ltac:(lia) Hb0 He Hby Hm' Hr3) as [(v & Hw) Hent].
  fold b in Hw, Hent. set (f3 := fupd f b buf) in *.
  assert (HJ : ∀ m, 0 ≤ m < LIMNFS_MAX_INODES → dinode fs3 f3 m = iupd I n (I n) m).
  { intros m Hm. rewrite iupd_same. by apply (wrote_dinode _ _ _ _ _ _ _ _ _ _ _ m Hw (fi_geo _ _ _ Hi)). }
  assert (Hone : ∀ i, 0 ≤ i < dir_total (I n) → is_Some (fbyte f3 (I n) (64 * i)) ∧ (i ≠ Z.of_nat k → ent f3 (I n) i = ent f (I n) i)).
  { intros i Hir. destruct (decide (i = Z.of_nat k)) as [->|Hne].
    - split; [|done]. pose proof (wr_new _ _ _ _ _ _ _ _ _ _ _ Hw (64 * Z.of_nat k) ltac:(lia)) as E. by eexists.
    - destruct (ent_wrote _ _ _ _ _ _ _ _ _ _ _ n i Hw (fi_rep _ _ _ Hi) Hn ltac:(lia) (Hd i Hir) ltac:(lia)) as [E1 E2].
      rewrite iupd_eq in E1, E2. done. }
  split.
  - apply (fs_inv_dinode fs3 f3 (iupd I n (I n))); [apply Hw|done].
  - apply (dirs_shown_dinode f3 (iupd I n (I n))); [|done].
    apply (dirs_shown_upd n fs f I fs3); try done; [intros; by eapply wrote_others|intros i Hir; by apply Hone|].
    rewrite Ees. apply list_eq. intros i. destruct (decide (i < Z.to_nat (dir_total (I n)))%nat) as [Hlt|Hge].
    2: { rewrite !lookup_ge_None_2; [done|rewrite length_ents; lia|rewrite length_insert, length_ents; lia]. }
    rewrite (ents_lookup f3) by done. destruct (decide (i = k)) as [->|Hne].
    + rewrite list_lookup_insert_eq by (rewrite length_ents; lia). by rewrite Hent.
    + rewrite list_lookup_insert_ne, ents_lookup by done. f_equal. symmetry. apply Hone; lia.
  - intros m Hm Hne. rewrite HJ by done. by rewrite iupd_same.
  - intros m o Hm Ho Hne. rewrite HJ, iupd_same by done. by eapply wrote_others.
Qed.

Lemma dir_same n es fs f A fs' :
  disk_inv fs f → dirs_shown f (dinode fs f) A → A n = Some es → meta fs' = meta fs → fs_rep fs' f →
  dir_change n es fs f A fs' f.
Proof.
  intros Hi Hs En Hm Hr. split; [by apply (disk_inv_meta fs)| |intros; by apply dinode_meta|intros; by rewrite (dinode_meta fs fs')].
  apply (dirs_shown_dinode f (dinode fs f)); [|intros; by apply dinode_meta].
  intros m Hm'. unfold dupd. case_decide; [|by apply Hs]. subst m. specialize (Hs n Hm'). by rewrite En in Hs.
Qed.

Lemma ents_buf_len fs f b : fs_rep fs f → length (f b) = 4096%nat.
Proof. intros Hr. apply (bs_len _ _ _ Hr). Qed.

Lemma limnfs_dir_remove_spec n s fs f A :
  disk_inv fs f → dirs_shown f (dinode fs f) A → 0 ≤ n < LIMNFS_MAX_INODES →
  match A n with
  | Some es => ∃ fs' f', limnfs_dir_remove n s fs = (if bool_decide (is_Some (find_idx (live_named s) es)) then 0 else -1, fs') ∧
                 dir_change n (aremove s es) fs f A fs' f'
  | None => ∃ fs', limnfs_dir_remove n s fs = (-1, fs') ∧ meta fs' = meta fs ∧ fs_rep fs' f
  end.
Proof.
  intros Hi Hs Hn. unfold limnfs_dir_remove.
  destruct (read_dir_spec n fs f A Hi Hs Hn) as (fs1 & -> & Hm1 & Hr1). destruct (A n) as [es|] eqn:En; [|by exists fs1].
  destruct (scan_ents (live_named s) (dent_named s) n fs f A es Hi Hs Hn En (dent_named_ent s) fs1 Hm1 Hr1) as (fs2 & -> & Hm2 & Hr2).
  unfold aremove. destruct (find_idx (live_named s) es) as [k|] eqn:Ek.
  - cbv zeta. pose proof (find_idx_lt _ _ _ Ek). pose proof (Z.mod_pos_bound (Z.of_nat k) 64 ltac:(lia)).
    destruct (change_entry n k (0, []) es (dent_erase (Z.to_nat (Z.of_nat k mod 64)) (f (bmap f (dinode fs f n) (Z.of_nat k / 64)))) fs f A fs2)
      as (fs3 & f3 & -> & Hc); try done.
    + apply dent_erase_set; [by apply (ents_buf_len fs2)|lia].
    + apply dent_erase_bytes, Hi.
    + by exists fs3, f3.
  - exists fs2, f. split; [done|]. by apply dir_same.
Qed.

(** Inodes with some pointers fewer. *)
Lemma fs_inv_sub fs f I J :
  fs_inv fs f I → (∀ m, 0 ≤ m < LIMNFS_MAX_INODES → inode_ok (J m)) →
  (∀ m x, 0 ≤ m < LIMNFS_MAX_INODES → at_pos f (J m) x = 0 ∨ at_pos f (J m) x = at_pos f (I m) x) → fs_inv fs f J.
Proof.
  intros [Hr Hg Hb Ho Hj Hu] Hok Hp. split; try done.
  - intros n m x y Hn Hm Hx Hy E H0. destruct (Hp n x Hn) as [?|E1]; [done|]. destruct (Hp m y Hm) as [?|E2]; [congruence|].
    rewrite E1 in E, H0. rewrite E2 in E. by apply Hj.
  - intros n x Hn Hx H0. destruct (Hp n x Hn) as [?|E1]; [done|]. rewrite E1 in *. by apply Hu.
Qed.

(** No block for the new entry: the directory stays as it was. *)
Lemma append_fails n es lo T v fs f A ino1 fs' f' :
  disk_inv fs f → dirs_shown f (dinode fs f) A → 0 ≤ n < LIMNFS_MAX_INODES → A n = Some es →
  wrote n lo lo T v fs f (dinode fs f) ino1 fs' f' →
  (∀ x, (∀ g, at_pos g (dinode fs f n) x = 0) ∨ ∀ g, at_pos g (dinode fs f n) x = at_pos g ino1 x) →
  dir_change n es fs f A fs' f'.
Proof.
  intros Hi Hs Hn En Hw Hfail. set (I := dinode fs f) in *.
  assert (HJ : ∀ m, 0 ≤ m < LIMNFS_MAX_INODES → dinode fs' f' m = I m)
    by (intros m Hm; by apply (wrote_dinode _ _ _ _ _ _ _ _ _ _ _ m Hw (fi_geo _ _ _ Hi))).
  pose proof (Hs n Hn) as Hsn. rewrite En in Hsn. destruct Hsn as (Ht & Hd & Ees).
  assert (Hbyte : ∀ o, is_Some (fbyte f (I n) o) → 0 ≤ o < MAX_FILE_SIZE → fbyte f' (I n) o = fbyte f (I n) o).
  { intros o [x Ex] Ho. pose proof (wr_same _ _ _ _ _ _ _ _ _ _ _ Hw n o Hn Ho ltac:(lia)) as E. rewrite iupd_eq, Ex in E.
    assert (E' : fbyte f' ino1 o = Some x) by (rewrite E; by destruct (_ && _)). rewrite Ex, <- E'.
    unfold fbyte, bmap in *. destruct (Hfail (lpos (o / 4096))) as [H0|H1]; [by rewrite H0 in Ex|by rewrite H1]. }
  destruct (dir_frame fs f fs' f' (I n)) as [Hd' He']; try done; [apply Hi|apply Hw|by apply Hi|intros; by apply Hbyte|].
  split.
  - apply (fs_inv_dinode fs' f' I); [|done]. apply (fs_inv_sub fs' f' (iupd I n ino1)); [apply Hw|apply Hi|].
    intros m x Hm. destruct (decide (m = n)) as [->|]; [rewrite iupd_eq|right; by rewrite iupd_ne].
    destruct (Hfail x) as [H0|H1]; [left; apply H0|right; apply H1].
  - apply (dirs_shown_dinode f' (iupd I n (I n))); [|intros; rewrite iupd_same; by apply HJ].
    apply (dirs_shown_upd n fs f I fs'); try done; [apply Hw|intros; by eapply wrote_others|congruence].
  - intros m Hm Hne. by apply HJ.
  - intros m o Hm Ho Hne. rewrite HJ by done. by eapply wrote_others.
Qed.

(** The new entry is in its block: the inode with the new size is written. *)
Lemma append_commits n es e T v fs f A ino1 fs4 f4 :
  let total := dir_total (dinode fs f n) in
  let ino2 := ino1 <| in_size := u32 ((total + 1) * 64) |> in
  disk_inv fs f → dirs_shown f (dinode fs f) A → 0 ≤ n < LIMNFS_MAX_INODES → A n = Some es → total + 1 < 2 ^ 26 →
  wrote n (64 * total) (64 * total + 64) T v fs f (dinode fs f) ino1 fs4 f4 → ent f4 ino1 total = e →
  ∃ fs' f', limnfs_write_inode n ino2 fs4 = (0, fs') ∧ dir_change n (es ++ [e]) fs f A fs' f'.
Proof.
  intros total ino2 Hi Hs Hn En Htot Hw He. set (I := dinode fs f) in *.
  pose proof (Hs n Hn) as Hsn. rewrite En in Hsn. destruct Hsn as (Ht & Hd & Ees).
  pose proof (dir_total_range (I n) (fi_ino _ _ _ Hi n Hn)) as Ht0. fold total in Ht0.
  pose proof (fi_ino _ _ _ (wr_inv _ _ _ _ _ _ _ _ _ _ _ Hw) n Hn) as Hok1. rewrite iupd_eq in Hok1.
  pose proof (wr_attrs _ _ _ _ _ _ _ _ _ _ _ Hw) as (Ht1 & _).
  assert (Hok2 : inode_ok ino2) by (destruct Hok1; constructor; try done; apply u32_range).
  assert (Hsz : dir_total ino2 = total + 1).
  { change (u32 ((total + 1) * 64) / 64 = total + 1). rewrite u32_id, Z.div_mul by lia. done. }
  assert (Hdin : ∀ m, 0 ≤ m < LIMNFS_MAX_INODES → m ≠ n → dinode fs4 f4 m = I m)
    by (intros m Hm _; by apply (wrote_dinode _ _ _ _ _ _ _ _ _ _ _ m Hw (fi_geo _ _ _ Hi))).
  destruct (commit_inode fs4 f4 I n ino1 ino2 (wr_inv _ _ _ _ _ _ _ _ _ _ _ Hw) Hn Hok2 Hdin)
    as (fs5 & f5 & -> & Hi5 & Hm5 & Hd5 & Ho5 & Hf5 & Hb5 & _); [intros g x; apply at_pos_size|].
  exists fs5, f5. split; [done|].
  assert (Hent : ∀ i, 0 ≤ i ≤ total → is_Some (fbyte f5 ino2 (64 * i)) ∧ ent f5 ino2 i = if decide (i = total) then e else ent f (I n) i).
  { intros i Hir. assert (Hs4 : is_Some (fbyte f4 ino1 (64 * i)) ∧ ent f4 ino1 i = if decide (i = total) then e else ent f (I n) i).
    { case_decide as Eit.
      - subst i. split; [|done]. pose proof (wr_new _ _ _ _ _ _ _ _ _ _ _ Hw (64 * total) ltac:(lia)) as E. by eexists.
      - destruct (ent_wrote _ _ _ _ _ _ _ _ _ _ _ n i Hw (fi_rep _ _ _ Hi) Hn ltac:(lia) (Hd i ltac:(lia)) ltac:(lia)) as [E1 E2].
        rewrite iupd_eq in E1, E2. done. }
    assert (Hb : ∀ o, 0 ≤ o < MAX_FILE_SIZE → fbyte f5 ino2 o = fbyte f4 ino1 o).
    { intros o Ho. rewrite <- Hd5, (Hb5 n o Hn Ho). by rewrite iupd_eq. }
    destruct Hs4 as [Hs4 <-]. split; [by rewrite Hb by lia|]. unfold ent. f_equal.
    apply (ent_bytes_frame fs4 fs5); [apply Hw|apply Hi5|lia|done|]. intros o Ho. apply Hb. lia. }
  assert (HJ : ∀ m, 0 ≤ m < LIMNFS_MAX_INODES → dinode fs5 f5 m = iupd I n ino2 m).
  { intros m Hm. destruct (decide (m = n)) as [->|]; [by rewrite iupd_eq|rewrite iupd_ne by done; by apply Ho5]. }
  split; [done| |done|].
  - apply (dirs_shown_dinode f5 (iupd I n ino2)); [|done].
    apply (dirs_shown_upd n fs f I fs5); try done; [apply Hi5| |change (in_type ino1 = 2); congruence|intros i Hir; apply Hent; lia|].
    { intros m o Hm Ho Hne. pose proof (Hb5 m o Hm Ho) as E. rewrite Ho5, iupd_ne in E by done. rewrite E.
      exact (wrote_others _ _ _ _ _ _ _ _ _ _ _ m o Hw Hm Ho Hne). }
    apply list_eq. intros i. destruct (decide (i ≤ Z.to_nat total)%nat) as [Hle|Hgt].
    2: { rewrite !lookup_ge_None_2; [done|rewrite length_ents; lia|].
         rewrite Ees, length_app, length_ents. fold total. simpl. lia. }
    rewrite (ents_lookup f5) by lia. destruct (Hent (Z.of_nat i) ltac:(lia)) as [_ ->]. case_decide.
    + rewrite lookup_app_r; rewrite Ees, length_ents; fold total; [|lia]. by replace (i - Z.to_nat total)%nat with 0%nat by lia.
    + rewrite lookup_app_l by (rewrite Ees, length_ents; fold total; lia). rewrite Ees, ents_lookup by (fold total; lia). done.
  - intros m o Hm Ho Hne. rewrite (Hb5 m o Hm Ho), iupd_ne by done.
    exact (wrote_others _ _ _ _ _ _ _ _ _ _ _ m o Hw Hm Ho Hne).
Qed.

(** Reads before a write do not matter. *)
Lemma wrote_meta n lo hi T v fs f I fs1 ino' fs' f' :
  meta fs1 = meta fs → wrote n lo hi T v fs1 f I ino' fs' f' → wrote n lo hi T v fs f I ino' fs' f'.
Proof.
  intros Hm [? ? ? ? ? ? Hleak]. pose proof (same_layout_meta fs fs1 Hm) as Hl. split; try done.
  - by etrans.
  - by rewrite <- (proj1 (proj2 Hl)).
  - intros Hk. apply Hleak. intros c Hc. by apply Hk, (used_meta fs fs1 c Hm).
Qed.

(** The new entry goes to the first block after the last entry, which may need
    a block. *)
Lemma dir_append_spec n es s child ty fs f A fs1 :
  let dir := dinode fs f n in
  let total := dir_total dir in
  let len := Z.of_nat (length (c_str s)) in
  disk_inv fs f → dirs_shown f (dinode fs f) A → 0 ≤ n < LIMNFS_MAX_INODES → A n = Some es →
  0 ≤ child < 2 ^ 32 → len ≤ 57 → Forall is_byte s → total + 1 < 2 ^ 26 → meta fs1 = meta fs → fs_rep fs1 f →
  ∃ r fs' f', dir_append n dir s child ty fs1 = (r, fs') ∧
    (r = 0 ∧ dir_change n (es ++ [(child, c_str s)]) fs f A fs' f' ∨ r = -1 ∧ nearly_full fs' ∧ dir_change n es fs f A fs' f').
Proof.
  intros dir total len Hi Hs Hn En Hc Hlen Hby Htot Hm1 Hr1. unfold dir_append. fold len total. cbv zeta.
  set (I := dinode fs f) in *. pose proof (dir_total_range dir (fi_ino _ _ _ Hi n Hn)) as Ht0. fold total in Ht0.
  assert (Hlb : 0 ≤ total / 64 < MAX_FILE_BLOCKS) by (split; [apply Z.div_pos; lia|apply Z.div_lt_upper_bound; lia]).
  pose proof (fs_inv_meta _ _ _ _ Hi Hm1 Hr1) as Hi1. subst dir.
  destruct (ensure_block n (64 * total) (λ _, 0) fs1 f I (total / 64) Hi1 Hn Hlb) as (b & ino1 & fs2 & f2 & E & Hb & Hfail & Hw2).
  rewrite E. apply (wrote_meta _ _ _ _ _ fs) in Hw2; [|done]. destruct (b =? 0) eqn:E0; bool_hyps.
  { destruct (Hfail E0) as [Hfull Hx]. exists (-1), fs2, f2. split; [done|]. right. split_and!; [done..|].
    by apply (append_fails n es _ _ _ _ _ _ ino1 _ _ Hi Hs Hn En Hw2). }
  pose proof (wr_inv _ _ _ _ _ _ _ _ _ _ _ Hw2) as Hi2. set (I1 := iupd I n ino1) in *.
  assert (EI : I1 n = ino1) by apply iupd_eq. pose proof (Z.mod_pos_bound total 64 ltac:(lia)) as Hmod.
  destruct (bread_spec fs2 f2 b (fi_rep _ _ _ Hi2)) as (fs3 & -> & Hm3 & Hr3 & _). cbn [negb Z.eqb].
  set (buf := dent_put _ _ _ _ _ _).
  assert (He : entry_set (Z.to_nat (total mod 64)) (child, c_str s) (f2 b) buf).
  { rewrite <- (take_ge (c_str s) 57) by lia. apply dent_put_set; [by apply (ents_buf_len fs3)|lia|done]. }
  assert (Hbb : Forall is_byte buf) by (apply dent_put_bytes; [apply Hi2|done]).
  destruct (bwrite_spec fs3 f2 b buf Hr3 (proj1 He)) as (fs4 & -> & Hm4 & Hr4). cbn [negb Z.eqb].
  assert (Eb : b = bmap f2 (I1 n) (total / 64)) by congruence. rewrite Eb in He, Hr4.
  destruct (store_entry n total (child, c_str s) buf fs2 f2 I1 fs4 Hi2 Hn Ht0 ltac:(congruence) He Hbb ltac:(congruence) Hr4)
    as [(v & Hw3) Hent].
  rewrite EI in *. rewrite <- Hb in *.
  eapply (wrote_ext _ _ _ _ _ _ v) in Hw2; [|reflexivity|lia].
  pose proof (wrote_trans n (64 * total) (64 * total) (64 * total + 64) _ _ v fs f I ino1 fs2 f2 ino1 fs4 _
    ltac:(lia) ltac:(lia) ltac:(lia) Hn Hw2 Hw3) as Hw.
  destruct (append_commits n es (child, c_str s) _ v fs f A ino1 fs4 _ Hi Hs Hn En Htot Hw Hent) as (fs5 & f5 & Ew & Hch).
  exists 0, fs5, f5. split; [|by left]. fold I total in Ew. by rewrite Ew.
Qed.

Lemma limnfs_dir_add_spec n s child ty fs f A :
  let len := Z.of_nat (length (c_str s)) in
  disk_inv fs f → dirs_shown f (dinode fs f) A → 0 ≤ n < LIMNFS_MAX_INODES → 0 ≤ child < 2 ^ 32 → Forall is_byte s →
  (∀ es, A n = Some es → Z.of_nat (length es) + 1 < 2 ^ 26) →
  ∃ r fs' f', limnfs_dir_add n s child ty fs = (r, fs') ∧
    match A n with
    | Some es =>
        if bool_decide (1 ≤ len ≤ 57) then
          r = 0 ∧ dir_change n (aadd s child es) fs f A fs' f' ∨
          r = -1 ∧ find_idx erased es = None ∧ nearly_full fs' ∧ dir_change n es fs f A fs' f'
        else r = -1 ∧ dir_change n es fs f A fs' f'
    | None => r = -1 ∧ f' = f ∧ meta fs' = meta fs ∧ fs_rep fs' f
    end.
Proof.
  intros len Hi Hs Hn Hc Hby Hmax. unfold limnfs_dir_add. fold len. cbv zeta.
  destruct (read_dir_spec n fs f A Hi Hs Hn) as (fs1 & -> & Hm1 & Hr1). destruct (A n) as [es|] eqn:En; [|by exists (-1), fs1, f].
  replace ((len =? 0) || (57 <? len)) with (negb (bool_decide (1 ≤ len ≤ 57))) by (case_bool_decide; lia).
  case_bool_decide as Hlen; cbn [negb]; [|exists (-1), fs1, f; split_and!; try done; by apply dir_same].
  destruct (scan_ents erased dent_free n fs f A es Hi Hs Hn En dent_free_ent fs1 Hm1 Hr1) as (fs2 & -> & Hm2 & Hr2).
  unfold aadd. destruct (find_idx erased es) as [k|] eqn:Ek.
  - pose proof (find_idx_lt _ _ _ Ek) as Hk. pose proof (Z.mod_pos_bound (Z.of_nat k) 64 ltac:(lia)). set (buf := dent_put _ _ _ _ _ _).
    destruct (change_entry n k (child, c_str s) es buf fs f A fs2) as (fs3 & f3 & -> & Hch); try done.
    + rewrite <- (take_ge (c_str s) 57) by lia. apply dent_put_set; [by apply (ents_buf_len fs2)|lia|done].
    + apply dent_put_bytes; [apply Hi|done].
    + exists 0, fs3, f3. split; [done|]. by left.
  - specialize (Hmax es eq_refl). pose proof (Hs n Hn) as Hsn. rewrite En in Hsn. destruct Hsn as (_ & _ & Ees).
    rewrite Ees, length_ents in Hmax. pose proof (dir_total_range _ (fi_ino _ _ _ Hi n Hn)).
    destruct (dir_append_spec n es s child ty fs f A fs2 Hi Hs Hn En Hc ltac:(lia) Hby ltac:(lia) Hm2 Hr2) as (r & fs3 & f3 & -> & Hor).
    exists r, fs3, f3. split; [done|]. destruct Hor as [[-> Hch]|(-> & Hf & Hch)]; [by left|by right].
Qed.

(** Enumeration: the [index]-th of the live entries. *)
Definition live (e : entry) : Prop := e.1 ≠ 0.
Instance live_dec e : Decision (live e).
Proof. unfold live. apply _. Defined.

Lemma iter_block_spec idxs index buf : ∀ seen,
  seen ≤ index →
  let l := filter (λ i, live (ent_of (slice (64 * i) 64 buf))) idxs in
  iter_block idxs index buf seen =
    match l !! Z.to_nat (index - seen) with Some i => inl i | None => inr (seen + Z.of_nat (length l)) end.
Proof.
  induction idxs as [|i idxs IH]; intros seen Hs l; cbn [iter_block]; [subst l; cbn; by rewrite Z.add_0_r|].
  subst l. rewrite dent_inode_ent. destruct (_ =? 0) eqn:E; bool_hyps.
  - rewrite IH by done. rewrite filter_cons_False; [done|]. intros H. by apply H.
  - rewrite filter_cons_True by done. destruct (seen =? index) eqn:E'; bool_hyps.
    + subst. by rewrite Z.sub_diag.
    + rewrite IH by lia. replace (Z.to_nat (index - seen)) with (S (Z.to_nat (index - (seen + 1)))) by lia.
      cbn [lookup list_lookup length]. destruct (_ !! _); [done|]. f_equal. lia.
Qed.

Lemma filter_fmap_comp {X Y} (P : Y → Prop) `{!∀ y, Decision (P y)} (g : X → Y) (l : list X) :
  filter P (g <$> l) = g <$> filter (λ x, P (g x)) l.
Proof.
  induction l as [|x l IH]; [done|]. rewrite fmap_cons. destruct (decide (P (g x))).
  - rewrite !filter_cons_True, fmap_cons by done. by rewrite IH.
  - rewrite !filter_cons_False by done. done.
Qed.

Lemma iter_loop_spec ino total index fuel : ∀ lb seen fs f,
  fs_rep fs f → 0 ≤ lb → total < 2 ^ 26 → total ≤ 64 * (lb + Z.of_nat fuel) → seen ≤ index →
  (∀ i, 0 ≤ i < total → bmap f ino (i / 64) ≠ 0) →
  ∃ r fs', iter_loop fuel ino index total lb seen fs = (r, fs') ∧ meta fs' = meta fs ∧ fs_rep fs' f ∧
    ent_of <$> r = filter live ((λ i, ent f ino (Z.of_nat i)) <$> seq (Z.to_nat (64 * lb)) (Z.to_nat (total - 64 * lb)))
                     !! Z.to_nat (index - seen).
Proof.
  induction fuel as [|fuel IH]; intros lb seen fs f Hr Hlb Hmax Hfuel Hseen Hb; cbn [iter_loop].
  { replace (Z.to_nat (total - 64 * lb)) with 0%nat by lia. by exists None, fs. }
  destruct (lb * 64 <? total) eqn:E; bool_hyps.
  2: { replace (Z.to_nat (total - 64 * lb)) with 0%nat by lia. by exists None, fs. }
  assert (Hpos : bmap f ino lb ≠ 0).
  { specialize (Hb (64 * lb) ltac:(lia)). by rewrite Z.mul_comm, Z.div_mul in Hb by lia. }
  destruct (get_file_block_spec ino lb fs f Hr ltac:(lia)) as (fs1 & -> & Hm1 & Hr1 & _).
  rewrite (proj2 (Z.eqb_neq _ 0)) by done.
  destruct (bread_spec fs1 f (bmap f ino lb) Hr1) as (fs2 & -> & Hm2 & Hr2 & _). cbn [negb Z.eqb].
  set (c := Z.to_nat (Z.min 64 (total - lb * 64))). set (rest := Z.to_nat (total - 64 * (lb + 1))).
  replace (Z.to_nat (total - 64 * lb)) with (c + rest)%nat by lia.
  rewrite seq_app, fmap_app, filter_app, block_ents by lia. rewrite iter_block_spec by done.
  rewrite (filter_fmap_comp live).
  set (l := filter _ (seq 0 c)). destruct (l !! Z.to_nat (index - seen)) as [i|] eqn:Ei.
  - exists (Some (slice (64 * i) 64 (f (bmap f ino lb)))), fs2. split_and!; [done|congruence|done|].
    rewrite lookup_app_l by (rewrite length_fmap; by eapply lookup_lt_Some). by rewrite list_lookup_fmap, Ei.
  - apply lookup_ge_None in Ei.
    destruct (IH (lb + 1) (seen + Z.of_nat (length l)) fs2 f) as (r & fs3 & -> & Hm3 & Hr3 & Er); try done; [lia..|].
    exists r, fs3. split_and!; [done|congruence|done|]. rewrite Er. fold rest.
    rewrite lookup_app_r by (by rewrite length_fmap). rewrite length_fmap.
    replace (Z.to_nat (index - (seen + Z.of_nat (length l)))) with (Z.to_nat (index - seen) - length l)%nat by lia.
    destruct (decide (rest = 0%nat)) as [->|Hne]; [done|]. replace (Z.to_nat (64 * lb) + c)%nat with (Z.to_nat (64 * (lb + 1))) by lia. done.
Qed.

Lemma limnfs_dir_iter_spec n index fs f A :
  disk_inv fs f → dirs_shown f (dinode fs f) A → 0 ≤ n < LIMNFS_MAX_INODES → 0 ≤ index →
  ∃ r fs', limnfs_dir_iter n index fs = (r, fs') ∧ meta fs' = meta fs ∧ fs_rep fs' f ∧
    ent_of <$> r = match A n with Some es => filter live es !! Z.to_nat index | None => None end.
Proof.
  intros Hi Hs Hn Hx. unfold limnfs_dir_iter. pose proof (dir_total_range _ (fi_ino _ _ _ Hi n Hn)) as Htot.
  destruct (read_dir_spec n fs f A Hi Hs Hn) as (fs1 & -> & Hm1 & Hr1). destruct (A n) as [es|] eqn:En; [|by exists None, fs1].
  specialize (Hs n Hn). rewrite En in Hs. destruct Hs as (_ & Hd & ->).
  destruct (iter_loop_spec (dinode fs f n) (dir_total (dinode fs f n)) index (dir_fuel (dir_total (dinode fs f n))) 0 0 fs1 f)
    as (r & fs2 & -> & Hm2 & Hr2 & Er); try done; [lia| | |].
  - apply dir_fuel_enough, Htot.
  - intros i Hir. apply fbyte_present; [apply (bs_len _ _ _ Hr1)|by apply Hd].
  - exists r, fs2. split_and!; [done|congruence|done|]. rewrite Er, Z.mul_0_r, !Z.sub_0_r. done.
Qed.

(** ** Sequences of operations *)

Inductive dop : Type :=
| DLookup (n : Z) (s : list Z)
| DAdd (n : Z) (s : list Z) (child ty : Z)
| DRemove (n : Z) (s : list Z)
| DIter (n index : Z).

Definition dop_ok (o : dop) : Prop :=
  match o with
  | DLookup n _ | DRemove n _ => 0 ≤ n < LIMNFS_MAX_INODES
  | DAdd n s child _ => 0 ≤ n < LIMNFS_MAX_INODES ∧ 0 ≤ child < 2 ^ 32 ∧ Forall is_byte s
  | DIter n index => 0 ≤ n < LIMNFS_MAX_INODES ∧ 0 ≤ index
  end.

(** What an operation returns: a number or an entry. *)
Definition dres : Type := (Z + option entry).

Definition dstep (o : dop) fs : dres * lfs_st St :=
  match o with
  | DLookup n s => let '(r, fs) := limnfs_dir_lookup n s fs in (inl r, fs)
  | DAdd n s child ty => let '(r, fs) := limnfs_dir_add n s child ty fs in (inl r, fs)
  | DRemove n s => let '(r, fs) := limnfs_dir_remove n s fs in (inl r, fs)
  | DIter n index => let '(r, fs) := limnfs_dir_iter n index fs in (inr (ent_of <$> r), fs)
  end.

(** The same on lists of entries; only adding at the end of a directory can
    fail for want of room ([full]). *)
Definition astep (o : dop) (full : Prop) A (r : dres) (A' : Z → option (list entry)) : Prop :=
  match o with
  | DLookup n s => r = inl (match A n with Some es => alookup s es | None => -1 end) ∧ A' = A
  | DAdd n s child _ =>
      match A n with
      | Some es =>
          if bool_decide (1 ≤ length (c_str s) ≤ 57)%nat then
            r = inl 0 ∧ A' = dupd A n (aadd s child es) ∨
            r = inl (-1) ∧ find_idx erased es = None ∧ full ∧ A' = dupd A n es
          else r = inl (-1) ∧ A' = dupd A n es
      | None => r = inl (-1) ∧ A' = A
      end
  | DRemove n s =>
      match A n with
      | Some es => r = inl (if bool_decide (is_Some (find_idx (live_named s) es)) then 0 else -1) ∧ A' = dupd A n (aremove s es)
      | None => r = inl (-1) ∧ A' = A
      end
  | DIter n index => r = inr (match A n with Some es => filter live es !! Z.to_nat index | None => None end) ∧ A' = A
  end.

(** Every step of the disk is a step of the lists. *)
Fixpoint dobeys A (ops : list dop) fs : Prop :=
  match ops with
  | [] => True
  | o :: ops => let '(r, fs') := dstep o fs in ∃ A', astep o (nearly_full fs') A r A' ∧ dobeys A' ops fs'
  end.

(** The disk holds the directories [A]. *)
Definition holds fs A : Prop := ∃ f, disk_inv fs f ∧ dirs_shown f (dinode fs f) A.

Lemma holds_meta fs f fs' A :
  disk_inv fs f → dirs_shown f (dinode fs f) A → meta fs' = meta fs → fs_rep fs' f → holds fs' A.
Proof.
  intros Hi Hs Hm Hr. exists f. split; [by apply (disk_inv_meta fs)|].
  apply (dirs_shown_dinode f (dinode fs f)); [done|]. intros. by apply dinode_meta.
Qed.

Lemma holds_change n es fs f A fs' f' : dir_change n es fs f A fs' f' → holds fs' (dupd A n es).
Proof. intros []. by exists f'. Qed.

Lemma dstep_refines o fs A :
  holds fs A → dop_ok o → (∀ n es, A n = Some es → Z.of_nat (length es) + 1 < 2 ^ 26) →
  ∃ r fs' A', dstep o fs = (r, fs') ∧ astep o (nearly_full fs') A r A' ∧ holds fs' A'.
Proof.
  intros (f & Hi & Hs) Ho Hmax. destruct o as [n s|n s child ty|n s|n index]; cbn [dop_ok dstep astep] in *.
  - destruct (limnfs_dir_lookup_spec n s fs f A Hi Hs Ho) as (fs' & -> & Hm & Hr).
    eexists _, fs', A. split_and!; [done..|]. by apply (holds_meta fs f).
  - destruct Ho as (Hn & Hc & Hby).
    destruct (limnfs_dir_add_spec n s child ty fs f A Hi Hs Hn Hc Hby (Hmax n)) as (r & fs' & f' & -> & Hr).
    exists (inl r), fs'. destruct (A n) as [es|]; [|destruct Hr as (-> & -> & Hm & Hr); exists A; split_and!; [done..|by apply (holds_meta fs f)]].
    rewrite (bool_decide_ext _ (1 ≤ Z.of_nat (length (c_str s)) ≤ 57)) by lia. case_bool_decide.
    + destruct Hr as [[-> Hd]|(-> & Hf & Hfull & Hd)]; apply holds_change in Hd; eexists; (split_and!; [done| |done]); [by left|by right].
    + destruct Hr as [-> Hd%holds_change]. by eexists.
  - pose proof (limnfs_dir_remove_spec n s fs f A Hi Hs Ho) as Hr. destruct (A n) as [es|].
    + destruct Hr as (fs' & f' & -> & Hd%holds_change). by eexists _, fs', _.
    + destruct Hr as (fs' & -> & Hm & Hr). eexists _, fs', A. split_and!; [done..|]. by apply (holds_meta fs f).
  - destruct Ho as [Hn Hx]. destruct (limnfs_dir_iter_spec n index fs f A Hi Hs Hn Hx) as (r & fs' & -> & Hm & Hr & ->).
    eexists _, fs', A. split_and!; [done..|]. by apply (holds_meta fs f).
Qed.

(** A step adds at most one entry. *)
Lemma astep_length o full A r A' b :
  astep o full A r A' → (∀ n es, A n = Some es → Z.of_nat (length es) + 1 < b) →
  ∀ n es, A' n = Some es → Z.of_nat (length es) < b.
Proof.
  intros Ha HA.
  assert (Hupd : ∀ m es1 es, A m = Some es → Z.of_nat (length es1) ≤ Z.of_nat (length es) + 1 → A' = dupd A m es1 →
            ∀ n es, A' n = Some es → Z.of_nat (length es) < b).
  { intros m es1 es Em Hl -> n es'. unfold dupd. case_decide; [intros [= <-]; specialize (HA m es Em); lia|].
    intros En. specialize (HA n es' En). lia. }
  assert (Hsame : A' = A → ∀ n es, A' n = Some es → Z.of_nat (length es) < b)
    by (intros -> n es En; specialize (HA n es En); lia).
  destruct o as [m s|m s child ty|m s|m index]; cbn [astep] in Ha; [by exact (Hsame (proj2 Ha))|..|by exact (Hsame (proj2 Ha))].
  - destruct (A m) as [es|] eqn:Em; [|by exact (Hsame (proj2 Ha))]. case_bool_decide.
    + destruct Ha as [[_ E]|(_ & _ & _ & E)]; refine (Hupd m _ es Em _ E); [|lia].
      unfold aadd. destruct (find_idx _ _); [rewrite length_insert; lia|rewrite length_app; cbn [length]; lia].
    + destruct Ha as [_ E]. refine (Hupd m _ es Em _ E). lia.
  - destruct (A m) as [es|] eqn:Em; [|exact (Hsame (proj2 Ha))]. destruct Ha as [_ E]. refine (Hupd m _ es Em _ E).
    unfold aremove. destruct (find_idx _ _); [rewrite length_insert|]; lia.
Qed.

(** C16.  Directory operations, in any order and on any directories, behave like
    lists of entries: lookup finds the first live entry of the name, add takes the
    first erased entry or a new one at the end, remove erases the first live entry
    of the name, and enumeration returns the live entries in order.  Adding fails
    only for names of no or of more than 57 characters, or, when no entry is
    erased, with at most one data block of the disk free.  The directories stay
    below 2^26 entries, the number at which their size reaches 2^32 bytes. *)
Theorem lfs_dirs_refine ops : ∀ fs A,
  holds fs A → Forall dop_ok ops →
  (∀ n es, A n = Some es → Z.of_nat (length es) + Z.of_nat (length ops) < 2 ^ 26) → dobeys A ops fs.
Proof.
  induction ops as [|o ops IH]; intros fs A Hh Hok Hmax; [done|]. cbn [dobeys]. apply Forall_cons in Hok as [Ho Hok].
  destruct (dstep_refines o fs A Hh Ho) as (r & fs' & A' & -> & Ha & Hh').
  { intros n es En. specialize (Hmax n es En). cbn [length] in Hmax. lia. }
  exists A'. split; [done|]. apply IH; [done..|].
  intros n es En. assert (Z.of_nat (length es) < 2 ^ 26 - Z.of_nat (length ops)); [|lia].
  apply (astep_length o _ A r A' _ Ha) with n; [|done]. intros m es' Em. specialize (Hmax m es' Em). cbn [length] in Hmax. lia.
Qed.

End dir.

(** Names added to the root directory of a fresh disk, one of them removed and its
    entry taken again. *)
Definition sample_dops : list dop :=
  [DAdd 0 [97; 0] 1 1; DAdd 0 [98; 0] 2 1; DRemove 0 [97; 0]; DAdd 0 [99; 0] 3 1; DLookup 0 [99; 0]; DIter 0 1; DLookup 1 [97; 0]].

Definition root_only : Z → option (list entry) := λ n, if decide (n = 0) then Some [] else None.

Lemma disk100_holds : holds disk100 root_only.
Proof.
  destruct disk100_formatted as (f & Hi & _ & _ & _ & _ & H0 & Hz & _). exists f. split; [done|].
  intros m Hm. unfold root_only. case_decide as E.
  - subst m. rewrite H0. split_and!; [done| |done]. intros i Hir. change (dir_total root_inode) with 0 in Hir. lia.
  - rewrite Hz by lia. done.
Qed.

Lemma lfs_dirs_refine_witness : dobeys root_only sample_dops disk100.
Proof.
  apply lfs_dirs_refine; [exact disk100_holds| |].
  - repeat constructor; try done; unfold is_byte; lia.
  - intros n es. unfold root_only. case_decide; [intros [= <-]; cbn [length sample_dops]; lia|done].
Defined.
