(* ===== verification/LfsCache.v ===== *)
(** * LfsCache: the file system over the block cache

    The theorems about files are instantiated with the cache of [BCache] over a
    device that works.  After a flush every read is right, however long.  The
    last section shows the two places where [limnfs_read_data] trusts what it
    has not checked: long reads go to the device past blocks that are dirty in
    the cache, and the sequential path samples four blocks only. *)

From S2P Require Import Prelude KUtil Mem Bytes Bitmap Dll BCache BlockStore LimnFS LfsAlloc LfsTree LfsMap LfsFormat LfsData.

Section cached.
Context {D : Type} `{!BlkDev D}.
Context (reads_ok : ∀ n (d : D), (blk_read_multi n d).1.1 = 0)
        (writes_ok : ∀ n buf (d : D), (blk_write_multi n buf d).1 = 0).

#[local] Instance cached_store : BlockStore (bcache_st * D) := bcache_store reads_ok writes_ok.
Implicit Types (fs : lfs_st (bcache_st * D)).

(** [bcache_flush]. *)
Definition flush_cache fs : lfs_st (bcache_st * D) :=
  fs <| lfs_store := bcache_flush (lfs_store fs).1 (lfs_store fs).2 |>.

Lemma store_fields fs (s : bcache_st * D) f :
  bc_ok s.1 s.2 f ∧ (∀ b, blk_block s.2 b = f b) →
  fs_rep (fs <| lfs_store := s |>) f ∧ clean (fs <| lfs_store := s |>) f.
Proof. done. Qed.

Lemma flush_cache_clean fs f : fs_rep fs f → fs_rep (flush_cache fs) f ∧ clean (flush_cache fs) f.
Proof.
  intros Hr. apply store_fields. pose proof (bcache_flush_spec writes_ok _ _ f Hr) as Hf.
  destruct (bcache_flush (lfs_store fs).1 (lfs_store fs).2) as [st' d']. exact Hf.
Qed.

(** After a flush of the cache a read of any length returns the bytes of the
    file below its size up to the first hole, provided that the blocks of a read
    of 32 KB or more follow each other on the disk when the four sampled ones
    do. *)
Theorem limnfs_read_after_flush fs f n off len :
  let ino := dinode fs f n in
  let len' := Z.min len (in_size ino - off) in
  disk_inv fs f → 0 ≤ n < LIMNFS_MAX_INODES → 0 ≤ off → 0 ≤ len →
  (32768 ≤ len' → sampled f (dinode fs f) n (first_lb off) (span off len') →
   contiguous f (dinode fs f) n (first_lb off) (span off len')) →
  ∃ fs', limnfs_read_data n off len (flush_cache fs) = (Some (fread f ino (Z.to_nat len') off), fs') ∧ disk_inv fs' f.
Proof.
  intros ino len' Hi Hn Hoff Hlen Hseq. destruct (flush_cache_clean fs f (fi_rep _ _ _ Hi)) as [Hr Hc].
  assert (Hi' : disk_inv (flush_cache fs) f) by (by apply (disk_inv_meta fs)).
  destruct (limnfs_read_data_spec n off len (flush_cache fs) f Hi' Hn Hoff Hlen (or_introl Hc)) as (fs' & E & Hm & Hr' & _).
  { rewrite (dinode_meta fs (flush_cache fs)) by done. exact Hseq. }
  exists fs'. rewrite (dinode_meta fs (flush_cache fs)) in E by done. split; [done|by apply (disk_inv_meta (flush_cache fs))].
Qed.
End cached.

(** ** A cached disk *)

Abbreviation logdev := (list (Z * list Z)).

Lemma log_reads n (d : logdev) : (blk_read_multi n d).1.1 = 0.
Proof. done. Qed.
Lemma log_writes n buf (d : logdev) : (blk_write_multi n buf d).1 = 0.
Proof. done. Qed.

#[export] Instance log_store : BlockStore (bcache_st * logdev) := cached_store log_reads log_writes.

(** A disk of [t] blocks, formatted through an empty cache. *)
Definition cached_disk (t : Z) : lfs_st (bcache_st * logdev) := (limnfs_format true t (blank (bcache_init bcache_zero, []))).2.

Lemma cached_disk_formatted t : 0 ≤ t < 2 ^ 32 - 8 → ∃ f, formatted t (cached_disk t) f.
Proof.
  intros Ht. destruct (limnfs_format_spec t (blank (bcache_init bcache_zero, [] : logdev)) (blk_block ([] : logdev)))
    as (fs' & f' & E & Hf); [done|rewrite blank_hint; lia| | |].
  - unfold fs_rep. rewrite blank_store. apply bcache_zero_ok.
  - intros b. apply zero_block_bytes.
  - exists f'. unfold cached_disk. by rewrite E.
Qed.

Lemma limnfs_read_after_flush_witness :
  ∃ fs', limnfs_read_data 0 0 100 (flush_cache (cached_disk 100)) = (Some [], fs').
Proof.
  destruct (cached_disk_formatted 100 ltac:(lia)) as (f & Hi & _ & _ & _ & _ & Hd & _).
  destruct (limnfs_read_after_flush log_reads log_writes (cached_disk 100) f 0 0 100 Hi) as (fs' & E & _);
    [lia..|rewrite Hd; cbn; lia|].
  exists fs'. etrans; [exact E|]. by rewrite Hd.
Defined.

(** ** Reads past the cache *)

(** A mounted disk of 100 blocks with nothing in the cache, and a file of two
    blocks that has just been written. *)
Definition mounted100 : lfs_st (bcache_st * logdev) :=
  mk_lfs true (lfs_super disk100) (lfs_block_bitmap disk100) (lfs_block_bitmap_bytes disk100) (lfs_inode_bitmap disk100) 0
    (bcache_init bcache_zero, []).
Definition two_blocks (v : Z) : list Z := let b := replicate 4096 v in b ++ b.

(** The bytes written are in the cache and not yet on the device, which a read
    of two whole blocks asks: it answers the old contents. *)
Definition stale_read : Z * option (list Z) :=
  let '(w, fs) := limnfs_write_data 1 0 (two_blocks 7) mounted100 in (w, (limnfs_read_data 1 0 8192 fs).1).

(** A read of two blocks or more does not see what was just written: the
    bulk request goes to the device, where the dirty blocks of the cache have not
    arrived yet. *)
Theorem bulk_read_stale : stale_read.1 = 8192 ∧ stale_read.2 = Some (two_blocks 0).
Proof. split; apply (bool_decide_unpack _); by vm_compute. Qed.

(** Two files written so that the fourth block of the first one lies elsewhere,
    while the sampled blocks 1, 2, 4 and 8 are in sequence. *)
Definition blocks (k : nat) (v : Z) : list Z := mjoin (replicate k (replicate 4096 v)).
Definition interleaved : lfs_st (gmap Z (list Z)) :=
  let fs := (limnfs_write_data 1 0 (blocks 3 7) disk100).2 in
  let fs := (limnfs_write_data 2 0 (blocks 1 66) fs).2 in
  let fs := (limnfs_write_data 1 (4 * 4096) (blocks 5 7) fs).2 in
  (limnfs_write_data 1 (3 * 4096) (blocks 1 7) fs).2.

(** The sequential path samples four blocks: reading a file that was filled
    with one byte returns, in the place of its fourth block, the block of another
    file. *)
Theorem sequential_read_leaks :
  (limnfs_read_data 1 0 (9 * 4096) interleaved).1 = Some (blocks 3 7 ++ blocks 1 66 ++ blocks 5 7) ∧
  (limnfs_read_data 1 (3 * 4096) 4096 interleaved).1 = Some (blocks 1 7).
Proof. split; apply (bool_decide_unpack _); by vm_compute. Qed.
