(* ===== verification/Pty.v ===== *)
(** * Pty: pseudo-terminals

    Models [src/kernel/src/pty/pty.c], [pty.h] and [termios.h]: a table of
    terminals, each with a ring of bytes from the master to the slave and one
    back, echo and canonical mode, the control characters of the line
    discipline, reference counts of the two sides, and the ioctl requests.

    The lock of a terminal is released while a signal is sent, while a reader or
    writer waits, and between the bytes of a slave's write.  The operations take
    the list of what others do to the terminal at these points ([others]); a
    call that still waits when the list ends has no result. *)

From S2P Require Import Prelude Ring.

Abbreviation MAX_PTYS := 8%nat (only parsing).
Definition PTY_BUF_SIZE : nat := Z.to_nat 4096.
Abbreviation PTY_ECHO := 1 (only parsing).
Abbreviation PTY_ICANON := 2 (only parsing).

(** The control characters. *)
Abbreviation CH_INTR := 0x03 (only parsing).
Abbreviation CH_EOF := 0x04 (only parsing).
Abbreviation CH_BS := 0x08 (only parsing).
Abbreviation CH_NL := 0x0A (only parsing).
Abbreviation CH_CR := 0x0D (only parsing).
Abbreviation CH_KILL := 0x15 (only parsing).
Abbreviation CH_SUSP := 0x1A (only parsing).
Abbreviation CH_DEL := 0x7F (only parsing).
Abbreviation SIGINT := 2 (only parsing).
Abbreviation SIGTSTP := 21 (only parsing).

(** ** State *)

Record pty := mk_pty {
  p_m2s : ring Z;
  p_s2m : ring Z;
  p_used : bool;
  p_master_closed : bool;
  p_slave_closed : bool;
  p_eof_flag : bool;
  p_master_refs : Z;
  p_slave_refs : Z;
  p_flags : Z;
  p_fg_pgid : Z;
  p_ws_row : Z;
  p_ws_col : Z
}.
#[export] Instance pty_eta : Eta pty := λ p,
  mk_pty (p_m2s p) (p_s2m p) (p_used p) (p_master_closed p) (p_slave_closed p) (p_eof_flag p) (p_master_refs p)
    (p_slave_refs p) (p_flags p) (p_fg_pgid p) (p_ws_row p) (p_ws_col p).
Definition empty_ring : ring Z := mk_ring (replicate PTY_BUF_SIZE 0) 0 0 0.
#[export] Instance pty_inhabited : Inhabited pty :=
  populate (mk_pty empty_ring empty_ring false false false false 0 0 0 0 0 0).

Implicit Types (p : pty) (ps : list pty) (ch : Z) (buf : list Z) (len : nat) (others : list (pty → pty)).

Definition pty_echo p : bool := negb (Z.land (p_flags p) PTY_ECHO =? 0).
Definition pty_canon p : bool := negb (Z.land (p_flags p) PTY_ICANON =? 0).

Definition pty_reset p : pty :=
  p <| p_m2s := ring_reset (p_m2s p) |> <| p_s2m := ring_reset (p_s2m p) |> <| p_used := true |>
    <| p_master_closed := false |> <| p_slave_closed := false |> <| p_master_refs := 0 |> <| p_slave_refs := 0 |>
    <| p_flags := Z.lor PTY_ECHO PTY_ICANON |> <| p_eof_flag := false |> <| p_fg_pgid := 0 |>
    <| p_ws_row := 25 |> <| p_ws_col := 80 |>.

Definition pty_init ps : list pty := (λ p, p <| p_used := false |>) <$> ps.

Definition pty_alloc ps : Z * list pty :=
  match find_idx (λ p, negb (p_used p)) ps with
  | Some i => (Z.of_nat i, <[i := pty_reset (ps !!! i)]> ps)
  | None => (-1, ps)
  end.

(** ** The line discipline *)

Definition s2m_push ch p : pty :=
  if decide (r_count (p_s2m p) < PTY_BUF_SIZE)%nat
  then p <| p_s2m := ring_put PTY_BUF_SIZE (λ _, ch) (p_s2m p) |>
  else p.

Definition s2m_push3 c1 c2 c3 p : pty := s2m_push c3 (s2m_push c2 (s2m_push c1 p)).

(** The newest byte goes, with an echo that rubs it out. *)
Definition m2s_erase p : pty :=
  let p := p <| p_m2s := ring_unput PTY_BUF_SIZE (p_m2s p) |> in
  if pty_echo p then s2m_push3 CH_BS 32 CH_BS p else p.

(** [while (m2s_count > 0)]: every round takes one byte. *)
Fixpoint m2s_kill (n : nat) p : pty :=
  match n with O => p | S n' => m2s_kill n' (m2s_erase p) end.

(** What one character does: it is taken, it is taken and the process group gets
    a signal (0: no group) while the lock is free, or there is no room. *)
Inductive mw_out :=
| MwTaken (p : pty)
| MwSignal (pgid sig : Z) (p : pty)
| MwFull.

Definition mw_signal ch (sig : Z) p : mw_out :=
  MwSignal (p_fg_pgid p) sig (s2m_push3 94 ch CH_NL p <| p_m2s := ring_reset (p_m2s p) |>).

Definition mw_char ch p : mw_out :=
  if pty_canon p && (ch =? CH_INTR) then mw_signal 67 SIGINT p
  else if pty_canon p && (ch =? CH_EOF) then MwTaken (p <| p_eof_flag := true |>)
  else if pty_canon p && (ch =? CH_KILL) then MwTaken (m2s_kill (r_count (p_m2s p)) p)
  else if pty_canon p && (ch =? CH_SUSP) then mw_signal 90 SIGTSTP p
  else
    let ch := if ch =? CH_CR then CH_NL else ch in
    if pty_canon p && ((ch =? CH_DEL) || (ch =? CH_BS)) then
      MwTaken (if decide (0 < r_count (p_m2s p))%nat then m2s_erase p else p)
    else if decide (r_count (p_m2s p) < PTY_BUF_SIZE)%nat then
      let p := p <| p_m2s := ring_put PTY_BUF_SIZE (λ _, ch) (p_m2s p) |> in
      MwTaken (if pty_echo p then s2m_push ch p else p)
    else MwFull.

(** The number of characters taken and the signals sent, as group and number. *)
Fixpoint master_write_loop others buf p : nat * list (Z * Z) * pty :=
  match buf with
  | [] => (O, [], p)
  | ch :: buf' =>
      match mw_char ch p with
      | MwTaken p => let '(n, sigs, p) := master_write_loop others buf' p in (S n, sigs, p)
      | MwSignal pgid sig p =>
          let '(n, sigs, p) := master_write_loop (tail others) buf' (default id (head others) p) in
          (S n, (if pgid =? 0 then [] else [(pgid, sig)]) ++ sigs, p)
      | MwFull => (O, [], p)
      end
  end.

Definition pty_write others buf p : Z * list (Z * Z) * pty :=
  if p_slave_closed p then (-1, [], p)
  else let '(n, sigs, p) := master_write_loop others buf p in (Z.of_nat n, sigs, p).

(** ** Reading *)

(** At most [len] bytes leave the ring, up to and including one that [stop]s. *)
Fixpoint ring_read (stop : Z → bool) len (r : ring Z) : list Z * ring Z :=
  match len with
  | O => ([], r)
  | S len' =>
      if decide (r_count r = O) then ([], r)
      else
        let ch := r_buf r !!! r_head r in
        let r := ring_drop PTY_BUF_SIZE r in
        if stop ch then ([ch], r)
        else let '(l, r) := ring_read stop len' r in (ch :: l, r)
  end.

Definition pty_read len p : Z * list Z * pty :=
  let '(l, r) := ring_read (λ _, false) len (p_s2m p) in (Z.of_nat (length l), l, p <| p_s2m := r |>).

(** The scan of [n] bytes from position [pos]. *)
Fixpoint has_newline (n : nat) (pos : nat) buf : bool :=
  match n with
  | O => false
  | S n' => if buf !!! pos =? CH_NL then true else has_newline n' ((pos + 1) mod PTY_BUF_SIZE)%nat buf
  end.

Definition m2s_has_newline p : bool := has_newline (r_count (p_m2s p)) (r_head (p_m2s p)) (r_buf (p_m2s p)).

Definition canon_ready p : bool := m2s_has_newline p || p_master_closed p || p_eof_flag p.
Definition raw_ready p : bool := negb (r_count (p_m2s p) =? 0)%nat || p_master_closed p.

(** Wait until the terminal is [ready]: [Some false] would block, [None] still
    waits. *)
Fixpoint pty_wait (ready : pty → bool) (nonblock : bool) others p : option bool * pty :=
  if ready p then (Some true, p)
  else if nonblock then (Some false, p)
  else match others with
       | [] => (None, p)
       | g :: others' => pty_wait ready nonblock others' (g p)
       end.

(** The rest of a read, with the line end that stops it. *)
Definition m2s_take (stop : Z → bool) len p : Z * list Z * pty :=
  let '(l, r) := ring_read stop len (p_m2s p) in (Z.of_nat (length l), l, p <| p_m2s := r |>).

Definition slave_read others len (nonblock : bool) p : option (Z * list Z) * pty :=
  if pty_canon p then
    if p_eof_flag p && (r_count (p_m2s p) =? 0)%nat then (Some (0, []), p <| p_eof_flag := false |>)
    else
      match pty_wait canon_ready nonblock others p with
      | (None, p) => (None, p)
      | (Some false, p) => (Some (0, []), p)
      | (Some true, p) =>
          let p := if p_eof_flag p && negb (r_count (p_m2s p) =? 0)%nat then p <| p_eof_flag := false |> else p in
          let '(n, l, p) := m2s_take (λ ch, ch =? CH_NL) len p in (Some (n, l), p)
      end
  else
    match pty_wait raw_ready nonblock others p with
    | (None, p) => (None, p)
    | (Some false, p) => (Some (0, []), p)
    | (Some true, p) => let '(n, l, p) := m2s_take (λ _, false) len p in (Some (n, l), p)
    end.

(** ** The slave's write *)

(** [Some true]: there is room, [Some false]: too many retries, [None]: still
    waiting. *)
Fixpoint wait_space (retries : Z) others p : option bool * list (pty → pty) * pty :=
  if bool_decide (r_count (p_s2m p) < PTY_BUF_SIZE)%nat || p_master_closed p then (Some true, others, p)
  else match others with
       | [] => (None, [], p)
       | g :: others' => if 100000 <? retries + 1 then (Some false, others', g p) else wait_space (retries + 1) others' (g p)
       end.

Fixpoint slave_write_loop others buf (written : Z) p : option Z * pty :=
  match buf with
  | [] => (Some written, p)
  | ch :: buf' =>
      match wait_space 0 others p with
      | (None, _, p) => (None, p)
      | (Some false, _, p) => (Some written, p)
      | (Some true, others, p) =>
          if p_master_closed p then (Some (-1), p)
          else
            let p := p <| p_s2m := ring_put PTY_BUF_SIZE (λ _, ch) (p_s2m p) |> in
            slave_write_loop (tail others) buf' (written + 1) (default id (head others) p)
      end
  end.

(** ** Closing, ioctl, polling *)

Definition close_master p : pty :=
  let p := if 0 <? p_master_refs p then p <| p_master_refs := p_master_refs p - 1 |> else p in
  let p := if p_master_refs p =? 0 then p <| p_master_closed := true |> else p in
  if p_master_closed p && p_slave_closed p then p <| p_used := false |> else p.

Definition close_slave p : pty :=
  let p := if 0 <? p_slave_refs p then p <| p_slave_refs := p_slave_refs p - 1 |> else p in
  let p := if p_slave_refs p =? 0 then p <| p_slave_closed := true |> else p in
  if p_master_closed p && p_slave_closed p then p <| p_used := false |> else p.

Record termios := mk_termios {
  c_iflag : Z;
  c_oflag : Z;
  c_cflag : Z;
  c_lflag : Z;
  c_line : Z;
  c_cc : list Z;
  c_ispeed : Z;
  c_ospeed : Z
}.
#[export] Instance termios_eta : Eta termios := λ t,
  mk_termios (c_iflag t) (c_oflag t) (c_cflag t) (c_lflag t) (c_line t) (c_cc t) (c_ispeed t) (c_ospeed t).

Record winsize := mk_winsize { ws_row : Z; ws_col : Z; ws_xpixel : Z; ws_ypixel : Z }.
#[export] Instance winsize_eta : Eta winsize := λ w, mk_winsize (ws_row w) (ws_col w) (ws_xpixel w) (ws_ypixel w).

Abbreviation TERMIOS_ISIG := 0x0001 (only parsing).
Abbreviation TERMIOS_ICANON := 0x0002 (only parsing).
Abbreviation TERMIOS_ECHO := 0x0008 (only parsing).

Definition get_termios p : termios :=
  let lflag := TERMIOS_ISIG in
  let lflag := if pty_echo p then Z.lor lflag TERMIOS_ECHO else lflag in
  let lflag := if pty_canon p then Z.lor lflag TERMIOS_ICANON else lflag in
  let cc := <[6%nat := 1]> (<[10%nat := 26]> (<[4%nat := 4]> (<[3%nat := 21]> (<[2%nat := 127]>
              (<[1%nat := 28]> (<[0%nat := 3]> (replicate 32 0))))))) in
  mk_termios 0x0100 (Z.lor 0x0001 0x0004) 0 lflag 0 cc 38400 38400.

Definition set_termios (t : termios) p : pty :=
  let p := p <| p_flags := 0 |> in
  let p := if negb (Z.land (c_lflag t) TERMIOS_ECHO =? 0) then p <| p_flags := Z.lor (p_flags p) PTY_ECHO |> else p in
  if negb (Z.land (c_lflag t) TERMIOS_ICANON =? 0) then p <| p_flags := Z.lor (p_flags p) PTY_ICANON |> else p.

(** [t] and [w] are the objects at the address [arg]. *)
Definition ioctl (cmd arg : Z) (t : termios) (w : winsize) p : Z * termios * winsize * pty :=
  if cmd =? 0x5401 then if arg =? 0 then (-1, t, w, p) else (0, get_termios p, w, p)
  else if (cmd =? 0x5402) || (cmd =? 0x5403) || (cmd =? 0x5404) then
    if arg =? 0 then (-1, t, w, p) else (0, t, w, set_termios t p)
  else if cmd =? 0x5413 then
    if arg =? 0 then (-1, t, w, p) else (0, t, w <| ws_row := p_ws_row p |> <| ws_col := p_ws_col p |>, p)
  else if cmd =? 0x5414 then
    if arg =? 0 then (-1, t, w, p) else (0, t, w, p <| p_ws_row := ws_row w |> <| p_ws_col := ws_col w |>)
  else if cmd =? 0x5410 then (0, t, w, p <| p_fg_pgid := arg |>)
  else if cmd =? 0x5411 then (i32 (p_fg_pgid p), t, w, p)
  else (-1, t, w, p).

Definition readable (is_master : bool) p : bool :=
  if is_master then negb (r_count (p_s2m p) =? 0)%nat
  else if pty_canon p then canon_ready p else raw_ready p.

Definition writable (is_master : bool) p : bool :=
  if is_master then bool_decide (r_count (p_m2s p) < PTY_BUF_SIZE)%nat
  else bool_decide (r_count (p_s2m p) < PTY_BUF_SIZE)%nat.

(** A descriptor is copied ([dup], [dup2], [fcntl], fork, exec and the children of
    supervisors): one reference more.  A new pair of descriptors sets the count. *)
Definition ref_side (is_master : bool) p : pty :=
  if is_master then p <| p_master_refs := u32 (p_master_refs p + 1) |>
  else p <| p_slave_refs := u32 (p_slave_refs p + 1) |>.
Definition own_side (is_master : bool) (n : Z) p : pty :=
  if is_master then p <| p_master_refs := n |> else p <| p_slave_refs := n |>.

(** ** The table *)

Definition pty_bad (idx : Z) ps : bool :=
  (idx <? 0) || (Z.of_nat MAX_PTYS <=? idx) || negb (p_used (ps !!! Z.to_nat idx)).

(** An operation on terminal [idx]; [bad] is its result without one. *)
Definition with_pty {R} (idx : Z) (bad : R) (op : pty → R * pty) ps : R * list pty :=
  if pty_bad idx ps then (bad, ps)
  else let '(r, p) := op (ps !!! Z.to_nat idx) in (r, <[Z.to_nat idx := p]> ps).

Definition pty_get (idx : Z) ps : option pty := if pty_bad idx ps then None else Some (ps !!! Z.to_nat idx).
Definition pty_master_write others (idx : Z) buf ps : Z * list (Z * Z) * list pty :=
  with_pty idx (-1, []) (pty_write others buf) ps.
Definition pty_master_read (idx : Z) len ps : Z * list Z * list pty := with_pty idx (-1, []) (pty_read len) ps.
Definition pty_slave_read others (idx : Z) len (nonblock : bool) ps : option (Z * list Z) * list pty :=
  with_pty idx (Some (-1, [])) (slave_read others len nonblock) ps.
Definition pty_slave_write others (idx : Z) buf ps : option Z * list pty :=
  with_pty idx (Some (-1)) (slave_write_loop others buf 0) ps.
Definition pty_close_master (idx : Z) ps : list pty := (with_pty idx tt (λ p, (tt, close_master p)) ps).2.
Definition pty_close_slave (idx : Z) ps : list pty := (with_pty idx tt (λ p, (tt, close_slave p)) ps).2.
Definition pty_ioctl (idx cmd arg : Z) (t : termios) (w : winsize) ps : Z * termios * winsize * list pty :=
  with_pty idx (-1, t, w) (ioctl cmd arg t w) ps.
Definition pty_readable (idx : Z) (is_master : bool) ps : bool :=
  if pty_bad idx ps then false else readable is_master (ps !!! Z.to_nat idx).
Definition pty_writable (idx : Z) (is_master : bool) ps : bool :=
  if pty_bad idx ps then false else writable is_master (ps !!! Z.to_nat idx).

(** The table and [console_pty_idx]. *)
Definition pty_create_console (console : Z) ps : Z * Z * list pty :=
  let '(idx, ps) := pty_alloc ps in
  if idx <? 0 then (-1, console, ps)
  else (idx, idx, alter (λ p, p <| p_master_refs := 1 |>) (Z.to_nat idx) ps).

(** The signals of the character typed. *)
Definition pty_console_input others (console ch : Z) ps : list (Z * Z) * list pty :=
  if console <? 0 then ([], ps)
  else let '(_, sigs, ps) := pty_master_write others console [u8 ch] ps in (sigs, ps).

(** The size is a number of four digits: keep it folded. *)
#[global] Opaque PTY_BUF_SIZE.

Lemma buf_size_pos : (0 < PTY_BUF_SIZE)%nat.
Proof. apply Nat.ltb_lt. by vm_compute. Qed.

(** ** The terminal as queues of bytes *)

Definition pty_ok p : Prop := ring_wf PTY_BUF_SIZE (p_m2s p) ∧ ring_wf PTY_BUF_SIZE (p_s2m p).

Definition tin p : list Z := ring_contents (p_m2s p).
Definition tout p : list Z := ring_contents (p_s2m p).

(** The fields that are no ring. *)
Definition rest p := (p_used p, p_master_closed p, p_slave_closed p, p_eof_flag p, p_master_refs p, p_slave_refs p,
                      p_flags p, p_fg_pgid p, p_ws_row p, p_ws_col p).

(** [p'] is [p] with other queues. *)
Record queues (i o : list Z) p p' : Prop := {
  q_ok : pty_ok p';
  q_in : tin p' = i;
  q_out : tout p' = o;
  q_rest : rest p' = rest p
}.

Lemma queues_refl p : pty_ok p → queues (tin p) (tout p) p p.
Proof. by split. Qed.

Lemma queues_trans i o i' o' p p' p'' : queues i o p p' → queues i' o' p' p'' → queues i' o' p p''.
Proof. intros [] []. split; [done..|congruence]. Qed.

Lemma rest_flags p p' : rest p' = rest p → pty_canon p' = pty_canon p ∧ pty_echo p' = pty_echo p.
Proof. unfold rest, pty_canon, pty_echo. intros [=]. split; congruence. Qed.

Lemma tin_count p : pty_ok p → r_count (p_m2s p) = length (tin p).
Proof. intros [H _]. symmetry. by apply (length_ring_contents PTY_BUF_SIZE). Qed.
Lemma tout_count p : pty_ok p → r_count (p_s2m p) = length (tout p).
Proof. intros [_ H]. symmetry. by apply (length_ring_contents PTY_BUF_SIZE). Qed.

(** A byte more, if there is room. *)
Definition push (l : list Z) ch : list Z := if decide (length l < PTY_BUF_SIZE)%nat then l ++ [ch] else l.
Definition pushes (l s : list Z) : list Z := foldl push l s.

Lemma pushes_fit s : ∀ l, (length l + length s ≤ PTY_BUF_SIZE)%nat → pushes l s = l ++ s.
Proof.
  induction s as [|c s IH]; intros l Hl; cbn [pushes foldl length] in *; [by rewrite app_nil_r|]. fold (pushes (push l c) s).
  unfold push. rewrite decide_True by lia. rewrite IH, <- app_assoc; [done|]. rewrite length_app. cbn [length]. lia.
Qed.

Lemma s2m_push_queues ch p : pty_ok p → queues (tin p) (push (tout p) ch) p (s2m_push ch p).
Proof.
  intros Hok. unfold s2m_push, push. rewrite <- (tout_count p Hok). pose proof Hok as [Hi Ho].
  case_decide as Hc; [|by apply queues_refl].
  destruct (ring_put_contents _ (λ _, ch) _ Ho Hc) as (x & _ & E). split; [|done|exact E|done].
  split; [done|]. by apply ring_put_wf.
Qed.

Lemma s2m_push3_queues c1 c2 c3 p : pty_ok p → queues (tin p) (pushes (tout p) [c1; c2; c3]) p (s2m_push3 c1 c2 c3 p).
Proof.
  intros Hok. unfold s2m_push3. cbn [pushes foldl].
  destruct (s2m_push_queues c1 p Hok) as [Hok1 Hi1 Ho1 Hr1]. destruct (s2m_push_queues c2 _ Hok1) as [Hok2 Hi2 Ho2 Hr2].
  destruct (s2m_push_queues c3 _ Hok2) as [Hok3 Hi3 Ho3 Hr3]. split; [done|congruence|congruence|congruence].
Qed.

(** The typed characters without the last. *)
Definition rub : list Z := [CH_BS; 32; CH_BS].

Lemma removelast_take {A} (l : list A) : take (length l - 1) l = removelast l.
Proof.
  induction l as [|x l IH]; [done|]. destruct l as [|y l]; [done|]. cbn [length Nat.sub removelast] in *.
  rewrite Nat.sub_0_r in IH. cbn [take]. f_equal. rewrite <- IH. done.
Qed.

Lemma m2s_erase_queues p :
  pty_ok p → (0 < length (tin p))%nat →
  queues (removelast (tin p)) (if pty_echo p then pushes (tout p) rub else tout p) p (m2s_erase p).
Proof.
  intros Hok Hl. pose proof Hok as [Hi Ho]. unfold m2s_erase. set (p1 := p <| p_m2s := _ |>).
  rewrite <- (tin_count p Hok) in Hl.
  assert (H1 : queues (removelast (tin p)) (tout p) p p1).
  { split; [split; [by apply ring_unput_wf|done]| |done|done]. rewrite <- removelast_take, <- (tin_count p Hok).
    by apply (ring_unput_contents PTY_BUF_SIZE). }
  change (pty_echo p1) with (pty_echo p). destruct (pty_echo p); [|done].
  pose proof (s2m_push3_queues CH_BS 32 CH_BS p1 (q_ok _ _ _ _ H1)) as H2. rewrite (q_in _ _ _ _ H1), (q_out _ _ _ _ H1) in H2.
  by eapply queues_trans.
Qed.

Lemma length_removelast {A} (l : list A) : length (removelast l) = (length l - 1)%nat.
Proof. rewrite <- removelast_take, length_take. lia. Qed.

Lemma m2s_kill_queues p :
  pty_ok p → queues [] (if pty_echo p then pushes (tout p) (mjoin (replicate (length (tin p)) rub)) else tout p) p
               (m2s_kill (r_count (p_m2s p)) p).
Proof.
  intros Hok. rewrite (tin_count p Hok). remember (length (tin p)) as n eqn:En. revert p Hok En.
  induction n as [|n IH]; intros p Hok En; cbn [m2s_kill].
  - destruct (tin p) eqn:Et; [|done]. split; [done|done| |done]. by destruct (pty_echo p).
  - pose proof (m2s_erase_queues p Hok ltac:(lia)) as H1. pose proof (q_rest _ _ _ _ H1) as Hr.
    apply rest_flags in Hr as [_ He].
    specialize (IH (m2s_erase p) (q_ok _ _ _ _ H1)). rewrite (q_in _ _ _ _ H1), length_removelast in IH.
    specialize (IH ltac:(lia)). rewrite (q_out _ _ _ _ H1), He in IH. eapply queues_trans; [done|].
    destruct (pty_echo p); [|done]. unfold pushes in *. rewrite <- foldl_app in IH. exact IH.
Qed.

(** The abstract terminal: what was typed and not read, what was printed and not
    shown, and the modes. *)
Record tty := mk_tty {
  y_in : list Z;
  y_out : list Z;
  y_eof : bool;
  y_canon : bool;
  y_echo : bool;
  y_fg : Z;
  y_closed : bool       (* no master *)
}.
#[export] Instance tty_eta : Eta tty := λ y, mk_tty (y_in y) (y_out y) (y_eof y) (y_canon y) (y_echo y) (y_fg y) (y_closed y).

Implicit Types y : tty.

Definition view p : tty := mk_tty (tin p) (tout p) (p_eof_flag p) (pty_canon p) (pty_echo p) (p_fg_pgid p) (p_master_closed p).

Definition show (s : list Z) y : tty := y <| y_out := pushes (y_out y) s |>.
Definition echo (s : list Z) y : tty := if y_echo y then show s y else y.

(** One typed character: a signal with its echo, end of input, line kill, erase,
    or a character for the reader; [None]: no room. *)
Definition type_key ch y : option (list (Z * Z) * tty) :=
  let signal c sig := Some (if y_fg y =? 0 then [] else [(y_fg y, sig)], show [94; c; CH_NL] y <| y_in := [] |>) in
  let ch' := if ch =? CH_CR then CH_NL else ch in
  if y_canon y && (ch =? CH_INTR) then signal 67 SIGINT
  else if y_canon y && (ch =? CH_SUSP) then signal 90 SIGTSTP
  else if y_canon y && (ch =? CH_EOF) then Some ([], y <| y_eof := true |>)
  else if y_canon y && (ch =? CH_KILL) then Some ([], echo (mjoin (replicate (length (y_in y)) rub)) y <| y_in := [] |>)
  else if y_canon y && ((ch =? CH_DEL) || (ch =? CH_BS)) then
    Some ([], if decide (y_in y = []) then y else echo rub y <| y_in := removelast (y_in y) |>)
  else if decide (length (y_in y) < PTY_BUF_SIZE)%nat then Some ([], echo [ch'] y <| y_in := y_in y ++ [ch'] |>)
  else None.

Fixpoint type_keys buf y : nat * list (Z * Z) * tty :=
  match buf with
  | [] => (O, [], y)
  | ch :: buf' =>
      match type_key ch y with
      | Some (sigs, y) => let '(n, sigs', y) := type_keys buf' y in (S n, sigs ++ sigs', y)
      | None => (O, [], y)
      end
  end.

Lemma queues_view i o p p' : queues i o p p' → view p' = (view p) <| y_in := i |> <| y_out := o |>.
Proof.
  intros [_ Hi Ho Hr]. pose proof (rest_flags p p' Hr) as [Hc He]. unfold rest in Hr. injection Hr as ?.
  change (view p' = mk_tty i o (p_eof_flag p) (pty_canon p) (pty_echo p) (p_fg_pgid p) (p_master_closed p)).
  unfold view. congruence.
Qed.


(** The fields outside the view. *)
Definition side p := (p_used p, p_slave_closed p, p_master_refs p, p_slave_refs p, p_ws_row p, p_ws_col p).

Lemma queues_side i o p p' : queues i o p p' → side p' = side p.
Proof. intros [_ _ _ Hr]. unfold rest in Hr. unfold side. congruence. Qed.

Lemma side_closed p p' : side p' = side p → p_slave_closed p' = p_slave_closed p.
Proof. unfold side. congruence. Qed.

(** [p'] is [p] with the view [y]. *)
Definition becomes y p p' : Prop := pty_ok p' ∧ view p' = y ∧ side p' = side p.

Lemma queues_becomes i o p p' : queues i o p p' → becomes ((view p) <| y_in := i |> <| y_out := o |>) p p'.
Proof. intros H. split_and!; [apply H|by apply queues_view|by eapply queues_side]. Qed.

Lemma mw_signal_refines c sig p :
  pty_ok p →
  match mw_signal c sig p with
  | MwSignal pgid sig' p' =>
      pgid = p_fg_pgid p ∧ sig' = sig ∧ becomes (show [94; c; CH_NL] (view p) <| y_in := [] |>) p p'
  | _ => False
  end.
Proof.
  intros Hok. pose proof Hok as [Hi Ho]. unfold mw_signal. split_and!; [done..|].
  set (p1 := p <| p_m2s := ring_reset (p_m2s p) |>).
  assert (Hok1 : pty_ok p1) by (split; [apply ring_reset_wf; [apply buf_size_pos|apply Hi]|done]).
  assert (H1 : queues [] (tout p) p p1) by (by split).
  pose proof (s2m_push3_queues 94 c CH_NL p1 Hok1) as H2. apply (queues_becomes _ _ p).
  exact (queues_trans _ _ _ _ _ _ _ H1 H2).
Qed.

Lemma m2s_put_refines ch p :
  pty_ok p → (length (tin p) < PTY_BUF_SIZE)%nat →
  let p1 := p <| p_m2s := ring_put PTY_BUF_SIZE (λ _, ch) (p_m2s p) |> in
  becomes (echo [ch] (view p) <| y_in := tin p ++ [ch] |>) p (if pty_echo p1 then s2m_push ch p1 else p1).
Proof.
  intros Hok Hl p1. pose proof Hok as [Hi Ho]. rewrite <- (tin_count p Hok) in Hl.
  destruct (ring_put_contents _ (λ _, ch) _ Hi Hl) as (x & _ & E).
  assert (H1 : queues (tin p ++ [ch]) (tout p) p p1) by (split; [split; [by apply ring_put_wf|done]|exact E|done|done]).
  change (pty_echo p1) with (pty_echo p). unfold echo. change (y_echo (view p) <| y_in := _ |>) with (pty_echo p).
  destruct (pty_echo p); [|exact (queues_becomes _ _ _ _ H1)].
  pose proof (s2m_push_queues ch p1 (q_ok _ _ _ _ H1)) as H2. rewrite (q_in _ _ _ _ H1), (q_out _ _ _ _ H1) in H2.
  exact (queues_becomes _ _ _ _ (queues_trans _ _ _ _ _ _ _ H1 H2)).
Qed.

Lemma m2s_erase_refines p :
  pty_ok p →
  becomes (if decide (tin p = []) then view p else echo rub (view p) <| y_in := removelast (tin p) |>) p
    (if decide (0 < r_count (p_m2s p))%nat then m2s_erase p else p).
Proof.
  intros Hok. rewrite (tin_count p Hok). case_decide as Hn.
  - rewrite Hn. by rewrite decide_False by (cbn; lia).
  - assert (0 < length (tin p))%nat by (destruct (tin p); cbn [length]; [done|lia]). rewrite decide_True by done.
    pose proof (queues_becomes _ _ _ _ (m2s_erase_queues p Hok ltac:(done))) as Hb. unfold echo.
    change (y_echo (view p) <| y_in := _ |>) with (pty_echo p). by destruct (pty_echo p).
Qed.

Lemma m2s_kill_refines p :
  pty_ok p →
  becomes (echo (mjoin (replicate (length (tin p)) rub)) (view p) <| y_in := [] |>) p (m2s_kill (r_count (p_m2s p)) p).
Proof.
  intros Hok. pose proof (queues_becomes _ _ _ _ (m2s_kill_queues p Hok)) as Hb. unfold echo.
  change (y_echo (view p) <| y_in := _ |>) with (pty_echo p). by destruct (pty_echo p).
Qed.

Lemma mw_char_refines ch p :
  pty_ok p →
  match mw_char ch p with
  | MwTaken p' => ∃ y, type_key ch (view p) = Some ([], y) ∧ becomes y p p'
  | MwSignal pgid sig p' => ∃ y, type_key ch (view p) = Some (if pgid =? 0 then [] else [(pgid, sig)], y) ∧ becomes y p p'
  | MwFull => type_key ch (view p) = None
  end.
Proof.
  intros Hok. unfold mw_char, type_key. cbn [y_canon y_in y_fg view].
  destruct (pty_canon p && (ch =? CH_INTR)) eqn:Ei; [eexists; split; [done|]; by apply (mw_signal_refines 67 SIGINT p)|].
  destruct (pty_canon p && (ch =? CH_EOF)) eqn:Ee.
  { replace (pty_canon p && (ch =? CH_SUSP)) with false by (symmetry; apply andb_false_iff; right; bool_hyps; lia).
    eexists. split; [done|]. by split_and!. }
  destruct (pty_canon p && (ch =? CH_KILL)) eqn:Ek.
  { replace (pty_canon p && (ch =? CH_SUSP)) with false by (symmetry; apply andb_false_iff; right; bool_hyps; lia).
    eexists. split; [done|]. by apply m2s_kill_refines. }
  destruct (pty_canon p && (ch =? CH_SUSP)) eqn:Es; [eexists; split; [done|]; by apply (mw_signal_refines 90 SIGTSTP p)|].
  cbv zeta. set (ch' := if ch =? CH_CR then CH_NL else ch).
  replace ((ch' =? CH_DEL) || (ch' =? CH_BS)) with ((ch =? CH_DEL) || (ch =? CH_BS)) by (subst ch'; destruct (ch =? CH_CR) eqn:?; bool_hyps; lia).
  destruct (pty_canon p && ((ch =? CH_DEL) || (ch =? CH_BS))).
  - eexists. split; [done|]. by apply m2s_erase_refines.
  - rewrite (tin_count p Hok). case_decide; [|done]. eexists. split; [done|]. by apply m2s_put_refines.
Qed.

Lemma master_write_loop_refines buf : ∀ p,
  pty_ok p →
  let '(n, sigs, p') := master_write_loop [] buf p in
  type_keys buf (view p) = (n, sigs, view p') ∧ pty_ok p' ∧ side p' = side p.
Proof.
  induction buf as [|ch buf IH]; intros p Hok; cbn [master_write_loop type_keys]; [done|].
  pose proof (mw_char_refines ch p Hok) as H. destruct (mw_char ch p) as [p1|pgid sig p1|].
  - destruct H as (y & -> & Hok1 & <- & Hc1). specialize (IH p1 Hok1).
    destruct (master_write_loop [] buf p1) as [[n sigs] p']. destruct IH as (-> & Hok' & Hc'). split_and!; [done..|congruence].
  - destruct H as (y & -> & Hok1 & <- & Hc1). specialize (IH p1 Hok1). cbn [tail head default id].
    destruct (master_write_loop [] buf p1) as [[n sigs] p']. destruct IH as (-> & Hok' & Hc'). split_and!; [done..|congruence].
  - by rewrite H.
Qed.

(** Reading a queue: at most [len] bytes, the last of them one that stops. *)
Fixpoint cut (stop : Z → bool) len (l : list Z) : list Z * list Z :=
  match len, l with
  | S len', ch :: l' => if stop ch then ([ch], l') else let '(a, b) := cut stop len' l' in (ch :: a, b)
  | _, _ => ([], l)
  end.

Lemma ring_read_spec stop len : ∀ r,
  ring_wf PTY_BUF_SIZE r →
  let '(l, r') := ring_read stop len r in
  cut stop len (ring_contents r) = (l, ring_contents r') ∧ ring_wf PTY_BUF_SIZE r'.
Proof.
  induction len as [|len IH]; intros r Hwf; cbn [ring_read cut]; [done|].
  case_decide as Hc.
  - apply (ring_contents_nil _ r Hwf) in Hc as ->. done.
  - destruct (ring_drop_contents _ r Hwf) as (x & Hx & ->); [lia|]. pose proof (ring_drop_wf _ r Hwf ltac:(lia)) as Hwf1.
    unfold ring_peek in Hx. rewrite (list_lookup_total_correct _ _ _ Hx). destruct (stop x); [done|].
    specialize (IH _ Hwf1). destruct (ring_read stop len _) as [l r']. by destruct IH as [-> ?].
Qed.

Lemma cut_all len (l : list Z) : cut (λ _, false) len l = (take len l, drop len l).
Proof. revert l. induction len as [|len IH]; intros [|x l]; cbn; [done..|]. by rewrite IH. Qed.

Lemma has_newline_spec n : ∀ r,
  ring_wf PTY_BUF_SIZE r → r_count r = n → has_newline n (r_head r) (r_buf r) = bool_decide (CH_NL ∈ ring_contents r).
Proof.
  induction n as [|n IH]; intros r Hwf Hn; cbn [has_newline].
  - apply (ring_contents_nil _ r Hwf) in Hn as ->. by rewrite bool_decide_false by (apply not_elem_of_nil).
  - destruct (ring_drop_contents _ r Hwf) as (x & Hx & ->); [lia|]. pose proof (ring_drop_wf _ r Hwf ltac:(lia)) as Hwf1.
    unfold ring_peek in Hx. rewrite (list_lookup_total_correct _ _ _ Hx). destruct (x =? CH_NL) eqn:E; bool_hyps.
    + subst. by rewrite bool_decide_true by left.
    + transitivity (bool_decide (CH_NL ∈ ring_contents (ring_drop PTY_BUF_SIZE r))); [apply (IH _ Hwf1); cbn; lia|].
      apply bool_decide_ext. rewrite elem_of_cons.
      split; [by right|intros [?|?]; [congruence|done]].
Qed.

Lemma m2s_has_newline_spec p : pty_ok p → m2s_has_newline p = bool_decide (CH_NL ∈ tin p).
Proof. intros [H _]. by apply has_newline_spec. Qed.

Lemma empty_in p : pty_ok p → (r_count (p_m2s p) =? 0)%nat = bool_decide (tin p = []).
Proof. intros Hok. rewrite (tin_count p Hok). by destruct (tin p). Qed.

(** The abstract operations; [None] waits. *)
Definition is_nl ch : bool := ch =? CH_NL.

Definition line_ready y : bool := bool_decide (CH_NL ∈ y_in y) || y_closed y || y_eof y.

Definition read_keys len (nonblock : bool) y : option (Z * list Z) * tty :=
  let give stop y := let '(l, i) := cut stop len (y_in y) in (Some (Z.of_nat (length l), l), y <| y_in := i |>) in
  let wait := if nonblock then (Some (0, []), y) else (None, y) in
  let has := negb (bool_decide (y_in y = [])) in
  if y_canon y then
    if y_eof y && negb has then (Some (0, []), y <| y_eof := false |>)
    else if line_ready y then give is_nl (if y_eof y && has then y <| y_eof := false |> else y) else wait
  else if has || y_closed y then give (λ _, false) y else wait.

Lemma m2s_take_refines stop len p :
  pty_ok p →
  let '(n, l, p') := m2s_take stop len p in
  let '(l0, i) := cut stop len (tin p) in
  n = Z.of_nat (length l0) ∧ l = l0 ∧ becomes ((view p) <| y_in := i |>) p p'.
Proof.
  intros [Hi Ho]. unfold m2s_take. pose proof (ring_read_spec stop len (p_m2s p) Hi) as H.
  destruct (ring_read stop len (p_m2s p)) as [l r']. destruct H as [E Hr]. unfold tin. rewrite E.
  split_and!; [done..|]. by split_and!.
Qed.

Lemma slave_read_refines len nonblock p :
  pty_ok p → ∃ p', slave_read [] len nonblock p = ((read_keys len nonblock (view p)).1, p') ∧
    becomes (read_keys len nonblock (view p)).2 p p'.
Proof.
  intros Hok. unfold slave_read, read_keys, line_ready. cbn [y_canon y_eof y_in y_closed view].
  rewrite (empty_in p Hok). set (has := negb (bool_decide (tin p = []))).
  assert (Hself : becomes (view p) p p) by (by split_and!).
  destruct (pty_canon p).
  - replace (bool_decide (tin p = [])) with (negb has) by (subst has; by case_bool_decide).
    destruct (p_eof_flag p && negb has) eqn:Ee; [by eexists|].
    cbn [pty_wait]. unfold canon_ready. rewrite (m2s_has_newline_spec p Hok). destruct (_ || p_eof_flag p).
    2: { destruct nonblock; by exists p. }
    rewrite (empty_in p Hok). fold has. set (p1 := if p_eof_flag p && has then _ else p).
    set (y1 := if p_eof_flag p && has then _ else view p).
    assert (Ey : y1 = view p1) by (subst y1 p1; by destruct (_ && has)).
    assert (Hok1 : pty_ok p1) by (subst p1; by destruct (_ && has)).
    assert (Hc1 : side p1 = side p) by (subst p1; by destruct (_ && has)).
    clearbody y1 p1. subst y1. pose proof (m2s_take_refines is_nl len p1 Hok1) as H. unfold is_nl in H at 1. cbn [y_in view].
    destruct (m2s_take _ len p1) as [[n l] p']. destruct (cut is_nl len (tin p1)) as [l0 i].
    destruct H as (-> & -> & Hb1 & Hb2 & Hb3). exists p'. split; [done|]. split_and!; [done..|congruence].
  - cbn [pty_wait]. unfold raw_ready. rewrite (empty_in p Hok). fold has. destruct (has || p_master_closed p).
    2: { destruct nonblock; by exists p. }
    pose proof (m2s_take_refines (λ _, false) len p Hok) as H. cbn [y_in view].
    destruct (m2s_take _ len p) as [[n l] p']. destruct (cut _ len (tin p)) as [l0 i].
    destruct H as (-> & -> & Hb). by exists p'.
Qed.

Lemma pty_read_refines len p :
  pty_ok p → ∃ p', pty_read len p = (Z.of_nat (length (take len (tout p))), take len (tout p), p') ∧
    becomes ((view p) <| y_out := drop len (tout p) |>) p p'.
Proof.
  intros [Hi Ho]. unfold pty_read. pose proof (ring_read_spec (λ _, false) len (p_s2m p) Ho) as H.
  destruct (ring_read _ len (p_s2m p)) as [l r']. destruct H as [E Hr]. rewrite cut_all in E. fold (tout p) in E.
  injection E as <- Er. eexists. split; [done|]. split_and!; [done| |done]. unfold view, tout. cbn. by rewrite <- Er.
Qed.

(** Printing: without a master it fails, without room it waits. *)
Definition print_bytes buf y : option Z * tty :=
  let room := (PTY_BUF_SIZE - length (y_out y))%nat in
  if y_closed y then (Some (if decide (buf = []) then 0 else -1), y)
  else (if decide (length buf ≤ room)%nat then Some (Z.of_nat (length buf)) else None,
        y <| y_out := y_out y ++ take room buf |>).

Lemma slave_write_refines buf : ∀ written p,
  pty_ok p → p_master_closed p = false →
  let room := (PTY_BUF_SIZE - length (tout p))%nat in
  ∃ p', slave_write_loop [] buf written p =
      (if decide (length buf ≤ room)%nat then Some (written + Z.of_nat (length buf)) else None, p') ∧
    becomes ((view p) <| y_out := tout p ++ take room buf |>) p p'.
Proof.
  induction buf as [|ch buf IH]; intros written p Hok Hc room; cbn [slave_write_loop].
  { exists p. rewrite decide_True by (cbn; lia). rewrite Z.add_0_r, take_nil. split; [done|]. unfold becomes, view. cbn.
    rewrite app_nil_r. by split_and!. }
  pose proof Hok as [Hi Ho]. cbn [wait_space]. rewrite Hc, orb_false_r, (tout_count p Hok). case_bool_decide as Hl; cbn [wait_space].
  - rewrite Hc. cbn [tail head default id from_option]. set (p1 := p <| p_s2m := _ |>).
    rewrite <- (tout_count p Hok) in Hl. destruct (ring_put_contents _ (λ _, ch) _ Ho Hl) as (x & _ & E).
    rewrite (tout_count p Hok) in Hl.
    assert (Hok1 : pty_ok p1) by (split; [done|apply ring_put_wf; [done|by rewrite (tout_count p Hok)]]).
    assert (Ht : tout p1 = tout p ++ [ch]) by exact E.
    destruct (IH (written + 1) p1 Hok1 Hc) as (p' & -> & Hb1 & Hb2 & Hb3). rewrite Ht, length_app in *. cbn [length] in *.
    exists p'. split.
    + destruct (decide (S (length buf) ≤ room)%nat); [rewrite decide_True by lia|by rewrite decide_False by lia].
      do 2 f_equal. lia.
    + split_and!; [done| |done]. rewrite Hb2. replace room with (S (PTY_BUF_SIZE - (length (tout p) + 1)))%nat by lia.
      cbn [take]. by rewrite <- app_assoc.
  - exists p. rewrite decide_False by (cbn [length]; lia). replace room with 0%nat by lia. rewrite take_0. split; [done|].
    unfold becomes, view. cbn. rewrite app_nil_r. by split_and!.
Qed.

Lemma print_refines buf p :
  pty_ok p → ∃ p', slave_write_loop [] buf 0 p = ((print_bytes buf (view p)).1, p') ∧ becomes (print_bytes buf (view p)).2 p p'.
Proof.
  intros Hok. unfold print_bytes. cbn [y_closed y_out view]. destruct (p_master_closed p) eqn:Ec.
  - exists p. split; [|unfold becomes, view; by rewrite Ec]. destruct buf as [|ch buf]; [done|].
    cbn [slave_write_loop]. destruct (wait_space 0 [] p) as [[[[]|] o] p1] eqn:E; cbn [wait_space] in E;
      rewrite Ec, orb_true_r in E; simplify_eq. by rewrite Ec.
  - destruct (slave_write_refines buf 0 p Hok Ec) as (p' & -> & Hb). exists p'. rewrite Z.add_0_l. split; [done|].
    exact Hb.
Qed.

Lemma set_termios_modes t p :
  pty_echo (set_termios t p) = negb (Z.land (c_lflag t) TERMIOS_ECHO =? 0) ∧
  pty_canon (set_termios t p) = negb (Z.land (c_lflag t) TERMIOS_ICANON =? 0).
Proof. unfold set_termios. by destruct (negb (Z.land (c_lflag t) TERMIOS_ECHO =? 0)), (negb (Z.land (c_lflag t) TERMIOS_ICANON =? 0)). Qed.

Definition set_modes t y : tty :=
  y <| y_echo := negb (Z.land (c_lflag t) TERMIOS_ECHO =? 0) |> <| y_canon := negb (Z.land (c_lflag t) TERMIOS_ICANON =? 0) |>.

Lemma set_termios_refines t p : pty_ok p → becomes (set_modes t (view p)) p (set_termios t p).
Proof.
  intros Hok. unfold set_termios, set_modes.
  destruct (negb (Z.land (c_lflag t) TERMIOS_ECHO =? 0)), (negb (Z.land (c_lflag t) TERMIOS_ICANON =? 0)); by split_and!.
Qed.

(** ** Sequences of operations *)

Inductive top :=
| TType (keys : list Z)
| TRead (len : nat) (nonblock : bool)
| TPrint (bytes : list Z)
| TShow (len : nat)
| TModes (t : termios).

Inductive tres :=
| RWrote (n : Z) (sigs : list (Z * Z))
| RRead (r : option (Z * list Z))
| RPrinted (r : option Z)
| RShown (l : list Z)
| RSet.

Definition pty_exec (o : top) p : tres * pty :=
  match o with
  | TType keys => let '(n, sigs, p) := pty_write [] keys p in (RWrote n sigs, p)
  | TRead len nonblock => let '(r, p) := slave_read [] len nonblock p in (RRead r, p)
  | TPrint bytes => let '(r, p) := slave_write_loop [] bytes 0 p in (RPrinted r, p)
  | TShow len => let '(_, l, p) := pty_read len p in (RShown l, p)
  | TModes t => (RSet, set_termios t p)
  end.

Definition tty_exec (o : top) y : tres * tty :=
  match o with
  | TType keys => let '(n, sigs, y) := type_keys keys y in (RWrote (Z.of_nat n) sigs, y)
  | TRead len nonblock => let '(r, y) := read_keys len nonblock y in (RRead r, y)
  | TPrint bytes => let '(r, y) := print_bytes bytes y in (RPrinted r, y)
  | TShow len => (RShown (take len (y_out y)), y <| y_out := drop len (y_out y) |>)
  | TModes t => (RSet, set_modes t y)
  end.

Fixpoint pty_run (ops : list top) p : list tres * pty :=
  match ops with
  | [] => ([], p)
  | o :: ops => let '(r, p) := pty_exec o p in let '(rs, p) := pty_run ops p in (r :: rs, p)
  end.
Fixpoint tty_run (ops : list top) y : list tres * tty :=
  match ops with
  | [] => ([], y)
  | o :: ops => let '(r, y) := tty_exec o y in let '(rs, y) := tty_run ops y in (r :: rs, y)
  end.

Lemma pty_exec_refines o p :
  pty_ok p → p_slave_closed p = false →
  ∃ p', pty_exec o p = ((tty_exec o (view p)).1, p') ∧ becomes (tty_exec o (view p)).2 p p'.
Proof.
  intros Hok Hc. destruct o as [keys|len nonblock|bytes|len|t]; cbn [pty_exec tty_exec].
  - unfold pty_write. rewrite Hc. pose proof (master_write_loop_refines keys p Hok) as H.
    destruct (master_write_loop [] keys p) as [[n sigs] p']. destruct H as (-> & Hok' & Hc'). by exists p'.
  - destruct (slave_read_refines len nonblock p Hok) as (p' & -> & Hb). exists p'. by destruct (read_keys len nonblock (view p)).
  - destruct (print_refines bytes p Hok) as (p' & -> & Hb). exists p'. by destruct (print_bytes bytes (view p)).
  - destruct (pty_read_refines len p Hok) as (p' & -> & Hb). by exists p'.
  - eexists. split; [done|]. by apply set_termios_refines.
Qed.

Lemma pty_run_refines ops : ∀ p,
  pty_ok p → p_slave_closed p = false →
  ∃ p', pty_run ops p = ((tty_run ops (view p)).1, p') ∧ becomes (tty_run ops (view p)).2 p p'.
Proof.
  induction ops as [|o ops IH]; intros p Hok Hc; cbn [pty_run tty_run]; [by exists p|].
  destruct (pty_exec_refines o p Hok Hc) as (p1 & -> & Hok1 & Hv1 & Hc1). destruct (tty_exec o (view p)) as [r y].
  cbn [fst snd] in *. subst y. destruct (IH p1 Hok1) as (p2 & -> & Hok2 & Hv2 & Hc2);
    [by rewrite (side_closed p p1)|].
  exists p2. destruct (tty_run ops (view p1)) as [rs y2]. split; [done|]. split_and!; [done..|congruence].
Qed.

(** C18.  Typing, reading, printing and showing, in any order and in any mode, is
    the behaviour of two queues of 4096 bytes with line editing: characters are
    queued and echoed, erase and kill take typed characters back, the interrupt
    characters clear the queue and signal the foreground group, a canonical read
    returns one line, end of input is reported once. *)
Theorem pty_refines ops p :
  pty_ok p → p_slave_closed p = false →
  let '(rs, p') := pty_run ops p in tty_run ops (view p) = (rs, view p') ∧ pty_ok p'.
Proof.
  intros Hok Hc. destruct (pty_run_refines ops p Hok Hc) as (p' & -> & Hok' & Hv & _). rewrite Hv.
  by destruct (tty_run ops (view p)).
Qed.

(** ** Lines *)

(** A character that is no control character and ends no line. *)
Definition ordinary ch : bool :=
  negb (existsb (Z.eqb ch) [CH_INTR; CH_EOF; CH_KILL; CH_SUSP; CH_CR; CH_NL; CH_DEL; CH_BS]).

(** What is left of a typed line. *)
Definition edit_key (l : list Z) ch : list Z :=
  if (ch =? CH_DEL) || (ch =? CH_BS) then removelast l else if ch =? CH_KILL then [] else l ++ [ch].

Definition editing ch : bool := ordinary ch || (ch =? CH_DEL) || (ch =? CH_BS) || (ch =? CH_KILL).

Lemma editing_eqs ch :
  editing ch = true → (ch =? CH_INTR) = false ∧ (ch =? CH_SUSP) = false ∧ (ch =? CH_EOF) = false ∧ (ch =? CH_CR) = false ∧ ch ≠ CH_NL.
Proof. unfold editing, ordinary. cbn [existsb]. lia. Qed.

Lemma removelast_subseteq {A} (l : list A) x : x ∈ removelast l → x ∈ l.
Proof. rewrite <- removelast_take. apply subseteq_take. Qed.

Lemma edit_key_length l ch : (length (edit_key l ch) ≤ length l + 1)%nat.
Proof.
  unfold edit_key. destruct (_ || _); [rewrite length_removelast; lia|]. destruct (_ =? _); [cbn; lia|].
  rewrite length_app. cbn. lia.
Qed.

Lemma edit_no_newline keys : ∀ l, CH_NL ∉ l → forallb editing keys → CH_NL ∉ foldl edit_key l keys.
Proof.
  induction keys as [|ch keys IH]; intros l Hl Hk; [done|]. cbn [forallb foldl] in *. apply andb_prop_elim in Hk as [Hch Hk].
  apply IH; [|done]. apply Is_true_true, editing_eqs in Hch as (_ & _ & _ & _ & Hnl). unfold edit_key.
  destruct (_ || _); [intros H; by apply Hl, removelast_subseteq|]. destruct (_ =? _); [apply not_elem_of_nil|].
  rewrite elem_of_app, list_elem_of_singleton. intros [?|?]; [done|congruence].
Qed.

(** The modes and flags of a terminal. *)
Definition modes y := (y_eof y, y_canon y, y_echo y, y_fg y, y_closed y).

Lemma echo_modes s y : modes (echo s y) = modes y ∧ y_in (echo s y) = y_in y.
Proof. unfold echo. by destruct (y_echo y). Qed.

(** An editing character, or the end of the line, is taken. *)
Lemma type_edit ch y :
  y_canon y = true → editing ch = true ∨ ch = CH_NL → (length (y_in y) < PTY_BUF_SIZE)%nat →
  ∃ y', type_key ch y = Some ([], y') ∧ y_in y' = edit_key (y_in y) ch ∧ modes y' = modes y.
Proof.
  intros Hc Hch Hl. unfold type_key, edit_key. rewrite Hc. cbn [andb].
  assert ((ch =? CH_INTR) = false ∧ (ch =? CH_SUSP) = false ∧ (ch =? CH_EOF) = false ∧ (ch =? CH_CR) = false) as (-> & -> & -> & ->)
    by (destruct Hch as [Hch|]; [apply editing_eqs in Hch; tauto|lia]).
  destruct (ch =? CH_KILL) eqn:Ek; bool_hyps.
  - replace ((ch =? CH_DEL) || (ch =? CH_BS)) with false by lia. eexists. split; [done|]. split; [by rewrite (proj2 (echo_modes _ _))|by rewrite (proj1 (echo_modes _ _))].
  - destruct ((ch =? CH_DEL) || (ch =? CH_BS)).
    + eexists. split; [done|]. case_decide as E; [by rewrite E|]. split; [by rewrite (proj2 (echo_modes _ _))|by rewrite (proj1 (echo_modes _ _))].
    + rewrite decide_True by done. eexists. split; [done|]. split; [by rewrite (proj2 (echo_modes _ _))|by rewrite (proj1 (echo_modes _ _))].
Qed.

Lemma type_edits keys : ∀ y,
  y_canon y = true → forallb editing keys → (length (y_in y) + length keys ≤ PTY_BUF_SIZE)%nat →
  ∃ y', type_keys keys y = (length keys, [], y') ∧ y_in y' = foldl edit_key (y_in y) keys ∧ modes y' = modes y.
Proof.
  induction keys as [|ch keys IH]; intros y Hc Hk Hl; cbn [type_keys foldl length] in *; [by exists y|].
  cbn [forallb] in Hk. apply andb_prop_elim in Hk as [Hch Hk]. apply Is_true_true in Hch.
  destruct (type_edit ch y Hc (or_introl Hch) ltac:(lia)) as (y1 & -> & Hi1 & Hm1).
  pose proof (edit_key_length (y_in y) ch). destruct (IH y1) as (y2 & -> & Hi2 & Hm2); [unfold modes in *; congruence|done|rewrite Hi1; lia|].
  exists y2. rewrite Hi2, Hi1. split_and!; [done..|congruence].
Qed.

Lemma type_keys_app k1 k2 y n sigs y1 :
  type_keys k1 y = (n, sigs, y1) → n = length k1 →
  type_keys (k1 ++ k2) y = (let '(m, sigs', y2) := type_keys k2 y1 in ((n + m)%nat, sigs ++ sigs', y2)).
Proof.
  revert y n sigs. induction k1 as [|ch k1 IH]; intros y n sigs H Hn; cbn [type_keys app] in *.
  - injection H as <- <- <-. by destruct (type_keys k2 y) as [[??]?].
  - destruct (type_key ch y) as [[s1 y0]|]; [|by injection H as <- _ _].
    destruct (type_keys k1 y0) as [[n0 s0] y0'] eqn:E0. injection H as <- <- <-. cbn [length] in Hn. injection Hn as Hn.
    rewrite (IH _ _ _ E0 Hn). destruct (type_keys k2 y0') as [[m s2] y2]. by rewrite app_assoc.
Qed.

Lemma cut_line len l : CH_NL ∉ l → cut is_nl len (l ++ [CH_NL]) = (take len (l ++ [CH_NL]), drop len (l ++ [CH_NL])).
Proof.
  revert len. induction l as [|x l IH]; intros [|len] Hn; [done|by destruct len|done|].
  apply not_elem_of_cons in Hn as [Hx Hn]. cbn [cut app take drop]. unfold is_nl at 1. rewrite (proj2 (Z.eqb_neq x _)) by done.
  by rewrite IH.
Qed.

Lemma edits_length keys : ∀ l, (length (foldl edit_key l keys) ≤ length l + length keys)%nat.
Proof.
  induction keys as [|ch keys IH]; intros l; cbn [foldl length]; [lia|].
  pose proof (edit_key_length l ch). specialize (IH (edit_key l ch)). lia.
Qed.

(** The line a reader gets. *)
Definition edited keys : list Z := foldl edit_key [] keys ++ [CH_NL].

Lemma type_line keys y :
  y_canon y = true → y_in y = [] → forallb editing keys = true → (length keys < PTY_BUF_SIZE)%nat →
  ∃ y', type_keys (keys ++ [CH_NL]) y = (S (length keys), [], y') ∧ y_in y' = edited keys ∧ modes y' = modes y.
Proof.
  intros Hc Hi Hk Hl. destruct (type_edits keys y) as (y1 & E1 & Hi1 & Hm1); [done|by rewrite Hk|rewrite Hi; cbn; lia|].
  rewrite Hi in Hi1. pose proof (edits_length keys []) as Hll. cbn [length] in Hll.
  destruct (type_edit CH_NL y1) as (y2 & E2 & Hi2 & Hm2); [unfold modes in *; congruence|by right|rewrite Hi1; lia|].
  exists y2. rewrite (type_keys_app keys [CH_NL] y _ _ _ E1 eq_refl). cbn [type_keys]. rewrite E2.
  split_and!; [f_equal; f_equal; lia|by rewrite Hi2, Hi1|congruence].
Qed.

(** Typing a line and reading it. *)
Definition type_and_read keys len p : Z * option (Z * list Z) * pty :=
  let '(n, _, p) := pty_write [] (keys ++ [CH_NL]) p in let '(r, p) := slave_read [] len true p in (n, r, p).

(** C19.  A line typed at an idle terminal in canonical mode, of characters, erases
    and kills and shorter than the buffer, is taken whole, and a read of any length
    that follows returns the edited line with its newline, or as much of its beginning
    as the length asks for, and leaves exactly the rest for the next read. *)
Theorem typed_line_read keys len p :
  pty_ok p → p_slave_closed p = false → pty_canon p = true → p_eof_flag p = false → tin p = [] →
  forallb editing keys = true → (length keys < PTY_BUF_SIZE)%nat →
  ∃ p', type_and_read keys len p =
      (Z.of_nat (S (length keys)), Some (Z.of_nat (min len (length (edited keys))), take len (edited keys)), p') ∧
    tin p' = drop len (edited keys) ∧ pty_ok p'.
Proof.
  intros Hok Hs Hc He Hi Hk Hl. unfold type_and_read, pty_write. rewrite Hs.
  destruct (type_line keys (view p)) as (y & E & Hin & Hm); [done..|].
  pose proof (master_write_loop_refines (keys ++ [CH_NL]) p Hok) as Hw. rewrite E in Hw.
  destruct (master_write_loop [] (keys ++ [CH_NL]) p) as [[n sigs] p1]. destruct Hw as (Ew & Hok1 & _). injection Ew as <- <- ->.
  destruct (slave_read_refines len true p1 Hok1) as (p2 & -> & Hok2 & Hv2 & _).
  unfold modes in Hm. injection Hm as Hm_e Hm_c _ _ _.
  assert (Er : read_keys len true (view p1) = (Some (Z.of_nat (min len (length (edited keys))), take len (edited keys)), (view p1) <| y_in := drop len (edited keys) |>)).
  { unfold read_keys, line_ready. cbn [y_canon y_eof y_in y_closed view] in *. rewrite Hm_c, Hm_e, Hin, Hc, He. cbn [andb].
    rewrite bool_decide_true by (unfold edited; set_solver). cbn [orb y_in view]. rewrite Hin. rewrite <- length_take. unfold edited. rewrite cut_line; [done|].
    apply edit_no_newline; [apply not_elem_of_nil|by rewrite Hk]. }
  rewrite Er in Hv2 |- *. exists p2. split_and!; [done|exact (f_equal y_in Hv2)|done].
Qed.

(** Characters that only a queue slot can hold. *)
Definition stored ch : bool := ordinary ch || (ch =? CH_NL) || (ch =? CH_CR).

(** The buffer is full of one unfinished line. *)
Definition wedged p : Prop :=
  pty_canon p = true ∧ length (tin p) = PTY_BUF_SIZE ∧ (CH_NL ∉ tin p) ∧ p_eof_flag p = false ∧ p_master_closed p = false.

Lemma wedged_full ch p : pty_ok p → wedged p → stored ch = true → mw_char ch p = MwFull.
Proof.
  intros Hok (Hc & Hl & _) Hch. unfold mw_char. rewrite Hc, (tin_count p Hok), Hl. cbn [andb]. unfold stored, ordinary in Hch.
  cbn [existsb] in Hch. replace (ch =? CH_INTR) with false by lia. replace (ch =? CH_EOF) with false by lia.
  replace (ch =? CH_KILL) with false by lia. replace (ch =? CH_SUSP) with false by lia. cbv zeta.
  replace (((if ch =? CH_CR then CH_NL else ch) =? CH_DEL) || ((if ch =? CH_CR then CH_NL else ch) =? CH_BS)) with false
    by (destruct (ch =? CH_CR) eqn:?; lia).
  by rewrite decide_False by lia.
Qed.

Lemma wedged_write keys p :
  pty_ok p → wedged p → p_slave_closed p = false → forallb stored keys = true → pty_write [] keys p = (0, [], p).
Proof.
  intros Hok Hw Hs Hk. unfold pty_write. rewrite Hs. destruct keys as [|ch keys]; [done|]. cbn [master_write_loop].
  cbn [forallb] in Hk. apply andb_prop in Hk as [Hch _]. by rewrite (wedged_full ch p Hok Hw).
Qed.

(** An unfinished line that fills the buffer wedges the terminal: the newline
    that would end it has no room, so whatever is typed short of a control
    character is refused, and a blocking read never returns. *)
Theorem full_line_wedges batches len p :
  pty_ok p → wedged p → p_slave_closed p = false → Forall (λ keys, forallb stored keys = true) batches →
  Forall (λ keys, pty_write [] keys p = (0, [], p)) batches ∧
  slave_read ((λ keys q, (pty_write [] keys q).2) <$> batches) len false p = (None, p).
Proof.
  intros Hok Hw Hs Hb. assert (HF : Forall (λ keys, pty_write [] keys p = (0, [], p)) batches).
  { eapply Forall_impl; [done|]. intros keys Hk. by apply wedged_write. }
  split; [done|]. pose proof Hw as (Hc & Hl & Hn & He & Hm). unfold slave_read. rewrite Hc, He. cbn [andb].
  assert (Hr : canon_ready p = false) by (unfold canon_ready; by rewrite (m2s_has_newline_spec p Hok), bool_decide_false, Hm, He).
  assert (Hp : pty_wait canon_ready false ((λ keys q, (pty_write [] keys q).2) <$> batches) p = (None, p)); [|by rewrite Hp].
  clear Hb. induction HF as [|keys batches Hk HF IH]; cbn [fmap list_fmap pty_wait]; rewrite Hr; [done|]. by rewrite Hk.
Qed.

(** The kill character takes back finished lines as well: a line that was
    typed and ended but not read yet is lost, although canonical editing is
    confined to the current line. *)
Theorem kill_loses_line keys len p :
  pty_ok p → p_slave_closed p = false → pty_canon p = true → p_eof_flag p = false → p_master_closed p = false → tin p = [] →
  forallb editing keys = true → (length keys < PTY_BUF_SIZE)%nat →
  ∃ p' p'', pty_write [] ((keys ++ [CH_NL]) ++ [CH_KILL]) p = (Z.of_nat (length keys) + 2, [], p') ∧
    slave_read [] len true p' = (Some (0, []), p'').
Proof.
  intros Hok Hs Hc He Hm Hi Hk Hl. unfold pty_write. rewrite Hs.
  destruct (type_line keys (view p)) as (y & E & Hin & Hmo); [done..|].
  pose proof (master_write_loop_refines ((keys ++ [CH_NL]) ++ [CH_KILL]) p Hok) as Hw.
  rewrite (type_keys_app _ [CH_KILL] _ _ _ _ E) in Hw by (rewrite length_app; cbn; lia).
  unfold modes in Hmo. injection Hmo as Hm_e Hm_c _ _ Hm_m.
  assert (Ek : type_key CH_KILL y = Some ([], echo (mjoin (replicate (length (y_in y)) rub)) y <| y_in := [] |>))
    by (unfold type_key; rewrite Hm_c; cbn [y_canon view]; by rewrite Hc).
  cbn [type_keys] in Hw. rewrite Ek in Hw. set (y2 := echo _ _) in Hw.
  destruct (echo_modes (mjoin (replicate (length (y_in y)) rub)) (y <| y_in := [] |>)) as [Hm2 Hi2]. fold y2 in Hm2, Hi2.
  unfold modes in Hm2. injection Hm2 as H2e H2c _ _ H2m.
  destruct (master_write_loop [] _ p) as [[n sigs] p1]. destruct Hw as (Ew & Hok1 & _). injection Ew as <- <- Ev.
  destruct (slave_read_refines len true p1 Hok1) as (p2 & Er & _). rewrite <- Ev in Er. exists p1, p2.
  split; [f_equal; f_equal; lia|]. rewrite Er. f_equal. unfold read_keys, line_ready.
  rewrite H2c, Hm_c, H2e, Hm_e, Hi2, H2m, Hm_m. cbn [y_canon y_eof y_closed y_in view]. rewrite Hc, He, Hm. done.
Qed.

(** ** The table *)

(** The rings are well formed, and a terminal with both sides closed is free. *)
Definition pty_inv p : Prop :=
  pty_ok p ∧ (p_used p = true → p_master_closed p && p_slave_closed p = false) ∧ 0 ≤ p_master_refs p ∧ 0 ≤ p_slave_refs p.

Definition keeps_inv others : Prop := Forall (λ g, ∀ p, pty_inv p → pty_inv (g p)) others.

Lemma becomes_inv y p p' : becomes y p p' → y_closed y = p_master_closed p → pty_inv p → pty_inv p'.
Proof.
  intros (Hok & Hv & Hs) Hm (_ & Hu & H1 & H2). unfold side in Hs. injection Hs as Eu Es Em Esl _ _.
  assert (p_master_closed p' = p_master_closed p) as E by (rewrite <- Hm, <- Hv; done).
  split_and!; [done| |congruence..]. rewrite Eu, E, Es. done.
Qed.

Lemma type_key_closed ch y sigs y' : type_key ch y = Some (sigs, y') → y_closed y' = y_closed y.
Proof.
  assert (He : ∀ s y0, y_closed (echo s y0) = y_closed y0) by (intros s y0; unfold echo; by destruct (y_echo y0)).
  unfold type_key. intros H. repeat case_match; simplify_eq; try rewrite He; done.
Qed.

Lemma others_head others : keeps_inv others → (∀ p, pty_inv p → pty_inv (default id (head others) p)) ∧ keeps_inv (tail others).
Proof. intros H. destruct H as [|g others Hg H]; [by split; [|constructor]|done]. Qed.

Lemma master_write_inv buf : ∀ others p, keeps_inv others → pty_inv p → pty_inv (master_write_loop others buf p).2.
Proof.
  induction buf as [|ch buf IH]; intros others p Ho Hp; cbn [master_write_loop]; [done|].
  pose proof (mw_char_refines ch p (proj1 Hp)) as H. destruct (mw_char ch p) as [p1|pgid sig p1|]; [| |done].
  - destruct H as (y & Et & Hb). assert (Hp1 : pty_inv p1) by (eapply becomes_inv; [done|by eapply type_key_closed in Et|done]).
    specialize (IH others p1 Ho Hp1). by destruct (master_write_loop others buf p1) as [[??]?].
  - destruct H as (y & Et & Hb). assert (Hp1 : pty_inv p1) by (eapply becomes_inv; [done|by eapply type_key_closed in Et|done]).
    apply others_head in Ho as [Hh Ht]. specialize (IH (tail others) _ Ht (Hh _ Hp1)).
    by destruct (master_write_loop (tail others) buf _) as [[??]?].
Qed.

Lemma write_inv others buf : keeps_inv others → ∀ p, pty_inv p → pty_inv (pty_write others buf p).2.
Proof.
  intros Ho p Hp. unfold pty_write. destruct (p_slave_closed p); [done|]. pose proof (master_write_inv buf others p Ho Hp) as H.
  by destruct (master_write_loop others buf p) as [[??]?].
Qed.

Lemma read_inv len p : pty_inv p → pty_inv (pty_read len p).2.
Proof. intros Hp. destruct (pty_read_refines len p (proj1 Hp)) as (p' & -> & Hb). by eapply becomes_inv. Qed.

Lemma pty_wait_inv ready nonblock others : ∀ p, keeps_inv others → pty_inv p → pty_inv (pty_wait ready nonblock others p).2.
Proof.
  induction others as [|g others IH]; intros p Ho Hp; cbn [pty_wait]; destruct (ready p), nonblock; try done.
  apply Forall_cons in Ho as [Hg Ho]. by apply IH; [|apply Hg].
Qed.

Lemma m2s_take_inv stop len p : pty_inv p → pty_inv (m2s_take stop len p).2.
Proof.
  intros Hp. pose proof (m2s_take_refines stop len p (proj1 Hp)) as H. destruct (m2s_take stop len p) as [[n l] p'].
  destruct (cut stop len (tin p)) as [l0 i]. destruct H as (_ & _ & Hb). by eapply becomes_inv.
Qed.

Lemma eof_inv b p : pty_inv p → pty_inv (p <| p_eof_flag := b |>).
Proof. done. Qed.

Lemma slave_read_inv others len nonblock p : keeps_inv others → pty_inv p → pty_inv (slave_read others len nonblock p).2.
Proof.
  intros Ho Hp. unfold slave_read.
  assert (Hw : ∀ ready, pty_inv (pty_wait ready nonblock others p).2) by (intros; by apply pty_wait_inv).
  destruct (pty_canon p).
  - destruct (_ && _); [by apply eof_inv|]. specialize (Hw canon_ready). destruct (pty_wait _ _ _ _) as [[[]|] p1]; try done.
    cbn [snd] in Hw. match goal with |- context [m2s_take _ len ?q] => assert (Hq : pty_inv q) by (by case_match; [apply eof_inv|]);
      pose proof (m2s_take_inv (λ ch, ch =? CH_NL) len q Hq) as Ht; by destruct (m2s_take _ len q) as [[??]?] end.
  - specialize (Hw raw_ready). destruct (pty_wait _ _ _ _) as [[[]|] p1]; try done.
    pose proof (m2s_take_inv (λ _, false) len p1 Hw) as Ht. by destruct (m2s_take _ len p1) as [[??]?].
Qed.

Lemma wait_space_inv others : ∀ retries p,
  keeps_inv others → pty_inv p →
  let '(r, others', p') := wait_space retries others p in
  keeps_inv others' ∧ pty_inv p' ∧
  (r = Some true → p_master_closed p' = false → (r_count (p_s2m p') < PTY_BUF_SIZE)%nat).
Proof.
  induction others as [|g others IH]; intros retries p Ho Hp; cbn [wait_space];
    (case_bool_decide; cbn [orb]; [by split_and!|]); destruct (p_master_closed p) eqn:Em.
  1, 3: by split_and!; [..|congruence].
  - by split_and!.
  - apply Forall_cons in Ho as [Hg Ho]. destruct (_ <? _); [split_and!; [done|by apply Hg|done]|]. by apply IH; [|apply Hg].
Qed.

Lemma slave_write_inv buf : ∀ others written p, keeps_inv others → pty_inv p → pty_inv (slave_write_loop others buf written p).2.
Proof.
  induction buf as [|ch buf IH]; intros others written p Ho Hp; cbn [slave_write_loop]; [done|].
  pose proof (wait_space_inv others 0 p Ho Hp) as H. destruct (wait_space 0 others p) as [[[[]|] o1] p1]; try apply H.
  destruct H as (Ho1 & Hp1 & Hroom). destruct (p_master_closed p1) eqn:Em; [done|].
  apply others_head in Ho1 as [Hh Ht]. apply IH; [done|]. apply Hh. destruct Hp1 as ([Hi Hs] & ?). split; [|done].
  split; [done|]. apply ring_put_wf; [done|]. by apply Hroom.
Qed.

(** The last step of a close. *)
Lemma close_inv p :
  pty_ok p → 0 ≤ p_master_refs p → 0 ≤ p_slave_refs p →
  pty_inv (if p_master_closed p && p_slave_closed p then p <| p_used := false |> else p).
Proof. intros Hok H1 H2. destruct (p_master_closed p && p_slave_closed p) eqn:E; (split; [exact Hok|]); by split. Qed.

Lemma close_master_inv p : pty_inv p → pty_inv (close_master p).
Proof.
  intros (Hok & _ & H1 & H2). unfold close_master. apply close_inv; destruct (0 <? p_master_refs p) eqn:E0; bool_hyps;
    (destruct (_ =? 0); [|idtac]); try exact Hok; cbn; lia.
Qed.
Lemma close_slave_inv p : pty_inv p → pty_inv (close_slave p).
Proof.
  intros (Hok & _ & H1 & H2). unfold close_slave. apply close_inv; destruct (0 <? p_slave_refs p) eqn:E0; bool_hyps;
    (destruct (_ =? 0); [|idtac]); try exact Hok; cbn; lia.
Qed.

Lemma set_termios_inv t p : pty_inv p → pty_inv (set_termios t p).
Proof. intros Hp. eapply becomes_inv; [apply set_termios_refines, Hp|done|done]. Qed.

Lemma ioctl_inv cmd arg t w p : pty_inv p → pty_inv (ioctl cmd arg t w p).2.
Proof.
  intros Hp. unfold ioctl. repeat (match goal with |- context [if ?b then _ else _] => destruct b end; try done).
  by apply set_termios_inv.
Qed.

(** What another process may do to a terminal while its lock is free: one critical
    section of an operation.  A write types a character, a read clears the flag for
    the end of input or takes bytes, a slave's write puts one byte if there is room,
    and a terminal that is free may be allocated again. *)
Inductive section : pty → pty → Prop :=
| Sec_type ch p : section p (match mw_char ch p with MwTaken p' | MwSignal _ _ p' => p' | MwFull => p end)
| Sec_read len p : section p (pty_read len p).2
| Sec_eof p : section p (p <| p_eof_flag := false |>)
| Sec_take stop len p : section p (m2s_take stop len p).2
| Sec_put ch p : (r_count (p_s2m p) < PTY_BUF_SIZE)%nat → section p (p <| p_s2m := ring_put PTY_BUF_SIZE (λ _, ch) (p_s2m p) |>)
| Sec_close_master p : section p (close_master p)
| Sec_close_slave p : section p (close_slave p)
| Sec_ref is_master p : section p (ref_side is_master p)
| Sec_own is_master n p : 0 ≤ n → section p (own_side is_master n p)
| Sec_ioctl cmd arg t w p : section p (ioctl cmd arg t w p).2
| Sec_alloc p : p_used p = false → section p (pty_reset p).

(** The others run any number of critical sections at each point. *)
Definition interferes others : Prop := Forall (λ g, ∀ p, rtc section p (g p)) others.

Lemma ref_side_inv b p : pty_inv p → pty_inv (ref_side b p).
Proof.
  intros (Hok & Hu & H1 & H2). unfold ref_side. pose proof (u32_range (p_master_refs p + 1)). pose proof (u32_range (p_slave_refs p + 1)).
  destruct b; split_and!; cbn; try done; lia.
Qed.
Lemma own_side_inv b n p : 0 ≤ n → pty_inv p → pty_inv (own_side b n p).
Proof. intros Hn (Hok & Hu & H1 & H2). unfold own_side. by destruct b; split_and!. Qed.
Lemma pty_reset_inv p : pty_inv p → pty_inv (pty_reset p).
Proof.
  intros ([[Hi _] [Ho _]] & _). split; [|done]. by split; apply ring_reset_wf; try done; apply buf_size_pos.
Qed.

Lemma section_inv p q : section p q → pty_inv p → pty_inv q.
Proof.
  intros Hs Hp. destruct Hs as [ch p|len p|p|stop len p|ch p Hr|p|p|b p|b n p Hn|cmd arg t w p|p Hu].
  - pose proof (mw_char_refines ch p (proj1 Hp)) as H. destruct (mw_char ch p) as [p1|pgid sig p1|]; [| |done];
      destruct H as (y & Et & Hb); (eapply becomes_inv; [done|by eapply type_key_closed in Et|done]).
  - by apply read_inv.
  - by apply eof_inv.
  - by apply m2s_take_inv.
  - destruct Hp as ([Hi Hs] & ?). split; [|done]. split; [done|]. by apply ring_put_wf.
  - by apply close_master_inv.
  - by apply close_slave_inv.
  - by apply ref_side_inv.
  - by apply own_side_inv.
  - by apply ioctl_inv.
  - by apply pty_reset_inv.
Qed.

Lemma interferes_keeps others : interferes others → keeps_inv others.
Proof.
  intros H. eapply Forall_impl; [exact H|]. intros g Hg p Hp. specialize (Hg p).
  induction Hg as [|x y z Hxy _ IH]; [done|]. apply IH. by eapply section_inv.
Qed.

(** One operation on the table, with anything the others may do meanwhile. *)
Inductive pty_step : list pty → list pty → Prop :=
| PS_init ps : pty_step ps (pty_init ps)
| PS_alloc ps : pty_step ps (pty_alloc ps).2
| PS_master_write others idx buf ps : interferes others → pty_step ps (pty_master_write others idx buf ps).2
| PS_master_read idx len ps : pty_step ps (pty_master_read idx len ps).2
| PS_slave_read others idx len nonblock ps : interferes others → pty_step ps (pty_slave_read others idx len nonblock ps).2
| PS_slave_write others idx buf ps : interferes others → pty_step ps (pty_slave_write others idx buf ps).2
| PS_close_master idx ps : pty_step ps (pty_close_master idx ps)
| PS_close_slave idx ps : pty_step ps (pty_close_slave idx ps)
| PS_ref idx is_master ps : pty_step ps (with_pty idx tt (λ p, (tt, ref_side is_master p)) ps).2
| PS_own idx is_master n ps : 0 ≤ n → pty_step ps (with_pty idx tt (λ p, (tt, own_side is_master n p)) ps).2
| PS_ioctl idx cmd arg t w ps : pty_step ps (pty_ioctl idx cmd arg t w ps).2
| PS_console console ps : pty_step ps (pty_create_console console ps).2
| PS_console_input others console ch ps : interferes others → pty_step ps (pty_console_input others console ch ps).2.

Definition pty_boot : list pty := replicate MAX_PTYS inhabitant.

Definition ptys_inv ps : Prop := length ps = MAX_PTYS ∧ Forall pty_inv ps.

Lemma empty_ring_wf : ring_wf PTY_BUF_SIZE empty_ring.
Proof. split_and!; [apply length_replicate|pose proof buf_size_pos; cbn; lia..|done]. Qed.

Lemma inhabitant_inv : pty_inv inhabitant.
Proof. split; [split; apply empty_ring_wf|]. done. Qed.

Lemma ptys_total ps i : ptys_inv ps → pty_inv (ps !!! i).
Proof.
  intros [_ Hf]. rewrite list_lookup_total_alt. destruct (ps !! i) as [p|] eqn:E; [|apply inhabitant_inv].
  by apply (proj1 (Forall_lookup _ _) Hf i).
Qed.

Lemma with_pty_inv {R} idx (bad : R) op ps :
  ptys_inv ps → (∀ p, pty_inv p → pty_inv (op p).2) → ptys_inv (with_pty idx bad op ps).2.
Proof.
  intros Hps Hop. unfold with_pty. destruct (pty_bad idx ps); [done|]. pose proof (Hop _ (ptys_total ps (Z.to_nat idx) Hps)) as H.
  destruct (op _) as [r p]. destruct Hps as [Hl Hf]. split; cbn [snd]; [by rewrite length_insert|by apply Forall_insert].
Qed.

Lemma pty_alloc_inv ps : ptys_inv ps → ptys_inv (pty_alloc ps).2.
Proof.
  intros Hps. unfold pty_alloc. destruct (find_idx _ ps) as [i|]; [|done]. pose proof (ptys_total ps i Hps) as Hp.
  destruct Hps as [Hl Hf]. split; cbn [snd]; [by rewrite length_insert|]. apply Forall_insert; [done|]. by apply pty_reset_inv.
Qed.

Lemma pty_step_inv ps ps' : pty_step ps ps' → ptys_inv ps → ptys_inv ps'.
Proof.
  intros Hs Hps. destruct Hs as [ps|ps|others idx buf ps Ho|idx len ps|others idx len nb ps Ho|others idx buf ps Ho|idx ps|idx ps|idx b ps|idx b n ps Hn|
    idx cmd arg t w ps|console ps|others console ch ps Ho].
  - destruct Hps as [Hl Hf]. unfold pty_init. split; [by rewrite length_fmap|]. apply Forall_fmap. eapply Forall_impl; [done|].
    intros p (Hok & _ & ?). split; [done|]. by split.
  - by apply pty_alloc_inv.
  - by apply with_pty_inv, write_inv, interferes_keeps.
  - by apply with_pty_inv, read_inv.
  - apply with_pty_inv; [done|]. intros. by apply slave_read_inv; [apply interferes_keeps|].
  - apply with_pty_inv; [done|]. intros. by apply slave_write_inv; [apply interferes_keeps|].
  - apply with_pty_inv; [done|]. intros. by apply close_master_inv.
  - apply with_pty_inv; [done|]. intros. by apply close_slave_inv.
  - apply with_pty_inv; [done|]. intros. by apply ref_side_inv.
  - apply with_pty_inv; [done|]. intros. by apply own_side_inv.
  - apply with_pty_inv; [done|]. intros. by apply ioctl_inv.
  - unfold pty_create_console. pose proof (pty_alloc_inv ps Hps) as Ha. destruct (pty_alloc ps) as [idx ps1].
    destruct (idx <? 0); [done|]. destruct Ha as [Hl Hf]. split; cbn [snd]; [by rewrite length_alter|]. apply Forall_alter; [done|].
    intros p _ (Hok & Hu & _ & H2). split; [done|]. split; [done|]. cbn. lia.
  - unfold pty_console_input. destruct (console <? 0); [done|].
    pose proof (with_pty_inv console (-1, []) (pty_write others [u8 ch]) ps Hps (write_inv others _ (interferes_keeps _ Ho))) as H.
    unfold pty_master_write. by destruct (with_pty _ _ _ _) as [[??]?].
Qed.

(** C20.  Whatever sequence of operations ran since boot, the copies of descriptors
    included, and whatever critical sections of other operations ran at the points
    where an operation leaves the lock of its terminal free, the positions and counts
    of both rings of every terminal stay within the buffer and consistent, no
    reference count is negative, and a terminal in use has an open side. *)
Theorem pty_reachable_inv ps : rtc pty_step pty_boot ps → ptys_inv ps.
Proof.
  intros Hr. apply (rtc_invariant pty_step ptys_inv pty_boot); [intros; by eapply pty_step_inv|done|].
  split; [done|]. apply Forall_replicate, inhabitant_inv.
Qed.

(** ** Samples *)

(** A fresh terminal, and one full of an unfinished line. *)
Definition sample_pty : pty := pty_reset inhabitant.
Definition full_pty : pty := sample_pty <| p_m2s := mk_ring (replicate PTY_BUF_SIZE 97) 0 0 PTY_BUF_SIZE |>.

Lemma sample_pty_ok : pty_ok sample_pty.
Proof. exact (proj1 (pty_reset_inv _ inhabitant_inv)). Qed.

Lemma full_pty_ok : pty_ok full_pty.
Proof. split; apply (bool_decide_unpack _); by vm_compute. Qed.

Lemma full_pty_wedged : wedged full_pty.
Proof. split; [done|]. split; [by rewrite <- (tin_count _ full_pty_ok)|]. split; [|done]. apply (bool_decide_unpack _). by vm_compute. Qed.

(** "ab", erase, "c", newline is read as "ac". *)
Definition sample_keys : list Z := [97; 98; CH_DEL; 99].
Definition plain_modes : termios := mk_termios 0 0 0 0 0 (replicate 32 0) 0 0.
Definition sample_tops : list top :=
  [TType (sample_keys ++ [CH_CR]); TRead 100 true; TPrint [104; 105]; TShow 100; TModes plain_modes; TType [CH_INTR]; TRead 1 true].

Lemma pty_refines_witness :
  pty_ok sample_pty ∧ (let '(rs, p') := pty_run sample_tops sample_pty in
                       tty_run sample_tops (view sample_pty) = (rs, view p') ∧ pty_ok p').
Proof. split; [exact sample_pty_ok|]. apply (pty_refines sample_tops sample_pty sample_pty_ok). reflexivity. Defined.

Lemma typed_line_read_witness :
  edited sample_keys = [97; 99; CH_NL] ∧
  ∃ p', type_and_read sample_keys 2 sample_pty = (5, Some (2, [97; 99]), p') ∧ tin p' = [CH_NL] ∧ pty_ok p'.
Proof.
  split; [reflexivity|].
  apply (typed_line_read sample_keys 2 sample_pty sample_pty_ok); try reflexivity.
  apply Nat.ltb_lt. vm_compute. reflexivity.
Defined.

Lemma full_line_wedges_witness :
  Forall (λ keys, pty_write [] keys full_pty = (0, [], full_pty)) [[98]; [CH_NL]] ∧
  slave_read ((λ keys q, (pty_write [] keys q).2) <$> [[98]; [CH_NL]]) 10 false full_pty = (None, full_pty).
Proof.
  apply (full_line_wedges [[98]; [CH_NL]] 10 full_pty full_pty_ok full_pty_wedged); [reflexivity|].
  repeat constructor.
Defined.

Lemma kill_loses_line_witness :
  ∃ p' p'', pty_write [] ((sample_keys ++ [CH_NL]) ++ [CH_KILL]) sample_pty = (6, [], p') ∧ slave_read [] 80 true p' = (Some (0, []), p'').
Proof.
  apply (kill_loses_line sample_keys 80 sample_pty sample_pty_ok); try reflexivity.
  apply Nat.ltb_lt. vm_compute. reflexivity.
Defined.

(** A read waits on the console; meanwhile another process types a line. *)
Definition typing (p : pty) : pty := match mw_char CH_NL p with MwTaken p' | MwSignal _ _ p' => p' | MwFull => p end.
Lemma pty_reachable_inv_witness :
  ptys_inv (pty_slave_read [typing] 0 80 false (with_pty 0 tt (λ p, (tt, ref_side false p)) (pty_create_console (-1) pty_boot).2).2).2.
Proof.
  apply pty_reachable_inv. eapply rtc_l; [apply (PS_console (-1))|]. eapply rtc_l; [apply (PS_ref 0 false)|].
  eapply rtc_l; [|apply rtc_refl]. apply PS_slave_read. constructor; [|constructor]. intros p. apply rtc_once, Sec_type.
Defined.

(** The request number of Linux for the foreground group is refused: the header
    overrides it with another number. *)
Lemma tiocgpgrp_refused t w p : (ioctl 0x540F 1 t w p).1.1.1 = -1 ∧ (ioctl 0x5411 1 t w p).1.1.1 = i32 (p_fg_pgid p).
Proof. done. Qed.
