(* ===== verification/Net.v ===== *)
(** * Net: packets, checksums and the state of the network stack

    The data of [src/kernel/src/net/net.h], [net/net.c], [net/tcp.h] and
    [net/tcp.c]: byte order, the Internet checksum, the headers of Ethernet, ARP,
    IPv4, ICMP, UDP and TCP as bytes, and the tables the stack keeps.  The
    operations are in [Tcp] and [NetStack].

    A packet is a list of bytes and a length: a pointer into a buffer sees the
    bytes from there on, also those behind the packet.  [arch_timer_get_ticks] and
    [sched_has_pending_signal] are fields of the state; frames handed to the
    device are appended to [n_out]. *)

From S2P Require Import Prelude KUtil Mem Bytes Ring.

Abbreviation EINTR := 4 (only parsing).
Abbreviation EBADF := 9 (only parsing).
Abbreviation ETIMEDOUT := 110 (only parsing).
Abbreviation EINPROGRESS := 115 (only parsing).

(** ** Byte order *)

Definition htons (h : Z) : Z := u16 (Z.lor (Z.shiftr h 8) (Z.shiftl h 8)).
Definition htonl (h : Z) : Z :=
  u32 (Z.lor (Z.lor (Z.land (Z.shiftr h 24) 0xFF) (Z.land (Z.shiftr h 8) 0xFF00))
             (Z.lor (Z.land (Z.shiftl h 8) 0xFF0000) (Z.land (Z.shiftl h 24) 0xFF000000))).
Abbreviation ntohs := htons (only parsing).
Abbreviation ntohl := htonl (only parsing).

(** ** The Internet checksum *)

(** [while (len > 1) { sum += *ptr++; len -= 2; }], and the odd byte. *)
Fixpoint sum_words (sum : Z) (l : list Z) : Z :=
  match l with
  | a :: b :: l' => sum_words (u32 (sum + (a + 256 * b))) l'
  | [a] => u32 (sum + a)
  | [] => sum
  end.

(** [while (sum >> 16) sum = (sum & 0xFFFF) + (sum >> 16)]. *)
Fixpoint fold_carry (fuel : nat) (sum : Z) : Z :=
  match fuel with
  | O => sum
  | S fuel' => if Z.shiftr sum 16 =? 0 then sum else fold_carry fuel' (Z.land sum 0xFFFF + Z.shiftr sum 16)
  end.

(** A 32-bit sum needs two rounds. *)
Definition carry_fuel : nat := 2.

Definition ip_checksum (l : list Z) : Z := u16 (Z.lnot (fold_carry carry_fuel (sum_words 0 l))).

(** The sum of the pseudo-header; the segment comes after it. *)
Definition pseudo_sum (src_ip dst_ip tcp_len : Z) : Z :=
  let src_n := htonl src_ip in
  let dst_n := htonl dst_ip in
  let sum := u32 (0 + Z.land (Z.shiftr src_n 16) 0xFFFF) in
  let sum := u32 (sum + Z.land src_n 0xFFFF) in
  let sum := u32 (sum + Z.land (Z.shiftr dst_n 16) 0xFFFF) in
  let sum := u32 (sum + Z.land dst_n 0xFFFF) in
  let sum := u32 (sum + htons 6) in
  u32 (sum + htons (u16 tcp_len)).

Definition tcp_checksum (src_ip dst_ip : Z) (seg : list Z) : Z :=
  u16 (Z.lnot (fold_carry carry_fuel (sum_words (pseudo_sum src_ip dst_ip (Z.of_nat (length seg))) seg))).

(** ** Connections *)

Inductive tcp_state :=
| TCP_CLOSED | TCP_LISTEN | TCP_SYN_SENT | TCP_SYN_RECEIVED | TCP_ESTABLISHED | TCP_FIN_WAIT_1 | TCP_FIN_WAIT_2
| TCP_CLOSE_WAIT | TCP_LAST_ACK | TCP_TIME_WAIT | TCP_CLOSING.
#[export] Instance tcp_state_eq_dec : EqDecision tcp_state.
Proof. solve_decision. Defined.

Abbreviation MAX_TCP_CONNS := 32%nat (only parsing).
Definition TCP_RX_BUF_SIZE : nat := Z.to_nat 8192.
Definition TCP_MSS : nat := Z.to_nat 1460.
Abbreviation TCP_WINDOW := 8192 (only parsing).
Abbreviation TCP_BACKLOG_SIZE := 4%nat (only parsing).

Abbreviation TCP_FIN := 0x01 (only parsing).
Abbreviation TCP_SYN := 0x02 (only parsing).
Abbreviation TCP_RST := 0x04 (only parsing).
Abbreviation TCP_PSH := 0x08 (only parsing).
Abbreviation TCP_ACK := 0x10 (only parsing).

Record backlog_entry := mk_backlog { bl_remote_ip : Z; bl_remote_port : Z; bl_remote_seq : Z; bl_valid : bool }.
#[export] Instance backlog_entry_eta : Eta backlog_entry :=
  λ b, mk_backlog (bl_remote_ip b) (bl_remote_port b) (bl_remote_seq b) (bl_valid b).

Record tcp_conn := mk_conn {
  c_in_use : bool;
  c_state : tcp_state;
  c_local_ip : Z;
  c_local_port : Z;
  c_remote_ip : Z;
  c_remote_port : Z;
  c_snd_una : Z;
  c_snd_nxt : Z;
  c_snd_iss : Z;
  c_rcv_nxt : Z;
  c_rcv_irs : Z;
  c_rx : ring Z;                 (* rx_buf, rx_read_pos, rx_write_pos, rx_count *)
  c_tx_buf : list Z;             (* the first tx_buf_len bytes *)
  c_tx_buf_seq : Z;
  c_rto_tick : Z;
  c_retransmit_count : Z;
  c_snd_wnd : Z;
  c_rcv_wnd : Z;
  c_backlog : list backlog_entry;
  c_rx_data_ready : bool;
  c_accepted : bool;
  c_fin_received : bool;
  c_rst_received : bool;
  c_nonblock : bool;
  c_time_wait_tick : Z
}.
#[export] Instance tcp_conn_eta : Eta tcp_conn := λ c,
  mk_conn (c_in_use c) (c_state c) (c_local_ip c) (c_local_port c) (c_remote_ip c) (c_remote_port c) (c_snd_una c)
    (c_snd_nxt c) (c_snd_iss c) (c_rcv_nxt c) (c_rcv_irs c) (c_rx c) (c_tx_buf c) (c_tx_buf_seq c) (c_rto_tick c)
    (c_retransmit_count c) (c_snd_wnd c) (c_rcv_wnd c) (c_backlog c) (c_rx_data_ready c) (c_accepted c)
    (c_fin_received c) (c_rst_received c) (c_nonblock c) (c_time_wait_tick c).

(** [tcp_memset(c, 0, sizeof(tcp_conn_t))]. *)
Definition zero_conn : tcp_conn :=
  mk_conn false TCP_CLOSED 0 0 0 0 0 0 0 0 0 (mk_ring (replicate TCP_RX_BUF_SIZE 0) 0 0 0) [] 0 0 0 0 0
    (replicate TCP_BACKLOG_SIZE (mk_backlog 0 0 0 false)) false false false false false 0.
#[export] Instance tcp_conn_inhabited : Inhabited tcp_conn := populate zero_conn.

(** ** Sockets and addresses *)

Abbreviation MAX_SOCKETS := 8%nat (only parsing).
Abbreviation SOCKET_BUF_SIZE := 1500 (only parsing).
Abbreviation ARP_TABLE_SIZE := 16%nat (only parsing).
Abbreviation NET_IP := 0x0A00020F (only parsing).
Abbreviation NET_GW := 0x0A000202 (only parsing).
Abbreviation NET_MASK := 0xFFFFFF00 (only parsing).
Abbreviation LOOPBACK_NET := 0x7F000000 (only parsing).

Record socket := mk_socket {
  so_in_use : bool;
  so_local_port : Z;
  so_rx_buf : list Z;            (* the first rx_len bytes *)
  so_rx_src_ip : Z;
  so_rx_src_port : Z;
  so_rx_ready : bool
}.
#[export] Instance socket_eta : Eta socket :=
  λ s, mk_socket (so_in_use s) (so_local_port s) (so_rx_buf s) (so_rx_src_ip s) (so_rx_src_port s) (so_rx_ready s).
#[export] Instance socket_inhabited : Inhabited socket := populate (mk_socket false 0 [] 0 0 false).

Record arp_entry := mk_arp { ar_ip : Z; ar_mac : list Z; ar_valid : bool }.
#[export] Instance arp_entry_eta : Eta arp_entry := λ a, mk_arp (ar_ip a) (ar_mac a) (ar_valid a).
#[export] Instance arp_entry_inhabited : Inhabited arp_entry := populate (mk_arp 0 (replicate 6 0) false).

Record net_st := mk_net {
  n_mac : list Z;
  n_our_ip : Z;
  n_gw_ip : Z;
  n_arp : list arp_entry;
  n_sockets : list socket;
  n_ping : bool;                 (* ping_reply_received *)
  n_ip_id : Z;                   (* ip_id_counter *)
  n_conns : list tcp_conn;
  n_ephemeral : Z;               (* tcp_ephemeral_port *)
  n_ticks : Z;                   (* arch_timer_get_ticks *)
  n_signal : bool;               (* sched_has_pending_signal *)
  n_out : list (list Z)          (* frames given to the device *)
}.
#[export] Instance net_st_eta : Eta net_st := λ s,
  mk_net (n_mac s) (n_our_ip s) (n_gw_ip s) (n_arp s) (n_sockets s) (n_ping s) (n_ip_id s) (n_conns s) (n_ephemeral s)
    (n_ticks s) (n_signal s) (n_out s).

(** At boot. *)
Definition net_zero : net_st :=
  mk_net (replicate 6 0) 0 0 (replicate ARP_TABLE_SIZE inhabitant) (replicate MAX_SOCKETS inhabitant) false 1
    (replicate MAX_TCP_CONNS zero_conn) 49152 0 false [].

(** ** Headers *)

(** [tcp_hdr_t]. *)
Record tcp_hdr := mk_tcp_hdr {
  th_src_port : Z;
  th_dst_port : Z;
  th_seq : Z;
  th_ack : Z;
  th_data_offset : Z;
  th_flags : Z;
  th_window : Z
}.

(** The header in front of the data, with a checksum of zero. *)
Definition tcp_hdr_bytes (h : tcp_hdr) (data : list Z) : list Z :=
  let seg := replicate 20 0 ++ data in
  let seg := set_field 0 2 (htons (th_src_port h)) seg in
  let seg := set_field 2 2 (htons (th_dst_port h)) seg in
  let seg := set_field 4 4 (htonl (th_seq h)) seg in
  let seg := set_field 8 4 (htonl (th_ack h)) seg in
  let seg := set_field 12 1 (th_data_offset h) seg in
  let seg := set_field 13 1 (th_flags h) seg in
  set_field 14 2 (htons (th_window h)) seg.

Definition tcp_hdr_of (l : list Z) : tcp_hdr :=
  mk_tcp_hdr (ntohs (get_field 0 2 l)) (ntohs (get_field 2 2 l)) (ntohl (get_field 4 4 l)) (ntohl (get_field 8 4 l))
    (get_field 12 1 l) (get_field 13 1 l) (ntohs (get_field 14 2 l)).
