(* ===== verification/Tcp.v ===== *)
(** * Tcp: the TCP connection table

    Models [src/kernel/src/net/tcp.c]: a table of 32 connections, the handling of
    incoming segments in each state, the retransmission and time-wait timer, and
    the operations behind the socket system calls.

    Segments leave through [net_tx_ipv4] of [net/net.c], which for an address of
    the own host calls [tcp_rx] again before it returns.  The operations here
    take it as the function [tx]; [NetStack] gives the real one.  [yield] is what
    everybody else does to the state of the network during one [sched_yield]:
    interrupts, the clock, other processes.  The waiting loops of the code count
    down, so they end by themselves. *)

From S2P Require Import Prelude KUtil Mem Bytes Ring Net.

Implicit Types (c : tcp_conn) (st : net_st) (i : nat).

Definition conn_at i st : tcp_conn := n_conns st !!! i.
Definition set_conn (f : tcp_conn → tcp_conn) i st : net_st := st <| n_conns := alter f i (n_conns st) |>.

Definition has_flag (flags f : Z) : bool := negb (Z.land flags f =? 0).
Definition in_state (s : tcp_state) c : bool := bool_decide (c_state c = s).

Definition tcp_init st : net_st := st <| n_conns := (λ c, c <| c_in_use := false |>) <$> n_conns st |>.

Definition tcp_gen_isn i st : Z := u32 (u64 (n_ticks st * 64000) + u32 (Z.of_nat i * 1000)).

Definition tcp_calc_rcv_wnd c : Z :=
  let space := Z.of_nat (TCP_RX_BUF_SIZE - r_count (c_rx c)) in u16 (if 0xFFFF <? space then 0xFFFF else space).

Definition tcp_find_conn (local_port remote_ip remote_port : Z) st : option nat :=
  find_idx (λ c, c_in_use c && (c_local_port c =? local_port) && (c_remote_ip c =? remote_ip) && (c_remote_port c =? remote_port))
    (n_conns st).

Definition tcp_find_listener (local_port : Z) st : option nat :=
  find_idx (λ c, c_in_use c && in_state TCP_LISTEN c && (c_local_port c =? local_port)) (n_conns st).

(** [n] bytes at a pointer; what is behind the known bytes reads as 0. *)
Definition read_bytes (n : nat) (l : list Z) : list Z := (λ k, l !!! k) <$> seq 0 n.

(** The copy into the receive ring. *)
Definition rx_puts (l : list Z) (r : ring Z) : ring Z := foldl (λ r b, ring_put TCP_RX_BUF_SIZE (λ _, b) r) r l.

(** The header a connection sends. *)
Definition seg_hdr (flags : Z) c : tcp_hdr :=
  mk_tcp_hdr (c_local_port c) (c_remote_port c) (c_snd_nxt c) (c_rcv_nxt c) (Z.shiftl 5 4) flags (c_rcv_wnd c).

Definition tcp_segment (flags : Z) (data : list Z) c : list Z :=
  let seg := tcp_hdr_bytes (seg_hdr flags c) data in
  set_field 16 2 (tcp_checksum (c_local_ip c) (c_remote_ip c) seg) seg.

Definition rst_segment (src_ip src_port dst_ip dst_port ack_num : Z) : list Z :=
  let seg := tcp_hdr_bytes (mk_tcp_hdr src_port dst_port ack_num 0 (Z.shiftl 5 4) (Z.lor TCP_RST TCP_ACK) 0) [] in
  set_field 16 2 (tcp_checksum src_ip dst_ip seg) seg.

Section tcp.
Context (tx : Z → Z → list Z → net_st → Z * net_st) (yield : net_st → net_st).

Definition tcp_send_segment i (flags : Z) (data : list Z) st : net_st :=
  let st := set_conn (λ c, c <| c_rcv_wnd := tcp_calc_rcv_wnd c |>) i st in
  let c := conn_at i st in
  (tx (c_remote_ip c) 6 (tcp_segment flags data c) st).2.

Definition tcp_send_ack i st : net_st := tcp_send_segment i TCP_ACK [] st.

Definition tcp_send_rst_for (src_ip src_port dst_ip dst_port ack_num : Z) st : net_st :=
  (tx dst_ip 6 (rst_segment src_ip src_port dst_ip dst_port ack_num) st).2.

(** ** Incoming segments *)

Definition rx_listen i (src_ip : Z) (h : tcp_hdr) st : net_st :=
  if has_flag (th_flags h) TCP_SYN then
    match find_idx (λ b, negb (bl_valid b)) (c_backlog (conn_at i st)) with
    | Some k => set_conn (λ c, c <| c_backlog := <[k := mk_backlog src_ip (th_src_port h) (th_seq h) true]> (c_backlog c) |>) i st
    | None => st
    end
  else st.

Definition conn_reset c : tcp_conn := c <| c_rst_received := true |> <| c_state := TCP_CLOSED |>.
Definition conn_free c : tcp_conn := c <| c_state := TCP_CLOSED |> <| c_in_use := false |>.

Definition rx_syn_sent i (h : tcp_hdr) st : net_st :=
  if Z.land (th_flags h) (Z.lor TCP_SYN TCP_ACK) =? Z.lor TCP_SYN TCP_ACK then
    if negb (th_ack h =? c_snd_nxt (conn_at i st)) then st
    else
      let st := set_conn (λ c, c <| c_rcv_irs := th_seq h |> <| c_rcv_nxt := u32 (th_seq h + 1) |> <| c_snd_una := th_ack h |>
                                 <| c_snd_wnd := th_window h |> <| c_state := TCP_ESTABLISHED |> <| c_retransmit_count := 0 |>) i st in
      tcp_send_ack i st
  else if has_flag (th_flags h) TCP_RST then set_conn conn_reset i st
  else st.

(** [established_data]: the payload, if it is the next, and the end of the
    stream. *)
Definition rx_data i (h : tcp_hdr) (payload : list Z) (payload_len : Z) st : net_st :=
  let st :=
    if 0 <? payload_len then
      if th_seq h =? c_rcv_nxt (conn_at i st) then
        let space := Z.of_nat (TCP_RX_BUF_SIZE - r_count (c_rx (conn_at i st))) in
        let copy := if space <? payload_len then space else payload_len in
        let st := set_conn (λ c, c <| c_rx := rx_puts (read_bytes (Z.to_nat copy) payload) (c_rx c) |>
                                   <| c_rcv_nxt := u32 (c_rcv_nxt c + copy) |> <| c_rx_data_ready := true |>) i st in
        tcp_send_ack i st
      else tcp_send_ack i st
    else st in
  if has_flag (th_flags h) TCP_FIN then
    let st := set_conn (λ c, c <| c_rcv_nxt := u32 (th_seq h + payload_len + 1) |> <| c_fin_received := true |>
                               <| c_state := TCP_CLOSE_WAIT |>) i st in
    tcp_send_ack i st
  else st.

Definition rx_syn_received i (h : tcp_hdr) (payload : list Z) (payload_len : Z) st : net_st :=
  if has_flag (th_flags h) TCP_ACK then
    if th_ack h =? u32 (c_snd_iss (conn_at i st) + 1) then
      let st := set_conn (λ c, c <| c_snd_una := th_ack h |> <| c_snd_nxt := u32 (c_snd_iss c + 1) |>
                                 <| c_state := TCP_ESTABLISHED |> <| c_accepted := true |> <| c_retransmit_count := 0 |>) i st in
      if 0 <? payload_len then rx_data i h payload payload_len st else st
    else st
  else if has_flag (th_flags h) TCP_RST then set_conn conn_reset i st
  else st.

(** [ack > snd_una && ack <= snd_nxt], compared as 32-bit numbers. *)
Definition acks_new (ack : Z) c : bool := (c_snd_una c <? ack) && (ack <=? c_snd_nxt c).

Definition rx_established i (h : tcp_hdr) (payload : list Z) (payload_len : Z) st : net_st :=
  if has_flag (th_flags h) TCP_RST then set_conn conn_reset i st
  else
    let st :=
      if has_flag (th_flags h) TCP_ACK then
        set_conn (λ c, (if acks_new (th_ack h) c then c <| c_snd_una := th_ack h |> <| c_retransmit_count := 0 |> else c)
                         <| c_snd_wnd := th_window h |>) i st
      else st in
    rx_data i h payload payload_len st.

(** [rcv_nxt = seq + payload_len + 1], and the timer of the closed connection. *)
Definition rx_last_fin i (h : tcp_hdr) (payload_len : Z) st : net_st :=
  tcp_send_ack i
    (set_conn (λ c, c <| c_rcv_nxt := u32 (th_seq h + payload_len + 1) |> <| c_state := TCP_TIME_WAIT |>
                      <| c_time_wait_tick := n_ticks st + 36 |>) i st).

Definition rx_fin_wait_1 i (h : tcp_hdr) (payload_len : Z) st : net_st :=
  let fin := has_flag (th_flags h) TCP_FIN in
  if has_flag (th_flags h) TCP_RST then set_conn (λ c, (conn_reset c) <| c_in_use := false |>) i st
  else
    let st :=
      if has_flag (th_flags h) TCP_ACK && (th_ack h =? c_snd_nxt (conn_at i st)) then
        let st := set_conn (λ c, c <| c_snd_una := th_ack h |>) i st in
        if fin then rx_last_fin i h payload_len st else set_conn (λ c, c <| c_state := TCP_FIN_WAIT_2 |>) i st
      else st in
    if fin && in_state TCP_FIN_WAIT_1 (conn_at i st) then
      tcp_send_ack i (set_conn (λ c, c <| c_rcv_nxt := u32 (th_seq h + payload_len + 1) |> <| c_state := TCP_CLOSING |>) i st)
    else st.

Definition rx_close_wait i (h : tcp_hdr) st : net_st :=
  if has_flag (th_flags h) TCP_RST then set_conn (λ c, (conn_reset c) <| c_in_use := false |>) i st
  else
    let st :=
      if has_flag (th_flags h) TCP_ACK then
        set_conn (λ c, (if acks_new (th_ack h) c then c <| c_snd_una := th_ack h |> else c) <| c_snd_wnd := th_window h |>) i st
      else st in
    if has_flag (th_flags h) TCP_FIN then tcp_send_ack i st else st.

(** The switch over the state of connection [i]. *)
Definition rx_conn i (src_ip : Z) (h : tcp_hdr) (payload : list Z) (payload_len : Z) st : net_st :=
  let fin := has_flag (th_flags h) TCP_FIN in
  let acked := has_flag (th_flags h) TCP_ACK && (th_ack h =? c_snd_nxt (conn_at i st)) in
  match c_state (conn_at i st) with
  | TCP_LISTEN => rx_listen i src_ip h st
  | TCP_SYN_SENT => rx_syn_sent i h st
  | TCP_SYN_RECEIVED => rx_syn_received i h payload payload_len st
  | TCP_ESTABLISHED => rx_established i h payload payload_len st
  | TCP_FIN_WAIT_1 => rx_fin_wait_1 i h payload_len st
  | TCP_FIN_WAIT_2 => if fin then rx_last_fin i h payload_len st else st
  | TCP_CLOSING =>
      if acked then set_conn (λ c, c <| c_state := TCP_TIME_WAIT |> <| c_time_wait_tick := n_ticks st + 36 |>) i st else st
  | TCP_CLOSE_WAIT => rx_close_wait i h st
  | TCP_LAST_ACK => if acked then set_conn conn_free i st else st
  | TCP_TIME_WAIT =>
      if fin then let st := tcp_send_ack i st in set_conn (λ c, c <| c_time_wait_tick := n_ticks st + 36 |>) i st else st
  | TCP_CLOSED => st
  end.

Definition tcp_rx (src_ip : Z) (data : list Z) (len : Z) st : net_st :=
  if len <? 20 then st
  else
    let h := tcp_hdr_of data in
    let hdr_len := Z.shiftr (th_data_offset h) 4 * 4 in
    if (hdr_len <? 20) || (len <? hdr_len) then st
    else
      let payload := drop (Z.to_nat hdr_len) data in
      let payload_len := len - hdr_len in
      match tcp_find_conn (th_dst_port h) src_ip (th_src_port h) st with
      | Some i => rx_conn i src_ip h payload payload_len st
      | None =>
          match tcp_find_listener (th_dst_port h) st with
          | Some i => rx_conn i src_ip h payload payload_len st
          | None =>
              if has_flag (th_flags h) TCP_RST then st
              else tcp_send_rst_for NET_IP (th_dst_port h) src_ip (th_src_port h)
                     (if has_flag (th_flags h) TCP_ACK then th_ack h else u32 (th_seq h + 1)) st
          end
      end.

(** ** The timer *)

(** [rto = 18; for (r = 0; r < count; r++) rto *= 2]. *)
Definition rto_of (count : Z) : Z := Nat.iter (Z.to_nat count) (λ rto, u64 (rto * 2)) 18.

Definition timer_conn (now : Z) i st : net_st :=
  let c := conn_at i st in
  if negb (c_in_use c) then st
  else
    let due := negb (length (c_tx_buf c) =? 0)%nat && (c_snd_una c <? c_snd_nxt c) && (c_rto_tick c <=? now) in
    if due && (5 <=? c_retransmit_count c) then
      set_conn (λ c, (conn_reset c) <| c_in_use := false |>) i (tcp_send_segment i TCP_RST [] st)
    else
      let st :=
        if due then
          let saved_nxt := c_snd_nxt c in
          let st := set_conn (λ c, c <| c_snd_nxt := c_tx_buf_seq c |>) i st in
          let st := tcp_send_segment i (Z.lor TCP_ACK TCP_PSH) (c_tx_buf c) st in
          set_conn (λ c, let count := u8 (c_retransmit_count c + 1) in
                         c <| c_snd_nxt := saved_nxt |> <| c_retransmit_count := count |>
                           <| c_rto_tick := u64 (now + rto_of count) |>) i st
        else st in
      let c := conn_at i st in
      if in_state TCP_TIME_WAIT c && (c_time_wait_tick c <=? now) then set_conn conn_free i st else st.

Definition tcp_timer_check st : net_st :=
  let now := n_ticks st in foldl (λ st i, timer_conn now i st) st (seq 0 MAX_TCP_CONNS).

(** ** Waiting *)

Inductive wait_out := WaitReady | WaitTimeout | WaitSignal.

(** [while (cond) { tcp_timer_check(); if (--timeout <= 0) ...; if (pending signal)
    ...; sched_yield(); }] with [n] the timeout; [intr]: the loop has the test for
    signals. *)
Fixpoint tcp_wait (intr : bool) (cond : tcp_conn → bool) (n : nat) i st : wait_out * net_st :=
  match n with
  | O => (WaitTimeout, st)
  | S n' =>
      if cond (conn_at i st) then
        let st := tcp_timer_check st in
        if (n' =? 0)%nat then (WaitTimeout, st)
        else if intr && n_signal st then (WaitSignal, st)
        else tcp_wait intr cond n' i (yield st)
      else (WaitReady, st)
  end.

Definition WAIT_SHORT : nat := Z.to_nat 10000.
Definition WAIT_LONG : nat := Z.to_nat 50000.

(** ** The operations of the system calls *)

Definition bad_conn (idx : Z) : bool := (idx <? 0) || (Z.of_nat MAX_TCP_CONNS <=? idx).

(** The fresh connection with the next port. *)
Definition fresh_conn st : tcp_conn :=
  zero_conn <| c_in_use := true |> <| c_state := TCP_CLOSED |> <| c_local_ip := NET_IP |>
    <| c_local_port := n_ephemeral st |> <| c_rcv_wnd := TCP_WINDOW |>.

(** A free slot, or one in time-wait. *)
Definition conn_slot st : option nat :=
  match find_idx (λ c, negb (c_in_use c)) (n_conns st) with
  | Some i => Some i
  | None => find_idx (λ c, c_in_use c && in_state TCP_TIME_WAIT c) (n_conns st)
  end.

Definition tcp_socket st : Z * net_st :=
  match conn_slot st with
  | Some i => (Z.of_nat i, (set_conn (λ _, fresh_conn st) i st) <| n_ephemeral := u16 (n_ephemeral st + 1) |>)
  | None => (- ENOMEM, st)
  end.

(** The first segment of a connection, sent with the initial sequence number. *)
Definition send_syn (flags : Z) i st : net_st :=
  let st := tcp_send_segment i flags [] st in
  set_conn (λ c, c <| c_snd_nxt := u32 (c_snd_iss c + 1) |> <| c_rto_tick := n_ticks st + 18 |>) i st.

Definition tcp_connect (conn_idx remote_ip remote_port : Z) st : Z * net_st :=
  if bad_conn conn_idx then (- EBADF, st)
  else
    let i := Z.to_nat conn_idx in
    let c := conn_at i st in
    if negb (c_in_use c) || negb (in_state TCP_CLOSED c) then (- EINVAL, st)
    else
      let iss := tcp_gen_isn i st in
      let st := set_conn (λ c, c <| c_remote_ip := remote_ip |> <| c_remote_port := remote_port |> <| c_snd_iss := iss |>
                                 <| c_snd_nxt := iss |> <| c_snd_una := iss |> <| c_state := TCP_SYN_SENT |>) i st in
      let st := send_syn TCP_SYN i st in
      let st := set_conn (λ c, c <| c_retransmit_count := 0 |> <| c_tx_buf := [] |> <| c_tx_buf_seq := c_snd_iss c |>) i st in
      if c_nonblock (conn_at i st) then (- EINPROGRESS, st)
      else
        match tcp_wait true (λ c, in_state TCP_SYN_SENT c && negb (c_rst_received c)) WAIT_SHORT i st with
        | (WaitTimeout, st) => (- ETIMEDOUT, set_conn conn_free i st)
        | (WaitSignal, st) => (- EINTR, st)
        | (WaitReady, st) =>
            if negb (in_state TCP_ESTABLISHED (conn_at i st)) then (- ECONNREFUSED, set_conn conn_free i st)
            else (0, set_conn (λ c, c <| c_tx_buf := [] |>) i st)
        end.

Definition tcp_listen (conn_idx port : Z) st : Z * net_st :=
  if bad_conn conn_idx then (- EBADF, st)
  else
    let i := Z.to_nat conn_idx in
    if negb (c_in_use (conn_at i st)) then (- EBADF, st)
    else (0, set_conn (λ c, c <| c_local_port := port |> <| c_state := TCP_LISTEN |>
                              <| c_backlog := (λ b, b <| bl_valid := false |>) <$> c_backlog c |>) i st).

(** Wait for an entry of the backlog and take it. *)
Fixpoint accept_wait (n : nat) i st : (Z + backlog_entry) * net_st :=
  match n with
  | O => (inl (- ETIMEDOUT), st)
  | S n' =>
      let c := conn_at i st in
      match find_idx bl_valid (c_backlog c) with
      | Some k =>
          let entry := nth k (c_backlog c) (mk_backlog 0 0 0 false) in
          (inr entry, set_conn (λ c, c <| c_backlog := <[k := entry <| bl_valid := false |>]> (c_backlog c) |>) i st)
      | None =>
          if c_nonblock c then (inl (- EAGAIN), st)
          else
            let st := tcp_timer_check st in
            if (n' =? 0)%nat then (inl (- ETIMEDOUT), st)
            else if n_signal st then (inl (- EINTR), st)
            else accept_wait n' i (yield st)
      end
  end.

(** The connection of an accepted client. *)
Definition accepted_conn (lc : tcp_conn) (entry : backlog_entry) (iss : Z) : tcp_conn :=
  zero_conn <| c_in_use := true |> <| c_state := TCP_SYN_RECEIVED |> <| c_local_ip := c_local_ip lc |>
    <| c_local_port := c_local_port lc |> <| c_remote_ip := bl_remote_ip entry |> <| c_remote_port := bl_remote_port entry |>
    <| c_rcv_irs := bl_remote_seq entry |> <| c_rcv_nxt := u32 (bl_remote_seq entry + 1) |> <| c_rcv_wnd := TCP_WINDOW |>
    <| c_snd_iss := iss |> <| c_snd_nxt := iss |> <| c_snd_una := iss |>.

Definition tcp_accept (listen_idx : Z) st : Z * net_st :=
  if bad_conn listen_idx then (- EBADF, st)
  else
    let l := Z.to_nat listen_idx in
    let lc := conn_at l st in
    if negb (c_in_use lc) || negb (in_state TCP_LISTEN lc) then (- EINVAL, st)
    else
      match accept_wait WAIT_LONG l st with
      | (inl r, st) => (r, st)
      | (inr entry, st) =>
          match conn_slot st with
          | None => (- ENOMEM, st)
          | Some i =>
              let st := set_conn (λ _, accepted_conn (conn_at l st) entry (tcp_gen_isn i st)) i st in
              let st := send_syn (Z.lor TCP_SYN TCP_ACK) i st in
              match tcp_wait true (λ c, in_state TCP_SYN_RECEIVED c && negb (c_rst_received c)) WAIT_SHORT i st with
              | (WaitTimeout, st) => (- ETIMEDOUT, set_conn conn_free i st)
              | (WaitSignal, st) => (- EINTR, st)
              | (WaitReady, st) =>
                  let c := conn_at i st in
                  if negb (in_state TCP_ESTABLISHED c) && negb (in_state TCP_CLOSE_WAIT c)
                  then (- ECONNREFUSED, set_conn conn_free i st)
                  else (Z.of_nat i, set_conn (λ c, c <| c_tx_buf := [] |>) i st)
              end
          end
      end.

Definition tcp_send (conn_idx : Z) (buf : list Z) st : Z * net_st :=
  if bad_conn conn_idx then (- EBADF, st)
  else
    let i := Z.to_nat conn_idx in
    let c := conn_at i st in
    if negb (c_in_use c) || negb (in_state TCP_ESTABLISHED c) then (- ENOTCONN, st)
    else if c_rst_received c then (- ENOTCONN, st)
    else
      let data := take TCP_MSS buf in
      let st := set_conn (λ c, c <| c_tx_buf := data |> <| c_tx_buf_seq := c_snd_nxt c |>) i st in
      let new_nxt := u32 (c_snd_nxt c + Z.of_nat (length data)) in
      let st := tcp_send_segment i (Z.lor TCP_ACK TCP_PSH) data st in
      (Z.of_nat (length data),
       set_conn (λ c, c <| c_snd_nxt := new_nxt |> <| c_rto_tick := n_ticks st + 18 |> <| c_retransmit_count := 0 |>) i st).

(** The copy out of the receive ring. *)
Fixpoint rx_take (n : nat) (r : ring Z) : list Z * ring Z :=
  match n with
  | O => ([], r)
  | S n' => let b := r_buf r !!! r_head r in let '(l, r) := rx_take n' (ring_drop TCP_RX_BUF_SIZE r) in (b :: l, r)
  end.

Definition rx_empty c : bool := (r_count (c_rx c) =? 0)%nat && negb (c_fin_received c) && negb (c_rst_received c).

Definition tcp_recv (conn_idx : Z) (len : nat) st : Z * list Z * net_st :=
  if bad_conn conn_idx then (- EBADF, [], st)
  else
    let i := Z.to_nat conn_idx in
    let c := conn_at i st in
    if negb (c_in_use c) then (- EBADF, [], st)
    else if c_nonblock c && rx_empty c then (- EAGAIN, [], st)
    else
      match tcp_wait true rx_empty WAIT_LONG i st with
      | (WaitTimeout, st) => (- ETIMEDOUT, [], st)
      | (WaitSignal, st) => (- EINTR, [], st)
      | (WaitReady, st) =>
          let c := conn_at i st in
          if c_rst_received c then (- ENOTCONN, [], st)
          else if (r_count (c_rx c) =? 0)%nat then (0, [], st)
          else
            let copy := Nat.min len (r_count (c_rx c)) in
            let old_wnd := tcp_calc_rcv_wnd c in
            let '(l, r) := rx_take copy (c_rx c) in
            let st := set_conn (λ c, let c := c <| c_rx := r |> in
                                     if (r_count r =? 0)%nat then c <| c_rx_data_ready := false |> else c) i st in
            let c := conn_at i st in
            let st := if (old_wnd <? Z.of_nat TCP_MSS) && (Z.of_nat TCP_MSS <=? tcp_calc_rcv_wnd c) && in_state TCP_ESTABLISHED c
                      then tcp_send_ack i st else st in
            (Z.of_nat copy, l, st)
      end.

(** Send the FIN in the new state [s]; the sequence number of the header is the
    one before the FIN. *)
Definition send_fin (s : tcp_state) i st : net_st :=
  let fin_seq := c_snd_nxt (conn_at i st) in
  let st := set_conn (λ c, c <| c_state := s |> <| c_rto_tick := n_ticks st + 18 |> <| c_retransmit_count := 0 |>
                             <| c_tx_buf := [] |> <| c_tx_buf_seq := fin_seq |> <| c_snd_nxt := fin_seq |>) i st in
  let st := tcp_send_segment i (Z.lor TCP_FIN TCP_ACK) [] st in
  set_conn (λ c, c <| c_snd_nxt := u32 (fin_seq + 1) |>) i st.

(** [if (c->state == TCP_CLOSED) c->in_use = 0]. *)
Definition close_async i st : net_st :=
  set_conn (λ c, if in_state TCP_CLOSED c then c <| c_in_use := false |> else c) i st.

Definition close_force i st : net_st :=
  if in_state TCP_TIME_WAIT (conn_at i st) then st else set_conn conn_free i st.

Definition tcp_close (conn_idx : Z) st : Z * net_st :=
  if bad_conn conn_idx then (- EBADF, st)
  else
    let i := Z.to_nat conn_idx in
    let c := conn_at i st in
    if negb (c_in_use c) then (- EBADF, st)
    else if in_state TCP_ESTABLISHED c then
      let st := send_fin TCP_FIN_WAIT_1 i st in
      if c_nonblock (conn_at i st) then (0, close_async i st)
      else (0, close_force i
                 (tcp_wait false (λ c, negb (in_state TCP_CLOSED c) && negb (in_state TCP_TIME_WAIT c)) WAIT_SHORT i st).2)
    else if in_state TCP_CLOSE_WAIT c then
      let st := send_fin TCP_LAST_ACK i st in
      if c_nonblock (conn_at i st) then (0, close_async i st)
      else (0, close_force i (tcp_wait false (in_state TCP_LAST_ACK) WAIT_SHORT i st).2)
    else (0, close_force i st).

Definition tcp_set_nonblock (conn_idx nb : Z) st : Z * net_st :=
  if bad_conn conn_idx then (- EBADF, st)
  else
    let i := Z.to_nat conn_idx in
    if negb (c_in_use (conn_at i st)) then (- EBADF, st)
    else (0, set_conn (λ c, c <| c_nonblock := negb (nb =? 0) |>) i st).

Definition tcp_poll (conn_idx : Z) st : Z :=
  if bad_conn conn_idx then 0
  else
    let c := conn_at (Z.to_nat conn_idx) st in
    if negb (c_in_use c) then 0x008
    else if in_state TCP_LISTEN c then (if existsb bl_valid (c_backlog c) then 0x001 else 0)
    else
      let events := if negb (r_count (c_rx c) =? 0)%nat || c_fin_received c then 0x001 else 0 in
      let events := if in_state TCP_ESTABLISHED c && negb (c_rst_received c) then Z.lor events 0x004 else events in
      let events := if c_rst_received c then Z.lor events 0x008 else events in
      if c_fin_received c then Z.lor events 0x010 else events.
End tcp.
