(* ===== verification/NetStack.v ===== *)
(** * NetStack: ARP, IPv4, ICMP, UDP and the loopback

    Models [src/kernel/src/net/net.c]: the ARP table, the construction and
    checking of IPv4 packets, echo requests, the one-packet UDP sockets, and the
    dispatch of frames.  It closes the recursion of the stack: a packet to the own
    host or to 127.0.0.0/8 is handled before [net_tx_ipv4] returns, and handling
    it may send again.  The depth of that recursion is the fuel of [net_tx_ipv4].

    [link] is the result of [virtio_net_tx] for a frame; [yield] is what happens
    during a [sched_yield]. *)

From S2P Require Import Prelude KUtil Mem Bytes Ring Net Tcp.

Implicit Types (st : net_st) (i : nat) (l data payload : list Z).

(** ** The ARP table *)

Definition arp_lookup (ip : Z) st : option arp_entry :=
  match find_idx (λ a, ar_valid a && (ar_ip a =? ip)) (n_arp st) with
  | Some i => Some (n_arp st !!! i)
  | None => None
  end.

Definition arp_learn (ip : Z) (mac : list Z) st : net_st :=
  match find_idx (λ a, ar_valid a && (ar_ip a =? ip)) (n_arp st) with
  | Some i => st <| n_arp := alter (λ a, a <| ar_mac := mac |>) i (n_arp st) |>
  | None =>
      match find_idx (λ a, negb (ar_valid a)) (n_arp st) with
      | Some i => st <| n_arp := <[i := mk_arp ip mac true]> (n_arp st) |>
      | None => st
      end
  end.

(** [arp_pkt_t], 28 bytes. *)
Definition arp_packet (opcode : Z) (sender_mac : list Z) (sender_ip : Z) (target_mac : list Z) (target_ip : Z) : list Z :=
  let pkt := replicate 28 0 in
  let pkt := set_field 0 2 (htons 1) pkt in
  let pkt := set_field 2 2 (htons 0x0800) pkt in
  let pkt := set_field 4 1 6 pkt in
  let pkt := set_field 5 1 4 pkt in
  let pkt := set_field 6 2 (htons opcode) pkt in
  let pkt := splice 8 (read_bytes 6 sender_mac) pkt in
  let pkt := set_field 14 4 (htonl sender_ip) pkt in
  let pkt := splice 18 (read_bytes 6 target_mac) pkt in
  set_field 24 4 (htonl target_ip) pkt.

(** [ipv4_hdr_t] with a checksum of zero. *)
Definition ipv4_header (our_ip id dst_ip protocol payload_len : Z) : list Z :=
  let ip := replicate 20 0 in
  let ip := set_field 0 1 0x45 ip in
  let ip := set_field 2 2 (htons (u16 (20 + payload_len))) ip in
  let ip := set_field 4 2 (htons id) ip in
  let ip := set_field 8 1 64 ip in
  let ip := set_field 9 1 protocol ip in
  let ip := set_field 12 4 (htonl our_ip) ip in
  set_field 16 4 (htonl dst_ip) ip.

(** The header with its checksum, and the payload. *)
Definition ipv4_packet (our_ip id dst_ip protocol : Z) payload : list Z :=
  let ip := ipv4_header our_ip id dst_ip protocol (Z.of_nat (length payload)) in
  set_field 10 2 (ip_checksum ip) ip ++ payload.

Definition is_loopback (dst_ip : Z) st : bool :=
  (dst_ip =? n_our_ip st) || (Z.land dst_ip 0xFF000000 =? LOOPBACK_NET).

Section stack.
Context (link : list Z → Z) (yield : net_st → net_st).

Definition eth_tx (dst : list Z) (ethertype : Z) payload st : Z * net_st :=
  if 1500 <? Z.of_nat (length payload) then (- EMSGSIZE, st)
  else
    let frame := read_bytes 6 dst ++ read_bytes 6 (n_mac st) ++ le_bytes 2 (htons ethertype) ++ payload in
    (link frame, st <| n_out := n_out st ++ [frame] |>).

Definition arp_send_request (target_ip : Z) st : net_st :=
  (eth_tx (replicate 6 0xFF) 0x0806 (arp_packet 1 (n_mac st) (n_our_ip st) (replicate 6 0) target_ip) st).2.

Definition arp_send_reply (target_ip : Z) (target_mac : list Z) st : net_st :=
  (eth_tx target_mac 0x0806 (arp_packet 2 (n_mac st) (n_our_ip st) target_mac target_ip) st).2.

Definition handle_arp data (len : Z) st : net_st :=
  if len <? 28 then st
  else
    let op := ntohs (get_field 6 2 data) in
    let sender_ip := ntohl (get_field 14 4 data) in
    let sender_mac := read_bytes 6 (drop 8 data) in
    let target_ip := ntohl (get_field 24 4 data) in
    let st := arp_learn sender_ip sender_mac st in
    if (op =? 1) && (target_ip =? n_our_ip st) then arp_send_reply sender_ip sender_mac st else st.

(** [for (i = 0; i < 500; i++)] look up and yield. *)
Fixpoint arp_poll (n : nat) (ip : Z) st : option (list Z) * net_st :=
  match n with
  | O => (None, st)
  | S n' => match arp_lookup ip st with Some e => (Some (ar_mac e), st) | None => arp_poll n' ip (yield st) end
  end.

(** The attempts left. *)
Fixpoint arp_attempts (n : nat) (ip : Z) st : option (list Z) * net_st :=
  match n with
  | O => (None, st)
  | S n' =>
      let st := arp_send_request ip st in
      match arp_poll (Z.to_nat 500) ip st with
      | (Some mac, st) => (Some mac, st)
      | (None, st) => arp_attempts n' ip st
      end
  end.

(** The hardware address; [None]: -ETIMEDOUT. *)
Definition arp_resolve (ip : Z) st : option (list Z) * net_st :=
  let ip := if negb (Z.land ip NET_MASK =? Z.land (n_our_ip st) NET_MASK) then n_gw_ip st else ip in
  match arp_lookup ip st with
  | Some e => (Some (ar_mac e), st)
  | None => arp_attempts 5 ip st
  end.

(** ** Incoming packets *)

Definition handle_udp (src_ip : Z) data (len : Z) st : net_st :=
  if len <? 8 then st
  else
    let src_port := ntohs (get_field 0 2 data) in
    let dst_port := ntohs (get_field 2 2 data) in
    let udp_len := ntohs (get_field 4 2 data) in
    if (udp_len <? 8) || (len <? udp_len) then st
    else
      let payload_len := udp_len - 8 in
      match find_idx (λ s, so_in_use s && (so_local_port s =? dst_port)) (n_sockets st) with
      | None => st
      | Some i =>
          if so_rx_ready (n_sockets st !!! i) then st
          else
            let copy_len := if SOCKET_BUF_SIZE <? payload_len then SOCKET_BUF_SIZE else payload_len in
            st <| n_sockets := alter (λ s, s <| so_rx_buf := read_bytes (Z.to_nat copy_len) (drop 8 data) |>
                                             <| so_rx_src_ip := src_ip |> <| so_rx_src_port := src_port |>
                                             <| so_rx_ready := true |>) i (n_sockets st) |>
      end.

Section handlers.
Context (tx : Z → Z → list Z → net_st → Z * net_st).

Definition handle_icmp (src_ip : Z) data (len : Z) st : net_st :=
  if len <? 8 then st
  else
    let type := get_field 0 1 data in
    if type =? 8 then
      if 1500 <? len then st
      else
        let reply := read_bytes (Z.to_nat len) data in
        let reply := set_field 2 2 0 (set_field 0 1 0 reply) in
        let reply := set_field 2 2 (ip_checksum reply) reply in
        (tx src_ip 1 reply st).2
    else if type =? 0 then st <| n_ping := true |>
    else st.

Definition handle_ipv4 data (len : Z) st : net_st :=
  if len <? 20 then st
  else
    let ihl := Z.land (get_field 0 1 data) 0x0F * 4 in
    if (ihl <? 20) || (len <? ihl) then st
    else if negb (ip_checksum (read_bytes (Z.to_nat ihl) data) =? 0) then st
    else
      let total := ntohs (get_field 2 2 data) in
      if len <? total then st
      else
        let src_ip := ntohl (get_field 12 4 data) in
        let dst_ip := ntohl (get_field 16 4 data) in
        if negb (dst_ip =? n_our_ip st) && negb (dst_ip =? 0xFFFFFFFF) && negb (Z.land dst_ip 0xFF000000 =? LOOPBACK_NET) then st
        else
          let payload := drop (Z.to_nat ihl) data in
          let payload_len := u32 (total - ihl) in
          let protocol := get_field 9 1 data in
          if protocol =? 1 then handle_icmp src_ip payload payload_len st
          else if protocol =? 6 then tcp_rx tx src_ip payload payload_len st
          else if protocol =? 17 then handle_udp src_ip payload payload_len st
          else st.
End handlers.

(** ** Sending *)

Fixpoint net_tx_ipv4 (fuel : nat) (dst_ip protocol : Z) payload st : Z * net_st :=
  let pkt := ipv4_packet (n_our_ip st) (n_ip_id st) dst_ip protocol payload in
  let st := st <| n_ip_id := u16 (n_ip_id st + 1) |> in
  if is_loopback dst_ip st then
    match fuel with
    | O => (0, st)
    | S fuel' => (0, handle_ipv4 (net_tx_ipv4 fuel') pkt (Z.of_nat (length pkt)) st)
    end
  else
    match arp_resolve dst_ip st with
    | (None, st) => (- ETIMEDOUT, st)
    | (Some mac, st) => eth_tx mac 0x0800 pkt st
    end.

Context (fuel : nat).

Definition net_rx (frame : list Z) (len : Z) st : net_st :=
  if len <? 14 then st
  else
    let ethertype := ntohs (get_field 12 2 frame) in
    let payload := drop 14 frame in
    let payload_len := len - 14 in
    if ethertype =? 0x0806 then handle_arp payload payload_len st
    else if ethertype =? 0x0800 then handle_ipv4 (net_tx_ipv4 fuel) payload payload_len st
    else st.

Definition ping_packet : list Z :=
  let pkt := replicate 8 0 ++ (Z.of_nat <$> seq 8 56) in
  let pkt := set_field 0 1 8 pkt in
  let pkt := set_field 4 2 (htons 1) pkt in
  let pkt := set_field 6 2 (htons 1) pkt in
  set_field 2 2 (ip_checksum pkt) pkt.

Definition net_send_ping (dst_ip : Z) st : Z * net_st :=
  net_tx_ipv4 fuel dst_ip 1 ping_packet (st <| n_ping := false |>).

Definition net_got_ping_reply st : Z := b2z (n_ping st).

(** ** Sockets *)

Definition bad_socket (sockfd : Z) st : bool :=
  (sockfd <? 0) || (Z.of_nat MAX_SOCKETS <=? sockfd) || negb (so_in_use (n_sockets st !!! Z.to_nat sockfd)).

Definition net_socket st : Z * net_st :=
  match find_idx (λ s, negb (so_in_use s)) (n_sockets st) with
  | Some i =>
      (Z.of_nat i, st <| n_sockets := alter (λ s, s <| so_in_use := true |> <| so_local_port := 0 |> <| so_rx_ready := false |>
                                                    <| so_rx_buf := [] |>) i (n_sockets st) |>)
  | None => (- ENOMEM, st)
  end.

Definition net_bind (sockfd port : Z) st : Z * net_st :=
  if bad_socket sockfd st then (- EBADF, st)
  else if existsb (λ s, so_in_use s && (so_local_port s =? port)) (n_sockets st) then (- EADDRINUSE, st)
  else (0, st <| n_sockets := alter (λ s, s <| so_local_port := port |>) (Z.to_nat sockfd) (n_sockets st) |>).

Definition udp_packet (src_port dst_port : Z) (buf : list Z) : list Z :=
  let pkt := replicate 8 0 ++ buf in
  let pkt := set_field 0 2 (htons src_port) pkt in
  let pkt := set_field 2 2 (htons dst_port) pkt in
  set_field 4 2 (htons (u16 (8 + Z.of_nat (length buf)))) pkt.

Definition net_sendto (sockfd : Z) (buf : list Z) (dst_ip dst_port : Z) st : Z * net_st :=
  if bad_socket sockfd st then (- EBADF, st)
  else if 1472 <? Z.of_nat (length buf) then (- EMSGSIZE, st)
  else net_tx_ipv4 fuel dst_ip 17 (udp_packet (so_local_port (n_sockets st !!! Z.to_nat sockfd)) dst_port buf) st.

(** [while (!rx_ready)] with the timeout [n]. *)
Fixpoint recv_wait (n : nat) i st : wait_out * net_st :=
  match n with
  | O => (WaitTimeout, st)
  | S n' =>
      if so_rx_ready (n_sockets st !!! i) then (WaitReady, st)
      else if (n' =? 0)%nat then (WaitTimeout, st)
      else if n_signal st then (WaitSignal, st)
      else recv_wait n' i (yield st)
  end.

(** The result, the bytes and the sender's address and port. *)
Definition net_recvfrom (sockfd : Z) (len : nat) st : Z * (list Z * Z * Z) * net_st :=
  if bad_socket sockfd st then (- EBADF, ([], 0, 0), st)
  else
    let i := Z.to_nat sockfd in
    match recv_wait (Z.to_nat 5000) i st with
    | (WaitTimeout, st) => (- ETIMEDOUT, ([], 0, 0), st)
    | (WaitSignal, st) => (- EINTR, ([], 0, 0), st)
    | (WaitReady, st) =>
        let s := n_sockets st !!! i in
        let l := take len (so_rx_buf s) in
        (Z.of_nat (length l), (l, so_rx_src_ip s, so_rx_src_port s),
         st <| n_sockets := alter (λ s, s <| so_rx_ready := false |>) i (n_sockets st) |>)
    end.

Definition net_init (mac : list Z) st : net_st :=
  st <| n_mac := mac |> <| n_our_ip := NET_IP |> <| n_gw_ip := NET_GW |>
     <| n_sockets := (λ s, s <| so_in_use := false |>) <$> n_sockets st |>
     <| n_arp := (λ a, a <| ar_valid := false |>) <$> n_arp st |> <| n_ping := false |>.
End stack.
