(* ===== verification/NetWire.v ===== *)
(** * NetWire: checksums and headers on the wire

    Proofs about the formats of [Net], [Tcp] and [NetStack]: the carries of the
    Internet checksum end after two rounds, the checksum is the one's complement
    sum, a header with its checksum filled in passes the receiver's test, and
    headers are read back as they were written. *)

From S2P Require Import Prelude KUtil Mem Bytes Ring Net Tcp NetStack.

(** ** The sum of words *)

(** The little-endian words of a list, the odd byte last. *)
Fixpoint wsum (l : list Z) : Z :=
  match l with
  | a :: b :: l' => a + 256 * b + wsum l'
  | [a] => a
  | [] => 0
  end.

Lemma sum_words_wsum l : ∀ acc, 0 ≤ acc < 2 ^ 32 → sum_words acc l = u32 (acc + wsum l).
Proof.
  induction l as [l IH] using (induction_ltof1 _ (@length Z)). unfold ltof in IH. intros acc Ha.
  destruct l as [|a [|b l]]; cbn [sum_words wsum].
  - by rewrite Z.add_0_r, u32_id.
  - done.
  - rewrite IH; [|cbn; lia|apply u32_range]. unfold u32. rewrite Z.add_mod_idemp_l by lia. f_equal. lia.
Qed.

Lemma wsum_app l l' : Nat.Even (length l) → wsum (l ++ l') = wsum l + wsum l'.
Proof.
  induction l as [l IH] using (induction_ltof1 _ (@length Z)). unfold ltof in IH.
  destruct l as [|a [|b l]]; intros He; cbn [wsum app length] in *; [done|..].
  - destruct He as [k Hk]. lia.
  - rewrite IH; [lia|lia|]. destruct He as [k Hk]. exists (k - 1)%nat. lia.
Qed.

Lemma wsum_range l : Forall is_byte l → 0 ≤ wsum l ≤ 65535 * Z.of_nat (length l).
Proof.
  induction l as [l IH] using (induction_ltof1 _ (@length Z)). unfold ltof in IH.
  destruct l as [|a [|b l]]; intros Hb; cbn [wsum length]; [lia|..]; unfold is_byte in *.
  - apply Forall_cons in Hb as [Ha _]. lia.
  - apply Forall_cons in Hb as [Ha [Hb Hl]%Forall_cons]. specialize (IH l ltac:(cbn; lia) Hl). lia.
Qed.

(** ** Carries *)

(** The one's complement value of a sum. *)
Definition ones16 (s : Z) : Z := if s =? 0 then 0 else (s - 1) mod 65535 + 1.

Lemma fold_step s : 0 ≤ s → Z.land s 0xFFFF + Z.shiftr s 16 = s mod 65536 + s / 65536.
Proof. intros Hs. change 0xFFFF with (Z.ones 16). by rewrite Z.land_ones, Z.shiftr_div_pow2 by lia. Qed.

Lemma ones16_small s : 0 ≤ s < 65536 → ones16 s = s.
Proof. intros Hs. unfold ones16. destruct (s =? 0) eqn:E; bool_hyps; [done|]. rewrite Z.mod_small by lia. lia. Qed.

(** A round keeps the value. *)
Lemma ones16_fold s : 0 ≤ s → ones16 (s mod 65536 + s / 65536) = ones16 s.
Proof.
  intros Hs. pose proof (Z.div_mod s 65536 ltac:(lia)) as Hd. pose proof (Z.mod_pos_bound s 65536 ltac:(lia)).
  pose proof (Z.div_pos s 65536 Hs ltac:(lia)). unfold ones16.
  destruct (s =? 0) eqn:E; bool_hyps; [by subst|]. rewrite (proj2 (Z.eqb_neq _ 0)) by lia. f_equal.
  replace (s - 1) with (s mod 65536 + s / 65536 - 1 + s / 65536 * 65535) by lia. by rewrite Z.mod_add by lia.
Qed.

Lemma fold_carry_ones fuel s : 0 ≤ s → s < 65536 ∨ s < 131071 ∧ (1 ≤ fuel)%nat ∨ s < 2 ^ 32 ∧ (2 ≤ fuel)%nat → fold_carry fuel s = ones16 s.
Proof.
  revert s. induction fuel as [|fuel IH]; intros s Hs Hb; cbn [fold_carry].
  - rewrite ones16_small by lia. done.
  - rewrite Z.shiftr_div_pow2 by lia. change (2 ^ 16) with 65536. destruct (s / 65536 =? 0) eqn:E; bool_hyps.
    + apply Z.div_small_iff in E; [|lia]. rewrite ones16_small by lia. done.
    + change (s / 65536) with (s / 2 ^ 16). rewrite <- Z.shiftr_div_pow2, fold_step by lia.
      pose proof (Z.div_mod s 65536 ltac:(lia)). pose proof (Z.mod_pos_bound s 65536 ltac:(lia)).
      pose proof (Z.div_pos s 65536 Hs ltac:(lia)). rewrite IH; [by apply ones16_fold|lia|].
      destruct Hb as [?|[[? ?]|[? ?]]]; [lia| |].
      * left. assert (s / 65536 = 1) by (symmetry; apply (Z.div_unique_pos _ _ _ (s - 65536)); lia). lia.
      * right. left. assert (s / 65536 < 65536) by (apply Z.div_lt_upper_bound; lia). lia.
Qed.

Lemma ones16_range s : 0 ≤ ones16 s < 65536.
Proof. unfold ones16. destruct (s =? 0); [lia|]. pose proof (Z.mod_pos_bound (s - 1) 65535 ltac:(lia)). lia. Qed.

Lemma u16_lnot f : 0 ≤ f < 65536 → u16 (Z.lnot f) = 65535 - f.
Proof.
  intros Hf. unfold u16, Z.lnot. change (2 ^ 16) with 65536. symmetry. apply (Z.mod_unique_pos _ _ (-1)); lia.
Qed.

(** The checksum of at most 64 KiB. *)
Lemma ip_checksum_spec l :
  Forall is_byte l → Z.of_nat (length l) ≤ 65535 → ip_checksum l = 65535 - ones16 (wsum l).
Proof.
  intros Hb Hl. pose proof (wsum_range l Hb). unfold ip_checksum. rewrite sum_words_wsum, Z.add_0_l, u32_id by lia.
  rewrite fold_carry_ones; [|lia|unfold carry_fuel; lia]. apply u16_lnot, ones16_range.
Qed.

(** The value of a sum, without its definition. *)
Lemma ones16_mod s : 0 ≤ s → ones16 s mod 65535 = s mod 65535 ∧ (ones16 s = 0 ↔ s = 0).
Proof.
  intros Hs. unfold ones16. destruct (s =? 0) eqn:E; bool_hyps; [by subst|].
  pose proof (Z.mod_pos_bound (s - 1) 65535 ltac:(lia)). split; [|lia].
  rewrite Zplus_mod_idemp_l. f_equal. lia.
Qed.

(** C24.  The Internet checksum is the one's complement of the one's complement sum.
    The loop that folds the carries ends: for up to 65535 bytes it needs at most two
    rounds, more rounds change nothing, and the folded value has 16 bits.  It is
    congruent modulo 65535 to the sum of the 16-bit words of the data, and zero only
    if that sum is; the checksum is its complement. *)
Theorem ip_checksum_ones_complement l fuel :
  Forall is_byte l → Z.of_nat (length l) ≤ 65535 → (carry_fuel ≤ fuel)%nat →
  let r := fold_carry fuel (sum_words 0 l) in
  Z.shiftr r 16 = 0 ∧ r = fold_carry carry_fuel (sum_words 0 l) ∧ 0 ≤ r < 2 ^ 16 ∧
  r mod 65535 = wsum l mod 65535 ∧ (r = 0 ↔ wsum l = 0) ∧ ip_checksum l = 65535 - r.
Proof.
  intros Hb Hl Hf. pose proof (wsum_range l Hb) as Hw. pose proof (ones16_range (wsum l)) as Hr.
  rewrite sum_words_wsum, Z.add_0_l, u32_id by lia. unfold carry_fuel in *. rewrite !fold_carry_ones by lia.
  destruct (ones16_mod (wsum l)) as [Hm Hz]; [lia|].
  split_and!; [|done|lia|lia|done|exact Hz|by apply ip_checksum_spec].
  rewrite Z.shiftr_div_pow2 by lia. by apply Z.div_small.
Qed.

Lemma ip_checksum_ones_complement_witness :
  Forall is_byte [0xFF; 0xFF; 0x01; 0x02; 0x03] ∧ fold_carry 5 (sum_words 0 [0xFF; 0xFF; 0x01; 0x02; 0x03]) = 0x0204 ∧
  ip_checksum [0xFF; 0xFF; 0x01; 0x02; 0x03] = 65535 - 0x0204.
Proof.
  assert (H : Forall is_byte [0xFF; 0xFF; 0x01; 0x02; 0x03]) by (repeat constructor; done).
  split; [exact H|]. split; [reflexivity|].
  apply (ip_checksum_ones_complement [0xFF; 0xFF; 0x01; 0x02; 0x03] 5 H); [cbn; lia|unfold carry_fuel; lia].
Defined.

(** A sum with its complement is zero. *)
Lemma ones16_complement s : 0 ≤ s → ones16 (s + (65535 - ones16 s)) = 65535.
Proof.
  intros Hs. pose proof (ones16_range s) as Hr. unfold ones16 at 1. rewrite (proj2 (Z.eqb_neq _ 0)).
  2: { unfold ones16 in *. destruct (s =? 0) eqn:E; bool_hyps; lia. }
  unfold ones16. destruct (s =? 0) eqn:E; bool_hyps; [by subst|].
  replace (s + (65535 - ((s - 1) mod 65535 + 1)) - 1) with (65534 + (s - 1) / 65535 * 65535).
  - rewrite Z.mod_add by lia. done.
  - pose proof (Z.div_mod (s - 1) 65535 ltac:(lia)). lia.
Qed.

(** ** Byte order *)

Lemma land_field x k n : 0 ≤ k → 0 ≤ n → Z.land x (Z.shiftl (Z.ones n) k) = (x / 2 ^ k) mod 2 ^ n * 2 ^ k.
Proof.
  intros Hk Hn. rewrite <- Z.land_ones, <- Z.shiftr_div_pow2, <- Z.shiftl_mul_pow2 by done. apply Z.bits_inj'. intros i Hi.
  rewrite Z.land_spec, !Z.shiftl_spec, Z.land_spec by done. destruct (decide (i < k)).
  - rewrite !(Z.testbit_neg_r _ (i - k)) by lia. by rewrite !andb_false_r.
  - rewrite Z.shiftr_spec by lia. by replace (i - k + k) with i by lia.
Qed.

Lemma lor_add a c k : 0 ≤ k → 0 ≤ a < 2 ^ k → Z.lor a (c * 2 ^ k) = a + c * 2 ^ k.
Proof.
  intros Hk Ha. assert (Z.land a (c * 2 ^ k) = 0) as H0.
  { apply Z.bits_inj'. intros i Hi. rewrite Z.land_spec, Z.bits_0, <- Z.shiftl_mul_pow2, Z.shiftl_spec by done.
    destruct (decide (i < k)); [by rewrite (Z.testbit_neg_r _ (i - k)), andb_false_r by lia|].
    rewrite <- (Z.mod_small a (2 ^ k)) by lia. rewrite Z.mod_pow2_bits_high by lia. done. }
  by rewrite Z.add_nocarry_lxor, Z.lxor_lor.
Qed.

Lemma htons_spec h : 0 ≤ h < 2 ^ 16 → htons h = h / 256 + h mod 256 * 256.
Proof.
  intros Hh. unfold htons, u16. rewrite Z.shiftr_div_pow2, Z.shiftl_mul_pow2 by lia. change (2 ^ 8) with 256.
  assert (0 ≤ h / 256 < 256) by (split; [apply Z.div_pos; lia|apply Z.div_lt_upper_bound; lia]).
  change 256 with (2 ^ 8) at 2. rewrite lor_add by lia. pose proof (Z.div_mod h 256 ltac:(lia)).
  pose proof (Z.mod_pos_bound h 256 ltac:(lia)). symmetry. apply (Z.mod_unique_pos _ _ (h / 256)); lia.
Qed.

Lemma htonl_spec h : 0 ≤ h < 2 ^ 32 →
  htonl h = h / 2 ^ 24 + (h / 2 ^ 16) mod 256 * 2 ^ 8 + (h / 2 ^ 8) mod 256 * 2 ^ 16 + h mod 256 * 2 ^ 24.
Proof.
  intros Hh. unfold htonl.
  assert (0 ≤ h / 2 ^ 24 < 256) by (split; [apply Z.div_pos; lia|apply Z.div_lt_upper_bound; lia]).
  pose proof (Z.mod_pos_bound (h / 2 ^ 16) 256 ltac:(lia)). pose proof (Z.mod_pos_bound (h / 2 ^ 8) 256 ltac:(lia)).
  pose proof (Z.mod_pos_bound h 256 ltac:(lia)).
  change 0xFF with (Z.shiftl (Z.ones 8) 0). change 0xFF00 with (Z.shiftl (Z.ones 8) 8). change 0xFF0000 with (Z.shiftl (Z.ones 8) 16).
  change 0xFF000000 with (Z.shiftl (Z.ones 8) 24). rewrite !land_field, !Z.shiftr_div_pow2, !Z.shiftl_mul_pow2 by lia.
  change (2 ^ 0) with 1. rewrite Z.div_1_r, Z.mul_1_r, Z.div_div by lia. change (2 ^ 8 * 2 ^ 8) with (2 ^ 16).
  replace (h * 2 ^ 8 / 2 ^ 16) with (h / 2 ^ 8)
    by (change (2 ^ 16) with (2 ^ 8 * 2 ^ 8); rewrite Z.div_mul_cancel_r by lia; done).
  rewrite Z.div_mul by lia. change (2 ^ 8) with 256 in *. rewrite (Z.mod_small (h / 2 ^ 24)) by lia.
  set (b1 := (h / 2 ^ 16) mod 256) in *. set (b2 := (h / 256) mod 256) in *. set (b3 := h mod 256) in *. set (b0 := h / 2 ^ 24) in *.
  change (b1 * 256) with (b1 * 2 ^ 8). rewrite (lor_add b0 b1 8), (lor_add (b2 * 2 ^ 16) b3 24) by lia.
  replace (b2 * 2 ^ 16 + b3 * 2 ^ 24) with ((b2 + b3 * 2 ^ 8) * 2 ^ 16) by lia. rewrite lor_add by lia.
  rewrite u32_id by lia. lia.
Qed.

Lemma htons_range h : 0 ≤ htons h < 2 ^ 16.
Proof. apply u16_range. Qed.
Lemma htonl_range h : 0 ≤ htonl h < 2 ^ 32.
Proof. apply u32_range. Qed.

(** Changing the order twice. *)
Lemma htons_invol h : 0 ≤ h < 2 ^ 16 → htons (htons h) = h.
Proof.
  intros Hh. rewrite (htons_spec (htons h)) by apply htons_range. rewrite htons_spec by done.
  pose proof (Z.div_mod h 256 ltac:(lia)). pose proof (Z.mod_pos_bound h 256 ltac:(lia)).
  assert (0 ≤ h / 256 < 256) by (split; [apply Z.div_pos; lia|apply Z.div_lt_upper_bound; lia]).
  rewrite Z.div_add, (Z.div_small (h / 256)), Z.mod_add, (Z.mod_small (h / 256)) by lia. lia.
Qed.

Lemma bytes4_digits a b c d :
  0 ≤ a < 256 → 0 ≤ b < 256 → 0 ≤ c < 256 → 0 ≤ d < 256 →
  let x := a + b * 2 ^ 8 + c * 2 ^ 16 + d * 2 ^ 24 in
  x mod 256 = a ∧ (x / 2 ^ 8) mod 256 = b ∧ (x / 2 ^ 16) mod 256 = c ∧ x / 2 ^ 24 = d.
Proof.
  intros Ha Hb Hc Hd x.
  assert (x / 2 ^ 8 = b + c * 2 ^ 8 + d * 2 ^ 16) as -> by (symmetry; apply (Z.div_unique_pos _ _ _ a); lia).
  assert (x / 2 ^ 16 = c + d * 2 ^ 8) as -> by (symmetry; apply (Z.div_unique_pos _ _ _ (a + b * 2 ^ 8)); lia).
  split_and!; symmetry.
  - apply (Z.mod_unique_pos _ _ (b + c * 2 ^ 8 + d * 2 ^ 16)); lia.
  - apply (Z.mod_unique_pos _ _ (c + d * 2 ^ 8)); lia.
  - apply (Z.mod_unique_pos _ _ d); lia.
  - apply (Z.div_unique_pos _ _ _ (a + b * 2 ^ 8 + c * 2 ^ 16)); lia.
Qed.

Lemma htonl_invol h : 0 ≤ h < 2 ^ 32 → htonl (htonl h) = h.
Proof.
  intros Hh. rewrite (htonl_spec (htonl h)) by apply htonl_range.
  assert (0 ≤ h / 2 ^ 24 < 256) by (split; [apply Z.div_pos; lia|apply Z.div_lt_upper_bound; lia]).
  pose proof (Z.mod_pos_bound (h / 2 ^ 16) 256 ltac:(lia)). pose proof (Z.mod_pos_bound (h / 2 ^ 8) 256 ltac:(lia)).
  pose proof (Z.mod_pos_bound h 256 ltac:(lia)).
  destruct (bytes4_digits (h / 2 ^ 24) ((h / 2 ^ 16) mod 256) ((h / 2 ^ 8) mod 256) (h mod 256)) as (E0 & E1 & E2 & E3); try lia.
  rewrite htonl_spec by done. rewrite E0, E1, E2, E3.
  pose proof (Z.div_mod h 256 ltac:(lia)). pose proof (Z.div_mod (h / 2 ^ 8) 256 ltac:(lia)) as H8.
  pose proof (Z.div_mod (h / 2 ^ 16) 256 ltac:(lia)) as H16. rewrite Z.div_div in H8, H16 by lia.
  change (2 ^ 8 * 256) with (2 ^ 16) in H8. change (2 ^ 16 * 256) with (2 ^ 24) in H16. change (2 ^ 8) with 256 in *. lia.
Qed.

(** ** A header with its checksum *)

(** Storing a word in a zero field at an even offset adds it to the sum. *)
Lemma wsum_set_field off v l :
  Nat.Even off → (off + 2 ≤ length l)%nat → Forall is_byte l → get_field off 2 l = 0 → 0 ≤ v < 2 ^ 16 →
  wsum (set_field off 2 v l) = wsum l + v.
Proof.
  intros He Hl Hb H0 Hv. unfold set_field, splice. rewrite le_bytes_length.
  assert (Et : length (take off l) = off) by (rewrite length_take; lia).
  rewrite wsum_app, wsum_app; [|by exists 1%nat|by rewrite Et].
  assert (El : l = take off l ++ slice off 2 l ++ drop (off + 2) l).
  { unfold slice. rewrite <- drop_drop, take_drop, take_drop. done. }
  assert (Hs : length (slice off 2 l) = 2%nat) by (by apply length_slice).
  pose proof (f_equal wsum El) as Ew. rewrite wsum_app, wsum_app in Ew; [|exists 1%nat; lia|by rewrite Et]. rewrite Ew.
  assert (Hw : ∀ x, length x = 2%nat → wsum x = le_val x).
  { intros [|a [|b [|]]]; cbn; intros; try lia; done. }
  rewrite (Hw (slice off 2 l)), (Hw (le_bytes 2 v)), le_val_bytes by (done || apply le_bytes_length). change (256 ^ Z.of_nat 2) with (2 ^ 16).
  rewrite (Z.mod_small v) by done. unfold get_field in H0. lia.
Qed.

Lemma checksum_accepted off l :
  Nat.Even off → (off + 2 ≤ length l)%nat → Z.of_nat (length l) ≤ 65535 → Forall is_byte l → get_field off 2 l = 0 →
  ip_checksum (set_field off 2 (ip_checksum l) l) = 0.
Proof.
  intros He Hl Hmax Hb H0. pose proof (wsum_range l Hb). pose proof (ones16_range (wsum l)).
  rewrite (ip_checksum_spec (set_field _ _ _ _)); [|by apply set_field_bytes|by rewrite length_set_field].
  rewrite wsum_set_field by (done || (rewrite ip_checksum_spec by done; lia)).
  rewrite ip_checksum_spec, ones16_complement by (done || lia). done.
Qed.

(** ** Reading headers *)

Lemma le_bytes_1 v : le_bytes 1 v = [v mod 256].
Proof. done. Qed.
Lemma le_bytes_2 v : le_bytes 2 v = [v mod 256; v / 256 mod 256].
Proof. done. Qed.
Lemma le_bytes_4 v : le_bytes 4 v = [v mod 256; v / 256 mod 256; v / 256 / 256 mod 256; v / 256 / 256 / 256 mod 256].
Proof. done. Qed.

Lemma read_bytes_take n l : (n ≤ length l)%nat → read_bytes n l = take n l.
Proof.
  intros Hn. apply list_eq. intros i. unfold read_bytes. rewrite list_lookup_fmap. destruct (decide (i < n)%nat).
  - rewrite lookup_seq_lt, lookup_take_lt by done. cbn [fmap option_fmap option_map Nat.add].
    destruct (lookup_lt_is_Some_2 l i ltac:(lia)) as [x Hx]. by rewrite (list_lookup_total_correct _ _ _ Hx).
  - rewrite lookup_seq_ge, lookup_take_ge by lia. done.
Qed.

(** Fields of a buffer in front of more bytes. *)
Lemma get_field_app off n l l' : (off + n ≤ length l)%nat → get_field off n (l ++ l') = get_field off n l.
Proof. intros Hl. unfold get_field, slice. rewrite drop_app_le, take_app_le by (rewrite ?length_drop; lia). done. Qed.

(** Length side conditions of stores. *)
Ltac solve_len := repeat (rewrite length_set_field; [|solve_len]); rewrite ?length_app, ?length_replicate; cbn [length]; lia.

Ltac field_ne := rewrite get_set_field_ne; [|solve_len|lia].
Ltac field_eq := rewrite get_set_field_eq; [|solve_len|].

Section ipv4.
Context (our_ip id dst_ip protocol n : Z).
Context (Hour : 0 ≤ our_ip < 2 ^ 32) (Hid : 0 ≤ id < 2 ^ 16) (Hdst : 0 ≤ dst_ip < 2 ^ 32) (Hp : 0 ≤ protocol < 256)
  (Hn : 0 ≤ 20 + n < 2 ^ 16).
Let hdr := ipv4_header our_ip id dst_ip protocol n.

Lemma ipv4_header_len : length hdr = 20%nat.
Proof. unfold hdr, ipv4_header. solve_len. Qed.

Lemma ipv4_header_bytes : Forall is_byte hdr.
Proof. unfold hdr, ipv4_header. repeat apply set_field_bytes. by apply Forall_replicate. Qed.

Lemma ipv4_header_fields :
  get_field 0 1 hdr = 0x45 ∧ ntohs (get_field 2 2 hdr) = 20 + n ∧ get_field 9 1 hdr = protocol ∧
  ntohl (get_field 12 4 hdr) = our_ip ∧ ntohl (get_field 16 4 hdr) = dst_ip ∧ get_field 10 2 hdr = 0.
Proof.
  unfold hdr, ipv4_header. pose proof (htons_range (u16 (20 + n))). pose proof (htonl_range our_ip). pose proof (htonl_range dst_ip).
  split_and!.
  - do 6 field_ne. by field_eq.
  - do 5 field_ne. field_eq; [|done]. rewrite u16_id, htons_invol by lia. done.
  - do 2 field_ne. by field_eq.
  - do 1 field_ne. field_eq; [|done]. by apply htonl_invol.
  - field_eq; [|done]. by apply htonl_invol.
  - do 7 field_ne. apply get_field_zero.
Qed.
End ipv4.

(** ** Packets to the own host *)

Lemma ipv4_packet_fields our_ip id dst_ip protocol payload :
  0 ≤ our_ip < 2 ^ 32 → 0 ≤ id < 2 ^ 16 → 0 ≤ dst_ip < 2 ^ 32 → 0 ≤ protocol < 256 → (length payload ≤ 1480)%nat →
  let pkt := ipv4_packet our_ip id dst_ip protocol payload in
  length pkt = (20 + length payload)%nat ∧ drop 20 pkt = payload ∧ ip_checksum (read_bytes 20 pkt) = 0 ∧
  get_field 0 1 pkt = 0x45 ∧ ntohs (get_field 2 2 pkt) = 20 + Z.of_nat (length payload) ∧ get_field 9 1 pkt = protocol ∧
  ntohl (get_field 12 4 pkt) = our_ip ∧ ntohl (get_field 16 4 pkt) = dst_ip.
Proof.
  intros Hour Hid Hdst Hp Hl pkt. subst pkt. unfold ipv4_packet. set (n := Z.of_nat (length payload)).
  pose proof (ipv4_header_len our_ip id dst_ip protocol n) as Hlen.
  pose proof (ipv4_header_bytes our_ip id dst_ip protocol n) as Hby.
  destruct (ipv4_header_fields our_ip id dst_ip protocol n) as (H0 & H2 & H9 & H12 & H16 & H10); try done; [lia|].
  set (hdr := ipv4_header our_ip id dst_ip protocol n) in *. set (cs := ip_checksum hdr).
  assert (Hs : length (set_field 10 2 cs hdr) = 20%nat) by (rewrite length_set_field; lia).
  assert (Hne : ∀ off k, (off + k ≤ 20)%nat → (off + k ≤ 10 ∨ 12 ≤ off)%nat →
            get_field off k (set_field 10 2 cs hdr ++ payload) = get_field off k hdr).
  { intros off k Hok Hd. rewrite get_field_app by (rewrite Hs; done). apply get_set_field_ne; lia. }
  split_and!.
  - rewrite length_app, Hs. lia.
  - by apply drop_app_length'.
  - rewrite read_bytes_take by (rewrite length_app; lia). rewrite take_app_length' by done.
    apply checksum_accepted; [by exists 5%nat|lia|lia|done|done].
  - rewrite Hne by lia. done.
  - rewrite Hne by lia. done.
  - rewrite Hne by lia. done.
  - rewrite Hne by lia. done.
  - rewrite Hne by lia. done.
Qed.

(** The receive path on a packet that the stack built. *)
Lemma ipv4_packet_handled tx id dst_ip protocol payload st :
  let pkt := ipv4_packet (n_our_ip st) id dst_ip protocol payload in
  0 ≤ n_our_ip st < 2 ^ 32 → 0 ≤ id < 2 ^ 16 → 0 ≤ dst_ip < 2 ^ 32 → 0 ≤ protocol < 256 → (length payload ≤ 1480)%nat →
  is_loopback dst_ip st = true →
  handle_ipv4 tx pkt (Z.of_nat (length pkt)) st =
    (let len := Z.of_nat (length payload) in
     if protocol =? 1 then handle_icmp tx (n_our_ip st) payload len st
     else if protocol =? 6 then tcp_rx tx (n_our_ip st) payload len st
     else if protocol =? 17 then handle_udp (n_our_ip st) payload len st
     else st).
Proof.
  intros pkt Hour Hid Hdst Hp Hl Hlo.
  destruct (ipv4_packet_fields (n_our_ip st) id dst_ip protocol payload) as (Hlen & Hdr & Hcs & H0 & H2 & H9 & H12 & H16); try done.
  fold pkt in Hlen, Hdr, Hcs, H0, H2, H9, H12, H16. unfold handle_ipv4. rewrite Hlen, H0, H2, H9, H12, H16.
  change (Z.land 69 15 * 4) with 20. change (Z.to_nat 20) with 20%nat. rewrite Hcs, Hdr. cbv zeta.
  assert (Hx : (Z.of_nat (20 + length payload) <? 20) = false) by (apply Z.ltb_ge; lia). rewrite Hx.
  cbn [orb Z.ltb Z.compare Z.eqb negb]. rewrite ?Hx.
  rewrite (proj2 (Z.ltb_ge (Z.of_nat (20 + length payload)) _)) by lia.
  unfold is_loopback in Hlo. replace (negb (dst_ip =? n_our_ip st) && negb (dst_ip =? 4294967295) && negb (Z.land dst_ip 4278190080 =? 2130706432))
    with false by (destruct (dst_ip =? n_our_ip st), (dst_ip =? 4294967295), (Z.land dst_ip 4278190080 =? 2130706432); done).
  replace (u32 (20 + Z.of_nat (length payload) - 20)) with (Z.of_nat (length payload)); [done|].
  rewrite u32_id; lia.
Qed.

(** C23.  A packet that the stack builds for the own host, with a payload of at most
    1480 bytes, is accepted by its receive path: the checksum over the header is
    right, and the payload reaches the handler of its protocol with the sender's
    address, byte for byte. *)
Theorem ipv4_accepted tx id dst_ip protocol payload st :
  let pkt := ipv4_packet (n_our_ip st) id dst_ip protocol payload in
  0 ≤ n_our_ip st < 2 ^ 32 → 0 ≤ id < 2 ^ 16 → 0 ≤ dst_ip < 2 ^ 32 → 0 ≤ protocol < 256 → (length payload ≤ 1480)%nat →
  is_loopback dst_ip st = true →
  handle_ipv4 tx pkt (Z.of_nat (length pkt)) st =
    (let len := Z.of_nat (length payload) in
     if protocol =? 1 then handle_icmp tx (n_our_ip st) payload len st
     else if protocol =? 6 then tcp_rx tx (n_our_ip st) payload len st
     else if protocol =? 17 then handle_udp (n_our_ip st) payload len st
     else st).
Proof. apply ipv4_packet_handled. Qed.

(** ** UDP *)

Lemma udp_packet_fields sp dp buf :
  0 ≤ sp < 2 ^ 16 → 0 ≤ dp < 2 ^ 16 → (length buf ≤ 1472)%nat →
  let pkt := udp_packet sp dp buf in
  length pkt = (8 + length buf)%nat ∧ drop 8 pkt = buf ∧
  ntohs (get_field 0 2 pkt) = sp ∧ ntohs (get_field 2 2 pkt) = dp ∧ ntohs (get_field 4 2 pkt) = 8 + Z.of_nat (length buf).
Proof.
  intros Hs Hd Hl pkt. unfold pkt, udp_packet. pose proof (htons_range sp). pose proof (htons_range dp).
  pose proof (htons_range (u16 (8 + Z.of_nat (length buf)))). split_and!.
  - solve_len.
  - done.
  - do 2 field_ne. field_eq; [by apply htons_invol|done].
  - field_ne. field_eq; [by apply htons_invol|done].
  - field_eq; [|done]. rewrite u16_id, htons_invol by lia. done.
Qed.

(** The socket that gets the packets for a port. *)
Definition udp_receiver (port : Z) st : option nat := find_idx (λ s, so_in_use s && (so_local_port s =? port)) (n_sockets st).

Lemma handle_udp_packet src_ip sp dp buf st j :
  0 ≤ sp < 2 ^ 16 → 0 ≤ dp < 2 ^ 16 → (length buf ≤ 1472)%nat →
  udp_receiver dp st = Some j → so_rx_ready (n_sockets st !!! j) = false →
  let pkt := udp_packet sp dp buf in
  handle_udp src_ip pkt (Z.of_nat (length pkt)) st =
    st <| n_sockets := alter (λ s, s <| so_rx_buf := buf |> <| so_rx_src_ip := src_ip |> <| so_rx_src_port := sp |>
                                     <| so_rx_ready := true |>) j (n_sockets st) |>.
Proof.
  intros Hs Hd Hl Hj Hr pkt. destruct (udp_packet_fields sp dp buf Hs Hd Hl) as (Hlen & Hdr & H0 & H2 & H4). fold pkt in Hlen, Hdr, H0, H2, H4.
  unfold handle_udp. rewrite Hlen, Hdr, H0, H2, H4. unfold udp_receiver in Hj. cbv zeta. rewrite Hj, Hr.
  rewrite (proj2 (Z.ltb_ge (Z.of_nat (8 + length buf)) 8)), (proj2 (Z.ltb_ge (8 + Z.of_nat (length buf)) 8)),
    (proj2 (Z.ltb_ge (Z.of_nat (8 + length buf)) _)), (proj2 (Z.ltb_ge 1500 _)) by lia. cbn [orb].
  replace (8 + Z.of_nat (length buf) - 8) with (Z.of_nat (length buf)) by lia.
  rewrite Nat2Z.id, read_bytes_take, take_ge by lia. done.
Qed.

Lemma recv_wait_ready yield n i st : (0 < n)%nat → so_rx_ready (n_sockets st !!! i) = true → recv_wait yield n i st = (WaitReady, st).
Proof. intros Hn Hr. destruct n; [lia|]. cbn [recv_wait]. by rewrite Hr. Qed.

(** Send from socket [i] to the own host, then receive at socket [j]; [mid] is what
    happens in between. *)
Definition udp_send_recv (link : list Z → Z) (yield mid : net_st → net_st) (fuel i j : nat) buf (dst_ip dp : Z) (len : nat) st :=
  let '(r, st) := net_sendto link yield fuel (Z.of_nat i) buf dst_ip dp st in
  let '(r', out, _) := net_recvfrom yield (Z.of_nat j) len (mid st) in (r, r', out).

Lemma handle_udp_busy src_ip sp dp buf st j :
  0 ≤ sp < 2 ^ 16 → 0 ≤ dp < 2 ^ 16 → (length buf ≤ 1472)%nat →
  udp_receiver dp st = Some j → so_rx_ready (n_sockets st !!! j) = true →
  let pkt := udp_packet sp dp buf in handle_udp src_ip pkt (Z.of_nat (length pkt)) st = st.
Proof.
  intros Hs Hd Hl Hj Hr pkt. destruct (udp_packet_fields sp dp buf Hs Hd Hl) as (Hlen & Hdr & H0 & H2 & H4). fold pkt in Hlen, Hdr, H0, H2, H4.
  unfold handle_udp. rewrite Hlen, H0, H2, H4. unfold udp_receiver in Hj. cbv zeta. rewrite Hj, Hr. by repeat case_match.
Qed.

Lemma bad_socket_false i st : (i < MAX_SOCKETS)%nat → so_in_use (n_sockets st !!! i) = true → bad_socket (Z.of_nat i) st = false.
Proof. intros Hi Hu. unfold bad_socket. rewrite Nat2Z.id, Hu, (proj2 (Z.ltb_ge _ 0)), (proj2 (Z.leb_gt _ _)) by lia. done. Qed.

(** C22.  A datagram of up to 1472 bytes sent to the own host, for a port that a socket
    is bound to, is reported as sent.  If no datagram waits at the socket, the next
    receive returns the bytes, up to the length it asks for, with the sender's address
    and port: the path of UDP and IPv4, both ways, is the identity.  If one waits, the
    new one is lost and the receive returns the one that waits.  Anything may happen
    between the two calls that leaves the socket alone. *)
Theorem udp_loopback_roundtrip link yield mid fuel i j buf dst_ip dp len st :
  let sp := so_local_port (n_sockets st !!! i) in
  let old := n_sockets st !!! j in
  (i < MAX_SOCKETS)%nat → (j < MAX_SOCKETS)%nat → length (n_sockets st) = MAX_SOCKETS →
  so_in_use (n_sockets st !!! i) = true → 0 ≤ sp < 2 ^ 16 → 0 ≤ dp < 2 ^ 16 → 0 ≤ dst_ip < 2 ^ 32 →
  0 ≤ n_our_ip st < 2 ^ 32 → 0 ≤ n_ip_id st < 2 ^ 16 → is_loopback dst_ip st = true → (length buf ≤ 1472)%nat →
  udp_receiver dp st = Some j → (∀ s, n_sockets (mid s) !!! j = n_sockets s !!! j) →
  udp_send_recv link yield mid (S fuel) i j buf dst_ip dp len st =
    if so_rx_ready old
    then (0, Z.of_nat (Nat.min len (length (so_rx_buf old))), (take len (so_rx_buf old), so_rx_src_ip old, so_rx_src_port old))
    else (0, Z.of_nat (Nat.min len (length buf)), (take len buf, n_our_ip st, sp)).
Proof.
  intros sp old Hi Hj Hln Hui Hsp Hdp Hdst Hour Hid Hlo Hl Hrecv Hmid. unfold udp_send_recv, net_sendto.
  rewrite bad_socket_false, (proj2 (Z.ltb_ge 1472 _)), Nat2Z.id by (done || lia). fold sp. cbn [net_tx_ipv4].
  set (st1 := st <| n_ip_id := u16 (n_ip_id st + 1) |>). change (is_loopback dst_ip st1) with (is_loopback dst_ip st). rewrite Hlo.
  set (pkt := udp_packet sp dp buf). assert (Hpl : length pkt = (8 + length buf)%nat) by (unfold pkt, udp_packet; solve_len).
  pose proof (ipv4_packet_handled (net_tx_ipv4 link yield fuel) (n_ip_id st) dst_ip 17 pkt st1) as Ha. cbv zeta in Ha.
  change (n_our_ip st1) with (n_our_ip st) in Ha. rewrite Ha; [|done..|lia|lia|done]. cbn [Z.eqb Pos.eqb].
  assert (Huse : so_in_use old = true).
  { apply find_idx_Some in Hrecv as (s & Hs & Hp & _). unfold old. rewrite (list_lookup_total_correct _ _ _ Hs).
    by apply andb_prop in Hp as [? _]. }
  assert (Hend : ∀ s2, so_rx_ready (n_sockets s2 !!! j) = true → so_in_use (n_sockets s2 !!! j) = true →
    net_recvfrom yield (Z.of_nat j) len (mid s2) =
      (Z.of_nat (Nat.min len (length (so_rx_buf (n_sockets s2 !!! j)))),
       (take len (so_rx_buf (n_sockets s2 !!! j)), so_rx_src_ip (n_sockets s2 !!! j), so_rx_src_port (n_sockets s2 !!! j)),
       (mid s2) <| n_sockets := alter (λ s, s <| so_rx_ready := false |>) j (n_sockets (mid s2)) |>)).
  { intros s2 Hr2 Hu2. unfold net_recvfrom. rewrite bad_socket_false; [|done|by rewrite Hmid].
    rewrite Nat2Z.id, (recv_wait_ready yield); [|apply Nat.ltb_lt; by vm_compute|by rewrite Hmid]. rewrite Hmid.
    cbn -[take]. by rewrite length_take. }
  destruct (so_rx_ready old) eqn:Hready.
  - pose proof (handle_udp_busy (n_our_ip st) sp dp buf st1 j Hsp Hdp Hl Hrecv Hready) as Hu. cbv zeta in Hu. fold pkt in Hu. rewrite Hu.
    by rewrite (Hend st1 Hready Huse).
  - pose proof (handle_udp_packet (n_our_ip st) sp dp buf st1 j Hsp Hdp Hl Hrecv Hready) as Hu. cbv zeta in Hu. fold pkt in Hu. rewrite Hu.
    set (st2 := st1 <| n_sockets := _ |>).
    assert (Es : n_sockets st2 !!! j = old <| so_rx_buf := buf |> <| so_rx_src_ip := n_our_ip st |>
                                          <| so_rx_src_port := sp |> <| so_rx_ready := true |>).
    { change (n_sockets st2) with (alter (λ s : socket, s <| so_rx_buf := buf |> <| so_rx_src_ip := n_our_ip st |>
        <| so_rx_src_port := sp |> <| so_rx_ready := true |>) j (n_sockets st)).
      destruct (lookup_lt_is_Some_2 (n_sockets st) j) as [s Hs]; [lia|]. unfold old. rewrite (list_lookup_total_correct _ _ _ Hs).
      apply list_lookup_total_correct. by rewrite list_lookup_alter_eq, Hs. }
    rewrite (Hend st2) by (rewrite Es; done). by rewrite Es.
Qed.

(** An IPv4 header that claims a total length of zero. *)
Definition forged_header (src_ip id dst_ip : Z) : list Z :=
  let ip := ipv4_header src_ip id dst_ip 17 (-20) in set_field 10 2 (ip_checksum ip) ip.

(** C25.  The receive path subtracts the header length from the total length without
    checking it: a frame of 28 bytes whose header claims a total length of zero
    passes every test, and the bytes behind the frame in memory are delivered to
    the socket. *)
Theorem short_total_leaks tx src_ip id sp dp secret st j :
  0 ≤ src_ip < 2 ^ 32 → 0 ≤ id < 2 ^ 16 → 0 ≤ n_our_ip st < 2 ^ 32 → 0 ≤ sp < 2 ^ 16 → 0 ≤ dp < 2 ^ 16 → (length secret ≤ 1472)%nat →
  udp_receiver dp st = Some j → so_rx_ready (n_sockets st !!! j) = false →
  handle_ipv4 tx (forged_header src_ip id (n_our_ip st) ++ udp_packet sp dp secret) 28 st =
    st <| n_sockets := alter (λ s, s <| so_rx_buf := secret |> <| so_rx_src_ip := src_ip |> <| so_rx_src_port := sp |>
                                     <| so_rx_ready := true |>) j (n_sockets st) |>.
Proof.
  intros Hsrc Hid Hour Hsp Hdp Hl Hj Hr. unfold forged_header.
  pose proof (ipv4_header_len src_ip id (n_our_ip st) 17 (-20)) as Hlen. pose proof (ipv4_header_bytes src_ip id (n_our_ip st) 17 (-20)) as Hby.
  destruct (ipv4_header_fields src_ip id (n_our_ip st) 17 (-20)) as (H0 & H2 & H9 & H12 & H16 & H10); [lia..|].
  set (hdr := ipv4_header src_ip id (n_our_ip st) 17 (-20)) in *. set (cs := ip_checksum hdr).
  assert (Hs : length (set_field 10 2 cs hdr) = 20%nat) by (rewrite length_set_field; lia). set (u := udp_packet sp dp secret).
  assert (Hne : ∀ off k, (off + k ≤ 20)%nat → (off + k ≤ 10 ∨ 12 ≤ off)%nat →
            get_field off k (set_field 10 2 cs hdr ++ u) = get_field off k hdr).
  { intros off k Hok Hd. rewrite get_field_app by (rewrite Hs; done). apply get_set_field_ne; lia. }
  unfold handle_ipv4. rewrite !Hne by lia. rewrite H0, H2, H9, H12, H16. change (Z.land 69 15 * 4) with 20. change (Z.to_nat 20) with 20%nat.
  rewrite read_bytes_take by (rewrite length_app; lia). rewrite take_app_length', drop_app_length' by done.
  assert (ip_checksum (set_field 10 2 cs hdr) = 0) as -> by (apply checksum_accepted; [by exists 5%nat|lia|lia|done|done]).
  rewrite Z.eqb_refl.
  cbn [negb andb orb Z.ltb Z.compare Pos.compare Pos.compare_cont Z.add Z.pos_sub Z.eqb].
  change (u32 (20 + -20 - 20)) with (2 ^ 32 - 20). cbn [Pos.eqb].
  unfold handle_udp. destruct (udp_packet_fields sp dp secret Hsp Hdp Hl) as (Hul & Hdr & E0 & E2 & E4). fold u in Hul, Hdr, E0, E2, E4.
  rewrite Hdr, E0, E2, E4. cbv zeta. unfold udp_receiver in Hj. rewrite Hj, Hr.
  rewrite (proj2 (Z.ltb_ge (2 ^ 32 - 20) 8)), (proj2 (Z.ltb_ge (8 + Z.of_nat (length secret)) 8)),
    (proj2 (Z.ltb_ge (2 ^ 32 - 20) _)), (proj2 (Z.ltb_ge 1500 _)) by lia. cbn [orb].
  replace (8 + Z.of_nat (length secret) - 8) with (Z.of_nat (length secret)) by lia.
  rewrite Nat2Z.id, read_bytes_take, take_ge by lia.
  rewrite Z.eqb_refl. reflexivity.
Qed.

(** A host with two bound sockets. *)
Definition sample_host : net_st :=
  let st := net_init [2; 0; 0; 0; 0; 1] net_zero in
  let '(_, st) := net_socket st in
  let '(_, st) := net_bind 0 5000 st in
  let '(_, st) := net_socket st in
  (net_bind 1 7 st).2.

Lemma sample_host_ip : n_our_ip sample_host = NET_IP.
Proof. by vm_compute. Qed.

(** Side conditions on a concrete state. *)
Ltac range_by_compute :=
  match goal with
  | |- _ ≤ _ < _ => split; [apply Z.leb_le; vm_compute; reflexivity|apply Z.ltb_lt; vm_compute; reflexivity]
  | |- (_ < _)%nat => apply Nat.ltb_lt; vm_compute; reflexivity
  | |- (_ ≤ _)%nat => apply Nat.leb_le; vm_compute; reflexivity
  | |- _ = _ => vm_compute; reflexivity
  end.

Lemma ipv4_accepted_witness :
  let pkt := ipv4_packet (n_our_ip sample_host) 1 0x7F000001 17 [1; 2; 3] in
  handle_ipv4 (λ _ _ _ st, (0, st)) pkt (Z.of_nat (length pkt)) sample_host =
  handle_udp (n_our_ip sample_host) [1; 2; 3] (Z.of_nat (length [1; 2; 3])) sample_host.
Proof.
  cbv zeta. rewrite (ipv4_accepted (λ _ _ _ st, (0, st)) 1 0x7F000001 17 [1; 2; 3] sample_host); [reflexivity|range_by_compute..].
Defined.

Lemma udp_loopback_roundtrip_witness :
  udp_send_recv (λ _, 0) id (λ st, st <| n_signal := true |>) 1 0 1 [104; 105] NET_IP 7 100 sample_host =
    (0, 2, ([104; 105], n_our_ip sample_host, so_local_port (n_sockets sample_host !!! 0%nat))).
Proof.
  assert (so_rx_ready (n_sockets sample_host !!! 1%nat) = false) as Hr by reflexivity.
  rewrite (udp_loopback_roundtrip (λ _, 0) id (λ st, st <| n_signal := true |>) 0 0 1 [104; 105] NET_IP 7 100 sample_host);
    [rewrite Hr; reflexivity | first [by intros | range_by_compute]..].
Defined.

Lemma short_total_leaks_witness :
  so_rx_buf (n_sockets (handle_ipv4 (λ _ _ _ st, (0, st))
    (forged_header 1 1 (n_our_ip sample_host) ++ udp_packet 9 7 [83; 69; 67; 82; 69; 84]) 28 sample_host) !!! 1%nat) = [83; 69; 67; 82; 69; 84].
Proof.
  rewrite (short_total_leaks (λ _ _ _ st, (0, st)) 1 1 9 7 [83; 69; 67; 82; 69; 84] sample_host 1);
    [vm_compute; reflexivity|range_by_compute..].
Defined.
