(* ===== verification/TcpStream.v ===== *)
(** * TcpStream: what a TCP connection delivers

    A sending host and a receiving host with an established connection, and a
    network between them that loses, repeats and reorders segments at will.  The
    bytes the receiver reads are always a prefix of the bytes the sender was told
    were accepted.  The file also shows where this implementation loses data
    although the connection looks sound. *)

From S2P Require Import Prelude KUtil Mem Bytes Ring Net Tcp NetStack NetWire.

Implicit Types (c : tcp_conn) (st : net_st) (i : nat) (data seg : list Z).

(** ** Segments *)

(** The numbers of a connection fit their fields. *)
Record conn_ok c : Prop := {
  co_lport : 0 ≤ c_local_port c < 2 ^ 16;
  co_rport : 0 ≤ c_remote_port c < 2 ^ 16;
  co_snd : 0 ≤ c_snd_nxt c < 2 ^ 32;
  co_rcv : 0 ≤ c_rcv_nxt c < 2 ^ 32;
  co_txseq : 0 ≤ c_tx_buf_seq c < 2 ^ 32;
  co_tx : (length (c_tx_buf c) ≤ TCP_MSS)%nat;
  co_ring : ring_wf TCP_RX_BUF_SIZE (c_rx c)
}.

(** Headers that fit. *)
Definition hdr_ok (h : tcp_hdr) : Prop :=
  0 ≤ th_src_port h < 2 ^ 16 ∧ 0 ≤ th_dst_port h < 2 ^ 16 ∧ 0 ≤ th_seq h < 2 ^ 32 ∧ 0 ≤ th_ack h < 2 ^ 32 ∧
  0 ≤ th_data_offset h < 256 ∧ 0 ≤ th_flags h < 256 ∧ 0 ≤ th_window h < 2 ^ 16.

(** The segment with its checksum. *)
Definition sealed (src dst : Z) (h : tcp_hdr) data : list Z :=
  let seg := tcp_hdr_bytes h data in set_field 16 2 (tcp_checksum src dst seg) seg.

Lemma length_tcp_hdr_bytes h data : length (tcp_hdr_bytes h data) = (20 + length data)%nat.
Proof. unfold tcp_hdr_bytes. solve_len. Qed.

Lemma length_sealed src dst h data : length (sealed src dst h data) = (20 + length data)%nat.
Proof. unfold sealed. rewrite length_set_field; rewrite length_tcp_hdr_bytes; lia. Qed.

Lemma sealed_field src dst h data off n :
  (off + n ≤ 16)%nat → get_field off n (sealed src dst h data) = get_field off n (tcp_hdr_bytes h data).
Proof. intros Hn. apply get_set_field_ne; [rewrite length_tcp_hdr_bytes|]; lia. Qed.

(** A header is read back as it was written, and the data is behind it. *)
Lemma sealed_read src dst h data :
  hdr_ok h → tcp_hdr_of (sealed src dst h data) = h ∧ drop 20 (sealed src dst h data) = data.
Proof.
  intros (Hsp & Hdp & Hseq & Hack & Hoff & Hfl & Hw). split.
  - unfold tcp_hdr_of. rewrite !sealed_field by lia. unfold tcp_hdr_bytes.
    pose proof (htons_range (th_src_port h)). pose proof (htons_range (th_dst_port h)). pose proof (htonl_range (th_seq h)).
    pose proof (htonl_range (th_ack h)). pose proof (htons_range (th_window h)).
    destruct h as [sp dp seq ack off fl w]. cbn [th_src_port th_dst_port th_seq th_ack th_data_offset th_flags th_window] in *.
    f_equal.
    + do 6 field_ne. field_eq; [by apply htons_invol|done].
    + do 5 field_ne. field_eq; [by apply htons_invol|done].
    + do 4 field_ne. field_eq; [by apply htonl_invol|done].
    + do 3 field_ne. field_eq; [by apply htonl_invol|done].
    + do 2 field_ne. by field_eq.
    + do 1 field_ne. by field_eq.
    + field_eq; [by apply htons_invol|done].
  - done.
Qed.

(** ** A host with one connection *)

(** Transmission that puts the segment on the wire. *)
Definition wire (dst_ip protocol : Z) (payload : list Z) st : Z * net_st := (0, st <| n_out := n_out st ++ [payload] |>).

(** No other connection is in use. *)
Definition only i st : Prop :=
  length (n_conns st) = MAX_TCP_CONNS ∧ (i < MAX_TCP_CONNS)%nat ∧ ∀ j, j ≠ i → c_in_use (conn_at j st) = false.

Lemma conn_at_set f i st : only i st → conn_at i (set_conn f i st) = f (conn_at i st).
Proof.
  intros (Hl & Hi & _). unfold conn_at, set_conn. change (n_conns (st <| n_conns := ?x |>)) with x.
  destruct (lookup_lt_is_Some_2 (n_conns st) i) as [c Hc]; [by rewrite Hl|].
  rewrite (list_lookup_total_correct _ _ _ Hc). apply list_lookup_total_correct. by rewrite list_lookup_alter_eq, Hc.
Qed.

Lemma conn_at_set_ne f i j st : j ≠ i → conn_at j (set_conn f i st) = conn_at j st.
Proof.
  intros Hj. unfold conn_at, set_conn. change (n_conns (st <| n_conns := ?x |>)) with x.
  by rewrite !list_lookup_total_alt, list_lookup_alter_ne.
Qed.

Lemma only_set f i st : only i st → only i (set_conn f i st).
Proof.
  intros (Hl & Hi & Ho). split_and!; [|done|].
  - unfold set_conn. change (n_conns (st <| n_conns := ?x |>)) with x. by rewrite length_alter.
  - intros j Hj. rewrite conn_at_set_ne by done. by apply Ho.
Qed.

Lemma find_only (p : tcp_conn → bool) i st :
  only i st → (∀ c, p c = true → c_in_use c = true) →
  find_idx p (n_conns st) = if p (conn_at i st) then Some i else None.
Proof.
  intros (Hl & Hi & Ho) Hp. destruct (lookup_lt_is_Some_2 (n_conns st) i) as [c Hc]; [by rewrite Hl|].
  assert (conn_at i st = c) as -> by (by apply list_lookup_total_correct). destruct (p c) eqn:E.
  - apply find_idx_Some. exists c. split_and!; [done..|]. intros j y Hj Hy. destruct (p y) eqn:Ey; [|done].
    apply Hp in Ey. specialize (Ho j ltac:(lia)). unfold conn_at in Ho. rewrite (list_lookup_total_correct _ _ _ Hy) in Ho. congruence.
  - apply find_idx_None. intros j y Hy. destruct (p y) eqn:Ey; [|done]. exfalso.
    destruct (decide (j = i)) as [->|Hj]; [congruence|].
    apply Hp in Ey. specialize (Ho j Hj). unfold conn_at in Ho. rewrite (list_lookup_total_correct _ _ _ Hy) in Ho. congruence.
Qed.

Lemma find_conn_only lp rip rp i st :
  only i st →
  tcp_find_conn lp rip rp st =
    (let c := conn_at i st in
     if c_in_use c && (c_local_port c =? lp) && (c_remote_ip c =? rip) && (c_remote_port c =? rp) then Some i else None).
Proof.
  intros Ho. unfold tcp_find_conn. rewrite (find_only _ i); [done|done|]. intros c. rewrite !andb_true_iff. tauto.
Qed.

Lemma find_listener_only lp i st : only i st → c_state (conn_at i st) ≠ TCP_LISTEN → tcp_find_listener lp st = None.
Proof.
  intros Ho Hs. unfold tcp_find_listener. rewrite (find_only _ i); [|done|intros c; rewrite !andb_true_iff; tauto].
  unfold in_state. rewrite bool_decide_false by done. by rewrite andb_false_r.
Qed.

(** Sending puts one segment on the wire; the connection records its window. *)
Lemma send_segment_wire i flags data st :
  only i st →
  let c := (conn_at i st) <| c_rcv_wnd := tcp_calc_rcv_wnd (conn_at i st) |> in
  let st' := tcp_send_segment wire i flags data st in
  only i st' ∧ conn_at i st' = c ∧ n_out st' = n_out st ++ [tcp_segment flags data c] ∧ n_ticks st' = n_ticks st.
Proof.
  intros Ho c st'. unfold st', tcp_send_segment, wire.
  pose proof (only_set (λ c, c <| c_rcv_wnd := tcp_calc_rcv_wnd c |>) i st Ho) as Ho1.
  pose proof (conn_at_set (λ c, c <| c_rcv_wnd := tcp_calc_rcv_wnd c |>) i st Ho) as E.
  split; [exact Ho1|]. split; [exact E|]. split; [|done]. cbn [snd]. rewrite E. done.
Qed.

Lemma calc_wnd_range c : 0 ≤ tcp_calc_rcv_wnd c < 2 ^ 16.
Proof. apply u16_range. Qed.

Lemma seg_hdr_ok flags c : conn_ok c → 0 ≤ flags < 256 → 0 ≤ c_rcv_wnd c < 2 ^ 16 → hdr_ok (seg_hdr flags c).
Proof. intros [] Hf Hw. unfold hdr_ok. cbn -[Z.shiftl]. change (Z.shiftl 5 4) with 80. lia. Qed.

(** ** The receive ring *)

#[global] Opaque TCP_RX_BUF_SIZE TCP_MSS.

Lemma rx_puts_spec l : ∀ r,
  ring_wf TCP_RX_BUF_SIZE r → (length l ≤ TCP_RX_BUF_SIZE - r_count r)%nat →
  ring_wf TCP_RX_BUF_SIZE (rx_puts l r) ∧ ring_contents (rx_puts l r) = ring_contents r ++ l.
Proof.
  induction l as [|b l IH]; intros r Hwf Hl; [by rewrite app_nil_r|]. cbn [length] in Hl. unfold rx_puts. cbn [foldl].
  assert (Hc : (r_count r < TCP_RX_BUF_SIZE)%nat) by lia. pose proof (ring_put_wf _ (λ _, b) r Hwf Hc) as Hwf1.
  destruct (ring_put_contents _ (λ _, b) r Hwf Hc) as (x & _ & E).
  destruct (IH (ring_put TCP_RX_BUF_SIZE (λ _, b) r) Hwf1) as [Hwf2 E2].
  { change (r_count (ring_put _ _ r)) with (r_count r + 1)%nat. lia. }
  split; [exact Hwf2|]. etransitivity; [exact E2|]. by rewrite E, <- app_assoc.
Qed.

Lemma rx_take_spec n : ∀ r,
  ring_wf TCP_RX_BUF_SIZE r → (n ≤ r_count r)%nat →
  let '(l, r') := rx_take n r in
  l = take n (ring_contents r) ∧ ring_wf TCP_RX_BUF_SIZE r' ∧ ring_contents r' = drop n (ring_contents r).
Proof.
  induction n as [|n IH]; intros r Hwf Hn; cbn [rx_take]; [by rewrite take_0, drop_0|].
  destruct (ring_drop_contents _ r Hwf) as (x & Hx & ->); [lia|]. pose proof (ring_drop_wf _ r Hwf ltac:(lia)) as Hwf1.
  unfold ring_peek in Hx. rewrite (list_lookup_total_correct _ _ _ Hx).
  specialize (IH _ Hwf1). destruct (rx_take n _) as [l r']. cbn [take drop].
  destruct IH as (-> & Hw & ->); [change (r_count (ring_drop _ r)) with (r_count r - 1)%nat; lia|]. done.
Qed.

Lemma ring_room (r : ring Z) : ring_wf TCP_RX_BUF_SIZE r → (r_count r ≤ TCP_RX_BUF_SIZE)%nat ∧ r_count r = length (ring_contents r).
Proof. intros H. split; [apply H|]. by rewrite (length_ring_contents TCP_RX_BUF_SIZE). Qed.

(** ** Two hosts *)

Section stream.
Context (ia ib : nat) (pa pb ipA ipB a0 : Z) (yield : net_st → net_st).

(** The sender, the receiver, what the sender accepted and what the receiver
    read. *)
Record world := mk_world { w_a : net_st; w_b : net_st; w_sent : list Z; w_got : list Z }.

Inductive step : world → world → Prop :=
| step_send buf r A A' B sent got :
    tcp_send wire (Z.of_nat ia) buf A = (r, A') →
    step (mk_world A B sent got) (mk_world A' B (sent ++ take (Z.to_nat r) buf) got)
| step_timer A B sent got : step (mk_world A B sent got) (mk_world (tcp_timer_check wire A) B sent got)
| step_tick t A B sent got : step (mk_world A B sent got) (mk_world (A <| n_ticks := t |>) B sent got)
| step_data seg A B sent got :
    seg ∈ n_out A → step (mk_world A B sent got) (mk_world A (tcp_rx wire ipA seg (Z.of_nat (length seg)) B) sent got)
| step_ack seg A B sent got :
    seg ∈ n_out B → step (mk_world A B sent got) (mk_world (tcp_rx wire ipB seg (Z.of_nat (length seg)) A) B sent got)
| step_recv len r l A B B' sent got :
    tcp_recv wire yield (Z.of_nat ib) len B = (r, l, B') → step (mk_world A B sent got) (mk_world A B' sent (got ++ l)).

(** A segment of the sender: a reset, or bytes [sent] at their place. *)
Definition data_seg (sent : list Z) seg : Prop :=
  let h := tcp_hdr_of seg in
  (20 ≤ length seg)%nat ∧ th_data_offset h = 80 ∧
  (has_flag (th_flags h) TCP_RST = true ∨
   th_src_port h = pa ∧ th_dst_port h = pb ∧ has_flag (th_flags h) TCP_FIN = false ∧ has_flag (th_flags h) TCP_RST = false ∧
   ∃ off, (off + (length seg - 20) ≤ length sent)%nat ∧ drop 20 seg = slice off (length seg - 20) sent ∧
          th_seq h = u32 (a0 + Z.of_nat off)).

(** An acknowledgement. *)
Definition ack_seg seg : Prop := length seg = 20%nat ∧ th_data_offset (tcp_hdr_of seg) = 80 ∧ th_flags (tcp_hdr_of seg) = TCP_ACK.

Record sender_ok (sent : list Z) A : Prop := {
  so_only : only ia A;
  so_conn : conn_ok (conn_at ia A);
  so_ports : c_local_port (conn_at ia A) = pa ∧ c_remote_port (conn_at ia A) = pb;
  so_live : c_state (conn_at ia A) = TCP_ESTABLISHED ∨ c_in_use (conn_at ia A) = false ∧ c_state (conn_at ia A) = TCP_CLOSED;
  so_nxt : c_snd_nxt (conn_at ia A) = u32 (a0 + Z.of_nat (length sent));
  so_tx : c_tx_buf (conn_at ia A) = [] ∨ ∃ off, (off + length (c_tx_buf (conn_at ia A)) ≤ length sent)%nat ∧
            c_tx_buf (conn_at ia A) = slice off (length (c_tx_buf (conn_at ia A))) sent ∧
            c_tx_buf_seq (conn_at ia A) = u32 (a0 + Z.of_nat off);
  so_out : Forall (data_seg sent) (n_out A)
}.

Record receiver_ok (sent got : list Z) B : Prop := {
  ro_only : only ib B;
  ro_conn : conn_ok (conn_at ib B);
  ro_addr : c_in_use (conn_at ib B) = true ∧ c_local_port (conn_at ib B) = pb ∧ c_remote_port (conn_at ib B) = pa ∧
            c_remote_ip (conn_at ib B) = ipA;
  ro_nonblock : c_nonblock (conn_at ib B) = true;
  ro_live : c_state (conn_at ib B) = TCP_ESTABLISHED ∨ c_state (conn_at ib B) = TCP_CLOSED;
  ro_data : ∃ k, (k ≤ length sent)%nat ∧ got ++ ring_contents (c_rx (conn_at ib B)) = take k sent ∧
            (c_state (conn_at ib B) = TCP_ESTABLISHED → c_rcv_nxt (conn_at ib B) = u32 (a0 + Z.of_nat k));
  ro_out : Forall ack_seg (n_out B)
}.

(** More bytes accepted later. *)
Lemma slice_app_l {A} off n (l l' : list A) : (off + n ≤ length l)%nat → slice off n (l ++ l') = slice off n l.
Proof. intros H. unfold slice. rewrite drop_app_le, take_app_le by (rewrite ?length_drop; lia). done. Qed.

Lemma data_seg_more sent more seg : data_seg sent seg → data_seg (sent ++ more) seg.
Proof.
  intros (Hl & Ho & Hr). split_and!; [done..|]. destruct Hr as [Hr|(H1 & H2 & H3 & H4 & off & Hoff & Hd & Hs)]; [by left|right].
  split_and!; [done..|]. exists off. rewrite length_app, slice_app_l by done. split_and!; [lia|done..].
Qed.

Lemma receiver_more sent more got B : receiver_ok sent got B → receiver_ok (sent ++ more) got B.
Proof.
  intros []. split; try done. destruct ro_data0 as (k & Hk & Hg & Hn). exists k. rewrite length_app, take_app_le by done.
  split_and!; [lia|done..].
Qed.

(** What a connection sends is a data segment. *)
Lemma tcp_segment_data sent flags data c off :
  conn_ok c → 0 ≤ c_rcv_wnd c < 2 ^ 16 → c_local_port c = pa → c_remote_port c = pb → flags = Z.lor TCP_ACK TCP_PSH →
  (off + length data ≤ length sent)%nat → data = slice off (length data) sent → c_snd_nxt c = u32 (a0 + Z.of_nat off) →
  data_seg sent (tcp_segment flags data c).
Proof.
  intros Hc Hw Hpa Hpb -> Hoff Hd Hs. change (tcp_segment ?f data c) with (sealed (c_local_ip c) (c_remote_ip c) (seg_hdr f c) data).
  destruct (sealed_read (c_local_ip c) (c_remote_ip c) (seg_hdr (Z.lor TCP_ACK TCP_PSH) c) data) as [Eh Ed];
    [by apply seg_hdr_ok|]. unfold data_seg. rewrite Eh, Ed, length_sealed. cbv zeta.
  split_and!; [lia|done|]. right. split_and!; [done..|]. exists off. replace (20 + length data - 20)%nat with (length data) by lia. done.
Qed.

Lemma tcp_segment_rst sent flags c :
  conn_ok c → 0 ≤ c_rcv_wnd c < 2 ^ 16 → flags = TCP_RST → data_seg sent (tcp_segment flags [] c).
Proof.
  intros Hc Hw ->. change (tcp_segment ?f [] c) with (sealed (c_local_ip c) (c_remote_ip c) (seg_hdr f c) []).
  destruct (sealed_read (c_local_ip c) (c_remote_ip c) (seg_hdr TCP_RST c) []) as [Eh Ed]; [by apply seg_hdr_ok|].
  unfold data_seg. rewrite Eh, length_sealed. cbv zeta. split_and!; [lia|done|]. by left.
Qed.

Lemma tcp_segment_ack c : conn_ok c → 0 ≤ c_rcv_wnd c < 2 ^ 16 → ack_seg (tcp_segment TCP_ACK [] c).
Proof.
  intros Hc Hw. change (tcp_segment ?f [] c) with (sealed (c_local_ip c) (c_remote_ip c) (seg_hdr f c) []).
  destruct (sealed_read (c_local_ip c) (c_remote_ip c) (seg_hdr TCP_ACK c) []) as [Eh _]; [by apply seg_hdr_ok|].
  unfold ack_seg. rewrite Eh, length_sealed. done.
Qed.

Lemma bad_conn_false i : (i < MAX_TCP_CONNS)%nat → bad_conn (Z.of_nat i) = false.
Proof. intros Hi. unfold bad_conn. rewrite (proj2 (Z.ltb_ge _ 0)), (proj2 (Z.leb_gt _ _)) by lia. done. Qed.

Lemma conn_ok_wnd c w : conn_ok c → conn_ok (c <| c_rcv_wnd := w |>).
Proof. by intros []. Qed.

Lemma sender_send buf r A A' sent :
  sender_ok sent A → tcp_send wire (Z.of_nat ia) buf A = (r, A') → sender_ok (sent ++ take (Z.to_nat r) buf) A'.
Proof.
  intros Hs. pose proof Hs as [Ho Hc [Hpa Hpb] Hlive Hnxt Htx Hout]. unfold tcp_send. pose proof Ho as (_ & Hi & _).
  rewrite bad_conn_false, Nat2Z.id by done.
  destruct (negb _ || negb _) eqn:E1; [intros [= <- <-]; rewrite take_0, app_nil_r; exact Hs|].
  destruct (c_rst_received _); [intros [= <- <-]; rewrite take_0, app_nil_r; exact Hs|].
  set (data := take TCP_MSS buf). set (c := conn_at ia A) in *.
  pose proof (only_set (λ c, c <| c_tx_buf := data |> <| c_tx_buf_seq := c_snd_nxt c |>) ia A Ho) as Ho1.
  pose proof (conn_at_set (λ c, c <| c_tx_buf := data |> <| c_tx_buf_seq := c_snd_nxt c |>) ia A Ho) as E.
  set (A1 := set_conn _ ia A) in *. fold c in E.
  destruct (send_segment_wire ia (Z.lor TCP_ACK TCP_PSH) data A1 Ho1) as (Ho2 & E2 & Hout2 & Ht2). rewrite E in E2, Hout2.
  set (A2 := tcp_send_segment wire ia _ data A1) in *. set (c1 := c <| c_tx_buf := data |> <| c_tx_buf_seq := c_snd_nxt c |>) in *.
  assert (Hlen : (length data ≤ TCP_MSS)%nat) by (unfold data; rewrite length_take; lia).
  assert (Hok1 : conn_ok c1) by (destruct Hc; constructor; try done).
  intros [= <- <-]. rewrite Nat2Z.id. assert (Hdt : take (length data) buf = data).
  { unfold data. rewrite length_take. destruct (decide (TCP_MSS ≤ length buf)%nat); [by rewrite Nat.min_l by lia|].
    rewrite Nat.min_r, !take_ge by lia. done. }
  rewrite Hdt. set (A3 := set_conn _ ia A2).
  assert (E3 : conn_at ia A3 = (conn_at ia A2) <| c_snd_nxt := u32 (c_snd_nxt c + Z.of_nat (length data)) |>
                                 <| c_rto_tick := n_ticks A2 + 18 |> <| c_retransmit_count := 0 |>) by (by apply conn_at_set).
  rewrite E2 in E3. split.
  - by apply only_set.
  - rewrite E3. destruct Hc. constructor; try done. apply u32_range.
  - rewrite E3. done.
  - rewrite E3. destruct Hlive as [Hl|[Hu _]]; [left; exact Hl|]. by rewrite Hu in E1.
  - rewrite E3. change (u32 (c_snd_nxt c + Z.of_nat (length data)) = u32 (a0 + Z.of_nat (length (sent ++ data)))).
    rewrite Hnxt, length_app, Nat2Z.inj_add. unfold u32. rewrite Z.add_mod_idemp_l by lia. f_equal. lia.
  - rewrite E3. right. exists (length sent).
    change ((length sent + length data ≤ length (sent ++ data))%nat ∧ data = slice (length sent) (length data) (sent ++ data) ∧
            c_snd_nxt c = u32 (a0 + Z.of_nat (length sent))).
    rewrite length_app. split_and!; [lia| |exact Hnxt]. unfold slice. rewrite drop_app_length, take_ge; [done|lia].
  - change (n_out A3) with (n_out A2). rewrite Hout2. apply Forall_app. split.
    + eapply Forall_impl; [exact Hout|]. intros seg. apply data_seg_more.
    + constructor; [|constructor]. apply (tcp_segment_data _ _ _ _ (length sent)); try done.
      * by apply conn_ok_wnd.
      * apply calc_wnd_range.
      * rewrite length_app. lia.
      * unfold slice. rewrite drop_app_length, take_ge; [done|lia].
Qed.

(** The same connection, up to bookkeeping that the stream does not depend on. *)
Lemma sender_same sent A A' c' :
  sender_ok sent A → only ia A' → conn_at ia A' = c' → conn_ok c' →
  c_local_port c' = pa ∧ c_remote_port c' = pb → c_tx_buf c' = c_tx_buf (conn_at ia A) →
  c_tx_buf_seq c' = c_tx_buf_seq (conn_at ia A) → c_snd_nxt c' = c_snd_nxt (conn_at ia A) →
  c_state c' = TCP_ESTABLISHED ∨ c_in_use c' = false ∧ c_state c' = TCP_CLOSED →
  Forall (data_seg sent) (n_out A') → sender_ok sent A'.
Proof.
  intros [] Ho <- Hc Hp Htx Hseq Hn Hl Hout. split; try done; [congruence|]. by rewrite Htx, Hseq.
Qed.

Lemma sender_resend now sent A :
  sender_ok sent A → c_in_use (conn_at ia A) = true → c_tx_buf (conn_at ia A) ≠ [] →
  let c := conn_at ia A in
  let A1 := set_conn (λ c, c <| c_snd_nxt := c_tx_buf_seq c |>) ia A in
  let A2 := tcp_send_segment wire ia (Z.lor TCP_ACK TCP_PSH) (c_tx_buf c) A1 in
  sender_ok sent (set_conn (λ c', let count := u8 (c_retransmit_count c' + 1) in
                                  c' <| c_snd_nxt := c_snd_nxt c |> <| c_retransmit_count := count |>
                                     <| c_rto_tick := u64 (now + rto_of count) |>) ia A2).
Proof.
  intros Hs Hu Hne c A1 A2. pose proof Hs as [Ho Hc [Hpa Hpb] Hlive Hnxt Htx Hout]. fold c in Hu, Hne, Hc, Hpa, Hpb, Hlive, Hnxt, Htx.
  pose proof (only_set (λ c, c <| c_snd_nxt := c_tx_buf_seq c |>) ia A Ho) as Ho1.
  pose proof (conn_at_set (λ c, c <| c_snd_nxt := c_tx_buf_seq c |>) ia A Ho) as E1. fold A1 in Ho1, E1. fold c in E1.
  destruct (send_segment_wire ia (Z.lor TCP_ACK TCP_PSH) (c_tx_buf c) A1 Ho1) as (Ho2 & E2 & Hout2 & _). fold A2 in Ho2, E2, Hout2.
  rewrite E1 in E2, Hout2. set (c1 := c <| c_snd_nxt := c_tx_buf_seq c |>) in *.
  assert (Hok1 : conn_ok c1) by (by destruct Hc).
  eapply (sender_same sent A); [done|by apply only_set|by apply conn_at_set|..]; rewrite ?E2; try done.
  - by destruct Hc.
  - change (n_out (set_conn ?g ia A2)) with (n_out A2). rewrite Hout2. apply Forall_app. split; [done|]. constructor; [|constructor].
    destruct Htx as [?|(off & Hoff & Hd & Hseq)]; [done|].
    apply (tcp_segment_data _ _ _ _ off); try done; [by apply conn_ok_wnd|apply calc_wnd_range].
Qed.

Lemma sender_timer now sent j A : sender_ok sent A → sender_ok sent (timer_conn wire now j A).
Proof.
  intros Hs. pose proof Hs as [Ho Hc [Hpa Hpb] Hlive Hnxt Htx Hout]. unfold timer_conn.
  destruct (negb (c_in_use (conn_at j A))) eqn:Eu; [done|]. apply negb_false_iff in Eu.
  assert (j = ia) as ->. { destruct (decide (j = ia)); [done|]. destruct Ho as (_ & _ & Hn). rewrite Hn in Eu by done. done. }
  destruct Hlive as [Hl|[? _]]; [|congruence]. set (due := negb _ && _ && _). destruct (due && _) eqn:E5.
  - destruct (send_segment_wire ia TCP_RST [] A Ho) as (Ho2 & E2 & Hout2 & _).
    eapply (sender_same sent A); [done|by apply only_set|by apply conn_at_set|..]; rewrite ?E2; try done.
    + by destruct Hc.
    + by right.
    + change (n_out (set_conn ?g ia ?B)) with (n_out B). rewrite Hout2. apply Forall_app. split; [done|]. constructor; [|constructor].
      apply tcp_segment_rst; [by apply conn_ok_wnd|apply calc_wnd_range|done].
  - assert (Hd : ∀ B, sender_ok sent B → c_state (conn_at ia B) = TCP_ESTABLISHED →
              sender_ok sent (if in_state TCP_TIME_WAIT (conn_at ia B) && (c_time_wait_tick (conn_at ia B) <=? now)
                              then set_conn conn_free ia B else B)).
    { intros B HB Hst. unfold in_state. by rewrite Hst. }
    destruct due eqn:Ed; [|by apply Hd].
    assert (Hne : c_tx_buf (conn_at ia A) ≠ []).
    { intros E0. unfold due in Ed. by rewrite E0 in Ed. }
    pose proof (sender_resend now sent A Hs Eu Hne) as Hr. apply Hd; [exact Hr|].
    pose proof (only_set (λ c, c <| c_snd_nxt := c_tx_buf_seq c |>) ia A Ho) as Ho1.
    destruct (send_segment_wire ia (Z.lor TCP_ACK TCP_PSH) (c_tx_buf (conn_at ia A)) _ Ho1) as (Ho2 & E2 & _).
    rewrite conn_at_set by done. cbv zeta. change (c_state (conn_at ia (tcp_send_segment wire ia (Z.lor TCP_ACK TCP_PSH) (c_tx_buf (conn_at ia A)) (set_conn (λ c, c <| c_snd_nxt := c_tx_buf_seq c |>) ia A))) = TCP_ESTABLISHED).
    rewrite E2, conn_at_set by done. done.
Qed.

Lemma sender_timer_check sent A : sender_ok sent A → sender_ok sent (tcp_timer_check wire A).
Proof.
  intros Hs. unfold tcp_timer_check. generalize (n_ticks A) as now. intros now. generalize (seq 0 MAX_TCP_CONNS) as l.
  intros l. revert A Hs. induction l as [|j l IH]; intros A Hs; [done|]. cbn [foldl]. by apply IH, sender_timer.
Qed.

(** A segment without options reaches the connection or is answered. *)
Lemma tcp_rx_seg src_ip seg i st :
  (20 ≤ length seg)%nat → th_data_offset (tcp_hdr_of seg) = 80 → only i st → c_state (conn_at i st) ≠ TCP_LISTEN →
  let h := tcp_hdr_of seg in
  let c := conn_at i st in
  tcp_rx wire src_ip seg (Z.of_nat (length seg)) st =
    if c_in_use c && (c_local_port c =? th_dst_port h) && (c_remote_ip c =? src_ip) && (c_remote_port c =? th_src_port h)
    then rx_conn wire i src_ip h (drop 20 seg) (Z.of_nat (length seg - 20)) st
    else if has_flag (th_flags h) TCP_RST then st
    else tcp_send_rst_for wire NET_IP (th_dst_port h) src_ip (th_src_port h)
           (if has_flag (th_flags h) TCP_ACK then th_ack h else u32 (th_seq h + 1)) st.
Proof.
  intros Hl Hoff Ho Hs h c. unfold tcp_rx. cbv zeta. fold h in Hoff |- *. rewrite Hoff. change (Z.shiftr 80 4 * 4) with 20.
  rewrite (proj2 (Z.ltb_ge (Z.of_nat (length seg)) 20)) by lia. cbn [orb Z.ltb Z.compare Pos.compare Pos.compare_cont].
  rewrite (find_conn_only _ _ _ i) by done. fold c. cbv zeta. change (Z.to_nat 20) with 20%nat.
  replace (Z.of_nat (length seg) - 20) with (Z.of_nat (length seg - 20)) by lia.
  destruct (_ && _ && _ && _); [done|]. by rewrite (find_listener_only _ i).
Qed.

Lemma hdr_of_ranges seg :
  let h := tcp_hdr_of seg in
  0 ≤ th_src_port h < 2 ^ 16 ∧ 0 ≤ th_dst_port h < 2 ^ 16 ∧ 0 ≤ th_seq h < 2 ^ 32 ∧ 0 ≤ th_ack h < 2 ^ 32.
Proof. repeat split; first [apply htons_range|apply htonl_range]. Qed.

Lemma rst_hdr_ok sp dp a :
  0 ≤ sp < 2 ^ 16 → 0 ≤ dp < 2 ^ 16 → 0 ≤ a < 2 ^ 32 → hdr_ok (mk_tcp_hdr sp dp a 0 (Z.shiftl 5 4) (Z.lor TCP_RST TCP_ACK) 0).
Proof. intros. unfold hdr_ok. cbn -[Z.shiftl Z.lor]. change (Z.shiftl 5 4) with 80. change (Z.lor 4 16) with 20. lia. Qed.

Lemma sender_ack seg sent A : sender_ok sent A → ack_seg seg → sender_ok sent (tcp_rx wire ipB seg (Z.of_nat (length seg)) A).
Proof.
  intros Hs (Hl & Hoff & Hfl). pose proof Hs as [Ho Hc [Hpa Hpb] Hlive Hnxt Htx Hout].
  assert (Hnl : c_state (conn_at ia A) ≠ TCP_LISTEN) by (destruct Hlive as [->|[_ ->]]; done).
  rewrite (tcp_rx_seg ipB seg ia A) by (done || lia). cbv zeta. set (h := tcp_hdr_of seg) in *. rewrite Hfl.
  destruct (c_in_use (conn_at ia A) && _ && _ && _) eqn:Eu.
  - assert (c_in_use (conn_at ia A) = true) by (rewrite !andb_true_iff in Eu; tauto).
    destruct Hlive as [Hst|[? _]]; [|congruence]. unfold rx_conn. rewrite Hst. unfold rx_established. rewrite Hfl.
    change (has_flag TCP_ACK TCP_RST) with false. change (has_flag TCP_ACK TCP_ACK) with true. unfold rx_data. rewrite Hl, Hfl.
    change (has_flag TCP_ACK TCP_FIN) with false. cbn [Z.of_nat Nat.sub Z.ltb Z.compare].
    eapply (sender_same sent A); [done|by apply only_set|by apply conn_at_set|..];
      destruct (acks_new (th_ack h) (conn_at ia A)); try done; first [by left|by destruct Hc].
  - change (has_flag TCP_ACK TCP_RST) with false. change (has_flag TCP_ACK TCP_ACK) with true.
    eapply (sender_same sent A); [done|exact Ho|done|done|done|done|done|done|done|].
    unfold tcp_send_rst_for, wire. change (n_out (0, A <| n_out := ?x |>).2) with x. apply Forall_app. split; [done|]. constructor; [|constructor].
    change (rst_segment ?s ?sp ?d ?dp ?a) with (sealed s d (mk_tcp_hdr sp dp a 0 (Z.shiftl 5 4) (Z.lor TCP_RST TCP_ACK) 0) []).
    destruct (hdr_of_ranges seg) as (H1 & H2 & H3 & H4). fold h in H1, H2, H3, H4.
    destruct (sealed_read NET_IP ipB (mk_tcp_hdr (th_dst_port h) (th_src_port h) (th_ack h) 0 (Z.shiftl 5 4) (Z.lor TCP_RST TCP_ACK) 0) [])
      as [Eh _]; [by apply rst_hdr_ok|].
    unfold data_seg. rewrite Eh, length_sealed. cbv zeta. split_and!; [lia|done|]. by left.
Qed.

(** ** The receiver *)

(** The receiver after it sent an acknowledgement. *)
Lemma receiver_send_ack sent got B : receiver_ok sent got B → receiver_ok sent got (tcp_send_ack wire ib B).
Proof.
  intros [Ho Hc Ha Hn Hl Hd Hout]. unfold tcp_send_ack. destruct (send_segment_wire ib TCP_ACK [] B Ho) as (Ho2 & E2 & Hout2 & _).
  split; [done|rewrite E2..|]; try done; [by apply conn_ok_wnd|].
  rewrite Hout2. apply Forall_app. split; [done|]. constructor; [|constructor].
  apply tcp_segment_ack; [by apply conn_ok_wnd|apply calc_wnd_range].
Qed.

(** The same sequence number below 2^32 is the same place. *)
Lemma seq_inj x y : 0 ≤ x < 2 ^ 32 → 0 ≤ y < 2 ^ 32 → u32 (a0 + x) = u32 (a0 + y) → x = y.
Proof.
  intros Hx Hy E. unfold u32 in E. pose proof (Z.div_mod (a0 + x) (2 ^ 32) ltac:(lia)). pose proof (Z.div_mod (a0 + y) (2 ^ 32) ltac:(lia)).
  nia.
Qed.

Lemma take_slice {A} (k n : nat) (l : list A) : (k + n ≤ length l)%nat → take k l ++ slice k n l = take (k + n) l.
Proof. intros H. unfold slice. rewrite take_take_drop. done. Qed.

(** Data at the right place extends what was received. *)
Lemma receiver_data sent got B h payload off :
  receiver_ok sent got B → Z.of_nat (length sent) < 2 ^ 32 → c_state (conn_at ib B) = TCP_ESTABLISHED →
  has_flag (th_flags h) TCP_FIN = false →
  (off + length payload ≤ length sent)%nat → payload = slice off (length payload) sent → th_seq h = u32 (a0 + Z.of_nat off) →
  receiver_ok sent got (rx_data wire ib h payload (Z.of_nat (length payload)) B).
Proof.
  intros Hr Hmax Hst Hfin Hoff Hp Hseq. unfold rx_data. rewrite Hfin.
  destruct (0 <? Z.of_nat (length payload)) eqn:E0; bool_hyps; [|done].
  destruct (th_seq h =? c_rcv_nxt (conn_at ib B)) eqn:Es; bool_hyps; [|by apply receiver_send_ack].
  apply receiver_send_ack. pose proof Hr as [Ho Hc Ha Hn Hl (k & Hk & Hg & Hnx) Hout].
  assert (k = off) as ->. { specialize (Hnx Hst). rewrite Hseq, Hnx in Es. apply seq_inj in Es; lia. }
  set (space := (TCP_RX_BUF_SIZE - r_count (c_rx (conn_at ib B)))%nat). set (copy := if Z.of_nat space <? _ then _ else _).
  assert (Hcopy : ∃ n, copy = Z.of_nat n ∧ (n ≤ space)%nat ∧ (n ≤ length payload)%nat).
  { subst copy. destruct (_ <? _) eqn:E; bool_hyps; [exists space|exists (length payload)]; lia. }
  destruct Hcopy as (n & Ec & Hns & Hnp). rewrite Ec, Nat2Z.id, read_bytes_take by done.
  destruct (rx_puts_spec (take n payload) (c_rx (conn_at ib B)) (co_ring _ Hc)) as [Hw Hct]; [rewrite length_take; lia|].
  assert (Htn : take n payload = slice off n sent).
  { rewrite Hp. unfold slice. rewrite take_take, Nat.min_l by lia. done. }
  split; [by apply only_set|rewrite conn_at_set by done..|done]; try done.
  - destruct Hc. constructor; try done. apply u32_range.
  - exists (off + n)%nat. split; [lia|]. split.
    + change (got ++ ring_contents (rx_puts (take n payload) (c_rx (conn_at ib B))) = take (off + n) sent).
      rewrite Hct, app_assoc, Hg, Htn. apply take_slice. lia.
    + intros _. change (u32 (c_rcv_nxt (conn_at ib B) + Z.of_nat n) = u32 (a0 + Z.of_nat (off + n))).
      rewrite (Hnx Hst). unfold u32. rewrite Z.add_mod_idemp_l by lia. f_equal. lia.
Qed.

(** Bookkeeping of the receiver's connection. *)
Lemma receiver_same sent got B f :
  receiver_ok sent got B →
  let c := conn_at ib B in
  conn_ok (f c) → c_rx (f c) = c_rx c → c_rcv_nxt (f c) = c_rcv_nxt c → c_nonblock (f c) = c_nonblock c →
  (c_in_use (f c), c_local_port (f c), c_remote_port (f c), c_remote_ip (f c)) =
    (c_in_use c, c_local_port c, c_remote_port c, c_remote_ip c) →
  c_state (f c) = c_state c ∨ c_state (f c) = TCP_CLOSED → receiver_ok sent got (set_conn f ib B).
Proof.
  intros [Ho Hc Ha Hn Hl (k & Hk & Hg & Hnx) Hout] c Hok Hrx Hrcv Hnb [= E1 E2 E3 E4] Hst.
  split; [by apply only_set|rewrite conn_at_set by done; fold c..|done].
  - done.
  - by rewrite E1, E2, E3, E4.
  - by rewrite Hnb.
  - destruct Hst as [-> | ->]; [done|by right].
  - exists k. rewrite Hrx, Hrcv. split_and!; [done..|]. intros Es. apply Hnx. subst c. destruct Hst as [E|E]; congruence.
Qed.

Lemma receiver_rx sent got B seg :
  receiver_ok sent got B → Z.of_nat (length sent) < 2 ^ 32 → data_seg sent seg →
  receiver_ok sent got (tcp_rx wire ipA seg (Z.of_nat (length seg)) B).
Proof.
  intros Hr Hmax (Hl & Hoff & Hs). pose proof Hr as [Ho Hc (Hu & Hlp & Hrp & Hip) Hn Hlive Hd Hout].
  assert (Hnl : c_state (conn_at ib B) ≠ TCP_LISTEN) by (destruct Hlive as [-> | ->]; done).
  rewrite (tcp_rx_seg ipA seg ib B) by done. cbv zeta. set (h := tcp_hdr_of seg) in *.
  destruct (_ && _ && _ && _) eqn:Em.
  - unfold rx_conn. destruct Hlive as [Est|Est]; rewrite Est; [|done]. unfold rx_established.
    destruct (has_flag (th_flags h) TCP_RST) eqn:Erst.
    { apply receiver_same; try done; [by destruct Hc|by right]. }
    destruct Hs as [?|(Hsp & Hdp & Hfin & _ & off & Hlen & Hdat & Hseq)]; [congruence|].
    set (B1 := if has_flag (th_flags h) TCP_ACK then _ else B).
    assert (Hr1 : receiver_ok sent got B1).
    { subst B1. destruct (has_flag (th_flags h) TCP_ACK); [|done].
      apply receiver_same; try done; destruct (acks_new (th_ack h) (conn_at ib B)); try done; first [by left|by destruct Hc]. }
    assert (Hst1 : c_state (conn_at ib B1) = TCP_ESTABLISHED).
    { subst B1. destruct (has_flag (th_flags h) TCP_ACK); [|done]. rewrite conn_at_set by done.
      by destruct (acks_new (th_ack h) (conn_at ib B)). }
    assert (Hpl : length (drop 20 seg) = (length seg - 20)%nat) by (by rewrite length_drop).
    rewrite <- Hpl in *. by apply (receiver_data sent got B1 h (drop 20 seg) off).
  - destruct (has_flag (th_flags h) TCP_RST); [done|]. exfalso. destruct Hs as [?|(Hsp & Hdp & _)]; [done|].
    rewrite Hu, Hlp, Hrp, Hip, Hsp, Hdp, !Z.eqb_refl in Em. done.
Qed.

Lemma wait_long_pos : (0 < WAIT_LONG)%nat.
Proof. apply Nat.ltb_lt. by vm_compute. Qed.

Lemma tcp_wait_ready intr cond n i st : (0 < n)%nat → cond (conn_at i st) = false → tcp_wait wire yield intr cond n i st = (WaitReady, st).
Proof. intros Hn Hc. destruct n; [lia|]. cbn [tcp_wait]. by rewrite Hc. Qed.

Lemma receiver_recv sent got B len r l B' :
  receiver_ok sent got B → tcp_recv wire yield (Z.of_nat ib) len B = (r, l, B') → receiver_ok sent (got ++ l) B'.
Proof.
  intros Hr. pose proof Hr as [Ho Hc (Hu & Hlp & Hrp & Hip) Hn Hlive Hd Hout]. unfold tcp_recv.
  assert (Hnil : receiver_ok sent (got ++ []) B) by (by rewrite app_nil_r).
  rewrite bad_conn_false, Nat2Z.id, Hu, Hn by apply Ho. cbn [negb andb].
  destruct (rx_empty (conn_at ib B)) eqn:Ee; [by intros [= <- <- <-]|].
  rewrite (tcp_wait_ready true rx_empty) by (done || apply wait_long_pos).
  destruct (c_rst_received _); [by intros [= <- <- <-]|]. destruct (_ =? 0)%nat eqn:E0; [by intros [= <- <- <-]|].
  set (n := Nat.min len _). pose proof (rx_take_spec n (c_rx (conn_at ib B)) (co_ring _ Hc) ltac:(lia)) as Ht.
  destruct (rx_take n (c_rx (conn_at ib B))) as [l0 r0]. destruct Ht as (-> & Hw & Hct).
  set (B1 := set_conn _ ib B). assert (Hr1 : receiver_ok sent (got ++ take n (ring_contents (c_rx (conn_at ib B)))) B1).
  { assert (Erx : c_rx (conn_at ib B1) = r0) by (subst B1; rewrite conn_at_set by done; by destruct (r_count r0 =? 0)%nat).
    destruct Hd as (k & Hk & Hg & Hnx).
    split; [by apply only_set|subst B1; rewrite conn_at_set in * by done..|done];
      destruct (r_count r0 =? 0)%nat; try done; try (by destruct Hc; constructor).
    all: exists k; split; [done|]; split; [|done]; rewrite Erx, Hct, <- app_assoc, take_drop; done. }
  intros [= <- <- <-]. destruct (_ && in_state TCP_ESTABLISHED _); [by apply receiver_send_ack|done].
Qed.

(** ** The stream *)

Record stream_ok (w : world) : Prop := {
  sk_a : sender_ok (w_sent w) (w_a w);
  sk_b : receiver_ok (w_sent w) (w_got w) (w_b w)
}.

Lemma step_sent w w' : step w w' → w_sent w `prefix_of` w_sent w'.
Proof. intros []; cbn; try done. by apply prefix_app_r. Qed.

Lemma step_ok w w' : step w w' → stream_ok w → Z.of_nat (length (w_sent w')) < 2 ^ 32 → stream_ok w'.
Proof.
  intros Hstep [Ha Hb] Hmax. destruct Hstep as [buf r A A' B sent got E|A B sent got|t A B sent got|seg A B sent got Hin|seg A B sent got Hin|
    len r l A B B' sent got E]; cbn [w_a w_b w_sent w_got] in *; split; cbn [w_a w_b w_sent w_got]; try done.
  - by eapply sender_send.
  - by apply receiver_more.
  - by apply sender_timer_check.
  - by destruct Ha.
  - apply receiver_rx; [done..|]. by apply (proj1 (Forall_forall _ _) (so_out _ _ Ha)).
  - apply sender_ack; [done|]. by apply (proj1 (Forall_forall _ _) (ro_out _ _ _ Hb)).
  - by eapply receiver_recv.
Qed.

(** C21.  Whatever segments the network loses, repeats or reorders, and however
    sending, retransmission, acknowledgement and reading interleave, the bytes
    the receiver has read are a prefix of the bytes the sender accepted, as long
    as these are fewer than 2^32.  The two hosts have one connection each, which
    is established, and the network takes every segment as [tcp_send_segment]
    builds it: [wire] stands for the IPv4 and Ethernet layers, which never
    refuse a segment. *)
Theorem tcp_stream_prefix w w' :
  stream_ok w → rtc step w w' → Z.of_nat (length (w_sent w')) < 2 ^ 32 → w_got w' `prefix_of` w_sent w'.
Proof.
  intros Hok Hr Hmax. assert (stream_ok w') as [_ [_ _ _ _ _ (k & Hk & Hg & _) _]].
  { revert Hok Hmax. induction Hr as [w|w w1 w2 Hs Hr IH]; intros Hok Hmax; [done|]. apply IH; [|done].
    apply (step_ok w); [done..|].
    assert (w_sent w1 `prefix_of` w_sent w2) as Hp%prefix_length; [|lia].
    clear - Hr. induction Hr as [|w w1 w2 Hs Hr IH]; [done|]. etransitivity; [by apply step_sent|done]. }
  exists (ring_contents (c_rx (conn_at ib (w_b w'))) ++ drop k (w_sent w')). by rewrite app_assoc, Hg, take_drop.
Qed.
End stream.

(** ** Samples *)

Definition sample_conn (lport rport rip seq ack : Z) : tcp_conn :=
  zero_conn <| c_in_use := true |> <| c_state := TCP_ESTABLISHED |> <| c_local_port := lport |> <| c_remote_port := rport |>
    <| c_remote_ip := rip |> <| c_snd_nxt := seq |> <| c_snd_una := seq |> <| c_rcv_nxt := ack |> <| c_nonblock := true |>.

Definition sample_peer (c : tcp_conn) : net_st := net_zero <| n_conns := <[0%nat := c]> (n_conns net_zero) |>.

Lemma sample_peer_only c : only 0 (sample_peer c) ∧ conn_at 0 (sample_peer c) = c.
Proof.
  assert (E : n_conns (sample_peer c) = <[0%nat := c]> (replicate 32 zero_conn)) by done.
  unfold only, conn_at. rewrite E. split; [|apply list_lookup_total_insert_eq; rewrite length_replicate; lia].
  split_and!; [by rewrite length_insert, length_replicate|lia|]. intros j Hj. rewrite list_lookup_total_insert_ne by done.
  rewrite list_lookup_total_alt. destruct (replicate 32 zero_conn !! j) eqn:Ej; [|done]. by apply lookup_replicate in Ej as [-> _].
Qed.

Lemma zero_ring_wf : ring_wf TCP_RX_BUF_SIZE (mk_ring (replicate TCP_RX_BUF_SIZE 0) 0 0 0).
Proof. apply (bool_decide_unpack _). by vm_compute. Qed.

Lemma sample_conn_ok lp rp rip s a :
  0 ≤ lp < 2 ^ 16 → 0 ≤ rp < 2 ^ 16 → 0 ≤ s < 2 ^ 32 → 0 ≤ a < 2 ^ 32 → conn_ok (sample_conn lp rp rip s a).
Proof. intros. constructor; [assumption..| | |apply zero_ring_wf]; cbn; lia. Qed.

(** Two hosts at the start of a stream with sequence number 1000. *)
Definition sample_world : world :=
  mk_world (sample_peer (sample_conn 5000 80 2 1000 0)) (sample_peer (sample_conn 80 5000 1 0 1000)) [] [].

Lemma sample_stream_ok : stream_ok 0 0 5000 80 1 1000 sample_world.
Proof.
  split; cbn [w_a w_b w_sent w_got sample_world].
  - destruct (sample_peer_only (sample_conn 5000 80 2 1000 0)) as [Ho E]. split; [exact Ho|rewrite E..|constructor].
    + apply sample_conn_ok; lia.
    + by split.
    + by left.
    + by vm_compute.
    + by left.
  - destruct (sample_peer_only (sample_conn 80 5000 1 0 1000)) as [Ho E]. split; [exact Ho|rewrite E..|constructor].
    + apply sample_conn_ok; lia.
    + by split_and!.
    + done.
    + by left.
    + exists 0%nat. split; [lia|]. split; [done|]. intros _. by vm_compute.
Qed.

(** Three bytes are sent, arrive twice, and are read. *)
Definition sample_a1 : net_st := (tcp_send wire 0 [7; 8; 9] (w_a sample_world)).2.
Definition sample_seg : list Z := nth 0 (n_out sample_a1) [].
Definition sample_rx (B : net_st) : net_st := tcp_rx wire 1 sample_seg (Z.of_nat (length sample_seg)) B.
Definition sample_read : Z * list Z * net_st := tcp_recv wire id 0 2 (sample_rx (sample_rx (w_b sample_world))).

Lemma sample_seg_out : sample_seg ∈ n_out sample_a1.
Proof. unfold sample_seg. vm_compute. left. Qed.

Lemma tcp_stream_prefix_witness :
  sample_read.1 = (2, [7; 8]) ∧
  w_got (mk_world sample_a1 sample_read.2 [7; 8; 9] ([] ++ sample_read.1.2)) `prefix_of`
  w_sent (mk_world sample_a1 sample_read.2 [7; 8; 9] ([] ++ sample_read.1.2)).
Proof.
  split; [vm_compute; reflexivity|].
  apply (tcp_stream_prefix 0 0 5000 80 1 2 1000 id sample_world _ sample_stream_ok); [|cbn; lia].
  eapply rtc_l; [apply (step_send 0 0 1 2 id [7; 8; 9] 3 _ sample_a1); vm_compute; reflexivity|].
  eapply rtc_l; [apply (step_data 0 0 1 2 id sample_seg), sample_seg_out|].
  eapply rtc_l; [apply (step_data 0 0 1 2 id sample_seg), sample_seg_out|].
  eapply rtc_l; [|apply rtc_refl].
  apply (step_recv 0 0 1 2 id 2 2 sample_read.1.2 _ _ sample_read.2). vm_compute. reflexivity.
Defined.

(** ** Where data is lost *)

(** A FIN is obeyed wherever it stands in the stream: if the segments before it
    were lost, the reader is told that the stream is complete. *)
Theorem early_fin_truncates yield i h len st :
  only i st → c_state (conn_at i st) = TCP_ESTABLISHED → c_in_use (conn_at i st) = true → c_nonblock (conn_at i st) = true →
  r_count (c_rx (conn_at i st)) = 0%nat → c_rst_received (conn_at i st) = false →
  has_flag (th_flags h) TCP_FIN = true → has_flag (th_flags h) TCP_RST = false → th_seq h ≠ c_rcv_nxt (conn_at i st) →
  ∃ st'', tcp_recv wire yield (Z.of_nat i) len (rx_established wire i h [] 0 st) = (0, [], st'').
Proof.
  intros Ho Hst Hu Hn Hr Hrst Hfin Hnr _. unfold rx_established, rx_data. rewrite Hnr, Hfin. cbn [Z.ltb Z.compare].
  set (st1 := if has_flag (th_flags h) TCP_ACK then _ else st).
  assert (H1 : only i st1 ∧ c_in_use (conn_at i st1) = true ∧ c_nonblock (conn_at i st1) = true ∧
               r_count (c_rx (conn_at i st1)) = 0%nat ∧ c_rst_received (conn_at i st1) = false).
  { subst st1. destruct (has_flag (th_flags h) TCP_ACK); [|done]. rewrite conn_at_set by done.
    split; [by apply only_set|]. by destruct (acks_new (th_ack h) (conn_at i st)). }
  clearbody st1. destruct H1 as (Ho1 & Hu1 & Hn1 & Hr1 & Hrst1). unfold tcp_send_ack.
  set (g := λ c, c <| c_rcv_nxt := u32 (th_seq h + 0 + 1) |> <| c_fin_received := true |> <| c_state := TCP_CLOSE_WAIT |>).
  destruct (send_segment_wire i TCP_ACK [] (set_conn g i st1) (only_set g i st1 Ho1)) as (Ho2 & E2 & _).
  set (st2 := tcp_send_segment _ _ _ _ _) in *. rewrite conn_at_set in E2 by done.
  exists st2. unfold tcp_recv. rewrite bad_conn_false, Nat2Z.id by apply Ho. rewrite E2.
  change (c_in_use ((g (conn_at i st1)) <| c_rcv_wnd := ?w |>)) with (c_in_use (conn_at i st1)). rewrite Hu1. cbn [negb].
  assert (Hemp : rx_empty (conn_at i st2) = false) by (rewrite E2; unfold rx_empty; cbn; by rewrite andb_false_r).
  rewrite <- E2, Hemp, andb_false_r.
  rewrite (tcp_wait_ready yield true rx_empty) by (done || apply wait_long_pos). rewrite E2.
  change (c_rst_received ((g (conn_at i st1)) <| c_rcv_wnd := ?w |>)) with (c_rst_received (conn_at i st1)).
  change (c_rx ((g (conn_at i st1)) <| c_rcv_wnd := ?w |>)) with (c_rx (conn_at i st1)). by rewrite Hrst1, Hr1.
Qed.

(** Nothing to retransmit: the timer is silent. *)
Lemma timer_silent tx now i st :
  c_tx_buf (conn_at i st) = [] ∨ c_snd_nxt (conn_at i st) ≤ c_snd_una (conn_at i st) → n_out (timer_conn tx now i st) = n_out st.
Proof.
  intros H. unfold timer_conn. destruct (negb _); [done|].
  assert (negb (length (c_tx_buf (conn_at i st)) =? 0)%nat && (c_snd_una (conn_at i st) <? c_snd_nxt (conn_at i st)) &&
          (c_rto_tick (conn_at i st) <=? now) = false) as ->.
  { destruct H as [->|H]; [done|]. rewrite (proj2 (Z.ltb_ge _ _)) by done. by rewrite andb_false_r. }
  cbn [andb]. by destruct (_ && _).
Qed.

(** The segments that open and close a connection are sent once: a lost SYN or FIN
    is never sent again, whatever the time. *)
Theorem control_sent_once yield i ip port st s now :
  only i st → c_in_use (conn_at i st) = true → c_state (conn_at i st) = TCP_CLOSED → c_nonblock (conn_at i st) = true →
  (let st' := (tcp_connect wire yield (Z.of_nat i) ip port st).2 in n_out (timer_conn wire now i st') = n_out st') ∧
  (let st' := send_fin wire s i st in n_out (timer_conn wire now i st') = n_out st').
Proof.
  intros Ho Hu Hst Hn. split; cbv zeta; apply timer_silent; left.
  - unfold tcp_connect. rewrite bad_conn_false, Nat2Z.id, Hu by apply Ho. unfold in_state at 1. rewrite Hst, bool_decide_true by done.
    cbn [negb orb]. set (iss := tcp_gen_isn i st).
    set (g := λ c, c <| c_remote_ip := ip |> <| c_remote_port := port |> <| c_snd_iss := iss |> <| c_snd_nxt := iss |> <| c_snd_una := iss |>
                     <| c_state := TCP_SYN_SENT |>). unfold send_syn.
    destruct (send_segment_wire i TCP_SYN [] (set_conn g i st) (only_set g i st Ho)) as (Ho2 & E2 & _).
    set (st2 := tcp_send_segment _ _ _ _ _) in *. rewrite (conn_at_set g) in E2 by done.
    rewrite (conn_at_set (λ c, c <| c_retransmit_count := 0 |> <| c_tx_buf := [] |> <| c_tx_buf_seq := c_snd_iss c |>)),
      conn_at_set, E2 by (done || by apply only_set).
    match goal with |- context [if c_nonblock ?c then _ else _] => change (c_nonblock c) with (c_nonblock (conn_at i st)) end.
    rewrite Hn. cbn [snd]. by rewrite conn_at_set by (by apply only_set).
  - unfold send_fin. set (g := λ c, c <| c_state := s |> <| c_rto_tick := _ |> <| c_retransmit_count := 0 |> <| c_tx_buf := [] |>
                                      <| c_tx_buf_seq := _ |> <| c_snd_nxt := _ |>).
    destruct (send_segment_wire i (Z.lor TCP_FIN TCP_ACK) [] (set_conn g i st) (only_set g i st Ho)) as (Ho2 & E2 & _).
    rewrite conn_at_set by done. rewrite E2, conn_at_set by done. done.
Qed.

(** Sequence numbers are compared without wrap-around: once the next number has
    passed zero and the oldest unacknowledged one has not, no acknowledgement is
    accepted and nothing is retransmitted any more. *)
Theorem wrap_stalls tx now i st :
  c_snd_nxt (conn_at i st) < c_snd_una (conn_at i st) →
  (∀ ack, acks_new ack (conn_at i st) = false) ∧ n_out (timer_conn tx now i st) = n_out st.
Proof.
  intros H. split; [|apply timer_silent; right; lia]. intros ack. unfold acks_new.
  destruct (c_snd_una (conn_at i st) <? ack) eqn:E; [|done]. bool_hyps. cbn [andb]. apply Z.leb_gt. lia.
Qed.

(** The second segment replaces the first in the retransmission buffer. *)
Theorem send_forgets_unacked i b1 b2 r1 r2 st st1 st2 :
  only i st → tcp_send wire (Z.of_nat i) b1 st = (r1, st1) → 0 ≤ r1 → tcp_send wire (Z.of_nat i) b2 st1 = (r2, st2) → 0 ≤ r2 →
  c_tx_buf (conn_at i st2) = take TCP_MSS b2 ∧ c_tx_buf_seq (conn_at i st2) = u32 (c_snd_nxt (conn_at i st) + r1).
Proof.
  assert (Hsend : ∀ st b r st', only i st → tcp_send wire (Z.of_nat i) b st = (r, st') → 0 ≤ r →
    only i st' ∧ c_tx_buf (conn_at i st') = take TCP_MSS b ∧ c_tx_buf_seq (conn_at i st') = c_snd_nxt (conn_at i st) ∧
    c_snd_nxt (conn_at i st') = u32 (c_snd_nxt (conn_at i st) + r)).
  { clear. intros st b r st' Ho. unfold tcp_send. rewrite bad_conn_false, Nat2Z.id by apply Ho.
    destruct (_ || _); [intros [= <- <-]; lia|]. destruct (c_rst_received _); [intros [= <- <-]; lia|].
    set (g := λ c, c <| c_tx_buf := take TCP_MSS b |> <| c_tx_buf_seq := c_snd_nxt c |>).
    destruct (send_segment_wire i (Z.lor TCP_ACK TCP_PSH) (take TCP_MSS b) (set_conn g i st) (only_set g i st Ho)) as (Ho2 & E2 & _).
    intros [= <- <-] _. split; [by apply only_set|]. rewrite conn_at_set by done. rewrite E2, conn_at_set by done. done. }
  intros Ho E1 H1 E2 H2. destruct (Hsend _ _ _ _ Ho E1 H1) as (Ho1 & _ & _ & En). destruct (Hsend _ _ _ _ Ho1 E2 H2) as (_ & Ht & Hs & _).
  split; [done|]. by rewrite Hs, En.
Qed.

(** ** A session of the host with itself *)

(** Listen on port 80, connect to [ip], accept, send three bytes, receive them and
    close at both ends: the results, and the states of the two ends after the
    first and after the second close.  The client does not block. *)
Definition loop_session (ip : Z) :=
  let tx := net_tx_ipv4 (λ _, 0) id 8 in
  let '(l, st) := tcp_socket (net_init [2; 0; 0; 0; 0; 1] net_zero) in
  let '(_, st) := tcp_listen l 80 st in
  let '(c, st) := tcp_socket st in
  let '(_, st) := tcp_set_nonblock c 1 st in
  let '(_, st) := tcp_connect tx id c ip 80 st in
  let '(s, st) := tcp_accept tx id l st in
  let '(sent, st) := tcp_send tx c [1; 2; 3] st in
  let '(got, out, st) := tcp_recv tx id s 10 st in
  let ends st := (c_state (conn_at 1 st), c_state (conn_at 2 st)) in
  let '(_, st1) := tcp_close tx id c st in
  let '(_, st2) := tcp_close tx id s st1 in
  (s, sent, (got, out), ends st1, ends st2).

(** The stack carries a whole session with itself over its own address.  But the
    sequence number is put back for the time of the send, so the acknowledgement
    of a FIN, which arrives during the send, is not recognised: the closed end
    stays in [TCP_FIN_WAIT_1]. *)
Theorem loopback_fin_ack_lost :
  loop_session NET_IP = (2, 3, (3, [1; 2; 3]), (TCP_FIN_WAIT_1, TCP_CLOSE_WAIT), (TCP_TIME_WAIT, TCP_CLOSED)).
Proof. vm_compute. reflexivity. Qed.

(** The same session over 127.0.0.1 is never established: the replies carry the
    host's own address and match no connection, and [tcp_accept] times out. *)
Theorem localhost_unreachable :
  loop_session 0x7F000001 = (- ETIMEDOUT, - ENOTCONN, (- EBADF, []), (TCP_CLOSED, TCP_CLOSED), (TCP_CLOSED, TCP_CLOSED)).
Proof. vm_compute. reflexivity. Qed.

(** The same happens to data: its acknowledgement arrives during the send, while
    the sequence number is put back, and again during every retransmission.  An
    idle loopback connection whose data was received and acknowledged is reset
    after the fifth retransmission. *)
Definition loop_idle (ticks : list Z) :=
  let tx := net_tx_ipv4 (λ _, 0) id 8 in
  let '(l, st) := tcp_socket (net_init [2; 0; 0; 0; 0; 1] net_zero) in
  let '(_, st) := tcp_listen l 80 st in
  let '(c, st) := tcp_socket st in
  let '(_, st) := tcp_set_nonblock c 1 st in
  let '(_, st) := tcp_connect tx id c NET_IP 80 st in
  let '(s, st) := tcp_accept tx id l st in
  let '(_, st) := tcp_send tx c [1; 2; 3] st in
  let '(_, out, st) := tcp_recv tx id s 10 st in
  let st := foldl (λ st t, tcp_timer_check tx (st <| n_ticks := t |>)) st ticks in
  (out, c_state (conn_at 1 st), c_state (conn_at 2 st), (tcp_recv tx id s 10 st).1.1).

Theorem loopback_idle_reset :
  loop_idle [] = ([1; 2; 3], TCP_ESTABLISHED, TCP_ESTABLISHED, - ETIMEDOUT) ∧
  loop_idle [18; 54; 126; 270; 558; 1134] = ([1; 2; 3], TCP_CLOSED, TCP_CLOSED, - ENOTCONN).
Proof. vm_compute. split; reflexivity. Qed.
