(* ===== verification/Vmm.v ===== *)
(** * Vmm: page tables and swap

    The x86-64 code of [mm/vmm.c] and all of [mm/swap.c], over the byte memory of
    [Mem]: a page table is a page of 512 words that the code reads and writes by
    physical address (every physical page is visible to the kernel at a fixed
    offset, so [PHYS_TO_VIRT] is the identity here).

    The page allocator is the class [Frames], the block cache under the swap area
    the class [BlockStore].  [Frames] promises what the page tables need: an
    allocated page was not in use, and references are counted.  The flushes of the
    translation cache are instructions and are not represented; [mmu] is the walk
    of the processor. *)

From S2P Require Import Prelude Bitmap Pmm Mem Bytes BlockStore.

(** ** Page table entries ([arch/x86_64/pte.h]) *)

Definition PTE_PRESENT : Z := 0x1.
Definition PTE_TABLE : Z := 0.
Definition PTE_WRITABLE : Z := 0x2.
Definition PTE_USER : Z := 0x4.
Definition PTE_ACCESSED : Z := 0x20.
Definition PTE_HUGE : Z := 0x80.
Definition PTE_COW : Z := 0x200.
Definition PTE_SWAP : Z := 0x400.
Definition PTE_WAS_WRITABLE : Z := 0x800.
Definition PTE_NX : Z := 0x8000000000000000.
Definition PTE_ADDR_MASK : Z := 0x000FFFFFFFFFF000.
Definition LEAF_PTE_ARCH_BITS : Z := Z.lor PTE_TABLE PTE_ACCESSED.

(** [e & f], as a condition; [~f] at 64 bits; the two parts of an entry. *)
Definition pte_has (e f : Z) : bool := negb (Z.land e f =? 0).
Definition not64 (f : Z) : Z := u64 (Z.lnot f).
Definition pte_addr (e : Z) : Z := Z.land e PTE_ADDR_MASK.
Definition pte_flags (e : Z) : Z := Z.land e (not64 PTE_ADDR_MASK).

Definition PML4_INDEX (va : Z) : Z := Z.land (Z.shiftr va 39) 0x1FF.
Definition PDPT_INDEX (va : Z) : Z := Z.land (Z.shiftr va 30) 0x1FF.
Definition PD_INDEX (va : Z) : Z := Z.land (Z.shiftr va 21) 0x1FF.
Definition PT_INDEX (va : Z) : Z := Z.land (Z.shiftr va 12) 0x1FF.

(** ** The page allocator *)

Class Frames (A : Type) := {
  pg_alloc : A → Z * A;
  pg_alloc_run : nat → A → Z * A;
  pg_free : Z → A → option A;
  pg_ref_inc : Z → A → A;
  pg_ref_dec : Z → A → Z * A;
  pg_ref_get : Z → A → Z
}.

(** What the page tables rely on.  [pg_refs a p] is the number of references of
    the page with address [p], 0 for a page that is not in use; [pg_avail] is the
    number of pages that can be allocated. *)
Class FramesOk (A : Type) `{!Frames A} := {
  pg_wf : A → Prop;
  pg_refs : A → Z → Z;
  pg_avail : A → nat;
  pg_alloc_ok a :
    pg_wf a →
    let '(p, a') := pg_alloc a in
    (p = 0 ∧ a' = a ∧ pg_avail a = O) ∨
    (0 < p < 2 ^ 52 ∧ p mod 4096 = 0 ∧ pg_refs a p = 0 ∧ pg_wf a' ∧ pg_avail a = S (pg_avail a') ∧
     ∀ q, q mod 4096 = 0 → pg_refs a' q = if decide (q = p) then 1 else pg_refs a q);
  pg_free_ok a p :
    pg_wf a → 0 < p < 2 ^ 52 → p mod 4096 = 0 → 1 ≤ pg_refs a p →
    ∃ a', pg_free p a = Some a' ∧ pg_wf a' ∧ pg_avail a' = (if decide (pg_refs a p = 1) then S (pg_avail a) else pg_avail a) ∧
      (∀ q, q mod 4096 = 0 → pg_refs a' q = if decide (q = p) then pg_refs a p - 1 else pg_refs a q);
  pg_ref_inc_ok a p :
    pg_wf a → 0 < p < 2 ^ 52 → p mod 4096 = 0 → 1 ≤ pg_refs a p < 65535 →
    pg_wf (pg_ref_inc p a) ∧ pg_avail (pg_ref_inc p a) = pg_avail a ∧
    (∀ q, q mod 4096 = 0 → pg_refs (pg_ref_inc p a) q = if decide (q = p) then pg_refs a p + 1 else pg_refs a q);
  pg_ref_dec_ok a p :
    pg_wf a → 0 < p < 2 ^ 52 → p mod 4096 = 0 → 2 ≤ pg_refs a p →
    let a' := (pg_ref_dec p a).2 in
    pg_wf a' ∧ pg_avail a' = pg_avail a ∧
    (∀ q, q mod 4096 = 0 → pg_refs a' q = if decide (q = p) then pg_refs a p - 1 else pg_refs a q);
  pg_ref_get_ok a p : pg_wf a → 0 < p < 2 ^ 52 → p mod 4096 = 0 → 1 ≤ pg_refs a p → pg_ref_get p a = pg_refs a p
}.

(** ** State *)

(** [vm_root] is [pml4_phys], the table of the kernel. *)
Record vm_st (A S : Type) := mk_vm {
  vm_mem : mem;
  vm_fr : A;
  vm_root : Z;
  swap_bitmap : list Z;
  swap_used_count : Z;
  swap_start_block : Z;
  vm_disk : S
}.
Arguments mk_vm {A S} _ _ _ _ _ _ _.
Arguments vm_mem {A S} _.
Arguments vm_fr {A S} _.
Arguments vm_root {A S} _.
Arguments swap_bitmap {A S} _.
Arguments swap_used_count {A S} _.
Arguments swap_start_block {A S} _.
Arguments vm_disk {A S} _.
#[export] Instance vm_st_eta A S : Eta (vm_st A S) := λ s,
  mk_vm (vm_mem s) (vm_fr s) (vm_root s) (swap_bitmap s) (swap_used_count s) (swap_start_block s) (vm_disk s).

(** A region of a process ([proc/process.h]). *)
Record mmap_entry := mk_mmap {
  me_virt_addr : Z;
  me_phys_addr : Z;
  me_num_pages : Z;
  me_used : bool;
  me_shm_id : Z;
  me_demand : bool;
  me_vfs_node : Z;
  me_file_offset : Z
}.
#[export] Instance mmap_entry_eta : Eta mmap_entry := λ e,
  mk_mmap (me_virt_addr e) (me_phys_addr e) (me_num_pages e) (me_used e) (me_shm_id e) (me_demand e) (me_vfs_node e)
    (me_file_offset e).

Section vmm.
Context {A S : Type} `{!Frames A} `{!BlockStore S}.
Implicit Types st : vm_st A S.

(** [table[i]] and [table[i] = e]. *)
Definition pt_get (table i : Z) st : Z := load64 (vm_mem st) (table + 8 * i).
Definition pt_set (table i e : Z) st : vm_st A S := st <| vm_mem := store64 (vm_mem st) (table + 8 * i) e |>.

Definition alloc_page st : Z * vm_st A S := let '(p, a) := pg_alloc (vm_fr st) in (p, st <| vm_fr := a |>).
Definition ref_inc (p : Z) st : vm_st A S := st <| vm_fr := pg_ref_inc p (vm_fr st) |>.
Definition free_page (p : Z) st : option (vm_st A S) := a ← pg_free p (vm_fr st); Some (st <| vm_fr := a |>).

(** ** The kernel's tables *)

Definition zero_page (page : Z) st : vm_st A S := foldl (λ st i, pt_set page i 0 st) st (seqZ 0 512).

Definition get_or_create_table (table index : Z) (create : bool) st : option Z * vm_st A S :=
  let e := pt_get table index st in
  if pte_has e PTE_PRESENT then (Some (pte_addr e), st)
  else if negb create then (None, st)
  else
    let '(new_page, st) := alloc_page st in
    if new_page =? 0 then (None, st)
    else (Some new_page, pt_set table index (Z.lor (Z.lor (Z.lor new_page PTE_PRESENT) PTE_TABLE) PTE_WRITABLE)
                           (zero_page new_page st)).

Definition leaf_pte (phys flags : Z) : Z :=
  Z.lor (Z.lor (Z.lor (Z.land phys PTE_ADDR_MASK) flags) PTE_PRESENT) LEAF_PTE_ARCH_BITS.

(** The three levels above the last table. *)
Definition walk_tables (virt : Z) (create : bool) st : option Z * vm_st A S :=
  match get_or_create_table (vm_root st) (PML4_INDEX virt) create st with
  | (None, st) => (None, st)
  | (Some pdpt, st) =>
      match get_or_create_table pdpt (PDPT_INDEX virt) create st with
      | (None, st) => (None, st)
      | (Some pd, st) => get_or_create_table pd (PD_INDEX virt) create st
      end
  end.

Definition vmm_map_page (virt phys flags : Z) st : Z * vm_st A S :=
  match walk_tables virt true st with
  | (None, st) => (-1, st)
  | (Some pt, st) => (0, pt_set pt (PT_INDEX virt) (leaf_pte phys flags) st)
  end.

Definition vmm_unmap_page (virt : Z) st : vm_st A S :=
  match walk_tables virt false st with
  | (None, st) => st
  | (Some pt, st) => pt_set pt (PT_INDEX virt) 0 st
  end.

Definition vmm_get_phys (virt : Z) st : Z :=
  match (walk_tables virt false st).1 with
  | None => 0
  | Some pt =>
      let pte := pt_get pt (PT_INDEX virt) st in
      if negb (pte_has pte PTE_PRESENT) then 0 else Z.lor (pte_addr pte) (Z.land virt 0xFFF)
  end.

Definition vmm_get_kernel_pml4 st : Z := vm_root st.

(** ** Address spaces *)

(** An empty user half, and the kernel half of the kernel's table. *)
Definition fill_pml4 (new_pml4 : Z) st : vm_st A S :=
  let st := foldl (λ st i, pt_set new_pml4 i 0 st) st (seqZ 0 256) in
  foldl (λ st i, pt_set new_pml4 i (pt_get (vm_root st) i st) st) st (seqZ 256 256).

Definition vmm_create_address_space st : Z * vm_st A S :=
  let '(new_pml4, st) := alloc_page st in
  if new_pml4 =? 0 then (0, st) else (new_pml4, fill_pml4 new_pml4 st).

(** One level of [vmm_map_page_in]: the next table, made if there is none. *)
Definition next_table (flags table index : Z) st : option Z * vm_st A S :=
  let user := pte_has flags PTE_USER in
  let e := pt_get table index st in
  let intermediate := Z.lor (Z.lor (Z.lor PTE_PRESENT PTE_TABLE) PTE_WRITABLE) (if user then PTE_USER else 0) in
  if negb (pte_has e PTE_PRESENT) then
    let '(new_page, st) := alloc_page st in
    if new_page =? 0 then (None, st)
    else
      let st := pt_set table index (Z.lor new_page intermediate) (zero_page new_page st) in
      (Some (pte_addr (pt_get table index st)), st)
  else
    let st := if user && negb (pte_has e PTE_USER) then pt_set table index (Z.lor e PTE_USER) st else st in
    (Some (pte_addr (pt_get table index st)), st).

Definition vmm_map_page_in (pml4 virt phys flags : Z) st : Z * vm_st A S :=
  match next_table flags pml4 (PML4_INDEX virt) st with
  | (None, st) => (-1, st)
  | (Some pdpt, st) =>
      match next_table flags pdpt (PDPT_INDEX virt) st with
      | (None, st) => (-1, st)
      | (Some pd, st) =>
          match next_table flags pd (PD_INDEX virt) st with
          | (None, st) => (-1, st)
          | (Some pt, st) => (0, pt_set pt (PT_INDEX virt) (leaf_pte phys flags) st)
          end
      end
  end.

(** The address of an entry's next table, if it is present. *)
Definition table_at (table index : Z) st : option Z :=
  let e := pt_get table index st in if negb (pte_has e PTE_PRESENT) then None else Some (pte_addr e).

(** The address of the last entry. *)
Definition vmm_get_pte (pml4 virt : Z) st : option Z :=
  pdpt ← table_at pml4 (PML4_INDEX virt) st;
  pd ← table_at pdpt (PDPT_INDEX virt) st;
  pt ← table_at pd (PD_INDEX virt) st;
  Some (pt + 8 * PT_INDEX virt).

Definition read_pte (p : Z) st : Z := load64 (vm_mem st) p.
Definition write_pte (p e : Z) st : vm_st A S := st <| vm_mem := store64 (vm_mem st) p e |>.

(** ** Fork *)

Definition is_shm_page (virt : Z) (mmap_table : list mmap_entry) : bool :=
  existsb (λ e, me_used e && negb (me_shm_id e <? 0) && (me_virt_addr e <=? virt)
                && (virt <? u64 (me_virt_addr e + me_num_pages e * 4096))) mmap_table.

Section clone.
Context (mmap_table : list mmap_entry) (child : Z).

(** The flags of a private page after the clone. *)
Definition cow_flags (flags : Z) : Z :=
  let f := Z.lor (Z.land flags (not64 PTE_WRITABLE)) PTE_COW in
  if pte_has flags PTE_WRITABLE then Z.lor f PTE_WAS_WRITABLE else f.

Definition clone_leaf (pt i1 virt : Z) st : vm_st A S :=
  let pte := pt_get pt i1 st in
  if negb (pte_has pte PTE_PRESENT) then st
  else
    let phys := pte_addr pte in
    let flags := pte_flags pte in
    if is_shm_page virt mmap_table then
      ref_inc phys (vmm_map_page_in child virt phys (Z.land flags (not64 PTE_PRESENT)) st).2
    else
      let cf := cow_flags flags in
      let st := pt_set pt i1 (Z.lor phys cf) st in
      ref_inc phys (vmm_map_page_in child virt phys (Z.land cf (not64 PTE_PRESENT)) st).2.

Definition virt_of (i4 i3 i2 i1 : Z) : Z :=
  Z.lor (Z.lor (Z.lor (Z.shiftl i4 39) (Z.shiftl i3 30)) (Z.shiftl i2 21)) (Z.shiftl i1 12).

Definition clone_pt (pt i4 i3 i2 : Z) st : vm_st A S :=
  foldl (λ st i1, clone_leaf pt i1 (virt_of i4 i3 i2 i1) st) st (seqZ 0 512).

Definition clone_pd (pd i4 i3 : Z) st : vm_st A S :=
  foldl (λ st i2,
    let e := pt_get pd i2 st in
    if negb (pte_has e PTE_PRESENT) then st
    else if pte_has e PTE_HUGE then st
    else clone_pt (pte_addr e) i4 i3 i2 st) st (seqZ 0 512).

Definition clone_pdpt (pdpt i4 : Z) st : vm_st A S :=
  foldl (λ st i3,
    let e := pt_get pdpt i3 st in
    if negb (pte_has e PTE_PRESENT) then st else clone_pd (pte_addr e) i4 i3 st) st (seqZ 0 512).

Definition clone_pml4 (pml4 : Z) st : vm_st A S :=
  foldl (λ st i4,
    let e := pt_get pml4 i4 st in
    if negb (pte_has e PTE_PRESENT) then st else clone_pdpt (pte_addr e) i4 st) st (seqZ 0 256).
End clone.

Definition vmm_clone_cow (parent : Z) (mmap_table : list mmap_entry) st : Z * vm_st A S :=
  let '(child, st) := vmm_create_address_space st in
  if child =? 0 then (0, st) else (child, clone_pml4 mmap_table child parent st).

(** ** Swap *)

Abbreviation SWAP_NUM_PAGES := (Z.to_nat 2048).

Definition swap_is_entry (pte : Z) : bool := negb (pte_has pte PTE_PRESENT) && pte_has pte PTE_SWAP.
Definition swap_get_slot (pte : Z) : Z := Z.land (Z.shiftr pte 12) 0x7FF.

Definition swap_init st : vm_st A S :=
  st <| swap_bitmap := replicate (SWAP_NUM_PAGES / 8) 0 |> <| swap_used_count := 0 |>.
Definition swap_init_at (start_block : Z) st : vm_st A S := swap_init (st <| swap_start_block := start_block |>).

Definition swap_alloc_slot st : Z * vm_st A S :=
  match bm_scan SWAP_NUM_PAGES 0 (swap_bitmap st) with
  | Some i => (Z.of_nat i, st <| swap_bitmap := bm_set i (swap_bitmap st) |>
                              <| swap_used_count := u32 (swap_used_count st + 1) |>)
  | None => (-1, st)
  end.

Definition swap_free_slot (slot : Z) st : vm_st A S :=
  if (slot <? 0) || (Z.of_nat SWAP_NUM_PAGES <=? slot) then st
  else if bm_test (Z.to_nat slot) (swap_bitmap st) then
    st <| swap_bitmap := bm_clear (Z.to_nat slot) (swap_bitmap st) |>
       <| swap_used_count := if 0 <? swap_used_count st then swap_used_count st - 1 else swap_used_count st |>
  else st.

(** The results of the block cache are ignored. *)
Definition swap_out (pml4 virt : Z) st : option (Z * vm_st A S) :=
  match vmm_get_pte pml4 virt st with
  | None => Some (-1, st)
  | Some pte =>
      let e := read_pte pte st in
      if negb (pte_has e PTE_PRESENT) then Some (-1, st)
      else
        let '(slot, st) := swap_alloc_slot st in
        if slot <? 0 then Some (-1, st)
        else
          let phys := pte_addr e in
          let block := u32 (swap_start_block st + slot) in
          let '(_, d) := bs_write block (load_bytes (vm_mem st) phys 4096) (vm_disk st) in
          let st := write_pte pte (Z.lor PTE_SWAP (Z.shiftl slot 12)) (st <| vm_disk := d |>) in
          st ← free_page phys st; Some (0, st)
  end.

Definition swap_in (pml4 virt : Z) st : Z * vm_st A S :=
  match vmm_get_pte pml4 virt st with
  | None => (-1, st)
  | Some pte =>
      let e := read_pte pte st in
      if negb (swap_is_entry e) then (-1, st)
      else
        let slot := swap_get_slot e in
        let '(new_phys, st) := alloc_page st in
        if new_phys =? 0 then (-1, st)
        else
          let block := u32 (swap_start_block st + slot) in
          let '(_, data, d) := bs_read block (vm_disk st) in
          let st := st <| vm_disk := d |> <| vm_mem := store_bytes (vm_mem st) new_phys data |> in
          let st := write_pte pte (Z.lor (Z.lor (Z.lor new_phys PTE_PRESENT) PTE_WRITABLE) PTE_USER) st in
          (0, swap_free_slot slot st)
  end.

Definition swap_stat st : Z * Z := (Z.of_nat SWAP_NUM_PAGES, swap_used_count st).

(** The page that was allocated is not freed when it cannot be mapped. *)
Definition demand_page_fault (pml4 virt : Z) st : Z * vm_st A S :=
  let '(new_phys, st) := alloc_page st in
  if new_phys =? 0 then (-1, st)
  else
    let st := st <| vm_mem := store_bytes (vm_mem st) new_phys (replicate 4096 0) |> in
    vmm_map_page_in pml4 (Z.land virt (not64 0xFFF)) new_phys (Z.lor (Z.lor PTE_USER PTE_WRITABLE) PTE_NX) st.

(** ** Exit *)

(** A loop whose body may run into an undefined operation. *)
Definition foldM (f : vm_st A S → Z → option (vm_st A S)) (l : list Z) st : option (vm_st A S) :=
  foldl (λ o i, st ← o; f st i) (Some st) l.

Definition drop_leaf (pt : Z) st (i1 : Z) : option (vm_st A S) :=
  let e := pt_get pt i1 st in
  if pte_has e PTE_PRESENT then st ← free_page (pte_addr e) st; Some (pt_set pt i1 0 st)
  else if swap_is_entry e then Some (pt_set pt i1 0 (swap_free_slot (swap_get_slot e) st))
  else Some st.

Definition drop_pt (pd : Z) st (i2 : Z) : option (vm_st A S) :=
  let e := pt_get pd i2 st in
  if negb (pte_has e PTE_PRESENT) then Some st
  else if pte_has e PTE_HUGE then Some st
  else
    st ← foldM (drop_leaf (pte_addr e)) (seqZ 0 512) st;
    free_page (pte_addr e) (pt_set pd i2 0 st).

Definition drop_pd (pdpt : Z) st (i3 : Z) : option (vm_st A S) :=
  let e := pt_get pdpt i3 st in
  if negb (pte_has e PTE_PRESENT) then Some st
  else
    st ← foldM (drop_pt (pte_addr e)) (seqZ 0 512) st;
    free_page (pte_addr e) (pt_set pdpt i3 0 st).

Definition drop_pdpt (pml4 : Z) st (i4 : Z) : option (vm_st A S) :=
  let e := pt_get pml4 i4 st in
  if negb (pte_has e PTE_PRESENT) then Some st
  else
    st ← foldM (drop_pd (pte_addr e)) (seqZ 0 512) st;
    free_page (pte_addr e) (pt_set pml4 i4 0 st).

Definition vmm_free_user_pages (cr3 : Z) st : option (vm_st A S) :=
  st ← foldM (drop_pdpt cr3) (seqZ 0 256) st;
  free_page cr3 st.

(** ** The processor *)

(** The entry a user access of [va] goes through: present, accessible to user
    code, and writable for a store, at every level. *)
Definition mmu_level (write : bool) (table index : Z) st : option Z :=
  let e := pt_get table index st in
  if pte_has e PTE_PRESENT && pte_has e PTE_USER && (negb write || pte_has e PTE_WRITABLE) then Some (pte_addr e) else None.

Definition mmu (write : bool) (cr3 va : Z) st : option Z :=
  pdpt ← mmu_level write cr3 (PML4_INDEX va) st;
  pd ← mmu_level write pdpt (PDPT_INDEX va) st;
  pt ← mmu_level write pd (PD_INDEX va) st;
  page ← mmu_level write pt (PT_INDEX va) st;
  Some (page + va mod 4096).
End vmm.
