(* ===== verification/PmmFrames.v ===== *)
(** * PmmFrames: the page allocator keeps the promises of [Frames]

    [Vmm] takes pages from any allocator of the class [Frames], and its theorems
    rely on the laws [FramesOk].  The allocator of [Pmm] is an instance: a page has
    as many references as its count says while its bit is set, and none otherwise. *)

From S2P Require Import Prelude Bitmap Pmm Mem Bytes BlockStore Vmm.

#[export] Instance pmm_frames : Frames pmm_st := {|
  pg_alloc := pmm_alloc_page;
  pg_alloc_run := pmm_alloc_contiguous;
  pg_free := pmm_free_page;
  pg_ref_inc := pmm_ref_inc;
  pg_ref_dec := pmm_ref_dec;
  pg_ref_get := pmm_ref_get
|}.

(** References by page number and by address. *)
Definition page_refs (st : pmm_st) (i : nat) : Z := if bm_test i (bitmap st) then default 0 (refcounts st !! i) else 0.
Definition pmm_refs (st : pmm_st) (p : Z) : Z := page_refs st (page_of p).
Definition pmm_avail (st : pmm_st) : nat := bm_free (total_pages st) (bitmap st).
(** The machine has at most 2^52 bytes: an entry of a page table holds an address. *)
Definition pmm_small (st : pmm_st) : Prop := pmm_wf st ∧ Z.of_nat (total_pages st) * PAGE_SIZE ≤ 2 ^ 52.

Lemma page_addr p : 0 < p → p mod 4096 = 0 → p = addr_of (page_of p) ∧ (0 < page_of p)%nat.
Proof. intros Hp Hm. unfold addr_of, page_of. pose proof (Z.div_mod p 4096). assert (0 < p / 4096) by lia. lia. Qed.

Lemma page_of_eq p q : 0 < p → p mod 4096 = 0 → q mod 4096 = 0 → page_of q = page_of p ↔ q = p.
Proof.
  intros Hp Hm Hq. split; [|by intros ->]. unfold page_of. pose proof (Z.div_mod p 4096). pose proof (Z.div_mod q 4096). assert (0 < p / 4096) by lia. lia.
Qed.

(** Updates of references by page number are updates by address. *)
Lemma pmm_refs_at st st' p v :
  0 < p → p mod 4096 = 0 → (∀ i, page_refs st' i = if decide (i = page_of p) then v else page_refs st i) →
  ∀ q, q mod 4096 = 0 → pmm_refs st' q = if decide (q = p) then v else pmm_refs st q.
Proof.
  intros Hp Hm H q Hq. unfold pmm_refs. rewrite H. destruct (decide (q = p)) as [->|Hne]; [by rewrite decide_True|].
  rewrite decide_False; [done|]. by rewrite page_of_eq.
Qed.

(** A page with references. *)
Lemma page_refs_used st i : pmm_wf st → 1 ≤ page_refs st i →
  (i < total_pages st)%nat ∧ bm_test i (bitmap st) = true ∧ refcounts st !! i = Some (page_refs st i) ∧ page_refs st i < 2 ^ 16.
Proof.
  intros (_ & Hl & Hr & _) H. unfold page_refs in *. destruct (bm_test i (bitmap st)); [|lia]. destruct (refcounts st !! i) as [rc|] eqn:E; cbn in *; [|lia].
  pose proof (lookup_lt_Some _ _ _ E). pose proof (Forall_lookup_1 _ _ _ _ Hr E) as Hb. cbv beta in Hb. split_and!; (done || lia).
Qed.

(** A new count for a page in use. *)
Lemma page_refs_set st i v j :
  pmm_wf st → (i < total_pages st)%nat → bm_test i (bitmap st) = true →
  page_refs (st <| refcounts := <[i := v]> (refcounts st) |>) j = if decide (j = i) then v else page_refs st j.
Proof.
  intros (_ & Hl & _) Hi Hb. unfold page_refs. cbn [field_upd bitmap refcounts]. destruct (decide (j = i)) as [->|]; [|by rewrite list_lookup_insert_ne].
  rewrite Hb, list_lookup_insert_eq by lia. done.
Qed.

Lemma set_refs_small st i v : pmm_small st → 0 ≤ v < 2 ^ 16 → pmm_small (st <| refcounts := <[i := v]> (refcounts st) |>).
Proof.
  intros [(Hok & Hl & Hr & Hf & [Hh1 Hh2] & H0 & Ht) Hs] Hv. split; [|done]. split_and!; cbn; try done; [by rewrite length_insert|by apply Forall_insert].
Qed.

Lemma alloc_refs st i : pmm_small st → page_free st i →
  let st' := (pmm_take i st) <| alloc_hint := S i |> in
  (0 < i)%nat ∧ page_refs st i = 0 ∧ pmm_small st' ∧ pmm_avail st = S (pmm_avail st') ∧
  ∀ j, page_refs st' j = if decide (j = i) then 1 else page_refs st j.
Proof.
  intros [Hwf Hs] Hi. pose proof Hi as [Hlt Hb]. pose proof Hwf as (Hok & _). destruct (pmm_take_allocated st i (S i) Hwf Hi ltac:(lia)) as (Hw & Ht & _ & Hf & Hr1 & Hro).
  set (st' := _ <| alloc_hint := _ |>) in *. assert (Hbit : ∀ j, bm_test j (bitmap st') = bool_decide (j = i) || bm_test j (bitmap st)) by (intros j; by apply pmm_take_test).
  split_and!.
  - by apply (pmm_free_nonzero st).
  - unfold page_refs. by rewrite Hb.
  - split; [done|]. by rewrite Ht.
  - by apply bm_free_set.
  - intros j. unfold page_refs. rewrite Hbit. destruct (decide (j = i)) as [->|Hne]; [by rewrite bool_decide_true, (Hr1 i)|].
    by rewrite bool_decide_false, (Hro j).
Qed.

Lemma free_refs st i : pmm_small st → (0 < i)%nat → 1 ≤ page_refs st i →
  ∃ st', pmm_free_page (addr_of i) st = Some st' ∧ pmm_small st' ∧
    pmm_avail st' = (if decide (page_refs st i = 1) then S (pmm_avail st) else pmm_avail st) ∧
    ∀ j, page_refs st' j = if decide (j = i) then page_refs st i - 1 else page_refs st j.
Proof.
  intros [Hwf Hs] Hi0 H1. destruct (page_refs_used st i Hwf H1) as (Hi & Hb & Hrc & _). pose proof Hwf as (Hok & Hl & _).
  destruct (pmm_free_page_cases st i Hwf Hi) as (st' & Hfree & Hw' & Ht' & Hc). exists st'. split; [done|]. split; [split; [done|by rewrite Ht']|].
  rewrite bool_decide_false, Hb in Hc by lia. cbn [negb orb] in Hc. rewrite (list_lookup_total_correct _ _ _ Hrc) in Hc. unfold pmm_avail. rewrite Ht'.
  destruct (1 <? page_refs st i) eqn:E; bool_hyps.
  - destruct Hc as [Hr' Hb']. rewrite decide_False, Hb' by lia. split; [done|]. intros j. unfold page_refs at 1. rewrite Hb', Hr'.
    destruct (decide (j = i)) as [->|]; [|by rewrite list_lookup_insert_ne]. rewrite Hb, list_lookup_insert_eq by lia. done.
  - destruct Hc as (Hr' & [_ Hbi] & Ho). rewrite decide_True by lia.
    assert (Hbit : ∀ j, (j < total_pages st)%nat → j ≠ i → bm_test j (bitmap st') = bm_test j (bitmap st)).
    { intros j Hj Hne. specialize (Ho j Hne). unfold page_free in Ho. rewrite Ht' in Ho. destruct (bm_test j (bitmap st')), (bm_test j (bitmap st)); naive_solver. }
    split; [apply (bm_free_take _ i); [done..|]; intros j ??; symmetry; by apply Hbit|]. intros j. unfold page_refs at 1. rewrite Hr'.
    destruct (decide (j = i)) as [->|Hne]; [rewrite Hbi; lia|]. rewrite list_lookup_insert_ne by done.
    destruct (decide (j < total_pages st)%nat) as [Hj|Hj]; [by rewrite Hbit|]. unfold page_refs. rewrite (lookup_ge_None_2 (refcounts st)) by lia. cbn. by repeat case_match.
Qed.

#[export] Program Instance pmm_frames_ok : FramesOk pmm_st := {|
  pg_wf := pmm_small;
  pg_refs := pmm_refs;
  pg_avail := pmm_avail
|}.
Next Obligation.
  intros st Hs. pose proof Hs as [Hwf Hs52]. destruct (pmm_scan_spec st Hwf) as [Hsome Hnone]. cbn [pg_alloc pmm_frames].
  assert (Hgot : ∀ i, page_free st i → let st' := (pmm_take i st) <| alloc_hint := S i |> in
    0 < addr_of i < 2 ^ 52 ∧ addr_of i mod 4096 = 0 ∧ pmm_refs st (addr_of i) = 0 ∧ pmm_small st' ∧ pmm_avail st = S (pmm_avail st') ∧
    ∀ q, q mod 4096 = 0 → pmm_refs st' q = if decide (q = addr_of i) then 1 else pmm_refs st q).
  { intros i Hi. destruct (alloc_refs st i Hs Hi) as (Hi0 & Hr0 & Hs' & Ha & Hr). pose proof Hi as [Hlt _].
    assert (addr_of i mod 4096 = 0) as Hm by (unfold addr_of; by apply Z.mod_mul).
    assert (0 < addr_of i < 2 ^ 52) by (unfold addr_of; lia). split_and!; [lia|lia|done|by unfold pmm_refs; rewrite addr_page|done|done|].
    apply pmm_refs_at; [lia|done|]. by rewrite addr_page. }
  unfold pmm_alloc_page. destruct (bm_scan (total_pages st - alloc_hint st) _ _) as [i|] eqn:E1; [right; apply Hgot, Hsome; by left|].
  destruct (bm_scan (alloc_hint st - 1) _ _) as [i|] eqn:E2; [right; apply Hgot, Hsome; by right|].
  left. split_and!; [done..|]. specialize (Hnone eq_refl eq_refl). destruct Hwf as (_ & _ & _ & Hf & _). unfold pmm_avail. lia.
Qed.
Next Obligation.
  intros st p Hs Hp Hm H1. destruct (page_addr p ltac:(lia) Hm) as [E Hi0]. cbn [pg_free pmm_frames].
  destruct (free_refs st (page_of p) Hs Hi0 H1) as (st' & Hf & Hs' & Ha & Hr). exists st'. rewrite E at 1. split_and!; [done..|].
  apply pmm_refs_at; [lia|done|done].
Qed.
Next Obligation.
  intros st p Hs Hp Hm H1. destruct (page_addr p ltac:(lia) Hm) as [_ Hi0]. cbn [pg_ref_inc pmm_frames]. unfold pmm_refs in H1.
  destruct (page_refs_used st (page_of p) ltac:(apply Hs) ltac:(lia)) as (Hi & Hb & Hrc & _). unfold pmm_ref_inc. cbv zeta.
  rewrite !bool_decide_true by lia. cbn [andb]. rewrite (list_lookup_total_correct _ _ _ Hrc), u16_id by lia. split_and!.
  - apply set_refs_small; [done|lia].
  - done.
  - apply pmm_refs_at; [lia|done|]. intros j. apply page_refs_set; [apply Hs|done|done].
Qed.
Next Obligation.
  intros st p Hs Hp Hm H1. destruct (page_addr p ltac:(lia) Hm) as [_ Hi0]. cbn [pg_ref_dec pmm_frames]. unfold pmm_refs in H1.
  destruct (page_refs_used st (page_of p) ltac:(apply Hs) ltac:(lia)) as (Hi & Hb & Hrc & Hb16). unfold pmm_ref_dec. cbv zeta.
  rewrite !bool_decide_false by lia. cbn [orb]. rewrite (list_lookup_total_correct _ _ _ Hrc), (proj2 (Z.ltb_lt 0 _)) by lia. cbn [snd]. split_and!.
  - apply set_refs_small; [done|lia].
  - done.
  - apply pmm_refs_at; [lia|done|]. intros j. apply page_refs_set; [apply Hs|done|done].
Qed.
Next Obligation.
  intros st p Hs Hp Hm H1. cbn [pg_ref_get pmm_frames]. destruct (page_refs_used st (page_of p) ltac:(apply Hs) H1) as (Hi & _ & Hrc & _).
  unfold pmm_ref_get. cbv zeta. rewrite decide_False by lia. by rewrite (list_lookup_total_correct _ _ _ Hrc).
Qed.
