(* ===== verification/VmmTree.v ===== *)
(** * VmmTree: the page tables of [Vmm] are finite maps

    Ghost state for a set of address spaces: [G] names the table pages by their
    address space, level and prefix of the virtual address, [L] gives the entry of
    every mapped page.  [tree G L st] says that the memory holds exactly these
    tables.  [vmm_map_page_in] inserts into [L], [vmm_get_pte] looks up, and
    nothing else is touched. *)

From S2P Require Import Prelude Bitmap Pmm Mem Bytes BlockStore Vmm.

(** ** Entries *)

(** A page of physical memory. *)
Definition page_ok (p : Z) : Prop := 0 < p < 2 ^ 52 ∧ p mod 4096 = 0.

Lemma pte_has_lor a b f : pte_has (Z.lor a b) f = pte_has a f || pte_has b f.
Proof.
  unfold pte_has. rewrite Z.land_lor_distr_l. destruct (Z.eqb_spec (Z.land a f) 0) as [->|Ha]; [by rewrite Z.lor_0_l|].
  cbn [negb orb]. destruct (Z.eqb_spec (Z.lor (Z.land a f) (Z.land b f)) 0) as [H|]; [|done]. by apply Z.lor_eq_0_iff in H as [??].
Qed.

Lemma pte_has_0 a : pte_has a 0 = false.
Proof. unfold pte_has. by rewrite Z.land_0_r. Qed.

Lemma pte_has_land a m f : pte_has (Z.land a m) f = pte_has a (Z.land m f).
Proof. unfold pte_has. by rewrite Z.land_assoc. Qed.

Lemma pte_addr_lor a b : pte_addr (Z.lor a b) = Z.lor (pte_addr a) (pte_addr b).
Proof. apply Z.land_lor_distr_l. Qed.

Lemma pte_addr_land a m : pte_addr (Z.land a m) = Z.land a (pte_addr m).
Proof. unfold pte_addr. by rewrite Z.land_assoc. Qed.

Lemma addr_mask_shift : PTE_ADDR_MASK = Z.shiftl (Z.ones 40) 12.
Proof. done. Qed.

Lemma page_ok_mask p : page_ok p → Z.land p PTE_ADDR_MASK = p.
Proof.
  intros [Hp Hm]. rewrite addr_mask_shift. assert (p = Z.shiftl (p / 4096) 12) as ->.
  { rewrite Z.shiftl_mul_pow2 by lia. pose proof (Z.div_mod p 4096). lia. }
  rewrite <- Z.shiftl_land, Z.land_ones, Z.mod_small; [done| |lia].
  split; [apply Z.div_pos; lia|]. apply Z.div_lt_upper_bound; lia.
Qed.

Lemma page_ok_addr p : page_ok p → pte_addr p = p.
Proof. apply page_ok_mask. Qed.

Lemma pte_has_page p f : page_ok p → Z.land PTE_ADDR_MASK f = 0 → pte_has p f = false.
Proof. intros Hp Hf. unfold pte_has. by rewrite <- (page_ok_mask p Hp), <- Z.land_assoc, Hf, Z.land_0_r. Qed.

Lemma pte_addr_bound e : 0 ≤ pte_addr e < 2 ^ 52 ∧ pte_addr e mod 4096 = 0.
Proof.
  unfold pte_addr. rewrite addr_mask_shift. split.
  - assert (Z.land e (Z.shiftl (Z.ones 40) 12) = Z.land (Z.land e (Z.shiftl (Z.ones 40) 12)) (Z.ones 52)) as ->.
    { rewrite <- Z.land_assoc. f_equal. }
    rewrite Z.land_ones by lia. by apply Z.mod_pos_bound.
  - change 4096 with (2 ^ 12). rewrite <- Z.land_ones, <- Z.land_assoc by lia. change (Z.land (Z.shiftl (Z.ones 40) 12) (Z.ones 12)) with 0.
    by rewrite Z.land_0_r.
Qed.

Definition word64 (e : Z) : Prop := 0 ≤ e < 2 ^ 64.

Lemma word64_bits e : word64 e ↔ Z.land e (Z.ones 64) = e.
Proof.
  unfold word64. rewrite Z.land_ones by lia. split; intros H.
  - by apply Z.mod_small.
  - rewrite <- H. by apply Z.mod_pos_bound.
Qed.

Lemma word64_lor a b : word64 a → word64 b → word64 (Z.lor a b).
Proof. rewrite !word64_bits. intros Ha Hb. by rewrite Z.land_lor_distr_l, Ha, Hb. Qed.

Lemma word64_land a b : word64 b → word64 (Z.land a b).
Proof. rewrite !word64_bits. intros Hb. by rewrite <- Z.land_assoc, Hb. Qed.

Lemma word64_land_l a b : word64 a → word64 (Z.land a b).
Proof. intros Ha. rewrite Z.land_comm. by apply word64_land. Qed.

Lemma word64_page p : page_ok p → word64 p.
Proof. intros [? _]. unfold word64. lia. Qed.


(** Evaluate the bit operations between constants. *)
Ltac is_zconst x :=
  match x with
  | Z0 => idtac | Zpos _ => idtac | Zneg _ => idtac
  | PTE_PRESENT => idtac | PTE_TABLE => idtac | PTE_WRITABLE => idtac | PTE_USER => idtac | PTE_ACCESSED => idtac
  | PTE_HUGE => idtac | PTE_COW => idtac | PTE_SWAP => idtac | PTE_WAS_WRITABLE => idtac | PTE_NX => idtac
  | PTE_ADDR_MASK => idtac | LEAF_PTE_ARCH_BITS => idtac
  | not64 ?y => is_zconst y
  | pte_addr ?y => is_zconst y
  | Z.lor ?y ?z => is_zconst y; is_zconst z
  | Z.land ?y ?z => is_zconst y; is_zconst z
  end.
Ltac eval_const t := let v := eval vm_compute in t in change t with v.
Ltac pte_step :=
  match goal with
  | |- context [pte_has (Z.lor ?a ?b) ?f] => rewrite (pte_has_lor a b f)
  | |- context [pte_flags ?e] => unfold pte_flags
  | |- context [Z.land (Z.land ?a ?m) ?n] => is_zconst m; is_zconst n; rewrite <- (Z.land_assoc a m n)
  | |- context [pte_has (Z.land ?a ?m) ?f] => rewrite (pte_has_land a m f)
  | |- context [Z.land (Z.lor ?a ?b) ?m] => is_zconst m; rewrite (Z.land_lor_distr_l a b m)
  | |- context [pte_addr (Z.lor ?a ?b)] => rewrite (pte_addr_lor a b)
  | |- context [pte_addr (Z.land ?a ?m)] => rewrite (pte_addr_land a m)
  | |- context [Z.land ?a ?b] => is_zconst a; is_zconst b; eval_const (Z.land a b)
  | |- context [pte_addr ?a] => is_zconst a; eval_const (pte_addr a)
  | |- context [pte_has ?a ?b] => is_zconst a; is_zconst b; eval_const (pte_has a b)
  | |- context [pte_has ?e 0] => rewrite (pte_has_0 e)
  | |- context [pte_has ?p ?f] => rewrite (pte_has_page p f) by (eassumption || reflexivity)
  | |- context [pte_addr ?p] => rewrite (page_ok_addr p) by eassumption
  end.
Ltac pte_simp := repeat pte_step; rewrite ?Z.land_0_r, ?Z.lor_0_r, ?Z.lor_0_l, ?orb_true_r, ?orb_true_l, ?orb_false_r, ?orb_false_l.

Ltac word64_tac :=
  repeat first [ assumption | apply word64_lor | apply word64_page; assumption
               | apply word64_land; unfold word64; vm_compute; split; congruence
               | unfold word64; vm_compute; split; congruence ].

(** ** Indices *)

Lemma land_9 x : Z.land x 0x1FF = x mod 512.
Proof. change 0x1FF with (Z.ones 9). by rewrite Z.land_ones by lia. Qed.

(** The indices of an address in the page [v]. *)
Lemma index_of va v : v = va / 4096 → 0 ≤ va < 2 ^ 47 →
  PT_INDEX va = v mod 512 ∧ PD_INDEX va = (v / 512) mod 512 ∧ PDPT_INDEX va = (v / 512 / 512) mod 512 ∧
  PML4_INDEX va = v / 512 / 512 / 512.
Proof.
  intros -> Hv. unfold PT_INDEX, PD_INDEX, PDPT_INDEX, PML4_INDEX. rewrite !land_9, !Z.shiftr_div_pow2, !Z.div_div by lia.
  split_and!; [done..|]. change (4096 * 512 * 512 * 512) with (2 ^ 39). rewrite Z.mod_small; [done|].
  split; [apply Z.div_pos; lia|]. apply Z.div_lt_upper_bound; lia.
Qed.

Lemma lor_shift a n b : 0 ≤ n → 0 ≤ b < 2 ^ n → Z.lor (Z.shiftl a n) b = a * 2 ^ n + b.
Proof.
  intros Hn Hb. assert (Hz : Z.land (Z.shiftl a n) b = 0).
  { apply Z.bits_inj'. intros k Hk. rewrite Z.land_spec, Z.bits_0. destruct (decide (k < n)); [by rewrite Z.shiftl_spec_low|].
    assert (Z.testbit b k = false) as ->; [|apply andb_false_r]. rewrite <- (Z.mod_small b (2 ^ n)) by lia.
    apply Z.mod_pow2_bits_high. lia. }
  rewrite <- Z.lxor_lor, <- Z.add_nocarry_lxor by done. by rewrite Z.shiftl_mul_pow2.
Qed.

Lemma virt_of_page i4 i3 i2 i1 :
  0 ≤ i4 < 512 → 0 ≤ i3 < 512 → 0 ≤ i2 < 512 → 0 ≤ i1 < 512 →
  virt_of i4 i3 i2 i1 = (((i4 * 512 + i3) * 512 + i2) * 512 + i1) * 4096.
Proof.
  intros H4 H3 H2 H1. unfold virt_of. rewrite <- !Z.lor_assoc, (Z.shiftl_mul_pow2 i1) by lia.
  rewrite (lor_shift i2), (lor_shift i3), (lor_shift i4); try lia.
Qed.

(** ** Words of tables *)

Section tables.
Context {A S : Type} `{!Frames A} `{!BlockStore S}.
Implicit Types st : vm_st A S.

(** The page an address lies in. *)
Definition page_at (a : Z) : Z := a / 4096 * 4096.

Lemma page_at_in p a : p mod 4096 = 0 → page_at a = p ↔ p ≤ a < p + 4096.
Proof.
  intros Hp. unfold page_at. split; [intros <-; pose proof (Z.div_mod a 4096); pose proof (Z.mod_pos_bound a 4096); lia|].
  intros Ha. apply Z.div_exact in Hp; [|lia]. assert (a / 4096 = p / 4096) as ->; [|lia].
  symmetry. apply (Z.div_unique_pos _ _ _ (a - p)); lia.
Qed.

Lemma pt_get_set_eq t i e st : word64 e → pt_get t i (pt_set t i e st) = e.
Proof. intros He. unfold pt_get, pt_set. cbn. by apply load_store64_eq. Qed.

Lemma pt_get_set_ne t i e t' i' st :
  t mod 4096 = 0 → t' mod 4096 = 0 → 0 ≤ i < 512 → 0 ≤ i' < 512 → (t, i) ≠ (t', i') →
  pt_get t' i' (pt_set t i e st) = pt_get t' i' st.
Proof.
  intros Ht Ht' Hi Hi' Hne. unfold pt_get, pt_set. cbn. apply load_store64_ne.
  destruct (decide (t = t')) as [->|]; [assert (i ≠ i') by congruence; lia|].
  apply Z.div_exact in Ht, Ht'; lia.
Qed.

Lemma pt_set_byte t i e st a :
  t mod 4096 = 0 → 0 ≤ i < 512 → page_at a ≠ t → byte_at (vm_mem (pt_set t i e st)) a = byte_at (vm_mem st) a.
Proof.
  intros Ht Hi Ha. rewrite page_at_in in Ha by done. unfold pt_set. cbn. apply byte_at_store64_ne. lia.
Qed.

(** A loop of stores into one table. *)
Lemma pt_fill (f : Z → vm_st A S → Z) t n st :
  t mod 4096 = 0 → ∀ lo, 0 ≤ lo → lo + Z.of_nat n ≤ 512 →
  let st' := foldl (λ st i, pt_set t i (f i st) st) st (seqZ lo (Z.of_nat n)) in
  (∀ i, 0 ≤ i < 512 → i < lo ∨ lo + Z.of_nat n ≤ i → pt_get t i st' = pt_get t i st) ∧
  (∀ a, page_at a ≠ t → byte_at (vm_mem st') a = byte_at (vm_mem st) a) ∧
  vm_fr st' = vm_fr st ∧ vm_root st' = vm_root st ∧
  swap_bitmap st' = swap_bitmap st ∧ swap_used_count st' = swap_used_count st ∧ swap_start_block st' = swap_start_block st ∧
  vm_disk st' = vm_disk st.
Proof.
  intros Ht lo. revert st lo. induction n as [|n IH]; intros st lo Hlo Hn; [done|].
  rewrite seqZ_cons by lia. cbn [foldl]. replace (Z.pred (Z.of_nat (Datatypes.S n))) with (Z.of_nat n) by lia.
  destruct (IH (pt_set t lo (f lo st) st) (Z.succ lo)) as (H1 & H2 & H3 & H4 & H5 & H6 & H7 & H8); [lia..|].
  split_and!; [| |done..].
  - intros i Hi Hout. rewrite H1 by lia. apply pt_get_set_ne; [done..|lia|lia|]. intros [= ->]. lia.
  - intros a Ha. rewrite H2 by done. apply pt_set_byte; [done|lia|done].
Qed.

Lemma pt_fill_zero t n st :
  t mod 4096 = 0 → ∀ lo, 0 ≤ lo → lo + Z.of_nat n ≤ 512 → ∀ i, lo ≤ i < lo + Z.of_nat n →
  pt_get t i (foldl (λ st i, pt_set t i 0 st) st (seqZ lo (Z.of_nat n))) = 0.
Proof.
  intros Ht lo. revert st lo. induction n as [|n IH]; intros st lo Hlo Hn i Hi; [lia|].
  rewrite seqZ_cons by lia. cbn [foldl]. replace (Z.pred (Z.of_nat (Datatypes.S n))) with (Z.of_nat n) by lia.
  destruct (decide (i = lo)) as [->|]; [|apply IH; lia].
  destruct (pt_fill (λ _ _, 0) t n (pt_set t lo 0 st) Ht (Z.succ lo)) as (H1 & _); [lia..|].
  cbv beta zeta in H1. rewrite H1 by lia. by apply pt_get_set_eq.
Qed.

(** What stays the same when only tables change. *)
Definition same_rest st st' : Prop :=
  vm_root st' = vm_root st ∧ swap_bitmap st' = swap_bitmap st ∧ swap_used_count st' = swap_used_count st ∧
  swap_start_block st' = swap_start_block st ∧ vm_disk st' = vm_disk st.

#[export] Instance same_rest_preorder : PreOrder same_rest.
Proof. split; [done|]. intros st1 st2 st3 (? & ? & ? & ? & ?) (? & ? & ? & ? & ?). split_and!; congruence. Qed.

Lemma zero_page_spec p st :
  p mod 4096 = 0 →
  (∀ i, 0 ≤ i < 512 → pt_get p i (zero_page p st) = 0) ∧
  (∀ a, page_at a ≠ p → byte_at (vm_mem (zero_page p st)) a = byte_at (vm_mem st) a) ∧
  vm_fr (zero_page p st) = vm_fr st ∧ same_rest st (zero_page p st).
Proof.
  intros Hp. unfold zero_page. change 512 with (Z.of_nat 512).
  destruct (pt_fill (λ _ _, 0) p 512 st Hp 0) as (_ & H2 & H3 & H4); [lia..|].
  split_and!; [|done..]. intros i Hi. apply (pt_fill_zero p 512 st Hp 0); lia.
Qed.

(** Words of pages whose bytes are unchanged. *)
Lemma pt_get_same p i st st' :
  p mod 4096 = 0 → 0 ≤ i < 512 → (∀ a, page_at a = p → byte_at (vm_mem st') a = byte_at (vm_mem st) a) →
  pt_get p i st' = pt_get p i st.
Proof. intros Hp Hi H. unfold pt_get. apply load64_ext. intros a Ha. apply H, page_at_in; [done|lia]. Qed.

Definition page_data st (f : Z) : list Z := load_bytes (vm_mem st) f 4096.

Lemma page_data_same f st st' :
  f mod 4096 = 0 → (∀ a, page_at a = f → byte_at (vm_mem st') a = byte_at (vm_mem st) a) → page_data st' f = page_data st f.
Proof. intros Hf H. apply load_bytes_ext. intros a Ha. apply H, page_at_in; [done|lia]. Qed.
End tables.

(** ** The tree of tables *)

Section tree.
Context {A S : Type} `{!Frames A, !FramesOk A} `{!BlockStore S}.
Implicit Types st : vm_st A S.
Implicit Types G : gmap (Z * nat * Z) Z.
Implicit Types L : gmap (Z * Z) Z.

(** The entry of a table above the last level. *)
Definition inter_ok (e q : Z) : Prop :=
  pte_addr e = q ∧ pte_has e PTE_PRESENT = true ∧ pte_has e PTE_WRITABLE = true ∧ pte_has e PTE_USER = true ∧
  pte_has e PTE_HUGE = false.

(** How often the page [f] is mapped. *)
Definition maps L (f : Z) : nat := size (filter (λ kv, pte_addr kv.2 = f) L).

Definition refs st (p : Z) : Z := pg_refs (vm_fr st) p.
Definition avail st : nat := pg_avail (vm_fr st).

Record tree G L st : Prop := {
  tr_wf : pg_wf (vm_fr st);
  tr_page n p : G !! n = Some p → page_ok p ∧ refs st p = 1;
  tr_inj n n' p : G !! n = Some p → G !! n' = Some p → n = n';
  tr_node c l k p : G !! (c, l, k) = Some p →
    (1 ≤ l ≤ 4)%nat ∧ 0 ≤ k ∧ k * 512 ^ Z.of_nat l < 2 ^ 35 ∧ (l = 4%nat → p = c) ∧
    ((l < 4)%nat → is_Some (G !! (c, Datatypes.S l, k / 512)));
  tr_down c l k p i : G !! (c, Datatypes.S l, k) = Some p → (1 ≤ l)%nat → 0 ≤ i < 512 → (k * 512 + i) * 512 ^ Z.of_nat l < 2 ^ 35 →
    match G !! (c, l, k * 512 + i) with
    | Some q => inter_ok (pt_get p i st) q
    | None => pte_has (pt_get p i st) PTE_PRESENT = false
    end;
  tr_leaf c k p i : G !! (c, 1%nat, k) = Some p → 0 ≤ i < 512 →
    match L !! (c, k * 512 + i) with
    | Some e => pt_get p i st = e
    | None => pte_has (pt_get p i st) PTE_PRESENT = false
    end;
  tr_map c v e : L !! (c, v) = Some e →
    0 ≤ v < 2 ^ 35 ∧ is_Some (G !! (c, 1%nat, v / 512)) ∧ page_ok (pte_addr e) ∧ pte_has e PTE_PRESENT = true ∧
    pte_has e PTE_USER = true ∧ Z.of_nat (maps L (pte_addr e)) ≤ refs st (pte_addr e) ∧ (∀ n, G !! n ≠ Some (pte_addr e))
}.

Lemma maps_pos L c v e : L !! (c, v) = Some e → (0 < maps L (pte_addr e))%nat.
Proof.
  intros H. unfold maps. apply Nat.neq_0_lt_0. intros E. apply map_size_empty_iff in E.
  assert (filter (λ kv : (Z * Z) * Z, pte_addr kv.2 = pte_addr e) L !! (c, v) = Some e) as Hf by (by apply map_lookup_filter_Some).
  by rewrite E in Hf.
Qed.

(** Pages in use and pages that are not are different. *)
Lemma tree_leaf_refs G L st c v e : tree G L st → L !! (c, v) = Some e → 1 ≤ refs st (pte_addr e).
Proof.
  intros T H. pose proof (maps_pos L c v e H). destruct (tr_map _ _ _ T c v e H) as (_ & _ & _ & _ & _ & Hr & _). lia.
Qed.

(** Bytes outside the tables are the same. *)
Definition same_data G st st' : Prop :=
  ∀ a, (∀ n, G !! n ≠ Some (page_at a)) → byte_at (vm_mem st') a = byte_at (vm_mem st) a.

(** The tables may grow by nodes that satisfy [P], in pages that were not in use. *)
Definition grows (P : Z * nat * Z → Prop) G L st G' st' : Prop :=
  tree G' L st' ∧ G ⊆ G' ∧ (∀ n q, G' !! n = Some q → G !! n = Some q ∨ (P n ∧ refs st q < 1)) ∧ same_data G' st st' ∧ same_rest st st' ∧
  (∀ f, f mod 4096 = 0 → 1 ≤ refs st f → refs st' f = refs st f) ∧ (avail st + size G = avail st' + size G')%nat.

Lemma grows_refl P G L st : tree G L st → grows P G L st G st.
Proof. intros T. split_and!; try done. intros n q Hn. by left. Qed.

Lemma grows_trans (P : Z * nat * Z → Prop) G L st G1 st1 G2 st2 :
  grows P G L st G1 st1 → grows P G1 L st1 G2 st2 → grows P G L st G2 st2.
Proof.
  intros (T1 & S1 & N1 & D1 & R1 & F1 & A1) (T2 & S2 & N2 & D2 & R2 & F2 & A2). split_and!; [done|by etrans| | |by etrans| |lia].
  - intros n q Hn. destruct (N2 n q Hn) as [H|[HP Hq]]; [by apply N1|]. right. split; [done|].
    destruct (decide (refs st q < 1)); [done|]. destruct (tr_page _ _ _ T2 _ _ Hn) as [[_ Hm] _]. rewrite F1 in Hq by (done || lia). lia.
  - intros a Ha. rewrite D2 by done. apply D1. intros n Hn. apply (Ha n). by eapply lookup_weaken.
  - intros f Hf Hr. rewrite F2, F1; [done..|]. by rewrite F1.
Qed.

Lemma alloc_page_spec st :
  pg_wf (vm_fr st) →
  let '(p, st') := alloc_page st in
  (p = 0 ∧ st' = st ∧ avail st = O) ∨
  (page_ok p ∧ refs st p = 0 ∧ pg_wf (vm_fr st') ∧ vm_mem st' = vm_mem st ∧ same_rest st st' ∧ avail st = Datatypes.S (avail st') ∧
   (∀ q, q mod 4096 = 0 → refs st' q = if decide (q = p) then 1 else refs st q)).
Proof.
  intros Hwf. unfold alloc_page, refs, avail. pose proof (pg_alloc_ok (vm_fr st) Hwf) as H.
  destruct (pg_alloc (vm_fr st)) as [p a]. destruct H as [(-> & -> & H)|(Hp & Hm & H0 & Hw & Ha & Hr)]; [left|right].
  - split_and!; [done|by destruct st|done].
  - cbn. split_and!; done.
Qed.

Lemma tree_no_child G L st c l k j :
  tree G L st → 0 ≤ j < 512 → (l < 4)%nat → G !! (c, Datatypes.S l, k) = None → G !! (c, l, k * 512 + j) = None.
Proof.
  intros T Hj Hl HN. destruct (G !! (c, l, k * 512 + j)) as [q|] eqn:E; [|done].
  destruct (tr_node _ _ _ T _ _ _ _ E) as (_ & _ & _ & _ & Hp). destruct (Hp Hl) as [r Hr].
  rewrite Z.div_add_l, Z.div_small, Z.add_0_r in Hr by lia. congruence.
Qed.

Lemma tree_no_leaf G L st c k j :
  tree G L st → 0 ≤ j < 512 → G !! (c, 1%nat, k) = None → L !! (c, k * 512 + j) = None.
Proof.
  intros T Hj HN. destruct (L !! (c, k * 512 + j)) as [q|] eqn:E; [|done].
  destruct (tr_map _ _ _ T _ _ _ E) as (_ & [r Hr] & _). rewrite Z.div_add_l, Z.div_small, Z.add_0_r in Hr by lia. congruence.
Qed.

Section add_node.
Context G L st st' (c : Z) (l : nat) (k t i p : Z).
Context (T : tree G L st) (Ht : G !! (c, Datatypes.S l, k) = Some t) (Hl : (1 ≤ l)%nat) (Hi : 0 ≤ i < 512)
  (Hb : (k * 512 + i) * 512 ^ Z.of_nat l < 2 ^ 35) (HN : G !! (c, l, k * 512 + i) = None).
Context (Hp : page_ok p) (Hp0 : refs st p = 0) (Hwf : pg_wf (vm_fr st'))
  (Hr : ∀ q, q mod 4096 = 0 → refs st' q = if decide (q = p) then 1 else refs st q)
  (Hz : ∀ j, 0 ≤ j < 512 → pt_get p j st' = 0) (He : inter_ok (pt_get t i st') p)
  (Hs : ∀ t' j, page_ok t' → t' ≠ p → 0 ≤ j < 512 → (t', j) ≠ (t, i) → pt_get t' j st' = pt_get t' j st).

Lemma add_node_old n q : G !! n = Some q → q ≠ p.
Proof. intros H ->. apply (tr_page _ _ _ T) in H as [_ H]. lia. Qed.

Lemma add_node_word n t' j : G !! n = Some t' → 0 ≤ j < 512 → (n, j) ≠ ((c, Datatypes.S l, k), i) → pt_get t' j st' = pt_get t' j st.
Proof.
  intros H Hj Hne. apply Hs; [by apply (tr_page _ _ _ T) in H as [??]|by eapply add_node_old|done|].
  intros [= -> ->]. apply Hne. f_equal. by apply (tr_inj _ _ _ T _ _ _ H Ht).
Qed.

Lemma tree_add_node : tree (<[(c, l, k * 512 + i) := p]> G) L st'.
Proof.
  destruct (tr_node _ _ _ T _ _ _ _ Ht) as (Hl4 & Hk & _). split; [done|..].
  - intros n q [[<- <-]|[? H]]%lookup_insert_Some.
    + split; [done|]. rewrite Hr by apply Hp. by rewrite decide_True.
    + destruct (tr_page _ _ _ T _ _ H) as [Hq H1]. split; [done|]. rewrite Hr, decide_False by (apply Hq || by eapply add_node_old). done.
  - intros n n' q [[<- <-]|[? H]]%lookup_insert_Some [[<- E]|[? H']]%lookup_insert_Some; [done| | |by eapply (tr_inj _ _ _ T)].
    + by apply add_node_old in H'.
    + subst q. by apply add_node_old in H.
  - intros c' l' k' q [[[= <- <- <-] <-]|[Hne H]]%lookup_insert_Some.
    + split_and!; [lia..| |lia|].
      * lia.
      * intros _. rewrite Z.div_add_l, Z.div_small, Z.add_0_r by lia. rewrite lookup_insert_ne; [by eexists|]. intros [=]. lia.
    + destruct (tr_node _ _ _ T _ _ _ _ H) as (? & ? & ? & ? & Hup). split_and!; [lia|lia|done|done|done|]. intros Hl'.
      apply lookup_insert_is_Some. destruct (decide ((c, l, k * 512 + i) = (c', Datatypes.S l', k' / 512))); [by left|right]. auto.
  - intros c' l' k' q j [[[= <- El <-] <-]|[Hne H]]%lookup_insert_Some Hl' Hj Hb'.
    + rewrite lookup_insert_ne by (intros [=]; lia).
      rewrite (tree_no_child G L st _ _ _ _ T) by (done || lia || by rewrite <- El). by rewrite Hz.
    + destruct (decide ((c, l, k * 512 + i) = (c', l', k' * 512 + j))) as [E|].
      * injection E as <- <- E. assert (k' = k ∧ j = i) as [-> ->] by lia. rewrite lookup_insert_eq.
        rewrite H in Ht. injection Ht as ->. done.
      * rewrite lookup_insert_ne by done. rewrite (add_node_word _ _ _ H Hj); [by apply (tr_down _ _ _ T)|].
        intros [= -> -> -> ->]. by apply n.
  - intros c' k' q j [[[= <- El <-] <-]|[Hne H]]%lookup_insert_Some Hj.
    + rewrite (tree_no_leaf G L st _ _ _ T) by (done || by rewrite <- El). by rewrite Hz.
    + rewrite (add_node_word _ _ _ H Hj) by (intros [=]; lia). by apply (tr_leaf _ _ _ T).
  - intros c' v e H. destruct (tr_map _ _ _ T _ _ _ H) as (Hv & Hg & Hpe & Hpr & Hu & Hrf & Hn).
    pose proof (tree_leaf_refs _ _ _ _ _ _ T H). refine (conj Hv (conj _ (conj Hpe (conj Hpr (conj Hu (conj _ _)))))).
    + apply lookup_insert_is_Some. destruct (decide ((c, l, k * 512 + i) = (c', 1%nat, v / 512))); [by left|by right].
    + rewrite Hr by apply Hpe. rewrite decide_False; [done|]. intros E. rewrite E in *. lia.
    + intros n [[_ E]|[_ E]]%lookup_insert_Some; [|by apply (Hn n)]. rewrite <- E in *. lia.
Qed.
End add_node.

(** One level of [vmm_map_page_in]. *)
Lemma next_table_grows G L st c l k t i flags :
  tree G L st → G !! (c, Datatypes.S l, k) = Some t → (1 ≤ l)%nat → 0 ≤ i < 512 → (k * 512 + i) * 512 ^ Z.of_nat l < 2 ^ 35 →
  pte_has flags PTE_USER = true →
  ∃ r G' st', next_table flags t i st = (r, st') ∧ grows (λ n, n = (c, l, k * 512 + i)) G L st G' st' ∧
    match r with
    | Some q => G' !! (c, l, k * 512 + i) = Some q
    | None => avail st' = O ∧ G' !! (c, l, k * 512 + i) = None
    end.
Proof.
  intros T Ht Hl Hi Hb Hu. pose proof (tr_down _ _ _ T _ _ _ _ _ Ht Hl Hi Hb) as Hd. unfold next_table. rewrite Hu. cbv zeta.
  destruct (tr_page _ _ _ T _ _ Ht) as [Htp Htr].
  destruct (G !! (c, l, k * 512 + i)) as [q|] eqn:E.
  { destruct Hd as (Ha & Hpr & _ & Hus & _). rewrite Hpr, Hus. cbn [negb andb]. rewrite Ha. exists (Some q), G, st.
    split_and!; [done| |done]. by apply grows_refl. }
  rewrite Hd. cbn [negb]. pose proof (alloc_page_spec st (tr_wf _ _ _ T)) as Hal. destruct (alloc_page st) as [p st1].
  destruct Hal as [(-> & -> & Hav)|(Hp & Hp0 & Hw1 & Hm1 & Hr1 & Ha1 & Hrf)].
  { rewrite Z.eqb_refl. exists None, G, st. split_and!; [done| |done..]. by apply grows_refl. }
  rewrite (proj2 (Z.eqb_neq p 0)) by (destruct Hp; lia). destruct (zero_page_spec p st1) as (Hz & Hzb & Hzf & Hzr); [apply Hp|].
  set (e := Z.lor p _). assert (word64 e ∧ inter_ok e p) as [Hew Hei].
  { unfold e, inter_ok. split; [word64_tac|]. pte_simp. done. }
  rewrite pt_get_set_eq by done. destruct Hei as (Hea & Hei). rewrite Hea. set (st2 := pt_set t i e (zero_page p st1)).
  assert (t ≠ p) as Hne by (intros ->; lia).
  assert (vm_fr st2 = vm_fr st1) as Hfr by exact Hzf.
  assert (Hby : ∀ a, page_at a ≠ p → page_at a ≠ t → byte_at (vm_mem st2) a = byte_at (vm_mem st) a).
  { intros a Hap Hat. unfold st2. rewrite pt_set_byte by (done || apply Htp). by rewrite Hzb, Hm1. }
  assert (T2 : tree (<[(c, l, k * 512 + i) := p]> G) L st2).
  { apply (tree_add_node G L st st2 c l k t i p); [done|done|done|done|done|done|done|done|..].
    - by rewrite Hfr.
    - intros q Hq. unfold refs. rewrite Hfr. by apply Hrf.
    - intros j Hj. unfold st2. rewrite pt_get_set_ne; [by apply Hz|apply Htp|apply Hp|done..|]. by intros [= -> _].
    - unfold st2. by rewrite pt_get_set_eq.
    - intros t' j Ht' Htne Hj Hpair. unfold st2. rewrite pt_get_set_ne by (done || apply Ht' || apply Htp || (intros [= <- <-]; done)).
      apply pt_get_same; [apply Ht'|done|]. intros a <-. by rewrite Hzb, Hm1. }
  exists (Some p), (<[(c, l, k * 512 + i) := p]> G), st2. split_and!; [done| |by apply lookup_insert_eq].
  split_and!; [done|by apply insert_subseteq| | | | |].
  - intros n q [[<- <-]|[_ H]]%lookup_insert_Some; [right; split; [done|lia]|by left].
  - intros a Ha. apply Hby; intros E'.
    + apply (Ha (c, l, k * 512 + i)). by rewrite E', lookup_insert_eq.
    + apply (Ha (c, Datatypes.S l, k)). rewrite lookup_insert_ne by (intros [=]; lia). by rewrite E'.
  - etrans; [apply Hr1|]. by etrans; [apply Hzr|].
  - intros f Hf H1. unfold refs at 1. rewrite Hfr. fold (refs st1 f). rewrite Hrf by done. rewrite decide_False; [done|].
    intros ->. lia.
  - rewrite map_size_insert_None by done. unfold avail at 2. rewrite Hfr. fold (avail st1). lia.
Qed.

(** ** Entries of the last level *)

Lemma maps_insert L kv e f :
  L !! kv = None → maps (<[kv := e]> L) f = ((if decide (pte_addr e = f) then 1 else 0) + maps L f)%nat.
Proof.
  intros H. unfold maps. rewrite map_filter_insert. cbn [snd]. case_decide.
  - rewrite map_size_insert_None; [done|]. apply map_lookup_filter_None. by left.
  - by rewrite delete_id.
Qed.

Lemma maps_delete L kv e f :
  L !! kv = Some e → maps L f = ((if decide (pte_addr e = f) then 1 else 0) + maps (delete kv L) f)%nat.
Proof. intros H. rewrite <- (insert_delete_id L kv e H) at 1. apply maps_insert. apply lookup_delete_eq. Qed.

Lemma maps_replace L kv e e' f :
  L !! kv = Some e → 
  (maps (<[kv := e']> L) f + (if decide (pte_addr e = f) then 1 else 0) = (if decide (pte_addr e' = f) then 1 else 0) + maps L f)%nat.
Proof.
  intros H. rewrite <- insert_delete_eq, maps_insert by apply lookup_delete_eq. rewrite (maps_delete L kv e f H). lia.
Qed.

(** The entry [i] of the last table [t] changes. *)
Lemma tree_set_leaf G L L' st st' c k t i :
  tree G L st → G !! (c, 1%nat, k) = Some t → 0 ≤ i < 512 →
  (∀ kv, kv ≠ (c, k * 512 + i) → L' !! kv = L !! kv) →
  match L' !! (c, k * 512 + i) with
  | Some e => pt_get t i st' = e ∧ page_ok (pte_addr e) ∧ pte_has e PTE_PRESENT = true ∧ pte_has e PTE_USER = true ∧
              ∀ n, G !! n ≠ Some (pte_addr e)
  | None => pte_has (pt_get t i st') PTE_PRESENT = false
  end →
  (∀ n t' j, G !! n = Some t' → 0 ≤ j < 512 → (t', j) ≠ (t, i) → pt_get t' j st' = pt_get t' j st) →
  pg_wf (vm_fr st') → (∀ n p, G !! n = Some p → refs st' p = refs st p) →
  (∀ kv e, L' !! kv = Some e → Z.of_nat (maps L' (pte_addr e)) ≤ refs st' (pte_addr e)) →
  tree G L' st'.
Proof.
  intros T Ht Hi HL He Hs Hwf Hr Hc. destruct (tr_node _ _ _ T _ _ _ _ Ht) as (_ & Hk0 & Hk & _). split; [done|..].
  - intros n p H. destruct (tr_page _ _ _ T _ _ H) as [??]. split; [done|]. by rewrite (Hr n).
  - apply (tr_inj _ _ _ T).
  - apply (tr_node _ _ _ T).
  - intros c' l k' p j H Hl Hj Hb. rewrite (Hs _ _ _ H Hj); [by apply (tr_down _ _ _ T)|].
    intros [= -> ->]. pose proof (tr_inj _ _ _ T _ _ _ H Ht) as [= _ E _]. lia.
  - intros c' k' p j H Hj. destruct (decide ((c', k' * 512 + j) = (c, k * 512 + i))) as [E|Hne].
    + injection E as -> E. assert (k' = k ∧ j = i) as [-> ->] by lia. rewrite Ht in H. injection H as ->.
      destruct (L' !! _); [by destruct He as [? _]|done].
    + rewrite (HL _ Hne), (Hs _ _ _ H Hj); [by apply (tr_leaf _ _ _ T)|].
      intros [= -> ->]. pose proof (tr_inj _ _ _ T _ _ _ H Ht) as [= -> ->]. done.
  - intros c' v e H. destruct (decide ((c', v) = (c, k * 512 + i))) as [E|Hne].
    + injection E as -> ->. rewrite H in He. destruct He as (_ & Hp & Hpr & Hu & Hn).
      refine (conj _ (conj _ (conj Hp (conj Hpr (conj Hu (conj _ Hn)))))); [lia| |by apply (Hc _ _ H)].
      rewrite Z.div_add_l, Z.div_small, Z.add_0_r by lia. by eexists.
    + pose proof H as H'. rewrite HL in H' by done. destruct (tr_map _ _ _ T _ _ _ H') as (Hv & Hg & Hp & Hpr & Hu & _ & Hn).
      refine (conj Hv (conj Hg (conj Hp (conj Hpr (conj Hu (conj _ Hn)))))). by apply (Hc _ _ H).
Qed.

(** ** [vmm_map_page_in] *)

(** The numbers of the tables on the way to [v]. *)
Lemma path_div v : 0 ≤ v < 2 ^ 35 →
  let v1 := v / 512 in let v2 := v1 / 512 in let v3 := v2 / 512 in
  0 ≤ v3 < 256 ∧ 0 ≤ v2 ∧ 0 ≤ v1 ∧ v2 = v3 * 512 + v2 mod 512 ∧ v1 = v2 * 512 + v1 mod 512 ∧ v = v1 * 512 + v mod 512 ∧
  0 ≤ v mod 512 < 512 ∧ 0 ≤ v1 mod 512 < 512 ∧ 0 ≤ v2 mod 512 < 512 ∧ v1 * 512 < 2 ^ 35 ∧ v2 * (512 * 512) < 2 ^ 35 ∧ v3 * (512 * 512 * 512) < 2 ^ 35.
Proof.
  intros Hv v1 v2 v3. pose proof (Z.div_mod v 512 ltac:(lia)) as E1. pose proof (Z.div_mod v1 512 ltac:(lia)) as E2.
  pose proof (Z.div_mod v2 512 ltac:(lia)) as E3. fold v1 in E1. fold v2 in E2. fold v3 in E3.
  pose proof (Z.mod_pos_bound v 512 ltac:(lia)). pose proof (Z.mod_pos_bound v1 512 ltac:(lia)). pose proof (Z.mod_pos_bound v2 512 ltac:(lia)).
  lia.
Qed.

(** The nodes on the way to the page [v]. *)
Definition on_path (c v : Z) (n : Z * nat * Z) : Prop := ∃ l, (1 ≤ l ≤ 3)%nat ∧ n = (c, l, v / 512 ^ Z.of_nat l).

Lemma grows_weaken (P Q : Z * nat * Z → Prop) G L st G' st' : (∀ n, P n → Q n) → grows P G L st G' st' → grows Q G L st G' st'.
Proof.
  intros HPQ (? & ? & Hn & Hrest). split; [done|]. split; [done|]. split; [|done]. intros n q Hs. destruct (Hn n q Hs) as [|[??]]; auto.
Qed.

Lemma map_walk G L st c v va phys flags :
  tree G L st → G !! (c, 4%nat, 0) = Some c → v = va / 4096 → 0 ≤ va < 2 ^ 47 → pte_has flags PTE_USER = true →
  ∃ G' st', grows (on_path c v) G L st G' st' ∧
    ((∃ pt, G' !! (c, 1%nat, v / 512) = Some pt ∧
        vmm_map_page_in c va phys flags st = (0, pt_set pt (v mod 512) (leaf_pte phys flags) st')) ∨
     (vmm_map_page_in c va phys flags st = (-1, st') ∧ avail st' = O ∧ ∃ n, on_path c v n ∧ G' !! n = None)).
Proof.
  intros T Hc Hv Hva Hu. destruct (index_of va v Hv Hva) as (I1 & I2 & I3 & I4).
  assert (Hv35 : 0 ≤ v < 2 ^ 35) by (subst v; split; [apply Z.div_pos; lia|apply Z.div_lt_upper_bound; lia]).
  destruct (path_div v Hv35) as (Hv3 & Hv2 & Hv1 & E2 & E1 & _ & _ & M1 & M2 & B1 & B2 & B3).
  set (v1 := v / 512) in *. set (v2 := v1 / 512) in *. set (v3 := v2 / 512) in *.
  unfold vmm_map_page_in. rewrite I1, I2, I3, I4. fold v1 v2 v3.
  assert (P1 : ∀ l, (1 ≤ l ≤ 3)%nat → on_path c v (c, l, v / 512 ^ Z.of_nat l)) by (intros l Hl; by exists l).
  pose proof (P1 1%nat ltac:(lia)) as Q1. pose proof (P1 2%nat ltac:(lia)) as Q2. pose proof (P1 3%nat ltac:(lia)) as Q3.
  change (v / 512 ^ Z.of_nat 1) with v1 in Q1. change (512 ^ Z.of_nat 2) with (512 * 512) in Q2.
  change (512 ^ Z.of_nat 3) with (512 * 512 * 512) in Q3. rewrite <- Z.div_div in Q2 by lia. do 2 rewrite <- Z.div_div in Q3 by lia. fold v1 v2 in Q2, Q3. fold v3 in Q3.
  destruct (next_table_grows G L st c 3 0 c v3 flags T Hc) as (r3 & G3 & st3 & -> & Gr3 & H3); [lia|lia|lia|done|].
  change (0 * 512 + v3) with v3 in *. apply (grows_weaken _ (on_path c v)) in Gr3; [|by intros ? ->].
  destruct r3 as [pdpt|]; [|exists G3, st3; split; [done|right]; destruct H3; eauto].
  destruct (next_table_grows G3 L st3 c 2 v3 pdpt (v2 mod 512) flags) as (r2 & G2 & st2 & -> & Gr2 & H2);
    [apply Gr3|done|lia|apply Z.mod_pos_bound; lia|rewrite <- E2; change (512 ^ Z.of_nat 2) with (512 * 512); lia|done|].
  rewrite <- E2 in *. apply (grows_weaken _ (on_path c v)) in Gr2; [|by intros ? ->]. pose proof (grows_trans _ _ _ _ _ _ _ _ Gr3 Gr2) as Gr2'.
  destruct r2 as [pd|]; [|exists G2, st2; split; [done|right]; destruct H2; eauto].
  destruct (next_table_grows G2 L st2 c 1 v2 pd (v1 mod 512) flags) as (r1 & G1 & st1 & -> & Gr1 & H1);
    [apply Gr2|done|lia|apply Z.mod_pos_bound; lia|rewrite <- E1; change (512 ^ Z.of_nat 1) with 512; lia|done|].
  rewrite <- E1 in *. apply (grows_weaken _ (on_path c v)) in Gr1; [|by intros ? ->]. pose proof (grows_trans _ _ _ _ _ _ _ _ Gr2' Gr1) as Gr1'.
  destruct r1 as [pt|]; [|exists G1, st1; split; [done|right]; destruct H1; eauto].
  exists G1, st1. split; [done|left]. by exists pt.
Qed.

(** ** Walks *)

(** A walk that takes the next table from the tree. *)
Lemma walk_path G L st c v (f : Z → Z → option Z) :
  tree G L st → G !! (c, 4%nat, 0) = Some c → 0 ≤ v < 2 ^ 35 →
  (∀ l k t i, G !! (c, Datatypes.S l, k) = Some t → (1 ≤ l)%nat → 0 ≤ i < 512 → (k * 512 + i) * 512 ^ Z.of_nat l < 2 ^ 35 →
     f t i = G !! (c, l, k * 512 + i)) →
  (pdpt ← f c (v / 512 / 512 / 512); pd ← f pdpt ((v / 512 / 512) mod 512); f pd ((v / 512) mod 512)) = G !! (c, 1%nat, v / 512).
Proof.
  intros T Hc Hv Hf. destruct (path_div v Hv) as (H3 & H2 & H1 & E2 & E1 & E0 & M0 & M1 & M2 & B1 & B2 & B3).
  set (v1 := v / 512) in *. set (v2 := v1 / 512) in *. set (v3 := v2 / 512) in *.
  rewrite (Hf 3%nat 0 c v3 Hc) by (done || lia). change (0 * 512 + v3) with v3.
  destruct (G !! (c, 3%nat, v3)) as [pdpt|] eqn:G3; cbn [mbind option_bind].
  - rewrite (Hf 2%nat v3 pdpt (v2 mod 512) G3); [|lia|lia|rewrite <- E2; change (512 ^ Z.of_nat 2) with (512 * 512); lia].
    rewrite <- E2. destruct (G !! (c, 2%nat, v2)) as [pd|] eqn:G2; cbn [mbind option_bind].
    + rewrite (Hf 1%nat v2 pd (v1 mod 512) G2); [|lia|lia|rewrite <- E1; change (512 ^ Z.of_nat 1) with 512; lia]. by rewrite <- E1.
    + rewrite E1. symmetry. by apply (tree_no_child G L st); [|lia..|].
  - rewrite E1. symmetry. apply (tree_no_child G L st); [done|lia|lia|]. rewrite E2. by apply (tree_no_child G L st); [|lia..|].
Qed.

Lemma get_pte_spec G L st c v va :
  tree G L st → G !! (c, 4%nat, 0) = Some c → v = va / 4096 → 0 ≤ va < 2 ^ 47 →
  vmm_get_pte c va st = (λ pt, pt + 8 * (v mod 512)) <$> G !! (c, 1%nat, v / 512).
Proof.
  intros T Hc Hv Hva. destruct (index_of va v Hv Hva) as (I1 & I2 & I3 & I4). unfold vmm_get_pte. rewrite I1, I2, I3, I4.
  assert (0 ≤ v < 2 ^ 35) by (subst v; split; [apply Z.div_pos; lia|apply Z.div_lt_upper_bound; lia]).
  rewrite <- (walk_path G L st c v (λ t i, table_at t i st)); [|done..|].
  - destruct (table_at c _ st) as [pdpt|]; [|done]. cbn [mbind option_bind]. destruct (table_at pdpt _ st) as [pd|]; [|done].
    cbn [mbind option_bind]. by destruct (table_at pd _ st).
  - intros l k t i Ht Hl Hi Hb. pose proof (tr_down _ _ _ T _ _ _ _ _ Ht Hl Hi Hb) as Hd. unfold table_at.
    destruct (G !! (c, l, k * 512 + i)) as [q|]; [|by rewrite Hd]. destruct Hd as (-> & -> & _). done.
Qed.

(** What the processor does with a user access. *)
Lemma mmu_spec G L st c v va w :
  tree G L st → G !! (c, 4%nat, 0) = Some c → v = va / 4096 → 0 ≤ va < 2 ^ 47 →
  mmu w c va st = e ← L !! (c, v); if negb w || pte_has e PTE_WRITABLE then Some (pte_addr e + va mod 4096) else None.
Proof.
  intros T Hc Hv Hva. destruct (index_of va v Hv Hva) as (I1 & I2 & I3 & I4). unfold mmu. rewrite I1, I2, I3, I4.
  assert (Hv35 : 0 ≤ v < 2 ^ 35) by (subst v; split; [apply Z.div_pos; lia|apply Z.div_lt_upper_bound; lia]).
  destruct (path_div v Hv35) as (_ & _ & _ & _ & _ & E0 & M0 & _).
  assert (Hw : (pdpt ← mmu_level w c (v / 512 / 512 / 512) st; pd ← mmu_level w pdpt ((v / 512 / 512) mod 512) st;
           mmu_level w pd ((v / 512) mod 512) st) = G !! (c, 1%nat, v / 512)).
  { apply (walk_path G L st c v (λ t i, mmu_level w t i st)); [done..|].
    intros l k t i Ht Hl Hi Hb. pose proof (tr_down _ _ _ T _ _ _ _ _ Ht Hl Hi Hb) as Hd. unfold mmu_level.
    destruct (G !! (c, l, k * 512 + i)) as [q|]; [|by rewrite Hd]. destruct Hd as (-> & -> & -> & -> & _). by rewrite orb_true_r. }
  transitivity (pt ← G !! (c, 1%nat, v / 512); page ← mmu_level w pt (v mod 512) st; Some (page + va mod 4096)).
  { rewrite <- Hw. destruct (mmu_level w c _ st) as [pdpt|]; [|done]. cbn [mbind option_bind]. destruct (mmu_level w pdpt _ st) as [pd|]; [|done].
    cbn [mbind option_bind]. by destruct (mmu_level w pd _ st). }
  destruct (G !! (c, 1%nat, v / 512)) as [pt|] eqn:G1; cbn [mbind option_bind].
  - pose proof (tr_leaf _ _ _ T _ _ _ _ G1 M0) as Hl. rewrite <- E0 in Hl. unfold mmu_level.
    destruct (L !! (c, v)) as [e|] eqn:EL; cbn [mbind option_bind]; [|by rewrite Hl].
    destruct (tr_map _ _ _ T _ _ _ EL) as (_ & _ & _ & Hp & Hu & _). rewrite Hl, Hp, Hu. cbn [andb]. by destruct (negb w || _).
  - pose proof (tree_no_leaf G L st c (v / 512) (v mod 512) T M0 G1) as Hn. rewrite <- E0 in Hn. by rewrite Hn.
Qed.
End tree.
