(* ===== verification/ProcMem.v ===== *)
(** * ProcMem: the memory system calls and the page fault handler

    The definitions of [syscall/sys_mm.c] and [ipc/shm.c]: the regions of a process,
    eager and demand-paged mappings, files in memory, shared memory, protection and
    page faults, over the page tables of [Vmm].

    A system call works on the current process [mm_proc]; [vfs_read] is the read
    of the file system and [yield] what other threads do while a long load yields.
    A descriptor is given as what the descriptor table holds for it: [None] for an
    empty slot, otherwise the node's index ([vfs_node_index]) and size.  [None] as a
    result is an access beyond the page allocator's tables. *)

From S2P Require Import Prelude KUtil AgentNs Bitmap Pmm Mem Bytes BlockStore Vmm.

Abbreviation MMAP_MAX_ENTRIES := 64%nat (only parsing).
Definition MMAP_MAX_PAGES : Z := 524288.
Definition USER_STACK_TOP : Z := 0x0000800000000000.
Definition MAX_SHM_REGIONS : Z := 16.

(** ** State *)

Record proc_mm := mk_proc_mm {
  pm_cr3 : Z;
  pm_mmap : list mmap_entry;
  pm_mmap_next : Z;
  pm_used_pages : Z;
  pm_rlimit : Z;
  pm_ns_id : Z
}.
#[export] Instance proc_mm_eta : Eta proc_mm := λ p,
  mk_proc_mm (pm_cr3 p) (pm_mmap p) (pm_mmap_next p) (pm_used_pages p) (pm_rlimit p) (pm_ns_id p).

Record shm_region := mk_shm { shm_key : Z; shm_phys_pages : list Z; shm_num_pages : Z; shm_ref_count : Z }.
#[export] Instance shm_region_eta : Eta shm_region := λ s,
  mk_shm (shm_key s) (shm_phys_pages s) (shm_num_pages s) (shm_ref_count s).
#[export] Instance shm_region_inhabited : Inhabited shm_region := populate (mk_shm (-1) (replicate 16 0) 0 0).

Record mm_st (A S : Type) := mk_mm_st { mm_proc : proc_mm; mm_shm : list shm_region; mm_vm : vm_st A S }.
Arguments mk_mm_st {A S} _ _ _.
Arguments mm_proc {A S} _.
Arguments mm_shm {A S} _.
Arguments mm_vm {A S} _.
#[export] Instance mm_st_eta A S : Eta (mm_st A S) := λ s, mk_mm_st (mm_proc s) (mm_shm s) (mm_vm s).

Definition shm_init (tbl : list shm_region) : list shm_region := (λ s, s <| shm_key := -1 |>) <$> tbl.

Section proc_mem.
Context {A S : Type} `{!Frames A} `{!BlockStore S}.
Context (vfs_read : Z → Z → Z → Z * list Z) (yield : vm_st A S → vm_st A S).
Implicit Types (v : vm_st A S) (st : mm_st A S).

Definition USER_RW : Z := Z.lor (Z.lor PTE_USER PTE_WRITABLE) PTE_NX.

Definition zero_bytes (page : Z) v : vm_st A S := v <| vm_mem := store_bytes (vm_mem v) page (replicate 4096 0) |>.
Definition mmap_slot (p : proc_mm) : option nat := find_idx (λ e, negb (me_used e)) (pm_mmap p).
Definition set_entry (i : nat) (f : mmap_entry → mmap_entry) (p : proc_mm) : proc_mm := p <| pm_mmap := alter f i (pm_mmap p) |>.

(** [proc->rlimit_mem_pages > 0 && proc->used_mem_pages + num_pages > proc->rlimit_mem_pages]. *)
Definition over_limit (num_pages : Z) (p : proc_mm) : bool :=
  (0 <? pm_rlimit p) && (pm_rlimit p <? u64 (pm_used_pages p + num_pages)).

(** ** Mappings *)

(** Allocate, clear and map the [n] pages from number [i] on; the address of the
    first one is kept. *)
Fixpoint mmap_pages (n : nat) (i virt cr3 first_phys : Z) v : option ((Z + Z) * vm_st A S) :=
  match n with
  | O => Some (inr first_phys, v)
  | Datatypes.S n' =>
      let '(page_phys, v) := alloc_page v in
      if page_phys =? 0 then Some (inl (- ENOMEM), v)
      else
        let first_phys := if i =? 0 then page_phys else first_phys in
        let '(r, v) := vmm_map_page_in cr3 (u64 (virt + i * 4096)) page_phys USER_RW (zero_bytes page_phys v) in
        if negb (r =? 0) then v ← free_page page_phys v; Some (inl (- ENOMEM), v)
        else mmap_pages n' (i + 1) virt cr3 first_phys v
  end.

Definition MAP_FIXED : Z := 0x10.

Definition sys_mmap (addr_hint length prot flags : Z) st : option (Z * mm_st A S) :=
  if length =? 0 then Some (- EINVAL, st)
  else
    let num_pages := if (length <=? MMAP_MAX_PAGES) && (flags =? 0) then length else u64 (length + 4096 - 1) / 4096 in
    if (num_pages =? 0) || (MMAP_MAX_PAGES <? num_pages) then Some (- EINVAL, st)
    else
      let p := mm_proc st in
      if pte_has flags MAP_FIXED && (prot =? 0) then Some (addr_hint, st)
      else
        let use_fixed := pte_has flags MAP_FIXED && negb (addr_hint =? 0) in
        if over_limit num_pages p then Some (- ENOMEM, st)
        else
          match mmap_slot p with
          | None => Some (-1, st)
          | Some slot =>
              let virt := if use_fixed then Z.land addr_hint (not64 4095) else pm_mmap_next p in
              '(r, v) ← mmap_pages (Z.to_nat num_pages) 0 virt (pm_cr3 p) 0 (mm_vm st);
              let st := st <| mm_vm := v |> in
              match r with
              | inl err => Some (err, st)
              | inr first_phys =>
                  let p := set_entry slot (λ e, e <| me_virt_addr := virt |> <| me_phys_addr := first_phys |>
                    <| me_num_pages := num_pages |> <| me_used := true |> <| me_shm_id := -1 |> <| me_vfs_node := -1 |>
                    <| me_file_offset := 0 |>) p in
                  let p := if use_fixed then p else p <| pm_mmap_next := u64 (virt + (num_pages + 1) * 4096) |> in
                  Some (virt, st <| mm_proc := p <| pm_used_pages := u64 (pm_used_pages p + num_pages) |> |>)
              end
          end.

(** Clear the present entries of [n] pages; [release] says what is done with the
    page of each entry, [absent] what is done for a page without an entry. *)
Fixpoint clear_pages (n : nat) (j virt cr3 : Z) (release absent : Z → vm_st A S → option (vm_st A S)) v : option (vm_st A S) :=
  match n with
  | O => Some v
  | Datatypes.S n' =>
      let present := pte ← vmm_get_pte cr3 (u64 (virt + j * 4096)) v;
                     if pte_has (read_pte pte v) PTE_PRESENT then Some pte else None in
      v ← match present with
          | Some pte => let phys := pte_addr (read_pte pte v) in release phys (write_pte pte 0 v)
          | None => absent j v
          end;
      clear_pages n' (j + 1) virt cr3 release absent v
  end.

(** Drop one attachment of a region; the last one frees its pages. *)
Fixpoint free_phys_pages (l : list Z) v : option (list Z * vm_st A S) :=
  match l with
  | [] => Some ([], v)
  | p :: l' =>
      v ← (if p =? 0 then Some v else free_page p v);
      '(l', v) ← free_phys_pages l' v; Some (0 :: l', v)
  end.

Definition shm_detach (sid : Z) st : option (mm_st A S) :=
  let s := mm_shm st !!! Z.to_nat sid in
  if (sid <? MAX_SHM_REGIONS) && (0 <? shm_ref_count s) then
    let s := s <| shm_ref_count := shm_ref_count s - 1 |> in
    if shm_ref_count s =? 0 then
      let n := Z.to_nat (shm_num_pages s) in
      '(freed, v) ← free_phys_pages (take n (shm_phys_pages s)) (mm_vm st);
      let s := s <| shm_phys_pages := freed ++ drop n (shm_phys_pages s) |> <| shm_key := -1 |> <| shm_num_pages := 0 |> in
      Some (st <| mm_shm := <[Z.to_nat sid := s]> (mm_shm st) |> <| mm_vm := v |>)
    else Some (st <| mm_shm := <[Z.to_nat sid := s]> (mm_shm st) |>)
  else Some st.

Definition sys_munmap (virt_addr : Z) st : option (Z * mm_st A S) :=
  let p := mm_proc st in
  match find_idx (λ e, me_used e && (me_virt_addr e =? virt_addr)) (pm_mmap p) with
  | None => Some (-1, st)
  | Some i =>
      e ← pm_mmap p !! i;
      let npages := Z.to_nat (me_num_pages e) in
      st ← (if negb (me_shm_id e <? 0) then
              v ← clear_pages npages 0 virt_addr (pm_cr3 p) (λ _ v, Some v) (λ _ v, Some v) (mm_vm st);
              shm_detach (me_shm_id e) (st <| mm_vm := v |>)
            else
              let phys := me_phys_addr e in
              v ← clear_pages npages 0 virt_addr (pm_cr3 p) free_page
                    (λ j v, if phys =? 0 then Some v else free_page (u64 (phys + j * 4096)) v) (mm_vm st);
              Some (st <| mm_vm := v |>));
      let p := set_entry i (λ e, e <| me_used := false |> <| me_shm_id := -1 |>) p in
      let p := if me_num_pages e <=? pm_used_pages p then p <| pm_used_pages := pm_used_pages p - me_num_pages e |> else p in
      Some (0, st <| mm_proc := p |>)
  end.

(** ** Files in memory *)

Definition FMMAP_BATCH_PAGES : Z := 64.

(** Map the [n] pages of a batch from number [b] on; on failure the rest of the
    batch is freed. *)
Fixpoint map_batch (n : nat) (b virt cr3 batch_phys : Z) v : option (bool * vm_st A S) :=
  match n with
  | O => Some (true, v)
  | Datatypes.S n' =>
      let '(r, v) := vmm_map_page_in cr3 (u64 (virt + b * 4096)) (batch_phys + b * 4096) USER_RW v in
      if negb (r =? 0) then
        v ← foldM (λ v f, free_page (batch_phys + f * 4096) v) (seqZ b (Z.of_nat n)) v; Some (false, v)
      else map_batch n' (b + 1) virt cr3 batch_phys v
  end.

(** The load loop; [fuel] rounds.  The result says whether all pages were mapped,
    and how many. *)
Fixpoint fmmap_loop (fuel : nat) (i num_pages file_size node_idx virt cr3 : Z) v : option (bool * Z * vm_st A S) :=
  match fuel with
  | O => None
  | Datatypes.S fuel' =>
      if num_pages <=? i then Some (true, i, v)
      else
        let v := if (0 <? i) && (i mod (FMMAP_BATCH_PAGES * 16) =? 0) then yield v else v in
        let batch := Z.min FMMAP_BATCH_PAGES (num_pages - i) in
        let '(batch, (batch_phys, a)) :=
          match pg_alloc_run (Z.to_nat batch) (vm_fr v) with
          | (0, a) => (1, pg_alloc a)
          | r => (batch, r)
          end in
        let v := v <| vm_fr := a |> in
        if batch_phys =? 0 then Some (false, i, v)
        else
          let offset := i * 4096 in
          let read_len := Z.min (batch * 4096) (file_size - offset) in
          let '(got, data) := vfs_read node_idx offset read_len in
          let got := if got <? 0 then 0 else got in
          let bytes := take (Z.to_nat got) data ++ replicate (Z.to_nat (batch * 4096 - got)) 0 in
          let v := v <| vm_mem := store_bytes (vm_mem v) batch_phys bytes |> in
          r ← map_batch (Z.to_nat batch) 0 (u64 (virt + i * 4096)) cr3 batch_phys v;
          let '(ok, v) := r in
          if (ok : bool) then fmmap_loop fuel' (i + batch) num_pages file_size node_idx virt cr3 v else Some (false, i, v)
  end.

Definition MAX_FDS : Z := 64.

Definition sys_fmmap (fd : Z) (entry : option (Z * Z)) st : option (Z * mm_st A S) :=
  let p := mm_proc st in
  match (if MAX_FDS <=? fd then None else entry) with
  | None => Some (-1, st)
  | Some (node_idx, file_size) =>
      if file_size =? 0 then Some (-1, st)
      else
        let num_pages := u64 (file_size + 4096 - 1) / 4096 in
        if MMAP_MAX_PAGES <? num_pages then Some (-1, st)
        else
          match mmap_slot p with
          | None => Some (-1, st)
          | Some slot =>
              if node_idx <? 0 then Some (-1, st)
              else
                let virt := pm_mmap_next p in
                r ← fmmap_loop (Datatypes.S (Z.to_nat num_pages)) 0 num_pages file_size node_idx virt (pm_cr3 p) (mm_vm st);
                let '(ok, i, v) := r in
                if (ok : bool) then
                  let p := set_entry slot (λ e, e <| me_virt_addr := virt |> <| me_phys_addr := 0 |>
                    <| me_num_pages := num_pages |> <| me_used := true |> <| me_shm_id := -1 |> <| me_vfs_node := -1 |>
                    <| me_file_offset := 0 |>) p in
                  Some (virt, st <| mm_vm := v |> <| mm_proc := p <| pm_mmap_next := u64 (virt + (num_pages + 1) * 4096) |> |>)
                else
                  v ← clear_pages (Z.to_nat i) 0 virt (pm_cr3 p) free_page (λ _ v, Some v) v;
                  Some (-1, st <| mm_vm := v |>)
          end
  end.

(** A new region for the slot; [phys], [demand] and the file as given. *)
Definition new_region (virt phys num_pages : Z) (demand : bool) (node offset : Z) (e : mmap_entry) : mmap_entry :=
  e <| me_virt_addr := virt |> <| me_phys_addr := phys |> <| me_num_pages := num_pages |> <| me_used := true |>
    <| me_shm_id := -1 |> <| me_demand := demand |> <| me_vfs_node := node |> <| me_file_offset := offset |>.

Definition sys_mmap_file (fd : Z) (entry : option (Z * Z)) (offset num_pages : Z) st : Z * mm_st A S :=
  let p := mm_proc st in
  if (MAX_FDS <=? fd) || (num_pages =? 0) || (MMAP_MAX_PAGES <? num_pages) then (-1, st)
  else
    match entry with
    | None => (-1, st)
    | Some (node_idx, _) =>
        if node_idx <? 0 then (-1, st)
        else
          match mmap_slot p with
          | None => (-12, st)
          | Some slot =>
              let virt := pm_mmap_next p in
              (virt, st <| mm_proc := (set_entry slot (new_region virt 0 num_pages true node_idx offset) p)
                                        <| pm_mmap_next := u64 (virt + (num_pages + 1) * 4096) |> |>)
          end
    end.

(** ** Shared memory *)

(** Under the lock: the region of the key, or a slot that is marked as taken. *)
Definition shmget_reserve (key num_pages : Z) st : (Z + nat) * mm_st A S :=
  match find_idx (λ s, shm_key s =? i32 key) (mm_shm st) with
  | Some i => (inl (Z.of_nat i), st)
  | None =>
      match find_idx (λ s, shm_key s =? -1) (mm_shm st) with
      | None => (inl (-1), st)
      | Some slot =>
          (inr slot, st <| mm_shm := alter (λ s, s <| shm_key := i32 key |> <| shm_num_pages := num_pages |>
                                                   <| shm_ref_count := 0 |>) slot (mm_shm st) |>)
      end
  end.

(** Without the lock: the pages. *)
Fixpoint shmget_fill (n : nat) (i slot : nat) st : option (Z * mm_st A S) :=
  match n with
  | O => Some (Z.of_nat slot, st)
  | Datatypes.S n' =>
      let '(pg, v) := alloc_page (mm_vm st) in
      if pg =? 0 then
        v ← foldM (λ v j, free_page (shm_phys_pages (mm_shm st !!! slot) !!! Z.to_nat j) v) (seqZ 0 (Z.of_nat i)) v;
        Some (-1, st <| mm_vm := v |> <| mm_shm := alter (λ s, s <| shm_key := -1 |>) slot (mm_shm st) |>)
      else
        shmget_fill n' (Datatypes.S i) slot
          (st <| mm_vm := zero_bytes pg v |>
              <| mm_shm := alter (λ s, s <| shm_phys_pages := <[i := pg]> (shm_phys_pages s) |>) slot (mm_shm st) |>)
  end.

Definition sys_shmget (key num_pages : Z) st : option (Z * mm_st A S) :=
  if (num_pages =? 0) || (16 <? num_pages) then Some (-1, st)
  else
    match shmget_reserve key num_pages st with
    | (inl r, st) => Some (r, st)
    | (inr slot, st) => shmget_fill (Z.to_nat num_pages) 0 slot st
    end.

(** Map the pages of a region; each mapping is a reference. *)
Fixpoint shmat_pages (pages : list Z) (i virt cr3 : Z) v : bool * vm_st A S :=
  match pages with
  | [] => (true, v)
  | page_phys :: pages' =>
      let '(r, v) := vmm_map_page_in cr3 (u64 (virt + i * 4096)) page_phys USER_RW v in
      if negb (r =? 0) then (false, v) else shmat_pages pages' (i + 1) virt cr3 (ref_inc page_phys v)
  end.

Definition sys_shmat (shmid : Z) st : Z * mm_st A S :=
  let s := mm_shm st !!! Z.to_nat shmid in
  if (MAX_SHM_REGIONS <=? shmid) || (shm_key s =? -1) then (0, st)
  else
    let npages := shm_num_pages s in
    let pages := take (Z.to_nat npages) (shm_phys_pages s) in
    let p := mm_proc st in
    match mmap_slot p with
    | None => (0, st)
    | Some slot =>
        let virt := pm_mmap_next p in
        let '(ok, v) := shmat_pages pages 0 virt (pm_cr3 p) (mm_vm st) in
        let st := st <| mm_vm := v |> in
        if negb ok then (0, st)
        else
          let p := set_entry slot (λ e, e <| me_virt_addr := virt |> <| me_phys_addr := pages !!! O |>
            <| me_num_pages := npages |> <| me_used := true |> <| me_shm_id := shmid |> <| me_vfs_node := -1 |>
            <| me_file_offset := 0 |>) p in
          (virt, st <| mm_proc := p <| pm_mmap_next := u64 (virt + u32 (npages + 1) * 4096) |> |>
                    <| mm_shm := alter (λ s, s <| shm_ref_count := u32 (shm_ref_count s + 1) |>) (Z.to_nat shmid) (mm_shm st) |>)
    end.

Definition sys_shmdt (virt_addr : Z) st : option (Z * mm_st A S) :=
  let p := mm_proc st in
  match find_idx (λ e, me_used e && (me_virt_addr e =? virt_addr) && negb (me_shm_id e <? 0)) (pm_mmap p) with
  | None => Some (-1, st)
  | Some i =>
      e ← pm_mmap p !! i;
      st ← shm_detach (me_shm_id e) st;
      v ← clear_pages (Z.to_nat (me_num_pages e)) 0 virt_addr (pm_cr3 p) free_page (λ _ v, Some v) (mm_vm st);
      Some (0, st <| mm_vm := v |> <| mm_proc := set_entry i (λ e, e <| me_used := false |> <| me_shm_id := -1 |>) p |>)
  end.

(** ** Eager, demand-paged and guarded mappings *)

(** Clear and map the [n] pages of a contiguous allocation from number [i] on. *)
Fixpoint map_run (n : nat) (i virt cr3 phys : Z) v : bool * vm_st A S :=
  match n with
  | O => (true, v)
  | Datatypes.S n' =>
      let page := phys + i * 4096 in
      let '(r, v) := vmm_map_page_in cr3 (u64 (virt + i * 4096)) page USER_RW (zero_bytes page v) in
      if negb (r =? 0) then (false, v) else map_run n' (i + 1) virt cr3 phys v
  end.

Definition alloc_run (n : Z) v : Z * vm_st A S :=
  let '(phys, a) := pg_alloc_run (Z.to_nat n) (vm_fr v) in (phys, v <| vm_fr := a |>).

Definition add_region (slot : nat) (f : mmap_entry → mmap_entry) (virt num_pages : Z) (p : proc_mm) : proc_mm :=
  let p := (set_entry slot f p) <| pm_mmap_next := u64 (virt + (num_pages + 1) * 4096) |> in
  p <| pm_used_pages := u64 (pm_used_pages p + num_pages) |>.

Definition sys_mmap2 (num_pages mmap_flags : Z) (ns : ns_table) st : Z * mm_st A S :=
  if (num_pages =? 0) || (MMAP_MAX_PAGES <? num_pages) then (- EINVAL, st)
  else
    let p := mm_proc st in
    if over_limit num_pages p then (- ENOMEM, st)
    else if agent_ns_quota_check (pm_ns_id p) NS_QUOTA_MEM_PAGES num_pages ns =? 0 then (- ENOMEM, st)
    else
      match mmap_slot p with
      | None => (- ENOMEM, st)
      | Some slot =>
          let virt := pm_mmap_next p in
          if pte_has mmap_flags 1 then
            (virt, st <| mm_proc := add_region slot (new_region virt 0 num_pages true (-1) 0) virt num_pages p |>)
          else
            let '(phys, v) := alloc_run num_pages (mm_vm st) in
            if phys =? 0 then (- ENOMEM, st <| mm_vm := v |>)
            else
              let '(ok, v) := map_run (Z.to_nat num_pages) 0 virt (pm_cr3 p) phys v in
              let st := st <| mm_vm := v |> in
              if negb ok then (- ENOMEM, st)
              else (virt, st <| mm_proc := add_region slot (new_region virt phys num_pages false (-1) 0) virt num_pages p |>)
      end.

Definition sys_mmap_guard (num_pages : Z) st : option (Z * mm_st A S) :=
  if (num_pages =? 0) || (MMAP_MAX_PAGES <? num_pages) then Some (- EINVAL, st)
  else
    let p := mm_proc st in
    if over_limit num_pages p then Some (- ENOMEM, st)
    else
      match mmap_slot p with
      | None => Some (- ENOMEM, st)
      | Some slot =>
          let '(phys, v) := alloc_run num_pages (mm_vm st) in
          if phys =? 0 then Some (- ENOMEM, st <| mm_vm := v |>)
          else
            let virt := pm_mmap_next p in
            let '(ok, v) := map_run (Z.to_nat num_pages) 0 virt (pm_cr3 p) phys v in
            if negb ok then
              v ← foldM (λ v k, free_page (phys + k * 4096) v) (seqZ 0 num_pages) v;
              Some (- ENOMEM, st <| mm_vm := v |>)
            else
              Some (virt, st <| mm_vm := v |> <| mm_proc := add_region slot (new_region virt phys num_pages false (-1) 0) virt num_pages p |>)
      end.

(** ** Protection *)

Definition prot_flags (prot : Z) : Z :=
  if prot =? 0 then PTE_USER
  else
    let f := Z.lor PTE_PRESENT PTE_USER in
    let f := if pte_has prot 2 then Z.lor f PTE_WRITABLE else f in
    if negb (pte_has prot 4) then Z.lor f PTE_NX else f.

(** The new entry of a mapped page. *)
Definition protect_pte (new_flags old : Z) : Z :=
  let cow := Z.land old PTE_COW in
  let f := Z.lor new_flags cow in
  let f := if negb (cow =? 0) then
             if pte_has f PTE_WRITABLE then Z.lor (Z.land f (not64 PTE_WRITABLE)) PTE_WAS_WRITABLE
             else Z.land f (not64 PTE_WAS_WRITABLE)
           else f in
  Z.lor (pte_addr old) f.

Definition protect_page (new_flags cr3 va : Z) v : vm_st A S :=
  match vmm_get_pte cr3 va v with
  | None => v
  | Some pte =>
      let old := read_pte pte v in
      if negb (pte_has old PTE_PRESENT) && negb (pte_has old PTE_SWAP) then v
      else write_pte pte (protect_pte new_flags old) v
  end.

Definition sys_mprotect (virt_addr length prot : Z) st : Z * mm_st A S :=
  if negb (Z.land virt_addr 0xFFF =? 0) then (- EINVAL, st)
  else if length =? 0 then (- EINVAL, st)
  else
    let p := mm_proc st in
    let num_pages := u64 (length + 4096 - 1) / 4096 in
    let range_end := u64 (virt_addr + num_pages * 4096) in
    if negb (existsb (λ e, me_used e && (me_virt_addr e <=? virt_addr)
                           && (range_end <=? u64 (me_virt_addr e + me_num_pages e * 4096))) (pm_mmap p))
    then (- EINVAL, st)
    else
      (0, st <| mm_vm := foldl (λ v pg, protect_page (prot_flags prot) (pm_cr3 p) (u64 (virt_addr + pg * 4096)) v)
                           (mm_vm st) (seqZ 0 num_pages) |>).

(** ** Page faults *)

(** A write to a present page that is not writable: [true] if the page could be
    made writable. *)
Definition cow_fault (cr3 fault_addr : Z) v : bool * vm_st A S :=
  match vmm_get_pte cr3 fault_addr v with
  | None => (false, v)
  | Some pte =>
      let e := read_pte pte v in
      if negb (pte_has e PTE_COW) then (false, v)
      else if negb (pte_has e PTE_WAS_WRITABLE) then (false, v)
      else
        let old_phys := pte_addr e in
        let clean := Z.land (pte_flags e) (not64 (Z.lor PTE_COW PTE_WAS_WRITABLE)) in
        let flags := Z.lor (Z.lor clean PTE_WRITABLE) PTE_PRESENT in
        if pg_ref_get old_phys (vm_fr v) =? 1 then (true, write_pte pte (Z.lor old_phys flags) v)
        else
          let '(new_phys, v) := alloc_page v in
          if new_phys =? 0 then (false, v)
          else
            let v := v <| vm_mem := copy_loop 4096 new_phys old_phys (vm_mem v) |> in
            let v := write_pte pte (Z.lor new_phys flags) v in
            (true, v <| vm_fr := (pg_ref_dec old_phys (vm_fr v)).2 |>)
  end.

(** Fault on a page of the region [me]: [true] if the page was mapped. *)
Definition region_fault (cr3 page_addr : Z) (me : mmap_entry) v : option (option bool * vm_st A S) :=
  if negb (me_vfs_node me <? 0) then
    let '(new_phys, v) := alloc_page v in
    if new_phys =? 0 then Some (None, v)
    else
      let '(got, data) := vfs_read (me_vfs_node me) (u64 (me_file_offset me + (page_addr - me_virt_addr me))) 4096 in
      let got := if got <? 0 then 0 else got in
      let v := v <| vm_mem := store_bytes (vm_mem v) new_phys (take (Z.to_nat got) data ++ replicate (Z.to_nat (4096 - got)) 0) |> in
      let '(r, v) := vmm_map_page_in cr3 page_addr new_phys (Z.lor PTE_USER PTE_NX) v in
      if r =? 0 then Some (Some true, v) else v ← free_page new_phys v; Some (Some false, v)
  else
    let '(r, v) := demand_page_fault cr3 page_addr v in Some (Some (r =? 0), v).

(** The regions in order; a region whose page could not be mapped is passed over,
    a file page without memory kills the process. *)
Fixpoint fault_regions (cr3 page_addr : Z) (regions : list mmap_entry) v : option (bool * vm_st A S) :=
  match regions with
  | [] => Some (false, v)
  | me :: regions' =>
      if me_used me && me_demand me && (me_virt_addr me <=? page_addr)
         && (page_addr <? u64 (me_virt_addr me + me_num_pages me * 4096))
      then
        '(r, v) ← region_fault cr3 page_addr me v;
        match r with
        | None => Some (false, v)
        | Some true => Some (true, v)
        | Some false => fault_regions cr3 page_addr regions' v
        end
      else fault_regions cr3 page_addr regions' v
  end.

(** What the handler returns to the trap: not its business, fixed, or the process
    was terminated. *)
Inductive fault_out := FaultKernel | FaultFixed | FaultKilled.

Definition fault_result (r : bool * vm_st A S) st : fault_out * mm_st A S :=
  (if r.1 then FaultFixed else FaultKilled, st <| mm_vm := r.2 |>).

Definition page_fault_handler (fault_addr err_code : Z) st : option (fault_out * mm_st A S) :=
  let p := mm_proc st in
  if negb (pte_has err_code 4) then Some (FaultKernel, st)
  else if pte_has err_code 1 then
    if pte_has err_code 2 then Some (fault_result (cow_fault (pm_cr3 p) fault_addr (mm_vm st)) st) else Some (FaultKilled, st)
  else
    let swapped := match vmm_get_pte (pm_cr3 p) fault_addr (mm_vm st) with
                   | Some pte => swap_is_entry (read_pte pte (mm_vm st))
                   | None => false
                   end in
    let '(done, v) := if swapped then let '(r, v) := swap_in (pm_cr3 p) fault_addr (mm_vm st) in (r =? 0, v)
                      else (false, mm_vm st) in
    if (done : bool) then Some (FaultFixed, st <| mm_vm := v |>)
    else
      r ← fault_regions (pm_cr3 p) (Z.land fault_addr (not64 0xFFF)) (pm_mmap p) v; Some (fault_result r st).
End proc_mem.
