(* ===== verification/CowMem.v ===== *)
(** * CowMem: address spaces are private memories

    The abstract machine has one private memory per address space: a finite map
    from page numbers to bytes with a permission.  A fork copies the map, a store
    changes one byte of one space, an exit removes a space.  The page tables with
    copy-on-write pages, the reference counts and the fault handler implement it:
    no store is ever seen in another space, and what a fork shares stays intact
    until the last space that uses it is gone. *)

From S2P Require Import Prelude KUtil AgentNs Bitmap Pmm Mem Bytes BlockStore Vmm VmmTree ProcMem.

Section cow.
Context {A S : Type} `{!Frames A, !FramesOk A} `{!BlockStore S}.
Implicit Types st : vm_st A S.
Implicit Types G : gmap (Z * nat * Z) Z.
Implicit Types L : gmap (Z * Z) Z.

(** ** The invariant *)

(** A writable page is mapped once. *)
Definition excl L : Prop :=
  ∀ kv e, L !! kv = Some e → pte_has e PTE_WRITABLE = true → maps L (pte_addr e) = 1%nat ∧ pte_has e PTE_COW = false.

(** The program may write the page, now or after a fault. *)
Definition user_w (e : Z) : bool := pte_has e PTE_WRITABLE || (pte_has e PTE_COW && pte_has e PTE_WAS_WRITABLE).

(** What a program sees of an entry. *)
Definition page_view st (e : Z) : bool * list Z := (user_w e, page_data st (pte_addr e)).

Lemma maps_once L kv kv' e e' :
  maps L (pte_addr e) = 1%nat → L !! kv = Some e → L !! kv' = Some e' → pte_addr e' = pte_addr e → kv' = kv.
Proof.
  intros Hm H H' Ha. destruct (decide (kv' = kv)) as [|Hne]; [done|].
  rewrite (maps_delete L kv e _ H), decide_True in Hm by done.
  assert (maps (delete kv L) (pte_addr e) = 0%nat) as Hz by lia. destruct kv' as [c' v'].
  assert (delete kv L !! (c', v') = Some e') as Hd by (by rewrite lookup_delete_ne).
  pose proof (maps_pos _ _ _ _ Hd). rewrite Ha in *. lia.
Qed.

(** A page in use by a mapping is not a table. *)
Lemma page_at_page p : page_ok p → ∀ o, 0 ≤ o < 4096 → page_at (p + o) = p.
Proof. intros [_ Hp] o Ho. apply page_at_in; [done|lia]. Qed.

(** ** Stores into mapped pages *)

Lemma tree_data G L st m :
  tree G L st → (∀ a n, G !! n = Some (page_at a) → byte_at m a = byte_at (vm_mem st) a) → tree G L (st <| vm_mem := m |>).
Proof.
  intros T Hm. assert (Hw : ∀ n t j, G !! n = Some t → 0 ≤ j < 512 → pt_get t j (st <| vm_mem := m |>) = pt_get t j st).
  { intros n t j Ht Hj. destruct (tr_page _ _ _ T _ _ Ht) as [Hp _]. apply pt_get_same; [apply Hp|done|].
    intros a Ha. cbn. apply (Hm a n). by rewrite Ha. }
  split.
  - apply (tr_wf _ _ _ T).
  - apply (tr_page _ _ _ T).
  - apply (tr_inj _ _ _ T).
  - apply (tr_node _ _ _ T).
  - intros c l k p i H Hl Hi Hb. rewrite (Hw _ _ _ H Hi). by apply (tr_down _ _ _ T).
  - intros c k p i H Hi. rewrite (Hw _ _ _ H Hi). by apply (tr_leaf _ _ _ T).
  - apply (tr_map _ _ _ T).
Qed.

(** ** The fault handler *)

(** Where the entry of a mapped page is. *)
Lemma get_pte_mapped G L st c va v e :
  tree G L st → G !! (c, 4%nat, 0) = Some c → v = va / 4096 → 0 ≤ va < 2 ^ 47 → L !! (c, v) = Some e →
  ∃ pt, G !! (c, 1%nat, v / 512) = Some pt ∧ vmm_get_pte c va st = Some (pt + 8 * (v mod 512)) ∧
    v = v / 512 * 512 + v mod 512 ∧ 0 ≤ v mod 512 < 512 ∧ pt_get pt (v mod 512) st = e.
Proof.
  intros T Hc Hv Hva HL. destruct (tr_map _ _ _ T _ _ _ HL) as (Hv35 & [pt Hpt] & _).
  destruct (path_div v Hv35) as (_ & _ & _ & _ & _ & E0 & M0 & _). exists pt. split_and!; [done| |done|lia|lia|].
  - by rewrite (get_pte_spec G L st c v va T Hc Hv Hva), Hpt.
  - pose proof (tr_leaf _ _ _ T _ _ _ _ Hpt M0) as Hl. by rewrite <- E0, HL in Hl.
Qed.

Lemma get_pte_unmapped G L st c va v :
  tree G L st → G !! (c, 4%nat, 0) = Some c → v = va / 4096 → 0 ≤ va < 2 ^ 47 → L !! (c, v) = None →
  vmm_get_pte c va st = None ∨ ∃ p, vmm_get_pte c va st = Some p ∧ pte_has (read_pte p st) PTE_PRESENT = false.
Proof.
  intros T Hc Hv Hva HL. assert (0 ≤ v < 2 ^ 35) as Hv35 by (subst v; split; [apply Z.div_pos; lia|apply Z.div_lt_upper_bound; lia]).
  destruct (path_div v Hv35) as (_ & _ & _ & _ & _ & E0 & M0 & _). rewrite (get_pte_spec G L st c v va T Hc Hv Hva).
  destruct (G !! (c, 1%nat, v / 512)) as [pt|] eqn:Hpt; [right|by left]. eexists. split; [done|].
  pose proof (tr_leaf _ _ _ T _ _ _ _ Hpt M0) as Hl. by rewrite <- E0, HL in Hl.
Qed.

Lemma maps_fresh G L st p : tree G L st → page_ok p → refs st p = 0 → maps L p = 0%nat ∧ ∀ n, G !! n ≠ Some p.
Proof.
  intros T Hp H0. split.
  - destruct (maps L p) as [|k] eqn:E; [done|]. unfold maps in E. destruct (map_choose (filter (λ kv : Z * Z * Z, pte_addr kv.2 = p) L)) as ([c v] & e & He).
    { intros Ee. rewrite Ee, map_size_empty in E. done. }
    apply map_lookup_filter_Some in He as [He Ha]. cbn in Ha. pose proof (tree_leaf_refs _ _ _ _ _ _ T He). rewrite Ha in *. lia.
  - intros n Hn. apply (tr_page _ _ _ T) in Hn as [_ Hn]. lia.
Qed.

Lemma page_data_set st t i e f :
  page_ok t → 0 ≤ i < 512 → f mod 4096 = 0 → f ≠ t → page_data (pt_set t i e st) f = page_data st f.
Proof. intros Ht Hi Hf Hne. apply page_data_same; [done|]. intros a <-. apply pt_set_byte; [apply Ht|done|done]. Qed.

(** The entry of [kv] is replaced by one for the same page. *)
Lemma maps_same L kv e e' f : L !! kv = Some e → pte_addr e' = pte_addr e → maps (<[kv := e']> L) f = maps L f.
Proof. intros H Ha. pose proof (maps_replace L kv e e' f H) as Hm. rewrite Ha in Hm. lia. Qed.

(** The entry of a mapped page is replaced by another one for the same page. *)
Lemma tree_update G L st c v pt e e' :
  tree G L st → L !! (c, v) = Some e → G !! (c, 1%nat, v / 512) = Some pt → word64 e' → pte_addr e' = pte_addr e →
  pte_has e' PTE_PRESENT = true → pte_has e' PTE_USER = true →
  tree G (<[(c, v) := e']> L) (pt_set pt (v mod 512) e' st) ∧
  ∀ f, page_ok f → (∀ n, G !! n ≠ Some f) → page_data (pt_set pt (v mod 512) e' st) f = page_data st f.
Proof.
  intros T HL Hpt Hw64 Ha Hp Hu. destruct (tr_map _ _ _ T _ _ _ HL) as (Hv35 & _ & Hpe & _ & _ & Hm & Hn).
  destruct (path_div v Hv35) as (_ & _ & _ & _ & _ & E0 & M0 & _). destruct (tr_page _ _ _ T _ _ Hpt) as [Hptp _].
  assert (Hms : ∀ f, maps (<[(c, v) := e']> L) f = maps L f) by (intros f; by apply (maps_same L (c, v) e)).
  split.
  - apply (tree_set_leaf G L _ st _ c (v / 512) pt (v mod 512)); [done|done|done|..].
    + intros kv Hne. rewrite <- E0 in Hne. by rewrite lookup_insert_ne.
    + rewrite <- E0, lookup_insert_eq, Ha, pt_get_set_eq by done. done.
    + intros n t' j Ht' Hj Hne. destruct (tr_page _ _ _ T _ _ Ht') as [Htp _].
      apply pt_get_set_ne; [apply Hptp|apply Htp|done|done|]. intros [= <- <-]. done.
    + apply (tr_wf _ _ _ T).
    + done.
    + intros kv e2 [[<- <-]|[_ H]]%lookup_insert_Some; rewrite Hms.
      * rewrite Ha. done.
      * destruct kv as [c2 v2]. by destruct (tr_map _ _ _ T _ _ _ H) as (_ & _ & _ & _ & _ & ? & _).
  - intros f Hf Hnf. apply page_data_set; [done|done|apply Hf|]. intros ->. by apply (Hnf (c, 1%nat, v / 512)).
Qed.

Section fault.
Context G L st (c va v e : Z).
Context (T : tree G L st) (Hx : excl L) (Hc : G !! (c, 4%nat, 0) = Some c) (Hv : v = va / 4096) (Hva : 0 ≤ va < 2 ^ 47)
  (HL : L !! (c, v) = Some e) (Hcow : pte_has e PTE_COW = true) (Hww : pte_has e PTE_WAS_WRITABLE = true).

(** The entry after the fault, for the page [p]. *)
Definition fixed_pte (p : Z) : Z :=
  Z.lor p (Z.lor (Z.lor (Z.land (pte_flags e) (not64 (Z.lor PTE_COW PTE_WAS_WRITABLE))) PTE_WRITABLE) PTE_PRESENT).

Lemma fixed_pte_ok p :
  page_ok p → word64 (fixed_pte p) ∧ pte_addr (fixed_pte p) = p ∧ pte_has (fixed_pte p) PTE_PRESENT = true ∧
  pte_has (fixed_pte p) PTE_WRITABLE = true ∧ pte_has (fixed_pte p) PTE_COW = false ∧ pte_has (fixed_pte p) PTE_USER = true ∧
  pte_has (fixed_pte p) PTE_WAS_WRITABLE = false.
Proof.
  intros Hp. destruct (tr_map _ _ _ T _ _ _ HL) as (_ & _ & _ & _ & Hu & _). unfold fixed_pte.
  split; [word64_tac|]. split_and!; pte_simp; done.
Qed.

(** The fault is fixed by the entry [fixed_pte p]: the space sees the same bytes,
    as do all others. *)
Definition fault_fixed (p : Z) st' : Prop :=
  tree G (<[(c, v) := fixed_pte p]> L) st' ∧ excl (<[(c, v) := fixed_pte p]> L) ∧ page_ok p ∧
  page_data st' p = page_data st (pte_addr e) ∧ same_rest st st' ∧
  (∀ kv e2, kv ≠ (c, v) → L !! kv = Some e2 → page_data st' (pte_addr e2) = page_data st (pte_addr e2)).

Lemma cow_fault_last pt :
  G !! (c, 1%nat, v / 512) = Some pt → refs st (pte_addr e) = 1 →
  fault_fixed (pte_addr e) (pt_set pt (v mod 512) (fixed_pte (pte_addr e)) st).
Proof.
  intros Hpt Hr1. destruct (tr_map _ _ _ T _ _ _ HL) as (_ & _ & Hpe & _ & _ & Hm & Hn).
  destruct (fixed_pte_ok _ Hpe) as (Hw64 & Ha & Hp & Hw & Hcw & Hu & _). pose proof (maps_pos L c v e HL) as Hmp.
  destruct (tree_update G L st c v pt e (fixed_pte (pte_addr e))) as [T' Hdata]; [done..|].
  split_and!; [done| |apply Hpe..|by apply Hdata|done|].
  - intros kv e2 [[<- <-]|[_ H]]%lookup_insert_Some Hw2; rewrite (maps_same L (c, v) e) by done.
    + rewrite Ha. split; [lia|done].
    + by apply (Hx kv).
  - intros [c2 v2] e2 _ H. destruct (tr_map _ _ _ T _ _ _ H) as (_ & _ & Hp2 & _ & _ & _ & Hn2). by apply Hdata.
Qed.

Lemma pages_apart p q : page_ok p → page_ok q → p ≠ q → p + 4096 ≤ q ∨ q + 4096 ≤ p.
Proof. intros [_ Hp] [_ Hq] Hne. apply Z.div_exact in Hp, Hq; lia. Qed.

Lemma pt_get_fr t i st1 a : pt_get t i (st1 <| vm_fr := a |>) = pt_get t i st1.
Proof. done. Qed.
Lemma vm_mem_fr st1 a : vm_mem (st1 <| vm_fr := a |>) = vm_mem st1.
Proof. done. Qed.
Lemma page_data_fr st1 a f : page_data (st1 <| vm_fr := a |>) f = page_data st1 f.
Proof. done. Qed.

(** The copy of a page. *)
Definition copy_page (p : Z) st : vm_st A S := st <| vm_mem := copy_loop 4096 p (pte_addr e) (vm_mem st) |>.

Lemma copy_page_byte p st1 a : page_ok p → page_at a ≠ p → byte_at (vm_mem (copy_page p st1)) a = byte_at (vm_mem st1) a.
Proof. intros Hp Ha. rewrite page_at_in in Ha by apply Hp. unfold copy_page. change (vm_mem (_ <| vm_mem := ?m |>)) with m. apply byte_at_copy_ne. lia. Qed.

Lemma copy_page_data p st1 : page_ok p → page_ok (pte_addr e) → pte_addr e ≠ p → vm_mem st1 = vm_mem st →
  page_data (copy_page p st1) p = page_data st (pte_addr e).
Proof.
  intros Hp He Hne Hm. unfold page_data, copy_page. rewrite Hm. change (vm_mem (_ <| vm_mem := ?m |>)) with m. apply (load_copy_loop 4096).
  destruct (pages_apart (pte_addr e) p He Hp Hne); lia.
Qed.

Lemma cow_fault_copy pt p st1 a' :
  G !! (c, 1%nat, v / 512) = Some pt → 2 ≤ refs st (pte_addr e) → page_ok p → refs st p = 0 → pg_wf (vm_fr st1) →
  vm_mem st1 = vm_mem st → same_rest st st1 → (∀ q, q mod 4096 = 0 → refs st1 q = if decide (q = p) then 1 else refs st q) →
  a' = (pg_ref_dec (pte_addr e) (vm_fr st1)).2 →
  fault_fixed p ((pt_set pt (v mod 512) (fixed_pte p) (copy_page p st1)) <| vm_fr := a' |>).
Proof.
  intros Hpt Hr2 Hp Hp0 Hw1 Hm1 Hs1 Hrf ->. set (e' := fixed_pte p). set (st' := _ <| vm_fr := _ |>).
  destruct (tr_map _ _ _ T _ _ _ HL) as (Hv35 & _ & Hpe & _ & _ & Hm & Hn).
  destruct (path_div v Hv35) as (_ & _ & _ & _ & _ & E0 & M0 & _). destruct (fixed_pte_ok _ Hp) as (Hw64 & Ha & Hpr & Hw & Hcw & Hu & _). fold e' in Hw64, Ha, Hpr, Hw, Hcw, Hu.
  destruct (tr_page _ _ _ T _ _ Hpt) as [Hptp Hptr]. destruct (maps_fresh G L st p T Hp Hp0) as [Hmp HnG].
  assert (pte_addr e ≠ p) as Hne by (intros E; rewrite E in *; lia).
  assert (Hold : refs st1 (pte_addr e) = refs st (pte_addr e)) by (rewrite Hrf, decide_False by (done || apply Hpe); done).
  destruct (pg_ref_dec_ok (vm_fr st1) (pte_addr e)) as (Hwd & _ & Hrd); [done|apply Hpe..|by fold (refs st1 (pte_addr e)); rewrite Hold|].
  assert (Hr' : ∀ q, q mod 4096 = 0 → refs st' q = if decide (q = pte_addr e) then refs st q - 1 else if decide (q = p) then 1 else refs st q).
  { intros q Hq. unfold refs at 1, st'. cbn [vm_fr field_upd]. rewrite Hrd by done. case_decide as Eq; [subst q; unfold refs in Hold |- *; lia|].
    by apply Hrf. }
  assert (Hmaps : ∀ f, (maps (<[(c, v) := e']> L) f + (if decide (pte_addr e = f) then 1 else 0) =
                        (if decide (p = f) then 1 else 0) + maps L f)%nat).
  { intros f. rewrite <- Ha. by apply maps_replace. }
  assert (Hby : ∀ a, page_at a ≠ p → page_at a ≠ pt → byte_at (vm_mem st') a = byte_at (vm_mem st) a).
  { intros a Hap Hat. unfold st'. rewrite vm_mem_fr, <- Hm1, pt_set_byte by (done || apply Hptp). by apply copy_page_byte. }
  assert (Hptne : pt ≠ p) by (intros ->; by apply (HnG (c, 1%nat, v / 512))).
  assert (Hdata : ∀ f, page_ok f → f ≠ p → (∀ n, G !! n ≠ Some f) → page_data st' f = page_data st f).
  { intros f Hf Hfp Hnf. apply page_data_same; [apply Hf|]. intros a <-. apply Hby; [done|]. intros E. by apply (Hnf (c, 1%nat, v / 512)); rewrite E. }
  split_and!; [| |done| |by etrans|].
  - apply (tree_set_leaf G L _ st _ c (v / 512) pt (v mod 512)); [done|done|done|..].
    + intros kv Hkv. rewrite <- E0 in Hkv. by rewrite lookup_insert_ne.
    + rewrite <- E0, lookup_insert_eq. fold e'. rewrite Ha. unfold st'. by rewrite pt_get_fr, pt_get_set_eq.
    + intros n t' j Ht' Hj Hpair. destruct (tr_page _ _ _ T _ _ Ht') as [Htp _].
      unfold st'. rewrite pt_get_fr, pt_get_set_ne.
      * apply pt_get_same; [apply Htp|done|]. intros a <-. rewrite copy_page_byte, Hm1; [done|done|].
        intros E. apply (HnG n). by rewrite <- E.
      * apply Hptp.
      * apply Htp.
      * done.
      * done.
      * intros [= <- <-]. done.
    + done.
    + intros n q Hq. destruct (tr_page _ _ _ T _ _ Hq) as [Hqp _]. rewrite Hr' by apply Hqp.
      rewrite !decide_False; [done|intros ->; by apply (HnG n)|intros ->; by apply (Hn n)].
    + intros kv e2 H. specialize (Hmaps (pte_addr e2)). apply lookup_insert_Some in H as [[<- <-]|[Hkv H]].
      * fold e'. rewrite Ha, Hr' by apply Hp. fold e' in Hmaps. rewrite Ha in Hmaps. rewrite decide_False in Hmaps by done. rewrite decide_True in Hmaps by done.
        rewrite decide_False, decide_True by done. lia.
      * destruct kv as [c2 v2]. destruct (tr_map _ _ _ T _ _ _ H) as (_ & _ & Hp2 & _ & _ & Hm2 & _). rewrite Hr' by apply Hp2.
        pose proof (tree_leaf_refs _ _ _ _ _ _ T H). assert (pte_addr e2 ≠ p) by (intros E; rewrite E in *; lia).
        rewrite (decide_False (P := p = _)) in Hmaps by done. destruct (decide (pte_addr e = pte_addr e2)) as [E|].
        -- rewrite decide_True by done. fold e'. lia.
        -- rewrite !decide_False by congruence. fold e'. lia.
  - intros kv e2 [[<- <-]|[Hkv H]]%lookup_insert_Some Hw2.
    + fold e'. rewrite Ha. specialize (Hmaps p). rewrite decide_False, decide_True in Hmaps by done. split; [lia|done].
    + destruct (Hx kv e2 H Hw2) as [H1 H2]. split; [|done]. specialize (Hmaps (pte_addr e2)). destruct kv as [c2 v2].
      pose proof (tree_leaf_refs _ _ _ _ _ _ T H). rewrite (decide_False (P := p = _)) in Hmaps by (intros E; rewrite <- E in *; lia).
      destruct (decide (pte_addr e = pte_addr e2)) as [E|]; [|fold e'; lia]. exfalso. apply Hkv.
      by eapply (maps_once L (c2, v2) (c, v) e2 e).
  - unfold st'. rewrite page_data_fr, page_data_set by (done || apply Hp). by apply copy_page_data.
  - intros [c2 v2] e2 _ H. destruct (tr_map _ _ _ T _ _ _ H) as (_ & _ & Hp2 & _ & _ & _ & Hn2). apply Hdata; [done| |done].
    intros E. pose proof (tree_leaf_refs _ _ _ _ _ _ T H). rewrite E in *. lia.
Qed.

(** A write to a copy-on-write page: either the page is made private and writable
    with the same contents, or there is no memory for the copy. *)
Lemma cow_fault_spec :
  ∃ ok st', cow_fault c va st = (ok, st') ∧
    if ok then ∃ p, fault_fixed p st' else st' = st ∧ avail st = O.
Proof.
  destruct (get_pte_mapped G L st c va v e T Hc Hv Hva HL) as (pt & Hpt & Hg & E0 & M0 & He).
  destruct (tr_map _ _ _ T _ _ _ HL) as (_ & _ & Hpe & _). pose proof (tree_leaf_refs _ _ _ _ _ _ T HL) as Hr.
  unfold cow_fault. rewrite Hg. unfold read_pte. fold (pt_get pt (v mod 512) st). rewrite He, Hcow, Hww. cbn [negb].
  rewrite (pg_ref_get_ok (vm_fr st)); [|apply T|apply Hpe..|done]. fold (refs st (pte_addr e)).
  destruct (refs st (pte_addr e) =? 1) eqn:E1; bool_hyps.
  { eexists true, _. split; [done|]. exists (pte_addr e). by apply cow_fault_last. }
  pose proof (alloc_page_spec st (tr_wf _ _ _ T)) as Hal. destruct (alloc_page st) as [p st1].
  destruct Hal as [(-> & -> & Hav)|(Hp & Hp0 & Hw1 & Hm1 & Hs1 & _ & Hrf)].
  { rewrite Z.eqb_refl. by exists false, st. }
  rewrite (proj2 (Z.eqb_neq p 0)) by (destruct Hp; lia). eexists true, _. split; [done|]. exists p.
  by apply (cow_fault_copy pt p st1); [|lia|..].
Qed.
End fault.
End cow.
