(* ===== verification/CowFork.v ===== *)
(** * CowFork: what [vmm_clone_cow] does to the address spaces

    The four nested loops of the clone copy the entries of the parent to a new
    space, page by page.  A child lacks a page only if there was no memory for its
    tables. *)

From S2P Require Import Prelude KUtil AgentNs Bitmap Pmm Mem Bytes BlockStore Vmm VmmTree ProcMem CowMem.

Section fork.
Context {A S : Type} `{!Frames A, !FramesOk A} `{!BlockStore S}.
Implicit Types st : vm_st A S.
Implicit Types G : gmap (Z * nat * Z) Z.
Implicit Types L : gmap (Z * Z) Z.

(** ** A new address space *)

Lemma tree_root G L st c l k p : tree G L st → G !! (c, l, k) = Some p → G !! (c, 4%nat, 0) = Some c.
Proof.
  intros T H. assert (Hl : ∃ d, (l + d = 4)%nat).
  { destruct (tr_node _ _ _ T _ _ _ _ H) as (? & _). exists (4 - l)%nat. lia. }
  destruct Hl as [d Hd]. revert l k p H Hd. induction d as [|d IH]; intros l k p H Hd;
    destruct (tr_node _ _ _ T _ _ _ _ H) as (Hl & Hk0 & Hk & Hr & Hup).
  - assert (l = 4%nat) as -> by lia. rewrite (Hr eq_refl) in H. change (512 ^ Z.of_nat 4) with (2 ^ 36) in Hk. by assert (k = 0) as -> by lia.
  - destruct Hup as [q Hq]; [lia|]. apply (IH _ _ _ Hq). lia.
Qed.

Lemma tree_fresh G L st c : tree G L st → (∀ n, G !! n ≠ Some c) → (∀ l k, G !! (c, l, k) = None) ∧ ∀ v, L !! (c, v) = None.
Proof.
  intros T Hn. assert (HG : ∀ l k, G !! (c, l, k) = None).
  { intros l k. destruct (G !! (c, l, k)) as [p|] eqn:E; [|done]. apply (tree_root _ _ _ _ _ _ _ T) in E. by apply Hn in E. }
  split; [done|]. intros v. destruct (L !! (c, v)) as [e|] eqn:E; [|done].
  destruct (tr_map _ _ _ T _ _ _ E) as (_ & [q Hq] & _). by rewrite HG in Hq.
Qed.

Lemma tree_add_root G L st st' p :
  tree G L st → page_ok p → refs st p = 0 → pg_wf (vm_fr st') →
  (∀ q, q mod 4096 = 0 → refs st' q = if decide (q = p) then 1 else refs st q) →
  (∀ i, 0 ≤ i < 256 → pte_has (pt_get p i st') PTE_PRESENT = false) →
  (∀ t j, page_ok t → t ≠ p → 0 ≤ j < 512 → pt_get t j st' = pt_get t j st) →
  tree (<[(p, 4%nat, 0) := p]> G) L st'.
Proof.
  intros T Hp Hp0 Hwf Hr Hz Hs. destruct (maps_fresh G L st p T Hp Hp0) as [_ HnG]. destruct (tree_fresh G L st p T HnG) as [HG HL].
  assert (Hold : ∀ n q, G !! n = Some q → q ≠ p) by (intros n q H ->; by apply (HnG n)).
  assert (Hw : ∀ n t j, G !! n = Some t → 0 ≤ j < 512 → pt_get t j st' = pt_get t j st).
  { intros n t j H Hj. apply Hs; [by apply (tr_page _ _ _ T) in H as [? _]|by apply (Hold n)|done]. }
  split; [done|..].
  - intros n q [[<- <-]|[_ H]]%lookup_insert_Some.
    + split; [done|]. by rewrite Hr, decide_True by (done || apply Hp).
    + destruct (tr_page _ _ _ T _ _ H) as [Hq H1]. split; [done|]. rewrite Hr, decide_False by (apply Hq || by apply (Hold n)). done.
  - intros n n' q [[<- <-]|[_ H]]%lookup_insert_Some [[<- E]|[_ H']]%lookup_insert_Some; [done| | |by eapply (tr_inj _ _ _ T)].
    + by apply Hold in H'.
    + subst q. by apply Hold in H.
  - intros c l k q [[[= <- <- <-] <-]|[_ H]]%lookup_insert_Some.
    + split_and!; [lia|lia|lia|lia|done|lia].
    + destruct (tr_node _ _ _ T _ _ _ _ H) as (? & ? & ? & ? & Hup). split_and!; [lia|lia|done|done|done|]. intros Hl.
      apply lookup_insert_is_Some. destruct (decide ((p, 4%nat, 0) = (c, Datatypes.S l, k / 512))); [by left|right; auto].
  - intros c l k q i [[[= <- <- <-] <-]|[_ H]]%lookup_insert_Some Hl Hi Hb.
    + rewrite lookup_insert_ne by (intros [=]; lia). rewrite HG. apply Hz. change (512 ^ Z.of_nat 3) with (2 ^ 27) in Hb. lia.
    + destruct (decide ((p, 4%nat, 0) = (c, l, k * 512 + i))) as [[= <- <- _]|]; [by rewrite HG in H|].
      rewrite lookup_insert_ne by done. rewrite (Hw _ _ _ H Hi). by apply (tr_down _ _ _ T).
  - intros c k q i [[[=] _]|[_ H]]%lookup_insert_Some Hi. rewrite (Hw _ _ _ H Hi). by apply (tr_leaf _ _ _ T).
  - intros c v e H. destruct (tr_map _ _ _ T _ _ _ H) as (Hv & [q Hq] & Hpe & Hpr & Hu & Hm & Hn). pose proof (tree_leaf_refs _ _ _ _ _ _ T H).
    assert (pte_addr e ≠ p) by (intros E; rewrite E in *; lia).
    refine (conj Hv (conj _ (conj Hpe (conj Hpr (conj Hu (conj _ _)))))).
    + rewrite lookup_insert_ne by (intros [=]). by eexists.
    + rewrite Hr, decide_False by (done || apply Hpe). done.
    + intros n [[_ E]|[_ E]]%lookup_insert_Some; [done|]. by apply (Hn n).
Qed.

Lemma create_space_spec G L st :
  tree G L st →
  ∃ p st', vmm_create_address_space st = (p, st') ∧
    ((p = 0 ∧ st' = st ∧ avail st = O) ∨
     (page_ok p ∧ refs st p = 0 ∧ refs st' p = 1 ∧ (∀ n, G !! n ≠ Some p) ∧
      grows (λ n, n = (p, 4%nat, 0)) G L st (<[(p, 4%nat, 0) := p]> G) st')).
Proof.
  intros T. unfold vmm_create_address_space, fill_pml4. pose proof (alloc_page_spec st (tr_wf _ _ _ T)) as Hal. destruct (alloc_page st) as [p st1].
  destruct Hal as [(-> & -> & Hav)|(Hp & Hp0 & Hw1 & Hm1 & Hs1 & Ha1 & Hrf)].
  { rewrite Z.eqb_refl. exists 0, st. split; [done|]. by left. }
  rewrite (proj2 (Z.eqb_neq p 0)) by (destruct Hp; lia). change 256 with (Z.of_nat 256).
  set (st2 := foldl _ st1 _). destruct (pt_fill (λ _ _, 0) p 256 st1 (proj2 Hp) 0) as (_ & B2 & F2 & R2); [lia..|].
  assert (Hz2 : ∀ i, 0 ≤ i < 256 → pt_get p i st2 = 0) by (intros i Hi; apply (pt_fill_zero p 256 st1 (proj2 Hp) 0); lia).
  change (foldl _ st1 _) with st2 in B2, F2, R2.
  set (st3 := foldl _ st2 _). destruct (pt_fill (λ i st, pt_get (vm_root st) i st) p 256 st2 (proj2 Hp) 256) as (K3 & B3 & F3 & R3); [lia..|].
  change (foldl _ st2 _) with st3 in K3, B3, F3, R3. clearbody st2 st3. cbv zeta in *.
  assert (Hby : ∀ a, page_at a ≠ p → byte_at (vm_mem st3) a = byte_at (vm_mem st) a) by (intros a Ha; by rewrite B3, B2, Hm1).
  assert (Hfr : vm_fr st3 = vm_fr st1) by congruence.
  destruct (maps_fresh G L st p T Hp Hp0) as [_ HnG]. destruct (tree_fresh G L st p T HnG) as [HG _].
  exists p, st3. split; [done|]. right. split; [done|]. split; [done|]. split.
  { unfold refs. rewrite Hfr. fold (refs st1 p). rewrite Hrf by apply Hp. by rewrite decide_True. }
  split; [done|]. split_and!.
  - apply (tree_add_root G L st st3 p); [done..| | | |].
    + by rewrite Hfr.
    + intros q Hq. unfold refs at 1. rewrite Hfr. by apply Hrf.
    + intros i Hi. rewrite K3 by lia. by rewrite Hz2.
    + intros t j Ht Hne Hj. apply pt_get_same; [apply Ht|done|]. intros a <-. by apply Hby.
  - by apply insert_subseteq.
  - intros n q [[<- <-]|[_ H]]%lookup_insert_Some; [right; split; [done|lia]|by left].
  - intros a Ha. apply Hby. intros E. apply (Ha (p, 4%nat, 0)). by rewrite lookup_insert_eq, E.
  - by etrans; [apply Hs1|]; etrans; [apply R2|].
  - intros f Hf H1. unfold refs at 1. rewrite Hfr. fold (refs st1 f). rewrite Hrf, decide_False by (done || (intros ->; lia)). done.
  - rewrite map_size_insert_None by done. unfold avail in *. rewrite Hfr. lia.
Qed.

(** ** Copies of entries *)

Definition cowed (e : Z) : Z := Z.lor (pte_addr e) (cow_flags (pte_flags e)).
Definition child_pte (e : Z) : Z := leaf_pte (pte_addr e) (Z.land (cow_flags (pte_flags e)) (not64 PTE_PRESENT)).

(** A read-only copy-on-write entry for the page of [e]. *)
Definition cow_copy (e e' : Z) : Prop :=
  word64 e' ∧ pte_addr e' = pte_addr e ∧ pte_has e' PTE_PRESENT = true ∧ pte_has e' PTE_USER = true ∧
  pte_has e' PTE_WRITABLE = false ∧ pte_has e' PTE_COW = true ∧
  pte_has e' PTE_WAS_WRITABLE = pte_has e PTE_WAS_WRITABLE || pte_has e PTE_WRITABLE.

Lemma cowed_copy e : page_ok (pte_addr e) → pte_has e PTE_PRESENT = true → pte_has e PTE_USER = true → cow_copy e (cowed e).
Proof.
  intros Hp Hpr Hu. unfold cow_copy, cowed, cow_flags. destruct (pte_has (pte_flags e) PTE_WRITABLE) eqn:Ew.
  - assert (pte_has e PTE_WRITABLE = true) as -> by (revert Ew; pte_simp; done).
    split; [word64_tac|]. split_and!; pte_simp; done.
  - assert (pte_has e PTE_WRITABLE = false) as -> by (revert Ew; pte_simp; done).
    split; [word64_tac|]. split_and!; pte_simp; done.
Qed.

Lemma child_copy e : page_ok (pte_addr e) → pte_has e PTE_PRESENT = true → pte_has e PTE_USER = true → cow_copy e (child_pte e).
Proof.
  intros Hp Hpr Hu. unfold cow_copy, child_pte, leaf_pte, cow_flags. rewrite (page_ok_mask _ Hp).
  destruct (pte_has (pte_flags e) PTE_WRITABLE) eqn:Ew.
  - assert (pte_has e PTE_WRITABLE = true) as -> by (revert Ew; pte_simp; done).
    split; [word64_tac|]. split_and!; pte_simp; done.
  - assert (pte_has e PTE_WRITABLE = false) as -> by (revert Ew; pte_simp; done).
    split; [word64_tac|]. split_and!; pte_simp; done.
Qed.

(** ** The loops of the clone *)

(** A loop over [n] indices whose step moves a position by [w]. *)
Lemma fold_range {X} (I : Z → X → Prop) (f : X → Z → X) n base w x :
  0 ≤ n → (∀ i x, 0 ≤ i < n → I (base + i * w) x → I (base + (i + 1) * w) (f x i)) → I base x →
  I (base + n * w) (foldl f x (seqZ 0 n)).
Proof.
  intros Hn Hstep Hx. revert Hstep. assert (n = Z.of_nat (Z.to_nat n)) as E by lia. rewrite E. generalize (Z.to_nat n). clear n Hn E. intros k Hstep.
  assert (∀ j, (j ≤ k)%nat → I (base + Z.of_nat j * w) (foldl f x (seqZ 0 (Z.of_nat j)))) as H; [|by apply H].
  induction j as [|j IH]; intros Hj; [by rewrite Z.add_0_r|].
  rewrite seqZ_S, foldl_app. cbn [foldl]. replace (Z.of_nat (Datatypes.S j)) with (Z.of_nat j + 1) by lia. apply Hstep; [lia|]. apply IH. lia.
Qed.

Lemma tree_path G L st c v l : tree G L st → 0 ≤ v → is_Some (G !! (c, 1%nat, v / 512)) → (1 ≤ l ≤ 3)%nat → is_Some (G !! (c, l, v / 512 ^ Z.of_nat l)).
Proof.
  intros T Hv H1 Hl. induction l as [|l IH]; [lia|]. destruct (decide (l = 0)%nat) as [->|]; [done|].
  destruct IH as [p Hp]; [lia|]. destruct (tr_node _ _ _ T _ _ _ _ Hp) as (_ & _ & _ & _ & Hup). destruct Hup as [q Hq]; [lia|].
  rewrite Z.div_div in Hq by lia. replace (512 ^ Z.of_nat (Datatypes.S l)) with (512 ^ Z.of_nat l * 512); [by eexists|].
  rewrite Nat2Z.inj_succ, Z.pow_succ_r by lia. lia.
Qed.

(** One more reference to a mapped page. *)
Lemma tree_ref_inc G L st kv e :
  tree G L st → L !! kv = Some e → refs st (pte_addr e) < 65535 →
  tree G L (ref_inc (pte_addr e) st) ∧ avail (ref_inc (pte_addr e) st) = avail st ∧
  ∀ f, f mod 4096 = 0 → refs (ref_inc (pte_addr e) st) f = if decide (f = pte_addr e) then refs st f + 1 else refs st f.
Proof.
  intros T H Hb. destruct kv as [c v]. pose proof (tree_leaf_refs _ _ _ _ _ _ T H) as H1. destruct (tr_map _ _ _ T _ _ _ H) as (_ & _ & Hp & _ & _ & _ & Hn).
  destruct (pg_ref_inc_ok (vm_fr st) (pte_addr e)) as (Hw & Ha & Hr); [apply T|apply Hp..|by split|].
  assert (Hrf : ∀ f, f mod 4096 = 0 → refs (ref_inc (pte_addr e) st) f = if decide (f = pte_addr e) then refs st f + 1 else refs st f).
  { intros f Hf. unfold refs, ref_inc in *. cbn [vm_fr field_upd]. rewrite Hr by done. by case_decide; subst. }
  split; [|done]. split; [done|..].
  - intros n p Hnp. destruct (tr_page _ _ _ T _ _ Hnp) as [Hpp ?]. split; [done|]. rewrite Hrf, decide_False; [done| |apply Hpp].
    intros ->. by apply (Hn n).
  - apply (tr_inj _ _ _ T).
  - apply (tr_node _ _ _ T).
  - apply (tr_down _ _ _ T).
  - apply (tr_leaf _ _ _ T).
  - intros c2 v2 e2 H2. destruct (tr_map _ _ _ T _ _ _ H2) as (Hv2 & Hg2 & Hp2 & Hpr2 & Hu2 & Hm2 & Hn2).
    refine (conj Hv2 (conj Hg2 (conj Hp2 (conj Hpr2 (conj Hu2 (conj _ Hn2)))))). rewrite Hrf by apply Hp2. case_decide; lia.
Qed.

Section clone.
Context G0 L0 st0 (P C : Z) (mt : list mmap_entry).
Context (T0 : tree G0 L0 st0) (X0 : excl L0) (HP : G0 !! (P, 4%nat, 0) = Some P) (HC : G0 !! (C, 4%nat, 0) = Some C) (HPC : P ≠ C)
  (HCL : ∀ v, L0 !! (C, v) = None) (HCG : ∀ l k, is_Some (G0 !! (C, l, k)) → is_Some (G0 !! (P, l, k)))
  (Hshm : ∀ u e, L0 !! (P, u) = Some e → is_shm_page (u * 4096) mt = false) (Hb : ∀ kv e, L0 !! kv = Some e → refs st0 (pte_addr e) < 32768).

(** The pages of the parent below [v]. *)
Definition below (v : Z) : gmap (Z * Z) Z := filter (λ kv, kv.1.1 = P ∧ kv.1.2 < v) L0.

(** No memory was left for a table that the child needs. *)
Definition short G st : Prop := avail st = O ∧ ∃ l k, is_Some (G0 !! (P, l, k)) ∧ G !! (C, l, k) = None.

(** The clone has done the pages below [v]. *)
Record cinv (v : Z) G L st : Prop := {
  ci_tree : tree G L st;
  ci_excl : excl L;
  ci_other c u : c ≠ P → c ≠ C → L !! (c, u) = L0 !! (c, u);
  ci_parent u : L !! (P, u) = if decide (u < v) then cowed <$> L0 !! (P, u) else L0 !! (P, u);
  ci_child u : L !! (C, u) = (if decide (u < v) then child_pte <$> L0 !! (P, u) else None) ∨ (L !! (C, u) = None ∧ short G st);
  ci_nodes n : n.1.1 ≠ C → G !! n = G0 !! n;
  ci_cnodes l k : is_Some (G !! (C, l, k)) → is_Some (G0 !! (P, l, k));
  ci_croot : G !! (C, 4%nat, 0) = Some C;
  ci_data kv e : L0 !! kv = Some e → page_data st (pte_addr e) = page_data st0 (pte_addr e);
  ci_rest : same_rest st0 st;
  ci_refs kv e : L0 !! kv = Some e → refs st (pte_addr e) = refs st0 (pte_addr e) + Z.of_nat (maps (below v) (pte_addr e));
  ci_avail : (avail st + size G = avail st0 + size G0)%nat
}.

Lemma cinv_skip v v' G L st : cinv v G L st → v ≤ v' → (∀ u, v ≤ u < v' → L0 !! (P, u) = None) → cinv v' G L st.
Proof.
  intros I Hv Hn. assert (below v' = below v) as Hbe.
  { unfold below. apply map_filter_strong_ext_1. intros [c u] e. cbn. split; (intros [[-> Hu] H]; split; [|done]; split; [done|]); [|lia].
    destruct (decide (u < v)); [done|]. rewrite Hn in H by lia. done. }
  destruct I. split; try done.
  - intros u. rewrite ci_parent0. destruct (decide (u < v)), (decide (u < v')); try done; [lia|]. by rewrite Hn by lia.
  - intros u. destruct (ci_child0 u) as [->|]; [|by right]. left.
    destruct (decide (u < v)), (decide (u < v')); try done; [lia|]. by rewrite Hn by lia.
  - intros kv e H. rewrite Hbe. by apply (ci_refs0 kv).
Qed.

(** The pages that are mapped at the beginning stay mapped. *)
Lemma cinv_frame v G L st kv e : cinv v G L st → L0 !! kv = Some e → ∃ e', L !! kv = Some e' ∧ pte_addr e' = pte_addr e.
Proof.
  intros I H. destruct kv as [c u]. destruct (decide (c = P)) as [->|].
  - rewrite (ci_parent _ _ _ _ I), H. case_decide; [|by exists e]. exists (cowed e). split; [done|].
    destruct (tr_map _ _ _ T0 _ _ _ H) as (_ & _ & Hp & Hpr & Hu & _). by apply cowed_copy.
  - destruct (decide (c = C)) as [->|]; [by rewrite HCL in H|]. rewrite (ci_other _ _ _ _ I) by done. by exists e.
Qed.

Lemma below_succ v e f : L0 !! (P, v) = Some e → maps (below (v + 1)) f = ((if decide (pte_addr e = f) then 1 else 0) + maps (below v) f)%nat.
Proof.
  intros H. assert (below (v + 1) = <[(P, v) := e]> (below v)) as ->.
  { apply map_eq. intros [c u]. apply option_eq. intros e'. unfold below. rewrite lookup_insert_Some, !map_lookup_filter_Some. cbn.
    split.
    - intros [H' [-> Hu]]. destruct (decide (u = v)) as [->|]; [left; split; congruence|]. right. split; [congruence|]. split; [done|]. split; [done|lia].
    - intros [[[= <- <-] <-]|[_ [H' [-> Hu]]]]; (split; [done|split; [done|lia]]). }
  apply maps_insert. unfold below. apply map_lookup_filter_None. right. intros e' _ [_ ?]. cbn in *. lia.
Qed.

Lemma below_le v f : (maps (below v) f ≤ maps L0 f)%nat.
Proof. unfold maps. apply map_subseteq_size. apply map_filter_subseteq_mono, map_filter_subseteq. Qed.

(** References stay countable. *)
Lemma cinv_refs_bound v G L st kv e : cinv v G L st → L0 !! kv = Some e → refs st (pte_addr e) < 65535.
Proof.
  intros I H. rewrite (ci_refs _ _ _ _ I kv e H). pose proof (below_le v (pte_addr e)). pose proof (Hb kv e H). destruct kv as [c u].
  destruct (tr_map _ _ _ T0 _ _ _ H) as (_ & _ & _ & _ & _ & Hm & _). lia.
Qed.

(** Tables that grow from a state without memory do not grow. *)
Lemma grows_short Q G L st G' st' : grows Q G L st G' st' → avail st = O → avail st' = O ∧ G' = G.
Proof.
  intros (_ & Hs & _ & _ & _ & _ & Ha) H0. pose proof (map_subseteq_size _ _ Hs). split; [lia|]. symmetry. apply map_subseteq_size_eq; [done|lia].
Qed.

(** The state after the parent's entry has become copy-on-write. *)
Lemma cinv_cow v G L st e pt :
  cinv v G L st → L0 !! (P, v) = Some e → G !! (P, 1%nat, v / 512) = Some pt →
  let L1 := <[(P, v) := cowed e]> L in
  tree G L1 (pt_set pt (v mod 512) (cowed e) st) ∧ excl L1 ∧
  (∀ f, page_ok f → (∀ n, G !! n ≠ Some f) → page_data (pt_set pt (v mod 512) (cowed e) st) f = page_data st f) ∧
  (∀ e', cow_copy e e' → L !! (C, v) = None → excl (<[(C, v) := e']> L1)).
Proof.
  intros I HL Hpt L1. destruct (tr_map _ _ _ T0 _ _ _ HL) as (_ & _ & Hp & Hpr & Hu & _).
  destruct (cowed_copy e Hp Hpr Hu) as (Hw64 & Ha & Hpc & Huc & Hwc & _).
  assert (HLv : L !! (P, v) = Some e) by (rewrite (ci_parent _ _ _ _ I), decide_False by lia; done).
  destruct (tree_update G L st P v pt e (cowed e)) as [T1 Hd]; [apply I|done..|].
  assert (X1 : excl L1).
  { intros kv e2 [[<- <-]|[_ H]]%lookup_insert_Some Hw2; [congruence|]. unfold L1. rewrite (maps_same L (P, v) e) by done.
    by apply (ci_excl _ _ _ _ I kv). }
  split_and!; [done|done|done|]. intros e' (_ & Ha' & _ & _ & Hw' & _) HN kv e2 [[<- <-]|[Hne H]]%lookup_insert_Some Hw2; [congruence|].
  destruct (X1 kv e2 H Hw2) as [H1 H2]. split; [|done].
  rewrite maps_insert by (unfold L1; rewrite lookup_insert_ne; [done|congruence]). rewrite decide_False; [done|].
  intros E. assert (kv = (P, v)) as ->.
  { symmetry. eapply (maps_once L1 kv (P, v) e2 (cowed e)); [done|done|apply lookup_insert_eq|congruence]. }
  unfold L1 in H. rewrite lookup_insert_eq in H. injection H as <-. congruence.
Qed.

Section next.
Context (v : Z) G L st (e pt : Z) G' L' st2 st'.
Let L1 := <[(P, v) := cowed e]> L.
Let st1 := pt_set pt (v mod 512) (cowed e) st.
Context (I : cinv v G L st) (HL : L0 !! (P, v) = Some e) (Hpt : G !! (P, 1%nat, v / 512) = Some pt)
  (Gr : grows (on_path C v) G L1 st1 G' st2) (T' : tree G' L' st') (X' : excl L') (HL' : ∀ kv, kv ≠ (C, v) → L' !! kv = L1 !! kv)
  (Hch : L' !! (C, v) = Some (child_pte e) ∨ (L' !! (C, v) = None ∧ short G' st'))
  (Hd : ∀ f, page_ok f → (∀ n, G' !! n ≠ Some f) → page_data st' f = page_data st2 f) (Hr : same_rest st2 st') (Ha : avail st' = avail st2)
  (Hrf : ∀ f, f mod 4096 = 0 → refs st' f = if decide (f = pte_addr e) then refs st2 f + 1 else refs st2 f).

Lemma next_nodes n : n.1.1 ≠ C → G' !! n = G !! n.
Proof.
  intros Hn. destruct Gr as (_ & Hs & Hnew & _). destruct (G !! n) as [p|] eqn:E; [by eapply lookup_weaken|].
  destruct (G' !! n) as [p|] eqn:E'; [|done]. destruct (Hnew n p E') as [Hq|[(l & _ & ->) _]]; [congruence|done].
Qed.

Lemma next_frame kv e2 : L0 !! kv = Some e2 → page_ok (pte_addr e2) ∧ (∀ n, G' !! n ≠ Some (pte_addr e2)) ∧ (∀ n, G !! n ≠ Some (pte_addr e2)).
Proof.
  intros H. assert (∃ e3, L' !! kv = Some e3 ∧ pte_addr e3 = pte_addr e2) as (e3 & H3 & E3).
  { destruct (cinv_frame v G L st kv e2 I H) as (e4 & H4 & E4). rewrite HL' by (intros ->; by rewrite HCL in H). unfold L1.
    destruct (decide (kv = (P, v))) as [->|]; [|rewrite lookup_insert_ne by done; eauto]. rewrite lookup_insert_eq. exists (cowed e). split; [done|].
    rewrite HL in H. injection H as <-. destruct (tr_map _ _ _ T0 _ _ _ HL) as (_ & _ & Hp & Hpr & Hu & _). by apply cowed_copy. }
  destruct kv as [c u]. destruct (tr_map _ _ _ T' _ _ _ H3) as (_ & _ & Hp & _ & _ & _ & Hn). rewrite E3 in *. split_and!; [apply Hp..|done|].
  intros n Hg. apply (Hn n). destruct Gr as (_ & Hs & _). by eapply lookup_weaken.
Qed.

Lemma cinv_next : cinv (v + 1) G' L' st'.
Proof.
  destruct Gr as (T2 & Hs & Hnew & Hsd & Hsr & Hrg & Hav). destruct (cinv_cow v G L st e pt I HL Hpt) as (T1 & _ & Hd1 & _).
  split; [done|done|..].
  - intros c u HcP HcC. rewrite HL' by congruence. unfold L1. rewrite lookup_insert_ne by congruence. by apply (ci_other _ _ _ _ I).
  - intros u. rewrite HL' by congruence. unfold L1. destruct (decide (u = v)) as [->|].
    + by rewrite lookup_insert_eq, decide_True, HL by lia.
    + rewrite lookup_insert_ne, (ci_parent _ _ _ _ I) by congruence. destruct (decide (u < v)), (decide (u < v + 1)); (done || lia).
  - intros u. destruct (decide (u = v)) as [->|].
    + rewrite decide_True, HL by lia. cbn. done.
    + rewrite HL' by congruence. unfold L1. rewrite lookup_insert_ne by congruence.
      destruct (ci_child _ _ _ _ I u) as [->|[-> [H0 (l & k & Hk)]]]; [left|right].
      * destruct (decide (u < v)), (decide (u < v + 1)); (done || lia).
      * destruct (grows_short _ _ _ _ _ _ Gr H0) as [Ha2 ->]. split; [done|]. split; [by rewrite Ha|]. by exists l, k.
  - intros n Hn. rewrite next_nodes by done. by apply (ci_nodes _ _ _ _ I).
  - intros l k [q Hk]. destruct (Hnew _ _ Hk) as [H|[(l' & Hl' & [= -> ->]) _]]; [by apply (ci_cnodes _ _ _ _ I); eexists|].
    destruct (tr_map _ _ _ T0 _ _ _ HL) as (Hv & Hg & _). apply (tree_path G0 L0 st0); [done|lia|done|done].
  - eapply lookup_weaken; [apply (ci_croot _ _ _ _ I)|done].
  - intros kv e2 H. destruct (next_frame kv e2 H) as (Hp & Hn' & Hn). rewrite (Hd _ Hp Hn'), <- (ci_data _ _ _ _ I kv e2 H), <- (Hd1 _ Hp Hn).
    apply page_data_same; [apply Hp|]. intros a Hpa. apply Hsd. by rewrite Hpa.
  - etrans; [apply (ci_rest _ _ _ _ I)|]. etrans; [|apply Hr]. exact Hsr.
  - intros kv e2 H. destruct (next_frame kv e2 H) as (Hp & _). rewrite Hrf, (below_succ v e) by (done || apply Hp).
    assert (H1 : 1 ≤ refs st (pte_addr e2)).
    { destruct (cinv_frame v G L st kv e2 I H) as (e4 & H4 & <-). destruct kv as [c u]. by apply (tree_leaf_refs G L st c u e4); [apply I|]. }
    assert (refs st2 (pte_addr e2) = refs st (pte_addr e2)) as -> by (apply Hrg; [apply Hp|done]).
    rewrite (ci_refs _ _ _ _ I kv e2 H). destruct (decide (pte_addr e2 = pte_addr e)), (decide (pte_addr e = pte_addr e2)); (congruence || lia).
  - rewrite Ha, <- Hav. apply (ci_avail _ _ _ _ I).
Qed.
End next.

Lemma clone_leaf_inv v G L st pt :
  cinv v G L st → 0 ≤ v < 2 ^ 35 → G0 !! (P, 1%nat, v / 512) = Some pt →
  ∃ G' L', cinv (v + 1) G' L' (clone_leaf mt C pt (v mod 512) (v * 4096) st).
Proof.
  intros I Hv Hpt0. assert (Hpt : G !! (P, 1%nat, v / 512) = Some pt) by (rewrite (ci_nodes _ _ _ _ I) by done; done).
  destruct (path_div v Hv) as (_ & _ & _ & _ & _ & E0 & M0 & _). pose proof (tr_leaf _ _ _ (ci_tree _ _ _ _ I) _ _ _ _ Hpt M0) as Hl.
  rewrite <- E0, (ci_parent _ _ _ _ I), decide_False in Hl by lia. unfold clone_leaf.
  destruct (L0 !! (P, v)) as [e|] eqn:HL.
  2: { rewrite Hl. cbn [negb]. exists G, L. apply (cinv_skip v); [done|lia|]. intros u Hu. by assert (u = v) as -> by lia. }
  destruct (tr_map _ _ _ T0 _ _ _ HL) as (_ & _ & Hp & Hpr & Hu & _). rewrite Hl, Hpr, (Hshm v e HL). cbn [negb]. fold (cowed e).
  destruct (cinv_cow v G L st e pt I HL Hpt) as (T1 & X1 & _ & Xc). set (L1 := <[(P, v) := cowed e]> L) in *.
  set (st1 := pt_set pt (v mod 512) (cowed e) st) in *. set (flags := Z.land (cow_flags (pte_flags e)) (not64 PTE_PRESENT)).
  destruct (map_walk G L1 st1 C v (v * 4096) (pte_addr e) flags) as (G' & st2 & Gr & Hcase);
    [done|apply (ci_croot _ _ _ _ I)|by rewrite Z.div_mul|lia|unfold flags, cow_flags; case_match; pte_simp; done|].
  assert (HCv : L !! (C, v) = None) by (destruct (ci_child _ _ _ _ I v) as [->|[-> _]]; [|done]; by rewrite decide_False by lia).
  assert (HPv : L1 !! (P, v) = Some (cowed e)) by apply lookup_insert_eq. destruct (cowed_copy e Hp Hpr Hu) as (_ & Hac & _).
  assert (Hrb : refs st2 (pte_addr e) = refs st (pte_addr e)).
  { destruct Gr as (_ & _ & _ & _ & _ & Hrg & _). apply Hrg; [apply Hp|].
    rewrite <- Hac. apply (tree_leaf_refs G L1 st1 P v (cowed e) T1 HPv). }
  pose proof (cinv_refs_bound v G L st (P, v) e I HL) as Hlt. rewrite <- Hrb in Hlt.
  destruct (tree_ref_inc G' L1 st2 (P, v) (cowed e)) as (T2 & Ha2 & Hr2); [apply Gr|done|by rewrite Hac|]. rewrite Hac in *.
  destruct Hcase as [(pt2 & Hpt2 & ->)|(-> & Hav & n & (l & Hl3 & ->) & HN)]; cbn [snd].
  - destruct (child_copy e Hp Hpr Hu) as (Hw64 & Hach & Hpch & Huch & Hcc). exists G', (<[(C, v) := child_pte e]> L1).
    fold (child_pte e). destruct (tr_page _ _ _ T2 _ _ Hpt2) as [Hp2 _].
    assert (HnG : ∀ n, G' !! n ≠ Some (pte_addr e)).
    { destruct (tr_map _ _ _ T2 _ _ _ HPv) as (_ & _ & _ & _ & _ & _ & Hn). by rewrite Hac in Hn. }
    apply (cinv_next v G L st e pt G' _ st2); try done.
    + apply (tree_set_leaf G' L1 _ (ref_inc (pte_addr e) st2) _ C (v / 512) pt2 (v mod 512)); [done..| | | | | |].
      * intros kv Hne. rewrite <- E0 in Hne. by rewrite lookup_insert_ne.
      * rewrite <- E0, lookup_insert_eq. rewrite Hach. split; [exact (pt_get_set_eq _ _ _ st2 Hw64)|done].
      * intros n t' j Ht' Hj Hne. destruct (tr_page _ _ _ T2 _ _ Ht') as [Htp _].
        apply (pt_get_set_ne _ _ _ _ _ st2); [apply Hp2|apply Htp|done|done|congruence].
      * apply T2.
      * done.
      * intros kv e2 H2. rewrite maps_insert by (unfold L1; rewrite lookup_insert_ne by congruence; done). rewrite Hach.
        assert (Hq : ∀ e3 kv3, L1 !! kv3 = Some e3 → (if decide (pte_addr e = pte_addr e3) then 1 else 0) + Z.of_nat (maps L1 (pte_addr e3))
                       ≤ refs (ref_inc (pte_addr e) st2) (pte_addr e3)).
        { intros e3 [c3 v3] H3. destruct (tr_map _ _ _ (proj1 Gr) _ _ _ H3) as (_ & _ & Hp3 & _ & _ & Hm3 & _). rewrite Hr2 by apply Hp3.
          destruct (decide (pte_addr e = pte_addr e3)), (decide (pte_addr e3 = pte_addr e)); (congruence || lia). }
        assert (∃ e3 kv3, L1 !! kv3 = Some e3 ∧ pte_addr e3 = pte_addr e2) as (e3 & kv3 & H3 & E3).
        { apply lookup_insert_Some in H2 as [[<- <-]|[_ H2]]; [|eauto]. exists (cowed e), (P, v). split; [done|congruence]. }
        specialize (Hq e3 kv3 H3). rewrite E3 in Hq. etrans; [|exact Hq]. destruct (decide (pte_addr e = pte_addr e2)); lia.
    + apply Xc; [by apply child_copy|done].
    + intros kv Hne. by rewrite lookup_insert_ne.
    + left. by rewrite lookup_insert_eq.
    + intros f Hf Hnf. apply (page_data_set st2); [done|done|apply Hf|]. intros ->. by apply (Hnf (C, 1%nat, v / 512)).
  - exists G', L1. apply (cinv_next v G L st e pt G' _ st2); try done.
    right. split; [unfold L1; rewrite lookup_insert_ne by congruence; done|]. split; [by rewrite Ha2|].
    exists l, (v / 512 ^ Z.of_nat l). split; [|done]. apply (tree_path G0 L0 st0); [done|lia| |done]. by eexists.
Qed.

Definition cinvE (v : Z) st : Prop := ∃ G L, cinv v G L st.

Lemma no_leaf_below l k u :
  (1 ≤ l ≤ 3)%nat → G0 !! (P, l, k) = None → k * 512 ^ Z.of_nat l ≤ u < (k + 1) * 512 ^ Z.of_nat l → L0 !! (P, u) = None.
Proof.
  intros Hl HN Hu. destruct (L0 !! (P, u)) as [e|] eqn:E; [|done]. destruct (tr_map _ _ _ T0 _ _ _ E) as (Hv & Hg & _).
  destruct (tree_path G0 L0 st0 P u l T0 ltac:(lia) Hg Hl) as [p Hp].
  assert (u / 512 ^ Z.of_nat l = k) as Ek by (symmetry; apply (Z.div_unique_pos _ _ _ (u - k * 512 ^ Z.of_nat l)); lia). congruence.
Qed.

(** One entry of a table of level [l + 1]: a subtree, or nothing to do. *)
Lemma clone_entry l k t i st (f : vm_st A S → vm_st A S) :
  (1 ≤ l ≤ 3)%nat → G0 !! (P, Datatypes.S l, k) = Some t → 0 ≤ i < 512 → (k * 512 + i) * 512 ^ Z.of_nat l < 2 ^ 35 →
  cinvE ((k * 512 + i) * 512 ^ Z.of_nat l) st →
  (∀ q, G0 !! (P, l, k * 512 + i) = Some q → inter_ok (pt_get t i st) q → cinvE ((k * 512 + i + 1) * 512 ^ Z.of_nat l) (f st)) →
  cinvE ((k * 512 + i + 1) * 512 ^ Z.of_nat l) (if negb (pte_has (pt_get t i st) PTE_PRESENT) then st else f st).
Proof.
  intros Hl Ht Hi Hbd (G & L & I) Hf. assert (HG : ∀ l k, G !! (P, l, k) = G0 !! (P, l, k)) by (intros; by apply (ci_nodes _ _ _ _ I)).
  pose proof (tr_down _ _ _ (ci_tree _ _ _ _ I) P l k t i) as Hd. rewrite !HG in Hd. specialize (Hd Ht ltac:(lia) Hi Hbd).
  destruct (G0 !! (P, l, k * 512 + i)) as [q|] eqn:E.
  - pose proof Hd as (_ & -> & _). cbn [negb]. by apply (Hf q).
  - rewrite Hd. cbn [negb]. exists G, L. eapply cinv_skip; [done|lia|]. intros u Hu. by apply (no_leaf_below l (k * 512 + i)).
Qed.

Lemma clone_pt_inv i4 i3 i2 pt st :
  let k := (i4 * 512 + i3) * 512 + i2 in
  0 ≤ i4 < 256 → 0 ≤ i3 < 512 → 0 ≤ i2 < 512 → G0 !! (P, 1%nat, k) = Some pt → cinvE (k * 512) st →
  cinvE ((k + 1) * 512) (clone_pt mt C pt i4 i3 i2 st).
Proof.
  intros k H4 H3 H2 Hpt HI. unfold clone_pt. replace ((k + 1) * 512) with (k * 512 + 512 * 1) by lia.
  apply (fold_range cinvE); [lia| |done]. intros i x Hi. rewrite !Z.mul_1_r. intros (G & L & I).
  rewrite virt_of_page by lia. fold k. rewrite Z.add_assoc.
  destruct (clone_leaf_inv (k * 512 + i) G L x pt) as (G' & L' & I'); [done|lia| |].
  - by rewrite Z.div_add_l, Z.div_small, Z.add_0_r by lia.
  - assert ((k * 512 + i) mod 512 = i) as Em by (rewrite Z.add_comm, Z.mod_add, Z.mod_small; lia). rewrite Em in I'. by exists G', L'.
Qed.

Lemma clone_pd_inv i4 i3 pd st :
  let k := i4 * 512 + i3 in
  0 ≤ i4 < 256 → 0 ≤ i3 < 512 → G0 !! (P, 2%nat, k) = Some pd → cinvE (k * (512 * 512)) st →
  cinvE ((k + 1) * (512 * 512)) (clone_pd mt C pd i4 i3 st).
Proof.
  intros k H4 H3 Hpd HI. unfold clone_pd. replace ((k + 1) * (512 * 512)) with (k * (512 * 512) + 512 * 512) by lia.
  apply (fold_range cinvE); [lia| |done]. intros i x Hi Hx. replace (k * (512 * 512) + (i + 1) * 512) with ((k * 512 + i + 1) * 512) by lia.
  assert (E : (k * 512 + i) * 512 = k * (512 * 512) + i * 512) by lia.
  apply (clone_entry 1 k pd i x (λ x, if pte_has (pt_get pd i x) PTE_HUGE then x else _)); [lia|done|done| | |].
  - change (512 ^ Z.of_nat 1) with 512. lia.
  - change (512 ^ Z.of_nat 1) with 512. by rewrite E.
  - intros q Hq (-> & _ & _ & _ & ->). apply clone_pt_inv; [done..|]. fold k. by rewrite E.
Qed.

Lemma clone_pdpt_inv i4 pdpt st :
  0 ≤ i4 < 256 → G0 !! (P, 3%nat, i4) = Some pdpt → cinvE (i4 * (512 * 512 * 512)) st →
  cinvE ((i4 + 1) * (512 * 512 * 512)) (clone_pdpt mt C pdpt i4 st).
Proof.
  intros H4 Hpdpt HI. unfold clone_pdpt. replace ((i4 + 1) * (512 * 512 * 512)) with (i4 * (512 * 512 * 512) + 512 * (512 * 512)) by lia.
  apply (fold_range cinvE); [lia| |done]. intros i x Hi Hx.
  replace (i4 * (512 * 512 * 512) + (i + 1) * (512 * 512)) with ((i4 * 512 + i + 1) * (512 * 512)) by lia.
  assert (E : (i4 * 512 + i) * (512 * 512) = i4 * (512 * 512 * 512) + i * (512 * 512)) by lia.
  apply (clone_entry 2 i4 pdpt i x (λ x, _)); [lia|done|done|change (512 ^ Z.of_nat 2) with (512 * 512); lia|change (512 ^ Z.of_nat 2) with (512 * 512); by rewrite E|].
  intros q Hq (-> & _). apply clone_pd_inv; [done..|]. by rewrite E.
Qed.

Lemma clone_pml4_inv st : cinvE 0 st → cinvE (2 ^ 35) (clone_pml4 mt C P st).
Proof.
  intros HI. unfold clone_pml4. change (2 ^ 35) with (0 + 256 * (512 * 512 * 512)). apply (fold_range cinvE); [lia| |done].
  intros i x Hi. rewrite !Z.add_0_l. intros Hx.
  apply (clone_entry 3 0 P i x (λ x, _)); [lia|done|lia|change (512 ^ Z.of_nat 3) with (512 * 512 * 512); lia|done|].
  intros q Hq (-> & _). by apply clone_pdpt_inv.
Qed.
End clone.

(** ** [vmm_clone_cow] *)

(** The number of tables of a space. *)
Definition tables G (c : Z) : nat := size (filter (λ kv, kv.1.1.1 = c) G).

(** The keys of a map. *)
Definition keys {V} (m : gmap (Z * nat * Z) V) : list (Z * nat * Z) := (map_to_list m).*1.

Lemma elem_of_keys {V} (m : gmap (Z * nat * Z) V) n : n ∈ keys m ↔ is_Some (m !! n).
Proof.
  unfold keys. rewrite list_elem_of_fmap. split.
  - intros ([n' v] & -> & H%elem_of_map_to_list). by eexists.
  - intros [v Hv]. exists (n, v). split; [done|]. by apply elem_of_map_to_list.
Qed.

Lemma length_keys {V} (m : gmap (Z * nat * Z) V) : length (keys m) = size m.
Proof. unfold keys. by rewrite length_fmap, length_map_to_list. Qed.

(** A child that lacks a table of its parent has fewer tables. *)
Lemma short_size G0 G (P C : Z) l k :
  (∀ n, n.1.1 ≠ C → G !! n = G0 !! n) → (∀ l k, is_Some (G !! (C, l, k)) → is_Some (G0 !! (P, l, k))) →
  is_Some (G0 !! (P, l, k)) → G !! (C, l, k) = None → (size G < size G0 + tables G0 P)%nat.
Proof.
  intros Hn Hc HP HN. set (cp := (λ n : Z * nat * Z, (C, n.1.2, n.2))).
  assert (Hin : ∀ l k, is_Some (G0 !! (P, l, k)) → (C, l, k) ∈ keys G0 ++ (cp <$> keys (filter (λ kv, kv.1.1.1 = P) G0))).
  { intros l' k' [q Hq]. apply elem_of_app. right. apply list_elem_of_fmap. exists (P, l', k'). split; [done|].
    apply elem_of_keys. exists q. by apply map_lookup_filter_Some. }
  assert (Hsub : (C, l, k) :: keys G ⊆+ keys G0 ++ (cp <$> keys (filter (λ kv, kv.1.1.1 = P) G0))).
  { apply NoDup_submseteq.
    - apply NoDup_cons. split; [rewrite elem_of_keys, HN; by intros [? ?]|]. apply NoDup_fst_map_to_list.
    - intros [[c' l'] k'] [[= -> -> ->]|H]%elem_of_cons; [by apply Hin|]. apply elem_of_keys in H.
      destruct (decide (c' = C)) as [->|Hne]; [by apply Hin, Hc|]. rewrite Hn in H by done. apply elem_of_app. left. by apply elem_of_keys. }
  apply submseteq_length in Hsub. cbn [length] in Hsub. rewrite length_app, length_fmap, !length_keys in Hsub. unfold tables. lia.
Qed.

(** The result of a fork: the child [c] has the pages of the parent, all of them if
    there was memory for its tables; every other space is as it was. *)
Record forked (P c : Z) (enough : Prop) G L st G' L' st' : Prop := {
  fk_tree : tree G' L' st';
  fk_excl : excl L';
  fk_new : G !! (c, 4%nat, 0) = None;
  fk_roots x : is_Some (G' !! (x, 4%nat, 0)) ↔ x = c ∨ is_Some (G !! (x, 4%nat, 0));
  fk_other x u : x ≠ P → x ≠ c → L' !! (x, u) = L !! (x, u);
  fk_parent u : L' !! (P, u) = cowed <$> L !! (P, u);
  fk_child u : L' !! (c, u) = child_pte <$> L !! (P, u) ∨ (¬ enough ∧ L' !! (c, u) = None);
  fk_data kv e : L !! kv = Some e → page_data st' (pte_addr e) = page_data st (pte_addr e)
}.

Lemma clone_spec G L st P mt :
  tree G L st → excl L → G !! (P, 4%nat, 0) = Some P → (∀ u e, L !! (P, u) = Some e → is_shm_page (u * 4096) mt = false) →
  (∀ kv e, L !! kv = Some e → refs st (pte_addr e) < 32768) →
  ∃ c st', vmm_clone_cow P mt st = (c, st') ∧
    ((c = 0 ∧ st' = st ∧ avail st = O) ∨
     (c ≠ 0 ∧ ∃ G' L', forked P c (tables G P ≤ avail st)%nat G L st G' L' st')).
Proof.
  intros T X HP Hshm Hb. unfold vmm_clone_cow. destruct (create_space_spec G L st T) as (c & st1 & -> & [(-> & -> & Ha)|Hc]).
  { rewrite Z.eqb_refl. exists 0, st. split; [done|]. by left. }
  destruct Hc as (Hp & H0 & H1 & HnG & (T1 & _ & _ & Hsd & Hsr & Hrg & Hav)). set (G1 := <[(c, 4%nat, 0) := c]> G) in *.
  rewrite (proj2 (Z.eqb_neq c 0)) by (destruct Hp; lia). destruct (tree_fresh G L st c T HnG) as [HcG HcL].
  assert (c ≠ P) as HcP by (intros ->; by rewrite HcG in HP).
  assert (Hfr : ∀ kv e, L !! kv = Some e → page_data st1 (pte_addr e) = page_data st (pte_addr e)).
  { intros [x u] e H. destruct (tr_map _ _ _ T1 _ _ _ H) as (_ & _ & Hpe & _ & _ & _ & Hn). apply page_data_same; [apply Hpe|].
    intros a E. apply Hsd. by rewrite E. }
  assert (Hbelow : ∀ f, maps (filter (λ kv : (Z * Z) * Z, kv.1.1 = P ∧ kv.1.2 < 0) L) f = 0%nat).
  { intros f. assert (filter (λ kv : (Z * Z) * Z, kv.1.1 = P ∧ kv.1.2 < 0) L = ∅) as ->; [|done].
    apply map_empty. intros [x u]. apply map_lookup_filter_None. right. intros e H [_ Hu]. cbn in Hu.
    destruct (tr_map _ _ _ T _ _ _ H) as (? & _). lia. }
  assert (HPG1 : G1 !! (P, 4%nat, 0) = Some P) by (unfold G1; by rewrite lookup_insert_ne by congruence).
  assert (HcG1 : ∀ l k, is_Some (G1 !! (c, l, k)) → is_Some (G1 !! (P, l, k))).
  { intros l k H. unfold G1 in H. apply lookup_insert_is_Some in H as [[= <- <-]|[_ [q Hq]]]; [by eexists|by rewrite HcG in Hq]. }
  assert (Hb1 : ∀ kv e, L !! kv = Some e → refs st1 (pte_addr e) < 32768).
  { intros [x u] e H. rewrite Hrg; [by apply (Hb (x, u))|apply pte_addr_bound|]. by apply (tree_leaf_refs G L st x u). }
  assert (I0 : cinvE G1 L st1 P c 0 st1).
  { exists G1, L. split; try done.
    - intros u. case_decide; [|done]. destruct (L !! (P, u)) as [e|] eqn:E; [|done]. destruct (tr_map _ _ _ T _ _ _ E) as (? & _). lia.
    - intros u. left. rewrite HcL. case_decide; [|done]. destruct (L !! (P, u)) as [e|] eqn:E; [|done]. destruct (tr_map _ _ _ T _ _ _ E) as (? & _). lia.
    - apply lookup_insert_eq.
    - intros kv e H. unfold below. rewrite Hbelow. lia. }
  assert (cinvE G1 L st1 P c (2 ^ 35) (clone_pml4 mt c P st1)) as (G' & L' & I) by (apply clone_pml4_inv; (done || congruence)).
  exists c, (clone_pml4 mt c P st1). split; [done|]. right. split; [destruct Hp; lia|]. exists G', L'.
  assert (Hrange : ∀ x u e, L !! (x, u) = Some e → u < 2 ^ 35) by (intros x u e H; destruct (tr_map _ _ _ T _ _ _ H) as ([_ ?] & _); done).
  split.
  - apply I.
  - apply I.
  - apply HcG.
  - intros x. destruct (decide (x = c)) as [->|Hx].
    + rewrite (ci_croot _ _ _ _ _ _ _ _ _ I). split; [by left|by eexists].
    + rewrite (ci_nodes _ _ _ _ _ _ _ _ _ I) by done. unfold G1. rewrite lookup_insert_ne by congruence. tauto.
  - intros x u HxP Hxc. by apply (ci_other _ _ _ _ _ _ _ _ _ I).
  - intros u. rewrite (ci_parent _ _ _ _ _ _ _ _ _ I). case_decide; [done|].
    destruct (L !! (P, u)) as [e|] eqn:E; [|done]. by apply Hrange in E.
  - intros u. destruct (ci_child _ _ _ _ _ _ _ _ _ I u) as [->|[HN [Ha0 (l & k & HPk & HCk)]]].
    + left. case_decide; [done|]. destruct (L !! (P, u)) as [e|] eqn:E; [|done]. by apply Hrange in E.
    + right. split; [|done]. intros Hen. pose proof (ci_avail _ _ _ _ _ _ _ _ _ I) as Hsz.
      assert (size G' < size G + tables G P)%nat; [|lia]. apply (short_size G G' P c l k).
      * intros n Hn. rewrite (ci_nodes _ _ _ _ _ _ _ _ _ I) by done. unfold G1. apply lookup_insert_ne. intros <-. by apply Hn.
      * intros l' k' H. apply (ci_cnodes _ _ _ _ _ _ _ _ _ I) in H. unfold G1 in H. rewrite lookup_insert_ne in H by congruence. done.
      * unfold G1 in HPk. by rewrite lookup_insert_ne in HPk by congruence.
      * done.
  - intros kv e H. rewrite (ci_data _ _ _ _ _ _ _ _ _ I kv e H). by apply (Hfr kv).
Qed.
End fork.
