(* ===== verification/CowExit.v ===== *)
(** * CowExit: what [vmm_free_user_pages] does to the address spaces

    The nested loops of the exit take every page and every table of a space away,
    from the lowest page up; no other space loses anything. *)

From S2P Require Import Prelude KUtil AgentNs Bitmap Pmm Mem Bytes BlockStore Vmm VmmTree ProcMem CowMem CowFork.

Section exit.
Context {A S : Type} `{!Frames A, !FramesOk A} `{!BlockStore S}.
Implicit Types st : vm_st A S.
Implicit Types G : gmap (Z * nat * Z) Z.
Implicit Types L : gmap (Z * Z) Z.

(** ** Removing a table *)

Lemma free_page_spec st p :
  pg_wf (vm_fr st) → page_ok p → 1 ≤ refs st p →
  ∃ a, free_page p st = Some (st <| vm_fr := a |>) ∧ pg_wf a ∧ pg_avail a = (if decide (refs st p = 1) then Datatypes.S (avail st) else avail st) ∧
    ∀ q, q mod 4096 = 0 → pg_refs a q = if decide (q = p) then refs st p - 1 else refs st q.
Proof.
  intros Hw [Hp Hm] Hr. destruct (pg_free_ok (vm_fr st) p Hw Hp Hm Hr) as (a & Ha & Hwa & Hav & Hra). exists a.
  unfold free_page. rewrite Ha. done.
Qed.

Section remove.
Context G L st st' (n : Z * nat * Z) (p : Z).
Context (T : tree G L st) (Hn : G !! n = Some p) (Hwf : pg_wf (vm_fr st'))
  (Hr : ∀ q, q mod 4096 = 0 → q ≠ p → refs st' q = refs st q)
  (Hchild : ∀ c l k q, G !! (c, l, k) = Some q → (l < 4)%nat → (c, Datatypes.S l, k / 512) ≠ n)
  (Hleaf : ∀ c v e, L !! (c, v) = Some e → (c, 1%nat, v / 512) ≠ n)
  (Hdown : ∀ c l k t i, G !! (c, Datatypes.S l, k) = Some t → (1 ≤ l)%nat → 0 ≤ i < 512 → (k * 512 + i) * 512 ^ Z.of_nat l < 2 ^ 35 →
     if decide ((c, l, k * 512 + i) = n) then pte_has (pt_get t i st') PTE_PRESENT = false else pt_get t i st' = pt_get t i st)
  (Hlast : ∀ c k t i, G !! (c, 1%nat, k) = Some t → t ≠ p → 0 ≤ i < 512 → pt_get t i st' = pt_get t i st).

Lemma tree_remove : tree (delete n G) L st'.
Proof.
  assert (Hne : ∀ n' q, delete n G !! n' = Some q → G !! n' = Some q ∧ q ≠ p).
  { intros n' q [Hnn H]%lookup_delete_Some. split; [done|]. intros ->. apply Hnn. by apply (tr_inj _ _ _ T _ _ p). }
  split; [done|..].
  - intros n' q [H Hq]%Hne. destruct (tr_page _ _ _ T _ _ H) as [Hp H1]. split; [done|]. rewrite Hr; [done|apply Hp|done].
  - intros n1 n2 q [H1 _]%Hne [H2 _]%Hne. by apply (tr_inj _ _ _ T _ _ q).
  - intros c l k q [H _]%Hne. destruct (tr_node _ _ _ T _ _ _ _ H) as (? & ? & ? & ? & Hup). split_and!; [lia|lia|done|done|done|].
    intros Hl. rewrite lookup_delete_ne; [by apply Hup|]. apply not_eq_sym. by apply (Hchild c l k q).
  - intros c l k q i [H Hq]%Hne Hl Hi Hb. pose proof (Hdown c l k q i H Hl Hi Hb) as Hd. pose proof (tr_down _ _ _ T _ _ _ _ _ H Hl Hi Hb) as Ho.
    case_decide as E; [by rewrite E, lookup_delete_eq|]. rewrite lookup_delete_ne by congruence. by rewrite Hd.
  - intros c k q i [H Hq]%Hne Hi. rewrite (Hlast _ _ _ _ H Hq Hi). by apply (tr_leaf _ _ _ T).
  - intros c v e H. destruct (tr_map _ _ _ T _ _ _ H) as (Hv & [q Hq] & Hp & Hpr & Hu & Hm & Hng).
    refine (conj Hv (conj _ (conj Hp (conj Hpr (conj Hu (conj _ _)))))).
    + rewrite lookup_delete_ne by (apply not_eq_sym; by apply (Hleaf c v e)). by eexists.
    + rewrite Hr; [done|apply Hp|]. intros E. apply (Hng n). by rewrite E.
    + intros n' [_ E]%lookup_delete_Some. by apply (Hng n').
Qed.
End remove.

(** ** The loops *)

Section drop.
Context G0 L0 st0 (c : Z).
Context (T0 : tree G0 L0 st0) (Hc : G0 !! (c, 4%nat, 0) = Some c).

(** The tables below the bounds [w] are gone. *)
Definition gone (w : nat → Z) (l : nat) (k : Z) : Prop := (1 ≤ l ≤ 3)%nat ∧ (k + 1) * 512 ^ Z.of_nat l ≤ w l.

(** The pages below [wl] and the tables below [w] are gone. *)
Definition dropped (w : nat → Z) (wl : Z) st : Prop := ∃ G L,
  tree G L st ∧
  (∀ l k, gone w l k → G !! (c, l, k) = None) ∧ (∀ n, (∀ l k, n = (c, l, k) → ¬ gone w l k) → G !! n = G0 !! n) ∧
  (∀ u, u < wl → L !! (c, u) = None) ∧ (∀ kv, (∀ u, kv = (c, u) → wl ≤ u) → L !! kv = L0 !! kv) ∧
  (∀ kv e, L !! kv = Some e → page_data st (pte_addr e) = page_data st0 (pte_addr e)).

Lemma dropped_ext w wl w' wl' st :
  dropped w wl st → (∀ l k q, G0 !! (c, l, k) = Some q → gone w l k ↔ gone w' l k) →
  (∀ u e, L0 !! (c, u) = Some e → u < wl ↔ u < wl') → dropped w' wl' st.
Proof.
  intros (G & L & T & Hg & Hk & Hl & Hm & Hd) Hgone Hleaf. exists G, L.
  assert (Hsub : ∀ n q, G !! n = Some q → G0 !! n = Some q ∧ ∀ l k, n = (c, l, k) → ¬ gone w l k).
  { intros [[x l] k] q H. destruct (decide (x = c)) as [->|]; [|rewrite Hk in H by congruence; split; [done|congruence]].
    assert (¬ gone w l k) as Hng by (intros Hgo; by rewrite Hg in H). rewrite Hk in H by (intros ? ? [= <- <-]; done).
    split; [done|]. intros ? ? [= <- <-]. done. }
  split_and!; [done|..].
  - intros l k Hgo. destruct (G !! (c, l, k)) as [q|] eqn:E; [|done]. destruct (Hsub _ _ E) as [E0 Hng]. exfalso.
    apply (Hng l k eq_refl). by apply (Hgone l k q E0).
  - intros n Hn. destruct n as [[x l] k]. destruct (decide (x = c)) as [->|]; [|apply Hk; congruence].
    destruct (G0 !! (c, l, k)) as [q|] eqn:E.
    + rewrite Hk, E; [done|]. intros ? ? [= <- <-] Hgo. apply (Hn l k eq_refl). by apply (Hgone l k q E).
    + destruct (G !! (c, l, k)) as [q|] eqn:E'; [|done]. destruct (Hsub _ _ E') as [? _]. congruence.
  - intros u Hu. destruct (decide (u < wl)); [by apply Hl|]. rewrite Hm by (intros ? [= <-]; lia).
    destruct (L0 !! (c, u)) as [e|] eqn:E; [|done]. exfalso. apply (Hleaf u e E) in Hu. lia.
  - intros [x u] Hu. destruct (decide (x = c)) as [->|]; [|apply Hm; congruence]. specialize (Hu u eq_refl).
    destruct (decide (wl ≤ u)); [apply Hm; by intros ? [= <-]|]. rewrite Hl by lia.
    destruct (L0 !! (c, u)) as [e|] eqn:E; [|done]. exfalso. assert (u < wl) as H by lia. apply (Hleaf u e E) in H. lia.
  - done.
Qed.

Lemma swap_free_slot_vm slot st : vm_mem (swap_free_slot slot st) = vm_mem st ∧ vm_fr (swap_free_slot slot st) = vm_fr st.
Proof. unfold swap_free_slot. repeat case_match; done. Qed.

(** An entry that is not present is cleared. *)
Lemma tree_clear_absent G L st st1 v pt :
  tree G L st → 0 ≤ v < 2 ^ 35 → G !! (c, 1%nat, v / 512) = Some pt → L !! (c, v) = None → vm_mem st1 = vm_mem st → vm_fr st1 = vm_fr st →
  tree G L (pt_set pt (v mod 512) 0 st1) ∧
  ∀ f, page_ok f → (∀ n, G !! n ≠ Some f) → page_data (pt_set pt (v mod 512) 0 st1) f = page_data st f.
Proof.
  intros T Hv Hpt HL Hm Hf. destruct (path_div v Hv) as (_ & _ & _ & _ & _ & E0 & M0 & _). destruct (tr_page _ _ _ T _ _ Hpt) as [Hp _].
  assert (Hg : ∀ t j, pt_get t j st1 = pt_get t j st) by (intros; unfold pt_get; by rewrite Hm). split.
  - apply (tree_set_leaf G L L st _ c (v / 512) pt (v mod 512)); [done|done|done|done|..].
    + rewrite <- E0, HL, pt_get_set_eq; done.
    + intros n t j Ht Hj Hne. destruct (tr_page _ _ _ T _ _ Ht) as [Htp _]. rewrite pt_get_set_ne; [done|apply Hp|apply Htp|done|done|congruence].
    + change (pg_wf (vm_fr st1)). rewrite Hf. apply T.
    + intros n q _. unfold refs. change (vm_fr (pt_set _ _ _ st1)) with (vm_fr st1). by rewrite Hf.
    + intros [x u] e H. destruct (tr_map _ _ _ T _ _ _ H) as (_ & _ & _ & _ & _ & Hr & _). unfold refs in *.
      change (vm_fr (pt_set _ _ _ st1)) with (vm_fr st1). by rewrite Hf.
  - intros f Hfp Hnf. transitivity (page_data st1 f); [|unfold page_data; by rewrite Hm].
    apply page_data_set; [done|done|apply Hfp|]. intros ->. by apply (Hnf (c, 1%nat, v / 512)).
Qed.

(** A mapped page is freed and its entry cleared. *)
Lemma tree_drop_leaf G L st v pt e a :
  tree G L st → L !! (c, v) = Some e → G !! (c, 1%nat, v / 512) = Some pt → pg_wf a →
  (∀ q, q mod 4096 = 0 → pg_refs a q = if decide (q = pte_addr e) then refs st (pte_addr e) - 1 else refs st q) →
  let st' := pt_set pt (v mod 512) 0 (st <| vm_fr := a |>) in
  tree G (delete (c, v) L) st' ∧ ∀ f, page_ok f → (∀ n, G !! n ≠ Some f) → page_data st' f = page_data st f.
Proof.
  intros T HL Hpt Hw Hr st'. destruct (tr_map _ _ _ T _ _ _ HL) as (Hv & _ & Hpe & _ & _ & _ & Hn).
  destruct (path_div v Hv) as (_ & _ & _ & _ & _ & E0 & M0 & _). destruct (tr_page _ _ _ T _ _ Hpt) as [Hp _]. split.
  - apply (tree_set_leaf G L _ st _ c (v / 512) pt (v mod 512)); [done|done|done|..].
    + intros kv Hne. rewrite <- E0 in Hne. by rewrite lookup_delete_ne.
    + rewrite <- E0, lookup_delete_eq. unfold st'. by rewrite pt_get_set_eq.
    + intros n t j Ht Hj Hne. destruct (tr_page _ _ _ T _ _ Ht) as [Htp _]. unfold st'.
      rewrite pt_get_set_ne; [done|apply Hp|apply Htp|done|done|congruence].
    + done.
    + intros n q Hq. destruct (tr_page _ _ _ T _ _ Hq) as [Hqp _]. unfold refs at 1, st'. cbn [vm_fr pt_set field_upd].
      change (pg_refs a q = refs st q). rewrite Hr, decide_False; [done| |apply Hqp]. intros ->. by apply (Hn n).
    + intros [x u] e2 H. pose proof H as [_ H2]%lookup_delete_Some. destruct (tr_map _ _ _ T _ _ _ H2) as (_ & _ & Hp2 & _ & _ & Hm2 & _).
      change (Z.of_nat (maps (delete (c, v) L) (pte_addr e2)) ≤ pg_refs a (pte_addr e2)). rewrite Hr by apply Hp2.
      rewrite (maps_delete L (c, v) e (pte_addr e2) HL) in Hm2.
      destruct (decide (pte_addr e = pte_addr e2)) as [<-|], (decide (pte_addr e2 = pte_addr e)); (congruence || lia || by rewrite decide_True by done; lia).
  - intros f Hf Hnf. unfold st'. rewrite page_data_set; [done|done|done|apply Hf|]. intros ->. by apply (Hnf (c, 1%nat, v / 512)).
Qed.

Lemma drop_leaf_step w v st pt :
  dropped w v st → 0 ≤ v < 2 ^ 35 → G0 !! (c, 1%nat, v / 512) = Some pt → ¬ gone w 1 (v / 512) →
  ∃ st', drop_leaf pt st (v mod 512) = Some st' ∧ dropped w (v + 1) st'.
Proof.
  intros D Hv Hpt0 Hng. pose proof D as (G & L & T & Hg & Hk & Hl & Hm & Hd).
  assert (Hpt : G !! (c, 1%nat, v / 512) = Some pt) by (rewrite Hk; [done|by intros ? ? [= <- <-]]).
  destruct (path_div v Hv) as (_ & _ & _ & _ & _ & E0 & M0 & _). pose proof (tr_leaf _ _ _ T _ _ _ _ Hpt M0) as Hlf. rewrite <- E0 in Hlf.
  assert (HLv : L !! (c, v) = L0 !! (c, v)) by (apply Hm; intros ? [= <-]; lia).
  assert (Hskip : L !! (c, v) = None → ∀ st', dropped w v st' → dropped w (v + 1) st').
  { intros HN st' D'. apply (dropped_ext w v); [done|done|]. intros u e He. destruct (decide (u = v)) as [->|]; [congruence|lia]. }
  unfold drop_leaf. destruct (L !! (c, v)) as [e|] eqn:HL.
  - rewrite Hlf. destruct (tr_map _ _ _ T _ _ _ HL) as (_ & _ & Hpe & Hpr & _). rewrite Hpr.
    destruct (free_page_spec st (pte_addr e)) as (a & -> & Hwa & _ & Hra); [apply T|done|by apply (tree_leaf_refs G L st c v)|].
    cbn [mbind option_bind]. eexists. split; [done|]. destruct (tree_drop_leaf G L st v pt e a T HL Hpt Hwa Hra) as [T' Hd'].
    exists G, (delete (c, v) L). split_and!; [done|done|done|..].
    + intros u Hu. destruct (decide (u = v)) as [->|]; [apply lookup_delete_eq|]. rewrite lookup_delete_ne by congruence. apply Hl. lia.
    + intros kv Hkv. rewrite lookup_delete_ne; [apply Hm; intros u ->; specialize (Hkv u eq_refl); lia|]. intros <-. specialize (Hkv v eq_refl). lia.
    + intros [x u] e2 H. destruct (tr_map _ _ _ T' _ _ _ H) as (_ & _ & Hp2 & _ & _ & _ & Hn2). rewrite (Hd' _ Hp2 Hn2). apply lookup_delete_Some in H as [_ H].
      by apply (Hd (x, u)).
  - rewrite Hlf. destruct (swap_is_entry _); [|exists st; split; [done|by apply Hskip]]. eexists. split; [done|]. apply Hskip; [done|].
    destruct (swap_free_slot_vm (swap_get_slot (pt_get pt (v mod 512) st)) st) as [Em Ef].
    destruct (tree_clear_absent G L st _ v pt T Hv Hpt HL Em Ef) as [T' Hd']. exists G, L. split_and!; [done..|].
    intros [x u] e2 H. destruct (tr_map _ _ _ T' _ _ _ H) as (_ & _ & Hp2 & _ & _ & _ & Hn2). rewrite (Hd' _ Hp2 Hn2). by apply (Hd (x, u)).
Qed.

(** The bounds after the table [kk] of level [l]. *)
Definition bump (w : nat → Z) (l : nat) (x : Z) : nat → Z := λ j, if decide (j = l) then x else w j.

Section node.
Context (w : nat → Z) (wl : Z) st (l : nat) (k i p t : Z).
Let kk := k * 512 + i.
Context (D : dropped w wl st) (Hl : (1 ≤ l ≤ 3)%nat) (Hi : 0 ≤ i < 512) (Hp : G0 !! (c, l, kk) = Some p) (Ht : G0 !! (c, Datatypes.S l, k) = Some t)
  (Hw : w l = kk * 512 ^ Z.of_nat l) (Hw1 : l = 1%nat → (kk + 1) * 512 ≤ wl)
  (Hw2 : (2 ≤ l)%nat → (kk + 1) * 512 ^ Z.of_nat l ≤ w (l - 1)%nat) (Hnp : ¬ gone w (Datatypes.S l) k).

Lemma pow_pos512 : 0 < 512 ^ Z.of_nat l.
Proof. apply Z.pow_pos_nonneg; lia. Qed.

Lemma child_gone l' k' : Datatypes.S l' = l → (1 ≤ l')%nat → k' / 512 = kk → gone w l' k'.
Proof.
  intros El Hl' Ek. split; [lia|]. replace (l - 1)%nat with l' in Hw2 by lia.
  assert (512 ^ Z.of_nat l = 512 * 512 ^ Z.of_nat l') as Ep by (rewrite <- El, Nat2Z.inj_succ, Z.pow_succ_r by lia; done).
  assert (0 < 512 ^ Z.of_nat l') by (apply Z.pow_pos_nonneg; lia).
  pose proof (Z.div_mod k' 512 ltac:(lia)). pose proof (Z.mod_pos_bound k' 512 ltac:(lia)). specialize (Hw2 ltac:(lia)).
  transitivity ((kk + 1) * 512 * 512 ^ Z.of_nat l'); [apply Z.mul_le_mono_nonneg_r; lia|]. rewrite Ep in Hw2. lia.
Qed.

Lemma drop_node_step : ∃ st', free_page p (pt_set t i 0 st) = Some st' ∧ dropped (bump w l ((kk + 1) * 512 ^ Z.of_nat l)) wl st'.
Proof.
  pose proof pow_pos512 as Hpw. destruct D as (G & L & T & Hg & Hk & HlL & Hm & Hd).
  assert (HpG : G !! (c, l, kk) = Some p) by (rewrite Hk; [done|]; intros ? ? [= <- <-] [_ H]; lia).
  assert (HtG : G !! (c, Datatypes.S l, k) = Some t) by (rewrite Hk; [done|]; by intros ? ? [= <- <-]).
  destruct (tr_page _ _ _ T _ _ HpG) as [Hpp Hpr]. destruct (tr_page _ _ _ T _ _ HtG) as [Htp _].
  destruct (free_page_spec (pt_set t i 0 st) p) as (a & -> & Hwa & _ & Hra); [apply T|done|change (1 ≤ refs st p); lia|].
  eexists. split; [done|]. set (st' := _ <| vm_fr := a |>). exists (delete (c, l, kk) G), L.
  assert (T' : tree (delete (c, l, kk) G) L st').
  { apply (tree_remove G L st st' (c, l, kk) p); [done|done|done|..].
    - intros q Hq Hne. change (pg_refs a q = refs st q). by rewrite Hra, decide_False.
    - intros c' l' k' q H Hl' [= -> El Ek]. destruct (tr_node _ _ _ T _ _ _ _ H) as (? & _). rewrite Hg in H; [done|]. apply child_gone; [done|lia|done].
    - intros c' v e H [= -> El Ek]. pose proof (Z.div_mod v 512 ltac:(lia)). pose proof (Z.mod_pos_bound v 512 ltac:(lia)).
      rewrite HlL in H; [done|]. specialize (Hw1 (eq_sym El)). lia.
    - intros c' l' k' t' i' H Hl' Hi' Hb'. destruct (tr_page _ _ _ T _ _ H) as [Htp' _]. case_decide as E.
      + injection E as -> -> E. assert (k' = k ∧ i' = i) as [-> ->] by (unfold kk in E; lia). rewrite HtG in H. injection H as <-.
        unfold st'. by rewrite pt_get_fr, pt_get_set_eq.
      + unfold st'. rewrite pt_get_fr, pt_get_set_ne; [done|apply Htp|apply Htp'|done|done|]. intros [= <- <-].
        pose proof (tr_inj _ _ _ T _ _ _ H HtG) as [= -> -> ->]. done.
    - intros c' k' t' i' H Hne Hi'. destruct (tr_page _ _ _ T _ _ H) as [Htp' _]. unfold st'.
      rewrite pt_get_fr, pt_get_set_ne; [done|apply Htp|apply Htp'|done|done|]. intros [= <- <-].
      pose proof (tr_inj _ _ _ T _ _ _ H HtG) as [= _ E _]. lia. }
  assert (Hmono : ∀ l' k', gone w l' k' → gone (bump w l ((kk + 1) * 512 ^ Z.of_nat l)) l' k').
  { intros l' k' [Hl' H]. split; [done|]. unfold bump. case_decide as E; [subst l'; lia|done]. }
  split_and!; [done|..].
  - intros l' k' [Hl' H]. unfold bump in H. destruct (decide ((l', k') = (l, kk))) as [[= -> ->]|Hne]; [apply lookup_delete_eq|].
    rewrite lookup_delete_ne by congruence. apply Hg. split; [done|]. case_decide as E; [|done]. subst l'.
    apply Z.mul_le_mono_pos_r in H; [|done]. assert (k' ≠ kk) by congruence. rewrite Hw. apply Z.mul_le_mono_nonneg_r; lia.
  - intros n Hn. rewrite lookup_delete_ne.
    + apply Hk. intros l' k' -> H. by apply (Hn l' k' eq_refl), Hmono.
    + intros <-. apply (Hn l kk eq_refl). split; [done|]. unfold bump. by rewrite decide_True.
  - done.
  - done.
  - intros [x u] e H. destruct (tr_map _ _ _ T _ _ _ H) as (_ & _ & Hpe & _ & _ & _ & Hne). unfold st'. rewrite page_data_fr, page_data_set; [by apply (Hd (x, u))|done|done|apply Hpe|].
    intros E. apply (Hne (c, Datatypes.S l, k)). by rewrite E.
Qed.
End node.

(** Everything of the levels up to [l] is gone below [x]; [w] are the bounds of the
    higher levels. *)
Definition dinv (l : nat) (w : nat → Z) (x : Z) st : Prop := dropped (λ j, if decide (j ≤ l)%nat then x else w j) x st.

Lemma foldM_range (I : Z → vm_st A S → Prop) f n base d st :
  0 ≤ n → (∀ i st, 0 ≤ i < n → I (base + i * d) st → ∃ st', f st i = Some st' ∧ I (base + (i + 1) * d) st') → I base st →
  ∃ st', foldM f (seqZ 0 n) st = Some st' ∧ I (base + n * d) st'.
Proof.
  intros Hn Hstep H0. unfold foldM. apply (fold_range (λ x o, ∃ st', o = Some st' ∧ I x st')); [done| |by exists st].
  intros i o Hi (st1 & -> & H1). cbn [mbind option_bind]. by apply Hstep.
Qed.

Lemma tree_above l l' k q :
  G0 !! (c, l', k) = Some q → (l' ≤ l ≤ 4)%nat → is_Some (G0 !! (c, l, k / 512 ^ Z.of_nat (l - l'))).
Proof.
  intros H Hl. remember (l - l')%nat as d eqn:Ed. revert l Hl Ed. induction d as [|d IH]; intros l Hl Ed.
  - assert (l = l') as -> by lia. rewrite Z.pow_0_r, Z.div_1_r. by eexists.
  - destruct (IH (l - 1)%nat) as [q' Hq']; [lia..|]. destruct (tr_node _ _ _ T0 _ _ _ _ Hq') as (_ & _ & _ & _ & Hup).
    replace (Datatypes.S (l - 1)) with l in Hup by lia. rewrite Z.div_div in Hup by lia.
    replace (512 ^ Z.of_nat (Datatypes.S d)) with (512 ^ Z.of_nat d * 512); [apply Hup; lia|]. rewrite Nat2Z.inj_succ, Z.pow_succ_r by lia. lia.
Qed.

Lemma dinv_skip l w kk st :
  (1 ≤ l ≤ 3)%nat → G0 !! (c, l, kk) = None → dinv l w (kk * 512 ^ Z.of_nat l) st → dinv l w ((kk + 1) * 512 ^ Z.of_nat l) st.
Proof.
  intros Hl HN D. assert (0 < 512 ^ Z.of_nat l) as Hpw by (apply Z.pow_pos_nonneg; lia). eapply dropped_ext; [apply D| |].
  - intros l' k' q H. unfold gone. destruct (decide (l' ≤ l)%nat) as [Hle|]; [|done]. split; intros [Hl' Hk']; (split; [done|]); [lia|].
    destruct (tree_above l l' k' q H ltac:(lia)) as [r Hr]. set (m := 512 ^ Z.of_nat l') in *. set (b := 512 ^ Z.of_nat (l - l')) in *.
    assert (512 ^ Z.of_nat l = b * m) as E by (unfold b, m; rewrite <- Z.pow_add_r by lia; f_equal; lia).
    assert (0 < m) by (apply Z.pow_pos_nonneg; lia). assert (0 < b) by (apply Z.pow_pos_nonneg; lia).
    assert (k' / b ≠ kk) as Hne by congruence. rewrite E in *. assert (k' + 1 ≤ (kk + 1) * b) as Hk1 by (apply (Z.mul_le_mono_pos_r _ _ m); lia).
    assert (k' / b < kk + 1) by (apply Z.div_lt_upper_bound; lia). pose proof (Z.div_mod k' b ltac:(lia)). pose proof (Z.mod_pos_bound k' b ltac:(lia)).
    assert (k' + 1 ≤ kk * b) by nia. rewrite Z.mul_assoc. apply Z.mul_le_mono_nonneg_r; lia.
  - intros u e H. split; [lia|]. intros Hu. destruct (decide (u < kk * 512 ^ Z.of_nat l)); [done|].
    rewrite (no_leaf_below G0 L0 st0 c T0 l kk u) in H by (done || lia). done.
Qed.

(** One entry of a table of level [l + 1]; [inner] is the loop over the table below. *)
Lemma drop_entry (huge : bool) l k i t w st (inner : Z → vm_st A S → option (vm_st A S)) :
  let kk := k * 512 + i in let w' := bump w l (kk * 512 ^ Z.of_nat l) in
  (1 ≤ l ≤ 3)%nat → G0 !! (c, Datatypes.S l, k) = Some t → 0 ≤ i < 512 → kk * 512 ^ Z.of_nat l < 2 ^ 35 → ¬ gone w (Datatypes.S l) k →
  dinv l w (kk * 512 ^ Z.of_nat l) st →
  (∀ q st, G0 !! (c, l, kk) = Some q → dinv (l - 1) w' (kk * 512 ^ Z.of_nat l) st →
     ∃ st1, inner q st = Some st1 ∧ dinv (l - 1) w' ((kk + 1) * 512 ^ Z.of_nat l) st1) →
  ∃ st', (let e := pt_get t i st in
          if negb (pte_has e PTE_PRESENT) then Some st
          else if huge && pte_has e PTE_HUGE then Some st
          else st1 ← inner (pte_addr e) st; free_page (pte_addr e) (pt_set t i 0 st1)) = Some st' ∧
    dinv l w ((kk + 1) * 512 ^ Z.of_nat l) st'.
Proof.
  intros kk w' Hl Ht Hi Hb Hnp D Hin. assert (0 < 512 ^ Z.of_nat l) as Hpw by (apply Z.pow_pos_nonneg; lia).
  pose proof D as (G & L & T & Hg & Hk & _). cbv zeta.
  assert (HtG : G !! (c, Datatypes.S l, k) = Some t).
  { rewrite Hk; [done|]. intros ? ? [= <- <-] [H1 H2]. rewrite decide_False in H2 by lia. by apply Hnp. }
  assert (HkG : G !! (c, l, kk) = G0 !! (c, l, kk)).
  { apply Hk. intros ? ? [= <- <-] [H1 H2]. rewrite decide_True in H2 by lia. lia. }
  pose proof (tr_down _ _ _ T _ _ _ _ _ HtG ltac:(lia) Hi Hb) as Hd. fold kk in Hd. rewrite HkG in Hd.
  destruct (G0 !! (c, l, kk)) as [q|] eqn:Hq.
  2: { rewrite Hd. cbn [negb]. exists st. split; [done|]. by apply dinv_skip. }
  destruct Hd as (-> & -> & _ & _ & ->). rewrite andb_false_r. cbn [negb].
  destruct (Hin q st eq_refl) as (st1 & -> & D1).
  { eapply dropped_ext; [apply D| |done]. intros l' k' r _. unfold gone, w', bump.
    destruct (decide (l' ≤ l)%nat), (decide (l' ≤ l - 1)%nat), (decide (l' = l)); (done || lia). }
  cbn [mbind option_bind]. edestruct (drop_node_step _ _ st1 l k i q t D1) as (st' & -> & D'); [done|done|done|done|..].
  - rewrite decide_False by lia. unfold w', bump. by rewrite decide_True.
  - intros ->. fold kk. change (512 ^ Z.of_nat 1) with 512. lia.
  - intros H2. fold kk. rewrite decide_True by lia. lia.
  - intros [H1 H2]. apply Hnp. split; [done|]. rewrite decide_False in H2 by lia. unfold w', bump in H2. by rewrite decide_False in H2 by lia.
  - exists st'. split; [done|]. fold kk in D'. eapply dropped_ext; [apply D'| |done]. intros l' k' r _. unfold gone, w', bump.
    destruct (decide (l' ≤ l)%nat), (decide (l' ≤ l - 1)%nat), (decide (l' = l)); (done || lia).
Qed.

Lemma drop_leaves kk w q st :
  G0 !! (c, 1%nat, kk) = Some q → kk * 512 < 2 ^ 35 → 0 ≤ kk → w 1%nat = kk * 512 → dinv 0 w (kk * 512) st →
  ∃ st', foldM (drop_leaf q) (seqZ 0 512) st = Some st' ∧ dinv 0 w ((kk + 1) * 512) st'.
Proof.
  intros Hq Hb Hk Hw D. replace ((kk + 1) * 512) with (kk * 512 + 512 * 1) by lia. apply (foldM_range (dinv 0 w)); [lia| |done].
  intros i st1 Hi. rewrite !Z.mul_1_r. intros D1. assert ((kk * 512 + i) / 512 = kk) as Ed by (rewrite Z.div_add_l, Z.div_small; lia).
  assert ((kk * 512 + i) mod 512 = i) as Em by (rewrite Z.add_comm, Z.mod_add, Z.mod_small; lia).
  edestruct (drop_leaf_step _ (kk * 512 + i) st1 q D1) as (st' & Hs & D'); [lia|by rewrite Ed| |].
  - rewrite Ed. intros [_ H]. rewrite decide_False, Hw in H by lia. change (512 ^ Z.of_nat 1) with 512 in H. lia.
  - rewrite Em in Hs. exists st'. split; [done|]. rewrite Z.add_assoc. eapply dropped_ext; [apply D'| |done].
    intros l k r _. unfold gone. destruct (decide (l ≤ 0)%nat); [|done]. split; intros [? _]; lia.
Qed.

Lemma gone_at w l k : w l = k * 512 ^ Z.of_nat l → ¬ gone w l k.
Proof. intros Hw [Hl H]. assert (0 < 512 ^ Z.of_nat l) by (apply Z.pow_pos_nonneg; lia). rewrite Hw in H. lia. Qed.

Lemma drop_pts k w pd st :
  G0 !! (c, 2%nat, k) = Some pd → k * (512 * 512) < 2 ^ 35 → 0 ≤ k → w 2%nat = k * (512 * 512) → dinv 1 w (k * (512 * 512)) st →
  ∃ st', foldM (drop_pt pd) (seqZ 0 512) st = Some st' ∧ dinv 1 w ((k + 1) * (512 * 512)) st'.
Proof.
  intros Hpd Hb Hk Hw D. replace ((k + 1) * (512 * 512)) with (k * (512 * 512) + 512 * 512) by lia. apply (foldM_range (dinv 1 w)); [lia| |done].
  intros i st1 Hi. replace (k * (512 * 512) + i * 512) with ((k * 512 + i) * 512) by lia.
  replace (k * (512 * 512) + (i + 1) * 512) with ((k * 512 + i + 1) * 512) by lia. intros D1.
  pose proof (drop_entry true 1 k i pd w st1 (λ q, foldM (drop_leaf q) (seqZ 0 512))) as H. cbv zeta in H. cbn [andb] in H.
  change (512 ^ Z.of_nat 1) with 512 in H. unfold drop_pt. apply H; clear H; [lia|done|lia|lia|by apply gone_at|done|].
  intros q st2 Hq D2. apply drop_leaves; [done|lia|lia|done|done].
Qed.

Lemma drop_pds k w pdpt st :
  G0 !! (c, 3%nat, k) = Some pdpt → k * (512 * 512 * 512) < 2 ^ 35 → 0 ≤ k → w 3%nat = k * (512 * 512 * 512) →
  dinv 2 w (k * (512 * 512 * 512)) st →
  ∃ st', foldM (drop_pd pdpt) (seqZ 0 512) st = Some st' ∧ dinv 2 w ((k + 1) * (512 * 512 * 512)) st'.
Proof.
  intros Hpd Hb Hk Hw D. replace ((k + 1) * (512 * 512 * 512)) with (k * (512 * 512 * 512) + 512 * (512 * 512)) by lia.
  apply (foldM_range (dinv 2 w)); [lia| |done]. intros i st1 Hi.
  replace (k * (512 * 512 * 512) + i * (512 * 512)) with ((k * 512 + i) * (512 * 512)) by lia.
  replace (k * (512 * 512 * 512) + (i + 1) * (512 * 512)) with ((k * 512 + i + 1) * (512 * 512)) by lia. intros D1.
  pose proof (drop_entry false 2 k i pdpt w st1 (λ q, foldM (drop_pt q) (seqZ 0 512))) as H. cbv zeta in H. cbn [andb] in H.
  change (512 ^ Z.of_nat 2) with (512 * 512) in H. unfold drop_pd. apply H; clear H; [lia|done|lia|lia|by apply gone_at|done|].
  intros q st2 Hq D2. apply drop_pts; [done|lia|lia|done|done].
Qed.

Lemma drop_pdpts st :
  dinv 3 (λ _, 0) 0 st → ∃ st', foldM (drop_pdpt c) (seqZ 0 256) st = Some st' ∧ dinv 3 (λ _, 0) (2 ^ 35) st'.
Proof.
  intros D. change (2 ^ 35) with (0 + 256 * (512 * 512 * 512)). apply (foldM_range (dinv 3 (λ _, 0))); [lia| |done].
  intros i st1 Hi. rewrite !Z.add_0_l. intros D1.
  pose proof (drop_entry false 3 0 i c (λ _, 0) st1 (λ q, foldM (drop_pd q) (seqZ 0 512))) as H. cbv zeta in H. cbn [andb] in H.
  change (512 ^ Z.of_nat 3) with (512 * 512 * 512) in H. unfold drop_pdpt. apply H; clear H; [lia|done|lia|lia|intros [? _]; lia|done|].
  intros q st2 Hq D2. apply drop_pds; [done|lia|lia|done|done].
Qed.
End drop.

(** ** [vmm_free_user_pages] *)

Record exited (c : Z) G L st G' L' st' : Prop := {
  ex_tree : tree G' L' st';
  ex_excl : excl L';
  ex_roots x : is_Some (G' !! (x, 4%nat, 0)) ↔ x ≠ c ∧ is_Some (G !! (x, 4%nat, 0));
  ex_maps x u : L' !! (x, u) = if decide (x = c) then None else L !! (x, u);
  ex_data kv e : L' !! kv = Some e → page_data st' (pte_addr e) = page_data st (pte_addr e)
}.

Lemma maps_subseteq L L' f : L' ⊆ L → (maps L' f ≤ maps L f)%nat.
Proof. intros H. apply map_subseteq_size. by apply map_filter_subseteq_mono. Qed.

Lemma excl_subseteq L L' : excl L → L' ⊆ L → excl L'.
Proof.
  intros X Hs [c v] e H Hw. destruct (X (c, v) e) as [H1 H2]; [by eapply lookup_weaken|done|]. split; [|done].
  pose proof (maps_pos _ _ _ _ H). pose proof (maps_subseteq L L' (pte_addr e) Hs). lia.
Qed.

(** A table of a space ends below the end of user memory. *)
Lemma node_end G L st c l k p : tree G L st → G !! (c, l, k) = Some p → (l ≤ 3)%nat → (k + 1) * 512 ^ Z.of_nat l ≤ 2 ^ 35.
Proof.
  intros T H Hl. destruct (tr_node _ _ _ T _ _ _ _ H) as (Hl1 & Hk & Hb & _).
  assert (l = 1 ∨ l = 2 ∨ l = 3)%nat as [->|[->| ->]] by lia;
    [change (512 ^ Z.of_nat 1) with (2 ^ 9) in *|change (512 ^ Z.of_nat 2) with (2 ^ 18) in *|change (512 ^ Z.of_nat 3) with (2 ^ 27) in *]; lia.
Qed.

Lemma exit_spec G L st c :
  tree G L st → excl L → G !! (c, 4%nat, 0) = Some c →
  ∃ G' L' st', vmm_free_user_pages c st = Some st' ∧ exited c G L st G' L' st'.
Proof.
  intros T X Hc. unfold vmm_free_user_pages. destruct (drop_pdpts G L st c T Hc st) as (st1 & -> & D).
  { exists G, L. split_and!; try done.
    - intros l k [Hl H]. rewrite decide_True in H by lia. destruct (G !! (c, l, k)) as [p|] eqn:E; [|done].
      destruct (tr_node _ _ _ T _ _ _ _ E) as (_ & Hk & _). assert (0 < 512 ^ Z.of_nat l) by (apply Z.pow_pos_nonneg; lia). lia.
    - intros u Hu. destruct (L !! (c, u)) as [e|] eqn:E; [|done]. destruct (tr_map _ _ _ T _ _ _ E) as (? & _). lia. }
  destruct D as (G1 & L1 & T1 & Hg & Hk & Hl & Hm & Hd).
  assert (HN : ∀ l k, (l ≤ 3)%nat → G1 !! (c, l, k) = None).
  { intros l k Hl3. destruct (decide ((1 ≤ l)%nat ∧ (k + 1) * 512 ^ Z.of_nat l ≤ 2 ^ 35)) as [[H1 H2]|Hno].
    - apply Hg. split; [lia|]. by rewrite decide_True by lia.
    - destruct (G1 !! (c, l, k)) as [p|] eqn:E; [|done]. exfalso. apply Hno.
      destruct (tr_node _ _ _ T1 _ _ _ _ E) as (H1 & _). split; [lia|]. by eapply node_end. }
  assert (HL : ∀ u, L1 !! (c, u) = None).
  { intros u. destruct (L1 !! (c, u)) as [e|] eqn:E; [|done]. destruct (tr_map _ _ _ T1 _ _ _ E) as (Hu & _). by rewrite Hl in E by lia. }
  assert (Hr1 : G1 !! (c, 4%nat, 0) = Some c).
  { rewrite Hk; [done|]. intros l k [= <- <-] [H _]. lia. }
  destruct (tr_page _ _ _ T1 _ _ Hr1) as [Hcp Hcr].
  destruct (free_page_spec st1 c) as (a & Hfp & Hwa & _ & Hra); [apply T1|done|lia|]. cbn [mbind option_bind].
  assert (HLe : ∀ x u, L1 !! (x, u) = if decide (x = c) then None else L !! (x, u)).
  { intros x u. case_decide; [subst; apply HL|]. apply Hm. congruence. }
  exists (delete (c, 4%nat, 0) G1), L1, (st1 <| vm_fr := a |>). split; [done|]. split.
  - apply (tree_remove G1 L1 st1 _ (c, 4%nat, 0) c); [done|done|done|..].
    + intros q Hq Hne. change (pg_refs a q = refs st1 q). by rewrite Hra, decide_False.
    + intros x l k q H Hl4 [= -> El Ek]. rewrite HN in H by lia. done.
    + intros x v e H [= -> El]. 
    + intros x l k t i H Hl1 Hi Hb. rewrite decide_False; [done|]. intros [= -> -> E]. by destruct (tr_node _ _ _ T1 _ _ _ _ H) as (? & _); lia.
    + done.
  - apply (excl_subseteq L); [done|]. apply map_subseteq_spec. intros [x u] e H. rewrite HLe in H. by case_decide.
  - intros x. destruct (decide (x = c)) as [->|].
    + rewrite lookup_delete_eq. split; [by intros [? ?]|]. by intros [? _].
    + rewrite lookup_delete_ne, Hk by congruence. tauto.
  - done.
  - intros kv e H. rewrite page_data_fr. by apply (Hd kv).
Qed.
End exit.
