(* ===== verification/CowSpec.v ===== *)
(** * CowSpec: processes have private memories

    The abstract machine of address spaces and the refinement: fork, loads, stores
    with their copy-on-write faults, demand-zero pages and exits on the page tables
    behave like operations on independent finite maps. *)

From S2P Require Import Prelude KUtil AgentNs Bitmap Pmm Mem Bytes BlockStore Vmm PmmFrames VmmTree ProcMem CowMem CowFork CowExit.

(** ** The abstract machine *)

(** A page: may the program write it, and its bytes. *)
Abbreviation apage := (bool * list Z)%type.
Abbreviation aspaces := (gmap Z (gmap Z apage)).

(** What programs and the kernel do with address spaces. *)
Inductive vop :=
| VNew
| VFork (c : Z)
| VStore (c va b : Z)
| VLoad (c va : Z)
| VDemand (c va : Z)
| VExit (c : Z).

Inductive vres := RSpace (c : Z) | ROk | RByte (b : Z) | RFail.

(** One step; [enough]: there is memory for what the operation may need. *)
Inductive astep (enough : Prop) : aspaces → vop → vres → aspaces → Prop :=
| A_new sp c : sp !! c = None → astep enough sp VNew (RSpace c) (<[c := ∅]> sp)
| A_new_fail sp : ¬ enough → astep enough sp VNew RFail sp
| A_fork sp c M ch M' :
    sp !! c = Some M → sp !! ch = None → M' ⊆ M → (enough → M' = M) → astep enough sp (VFork c) (RSpace ch) (<[ch := M']> sp)
| A_fork_fail sp c : ¬ enough → astep enough sp (VFork c) RFail sp
| A_store sp c M va b d :
    sp !! c = Some M → M !! (va / 4096) = Some (true, d) →
    astep enough sp (VStore c va b) ROk (<[c := <[va / 4096 := (true, <[Z.to_nat (va mod 4096) := b]> d)]> M]> sp)
| A_store_fail sp c M va b :
    sp !! c = Some M → (enough → ∀ d, M !! (va / 4096) ≠ Some (true, d)) → astep enough sp (VStore c va b) RFail sp
| A_load sp c M va w d :
    sp !! c = Some M → M !! (va / 4096) = Some (w, d) → astep enough sp (VLoad c va) (RByte (d !!! Z.to_nat (va mod 4096))) sp
| A_load_fail sp c M va : sp !! c = Some M → M !! (va / 4096) = None → astep enough sp (VLoad c va) RFail sp
| A_demand sp c M va :
    sp !! c = Some M → M !! (va / 4096) = None →
    astep enough sp (VDemand c va) ROk (<[c := <[va / 4096 := (true, replicate 4096 0)]> M]> sp)
| A_demand_fail sp c va : ¬ enough → astep enough sp (VDemand c va) RFail sp
| A_exit sp c M : sp !! c = Some M → astep enough sp (VExit c) ROk (delete c sp).

Section spec.
Context {A S : Type} `{!Frames A, !FramesOk A} `{!BlockStore S}.
Implicit Types st : vm_st A S.
Implicit Types G : gmap (Z * nat * Z) Z.
Implicit Types L : gmap (Z * Z) Z.
Implicit Types sp : aspaces.

(** ** The machine *)

(** A store by the program: the processor's walk, and the fault handler if the page
    is present but not writable. *)
Definition user_store (c va b : Z) st : vres * vm_st A S :=
  match mmu true c va st with
  | Some a => (ROk, st <| vm_mem := <[a := b]> (vm_mem st) |>)
  | None =>
      match mmu false c va st with
      | None => (RFail, st)
      | Some _ =>
          let '(ok, st) := cow_fault c va st in
          if negb ok then (RFail, st)
          else
            match mmu true c va st with
            | Some a => (ROk, st <| vm_mem := <[a := b]> (vm_mem st) |>)
            | None => (RFail, st)
            end
      end
  end.

(** A load by the program. *)
Definition user_load (c va : Z) st : vres :=
  match mmu false c va st with Some a => RByte (byte_at (vm_mem st) a) | None => RFail end.

Definition vm_exec (o : vop) st : option (vres * vm_st A S) :=
  match o with
  | VNew => let '(c, st) := vmm_create_address_space st in Some (if c =? 0 then RFail else RSpace c, st)
  | VFork c => let '(ch, st) := vmm_clone_cow c [] st in Some (if ch =? 0 then RFail else RSpace ch, st)
  | VStore c va b => Some (user_store c va b st)
  | VLoad c va => Some (user_load c va st, st)
  | VDemand c va => let '(r, st) := demand_page_fault c va st in Some (if r =? 0 then ROk else RFail, st)
  | VExit c => st ← vmm_free_user_pages c st; Some (ROk, st)
  end.

(** ** The relation *)

(** Only copy-on-write pages remember that they were writable. *)
Definition flags_ok L : Prop := ∀ kv e, L !! kv = Some e → pte_has e PTE_WAS_WRITABLE = true → pte_has e PTE_COW = true.

Definition viewed sp L st : Prop := ∀ c M v, sp !! c = Some M → M !! v = page_view st <$> L !! (c, v).

Definition spaces sp G st : Prop := ∃ L,
  tree G L st ∧ excl L ∧ flags_ok L ∧ (∀ c, is_Some (sp !! c) ↔ is_Some (G !! (c, 4%nat, 0))) ∧ viewed sp L st.

Lemma root_of G L st c : tree G L st → is_Some (G !! (c, 4%nat, 0)) → G !! (c, 4%nat, 0) = Some c.
Proof. intros T [p Hp]. by apply (tree_root G L st c 4 0 p). Qed.

(** ** Stores *)

Lemma page_data_insert st f o b :
  0 ≤ o < 4096 → page_data (st <| vm_mem := <[f + o := b]> (vm_mem st) |>) f = <[Z.to_nat o := b]> (page_data st f).
Proof.
  intros Ho. unfold page_data. change (vm_mem (_ <| vm_mem := ?m |>)) with m. apply list_eq. intros i.
  destruct (decide (i < 4096)%nat) as [Hi|Hi].
  - destruct (decide (i = Z.to_nat o)) as [->|Hne].
    + rewrite list_lookup_insert_eq by (rewrite load_bytes_length; done). rewrite load_bytes_lookup by done.
      rewrite byte_at_insert, decide_True by lia. done.
    + rewrite list_lookup_insert_ne by done. rewrite !load_bytes_lookup by done. rewrite byte_at_insert, decide_False by lia. done.
  - rewrite !lookup_ge_None_2; [done|..]; rewrite ?length_insert, load_bytes_length; lia.
Qed.

Lemma store_spec G L st c v e va b :
  tree G L st → excl L → L !! (c, v) = Some e → pte_has e PTE_WRITABLE = true → v = va / 4096 →
  let st' := st <| vm_mem := <[pte_addr e + va mod 4096 := b]> (vm_mem st) |> in
  tree G L st' ∧ page_data st' (pte_addr e) = <[Z.to_nat (va mod 4096) := b]> (page_data st (pte_addr e)) ∧
  ∀ kv e2, kv ≠ (c, v) → L !! kv = Some e2 → page_data st' (pte_addr e2) = page_data st (pte_addr e2).
Proof.
  intros T X HL Hw Hv st'. pose proof (Z.mod_pos_bound va 4096 ltac:(lia)) as Ho. destruct (tr_map _ _ _ T _ _ _ HL) as (_ & _ & Hp & _ & _ & _ & Hn).
  pose proof (page_at_page _ Hp _ Ho) as Hpa. split_and!.
  - apply tree_data; [done|]. intros a n Ha. rewrite byte_at_insert, decide_False; [done|]. intros <-. rewrite Hpa in Ha. by apply (Hn n).
  - by apply page_data_insert.
  - intros kv e2 Hne H2. destruct (X _ _ HL Hw) as [Hm _]. assert (pte_addr e2 ≠ pte_addr e) as Hna.
    { intros E. apply Hne. by apply (maps_once L (c, v) kv e e2). }
    apply page_data_same; [apply pte_addr_bound|]. intros a Ha. cbn. rewrite byte_at_insert, decide_False; [done|]. intros <-. congruence.
Qed.

(** One page of one space changes its view. *)
Lemma viewed_update sp L L' st st' c v M e' :
  viewed sp L st → sp !! c = Some M → L' !! (c, v) = Some e' →
  (∀ kv, kv ≠ (c, v) → page_view st' <$> L' !! kv = page_view st <$> L !! kv) →
  viewed (<[c := <[v := page_view st' e']> M]> sp) L' st'.
Proof.
  intros V HM He Ho x M' u [[<- <-]|[Hne H]]%lookup_insert_Some.
  - destruct (decide (u = v)) as [->|]; [by rewrite lookup_insert_eq, He|]. rewrite lookup_insert_ne, Ho by congruence. by apply V.
  - rewrite Ho by congruence. by apply V.
Qed.

Lemma viewed_same sp L st st' : viewed sp L st → (∀ kv e, L !! kv = Some e → page_data st' (pte_addr e) = page_data st (pte_addr e)) → viewed sp L st'.
Proof.
  intros V Hd c M v HM. rewrite (V c M v HM). destruct (L !! (c, v)) as [e|] eqn:E; [|done]. cbn. unfold page_view. by rewrite (Hd _ _ E).
Qed.

Lemma roots_insert sp c M M' G : (∀ x, is_Some (sp !! x) ↔ is_Some (G !! (x, 4%nat, 0))) → sp !! c = Some M →
  ∀ x, is_Some (<[c := M']> sp !! x) ↔ is_Some (G !! (x, 4%nat, 0)).
Proof.
  intros Hr HM x. rewrite <- Hr, lookup_insert_is_Some. split; [|intros ?; destruct (decide (c = x)); [by left|by right]].
  intros [<-|[_ ?]]; [by eexists|done].
Qed.

(** A store to a writable entry. *)
Lemma store_now sp G L st c va e M b :
  tree G L st → excl L → flags_ok L → (∀ x, is_Some (sp !! x) ↔ is_Some (G !! (x, 4%nat, 0))) → viewed sp L st →
  sp !! c = Some M → L !! (c, va / 4096) = Some e → pte_has e PTE_WRITABLE = true →
  let d := page_data st (pte_addr e) in
  M !! (va / 4096) = Some (true, d) ∧
  spaces (<[c := <[va / 4096 := (true, <[Z.to_nat (va mod 4096) := b]> d)]> M]> sp) G
    (st <| vm_mem := <[pte_addr e + va mod 4096 := b]> (vm_mem st) |>).
Proof.
  intros T X F Hr V HM HL Hw d. assert (user_w e = true) as Hu by (unfold user_w; by rewrite Hw). split.
  { rewrite (V c M _ HM), HL, <- Hu. reflexivity. }
  destruct (store_spec G L st c (va / 4096) e va b T X HL Hw eq_refl) as (T' & Hd & Ho). set (st' := _ <| vm_mem := _ |>) in *.
  exists L. split_and!; [done|done|done|by eapply roots_insert|].
  assert (page_view st' e = (true, <[Z.to_nat (va mod 4096) := b]> d)) as <- by (unfold page_view; by rewrite Hu, Hd).
  apply (viewed_update sp L L st); [done..|]. intros kv Hne. destruct (L !! kv) as [e2|] eqn:E; [|done]. cbn. unfold page_view. by rewrite (Ho kv e2 Hne E).
Qed.

Lemma store_step sp G st c va b M :
  spaces sp G st → sp !! c = Some M → 0 ≤ va < 2 ^ 47 →
  let '(r, st') := user_store c va b st in ∃ sp', astep (0 < avail st)%nat sp (VStore c va b) r sp' ∧ spaces sp' G st'.
Proof.
  intros HS HM Hva. pose proof HS as (L & T & X & F & Hr & V). assert (Hc : G !! (c, 4%nat, 0) = Some c) by (apply (root_of G L st); [done|apply Hr; by eexists]).
  unfold user_store. rewrite !(mmu_spec G L st c (va / 4096)) by done.
  destruct (L !! (c, va / 4096)) as [e|] eqn:HL; cbn [mbind option_bind negb orb].
  2: { exists sp. split; [|done]. apply (A_store_fail _ sp c M); [done|]. intros _ d. by rewrite (V c M _ HM), HL. }
  destruct (pte_has e PTE_WRITABLE) eqn:Hw.
  { destruct (store_now sp G L st c va e M b T X F Hr V HM HL Hw) as [Hd HS']. eexists. split; [by eapply A_store|done]. }
  destruct (pte_has e PTE_COW && pte_has e PTE_WAS_WRITABLE) eqn:Hcw.
  - apply andb_prop in Hcw as [Hcow Hww]. destruct (cow_fault_spec G L st c va (va / 4096) e T X Hc eq_refl Hva HL Hcow Hww) as (ok & st1 & -> & H).
    destruct ok; cbn [negb].
    2: { destruct H as [-> H0]. exists sp. split; [|done]. apply (A_store_fail _ sp c M); [done|]. lia. }
    destruct H as (p & T1 & X1 & Hp & Hd1 & _ & Ho1). destruct (fixed_pte_ok G L st c (va / 4096) e T HL p Hp) as (_ & Ha & _ & Hw1 & Hcw1 & _ & Hww1).
    set (e1 := fixed_pte e p) in *. set (L1 := <[(c, va / 4096) := e1]> L) in *.
    assert (HL1 : L1 !! (c, va / 4096) = Some e1) by apply lookup_insert_eq.
    rewrite (mmu_spec G L1 st1 c (va / 4096)), HL1 by done. cbn [mbind option_bind negb orb]. rewrite Hw1.
    assert (F1 : flags_ok L1) by (intros kv e2 [[<- <-]|[_ H]]%lookup_insert_Some; [congruence|by apply (F kv)]).
    assert (user_w e = true) as Hu by (unfold user_w; by rewrite Hcow, Hww, orb_true_r).
    assert (user_w e1 = true) as Hu1 by (unfold user_w; by rewrite Hw1).
    assert (V1 : viewed sp L1 st1).
    { intros x M' u H. destruct (decide ((x, u) = (c, va / 4096))) as [[= -> ->]|Hne].
      - rewrite HL1, (V _ _ _ H), HL. cbn. unfold page_view. by rewrite Hu, Hu1, Ha, Hd1.
      - unfold L1. rewrite lookup_insert_ne, (V _ _ _ H) by congruence. destruct (L !! (x, u)) as [e2|] eqn:E2; [|done]. cbn. unfold page_view.
        by rewrite (Ho1 (x, u) e2). }
    destruct (store_now sp G L1 st1 c va e1 M b T1 X1 F1 Hr V1 HM HL1 Hw1) as [Hd HS']. eexists. split; [by eapply A_store|done].
  - assert (cow_fault c va st = (false, st)) as ->.
    { destruct (get_pte_mapped G L st c va (va / 4096) e T Hc eq_refl Hva HL) as (pt & _ & Hg & _ & _ & He). unfold cow_fault. rewrite Hg.
      unfold read_pte. fold (pt_get pt ((va / 4096) mod 512) st). rewrite He. destruct (pte_has e PTE_COW); [|done]. cbn [andb] in Hcw. by rewrite Hcw. }
    cbn [negb]. exists sp. split; [|done]. apply (A_store_fail _ sp c M); [done|]. intros _ d. rewrite (V c M _ HM), HL. cbn. unfold page_view, user_w.
    by rewrite Hw, Hcw.
Qed.

Lemma load_step sp G st c va M :
  spaces sp G st → sp !! c = Some M → 0 ≤ va < 2 ^ 47 →
  astep True sp (VLoad c va) (user_load c va st) sp.
Proof.
  unfold user_load.
  intros (L & T & X & F & Hr & V) HM Hva. assert (Hc : G !! (c, 4%nat, 0) = Some c) by (apply (root_of G L st); [done|apply Hr; by eexists]).
  rewrite (mmu_spec G L st c (va / 4096)) by done. destruct (L !! (c, va / 4096)) as [e|] eqn:HL; cbn [mbind option_bind negb orb].
  - pose proof (Z.mod_pos_bound va 4096 ltac:(lia)) as Ho.
    assert (byte_at (vm_mem st) (pte_addr e + va mod 4096) = page_data st (pte_addr e) !!! Z.to_nat (va mod 4096)) as ->.
    { symmetry. apply list_lookup_total_correct. unfold page_data. rewrite load_bytes_lookup by lia. f_equal. f_equal. lia. }
    apply (A_load _ sp c M va (user_w e)); [done|]. by rewrite (V c M _ HM), HL.
  - apply (A_load_fail _ sp c M); [done|]. by rewrite (V c M _ HM), HL.
Qed.

(** ** Demand-zero pages *)

Lemma va_page va : 0 ≤ va < 2 ^ 47 → Z.land va (not64 0xFFF) = va / 4096 * 4096.
Proof. intros Hva. change (not64 0xFFF) with (u64 (Z.lnot (Z.ones 12))). by apply land_align; lia. Qed.

Lemma zero_data st p : page_data (st <| vm_mem := store_bytes (vm_mem st) p (replicate 4096 0) |>) p = replicate 4096 0.
Proof. unfold page_data. change (vm_mem (_ <| vm_mem := ?m |>)) with m. set (z := replicate 4096 0). change 4096%nat with (length z). apply load_store_bytes_eq. Qed.

Lemma refs_mem st m p : refs (st <| vm_mem := m |>) p = refs st p.
Proof. done. Qed.
Lemma avail_mem st m : avail (st <| vm_mem := m |>) = avail st.
Proof. done. Qed.

(** Allocating a page and clearing it changes nothing that is in use. *)
Lemma tree_fresh_page G L st p st1 :
  tree G L st → page_ok p → refs st p = 0 → pg_wf (vm_fr st1) → vm_mem st1 = vm_mem st →
  (∀ q, q mod 4096 = 0 → refs st1 q = if decide (q = p) then 1 else refs st q) →
  let st2 := st1 <| vm_mem := store_bytes (vm_mem st1) p (replicate 4096 0) |> in
  tree G L st2 ∧ ∀ f, page_ok f → f ≠ p → page_data st2 f = page_data st f.
Proof.
  intros T Hp Hp0 Hw1 Hm1 Hrf st2. destruct (maps_fresh G L st p T Hp Hp0) as [_ HnG].
  assert (Hby : ∀ a, page_at a ≠ p → byte_at (vm_mem st2) a = byte_at (vm_mem st) a).
  { intros a Ha. rewrite page_at_in in Ha by apply Hp. unfold st2. change (vm_mem (_ <| vm_mem := ?m |>)) with m. rewrite Hm1.
    apply byte_at_store_ne. rewrite length_replicate. lia. }
  assert (Hr2 : ∀ q, page_ok q → 1 ≤ refs st q → refs st2 q = refs st q).
  { intros q Hq H1. unfold st2. rewrite refs_mem, Hrf by apply Hq.
    rewrite decide_False; [done|]. intros ->. lia. }
  assert (Hpg : ∀ n t j, G !! n = Some t → 0 ≤ j < 512 → pt_get t j st2 = pt_get t j st).
  { intros n t j Ht Hj. destruct (tr_page _ _ _ T _ _ Ht) as [Htp _]. apply pt_get_same; [apply Htp|done|]. intros a <-. apply Hby.
    intros E. apply (HnG n). by rewrite <- E. }
  split.
  - split; [done|..].
    + intros n q Hq. destruct (tr_page _ _ _ T _ _ Hq) as [Hqp Hq1]. split; [done|]. rewrite Hr2; [done|done|lia].
    + apply (tr_inj _ _ _ T).
    + apply (tr_node _ _ _ T).
    + intros c l k q i H Hl Hi Hb. rewrite (Hpg _ _ _ H Hi). by apply (tr_down _ _ _ T).
    + intros c k q i H Hi. rewrite (Hpg _ _ _ H Hi). by apply (tr_leaf _ _ _ T).
    + intros c v e H. destruct (tr_map _ _ _ T _ _ _ H) as (Hv & Hg & Hpe & Hpr & Hu & Hm & Hn).
      refine (conj Hv (conj Hg (conj Hpe (conj Hpr (conj Hu (conj _ Hn)))))). rewrite Hr2; [done|done|]. by apply (tree_leaf_refs G L st c v).
  - intros f Hf Hne. apply page_data_same; [apply Hf|]. intros a <-. by apply Hby.
Qed.

(** The entry of a demand-zero page. *)
Definition zero_pte (p : Z) : Z := leaf_pte p (Z.lor (Z.lor PTE_USER PTE_WRITABLE) PTE_NX).

Lemma zero_pte_ok p : page_ok p →
  word64 (zero_pte p) ∧ pte_addr (zero_pte p) = p ∧ pte_has (zero_pte p) PTE_PRESENT = true ∧ pte_has (zero_pte p) PTE_USER = true ∧
  pte_has (zero_pte p) PTE_WRITABLE = true ∧ pte_has (zero_pte p) PTE_COW = false ∧ pte_has (zero_pte p) PTE_WAS_WRITABLE = false.
Proof. intros Hp. unfold zero_pte, leaf_pte. rewrite (page_ok_mask _ Hp). split; [word64_tac|]. split_and!; pte_simp; done. Qed.

(** A fresh page is mapped at a free place of the space. *)
Lemma tree_map_fresh G L st c v pt p :
  tree G L st → excl L → G !! (c, 1%nat, v / 512) = Some pt → 0 ≤ v < 2 ^ 35 → L !! (c, v) = None →
  page_ok p → refs st p = 1 → maps L p = 0%nat → (∀ n, G !! n ≠ Some p) →
  let L' := <[(c, v) := zero_pte p]> L in let st' := pt_set pt (v mod 512) (zero_pte p) st in
  tree G L' st' ∧ excl L' ∧ ∀ f, page_ok f → (∀ n, G !! n ≠ Some f) → page_data st' f = page_data st f.
Proof.
  intros T X Hpt Hv HL Hp Hr Hm HnG L' st'. destruct (zero_pte_ok p Hp) as (Hw64 & Ha & Hpr & Hu & Hw & Hcw & _). destruct (tr_page _ _ _ T _ _ Hpt) as [Hptp _].
  destruct (path_div v Hv) as (_ & _ & _ & _ & _ & E0 & M0 & _).
  assert (Hms : ∀ f, maps L' f = ((if decide (p = f) then 1 else 0) + maps L f)%nat) by (intros f; unfold L'; by rewrite maps_insert, Ha).
  assert (Hold : ∀ kv e, L !! kv = Some e → pte_addr e ≠ p).
  { intros [c2 v2] e H E. pose proof (maps_pos L c2 v2 e H). rewrite E in *. lia. }
  split_and!.
  - apply (tree_set_leaf G L _ st _ c (v / 512) pt (v mod 512)); [done..| | | |apply T|done|].
    + intros kv Hne. rewrite <- E0 in Hne. unfold L'. by rewrite lookup_insert_ne.
    + unfold L', st'. rewrite <- E0, lookup_insert_eq, Ha, pt_get_set_eq by done. done.
    + intros n t' j Ht' Hj Hne. destruct (tr_page _ _ _ T _ _ Ht') as [Htp _].
      apply pt_get_set_ne; [apply Hptp|apply Htp|done|done|]. intros [= <- <-]. done.
    + intros kv e [[<- <-]|[_ H]]%lookup_insert_Some; rewrite Hms.
      * rewrite Ha, decide_True, Hm by done. change (refs st' p) with (refs st p). lia.
      * rewrite decide_False by (pose proof (Hold _ _ H); congruence). destruct kv as [c2 v2].
        destruct (tr_map _ _ _ T _ _ _ H) as (_ & _ & _ & _ & _ & ? & _). done.
  - intros kv e [[<- <-]|[_ H]]%lookup_insert_Some Hwe; rewrite Hms.
    + rewrite Ha, decide_True by done. split; [lia|done].
    + rewrite decide_False by (pose proof (Hold _ _ H); congruence). by apply (X kv).
  - intros f Hf Hnf. apply page_data_set; [done|done|apply Hf|]. intros ->. by apply (Hnf (c, 1%nat, v / 512)).
Qed.

(** A walk that stops has added fewer than the three tables of its path. *)
Lemma on_path_short (c v : Z) G L st G' st' n : grows (on_path c v) G L st G' st' → on_path c v n → G' !! n = None → (size G' < size G + 3)%nat.
Proof.
  intros (_ & Hs & Hnew & _) Hn HN. set (path := (λ l, (c, l, v / 512 ^ Z.of_nat l)) <$> [1; 2; 3]%nat).
  assert (Hp : ∀ n, on_path c v n → n ∈ path).
  { intros m (l & Hl & ->). apply list_elem_of_fmap. exists l. split; [done|]. destruct l as [|[|[|[|l]]]]; [lia|set_solver..|lia]. }
  assert (Hsub : n :: keys G' ⊆+ keys G ++ path).
  { apply NoDup_submseteq.
    - apply NoDup_cons_2; [rewrite elem_of_keys, HN; by intros [? ?]|apply NoDup_fst_map_to_list].
    - intros m [->|[q Hq]%elem_of_keys]%elem_of_cons; apply elem_of_app; [right; by apply Hp|].
      destruct (Hnew m q Hq) as [H|[H _]]; [left; apply elem_of_keys; by eexists|right; by apply Hp]. }
  apply submseteq_length in Hsub. cbn [length] in Hsub. rewrite length_app, !length_keys in Hsub. cbn in Hsub. lia.
Qed.

Lemma grows_roots (c v : Z) G L st G' st' x : grows (on_path c v) G L st G' st' → is_Some (G' !! (x, 4%nat, 0)) ↔ is_Some (G !! (x, 4%nat, 0)).
Proof.
  intros (_ & Hs & Hnew & _). split; [|intros [q Hq]; eapply lookup_weaken in Hq; [by eexists|done]].
  intros [q Hq]. destruct (Hnew _ _ Hq) as [?|[(l & Hl & [= _ E _]) _]]; [by eexists|lia].
Qed.

(** What a growing tree leaves alone. *)
Lemma grows_frame (P : Z * nat * Z → Prop) G L st G' st' f :
  grows P G L st G' st' → page_ok f → 1 ≤ refs st f → (∀ n, G !! n ≠ Some f) →
  (∀ n, G' !! n ≠ Some f) ∧ page_data st' f = page_data st f ∧ refs st' f = refs st f.
Proof.
  intros (_ & _ & Hnew & Hsd & _ & Hr & _) Hf H1 Hn. assert (HG : ∀ n, G' !! n ≠ Some f).
  { intros n E. destruct (Hnew n f E) as [H|[_ H]]; [by apply (Hn n)|lia]. }
  split_and!; [done| |by apply Hr; [apply Hf|]]. apply page_data_same; [apply Hf|]. intros a E. apply Hsd. by rewrite E.
Qed.

(** A demand-zero fault: a zeroed page of its own, or no memory. *)
Lemma demand_step sp G st c va M :
  spaces sp G st → sp !! c = Some M → M !! (va / 4096) = None → 0 ≤ va < 2 ^ 47 →
  let '(r, st') := demand_page_fault c va st in
  ∃ sp' G', astep (4 ≤ avail st)%nat sp (VDemand c va) (if r =? 0 then ROk else RFail) sp' ∧ spaces sp' G' st'.
Proof.
  intros (L & T & X & F & Hr & V) HM HN Hva. assert (Hc : G !! (c, 4%nat, 0) = Some c) by (apply (root_of G L st); [done|apply Hr; by eexists]).
  assert (HL : L !! (c, va / 4096) = None) by (rewrite (V c M _ HM) in HN; by destruct (L !! _)).
  unfold demand_page_fault. pose proof (alloc_page_spec st (tr_wf _ _ _ T)) as Hal. destruct (alloc_page st) as [p st1].
  destruct Hal as [(-> & -> & Hav)|(Hp & Hp0 & Hw1 & Hm1 & Hs1 & Ha1 & Hrf)].
  { rewrite Z.eqb_refl. exists sp, G. split; [apply A_demand_fail; lia|]. by exists L. }
  rewrite (proj2 (Z.eqb_neq p 0)) by (destruct Hp; lia). rewrite va_page by done.
  destruct (tree_fresh_page G L st p st1 T Hp Hp0 Hw1 Hm1 Hrf) as [T2 Hd2]. pose proof (zero_data st1 p) as Hz.
  destruct (maps_fresh G L st p T Hp Hp0) as [Hmp HnG].
  set (st2 := st1 <| vm_mem := _ |>) in *. assert (Hp2 : refs st2 p = 1) by (unfold st2; rewrite refs_mem, Hrf by apply Hp; by rewrite decide_True).
  assert (va / 4096 * 4096 / 4096 = va / 4096) as Ev by (by apply Z.div_mul).
  assert (Hva' : 0 ≤ va / 4096 * 4096 < 2 ^ 47) by (pose proof (Z.div_mod va 4096); pose proof (Z.mod_pos_bound va 4096); split; [apply Z.mul_nonneg_nonneg; [apply Z.div_pos|]|]; lia).
  assert (Hv35 : 0 ≤ va / 4096 < 2 ^ 35) by lia.
  destruct (map_walk G L st2 c (va / 4096) (va / 4096 * 4096) p (Z.lor (Z.lor PTE_USER PTE_WRITABLE) PTE_NX)) as (G' & st3 & Gr & Hres); [done..|].
  assert (Hpd : ∀ kv e, L !! kv = Some e → page_ok (pte_addr e) ∧ (∀ n, G' !! n ≠ Some (pte_addr e)) ∧ page_data st3 (pte_addr e) = page_data st (pte_addr e)).
  { intros [x u] e H. destruct (tr_map _ _ _ T2 _ _ _ H) as (_ & _ & Hpe & _ & _ & _ & Hn).
    destruct (grows_frame _ _ _ _ _ _ _ Gr Hpe (tree_leaf_refs _ _ _ _ _ _ T2 H) Hn) as (HnG' & E & _).
    split; [done|]. split; [done|]. rewrite E. apply Hd2; [done|]. intros E'. pose proof (tree_leaf_refs _ _ _ _ _ _ T H). rewrite E' in *. lia. }
  assert (Hr' : ∀ x, is_Some (sp !! x) ↔ is_Some (G' !! (x, 4%nat, 0))) by (intros x; rewrite (grows_roots _ _ _ _ _ _ _ _ Gr); apply Hr).
  destruct (grows_frame _ _ _ _ _ _ p Gr Hp ltac:(lia) HnG) as (HnG' & Hdp & Hrp).
  destruct Hres as [(pt & Hpt & ->)|(-> & Hav & n & Hn & HnN)].
  - fold (zero_pte p). destruct (tree_map_fresh G' L st3 c (va / 4096) pt p) as (T4 & X4 & Hd4); [apply Gr|done|done|done|done|done|lia|done|done|].
    destruct (zero_pte_ok p Hp) as (_ & Ha & _ & _ & Hw & Hcw & Hww). set (st4 := pt_set pt _ _ st3) in *.
    exists (<[c := <[va / 4096 := page_view st4 (zero_pte p)]> M]> sp), G'. split.
    + assert (page_view st4 (zero_pte p) = (true, replicate 4096 0)) as ->; [|by apply A_demand].
      unfold page_view, user_w. rewrite Hw, Ha, (Hd4 p Hp HnG'), Hdp, Hz. done.
    + exists (<[(c, va / 4096) := zero_pte p]> L). split_and!; [done|done| |by eapply roots_insert|].
      * intros kv e [[<- <-]|[_ H]]%lookup_insert_Some; [congruence|by apply (F kv)].
      * apply (viewed_update sp L _ st); [done|done|apply lookup_insert_eq|]. intros kv Hne. rewrite lookup_insert_ne by done.
        destruct (L !! kv) as [e|] eqn:E; [|done]. cbn. destruct (Hpd _ _ E) as (Hpe & Hne2 & Hde). unfold page_view. by rewrite (Hd4 _ Hpe Hne2), Hde.
  - exists sp, G'. split.
    + apply A_demand_fail. pose proof (on_path_short _ _ _ _ _ _ _ _ Gr Hn HnN). destruct Gr as (_ & _ & _ & _ & _ & _ & Hsz).
      unfold st2 in Hsz. rewrite avail_mem in Hsz. lia.
    + exists L. split_and!; [apply Gr|done|done|done|]. apply (viewed_same sp L st); [done|]. intros kv e H. by apply (Hpd kv).
Qed.

(** ** Forks *)

Lemma cow_copy_view st st' e e' :
  (pte_has e PTE_WAS_WRITABLE = true → pte_has e PTE_COW = true) → cow_copy e e' → page_data st' (pte_addr e) = page_data st (pte_addr e) →
  page_view st' e' = page_view st e.
Proof.
  intros Hf (_ & Ha & _ & _ & Hw & Hc & Hww) Hd. unfold page_view, user_w. rewrite Ha, Hd, Hw, Hc, Hww. f_equal. cbn [orb andb].
  destruct (pte_has e PTE_WRITABLE); [by rewrite orb_true_r|]. rewrite orb_false_r. cbn [orb].
  destruct (pte_has e PTE_WAS_WRITABLE); [by rewrite Hf|by rewrite andb_false_r].
Qed.

Lemma fork_step sp G st c M :
  spaces sp G st → sp !! c = Some M → (∀ p, refs st p < 32768) →
  let '(ch, st') := vmm_clone_cow c [] st in
  ∃ sp' G', astep (0 < avail st ∧ tables G c ≤ avail st)%nat sp (VFork c) (if ch =? 0 then RFail else RSpace ch) sp' ∧ spaces sp' G' st'.
Proof.
  intros (L & T & X & F & Hr & V) HM Hb. assert (Hc : G !! (c, 4%nat, 0) = Some c) by (apply (root_of G L st); [done|apply Hr; by eexists]).
  destruct (clone_spec G L st c [] T X Hc) as (ch & st' & -> & H); [done|done|]. destruct H as [(-> & -> & Ha)|(Hch & G' & L' & K)].
  { exists sp, G. split; [apply A_fork_fail; lia|]. by exists L. }
  rewrite (proj2 (Z.eqb_neq ch 0)) by done. destruct K as [T' X' Hnew Hroots Hother Hparent Hchild Hdata].
  assert (Hspn : sp !! ch = None) by (apply eq_None_not_Some; rewrite Hr, Hnew; by intros [??]).
  assert (ch ≠ c) as Hne by (intros ->; congruence).
  assert (Hcopy : ∀ u e, L !! (c, u) = Some e → ∀ e', e' = cowed e ∨ e' = child_pte e → cow_copy e e' ∧ page_view st' e' = page_view st e).
  { intros u e H e' He. destruct (tr_map _ _ _ T _ _ _ H) as (_ & _ & Hpe & Hpr & Hu & _).
    assert (cow_copy e e') as Hcc by (destruct He as [->| ->]; [by apply cowed_copy|by apply child_copy]). split; [done|].
    apply cow_copy_view; [by apply (F (c, u))|done|by apply (Hdata (c, u))]. }
  set (M' := filter (λ kv : Z * apage, is_Some (L' !! (ch, kv.1))) M). exists (<[ch := M']> sp), G'.
  assert (HM' : ∀ u, M' !! u = page_view st' <$> L' !! (ch, u)).
  { intros u. unfold M'. apply option_eq. intros x. rewrite map_lookup_filter_Some, (V c M u HM). cbn [fst]. destruct (Hchild u) as [->|[_ ->]].
    - destruct (L !! (c, u)) as [e|] eqn:E; [|cbn; naive_solver]. cbn. destruct (Hcopy u e E (child_pte e)) as [_ ->]; [by right|].
      split; [by intros [? _]|]. intros ?. split; [done|by eexists].
    - split; [by intros [_ [??]]|done]. }
  split.
  - apply (A_fork _ sp c M ch M'); [done|done|apply map_filter_subseteq|]. intros [_ Hen]. apply map_eq. intros u. rewrite HM', (V c M u HM).
    destruct (Hchild u) as [->|[? _]]; [|done]. destruct (L !! (c, u)) as [e|] eqn:E; [|done]. cbn. f_equal. by apply (Hcopy u); [|right].
  - exists L'. split_and!; [done|done| | |].
    + intros [x u] e H Hw. destruct (decide (x = c)) as [->|]; [|destruct (decide (x = ch)) as [->|]].
      * rewrite Hparent in H. destruct (L !! (c, u)) as [e0|] eqn:E; [|done]. injection H as <-.
        destruct (Hcopy u e0 E (cowed e0)) as [(_ & _ & _ & _ & _ & ? & _) _]; [by left|done].
      * destruct (Hchild u) as [H'|[_ H']]; rewrite H' in H; [|done]. destruct (L !! (c, u)) as [e0|] eqn:E; [|done]. injection H as <-.
        destruct (Hcopy u e0 E (child_pte e0)) as [(_ & _ & _ & _ & _ & ? & _) _]; [by right|done].
      * rewrite Hother in H by done. by apply (F (x, u)).
    + intros x. rewrite Hroots, lookup_insert_is_Some', Hr. naive_solver.
    + intros x Mx u [[<- <-]|[Hx H]]%lookup_insert_Some; [by rewrite HM'|]. rewrite (V x Mx u H).
      destruct (decide (x = c)) as [->|]; [rewrite Hparent|rewrite Hother by done].
      * destruct (L !! (c, u)) as [e|] eqn:E; [|done]. cbn. f_equal. symmetry. by apply (Hcopy u); [|left].
      * destruct (L !! (x, u)) as [e|] eqn:E; [|done]. cbn. unfold page_view. by rewrite (Hdata (x, u)).
Qed.

(** ** Exits *)

Lemma exit_step sp G st c M :
  spaces sp G st → sp !! c = Some M →
  ∃ G' st', vmm_free_user_pages c st = Some st' ∧ spaces (delete c sp) G' st'.
Proof.
  intros (L & T & X & F & Hr & V) HM. assert (Hc : G !! (c, 4%nat, 0) = Some c) by (apply (root_of G L st); [done|apply Hr; by eexists]).
  destruct (exit_spec G L st c T X Hc) as (G' & L' & st' & He & K). exists G', st'. split; [done|]. destruct K as [T' X' Hroots Hmaps Hdata].
  exists L'. split_and!; [done|done| | |].
  - intros [x u] e H. rewrite Hmaps in H. case_decide; [done|]. by apply (F (x, u)).
  - intros x. rewrite Hroots, lookup_delete_is_Some, Hr. naive_solver.
  - intros x Mx u [Hx H]%lookup_delete_Some. rewrite (V x Mx u H). pose proof (Hmaps x u) as Hm. rewrite decide_False in Hm by congruence. rewrite <- Hm.
    destruct (L' !! (x, u)) as [e|] eqn:E; [|done]. cbn. unfold page_view. by rewrite (Hdata (x, u)).
Qed.

(** ** New spaces *)

Lemma spaces_empty st : pg_wf (vm_fr st) → spaces ∅ ∅ st.
Proof. intros Hwf. exists ∅. split_and!; [by split|done|done| |done]. intros c. rewrite !lookup_empty. split; by intros [??]. Qed.

Lemma new_step sp G st :
  spaces sp G st →
  let '(c, st') := vmm_create_address_space st in
  ∃ sp' G', astep (0 < avail st)%nat sp VNew (if c =? 0 then RFail else RSpace c) sp' ∧ spaces sp' G' st'.
Proof.
  intros (L & T & X & F & Hr & V). destruct (create_space_spec G L st T) as (c & st' & -> & [(-> & -> & Ha)|(Hp & H0 & H1 & HnG & Gr)]).
  { exists sp, G. split; [apply A_new_fail; lia|]. by exists L. }
  rewrite (proj2 (Z.eqb_neq c 0)) by (destruct Hp; lia). destruct (tree_fresh G L st c T HnG) as [HcG HcL].
  exists (<[c := ∅]> sp), (<[(c, 4%nat, 0) := c]> G). split; [apply A_new, eq_None_not_Some; rewrite Hr, HcG; by intros [??]|].
  exists L. split_and!; [apply Gr|done|done| |].
  - intros x. rewrite !lookup_insert_is_Some', Hr. naive_solver.
  - intros x M u [[<- <-]|[_ H]]%lookup_insert_Some; [by rewrite HcL, lookup_empty|]. rewrite (V x M u H).
    destruct (L !! (x, u)) as [e|] eqn:E; [|done]. cbn. destruct (tr_map _ _ _ T _ _ _ E) as (_ & _ & Hpe & _ & _ & _ & Hn).
    destruct (grows_frame _ _ _ _ _ _ _ Gr Hpe (tree_leaf_refs _ _ _ _ _ _ T E) Hn) as (_ & Hd & _). unfold page_view. by rewrite Hd.
Qed.

(** ** The refinement *)

(** The space an operation is about. *)
Definition op_space (o : vop) : option Z :=
  match o with VNew => None | VFork c | VStore c _ _ | VLoad c _ | VDemand c _ | VExit c => Some c end.

(** The operation can happen: its space exists, its address is a user address, a
    demand fault is for a page that is not there, and reference counts are far from
    their 16 bits at a fork. *)
Definition op_ok sp (o : vop) st : Prop :=
  (∀ c, op_space o = Some c → is_Some (sp !! c)) ∧
  match o with
  | VFork _ => ∀ p, refs st p < 32768
  | VStore _ va _ | VLoad _ va => 0 ≤ va < 2 ^ 47
  | VDemand c va => 0 ≤ va < 2 ^ 47 ∧ sp !! c ≫= lookup (va / 4096) = None
  | VNew | VExit _ => True
  end.

(** The memory an operation may need: a page for a copy, the tables of a child, a
    page and its three tables. *)
Definition op_enough G st (o : vop) : Prop :=
  match o with
  | VFork c => (0 < avail st ∧ tables G c ≤ avail st)%nat
  | VNew | VStore _ _ _ => (0 < avail st)%nat
  | VDemand _ _ => (4 ≤ avail st)%nat
  | VLoad _ _ | VExit _ => True
  end.

Lemma vm_step sp G st o :
  spaces sp G st → op_ok sp o st →
  ∃ r st' sp' G', vm_exec o st = Some (r, st') ∧ astep (op_enough G st o) sp o r sp' ∧ spaces sp' G' st'.
Proof.
  intros HS [Hsp Ho]. destruct o as [|c|c va b|c va|c va|c]; cbn [op_space vm_exec op_enough] in *; try destruct (Hsp c eq_refl) as [M HM].
  - pose proof (new_step sp G st HS) as H. destruct (vmm_create_address_space st) as [c st'], H as (sp' & G' & ? & ?). by eexists _, st', sp', G'.
  - pose proof (fork_step sp G st c M HS HM Ho) as H. destruct (vmm_clone_cow c [] st) as [ch st'], H as (sp' & G' & ? & ?). by eexists _, st', sp', G'.
  - pose proof (store_step sp G st c va b M HS HM Ho) as H. destruct (user_store c va b st) as [r st'], H as (sp' & ? & ?). by exists r, st', sp', G.
  - eexists _, st, sp, G. split; [done|]. split; [by eapply load_step|done].
  - destruct Ho as [Hva HN]. rewrite HM in HN. pose proof (demand_step sp G st c va M HS HM HN Hva) as H.
    destruct (demand_page_fault c va st) as [r st'], H as (sp' & G' & ? & ?). by eexists _, st', sp', G'.
  - destruct (exit_step sp G st c M HS HM) as (G' & st' & -> & ?). exists ROk, st', (delete c sp), G'. split_and!; [done|by eapply A_exit|done].
Qed.

(** What a step does not touch. *)
Lemma astep_other (en : Prop) sp o r sp' x M :
  astep en sp o r sp' → sp !! x = Some M → op_space o ≠ Some x → sp' !! x = Some M.
Proof.
  intros H Hx Ho. assert (Hn : ∀ c, op_space o = Some c → c ≠ x) by congruence. assert (Hnew : ∀ c, sp !! c = None → c ≠ x) by congruence.
  destruct H; first [exact Hx | rewrite lookup_insert_ne; [exact Hx|] | rewrite lookup_delete_ne; [exact Hx|]]; first [by apply Hn | by apply Hnew].
Qed.

(** What a load returns is in the abstract space. *)
Lemma load_view sp G st x va M :
  spaces sp G st → sp !! x = Some M → 0 ≤ va < 2 ^ 47 →
  user_load x va st = match M !! (va / 4096) with Some (_, d) => RByte (d !!! Z.to_nat (va mod 4096)) | None => RFail end.
Proof. intros HS HM Hva. pose proof (load_step sp G st x va M HS HM Hva) as H. inversion H; simplify_eq; by simplify_map_eq. Qed.

(** C6.  Address spaces are private memories: creating a space, forking one
    copy-on-write, a program's loads and stores with the faults they take, a demand-zero
    page and the exit of a space, on the page tables and the reference counts, do what
    the same operations do on independent finite maps from pages to bytes.  The spaces
    have no shared-memory region (a fork leaves those writable in both) and no page
    that was swapped out, and at a fork every page has fewer than 32768 references.
    Every operation returns; it fails only when there is no memory for what it needs,
    and a fork that runs out of memory gives the child a part of the pages. *)
Theorem cow_refines_private_memories sp G st o :
  spaces sp G st → op_ok sp o st →
  ∃ r st' sp' G', vm_exec o st = Some (r, st') ∧ astep (op_enough G st o) sp o r sp' ∧ spaces sp' G' st'.
Proof. apply vm_step. Qed.

(** C7.  No operation of one space changes what another one reads, among spaces that
    share pages by copy-on-write only: spaces without shared-memory regions, which stay
    writable in both, and without swapped-out pages, and with fewer than 32768
    references to every page at a fork (the counter has 16 bits).  Whatever a program
    then stores, forks or drops, every byte of every other space is the same
    afterwards, and no page of it appears or goes. *)
Theorem cow_isolation sp G st o r st' x va :
  spaces sp G st → op_ok sp o st → vm_exec o st = Some (r, st') →
  is_Some (sp !! x) → op_space o ≠ Some x → 0 ≤ va < 2 ^ 47 →
  user_load x va st' = user_load x va st.
Proof.
  intros HS Ho He [M HM] Hx Hva. destruct (vm_step sp G st o HS Ho) as (r' & st2 & sp' & G' & He' & Hstep & HS'). rewrite He in He'. injection He' as <- <-.
  rewrite (load_view sp G st x va M), (load_view sp' G' st' x va M); try done. by eapply astep_other.
Qed.

(** C8.  The kernel's walk and the processor's agree: for a user address of an address
    space, the processor reaches a byte exactly when [vmm_get_pte] finds an entry that is
    present, and then it is the byte of the entry's page; a write reaches it exactly when
    the entry is writable too. *)
Theorem kernel_walk_is_mmu sp G st c va w :
  spaces sp G st → is_Some (sp !! c) → 0 ≤ va < 2 ^ 47 →
  mmu w c va st =
    pte ← vmm_get_pte c va st; let e := read_pte pte st in
    if pte_has e PTE_PRESENT && (negb w || pte_has e PTE_WRITABLE) then Some (pte_addr e + va mod 4096) else None.
Proof.
  intros (L & T & _ & _ & Hr & _) Hc Hva. apply Hr, (root_of G L st c T) in Hc. rewrite (mmu_spec G L st c (va / 4096)) by done.
  destruct (L !! (c, va / 4096)) as [e|] eqn:HL; cbn [mbind option_bind].
  - destruct (get_pte_mapped G L st c va _ e T Hc eq_refl Hva HL) as (pt & _ & -> & _ & _ & He). cbn [mbind option_bind]. cbv zeta.
    unfold read_pte. fold (pt_get pt ((va / 4096) mod 512) st). rewrite He. destruct (tr_map _ _ _ T _ _ _ HL) as (_ & _ & _ & -> & _). done.
  - destruct (get_pte_unmapped G L st c va _ T Hc eq_refl Hva HL) as [->|(p & -> & Hp)]; [done|]. cbn [mbind option_bind]. cbv zeta. by rewrite Hp.
Qed.
End spec.

(** ** Witnesses *)

(** A machine of 16 pages after boot, with no address space yet. *)
Definition vm_boot : vm_st pmm_st (gmap Z (list Z)) := mk_vm ∅ pmm_boot 0 [] 0 0 ∅.

Lemma vm_boot_spaces : spaces ∅ ∅ vm_boot.
Proof. apply spaces_empty. split; [exact pmm_boot_wf|]. by vm_compute. Qed.

(** The first space. *)
Lemma vm_boot_first : ∃ st c G, vm_exec VNew vm_boot = Some (RSpace c, st) ∧ spaces {[c := ∅]} G st.
Proof.
  destruct (vm_step ∅ ∅ vm_boot VNew vm_boot_spaces) as (r & st & sp & G & He & Hs & HS); [split; [done|done]|].
  inversion Hs as [? c|? Hno| | | | | | | | |]; subst; [by exists st, c, G|]. exfalso. apply Hno. by vm_compute.
Qed.

Lemma cow_refines_private_memories_witness :
  ∃ (st : vm_st pmm_st (gmap Z (list Z))) c G, spaces {[c := ∅]} G st ∧
  ∃ r st' sp' G', vm_exec (VDemand c 0x400000) st = Some (r, st') ∧
    astep (op_enough G st (VDemand c 0x400000)) {[c := ∅]} (VDemand c 0x400000) r sp' ∧ spaces sp' G' st'.
Proof.
  destruct vm_boot_first as (st & c & G & _ & HS). exists st, c, G. split; [done|]. apply (cow_refines_private_memories _ _ _ _ HS).
  split; [|split; [lia|by rewrite lookup_singleton_eq]]. intros c' [= <-]. rewrite lookup_singleton_eq. by eexists.
Defined.

Lemma cow_isolation_witness :
  ∃ (st : vm_st pmm_st (gmap Z (list Z))) c G, spaces {[c := ∅]} G st ∧ ∃ r st', vm_exec VNew st = Some (r, st') ∧ user_load c 0x400000 st' = user_load c 0x400000 st.
Proof.
  destruct vm_boot_first as (st & c & G & _ & HS). exists st, c, G. split; [done|].
  destruct (vm_step _ _ _ VNew HS) as (r & st' & sp' & G' & He & _); [by split|]. exists r, st'. split; [done|].
  apply (cow_isolation _ _ _ VNew r st' c 0x400000 HS); [by split|exact He|rewrite lookup_singleton_eq; by eexists|discriminate|lia].
Defined.

Lemma kernel_walk_is_mmu_witness :
  ∃ (st : vm_st pmm_st (gmap Z (list Z))) c G, spaces {[c := ∅]} G st ∧
  mmu true c 0x400000 st =
    pte ← vmm_get_pte c 0x400000 st; let e := read_pte pte st in
    if pte_has e PTE_PRESENT && (negb true || pte_has e PTE_WRITABLE) then Some (pte_addr e + 0x400000 mod 4096) else None.
Proof.
  destruct vm_boot_first as (st & c & G & _ & HS). exists st, c, G. split; [done|].
  apply (kernel_walk_is_mmu _ _ _ c 0x400000 true HS); [rewrite lookup_singleton_eq; by eexists|lia].
Defined.
