(* ===== verification/MemCases.v ===== *)
(** * MemCases: where the memory system calls fall short

    Runs of the system calls of [ProcMem] on a machine of 16 pages with one process,
    evaluated: what unmapping, protecting and attaching do in cases that the code
    does not keep apart. *)

From S2P Require Import Prelude KUtil AgentNs Bitmap Pmm Mem Bytes BlockStore Vmm PmmFrames ProcMem CowSpec.

Abbreviation demo_st := (mm_st pmm_st (gmap Z (list Z))).

(** After boot: a new address space and an empty region table. *)
Definition demo_vm : Z * vm_st pmm_st (gmap Z (list Z)) := vmm_create_address_space (swap_init vm_boot).
Definition demo_proc : proc_mm :=
  mk_proc_mm demo_vm.1 (replicate 4 (mk_mmap 0 0 0 false (-1) false (-1) 0)) 0x4000000000 0 0 0.
Definition demo : demo_st := mk_mm_st demo_proc (replicate 16 (mk_shm (-1) (replicate 16 0) 0 0)) demo_vm.2.

(** The pages of the region. *)
Definition VA0 : Z := 0x4000000000.
Definition VA1 : Z := VA0 + 4096.

(** Run a call that must succeed with a result. *)
Definition after (r : option (Z * demo_st)) (f : Z → demo_st → bool) : bool :=
  match r with Some (z, st) => f z st | None => false end.

Definition used_page (p : Z) (st : demo_st) : bool := bm_test (page_of p) (bitmap (vm_fr (mm_vm st))).
Definition root_entry (st : demo_st) : Z := pt_get (pm_cr3 (mm_proc st)) (PML4_INDEX VA0) (mm_vm st).
Definition loads (va : Z) (st : demo_st) : bool :=
  match user_load (pm_cr3 (mm_proc st)) va (mm_vm st) with RByte _ => true | _ => false end.

(** A page that is not present is taken for one of a contiguous allocation: after
    [mmap] of two pages and [mprotect(PROT_NONE)] of the second, [munmap] frees the
    page behind the first one, which is a page table of the process; the root still
    points to it. *)
Theorem munmap_frees_page_table :
  after (sys_mmap 0 2 3 0 demo) (λ va st,
    let '(r, st) := sys_mprotect VA1 4096 0 st in
    let table := pte_addr (root_entry st) in
    (va =? VA0) && (r =? 0) && used_page table st &&
    after (sys_munmap VA0 st) (λ r st,
      (r =? 0) && negb (used_page table st) && pte_has (root_entry st) PTE_PRESENT && (pte_addr (root_entry st) =? table))) = true.
Proof. by vm_compute. Qed.

(** [mprotect(PROT_NONE)] clears the present bit, after which [mprotect] skips the
    page: it answers 0, and the page cannot be used again. *)
Theorem prot_none_is_final :
  after (sys_mmap 0 1 3 0 demo) (λ va st,
    let '(r1, st1) := sys_mprotect VA0 4096 0 st in
    let '(r2, st2) := sys_mprotect VA0 4096 3 st1 in
    loads VA0 st && (r1 =? 0) && (r2 =? 0) && negb (loads VA0 st2)) = true.
Proof. by vm_compute. Qed.

(** [mprotect] of a page that is swapped out makes the swap entry present: the slot
    number is taken for a page number, and the process reads and writes that page of
    physical memory (here page 0). *)
Theorem mprotect_maps_swap_slot :
  after (sys_mmap 0 1 3 0 demo) (λ va st,
    match swap_out (pm_cr3 (mm_proc st)) VA0 (mm_vm st) with
    | Some (r, v) =>
        let '(r2, st) := sys_mprotect VA0 4096 3 (st <| mm_vm := v |>) in
        (r =? 0) && (r2 =? 0) && bool_decide (mmu true (pm_cr3 (mm_proc st)) VA0 (mm_vm st) = Some 0)
    | None => false
    end) = true.
Proof. by vm_compute. Qed.

(** [munmap] of an attached region drops the attachment but not the reference that
    [shmat] took for each page: after the last one the page is still in use and no
    region knows it.  [shmdt] frees it. *)
Theorem munmap_leaks_shared_page :
  after (sys_shmget 7 1 demo) (λ id st,
    let page := shm_phys_pages (mm_shm st !!! O) !!! O in
    let '(va, st) := sys_shmat id st in
    (va =? VA0) &&
    after (sys_munmap VA0 st) (λ r st1, (r =? 0) && (shm_key (mm_shm st1 !!! O) =? -1) && used_page page st1) &&
    after (sys_shmdt VA0 st) (λ r st1, (r =? 0) && (shm_key (mm_shm st1 !!! O) =? -1) && negb (used_page page st1))) = true.
Proof. by vm_compute. Qed.

(** [shmget] announces the key before the pages exist: an attachment in between maps
    physical page 0 for the process to write. *)
Theorem shmat_during_shmget_maps_page_0 :
  let '(_, st) := shmget_reserve 7 1 demo in
  let '(va, st) := sys_shmat 0 st in
  va = VA0 ∧ mmu true (pm_cr3 (mm_proc st)) VA0 (mm_vm st) = Some 0.
Proof. by vm_compute. Qed.

(** The fork of a process skips a page that is swapped out: the child does not have
    it. *)
Theorem fork_skips_swapped_page :
  after (sys_mmap 0 1 3 0 demo) (λ va st,
    match swap_out (pm_cr3 (mm_proc st)) VA0 (mm_vm st) with
    | Some (_, v) =>
        let '(child, v) := vmm_clone_cow (pm_cr3 (mm_proc st)) (pm_mmap (mm_proc st)) v in
        negb (child =? 0) &&
        match vmm_get_pte child VA0 v with Some _ => false | None => true end &&
        ((swap_in (pm_cr3 (mm_proc st)) VA0 v).1 =? 0)
    | None => false
    end) = true.
Proof. by vm_compute. Qed.
