(* ===== verification/Vfs.v ===== *)
(** * Vfs: the tree of files in memory

    Models [src/kernel/src/fs/vfs.c]: a table of nodes, each with its name and the
    index of its parent, path resolution with symbolic links, files in memory or on
    LimnFS, and the [/proc] entries of processes.

    A name or path is the list of its characters without the terminating NUL; a
    node whose name is empty is a free slot.  The buffer of a node is a block of
    the kernel heap ([DHeap]) or memory of the boot image ([DImage]).  [None] as a
    result means that the code would access memory outside of a buffer or give
    memory of the image to the heap. *)

From S2P Require Import Prelude KUtil Mem Bytes Bitmap BlockStore LimnFS.

Abbreviation VFS_FILE := 0 (only parsing).
Abbreviation VFS_DIRECTORY := 1 (only parsing).
Abbreviation VFS_SYMLINK := 2 (only parsing).
Abbreviation VFS_FIFO := 3 (only parsing).
Abbreviation MAX_VFS_NODES := 1024%nat (only parsing).
Abbreviation MAX_PATH := 256%nat (only parsing).
Abbreviation VFS_FLAG_WRITABLE := 1 (only parsing).
Abbreviation VFS_FLAG_MOUNTPOINT := 2 (only parsing).
Abbreviation VFS_MAX_FILE_SIZE := 1073741824 (only parsing).
Abbreviation EBADF := 9 (only parsing).
Abbreviation ENODEV := 19 (only parsing).
Abbreviation ENOTDIR := 20 (only parsing).
Abbreviation EISDIR := 21 (only parsing).
Abbreviation ENOTEMPTY := 39 (only parsing).
Abbreviation ELOOP := 40 (only parsing).
(** ['/'] and ['.']. *)
Abbreviation SLASH := 47 (only parsing).
Abbreviation DOT := 46 (only parsing).

(** ** The heap *)

(** What the file layer uses of the kernel heap: a new block of [n] bytes with
    whatever they hold, or none. *)
Class ByteHeap (H : Type) := {
  bh_alloc : Z → H → option (list Z) * H;
  bh_free : list Z → H → H;
  bh_alloc_len n h b : (bh_alloc n h).1 = Some b → Z.of_nat (length b) = n
}.

(** ** State *)

Inductive vdata := DNull | DHeap (b : list Z) | DImage (b : list Z).

Record vfs_node := mk_node {
  nd_name : list Z;
  nd_type : Z;
  nd_flags : Z;
  nd_mode : Z;
  nd_uid : Z;
  nd_gid : Z;
  nd_parent : Z;
  nd_size : Z;
  nd_capacity : Z;
  nd_data : vdata;
  nd_inode : Z
}.
#[export] Instance vfs_node_eta : Eta vfs_node := λ n,
  mk_node (nd_name n) (nd_type n) (nd_flags n) (nd_mode n) (nd_uid n) (nd_gid n) (nd_parent n) (nd_size n) (nd_capacity n)
    (nd_data n) (nd_inode n).
#[export] Instance vfs_node_inhabited : Inhabited vfs_node := populate (mk_node [] 0 0 0 0 0 (-1) 0 0 DNull (-1)).

Record vfs_st (H St : Type) := mk_vfs {
  vnodes : list vfs_node;
  node_count : nat;
  v_heap : H;
  v_fs : lfs_st St;
  procfs_dir_idx : Z
}.
Arguments mk_vfs {H St} _ _ _ _ _.
Arguments vnodes {H St} _.
Arguments node_count {H St} _.
Arguments v_heap {H St} _.
Arguments v_fs {H St} _.
Arguments procfs_dir_idx {H St} _.
#[export] Instance vfs_st_eta H St : Eta (vfs_st H St) := λ s,
  mk_vfs (vnodes s) (node_count s) (v_heap s) (v_fs s) (procfs_dir_idx s).

(** [str_copy] into a buffer of [MAX_PATH] bytes. *)
Definition name_copy (s : list Z) : list Z := take 255 (c_str s).

(** The index of the last slash. *)
Fixpoint last_slash (s : list Z) : option nat :=
  match s with
  | [] => None
  | c :: s' => match last_slash s' with
               | Some i => Some (S i)
               | None => if c =? SLASH then Some O else None
               end
  end.

Definition vfs_path_split (path : list Z) : list Z * list Z :=
  let s := c_str path in
  match last_slash s with
  | None => ([SLASH], name_copy s)
  | Some O => ([SLASH], name_copy (drop 1 s))
  | Some i => (take (i `min` 255) s, name_copy (drop (S i) s))
  end.

(** The characters up to the next slash, at most [n]. *)
Fixpoint take_comp (n : nat) (p : list Z) : list Z * list Z :=
  match n, p with
  | S n', c :: p' => if c =? SLASH then ([], p) else let '(a, b) := take_comp n' p' in (c :: a, b)
  | _, _ => ([], p)
  end.

Definition skip_slash (p : list Z) : list Z := match p with c :: p' => if c =? SLASH then p' else p | [] => [] end.

(** [s], a slash unless it ends with one, and [t], in a buffer of [MAX_PATH] bytes;
    the slash is written only below [lim]. *)
Definition path_join (lim : nat) (s t : list Z) : list Z :=
  let s := match last s with Some c => if (c =? SLASH) || bool_decide (lim ≤ length s)%nat then s else s ++ [SLASH] | None => s end in
  s ++ take (255 - length s) t.

Section vfs.
Context {H St : Type} `{!ByteHeap H} `{!BlockStore St}.
Implicit Types st : vfs_st H St.

(** [nodes[i]] and an assignment to it. *)
Definition node_at (i : Z) st : vfs_node := vnodes st !!! Z.to_nat i.
Definition set_node (i : Z) (f : vfs_node → vfs_node) st : vfs_st H St := st <| vnodes := alter f (Z.to_nat i) (vnodes st) |>.

Definition live (n : vfs_node) : bool := negb (bool_decide (nd_name n = [])).
Definition is_child (parent : Z) (n : vfs_node) : bool := live n && (nd_parent n =? parent).
Definition table st : list vfs_node := take (node_count st) (vnodes st).

Definition vfs_init st : vfs_st H St :=
  let clear n := n <| nd_name := [] |> <| nd_data := DNull |> <| nd_size := 0 |> <| nd_capacity := 0 |> <| nd_flags := 0 |>
                   <| nd_parent := -1 |> <| nd_inode := -1 |> in
  let st := st <| vnodes := clear <$> vnodes st |> in
  (set_node 0 (λ n, n <| nd_name := [SLASH] |> <| nd_type := VFS_DIRECTORY |> <| nd_flags := 0 |> <| nd_mode := 0x1ED |>
     <| nd_uid := 0 |> <| nd_gid := 0 |> <| nd_parent := -1 |> <| nd_size := 0 |> <| nd_data := DNull |> <| nd_inode := -1 |>) st)
    <| node_count := 1%nat |>.

(** ** Path resolution *)

Definition vfs_find_child (parent_idx : Z) (name : list Z) st : Z :=
  match find_idx (λ n, is_child parent_idx n && str_eq (nd_name n) name) (table st) with
  | Some i => Z.of_nat i
  | None => - ENOENT
  end.

(** The nodes from [n] up to, but without, the root. *)
Fixpoint up_chain (fuel : nat) (n : Z) st : list Z :=
  match fuel with
  | O => []
  | S fuel' => if 0 <? n then n :: up_chain fuel' (nd_parent (node_at n st)) st else []
  end.

(** The path of the directory [pi], within [MAX_PATH]. *)
Definition node_path (pi : Z) st : list Z :=
  let p := foldr (λ n acc, if decide (length acc < 254)%nat
                           then let acc := acc ++ [SLASH] in acc ++ take (255 - length acc) (nd_name (node_at n st)) else acc)
             [] (up_chain 64 pi st) in
  if decide (p = []) then [SLASH] else p.

Definition link_target (n : vfs_node) : option (list Z) :=
  match nd_data n with
  | DNull => None
  | DHeap b | DImage b => Some (c_str (take (Z.to_nat (Z.min (nd_size n) 255)) b))
  end.

(** The path to resolve instead, for the link [child] and the rest [p] of the path. *)
Definition link_path (child : Z) (target p : list Z) st : list Z :=
  if negb (c_at target 0 =? SLASH) then
    let abs := path_join 256 (take 254 (node_path (nd_parent (node_at child st)) st)) target in
    if decide (p = []) then abs else path_join 255 abs p
  else if decide (p = []) then target else path_join 256 (take 254 target) p.

(** The loop over the components of [p]; [follow] resolves a link's path. *)
Fixpoint resolve_loop (fuel : nat) (follow : list Z → Z) (current : Z) (p : list Z) st : Z :=
  match fuel, p with
  | _, [] => current
  | O, _ => - ENOENT
  | S fuel', _ =>
      let '(component, p) := take_comp 255 p in
      if decide (component = []) then resolve_loop fuel' follow current (skip_slash p) st
      else if decide (component = [DOT]) then resolve_loop fuel' follow current (skip_slash p) st
      else if decide (component = [DOT; DOT]) then
        let up := nd_parent (node_at current st) in
        resolve_loop fuel' follow (if 0 <=? up then up else current) (skip_slash p) st
      else
        let child := vfs_find_child current component st in
        if child <? 0 then - ENOENT
        else
          match (if nd_type (node_at child st) =? VFS_SYMLINK then link_target (node_at child st) else None) with
          | Some target => follow (link_path child target p st)
          | None => resolve_loop fuel' follow child (skip_slash p) st
          end
  end.

(** [d] more links may be followed. *)
Fixpoint vfs_resolve_path_depth (d : nat) (path : list Z) st : Z :=
  if negb (c_at path 0 =? SLASH) then - EINVAL
  else
    match d with
    | O => - ELOOP
    | S d' => let s := c_str path in resolve_loop (length s) (λ p, vfs_resolve_path_depth d' p st) 0 (drop 1 s) st
    end.

Definition vfs_resolve_path (path : list Z) st : Z := vfs_resolve_path_depth 9 path st.
Definition vfs_open (path : list Z) st : Z := vfs_resolve_path path st.

(** ** Nodes *)

Definition fresh_node (parent : Z) (name : list Z) (type size : Z) (data : vdata) (n : vfs_node) : vfs_node :=
  n <| nd_name := name_copy name |> <| nd_type := type |> <| nd_size := size |> <| nd_data := data |> <| nd_capacity := 0 |>
    <| nd_flags := 0 |> <| nd_mode := if type =? VFS_DIRECTORY then 0x1ED else 0x1A4 |> <| nd_uid := 0 |> <| nd_gid := 0 |>
    <| nd_parent := parent |> <| nd_inode := -1 |>.

Definition vfs_register_node (parent : Z) (name : list Z) (type size : Z) (data : vdata) st : Z * vfs_st H St :=
  match find_idx (λ n, negb (live n)) (drop 1 (table st)) with
  | Some i => let i := Z.of_nat (S i) in (i, set_node i (fresh_node parent name type size data) st)
  | None =>
      if decide (MAX_VFS_NODES ≤ node_count st)%nat then (- ENOSPC, st)
      else
        let i := Z.of_nat (node_count st) in
        (i, (set_node i (fresh_node parent name type size data) st) <| node_count := S (node_count st) |>)
  end.

Definition vfs_get_node_count st : nat := node_count st.
Definition vfs_get_node (idx : Z) st : option vfs_node :=
  if (idx <? 0) || (Z.of_nat (node_count st) <=? idx) then None
  else if live (node_at idx st) then Some (node_at idx st) else None.

(** A pointer into the table is the index it stands for. *)
Definition vfs_node_index (node : option Z) st : Z :=
  match node with
  | None => - EINVAL
  | Some idx => if (idx <? 0) || (Z.of_nat (node_count st) <=? idx) then - EINVAL else idx
  end.

(** ** Memory of nodes *)

(** The bytes at [off]. *)
Definition data_read (d : vdata) (off len : Z) : option (list Z) :=
  match d with
  | DNull => if len =? 0 then Some [] else None
  | DHeap b | DImage b =>
      if decide (off + len ≤ Z.of_nat (length b)) then Some (slice (Z.to_nat off) (Z.to_nat len) b) else None
  end.

Definition data_write (d : vdata) (off : Z) (bytes : list Z) : option vdata :=
  if decide (bytes = []) then Some d
  else
    match d with
    | DHeap b => if decide (off + Z.of_nat (length bytes) ≤ Z.of_nat (length b)) then Some (DHeap (splice (Z.to_nat off) bytes b)) else None
    | _ => None
    end.

Definition buf_alloc (n : Z) st : option (list Z) * vfs_st H St :=
  let '(r, h) := bh_alloc n (v_heap st) in (r, st <| v_heap := h |>).
(** [kfree]. *)
Definition data_free (d : vdata) st : option (vfs_st H St) :=
  match d with
  | DNull => Some st
  | DHeap b => Some (st <| v_heap := bh_free b (v_heap st) |>)
  | DImage _ => None
  end.
(** [krealloc] to more bytes; the result is [DNull] if there is no memory. *)
Definition data_grow (d : vdata) (n : Z) st : option (vdata * vfs_st H St) :=
  match d with
  | DImage _ => None
  | DNull => let '(r, st) := buf_alloc n st in Some (match r with Some b => DHeap b | None => DNull end, st)
  | DHeap b =>
      let '(r, st) := buf_alloc n st in
      match r with
      | Some fresh => st ← data_free d st; Some (DHeap (take (Z.to_nat n) b ++ drop (length b) fresh), st)
      | None => Some (DNull, st)
      end
  end.

(** [while (new_cap < end) new_cap *= 2]. *)
Fixpoint double_cap (fuel : nat) (cap fin : Z) : Z :=
  match fuel with
  | O => cap
  | S fuel' => if cap <? fin then double_cap fuel' (u64 (cap * 2)) fin else cap
  end.
Definition new_capacity (cap fin : Z) : Z := Z.min (double_cap 64 (if cap =? 0 then 4096 else cap) fin) VFS_MAX_FILE_SIZE.

(** Make the buffer of the node large enough; an error code if there is no memory. *)
Definition ensure_capacity (idx fin : Z) st : option (option Z * vfs_st H St) :=
  let n := node_at idx st in
  if nd_capacity n <? fin then
    let new_cap := new_capacity (nd_capacity n) fin in
    '(d, st) ← data_grow (nd_data n) new_cap st;
    match d with
    | DNull => Some (Some (- ENOMEM), st)
    | _ => Some (None, set_node idx (λ n, n <| nd_data := d |> <| nd_capacity := new_cap |>) st)
    end
  else Some (None, st).

(** A result of the file system on disk. *)
Definition on_disk {X} (f : lfs_st St → X * lfs_st St) st : X * vfs_st H St :=
  let '(r, fs) := f (v_fs st) in (r, st <| v_fs := fs |>).

(** ** Files *)

(** The number of bytes read and the bytes. *)
Definition vfs_read (node_idx offset len : Z) st : option (Z * list Z * vfs_st H St) :=
  if (node_idx <? 0) || (Z.of_nat (node_count st) <=? node_idx) then Some (- EBADF, [], st)
  else
    let n := node_at node_idx st in
    if negb (live n) then Some (- ENOENT, [], st)
    else if negb (nd_type n =? VFS_FILE) then Some (- EISDIR, [], st)
    else if nd_size n <=? offset then Some (0, [], st)
    else if 0 <=? nd_inode n then
      let '(r, st) := on_disk (limnfs_read_data (nd_inode n) offset len) st in
      Some (match r with Some bs => (Z.of_nat (length bs), bs, st) | None => (-1, [], st) end)
    else
      let len := Z.min len (nd_size n - offset) in
      bs ← data_read (nd_data n) offset len; Some (len, bs, st).

Definition vfs_write (node_idx offset : Z) (buf : list Z) st : option (Z * vfs_st H St) :=
  if (node_idx <? 0) || (Z.of_nat (node_count st) <=? node_idx) then Some (- EBADF, st)
  else
    let n := node_at node_idx st in
    let len := Z.of_nat (length buf) in
    if negb (live n) then Some (- ENOENT, st)
    else if Z.land (nd_flags n) VFS_FLAG_WRITABLE =? 0 then Some (- EACCES, st)
    else
      let fin := u64 (offset + len) in
      if VFS_MAX_FILE_SIZE <? fin then Some (- ENOSPC, st)
      else if 0 <=? nd_inode n then
        let '(written, st) := on_disk (limnfs_write_data (nd_inode n) offset buf) st in
        let new_end := u64 (offset + written) in
        Some (written, if (0 <? written) && (nd_size n <? new_end) then set_node node_idx (λ n, n <| nd_size := new_end |>) st else st)
      else
        '(err, st) ← ensure_capacity node_idx fin st;
        match err with
        | Some e => Some (e, st)
        | None =>
            let n := node_at node_idx st in
            d ← data_write (nd_data n) offset buf;
            Some (len, set_node node_idx (λ n, n <| nd_data := d |> <| nd_size := if nd_size n <? fin then fin else nd_size n |>) st)
        end.

Definition vfs_truncate_node (node_idx new_size : Z) st : option (Z * vfs_st H St) :=
  if (node_idx <? 0) || (Z.of_nat (node_count st) <=? node_idx) then Some (- EBADF, st)
  else
    let n := node_at node_idx st in
    if negb (live n) then Some (- ENOENT, st)
    else if negb (nd_type n =? VFS_FILE) then Some (- EISDIR, st)
    else if Z.land (nd_flags n) VFS_FLAG_WRITABLE =? 0 then Some (- EACCES, st)
    else if VFS_MAX_FILE_SIZE <? new_size then Some (- ENOSPC, st)
    else if 0 <=? nd_inode n then
      let '(r, st) := on_disk (limnfs_truncate (nd_inode n) (u32 new_size)) st in
      if negb (r =? 0) then Some (- EIO, st) else Some (0, set_node node_idx (λ n, n <| nd_size := new_size |>) st)
    else
      '(err, st) ← ensure_capacity node_idx new_size st;
      match err with
      | Some e => Some (e, st)
      | None =>
          let n := node_at node_idx st in
          d ← data_write (nd_data n) (nd_size n) (replicate (Z.to_nat (new_size - nd_size n)) 0);
          Some (0, set_node node_idx (λ n, n <| nd_data := d |> <| nd_size := new_size |>) st)
      end.

(** Size, type, mode, owner and group. *)
Definition vfs_stat (path : list Z) st : Z + (Z * Z * Z * Z * Z) :=
  let idx := vfs_resolve_path path st in
  if idx <? 0 then inl (- ENOENT)
  else let n := node_at idx st in inr (nd_size n, nd_type n, nd_mode n, nd_uid n, nd_gid n).

(** Name, type and size of the entry. *)
Definition vfs_readdir (dir_path : list Z) (index : Z) st : Z + (list Z * Z * Z) :=
  let dir_idx := vfs_resolve_path dir_path st in
  if dir_idx <? 0 then inl (- ENOENT)
  else if negb (nd_type (node_at dir_idx st) =? VFS_DIRECTORY) then inl (- ENOTDIR)
  else
    match filter (λ n, is_child dir_idx n = true) (table st) !! Z.to_nat index with
    | Some n => inr (nd_name n, nd_type n, nd_size n)
    | None => inl (- ENOENT)
    end.

(** ** New nodes *)

(** What [vfs_create], [vfs_mkdir], [vfs_symlink] and [vfs_mkfifo] check: the
    directory and the name, or an error code. *)
Definition new_place (path : list Z) st : Z + (Z * list Z) :=
  if 0 <=? vfs_resolve_path path st then inl (- EEXIST)
  else
    let '(parent_path, basename) := vfs_path_split path in
    if decide (basename = []) then inl (- EINVAL)
    else
      let parent_idx := vfs_resolve_path parent_path st in
      if parent_idx <? 0 then inl (- ENOENT)
      else if negb (nd_type (node_at parent_idx st) =? VFS_DIRECTORY) then inl (- ENOTDIR)
      else inr (parent_idx, basename).

Definition disk_parent (parent_idx : Z) st : Z :=
  let ino := nd_inode (node_at parent_idx st) in if ino <? 0 then 0 else ino.

Definition VFS_RW : Z := 6.

Definition vfs_create (path : list Z) st : option (Z * vfs_st H St) :=
  match new_place path st with
  | inl e => Some (e, st)
  | inr (parent_idx, basename) =>
      if negb (limnfs_mounted (v_fs st) =? 0) then
        let '(disk_ino, st) := on_disk (limnfs_create_file (disk_parent parent_idx st) basename) st in
        if disk_ino <? 0 then Some (- ENOSPC, st)
        else
          let '(idx, st) := vfs_register_node parent_idx basename VFS_FILE 0 DNull st in
          if idx <? 0 then Some (- ENOSPC, st)
          else Some (idx, set_node idx (λ n, n <| nd_inode := disk_ino |> <| nd_flags := VFS_FLAG_WRITABLE |> <| nd_mode := VFS_RW |>) st)
      else
        let '(buf, st) := buf_alloc 4096 st in
        match buf with
        | None => Some (- ENOMEM, st)
        | Some b =>
            let '(idx, st) := vfs_register_node parent_idx basename VFS_FILE 0 (DHeap b) st in
            if idx <? 0 then st ← data_free (DHeap b) st; Some (- ENOSPC, st)
            else Some (idx, set_node idx (λ n, n <| nd_capacity := 4096 |> <| nd_flags := VFS_FLAG_WRITABLE |> <| nd_mode := VFS_RW |>) st)
        end
  end.

Definition vfs_mkdir (path : list Z) st : Z * vfs_st H St :=
  match new_place path st with
  | inl e => (e, st)
  | inr (parent_idx, basename) =>
      if negb (limnfs_mounted (v_fs st) =? 0) then
        let '(disk_ino, st) := on_disk (limnfs_create_dir (disk_parent parent_idx st) basename) st in
        if disk_ino <? 0 then (- ENOSPC, st)
        else
          let '(idx, st) := vfs_register_node parent_idx basename VFS_DIRECTORY 0 DNull st in
          if idx <? 0 then (- ENOSPC, st) else (idx, set_node idx (λ n, n <| nd_inode := disk_ino |>) st)
      else vfs_register_node parent_idx basename VFS_DIRECTORY 0 DNull st
  end.

Definition vfs_symlink (path target : list Z) st : option (Z * vfs_st H St) :=
  match new_place path st with
  | inl e => Some (e, st)
  | inr (parent_idx, basename) =>
      let t := c_str target in
      let tlen := Z.of_nat (length t) in
      if (tlen =? 0) || (256 <=? tlen) then Some (- EINVAL, st)
      else
        let '(buf, st) := buf_alloc (tlen + 1) st in
        match buf with
        | None => Some (- ENOMEM, st)
        | Some b =>
            d ← data_write (DHeap b) 0 (t ++ [0]);
            let '(idx, st) := vfs_register_node parent_idx basename VFS_SYMLINK tlen d st in
            if idx <? 0 then st ← data_free d st; Some (- ENOSPC, st)
            else Some (idx, set_node idx (λ n, n <| nd_mode := 0x1FF |>) st)
        end
  end.

Definition vfs_mkfifo (path : list Z) st : Z * vfs_st H St :=
  match new_place path st with
  | inl e => (e, st)
  | inr (parent_idx, basename) =>
      let '(idx, st) := vfs_register_node parent_idx basename VFS_FIFO 0 DNull st in
      if idx <? 0 then (- ENOSPC, st) else (idx, set_node idx (λ n, n <| nd_mode := 0x1B6 |> <| nd_flags := VFS_FLAG_WRITABLE |>) st)
  end.

(** The length and the bytes of the target. *)
Definition vfs_readlink (path : list Z) (bufsize : Z) st : Z * list Z :=
  if negb (c_at path 0 =? SLASH) then (- EINVAL, [])
  else
    let '(parent_path, basename) := vfs_path_split path in
    if decide (basename = []) then (- EINVAL, [])
    else
      let parent_idx := vfs_resolve_path parent_path st in
      if parent_idx <? 0 then (- ENOENT, [])
      else
        let idx := vfs_find_child parent_idx basename st in
        if idx <? 0 then (- ENOENT, [])
        else
          let n := node_at idx st in
          if negb (nd_type n =? VFS_SYMLINK) then (- EINVAL, [])
          else
            match nd_data n with
            | DNull => (- EINVAL, [])
            | DHeap b | DImage b =>
                let tlen := if bufsize <=? nd_size n then bufsize - 1 else nd_size n in (tlen, take (Z.to_nat tlen) b)
            end.

(** ** Deletion and renaming *)

Definition has_children (idx : Z) st : bool := bool_decide (Exists (λ n, is_child idx n = true) (table st)).

Definition vfs_delete (path : list Z) st : option (Z * vfs_st H St) :=
  let idx := vfs_resolve_path path st in
  if idx <? 0 then Some (- ENOENT, st)
  else if idx =? 0 then Some (- EACCES, st)
  else
    let n := node_at idx st in
    if (nd_type n =? VFS_DIRECTORY) && has_children idx st then Some (- ENOTEMPTY, st)
    else
      let st := if 0 <=? nd_inode n then
                  let parent_ino := if 0 <=? nd_parent n then disk_parent (nd_parent n) st else 0 in
                  (on_disk (limnfs_delete parent_ino (nd_name n)) st).2
                else st in
      st ← (if negb (Z.land (nd_flags n) VFS_FLAG_WRITABLE =? 0) || (nd_type n =? VFS_SYMLINK) then data_free (nd_data n) st else Some st);
      Some (0, set_node idx (λ n, n <| nd_name := [] |> <| nd_data := DNull |> <| nd_size := 0 |> <| nd_capacity := 0 |>
                                    <| nd_flags := 0 |> <| nd_parent := -1 |> <| nd_inode := -1 |>) st).

(** The directory entry on disk moves. *)
Definition rename_on_disk (n : vfs_node) (old_parent_idx new_parent_idx : Z) (old_name new_basename : list Z) st : vfs_st H St :=
  let old_parent_ino := if 0 <=? old_parent_idx then disk_parent old_parent_idx st else 0 in
  let new_parent_ino := disk_parent new_parent_idx st in
  let ftype := if nd_type n =? VFS_DIRECTORY then LIMNFS_TYPE_DIR else LIMNFS_TYPE_FILE in
  let st := (on_disk (limnfs_dir_remove old_parent_ino old_name) st).2 in
  let st := (on_disk (limnfs_dir_add new_parent_ino new_basename (nd_inode n) ftype) st).2 in
  let '(inode, st) := on_disk (limnfs_read_inode (nd_inode n)) st in
  match inode with
  | Some inode => (on_disk (limnfs_write_inode (nd_inode n) (inode <| in_parent := new_parent_ino |>)) st).2
  | None => st
  end.

Definition vfs_rename (old_path new_path : list Z) st : Z * vfs_st H St :=
  let old_idx := vfs_resolve_path old_path st in
  if (old_idx <? 0) || (old_idx =? 0) then (- ENOENT, st)
  else
    match new_place new_path st with
    | inl e => (e, st)
    | inr (new_parent_idx, new_basename) =>
        let n := node_at old_idx st in
        let st := set_node old_idx (λ n, n <| nd_parent := new_parent_idx |> <| nd_name := name_copy new_basename |>) st in
        (0, if 0 <=? nd_inode n then rename_on_disk n (nd_parent n) new_parent_idx (nd_name n) new_basename st else st)
    end.

(** ** Modes and owners *)

(** Change the node's inode on disk; [None]: the inode cannot be read, and what the
    code then writes back is undefined. *)
Definition update_inode (ino : Z) (f : limnfs_inode → limnfs_inode) st : option (vfs_st H St) :=
  if 0 <=? ino then
    let '(inode, st) := on_disk (limnfs_read_inode ino) st in
    i ← inode; Some (on_disk (limnfs_write_inode ino (f i)) st).2
  else Some st.

Definition vfs_chmod (path : list Z) (mode : Z) st : option (Z * vfs_st H St) :=
  let idx := vfs_resolve_path path st in
  if idx <? 0 then Some (- ENOENT, st)
  else
    let mode := if mode <=? 7 then Z.lor (Z.lor (Z.shiftl mode 6) (Z.shiftl mode 3)) mode else mode in
    let st := set_node idx (λ n, n <| nd_mode := Z.land mode 0xFFF |>
      <| nd_flags := if Z.land mode 0x080 =? 0 then Z.land (nd_flags n) 0xFE else Z.lor (nd_flags n) VFS_FLAG_WRITABLE |>) st in
    st ← update_inode (nd_inode (node_at idx st)) (λ i, i <| in_mode := Z.land mode 0xFFF |>) st;
    Some (0, st).

(** [mode &= ~(VFS_MODE_SETUID | VFS_MODE_SETGID)]. *)
Definition drop_setid (mode : Z) : Z := Z.land mode 0xF3FF.

Definition vfs_chown (node_idx uid gid : Z) st : option (Z * vfs_st H St) :=
  if (node_idx <? 0) || (Z.of_nat (node_count st) <=? node_idx) then Some (- EBADF, st)
  else if negb (live (node_at node_idx st)) then Some (- ENOENT, st)
  else
    let st := set_node node_idx (λ n, n <| nd_uid := uid |> <| nd_gid := gid |> <| nd_mode := drop_setid (nd_mode n) |>) st in
    st ← update_inode (nd_inode (node_at node_idx st))
           (λ i, i <| in_uid := uid |> <| in_gid := gid |> <| in_mode := drop_setid (in_mode i) |>) st;
    Some (0, st).

(** ** Mounts *)

Definition TMPFS : list Z := [116; 109; 112; 102; 115].

Definition vfs_mount (path fstype : list Z) st : Z * vfs_st H St :=
  if negb (bool_decide (c_str fstype = TMPFS)) then (- EINVAL, st)
  else
    let idx := vfs_resolve_path path st in
    if idx <? 0 then (- ENOENT, st)
    else if negb (nd_type (node_at idx st) =? VFS_DIRECTORY) then (- ENOTDIR, st)
    else if has_children idx st then (- ENOTEMPTY, st)
    else (0, set_node idx (λ n, n <| nd_flags := Z.lor (nd_flags n) (Z.lor VFS_FLAG_MOUNTPOINT VFS_FLAG_WRITABLE) |>) st).

(** The slot is cleared, as the loops of [vfs_umount] and [/proc] do it. *)
Definition clear_slot (n : vfs_node) : vfs_node :=
  n <| nd_name := [] |> <| nd_data := DNull |> <| nd_size := 0 |> <| nd_capacity := 0 |> <| nd_parent := -1 |>.

(** One pass over the table: children without children go.  Was there one? *)
Fixpoint umount_pass (idxs : list nat) (idx : Z) (changed : bool) st : option (bool * vfs_st H St) :=
  match idxs with
  | [] => Some (changed, st)
  | i :: idxs' =>
      let n := node_at (Z.of_nat i) st in
      if negb (is_child idx n) || has_children (Z.of_nat i) st then umount_pass idxs' idx changed st
      else
        st ← (if negb (Z.land (nd_flags n) VFS_FLAG_WRITABLE =? 0) || (nd_type n =? VFS_SYMLINK) then data_free (nd_data n) st else Some st);
        umount_pass idxs' idx true (set_node (Z.of_nat i) clear_slot st)
  end.

(** [while (changed)]: every pass but the last removes a node. *)
Fixpoint umount_loop (fuel : nat) (idx : Z) st : option (vfs_st H St) :=
  match fuel with
  | O => None
  | S fuel' =>
      '(changed, st) ← umount_pass (seq 0 (node_count st)) idx false st;
      if (changed : bool) then umount_loop fuel' idx st else Some st
  end.

Definition vfs_umount (path : list Z) st : option (Z * vfs_st H St) :=
  let idx := vfs_resolve_path path st in
  if idx <? 0 then Some (- ENOENT, st)
  else if Z.land (nd_flags (node_at idx st)) VFS_FLAG_MOUNTPOINT =? 0 then Some (- EINVAL, st)
  else
    st ← umount_loop (S (node_count st)) idx st;
    Some (0, set_node idx (λ n, n <| nd_flags := Z.land (nd_flags n) 0xFC |>) st).

(** *** The tree on disk *)

(** An entry as [limnfs_dir_iter] returns it. *)
Definition ent_inode (e : list Z) : Z := dent_inode 0 e.
Definition ent_type (e : list Z) : Z := get_field 5 1 e.
Definition ent_name (e : list Z) : list Z := c_str (dent_name 0 e).

(** An entry that is a file. *)
Definition load_file (e : list Z) (existing vfs_parent_idx : Z) st : option (vfs_st H St) :=
  let '(inode, st) := on_disk (limnfs_read_inode (ent_inode e)) st in
  match inode with
  | None => Some st
  | Some inode =>
      if 0 <=? existing then
        let n := node_at existing st in
        st ← data_free (nd_data n) st;
        Some (set_node existing (λ n, n <| nd_data := DNull |>
                <| nd_capacity := match nd_data n with DNull => nd_capacity n | _ => 0 end |>
                <| nd_inode := i32 (ent_inode e) |> <| nd_size := in_size inode |> <| nd_flags := Z.lor (nd_flags n) VFS_FLAG_WRITABLE |>
                <| nd_mode := if in_mode inode =? 0 then 0x1ED else in_mode inode |> <| nd_uid := in_uid inode |> <| nd_gid := in_gid inode |>) st)
      else
        let '(idx, st) := vfs_register_node vfs_parent_idx (ent_name e) VFS_FILE (in_size inode) DNull st in
        Some (if idx <? 0 then st
              else set_node idx (λ n, n <| nd_inode := i32 (ent_inode e) |> <| nd_flags := VFS_FLAG_WRITABLE |> <| nd_mode := in_mode inode |>
                                       <| nd_uid := in_uid inode |> <| nd_gid := in_gid inode |>) st)
  end.

(** The entries of the directory from number [i] on, and the directories below it.
    [None] also if [fuel] steps are not enough: the code does not end on a disk
    whose directories form a cycle. *)
Fixpoint load_limnfs_dir (fuel : nat) (dir_ino i vfs_parent_idx : Z) st : option (vfs_st H St) :=
  match fuel with
  | O => None
  | S fuel' =>
      let '(e, st) := on_disk (limnfs_dir_iter dir_ino i) st in
      match e with
      | None => Some st
      | Some e =>
          let existing := vfs_find_child vfs_parent_idx (ent_name e) st in
          st ← (if ent_type e =? LIMNFS_TYPE_DIR then
                  let '(dir_idx, st) := if 0 <=? existing then (existing, st)
                                        else vfs_register_node vfs_parent_idx (ent_name e) VFS_DIRECTORY 0 DNull st in
                  if dir_idx <? 0 then Some st
                  else load_limnfs_dir fuel' (ent_inode e) 0 dir_idx (set_node dir_idx (λ n, n <| nd_inode := i32 (ent_inode e) |>) st)
                else load_file e existing vfs_parent_idx st);
          load_limnfs_dir fuel' dir_ino (u32 (i + 1)) vfs_parent_idx st
      end
  end.

Definition vfs_mount_limnfs (fuel : nat) st : option (Z * vfs_st H St) :=
  if limnfs_mounted (v_fs st) =? 0 then Some (- ENODEV, st)
  else st ← load_limnfs_dir fuel 0 0 0 (set_node 0 (λ n, n <| nd_inode := 0 |>) st); Some (0, st).
End vfs.
