(* ===== verification/VfsTree.v ===== *)
(** * VfsTree: the table of nodes is a tree of names

    Without symbolic links and without a disk, the node table is a map from paths
    (lists of names) to directories and files.  [walk] follows names from the root;
    adding, removing and moving a node change the map at one place.  Path strings
    are resolved like the lists of their components. *)

From S2P Require Import Prelude KUtil Mem Bytes Bitmap BlockStore LimnFS Vfs.

Abbreviation name := (list Z) (only parsing).

(** ** Components of paths *)

(** The pieces between slashes, empty ones included. *)
Fixpoint split (p : list Z) : list name :=
  match p with
  | [] => [[]]
  | c :: p' => if c =? SLASH then [] :: split p' else match split p' with h :: t => (c :: h) :: t | [] => [[c]] end
  end.

Definition pieces (l : list name) : list name := filter (λ c, c ≠ []) l.
Definition comps (p : list Z) : list name := pieces (split p).

Lemma split_cons p : ∃ h t, split p = h :: t.
Proof. destruct p as [|c p]; [by eexists _, _|]. cbn. destruct (c =? SLASH); [by eexists _, _|]. destruct (split p); by eexists _, _. Qed.

Lemma split_app_slash a b : split (a ++ SLASH :: b) = split a ++ split b.
Proof.
  induction a as [|c a IH]; [done|]. cbn [app split]. rewrite IH. destruct (c =? SLASH); [done|]. destruct (split_cons a) as (h & t & ->). done.
Qed.

Lemma split_plain a : (SLASH ∉ a) → split a = [a].
Proof.
  induction a as [|c a IH]; [done|]. intros Hn. rewrite not_elem_of_cons in Hn. destruct Hn as [Hc Ha]. cbn [split].
  rewrite (proj2 (Z.eqb_neq c SLASH)) by congruence. by rewrite IH.
Qed.

(** A string and its pieces: it is empty of slashes, or there is a last slash. *)
Lemma last_slash_spec s :
  match last_slash s with
  | None => (SLASH ∉ s)
  | Some i => s = take i s ++ SLASH :: drop (S i) s ∧ (SLASH ∉ drop (S i) s)
  end.
Proof.
  induction s as [|c s IH]; cbn [last_slash]; [set_solver|]. destruct (last_slash s) as [i|].
  - destruct IH as [E Hn]. split; [|done]. cbn [take drop app]. by rewrite <- E.
  - destruct (c =? SLASH) eqn:E; bool_hyps; [by subst c|]. set_solver.
Qed.

Lemma take_comp_spec n p : let '(c, r) := take_comp n p in
  p = c ++ r ∧ (SLASH ∉ c) ∧ ((length p ≤ n)%nat → r = [] ∨ ∃ r', r = SLASH :: r').
Proof.
  revert p. induction n as [|n IH]; intros p; cbn [take_comp]; [|destruct p as [|c p]; [|destruct (c =? SLASH) eqn:E]]; bool_hyps.
  - split_and!; [done|set_solver|]. intros Hl. left. destruct p; [done|cbn in Hl; lia].
  - split_and!; [done|set_solver|]. by left.
  - subst c. split_and!; [done|set_solver|]. intros _. right. by eexists.
  - specialize (IH p). destruct (take_comp n p) as [a b], IH as (-> & Hn & Hr). split_and!; [done|set_solver|].
    intros Hl. apply Hr. cbn in Hl. lia.
Qed.

(** One round of the resolution loop takes one component. *)
Lemma comps_step p : (length p ≤ 255)%nat →
  let '(c, r) := take_comp 255 p in
  comps p = pieces [c] ++ comps (skip_slash r) ∧ (p ≠ [] → (length (skip_slash r) < length p)%nat).
Proof.
  intros Hl. pose proof (take_comp_spec 255 p) as H. destruct (take_comp 255 p) as [c r], H as (-> & Hn & Hr).
  unfold comps. destruct (Hr Hl) as [->|[r' ->]]; (split; [|rewrite ?app_nil_r; intros Hp; cbn; rewrite ?length_app; cbn; destruct c; (done || cbn; lia)]).
  - rewrite app_nil_r, (split_plain c) by done. cbn [skip_slash]. unfold pieces at 3. cbn. by rewrite app_nil_r.
  - cbn [skip_slash]. rewrite Z.eqb_refl, split_app_slash, (split_plain c) by done. unfold pieces. by rewrite filter_app.
Qed.

Lemma skip_slash_length r : (length (skip_slash r) ≤ length r)%nat.
Proof. destruct r as [|c r]; cbn; [done|]. destruct (c =? SLASH); cbn; lia. Qed.

(** ** The abstract tree *)

Inductive fnode := ADir | AFile (b : list Z) (w : bool).
#[export] Instance fnode_eq_dec : EqDecision fnode.
Proof. solve_decision. Defined.
Abbreviation ftree := (list name → option fnode) (only parsing).

(** Characters of paths are not NUL. *)
Definition good (w : list name) : Prop := Forall (Forall (λ c, c ≠ 0)) w.

(** One component from the place [w]; and a path. *)
Definition astep (T : ftree) (w : list name) (c : name) : option (list name) :=
  if decide (c = [DOT]) then Some w
  else if decide (c = [DOT; DOT]) then Some (removelast w)
  else match T (w ++ [c]) with Some _ => Some (w ++ [c]) | None => None end.
Definition awalk (T : ftree) (w : list name) (cs : list name) : option (list name) := foldl (λ o c, w ← o; astep T w c) (Some w) cs.
(** The place that the absolute path ['/' :: p] names. *)
Definition aresolve (T : ftree) (p : list Z) : option (list name) := awalk T [] (comps p).

Lemma awalk_cons T w c cs : awalk T w (c :: cs) = w' ← astep T w c; awalk T w' cs.
Proof. unfold awalk. cbn [foldl mbind option_bind]. destruct (astep T w c); [done|]. cbn. by induction cs. Qed.

(** ** Walks *)

Section vfs_tree.
Context {H St : Type} `{!ByteHeap H} `{!BlockStore St}.
Implicit Types st : vfs_st H St.

Definition child st (p : nat) (nm : name) : option nat :=
  find_idx (λ n, is_child (Z.of_nat p) n && str_eq (nd_name n) nm) (table st).

Definition walk st (w : list name) : option nat := foldl (λ o nm, p ← o; child st p nm) (Some O) w.

Lemma walk_snoc st w nm : walk st (w ++ [nm]) = p ← walk st w; child st p nm.
Proof. unfold walk. by rewrite foldl_app. Qed.

Lemma find_child_child st p nm : vfs_find_child (Z.of_nat p) nm st = match child st p nm with Some i => Z.of_nat i | None => - ENOENT end.
Proof. done. Qed.

(** Names of nodes are components. *)
Definition good_name (nm : name) : Prop :=
  nm ≠ [] ∧ (SLASH ∉ nm) ∧ Forall (λ c, c ≠ 0) nm ∧ (length nm ≤ 255)%nat ∧ nm ≠ [DOT] ∧ nm ≠ [DOT; DOT].

(** A file in memory: its buffer holds its bytes. *)
Definition file_ok (n : vfs_node) : Prop :=
  match nd_data n with
  | DHeap b => Z.of_nat (length b) = nd_capacity n ∧ 0 ≤ nd_size n ≤ nd_capacity n ∧ 0 < nd_capacity n
  | _ => False
  end.

Record vfs_wf st : Prop := {
  vw_len : length (vnodes st) = MAX_VFS_NODES;
  vw_count : (1 ≤ node_count st ≤ MAX_VFS_NODES)%nat;
  vw_ram : lfs_mounted (v_fs st) = false;
  vw_root : ∃ r, table st !! O = Some r ∧ live r = true ∧ nd_type r = VFS_DIRECTORY ∧ nd_parent r = -1;
  vw_node i n : table st !! i = Some n → live n = true → i ≠ O →
    good_name (nd_name n) ∧
    ∃ p pn, nd_parent n = Z.of_nat p ∧ table st !! p = Some pn ∧ live pn = true ∧ nd_type pn = VFS_DIRECTORY;
  vw_kind i n : table st !! i = Some n → live n = true →
    nd_inode n = -1 ∧ (nd_type n = VFS_DIRECTORY ∧ nd_flags n = 0 ∧ nd_data n = DNull ∨ nd_type n = VFS_FILE ∧ file_ok n);
  vw_uniq i j n m : table st !! i = Some n → table st !! j = Some m → live n = true → live m = true →
    nd_parent n = nd_parent m → nd_name n = nd_name m → i = j
}.

Lemma table_lookup st i : (i < node_count st)%nat → table st !! i = vnodes st !! i.
Proof. intros Hi. unfold table. by apply lookup_take_lt. Qed.

Lemma table_Some st i n : table st !! i = Some n ↔ vnodes st !! i = Some n ∧ (i < node_count st)%nat.
Proof. unfold table. apply lookup_take_Some. Qed.

Lemma str_eq_names a b : Forall (λ c, c ≠ 0) a → Forall (λ c, c ≠ 0) b → str_eq a b = bool_decide (a = b).
Proof.
  intros Ha Hb. pose proof (str_eq_true a b) as H1. rewrite (c_str_id a), (c_str_id b) in H1 by done.
  destruct (str_eq a b); [symmetry; apply bool_decide_eq_true; by apply H1|]. symmetry. apply bool_decide_eq_false. intros E. by apply H1 in E.
Qed.

(** A child in terms of the table. *)
Lemma child_Some st p nm i : vfs_wf st → Forall (λ c, c ≠ 0) nm →
  child st p nm = Some i ↔ ∃ n, table st !! i = Some n ∧ live n = true ∧ nd_parent n = Z.of_nat p ∧ nd_name n = nm.
Proof.
  intros W Hnm. assert (Hz : ∀ j n, table st !! j = Some n → live n = true → nd_parent n = Z.of_nat p → Forall (λ c, c ≠ 0) (nd_name n)).
  { intros j n Hj Hl Hp. destruct (decide (j = O)) as [->|Hj0].
    - destruct (vw_root _ W) as (r & Hr & _ & _ & Hrp). rewrite Hj in Hr. injection Hr as <-. lia.
    - destruct (vw_node _ W j n Hj Hl Hj0) as [(_ & _ & ? & _) _]. done. }
  assert (Hp : ∀ j n, table st !! j = Some n → is_child (Z.of_nat p) n && str_eq (nd_name n) nm = true ↔
    live n = true ∧ nd_parent n = Z.of_nat p ∧ nd_name n = nm).
  { intros j n Hj. unfold is_child. rewrite !andb_true_iff, Z.eqb_eq. split.
    - intros [[Hl Hp] Hs]. rewrite str_eq_names, bool_decide_eq_true in Hs by eauto. done.
    - intros (Hl & Hp & <-). rewrite str_eq_names by eauto. by rewrite bool_decide_true. }
  unfold child. split.
  - intros (n & Hn & Ht)%find_idx_lookup. exists n. split; [done|]. by apply (Hp i n).
  - intros (n & Hn & Ht). apply (find_idx_unique _ _ _ n); [done|by apply (Hp i n)|]. intros j m Hj Hm. apply (Hp j m Hj) in Hm as (Hl & Hpm & Hnm').
    destruct Ht as (? & ? & ?). apply (vw_uniq _ W j i m n); try done; congruence.
Qed.

Lemma child_live st p nm i : child st p nm = Some i → ∃ n, table st !! i = Some n ∧ live n = true.
Proof. intros (n & Hn & Ht)%find_idx_lookup. apply andb_prop in Ht as [Ht _]. apply andb_prop in Ht as [Ht _]. eauto. Qed.

Lemma walk_live st w i : vfs_wf st → walk st w = Some i → ∃ n, table st !! i = Some n ∧ live n = true.
Proof.
  intros W. destruct w as [|nm w _] using rev_ind; [intros [= <-]; destruct (vw_root _ W) as (r & ? & ? & _); eauto|].
  rewrite walk_snoc. destruct (walk st w); [|done]. cbn. apply child_live.
Qed.

Lemma child_parent st p nm i n : child st p nm = Some i → table st !! i = Some n → nd_parent n = Z.of_nat p.
Proof.
  intros (m & Hm & Ht)%find_idx_lookup Hn. rewrite Hn in Hm. injection Hm as <-. apply andb_prop in Ht as [Ht _]. apply andb_prop in Ht as [_ Ht]. bool_hyps. done.
Qed.

(** A node is at one place. *)
Lemma walk_inj st w w' i : vfs_wf st → good w → good w' → walk st w = Some i → walk st w' = Some i → w = w'.
Proof.
  intros W. revert w' i. induction w as [|nm w IH] using rev_ind; intros w' i Hg Hg' Hw Hw'.
  - destruct w' as [|nm' w' _] using rev_ind; [done|]. injection Hw as <-. rewrite walk_snoc in Hw'. destruct (walk st w') as [p|]; [|done]. cbn in Hw'.
    destruct (vw_root _ W) as (r & Hr & _ & _ & Hrp). pose proof (child_parent _ _ _ _ _ Hw' Hr). lia.
  - rewrite walk_snoc in Hw. destruct (walk st w) as [p|] eqn:Ep; [|done]. cbn in Hw. destruct w' as [|nm' w' _] using rev_ind.
    { injection Hw' as <-. destruct (vw_root _ W) as (r & Hr & _ & _ & Hrp). pose proof (child_parent _ _ _ _ _ Hw Hr). lia. }
    rewrite walk_snoc in Hw'. destruct (walk st w') as [p'|] eqn:Ep'; [|done]. cbn in Hw'. unfold good in Hg, Hg'. rewrite Forall_app, Forall_singleton in Hg, Hg'.
    destruct Hg as [Hg Hnm], Hg' as [Hg' Hnm']. apply (child_Some st p nm i W Hnm) in Hw as (n & Hn & _ & Hp & Hna).
    apply (child_Some st p' nm' i W Hnm') in Hw' as (n' & Hn' & _ & Hp' & Hna'). rewrite Hn in Hn'. injection Hn' as <-.
    assert (p' = p) as -> by lia. f_equal; [by apply (IH w' p)|]. by rewrite <- Hna, <- Hna'.
Qed.

(** ** Resolution *)

(** One component from the node [cur]. *)
Definition istep st (cur : nat) (c : name) : option nat :=
  if decide (c = [DOT]) then Some cur
  else if decide (c = [DOT; DOT]) then
    let up := nd_parent (node_at (Z.of_nat cur) st) in Some (if 0 <=? up then Z.to_nat up else cur)
  else child st cur c.
Definition iwalk st (cur : nat) (cs : list name) : option nat := foldl (λ o c, p ← o; istep st p c) (Some cur) cs.

Lemma iwalk_cons st cur c cs : iwalk st cur (c :: cs) = p ← istep st cur c; iwalk st p cs.
Proof.
  unfold iwalk. cbn [foldl mbind option_bind]. destruct (istep st cur c); [done|]. cbn. induction cs; [done|]. done.
Qed.

Definition idx_of (o : option nat) : Z := match o with Some i => Z.of_nat i | None => - ENOENT end.

Lemma node_at_table st i n : table st !! i = Some n → node_at (Z.of_nat i) st = n.
Proof. intros [Hi _]%table_Some. unfold node_at. rewrite Nat2Z.id. by apply list_lookup_total_correct. Qed.

Lemma resolve_loop_spec st follow fuel cur p :
  vfs_wf st → (∃ n, table st !! cur = Some n ∧ live n = true) → (length p ≤ fuel)%nat → (length p ≤ 255)%nat →
  resolve_loop fuel follow (Z.of_nat cur) p st = idx_of (iwalk st cur (comps p)).
Proof.
  intros W. revert cur p. induction fuel as [|fuel IH]; intros cur p Hcur Hf Hl; [destruct p; [done|cbn in Hf; lia]|].
  destruct p as [|x p']; [done|]. set (p := x :: p') in *. cbn [resolve_loop]. unfold p at 1. cbv iota. fold p.
  pose proof (comps_step p Hl) as Hs. destruct (take_comp 255 p) as [c r], Hs as (-> & Hlt). specialize (Hlt ltac:(done)).
  assert (Hgo : ∀ q m, table st !! q = Some m → live m = true → resolve_loop fuel follow (Z.of_nat q) (skip_slash r) st = idx_of (iwalk st q (comps (skip_slash r)))).
  { intros q m Hq Hlq. apply IH; [by exists m|lia|lia]. }
  destruct Hcur as (n & Hn & Hln). destruct (decide (c = [])) as [->|Hc]; [by apply (Hgo cur n)|].
  assert (pieces [c] = [c]) as -> by (unfold pieces; by rewrite filter_cons_True). cbn [app]. rewrite iwalk_cons. unfold istep.
  destruct (decide (c = [DOT])); [by apply (Hgo cur n)|]. rewrite (node_at_table st cur n Hn). destruct (decide (c = [DOT; DOT])).
  { cbn [mbind option_bind]. destruct (0 <=? nd_parent n) eqn:E; [|by apply (Hgo cur n)]. bool_hyps.
    destruct (decide (cur = O)) as [->|H0]; [destruct (vw_root _ W) as (r0 & Hr0 & _ & _ & Hp0); rewrite Hn in Hr0; injection Hr0 as <-; lia|].
    destruct (vw_node _ W cur n Hn Hln H0) as [_ (q & pn & -> & Hq & ? & _)]. rewrite Nat2Z.id. by apply (Hgo q pn). }
  rewrite find_child_child. destruct (child st cur c) as [i|] eqn:Ec; [|done]. cbn [mbind option_bind].
  rewrite (proj2 (Z.ltb_ge (Z.of_nat i) 0)) by lia. destruct (child_live _ _ _ _ Ec) as (m & Hm & Hml). rewrite (node_at_table st i m Hm).
  destruct (vw_kind _ W i m Hm Hml) as [_ [[Ht _]|[Ht _]]]; rewrite Ht; by apply (Hgo i m).
Qed.

(** ** What the table holds *)

Definition data_bytes (d : vdata) : list Z := match d with DNull => [] | DHeap b | DImage b => b end.
Definition writable (n : vfs_node) : bool := negb (Z.land (nd_flags n) VFS_FLAG_WRITABLE =? 0).
Definition anode (n : vfs_node) : fnode :=
  if nd_type n =? VFS_FILE then AFile (take (Z.to_nat (nd_size n)) (data_bytes (nd_data n))) (writable n) else ADir.

Definition tree_of st (w : list name) : option fnode := if decide (good w) then anode <$> (walk st w ≫= λ i, table st !! i) else None.

Lemma tree_of_Some st w a : vfs_wf st → tree_of st w = Some a ↔ good w ∧ ∃ i n, walk st w = Some i ∧ table st !! i = Some n ∧ live n = true ∧ anode n = a.
Proof.
  intros W. unfold tree_of. case_decide as Hg; [|naive_solver]. split.
  - intros Ha. split; [done|]. destruct (walk st w) as [i|] eqn:Ew; [|done]. destruct (walk_live _ _ _ W Ew) as (n & Hn & Hl). exists i, n.
    cbn in Ha. rewrite Hn in Ha. cbn in Ha. split_and!; try done. congruence.
  - intros (_ & i & n & -> & Hn & _ & <-). cbn. by rewrite Hn.
Qed.

Lemma tree_of_None st w : vfs_wf st → good w → tree_of st w = None ↔ walk st w = None.
Proof.
  intros W Hg. unfold tree_of. rewrite decide_True by done. destruct (walk st w) as [i|] eqn:Ew; [|done]. destruct (walk_live _ _ _ W Ew) as (n & Hn & _).
  cbn. rewrite Hn. done.
Qed.

Lemma good_app w w' : good (w ++ w') ↔ good w ∧ good w'.
Proof. apply Forall_app. Qed.

Lemma good_snoc w nm : good (w ++ [nm]) ↔ good w ∧ Forall (λ c, c ≠ 0) nm.
Proof. unfold good. by rewrite Forall_app, Forall_singleton. Qed.

Lemma removelast_good w : good w → good (removelast w).
Proof. destruct w as [|c w _] using rev_ind; [done|]. rewrite removelast_last. unfold good. rewrite Forall_app. by intros [? _]. Qed.

Lemma istep_astep st w i c :
  vfs_wf st → good w → Forall (λ x, x ≠ 0) c → walk st w = Some i →
  match astep (tree_of st) w c with
  | Some w' => good w' ∧ ∃ i', istep st i c = Some i' ∧ walk st w' = Some i'
  | None => istep st i c = None
  end.
Proof.
  intros W Hg Hc Hw. unfold astep, istep. destruct (decide (c = [DOT])); [by eauto|]. destruct (decide (c = [DOT; DOT])).
  - split; [by apply removelast_good|]. eexists. split; [done|]. destruct w as [|nm w _] using rev_ind.
    + injection Hw as <-. destruct (vw_root _ W) as (r & Hr & _ & _ & Hp). rewrite (node_at_table _ _ _ Hr), Hp. done.
    + rewrite removelast_last. rewrite walk_snoc in Hw. destruct (walk st w) as [q|]; [|done]. cbn in Hw.
      destruct (child_live _ _ _ _ Hw) as (m & Hn & _). rewrite (node_at_table _ _ _ Hn), (child_parent _ _ _ _ _ Hw Hn).
      rewrite (proj2 (Z.leb_le 0 _)) by lia. by rewrite Nat2Z.id.
  - assert (Hg' : good (w ++ [c])) by (apply good_app; split; [done|by apply Forall_singleton]).
    destruct (tree_of st (w ++ [c])) as [a|] eqn:Et.
    + apply (tree_of_Some _ _ _ W) in Et as (_ & i' & m & Hw' & _). split; [done|]. exists i'. split; [|done]. by rewrite walk_snoc, Hw in Hw'.
    + apply (tree_of_None _ _ W Hg') in Et. by rewrite walk_snoc, Hw in Et.
Qed.

Lemma iwalk_awalk st w i cs :
  vfs_wf st → good w → good cs → walk st w = Some i →
  match awalk (tree_of st) w cs with
  | Some w' => good w' ∧ ∃ i', iwalk st i cs = Some i' ∧ walk st w' = Some i'
  | None => iwalk st i cs = None
  end.
Proof.
  intros W. revert w i. induction cs as [|c cs IH]; intros w i Hg Hcs Hw; [split; [done|by exists i]|]. apply Forall_cons in Hcs as [Hc Hcs].
  rewrite awalk_cons, iwalk_cons. pose proof (istep_astep st w i c W Hg Hc Hw) as Hs. destruct (astep (tree_of st) w c) as [w'|]; cbn [mbind option_bind].
  - destruct Hs as (Hg' & i' & -> & Hw'). cbn [mbind option_bind]. by apply IH.
  - by rewrite Hs.
Qed.

Lemma split_good p : Forall (λ c, c ≠ 0) p → good (split p).
Proof.
  unfold good. induction 1 as [|c p Hc Hp IH]; cbn [split]; [by repeat constructor|]. destruct (c =? SLASH); [by constructor|].
  destruct (split p) as [|h t]; [by repeat constructor|]. apply Forall_cons in IH as [??]. by repeat constructor.
Qed.

Lemma pieces_good l : good l → good (pieces l).
Proof. unfold good, pieces. rewrite !Forall_forall. intros Hl c [_ Hc]%list_elem_of_filter. by apply Hl. Qed.

(** A path as the calls get it: absolute, within [MAX_PATH]. *)
Definition path_ok (p : list Z) : Prop := Forall (λ c, c ≠ 0) p ∧ (length p < 255)%nat.

(** Resolution of a path string is resolution in the tree. *)
Lemma resolve_spec st p :
  vfs_wf st → path_ok p →
  match aresolve (tree_of st) p with
  | Some w => good w ∧ ∃ i, vfs_resolve_path (SLASH :: p) st = Z.of_nat i ∧ walk st w = Some i
  | None => vfs_resolve_path (SLASH :: p) st = - ENOENT
  end.
Proof.
  intros W [Hz Hl]. unfold vfs_resolve_path. cbn [vfs_resolve_path_depth]. change (c_at (SLASH :: p) 0 =? SLASH) with true. cbn [negb].
  rewrite (c_str_id (SLASH :: p)) by (by constructor). cbv zeta. change (drop 1 (SLASH :: p)) with p. destruct (vw_root _ W) as (r & Hr & Hlr & _).
  rewrite (resolve_loop_spec st _ _ O) by (done || (by eexists) || cbn; lia). unfold aresolve.
  pose proof (iwalk_awalk st [] O (comps p) W ltac:(constructor) ltac:(by apply pieces_good, split_good) eq_refl) as Hs.
  destruct (awalk (tree_of st) [] (comps p)) as [w|]; [|by rewrite Hs]. destruct Hs as (Hg & i & -> & Hw). split; [done|]. by exists i.
Qed.

(** ** Changes at one place *)

Lemma prefix_snoc_1 {X} (l k : list X) x : l `prefix_of` (k ++ [x]) → l `prefix_of` k ∨ l = k ++ [x].
Proof.
  intros [s E]. destruct s as [|y s _] using rev_ind; [right; by rewrite app_nil_r in E|left]. rewrite app_assoc in E. apply app_inj_tail in E as [-> _]. by exists s.
Qed.

Section change.
Context st st' (W : vfs_wf st).

(** The children are the same. *)
Lemma walk_ext w : (∀ p nm, Forall (λ c, c ≠ 0) nm → child st' p nm = child st p nm) → good w → walk st' w = walk st w.
Proof.
  intros Hc. induction w as [|nm w IH] using rev_ind; intros Hg; [done|]. apply good_snoc in Hg as [Hg Hnm]. rewrite !walk_snoc, IH by done.
  destruct (walk st w); [|done]. by apply Hc.
Qed.

(** The node [i] appears in the directory [q], which is at [wq]. *)
Lemma walk_add i q wq base w :
  (∀ p nm, Forall (λ c, c ≠ 0) nm → child st' p nm = if decide (p = q ∧ nm = base) then Some i else child st p nm) →
  walk st wq = Some q → child st q base = None → (∀ nm, child st i nm = None) → i ≠ q → good wq → Forall (λ c, c ≠ 0) base → good w →
  walk st' w = if decide (w = wq ++ [base]) then Some i else walk st w.
Proof.
  intros Hc Hq Hb Hi Hiq Hgq Hgb. induction w as [|nm w IH] using rev_ind; intros Hg.
  { rewrite decide_False; [done|]. by destruct wq. }
  apply good_snoc in Hg as [Hg Hnm]. rewrite !walk_snoc, IH by done. destruct (decide (w = wq ++ [base])) as [->|Hw].
  - cbn [mbind option_bind]. rewrite Hc, decide_False, Hi by (done || naive_solver). rewrite decide_False by (intros E; apply (f_equal length) in E; rewrite !length_app in E; cbn in E; lia).
    rewrite walk_snoc, Hq. cbn [mbind option_bind]. by rewrite Hb.
  - destruct (walk st w) as [j|] eqn:Ej; cbn [mbind option_bind].
    + rewrite Hc by done. destruct (decide (j = q ∧ nm = base)) as [[-> ->]|Hne].
      * rewrite (walk_inj st w wq q) by done. by rewrite decide_True.
      * rewrite decide_False; [done|]. intros [-> <-]%app_inj_tail. apply Hne. split; congruence.
    + rewrite decide_False; [done|]. intros [-> _]%app_inj_tail. congruence.
Qed.

(** The node [i] at [wi], which has no children, disappears. *)
Lemma walk_del i wi w :
  (∀ p nm, Forall (λ c, c ≠ 0) nm → child st' p nm = j ← child st p nm; if decide (j = i) then None else Some j) →
  walk st wi = Some i → (∀ nm, child st i nm = None) → i ≠ O → good wi → good w → walk st' w = if decide (w = wi) then None else walk st w.
Proof.
  intros Hc Hi Hn H0 Hgi. induction w as [|nm w IH] using rev_ind; intros Hg.
  { rewrite decide_False; [done|]. intros <-. by injection Hi. }
  pose proof Hg as Hg0. apply good_snoc in Hg as [Hg Hnm]. rewrite walk_snoc, IH by done. destruct (decide (w = wi)) as [->|Hw].
  - cbn [mbind option_bind]. rewrite walk_snoc, Hi. cbn [mbind option_bind]. rewrite Hn. by case_decide.
  - rewrite (walk_snoc st). destruct (walk st w) as [p|] eqn:Ep; cbn [mbind option_bind].
    + rewrite Hc by done. destruct (child st p nm) as [j|] eqn:Ej; cbn [mbind option_bind]; [|by case_decide]. destruct (decide (j = i)) as [->|Hj].
      * assert (w ++ [nm] = wi) as -> by (apply (walk_inj st _ _ i); try done; by rewrite walk_snoc, Ep). by rewrite decide_True.
      * rewrite decide_False; [done|]. intros E. rewrite <- E, walk_snoc, Ep in Hi. cbn [mbind option_bind] in Hi. congruence.
    + by case_decide.
Qed.

Lemma walk_prefix w w' i : walk st (w ++ w') = Some i → ∃ j, walk st w = Some j.
Proof.
  revert i. induction w' as [|nm w' IH] using rev_ind; intros i; [rewrite app_nil_r; eauto|]. rewrite app_assoc, walk_snoc.
  destruct (walk st (w ++ w')) as [j|] eqn:E; [|done]. intros _. by apply (IH j).
Qed.

(** The node [i] moves from [wi] to the name [base] of the directory [q] at [wq]. *)
Lemma walk_move i wi q wq base w :
  (∀ p nm, Forall (λ c, c ≠ 0) nm → child st' p nm =
     if decide (p = q ∧ nm = base) then Some i else j ← child st p nm; if decide (j = i) then None else Some j) →
  walk st wi = Some i → walk st wq = Some q → child st q base = None → i ≠ O → good wi → good wq → Forall (λ c, c ≠ 0) base → good w →
  walk st' w =
    if decide (wi `prefix_of` wq) then (if decide (wi `prefix_of` w) then None else walk st w)
    else if decide ((wq ++ [base]) `prefix_of` w) then walk st (wi ++ drop (S (length wq)) w)
    else if decide (wi `prefix_of` w) then None else walk st w.
Proof.
  intros Hc Hi Hq Hb H0 Hgi Hgq Hgb. assert (Hwb : walk st (wq ++ [base]) = None) by (by rewrite walk_snoc, Hq).
  assert (Hnil : wi ≠ []) by (intros ->; by injection Hi).
  induction w as [|nm w IH] using rev_ind; intros Hg.
  { assert (¬ wi `prefix_of` []) by (by intros ?%prefix_nil_inv). assert (¬ (wq ++ [base]) `prefix_of` []) by (intros ?%prefix_nil_inv; by destruct wq).
    case_decide; rewrite !decide_False by done; done. }
  pose proof Hg as Hg0. apply good_snoc in Hg as [Hg Hnm]. rewrite walk_snoc, IH by done. clear IH.
  assert (Hold : ∀ p, walk st w = Some p → ¬ wi `prefix_of` w → ¬ (p = q ∧ nm = base) →
    child st' p nm = if decide (wi `prefix_of` (w ++ [nm])) then None else walk st (w ++ [nm])).
  { intros p Hp Hpre Hne. rewrite Hc, decide_False, walk_snoc, Hp by done. cbn [mbind option_bind]. destruct (child st p nm) as [j|] eqn:Ej; cbn [mbind option_bind]; [|by case_decide].
    assert (Hwj : walk st (w ++ [nm]) = Some j) by (by rewrite walk_snoc, Hp). destruct (decide (j = i)) as [->|Hj].
    - rewrite (walk_inj st wi (w ++ [nm]) i) by done. by rewrite decide_True.
    - rewrite decide_False; [done|]. intros [|E]%prefix_snoc_1; [done|]. subst wi. congruence. }
  assert (Hnone : walk st w = None → walk st (w ++ [nm]) = None) by (intros E; by rewrite walk_snoc, E).
  assert (Hin : wi `prefix_of` w → wi `prefix_of` (w ++ [nm])) by (intros ?; by apply prefix_app_r).
  destruct (decide (wi `prefix_of` wq)) as [Hself|Hself].
  - destruct (decide (wi `prefix_of` w)) as [Hpre|Hpre]; cbn [mbind option_bind]; [by rewrite decide_True by auto|].
    destruct (walk st w) as [p|] eqn:Ep; cbn [mbind option_bind]; [|rewrite Hnone by done; by case_decide].
    apply Hold; [done|done|]. intros [-> _]. by rewrite (walk_inj st w wq q) in Hpre.
  - destruct (decide ((wq ++ [base]) `prefix_of` w)) as [[s ->]|Hnew].
    + assert (Hd : ∀ t, drop (S (length wq)) ((wq ++ [base]) ++ t) = t).
      { intros t. rewrite drop_app_length'; [done|]. rewrite length_app. cbn. lia. }
      rewrite decide_True by (apply prefix_app_r, prefix_app_r; done). rewrite <- (app_assoc (wq ++ [base])), !Hd. rewrite app_assoc, walk_snoc.
      destruct (walk st (wi ++ s)) as [p|] eqn:Ep; cbn [mbind option_bind]; [|done].
      rewrite Hc, decide_False by (done || (intros [-> _]; apply Hself; rewrite (walk_inj st wq (wi ++ s) q) by (done || (apply good_app; split; [done|]; by apply good_app in Hg as [_ ?])); by apply prefix_app_r)).
      destruct (child st p nm) as [j|] eqn:Ej; cbn [mbind option_bind]; [|done]. rewrite decide_False; [done|]. intros ->.
      assert (Hgs : good (wi ++ s ++ [nm])) by (apply good_app in Hg as [_ Hgs]; rewrite !good_app; split_and!; [done|done|by apply Forall_singleton]).
      assert (wi = wi ++ s ++ [nm]) as E by (apply (walk_inj st _ _ i); try done; by rewrite app_assoc, walk_snoc, Ep).
      apply (f_equal length) in E. rewrite !length_app in E. cbn in E. lia.
    + destruct (decide (wi `prefix_of` w)) as [Hpre|Hpre]; cbn [mbind option_bind].
      * rewrite decide_False, decide_True; [done|by auto|]. intros [|E]%prefix_snoc_1; [done|]. apply app_inj_tail in E as [-> _]. done.
      * destruct (walk st w) as [p|] eqn:Ep; cbn [mbind option_bind].
        -- destruct (decide (p = q ∧ nm = base)) as [[-> ->]|Hne].
           ++ rewrite Hc, decide_True by done. rewrite (walk_inj st w wq q) by done. rewrite decide_True by done.
              rewrite drop_ge by (rewrite length_app; cbn; lia). by rewrite app_nil_r, Hi.
           ++ rewrite (Hold p) by done. rewrite (decide_False (P := (wq ++ [base]) `prefix_of` _)); [done|]. intros [|E]%prefix_snoc_1; [done|].
              apply app_inj_tail in E as [-> ->]. apply Hne. split; congruence.
        -- rewrite Hnone by done. rewrite (decide_False (P := (wq ++ [base]) `prefix_of` _)); [by case_decide|]. intros [|E]%prefix_snoc_1; [done|].
           apply app_inj_tail in E as [-> _]. congruence.
Qed.
End change.
End vfs_tree.
