(* ===== verification/VfsSpec.v ===== *)
(** * VfsSpec: files and directories in memory

    The operations of [Vfs] on path strings refine a map from paths to directories
    and files: creation, deletion, renaming, writing, truncating and reading.  A
    rename into the directory that is moved loses it; a write past the end of a
    file exposes what its buffer held. *)

From S2P Require Import Prelude KUtil Mem Bytes Bitmap BlockStore LimnFS Vfs VfsTree.

(** ** The abstract machine *)

Inductive fop :=
| FCreate (p : list Z)
| FMkdir (p : list Z)
| FDelete (p : list Z)
| FRename (p q : list Z)
| FWrite (p : list Z) (off : Z) (buf : list Z)
| FTruncate (p : list Z) (size : Z)
| FRead (p : list Z) (off len : Z).

(** Where a new entry goes: the directory and the name, or an error. *)
Definition aplace (T : list name → option fnode) (p : list Z) : Z + (list name * name) :=
  match aresolve T p with
  | Some _ => inl (- EEXIST)
  | None =>
      let base := List.last (split p) [] in
      if decide (base = []) then inl (- EINVAL)
      else
        match awalk T [] (pieces (removelast (split p))) with
        | None => inl (- ENOENT)
        | Some d => if decide (T d = Some ADir) then inr (d, base) else inl (- ENOTDIR)
        end
  end.

Definition tput (T : list name → option fnode) (w : list name) (o : option fnode) : list name → option fnode :=
  λ w', if decide (w' = w) then o else T w'.

(** Everything at and below [src] is now at and below [dst]; what moves below itself
    is lost. *)
Definition tmove (T : list name → option fnode) (src dir : list name) (base : name) : list name → option fnode :=
  λ w, if decide (src `prefix_of` dir) then (if decide (src `prefix_of` w) then None else T w)
       else if decide ((dir ++ [base]) `prefix_of` w) then T (src ++ drop (S (length dir)) w)
       else if decide (src `prefix_of` w) then None else T w.

(** The contents after [buf] was written at [off]; [gap] is what lies between the
    old end and [off]. *)
Definition written (b gap : list Z) (off : nat) (buf : list Z) : list Z :=
  take off (b ++ gap) ++ buf ++ drop (off + length buf) b.

Definition resized (b : list Z) (n : nat) : list Z := take n b ++ replicate (n - length b) 0.

(** Operations that may need a slot or memory. *)
Definition allocates (o : fop) : bool := match o with FCreate _ | FMkdir _ | FWrite _ _ _ | FTruncate _ _ => true | _ => false end.

(** One operation: the result (0 or a count, or an error), the bytes read, the new
    tree up to extensionality.  [S_nospace]: no slot or no memory is left. *)
Inductive fstep (T : list name → option fnode) : fop → Z → list Z → (list name → option fnode) → Prop :=
| S_create_err p e : aplace T p = inl e → fstep T (FCreate p) e [] T
| S_create p d base : aplace T p = inr (d, base) → fstep T (FCreate p) 0 [] (tput T (d ++ [base]) (Some (AFile [] true)))
| S_mkdir_err p e : aplace T p = inl e → fstep T (FMkdir p) e [] T
| S_mkdir p d base : aplace T p = inr (d, base) → fstep T (FMkdir p) 0 [] (tput T (d ++ [base]) (Some ADir))
| S_delete_none p : aresolve T p = None → fstep T (FDelete p) (- ENOENT) [] T
| S_delete_root p : aresolve T p = Some [] → fstep T (FDelete p) (- EACCES) [] T
| S_delete_full p w nm a : aresolve T p = Some w → w ≠ [] → T w = Some ADir → T (w ++ [nm]) = Some a → fstep T (FDelete p) (- ENOTEMPTY) [] T
| S_delete p w : aresolve T p = Some w → w ≠ [] → (∀ nm, T (w ++ [nm]) = None) → fstep T (FDelete p) 0 [] (tput T w None)
| S_rename_none p q : (aresolve T p = None ∨ aresolve T p = Some []) → fstep T (FRename p q) (- ENOENT) [] T
| S_rename_err p q w e : aresolve T p = Some w → w ≠ [] → aplace T q = inl e → fstep T (FRename p q) e [] T
| S_rename p q w d base : aresolve T p = Some w → w ≠ [] → aplace T q = inr (d, base) → fstep T (FRename p q) 0 [] (tmove T w d base)
| S_write_none p off buf : aresolve T p = None → fstep T (FWrite p off buf) (- ENOENT) [] T
| S_write_ro p w off buf a : aresolve T p = Some w → T w = Some a → (∀ b, a ≠ AFile b true) → fstep T (FWrite p off buf) (- EACCES) [] T
| S_write_big p w off buf b : aresolve T p = Some w → T w = Some (AFile b true) → VFS_MAX_FILE_SIZE < off + Z.of_nat (length buf) →
    fstep T (FWrite p off buf) (- ENOSPC) [] T
| S_write p w off buf b gap : aresolve T p = Some w → T w = Some (AFile b true) → off + Z.of_nat (length buf) ≤ VFS_MAX_FILE_SIZE →
    length gap = (Z.to_nat off - length b)%nat →
    fstep T (FWrite p off buf) (Z.of_nat (length buf)) [] (tput T w (Some (AFile (written b gap (Z.to_nat off) buf) true)))
| S_truncate_none p n : aresolve T p = None → fstep T (FTruncate p n) (- ENOENT) [] T
| S_truncate_dir p w n : aresolve T p = Some w → T w = Some ADir → fstep T (FTruncate p n) (- EISDIR) [] T
| S_truncate_ro p w n b : aresolve T p = Some w → T w = Some (AFile b false) → fstep T (FTruncate p n) (- EACCES) [] T
| S_truncate_big p w n b : aresolve T p = Some w → T w = Some (AFile b true) → VFS_MAX_FILE_SIZE < n → fstep T (FTruncate p n) (- ENOSPC) [] T
| S_truncate p w n b : aresolve T p = Some w → T w = Some (AFile b true) → n ≤ VFS_MAX_FILE_SIZE →
    fstep T (FTruncate p n) 0 [] (tput T w (Some (AFile (resized b (Z.to_nat n)) true)))
| S_read_none p off len : aresolve T p = None → fstep T (FRead p off len) (- ENOENT) [] T
| S_read_dir p w off len : aresolve T p = Some w → T w = Some ADir → fstep T (FRead p off len) (- EISDIR) [] T
| S_read p w off len b wr : aresolve T p = Some w → T w = Some (AFile b wr) →
    let out := slice (Z.to_nat off) (Z.to_nat len) b in fstep T (FRead p off len) (Z.of_nat (length out)) out T
| S_nospace o e : allocates o = true → e = - ENOMEM ∨ e = - ENOSPC → fstep T o e [] T.

Section vfs_spec.
Context {H St : Type} `{!ByteHeap H} `{!BlockStore St}.
Implicit Types st : vfs_st H St.

(** ** The machine *)

(** Creation reports success as 0. *)
Definition ok_of (r : Z) : Z := if 0 <=? r then 0 else r.

(** The calls on the absolute path ['/' :: p]. *)
Definition fs_exec (o : fop) st : option (Z * list Z * vfs_st H St) :=
  let at_path p (f : Z → option (Z * list Z * vfs_st H St)) :=
    let idx := vfs_open (SLASH :: p) st in if idx <? 0 then Some (idx, [], st) else f idx in
  match o with
  | FCreate p => '(r, st) ← vfs_create (SLASH :: p) st; Some (ok_of r, [], st)
  | FMkdir p => let '(r, st) := vfs_mkdir (SLASH :: p) st in Some (ok_of r, [], st)
  | FDelete p => '(r, st) ← vfs_delete (SLASH :: p) st; Some (r, [], st)
  | FRename p q => let '(r, st) := vfs_rename (SLASH :: p) (SLASH :: q) st in Some (r, [], st)
  | FWrite p off buf => at_path p (λ idx, '(r, st) ← vfs_write idx off buf st; Some (r, [], st))
  | FTruncate p n => at_path p (λ idx, '(r, st) ← vfs_truncate_node idx n st; Some (r, [], st))
  | FRead p off len => at_path p (λ idx, vfs_read idx off len st)
  end.

(** ** One node changes *)

Record upd st st' (i : nat) (n' : vfs_node) : Prop := {
  up_table j : table st' !! j = if decide (j = i) then Some n' else table st !! j;
  up_len : length (vnodes st') = length (vnodes st);
  up_count : (node_count st ≤ node_count st' ≤ MAX_VFS_NODES)%nat;
  up_fs : v_fs st' = v_fs st
}.

Lemma set_node_upd st i n f : (node_count st ≤ MAX_VFS_NODES)%nat → table st !! i = Some n → upd st (set_node (Z.of_nat i) f st) i (f n).
Proof.
  intros HC Hi. pose proof Hi as [Hn Hlt]%table_Some. split; [|by cbn; rewrite length_alter|cbn; lia|done].
  intros j. unfold table, set_node. cbn. rewrite Nat2Z.id. destruct (decide (j = i)) as [->|Hne].
  - rewrite lookup_take_lt by done. rewrite list_lookup_alter_eq, Hn. done.
  - destruct (decide (j < node_count st)%nat).
    + rewrite !lookup_take_lt by done. by rewrite list_lookup_alter_ne by congruence.
    + rewrite !lookup_take_ge by lia. done.
Qed.

Lemma upd_heap st st' i n h : upd st st' i n → upd st (st' <| v_heap := h |>) i n.
Proof. intros [? ? ? ?]. by split. Qed.
Lemma upd_heap_l st st' i n h : upd (st <| v_heap := h |>) st' i n → upd st st' i n.
Proof. intros [? ? ? ?]. by split. Qed.

Lemma upd_trans st st1 st2 i n1 n2 : upd st st1 i n1 → upd st1 st2 i n2 → upd st st2 i n2.
Proof.
  intros [T1 L1 C1 F1] [T2 L2 C2 F2]. split; [|congruence|lia|congruence]. intros j. rewrite T2. case_decide; [done|]. rewrite T1. by rewrite decide_False.
Qed.

(** The node is there after the change, with a parent that is a directory. *)
Lemma wf_put st st' i n' :
  vfs_wf st → upd st st' i n' → i ≠ O → live n' = true → good_name (nd_name n') →
  (∃ q pn, nd_parent n' = Z.of_nat q ∧ q ≠ i ∧ table st !! q = Some pn ∧ live pn = true ∧ nd_type pn = VFS_DIRECTORY) ∨ 
    nd_parent n' = Z.of_nat i ∧ nd_type n' = VFS_DIRECTORY →
  nd_inode n' = -1 ∧ (nd_type n' = VFS_DIRECTORY ∧ nd_flags n' = 0 ∧ nd_data n' = DNull ∨ nd_type n' = VFS_FILE ∧ file_ok n') →
  (∀ j m, j ≠ i → table st !! j = Some m → live m = true → nd_parent m = nd_parent n' → nd_name m = nd_name n' → False) →
  (∀ j m, j ≠ i → table st !! j = Some m → live m = true → nd_parent m = Z.of_nat i → nd_type n' = VFS_DIRECTORY) →
  vfs_wf st'.
Proof.
  intros W [T L C F] Hi0 Hl Hg Hpar Hk Hu Hch. assert (Hi : ∀ j n, table st' !! j = Some n → (j = i ∧ n = n') ∨ (j ≠ i ∧ table st !! j = Some n)).
  { intros j n. rewrite T. case_decide; [intros [= <-]|]; auto. }
  pose proof (vw_count _ W) as HC. split.
  - rewrite L. apply W.
  - lia.
  - rewrite F. apply W.
  - rewrite T, decide_False by done. apply W.
  - intros j n Hj Hlj Hj0. destruct (Hi j n Hj) as [[-> ->]|[Hne Hj']].
    + split; [done|]. destruct Hpar as [(q & pn & -> & Hq & Hpn & ? & ?)|[-> ?]].
      * exists q, pn. by rewrite T, decide_False by done.
      * exists i, n'. by rewrite T, decide_True.
    + destruct (vw_node _ W j n Hj' Hlj Hj0) as [? (p & pn & Hp & Hpn & ? & ?)]. split; [done|]. destruct (decide (p = i)) as [->|Hpi].
      * exists i, n'. rewrite T, decide_True by done. split_and!; try done. by eapply Hch.
      * exists p, pn. by rewrite T, decide_False.
  - intros j n Hj Hlj. destruct (Hi j n Hj) as [[-> ->]|[Hne Hj']]; [done|by apply (vw_kind _ W j)].
  - intros j k n m Hj Hk' Hln Hlm Hp Hn. destruct (Hi j n Hj) as [[-> ->]|[Hne Hj']], (Hi k m Hk') as [[-> ->]|[Hne' Hk'']]; [done|exfalso..|].
    + by apply (Hu k m).
    + by apply (Hu j n).
    + by apply (vw_uniq _ W j k n m).
Qed.

(** The node is gone after the change. *)
Lemma wf_drop st st' i n' :
  vfs_wf st → upd st st' i n' → i ≠ O → live n' = false → (∀ j m, table st !! j = Some m → live m = true → nd_parent m ≠ Z.of_nat i) → vfs_wf st'.
Proof.
  intros W [T L C F] Hi0 Hl Hch. assert (Hi : ∀ j n, table st' !! j = Some n → live n = true → j ≠ i ∧ table st !! j = Some n).
  { intros j n. rewrite T. case_decide; [intros [= <-]; congruence|auto]. }
  pose proof (vw_count _ W) as HC. split; [by rewrite L; apply W|lia|by rewrite F; apply W|by rewrite T, decide_False by done; apply W|..].
  - intros j n Hj Hlj Hj0. destruct (Hi j n Hj Hlj) as [Hne Hj']. destruct (vw_node _ W j n Hj' Hlj Hj0) as [? (p & pn & Hp & Hpn & ? & ?)].
    split; [done|]. exists p, pn. rewrite T, decide_False; [done|]. intros ->. by apply (Hch j n).
  - intros j n Hj Hlj. destruct (Hi j n Hj Hlj) as [_ Hj']. by apply (vw_kind _ W j).
  - intros j k n m Hj Hk Hln Hlm. destruct (Hi j n Hj Hln), (Hi k m Hk Hlm). by apply (vw_uniq _ W j k n m).
Qed.

(** Children after a change of the node [i]. *)
Lemma child_put st st' i n' p nm :
  vfs_wf st → vfs_wf st' → upd st st' i n' → live n' = true → Forall (λ c, c ≠ 0) nm →
  child st' p nm = if decide (nd_parent n' = Z.of_nat p ∧ nm = nd_name n') then Some i
                   else j ← child st p nm; if decide (j = i) then None else Some j.
Proof.
  intros W W' [T _ _ _] Hl Hnm. apply option_eq. intros k. rewrite (child_Some st' p nm k W' Hnm).
  destruct (decide (nd_parent n' = Z.of_nat p ∧ nm = nd_name n')) as [[Hp Hn]|Hno].
  - split.
    + intros (n & Hk & Hlk & Hpk & Hnk). f_equal. apply (vw_uniq _ W' i k n' n); try done; [by rewrite T, decide_True|congruence|congruence].
    + intros [= <-]. exists n'. by rewrite T, decide_True.
  - rewrite bind_Some. split.
    + intros (n & Hk & Hlk & Hpk & Hnk). rewrite T in Hk. case_decide; [injection Hk as <-; exfalso; apply Hno; by split|].
      exists k. split; [|by rewrite decide_False]. apply (child_Some st p nm k W Hnm). by exists n.
    + intros (j & (n & Hj & Hrest)%(child_Some st p nm j W Hnm) & Hjk). case_decide; [done|]. injection Hjk as <-. exists n. by rewrite T, decide_False.
Qed.

Lemma child_drop st st' i n' p nm :
  vfs_wf st → vfs_wf st' → upd st st' i n' → live n' = false → Forall (λ c, c ≠ 0) nm →
  child st' p nm = j ← child st p nm; if decide (j = i) then None else Some j.
Proof.
  intros W W' [T _ _ _] Hl Hnm. apply option_eq. intros k. rewrite (child_Some st' p nm k W' Hnm), bind_Some. split.
  - intros (n & Hk & Hlk & Hpk & Hnk). rewrite T in Hk. case_decide; [congruence|]. exists k. split; [|by rewrite decide_False]. apply (child_Some st p nm k W Hnm). by exists n.
  - intros (j & (n & Hj & Hrest)%(child_Some st p nm j W Hnm) & Hjk). case_decide; [done|]. injection Hjk as <-. exists n. by rewrite T, decide_False.
Qed.

(** ** The tree after a change *)

Lemma anode_walk st st' w i n' :
  vfs_wf st → upd st st' i n' → (∀ j, walk st w = Some j → j ≠ i ∨ ∃ n, table st !! i = Some n ∧ anode n' = anode n) →
  anode <$> (walk st w ≫= λ j, table st' !! j) = anode <$> (walk st w ≫= λ j, table st !! j).
Proof.
  intros W [T _ _ _] Hn. destruct (walk st w) as [j|]; [|done]. cbn. rewrite T. case_decide; [|done]. subst j.
  destruct (Hn i eq_refl) as [?|(n & -> & E)]; [done|]. cbn. by rewrite E.
Qed.

Lemma free_no_child st i nm : vfs_wf st → (∀ n, table st !! i = Some n → live n = false) → Forall (λ c, c ≠ 0) nm → child st i nm = None.
Proof.
  intros W Hf Hnm. destruct (child st i nm) as [j|] eqn:E; [|done]. apply (child_Some st i nm j W Hnm) in E as (n & Hn & Hl & Hp & _).
  destruct (decide (j = O)) as [->|H0]; [destruct (vw_root _ W) as (r & Hr & _ & _ & ?); rewrite Hn in Hr; injection Hr as <-; lia|].
  destruct (vw_node _ W j n Hn Hl H0) as [_ (p & pn & Hpp & Hpn & Hlp & _)]. assert (p = i) as -> by lia. rewrite (Hf pn Hpn) in Hlp. done.
Qed.

Section tree_change.
Context st st' (i : nat) (n' : vfs_node) (W : vfs_wf st) (W' : vfs_wf st') (U : upd st st' i n').

Lemma tree_of_good w w' o : good w → tput (tree_of st) w o w' = if decide (good w') then if decide (w' = w) then o else tree_of st w' else None.
Proof.
  intros Hg. unfold tput. case_decide as E; [subst w'; by rewrite decide_True|]. case_decide as Hg'; [done|]. unfold tree_of. by rewrite decide_False.
Qed.

(** A free slot becomes a node of the directory at [wq]. *)
Lemma tree_add q wq w :
  live n' = true → (∀ n, table st !! i = Some n → live n = false) → walk st wq = Some q → nd_parent n' = Z.of_nat q →
  child st q (nd_name n') = None → good wq → Forall (λ c, c ≠ 0) (nd_name n') →
  tree_of st' w = tput (tree_of st) (wq ++ [nd_name n']) (Some (anode n')) w.
Proof.
  intros Hl Hf Hq Hp Hb Hgq Hgn. rewrite tree_of_good by (by apply good_snoc). unfold tree_of. destruct (decide (good w)) as [Hg|]; [|done].
  assert (Hlive : ∀ j n, table st !! j = Some n → live n = true → j ≠ i) by (intros j n Hj Hlj ->; rewrite (Hf n Hj) in Hlj; done).
  assert (walk st' w = if decide (w = wq ++ [nd_name n']) then Some i else walk st w) as ->.
  { apply (walk_add st st' W i q wq); try done.
    - intros p nm Hnm. rewrite (child_put st st' i n') by done. destruct (decide (nd_parent n' = Z.of_nat p ∧ nm = nd_name n')) as [[? ?]|Hno].
      + rewrite decide_True; [done|]. split; [lia|done].
      + rewrite decide_False by (intros [-> ->]; apply Hno; by split). destruct (child st p nm) as [j|] eqn:E; [|done]. cbn.
        destruct (child_live _ _ _ _ E) as (n & Hn & Hln). by rewrite decide_False by eauto.
    - intros nm. destruct (child st i nm) as [j|] eqn:E; [|done]. exfalso. destruct (child_live _ _ _ _ E) as (n & Hn & Hln).
      pose proof (child_parent _ _ _ _ _ E Hn) as Hpn. destruct (decide (j = O)) as [->|H0]; [destruct (vw_root _ W) as (r & Hr & _ & _ & ?); rewrite Hn in Hr; injection Hr as <-; lia|].
      destruct (vw_node _ W j n Hn Hln H0) as [_ (p & pn & Hpp & Hpn' & Hlp & _)]. assert (p = i) as -> by lia. by apply (Hlive i pn).
    - destruct (walk_live _ _ _ W Hq) as (qn & Hqn & Hlq). intros ->. by apply (Hlive q qn). }
  case_decide; [cbn; by rewrite (up_table _ _ _ _ U), decide_True|]. apply (anode_walk st st' w i n' W U). intros j Hj. left.
  destruct (walk_live _ _ _ W Hj) as (n & Hn & Hln). by eapply Hlive.
Qed.

(** The node at [wi] keeps its place. *)
Lemma tree_same n wi w :
  live n' = true → table st !! i = Some n → walk st wi = Some i → good wi → i ≠ O → nd_parent n' = nd_parent n → nd_name n' = nd_name n →
  tree_of st' w = tput (tree_of st) wi (Some (anode n')) w.
Proof.
  intros Hl Hn Hi Hgi H0 Hp Hnm. rewrite tree_of_good by done. unfold tree_of. destruct (decide (good w)) as [Hg|]; [|done].
  destruct (walk_live _ _ _ W Hi) as (n1 & Hn1 & Hl1). rewrite Hn in Hn1. injection Hn1 as <-.
  rewrite (walk_ext st st' w); [|intros p nm Hz|done].
  - case_decide; [subst w; rewrite Hi; cbn; by rewrite (up_table _ _ _ _ U), decide_True|]. apply (anode_walk st st' w i n' W U). intros j Hj. left.
    intros ->. by pose proof (walk_inj st w wi i W Hg Hgi Hj Hi).
  - rewrite (child_put st st' i n') by done. rewrite Hp, Hnm. destruct (decide (nd_parent n = Z.of_nat p ∧ nm = nd_name n)) as [[? ->]|Hno].
    + symmetry. apply child_Some; [done|done|]. by exists n.
    + destruct (child st p nm) as [j|] eqn:E; [|done]. cbn. rewrite decide_False; [done|]. intros ->. apply (child_Some st p nm i W Hz) in E as (m & Hm & _ & ? & ?).
      apply Hno. rewrite Hn in Hm. injection Hm as <-. by split.
Qed.

(** The node at [wi], which has no children, is gone. *)
Lemma tree_del wi w :
  live n' = false → walk st wi = Some i → good wi → i ≠ O → (∀ j m, table st !! j = Some m → live m = true → nd_parent m ≠ Z.of_nat i) →
  tree_of st' w = tput (tree_of st) wi None w.
Proof.
  intros Hl Hi Hgi H0 Hch. rewrite tree_of_good by done. unfold tree_of. destruct (decide (good w)) as [Hg|]; [|done].
  assert (walk st' w = if decide (w = wi) then None else walk st w) as ->.
  { apply (walk_del st st' W i wi); try done; [intros p nm Hz; by apply (child_drop st st' i n')|]. intros nm. destruct (child st i nm) as [j|] eqn:E; [|done].
    exfalso. destruct (child_live _ _ _ _ E) as (n & Hn & Hln). apply (Hch j n Hn Hln). by eapply child_parent. }
  case_decide; [done|]. apply (anode_walk st st' w i n' W U). intros j Hj. left. intros ->. by pose proof (walk_inj st w wi i W Hg Hgi Hj Hi).
Qed.

(** The node at [wi] moves to the directory at [wq]. *)
Lemma tree_move n q wi wq w :
  live n' = true → table st !! i = Some n → anode n' = anode n → walk st wi = Some i → good wi → i ≠ O →
  walk st wq = Some q → nd_parent n' = Z.of_nat q → child st q (nd_name n') = None → good wq → Forall (λ c, c ≠ 0) (nd_name n') →
  tree_of st' w = tmove (tree_of st) wi wq (nd_name n') w.
Proof.
  intros Hl Hn Ha Hi Hgi H0 Hq Hp Hb Hgq Hgn. unfold tmove. assert (Hgb : good (wq ++ [nd_name n'])) by (by apply good_snoc).
  destruct (decide (good w)) as [Hg|Hbad].
  - unfold tree_of at 1. rewrite decide_True by done. assert (Hsame : ∀ u, anode <$> (walk st u ≫= λ j, table st' !! j) = anode <$> (walk st u ≫= λ j, table st !! j)).
    { intros u. apply (anode_walk st st' u i n' W U). intros j Hj. right. by exists n. }
    rewrite (walk_move st st' W i wi q wq (nd_name n') w); try done.
    + unfold tree_of. rewrite (decide_True (P := good w)) by done. destruct (decide (wi `prefix_of` wq)); [case_decide; [done|apply Hsame]|].
      case_decide as Hpre; [|case_decide; [done|apply Hsame]]. rewrite decide_True; [apply Hsame|]. apply good_app. split; [done|].
      destruct Hpre as [s ->]. rewrite drop_app_length' by (rewrite length_app; cbn; lia). by apply good_app in Hg as [_ ?].
    + intros p nm Hz. rewrite (child_put st st' i n') by done. f_equal. apply decide_ext. rewrite Hp. naive_solver lia.
  - assert (tree_of st w = None) as Hw by (unfold tree_of; by rewrite decide_False). unfold tree_of at 1. rewrite (decide_False (P := good w)), Hw by done.
    destruct (decide (wi `prefix_of` wq)); [by case_decide|]. case_decide as Hpre; [|by case_decide]. unfold tree_of. rewrite decide_False; [done|].
    intros [_ Hd]%good_app. apply Hbad. destruct Hpre as [s ->]. rewrite drop_app_length' in Hd by (rewrite length_app; cbn; lia). by apply good_app.
Qed.
End tree_change.

(** ** Places for new entries *)

(** [vfs_path_split] cuts off the last piece. *)
Lemma path_split_spec p : path_ok p →
  ∃ q, vfs_path_split (SLASH :: p) = (SLASH :: q, List.last (split p) []) ∧ path_ok q ∧ comps q = pieces (removelast (split p)) ∧
    (SLASH ∉ List.last (split p) []).
Proof.
  intros [Hz Hl]. unfold vfs_path_split. rewrite (c_str_id (SLASH :: p)) by (by constructor).
  assert (Hnc : ∀ l, Forall (λ c, c ≠ 0) l → (length l ≤ 255)%nat → name_copy l = l) by (intros l Hzl Hll; unfold name_copy; rewrite c_str_id by done; by apply take_ge).
  pose proof (last_slash_spec p) as Hs. cbn [last_slash]. destruct (last_slash p) as [j|].
  - destruct Hs as [E Hn]. cbn [drop]. assert (Hj : (j < length p)%nat).
    { apply (f_equal length) in E. rewrite length_app, length_take in E. cbn in E. lia. }
    rewrite Nat.min_l by lia. cbn [take]. assert (Hsp : split p = split (take j p) ++ [drop (S j) p]) by (rewrite E at 1; by rewrite split_app_slash, (split_plain (drop _ _))).
    rewrite Hsp, last_last, removelast_last. exists (take j p). rewrite Hnc by (by apply Forall_drop || (rewrite length_drop; lia)).
    split; [done|]. split; [split; [by apply Forall_take|rewrite length_take; lia]|done].
  - cbn [Z.eqb Pos.eqb drop]. rewrite (split_plain p) by done. cbn [List.last removelast]. exists []. rewrite drop_0, Hnc by (done || lia).
 split; [done|]. split; [split; [by constructor|cbn; lia]|done].
Qed.

Lemma awalk_snoc T w cs c : awalk T w (cs ++ [c]) = w' ← awalk T w cs; astep T w' c.
Proof. unfold awalk. by rewrite foldl_app. Qed.

Lemma split_last p : split p = removelast (split p) ++ [List.last (split p) []].
Proof. apply app_removelast_last. destruct (split_cons p) as (h & t & ->). done. Qed.

Lemma piece_length p c : c ∈ split p → (length c ≤ length p)%nat.
Proof.
  revert c. induction p as [|x p IH]; intros c Hc; cbn [split] in Hc; [by apply list_elem_of_singleton in Hc as ->|]. cbn [length].
  destruct (x =? SLASH); [apply elem_of_cons in Hc as [->|?%IH]; [cbn; lia|lia]|]. destruct (split_cons p) as (h & t & E). rewrite E in Hc.
  apply elem_of_cons in Hc as [->|Hc]; cbn [length].
  - specialize (IH h). rewrite E in IH. specialize (IH ltac:(left)). lia.
  - specialize (IH c). rewrite E in IH. specialize (IH ltac:(by right)). lia.
Qed.

Lemma place_spec st p : vfs_wf st → path_ok p →
  match aplace (tree_of st) p with
  | inl e => new_place (SLASH :: p) st = inl e
  | inr (d, base) => good d ∧ good_name base ∧ ∃ q n, walk st d = Some q ∧ child st q base = None ∧ table st !! q = Some n ∧ live n = true ∧
                       nd_type n = VFS_DIRECTORY ∧ new_place (SLASH :: p) st = inr (Z.of_nat q, base)
  end.
Proof.
  intros W Hp. unfold aplace, new_place. pose proof (resolve_spec st p W Hp) as Hr. destruct (path_split_spec p Hp) as (pq & -> & Hq & Hc & Hns).
  set (base := List.last (split p) []) in *. pose proof (split_good p ltac:(apply Hp)) as Hgs. rewrite (split_last p) in Hgs. apply good_snoc in Hgs as [Hgd Hgb]. fold base in Hgb.
  destruct (aresolve (tree_of st) p) as [w|] eqn:Er.
  { destruct Hr as (_ & i & -> & _). by rewrite (proj2 (Z.leb_le 0 _)) by lia. }
  rewrite Hr. change (0 <=? - ENOENT) with false. cbv iota. destruct (decide (base = [])) as [|Hb]; [done|].
  pose proof (resolve_spec st pq W Hq) as Hd. unfold aresolve in Hd. rewrite Hc in Hd. destruct (awalk (tree_of st) [] (pieces (removelast (split p)))) as [d|] eqn:Ed.
  2: { by rewrite Hd. }
  destruct Hd as (Hg & q & -> & Hw). rewrite (proj2 (Z.ltb_ge _ 0)) by lia. destruct (walk_live _ _ _ W Hw) as (n & Hn & Hl). rewrite (node_at_table _ _ _ Hn).
  assert (Ht : tree_of st d = Some (anode n)) by (apply (tree_of_Some _ _ _ W); split; [done|by exists q, n]). rewrite Ht.
  assert (Hstep : astep (tree_of st) d base = None).
  { unfold aresolve, comps in Er. rewrite (split_last p) in Er. unfold pieces in Er. rewrite filter_app, filter_cons_True, filter_nil in Er by done.
    rewrite awalk_snoc in Er. fold (pieces (removelast (split p))) in Er. by rewrite Ed in Er. }
  unfold astep in Hstep. destruct (decide (base = [DOT])); [done|]. destruct (decide (base = [DOT; DOT])); [done|].
  assert (Hlen : (length base ≤ 255)%nat).
  { pose proof (piece_length p base) as Hpl. rewrite (split_last p) in Hpl. specialize (Hpl ltac:(apply elem_of_app; right; by left)). destruct Hp. lia. }
  assert (Hch : child st q base = None).
  { destruct (tree_of st (d ++ [base])) eqn:Et; [done|]. apply (tree_of_None _ _ W) in Et; [|by apply good_snoc]. by rewrite walk_snoc, Hw in Et. }
  unfold anode. destruct (vw_kind _ W q n Hn Hl) as [_ [[Hty _]|[Hty _]]]; rewrite Hty; cbn [Z.eqb Pos.eqb negb].
  - rewrite decide_True by done. split; [done|]. split; [by split_and!|]. exists q, n. done.
  - rewrite decide_False by done. done.
Qed.

(** ** Slots *)

Lemma register_spec st pa nm ty sz d : vfs_wf st →
  let '(r, st') := vfs_register_node pa nm ty sz d st in
  (r = - ENOSPC ∧ st' = st) ∨
  ∃ i n0, r = Z.of_nat i ∧ i ≠ O ∧ (∀ n, table st !! i = Some n → live n = false) ∧ table st' !! i = Some (fresh_node pa nm ty sz d n0) ∧
    upd st st' i (fresh_node pa nm ty sz d n0) ∧ v_heap st' = v_heap st.
Proof.
  intros W. pose proof (vw_count _ W) as HC. pose proof (vw_len _ W) as HL. unfold vfs_register_node. destruct (find_idx _ _) as [i|] eqn:E.
  - right. apply find_idx_lookup in E as (n & Hn & Hl). rewrite lookup_drop in Hn. change (1 + i)%nat with (S i) in Hn. exists (S i), n.
    pose proof (set_node_upd st (S i) n (fresh_node pa nm ty sz d) ltac:(lia) Hn) as U. split_and!; [done|done| | |done|done].
    + intros m Hm. rewrite Hn in Hm. injection Hm as <-. by destruct (live n).
    + by rewrite (up_table _ _ _ _ U), decide_True.
  - case_decide as Hfull; [by left|right]. destruct (lookup_lt_is_Some_2 (vnodes st) (node_count st)) as [n0 Hn0]; [lia|].
    exists (node_count st), n0. assert (Ht : ∀ j, table ((set_node (Z.of_nat (node_count st)) (fresh_node pa nm ty sz d) st) <| node_count := S (node_count st) |>) !! j =
      if decide (j = node_count st) then Some (fresh_node pa nm ty sz d n0) else table st !! j).
    { intros j. unfold table, set_node. cbn. rewrite Nat2Z.id. destruct (decide (j = node_count st)) as [->|Hne].
      - rewrite lookup_take_lt by lia. by rewrite list_lookup_alter_eq, Hn0.
      - destruct (decide (j < node_count st)%nat); [rewrite !lookup_take_lt by lia; by rewrite list_lookup_alter_ne by congruence|]. by rewrite !lookup_take_ge by lia. }
    split_and!; [done|lia| | | |done].
    + intros n [_ ?]%table_Some. lia.
    + by rewrite Ht, decide_True.
    + split; [done|by cbn; rewrite length_alter|cbn; lia|done].
Qed.

(** ** Creation *)

Lemma wf_heap st h : vfs_wf st → vfs_wf (st <| v_heap := h |>).
Proof. intros [? ? ? ? ? ? ?]. by split. Qed.
Lemma tree_heap st h w : tree_of (st <| v_heap := h |>) w = tree_of st w.
Proof. done. Qed.

(** The operation does what the tree does. *)
Definition refines (o : fop) st : Prop :=
  ∃ r out st' T', fs_exec o st = Some (r, out, st') ∧ fstep (tree_of st) o r out T' ∧ (∀ w, tree_of st' w = T' w) ∧ vfs_wf st'.

(** A new node in a directory. *)
Lemma add_spec st st' i n' d base q qn w :
  vfs_wf st → upd st st' i n' → i ≠ O → (∀ n, table st !! i = Some n → live n = false) → nd_name n' = base → good_name base →
  nd_parent n' = Z.of_nat q → table st !! q = Some qn → live qn = true → nd_type qn = VFS_DIRECTORY → child st q base = None → walk st d = Some q → good d →
  nd_inode n' = -1 ∧ (nd_type n' = VFS_DIRECTORY ∧ nd_flags n' = 0 ∧ nd_data n' = DNull ∨ nd_type n' = VFS_FILE ∧ file_ok n') →
  vfs_wf st' ∧ tree_of st' w = tput (tree_of st) (d ++ [base]) (Some (anode n')) w.
Proof.
  intros W U H0 Hf Hn Hg Hp Hq Hlq Hdq Hch Hw Hgd Hk. pose proof Hg as (Hne & _ & Hz & _). subst base.
  assert (Hl : live n' = true) by (unfold live; by rewrite bool_decide_false).
  assert (W' : vfs_wf st').
  { apply (wf_put st st' i n'); try done.
    - left. exists q, qn. split_and!; try done. intros ->. rewrite (Hf qn Hq) in Hlq. done.
    - intros j m _ Hj Hlj Hpj Hnj. assert (child st q (nd_name n') = Some j); [|congruence]. apply child_Some; [done|done|]. exists m. split_and!; congruence.
    - intros j m _ Hj Hlj Hpj. exfalso. destruct (decide (j = O)) as [->|Hj0]; [destruct (vw_root _ W) as (r & Hr & _ & _ & ?); rewrite Hj in Hr; injection Hr as <-; lia|].
      destruct (vw_node _ W j m Hj Hlj Hj0) as [_ (p & pn & Hpp & Hpn & Hlp & _)]. assert (p = i) as -> by lia. rewrite (Hf pn Hpn) in Hlp. done. }
  split; [done|]. by apply (tree_add st st' i n' W W' U q).
Qed.

Lemma name_copy_good base : good_name base → name_copy base = base.
Proof. intros (_ & _ & Hz & Hl & _). unfold name_copy. rewrite c_str_id by done. by apply take_ge. Qed.

Lemma ram_mounted st : vfs_wf st → (negb (limnfs_mounted (v_fs st) =? 0)) = false.
Proof. intros W. unfold limnfs_mounted. by rewrite (vw_ram _ W). Qed.

Lemma ok_of_nat i : ok_of (Z.of_nat i) = 0.
Proof. unfold ok_of. by rewrite (proj2 (Z.leb_le 0 _)) by lia. Qed.

Lemma place_err st p e : vfs_wf st → path_ok p → aplace (tree_of st) p = inl e → new_place (SLASH :: p) st = inl e ∧ e < 0.
Proof.
  intros W Hp He. pose proof (place_spec st p W Hp) as Hs. rewrite He in Hs. split; [done|]. unfold aplace in He. repeat case_match; simplify_eq; done.
Qed.

Lemma ok_of_err e : e < 0 → ok_of e = e.
Proof. intros. unfold ok_of. by rewrite (proj2 (Z.leb_gt 0 e)). Qed.

Lemma create_step st p : vfs_wf st → path_ok p → refines (FCreate p) st.
Proof.
  intros W Hp. unfold refines. cbn [fs_exec]. unfold vfs_create. destruct (aplace (tree_of st) p) as [e|[d base]] eqn:Ea.
  { destruct (place_err st p e W Hp Ea) as [-> He]. eexists _, _, st, _. split; [done|]. rewrite ok_of_err by done. split; [by apply S_create_err|done]. }
  pose proof (place_spec st p W Hp) as Hs. rewrite Ea in Hs. destruct Hs as (Hgd & Hgn & q & qn & Hw & Hch & Hq & Hlq & Hdq & ->). rewrite ram_mounted by done.
  unfold buf_alloc. pose proof (bh_alloc_len 4096 (v_heap st)) as Hlen. destruct (bh_alloc 4096 (v_heap st)) as [[b|] h].
  2: { eexists _, _, _, (tree_of st). split; [done|]. split; [apply S_nospace; [done|by left]|]. split; [by intros w; rewrite tree_heap|by apply wf_heap]. }
  specialize (Hlen b eq_refl). set (st1 := st <| v_heap := h |>). assert (W1 : vfs_wf st1) by (by apply wf_heap).
  pose proof (register_spec st1 (Z.of_nat q) base VFS_FILE 0 (DHeap b) W1) as Hr. destruct (vfs_register_node _ _ _ _ _ st1) as [r st2].
  destruct Hr as [[-> ->]|(i & n0 & -> & H0 & Hf & Hi & U & _)].
  { cbn [Z.ltb Z.compare Z.opp]. cbn [data_free mbind option_bind]. eexists _, _, _, (tree_of st). split; [done|]. split; [apply S_nospace; [done|by right]|].
    split; [by intros w|by apply wf_heap]. }
  rewrite (proj2 (Z.ltb_ge (Z.of_nat i) 0)) by lia. cbn [mbind option_bind].
  pose proof (set_node_upd st2 i _ (λ n, n <| nd_capacity := 4096 |> <| nd_flags := VFS_FLAG_WRITABLE |> <| nd_mode := VFS_RW |>) ltac:(apply U) Hi) as U2.
  match type of U2 with upd _ _ _ ?m => set (n' := m) in U2 end. pose proof (upd_trans _ _ _ _ _ _ U U2) as U'. apply upd_heap_l in U'.
  eexists _, _, _, _. split; [done|]. rewrite ok_of_nat. split; [by apply S_create|]. set (st' := set_node _ _ st2) in *.
  assert (HA : ∀ w, vfs_wf st' ∧ tree_of st' w = tput (tree_of st) (d ++ [base]) (Some (anode n')) w).
  { intros w. apply (add_spec st st' i n' d base q qn); try done; [by apply name_copy_good|]. split; [done|]. right. split; [done|]. unfold file_ok. cbn. lia. }
  split; [intros w; by destruct (HA w) as [_ ->]|apply (HA [])].
Qed.

Lemma mkdir_step st p : vfs_wf st → path_ok p → refines (FMkdir p) st.
Proof.
  intros W Hp. unfold refines. cbn [fs_exec]. unfold vfs_mkdir. destruct (aplace (tree_of st) p) as [e|[d base]] eqn:Ea.
  { destruct (place_err st p e W Hp Ea) as [-> He]. eexists _, _, st, _. split; [done|]. rewrite ok_of_err by done. split; [by apply S_mkdir_err|done]. }
  pose proof (place_spec st p W Hp) as Hs. rewrite Ea in Hs. destruct Hs as (Hgd & Hgn & q & qn & Hw & Hch & Hq & Hlq & Hdq & ->). rewrite ram_mounted by done.
  pose proof (register_spec st (Z.of_nat q) base VFS_DIRECTORY 0 DNull W) as Hr. destruct (vfs_register_node _ _ _ _ _ st) as [r st2].
  destruct Hr as [[-> ->]|(i & n0 & -> & H0 & Hf & Hi & U & _)].
  { eexists _, _, _, (tree_of st). split; [done|]. split; [apply S_nospace; [done|by right]|]. done. }
  eexists _, _, _, _. split; [done|]. rewrite ok_of_nat. split; [by apply S_mkdir|].
  assert (HA : ∀ w, vfs_wf st2 ∧ tree_of st2 w = tput (tree_of st) (d ++ [base]) (Some (anode (fresh_node (Z.of_nat q) base VFS_DIRECTORY 0 DNull n0))) w).
  { intros w. apply (add_spec st st2 i _ d base q qn); try done; [by apply name_copy_good|]. split; [done|]. by left. }
  split; [intros w; by destruct (HA w) as [_ ->]|apply (HA [])].
Qed.

(** ** Deletion and renaming *)

Lemma has_children_spec st i : has_children (Z.of_nat i) st = true ↔ ∃ j m, table st !! j = Some m ∧ live m = true ∧ nd_parent m = Z.of_nat i.
Proof.
  unfold has_children, is_child. rewrite bool_decide_eq_true, Exists_exists. split.
  - intros (m & [j Hj]%list_elem_of_lookup & [? ?]%andb_prop). bool_hyps. by exists j, m.
  - intros (j & m & Hj & Hl & Hp). exists m. split; [by eapply list_elem_of_lookup_2|]. by rewrite Hl, Hp, Z.eqb_refl.
Qed.

(** What resolution finds: a live node at its place. *)
Lemma resolved st p w : vfs_wf st → path_ok p → aresolve (tree_of st) p = Some w →
  ∃ i n, good w ∧ vfs_resolve_path (SLASH :: p) st = Z.of_nat i ∧ walk st w = Some i ∧ table st !! i = Some n ∧ live n = true ∧
    node_at (Z.of_nat i) st = n ∧ tree_of st w = Some (anode n) ∧ (w = [] ↔ i = O).
Proof.
  intros W Hp Hr. pose proof (resolve_spec st p W Hp) as Hs. rewrite Hr in Hs. destruct Hs as (Hg & i & Hi & Hw). destruct (walk_live _ _ _ W Hw) as (n & Hn & Hl).
  exists i, n. split_and!; try done.
  - by apply node_at_table.
  - apply (tree_of_Some _ _ _ W). split; [done|]. by exists i, n.
  - split; intros ->; [by injection Hw|]. by apply (walk_inj st w [] O W Hg ltac:(constructor)).
Qed.

Lemma unresolved st p : vfs_wf st → path_ok p → aresolve (tree_of st) p = None → vfs_resolve_path (SLASH :: p) st = - ENOENT.
Proof. intros W Hp Hr. pose proof (resolve_spec st p W Hp) as Hs. by rewrite Hr in Hs. Qed.

Lemma children_in_dirs st i n j m : vfs_wf st → table st !! i = Some n → table st !! j = Some m → live m = true → nd_parent m = Z.of_nat i → nd_type n = VFS_DIRECTORY.
Proof.
  intros W Hn Hj Hl Hp. destruct (decide (j = O)) as [->|H0]; [destruct (vw_root _ W) as (r & Hr & _ & _ & ?); rewrite Hj in Hr; injection Hr as <-; lia|].
  destruct (vw_node _ W j m Hj Hl H0) as [_ (p & pn & Hpp & Hpn & _ & ?)]. assert (p = i) as -> by lia. rewrite Hn in Hpn. by injection Hpn as <-.
Qed.

Lemma delete_step st p : vfs_wf st → path_ok p → refines (FDelete p) st.
Proof.
  intros W Hp. unfold refines. cbn [fs_exec]. unfold vfs_delete. destruct (aresolve (tree_of st) p) as [w|] eqn:Er.
  2: { rewrite (unresolved st p W Hp Er). eexists _, _, st, _. split; [done|]. split; [by apply S_delete_none|done]. }
  destruct (resolved st p w W Hp Er) as (i & n & Hg & -> & Hw & Hn & Hl & -> & Ht & Hroot). rewrite (proj2 (Z.ltb_ge (Z.of_nat i) 0)) by lia.
  destruct (decide (i = O)) as [->|H0].
  { eexists _, _, st, _. split; [done|]. split; [apply S_delete_root; rewrite Er; f_equal; by apply Hroot|done]. }
  rewrite (proj2 (Z.eqb_neq (Z.of_nat i) 0)) by lia. assert (Hwn : w ≠ []) by (by rewrite Hroot).
  destruct (vw_kind _ W i n Hn Hl) as [Hino Hkind]. destruct (has_children (Z.of_nat i) st) eqn:Ehc.
  { apply has_children_spec in Ehc as (j & m & Hj & Hlj & Hpj). assert (Hd : nd_type n = VFS_DIRECTORY) by (by eapply children_in_dirs). rewrite Hd. cbn [Z.eqb Pos.eqb andb].
    destruct (decide (j = O)) as [->|Hj0]; [destruct (vw_root _ W) as (r & Hr & _ & _ & ?); rewrite Hj in Hr; injection Hr as <-; lia|].
    destruct (vw_node _ W j m Hj Hlj Hj0) as [(_ & _ & Hz & _) _].
    eexists _, _, st, _. split; [done|]. split; [|done]. apply (S_delete_full _ p w (nd_name m) (anode m)); [done|done|rewrite Ht; unfold anode; by rewrite Hd|].
    apply (tree_of_Some _ _ _ W). split; [by apply good_snoc|]. exists j, m. split_and!; try done. rewrite walk_snoc, Hw. cbn [mbind option_bind]. apply child_Some; [done|done|]. by exists m. }
  rewrite andb_false_r, Hino. cbn [Z.leb Z.compare].
  assert (Hch : ∀ j m, table st !! j = Some m → live m = true → nd_parent m ≠ Z.of_nat i).
  { intros j m Hj Hlj E. assert (has_children (Z.of_nat i) st = true); [|congruence]. apply has_children_spec. by exists j, m. }
  assert (∃ h, (if negb (Z.land (nd_flags n) VFS_FLAG_WRITABLE =? 0) || (nd_type n =? VFS_SYMLINK) then data_free (nd_data n) st else Some st) = Some (st <| v_heap := h |>)) as [h ->].
  { destruct Hkind as [(Hty & -> & ->)|[Hty Hf]]; [exists (v_heap st); rewrite Hty; by destruct st|]. rewrite Hty. unfold file_ok in Hf. destruct (nd_data n); try done.
    cbn [Z.eqb orb]. rewrite orb_false_r. case_match; [by eexists|exists (v_heap st); by destruct st]. }
  cbn [mbind option_bind]. set (st1 := st <| v_heap := h |>). assert (W1 : vfs_wf st1) by (by apply wf_heap).
  pose proof (set_node_upd st1 i n (λ n, n <| nd_name := [] |> <| nd_data := DNull |> <| nd_size := 0 |> <| nd_capacity := 0 |> <| nd_flags := 0 |> <| nd_parent := -1 |>
    <| nd_inode := -1 |>) ltac:(apply W1) Hn) as U. apply upd_heap_l in U. match type of U with upd _ _ _ ?m => set (n' := m) in U end. set (st' := set_node _ _ st1) in *.
  assert (W' : vfs_wf st') by (by apply (wf_drop st st' i n')).
  eexists _, _, st', _. split; [done|]. split; [apply (S_delete _ p w); [done|done|]|split; [|done]].
  - intros nm. destruct (tree_of st (w ++ [nm])) as [a|] eqn:E; [|done]. exfalso. apply (tree_of_Some _ _ _ W) in E as (Hg' & j & m & Hwj & Hm & Hlm & _).
    rewrite walk_snoc, Hw in Hwj. cbn [mbind option_bind] in Hwj. apply (Hch j m Hm Hlm). by eapply child_parent.
  - intros u. by apply (tree_del st st' i n' W W' U).
Qed.

Lemma rename_step st p q : vfs_wf st → path_ok p → path_ok q → refines (FRename p q) st.
Proof.
  intros W Hp Hq. unfold refines. cbn [fs_exec]. unfold vfs_rename. destruct (aresolve (tree_of st) p) as [w|] eqn:Er.
  2: { rewrite (unresolved st p W Hp Er). eexists _, _, st, _. split; [done|]. split; [apply S_rename_none; by left|done]. }
  destruct (resolved st p w W Hp Er) as (i & n & Hg & -> & Hw & Hn & Hl & -> & Ht & Hroot). rewrite (proj2 (Z.ltb_ge (Z.of_nat i) 0)) by lia. cbn [orb].
  destruct (decide (i = O)) as [->|H0].
  { eexists _, _, st, _. split; [done|]. split; [apply S_rename_none; right; rewrite Er; f_equal; by apply Hroot|done]. }
  rewrite (proj2 (Z.eqb_neq (Z.of_nat i) 0)) by lia. assert (Hwn : w ≠ []) by (by rewrite Hroot). destruct (aplace (tree_of st) q) as [e|[d base]] eqn:Ea.
  { destruct (place_err st q e W Hq Ea) as [-> He]. eexists _, _, st, _. split; [done|]. split; [by apply (S_rename_err _ p q w)|done]. }
  pose proof (place_spec st q W Hq) as Hs. rewrite Ea in Hs. destruct Hs as (Hgd & Hgn & k & kn & Hwk & Hch & Hk & Hlk & Hdk & ->).
  destruct (vw_kind _ W i n Hn Hl) as [Hino Hkind]. rewrite Hino. cbn [Z.leb Z.compare].
  pose proof (set_node_upd st i n (λ n, n <| nd_parent := Z.of_nat k |> <| nd_name := name_copy base |>) ltac:(apply W) Hn) as U.
  match type of U with upd _ _ _ ?m => set (n' := m) in U end. set (st' := set_node _ _ st) in *. pose proof Hgn as (Hne & _ & Hz & _).
  assert (Hnm : nd_name n' = base) by (by apply name_copy_good). assert (Hl' : live n' = true) by (unfold live; rewrite Hnm; by rewrite bool_decide_false).
  assert (W' : vfs_wf st').
  { apply (wf_put st st' i n'); try done; [by rewrite Hnm|destruct (decide (k = i)) as [->|Hki]| |].
    - right. split; [done|]. rewrite Hn in Hk. injection Hk as <-. done.
    - left. exists k, kn. split_and!; done.
    - intros j m _ Hj Hlj Hpj Hnj. assert (child st k base = Some j); [|congruence]. apply child_Some; [done|done|]. exists m. by rewrite <- Hnm.
    - intros j m _ Hj Hlj Hpj. apply (children_in_dirs st i n j m W Hn Hj Hlj Hpj). }
  eexists _, _, st', _. split; [done|]. split; [by apply (S_rename _ p q w d base)|]. split; [|done]. intros u. rewrite <- Hnm.
  apply (tree_move st st' i n' W W' U n k); try done; by rewrite Hnm.
Qed.

(** ** Contents *)

Lemma double_cap_ge fuel cap fin : 0 < cap → fin ≤ 2 ^ 30 → fin ≤ cap * 2 ^ Z.of_nat fuel → fin ≤ double_cap fuel cap fin.
Proof.
  revert cap. induction fuel as [|fuel IH]; intros cap Hc Hf Hb; cbn [double_cap]; [lia|]. destruct (cap <? fin) eqn:E; bool_hyps; [|lia].
  rewrite u64_id by lia. apply IH; [lia|done|]. rewrite Nat2Z.inj_succ, Z.pow_succ_r in Hb by lia. lia.
Qed.

Lemma new_capacity_ge cap fin : 0 < cap → fin ≤ VFS_MAX_FILE_SIZE → fin ≤ new_capacity cap fin.
Proof.
  intros Hc Hf. unfold new_capacity. rewrite (proj2 (Z.eqb_neq cap 0)) by lia. apply Z.min_glb; [|done]. apply double_cap_ge; [lia|lia|].
  assert (2 ^ 30 ≤ 2 ^ Z.of_nat 64) by (by vm_compute). nia.
Qed.

(** The buffer has room for [fin] bytes and holds the same contents, or there is no
    memory. *)
Lemma ensure_spec st i n fin :
  vfs_wf st → table st !! i = Some n → file_ok n → fin ≤ VFS_MAX_FILE_SIZE →
  ∃ e st1, ensure_capacity (Z.of_nat i) fin st = Some (e, st1) ∧
    ((e = Some (- ENOMEM) ∧ ∃ h, st1 = st <| v_heap := h |>) ∨
     (e = None ∧ ∃ b1 cap, upd st st1 i (n <| nd_data := DHeap b1 |> <| nd_capacity := cap |>) ∧
        table st1 !! i = Some (n <| nd_data := DHeap b1 |> <| nd_capacity := cap |>) ∧ Z.of_nat (length b1) = cap ∧ 0 < cap ∧ fin ≤ cap ∧ nd_size n ≤ cap ∧
        take (Z.to_nat (nd_size n)) b1 = take (Z.to_nat (nd_size n)) (data_bytes (nd_data n)))).
Proof.
  intros W Hn Hf Hfin. unfold ensure_capacity. rewrite (node_at_table _ _ _ Hn). unfold file_ok in Hf. destruct (nd_data n) as [|b|] eqn:Ed; try done. destruct Hf as (Hlb & Hsz & Hc).
  destruct (nd_capacity n <? fin) eqn:E; bool_hyps.
  - set (new_cap := new_capacity _ _). assert (fin ≤ new_cap) by (by apply new_capacity_ge). cbn [data_grow]. unfold buf_alloc.
    pose proof (bh_alloc_len new_cap (v_heap st)) as Hlen. destruct (bh_alloc new_cap (v_heap st)) as [[fresh|] h]; cbn [mbind option_bind data_free].
    2: { eexists _, _. split; [done|]. left. split; [done|]. by exists h. }
    specialize (Hlen fresh eq_refl). eexists None, _. split; [done|]. right. split; [done|].
    match goal with |- context [set_node _ _ ?s] => set (st1 := s) end. set (b1 := take (Z.to_nat new_cap) b ++ drop (length b) fresh). exists b1, new_cap.
    pose proof (set_node_upd st1 i n (λ n, n <| nd_data := DHeap b1 |> <| nd_capacity := new_cap |>) ltac:(apply W) Hn) as U.
    assert (Hb1 : take (Z.to_nat new_cap) b = b) by (apply take_ge; lia).
    split; [destruct U; by split|]. split; [by rewrite (up_table _ _ _ _ U), decide_True|]. split; [unfold b1; rewrite Hb1, length_app, length_drop; lia|].
    split; [lia|]. split; [done|]. split; [lia|]. unfold b1. rewrite Hb1. cbn. rewrite take_app_le by lia. done.
  - eexists None, st. split; [done|]. right. split; [done|]. exists b, (nd_capacity n).
    assert (n <| nd_data := DHeap b |> <| nd_capacity := nd_capacity n |> = n) as -> by (rewrite <- Ed; by destruct n).
    split; [split; [intros j; case_decide; [by subst j|done]|done|pose proof (vw_count _ W); lia|done]|]. split_and!; (done || lia).
Qed.

(** The buffer holds the written bytes. *)
Lemma written_spec (b1 buf : list Z) (size off : nat) :
  (size ≤ length b1)%nat → (off + length buf ≤ length b1)%nat →
  take (size `max` (off + length buf)) (splice off buf b1) = written (take size b1) (slice size (off - size) b1) off buf.
Proof.
  intros Hs Hf. unfold splice, written, slice. rewrite take_take_drop, take_take. rewrite (Nat.min_l off) by lia.
  rewrite take_app_ge by (rewrite length_take; lia). rewrite length_take, Nat.min_l by lia. f_equal. rewrite take_app_ge by lia. f_equal. rewrite skipn_firstn_comm.
  destruct (decide (size ≤ off + length buf)%nat); [rewrite Nat.max_r by lia|rewrite Nat.max_l by lia].
  - replace (off + length buf - off - length buf)%nat with O by lia. replace (size - (off + length buf))%nat with O by lia. by rewrite !take_0.
  - f_equal. lia.
Qed.

Lemma resized_spec (b1 : list Z) (size n : nat) :
  (size ≤ length b1)%nat → (n ≤ length b1)%nat → take n (splice size (replicate (n - size) 0) b1) = resized (take size b1) n.
Proof.
  intros Hs Hn. unfold splice, resized. rewrite length_replicate, length_take, Nat.min_l by lia. destruct (decide (n ≤ size)%nat).
  - replace (n - size)%nat with O by lia. cbn. rewrite !app_nil_r, Nat.add_0_r, take_drop. by rewrite take_take, Nat.min_l by lia.
  - rewrite (take_ge (take size b1) n) by (rewrite length_take; lia). rewrite take_app_ge by (rewrite length_take; lia). rewrite length_take, Nat.min_l by lia. f_equal.
    rewrite take_app_le by (rewrite length_replicate; lia). apply take_ge. rewrite length_replicate. lia.
Qed.

(** The contents of the file at [w] change. *)
Lemma data_step st i n w d size cap st1 n1 :
  vfs_wf st → table st !! i = Some n → live n = true → nd_type n = VFS_FILE → walk st w = Some i → good w → i ≠ O →
  upd st st1 i n1 → table st1 !! i = Some n1 → n1 = n <| nd_data := d |> <| nd_capacity := cap |> →
  ∀ d' f, f n1 = n1 <| nd_data := d' |> <| nd_size := size |> → file_ok (f n1) →
  let st' := set_node (Z.of_nat i) f st1 in
  vfs_wf st' ∧ ∀ u, tree_of st' u = tput (tree_of st) w (Some (AFile (take (Z.to_nat size) (data_bytes d')) (writable n))) u.
Proof.
  intros W Hn Hl Hty Hw Hg H0 U1 Hn1 E1 d' f Ef Hok st'. pose proof (set_node_upd st1 i n1 f ltac:(apply U1) Hn1) as U2.
  pose proof (upd_trans _ _ _ _ _ _ U1 U2) as U. fold st' in U. set (n' := f n1) in *.
  assert (Hpn : nd_parent n' = nd_parent n) by (by rewrite Ef, E1). assert (Hnn : nd_name n' = nd_name n) by (by rewrite Ef, E1).
  assert (Hl' : live n' = true) by (unfold live; by rewrite Hnn). destruct (vw_node _ W i n Hn Hl H0) as [Hgn (p & pn & Hp & Hpt & Hlp & Hdp)]. destruct (vw_kind _ W i n Hn Hl) as [Hino _].
  assert (Hty' : nd_type n' = VFS_FILE) by (by rewrite Ef, E1).
  assert (W' : vfs_wf st').
  { apply (wf_put st st' i n'); try done.
    - by rewrite Hnn.
    - left. exists p, pn. rewrite Hpn. split_and!; try done. intros ->. rewrite Hn in Hpt. injection Hpt as <-. congruence.
    - split; [by rewrite Ef, E1|by right].
    - intros j m Hj Hm Hlm Hpm Hnm. apply Hj. apply (vw_uniq _ W j i m n); congruence.
    - intros j m _ Hm Hlm Hpm. pose proof (children_in_dirs st i n j m W Hn Hm Hlm Hpm). congruence. }
  split; [done|]. intros u. rewrite (tree_same st st' i n' W W' U n w u) by done. f_equal. f_equal. unfold anode. rewrite Hty'. cbn [Z.eqb]. by rewrite Ef, E1.
Qed.

Lemma heap_step st o e h : vfs_wf st → allocates o = true → e = - ENOMEM →
  fstep (tree_of st) o e [] (tree_of st) ∧ (∀ w, tree_of (st <| v_heap := h |>) w = tree_of st w) ∧ vfs_wf (st <| v_heap := h |>).
Proof. intros W Ho ->. split; [apply S_nospace; [done|by left]|]. split; [done|by apply wf_heap]. Qed.

(** The checks at the start of the operations on a node. *)
Lemma node_checks st i n : table st !! i = Some n → (Z.of_nat i <? 0) || (Z.of_nat (node_count st) <=? Z.of_nat i) = false.
Proof. intros [_ Hlt]%table_Some. rewrite orb_false_iff, Z.ltb_ge, Z.leb_gt. lia. Qed.

Lemma dir_readonly n : nd_flags n = 0 → (Z.land (nd_flags n) VFS_FLAG_WRITABLE =? 0) = true.
Proof. by intros ->. Qed.

Lemma write_step st p off buf : vfs_wf st → path_ok p → 0 ≤ off → off + Z.of_nat (length buf) < 2 ^ 64 → refines (FWrite p off buf) st.
Proof.
  intros W Hp Ho Hov. unfold refines. cbn [fs_exec]. unfold vfs_open. destruct (aresolve (tree_of st) p) as [w|] eqn:Er.
  2: { rewrite (unresolved st p W Hp Er). eexists _, _, st, _. split; [done|]. split; [by apply S_write_none|done]. }
  destruct (resolved st p w W Hp Er) as (i & n & Hg & -> & Hw & Hn & Hl & Hat & Ht & Hroot). cbv zeta. rewrite (proj2 (Z.ltb_ge (Z.of_nat i) 0)) by lia.
  unfold vfs_write. rewrite (node_checks st i n Hn), Hat, Hl. cbn [negb]. destruct (vw_kind _ W i n Hn Hl) as [Hino [(Hty & Hfl & _)|[Hty Hf]]].
  { rewrite (dir_readonly n Hfl). eexists _, _, st, _. split; [done|]. split; [|done]. apply (S_write_ro _ p w off buf ADir); [done|rewrite Ht; unfold anode; by rewrite Hty|done]. }
  assert (Ha : anode n = AFile (take (Z.to_nat (nd_size n)) (data_bytes (nd_data n))) (writable n)) by (unfold anode; by rewrite Hty). rewrite Ha in Ht.
  destruct (Z.land (nd_flags n) VFS_FLAG_WRITABLE =? 0) eqn:Ew.
  { eexists _, _, st, _. split; [done|]. split; [|done]. eapply S_write_ro; [done|done|]. unfold writable. rewrite Ew. by intros b [=]. }
  assert (writable n = true) as Hwr by (unfold writable; by rewrite Ew). rewrite Hwr in Ht. rewrite u64_id by lia. destruct (VFS_MAX_FILE_SIZE <? off + _) eqn:Eb; bool_hyps.
  { eexists _, _, st, _. split; [done|]. split; [by eapply S_write_big|done]. }
  rewrite Hino. cbn [Z.leb Z.compare]. assert (H0 : i ≠ O).
  { intros ->. destruct (vw_root _ W) as (r & Hr & _ & Hrd & _). rewrite Hn in Hr. injection Hr as <-. congruence. }
  destruct (ensure_spec st i n (off + Z.of_nat (length buf)) W Hn Hf ltac:(lia)) as (e & st1 & -> & [[-> [h ->]]|[-> (b1 & cap & U & Hn1 & Hlb & Hc & Hfin & Hsz & Hsame)]]); cbn [mbind option_bind].
  { eexists _, _, _, (tree_of st). split; [done|]. by apply heap_step. }
  rewrite (node_at_table _ _ _ Hn1). set (n1 := n <| nd_data := _ |> <| nd_capacity := cap |>) in *. change (nd_data n1) with (DHeap b1).
  assert (Hd : data_write (DHeap b1) off buf = Some (DHeap (splice (Z.to_nat off) buf b1))).
  { unfold data_write. case_decide as E; [subst buf; unfold splice; cbn [length app]; by rewrite Nat.add_0_r, take_drop|]. by rewrite decide_True by lia. }
  rewrite Hd. cbn [mbind option_bind]. set (size' := if nd_size n <? off + Z.of_nat (length buf) then off + Z.of_nat (length buf) else nd_size n).
  assert (Hs0 : 0 ≤ nd_size n) by (unfold file_ok in Hf; destruct (nd_data n); lia || done).
  assert (Hs' : Z.to_nat size' = (Z.to_nat (nd_size n) `max` (Z.to_nat off + length buf))%nat) by (unfold size'; destruct (_ <? _) eqn:E; bool_hyps; lia).
  destruct (data_step st i n w (DHeap b1) size' cap st1 n1) with (d' := DHeap (splice (Z.to_nat off) buf b1))
    (f := λ m, m <| nd_data := DHeap (splice (Z.to_nat off) buf b1) |> <| nd_size := if nd_size m <? off + Z.of_nat (length buf) then off + Z.of_nat (length buf) else nd_size m |>) as [W' HT]; try done.
  { unfold file_ok. cbn. fold size'. unfold splice. rewrite !length_app, length_take, length_drop. unfold size'. destruct (_ <? _) eqn:E; bool_hyps; lia. }
  eexists _, _, _, _. split; [done|]. split; [eapply (S_write _ p w off buf _ (slice (Z.to_nat (nd_size n)) (Z.to_nat off - Z.to_nat (nd_size n)) b1)); [done|done|lia|]|split; [|done]].
  - unfold slice. rewrite length_take, length_drop, <- Hsame, length_take. lia.
  - intros u. rewrite HT, Hwr. cbn [data_bytes]. rewrite Hs', written_spec, Hsame by lia. done.
Qed.

Lemma truncate_step st p m : vfs_wf st → path_ok p → 0 ≤ m → refines (FTruncate p m) st.
Proof.
  intros W Hp Hm. unfold refines. cbn [fs_exec]. unfold vfs_open. destruct (aresolve (tree_of st) p) as [w|] eqn:Er.
  2: { rewrite (unresolved st p W Hp Er). eexists _, _, st, _. split; [done|]. split; [by apply S_truncate_none|done]. }
  destruct (resolved st p w W Hp Er) as (i & n & Hg & -> & Hw & Hn & Hl & Hat & Ht & Hroot). cbv zeta. rewrite (proj2 (Z.ltb_ge (Z.of_nat i) 0)) by lia.
  unfold vfs_truncate_node. rewrite (node_checks st i n Hn), Hat, Hl. cbn [negb]. destruct (vw_kind _ W i n Hn Hl) as [Hino [(Hty & Hfl & _)|[Hty Hf]]]; rewrite Hty; cbn [Z.eqb Pos.eqb negb].
  { eexists _, _, st, _. split; [done|]. split; [|done]. apply (S_truncate_dir _ p w); [done|]. rewrite Ht. unfold anode. by rewrite Hty. }
  assert (Ha : anode n = AFile (take (Z.to_nat (nd_size n)) (data_bytes (nd_data n))) (writable n)) by (unfold anode; by rewrite Hty). rewrite Ha in Ht.
  destruct (Z.land (nd_flags n) VFS_FLAG_WRITABLE =? 0) eqn:Ew.
  { eexists _, _, st, _. split; [done|]. split; [|done]. eapply S_truncate_ro; [done|]. rewrite Ht. unfold writable. by rewrite Ew. }
  assert (writable n = true) as Hwr by (unfold writable; by rewrite Ew). rewrite Hwr in Ht. destruct (VFS_MAX_FILE_SIZE <? m) eqn:Eb; bool_hyps.
  { eexists _, _, st, _. split; [done|]. split; [by eapply S_truncate_big|done]. }
  rewrite Hino. cbn [Z.leb Z.compare]. assert (H0 : i ≠ O).
  { intros ->. destruct (vw_root _ W) as (r & Hr & _ & Hrd & _). rewrite Hn in Hr. injection Hr as <-. congruence. }
  destruct (ensure_spec st i n m W Hn Hf ltac:(lia)) as (e & st1 & -> & [[-> [h ->]]|[-> (b1 & cap & U & Hn1 & Hlb & Hc & Hfin & Hsz & Hsame)]]); cbn [mbind option_bind].
  { eexists _, _, _, (tree_of st). split; [done|]. by apply heap_step. }
  rewrite (node_at_table _ _ _ Hn1). set (n1 := n <| nd_data := _ |> <| nd_capacity := cap |>) in *. change (nd_data n1) with (DHeap b1). change (nd_size n1) with (nd_size n).
  assert (Hs0 : 0 ≤ nd_size n) by (unfold file_ok in Hf; destruct (nd_data n); lia || done).
  set (z := replicate (Z.to_nat (m - nd_size n)) 0).
  assert (Hd : data_write (DHeap b1) (nd_size n) z = Some (DHeap (splice (Z.to_nat (nd_size n)) z b1))).
  { unfold data_write. case_decide as E; [rewrite E; unfold splice; cbn [length app]; by rewrite Nat.add_0_r, take_drop|].
    assert (nd_size n < m) by (destruct (decide (nd_size n < m)); [done|]; exfalso; apply E; unfold z; by replace (Z.to_nat (m - nd_size n)) with O by lia).
    rewrite decide_True; [done|]. unfold z. rewrite length_replicate. lia. }
  rewrite Hd. cbn [mbind option_bind].
  destruct (data_step st i n w (DHeap b1) m cap st1 n1) with (d' := DHeap (splice (Z.to_nat (nd_size n)) z b1))
    (f := λ k, k <| nd_data := DHeap (splice (Z.to_nat (nd_size n)) z b1) |> <| nd_size := m |>) as [W' HT]; try done.
  { unfold file_ok. cbn. unfold splice, z. rewrite !length_app, length_take, length_drop, length_replicate. lia. }
  eexists _, _, _, _. split; [done|]. split; [eapply (S_truncate _ p w m); [done|done|lia]|split; [|done]].
  intros u. rewrite HT, Hwr. cbn [data_bytes]. unfold z. replace (Z.to_nat (m - nd_size n)) with (Z.to_nat m - Z.to_nat (nd_size n))%nat by lia.
  rewrite resized_spec, Hsame by lia. done.
Qed.

Lemma read_step st p off len : vfs_wf st → path_ok p → 0 ≤ off → 0 ≤ len → refines (FRead p off len) st.
Proof.
  intros W Hp Ho Hlen. unfold refines. cbn [fs_exec]. unfold vfs_open. destruct (aresolve (tree_of st) p) as [w|] eqn:Er.
  2: { rewrite (unresolved st p W Hp Er). eexists _, _, st, _. split; [done|]. split; [by apply S_read_none|done]. }
  destruct (resolved st p w W Hp Er) as (i & n & Hg & -> & Hw & Hn & Hl & Hat & Ht & Hroot). cbv zeta. rewrite (proj2 (Z.ltb_ge (Z.of_nat i) 0)) by lia.
  unfold vfs_read. rewrite (node_checks st i n Hn), Hat, Hl. cbn [negb]. destruct (vw_kind _ W i n Hn Hl) as [Hino [(Hty & Hfl & _)|[Hty Hf]]]; rewrite Hty; cbn [Z.eqb Pos.eqb negb].
  { eexists _, _, st, _. split; [done|]. split; [|done]. apply (S_read_dir _ p w); [done|]. rewrite Ht. unfold anode. by rewrite Hty. }
  assert (Ha : anode n = AFile (take (Z.to_nat (nd_size n)) (data_bytes (nd_data n))) (writable n)) by (unfold anode; by rewrite Hty). rewrite Ha in Ht.
  pose proof (S_read _ p w off len _ _ Er Ht) as HS. cbv zeta in HS. unfold file_ok in Hf. destruct (nd_data n) as [|b|] eqn:Ed; try done. destruct Hf as (Hlb & Hsz & _). cbn [data_bytes] in *.
  unfold slice in HS. rewrite skipn_firstn_comm, take_take in HS. destruct (nd_size n <=? off) eqn:E; bool_hyps.
  { replace (Z.to_nat (nd_size n) - Z.to_nat off)%nat with O in HS by lia. rewrite Nat.min_0_r in HS. by eexists _, _, st, _. }
  rewrite Hino. cbn [Z.leb Z.compare data_read]. rewrite decide_True by lia. cbn [mbind option_bind]. eexists _, _, st, _. split; [done|]. split; [|done].
  rewrite length_take, length_drop in HS. unfold slice. replace (Z.to_nat (Z.min len (nd_size n - off))) with (Z.to_nat len `min` (Z.to_nat (nd_size n) - Z.to_nat off))%nat by lia.
  replace (Z.min len (nd_size n - off)) with (Z.of_nat ((Z.to_nat len `min` (Z.to_nat (nd_size n) - Z.to_nat off)) `min` (length b - Z.to_nat off))) by lia. done.
Qed.

(** ** The refinement *)

(** Arguments as the calls get them: paths of characters within [MAX_PATH], offsets
    and sizes that fit. *)
Definition fop_ok (o : fop) : Prop :=
  match o with
  | FCreate p | FMkdir p | FDelete p => path_ok p
  | FRename p q => path_ok p ∧ path_ok q
  | FWrite p off buf => path_ok p ∧ 0 ≤ off ∧ off + Z.of_nat (length buf) < 2 ^ 64
  | FTruncate p m => path_ok p ∧ 0 ≤ m
  | FRead p off len => path_ok p ∧ 0 ≤ off ∧ 0 ≤ len
  end.

Lemma fs_step st o : vfs_wf st → fop_ok o → refines o st.
Proof.
  intros W Ho. destruct o; cbn in Ho.
  - by apply create_step.
  - by apply mkdir_step.
  - by apply delete_step.
  - destruct Ho. by apply rename_step.
  - destruct Ho as (? & ? & ?). by apply write_step.
  - destruct Ho. by apply truncate_step.
  - destruct Ho as (? & ? & ?). by apply read_step.
Qed.

(** The empty tree. *)
Lemma vfs_init_wf st : length (vnodes st) = MAX_VFS_NODES → lfs_mounted (v_fs st) = false →
  vfs_wf (vfs_init st) ∧ ∀ w, tree_of (vfs_init st) w = if decide (w = []) then Some ADir else None.
Proof.
  intros Hl Hm. destruct (vnodes st) as [|n0 ns] eqn:E; [done|].
  assert (∃ r, table (vfs_init st) = [r] ∧ live r = true ∧ nd_type r = VFS_DIRECTORY ∧ nd_parent r = -1 ∧ nd_inode r = -1 ∧ nd_flags r = 0 ∧ nd_data r = DNull) as (r & Ht & Hlv & Hty & Hp & Hi & Hf & Hd).
  { unfold table, vfs_init, set_node. cbn. rewrite E. by eexists. }
  assert (Hlk : ∀ i n, table (vfs_init st) !! i = Some n → i = O ∧ n = r) by (intros i n; rewrite Ht; destruct i; cbn; [by intros [= <-]|done]).
  assert (W : vfs_wf (vfs_init st)).
  { split.
    - unfold vfs_init, set_node. cbn. by rewrite length_alter, length_fmap, E.
    - cbn. lia.
    - done.
    - exists r. by rewrite Ht.
    - intros i n [-> ->]%Hlk. done.
    - intros i n [-> ->]%Hlk _. split; [done|]. by left.
    - intros i j n m [-> ->]%Hlk [-> ->]%Hlk. done. }
  split; [done|]. intros w. destruct w as [|nm w _] using rev_ind.
  - unfold tree_of. rewrite decide_True by constructor. change (walk (vfs_init st) []) with (Some O). cbn [mbind option_bind]. rewrite Ht. cbn [lookup list_lookup fmap option_fmap option_map]. rewrite decide_True by done. unfold anode. by rewrite Hty.
  - rewrite (decide_False (P := _ ++ _ = _)) by (by destruct w). destruct (tree_of (vfs_init st) (w ++ [nm])) as [a|] eqn:Ea; [|done]. exfalso.
    apply (tree_of_Some _ _ _ W) in Ea as (_ & i & n & Hw & Hn & _). rewrite walk_snoc in Hw. destruct (walk (vfs_init st) w) as [p|]; [|done]. cbn [mbind option_bind] in Hw.
    pose proof (child_parent _ _ _ _ _ Hw Hn) as Hpp. apply Hlk in Hn as [-> ->]. lia.
Qed.

(** C26.  The node table is a file system: creating files and directories, deleting,
    renaming, writing, truncating and reading by path, do what the same operations do
    on a map from paths to directories and files, errors included; each call returns,
    only memory and slots can run out, and the table stays well-formed.  The table
    holds directories and files in memory: no symbolic link, no file of the boot
    archive, no FIFO and no mount point, and LimnFS is not mounted; paths are absolute
    and have fewer than 255 bytes. *)
Theorem vfs_refines_tree st o :
  vfs_wf st → fop_ok o →
  ∃ r out st' T', fs_exec o st = Some (r, out, st') ∧ fstep (tree_of st) o r out T' ∧ (∀ w, tree_of st' w = T' w) ∧ vfs_wf st'.
Proof. apply fs_step. Qed.

(** C27.  In a table of directories and files in memory, without symbolic links (which
    the resolution would follow) and without LimnFS mounted (whose directories it would
    load), an absolute path of fewer than 255 bytes is resolved like the list of its
    components: empty ones and [.] are skipped, [..] leads back to the parent and stays
    at the root, a name leads to the entry of that name, and the result is the node at
    the place reached, or the error for a missing one. *)
Theorem vfs_resolve_is_walk st p :
  vfs_wf st → path_ok p →
  match aresolve (tree_of st) p with
  | Some w => ∃ i n, vfs_resolve_path (SLASH :: p) st = Z.of_nat i ∧ walk st w = Some i ∧ table st !! i = Some n ∧ live n = true
  | None => vfs_resolve_path (SLASH :: p) st = - ENOENT
  end.
Proof.
  intros W Hp. destruct (aresolve (tree_of st) p) as [w|] eqn:E; [|by apply unresolved]. destruct (resolved st p w W Hp E) as (i & n & _ & ? & ? & ? & ? & _). by exists i, n.
Qed.

(** A directory that is renamed to a place below itself is lost: the call succeeds,
    and nothing that was at or below it can be reached. *)
Theorem rename_into_itself_loses st p q w d base u :
  vfs_wf st → path_ok p → path_ok q → aresolve (tree_of st) p = Some w → w ≠ [] → aplace (tree_of st) q = inr (d, base) → w `prefix_of` d → w `prefix_of` u →
  ∃ st', fs_exec (FRename p q) st = Some (0, [], st') ∧ tree_of st' u = None.
Proof.
  intros W Hp Hq Hr Hw Ha Hpre Hu. destruct (rename_step st p q W Hp Hq) as (r & out & st' & T' & He & Hs & HT & _). exists st'.
  inversion Hs as [| | | | | | | |? ? Hno|? ? w' e ? ? Hpl|? ? w' d' base' Hres ? Hpl| | | | | | | | | | | | |? ? Hal]; subst; [destruct Hno; congruence|congruence| |done].
  rewrite Hr in Hres. injection Hres as <-. rewrite Ha in Hpl. injection Hpl as <- <-. split; [done|]. rewrite HT. unfold tmove. by rewrite !decide_True by done.
Qed.
End vfs_spec.

(** ** Witnesses *)

(** A heap that never runs out; new memory holds the byte 170. *)
#[export] Program Instance unit_heap : ByteHeap unit := {|
  bh_alloc n h := (if decide (0 ≤ n) then Some (replicate (Z.to_nat n) 170) else None, h);
  bh_free _ h := h
|}.
Next Obligation. intros n h b. cbn. case_decide; [|done]. intros [= <-]. rewrite length_replicate. lia. Qed.

(** No disk, an empty table. *)
Definition vfs_blank : vfs_st unit (gmap Z (list Z)) :=
  mk_vfs (replicate 1024 inhabitant) 0 tt (mk_lfs false zero_super [] 0 [] 0 ∅) (-1).
Definition vfs_boot : vfs_st unit (gmap Z (list Z)) := vfs_init vfs_blank.

Lemma vfs_boot_wf : vfs_wf vfs_boot.
Proof. apply vfs_init_wf; [by vm_compute|done]. Qed.

(** ["a/./b"]. *)
Definition path_ab : list Z := [97; 47; 46; 47; 98].

Lemma vfs_refines_tree_witness :
  vfs_wf vfs_boot ∧ fop_ok (FCreate [97]) ∧
  ∃ r out st' T', fs_exec (FCreate [97]) vfs_boot = Some (r, out, st') ∧ fstep (tree_of vfs_boot) (FCreate [97]) r out T' ∧ (∀ w, tree_of st' w = T' w) ∧ vfs_wf st'.
Proof.
  assert (fop_ok (FCreate [97])) as Ho by (split; [by repeat constructor|cbn; lia]). split; [exact vfs_boot_wf|]. split; [exact Ho|].
  apply (vfs_refines_tree vfs_boot (FCreate [97]) vfs_boot_wf Ho).
Defined.

Lemma vfs_resolve_is_walk_witness :
  path_ok path_ab ∧
  match aresolve (tree_of vfs_boot) path_ab with
  | Some w => ∃ i n, vfs_resolve_path (SLASH :: path_ab) vfs_boot = Z.of_nat i ∧ walk vfs_boot w = Some i ∧ table vfs_boot !! i = Some n ∧ live n = true
  | None => vfs_resolve_path (SLASH :: path_ab) vfs_boot = - ENOENT
  end.
Proof.
  assert (path_ok path_ab) as Hp by (split; [by repeat constructor|cbn; lia]). split; [exact Hp|]. apply (vfs_resolve_is_walk vfs_boot path_ab vfs_boot_wf Hp).
Defined.
