(* ===== verification/VfsProc.v ===== *)
(** * VfsProc: the entries of processes in [/proc], and the boot archive

    Models the [/proc] part of [src/kernel/src/fs/vfs.c] and [src/kernel/src/fs/tar.c].
    What the entries show of a process is a record [proc_info]; the process table is
    the function [lookup] from process numbers to records. *)

From Stdlib Require Import Ascii String.
From S2P Require Import Prelude KUtil Mem Bytes Bitmap BlockStore LimnFS Vfs.

(** A string literal as characters. *)
Definition chars (s : string) : list Z := (λ c, Z.of_nat (nat_of_ascii c)) <$> list_ascii_of_string s.

(** ** Numbers *)

(** The digits of [val], lowest first, at most [fuel]. *)
Fixpoint digits (fuel : nat) (val : Z) : list Z :=
  match fuel with
  | O => []
  | S fuel' => if 0 <? val then (48 + val mod 10) :: digits fuel' (val / 10) else []
  end.

Definition itoa_simple (val : Z) (bufsize : nat) : list Z :=
  let tmp := if val =? 0 then [48] else digits 23 val in
  let pos := if decide (bufsize ≤ length tmp)%nat then (bufsize - 1)%nat else length tmp in
  rev (take pos tmp).

Definition hex_digit (d : Z) : Z := if d <? 10 then 48 + d else 97 + d - 10.
Definition append_hex (v : Z) : list Z :=
  chars "0x" ++ ((λ i, hex_digit (Z.land (Z.shiftr (u32 v) (Z.of_nat i * 4)) 0xF)) <$> rev (seq 0 8)).

(** ** Processes *)

Record proc_info := mk_info {
  pi_pid : Z;
  pi_ppid : Z;
  pi_name : list Z;
  pi_state : Z;
  pi_uid : Z;
  pi_gid : Z;
  pi_caps : Z;
  pi_mem_pages : Z;
  pi_pending : Z;
  pi_mask : Z;
  pi_ns : Z;
  pi_cwd : list Z;
  pi_argv : list Z;
  pi_argv_len : Z
}.

Definition state_str (state : Z) : list Z :=
  if state =? 0 then chars "ready" else if state =? 1 then chars "running" else if state =? 2 then chars "dead"
  else if state =? 3 then chars "stopped" else if state =? 4 then chars "blocked" else chars "unknown".

(** A line [label TAB value NL]. *)
Definition status_line (label : string) (value : list Z) : list Z := chars label ++ [9] ++ value ++ [10].

(** The text of the status file, as far as it fits. *)
Definition procfs_format_status (p : proc_info) (bufsize : nat) : list Z :=
  let name := c_str (pi_name p) in
  let num v := itoa_simple v 24 in
  take (bufsize - 1)
    (status_line "Name:" (if decide (name = []) then chars "(none)" else name) ++
     status_line "State:" (state_str (pi_state p)) ++
     status_line "Pid:" (num (pi_pid p)) ++
     status_line "PPid:" (num (pi_ppid p)) ++
     status_line "Uid:" (num (pi_uid p)) ++
     status_line "Gid:" (num (pi_gid p)) ++
     status_line "Caps:" (append_hex (pi_caps p)) ++
     status_line "VmPages:" (num (pi_mem_pages p)) ++
     status_line "SigPend:" (append_hex (pi_pending p)) ++
     status_line "SigMask:" (append_hex (pi_mask p)) ++
     status_line "Ns:" (num (pi_ns p)) ++
     status_line "Cwd:" (c_str (pi_cwd p))).

Section procfs.
Context {H St : Type} `{!ByteHeap H} `{!BlockStore St}.
Implicit Types st : vfs_st H St.
Context (lookup : Z → option proc_info).

Definition vfs_procfs_init st : vfs_st H St :=
  let '(idx, st) := vfs_mkdir (chars "/proc") st in st <| procfs_dir_idx := idx |>.

(** A file of [/proc] with a buffer of [size] bytes. *)
Definition register_file (dir_idx : Z) (name : list Z) (size : Z) st : option (vfs_st H St) :=
  let '(buf, st) := buf_alloc size st in
  match buf with
  | None => Some st
  | Some b =>
      d ← data_write (DHeap b) 0 [0];
      let '(idx, st) := vfs_register_node dir_idx name VFS_FILE 0 d st in
      if 0 <=? idx then Some (set_node idx (λ n, n <| nd_capacity := size |>) st) else data_free d st
  end.

Definition vfs_procfs_register_pid (pid : Z) st : option (vfs_st H St) :=
  if procfs_dir_idx st <? 0 then Some st
  else
    let path := chars "/proc/" ++ itoa_simple pid 24 in
    let '(dir_idx, st) := vfs_mkdir path st in
    if dir_idx <? 0 then Some st
    else
      st ← register_file dir_idx (chars "status") 1024 st;
      st ← register_file dir_idx (chars "cmdline") 512 st;
      match lookup pid with
      | None => Some st
      | Some p =>
          let cwd := c_str (pi_cwd p) in
          if decide (cwd = []) then Some st
          else
            '(_, st) ← vfs_symlink (path ++ chars "/status") cwd st;
            '(_, st) ← vfs_symlink (path ++ chars "/cwd") cwd st;
            Some st
      end.

Fixpoint delete_children (idxs : list nat) (dir_idx : Z) st : option (vfs_st H St) :=
  match idxs with
  | [] => Some st
  | i :: idxs' =>
      let n := node_at (Z.of_nat i) st in
      if negb (is_child dir_idx n) then delete_children idxs' dir_idx st
      else
        st ← (if ((nd_type n =? VFS_FILE) && (0 <? nd_capacity n)) || (nd_type n =? VFS_SYMLINK) then data_free (nd_data n) st else Some st);
        delete_children idxs' dir_idx (set_node (Z.of_nat i) clear_slot st)
  end.

Definition procfs_delete_subtree (dir_idx : Z) st : option (vfs_st H St) :=
  st ← delete_children (seq 0 (node_count st)) dir_idx st;
  Some (set_node dir_idx (λ n, n <| nd_name := [] |> <| nd_data := DNull |> <| nd_size := 0 |> <| nd_parent := -1 |>) st).

Definition vfs_procfs_unregister_pid (pid : Z) st : option (vfs_st H St) :=
  if procfs_dir_idx st <? 0 then Some st
  else
    let dir_idx := vfs_find_child (procfs_dir_idx st) (itoa_simple pid 24) st in
    if dir_idx <? 0 then Some st else procfs_delete_subtree dir_idx st.

(** Write [text] and a NUL to the buffer of the file, and set its size. *)
Definition refresh_file (idx : Z) (text : list Z) st : option (vfs_st H St) :=
  match nd_data (node_at idx st) with
  | DNull => Some st
  | d => d ← data_write d 0 (text ++ [0]); Some (set_node idx (λ n, n <| nd_data := d |> <| nd_size := Z.of_nat (length text) |>) st)
  end.

Definition vfs_procfs_refresh (pid : Z) st : option (vfs_st H St) :=
  if procfs_dir_idx st <? 0 then Some st
  else
    match lookup pid with
    | None => Some st
    | Some p =>
        let dir_idx := vfs_find_child (procfs_dir_idx st) (itoa_simple pid 24) st in
        if dir_idx <? 0 then Some st
        else
          let status_idx := vfs_find_child dir_idx (chars "status") st in
          st ← (if 0 <=? status_idx then refresh_file status_idx (procfs_format_status p 1024) st else Some st);
          let cmdline_idx := vfs_find_child dir_idx (chars "cmdline") st in
          if (0 <=? cmdline_idx) && (0 <? pi_argv_len p) && (pi_argv_len p <? 512) then
            refresh_file cmdline_idx ((λ i, let c := c_at (pi_argv p) i in if c =? 0 then 32 else c) <$> seq 0 (Z.to_nat (pi_argv_len p))) st
          else Some st
    end.

(** ** The boot archive *)

(** The octal number at the start of [s], within [len] characters. *)
Fixpoint oct_loop (len : nat) (s : list Z) (val : Z) : Z :=
  match len, s with
  | S len', c :: s' =>
      if (48 <=? c) && (c <=? 55) then oct_loop len' s' (Z.lor (u64 (Z.shiftl val 3)) (c - 48)) else val
  | _, _ => val
  end.
Definition oct_to_u64 (s : list Z) (len : nat) : Z := oct_loop len s 0.

Definition block_is_zero (block : list Z) : bool := forallb (λ b, b =? 0) (take 512 block).

(** What follows the last slash that is not the end of the string. *)
Fixpoint after_slash (s base : list Z) : list Z :=
  match s with
  | [] => base
  | c :: s' => after_slash s' (if (c =? SLASH) && negb (bool_decide (s' = [])) then s' else base)
  end.
Definition extract_basename (name : list Z) : list Z :=
  let name := match name with c :: d :: name' => if (c =? DOT) && (d =? SLASH) then name' else name | _ => name end in
  after_slash name name.

(** The mode of the file from the header. *)
Definition tar_mode (hdr : list Z) : Z :=
  let m := Z.land (oct_to_u64 (drop 100 hdr) 8) 0x1FF in if m =? 0 then 0x1ED else m.

(** The loop over the headers; [rest] is the archive from [ptr] on.  The result is
    the number of files. *)
Fixpoint tar_loop (fuel : nat) (rest : list Z) (count : Z) st : Z * vfs_st H St :=
  match fuel with
  | O => (count, st)
  | S fuel' =>
      if decide (length rest < 512)%nat then (count, st)
      else if block_is_zero rest then (count, st)
      else
        let file_size := oct_to_u64 (drop 124 rest) 12 in
        let typeflag := c_at rest 156 in
        let next := drop (512 + 512 * Z.to_nat ((file_size + 511) / 512)) rest in
        if (typeflag =? 48) || (typeflag =? 0) then
          if decide (Z.of_nat (length rest) - 512 < file_size) then (count, st)
          else
            let '(idx, st) := vfs_register_node 0 (extract_basename (c_str rest)) VFS_FILE file_size
                                (DImage (slice 512 (Z.to_nat file_size) rest)) st in
            let st := match vfs_get_node idx st with
                      | Some _ => set_node idx (λ n, n <| nd_mode := tar_mode rest |>) st
                      | None => st
                      end in
            tar_loop fuel' next (count + 1) st
        else tar_loop fuel' next count st
  end.

(** Every round goes on by at least 512 bytes. *)
Definition tar_init (archive : list Z) st : Z * vfs_st H St := tar_loop (S (length archive / 512)) archive 0 st.
End procfs.
