(* ===== verification/VfsCases.v ===== *)
(** * VfsCases: numbers in [/proc], the boot archive, and where the VFS falls short

    The decimal numbers of [VfsProc] can be read back.  Runs of the operations of [Vfs]
    on an empty tree, evaluated, show what symbolic links, mounts, files of the boot
    image and writes past the end do that they should not. *)

From Stdlib Require Import Ascii String.
From S2P Require Import Prelude KUtil Mem Bytes Bitmap BlockStore LimnFS Vfs VfsTree VfsSpec VfsProc.

(** ** Numbers *)

(** The value of a string of digits. *)
Definition dec_value (s : list Z) : Z := foldl (λ acc c, acc * 10 + (c - 48)) 0 s.

Lemma dec_value_snoc s c : dec_value (s ++ [c]) = dec_value s * 10 + (c - 48).
Proof. unfold dec_value. by rewrite foldl_app. Qed.

Lemma digits_value fuel v : 0 ≤ v < 10 ^ Z.of_nat fuel → dec_value (rev (digits fuel v)) = v.
Proof.
  revert v. induction fuel as [|fuel IH]; intros v Hv; cbn [digits]; [change (10 ^ Z.of_nat 0) with 1 in Hv; by assert (v = 0) as -> by lia|].
  destruct (0 <? v) eqn:E; bool_hyps; [|by assert (v = 0) as -> by lia]. cbn [rev]. rewrite dec_value_snoc, IH.
  - pose proof (Z.div_mod v 10). lia.
  - rewrite Nat2Z.inj_succ, Z.pow_succ_r in Hv by lia. split; [apply Z.div_pos; lia|apply Z.div_lt_upper_bound; lia].
Qed.

Lemma itoa_digits_length fuel k v : 0 ≤ v < 10 ^ Z.of_nat k → (length (digits fuel v) ≤ k)%nat.
Proof.
  revert k v. induction fuel as [|fuel IH]; intros k v Hv; cbn [digits]; [cbn; lia|]. destruct (0 <? v) eqn:E; bool_hyps; [|cbn; lia]. cbn [length].
  destruct k as [|k]; [change (10 ^ Z.of_nat 0) with 1 in Hv; lia|]. rewrite Nat2Z.inj_succ, Z.pow_succ_r in Hv by lia.
  specialize (IH k (v / 10)). assert (0 ≤ v / 10 < 10 ^ Z.of_nat k); [|lia]. split; [apply Z.div_pos; lia|apply Z.div_lt_upper_bound; lia].
Qed.

(** The decimal number that [/proc] shows for a 64-bit value reads back as that
    value; in particular different processes have different directories. *)
Theorem itoa_roundtrip v : 0 ≤ v < 2 ^ 64 → dec_value (itoa_simple v 24) = v.
Proof.
  intros Hv. unfold itoa_simple. destruct (v =? 0) eqn:E; bool_hyps; [by subst v|].
  assert (2 ^ 64 ≤ 10 ^ Z.of_nat 20) by (by vm_compute). assert (2 ^ 64 ≤ 10 ^ Z.of_nat 23) by (by vm_compute).
  pose proof (itoa_digits_length 23 20 v ltac:(lia)). rewrite decide_False by lia. rewrite take_ge by lia. apply digits_value. lia.
Qed.

Lemma itoa_roundtrip_witness : 0 ≤ 1047 < 2 ^ 64 ∧ dec_value (itoa_simple 1047 24) = 1047 ∧ itoa_simple 1047 24 = chars "1047".
Proof. split; [lia|]. split; [apply (itoa_roundtrip 1047); lia|by vm_compute]. Defined.

(** ** The boot archive *)

(** The number that [n] octal digits stand for. *)
Definition oct_digits (n : nat) (v : Z) : list Z := (λ i, 48 + (v / 8 ^ Z.of_nat i) mod 8) <$> rev (seq 0 n).

Lemma oct_loop_shift v d : 0 ≤ v < 2 ^ 61 → 0 ≤ d < 8 → Z.lor (u64 (Z.shiftl v 3)) d = v * 8 + d.
Proof.
  intros Hv Hd. rewrite Z.shiftl_mul_pow2, u64_id by lia. change (2 ^ 3) with 8. apply Z.bits_inj'. intros k Hk. rewrite Z.lor_spec.
  replace (v * 8) with (Z.shiftl v 3) by (rewrite Z.shiftl_mul_pow2; lia). assert (Hl : Z.land (Z.shiftl v 3) d = 0).
  { apply Z.bits_inj'. intros j Hj. rewrite Z.land_spec, Z.bits_0. destruct (decide (j < 3)); [by rewrite Z.shiftl_spec_low|].
    rewrite <- (Z.mod_small d (2 ^ 3)) by lia. rewrite Z.mod_pow2_bits_high by lia. apply andb_false_r. }
  rewrite Z.add_nocarry_lxor, Z.lxor_spec by done. assert (Hb : Z.testbit (Z.land (Z.shiftl v 3) d) k = false) by (by rewrite Hl, Z.bits_0). rewrite Z.land_spec in Hb.
  by destruct (Z.testbit _ k), (Z.testbit _ k).
Qed.

Lemma oct_loop_digits n w rest : 0 ≤ w < 8 ^ 20 → (n ≤ 12)%nat → ∀ v, 0 ≤ v < 8 ^ Z.of_nat n → (w + 1) * 8 ^ Z.of_nat n ≤ 8 ^ 20 →
  oct_loop n (oct_digits n v ++ rest) w = w * 8 ^ Z.of_nat n + v.
Proof.
  revert w. induction n as [|n IH]; intros w Hw Hn v Hv Hb.
  { change (8 ^ Z.of_nat 0) with 1 in *. cbn. assert (v = 0) as -> by lia. destruct rest; cbn; lia. }
  assert (E : oct_digits (S n) v = (48 + v / 8 ^ Z.of_nat n) :: oct_digits n (v mod 8 ^ Z.of_nat n)).
  { unfold oct_digits. rewrite seq_S, rev_app_distr. cbn [rev app fmap list_fmap]. rewrite Nat2Z.inj_succ, Z.pow_succ_r in Hv by lia. f_equal.
    - f_equal. apply Z.mod_small. split; [apply Z.div_pos; lia|apply Z.div_lt_upper_bound; lia].
    - apply list_fmap_ext. intros i x Hx. apply list_elem_of_lookup_2 in Hx. rewrite list_elem_of_In, <- in_rev, <- list_elem_of_In, elem_of_seq in Hx. f_equal.
      replace (8 ^ Z.of_nat n) with (8 ^ Z.of_nat x * 8 ^ (Z.of_nat n - Z.of_nat x)) by (rewrite <- Z.pow_add_r by lia; f_equal; lia).
      assert (0 < 8 ^ Z.of_nat x) by (apply Z.pow_pos_nonneg; lia). assert (0 < 8 ^ (Z.of_nat n - Z.of_nat x)) by (apply Z.pow_pos_nonneg; lia).
      rewrite Z.rem_mul_r by lia. rewrite Z.mul_comm, Z.div_add by lia. rewrite (Z.div_small (v mod _)) by (apply Z.mod_pos_bound; lia). rewrite Z.add_0_l.
      replace (8 ^ (Z.of_nat n - Z.of_nat x)) with (8 * 8 ^ (Z.of_nat n - Z.of_nat x - 1)) by (rewrite <- Z.pow_succ_r by lia; f_equal; lia).
      assert (0 < 8 ^ (Z.of_nat n - Z.of_nat x - 1)) by (apply Z.pow_pos_nonneg; lia). rewrite Z.rem_mul_r by lia. rewrite (Z.mul_comm 8), Z.mod_add by lia. by rewrite Z.mod_mod by lia. }
  rewrite Nat2Z.inj_succ, Z.pow_succ_r in Hv, Hb |- * by lia. assert (0 < 8 ^ Z.of_nat n) by (apply Z.pow_pos_nonneg; lia).
  assert (0 ≤ v / 8 ^ Z.of_nat n < 8) by (split; [apply Z.div_pos; lia|apply Z.div_lt_upper_bound; lia]).
  rewrite E. cbn [app oct_loop]. rewrite (proj2 (Z.leb_le 48 _)), (proj2 (Z.leb_le _ 55)) by lia. cbn [andb]. replace (48 + v / 8 ^ Z.of_nat n - 48) with (v / 8 ^ Z.of_nat n) by lia.
  rewrite oct_loop_shift by lia. set (d := v / 8 ^ Z.of_nat n) in *.
  assert ((w * 8 + d + 1) * 8 ^ Z.of_nat n ≤ 8 ^ 20) by nia. rewrite IH; [|nia|lia|apply Z.mod_pos_bound; lia|done]. unfold d in *. pose proof (Z.div_mod v (8 ^ Z.of_nat n)). lia.
Qed.

(** The size field of a header is read as it was written. *)
Theorem oct_roundtrip v rest : 0 ≤ v < 8 ^ 12 → oct_to_u64 (oct_digits 12 v ++ rest) 12 = v.
Proof. intros Hv. unfold oct_to_u64. rewrite oct_loop_digits; [lia|lia|lia|done|by vm_compute]. Qed.

(** ** Where the code falls short *)

Abbreviation vst := (vfs_st unit (gmap Z (list Z))).
(** Go on with a result that is not an error. *)
Definition after_ok {X} (r : option (Z * vst)) (f : Z → vst → option X) : option X := '(z, st) ← r; if z <? 0 then None else f z st.

(** A write past the end leaves a gap that is never cleared: the reader gets what the
    buffer held before, memory of the kernel heap. *)
Theorem gap_shows_heap :
  after_ok (vfs_create (chars "/a") vfs_boot) (λ i st,
    after_ok (vfs_write i 4 (chars "x") st) (λ _ st, (λ r, r.1.2) <$> vfs_read i 0 5 st)) = Some [170; 170; 170; 170; 120].
Proof. by vm_compute. Qed.

(** Creation asks whether the path resolves, and a link whose target is missing does
    not: a second entry with the name of the link is made, which the first one hides. *)
Theorem dangling_link_is_doubled :
  after_ok (vfs_symlink (chars "/l") (chars "/none") vfs_boot) (λ l st,
    after_ok (vfs_create (chars "/l") st) (λ i st,
      Some (bool_decide (l ≠ i) && bool_decide (nd_name (node_at l st) = nd_name (node_at i st)) && (nd_parent (node_at l st) =? nd_parent (node_at i st)),
            vfs_resolve_path (chars "/l") st))) = Some (true, - ENOENT).
Proof. by vm_compute. Qed.

(** Deleting a link deletes its target. *)
Theorem delete_follows_link :
  after_ok (vfs_create (chars "/f") vfs_boot) (λ f st,
    after_ok (vfs_symlink (chars "/l") (chars "/f") st) (λ l st,
      after_ok (vfs_delete (chars "/l") st) (λ _ st,
        Some (vfs_resolve_path (chars "/f") st, live (node_at l st))))) = Some (- ENOENT, true).
Proof. by vm_compute. Qed.

(** Unmounting removes only the entries that have no entries of their own: what lies
    deeper stays, and is reachable. *)
Theorem umount_keeps_subdirectories :
  after_ok (Some (vfs_mkdir (chars "/m") vfs_boot)) (λ _ st,
    after_ok (Some (vfs_mount (chars "/m") (chars "tmpfs") st)) (λ _ st,
      after_ok (Some (vfs_mkdir (chars "/m/d") st)) (λ _ st,
        after_ok (vfs_create (chars "/m/d/f") st) (λ i st,
          after_ok (vfs_umount (chars "/m") st) (λ _ st, Some (vfs_resolve_path (chars "/m/d/f") st =? i)))))) = Some true.
Proof. by vm_compute. Qed.

(** A file of the boot image that is made writable and then written: its memory, which
    the heap does not know, is given to the heap to be moved. *)
Theorem write_to_image_file_is_undefined :
  let '(i, st) := vfs_register_node 0 (chars "init") VFS_FILE 4 (DImage [1; 2; 3; 4]) vfs_boot in
  after_ok (vfs_chmod (chars "/init") 0x1A4 st) (λ r st, Some (r, vfs_write i 0 [9] st)) = Some (0, None).
Proof. by vm_compute. Qed.

(** The directory of a process that ends is removed from the table but not from the
    disk, where [vfs_mkdir] made it. *)
Theorem unregister_keeps_disk {H St : Type} `{!ByteHeap H} `{!BlockStore St} (pid : Z) (st st' : vfs_st H St) :
  vfs_procfs_unregister_pid pid st = Some st' → v_fs st' = v_fs st.
Proof.
  assert (Hfree : ∀ d (s s' : vfs_st H St), data_free d s = Some s' → v_fs s' = v_fs s) by (intros [] s s' [= <-]; done).
  assert (Hdel : ∀ l i (s s' : vfs_st H St), delete_children l i s = Some s' → v_fs s' = v_fs s).
  { induction l as [|k l IH]; intros i s s' Hd; cbn [delete_children] in Hd; [by injection Hd as <-|]. case_match; [by eapply IH|].
    apply bind_Some in Hd as (s1 & Hs1 & Hd). rewrite (IH _ _ _ Hd). cbn. case_match; [by eapply Hfree|by injection Hs1 as <-]. }
  unfold vfs_procfs_unregister_pid, procfs_delete_subtree. case_match; [by intros [= <-]|]. cbv zeta. case_match; [by intros [= <-]|].
  intros (s1 & Hs1 & [= <-])%bind_Some. by apply Hdel in Hs1.
Qed.

(** Directories that a user makes below the directory of a process become entries of
    whatever gets its slot next. *)
Theorem orphans_change_parent :
  let st := vfs_procfs_init vfs_boot in
  match vfs_procfs_register_pid (λ _, None) 7 st with
  | Some st =>
      after_ok (Some (vfs_mkdir (chars "/proc/7/d") st)) (λ _ st,
        after_ok (Some (vfs_mkdir (chars "/proc/7/d/e") st)) (λ e st,
          st ← vfs_procfs_unregister_pid 7 st;
          let '(_, st) := vfs_mkdir (chars "/x") st in
          let '(_, st) := vfs_mkdir (chars "/y") st in
          let '(_, st) := vfs_mkdir (chars "/z") st in
          let '(_, st) := vfs_mkdir (chars "/w") st in
          Some (bool_decide (vfs_resolve_path (chars "/w/e") st = e))))
  | None => None
  end = Some true.
Proof. by vm_compute. Qed.
