(* ===== verification/Sched.v ===== *)
(** * Sched: threads, run queues, processes and signals

    Models [src/kernel/src/sched/sched.c], [src/kernel/src/sched/thread.c], the
    process table and the signal delivery of [src/kernel/src/proc/process.c], and
    the calls of [src/kernel/src/syscall/sys_proc.c] that wait for and signal
    processes.

    Threads and processes are objects of the kernel heap: a pointer is an optional
    key of a finite map, [kfree] removes the key, and an access through a pointer
    whose key is not there is undefined ([None]).  A run queue is a singly linked
    list through the [next] fields of its threads.  Every function takes the number
    [c] of the processor that executes it.  Register contents and floating point
    state are not represented; the stack, the address space and the thread pointer
    that a processor has loaded are. *)

From stdpp Require Import gmap.
From S2P Require Import Prelude Ring.

Abbreviation SIGKILL := 9 (only parsing).
Abbreviation SIGCONT := 18 (only parsing).
Abbreviation SIGSTOP := 19 (only parsing).
Abbreviation SIGCHLD := 20 (only parsing).
Abbreviation MAX_SIGNALS := 32 (only parsing).
Abbreviation SIG_QUEUE_SIZE := 16%nat (only parsing).
Abbreviation MAX_PROCS := 64%nat (only parsing).
Abbreviation THREAD_DEFAULT_STACK_SIZE := 32768 (only parsing).
Abbreviation CAP_KILL := 4 (only parsing).
Abbreviation WNOHANG := 1 (only parsing).
Abbreviation sched_EPERM := 1 (only parsing).
Abbreviation sched_ECHILD := 10 (only parsing).
Abbreviation sched_EINTR := 4 (only parsing).
Abbreviation sched_ENOMEM := 12 (only parsing).

(** ** State *)

Inductive thread_state := THREAD_READY | THREAD_RUNNING | THREAD_DEAD | THREAD_STOPPED | THREAD_BLOCKED.
#[export] Instance thread_state_eq_dec : EqDecision thread_state.
Proof. solve_decision. Defined.

(** What [context] points to: the frame that [thread_create] builds for an entry
    function, or the frame that [context_switch] saved. *)
Inductive context := CtxNull | CtxNew (entry : Z) | CtxSaved.
#[export] Instance context_eq_dec : EqDecision context.
Proof. solve_decision. Defined.

Record thread := mk_thread {
  th_tid : Z;
  th_state : thread_state;
  th_context : context;
  th_stack_base : Z;
  th_stack_size : Z;
  th_next : option nat;
  th_process : option nat;
  th_last_cpu : Z;
  th_ticks : Z;
  th_fs_base : Z
}.
#[export] Instance thread_eta : Eta thread := λ t,
  mk_thread (th_tid t) (th_state t) (th_context t) (th_stack_base t) (th_stack_size t) (th_next t) (th_process t) (th_last_cpu t)
    (th_ticks t) (th_fs_base t).

Record process := mk_process {
  p_pid : Z;
  p_parent : Z;
  p_pgid : Z;
  p_uid : Z;
  p_caps : Z;
  p_rlimit_cpu : Z;
  p_exit_status : Z;
  p_exited : bool;
  p_cr3 : Z;
  p_main : option nat;
  p_wait : option nat;
  p_pending : Z;
  p_mask : Z;
  p_sigq : ring Z;
  p_handlers : list (Z * Z);   (* sa_handler, sa_flags *)
  p_frames : list Z;           (* signal_frame_stack *)
  p_depth : Z;                 (* signal_depth *)
  p_restart : option (Z * list Z)   (* restart_syscall_num and restart_args when restart_pending *)
}.
#[export] Instance process_eta : Eta process := λ p,
  mk_process (p_pid p) (p_parent p) (p_pgid p) (p_uid p) (p_caps p) (p_rlimit_cpu p) (p_exit_status p) (p_exited p)
    (p_cr3 p) (p_main p) (p_wait p) (p_pending p) (p_mask p) (p_sigq p)
    (p_handlers p) (p_frames p) (p_depth p) (p_restart p).

(** The two ends of a run queue. *)
Record queue := mk_queue { q_head : option nat; q_tail : option nat }.
#[export] Instance queue_eta : Eta queue := λ q, mk_queue (q_head q) (q_tail q).

(** [percpu_t], with the stack pointer for entries from user mode, the page table
    register and the thread pointer of the processor. *)
Record percpu := mk_percpu {
  pc_rq : queue;
  pc_current : option nat;
  pc_idle : option nat;
  pc_started : bool;
  pc_rsp0 : Z;
  pc_cr3 : Z;
  pc_tls : Z
}.
#[export] Instance percpu_eta : Eta percpu := λ c,
  mk_percpu (pc_rq c) (pc_current c) (pc_idle c) (pc_started c) (pc_rsp0 c) (pc_cr3 c) (pc_tls c).

Record sched := mk_sched {
  threads : gmap nat thread;
  procs : gmap nat process;
  stacks : gset Z;             (* the stacks that are allocated *)
  ready : queue;
  dead_head : option nat;
  bsp_current : option nat;
  bsp_idle : option nat;
  smp_active : bool;
  cpus : list percpu;
  kernel_pml4 : Z;
  flush_counter : Z;
  proc_table : list (option nat);
  next_pid : Z;
  next_tid : Z;
  procfs_calls : list (bool * Z)   (* calls to (un)register a pid in /proc *)
}.
#[export] Instance sched_eta : Eta sched := λ s,
  mk_sched (threads s) (procs s) (stacks s) (ready s) (dead_head s) (bsp_current s) (bsp_idle s) (smp_active s) (cpus s)
    (kernel_pml4 s) (flush_counter s) (proc_table s) (next_pid s) (next_tid s) (procfs_calls s).

Abbreviation heap := (gmap nat thread).

(** [t->f = v] and [p->f = v]. *)
Definition set_thread (t : nat) (f : thread → thread) (s : sched) : option sched :=
  th ← threads s !! t; Some (s <| threads := <[t := f th]> (threads s) |>).
Definition set_proc (p : nat) (f : process → process) (s : sched) : option sched :=
  pr ← procs s !! p; Some (s <| procs := <[p := f pr]> (procs s) |>).
Definition set_cpu (c : nat) (f : percpu → percpu) (s : sched) : sched := s <| cpus := alter f c (cpus s) |>.
Definition state_of (t : nat) (s : sched) : option thread_state := th_state <$> threads s !! t.
Definition set_state (v : thread_state) (t : nat) (s : sched) : option sched := set_thread t (λ th, th <| th_state := v |>) s.

Definition set_next (t : nat) (v : option nat) (h : heap) : option heap :=
  th ← h !! t; Some (<[t := th <| th_next := v |>]> h).

(** ** Linked queues *)

Definition q_put (t : nat) (h : heap) (q : queue) : option (heap * queue) :=
  h ← set_next t None h;
  match q_tail q with
  | Some l => h ← set_next l (Some t) h; Some (h, q <| q_tail := Some t |>)
  | None => Some (h, mk_queue (Some t) (Some t))
  end.

Definition q_take (h : heap) (q : queue) : option (option nat * heap * queue) :=
  match q_head q with
  | None => Some (None, h, q)
  | Some t =>
      th ← h !! t;
      let q := mk_queue (th_next th) (match th_next th with Some _ => q_tail q | None => None end) in
      h ← set_next t None h; Some (Some t, h, q)
  end.

(** [while (prev->next != x) prev = prev->next]. *)
Fixpoint walk_to (fuel : nat) (h : heap) (x : option nat) (prev : nat) : option nat :=
  match fuel with
  | O => None
  | S fuel' =>
      th ← h !! prev;
      if bool_decide (th_next th = x) then Some prev
      else match th_next th with Some n => walk_to fuel' h x n | None => None end
  end.

Definition q_steal (h : heap) (q : queue) : option (option nat * heap * queue) :=
  match q_head q with
  | None => Some (None, h, q)
  | Some hd =>
      if bool_decide (q_head q = q_tail q) then h ← set_next hd None h; Some (Some hd, h, mk_queue None None)
      else
        prev ← walk_to (S (size h)) h (q_tail q) hd;
        t ← q_tail q;
        h ← set_next prev None h;
        h ← set_next t None h;
        Some (Some t, h, q <| q_tail := Some prev |>)
  end.

(** [while (prev && prev->next != t) prev = prev->next]. *)
Fixpoint walk_before (fuel : nat) (h : heap) (t : nat) (prev : option nat) : option (option nat) :=
  match prev with
  | None => Some None
  | Some p =>
      match fuel with
      | O => None
      | S fuel' =>
          th ← h !! p;
          if bool_decide (th_next th = Some t) then Some (Some p) else walk_before fuel' h t (th_next th)
      end
  end.

Definition q_remove (t : nat) (h : heap) (q : queue) : option (bool * heap * queue) :=
  if bool_decide (q_head q = Some t) then
    th ← h !! t;
    let q := mk_queue (th_next th) (if bool_decide (q_tail q = Some t) then None else q_tail q) in
    h ← set_next t None h; Some (true, h, q)
  else
    prev ← walk_before (S (size h)) h t (q_head q);
    match prev with
    | None => Some (false, h, q)
    | Some p =>
        th ← h !! t;
        h ← set_next p (th_next th) h;
        let q := if bool_decide (q_tail q = Some t) then q <| q_tail := Some p |> else q in
        h ← set_next t None h; Some (true, h, q)
    end.

(** The shared queue. *)
Definition enqueue (t : nat) (s : sched) : option sched :=
  '(h, q) ← q_put t (threads s) (ready s); Some (s <| threads := h |> <| ready := q |>).
Definition dequeue (s : sched) : option (option nat * sched) :=
  '(t, h, q) ← q_take (threads s) (ready s); Some (t, s <| threads := h |> <| ready := q |>).

(** The queue of processor [c]. *)
Definition local_enqueue (c : nat) (t : nat) (s : sched) : option sched :=
  pc ← cpus s !! c;
  '(h, q) ← q_put t (threads s) (pc_rq pc); Some (set_cpu c (λ pc, pc <| pc_rq := q |>) (s <| threads := h |>)).
Definition local_dequeue (c : nat) (s : sched) : option (option nat * sched) :=
  pc ← cpus s !! c;
  '(t, h, q) ← q_take (threads s) (pc_rq pc); Some (t, set_cpu c (λ pc, pc <| pc_rq := q |>) (s <| threads := h |>)).
Definition steal_from_tail (v : nat) (s : sched) : option (option nat * sched) :=
  pc ← cpus s !! v;
  '(t, h, q) ← q_steal (threads s) (pc_rq pc); Some (t, set_cpu v (λ pc, pc <| pc_rq := q |>) (s <| threads := h |>)).
Definition local_remove (c : nat) (t : nat) (s : sched) : option (bool * sched) :=
  pc ← cpus s !! c;
  '(b, h, q) ← q_remove t (threads s) (pc_rq pc); Some (b, set_cpu c (λ pc, pc <| pc_rq := q |>) (s <| threads := h |>)).

(** ** Current and idle threads *)

Definition get_current (c : nat) (s : sched) : option nat :=
  if smp_active s then pc ← cpus s !! c; pc_current pc else bsp_current s.
Definition set_current (c : nat) (t : nat) (s : sched) : sched :=
  (if smp_active s then set_cpu c (λ pc, pc <| pc_current := Some t |>) s else s) <| bsp_current := Some t |>.
Definition get_idle (c : nat) (s : sched) : option nat :=
  if smp_active s then pc ← cpus s !! c; pc_idle pc else bsp_idle s.

(** ** Dead threads *)

Definition link_dead (t : nat) (s : sched) : option sched :=
  s ← set_thread t (λ th, th <| th_next := dead_head s |>) s; Some (s <| dead_head := Some t |>).

(** Freeing a stack that is not allocated is undefined. *)
Definition free_stack (b : Z) (s : sched) : option sched :=
  if b =? 0 then Some s
  else if bool_decide (b ∈ stacks s) then Some (s <| stacks := stacks s ∖ {[b]} |>) else None.

Fixpoint reap_loop (fuel : nat) (s : sched) : option sched :=
  match dead_head s with
  | None => Some s
  | Some t =>
      match fuel with
      | O => None
      | S fuel' =>
          th ← threads s !! t;
          s ← free_stack (th_stack_base th) (s <| dead_head := th_next th |>);
          reap_loop fuel' (s <| threads := delete t (threads s) |>)
      end
  end.
Definition reap_dead (s : sched) : option sched := reap_loop (size (threads s)) s.

(** ** Switching *)

(** The page table of a thread; a process that was torn down has none. *)
Definition space_of (p : option nat) (s : sched) : option Z :=
  match p with
  | None => Some (kernel_pml4 s)
  | Some p => pr ← procs s !! p; Some (if p_cr3 pr =? 0 then kernel_pml4 s else p_cr3 pr)
  end.

(** A thread that runs again continues behind [context_switch] and restores its
    thread pointer; a new thread starts in [thread_trampoline] and does not. *)
Definition do_switch (c : nat) (old next : nat) (s : sched) : option sched :=
  n ← threads s !! next;
  let s := if negb (th_stack_base n =? 0) && negb (th_stack_size n =? 0)
           then set_cpu c (λ pc, pc <| pc_rsp0 := th_stack_base n + th_stack_size n |>) s else s in
  o ← threads s !! old;
  old_cr3 ← (if bool_decide (th_state o = THREAD_DEAD) then Some (kernel_pml4 s) else space_of (th_process o) s);
  new_cr3 ← space_of (th_process n) s;
  let s := if old_cr3 =? new_cr3 then s else set_cpu c (λ pc, pc <| pc_cr3 := new_cr3 |>) s in
  if bool_decide (old = next) then Some s
  else
    pc ← cpus s !! c;
    s ← set_thread old (λ th, th <| th_fs_base := pc_tls pc |> <| th_context := CtxSaved |>) s;
    Some (if bool_decide (th_context n = CtxSaved) then set_cpu c (λ pc, pc <| pc_tls := th_fs_base n |>) s else s).

(** ** Choosing the next thread *)

(** The running thread goes back to the queue; the idle thread is never queued. *)
Definition put_back (put : nat → sched → option sched) (old : nat) (idle : option nat) (s : sched) : option sched :=
  o ← state_of old s;
  if bool_decide (o = THREAD_RUNNING) then
    s ← set_state THREAD_READY old s;
    if bool_decide (idle = Some old) then Some s else put old s
  else Some s.

(** A dead thread: mark its process as exited, wake who waits for it, and link the
    thread for [reap_dead]. *)
Definition bury (put : nat → sched → option sched) (t : nat) (s : sched) : option sched :=
  th ← threads s !! t;
  s ← match th_process th with
      | None => Some s
      | Some p =>
          pr ← procs s !! p;
          s ← set_proc p (λ pr, pr <| p_wait := None |> <| p_exited := true |>) s;
          s ← set_thread t (λ th, th <| th_process := None |>) s;
          match p_wait pr with
          | None => Some s
          | Some w =>
              ws ← state_of w s;
              if bool_decide (ws = THREAD_BLOCKED) then s ← set_state THREAD_READY w s; put w s else Some s
          end
      end;
  link_dead t s.

Definition is_dead (t : nat) (idle : option nat) (s : sched) : option bool :=
  st ← state_of t s; Some (bool_decide (st = THREAD_DEAD) && negb (bool_decide (idle = Some t))).

(** From the choice of [next] to the switch. *)
Definition switch_to (put : nat → sched → option sched) (take : sched → option (option nat * sched))
    (c old : nat) (idle : option nat) (next : nat) (s : sched) : option sched :=
  s ← put_back put old idle s;
  d ← is_dead old idle s;
  s ← (if d : bool then bury put old s else Some s);
  d ← is_dead next idle s;
  '(next, s) ← (if d : bool then
                  s ← bury put next s;
                  '(n, s) ← take s;
                  n ← (match n with Some n => Some n | None => idle end);
                  Some (n, s)
                else Some (next, s));
  s ← set_state THREAD_RUNNING next s;
  s ← (if smp_active s then set_thread next (λ th, th <| th_last_cpu := Z.of_nat c |>) s else Some s);
  do_switch c old next (set_current c next s).

(** What follows when no thread is ready: [None] is an undefined access, [Some None]
    that the caller keeps running. *)
Definition no_ready (cur : nat) (idle : option nat) (s : sched) : option (option nat) :=
  st ← state_of cur s;
  if bool_decide (idle = Some cur) || bool_decide (st = THREAD_DEAD) then i ← idle; Some (Some i) else Some None.

Definition schedule_single (c : nat) (s : sched) : option sched :=
  s ← reap_dead s;
  cur ← bsp_current s;
  '(next, s) ← dequeue s;
  next ← (match next with Some n => Some (Some n) | None => no_ready cur (bsp_idle s) s end);
  match next with
  | None => Some s
  | Some n => switch_to enqueue dequeue c cur (bsp_idle s) n s
  end.

(** Steal from the first other processor that has a thread. *)
Fixpoint steal_loop (c : nat) (vs : list nat) (s : sched) : option (option nat * sched) :=
  match vs with
  | [] => Some (None, s)
  | v :: vs =>
      pc ← cpus s !! v;
      if bool_decide (v = c) || negb (pc_started pc) then steal_loop c vs s
      else
        '(t, s) ← steal_from_tail v s;
        match t with Some t => Some (Some t, s) | None => steal_loop c vs s end
  end.

(** The code releases the lock of its queue while it looks at the queues of the others;
    here the call is one step. *)
Definition schedule_smp (c : nat) (s : sched) : option sched :=
  s ← reap_dead s;
  pc ← cpus s !! c;
  cur ← pc_current pc;
  '(next, s) ← local_dequeue c s;
  '(next, s) ← (match next with
                | Some n => Some (Some n, s)
                | None =>
                    '(n, s) ← steal_loop c (seq 0 (length (cpus s))) s;
                    match n with Some n => Some (Some n, s) | None => local_dequeue c s end
                end);
  next ← (match next with Some n => Some (Some n) | None => no_ready cur (pc_idle pc) s end);
  match next with
  | None => Some s
  | Some n => switch_to (local_enqueue c) (local_dequeue c) c cur (pc_idle pc) n s
  end.

Definition schedule (c : nat) (s : sched) : option sched :=
  if smp_active s then schedule_smp c s else schedule_single c s.

(** ** Operations *)

Definition sched_add (c : nat) (t : nat) (s : sched) : option sched :=
  if smp_active s then local_enqueue c t s else enqueue t s.

Fixpoint remove_loop (cs : list nat) (t : nat) (s : sched) : option (bool * sched) :=
  match cs with
  | [] => Some (false, s)
  | c :: cs =>
      '(b, s) ← local_remove c t s;
      if b : bool then Some (true, s) else remove_loop cs t s
  end.

Definition sched_remove (t : nat) (s : sched) : option (bool * sched) :=
  if smp_active s then remove_loop (seq 0 (length (cpus s))) t s
  else '(b, h, q) ← q_remove t (threads s) (ready s); Some (b, s <| threads := h |> <| ready := q |>).

Definition sched_block (c : nat) (t : nat) (s : sched) : option sched :=
  s ← set_state THREAD_BLOCKED t s; schedule c s.

Definition sched_wake (c : nat) (t : nat) (s : sched) : option sched :=
  st ← state_of t s;
  if bool_decide (st = THREAD_BLOCKED) then s ← set_state THREAD_READY t s; sched_add c t s else Some s.

Definition sched_yield (c : nat) (s : sched) : option sched := schedule c s.

Fixpoint migrate (fuel : nat) (c : nat) (s : sched) : option sched :=
  match q_head (ready s) with
  | None => Some s
  | Some _ =>
      match fuel with
      | O => None
      | S fuel' =>
          '(t, s) ← dequeue s;
          s ← (match t with Some t => local_enqueue c t s | None => Some s end);
          migrate fuel' c s
      end
  end.

Definition sched_set_smp_active (c : nat) (s : sched) : option sched :=
  let s := s <| smp_active := true |> in
  let fill f d pc := match f pc with Some _ => f pc | None => d end in
  let s := set_cpu c (λ pc, pc <| pc_idle := fill pc_idle (bsp_idle s) pc |> <| pc_current := fill pc_current (bsp_current s) pc |>) s in
  migrate (S (size (threads s))) c s.

(** ** Threads *)

(** The two allocations are arguments: the new object, whose memory holds [junk],
    and the new stack. *)
Definition thread_create (new : option nat) (junk : thread) (stack : option Z) (entry size : Z) (s : sched) : option nat * sched :=
  let size := if size =? 0 then THREAD_DEFAULT_STACK_SIZE else size in
  match new, stack with
  | Some t, Some b =>
      (Some t, s <| threads := <[t := junk <| th_tid := next_tid s |> <| th_state := THREAD_READY |> <| th_context := CtxNew entry |>
                        <| th_stack_base := b |> <| th_stack_size := size |> <| th_next := None |> <| th_process := None |>
                        <| th_ticks := 0 |>]> (threads s) |>
                 <| stacks := stacks s ∪ {[b]} |> <| next_tid := u64 (next_tid s + 1) |>)
  | _, _ => (None, s)
  end.

Definition thread_exit (c : nat) (s : sched) : option sched :=
  cur ← get_current c s; s ← set_state THREAD_DEAD cur s; schedule c s.

(** Before the first thread: the idle thread and the thread of [kmain], which has
    the boot stack.  A failed allocation stops the kernel. *)
Definition sched_init (new : option nat) (stack : option Z) (kmain : option nat) (junk : thread) (idle_loop : Z)
    (s : sched) : option sched :=
  let s := s <| ready := mk_queue None None |> in
  let '(idle, s) := thread_create new junk stack idle_loop 0 s in
  i ← idle;
  k ← kmain;
  let th := junk <| th_tid := 0 |> <| th_state := THREAD_RUNNING |> <| th_context := CtxNull |> <| th_stack_base := 0 |>
              <| th_stack_size := 0 |> <| th_next := None |> <| th_process := None |> <| th_last_cpu := 0 |> in
  Some (s <| bsp_idle := Some i |> <| threads := <[k := th]> (threads s) |> <| bsp_current := Some k |>).

(** ** The process table *)

Definition process_alloc_pid (s : sched) : Z * sched := (next_pid s, s <| next_pid := u64 (next_pid s + 1) |>).

Definition process_register (p : nat) (s : sched) : option (Z * sched) :=
  match find_idx (λ e : option nat, bool_decide (e = None)) (proc_table s) with
  | None => Some (- sched_ENOMEM, s)
  | Some i =>
      pr ← procs s !! p;
      Some (0, s <| proc_table := <[i := Some p]> (proc_table s) |> <| procfs_calls := (true, p_pid pr) :: procfs_calls s |>)
  end.

(** The first entry, from [i] on, of a process that satisfies [f]; entries of freed
    processes are undefined. *)
Fixpoint table_find (f : process → bool) (i : nat) (l : list (option nat)) (s : sched) : option (option (nat * nat)) :=
  match l with
  | [] => Some None
  | None :: l => table_find f (S i) l s
  | Some p :: l => pr ← procs s !! p; if f pr then Some (Some (i, p)) else table_find f (S i) l s
  end.

Definition process_lookup (pid : Z) (s : sched) : option (option nat) :=
  r ← table_find (λ pr, p_pid pr =? pid) 0 (proc_table s) s; Some (option_map snd r).

Definition process_find_child (parent : Z) (exited_only : bool) (s : sched) : option (option nat) :=
  r ← table_find (λ pr, (p_parent pr =? parent) && p_exited pr) 0 (proc_table s) s;
  match r with
  | Some (_, p) => Some (Some p)
  | None =>
      if exited_only then Some None
      else r ← table_find (λ pr, p_parent pr =? parent) 0 (proc_table s) s; Some (option_map snd r)
  end.

Definition process_unregister (pid : Z) (s : sched) : option sched :=
  r ← table_find (λ pr, p_pid pr =? pid) 0 (proc_table s) s;
  Some (match r with Some (i, _) => s <| proc_table := <[i := None]> (proc_table s) |> | None => s end).

Fixpoint reparent_loop (dying new : Z) (l : list (option nat)) (s : sched) : option sched :=
  match l with
  | [] => Some s
  | None :: l => reparent_loop dying new l s
  | Some p :: l =>
      pr ← procs s !! p;
      s ← (if p_parent pr =? dying then set_proc p (λ pr, pr <| p_parent := new |>) s else Some s);
      reparent_loop dying new l s
  end.
Definition process_reparent_children (dying new : Z) (s : sched) : option sched := reparent_loop dying new (proc_table s) s.

(** ** Signals *)

Definition kill_process (c : nat) (p t : nat) (s : sched) : option sched :=
  s ← set_proc p (λ pr, pr <| p_exit_status := - SIGKILL |>) s;
  st ← state_of t s;
  s ← (if bool_decide (st = THREAD_READY) then
         '(b, s) ← sched_remove t s;
         if b : bool then set_proc p (λ pr, pr <| p_exited := true |>) s else Some s
       else Some s);
  s ← set_state THREAD_DEAD t s;
  pr ← procs s !! p;
  match p_wait pr with
  | Some w => if p_exited pr then s ← set_proc p (λ pr, pr <| p_wait := None |>) s; sched_wake c w s else Some s
  | None => Some s
  end.

Definition stop_process (t : nat) (s : sched) : option sched :=
  st ← state_of t s;
  s ← (if bool_decide (st = THREAD_READY) then '(_, s) ← sched_remove t s; Some s else Some s);
  set_state THREAD_STOPPED t s.

Definition continue_process (c : nat) (t : nat) (s : sched) : option sched :=
  st ← state_of t s;
  if bool_decide (st = THREAD_STOPPED) then s ← set_state THREAD_READY t s; sched_add c t s else Some s.

(** A signal that is already pending is queued, up to [SIG_QUEUE_SIZE]. *)
Definition pend_signal (signum : Z) (pr : process) : process :=
  let bit := Z.shiftl 1 signum in
  if negb (Z.land (p_pending pr) bit =? 0) then
    if bool_decide (r_count (p_sigq pr) < SIG_QUEUE_SIZE)%nat then pr <| p_sigq := ring_put SIG_QUEUE_SIZE (λ _, signum) (p_sigq pr) |>
    else pr
  else pr <| p_pending := Z.lor (p_pending pr) bit |>.

Definition process_deliver_signal (c : nat) (p : nat) (signum : Z) (s : sched) : option (Z * sched) :=
  pr ← procs s !! p;
  match p_main pr with
  | None => Some (-1, s)
  | Some t =>
      if (signum <? 1) || (MAX_SIGNALS <=? signum) then Some (-1, s)
      else if signum =? SIGKILL then s ← kill_process c p t s; Some (0, s)
      else if signum =? SIGSTOP then s ← stop_process t s; Some (0, s)
      else if signum =? SIGCONT then s ← continue_process c t s; Some (0, s)
      else s ← set_proc p (pend_signal signum) s; Some (0, s)
  end.

(** The processes of a group, then a signal to each of them. *)
Fixpoint group_members (pgid : Z) (l : list (option nat)) (s : sched) : option (list nat) :=
  match l with
  | [] => Some []
  | None :: l => group_members pgid l s
  | Some p :: l => pr ← procs s !! p; r ← group_members pgid l s; Some (if p_pgid pr =? pgid then p :: r else r)
  end.
Fixpoint signal_all (c : nat) (ps : list nat) (signum count : Z) (s : sched) : option (Z * sched) :=
  match ps with
  | [] => Some (count, s)
  | p :: ps => '(r, s) ← process_deliver_signal c p signum s; signal_all c ps signum (if r =? 0 then count + 1 else count) s
  end.
Definition process_kill_group (c : nat) (pgid signum : Z) (s : sched) : option (Z * sched) :=
  ps ← group_members pgid (proc_table s) s;
  '(count, s) ← signal_all c ps signum 0 s;
  Some (if 0 <? count then 0 else -1, s).

(** The process of the current thread. *)
Definition caller_of (c : nat) (s : sched) : option (option process) :=
  match get_current c s with
  | None => Some None
  | Some t => th ← threads s !! t;
              match th_process th with None => Some None | Some p => pr ← procs s !! p; Some (Some pr) end
  end.

Definition sys_kill (c : nat) (pid signal : Z) (s : sched) : option (Z * sched) :=
  caller ← caller_of c s;
  if pid <? 0 then process_kill_group c (- pid) (i32 signal) s
  else
    target ← process_lookup pid s;
    match target with
    | None => Some (-1, s)
    | Some p =>
        pr ← procs s !! p;
        let denied := match caller with
                      | None => false
                      | Some me => negb (p_uid me =? 0) && negb (p_uid me =? p_uid pr) && (Z.land (p_caps me) CAP_KILL =? 0)
                      end in
        if denied : bool then Some (- sched_EPERM, s) else process_deliver_signal c p (i32 signal) s
    end.

Definition sys_getpid (c : nat) (s : sched) : option Z :=
  me ← caller_of c s; Some (match me with None => -1 | Some pr => p_pid pr end).

Definition sys_setpgid (c : nat) (pid_arg pgid_arg : Z) (s : sched) : option (Z * sched) :=
  me ← caller_of c s;
  match me with
  | None => Some (-1, s)
  | Some caller =>
      let pid := if pid_arg =? 0 then p_pid caller else pid_arg in
      let pgid := if pgid_arg =? 0 then pid else pgid_arg in
      target ← process_lookup pid s;
      match target with
      | None => Some (-1, s)
      | Some p => s ← set_proc p (λ pr, pr <| p_pgid := pgid |>) s; Some (0, s)
      end
  end.

Definition sys_getpgid (c : nat) (pid_arg : Z) (s : sched) : option Z :=
  me ← caller_of c s;
  match me with
  | None => Some (-1)
  | Some caller =>
      target ← process_lookup (if pid_arg =? 0 then p_pid caller else pid_arg) s;
      match target with None => Some (-1) | Some p => pr ← procs s !! p; Some (p_pgid pr) end
  end.

Definition sched_has_pending_signal (c : nat) (s : sched) : option bool :=
  match get_current c s with
  | None => Some false
  | Some t =>
      th ← threads s !! t;
      match th_process th with
      | None => Some false
      | Some p => pr ← procs s !! p; Some (negb (Z.land (p_pending pr) (u32 (Z.lnot (p_mask pr))) =? 0))
      end
  end.

(** A timer interrupt; the first component tells whether the periodic checks of the
    other subsystems run. *)
Definition sched_tick (c : nat) (s : sched) : option (bool * sched) :=
  s ← (match get_current c s with
       | None => Some s
       | Some t =>
           s ← set_thread t (λ th, th <| th_ticks := u64 (th_ticks th + 1) |>) s;
           th ← threads s !! t;
           match th_process th with
           | None => Some s
           | Some p =>
               pr ← procs s !! p;
               if (0 <? p_rlimit_cpu pr) && (p_rlimit_cpu pr <=? th_ticks th)
               then '(_, s) ← process_deliver_signal c p SIGKILL s; Some s else Some s
           end
       end);
  let n := u32 (flush_counter s + 1) in
  let due := 500 <=? n in
  let s := s <| flush_counter := if due then 0 else n |> in
  s' ← schedule c s;
  Some (due && (negb (smp_active s) || bool_decide (c = O)), s').

(** ** Waiting for a process *)

(** One round of the loop of [sys_waitpid]: it ends with a result, or with the
    caller blocked. *)
Inductive wait_result := WDone | WIntr | WBlocked.

Definition interruptible (pr : process) : bool :=
  negb (Z.land (Z.land (p_pending pr) (u32 (Z.lnot (p_mask pr)))) (u32 (Z.lnot (Z.shiftl 1 SIGCHLD))) =? 0).

Definition wait_round (c : nat) (me self child : nat) (s : sched) : option (wait_result * sched) :=
  pr ← procs s !! child;
  if p_exited pr then Some (WDone, s)
  else
    w ← procs s !! self;
    if interruptible w then Some (WIntr, s)
    else
      s ← set_proc child (λ pr, pr <| p_wait := Some me |>) s;
      s ← sched_block c me s;
      Some (WBlocked, s).

(** After the call returned from [sched_block]. *)
Definition wait_resume (self child : nat) (s : sched) : option (wait_result * sched) :=
  s ← set_proc child (λ pr, pr <| p_wait := None |>) s;
  w ← procs s !! self;
  Some (if interruptible w then WIntr else WBlocked, s).

(** The child that a call waits for. *)
Definition wait_target (self : nat) (target : Z) (s : sched) : option (option nat) :=
  w ← procs s !! self;
  if 0 <? target then process_lookup target s
  else
    r ← process_find_child (p_pid w) true s;
    match r with Some p => Some (Some p) | None => process_find_child (p_pid w) false s end.

Definition free_proc (p : nat) (s : sched) : option sched :=
  _ ← procs s !! p; Some (s <| procs := delete p (procs s) |>).

(** The end of the call: the status for the caller, the pid, and the process freed. *)
Definition wait_finish (child : nat) (s : sched) : option (Z * Z * sched) :=
  pr ← procs s !! child;
  let s := s <| procfs_calls := (false, p_pid pr) :: procfs_calls s |> in
  s ← process_unregister (p_pid pr) s;
  s ← free_proc child s;
  Some (Z.shiftl (Z.land (p_exit_status pr) 0xFF) 8, p_pid pr, s).

(** [sys_waitpid] up to its first block: the value it returns with the status it
    stores, or a sleeping caller. *)
Inductive wait_outcome := WReturn (ret : Z) (status : option Z) | WSleep.

Definition sys_waitpid (c : nat) (target options : Z) (s : sched) : option (wait_outcome * sched) :=
  match get_current c s with
  | None => Some (WReturn (-1) None, s)
  | Some me =>
      th ← threads s !! me;
      match th_process th with
      | None => Some (WReturn (-1) None, s)
      | Some self =>
          child ← wait_target self target s;
          match child with
          | None => Some (WReturn (- sched_ECHILD) None, s)
          | Some ch =>
              pr ← procs s !! ch;
              if negb (Z.land options WNOHANG =? 0) && negb (p_exited pr) then Some (WReturn 0 None, s)
              else
                '(r, s) ← wait_round c me self ch s;
                match r with
                | WIntr => Some (WReturn (- sched_EINTR) None, s)
                | WBlocked => Some (WSleep, s)
                | WDone => '(status, pid, s) ← wait_finish ch s; Some (WReturn pid (Some status), s)
                end
          end
      end
  end.

(** A round of [process_reap], which no signal interrupts, and its end. *)
Definition reap_round (c : nat) (p : nat) (s : sched) : option (bool * sched) :=
  pr ← procs s !! p;
  if p_exited pr then
    s ← process_unregister (p_pid pr) s;
    s ← free_proc p s;
    Some (true, s)
  else
    me ← get_current c s;
    s ← set_proc p (λ pr, pr <| p_wait := Some me |>) s;
    s ← sched_block c me s;
    Some (false, s).
