(* ===== verification/SchedQueue.v ===== *)
(** * SchedQueue: run queues are lists

    The linked queues of [Sched] represent lists of threads: [q_rep h l q] says that
    the queue [q] reaches exactly the threads of [l], in that order, through the
    [next] fields.  The operations append, take the first or the last element, and
    remove one; they change nothing but [next] fields of the threads concerned. *)

From stdpp Require Import gmap.
From S2P Require Import Prelude Ring Sched.

(** What a thread is to the scheduler, its link aside. *)
Definition core (th : thread) : thread_state * option nat * Z := (th_state th, th_process th, th_stack_base th).
Definition view (h : heap) : gmap nat (thread_state * option nat * Z) := core <$> h.

Definition first_or (l : list nat) (nx : option nat) : option nat := match l with x :: _ => Some x | [] => nx end.

Fixpoint seg (h : heap) (l : list nat) (nx : option nat) : Prop :=
  match l with
  | [] => True
  | t :: l' => (∃ th, h !! t = Some th ∧ th_next th = first_or l' nx) ∧ seg h l' nx
  end.

Definition q_rep (h : heap) (l : list nat) (q : queue) : Prop :=
  q_head q = head l ∧ q_tail q = last l ∧ seg h l None.

(** [h'] differs from [h] in [next] fields of threads of [l] only. *)
Definition relinked (l : list nat) (h h' : heap) : Prop :=
  view h' = view h ∧ ∀ x, x ∉ l → h' !! x = h !! x.

Lemma relinked_refl l h : relinked l h h.
Proof. done. Qed.
Lemma relinked_trans l1 l2 h1 h2 h3 : relinked l1 h1 h2 → relinked l2 h2 h3 → relinked (l1 ++ l2) h1 h3.
Proof.
  intros [Hv1 Hf1] [Hv2 Hf2]. split; [congruence|]. intros x Hx. rewrite Hf2, Hf1; set_solver.
Qed.
Lemma relinked_sub l1 l2 h h' : relinked l1 h h' → l1 ⊆ l2 → relinked l2 h h'.
Proof. intros [? Hf] ?. split; [done|]. intros x Hx. apply Hf. set_solver. Qed.

Lemma set_next_Some t v h th :
  h !! t = Some th → ∃ h', set_next t v h = Some h' ∧ h' = <[t := th <| th_next := v |>]> h ∧ relinked [t] h h'.
Proof.
  intros Ht. exists (<[t := th <| th_next := v |>]> h). unfold set_next. rewrite Ht. split_and!; [done..|]. split.
  - unfold view. rewrite fmap_insert. cbn. apply map_eq. intros x. destruct (decide (x = t)) as [->|].
    + by rewrite lookup_insert_eq, lookup_fmap, Ht.
    + by rewrite lookup_insert_ne by done.
  - intros x Hx. rewrite lookup_insert_ne; set_solver.
Qed.

Lemma q_seg_app h l1 l2 nx : seg h (l1 ++ l2) nx ↔ seg h l1 (first_or l2 nx) ∧ seg h l2 nx.
Proof.
  induction l1 as [|t l1 IH]; cbn [app seg]; [tauto|]. rewrite IH.
  assert (first_or (l1 ++ l2) nx = first_or l1 (first_or l2 nx)) as -> by (by destruct l1). tauto.
Qed.
Lemma seg_frame h h' l nx : seg h l nx → (∀ x, x ∈ l → h' !! x = h !! x) → seg h' l nx.
Proof.
  induction l as [|t l IH]; cbn [seg]; [done|]. intros [(th & Ht & Hn) Hl] Hf. split.
  - exists th. rewrite Hf by set_solver. done.
  - apply IH; [done|]. set_solver.
Qed.
Lemma seg_relinked m h h' l nx : seg h l nx → relinked m h h' → (∀ x, x ∈ l → x ∉ m) → seg h' l nx.
Proof. intros Hs [_ Hf] Hd. eapply seg_frame; [done|]. intros x Hx. by apply Hf, Hd. Qed.
Lemma seg_live h l nx t : seg h l nx → t ∈ l → is_Some (h !! t).
Proof.
  induction l as [|x l IH]; cbn [seg]; [set_solver|]. intros [(th & Ht & _) Hl] [->|?]%elem_of_cons; [by exists th|by apply IH].
Qed.
Lemma seg_one h t th nx : h !! t = Some th → th_next th = nx → seg h [t] nx.
Proof. intros ??. split; [by exists th|done]. Qed.

(** Relinking the last thread of a segment. *)
Lemma seg_retarget h l z th nx nx' :
  NoDup (l ++ [z]) → seg h (l ++ [z]) nx → h !! z = Some th →
  seg (<[z := th <| th_next := nx' |>]> h) (l ++ [z]) nx'.
Proof.
  intros Hnd Hs Hz. apply q_seg_app in Hs as [Hl _]. apply q_seg_app. split.
  - eapply seg_frame; [exact Hl|]. intros x Hx. rewrite lookup_insert_ne; [done|]. intros <-.
    apply NoDup_app in Hnd as (_ & Hd & _). by apply (Hd z); [|set_solver].
  - eapply seg_one; [by rewrite lookup_insert_eq|done].
Qed.

Section ops.
Implicit Types (h : heap) (q : queue) (l : list nat) (t : nat).

Lemma q_put_rep h q l t :
  q_rep h l q → NoDup (l ++ [t]) → is_Some (h !! t) →
  ∃ h' q', q_put t h q = Some (h', q') ∧ q_rep h' (l ++ [t]) q' ∧ relinked (l ++ [t]) h h'.
Proof.
  intros (Hh & Htl & Hs) Hnd [th Ht]. unfold q_put.
  destruct (set_next_Some t None h th Ht) as (h1 & E1 & Eh1 & R1). rewrite E1. cbn.
  rewrite Htl. destruct l as [|z l _] using rev_ind.
  - exists h1, (mk_queue (Some t) (Some t)). split_and!; [done| |done].
    split_and!; [done..|]. cbn [app]. eapply seg_one; [by rewrite Eh1, lookup_insert_eq|done].
  - rewrite last_snoc. assert (Hzt : z ≠ t) by (intros ->; apply NoDup_app in Hnd as (_ & Hd & _); apply (Hd t); set_solver).
    destruct (seg_live h (l ++ [z]) None z Hs ltac:(set_solver)) as [thz Hz].
    assert (Hz1 : h1 !! z = Some thz) by (by rewrite Eh1, lookup_insert_ne).
    destruct (set_next_Some z (Some t) h1 thz Hz1) as (h2 & E2 & Eh2 & R2). rewrite E2. cbn.
    eexists _, _. split_and!; [done| |].
    + split_and!; cbn.
      * rewrite Hh. by destruct l.
      * by rewrite last_snoc.
      * apply q_seg_app. split.
        -- cbn [first_or]. rewrite Eh2. eapply seg_retarget; [by apply NoDup_app in Hnd as [? _]| |done].
           eapply seg_relinked; [exact Hs|exact R1|]. apply NoDup_app in Hnd as (_ & Hd & _). exact Hd.
        -- eapply seg_one; [rewrite Eh2, lookup_insert_ne, Eh1, lookup_insert_eq by done; done|done].
    + eapply relinked_sub; [eapply relinked_trans; [exact R1|exact R2]|]. set_solver.
Qed.

Lemma q_take_nil h q : q_rep h [] q → q_take h q = Some (None, h, q).
Proof. intros (Hh & _). unfold q_take. by rewrite Hh. Qed.

Lemma q_take_rep h q l t :
  q_rep h (t :: l) q → NoDup (t :: l) →
  ∃ h' q', q_take h q = Some (Some t, h', q') ∧ q_rep h' l q' ∧ relinked [t] h h'.
Proof.
  intros (Hh & Htl & (th & Ht & Hn) & Hs) Hnd. apply NoDup_cons in Hnd as [Hni Hnd]. unfold q_take. rewrite Hh. cbn. rewrite Ht. cbn.
  destruct (set_next_Some t None h th Ht) as (h1 & E1 & Eh1 & R1). rewrite E1. cbn.
  eexists _, _. split_and!; [done| |done]. rewrite Hn. split_and!; cbn.
  - by destruct l.
  - rewrite Htl. by destruct l.
  - eapply seg_relinked; [exact Hs|exact R1|]. set_solver.
Qed.

Lemma walk_to_spec h l p z (k : nat) :
  seg h (p :: l ++ [z]) None → NoDup (p :: l ++ [z]) → (length l < k)%nat →
  walk_to k h (Some z) p = last (p :: l).
Proof.
  revert p l. induction k as [|k IH]; intros p l; [lia|]. intros [(th & Hp & Hn) Hs] Hnd Hk. cbn [walk_to]. rewrite Hp. cbn.
  destruct l as [|x l]; cbn in Hn.
  - rewrite bool_decide_eq_true_2 by done. done.
  - rewrite bool_decide_eq_false_2.
    + rewrite Hn. rewrite last_cons_cons. apply IH; [done|by apply NoDup_cons in Hnd as [_ ?]|cbn in Hk; lia].
    + rewrite Hn. intros [= ->]. apply NoDup_cons in Hnd as [_ Hnd]. cbn in Hnd. apply NoDup_cons in Hnd as [Hnd _]. set_solver.
Qed.

(** All threads of a segment are objects of the heap. *)
Lemma seg_length h l nx : seg h l nx → NoDup l → (length l ≤ size h)%nat.
Proof.
  intros Hs Hnd. rewrite <- (size_list_to_set (C := gset nat) l) by done. rewrite <- (size_dom h).
  apply subseteq_size. intros x Hx%elem_of_list_to_set. apply elem_of_dom. by eapply seg_live.
Qed.

Lemma q_steal_nil h q : q_rep h [] q → q_steal h q = Some (None, h, q).
Proof. intros (Hh & _). unfold q_steal. by rewrite Hh. Qed.

Lemma q_steal_rep h q l t :
  q_rep h (l ++ [t]) q → NoDup (l ++ [t]) →
  ∃ h' q', q_steal h q = Some (Some t, h', q') ∧ q_rep h' l q' ∧ relinked (l ++ [t]) h h'.
Proof.
  intros (Hh & Htl & Hs) Hnd. unfold q_steal. rewrite last_snoc in Htl.
  destruct (seg_live h _ _ t Hs ltac:(set_solver)) as [th Ht]. destruct l as [|p l].
  - rewrite Hh, Htl. cbn. rewrite bool_decide_eq_true_2 by done.
    destruct (set_next_Some t None h th Ht) as (h1 & E1 & Eh1 & R1). rewrite E1. cbn. eexists _, _. split_and!; [done| |done]. by repeat split.
  - rewrite Hh, Htl. cbn [head app]. rewrite bool_decide_eq_false_2.
    2:{ intros [= ->]. apply NoDup_cons in Hnd as [Hnd _]. set_solver. }
    cbn [app] in Hs, Hnd. rewrite (walk_to_spec h l p t) by (done || (apply seg_length in Hs; [|done]; cbn in Hs; rewrite length_app in Hs; lia)).
    destruct (exists_last (l := p :: l) ltac:(done)) as (l0 & y & El). rewrite El, last_snoc. cbn.
    assert (Hy : y ∈ p :: l) by (rewrite El; set_solver).
    assert (Hyt : y ≠ t) by (intros ->; change (p :: l ++ [t]) with ((p :: l) ++ [t]) in Hnd; apply NoDup_app in Hnd as (_ & Hd & _); apply (Hd t); set_solver).
    destruct (seg_live h _ _ y Hs ltac:(set_solver)) as [thy Hty].
    destruct (set_next_Some y None h thy Hty) as (h1 & E1 & Eh1 & R1). rewrite E1. cbn.
    assert (Ht1 : h1 !! t = Some th) by (by rewrite Eh1, lookup_insert_ne).
    destruct (set_next_Some t None h1 th Ht1) as (h2 & E2 & Eh2 & R2). rewrite E2. cbn.
    eexists _, _. split_and!; [done| |].
    + split_and!; [by rewrite <- El|by rewrite last_snoc|]. change (p :: l ++ [t]) with ((p :: l) ++ [t]) in Hs, Hnd.
      apply q_seg_app in Hs as [Hs _]. apply NoDup_app in Hnd as (Hnd & Hd & _).
      eapply seg_relinked; [|exact R2|rewrite <- El; exact Hd]. rewrite Eh1. rewrite El in Hs, Hnd. by eapply seg_retarget.
    + eapply relinked_sub; [eapply relinked_trans; [exact R1|exact R2]|]. set_solver.
Qed.

Lemma walk_before_spec h l1 l2 t (k : nat) :
  seg h (l1 ++ t :: l2) None → NoDup (l1 ++ t :: l2) → (length l1 < k)%nat → l1 ≠ [] →
  walk_before k h t (head (l1 ++ t :: l2)) = Some (last l1).
Proof.
  revert l1. induction k as [|k IH]; intros l1; [lia|]. intros Hs Hnd Hk Hne. destruct l1 as [|p l1]; [done|].
  destruct Hs as [(th & Hp & Hn) Hs]. cbn [head app walk_before]. rewrite Hp. cbn. cbn [app] in Hnd. apply NoDup_cons in Hnd as [Hni Hnd].
  destruct l1 as [|x l1]; cbn in Hn.
  - by rewrite bool_decide_eq_true_2.
  - rewrite bool_decide_eq_false_2.
    + rewrite Hn, last_cons_cons. apply (IH (x :: l1)); [done|done|cbn in Hk |- *; lia|done].
    + rewrite Hn. intros [= ->]. cbn in Hnd. apply NoDup_cons in Hnd as [Hnd _]. set_solver.
Qed.
Lemma walk_before_none h l t (k : nat) :
  seg h l None → t ∉ drop 1 l → (length l ≤ k)%nat → walk_before k h t (head l) = Some None.
Proof.
  revert l. induction k as [|k IH]; intros [|p l] Hs Hni Hk; try done; [cbn in Hk; lia|].
  destruct Hs as [(th & Hp & Hn) Hs]. cbn [head walk_before]. rewrite Hp. cbn. rewrite bool_decide_eq_false_2.
  - rewrite Hn. assert (first_or l None = head l) as -> by (by destruct l). apply IH; [done| |cbn in Hk; lia].
    intros Hin. apply Hni. cbn. destruct l; [done|]. cbn in Hin. set_solver.
  - rewrite Hn. destruct l as [|x l]; [done|]. intros [= ->]. apply Hni. cbn. set_solver.
Qed.

Lemma q_remove_absent h q l t :
  q_rep h l q → NoDup l → t ∉ l → q_remove t h q = Some (false, h, q).
Proof.
  intros (Hh & Htl & Hs) Hnd Hni. unfold q_remove. rewrite bool_decide_eq_false_2.
  - rewrite Hh. rewrite (walk_before_none h l); [done|done| |apply seg_length in Hs; [lia|done]].
    intros Hin. apply Hni. destruct l; [done|]. cbn in Hin. set_solver.
  - rewrite Hh. destruct l; [done|]. cbn. set_solver.
Qed.

Lemma q_remove_rep h q l1 l2 t :
  q_rep h (l1 ++ t :: l2) q → NoDup (l1 ++ t :: l2) →
  ∃ h' q', q_remove t h q = Some (true, h', q') ∧ q_rep h' (l1 ++ l2) q' ∧ relinked (l1 ++ [t]) h h'.
Proof.
  intros (Hh & Htl & Hs) Hnd. unfold q_remove.
  destruct (seg_live h _ _ t Hs ltac:(set_solver)) as [th Ht].
  assert (Hlt : q_tail q = Some t ↔ l2 = []).
  { rewrite Htl. destruct l2 as [|z l2 _] using rev_ind; [by rewrite last_snoc|]. split; [|by intros [_ ?]%app_nil].
    rewrite (app_assoc l1 (t :: l2) [z] : l1 ++ t :: l2 ++ [z] = _), last_snoc. intros [= ->].
    apply NoDup_app in Hnd as (_ & _ & Hnd). apply NoDup_cons in Hnd as [Hnd _]. set_solver. }
  pose proof (proj1 (q_seg_app h l1 (t :: l2) None) Hs) as [Hs1 [(th' & Ht' & Hn) Hs2]]. rewrite Ht in Ht'. injection Ht' as <-.
  destruct l1 as [|p l1].
  - rewrite bool_decide_eq_true_2 by (by rewrite Hh). rewrite Ht. cbn.
    destruct (set_next_Some t None h th Ht) as (h1 & E1 & Eh1 & R1). rewrite E1. cbn. eexists _, _. split_and!; [done| |done].
    split_and!; cbn.
    + rewrite Hn. by destruct l2.
    + destruct l2 as [|z l2]; [by rewrite bool_decide_eq_true_2 by tauto|].
      rewrite bool_decide_eq_false_2 by (rewrite Hlt; done). rewrite Htl. done.
    + eapply seg_relinked; [exact Hs2|exact R1|]. apply NoDup_cons in Hnd as [Hnd _]. set_solver.
  - rewrite bool_decide_eq_false_2.
    2:{ rewrite Hh. cbn. intros [= ->]. cbn in Hnd. apply NoDup_cons in Hnd as [Hnd _]. set_solver. }
    rewrite Hh. rewrite (walk_before_spec h (p :: l1) l2 t) by (done || (apply seg_length in Hs; [|done]; rewrite length_app in Hs; cbn in *; lia)).
    cbn [mbind option_bind]. destruct (exists_last (l := p :: l1) ltac:(done)) as (l0 & y & El). rewrite El, last_snoc.
    rewrite Ht. cbn. rewrite El in Hs, Hnd, Hs1. rewrite <- app_assoc in Hnd.
    assert (Hyt : y ≠ t) by (intros ->; apply NoDup_app in Hnd as (_ & _ & Hnd); cbn in Hnd; apply NoDup_cons in Hnd as [Hnd _]; set_solver).
    destruct (seg_live h _ _ y Hs1 ltac:(set_solver)) as [thy Hty].
    destruct (set_next_Some y (th_next th) h thy Hty) as (h1 & E1 & Eh1 & R1). rewrite E1. cbn.
    assert (Ht1 : h1 !! t = Some th) by (by rewrite Eh1, lookup_insert_ne).
    destruct (set_next_Some t None h1 th Ht1) as (h2 & E2 & Eh2 & R2). rewrite E2. cbn.
    eexists _, _. split_and!; [done| |].
    + rewrite app_assoc in Hnd. pose proof Hnd as (Hnd1 & Hd & Hnd2)%NoDup_app. apply NoDup_cons in Hnd2 as [Hni Hnd2].
      split_and!.
      * assert (q_head q = head (l0 ++ [y])) as Hq by (rewrite Hh, El; by destruct l0).
        destruct (bool_decide (q_tail q = Some t)); cbn; rewrite Hq; by destruct l0.
      * destruct l2 as [|z l2].
        -- rewrite bool_decide_eq_true_2 by tauto. cbn. by rewrite app_nil_r, last_snoc.
        -- rewrite bool_decide_eq_false_2 by (rewrite Hlt; done). rewrite Htl, El. rewrite !last_app. cbn.
           done.
      * apply q_seg_app. split.
        -- eapply seg_relinked; [|exact R2|intros x Hx; specialize (Hd x Hx); set_solver]. rewrite Eh1, Hn. by eapply seg_retarget.
        -- eapply seg_relinked; [|exact R2|set_solver]. eapply seg_relinked; [exact Hs2|exact R1|].
           intros x Hx Hxy. assert (x = y) as -> by set_solver. apply (Hd y); set_solver.
    + eapply relinked_sub; [eapply relinked_trans; [exact R1|exact R2]|]. set_solver.
Qed.
End ops.
