(* ===== verification/SchedRep.v ===== *)
(** * SchedRep: the scheduler on lists

    [Rep s A] relates a state of [Sched] to its abstraction [A]: the threads without
    their links, one list per run queue (the shared one first, then one per
    processor), the list of dead threads, and the stacks and processes.  Each
    function of the scheduler is shown to be defined on represented states and to
    act on the lists as it should. *)

From stdpp Require Import gmap.
From S2P Require Import Prelude Ring Sched SchedQueue.

Abbreviation cthread := (thread_state * option nat * Z)%type.

Record asched := mk_asched {
  a_th : gmap nat cthread;
  a_qs : list (list nat);
  a_dl : list nat;
  a_st : gset Z;
  a_pr : gmap nat process
}.
#[export] Instance asched_eta : Eta asched := λ a, mk_asched (a_th a) (a_qs a) (a_dl a) (a_st a) (a_pr a).

(** All threads that are linked somewhere. *)
Definition linked (A : asched) : list nat := concat (a_qs A) ++ a_dl A.

Definition all_queues (s : sched) : list queue := ready s :: (pc_rq <$> cpus s).

Record Rep (s : sched) (A : asched) : Prop := {
  rep_view : view (threads s) = a_th A;
  rep_qs : Forall2 (q_rep (threads s)) (a_qs A) (all_queues s);
  rep_dead : dead_head s = head (a_dl A);
  rep_dl : seg (threads s) (a_dl A) None;
  rep_nodup : NoDup (linked A);
  rep_st : stacks s = a_st A;
  rep_pr : procs s = a_pr A
}.

(** The part of the state that the abstraction does not have. *)
Definition no_rq (pc : percpu) : percpu := pc <| pc_rq := mk_queue None None |>.
Definition frame (s : sched) : sched :=
  mk_sched ∅ ∅ ∅ (mk_queue None None) None (bsp_current s) (bsp_idle s) (smp_active s) (no_rq <$> cpus s) (kernel_pml4 s)
    (flush_counter s) (proc_table s) (next_pid s) (next_tid s) (procfs_calls s).

Definition kst (v : thread_state) (x : cthread) : cthread := (v, x.1.2, x.2).

(** ** Lists of queues *)

Lemma concat_split {X} (qs : list (list X)) k l :
  qs !! k = Some l → ∃ r, concat qs ≡ₚ l ++ r ∧ ∀ l', concat (<[k := l']> qs) ≡ₚ l' ++ r.
Proof.
  intros Hk. exists (concat (take k qs) ++ concat (drop (S k) qs)).
  assert (Hgen : ∀ l', l' ++ concat (take k qs) ++ concat (drop (S k) qs) ≡ₚ concat (take k qs ++ l' :: drop (S k) qs)).
  { intros l'. rewrite concat_app. cbn. rewrite !(assoc_L (++)). f_equiv. apply Permutation_app_comm. }
  split.
  - rewrite Hgen. by rewrite take_drop_middle.
  - intros l'. rewrite Hgen. rewrite insert_take_drop by (by eapply lookup_lt_Some). done.
Qed.

Lemma perm_mid {X} (l1 l2 r d : list X) t : ((l1 ++ t :: l2) ++ r) ++ d ≡ₚ t :: ((l1 ++ l2) ++ r) ++ d.
Proof. rewrite <- !app_assoc. cbn. symmetry. apply Permutation_middle. Qed.

Lemma elem_of_queues {X} (qs : list (list X)) k l x : qs !! k = Some l → x ∈ l → x ∈ concat qs.
Proof. intros Hk Hx. destruct (concat_split qs k l Hk) as (r & -> & _). set_solver. Qed.
Lemma queues_elem_of {X} (qs : list (list X)) x : x ∈ concat qs → ∃ k l, qs !! k = Some l ∧ x ∈ l.
Proof.
  induction qs as [|l qs IH]; cbn; [set_solver|]. intros [?|(k & l' & ? & ?)%IH]%elem_of_app; [by exists O, l|by exists (S k), l'].
Qed.

Definition put_at (k : nat) (t : nat) (s : sched) : option sched :=
  match k with O => enqueue t s | S c => local_enqueue c t s end.
Definition take_at (k : nat) (s : sched) : option (option nat * sched) :=
  match k with O => dequeue s | S c => local_dequeue c s end.
(** Storing the queue [q] with the index [k] and the heap [h]. *)
Definition store_q (k : nat) (h : heap) (q : queue) (s : sched) : sched :=
  match k with
  | O => s <| threads := h |> <| ready := q |>
  | S c => set_cpu c (λ pc, pc <| pc_rq := q |>) (s <| threads := h |>)
  end.

Lemma no_rq_fmap_alter (c : nat) f (l : list percpu) : (∀ pc, no_rq (f pc) = no_rq pc) → no_rq <$> alter f c l = no_rq <$> l.
Proof.
  intros Hf. apply list_eq. intros i. rewrite !list_lookup_fmap. destruct (decide (i = c)) as [->|].
  - rewrite list_lookup_alter_eq. destruct (l !! c); [|done]. cbn. by rewrite Hf.
  - by rewrite list_lookup_alter_ne.
Qed.
Lemma frame_store_q k h q s : frame (store_q k h q s) = frame s.
Proof. destruct k; [done|]. unfold frame, store_q, set_cpu. cbn. by rewrite no_rq_fmap_alter. Qed.
Lemma frame_cpus s s' : frame s' = frame s → no_rq <$> cpus s' = no_rq <$> cpus s.
Proof. intros H. by injection H. Qed.
Lemma frame_threads h s : frame (s <| threads := h |>) = frame s.
Proof. done. Qed.

Lemma all_queues_store k h q s :
  (k < length (all_queues s))%nat → all_queues (store_q k h q s) = <[k := q]> (all_queues s).
Proof.
  intros Hk. destruct k as [|c]; [done|]. transitivity (ready s :: <[c := q]> (pc_rq <$> cpus s)); [|done].
  transitivity (ready s :: (pc_rq <$> alter (λ pc, pc <| pc_rq := q |>) c (cpus s))); [done|]. f_equal.
  apply list_eq. intros i. rewrite list_lookup_fmap. destruct (decide (i = c)) as [->|].
  - rewrite list_lookup_alter_eq. cbn in Hk. rewrite length_fmap in Hk. destruct (lookup_lt_is_Some_2 (cpus s) c ltac:(lia)) as [pc Hpc].
    rewrite Hpc, list_lookup_insert_eq; [done|]. rewrite length_fmap. lia.
  - rewrite list_lookup_alter_ne, list_lookup_insert_ne by done. by rewrite list_lookup_fmap.
Qed.
Lemma threads_store k h q s : threads (store_q k h q s) = h.
Proof. by destruct k. Qed.
Lemma stacks_store k h q s : stacks (store_q k h q s) = stacks s.
Proof. by destruct k. Qed.
Lemma procs_store k h q s : procs (store_q k h q s) = procs s.
Proof. by destruct k. Qed.
Lemma dead_store k h q s : dead_head (store_q k h q s) = dead_head s.
Proof. by destruct k. Qed.

(** Replacing one queue, when the heap was relinked inside of [m] only. *)
Lemma rep_store s A k l l' h q q' m :
  Rep s A → a_qs A !! k = Some l → all_queues s !! k = Some q →
  q_rep h l' q' → relinked m (threads s) h → (∀ x, x ∈ m → x ∈ l ∨ x ∉ linked A) →
  NoDup (linked (A <| a_qs := <[k := l']> (a_qs A) |>)) →
  Rep (store_q k h q' s) (A <| a_qs := <[k := l']> (a_qs A) |>).
Proof.
  intros HR Hl Hq Hr Hm Hd Hnd. pose proof (rep_nodup _ _ HR) as Hnd0. unfold linked in Hnd0.
  destruct (concat_split _ _ _ Hl) as (r & Hp & _). rewrite Hp in Hnd0.
  apply NoDup_app in Hnd0 as (Hnd1 & Hlr & Hnd2). apply NoDup_app in Hnd1 as (_ & Hlr2 & _).
  split; cbn.
  - rewrite threads_store, (proj1 Hm). apply HR.
  - rewrite all_queues_store by (by eapply lookup_lt_Some). rewrite threads_store.
    apply Forall2_same_length_lookup_2.
    { rewrite !length_insert. eapply Forall2_length, HR. }
    intros i li qi Hli Hqi. destruct (decide (i = k)) as [->|Hik].
    + rewrite list_lookup_insert_eq in Hli by (by eapply lookup_lt_Some). rewrite list_lookup_insert_eq in Hqi by (by eapply lookup_lt_Some).
      by simplify_eq.
    + rewrite list_lookup_insert_ne in Hli by done. rewrite list_lookup_insert_ne in Hqi by done. pose proof (rep_qs _ _ HR) as HF.
      destruct (Forall2_lookup_l _ _ _ _ _ HF Hli) as (qi' & Hqi' & Hh & Ht & Hs). simplify_eq.
      split_and!; [done..|]. eapply seg_relinked; [done|done|]. intros x Hx Hxm. destruct (Hd x Hxm) as [Hxl|Hxl].
      * pose proof (rep_nodup _ _ HR) as Hnd0. unfold linked in Hnd0. apply NoDup_app in Hnd0 as (Hnd0 & _ & _).
        destruct (concat_split (<[k := []]> (a_qs A)) i li) as (r' & Hp' & _); [by rewrite list_lookup_insert_ne|].
        destruct (concat_split _ _ _ Hl) as (r2 & Hp2 & Hi2). rewrite (Hi2 []) in Hp'. cbn in Hp'. rewrite Hp2, Hp' in Hnd0.
        apply NoDup_app in Hnd0 as (_ & Hdis & _). apply (Hdis x); set_solver.
      * apply Hxl. unfold linked. apply elem_of_app. left. by eapply elem_of_queues.
  - rewrite dead_store. apply HR.
  - rewrite threads_store. eapply seg_relinked; [apply HR|done|]. intros x Hx Hxm. destruct (Hd x Hxm) as [Hxl|Hxl].
    + apply (Hlr x); set_solver.
    + apply Hxl. unfold linked. set_solver.
  - done.
  - rewrite stacks_store. apply HR.
  - rewrite procs_store. apply HR.
Qed.

Lemma rep_queue s A k l : Rep s A → a_qs A !! k = Some l → ∃ q, all_queues s !! k = Some q ∧ q_rep (threads s) l q ∧ NoDup l.
Proof.
  intros HR Hl. destruct (Forall2_lookup_l _ _ _ _ _ (rep_qs _ _ HR) Hl) as (q & Hq & Hr). exists q. split_and!; [done..|].
  pose proof (rep_nodup _ _ HR) as Hnd. unfold linked in Hnd. destruct (concat_split _ _ _ Hl) as (r & Hp & _). rewrite Hp in Hnd.
  by apply NoDup_app in Hnd as ((? & _)%NoDup_app & _).
Qed.
Lemma all_queues_cpu s c q : all_queues s !! S c = Some q → ∃ pc, cpus s !! c = Some pc ∧ pc_rq pc = q.
Proof. change (all_queues s !! S c) with ((pc_rq <$> cpus s) !! c). rewrite list_lookup_fmap. destruct (cpus s !! c) as [pc|]; [|done]. intros [= <-]. by exists pc. Qed.

Lemma rep_live s A t : Rep s A → is_Some (a_th A !! t) ↔ is_Some (threads s !! t).
Proof. intros HR. rewrite <- (rep_view _ _ HR). unfold view. rewrite lookup_fmap. by rewrite fmap_is_Some. Qed.
Lemma rep_thread s A t x : Rep s A → a_th A !! t = Some x → ∃ th, threads s !! t = Some th ∧ core th = x.
Proof.
  intros HR. rewrite <- (rep_view _ _ HR). unfold view. rewrite lookup_fmap. destruct (threads s !! t) as [th|]; [|done].
  intros [= <-]. by exists th.
Qed.

(** ** The queue operations *)

Lemma put_at_rep s A k l t :
  Rep s A → a_qs A !! k = Some l → is_Some (a_th A !! t) → t ∉ linked A →
  ∃ s', put_at k t s = Some s' ∧ Rep s' (A <| a_qs := <[k := l ++ [t]]> (a_qs A) |>) ∧ frame s' = frame s.
Proof.
  intros HR Hl Ht Hni. destruct (rep_queue _ _ _ _ HR Hl) as (q & Hq & Hr & Hnd). apply (rep_live s) in Ht; [|done].
  assert (Hnt : t ∉ l) by (intros ?; apply Hni; unfold linked; apply elem_of_app; left; by eapply elem_of_queues).
  destruct (q_put_rep (threads s) q l t Hr) as (h' & q' & E & Hr' & Hm); [apply NoDup_app; split_and!; [done|set_solver|apply NoDup_singleton]|done|].
  exists (store_q k h' q' s). split_and!.
  - destruct k as [|c]; cbn [put_at store_q]; unfold enqueue, local_enqueue.
    + injection Hq as ->. by rewrite E.
    + apply all_queues_cpu in Hq as (pc & Hpc & Hpq). rewrite Hpc. cbn. by rewrite Hpq, E.
  - eapply rep_store; [done..| |]; [set_solver|]. unfold linked. cbn.
    destruct (concat_split _ _ _ Hl) as (r & Hp & Hi). rewrite (Hi (l ++ [t])). pose proof (rep_nodup _ _ HR) as Hn. unfold linked in Hn, Hni. rewrite Hp in Hn, Hni.
    apply (NoDup_cons_2 t) in Hn; [|done]. rewrite <- (app_nil_r l) in Hn. by rewrite <- perm_mid in Hn.
  - apply frame_store_q.
Qed.

Lemma queues_id A k l : a_qs A !! k = Some l → A <| a_qs := <[k := l]> (a_qs A) |> = A.
Proof. intros Hl. destruct A as [th qs dl st pr]. cbn in *. unfold field_upd. cbn. by rewrite list_insert_id. Qed.

Lemma take_at_nil s A k :
  Rep s A → a_qs A !! k = Some [] → ∃ s', take_at k s = Some (None, s') ∧ Rep s' A ∧ frame s' = frame s.
Proof.
  intros HR Hl. destruct (rep_queue _ _ _ _ HR Hl) as (q & Hq & Hr & Hnd). pose proof (q_take_nil _ _ Hr) as E.
  exists (store_q k (threads s) q s). split_and!.
  - destruct k as [|c]; cbn [take_at store_q]; unfold dequeue, local_dequeue.
    + injection Hq as ->. by rewrite E.
    + apply all_queues_cpu in Hq as (pc & Hpc & Hpq). rewrite Hpc. cbn. by rewrite Hpq, E.
  - rewrite <- (queues_id _ _ _ Hl). eapply (rep_store _ _ _ _ _ _ _ _ []); [done..|apply relinked_refl|set_solver|].
    rewrite (queues_id _ _ _ Hl). apply HR.
  - apply frame_store_q.
Qed.

Lemma take_at_rep s A k t l :
  Rep s A → a_qs A !! k = Some (t :: l) →
  ∃ s', take_at k s = Some (Some t, s') ∧ Rep s' (A <| a_qs := <[k := l]> (a_qs A) |>) ∧ frame s' = frame s.
Proof.
  intros HR Hl. destruct (rep_queue _ _ _ _ HR Hl) as (q & Hq & Hr & Hnd).
  destruct (q_take_rep _ _ _ _ Hr Hnd) as (h' & q' & E & Hr' & Hm). exists (store_q k h' q' s). split_and!.
  - destruct k as [|c]; cbn [take_at store_q]; unfold dequeue, local_dequeue.
    + injection Hq as ->. by rewrite E.
    + apply all_queues_cpu in Hq as (pc & Hpc & Hpq). rewrite Hpc. cbn. by rewrite Hpq, E.
  - eapply rep_store; [done..|set_solver|]. unfold linked. cbn. destruct (concat_split _ _ _ Hl) as (r & Hp & Hi). rewrite (Hi l).
    pose proof (rep_nodup _ _ HR) as Hn. unfold linked in Hn. rewrite Hp in Hn. cbn in Hn. by apply NoDup_cons in Hn as [_ ?].
  - apply frame_store_q.
Qed.

Lemma steal_nil s A c :
  Rep s A → a_qs A !! S c = Some [] → ∃ s', steal_from_tail c s = Some (None, s') ∧ Rep s' A ∧ frame s' = frame s.
Proof.
  intros HR Hl. destruct (rep_queue _ _ _ _ HR Hl) as (q & Hq & Hr & Hnd). pose proof (q_steal_nil _ _ Hr) as E.
  exists (store_q (S c) (threads s) q s). split_and!.
  - cbn [store_q]. unfold steal_from_tail. apply all_queues_cpu in Hq as (pc & Hpc & Hpq). rewrite Hpc. cbn. by rewrite Hpq, E.
  - rewrite <- (queues_id _ _ _ Hl). eapply (rep_store _ _ _ _ _ _ _ _ []); [done..|apply relinked_refl|set_solver|].
    rewrite (queues_id _ _ _ Hl). apply HR.
  - apply frame_store_q.
Qed.

Lemma steal_rep s A c t l :
  Rep s A → a_qs A !! S c = Some (l ++ [t]) →
  ∃ s', steal_from_tail c s = Some (Some t, s') ∧ Rep s' (A <| a_qs := <[S c := l]> (a_qs A) |>) ∧ frame s' = frame s.
Proof.
  intros HR Hl. destruct (rep_queue _ _ _ _ HR Hl) as (q & Hq & Hr & Hnd).
  destruct (q_steal_rep _ _ _ _ Hr Hnd) as (h' & q' & E & Hr' & Hm). exists (store_q (S c) h' q' s). split_and!.
  - cbn [store_q]. unfold steal_from_tail. apply all_queues_cpu in Hq as (pc & Hpc & Hpq). rewrite Hpc. cbn. by rewrite Hpq, E.
  - eapply rep_store; [done..|set_solver|]. unfold linked. cbn. destruct (concat_split _ _ _ Hl) as (r & Hp & Hi). rewrite (Hi l).
    pose proof (rep_nodup _ _ HR) as Hn. unfold linked in Hn. rewrite Hp in Hn.
    rewrite perm_mid, app_nil_r in Hn. by apply NoDup_cons in Hn as [_ ?].
  - apply frame_store_q.
Qed.

Definition remove_at (k : nat) (t : nat) (s : sched) : option (bool * sched) :=
  match k with
  | O => '(b, h, q) ← q_remove t (threads s) (ready s); Some (b, s <| threads := h |> <| ready := q |>)
  | S c => local_remove c t s
  end.

Lemma remove_at_absent s A k l t :
  Rep s A → a_qs A !! k = Some l → t ∉ l → ∃ s', remove_at k t s = Some (false, s') ∧ Rep s' A ∧ frame s' = frame s.
Proof.
  intros HR Hl Hni. destruct (rep_queue _ _ _ _ HR Hl) as (q & Hq & Hr & Hnd). pose proof (q_remove_absent _ _ _ _ Hr Hnd Hni) as E.
  exists (store_q k (threads s) q s). split_and!.
  - destruct k as [|c]; cbn [remove_at store_q]; unfold local_remove.
    + injection Hq as ->. by rewrite E.
    + apply all_queues_cpu in Hq as (pc & Hpc & Hpq). rewrite Hpc. cbn. by rewrite Hpq, E.
  - rewrite <- (queues_id _ _ _ Hl). eapply (rep_store _ _ _ _ _ _ _ _ []); [done..|apply relinked_refl|set_solver|].
    rewrite (queues_id _ _ _ Hl). apply HR.
  - apply frame_store_q.
Qed.

Lemma remove_at_rep s A k l1 l2 t :
  Rep s A → a_qs A !! k = Some (l1 ++ t :: l2) →
  ∃ s', remove_at k t s = Some (true, s') ∧ Rep s' (A <| a_qs := <[k := l1 ++ l2]> (a_qs A) |>) ∧ frame s' = frame s.
Proof.
  intros HR Hl. destruct (rep_queue _ _ _ _ HR Hl) as (q & Hq & Hr & Hnd).
  destruct (q_remove_rep _ _ _ _ _ Hr Hnd) as (h' & q' & E & Hr' & Hm). exists (store_q k h' q' s). split_and!.
  - destruct k as [|c]; cbn [remove_at store_q]; unfold local_remove.
    + injection Hq as ->. by rewrite E.
    + apply all_queues_cpu in Hq as (pc & Hpc & Hpq). rewrite Hpc. cbn. by rewrite Hpq, E.
  - eapply rep_store; [done..|set_solver|]. unfold linked. cbn. destruct (concat_split _ _ _ Hl) as (r & Hp & Hi). rewrite (Hi _).
    pose proof (rep_nodup _ _ HR) as Hn. unfold linked in Hn. rewrite Hp in Hn.
    rewrite perm_mid in Hn. by apply NoDup_cons in Hn as [_ ?].
  - apply frame_store_q.
Qed.

(** ** Threads and the dead list *)

Lemma set_thread_rep s A t x f :
  Rep s A → a_th A !! t = Some x → (∀ th, th_next (f th) = th_next th) →
  ∃ s' th, threads s !! t = Some th ∧ core th = x ∧ set_thread t f s = Some s' ∧
    Rep s' (A <| a_th := <[t := core (f th)]> (a_th A) |>) ∧ frame s' = frame s.
Proof.
  intros HR Hx Hf. destruct (rep_thread _ _ _ _ HR Hx) as (th & Ht & Hc).
  exists (s <| threads := <[t := f th]> (threads s) |>), th. unfold set_thread. rewrite Ht. split_and!; [done..| |done].
  assert (Hseg : ∀ l nx, seg (threads s) l nx → seg (<[t := f th]> (threads s)) l nx).
  { induction l as [|y l IH]; intros nx; cbn [seg]; [done|]. intros [(thy & Hy & Hn) Hl]. split; [|by apply IH].
    destruct (decide (y = t)) as [->|]; [|exists thy; by rewrite lookup_insert_ne].
    exists (f th). rewrite lookup_insert_eq, Hf. by simplify_eq. }
  split; cbn; [|eapply Forall2_impl; [apply HR|]|apply HR|apply Hseg, HR|apply HR|apply HR|apply HR].
  - unfold view. rewrite fmap_insert. f_equal. apply HR.
  - intros l q (? & ? & ?). split_and!; [done..|]. by apply Hseg.
Qed.

Lemma threads_id A t x : a_th A !! t = Some x → A <| a_th := <[t := x]> (a_th A) |> = A.
Proof. intros Hx. destruct A as [th qs dl st pr]. cbn in *. unfold field_upd. cbn. by rewrite insert_id. Qed.

(** An assignment that the abstraction does not see. *)
Lemma set_thread_hidden s A t x f :
  Rep s A → a_th A !! t = Some x → (∀ th, th_next (f th) = th_next th ∧ core (f th) = core th) →
  ∃ s', set_thread t f s = Some s' ∧ Rep s' A ∧ frame s' = frame s.
Proof.
  intros HR Hx Hf. destruct (set_thread_rep s A t x f HR Hx) as (s' & th & _ & Hc & E & HR' & F); [intros th; apply Hf|].
  exists s'. split_and!; [done| |done]. rewrite (proj2 (Hf th)), Hc, threads_id in HR' by done. done.
Qed.

Lemma set_state_rep s A t x v :
  Rep s A → a_th A !! t = Some x →
  ∃ s', set_state v t s = Some s' ∧ Rep s' (A <| a_th := <[t := kst v x]> (a_th A) |>) ∧ frame s' = frame s.
Proof.
  intros HR Hx. destruct (set_thread_rep s A t x (λ th, th <| th_state := v |>) HR Hx) as (s' & th & _ & <- & E & HR' & F); [done|].
  by exists s'.
Qed.

Lemma state_of_rep s A t x : Rep s A → a_th A !! t = Some x → state_of t s = Some x.1.1.
Proof. intros HR Hx. destruct (rep_thread _ _ _ _ HR Hx) as (th & Ht & <-). unfold state_of. by rewrite Ht. Qed.

Lemma rep_relink s A h m :
  Rep s A → relinked m (threads s) h → (∀ x, x ∈ m → x ∉ linked A) →
  Forall2 (q_rep h) (a_qs A) (all_queues s) ∧ seg h (a_dl A) None.
Proof.
  intros HR Hm Hd. split.
  - pose proof (rep_qs _ _ HR) as HF. apply Forall2_same_length_lookup_2; [by eapply Forall2_length|].
    intros i l q Hl Hq. destruct (Forall2_lookup_lr _ _ _ _ _ _ HF Hl Hq) as (? & ? & Hs). split_and!; [done..|].
    eapply seg_relinked; [done|done|]. intros x Hx Hxm. apply (Hd x Hxm). unfold linked. apply elem_of_app. left. by eapply elem_of_queues.
  - eapply seg_relinked; [apply HR|done|]. intros x Hx Hxm. apply (Hd x Hxm). unfold linked. set_solver.
Qed.

Lemma link_dead_rep s A t :
  Rep s A → is_Some (a_th A !! t) → t ∉ linked A →
  ∃ s', link_dead t s = Some s' ∧ Rep s' (A <| a_dl := t :: a_dl A |>) ∧ frame s' = frame s.
Proof.
  intros HR Ht Hni. apply (rep_live s) in Ht as [th Ht]; [|done].
  destruct (set_next_Some t (dead_head s) (threads s) th Ht) as (h' & _ & Eh & Hm).
  destruct (rep_relink _ _ _ _ HR Hm) as [HF Hdl]; [set_solver|].
  exists (s <| threads := h' |> <| dead_head := Some t |>). split_and!; [|split|].
  - unfold link_dead, set_thread. rewrite Ht. cbn. by rewrite Eh.
  - transitivity (view (threads s)); [apply Hm|apply HR].
  - exact HF.
  - done.
  - split; [|exact Hdl]. exists (th <| th_next := dead_head s |>). rewrite Eh. cbn. rewrite lookup_insert_eq. split; [done|].
    rewrite (rep_dead _ _ HR). by destruct (a_dl A).
  - unfold linked. cbn. rewrite <- Permutation_middle. apply NoDup_cons. split; [done|apply HR].
  - apply HR.
  - apply HR.
  - done.
Qed.

(** Every stack belongs to one thread and is allocated. *)
Definition stacks_ok (A : asched) : Prop :=
  (∀ t x, a_th A !! t = Some x → x.2 ≠ 0 → x.2 ∈ a_st A) ∧
  (∀ t1 t2 x1 x2, a_th A !! t1 = Some x1 → a_th A !! t2 = Some x2 → x1.2 = x2.2 → x1.2 ≠ 0 → t1 = t2).

Lemma stacks_ok_sub A B :
  stacks_ok A → a_st B = a_st A → (∀ t x, a_th B !! t = Some x → ∃ y, a_th A !! t = Some y ∧ y.2 = x.2) → stacks_ok B.
Proof.
  intros [H1 H2] Es Hs. split.
  - intros t x (y & Hy & <-)%Hs Hne. rewrite Es. by eapply H1.
  - intros t1 t2 x1 x2 (y1 & Hy1 & <-)%Hs (y2 & Hy2 & <-)%Hs. by eapply H2.
Qed.

Definition without (dl : list nat) (m : gmap nat cthread) : gmap nat cthread := filter (λ x, x.1 ∉ dl) m.

Lemma reap_loop_rep fuel s A :
  Rep s A → stacks_ok A → (length (a_dl A) ≤ fuel)%nat →
  ∃ s' st', reap_loop fuel s = Some s' ∧ frame s' = frame s ∧
    Rep s' (mk_asched (without (a_dl A) (a_th A)) (a_qs A) [] st' (a_pr A)) ∧
    stacks_ok (mk_asched (without (a_dl A) (a_th A)) (a_qs A) [] st' (a_pr A)).
Proof.
  revert s A. induction fuel as [|fuel IH]; intros s A HR Hst Hf.
  all: pose proof (rep_dead _ _ HR) as Hd; pose proof (rep_dl _ _ HR) as Hs; cbn [reap_loop].
  all: destruct (a_dl A) as [|t dl] eqn:Edl; cbn in Hf; try lia; rewrite Hd; cbn [head].
  1, 2: exists s, (a_st A); assert (without [] (a_th A) = a_th A) as -> by (apply map_filter_id; set_solver);
        destruct A as [th qs dl st pr]; cbn in *; subst dl; done.
  destruct Hs as [(th & Ht & Hn) Hs]. rewrite Ht. cbn [mbind option_bind].
  assert (Hx : a_th A !! t = Some (core th)) by (rewrite <- (rep_view _ _ HR); unfold view; by rewrite lookup_fmap, Ht).
  set (st1 := if th_stack_base th =? 0 then a_st A else a_st A ∖ {[th_stack_base th]}).
  set (s1 := s <| dead_head := th_next th |> <| stacks := st1 |> <| threads := delete t (threads s) |>).
  set (A1 := mk_asched (delete t (a_th A)) (a_qs A) dl st1 (a_pr A)).
  pose proof (rep_nodup _ _ HR) as Hnd. unfold linked in Hnd. rewrite Edl, <- Permutation_middle in Hnd. apply NoDup_cons in Hnd as [Hni Hnd].
  assert (Hseg : ∀ l nx, seg (threads s) l nx → t ∉ l → seg (delete t (threads s)) l nx).
  { intros l nx Hl Htl. eapply seg_frame; [exact Hl|]. intros x Hx'. rewrite lookup_delete_ne; [done|]. by intros ->. }
  assert (HR1 : Rep s1 A1).
  { split; try done.
    - cbn. unfold view. rewrite fmap_delete. f_equal. apply HR.
    - pose proof (rep_qs _ _ HR) as HF. apply Forall2_same_length_lookup_2; [by eapply Forall2_length in HF|].
      intros i l q Hl Hq. destruct (Forall2_lookup_lr _ _ _ _ _ _ HF Hl Hq) as (? & ? & ?). split_and!; [done..|].
      apply Hseg; [done|]. intros ?. apply Hni. apply elem_of_app. left. by eapply elem_of_queues.
    - cbn. apply Hseg; [done|]. set_solver.
    - cbn. by rewrite (rep_pr _ _ HR). }
  assert (Hst1 : stacks_ok A1).
  { destruct Hst as [H1 H2]. split; cbn.
    - intros y x [Hyt Hy]%lookup_delete_Some Hne. specialize (H1 _ _ Hy Hne). unfold st1. case_match eqn:E0; [done|].
      apply elem_of_difference. split; [done|]. rewrite elem_of_singleton. intros Heq. apply Hyt. symmetry.
      by apply (H2 y t x (core th)).
    - intros y1 y2 x1 x2 [_ Hy1]%lookup_delete_Some [_ Hy2]%lookup_delete_Some. by eapply H2. }
  destruct (IH s1 A1 HR1 Hst1 ltac:(cbn; lia)) as (s' & st' & E & F & HR' & Hst').
  assert (Ew : without dl (delete t (a_th A)) = without (t :: dl) (a_th A)).
  { apply map_eq. intros x. apply option_eq. intros v. unfold without. rewrite !map_lookup_filter_Some, lookup_delete_Some. cbn. set_solver. }
  exists s', st'. cbn in HR', Hst'. rewrite Ew in HR', Hst'. split_and!; [|done..].
  rewrite <- E. unfold free_stack, s1, st1. destruct (th_stack_base th =? 0) eqn:E0; cbn [mbind option_bind].
  - f_equal. rewrite <- (rep_st _ _ HR). by destruct s.
  - rewrite bool_decide_eq_true_2; [|cbn; rewrite (rep_st _ _ HR); apply (proj1 Hst t (core th)); [done|cbn; lia]].
    cbn [mbind option_bind]. f_equal. by rewrite <- (rep_st _ _ HR).
Qed.

Lemma reap_dead_rep s A :
  Rep s A → stacks_ok A →
  ∃ s' st', reap_dead s = Some s' ∧ frame s' = frame s ∧
    Rep s' (mk_asched (without (a_dl A) (a_th A)) (a_qs A) [] st' (a_pr A)) ∧
    stacks_ok (mk_asched (without (a_dl A) (a_th A)) (a_qs A) [] st' (a_pr A)).
Proof.
  intros HR Hst. apply reap_loop_rep; [done..|]. eapply seg_length; [apply HR|].
  pose proof (rep_nodup _ _ HR) as Hnd. by apply NoDup_app in Hnd as (_ & _ & ?).
Qed.
