(* ===== verification/SchedInv.v ===== *)
(** * SchedInv: the invariant of the scheduler

    What holds between two operations: a thread is ready exactly when it is in one
    run queue (the idle threads aside), it runs on at most one processor, dead
    threads are not referred to any more, and every pointer that the scheduler
    follows is valid. *)

From stdpp Require Import gmap.
From S2P Require Import Prelude Ring Sched SchedQueue SchedRep.

(** ** What the processors run *)

Definition slot_of (pc : percpu) : option (nat * nat) := c ← pc_current pc; i ← pc_idle pc; Some (c, i).
(** The current and the idle thread of every processor. *)
Definition slots (s : sched) : list (option (nat * nat)) :=
  if smp_active s then slot_of <$> cpus s else [c ← bsp_current s; i ← bsp_idle s; Some (c, i)].
Definition currents (s : sched) : list nat := omap (fmap fst) (slots s).
Definition idles (s : sched) : list nat := omap (fmap snd) (slots s).

(** The part of the state that says who runs where. *)
Definition ctl (s : sched) : bool * list (option (nat * nat)) * nat * list bool :=
  (smp_active s, slots s, length (cpus s), pc_started <$> cpus s).

Lemma slot_of_no_rq pc : slot_of (no_rq pc) = slot_of pc.
Proof. done. Qed.
Lemma frame_ctl s s' : frame s' = frame s → ctl s' = ctl s.
Proof.
  intros Hf. assert (Hc := frame_cpus _ _ Hf). assert (Hm : smp_active s' = smp_active s) by (by injection Hf).
  assert (Hb : bsp_current s' = bsp_current s ∧ bsp_idle s' = bsp_idle s) by (by injection Hf). destruct Hb as [Hb1 Hb2].
  unfold ctl. assert (Hl : length (cpus s') = length (cpus s)) by (by rewrite <- (length_fmap no_rq), Hc, length_fmap).
  assert (Hsl : slots s' = slots s).
  { unfold slots. rewrite Hm, Hb1, Hb2. destruct (smp_active s); [|done].
    transitivity (slot_of <$> (no_rq <$> cpus s')); [|rewrite Hc]; by rewrite <- list_fmap_compose. }
  rewrite Hl, Hm, Hsl. f_equal. transitivity (pc_started <$> (no_rq <$> cpus s')); [|rewrite Hc]; by rewrite <- list_fmap_compose.
Qed.

Lemma ctl_smp s s' : ctl s' = ctl s → smp_active s' = smp_active s.
Proof. intros H. by injection H. Qed.
Lemma ctl_slots s s' : ctl s' = ctl s → slots s' = slots s.
Proof. intros H. by injection H. Qed.
Lemma ctl_len s s' : ctl s' = ctl s → length (cpus s') = length (cpus s).
Proof. intros H. by injection H. Qed.

Lemma elem_of_currents s t : t ∈ currents s ↔ ∃ c i, slots s !! c = Some (Some (t, i)).
Proof.
  unfold currents. rewrite list_elem_of_omap. split.
  - intros (o & Ho & Ht). destruct o as [[t' i]|]; [|done]. cbn in Ht. simplify_eq. apply list_elem_of_lookup in Ho as (c & Hc). eauto.
  - intros (c & i & Hc). exists (Some (t, i)). split; [by eapply list_elem_of_lookup_2|done].
Qed.
Lemma elem_of_idles s i : i ∈ idles s ↔ ∃ c t, slots s !! c = Some (Some (t, i)).
Proof.
  unfold idles. rewrite list_elem_of_omap. split.
  - intros (o & Ho & Ht). destruct o as [[t' i']|]; [|done]. cbn in Ht. simplify_eq. apply list_elem_of_lookup in Ho as (c & Hc). eauto.
  - intros (c & t & Hc). exists (Some (t, i)). split; [by eapply list_elem_of_lookup_2|done].
Qed.

(** The queue that processor [c] uses. *)
Definition kq (c : nat) (s : sched) : nat := if smp_active s then S c else O.

Lemma get_current_slot c s t i : slots s !! c = Some (Some (t, i)) → get_current c s = Some t.
Proof.
  unfold slots, get_current. destruct (smp_active s).
  - rewrite list_lookup_fmap. destruct (cpus s !! c) as [pc|]; [|done]. cbn. unfold slot_of. intros [= E].
    by destruct (pc_current pc), (pc_idle pc); simplify_eq/=.
  - destruct c; [|done]. cbn. intros [= E]. by destruct (bsp_current s), (bsp_idle s); simplify_eq/=.
Qed.

(** ** Processor registers *)

Definition keeps (f : percpu → percpu) : Prop :=
  ∀ pc, pc_rq (f pc) = pc_rq pc ∧ pc_current (f pc) = pc_current pc ∧ pc_idle (f pc) = pc_idle pc ∧ pc_started (f pc) = pc_started pc.

Lemma fmap_alter_id {X Y} (g : X → Y) (f : X → X) c (l : list X) : (∀ x, g (f x) = g x) → g <$> alter f c l = g <$> l.
Proof.
  intros Hf. apply list_eq. intros i. rewrite !list_lookup_fmap. destruct (decide (i = c)) as [->|].
  - rewrite list_lookup_alter_eq. destruct (l !! c); [|done]. cbn. by rewrite Hf.
  - by rewrite list_lookup_alter_ne.
Qed.

Lemma set_cpu_rep s A c f : Rep s A → keeps f → Rep (set_cpu c f s) A ∧ ctl (set_cpu c f s) = ctl s.
Proof.
  intros HR Hk. assert (Eq : all_queues (set_cpu c f s) = all_queues s).
  { unfold all_queues, set_cpu. cbn. f_equal. apply fmap_alter_id. intros pc. apply Hk. }
  split.
  - destruct HR. split; [done|by rewrite Eq|done..].
  - assert (Hsl : slots (set_cpu c f s) = slots s).
    { unfold slots, set_cpu. cbn. destruct (smp_active s); [|done]. apply fmap_alter_id. intros pc. unfold slot_of. destruct (Hk pc) as (_ & -> & -> & _). done. }
    unfold ctl. rewrite Hsl. unfold set_cpu. cbn. rewrite length_alter. f_equal. apply fmap_alter_id. intros pc. apply Hk.
Qed.

(** Processes that live threads point to exist, and nobody waits for them. *)
Definition procs_ok (A : asched) (x : cthread) : Prop :=
  match x.1.2 with Some p => is_Some (a_pr A !! p) | None => True end.

Lemma space_of_rep s A x : Rep s A → procs_ok A x → is_Some (space_of x.1.2 s).
Proof.
  intros HR. unfold procs_ok, space_of. destruct (x.1.2) as [p|]; [|by eexists]. rewrite (rep_pr _ _ HR). intros [pr ->]. by eexists.
Qed.

Lemma space_of_set_cpu p c f s : space_of p (set_cpu c f s) = space_of p s.
Proof. done. Qed.

Lemma do_switch_rep s A c old next xo xn :
  Rep s A → a_th A !! old = Some xo → a_th A !! next = Some xn → procs_ok A xo → procs_ok A xn → (c < length (cpus s))%nat →
  ∃ s', do_switch c old next s = Some s' ∧ Rep s' A ∧ ctl s' = ctl s.
Proof.
  intros HR Ho Hn Po Pn Hc. destruct (rep_thread _ _ _ _ HR Ho) as (tho & Hto & Eo). destruct (rep_thread _ _ _ _ HR Hn) as (thn & Htn & En).
  unfold do_switch. rewrite Htn. cbn [mbind option_bind].
  set (s1 := if negb (th_stack_base thn =? 0) && negb (th_stack_size thn =? 0) then _ else s).
  assert (H1 : Rep s1 A ∧ ctl s1 = ctl s ∧ threads s1 = threads s ∧ ∀ p, space_of p s1 = space_of p s).
  { unfold s1. destruct (negb _ && negb _); [|done]. destruct (set_cpu_rep s A c (λ pc, pc <| pc_rsp0 := th_stack_base thn + th_stack_size thn |>) HR); [done|]. done. }
  destruct H1 as (HR1 & C1 & T1 & S1). rewrite T1, Hto. cbn [mbind option_bind].
  assert (Hos : ∃ z, (if bool_decide (th_state tho = THREAD_DEAD) then Some (kernel_pml4 s1) else space_of (th_process tho) s1) = Some z).
  { case_bool_decide; [by eexists|]. rewrite S1. destruct (space_of_rep s A xo HR Po) as [z Hz]. exists z. by rewrite <- Eo in Hz. }
  destruct Hos as (zo & ->). cbn [mbind option_bind]. rewrite S1.
  destruct (space_of_rep s A xn HR Pn) as [zn Hzn]. rewrite <- En in Hzn. change (th_process thn) with ((core thn).1.2). rewrite Hzn. cbn [mbind option_bind].
  set (s2 := if zo =? zn then s1 else _).
  assert (H2 : Rep s2 A ∧ ctl s2 = ctl s).
  { unfold s2. destruct (zo =? zn); [done|]. destruct (set_cpu_rep s1 A c (λ pc, pc <| pc_cr3 := zn |>) HR1); [done|]. split; [done|congruence]. }
  destruct H2 as [HR2 C2]. case_bool_decide; [by exists s2|].
  destruct (lookup_lt_is_Some_2 (cpus s2) c ltac:(rewrite (ctl_len _ _ C2); lia)) as [pc Hpc]. rewrite Hpc. cbn [mbind option_bind].
  destruct (set_thread_hidden s2 A old xo (λ th, th <| th_fs_base := pc_tls pc |> <| th_context := CtxSaved |>) HR2 Ho) as (s3 & E3 & HR3 & F3); [done|].
  rewrite E3. cbn [mbind option_bind]. apply frame_ctl in F3. case_bool_decide.
  - destruct (set_cpu_rep s3 A c (λ pc, pc <| pc_tls := th_fs_base thn |>) HR3) as [HR4 C4]; [done|]. eexists. split_and!; [done..|congruence].
  - exists s3. split_and!; [done..|congruence].
Qed.

Lemma set_current_rep s A c t n i :
  Rep s A → slots s !! c = Some (Some (t, i)) →
  Rep (set_current c n s) A ∧ slots (set_current c n s) = <[c := Some (n, i)]> (slots s) ∧
  smp_active (set_current c n s) = smp_active s ∧ length (cpus (set_current c n s)) = length (cpus s) ∧
  pc_started <$> cpus (set_current c n s) = pc_started <$> cpus s.
Proof.
  intros HR Hsl. unfold set_current. destruct (smp_active s) eqn:Esmp.
  - assert (Eq : all_queues ((set_cpu c (λ pc, pc <| pc_current := Some n |>) s) <| bsp_current := Some n |>) = all_queues s).
    { unfold all_queues, set_cpu. cbn. f_equal. by apply fmap_alter_id. }
    split_and!.
    + destruct HR. split; [done|by rewrite Eq|done..].
    + unfold slots in *. cbn. rewrite Esmp in *. apply list_eq. intros j. rewrite list_lookup_fmap in Hsl |- *.
      destruct (cpus s !! c) as [pc|] eqn:Epc; [|done]. destruct (decide (j = c)) as [->|].
      * rewrite list_lookup_alter_eq, Epc, list_lookup_insert_eq by (rewrite length_fmap; by eapply lookup_lt_Some). cbn. cbn in Hsl.
        unfold slot_of in *. cbn. destruct (pc_current pc), (pc_idle pc); simplify_eq/=. done.
      * by rewrite list_lookup_alter_ne, list_lookup_insert_ne, list_lookup_fmap by done.
    + done.
    + cbn. by rewrite length_alter.
    + cbn. by apply fmap_alter_id.
  - split_and!; [|unfold slots in *; cbn; rewrite Esmp in *|done..].
    + destruct HR. by split.
    + destruct c; [|done]. cbn in *. by destruct (bsp_current s), (bsp_idle s); simplify_eq/=.
Qed.

(** ** Leaving a processor *)

Definition exit_mark (pr : process) : process := pr <| p_wait := None |> <| p_exited := true |>.
Definition a_exit (p : option nat) (m : gmap nat process) : gmap nat process :=
  match p with Some p => alter exit_mark p m | None => m end.

(** What happens to the thread [t] that leaves the processor with the idle thread [i]
    and the queue [k]. *)
Definition a_leave (k t i : nat) (A : asched) : asched :=
  match a_th A !! t with
  | Some (THREAD_RUNNING, p, b) =>
      let B := A <| a_th := <[t := (THREAD_READY, p, b)]> (a_th A) |> in
      if decide (t = i) then B else B <| a_qs := alter (λ l, l ++ [t]) k (a_qs A) |>
  | Some (THREAD_DEAD, p, b) =>
      if decide (t = i) then A
      else A <| a_th := <[t := (THREAD_DEAD, None, b)]> (a_th A) |> <| a_dl := t :: a_dl A |> <| a_pr := a_exit p (a_pr A) |>
  | _ => A
  end.

Lemma list_alter_ins {X} (f : X → X) k (l : list X) x : l !! k = Some x → alter f k l = <[k := f x]> l.
Proof.
  intros Hx. apply list_eq. intros j. destruct (decide (j = k)) as [->|].
  - rewrite list_lookup_alter_eq, Hx, list_lookup_insert_eq; [done|by eapply lookup_lt_Some].
  - by rewrite list_lookup_alter_ne, list_lookup_insert_ne.
Qed.
Lemma map_alter_ins {X} (f : X → X) k (m : gmap nat X) x : m !! k = Some x → alter f k m = <[k := f x]> m.
Proof.
  intros Hx. apply map_eq. intros j. destruct (decide (j = k)) as [->|].
  - by rewrite lookup_alter_eq, Hx, lookup_insert_eq.
  - by rewrite lookup_alter_ne, lookup_insert_ne.
Qed.

Lemma set_proc_rep s A p pr f :
  Rep s A → a_pr A !! p = Some pr →
  ∃ s', set_proc p f s = Some s' ∧ Rep s' (A <| a_pr := <[p := f pr]> (a_pr A) |>) ∧ frame s' = frame s.
Proof.
  intros HR Hp. unfold set_proc. rewrite (rep_pr _ _ HR), Hp. cbn. eexists. split_and!; [done| |done].
  destruct HR. split; try done.
Qed.

Lemma put_back_rep s A k l t i x :
  Rep s A → a_th A !! t = Some x → a_qs A !! k = Some l → (x.1.1 = THREAD_RUNNING → t ∉ linked A) →
  ∃ s', put_back (put_at k) t (Some i) s = Some s' ∧ frame s' = frame s ∧
    Rep s' (if decide (x.1.1 = THREAD_RUNNING) then a_leave k t i A else A).
Proof.
  intros HR Hx Hl Hni. unfold put_back. rewrite (state_of_rep _ _ _ _ HR Hx). cbn [mbind option_bind].
  destruct x as [[st p] b]. cbn in *. case_bool_decide as Hst; [|by exists s; rewrite decide_False]. subst st. rewrite decide_True by done.
  destruct (set_state_rep s A t _ THREAD_READY HR Hx) as (s1 & E1 & HR1 & F1). rewrite E1. cbn [mbind option_bind].
  unfold a_leave. rewrite Hx. case_bool_decide as Hi.
  - injection Hi as ->. rewrite decide_True by done. by exists s1.
  - rewrite decide_False by congruence.
    destruct (put_at_rep s1 _ k l t HR1) as (s2 & E2 & HR2 & F2); [done|cbn; rewrite lookup_insert_eq; by eexists|by apply Hni|].
    exists s2. split_and!; [done|congruence|]. cbn in HR2. rewrite (list_alter_ins _ _ _ l) by done. exact HR2.
Qed.

Lemma bury_rep s A k t p b :
  Rep s A → a_th A !! t = Some (THREAD_DEAD, p, b) → t ∉ linked A →
  (∀ q, p = Some q → ∃ pr, a_pr A !! q = Some pr ∧ p_wait pr = None) →
  ∃ s', bury (put_at k) t s = Some s' ∧ frame s' = frame s ∧
    Rep s' (A <| a_th := <[t := (THREAD_DEAD, None, b)]> (a_th A) |> <| a_dl := t :: a_dl A |> <| a_pr := a_exit p (a_pr A) |>).
Proof.
  intros HR Hx Hni Hp. unfold bury. destruct (rep_thread _ _ _ _ HR Hx) as (th & Ht & Hc). rewrite Ht. cbn [mbind option_bind].
  injection Hc as Hst Hpr Hb. rewrite Hpr. destruct p as [q|].
  - destruct (Hp q eq_refl) as (pr & Hq & Hw). rewrite (rep_pr _ _ HR), Hq. cbn [mbind option_bind].
    destruct (set_proc_rep s A q pr exit_mark HR Hq) as (s1 & E1 & HR1 & F1). unfold exit_mark in E1. rewrite E1. cbn [mbind option_bind].
    destruct (set_thread_rep s1 _ t _ (λ th, th <| th_process := None |>) HR1 Hx) as (s2 & th' & Ht' & Hc' & E2 & HR2 & F2); [done|].
    rewrite E2. cbn [mbind option_bind]. rewrite Hw. cbn [mbind option_bind].
    assert (Ec : core (th' <| th_process := None |>) = (THREAD_DEAD, None, b)) by (injection Hc' as Ea Eb Ec; unfold core; cbn; by rewrite Ea, Ec).
    rewrite Ec in HR2.
    destruct (link_dead_rep s2 _ t HR2) as (s3 & E3 & HR3 & F3); [cbn; rewrite lookup_insert_eq; by eexists|done|].
    exists s3. split_and!; [done|congruence|]. cbn [a_exit]. rewrite (map_alter_ins _ _ _ pr) by done. exact HR3.
  - cbn [mbind option_bind]. destruct (link_dead_rep s A t HR) as (s3 & E3 & HR3 & F3); [by eexists|done|].
    exists s3. split_and!; [done..|]. cbn [a_exit]. rewrite <- (threads_id A t (THREAD_DEAD, None, b)) in HR3 by done. by destruct A.
Qed.

(** All processes that threads point to exist and have no waiter. *)
Definition links_ok (A : asched) : Prop :=
  ∀ t x q, a_th A !! t = Some x → x.1.2 = Some q → ∃ pr, a_pr A !! q = Some pr ∧ p_wait pr = None.

Lemma links_procs A t x : links_ok A → a_th A !! t = Some x → procs_ok A x.
Proof. intros H Hx. unfold procs_ok. destruct (x.1.2) as [q|] eqn:Eq; [|done]. destruct (H t x q Hx Eq) as (pr & -> & _). by eexists. Qed.

Lemma leave_th k t i A u :
  a_th (a_leave k t i A) !! u =
    match a_th A !! u with
    | Some (THREAD_RUNNING, p, b) => Some (if decide (u = t) then THREAD_READY else THREAD_RUNNING, p, b)
    | Some (THREAD_DEAD, p, b) => Some (THREAD_DEAD, if decide (u = t ∧ t ≠ i) then None else p, b)
    | o => o
    end.
Proof.
  unfold a_leave. destruct (a_th A !! t) as [[[st p] b]|] eqn:Ht; cycle 1.
  { destruct (a_th A !! u) as [[[[] p] b]|] eqn:Hu; try done; rewrite decide_False; try done; (intros ->; congruence) || (intros [-> _]; congruence). }
  destruct (decide (u = t)) as [->|Hne].
  - rewrite Ht. destruct st; cbn.
    all: try (destruct (decide (t = i)); cbn; rewrite ?lookup_insert_eq, ?Ht, ?decide_True, ?decide_False by tauto; done).
    all: by rewrite Ht.
  - assert (Hd : ¬ (u = t ∧ t ≠ i)) by tauto. assert (E : a_th (match st with
      | THREAD_RUNNING => if decide (t = i) then A <| a_th := <[t:=(THREAD_READY, p, b)]> (a_th A) |>
          else A <| a_th := <[t:=(THREAD_READY, p, b)]> (a_th A) |> <| a_qs := alter (λ l, l ++ [t]) k (a_qs A) |>
      | THREAD_DEAD => if decide (t = i) then A
          else A <| a_th := <[t:=(THREAD_DEAD, None, b)]> (a_th A) |> <| a_dl := t :: a_dl A |> <| a_pr := a_exit p (a_pr A) |>
      | _ => A end) !! u = a_th A !! u).
    { destruct st; try done; destruct (decide (t = i)); cbn; try done; by rewrite lookup_insert_ne. }
    transitivity (a_th A !! u); [exact E|]. destruct (a_th A !! u) as [[[[] p'] b']|]; try done. by rewrite decide_False.
Qed.

Lemma leave_pr k t i A q pr :
  a_pr A !! q = Some pr →
  ∃ pr', a_pr (a_leave k t i A) !! q = Some pr' ∧ p_main pr' = p_main pr ∧ (p_wait pr = None → p_wait pr' = None) ∧
    (pr' = pr ∨ p_exited pr' = true).
Proof.
  intros Hq. assert (Hid : ∃ pr', a_pr A !! q = Some pr' ∧ p_main pr' = p_main pr ∧ (p_wait pr = None → p_wait pr' = None) ∧ (pr' = pr ∨ p_exited pr' = true)) by (exists pr; auto).
  unfold a_leave. destruct (a_th A !! t) as [[[st p] b]|]; [|done]. destruct st; try done; destruct (decide (t = i)); try done.
  cbn. destruct p as [q'|]; [|done]. cbn. destruct (decide (q = q')) as [->|].
  - exists (exit_mark pr). rewrite lookup_alter_eq, Hq. split_and!; auto.
  - by rewrite lookup_alter_ne.
Qed.

Lemma leave_links k t i A : links_ok A → links_ok (a_leave k t i A).
Proof.
  intros H u x q. rewrite leave_th. intros Hu Hq.
  assert (∃ y, a_th A !! u = Some y ∧ y.1.2 = Some q) as (y & Hy & Hyq).
  { destruct (a_th A !! u) as [[[st p] b]|] eqn:E; [|done]. exists (st, p, b). split; [done|]. cbn.
    destruct st; simplify_eq/=; try done. by destruct (decide _). }
  destruct (H u y q Hy Hyq) as (pr & Hpr & Hw). destruct (leave_pr k t i A q pr Hpr) as (pr' & Hpr' & _ & Hw' & _). eauto.
Qed.

Definition a_run (n : nat) (A : asched) : asched :=
  A <| a_th := alter (kst THREAD_RUNNING) n (a_th A) |>.

Lemma leave_rep s A k l t i x :
  Rep s A → a_th A !! t = Some x → a_qs A !! k = Some l → links_ok A →
  (x.1.1 = THREAD_RUNNING ∨ x.1.1 = THREAD_DEAD → t ∉ linked A) → (t = i → x.1.1 ≠ THREAD_DEAD) →
  ∃ s1 s2 d, put_back (put_at k) t (Some i) s = Some s1 ∧ is_dead t (Some i) s1 = Some d ∧
    (if d : bool then bury (put_at k) t s1 else Some s1) = Some s2 ∧ frame s2 = frame s ∧ Rep s2 (a_leave k t i A).
Proof.
  intros HR Hx Hl Hlk Hni Hti.
  destruct (put_back_rep s A k l t i x HR Hx Hl ltac:(tauto)) as (s1 & E1 & F1 & HR1). exists s1.
  destruct x as [[st p] b]. cbn in *. destruct (decide (st = THREAD_RUNNING)) as [->|Hnr].
  - exists s1, false. split_and!; [done| |done..].
    unfold is_dead. erewrite state_of_rep; [|exact HR1|rewrite leave_th, Hx, decide_True by done; done]. done.
  - unfold is_dead. rewrite (state_of_rep _ _ _ _ HR1 Hx). cbn [mbind option_bind fst]. destruct (decide (st = THREAD_DEAD)) as [->|Hnd].
    + assert (Hne : t ≠ i) by (intros ->; by apply Hti). rewrite bool_decide_eq_true_2, bool_decide_eq_false_2 by congruence. cbn.
      destruct (bury_rep s1 A k t p b HR1 Hx) as (s2 & E2 & F2 & HR2); [tauto|intros q ->; by eapply (Hlk t)|].
      exists s2, true. split_and!; [done..|congruence|]. unfold a_leave. rewrite Hx. rewrite decide_False by done. exact HR2.
    + exists s1, false. rewrite bool_decide_eq_false_2 by done. split_and!; [done..|]. unfold a_leave. rewrite Hx. by destruct st.
Qed.

Lemma switch_to_rep s A c k l t i n x y :
  Rep s A → slots s !! c = Some (Some (t, i)) → (c < length (cpus s))%nat →
  a_th A !! t = Some x → a_th A !! n = Some y → a_qs A !! k = Some l → links_ok A →
  (x.1.1 = THREAD_RUNNING ∨ x.1.1 = THREAD_DEAD → t ∉ linked A) → (t = i → x.1.1 ≠ THREAD_DEAD) → y.1.1 ≠ THREAD_DEAD →
  ∃ s', switch_to (put_at k) (take_at k) c t (Some i) n s = Some s' ∧ Rep s' (a_run n (a_leave k t i A)) ∧
    ctl s' = (smp_active s, <[c := Some (n, i)]> (slots s), length (cpus s), pc_started <$> cpus s).
Proof.
  intros HR Hsl Hc Hx Hy Hl Hlk Hni Hti Hyd.
  destruct (leave_rep s A k l t i x HR Hx Hl Hlk Hni Hti) as (s1 & s2 & d & E1 & Ed & E2 & F2 & HR2).
  unfold switch_to. rewrite E1. cbn [mbind option_bind]. rewrite Ed. cbn [mbind option_bind]. rewrite E2. cbn [mbind option_bind].
  assert (∃ y', a_th (a_leave k t i A) !! n = Some y' ∧ y'.1.1 ≠ THREAD_DEAD) as (y' & Hy' & Hyd').
  { rewrite leave_th, Hy. destruct y as [[[] p] b]; cbn in *; eexists; (split; [done|]); cbn; try done. by destruct (decide _). }
  unfold is_dead. rewrite (state_of_rep _ _ _ _ HR2 Hy'). cbn [mbind option_bind]. rewrite bool_decide_eq_false_2 by done. cbn [andb mbind option_bind].
  destruct (set_state_rep s2 _ n y' THREAD_RUNNING HR2 Hy') as (s3 & E3 & HR3 & F3). rewrite E3. cbn [mbind option_bind].
  assert (Er : a_run n (a_leave k t i A) = (a_leave k t i A) <| a_th := <[n := kst THREAD_RUNNING y']> (a_th (a_leave k t i A)) |>)
    by (unfold a_run; by rewrite (map_alter_ins _ _ _ y')).
  rewrite <- Er in HR3. set (B := a_run n (a_leave k t i A)) in *.
  assert (Hn3 : a_th B !! n = Some (kst THREAD_RUNNING y')) by (rewrite Er; cbn; by rewrite lookup_insert_eq).
  assert (∃ s4, (if smp_active s3 then set_thread n (λ th, th <| th_last_cpu := Z.of_nat c |>) s3 else Some s3) = Some s4 ∧ Rep s4 B ∧ frame s4 = frame s3)
    as (s4 & E4 & HR4 & F4).
  { destruct (smp_active s3); [|by exists s3]. eapply set_thread_hidden; [done..|]. done. }
  rewrite E4. cbn [mbind option_bind].
  assert (Hctl : ctl s4 = ctl s) by (apply frame_ctl; congruence).
  destruct (set_current_rep s4 B c t n i HR4) as (HR5 & Hs5 & Hm5 & Hl5 & Hp5); [by rewrite (ctl_slots _ _ Hctl)|].
  assert (∃ x', a_th B !! t = Some x' ∧ (x'.1.2 = x.1.2 ∨ x'.1.2 = None)) as (x' & Hx' & Hxp).
  { unfold B, a_run. cbn. destruct (decide (t = n)) as [->|].
    - rewrite lookup_alter_eq, leave_th, Hx. destruct x as [[[] p] b]; cbn; try (eexists; split; [done|cbn; tauto]).
      eexists. split; [done|]. cbn. destruct (decide _); tauto.
    - rewrite lookup_alter_ne, leave_th, Hx by done. destruct x as [[[] p] b]; cbn; try (eexists; split; [done|cbn; tauto]).
      eexists. split; [done|]. cbn. destruct (decide _); tauto. }
  assert (HlkB : links_ok B).
  { intros u z q. unfold B, a_run. cbn. intros Hu Hq. apply (leave_links k t i A Hlk u (match a_th (a_leave k t i A) !! u with Some w => w | None => z end)).
    - destruct (decide (u = n)) as [->|]; [rewrite Hy'; done|]. rewrite lookup_alter_ne in Hu by done. by rewrite Hu.
    - destruct (decide (u = n)) as [->|]; [rewrite lookup_alter_eq, Hy' in Hu; rewrite Hy'; cbn in Hu; by simplify_eq/=|].
      rewrite lookup_alter_ne in Hu by done. by rewrite Hu. }
  destruct (do_switch_rep (set_current c n s4) B c t n x' (kst THREAD_RUNNING y') HR5 Hx' Hn3) as (s6 & E6 & HR6 & C6).
  - by eapply links_procs.
  - by eapply links_procs.
  - rewrite Hl5, (ctl_len _ _ Hctl). done.
  - exists s6. split_and!; [done..|]. rewrite C6. unfold ctl. rewrite Hs5, Hm5, Hl5, Hp5.
    pose proof Hctl as Hctl'. unfold ctl in Hctl'. injection Hctl' as -> -> -> ->. done.
Qed.
