(* ===== verification/SchedSafe.v ===== *)
(** * SchedSafe: every run of the scheduler is safe

    The invariant of [SchedInv] is kept by every operation, and under it every
    operation is defined: the scheduler never follows a pointer to a freed thread,
    never loses or doubles a thread, and never runs one on two processors.  The
    operations are those of the kernel, with the conditions that the code needs;
    [SchedCases] shows what happens without them. *)

From stdpp Require Import gmap.
From S2P Require Import Prelude Ring Sched SchedQueue SchedRep SchedInv.

Definition cur_of (sl : list (option (nat * nat))) : list nat := omap (fmap fst) sl.
Definition idle_of (sl : list (option (nat * nat))) : list nat := omap (fmap snd) sl.

(** The invariant on the abstraction: [x] is a thread that is about to block, [h] a
    ready thread that was taken from its queue. *)
Record AInv (x h : option nat) (smp : bool) (sl : list (option (nat * nat))) (A : asched) : Prop := {
  inv_q : ∀ t, t ∈ concat (a_qs A) → (∃ p b, a_th A !! t = Some (THREAD_READY, p, b)) ∧ t ∉ idle_of sl;
  inv_r : ∀ t p b, a_th A !! t = Some (THREAD_READY, p, b) → t ∈ concat (a_qs A) ∨ t ∈ idle_of sl ∨ h = Some t;
  inv_d : ∀ t, t ∈ a_dl A → (∃ b, a_th A !! t = Some (THREAD_DEAD, None, b)) ∧ t ∉ cur_of sl;
  inv_c : ∀ t, t ∈ cur_of sl → ∃ st p b, a_th A !! t = Some (st, p, b) ∧ st ≠ THREAD_READY ∧ (x = Some t ∨ st ≠ THREAD_BLOCKED);
  inv_u : ∀ t p b, a_th A !! t = Some (THREAD_RUNNING, p, b) → t ∈ cur_of sl;
  inv_i : ∀ i, i ∈ idle_of sl → ∃ st b, a_th A !! i = Some (st, None, b) ∧ (st = THREAD_READY ∨ st = THREAD_RUNNING);
  inv_own : ∀ c t i, sl !! c = Some (Some (t, i)) → t ∈ idle_of sl → t = i;
  inv_cnd : NoDup (cur_of sl);
  inv_ind : NoDup (idle_of sl);
  inv_s : stacks_ok A;
  inv_p : ∀ t st p b, a_th A !! t = Some (st, Some p, b) → ∃ pr, a_pr A !! p = Some pr ∧ p_main pr = Some t;
  inv_e : ∀ p pr t, a_pr A !! p = Some pr → p_exited pr = false → p_main pr = Some t → ∃ st b, a_th A !! t = Some (st, Some p, b);
  inv_w : ∀ p pr, a_pr A !! p = Some pr → p_wait pr = None;
  inv_z : ∀ k l, a_qs A !! k = Some l → l ≠ [] → (if smp then k ≠ O else k = O);
  inv_h : ∀ t, h = Some t → (∃ p b, a_th A !! t = Some (THREAD_READY, p, b)) ∧ (t ∉ idle_of sl) ∧ (t ∉ linked A)
}.

Record Inv (x h : option nat) (s : sched) (A : asched) : Prop := {
  inv_rep : Rep s A;
  inv_a : AInv x h (smp_active s) (slots s) A;
  inv_len : (0 < length (cpus s))%nat
}.

Lemma links_of_inv x h smp sl A : AInv x h smp sl A → links_ok A.
Proof.
  intros HI t [[st p] b] q Ht Hq. cbn in Hq. subst p. destruct (inv_p _ _ _ _ _ HI _ _ _ _ Ht) as (pr & Hpr & _).
  exists pr. split; [done|]. by eapply inv_w.
Qed.

(** Changes of [sl] at one processor. *)
Lemma omap_split {X Y} (f : X → option Y) (l : list X) c o :
  l !! c = Some o →
  ∃ r, omap f l ≡ₚ option_list (f o) ++ r ∧ ∀ o', omap f (<[c := o']> l) ≡ₚ option_list (f o') ++ r.
Proof.
  intros Hc. exists (omap f (take c l) ++ omap f (drop (S c) l)).
  assert (Hg : ∀ o', omap f (take c l ++ o' :: drop (S c) l) ≡ₚ option_list (f o') ++ omap f (take c l) ++ omap f (drop (S c) l)).
  { intros o'. rewrite omap_app. cbn. destruct (f o'); cbn; [by rewrite <- Permutation_middle|done]. }
  split.
  - rewrite <- Hg. by rewrite take_drop_middle.
  - intros o'. rewrite <- Hg. rewrite insert_take_drop by (by eapply lookup_lt_Some). done.
Qed.
Lemma idle_of_switch sl c t i n : sl !! c = Some (Some (t, i)) → ∀ j, j ∈ idle_of (<[c := Some (n, i)]> sl) ↔ j ∈ idle_of sl.
Proof. intros Hc j. unfold idle_of. destruct (omap_split (fmap snd) sl c _ Hc) as (r & Hp & Hi). rewrite Hp, (Hi (Some (n, i))). done. Qed.
Lemma idle_of_nodup sl c t i n : sl !! c = Some (Some (t, i)) → NoDup (idle_of sl) → NoDup (idle_of (<[c := Some (n, i)]> sl)).
Proof.
  intros Hc. unfold idle_of. destruct (omap_split (fmap snd) sl c _ Hc) as (r & Hp & Hi). by rewrite Hp, (Hi (Some (n, i))).
Qed.
Lemma idle_of_inj sl c c' t t' i : NoDup (idle_of sl) → sl !! c = Some (Some (t, i)) → sl !! c' = Some (Some (t', i)) → c' = c.
Proof.
  intros Hnd Hc Hc'. destruct (decide (c' = c)) as [|Hne]; [done|]. exfalso. unfold idle_of in Hnd.
  destruct (omap_split (fmap snd) sl c _ Hc) as (r & Hp & Hi). rewrite Hp in Hnd. cbn in Hnd. apply NoDup_cons in Hnd as [Hni _].
  apply Hni. pose proof (Hi None) as Hi0. cbn in Hi0. rewrite <- Hi0. apply list_elem_of_omap. exists (Some (t', i)). split; [|done].
  apply list_elem_of_lookup. exists c'. by rewrite list_lookup_insert_ne.
Qed.
Lemma cur_of_switch sl c t i n :
  sl !! c = Some (Some (t, i)) → NoDup (cur_of sl) → n = t ∨ n ∉ cur_of sl →
  NoDup (cur_of (<[c := Some (n, i)]> sl)) ∧ ∀ u, u ∈ cur_of (<[c := Some (n, i)]> sl) ↔ u = n ∨ (u ∈ cur_of sl ∧ u ≠ t).
Proof.
  intros Hc Hnd Hn. unfold cur_of in *. destruct (omap_split (fmap fst) sl c _ Hc) as (r & Hp & Hi).
  rewrite Hp in Hnd. cbn in Hnd. apply NoDup_cons in Hnd as [Htr Hr]. split.
  - rewrite (Hi (Some (n, i))). cbn. apply NoDup_cons. split; [|done]. destruct Hn as [->|Hn]; [done|]. rewrite Hp in Hn. set_solver.
  - intros u. rewrite (Hi (Some (n, i))), Hp. cbn. set_solver.
Qed.
Lemma cur_of_lookup sl c t i : sl !! c = Some (Some (t, i)) → t ∈ cur_of sl ∧ i ∈ idle_of sl.
Proof.
  intros Hc. unfold cur_of, idle_of. rewrite !list_elem_of_omap. split; (eexists; split; [by eapply list_elem_of_lookup_2|done]).
Qed.

(** ** Reaping *)

Lemma ainv_reap x smp sl A st' :
  AInv x None smp sl A → stacks_ok (mk_asched (without (a_dl A) (a_th A)) (a_qs A) [] st' (a_pr A)) →
  NoDup (linked A) →
  AInv x None smp sl (mk_asched (without (a_dl A) (a_th A)) (a_qs A) [] st' (a_pr A)).
Proof.
  intros HI Hst Hnd. unfold linked in Hnd. apply NoDup_app in Hnd as (_ & Hdis & _).
  assert (Hw : ∀ t y, without (a_dl A) (a_th A) !! t = Some y ↔ a_th A !! t = Some y ∧ t ∉ a_dl A)
    by (intros t y; unfold without; rewrite map_lookup_filter_Some; done).
  assert (Hlive : ∀ t y, a_th A !! t = Some y → y.1.1 ≠ THREAD_DEAD ∨ y.1.2 ≠ None ∨ t ∈ cur_of sl → without (a_dl A) (a_th A) !! t = Some y).
  { intros t y Hy Hne. apply Hw. split; [done|]. intros Hd. destruct (inv_d _ _ _ _ _ HI t Hd) as [(b & Hb) Hc]. simplify_eq. naive_solver. }
  split; cbn.
  - intros t Ht. destruct (inv_q _ _ _ _ _ HI t Ht) as [(p & b & Hb) ?]. split; [|done]. exists p, b. apply Hlive; [done|by left].
  - intros t p b [Ht _]%Hw. by eapply inv_r.
  - set_solver.
  - intros t Ht. destruct (inv_c _ _ _ _ _ HI t Ht) as (st & p & b & Hb & ? & ?). exists st, p, b. split_and!; [|done..]. apply Hlive; auto.
  - intros t p b [Ht _]%Hw. by eapply inv_u.
  - intros i Hi. destruct (inv_i _ _ _ _ _ HI i Hi) as (st & b & Hb & Hs). exists st, b. split; [|done]. apply Hlive; [done|]. left. cbn. naive_solver.
  - apply HI.
  - apply HI.
  - apply HI.
  - done.
  - intros t st p b [Ht _]%Hw. by eapply inv_p.
  - intros p pr t Hp He Hm. destruct (inv_e _ _ _ _ _ HI p pr t Hp He Hm) as (st & b & Hb). exists st, b. apply Hlive; [done|]. right. by left.
  - apply HI.
  - apply HI.
  - done.
Qed.

(** ** Taking a thread out of a queue *)

Lemma ainv_take x smp sl A k l l' n :
  AInv x None smp sl A → NoDup (linked A) → a_qs A !! k = Some l → l ≡ₚ n :: l' →
  AInv x (Some n) smp sl (A <| a_qs := <[k := l']> (a_qs A) |>).
Proof.
  intros HI Hnd Hk Hp. destruct (concat_split _ _ _ Hk) as (r & Hc & Hi).
  assert (Hc' : concat (a_qs A) ≡ₚ n :: concat (<[k := l']> (a_qs A))) by (rewrite Hc, (Hi l'), Hp; done).
  assert (Hsub : ∀ t, t ∈ concat (<[k := l']> (a_qs A)) → t ∈ concat (a_qs A)) by (intros t Ht; rewrite Hc'; set_solver).
  unfold linked in Hnd. rewrite Hc' in Hnd. cbn in Hnd. apply NoDup_cons in Hnd as [Hni Hnd].
  destruct (inv_q _ _ _ _ _ HI n) as [(p & b & Hb) Hid]; [rewrite Hc'; set_solver|].
  destruct HI. split; cbn; try done.
  - intros t Ht. by apply inv_q0, Hsub.
  - intros t p' b' Ht. destruct (inv_r0 t p' b' Ht) as [Hq|[?|?]]; [|tauto|done]. rewrite Hc' in Hq. set_solver.
  - intros k' l0 Hl0 Hne. destruct (decide (k' = k)) as [->|].
    + apply (inv_z0 k l Hk). intros ->. by apply Permutation_nil_cons in Hp.
    + rewrite list_lookup_insert_ne in Hl0 by done. by eapply inv_z0.
  - intros t [= <-]. split_and!; [by exists p, b|done|]. done.
Qed.

(** ** Switching *)

Lemma leave_qs_elem k l t i A u :
  a_qs A !! k = Some l →
  u ∈ concat (a_qs (a_leave k t i A)) ↔
    u ∈ concat (a_qs A) ∨ (u = t ∧ t ≠ i ∧ ∃ p b, a_th A !! t = Some (THREAD_RUNNING, p, b)).
Proof.
  intros Hk. unfold a_leave. destruct (a_th A !! t) as [[[[] p] b]|] eqn:Ht; cbn.
  2:{ destruct (decide (t = i)) as [->|]; cbn; [naive_solver|]. rewrite (list_alter_ins _ _ _ l) by done.
      destruct (concat_split _ _ _ Hk) as (r & Hc & Hi). rewrite Hi, Hc. set_solver. }
  all: try (destruct (decide (t = i)); cbn); naive_solver.
Qed.
Lemma leave_dl_elem k t i A u :
  u ∈ a_dl (a_leave k t i A) ↔ u ∈ a_dl A ∨ (u = t ∧ t ≠ i ∧ ∃ p b, a_th A !! t = Some (THREAD_DEAD, p, b)).
Proof.
  unfold a_leave. destruct (a_th A !! t) as [[[[] p] b]|] eqn:Ht; cbn.
  3:{ destruct (decide (t = i)) as [->|]; cbn; [naive_solver|]. rewrite elem_of_cons. naive_solver. }
  all: try (destruct (decide (t = i)); cbn); naive_solver.
Qed.
Lemma leave_qs_other k t i A j : j ≠ k → a_qs (a_leave k t i A) !! j = a_qs A !! j.
Proof.
  intros Hj. unfold a_leave. destruct (a_th A !! t) as [[[[] p] b]|]; try done; destruct (decide (t = i)); try done.
  cbn. by rewrite list_lookup_alter_ne.
Qed.
Lemma leave_pr_inv k t i A q pr' :
  a_pr (a_leave k t i A) !! q = Some pr' →
  ∃ pr, a_pr A !! q = Some pr ∧ p_main pr' = p_main pr ∧ (p_wait pr = None → p_wait pr' = None) ∧
    (p_exited pr' = false → pr' = pr ∧ ∀ b, ¬ (a_th A !! t = Some (THREAD_DEAD, Some q, b) ∧ t ≠ i)).
Proof.
  unfold a_leave. intros Hq.
  assert (Hsame : a_pr A !! q = Some pr' → (∀ b, ¬ (a_th A !! t = Some (THREAD_DEAD, Some q, b) ∧ t ≠ i)) → ∃ pr, a_pr A !! q = Some pr ∧ p_main pr' = p_main pr ∧ (p_wait pr = None → p_wait pr' = None) ∧
    (p_exited pr' = false → pr' = pr ∧ ∀ b, ¬ (a_th A !! t = Some (THREAD_DEAD, Some q, b) ∧ t ≠ i))) by (intros; exists pr'; auto).
  destruct (a_th A !! t) as [[[[] p] b]|] eqn:Ht; try (apply Hsame; [by destruct (decide (t = i)) in Hq|naive_solver]).
  destruct (decide (t = i)); [apply Hsame; [done|naive_solver]|]. cbn in Hq. destruct p as [q'|]; cbn in Hq; [|apply Hsame; [done|naive_solver]].
  apply lookup_alter_Some in Hq as [(<- & pr & Hpr & ->)|[Hne Hpr]].
  - exists pr. by split_and!.
  - apply Hsame; [done|naive_solver].
Qed.

Lemma a_run_qs n A : a_qs (a_run n A) = a_qs A.
Proof. done. Qed.
Lemma a_run_dl n A : a_dl (a_run n A) = a_dl A.
Proof. done. Qed.
Lemma a_run_pr n A : a_pr (a_run n A) = a_pr A.
Proof. done. Qed.

(** The thread that runs next is [n]: taken from a queue, or the idle thread when
    none is ready. *)
Lemma ainv_switch x h smp sl A c k l t i n :
  AInv x h smp sl A → sl !! c = Some (Some (t, i)) → (x = None ∨ x = Some t) → a_qs A !! k = Some l →
  (if smp then k = S c else k = O) → h = Some n ∨ (h = None ∧ n = i ∧ i ∉ cur_of sl ∨ h = None ∧ n = i ∧ t = i) →
  AInv None None smp (<[c := Some (n, i)]> sl) (a_run n (a_leave k t i A)).
Proof.
  intros HI Hc Hx Hk Ek Hn. destruct (cur_of_lookup _ _ _ _ Hc) as [Htc Hii].
  destruct (inv_c _ _ _ _ _ HI t Htc) as (stt & pt & bt & Ht & Htr & Htb).
  assert (Htq : t ∉ concat (a_qs A)) by (intros Hq; destruct (inv_q _ _ _ _ _ HI t Hq) as [(p & b & ?) _]; simplify_eq).
  assert (Htid : t ∈ idle_of sl → t = i) by (by eapply inv_own).
  assert (Hnf : ∃ stn pn bn, a_th A !! n = Some (stn, pn, bn) ∧ (stn = THREAD_READY ∨ stn = THREAD_RUNNING ∧ n = t ∧ n = i) ∧
    (n = i ∨ ((n ∉ idle_of sl) ∧ h = Some n)) ∧ (n ∉ concat (a_qs A)) ∧ (n = t ∨ n ∉ cur_of sl)).
  { destruct Hn as [Hn|[(-> & -> & Hic)|(-> & -> & ->)]].
    - destruct (inv_h _ _ _ _ _ HI n Hn) as [(p & b & Hb) [Hid Hl]]. exists THREAD_READY, p, b. split_and!; [done|by left|by right| |].
      + intros ?. apply Hl. unfold linked. set_solver.
      + right. intros (st & p' & b' & ? & ? & ?)%(inv_c _ _ _ _ _ HI). simplify_eq.
    - destruct (inv_i _ _ _ _ _ HI i Hii) as (st & b & Hb & [-> | ->]); [|by eapply inv_u in Hb].
      exists THREAD_READY, None, b. split_and!; [done|by left|by left| |by right]. intros Hq. by apply (inv_q _ _ _ _ _ HI) in Hq as [_ ?].
    - destruct (inv_i _ _ _ _ _ HI i Hii) as (st & b & Hb & [-> | ->]); [simplify_eq|].
      exists THREAD_RUNNING, None, b. split_and!; [done|by right|by left|done|by left]. }
  destruct Hnf as (stn & pn & bn & Hnn & Hns & Hni & Hnq & Hnc).
  destruct (cur_of_switch sl c t i n Hc (inv_cnd _ _ _ _ _ HI) Hnc) as [Hcnd Hcur]. pose proof (idle_of_switch sl c t i n Hc) as Hidl.
  assert (Hth : ∀ u, a_th (a_run n (a_leave k t i A)) !! u = if decide (u = n) then Some (THREAD_RUNNING, pn, bn) else a_th (a_leave k t i A) !! u).
  { intros u. unfold a_run. cbn. destruct (decide (u = n)) as [->|]; [|by rewrite lookup_alter_ne].
    rewrite lookup_alter_eq, leave_th, Hnn. destruct Hns as [->|(-> & _)]; [done|]. by destruct (decide _). }
  assert (Hsame : ∀ u, u ≠ n → u ≠ t → a_th (a_run n (a_leave k t i A)) !! u = a_th A !! u).
  { intros u Hun Hut. rewrite Hth, decide_False, leave_th by done. destruct (a_th A !! u) as [[[[] p] b]|]; try done; by rewrite decide_False by tauto. }
  assert (Htl : t ≠ n → a_th (a_run n (a_leave k t i A)) !! t = match stt with
    | THREAD_RUNNING => Some (THREAD_READY, pt, bt) | THREAD_DEAD => Some (THREAD_DEAD, if decide (t = t ∧ t ≠ i) then None else pt, bt) | st => Some (st, pt, bt) end).
  { intros Htn. rewrite Hth, decide_False, leave_th, Ht by done. destruct stt; try done. by rewrite decide_True. }
  assert (Htn' : t ≠ i → t ≠ n).
  { intros Hti ->. destruct Hns as [->|(_ & _ & ?)]; [by simplify_eq|done]. }
  split.
  - intros u Hu. rewrite a_run_qs, (leave_qs_elem k l) in Hu by done. rewrite Hidl. destruct Hu as [Hu|(-> & Hti & p & b & Hr)].
    + destruct (inv_q _ _ _ _ _ HI u Hu) as [(p & b & Hb) ?]. split; [|done]. exists p, b. rewrite Hsame; [done|congruence..].
    + simplify_eq. split; [|by intros ?%Htid]. exists pt, bt. rewrite Htl by auto. done.
  - intros u p b Hu. rewrite a_run_qs, (leave_qs_elem k l), Hidl by done. destruct (decide (u = n)) as [->|Hun]; [by rewrite Hth, decide_True in Hu|].
    destruct (decide (u = t)) as [->|Hut].
    + rewrite Htl in Hu by done. destruct stt; simplify_eq. destruct (decide (t = i)) as [->|]; [by right; left|]. left. right. eauto.
    + rewrite Hsame in Hu by done. destruct (inv_r _ _ _ _ _ HI u p b Hu) as [?|[?|?]]; [tauto|tauto|]. subst h.
      destruct Hn as [?|[(? & _)|(? & _)]]; simplify_eq.
  - intros u Hu. rewrite a_run_dl, leave_dl_elem in Hu. rewrite Hcur. destruct Hu as [Hu|(-> & Hti & p & b & Hd)].
    + destruct (inv_d _ _ _ _ _ HI u Hu) as [(b & Hb) Huc]. assert (u ≠ t) by (by intros ->). assert (u ≠ n) by (intros ->; simplify_eq; naive_solver).
      split; [|naive_solver]. exists b. by rewrite Hsame.
    + simplify_eq. split; [|naive_solver]. exists bt. rewrite Htl by auto. by rewrite decide_True.
  - intros u [->|[Hu Hut]]%Hcur.
    + exists THREAD_RUNNING, pn, bn. rewrite Hth, decide_True by done. split_and!; [done..|by right].
    + destruct (decide (u = n)) as [->|Hun]; [exists THREAD_RUNNING, pn, bn; rewrite Hth, decide_True by done; split_and!; [done..|by right]|].
      destruct (inv_c _ _ _ _ _ HI u Hu) as (st & p & b & Hb & Hs1 & Hs2). exists st, p, b. rewrite Hsame by done. split_and!; [done..|].
      right. destruct Hs2 as [->|?]; [|done]. destruct Hx as [?|?]; simplify_eq.
  - intros u p b Hu. apply Hcur. destruct (decide (u = n)) as [->|Hun]; [by left|]. right. destruct (decide (u = t)) as [->|Hut].
    + rewrite Htl in Hu by done. by destruct stt.
    + rewrite Hsame in Hu by done. split; [by eapply inv_u|done].
  - intros j Hj%Hidl. destruct (inv_i _ _ _ _ _ HI j Hj) as (st & b & Hb & Hs). destruct (decide (j = n)) as [->|Hjn].
    + simplify_eq. eexists THREAD_RUNNING, _. rewrite Hth, decide_True by done. auto.
    + destruct (decide (j = t)) as [->|Hjt]; [|exists st, b; rewrite Hsame by done; done].
      simplify_eq. rewrite Htl by done. destruct Hs as [-> | ->]; [done|]. eauto.
  - intros c' u j Hc' Hu%Hidl. destruct (decide (c' = c)) as [->|Hne].
    + rewrite list_lookup_insert_eq in Hc' by (by eapply lookup_lt_Some). simplify_eq. destruct Hni as [->|[? _]]; done.
    + rewrite list_lookup_insert_ne in Hc' by done. by eapply inv_own.
  - done.
  - eapply idle_of_nodup; [done|apply HI].
  - eapply (stacks_ok_sub A); [apply HI| |].
    + unfold a_run, a_leave. clear. by repeat case_match.
    + intros u y. rewrite Hth. destruct (decide (u = n)) as [->|]; [intros [= <-]; by eexists|]. rewrite leave_th.
      destruct (a_th A !! u) as [[[[] p] b]|]; intros [= <-]; by eexists.
  - intros u st p b Hu. assert (∃ st', a_th A !! u = Some (st', Some p, b)) as (st' & Hu').
    { rewrite Hth in Hu. destruct (decide (u = n)) as [->|]; [simplify_eq; by eexists|]. rewrite leave_th in Hu.
      destruct (a_th A !! u) as [[[[] p'] b']|]; repeat case_decide; simplify_eq; by eexists. }
    destruct (inv_p _ _ _ _ _ HI _ _ _ _ Hu') as (pr & Hpr & Hm). rewrite a_run_pr. destruct (leave_pr k t i A p pr Hpr) as (pr' & Hpr' & Hm' & _).
    exists pr'. split; [done|congruence].
  - rewrite a_run_pr. intros p pr' u (pr & Hpr & Hm' & _ & He)%leave_pr_inv Hex Hm. destruct (He Hex) as [-> Hnd].
    destruct (inv_e _ _ _ _ _ HI p pr u Hpr Hex ltac:(congruence)) as (st & b & Hb).
    destruct (decide (u = n)) as [->|Hun]; [rewrite Hth, decide_True by done; simplify_eq; eauto|].
    destruct (decide (u = t)) as [->|Hut]; [|exists st, b; by rewrite Hsame].
    simplify_eq. rewrite Htl by done. destruct stt; try (by eexists _, _). exists THREAD_DEAD, bt. rewrite decide_False; [done|]. intros [_ ?]. by apply (Hnd bt).
  - rewrite a_run_pr. intros p pr' (pr & Hpr & _ & Hw & _)%leave_pr_inv. apply Hw. by eapply inv_w.
  - rewrite a_run_qs. intros j lj Hj Hne. destruct (decide (j = k)) as [->|Hjk]; [destruct smp; subst k; done|].
    rewrite leave_qs_other in Hj by done. by eapply inv_z.
  - done.
Qed.

(** ** The choice of the next thread *)

Lemma frame_bsp s s' : frame s' = frame s → bsp_current s' = bsp_current s ∧ bsp_idle s' = bsp_idle s ∧ smp_active s' = smp_active s.
Proof. intros H. by injection H. Qed.

Lemma slot_single c s t i :
  slots s !! c = Some (Some (t, i)) → smp_active s = false → c = O ∧ bsp_current s = Some t ∧ bsp_idle s = Some i.
Proof.
  unfold slots. intros Hc Hm. rewrite Hm in Hc. destruct c as [|c]; [|done]. cbn in Hc.
  by destruct (bsp_current s), (bsp_idle s); simplify_eq/=.
Qed.
Lemma slot_smp c s t i :
  slots s !! c = Some (Some (t, i)) → smp_active s = true → ∃ pc, cpus s !! c = Some pc ∧ pc_current pc = Some t ∧ pc_idle pc = Some i.
Proof.
  unfold slots. intros Hc Hm. rewrite Hm, list_lookup_fmap in Hc. destruct (cpus s !! c) as [pc|]; [|done]. exists pc. split; [done|].
  cbn in Hc. unfold slot_of in Hc. by destruct (pc_current pc), (pc_idle pc); simplify_eq/=.
Qed.
Lemma slot_len c s t i : slots s !! c = Some (Some (t, i)) → (0 < length (cpus s))%nat → (c < length (cpus s))%nat.
Proof.
  intros Hc Hl. destruct (smp_active s) eqn:E.
  - destruct (slot_smp c s t i Hc E) as (pc & Hpc & _). by eapply lookup_lt_Some.
  - by destruct (slot_single c s t i Hc E) as [-> _].
Qed.

Lemma rep_len_qs s A : Rep s A → length (a_qs A) = S (length (cpus s)).
Proof. intros HR. rewrite (Forall2_length _ _ _ (rep_qs _ _ HR)). unfold all_queues. cbn. by rewrite length_fmap. Qed.
Lemma rep_kq s A c : Rep s A → (c < length (cpus s))%nat → ∃ l, a_qs A !! kq c s = Some l.
Proof.
  intros HR Hc. apply lookup_lt_is_Some_2. rewrite (rep_len_qs _ _ HR). unfold kq. destruct (smp_active s); lia.
Qed.

Lemma steal_loop_rep c vs s A :
  Rep s A → (∀ v, v ∈ vs → (v < length (cpus s))%nat) →
  ∃ s', frame s' = frame s ∧
    ((steal_loop c vs s = Some (None, s') ∧ Rep s' A) ∨
     (∃ n v l, steal_loop c vs s = Some (Some n, s') ∧ v ≠ c ∧ a_qs A !! S v = Some (l ++ [n]) ∧
        Rep s' (A <| a_qs := <[S v := l]> (a_qs A) |>))).
Proof.
  revert s. induction vs as [|v vs IH]; intros s HR Hvs; cbn [steal_loop].
  { exists s. split; [done|]. by left. }
  destruct (lookup_lt_is_Some_2 (cpus s) v ltac:(apply Hvs; set_solver)) as [pc Hpc]. rewrite Hpc. cbn [mbind option_bind].
  destruct (bool_decide (v = c) || negb (pc_started pc)) eqn:E; [apply IH; [done|set_solver]|].
  assert (Hvc : v ≠ c) by (apply orb_false_iff in E as [?%bool_decide_eq_false _]; done).
  destruct (lookup_lt_is_Some_2 (a_qs A) (S v)) as [l Hl]; [rewrite (rep_len_qs _ _ HR); specialize (Hvs v ltac:(set_solver)); lia|].
  destruct l as [|n l _] using rev_ind.
  - destruct (steal_nil s A v HR Hl) as (s1 & E1 & HR1 & F1). rewrite E1. cbn [mbind option_bind].
    destruct (IH s1 HR1) as (s' & F' & H').
    { intros u Hu. rewrite (ctl_len _ _ (frame_ctl _ _ F1)). apply Hvs. set_solver. }
    exists s'. split; [congruence|done].
  - destruct (steal_rep s A v n l HR Hl) as (s1 & E1 & HR1 & F1). rewrite E1. cbn [mbind option_bind]. exists s1. split; [done|]. right. eauto 10.
Qed.

(** Blocked threads stay blocked. *)
Definition keepsb (A B : asched) : Prop :=
  ∀ u p b, a_th A !! u = Some (THREAD_BLOCKED, p, b) → a_th B !! u = Some (THREAD_BLOCKED, p, b).

Lemma keepsb_switch k t i n A :
  (∀ p b, a_th A !! n ≠ Some (THREAD_BLOCKED, p, b)) → keepsb A (a_run n (a_leave k t i A)).
Proof.
  intros Hn u p b Hu. unfold a_run. cbn. destruct (decide (u = n)) as [->|]; [by apply Hn in Hu|].
  rewrite lookup_alter_ne by done. by rewrite leave_th, Hu.
Qed.

(** The end of [schedule]: with a thread in hand, or with none. *)
Lemma finish_inv x h s A c t i next :
  Inv x h s A → slots s !! c = Some (Some (t, i)) → (x = None ∨ x = Some t) → h = next →
  (h = None → ∀ v l, a_qs A !! v = Some l → v = kq c s → l = []) → a_dl A = [] →
  ∃ s', (next ← (match next with Some n => Some (Some n) | None => no_ready t (Some i) s end);
         match next with None => Some s | Some n => switch_to (put_at (kq c s)) (take_at (kq c s)) c t (Some i) n s end) = Some s' ∧
    ((h = None ∧ s' = s ∧ t ≠ i ∧ ∀ y, a_th A !! t = Some y → y.1.1 ≠ THREAD_DEAD) ∨
     (∃ n, Inv None None s' (a_run n (a_leave (kq c s) t i A)) ∧ slots s' = <[c := Some (n, i)]> (slots s) ∧ (n ≠ t ∨ n = i) ∧
        smp_active s' = smp_active s ∧ length (cpus s') = length (cpus s) ∧ (next = Some n ∨ next = None) ∧
        keepsb A (a_run n (a_leave (kq c s) t i A)))).
Proof.
  intros HI Hc Hx Hh Hempty Hdl. pose proof (inv_rep _ _ _ _ HI) as HR. pose proof (inv_a _ _ _ _ HI) as HA.
  pose proof (slot_len _ _ _ _ Hc (inv_len _ _ _ _ HI)) as Hlen. destruct (rep_kq s A c HR Hlen) as [l Hl].
  destruct (cur_of_lookup _ _ _ _ Hc) as [Htc Hii]. destruct (inv_c _ _ _ _ _ HA t Htc) as (st & p & b & Ht & Htr & _).
  assert (Hti : t = i → st ≠ THREAD_DEAD) by (intros ->; destruct (inv_i _ _ _ _ _ HA i Hii) as (? & ? & ? & [? | ?]); simplify_eq; done).
  assert (Htl : t ∉ linked A).
  { unfold linked. rewrite Hdl, app_nil_r. intros Hq. destruct (inv_q _ _ _ _ _ HA t Hq) as [(p' & b' & Hb) _]. simplify_eq. }
  assert (Hgo : ∀ n, (h = Some n ∨ (h = None ∧ n = i ∧ i ∉ cur_of (slots s) ∨ h = None ∧ n = i ∧ t = i)) → (n ≠ t ∨ n = i) → (next = Some n ∨ next = None) →
    ∃ s', switch_to (put_at (kq c s)) (take_at (kq c s)) c t (Some i) n s = Some s' ∧
      (∃ n0, Inv None None s' (a_run n0 (a_leave (kq c s) t i A)) ∧ slots s' = <[c := Some (n0, i)]> (slots s) ∧ (n0 ≠ t ∨ n0 = i) ∧
        smp_active s' = smp_active s ∧ length (cpus s') = length (cpus s) ∧ (next = Some n0 ∨ next = None) ∧
        keepsb A (a_run n0 (a_leave (kq c s) t i A)))).
  { intros n Hn Hnt Hnx. assert (∃ y, a_th A !! n = Some y ∧ y.1.1 ≠ THREAD_DEAD ∧ y.1.1 ≠ THREAD_BLOCKED) as (y & Hy & Hyd & Hyb).
    { destruct Hn as [Hn|Hn].
      - destruct (inv_h _ _ _ _ _ HA n Hn) as [(p' & b' & Hb) _]. by exists (THREAD_READY, p', b').
      - assert (n = i) as -> by tauto. destruct (inv_i _ _ _ _ _ HA i Hii) as (st' & b' & Hb & [-> | ->]); eexists; done. }
    destruct (switch_to_rep s A c (kq c s) l t i n (st, p, b) y) as (s' & E & HR' & C'); try done; [by eapply links_of_inv|].
    exists s'. split; [done|]. exists n. unfold ctl in C'. injection C' as Cm Cs Cl _. split_and!; try done.
    2:{ apply keepsb_switch. intros p' b' Hb. rewrite Hy in Hb. by simplify_eq. }
    split; [done| |lia].
    rewrite Cm, Cs. eapply (ainv_switch x h); try done. unfold kq. by destruct (smp_active s). }
  destruct next as [n|]; cbn [mbind option_bind].
  - destruct (Hgo n (or_introl Hh)) as (s' & E & Hr); [|by left|].
    { left. intros ->. destruct (inv_h _ _ _ _ _ HA t Hh) as [(p' & b' & Hb) _]. simplify_eq. }
    exists s'. split; [done|]. by right.
  - unfold no_ready. rewrite (state_of_rep _ _ _ _ HR Ht). cbn [mbind option_bind fst].
    destruct (bool_decide (Some i = Some t) || bool_decide (st = THREAD_DEAD)) eqn:E; cbn [mbind option_bind].
    + assert (Hidle : t = i ∨ i ∉ cur_of (slots s)).
      { destruct (decide (t = i)) as [|Hne]; [by left|]. right. intros Hic. apply elem_of_currents in Hic as (c' & i' & Hc').
        assert (i = i') as <- by (eapply inv_own; [exact HA|exact Hc'|done]).
        assert (c' = c) as -> by (eapply idle_of_inj; [apply HA|done..]). congruence. }
      destruct (Hgo i) as (s' & E' & Hr); [tauto|by right|by right|]. exists s'. split; [done|]. by right.
    + exists s. split; [done|]. left. apply orb_false_iff in E as [E1%bool_decide_eq_false E2%bool_decide_eq_false].
      split_and!; [done..|congruence|]. intros y Hy. by simplify_eq.
Qed.

Lemma inv_frame x h s s' A A' :
  Rep s' A' → frame s' = frame s → AInv x h (smp_active s) (slots s) A' → Inv x h s A → Inv x h s' A'.
Proof.
  intros HR HF HA HI. pose proof (frame_ctl _ _ HF) as HC. split; [done| |].
  - by rewrite (ctl_smp _ _ HC), (ctl_slots _ _ HC).
  - rewrite (ctl_len _ _ HC). apply HI.
Qed.

(** The result of [schedule]: the caller keeps running, or another thread runs. *)
Definition sched_result (x : option nat) (c t i : nat) (A0 : asched) (s s' : sched) : Prop :=
  smp_active s' = smp_active s ∧
  ((∃ A, Inv x None s' A ∧ keepsb A0 A ∧ slots s' = slots s ∧ t ≠ i ∧ ∀ y, a_th A !! t = Some y → y.1.1 ≠ THREAD_DEAD) ∨
   (∃ A n, Inv None None s' A ∧ keepsb A0 A ∧ slots s' = <[c := Some (n, i)]> (slots s) ∧ (n ≠ t ∨ n = i))).

Lemma finish_result x h s0 s A c t i next :
  Inv x h s A → frame s = frame s0 → slots s0 !! c = Some (Some (t, i)) → (x = None ∨ x = Some t) → h = next →
  (h = None → ∀ v l, a_qs A !! v = Some l → v = kq c s → l = []) → a_dl A = [] →
  ∃ s', (next ← (match next with Some n => Some (Some n) | None => no_ready t (Some i) s end);
         match next with None => Some s | Some n => switch_to (put_at (kq c s)) (take_at (kq c s)) c t (Some i) n s end) = Some s' ∧
    sched_result x c t i A s0 s'.
Proof.
  intros HI HF Hc Hx Hh He Hdl. pose proof (frame_ctl _ _ HF) as HC. rewrite <- (ctl_slots _ _ HC) in Hc.
  destruct (finish_inv x h s A c t i next HI Hc Hx Hh He Hdl) as (s' & E & [(-> & -> & Hti & Hd)|(n & HI' & Hs & Hn & Hm & _ & _ & Hkb)]).
  - exists s. split; [done|]. split; [by apply ctl_smp|]. left. exists A. split_and!; [done|by intros ?|by apply ctl_slots|done..].
  - exists s'. split; [done|]. split; [rewrite Hm; by apply ctl_smp|]. right. eexists _, n. split_and!; [done|done| |done].
    by rewrite Hs, (ctl_slots _ _ HC).
Qed.

Lemma schedule_inv x s A c t i :
  Inv x None s A → slots s !! c = Some (Some (t, i)) → (x = None ∨ x = Some t) →
  ∃ s', schedule c s = Some s' ∧ sched_result x c t i A s s'.
Proof.
  intros HI Hc Hx. destruct (reap_dead_rep s A (inv_rep _ _ _ _ HI) (inv_s _ _ _ _ _ (inv_a _ _ _ _ HI))) as (s1 & st1 & E1 & F1 & HR1 & Hst1).
  set (A1 := mk_asched _ _ _ _ _) in *.
  assert (HI1 : Inv x None s1 A1).
  { eapply inv_frame; [done..| |done]. apply ainv_reap; [apply HI|done|apply (inv_rep _ _ _ _ HI)]. }
  pose proof (frame_ctl _ _ F1) as C1. pose proof Hc as Hc1. rewrite <- (ctl_slots _ _ C1) in Hc1.
  pose proof (slot_len _ _ _ _ Hc1 (inv_len _ _ _ _ HI1)) as Hlen. destruct (rep_kq s1 A1 c HR1 Hlen) as [l Hl].
  assert (Htake : ∀ s2 n l', frame s2 = frame s1 → l ≡ₚ n :: l' → Rep s2 (A1 <| a_qs := <[kq c s1 := l']> (a_qs A1) |>) →
    Inv x (Some n) s2 (A1 <| a_qs := <[kq c s1 := l']> (a_qs A1) |>)).
  { intros s2 n l' F2 Hp HR2. split; [done| |]; pose proof (frame_ctl _ _ F2) as C2.
    - rewrite (ctl_smp _ _ C2), (ctl_slots _ _ C2). eapply ainv_take; [apply HI1|apply HR1|done..].
    - rewrite (ctl_len _ _ C2). apply HI1. }
  assert (Hkq : ∀ s2, frame s2 = frame s1 → kq c s2 = kq c s1) by (intros s2 F2; unfold kq; by rewrite (ctl_smp _ _ (frame_ctl _ _ F2))).
  assert (Hkb1 : keepsb A A1).
  { intros u p b Hu. unfold A1, without. cbn. apply map_lookup_filter_Some. split; [done|]. cbn. intros Hd.
    destruct (inv_d _ _ _ _ _ (inv_a _ _ _ _ HI) u Hd) as [(b' & Hb) _]. congruence. }
  assert (Hres : ∀ B s', a_th B = a_th A1 → sched_result x c t i B s s' → sched_result x c t i A s s').
  { intros B s' Eth [Hm Hr]. split; [done|]. assert (Hkb : ∀ C, keepsb B C → keepsb A C) by (intros C HC u p b Hu; apply HC; rewrite Eth; by apply Hkb1).
    destruct Hr as [(C & ? & ? & ?)|(C & n & ? & ? & ?)]; [left; exists C|right; exists C, n]; auto. }
  unfold schedule. destruct (smp_active s) eqn:Em.
  - assert (Em1 : smp_active s1 = true) by (by rewrite (ctl_smp _ _ C1)). assert (Ek : kq c s1 = S c) by (unfold kq; by rewrite Em1).
    unfold schedule_smp. rewrite E1. cbn [mbind option_bind]. destruct (slot_smp c s1 t i Hc1 Em1) as (pc & Hpc & Hcur & Hidle).
    rewrite Hpc. cbn [mbind option_bind]. rewrite Hcur. cbn [mbind option_bind]. rewrite Hidle. destruct l as [|n l].
    + rewrite Ek in Hl. destruct (take_at_nil s1 A1 (S c) HR1 Hl) as (s2 & E2 & HR2 & F2). cbn [take_at] in E2. rewrite E2. cbn [mbind option_bind].
      destruct (steal_loop_rep c (seq 0 (length (cpus s2))) s2 A1 HR2) as (s3 & F3 & [[E3 HR3]|(n & v & l & E3 & Hvc & Hv & HR3)]).
      { intros v Hv%elem_of_seq. lia. }
      * rewrite E3. cbn [mbind option_bind]. destruct (take_at_nil s3 A1 (S c) HR3 Hl) as (s4 & E4 & HR4 & F4). cbn [take_at] in E4. rewrite E4. cbn [mbind option_bind].
        assert (F : frame s4 = frame s1) by congruence. specialize (Hkq s4 F). rewrite Ek in Hkq.
        destruct (finish_result x None s s4 A1 c t i None) as (s' & E' & Hr); try done; [eapply (inv_frame x None s1); [done|congruence|apply HI1|exact HI1]|congruence| |].
        { intros _ v l0 Hl0 ->. rewrite Hkq in Hl0. congruence. }
        rewrite Hkq in E'. cbn [put_at take_at] in E'. exists s'. split; [exact E'|by eapply Hres; [|exact Hr]].
      * rewrite E3. cbn [mbind option_bind]. assert (F : frame s3 = frame s1) by congruence. specialize (Hkq s3 F). rewrite Ek in Hkq.
        destruct (finish_result x (Some n) s s3 (A1 <| a_qs := <[S v := l]> (a_qs A1) |>) c t i (Some n)) as (s' & E' & Hr); try done; [|congruence|].
        { split; [done| |]; pose proof (frame_ctl _ _ F) as C3.
          - rewrite (ctl_smp _ _ C3), (ctl_slots _ _ C3). eapply ainv_take; [apply HI1|apply HR1|done|]. by rewrite <- Permutation_cons_append.
          - rewrite (ctl_len _ _ C3). apply HI1. }
        rewrite Hkq in E'. exists s'. split; [exact E'|by eapply Hres; [|exact Hr]].
    + rewrite Ek in Hl, Htake. destruct (take_at_rep s1 A1 (S c) n l HR1 Hl) as (s2 & E2 & HR2 & F2). cbn [take_at] in E2. rewrite E2. cbn [mbind option_bind].
      specialize (Hkq s2 F2). rewrite Ek in Hkq.
      destruct (finish_result x (Some n) s s2 _ c t i (Some n) (Htake s2 n l F2 ltac:(done) HR2)) as (s' & E' & Hr); try done; [congruence|].
      rewrite Hkq in E'. exists s'. split; [exact E'|by eapply Hres; [|exact Hr]].
  - assert (Em1 : smp_active s1 = false) by (by rewrite (ctl_smp _ _ C1)). assert (Ek : kq c s1 = O) by (unfold kq; by rewrite Em1).
    unfold schedule_single. rewrite E1. cbn [mbind option_bind]. destruct (slot_single c s1 t i Hc1 Em1) as (Ec & Hcur & Hidle).
    rewrite Hcur. cbn [mbind option_bind]. rewrite Ek in Hl, Htake. destruct l as [|n l].
    + destruct (take_at_nil s1 A1 O HR1 Hl) as (s2 & E2 & HR2 & F2). cbn [take_at] in E2. rewrite E2. cbn [mbind option_bind].
      destruct (frame_bsp _ _ F2) as (_ & Hb2 & _). rewrite Hb2, Hidle. specialize (Hkq s2 F2). rewrite Ek in Hkq.
      destruct (finish_result x None s s2 A1 c t i None) as (s' & E' & Hr); try done; [eapply (inv_frame x None s1); [done|congruence|apply HI1|exact HI1]|congruence| |].
      { intros _ v l0 Hl0 ->. rewrite Hkq in Hl0. congruence. }
      rewrite Hkq in E'. exists s'. split; [exact E'|by eapply Hres; [|exact Hr]].
    + destruct (take_at_rep s1 A1 O n l HR1 Hl) as (s2 & E2 & HR2 & F2). cbn [take_at] in E2. rewrite E2. cbn [mbind option_bind].
      destruct (frame_bsp _ _ F2) as (_ & Hb2 & _). rewrite Hb2, Hidle. specialize (Hkq s2 F2). rewrite Ek in Hkq.
      destruct (finish_result x (Some n) s s2 _ c t i (Some n) (Htake s2 n l F2 ltac:(done) HR2)) as (s' & E' & Hr); try done; [congruence|].
      rewrite Hkq in E'. exists s'. split; [exact E'|by eapply Hres; [|exact Hr]].
Qed.
