(* ===== verification/SchedRun.v ===== *)
(** * SchedRun: the operations of the scheduler

    Each operation keeps the invariant of [SchedSafe], so runs of any length are
    safe: [scheduler_safe]. *)

From stdpp Require Import gmap.
From S2P Require Import Prelude Ring Sched SchedQueue SchedRep SchedInv SchedSafe.

(** ** Changes of one thread *)

(** A thread gets a state in which it is neither ready nor running. *)
Lemma ainv_set x h x' smp sl A t st p b v :
  AInv x h smp sl A → a_th A !! t = Some (st, p, b) → v ≠ THREAD_READY → v ≠ THREAD_RUNNING →
  t ∉ idle_of sl → t ∉ a_dl A → (h = Some t ∨ (h = None ∧ st ≠ THREAD_READY)) →
  (x = None ∨ x = x') → (v = THREAD_BLOCKED → t ∈ cur_of sl → x' = Some t) →
  AInv x' None smp sl (A <| a_th := <[t := (v, p, b)]> (a_th A) |>).
Proof.
  intros HI Ht Hvr Hvu Hid Hdl Hh Hx Hv.
  assert (Hq : t ∉ concat (a_qs A)).
  { intros Hq. destruct (inv_q _ _ _ _ _ HI t Hq) as [(p' & b' & Hb) _]. simplify_eq. destruct Hh as [Hh|[_ ?]]; [|done].
    destruct (inv_h _ _ _ _ _ HI t Hh) as (_ & _ & Hl). apply Hl. unfold linked. set_solver. }
  split; cbn.
  - intros u Hu. destruct (inv_q _ _ _ _ _ HI u Hu) as [(p' & b' & Hb) ?]. split; [|done]. exists p', b'. rewrite lookup_insert_ne; [done|congruence].
  - intros u p' b' Hu. destruct (decide (u = t)) as [->|Hne]; [rewrite lookup_insert_eq in Hu; simplify_eq|].
    rewrite lookup_insert_ne in Hu by done. destruct (inv_r _ _ _ _ _ HI u p' b' Hu) as [?|[?|Hu']]; [tauto|tauto|].
    destruct Hh as [Hh|[Hh _]]; simplify_eq.
  - intros u Hu. destruct (inv_d _ _ _ _ _ HI u Hu) as [(b' & Hb) ?]. split; [|done]. exists b'. rewrite lookup_insert_ne; [done|congruence].
  - intros u Hu. destruct (decide (u = t)) as [->|Hne].
    + exists v, p, b. rewrite lookup_insert_eq. split_and!; [done..|]. destruct (decide (v = THREAD_BLOCKED)); [left|right]; auto.
    + destruct (inv_c _ _ _ _ _ HI u Hu) as (st' & p' & b' & Hb & ? & Hs). exists st', p', b'. rewrite lookup_insert_ne by done.
      split_and!; [done..|]. destruct Hs as [->|?]; [|by right]. destruct Hx as [?|<-]; [done|by left].
  - intros u p' b' Hu. destruct (decide (u = t)) as [->|Hne]; [rewrite lookup_insert_eq in Hu; simplify_eq|].
    rewrite lookup_insert_ne in Hu by done. by eapply inv_u.
  - intros i Hi. destruct (inv_i _ _ _ _ _ HI i Hi) as (st' & b' & Hb & ?). exists st', b'. rewrite lookup_insert_ne; [done|congruence].
  - apply HI.
  - apply HI.
  - apply HI.
  - eapply (stacks_ok_sub A); [apply HI|done|]. intros u y. destruct (decide (u = t)) as [->|]; cbn.
    + rewrite lookup_insert_eq. intros [= <-]. by eexists.
    + rewrite lookup_insert_ne by done. eauto.
  - intros u st' q b' Hu. destruct (decide (u = t)) as [->|Hne].
    + rewrite lookup_insert_eq in Hu. simplify_eq. by eapply inv_p.
    + rewrite lookup_insert_ne in Hu by done. by eapply inv_p.
  - intros q pr u Hp He Hm. destruct (inv_e _ _ _ _ _ HI q pr u Hp He Hm) as (st' & b' & Hb). destruct (decide (u = t)) as [->|Hne].
    + simplify_eq. rewrite lookup_insert_eq. eauto.
    + rewrite lookup_insert_ne by done. eauto.
  - apply HI.
  - apply HI.
  - done.
Qed.

(** A thread that is off the processors becomes ready and is queued. *)
Lemma ainv_ready smp sl A t st p b k l :
  AInv None None smp sl A → a_th A !! t = Some (st, p, b) → st ≠ THREAD_RUNNING → t ∉ linked A → t ∉ cur_of sl → t ∉ idle_of sl →
  a_qs A !! k = Some l → (if smp then k ≠ O else k = O) →
  AInv None None smp sl (A <| a_th := <[t := (THREAD_READY, p, b)]> (a_th A) |> <| a_qs := <[k := l ++ [t]]> (a_qs A) |>).
Proof.
  intros HI Ht Hru Hl Hc Hid Hk Hsm. unfold linked in Hl. apply not_elem_of_app in Hl as [Hq Hdl].
  destruct (concat_split _ _ _ Hk) as (r & Hcc & Hci).
  assert (Hel : ∀ u, u ∈ concat (<[k := l ++ [t]]> (a_qs A)) ↔ u ∈ concat (a_qs A) ∨ u = t) by (intros u; rewrite Hci, Hcc; set_solver).
  split; cbn.
  - intros u [Hu|Hu]%Hel.
    + destruct (inv_q _ _ _ _ _ HI u Hu) as [(p' & b' & Hb) ?]. split; [|done]. exists p', b'. rewrite lookup_insert_ne; [done|congruence].
    + subst u. split; [|done]. exists p, b. by rewrite lookup_insert_eq.
  - intros u p' b' Hu. rewrite Hel. destruct (decide (u = t)) as [->|Hne]; [tauto|].
    rewrite lookup_insert_ne in Hu by done. destruct (inv_r _ _ _ _ _ HI u p' b' Hu) as [?|[?|?]]; tauto.
  - intros u Hu. destruct (inv_d _ _ _ _ _ HI u Hu) as [(b' & Hb) ?]. split; [|done]. exists b'. rewrite lookup_insert_ne; [done|congruence].
  - intros u Hu. destruct (inv_c _ _ _ _ _ HI u Hu) as (st' & p' & b' & Hb & Hs). exists st', p', b'. rewrite lookup_insert_ne; [done|congruence].
  - intros u p' b' Hu. destruct (decide (u = t)) as [->|Hne]; [rewrite lookup_insert_eq in Hu; simplify_eq|].
    rewrite lookup_insert_ne in Hu by done. by eapply inv_u.
  - intros i Hi. destruct (inv_i _ _ _ _ _ HI i Hi) as (st' & b' & Hb & ?). exists st', b'. rewrite lookup_insert_ne; [done|congruence].
  - apply HI.
  - apply HI.
  - apply HI.
  - eapply (stacks_ok_sub A); [apply HI|done|]. intros u y. destruct (decide (u = t)) as [->|]; cbn.
    + rewrite lookup_insert_eq. intros [= <-]. by eexists.
    + rewrite lookup_insert_ne by done. eauto.
  - intros u st' q b' Hu. destruct (decide (u = t)) as [->|Hne].
    + rewrite lookup_insert_eq in Hu. simplify_eq. by eapply inv_p.
    + rewrite lookup_insert_ne in Hu by done. by eapply inv_p.
  - intros q pr u Hp He Hm. destruct (inv_e _ _ _ _ _ HI q pr u Hp He Hm) as (st' & b' & Hb). destruct (decide (u = t)) as [->|Hne].
    + simplify_eq. rewrite lookup_insert_eq. eauto.
    + rewrite lookup_insert_ne by done. eauto.
  - apply HI.
  - intros j lj Hj Hne. destruct (decide (j = k)) as [->|]; [done|]. rewrite list_lookup_insert_ne in Hj by done. by eapply inv_z.
  - done.
Qed.

(** A process changes, but neither its thread nor its waiter. *)
Lemma ainv_pr x h smp sl A p pr pr' :
  AInv x h smp sl A → a_pr A !! p = Some pr → p_main pr' = p_main pr → p_wait pr' = None →
  (p_exited pr' = false → p_exited pr = false) →
  AInv x h smp sl (A <| a_pr := <[p := pr']> (a_pr A) |>).
Proof.
  intros HI Hp Hm Hw He. pose proof (inv_p _ _ _ _ _ HI) as Hip. pose proof (inv_e _ _ _ _ _ HI) as Hie. pose proof (inv_w _ _ _ _ _ HI) as Hiw.
  destruct HI. split; cbn; try done.
  - intros t st q b Ht. destruct (Hip t st q b Ht) as (pr0 & Hq & Hmq). destruct (decide (q = p)) as [->|].
    + rewrite lookup_insert_eq. simplify_eq. exists pr'. split; [done|congruence].
    + rewrite lookup_insert_ne by done. eauto.
  - intros q pr0 t Hq He0 Hm0. destruct (decide (q = p)) as [->|].
    + rewrite lookup_insert_eq in Hq. simplify_eq. apply (Hie p pr t Hp); [auto|congruence].
    + rewrite lookup_insert_ne in Hq by done. by eapply Hie.
  - intros q pr0 Hq. destruct (decide (q = p)) as [->|]; [rewrite lookup_insert_eq in Hq; by simplify_eq|].
    rewrite lookup_insert_ne in Hq by done. by eapply Hiw.
Qed.

(** ** The operations *)

Definition ok (s : sched) : Prop := ∃ A, Inv None None s A.

(** Blocked threads stay blocked, those of [T] possibly aside. *)
Definition stay_blocked (T : list nat) (s s' : sched) : Prop :=
  ∀ u, u ∉ T → state_of u s = Some THREAD_BLOCKED → state_of u s' = Some THREAD_BLOCKED.

(** [s'] is a good state in which every processor runs what it ran in [s]. *)
Definition ok_same (T : list nat) (s s' : sched) : Prop :=
  ok s' ∧ slots s' = slots s ∧ smp_active s' = smp_active s ∧ stay_blocked T s s'.

Lemma rep_blocked s A u : Rep s A → state_of u s = Some THREAD_BLOCKED ↔ ∃ p b, a_th A !! u = Some (THREAD_BLOCKED, p, b).
Proof.
  intros HR. split.
  - unfold state_of. rewrite <- (rep_view _ _ HR). unfold view. rewrite lookup_fmap. destruct (threads s !! u) as [th|]; [|done].
    intros [= E]. exists (th_process th), (th_stack_base th). cbn. unfold core. by rewrite E.
  - intros (p & b & Hb). by rewrite (state_of_rep _ _ _ _ HR Hb).
Qed.
Lemma keepsb_blocked T s s' A A' :
  Rep s A → Rep s' A' → (∀ u p b, u ∉ T → a_th A !! u = Some (THREAD_BLOCKED, p, b) → a_th A' !! u = Some (THREAD_BLOCKED, p, b)) → stay_blocked T s s'.
Proof.
  intros HR HR' H u Hu (p & b & Hb)%(rep_blocked s A u HR). apply (rep_blocked s' A' u HR'). eauto.
Qed.

Lemma ok_same_intro T s s' A A' :
  Inv None None s A → Rep s' A' → frame s' = frame s → AInv None None (smp_active s) (slots s) A' →
  (∀ u, u ∉ T → a_th A' !! u = a_th A !! u) → ok_same T s s'.
Proof.
  intros HI HR HF HA Hu. pose proof (frame_ctl _ _ HF) as HC. split_and!; [|by apply ctl_slots|by apply ctl_smp|].
  - exists A'. by eapply inv_frame.
  - eapply keepsb_blocked; [apply HI|done|]. intros u p b HT ?. by rewrite Hu.
Qed.
Lemma ok_same_refl T s : ok s → ok_same T s s.
Proof. intros ?. by split_and!; [..|intros ?]. Qed.
Lemma ok_same_trans T s1 s2 s3 : ok_same T s1 s2 → ok_same T s2 s3 → ok_same T s1 s3.
Proof. intros (? & ? & ? & Hk1) (? & ? & ? & Hk2). split_and!; [done|congruence..|]. intros u Hu Hb. by apply Hk2, Hk1. Qed.

Lemma sched_add_put c t s : sched_add c t s = put_at (kq c s) t s.
Proof. unfold sched_add, kq. by destruct (smp_active s). Qed.

Lemma make_ready s A c t st p b :
  Inv None None s A → (c < length (cpus s))%nat → a_th A !! t = Some (st, p, b) →
  (st = THREAD_BLOCKED ∨ st = THREAD_STOPPED ∧ t ∉ currents s) →
  ∃ s', (s ← set_state THREAD_READY t s; sched_add c t s) = Some s' ∧ ok_same [t] s s'.
Proof.
  intros HI Hc Ht Hst. pose proof (inv_rep _ _ _ _ HI) as HR. pose proof (inv_a _ _ _ _ HI) as HA.
  destruct (set_state_rep s A t _ THREAD_READY HR Ht) as (s1 & E1 & HR1 & F1). rewrite E1. cbn [mbind option_bind].
  change (kst THREAD_READY (st, p, b)) with (THREAD_READY, p, b) in HR1.
  assert (Hcur : t ∉ cur_of (slots s)).
  { destruct Hst as [->|[_ ?]]; [|done]. intros (st' & p' & b' & Hb & _ & [?|?])%(inv_c _ _ _ _ _ HA); simplify_eq. }
  assert (Hid : t ∉ idle_of (slots s)).
  { intros (st' & b' & Hb & Hs)%(inv_i _ _ _ _ _ HA). simplify_eq. naive_solver. }
  assert (Hl : t ∉ linked A).
  { unfold linked. rewrite elem_of_app. intros [Hq|Hd].
    - destruct (inv_q _ _ _ _ _ HA t Hq) as [(? & ? & ?) _]. simplify_eq. naive_solver.
    - destruct (inv_d _ _ _ _ _ HA t Hd) as [(? & ?) _]. simplify_eq. naive_solver. }
  destruct (rep_kq s A c HR Hc) as [l Hk]. rewrite sched_add_put.
  assert (Ek : kq c s1 = kq c s) by (unfold kq; by rewrite (ctl_smp _ _ (frame_ctl _ _ F1))). rewrite Ek.
  destruct (put_at_rep s1 _ (kq c s) l t HR1) as (s2 & E2 & HR2 & F2); [done|cbn; rewrite lookup_insert_eq; by eexists|done|].
  exists s2. split; [done|]. eapply ok_same_intro; [done|done|congruence| |].
  - apply (ainv_ready _ _ A t st p b (kq c s) l); try done; [naive_solver|]. unfold kq. by destruct (smp_active s).
  - intros u Hu. cbn. rewrite lookup_insert_ne; [done|]. set_solver.
Qed.

Lemma wake_ok s A c t :
  Inv None None s A → (c < length (cpus s))%nat → is_Some (threads s !! t) → ∃ s', sched_wake c t s = Some s' ∧ ok_same [t] s s'.
Proof.
  intros HI Hc Ht. pose proof (inv_rep _ _ _ _ HI) as HR. apply (rep_live s A) in Ht as [[[st p] b] Ht]; [|done].
  unfold sched_wake. rewrite (state_of_rep _ _ _ _ HR Ht). cbn [mbind option_bind fst]. case_bool_decide as Hb.
  - simpl in Hb. subst st. eapply make_ready; [done..|]. by left.
  - exists s. split; [done|]. apply ok_same_refl. by exists A.
Qed.

Lemma remove_loop_rep cs s A v t l1 l2 :
  Rep s A → (∀ c, c ∈ cs → (c < length (cpus s))%nat) → v ∈ cs → a_qs A !! S v = Some (l1 ++ t :: l2) →
  ∃ s', remove_loop cs t s = Some (true, s') ∧ Rep s' (A <| a_qs := <[S v := l1 ++ l2]> (a_qs A) |>) ∧ frame s' = frame s.
Proof.
  revert s. induction cs as [|c cs IH]; intros s HR Hcs Hv Hq; [set_solver|]. cbn [remove_loop].
  destruct (decide (c = v)) as [->|Hne].
  - destruct (remove_at_rep s A (S v) l1 l2 t HR Hq) as (s1 & E1 & HR1 & F1). cbn [remove_at] in E1. rewrite E1. cbn [mbind option_bind]. eauto.
  - destruct (lookup_lt_is_Some_2 (a_qs A) (S c)) as [l Hl]; [rewrite (rep_len_qs _ _ HR); specialize (Hcs c ltac:(set_solver)); lia|].
    assert (Hni : t ∉ l).
    { intros Hin. pose proof (rep_nodup _ _ HR) as Hnd. unfold linked in Hnd. apply NoDup_app in Hnd as (Hnd & _ & _).
      destruct (concat_split _ _ _ Hq) as (r & Hc & Hi). rewrite Hc in Hnd. apply NoDup_app in Hnd as (_ & Hd & _).
      apply (Hd t); [set_solver|]. pose proof (Hi []) as Hi0. cbn in Hi0. rewrite <- Hi0. apply (elem_of_queues _ (S c) l); [|exact Hin].
      rewrite list_lookup_insert_ne by lia. exact Hl. }
    destruct (remove_at_absent s A (S c) l t HR Hl Hni) as (s1 & E1 & HR1 & F1). cbn [remove_at] in E1. rewrite E1. cbn [mbind option_bind].
    destruct (IH s1 HR1) as (s' & E' & HR' & F'); [|set_solver|done|].
    { intros u Hu. rewrite (ctl_len _ _ (frame_ctl _ _ F1)). apply Hcs. set_solver. }
    exists s'. split_and!; [done..|congruence].
Qed.

(** A queued thread is taken out of its queue. *)
Lemma unqueue s A t p b :
  Inv None None s A → a_th A !! t = Some (THREAD_READY, p, b) → t ∉ idles s →
  ∃ s' A', sched_remove t s = Some (true, s') ∧ Rep s' A' ∧ frame s' = frame s ∧ AInv None (Some t) (smp_active s) (slots s) A' ∧
    a_th A' = a_th A ∧ a_pr A' = a_pr A ∧ a_dl A' = a_dl A.
Proof.
  intros HI Ht Hid. pose proof (inv_rep _ _ _ _ HI) as HR. pose proof (inv_a _ _ _ _ HI) as HA.
  destruct (inv_r _ _ _ _ _ HA t p b Ht) as [Hq|[?|?]]; [|done|done].
  apply queues_elem_of in Hq as (k & l & Hk & Hl). apply list_elem_of_split in Hl as (l1 & l2 & ->).
  pose proof (inv_z _ _ _ _ _ HA k _ Hk) as Hz. specialize (Hz ltac:(by destruct l1)).
  assert (∃ s', sched_remove t s = Some (true, s') ∧ Rep s' (A <| a_qs := <[k := l1 ++ l2]> (a_qs A) |>) ∧ frame s' = frame s) as (s' & E & HR' & F).
  { unfold sched_remove. destruct (smp_active s).
    - destruct k as [|v]; [done|]. eapply remove_loop_rep; [done| |apply elem_of_seq|done].
      + intros c Hc%elem_of_seq. lia.
      + apply lookup_lt_Some in Hk. rewrite (rep_len_qs _ _ HR) in Hk. lia.
    - subst k. by apply (remove_at_rep s A O l1 l2 t). }
  exists s', (A <| a_qs := <[k := l1 ++ l2]> (a_qs A) |>). split_and!; try done.
  eapply ainv_take; [done|apply HR|done|]. by rewrite <- Permutation_middle.
Qed.

(** The thread of a process. *)
Lemma proc_thread s A t st p b :
  Inv None None s A → a_th A !! t = Some (st, Some p, b) → (t ∉ idle_of (slots s)) ∧ (t ∉ a_dl A).
Proof.
  intros HI Ht. split.
  - intros (? & ? & ? & _)%(inv_i _ _ _ _ _ (inv_a _ _ _ _ HI)). simplify_eq.
  - intros [(? & ?) _]%(inv_d _ _ _ _ _ (inv_a _ _ _ _ HI)). simplify_eq.
Qed.

(** A thread that is stopped or killed is taken out of its queue when it is in one. *)
Definition hand_of (st : thread_state) (t : nat) : option nat := if bool_decide (st = THREAD_READY) then Some t else None.

Lemma unlink_ok s A t st p b :
  Inv None None s A → a_th A !! t = Some (st, Some p, b) →
  ∃ s1 A1, (if bool_decide (st = THREAD_READY) then sched_remove t s else Some (false, s)) = Some (bool_decide (st = THREAD_READY), s1) ∧
    Rep s1 A1 ∧ frame s1 = frame s ∧ AInv None (hand_of st t) (smp_active s) (slots s) A1 ∧
    a_th A1 = a_th A ∧ a_pr A1 = a_pr A ∧ a_dl A1 = a_dl A.
Proof.
  intros HI Ht. destruct (proc_thread s A t st p b HI Ht) as [Hid Hdl]. unfold hand_of. case_bool_decide as Hst.
  - subst st. destruct (unqueue s A t (Some p) b HI Ht Hid) as (s1 & A1 & E1 & HR1 & F1 & HA1 & Ht1 & Hp1 & Hd1).
    exists s1, A1. done.
  - exists s, A. split_and!; try done; apply HI.
Qed.

(** Its state is then set, after its process possibly changed. *)
Lemma halt_rep s A A1 s1 t st p b v :
  Inv None None s A → Rep s1 A1 → frame s1 = frame s → AInv None (hand_of st t) (smp_active s) (slots s) A1 →
  a_th A1 = a_th A → a_th A !! t = Some (st, Some p, b) → a_dl A1 = a_dl A → v = THREAD_STOPPED ∨ v = THREAD_DEAD →
  ∃ s2, set_state v t s1 = Some s2 ∧ ok_same [t] s s2 ∧ procs s2 = a_pr A1.
Proof.
  intros HI HR1 F1 HA1 Eth Ht Hd1 Hv. assert (Ht1 : a_th A1 !! t = Some (st, Some p, b)) by (by rewrite Eth). destruct (proc_thread s A t st p b HI Ht) as [Hid Hdl].
  destruct (set_state_rep s1 A1 t _ v HR1 Ht1) as (s2 & E2 & HR2 & F2). change (kst v (st, Some p, b)) with (v, Some p, b) in HR2.
  exists s2. split_and!; [done| |apply (rep_pr _ _ HR2)]. eapply ok_same_intro; [done|done|congruence| |].
  - apply (ainv_set None (hand_of st t) None _ _ A1 t st (Some p) b); try done; [naive_solver..|by rewrite Hd1| |by left|naive_solver].
    unfold hand_of. case_bool_decide; [by left|by right].
  - intros u Hu. cbn. rewrite lookup_insert_ne, Eth; [done|]. set_solver.
Qed.

Lemma stop_ok s A t st p b :
  Inv None None s A → a_th A !! t = Some (st, Some p, b) → ∃ s', stop_process t s = Some s' ∧ ok_same [t] s s'.
Proof.
  intros HI Ht. unfold stop_process. rewrite (state_of_rep _ _ _ _ (inv_rep _ _ _ _ HI) Ht). cbn [mbind option_bind fst].
  destruct (unlink_ok s A t st p b HI Ht) as (s1 & A1 & E1 & HR1 & F1 & HA1 & Ht1 & Hp1 & Hd1).
  destruct (halt_rep s A A1 s1 t st p b THREAD_STOPPED HI HR1 F1 HA1 Ht1 Ht Hd1) as (s2 & E2 & Hok & _); [by left|].
  exists s2. split; [|done]. case_bool_decide.
  - rewrite E1. cbn [mbind option_bind]. done.
  - injection E1 as <-. done.
Qed.

Lemma kill_ok s A c t st p b pr :
  Inv None None s A → a_th A !! t = Some (st, Some p, b) → a_pr A !! p = Some pr →
  ∃ s', kill_process c p t s = Some s' ∧ ok_same [t] s s'.
Proof.
  intros HI Ht Hp. unfold kill_process. pose proof (inv_w _ _ _ _ _ (inv_a _ _ _ _ HI) p pr Hp) as Hw.
  set (pr1 := pr <| p_exit_status := - SIGKILL |>).
  destruct (set_proc_rep s A p pr (λ pr, pr <| p_exit_status := - SIGKILL |>) (inv_rep _ _ _ _ HI) Hp) as (s0 & E0 & HR0 & F0).
  rewrite E0. cbn [mbind option_bind]. set (A0 := A <| a_pr := <[p := pr1]> (a_pr A) |>).
  assert (HI0 : Inv None None s0 A0).
  { eapply inv_frame; [done..| |done]. eapply ainv_pr; [apply HI|done..]. }
  rewrite (state_of_rep _ _ _ _ HR0 Ht). cbn [mbind option_bind fst].
  destruct (unlink_ok s0 A0 t st p b HI0 Ht) as (s1 & A1 & E1 & HR1 & F1 & HA1 & Ht1 & Hp1 & Hd1).
  assert (Hpr1 : a_pr A1 !! p = Some pr1) by (rewrite Hp1; cbn; by rewrite lookup_insert_eq).
  assert (Hkill : ∃ s2 pr2 A2, (if bool_decide (st = THREAD_READY) then '(b0, s) ← sched_remove t s0; if b0 : bool then set_proc p (λ pr, pr <| p_exited := true |>) s else Some s
      else Some s0) = Some s2 ∧ Rep s2 A2 ∧ frame s2 = frame s0 ∧ AInv None (hand_of st t) (smp_active s0) (slots s0) A2 ∧
      a_th A2 = a_th A0 ∧ a_dl A2 = a_dl A0 ∧ a_pr A2 !! p = Some pr2 ∧ p_wait pr2 = None).
  { case_bool_decide.
    - rewrite E1. cbn [mbind option_bind].
      destruct (set_proc_rep s1 A1 p pr1 (λ pr, pr <| p_exited := true |>) HR1 Hpr1) as (s2 & E2 & HR2 & F2).
      exists s2, (pr1 <| p_exited := true |>), (A1 <| a_pr := <[p := pr1 <| p_exited := true |>]> (a_pr A1) |>).
      split_and!; try done; [congruence| |by cbn; rewrite lookup_insert_eq].
      unfold hand_of in *. rewrite bool_decide_eq_true_2 in * by done. eapply ainv_pr; [exact HA1|done..].
    - injection E1 as <-. exists s0, pr1, A1. done. }
  destruct Hkill as (s2 & pr2 & A2 & E2 & HR2 & F2 & HA2 & Ht2 & Hd2 & Hp2 & Hw2). rewrite E2. cbn [mbind option_bind].
  destruct (halt_rep s0 A0 A2 s2 t st p b THREAD_DEAD HI0 HR2 F2 HA2 Ht2 Ht Hd2) as (s3 & E3 & Hok & Hpr3); [by right|].
  rewrite E3. cbn [mbind option_bind]. rewrite Hpr3, Hp2. cbn [mbind option_bind]. rewrite Hw2. exists s3. split; [done|].
  eapply ok_same_trans; [|exact Hok]. eapply ok_same_intro; [done|done|done| |done]. eapply ainv_pr; [apply HI|done..].
Qed.

Lemma continue_ok s A c t st p b :
  Inv None None s A → (c < length (cpus s))%nat → a_th A !! t = Some (st, Some p, b) → t ∉ currents s →
  ∃ s', continue_process c t s = Some s' ∧ ok_same [t] s s'.
Proof.
  intros HI Hc Ht Hcur. unfold continue_process. rewrite (state_of_rep _ _ _ _ (inv_rep _ _ _ _ HI) Ht). cbn [mbind option_bind fst].
  case_bool_decide; [|exists s; split; [done|apply ok_same_refl; by exists A]]. eapply make_ready; [done..|]. by right.
Qed.

Lemma signal_ok s A c t st p b pr signum :
  Inv None None s A → (c < length (cpus s))%nat → a_pr A !! p = Some pr → p_main pr = Some t → a_th A !! t = Some (st, Some p, b) →
  (signum = SIGCONT → t ∉ currents s) →
  ∃ r s', process_deliver_signal c p signum s = Some (r, s') ∧ ok_same [t] s s'.
Proof.
  intros HI Hc Hp Hm Ht Hcont. pose proof (inv_rep _ _ _ _ HI) as HR. assert (Hrefl : ok_same [t] s s) by (apply ok_same_refl; by exists A).
  unfold process_deliver_signal. rewrite (rep_pr _ _ HR), Hp. cbn [mbind option_bind]. rewrite Hm.
  destruct ((signum <? 1) || (MAX_SIGNALS <=? signum)); [by exists (-1), s|].
  destruct (signum =? SIGKILL).
  { destruct (kill_ok s A c t st p b pr HI Ht Hp) as (s' & -> & Hok). by exists 0, s'. }
  destruct (signum =? SIGSTOP).
  { destruct (stop_ok s A t st p b HI Ht) as (s' & -> & Hok). by exists 0, s'. }
  destruct (Z.eqb_spec signum SIGCONT) as [E|_].
  { destruct (continue_ok s A c t st p b HI Hc Ht (Hcont E)) as (s' & -> & Hok). by exists 0, s'. }
  destruct (set_proc_rep s A p pr (pend_signal signum) HR Hp) as (s' & -> & HR' & F'). exists 0, s'. split; [done|].
  eapply ok_same_intro; [done..| |done]. assert (Hpe : ∀ pr, p_main (pend_signal signum pr) = p_main pr ∧ p_wait (pend_signal signum pr) = p_wait pr ∧ p_exited (pend_signal signum pr) = p_exited pr)
    by (intros pr'; unfold pend_signal; by repeat case_match).
  destruct (Hpe pr) as (_ & Hpw & Hpx). eapply ainv_pr; [apply HI|done|apply Hpe|rewrite Hpw|by rewrite Hpx].
  eapply inv_w; [apply HI|done].
Qed.

(** ** Running, blocking and leaving *)

Lemma cur_facts s A c t i :
  Inv None None s A → slots s !! c = Some (Some (t, i)) →
  ∃ st p b, a_th A !! t = Some (st, p, b) ∧ st ≠ THREAD_READY ∧ (t ∉ a_dl A) ∧ (t ≠ i → t ∉ idle_of (slots s)).
Proof.
  intros HI Hc. pose proof (inv_a _ _ _ _ HI) as HA. destruct (cur_of_lookup _ _ _ _ Hc) as [Htc _].
  destruct (inv_c _ _ _ _ _ HA t Htc) as (st & p & b & Ht & Htr & _). exists st, p, b. split_and!; [done..| |].
  - intros Hd. by destruct (inv_d _ _ _ _ _ HA t Hd) as [_ ?].
  - intros Hne Hid. apply Hne. by eapply inv_own.
Qed.

Lemma sched_result_ok c t i A s s' : sched_result None c t i A s s' → ok s'.
Proof. intros [_ [(B & HI & _)|(B & n & HI & _)]]; by exists B. Qed.

Lemma sched_result_blocked x c t i A s s' : Rep s A → sched_result x c t i A s s' → stay_blocked [] s s'.
Proof.
  intros HR [_ [(B & HI & Hk & _)|(B & n & HI & Hk & _)]]; (eapply keepsb_blocked; [done|apply HI|]); intros u p b _; apply Hk.
Qed.

Lemma schedule_ok s c t i : ok s → slots s !! c = Some (Some (t, i)) → ∃ s', schedule c s = Some s' ∧ ok s' ∧ stay_blocked [] s s'.
Proof.
  intros [A HI] Hc. destruct (schedule_inv None s A c t i HI Hc (or_introl eq_refl)) as (s' & E & Hr). exists s'.
  split_and!; [done|by eapply sched_result_ok|]. eapply sched_result_blocked; [apply HI|done].
Qed.

(** A thread that blocks leaves its processor, or finds no other thread to run. *)
Lemma block_ok s c t i :
  ok s → slots s !! c = Some (Some (t, i)) → t ≠ i →
  ∃ s', sched_block c t s = Some s' ∧ (slots s' = slots s ∨ ok s' ∧ state_of t s' = Some THREAD_BLOCKED) ∧ stay_blocked [] s s'.
Proof.
  intros [A HI] Hc Hti. destruct (cur_facts s A c t i HI Hc) as (st & p & b & Ht & Hst & Hd & Hid). unfold sched_block.
  destruct (set_state_rep s A t _ THREAD_BLOCKED (inv_rep _ _ _ _ HI) Ht) as (s1 & E1 & HR1 & F1). rewrite E1. cbn [mbind option_bind].
  pose proof (frame_ctl _ _ F1) as C1.
  assert (HI1 : Inv (Some t) None s1 (A <| a_th := <[t := (THREAD_BLOCKED, p, b)]> (a_th A) |>)).
  { split; [done| |rewrite (ctl_len _ _ C1); apply HI]. rewrite (ctl_smp _ _ C1), (ctl_slots _ _ C1).
    apply (ainv_set None None (Some t) _ _ A t st p b); try done; [apply HI|auto|by right|by left]. }
  destruct (schedule_inv (Some t) s1 _ c t i HI1) as (s' & E' & [_ Hr]); [by rewrite (ctl_slots _ _ C1)|by right|].
  set (A1 := A <| a_th := <[t := (THREAD_BLOCKED, p, b)]> (a_th A) |>) in *.
  assert (Hk1 : keepsb A A1).
  { intros u p' b' Hu. cbn. destruct (decide (u = t)) as [->|]; [rewrite lookup_insert_eq; by simplify_eq|by rewrite lookup_insert_ne]. }
  exists s'. split; [done|]. destruct Hr as [(A' & HI' & Hk & Hs & _)|(A' & n & HI' & Hk & _)].
  - split; [left; by rewrite Hs, (ctl_slots _ _ C1)|]. eapply keepsb_blocked; [apply HI|apply HI'|]. intros u p' b' _ Hu. by apply Hk, Hk1.
  - split; [right; split; [by exists A'|]|].
    + eapply (rep_blocked s' A'); [apply HI'|]. exists p, b. apply Hk. cbn. by rewrite lookup_insert_eq.
    + eapply keepsb_blocked; [apply HI|apply HI'|]. intros u p' b' _ Hu. by apply Hk, Hk1.
Qed.

Lemma exit_ok s c t i : ok s → slots s !! c = Some (Some (t, i)) → t ≠ i → ∃ s', thread_exit c s = Some s' ∧ ok s' ∧ stay_blocked [t] s s'.
Proof.
  intros [A HI] Hc Hti. destruct (cur_facts s A c t i HI Hc) as (st & p & b & Ht & Hst & Hd & Hid). unfold thread_exit.
  rewrite (get_current_slot _ _ _ _ Hc). cbn [mbind option_bind].
  destruct (set_state_rep s A t _ THREAD_DEAD (inv_rep _ _ _ _ HI) Ht) as (s1 & E1 & HR1 & F1). rewrite E1. cbn [mbind option_bind].
  assert (Hok : ok_same [t] s s1).
  { eapply ok_same_intro; [done..| |].
    - apply (ainv_set None None None _ _ A t st p b); try done; [apply HI|auto|by right|by left].
    - intros u Hu. cbn. rewrite lookup_insert_ne; [done|]. set_solver. }
  destruct Hok as (Hok & Hs & _ & Hb). destruct (schedule_ok s1 c t i Hok) as (s' & E' & Hok' & Hb'); [by rewrite Hs|].
  exists s'. split_and!; [done..|]. intros u Hu Hbu. apply Hb'; [set_solver|]. by apply Hb.
Qed.

Lemma inv_ctl s s' A : Rep s' A → ctl s' = ctl s → Inv None None s A → Inv None None s' A.
Proof.
  intros HR HC HI. split; [done| |rewrite (ctl_len _ _ HC); apply HI]. rewrite (ctl_smp _ _ HC), (ctl_slots _ _ HC). apply HI.
Qed.

Lemma tick_ok s c t i : ok s → slots s !! c = Some (Some (t, i)) → ∃ r s', sched_tick c s = Some (r, s') ∧ ok s' ∧ stay_blocked [t] s s'.
Proof.
  intros [A HI] Hc. destruct (cur_facts s A c t i HI Hc) as (st & p & b & Ht & Hst & Hd & Hid). unfold sched_tick.
  rewrite (get_current_slot _ _ _ _ Hc). pose proof (slot_len _ _ _ _ Hc (inv_len _ _ _ _ HI)) as Hlen.
  destruct (set_thread_hidden s A t _ (λ th, th <| th_ticks := u64 (th_ticks th + 1) |>) (inv_rep _ _ _ _ HI) Ht) as (s1 & E1 & HR1 & F1); [done|].
  rewrite E1. cbn [mbind option_bind]. pose proof (frame_ctl _ _ F1) as C1. assert (HI1 : Inv None None s1 A) by (by eapply inv_ctl).
  destruct (rep_thread _ _ _ _ HR1 Ht) as (th & Hth & Hcore). rewrite Hth. cbn [mbind option_bind]. injection Hcore as _ Hpr _. rewrite Hpr.
  assert (Hok1 : ok_same [t] s s1) by (eapply ok_same_intro; [done|done|done|apply HI|done]).
  assert (Hmid : ∃ s2, (match p with None => Some s1 | Some q => pr ← procs s1 !! q;
      if (0 <? p_rlimit_cpu pr) && (p_rlimit_cpu pr <=? th_ticks th) then '(_, s) ← process_deliver_signal c q SIGKILL s1; Some s else Some s1 end) = Some s2 ∧ ok_same [t] s s2).
  { destruct p as [q|]; [|by exists s1]. destruct (inv_p _ _ _ _ _ (inv_a _ _ _ _ HI) _ _ _ _ Ht) as (pr & Hq & Hm).
    rewrite (rep_pr _ _ HR1), Hq. cbn [mbind option_bind]. destruct (_ && _); [|by exists s1].
    destruct (signal_ok s1 A c t st q b pr SIGKILL HI1) as (r & s2 & -> & Hok2); try done; [by rewrite (ctl_len _ _ C1)|].
    exists s2. split; [done|]. by eapply ok_same_trans. }
  destruct Hmid as (s2 & E2 & (Hok2 & Hs2 & Hm2 & Hb2)). rewrite E2. cbn [mbind option_bind].
  set (s3 := s2 <| flush_counter := _ |>). destruct Hok2 as [A2 HI2].
  assert (HI3 : Inv None None s3 A2).
  { apply (inv_ctl s2); [|done|exact HI2]. destruct (inv_rep _ _ _ _ HI2). by split. }
  destruct (schedule_ok s3 c t i) as (s4 & E4 & Hok4 & Hb4); [by exists A2|change (slots s3) with (slots s2); by rewrite Hs2|].
  rewrite E4. cbn [mbind option_bind]. eexists _, _. split_and!; [done..|]. intros u Hu Hbu. apply Hb4; [set_solver|]. by apply Hb2.
Qed.

(** ** New threads *)

(** A thread is created, given a process, and added to the run queue, as the callers
    of [thread_create] do. *)
Definition spawn (c t : nat) (junk : thread) (b entry size : Z) (pr : option (nat * process)) (s : sched) : option sched :=
  let '(_, s) := thread_create (Some t) junk (Some b) entry size s in
  s ← (match pr with
       | None => Some s
       | Some (p, rec) =>
           s ← set_thread t (λ th, th <| th_process := Some p |>) s;
           Some (s <| procs := <[p := rec]> (procs s) |>)
       end);
  sched_add c t s.

Lemma create_rep s A t th :
  Rep s A → threads s !! t = None →
  Rep (s <| threads := <[t := th]> (threads s) |>) (A <| a_th := <[t := core th]> (a_th A) |>).
Proof.
  intros HR Ht. assert (Hl : t ∉ linked A).
  { intros Hin. unfold linked in Hin. apply elem_of_app in Hin as [Hq|Hd].
    - apply queues_elem_of in Hq as (k & l & Hk & Hl). destruct (rep_queue _ _ _ _ HR Hk) as (q & _ & (_ & _ & Hs) & _).
      destruct (seg_live _ _ _ _ Hs Hl) as [? ?]. congruence.
    - destruct (seg_live _ _ _ _ (rep_dl _ _ HR) Hd) as [? ?]. congruence. }
  assert (Hseg : ∀ l nx, (∀ x, x ∈ l → x ∈ linked A) → seg (threads s) l nx → seg (<[t := th]> (threads s)) l nx).
  { intros l nx Hsub Hs. eapply seg_frame; [exact Hs|]. intros x Hx. rewrite lookup_insert_ne; [done|]. intros <-. by apply Hl, Hsub. }
  destruct HR as [Hv HF Hd Hdl Hn Hs Hp]. split; try done.
  - cbn. unfold view. rewrite fmap_insert. by f_equal.
  - apply Forall2_same_length_lookup_2; [by eapply Forall2_length in HF|]. intros j l q Hj Hq.
    destruct (Forall2_lookup_lr _ _ _ _ _ _ HF Hj Hq) as (? & ? & ?). split_and!; [done..|]. apply Hseg; [|done].
    intros x Hx. unfold linked. apply elem_of_app. left. by eapply elem_of_queues.
  - apply Hseg; [|done]. unfold linked. set_solver.
Qed.

(** A new thread that is not ready yet. *)
Lemma ainv_birth smp sl A t b pp pr :
  AInv None None smp sl A → a_th A !! t = None → b ∉ a_st A → t ∉ cur_of sl → t ∉ idle_of sl →
  (∀ p rec, pr = Some (p, rec) → a_pr A !! p = None ∧ p_main rec = Some t ∧ p_wait rec = None ∧ pp = Some p) → (pr = None → pp = None) →
  AInv None None smp sl (A <| a_th := <[t := (THREAD_BLOCKED, pp, b)]> (a_th A) |> <| a_st := a_st A ∪ {[b]} |>
                           <| a_pr := match pr with Some (p, rec) => <[p := rec]> (a_pr A) | None => a_pr A end |>).
Proof.
  intros HI Ht Hb Hc Hid Hpr Hnp.
  assert (Hp : ∀ q r, a_pr A !! q = Some r → (match pr with Some (p, rec) => <[p := rec]> (a_pr A) | None => a_pr A end) !! q = Some r).
  { intros q r Hq. destruct pr as [[p rec]|]; [|done]. destruct (Hpr p rec eq_refl) as (? & _). rewrite lookup_insert_ne; [done|congruence]. }
  assert (Hp' : ∀ q r, (match pr with Some (p, rec) => <[p := rec]> (a_pr A) | None => a_pr A end) !! q = Some r →
    a_pr A !! q = Some r ∨ (pr = Some (q, r) ∧ pp = Some q ∧ p_main r = Some t ∧ p_wait r = None)).
  { intros q r Hq. destruct pr as [[p rec]|]; [|by left]. destruct (Hpr p rec eq_refl) as (? & ? & ? & ?). destruct (decide (q = p)) as [->|].
    - rewrite lookup_insert_eq in Hq. simplify_eq. by right.
    - rewrite lookup_insert_ne in Hq by done. by left. }
  split; cbn.
  - intros u Hu. destruct (inv_q _ _ _ _ _ HI u Hu) as [(p' & b' & Hb') ?]. split; [|done]. exists p', b'. rewrite lookup_insert_ne; [done|congruence].
  - intros u p' b' Hu. destruct (decide (u = t)) as [->|Hne]; [rewrite lookup_insert_eq in Hu; simplify_eq|].
    rewrite lookup_insert_ne in Hu by done. by eapply inv_r.
  - intros u Hu. destruct (inv_d _ _ _ _ _ HI u Hu) as [(b' & Hb') ?]. split; [|done]. exists b'. rewrite lookup_insert_ne; [done|congruence].
  - intros u Hu. destruct (inv_c _ _ _ _ _ HI u Hu) as (st' & p' & b' & Hb' & Hs). exists st', p', b'. rewrite lookup_insert_ne; [done|congruence].
  - intros u p' b' Hu. destruct (decide (u = t)) as [->|Hne]; [rewrite lookup_insert_eq in Hu; simplify_eq|].
    rewrite lookup_insert_ne in Hu by done. by eapply inv_u.
  - intros j Hj. destruct (inv_i _ _ _ _ _ HI j Hj) as (st' & b' & Hb' & ?). exists st', b'. rewrite lookup_insert_ne; [done|congruence].
  - apply HI.
  - apply HI.
  - apply HI.
  - destruct (inv_s _ _ _ _ _ HI) as [H1 H2].
    assert (Hfresh : ∀ u y, u ≠ t → <[t := (THREAD_BLOCKED, pp, b)]> (a_th A) !! u = Some y → y.2 ≠ 0 → y.2 ∈ a_st A)
      by (intros u y Hu Hy; rewrite lookup_insert_ne in Hy by done; eauto).
    split; cbn.
    + intros u y Hu Hne. destruct (decide (u = t)) as [->|Hut]; [rewrite lookup_insert_eq in Hu; simplify_eq; set_solver|].
      specialize (Hfresh u y Hut Hu Hne). set_solver.
    + intros u1 u2 y1 y2 Hu1 Hu2 Heq Hne. destruct (decide (u1 = t)) as [->|Hn1], (decide (u2 = t)) as [->|Hn2]; [done| | |].
      * specialize (Hfresh u2 y2 Hn2 Hu2 ltac:(congruence)). rewrite lookup_insert_eq in Hu1. injection Hu1 as <-. cbn in *. congruence.
      * specialize (Hfresh u1 y1 Hn1 Hu1 Hne). rewrite lookup_insert_eq in Hu2. injection Hu2 as <-. cbn in *. congruence.
      * rewrite lookup_insert_ne in Hu1 by done. rewrite lookup_insert_ne in Hu2 by done. by eapply H2.
  - intros u st' q b' Hu. destruct (decide (u = t)) as [->|Hne].
    + rewrite lookup_insert_eq in Hu. simplify_eq. destruct pr as [[p rec]|]; [|by specialize (Hnp eq_refl)].
      destruct (Hpr p rec eq_refl) as (_ & ? & _ & [= ->]). exists rec. by rewrite lookup_insert_eq.
    + rewrite lookup_insert_ne in Hu by done. destruct (inv_p _ _ _ _ _ HI _ _ _ _ Hu) as (r & Hr & ?). eauto.
  - intros q r u [Hq|(-> & -> & Hm & _)]%Hp' He Hmu.
    + destruct (inv_e _ _ _ _ _ HI q r u Hq He Hmu) as (st' & b' & Hb'). exists st', b'. rewrite lookup_insert_ne; [done|congruence].
    + simplify_eq. rewrite lookup_insert_eq. eauto.
  - intros q r [Hq|(_ & _ & _ & ?)]%Hp'; [by eapply inv_w|done].
  - apply HI.
  - done.
Qed.

Lemma fresh_thread s A t : Inv None None s A → threads s !! t = None → (a_th A !! t = None) ∧ (t ∉ linked A) ∧ (t ∉ cur_of (slots s)) ∧ (t ∉ idle_of (slots s)).
Proof.
  intros HI Ht. pose proof (inv_rep _ _ _ _ HI) as HR. pose proof (inv_a _ _ _ _ HI) as HA.
  assert (Hn : a_th A !! t = None).
  { destruct (a_th A !! t) as [x|] eqn:E; [|done]. destruct (rep_thread _ _ _ _ HR E) as (th & ? & _). congruence. }
  split_and!; [done|..].
  - unfold linked. rewrite elem_of_app. intros [Hq|Hd].
    + destruct (inv_q _ _ _ _ _ HA t Hq) as [(? & ? & ?) _]. congruence.
    + destruct (inv_d _ _ _ _ _ HA t Hd) as [(? & ?) _]. congruence.
  - intros (? & ? & ? & ? & _)%(inv_c _ _ _ _ _ HA). congruence.
  - intros (? & ? & ? & _)%(inv_i _ _ _ _ _ HA). congruence.
Qed.

Lemma spawn_ok s c t junk b entry size pr :
  ok s → (∃ cur i, slots s !! c = Some (Some (cur, i))) → threads s !! t = None → b ∉ stacks s →
  (∀ p rec, pr = Some (p, rec) → procs s !! p = None ∧ p_main rec = Some t ∧ p_wait rec = None) →
  ∃ s', spawn c t junk b entry size pr s = Some s' ∧ ok s' ∧ stay_blocked [] s s'.
Proof.
  intros [A HI] (cur & i & Hc) Ht Hb Hpr. pose proof (inv_rep _ _ _ _ HI) as HR.
  destruct (fresh_thread s A t HI Ht) as (Hat & Hl & Htc & Hti). pose proof (slot_len _ _ _ _ Hc (inv_len _ _ _ _ HI)) as Hlen.
  unfold spawn. cbn [thread_create]. set (th := junk <| th_tid := _ |> <| th_state := _ |> <| th_context := _ |> <| th_stack_base := _ |> <| th_stack_size := _ |>
    <| th_next := _ |> <| th_process := _ |> <| th_ticks := _ |>).
  set (s1 := s <| threads := _ |> <| stacks := _ |> <| next_tid := _ |>).
  set (pp := match pr with Some (p, _) => Some p | None => None end).
  set (P := match pr with Some (p, rec) => <[p := rec]> (a_pr A) | None => a_pr A end).
  set (A1 := A <| a_th := <[t := (THREAD_READY, None, b)]> (a_th A) |> <| a_st := a_st A ∪ {[b]} |>).
  assert (HR1 : Rep s1 A1).
  { destruct (create_rep s A t th HR Ht) as [Hv HF Hd Hdl Hn Hs Hp]. split; try done. cbn. by rewrite (rep_st _ _ HR). }
  assert (C1 : ctl s1 = ctl s) by done.
  set (A2 := A <| a_th := <[t := (THREAD_READY, pp, b)]> (a_th A) |> <| a_st := a_st A ∪ {[b]} |> <| a_pr := P |>).
  assert (∃ s2, (match pr with None => Some s1 | Some (p, rec) => s ← set_thread t (λ th, th <| th_process := Some p |>) s1;
    Some (s <| procs := <[p := rec]> (procs s) |>) end) = Some s2 ∧ Rep s2 A2 ∧ ctl s2 = ctl s) as (s2 & E2 & HR2 & C2).
  { destruct pr as [[p rec]|]; [|by exists s1].
    destruct (set_thread_rep s1 A1 t (THREAD_READY, None, b) (λ th, th <| th_process := Some p |>) HR1) as (s2 & th' & _ & Hco & E2 & HR2 & F2);
      [cbn; by rewrite lookup_insert_eq|done|]. rewrite E2. cbn [mbind option_bind]. eexists. split_and!; [done| |].
    - assert (Eco : core (th' <| th_process := Some p |>) = (THREAD_READY, Some p, b)) by (injection Hco as Ea Eb Ec; unfold core; cbn; by rewrite Ea, Ec).
      rewrite Eco in HR2. cbn in HR2. rewrite insert_insert_eq in HR2. destruct HR2 as [Hv HF Hd Hdl Hn Hs Hp]. split; try done.
      cbn. cbn in Hp. rewrite Hp. done.
    - rewrite <- C1. by apply (frame_ctl s1 s2). }
  rewrite E2. cbn [mbind option_bind]. rewrite sched_add_put. assert (Ek : kq c s2 = kq c s) by (unfold kq; by rewrite (ctl_smp _ _ C2)). rewrite Ek.
  destruct (rep_kq s A c HR Hlen) as [l Hk].
  destruct (put_at_rep s2 A2 (kq c s) l t HR2) as (s3 & E3 & HR3 & F3); [done|cbn; rewrite lookup_insert_eq; by eexists|done|].
  exists s3. split; [done|]. pose proof (frame_ctl _ _ F3) as C3.
  assert (HA0 : AInv None None (smp_active s) (slots s)
    (A <| a_th := <[t := (THREAD_BLOCKED, pp, b)]> (a_th A) |> <| a_st := a_st A ∪ {[b]} |> <| a_pr := P |>)).
  { apply (ainv_birth _ _ A t b pp pr); [apply HI|done|by rewrite <- (rep_st _ _ HR)|done..| |by intros ->].
    intros p rec ->. rewrite <- (rep_pr _ _ HR). destruct (Hpr p rec eq_refl) as (? & ? & ?). done. }
  apply (ainv_ready _ _ _ t THREAD_BLOCKED pp b (kq c s) l) in HA0; try done; [|cbn; by rewrite lookup_insert_eq|unfold kq; by destruct (smp_active s)].
  cbn in HA0. rewrite insert_insert_eq in HA0.
  split.
  2:{ eapply keepsb_blocked; [apply HI|exact HR3|]. intros u p' b' _ Hu. cbn. rewrite lookup_insert_ne; [done|congruence]. }
  eexists. split; [exact HR3| |].
  - rewrite (ctl_smp _ _ C3), (ctl_slots _ _ C3), (ctl_smp _ _ C2), (ctl_slots _ _ C2). exact HA0.
  - rewrite (ctl_len _ _ C3), (ctl_len _ _ C2). apply HI.
Qed.

(** ** Runs *)

Inductive sop :=
| OYield (c : nat)
| OTick (c : nat)
| OBlock (c : nat)
| OWake (c t : nat)
| OExit (c : nat)
| OSignal (c p : nat) (signum : Z)
| OSpawn (c t : nat) (junk : thread) (b entry size : Z) (pr : option (nat * process)).

Definition sexec (o : sop) (s : sched) : option sched :=
  match o with
  | OYield c => sched_yield c s
  | OTick c => '(_, s) ← sched_tick c s; Some s
  | OBlock c => t ← get_current c s; sched_block c t s
  | OWake c t => sched_wake c t s
  | OExit c => thread_exit c s
  | OSignal c p signum => '(_, s) ← process_deliver_signal c p signum s; Some s
  | OSpawn c t junk b entry size pr => spawn c t junk b entry size pr s
  end.

(** Who may do what: processors that run call the scheduler, the idle threads do not
    block or end, a signal goes to a process that has not ended, and [SIGCONT] to one
    that is not on a processor; new objects are new. *)
Definition sguard (o : sop) (s : sched) : Prop :=
  match o with
  | OYield c | OTick c => ∃ t i, slots s !! c = Some (Some (t, i))
  | OBlock c | OExit c => ∃ t i, slots s !! c = Some (Some (t, i)) ∧ t ≠ i
  | OWake c t => (∃ t i, slots s !! c = Some (Some (t, i))) ∧ is_Some (threads s !! t)
  | OSignal c p signum =>
      (∃ t i, slots s !! c = Some (Some (t, i))) ∧
      ∃ pr, procs s !! p = Some pr ∧ p_exited pr = false ∧ (signum = SIGCONT → ∀ t, p_main pr = Some t → t ∉ currents s)
  | OSpawn c t junk b entry size pr =>
      (∃ t i, slots s !! c = Some (Some (t, i))) ∧ threads s !! t = None ∧ (b ∉ stacks s) ∧
      ∀ p rec, pr = Some (p, rec) → procs s !! p = None ∧ p_main rec = Some t ∧ p_wait rec = None
  end.

(** A thread that blocks leaves its processor: there was another one to run.  The code
    does not ensure it: with nobody ready, [schedule] returns to the blocked thread. *)
Definition leaves (o : sop) (s s' : sched) : Prop :=
  match o with OBlock c => slots s' ≠ slots s | _ => True end.

(** The states at the start: every processor runs its idle thread or the thread that
    boots, and nothing else exists. *)
Record start_ok (s : sched) : Prop := {
  so_queues : Forall (λ q, q = mk_queue None None) (all_queues s);
  so_dead : dead_head s = None;
  so_cpus : (0 < length (cpus s))%nat;
  so_procs : procs s = ∅;
  so_threads : ∀ t th, threads s !! t = Some th → th_process th = None ∧
    (t ∈ currents s ∧ th_state th = THREAD_RUNNING ∨ t ∈ idles s ∧ (t ∉ currents s) ∧ th_state th = THREAD_READY);
  so_live : ∀ t, t ∈ currents s ∨ t ∈ idles s → is_Some (threads s !! t);
  so_own : ∀ c t i, slots s !! c = Some (Some (t, i)) → t ∈ idles s → t = i;
  so_cnd : NoDup (currents s);
  so_ind : NoDup (idles s);
  so_stacks : ∀ t th, threads s !! t = Some th → th_stack_base th ≠ 0 → th_stack_base th ∈ stacks s;
  so_inj : ∀ t1 t2 h1 h2, threads s !! t1 = Some h1 → threads s !! t2 = Some h2 → th_stack_base h1 = th_stack_base h2 → th_stack_base h1 ≠ 0 → t1 = t2
}.

(** The states of runs that keep the rules; [SchedCases] shows what the code does in
    runs that do not. *)
Inductive sreach : sched → Prop :=
| sr_start s : start_ok s → sreach s
| sr_step o s s' : sreach s → sguard o s → sexec o s = Some s' → leaves o s s' → sreach s'.

Lemma start_inv s : start_ok s → ok s.
Proof.
  intros H. exists (mk_asched (view (threads s)) (replicate (length (all_queues s)) []) [] (stacks s) (procs s)).
  assert (Hv : ∀ t st p b, view (threads s) !! t = Some (st, p, b) → ∃ th, threads s !! t = Some th ∧ core th = (st, p, b)).
  { intros t st p b. unfold view. rewrite lookup_fmap, fmap_Some. intros (th & Ht & Hc). by exists th. }
  assert (Hc0 : concat (replicate (length (all_queues s)) ([] : list nat)) = []) by (clear; induction (length (all_queues s)) as [|n IHn]; [done|exact IHn]).
  split; [split|split|apply H]; cbn [a_th a_qs a_dl a_st a_pr]; try done.
  - apply Forall2_same_length_lookup_2; [by rewrite length_replicate|]. intros i l q [-> _]%lookup_replicate Hq.
    rewrite (proj1 (Forall_lookup _ _) (so_queues _ H) i q Hq). by repeat split.
  - apply H.
  - unfold linked. cbn [a_qs a_dl]. rewrite Hc0. apply NoDup_nil_2.
  - rewrite Hc0. set_solver.
  - intros t p b (th & Ht & Hco)%Hv. destruct (so_threads _ H t th Ht) as [_ [[_ ?]|(? & _)]]; [injection Hco as Hco _ _; congruence|]. right. by left.
  - set_solver.
  - intros t Ht. destruct (so_live _ H t (or_introl Ht)) as [th Hth]. destruct (so_threads _ H t th Hth) as [Hp [[_ Hs]|(_ & ? & _)]]; [|done].
    exists THREAD_RUNNING, None, (th_stack_base th). unfold view. rewrite lookup_fmap, Hth. cbn. unfold core. rewrite Hp, Hs. split_and!; [done..|by right].
  - intros t p b (th & Ht & Hco)%Hv. destruct (so_threads _ H t th Ht) as [_ [[? _]|(_ & _ & ?)]]; [done|]. injection Hco as Hco _ _. congruence.
  - intros i Hi. destruct (so_live _ H i (or_intror Hi)) as [th Hth]. destruct (so_threads _ H i th Hth) as [Hp Hs].
    exists (th_state th), (th_stack_base th). unfold view. rewrite lookup_fmap, Hth. cbn. unfold core. rewrite Hp. split; [done|].
    destruct Hs as [[_ ?]|(_ & _ & ?)]; auto.
  - apply H.
  - apply H.
  - apply H.
  - split; cbn.
    + intros t [[st p] b] (th & Ht & Hco)%Hv. cbn. injection Hco as _ _ <-. by eapply so_stacks.
    + intros t1 t2 [[s1 p1] b1] [[s2 p2] b2] (h1 & H1 & C1)%Hv (h2 & H2 & C2)%Hv. cbn. injection C1 as _ _ <-. injection C2 as _ _ <-. by eapply so_inj.
  - intros t st p b (th & Ht & Hco)%Hv. destruct (so_threads _ H t th Ht) as [Hp _]. injection Hco as _ Hco _. congruence.
  - rewrite (so_procs _ H). set_solver.
  - rewrite (so_procs _ H). set_solver.
  - intros k l [-> _]%lookup_replicate. done.
Qed.

(** The threads that an operation is about. *)
Definition about (o : sop) (s : sched) : list nat :=
  match o with
  | OYield _ | OBlock _ | OSpawn _ _ _ _ _ _ _ => []
  | OTick c | OExit c => option_list (get_current c s)
  | OWake _ t => [t]
  | OSignal _ p _ => match procs s !! p with Some pr => option_list (p_main pr) | None => [] end
  end.

Lemma sexec_ok o s : ok s → sguard o s → ∃ s', sexec o s = Some s' ∧ (leaves o s s' → ok s') ∧ stay_blocked (about o s) s s'.
Proof.
  intros Hok. destruct o as [c|c|c|c t|c|c p signum|c t junk b entry size pr]; cbn [sguard sexec leaves about].
  - intros (t & i & Hc). destruct (schedule_ok s c t i Hok Hc) as (s' & E & ? & ?). unfold sched_yield. by exists s'.
  - intros (t & i & Hc). destruct (tick_ok s c t i Hok Hc) as (r & s' & -> & ? & ?). rewrite (get_current_slot _ _ _ _ Hc). by exists s'.
  - intros (t & i & Hc & Hne). rewrite (get_current_slot _ _ _ _ Hc). cbn [mbind option_bind].
    destruct (block_ok s c t i Hok Hc Hne) as (s' & -> & Hr & Hb). exists s'. split_and!; [done| |done]. intros ?. by destruct Hr as [?|[? _]].
  - intros [(t0 & i & Hc) Ht]. destruct Hok as [A HI]. destruct (wake_ok s A c t HI) as (s' & -> & (? & _ & _ & ?)); [|done|by exists s'].
    by eapply slot_len, HI.
  - intros (t & i & Hc & Hne). destruct (exit_ok s c t i Hok Hc Hne) as (s' & -> & ? & ?). rewrite (get_current_slot _ _ _ _ Hc). by exists s'.
  - intros [(t & i & Hc) (pr & Hp & He & Hcont)]. destruct Hok as [A HI]. pose proof (inv_rep _ _ _ _ HI) as HR.
    rewrite Hp. destruct (p_main pr) as [t'|] eqn:Em.
    + pose proof Hp as Hp'. rewrite (rep_pr _ _ HR) in Hp. destruct (inv_e _ _ _ _ _ (inv_a _ _ _ _ HI) p pr t' Hp He Em) as (st & b & Ht').
      destruct (signal_ok s A c t' st p b pr signum HI) as (r & s' & -> & (? & _ & _ & ?)); try done; [by eapply slot_len, HI|intros ->; by apply Hcont|].
      by exists s'.
    + unfold process_deliver_signal. rewrite Hp. cbn [mbind option_bind]. rewrite Em. exists s. split_and!; [done|by exists A|by intros ?].
  - intros (Hc & Ht & Hb & Hpr). destruct (spawn_ok s c t junk b entry size pr Hok Hc Ht Hb Hpr) as (s' & -> & ? & ?). by exists s'.
Qed.

Lemma sreach_ok s : sreach s → ok s.
Proof.
  induction 1 as [s H|o s s' _ IH Hg He Hl]; [by apply start_inv|]. destruct (sexec_ok o s IH Hg) as (s1 & E & Hok & _). simplify_eq. by apply Hok.
Qed.
