(* ===== verification/SchedSpec.v ===== *)
(** * SchedSpec: what the scheduler promises

    Every run is safe, a thread is queued exactly when it is ready, and the thread at
    a position of a run queue runs after as many calls of the scheduler. *)

From stdpp Require Import gmap.
From S2P Require Import Prelude Ring Sched SchedQueue SchedRep SchedInv SchedSafe SchedRun.

(** ** Round robin *)

Lemma leave_own_queue k l t i A :
  a_qs A !! k = Some l → ∃ l', a_qs (a_leave k t i A) !! k = Some (l ++ l').
Proof.
  intros Hk. assert (Hid : ∃ l', a_qs A !! k = Some (l ++ l')) by (exists []; by rewrite app_nil_r).
  unfold a_leave. destruct (a_th A !! t) as [[[[] p] b]|]; try done; destruct (decide (t = i)); try done.
  cbn. rewrite list_lookup_alter_eq, Hk. cbn. eauto.
Qed.

Lemma schedule_head s A c t i n l :
  Inv None None s A → slots s !! c = Some (Some (t, i)) → a_qs A !! kq c s = Some (n :: l) →
  ∃ s' A' l', schedule c s = Some s' ∧ Inv None None s' A' ∧ slots s' = <[c := Some (n, i)]> (slots s) ∧
    kq c s' = kq c s ∧ a_qs A' !! kq c s = Some (l ++ l').
Proof.
  intros HI Hc Hq. destruct (reap_dead_rep s A (inv_rep _ _ _ _ HI) (inv_s _ _ _ _ _ (inv_a _ _ _ _ HI))) as (s1 & st1 & E1 & F1 & HR1 & Hst1).
  set (A1 := mk_asched _ _ _ _ _) in *. pose proof (frame_ctl _ _ F1) as C1.
  assert (HI1 : Inv None None s1 A1).
  { eapply inv_frame; [done..| |done]. apply ainv_reap; [apply HI|done|apply (inv_rep _ _ _ _ HI)]. }
  assert (Ek1 : kq c s1 = kq c s) by (unfold kq; by rewrite (ctl_smp _ _ C1)).
  destruct (take_at_rep s1 A1 (kq c s) n l HR1 Hq) as (s2 & E2 & HR2 & F2). pose proof (frame_ctl _ _ F2) as C2.
  set (A2 := A1 <| a_qs := <[kq c s := l]> (a_qs A1) |>) in *.
  assert (HI2 : Inv None (Some n) s2 A2).
  { split; [done| |rewrite (ctl_len _ _ C2); apply HI1]. rewrite (ctl_smp _ _ C2), (ctl_slots _ _ C2). eapply ainv_take; [apply HI1|apply HR1|done|done]. }
  assert (Ek2 : kq c s2 = kq c s) by (unfold kq; by rewrite (ctl_smp _ _ C2), (ctl_smp _ _ C1)).
  assert (Hc2 : slots s2 !! c = Some (Some (t, i))) by (by rewrite (ctl_slots _ _ C2), (ctl_slots _ _ C1)).
  destruct (finish_inv None (Some n) s2 A2 c t i (Some n) HI2 Hc2) as (s' & E' & [(? & _)|(n' & HI' & Hs' & _ & Hm' & _ & Hn' & _)]); [by left|done..|].
  destruct Hn' as [[= <-]|?]; [|done]. rewrite Ek2 in E', HI'.
  assert (Hq2 : a_qs A2 !! kq c s = Some l) by (cbn; rewrite list_lookup_insert_eq; [done|by eapply lookup_lt_Some]).
  destruct (leave_own_queue (kq c s) l t i A2 Hq2) as [l' Hl'].
  exists s', (a_run n (a_leave (kq c s) t i A2)), l'. split_and!; [|exact HI'|by rewrite Hs', (ctl_slots _ _ C2), (ctl_slots _ _ C1)| |exact Hl'].
  - unfold schedule. unfold kq in E2, E'. cbn [mbind option_bind] in E'. destruct (smp_active s) eqn:Em.
    + unfold schedule_smp. rewrite E1. cbn [mbind option_bind].
      destruct (slot_smp c s1 t i) as (pc & Hpc & Hcur & Hidle); [by rewrite (ctl_slots _ _ C1)|by rewrite (ctl_smp _ _ C1)|].
      rewrite Hpc. cbn [mbind option_bind]. rewrite Hcur. cbn [mbind option_bind]. cbn [take_at] in E2. rewrite E2. cbn [mbind option_bind]. rewrite Hidle. exact E'.
    + unfold schedule_single. rewrite E1. cbn [mbind option_bind].
      destruct (slot_single c s1 t i) as (_ & Hcur & Hidle); [by rewrite (ctl_slots _ _ C1)|by rewrite (ctl_smp _ _ C1)|].
      rewrite Hcur. cbn [mbind option_bind]. cbn [take_at] in E2. rewrite E2. cbn [mbind option_bind].
      destruct (frame_bsp _ _ F2) as (_ & Hb2 & _). rewrite Hb2, Hidle. exact E'.
  - unfold kq. by rewrite Hm', (ctl_smp _ _ C2), (ctl_smp _ _ C1).
Qed.

Definition reschedule (c : nat) (n : nat) (s : sched) : option sched := Nat.iter n (λ o, o ≫= schedule c) (Some s).

Lemma reschedule_S c n s : reschedule c (S n) s = schedule c s ≫= reschedule c n.
Proof.
  unfold reschedule. rewrite Nat.iter_succ_r. cbn [mbind option_bind]. destruct (schedule c s) as [s'|]; [done|].
  change (Nat.iter n (λ o : option sched, o ≫= schedule c) None = None). clear.
  induction n as [|n IH]; [done|]. rewrite Nat.iter_succ, IH. done.
Qed.

Lemma round_robin s A c cur i k l t :
  Inv None None s A → slots s !! c = Some (Some (cur, i)) → a_qs A !! kq c s = Some l → l !! k = Some t →
  ∃ s', reschedule c (S k) s = Some s' ∧ get_current c s' = Some t.
Proof.
  revert s A cur l. induction k as [|k IH]; intros s A cur l HI Hc Hq Hk; destruct l as [|n l]; try done; cbn in Hk.
  all: destruct (schedule_head s A c cur i n l HI Hc Hq) as (s' & A' & l' & E & HI' & Hs' & Ek & Hq').
  all: rewrite reschedule_S, E; cbn [mbind option_bind].
  all: assert (Hc' : slots s' !! c = Some (Some (n, i))) by (rewrite Hs', list_lookup_insert_eq; [done|by eapply lookup_lt_Some]).
  - injection Hk as <-. exists s'. split; [done|]. by eapply get_current_slot.
  - apply (IH s' A' n (l ++ l')); [done..|by rewrite Ek|]. rewrite lookup_app_l; [done|by eapply lookup_lt_Some].
Qed.

(** The links determine the list. *)
Lemma seg_inj h l l' : seg h l None → seg h l' None → first_or l None = first_or l' None → l = l'.
Proof.
  revert l'. induction l as [|x l IH]; intros [|y l']; cbn [seg first_or]; try done.
  intros [(th & Hx & Hn) Hs] [(th' & Hy & Hn') Hs'] [= ->]. simplify_eq. f_equal. apply IH; [done..|congruence].
Qed.
Lemma q_rep_inj h l l' q : q_rep h l q → q_rep h l' q → l = l'.
Proof.
  intros (H1 & _ & S1) (H2 & _ & S2). apply (seg_inj h); [done..|]. rewrite H1 in H2. by destruct l, l'.
Qed.

(** ** Theorems *)



(** C11.  The thread at position [k] of the run queue of a processor runs there after
    [k + 1] calls of the scheduler on that processor, if nothing else happens in
    between: no thread is overtaken.  The state is one of a run that keeps the rules of
    [sguard] and [leaves] (a thread that blocks finds another one to run, no signal to
    a process that exited, no [SIGCONT] to a thread on a processor, calls as single
    steps). *)
Theorem run_queue_fair s c cur i q l k t :
  sreach s → slots s !! c = Some (Some (cur, i)) → all_queues s !! kq c s = Some q → q_rep (threads s) l q → l !! k = Some t →
  ∃ s', reschedule c (S k) s = Some s' ∧ get_current c s' = Some t.
Proof.
  intros [A HI]%sreach_ok Hc Hq Hl Hk. pose proof (inv_rep _ _ _ _ HI) as HR.
  destruct (Forall2_lookup_r _ _ _ _ _ (rep_qs _ _ HR) Hq) as (l' & Hl' & Hr'). assert (l' = l) as -> by (by eapply q_rep_inj).
  by eapply round_robin.
Qed.
