(* ===== verification/Sync.v ===== *)
(** * Sync: mutexes and futexes

    Models [src/kernel/src/sync/mutex.c] and [src/kernel/src/sync/futex.c] over the
    scheduler of [Sched], and shows what they promise: at most one thread is inside
    of a mutex, waiters get it in the order in which they came, and a wake-up of a
    futex wakes the waiters of that word.

    The spin locks make each critical section atomic; a call that blocks ends, for
    this model, with the switch to another thread. *)

From stdpp Require Import gmap.
From S2P Require Import Prelude Ring Sched SchedQueue SchedRep SchedInv SchedSafe SchedRun.

Abbreviation MUTEX_WAIT_QUEUE_SIZE := 8%nat (only parsing).
Abbreviation FUTEX_MAX_WAITERS := 64%nat (only parsing).
Abbreviation futex_EFAULT := 14 (only parsing).
Abbreviation futex_EAGAIN := 11 (only parsing).
Abbreviation futex_ENOMEM := 12 (only parsing).

(** ** Mutexes *)

Record mutex := mk_mutex {
  mu_held : bool;
  mu_owner : option nat;
  mu_queue : list nat;      (* the array *)
  mu_count : nat
}.
#[export] Instance mutex_eta : Eta mutex := λ m, mk_mutex (mu_held m) (mu_owner m) (mu_queue m) (mu_count m).

Definition MUTEX_INIT : mutex := mk_mutex false None (replicate MUTEX_WAIT_QUEUE_SIZE O) 0.

(** [for (i = 1; i < n; i++) q[i - 1] = q[i]]. *)
Fixpoint shift_queue (i n : nat) (q : list nat) : list nat :=
  match n with
  | O => q
  | S n' => shift_queue (S i) n' (match q !! i with Some x => <[(i - 1)%nat := x]> q | None => q end)
  end.

(** The first component tells whether the call returned at once; otherwise the
    caller waits in it. *)
Definition mutex_lock (c : nat) (m : mutex) (s : sched) : option (bool * mutex * sched) :=
  self ← get_current c s;
  if negb (mu_held m) then Some (true, m <| mu_held := true |> <| mu_owner := Some self |>, s)
  else
    let m := if bool_decide (mu_count m < MUTEX_WAIT_QUEUE_SIZE)%nat
             then m <| mu_queue := <[mu_count m := self]> (mu_queue m) |> <| mu_count := S (mu_count m) |> else m in
    s ← set_state THREAD_BLOCKED self s;
    s ← schedule c s;
    Some (false, m, s).

Definition mutex_unlock (c : nat) (m : mutex) (s : sched) : option (mutex * sched) :=
  if bool_decide (0 < mu_count m)%nat then
    next ← mu_queue m !! O;
    let m := m <| mu_queue := shift_queue 1 (mu_count m - 1) (mu_queue m) |> <| mu_count := (mu_count m - 1)%nat |> <| mu_owner := Some next |> in
    s ← sched_wake c next s;
    Some (m, s)
  else Some (m <| mu_held := false |> <| mu_owner := None |>, s).

Definition mutex_trylock (c : nat) (m : mutex) (s : sched) : option (Z * mutex) :=
  self ← get_current c s;
  if negb (mu_held m) then Some (0, m <| mu_held := true |> <| mu_owner := Some self |>) else Some (-1, m).

(** ** Futexes *)

Record waiter := mk_waiter { fw_thread : nat; fw_phys : Z; fw_used : bool }.
#[export] Instance waiter_eta : Eta waiter := λ w, mk_waiter (fw_thread w) (fw_phys w) (fw_used w).

Definition futex_init (ws : list waiter) : list waiter := (λ w, w <| fw_used := false |>) <$> ws.

(** What a call ends with: a value, or the caller asleep. *)
Inductive futex_result := FRet (r : Z) | FSleep.

Section futex.
(** The page table entry that the page tables of a process have for an address, and
    the word that user memory holds. *)
Context (pte : Z → Z → option Z) (word : Z → Z).

Definition user_virt_to_phys (c : nat) (virt : Z) (s : sched) : option Z :=
  match get_current c s with
  | None => Some 0
  | Some t =>
      th ← threads s !! t;
      match th_process th with
      | None => Some 0
      | Some p =>
          pr ← procs s !! p;
          Some (match pte (p_cr3 pr) virt with
                | Some e => if Z.land e 1 =? 0 then 0 else Z.lor (Z.land e 0x000FFFFFFFFFF000) (Z.land virt 0xFFF)
                | None => 0
                end)
      end
  end.

Definition futex_wait (c : nat) (uaddr expected : Z) (ws : list waiter) (s : sched) : option (futex_result * list waiter * sched) :=
  phys ← user_virt_to_phys c uaddr s;
  if phys =? 0 then Some (FRet (- futex_EFAULT), ws, s)
  else if negb (word phys =? expected) then Some (FRet (- futex_EAGAIN), ws, s)
  else
    match find_idx (λ w, negb (fw_used w)) ws with
    | None => Some (FRet (- futex_ENOMEM), ws, s)
    | Some slot =>
        self ← get_current c s;
        let ws := <[slot := mk_waiter self phys true]> ws in
        s ← set_state THREAD_BLOCKED self s;
        s ← schedule c s;
        Some (FSleep, ws, s)
    end.

Fixpoint wake_loop (c : nat) (phys max woken : Z) (n i : nat) (ws : list waiter) (s : sched) : option (Z * list waiter * sched) :=
  match n with
  | O => Some (woken, ws, s)
  | S n' =>
      if woken <? max then
        w ← ws !! i;
        if fw_used w && (fw_phys w =? phys) then
          s ← sched_wake c (fw_thread w) s;
          wake_loop c phys max (woken + 1) n' (S i) (<[i := w <| fw_used := false |>]> ws) s
        else wake_loop c phys max woken n' (S i) ws s
      else Some (woken, ws, s)
  end.

Definition futex_wake (c : nat) (uaddr max : Z) (ws : list waiter) (s : sched) : option (Z * list waiter * sched) :=
  phys ← user_virt_to_phys c uaddr s;
  if phys =? 0 then Some (- futex_EFAULT, ws, s) else wake_loop c phys max 0 (length ws) 0 ws s.

Fixpoint cleanup_loop (c : nat) (pid : Z) (n i : nat) (ws : list waiter) (s : sched) : option (list waiter * sched) :=
  match n with
  | O => Some (ws, s)
  | S n' =>
      w ← ws !! i;
      if fw_used w then
        th ← threads s !! fw_thread w;
        match th_process th with
        | None => cleanup_loop c pid n' (S i) ws s
        | Some p =>
            pr ← procs s !! p;
            if p_pid pr =? pid then
              s ← sched_wake c (fw_thread w) s;
              cleanup_loop c pid n' (S i) (<[i := w <| fw_used := false |>]> ws) s
            else cleanup_loop c pid n' (S i) ws s
        end
      else cleanup_loop c pid n' (S i) ws s
  end.
Definition futex_cleanup_pid (c : nat) (pid : Z) (ws : list waiter) (s : sched) : option (list waiter * sched) :=
  cleanup_loop c pid (length ws) 0 ws s.
End futex.

(** ** The queue of a mutex *)

Definition mu_waiters (m : mutex) : list nat := take (mu_count m) (mu_queue m).

Lemma shift_queue_spec n i q :
  (0 < i)%nat → (i + n ≤ length q)%nat →
  length (shift_queue i n q) = length q ∧
  (∀ j, (j < i - 1 ∨ i + n - 1 ≤ j)%nat → shift_queue i n q !! j = q !! j) ∧
  (∀ j, (i - 1 ≤ j < i - 1 + n)%nat → shift_queue i n q !! j = q !! S j).
Proof.
  revert i q. induction n as [|n IH]; intros i q Hi Hl; cbn [shift_queue]; [split_and!; [done..|lia]|].
  destruct (lookup_lt_is_Some_2 q i ltac:(lia)) as [x Hx]. rewrite Hx. destruct (IH (S i) (<[(i - 1)%nat := x]> q)) as (H1 & H2 & H3); [lia|by rewrite length_insert; lia|].
  rewrite length_insert in H1. split_and!; [done|..].
  - intros j Hj. rewrite H2 by lia. rewrite list_lookup_insert_ne by lia. done.
  - intros j Hj. destruct (decide (j = i - 1)%nat) as [->|].
    + rewrite H2 by lia. rewrite list_lookup_insert_eq by lia. by replace (S (i - 1)) with i by lia.
    + rewrite H3 by lia. by rewrite list_lookup_insert_ne by lia.
Qed.

Lemma shift_queue_take q n : (S n ≤ length q)%nat → take n (shift_queue 1 n q) = drop 1 (take (S n) q).
Proof.
  intros Hl. destruct (shift_queue_spec n 1 q ltac:(lia) ltac:(lia)) as (H1 & _ & H3). apply list_eq. intros j.
  rewrite lookup_drop. destruct (decide (j < n)%nat).
  - rewrite !lookup_take_lt by lia. rewrite H3 by lia. done.
  - rewrite !lookup_take_ge by lia. done.
Qed.

Definition mutex_wf (m : mutex) : Prop := length (mu_queue m) = MUTEX_WAIT_QUEUE_SIZE ∧ (mu_count m ≤ MUTEX_WAIT_QUEUE_SIZE)%nat.

Lemma mu_waiters_lookup0 m : mutex_wf m → (0 < mu_count m)%nat → mu_queue m !! O = head (mu_waiters m).
Proof. intros [Hl Hc] H0. unfold mu_waiters. destruct (mu_queue m) as [|x q], (mu_count m); try lia; try done. Qed.

(** ** Threads that use a mutex *)

(** The mutex, the scheduler, the threads that are past [mutex_lock] and the threads
    that are inside of it. *)
Record mst := mk_mst { ms_m : mutex; ms_s : sched; ms_cs : list nat; ms_wait : list nat }.

Inductive mop := MLock (c : nat) | MTry (c : nat) | MReturn (c : nat) | MUnlock (c : nat) | MOther (o : sop).

Definition mexec (o : mop) (st : mst) : option mst :=
  let '(mk_mst m s cs wait) := st in
  match o with
  | MLock c =>
      t ← get_current c s;
      '(now, m, s) ← mutex_lock c m s;
      Some (if now : bool then mk_mst m s (t :: cs) wait else mk_mst m s cs (t :: wait))
  | MTry c =>
      t ← get_current c s;
      '(r, m) ← mutex_trylock c m s;
      Some (mk_mst m s (if r =? 0 then t :: cs else cs) wait)
  | MReturn c => t ← get_current c s; Some (mk_mst m s (t :: cs) (filter (λ u, u ≠ t) wait))
  | MUnlock c =>
      t ← get_current c s;
      '(m, s) ← mutex_unlock c m s;
      Some (mk_mst m s (filter (λ u, u ≠ t) cs) wait)
  | MOther o => s ← sexec o s; Some (mk_mst m s cs wait)
  end.

(** A thread does not lock a mutex that it has, unlocks only one that it has, and
    returns from [mutex_lock] when it runs again; nothing else wakes, stops or kills a
    thread that sleeps in [mutex_lock]. *)
Definition mguard (o : mop) (st : mst) : Prop :=
  let s := ms_s st in
  match o with
  | MLock c | MTry c => ∃ t i, slots s !! c = Some (Some (t, i)) ∧ t ≠ i ∧ (t ∉ ms_cs st) ∧ (t ∉ ms_wait st)
  | MReturn c => ∃ t i, slots s !! c = Some (Some (t, i)) ∧ t ∈ ms_wait st
  | MUnlock c => ∃ t i, slots s !! c = Some (Some (t, i)) ∧ t ∈ ms_cs st
  | MOther o => sguard o s ∧ ∀ u, u ∈ about o s → u ∈ ms_wait st → state_of u s ≠ Some THREAD_BLOCKED
  end.

(** A thread that has to wait finds another one to run. *)
Definition mleaves (o : mop) (st st' : mst) : Prop :=
  match o with
  | MLock c => ms_wait st' = ms_wait st ∨ slots (ms_s st') ≠ slots (ms_s st)
  | MOther o => leaves o (ms_s st) (ms_s st')
  | _ => True
  end.

Inductive mreach : mst → Prop :=
| mr_start s : sreach s → mreach (mk_mst MUTEX_INIT s [] [])
| mr_step o st st' : mreach st → mguard o st → mexec o st = Some st' → mleaves o st st' → mreach st'.

Record MInv (st : mst) : Prop := {
  mi_wf : mutex_wf (ms_m st);
  mi_ok : ok (ms_s st);
  mi_free : mu_held (ms_m st) = false → ms_cs st = [] ∧ mu_waiters (ms_m st) = [];
  mi_held : mu_held (ms_m st) = true → ∃ o, mu_owner (ms_m st) = Some o ∧ (o ∉ mu_waiters (ms_m st)) ∧
    (ms_cs st = [o] ∧ (o ∉ ms_wait st) ∨ ms_cs st = [] ∧ o ∈ ms_wait st);
  mi_wait : ∀ w, w ∈ ms_wait st → (mu_held (ms_m st) = true ∧ mu_owner (ms_m st) = Some w) ∨ state_of w (ms_s st) = Some THREAD_BLOCKED;
  mi_sub : ∀ w, w ∈ mu_waiters (ms_m st) → w ∈ ms_wait st;
  mi_nd : NoDup (mu_waiters (ms_m st))
}.

Lemma current_not_blocked s c t i : ok s → slots s !! c = Some (Some (t, i)) → state_of t s ≠ Some THREAD_BLOCKED.
Proof.
  intros [A HI] Hc Hb. destruct (cur_of_lookup _ _ _ _ Hc) as [Hcur _].
  destruct (inv_c _ _ _ _ _ (inv_a _ _ _ _ HI) t Hcur) as (st & p & b & Ht & _ & [?|?]); [done|].
  rewrite (state_of_rep _ _ _ _ (inv_rep _ _ _ _ HI) Ht) in Hb. by injection Hb.
Qed.

Lemma waiters_enqueue m t :
  mutex_wf m → (mu_count m < MUTEX_WAIT_QUEUE_SIZE)%nat →
  let m' := m <| mu_queue := <[mu_count m := t]> (mu_queue m) |> <| mu_count := S (mu_count m) |> in
  mutex_wf m' ∧ mu_waiters m' = mu_waiters m ++ [t].
Proof.
  intros [Hl Hc] Hlt m'. unfold mutex_wf, mu_waiters, m'. cbn. rewrite length_insert. split; [lia|].
  rewrite (take_S_r _ _ t) by (rewrite list_lookup_insert_eq; [done|lia]). by rewrite take_insert_ge by lia.
Qed.

Lemma lock_inv c st st' :
  MInv st → mguard (MLock c) st → mexec (MLock c) st = Some st' → mleaves (MLock c) st st' → MInv st'.
Proof.
  intros HI (t & i & Hc & Hti & Hcs & Hw). destruct st as [m s cs wait]. cbn in *. rewrite (get_current_slot _ _ _ _ Hc). cbn [mbind option_bind].
  unfold mutex_lock. rewrite (get_current_slot _ _ _ _ Hc). cbn [mbind option_bind]. destruct HI as [Hwf Hok Hfree Hheld Hwait Hsub Hnd]. cbn in *.
  destruct (mu_held m) eqn:Eh; cbn [negb].
  - destruct (Hheld eq_refl) as (o & Ho & How & Hocs). assert (Hto : t ≠ o) by (intros ->; destruct Hocs as [[-> _]|[_ ?]]; [set_solver|done]).
    destruct (block_ok s c t i Hok Hc Hti) as (s' & E' & Hr & Hb). unfold sched_block in E'.
    set (m1 := if bool_decide _ then _ else m).
    destruct (set_state THREAD_BLOCKED t s) as [s1|]; [|done]. cbn [mbind option_bind] in *. rewrite E'. cbn [mbind option_bind]. intros [= <-] Hl. cbn in *.
    destruct Hl as [Hl|Hl]; [by apply (f_equal length) in Hl; cbn in Hl; lia|]. destruct Hr as [?|[Hok' Htb]]; [done|].
    assert (Hm1 : mutex_wf m1 ∧ (mu_waiters m1 = mu_waiters m ++ [t] ∨ mu_waiters m1 = mu_waiters m) ∧ mu_held m1 = true ∧ mu_owner m1 = Some o).
    { unfold m1. case_bool_decide as Hlt; [|by split_and!; [..|right| |]]. destruct (waiters_enqueue m t Hwf Hlt) as [? ?]. by split_and!; [|left|..]. }
    destruct Hm1 as (Hwf1 & Hw1 & Hh1 & Ho1). assert (Htw : t ∉ mu_waiters m) by (intros ?; by apply Hw, Hsub).
    split; cbn; try done; try congruence.
    + intros _. exists o. split_and!; [done|destruct Hw1 as [-> | ->]; set_solver|set_solver].
    + intros w [->|Hin]%elem_of_cons; [by right|]. rewrite Ho1, Hh1. destruct (Hwait w Hin) as [[_ ?]|?]; [left; split; [done|congruence]|]. right. apply Hb; [set_solver|done].
    + intros w Hin. destruct Hw1 as [E|E]; rewrite E in Hin; set_solver.
    + destruct Hw1 as [-> | ->]; [|done]. apply NoDup_app. split_and!; [done|set_solver|apply NoDup_singleton].
  - destruct (Hfree eq_refl) as [-> Hnw]. intros [= <-] _. split; cbn; try done.
    + intros _. exists t. split_and!; [done|set_solver|]. left. done.
    + intros w Hin. destruct (Hwait w Hin) as [[? _]|?]; [done|by right].
Qed.

Lemma trylock_inv c st st' :
  MInv st → mguard (MTry c) st → mexec (MTry c) st = Some st' → MInv st'.
Proof.
  intros HI (t & i & Hc & Hti & Hcs & Hw). destruct st as [m s cs wait]. cbn in *. rewrite (get_current_slot _ _ _ _ Hc). cbn [mbind option_bind].
  unfold mutex_trylock. rewrite (get_current_slot _ _ _ _ Hc). cbn [mbind option_bind]. destruct HI as [Hwf Hok Hfree Hheld Hwait Hsub Hnd]. cbn in *.
  destruct (mu_held m) eqn:Eh; cbn; intros [= <-].
  - split; cbn; try done; rewrite Eh; done.
  - destruct (Hfree eq_refl) as [-> Hnw]. split; cbn; try done.
    + intros _. exists t. split_and!; [done|set_solver|]. left. done.
    + intros w Hin. destruct (Hwait w Hin) as [[? _]|?]; [done|by right].
Qed.

Lemma return_inv c st st' :
  MInv st → mguard (MReturn c) st → mexec (MReturn c) st = Some st' → MInv st'.
Proof.
  intros HI (t & i & Hc & Hw). destruct st as [m s cs wait]. cbn in *. rewrite (get_current_slot _ _ _ _ Hc). cbn [mbind option_bind].
  destruct HI as [Hwf Hok Hfree Hheld Hwait Hsub Hnd]. cbn in *. intros [= <-].
  destruct (Hwait t Hw) as [[Eh Et]|Hb]; [|by apply (current_not_blocked s c t i) in Hb].
  destruct (Hheld Eh) as (o & Ho & How & Hocs). simplify_eq. destruct Hocs as [[_ ?]|[-> _]]; [done|].
  split; cbn; try done; try congruence.
  - intros _. exists t. split_and!; [done..|]. left. split; [done|]. rewrite list_elem_of_filter. tauto.
  - intros w [Hne Hin]%list_elem_of_filter. destruct (Hwait w Hin) as [[_ ?]|?]; [congruence|by right].
  - intros w Hin. apply list_elem_of_filter. split; [by intros ->|by apply Hsub].
Qed.

Lemma unlock_inv c st st' :
  MInv st → mguard (MUnlock c) st → mexec (MUnlock c) st = Some st' → MInv st'.
Proof.
  intros HI (t & i & Hc & Hcs). destruct st as [m s cs wait]. cbn in *. rewrite (get_current_slot _ _ _ _ Hc). cbn [mbind option_bind].
  destruct HI as [Hwf Hok Hfree Hheld Hwait Hsub Hnd]. cbn in *.
  destruct (mu_held m) eqn:Eh; [|destruct (Hfree eq_refl) as [-> _]; set_solver].
  destruct (Hheld eq_refl) as (o & Ho & How & [[-> Hon]|[-> _]]); [|set_solver]. assert (t = o) as -> by set_solver.
  assert (Hf : filter (λ u, u ≠ o) [o] = []) by (rewrite filter_cons_False; [done|tauto]).
  unfold mutex_unlock. case_bool_decide as Hcnt.
  - rewrite (mu_waiters_lookup0 m Hwf Hcnt). destruct (mu_waiters m) as [|n l] eqn:Ew; [done|]. cbn [head mbind option_bind].
    assert (Hnw : n ∈ wait) by (apply Hsub; set_solver). apply NoDup_cons in Hnd as [Hnl Hnd].
    assert (Hno : n ≠ o) by set_solver. assert (Hnb : state_of n s = Some THREAD_BLOCKED) by (destruct (Hwait n Hnw) as [[_ ?]|?]; [congruence|done]).
    destruct Hok as [A HA]. destruct (wake_ok s A c n HA) as (s' & -> & (Hok' & _ & _ & Hb)).
    { eapply slot_len; [exact Hc|apply HA]. } { unfold state_of in Hnb. destruct (threads s !! n); [by eexists|done]. }
    cbn [mbind option_bind]. intros [= <-]. rewrite Hf. destruct Hwf as [Hl Hle].
    assert (Ew' : take (mu_count m - 1) (shift_queue 1 (mu_count m - 1) (mu_queue m)) = l).
    { rewrite shift_queue_take by lia. replace (S (mu_count m - 1)) with (mu_count m) by lia. unfold mu_waiters in Ew. by rewrite Ew. }
    split; cbn; try done; try congruence; try (unfold mu_waiters; cbn; rewrite Ew').
    + split; [|cbn; lia]. cbn. destruct (shift_queue_spec (mu_count m - 1) 1 (mu_queue m)) as (-> & _); [lia|lia|done].
    + intros _. exists n. split_and!; [done|done|]. by right.
    + intros w Hin. destruct (decide (w = n)) as [->|Hwn]; [by left|]. right. apply Hb; [set_solver|]. destruct (Hwait w Hin) as [[_ ?]|?]; [congruence|done].
    + intros w Hin. apply Hsub. set_solver.
  - intros [= <-]. rewrite Hf. assert (Hw0 : mu_waiters m = []) by (unfold mu_waiters; by replace (mu_count m) with O by lia).
    split; cbn; try done.
    intros w Hin. destruct (Hwait w Hin) as [[_ ?]|?]; [exfalso; congruence|by right].
Qed.

Lemma other_inv o st st' :
  MInv st → mguard (MOther o) st → mexec (MOther o) st = Some st' → mleaves (MOther o) st st' → MInv st'.
Proof.
  intros HI [Hg Hab]. destruct st as [m s cs wait]. cbn in *. destruct HI as [Hwf Hok Hfree Hheld Hwait Hsub Hnd]. cbn in *.
  destruct (sexec_ok o s Hok Hg) as (s' & -> & Hok' & Hb). cbn [mbind option_bind]. intros [= <-] Hl. cbn in Hl. split; cbn; try done; [by apply Hok'|].
  intros w Hin. destruct (Hwait w Hin) as [?|Hbw]; [by left|]. right. apply Hb; [|done]. intros Hin'. by eapply Hab.
Qed.

Lemma mreach_inv st : mreach st → MInv st.
Proof.
  induction 1 as [s Hs|o st st' _ IH Hg He Hl].
  - split; cbn; [split; cbn; lia|by apply sreach_ok|done|done|set_solver|set_solver|apply NoDup_nil_2].
  - destruct o; [by eapply lock_inv|by eapply trylock_inv|by eapply return_inv|by eapply unlock_inv|by eapply other_inv].
Qed.

(** C12.  A mutex excludes in runs that keep the rules of [mguard], [mleaves] and the
    scheduler.  The rules, none of which the code checks: a thread that has to wait
    finds another one to run (otherwise [schedule] returns into [mutex_lock], which
    then returns without the lock); nothing but [mutex_unlock] wakes, stops or kills a
    thread that sleeps in [mutex_lock]; a thread locks a mutex it does not have and
    unlocks only one it has; each call runs as one step.  Then at most one thread is
    past [mutex_lock] and has not called [mutex_unlock] yet, and it is the owner of the
    mutex; and a thread that waits in [mutex_lock] stays blocked until the mutex is
    handed to it, which for a ninth waiter is never. *)
Theorem mutex_exclusion st :
  mreach st →
  (∀ t u, t ∈ ms_cs st → u ∈ ms_cs st → t = u ∧ mu_held (ms_m st) = true ∧ mu_owner (ms_m st) = Some t) ∧
  (∀ w, w ∈ ms_wait st → mu_owner (ms_m st) ≠ Some w → state_of w (ms_s st) = Some THREAD_BLOCKED).
Proof.
  intros HI%mreach_inv. split.
  - intros t u Ht Hu. destruct (mu_held (ms_m st)) eqn:Eh.
    + destruct (mi_held _ HI Eh) as (o & Ho & _ & [[E _]|[E _]]); rewrite E in Ht, Hu; set_solver.
    + destruct (mi_free _ HI Eh) as [E _]. rewrite E in Ht. set_solver.
  - intros w Hw Hne. by destruct (mi_wait _ HI w Hw) as [[_ ?]|?].
Qed.
