(* ===== verification/SchedCases.v ===== *)
(** * SchedCases: runs of the scheduler

    A small system with two processors.  It shows that the states of [SchedSpec] and
    [Sync] exist, and what happens when a condition of [sguard], [leaves] or [mguard]
    does not hold: the code does not check them. *)

From stdpp Require Import gmap.
From S2P Require Import Prelude Ring Sched SchedQueue SchedRep SchedInv SchedSafe SchedRun SchedSpec Sync.

(** ** Two processors *)

Definition a_thread (st : thread_state) (b : Z) : thread := mk_thread 0 st (CtxNew 1) b 32768 None None 0 0 0.
Definition a_cpu (cur idle : nat) : percpu := mk_percpu (mk_queue None None) (Some cur) (Some idle) true 0 1 0.

(** The idle threads are 0 and 1; thread 2 boots on processor 0. *)
Definition boot2 : sched :=
  mk_sched (<[0%nat := a_thread THREAD_READY 4096]> (<[1%nat := a_thread THREAD_RUNNING 8192]> {[2%nat := a_thread THREAD_RUNNING 0]}))
    ∅ {[4096; 8192]} (mk_queue None None) None (Some 2%nat) (Some 0%nat) true [a_cpu 2 0; a_cpu 1 1] 1 0 (replicate MAX_PROCS None) 1 3 [].

Lemma boot2_threads t th :
  threads boot2 !! t = Some th →
  (t = 0%nat ∧ th = a_thread THREAD_READY 4096) ∨ (t = 1%nat ∧ th = a_thread THREAD_RUNNING 8192) ∨ (t = 2%nat ∧ th = a_thread THREAD_RUNNING 0).
Proof.
  cbn. rewrite !lookup_insert_Some, lookup_singleton_Some. naive_solver.
Qed.

Lemma boot2_ok : start_ok boot2.
Proof.
  split.
  - by repeat constructor.
  - done.
  - cbn. lia.
  - done.
  - intros t th H. split; [by destruct (boot2_threads t th H) as [[_ ->]|[[_ ->]|[_ ->]]]|].
    destruct (boot2_threads t th H) as [[-> ->]|[[-> ->]|[-> ->]]]; cbn; set_solver.
  - intros t Ht. assert (Hc : t = 0%nat ∨ t = 1%nat ∨ t = 2%nat) by (cbn in Ht; set_solver).
    destruct Hc as [-> | [-> | ->]]; by eexists.
  - intros c t i Hc Hid. cbn in Hc, Hid. destruct c as [|[|c]]; cbn in Hc; simplify_eq; set_solver.
  - cbn. apply (bool_decide_unpack _). by vm_compute.
  - cbn. apply (bool_decide_unpack _). by vm_compute.
  - intros t th H Hb. destruct (boot2_threads t th H) as [[-> ->]|[[-> ->]|[-> ->]]]; cbn in *; set_solver.
  - intros t1 t2 h1 h2 H1 H2.
    destruct (boot2_threads t1 h1 H1) as [[-> ->]|[[-> ->]|[-> ->]]], (boot2_threads t2 h2 H2) as [[-> ->]|[[-> ->]|[-> ->]]]; cbn; done.
Qed.

(** A run of operations. *)
Fixpoint srun (os : list sop) (s : sched) : option sched :=
  match os with [] => Some s | o :: os => s ← sexec o s; srun os s end.

Definition junk : thread := mk_thread 0 THREAD_READY CtxNull 0 0 None None 0 0 0.
Definition a_proc (pid uid pgid : Z) (t : nat) : process :=
  mk_process pid 1 pgid uid 0 0 0 false (4096 * pid) (Some t) None 0 0 (mk_ring (replicate SIG_QUEUE_SIZE 0) 0 0 0)
    (replicate 32 (0, 0)) (replicate 4 0) 0 None.

(** Thread 3 is the process 0, with pid 10; thread 4 belongs to the kernel. *)
Definition spawn3 : sop := OSpawn 0 3 junk 12288 7 0 (Some (0%nat, a_proc 10 0 10 3)).
Definition spawn4 : sop := OSpawn 0 4 junk 16384 7 0 None.

Definition after (os : list sop) : sched := match srun os boot2 with Some s => s | None => boot2 end.

Lemma reach3 : sreach (after [spawn3]).
Proof.
  apply (sr_step spawn3 boot2); [apply sr_start, boot2_ok| |by vm_compute|done].
  split_and!; [by exists 2%nat, 0%nat|done|apply (bool_decide_unpack _); by vm_compute|]. intros p rec [= <- <-]. done.
Qed.
Lemma reach34 : sreach (after [spawn3; spawn4]).
Proof.
  apply (sr_step spawn4 (after [spawn3])); [apply reach3| |by vm_compute|done].
  split_and!; [exists 2%nat, 0%nat; by vm_compute|by vm_compute|apply (bool_decide_unpack _); by vm_compute|done].
Qed.



Lemma run_queue_fair_witness :
  ∃ s', reschedule 0 2 (after [spawn3; spawn4]) = Some s' ∧ get_current 0 s' = Some 4%nat.
Proof.
  apply (run_queue_fair (after [spawn3; spawn4]) 0 2 0 (mk_queue (Some 3%nat) (Some 4%nat)) [3%nat; 4%nat] 1 4); [apply reach34|by vm_compute|by vm_compute| |done].
  split_and!; [done|done|]. cbn. split; [eexists; split; [by vm_compute|done]|]. split; [eexists; split; [by vm_compute|done]|done].
Defined.

(** [mutex_exclusion]: thread 2 has the mutex. *)
Definition locked2 : mst := match mexec (MLock 0) (mk_mst MUTEX_INIT (after [spawn3; spawn4]) [] []) with Some st => st | None => mk_mst MUTEX_INIT boot2 [] [] end.
Lemma mutex_exclusion_witness : mreach locked2 ∧ mu_owner (ms_m locked2) = Some 2%nat.
Proof.
  assert (Hr : mreach locked2).
  { apply (mr_step (MLock 0) (mk_mst MUTEX_INIT (after [spawn3; spawn4]) [] [])); [apply mr_start, reach34| |by vm_compute|by left].
    exists 2%nat, 0%nat. split_and!; [by vm_compute|done|set_solver..]. }
  split; [exact Hr|]. apply (proj1 (mutex_exclusion locked2 Hr) 2%nat 2%nat); apply (bool_decide_unpack _); by vm_compute.
Defined.

(** ** Where the conditions are needed *)

(** A thread that waits for a mutex when no other thread is ready goes on as if it had
    the mutex: [schedule] returns to it. *)
Theorem mutex_lock_returns_without_lock :
  ∃ m s, mutex_lock 0 (mk_mutex true (Some 1%nat) (replicate 8 0%nat) 0) boot2 = Some (false, m, s) ∧
    get_current 0 s = Some 2%nat ∧ mu_owner m = Some 1%nat.
Proof. eexists _, _. split; [by vm_compute|]. by vm_compute. Qed.

(** The ninth thread that waits for a mutex is in no queue. *)
Definition full_mutex : mutex := mk_mutex true (Some 1%nat) (replicate 8 1%nat) 8.
Theorem ninth_waiter_is_lost :
  ∃ s, mutex_lock 0 full_mutex (after [spawn3]) = Some (false, full_mutex, s) ∧
    state_of 2 s = Some THREAD_BLOCKED ∧ get_current 0 s = Some 3%nat.
Proof. eexists. split; [by vm_compute|]. by vm_compute. Qed.

(** A thread that is woken between its change to blocked and its call of [schedule]
    runs on two processors. *)
Theorem woken_thread_runs_twice :
  ∃ s, (s ← set_state THREAD_BLOCKED 2 boot2; s ← sched_wake 1 2 s; schedule 1 s) = Some s ∧ currents s = [2%nat; 2%nat].
Proof. eexists. split; [by vm_compute|]. by vm_compute. Qed.

(** Thread 3, which is process 0, runs on processor 0. *)
Definition running3 : sched := after [spawn3; OYield 0].

(** A process that is stopped and continued while it runs is on two processors. *)
Theorem continued_thread_runs_twice :
  ∃ s, srun [OSignal 1 0 SIGSTOP; OSignal 1 0 SIGCONT; OYield 1] running3 = Some s ∧ currents s = [3%nat; 3%nat].
Proof. eexists. split; [by vm_compute|]. by vm_compute. Qed.

(** A process that is killed while it sleeps never counts as exited: its thread is
    dead but in no list, so nobody who waits for it is woken. *)
Theorem killed_sleeper_never_exits :
  ∃ s, srun [OBlock 0; OSignal 1 0 SIGKILL; OWake 1 3; OYield 0; OYield 1] running3 = Some s ∧
    state_of 3 s = Some THREAD_DEAD ∧ (p_exited <$> procs s !! 0%nat) = Some false ∧ dead_head s = None.
Proof. eexists. split; [by vm_compute|]. by vm_compute. Qed.

(** A signal to a process whose thread has been freed, before its parent waits for
    it, follows the pointer to the thread. *)
Theorem signal_to_zombie_is_undefined :
  ∃ s, srun [OExit 0; OYield 0] running3 = Some s ∧ is_Some (procs s !! 0%nat) ∧ process_deliver_signal 1 0 SIGKILL s = None.
Proof. eexists. split; [by vm_compute|]. split; [by eexists|]. by vm_compute. Qed.

(** A process that is killed while it runs forgets it when it blocks: it is woken and
    runs again. *)
Theorem kill_lost_by_block :
  ∃ s, srun [OSignal 1 0 SIGKILL; OBlock 0; OWake 1 3; OYield 1] running3 = Some s ∧ state_of 3 s = Some THREAD_RUNNING.
Proof. eexists. split; [by vm_compute|]. by vm_compute. Qed.

(** Another processor may reap a dead thread before its own processor has left its
    stack: the switch then uses freed memory. *)
Theorem reap_frees_running_thread :
  ∃ s, (s ← set_state THREAD_DEAD 3 running3; s ← bury (local_enqueue 0) 3 s; reap_dead s) = Some s ∧
    get_current 0 s = Some 3%nat ∧ do_switch 0 3 0 s = None.
Proof. eexists. split; [by vm_compute|]. by vm_compute. Qed.

(** A process without any right may not kill a process of another user, but its whole
    group. *)
Definition user_system : option sched :=
  s ← srun [spawn3; OSpawn 0 5 junk 20480 7 0 (Some (1%nat, a_proc 11 1000 11 5)); OYield 0; OYield 0] boot2;
  '(_, s) ← process_register 0 s;
  '(_, s) ← process_register 1 s;
  Some s.
Theorem group_kill_needs_no_permission :
  ∃ s s', user_system = Some s ∧ get_current 0 s = Some 5%nat ∧
    sys_kill 0 10 SIGKILL s = Some (- sched_EPERM, s) ∧
    sys_kill 0 (-10) SIGKILL s = Some (0, s') ∧ state_of 3 s' = Some THREAD_DEAD.
Proof. eexists _, _. split; [by vm_compute|]. by vm_compute. Qed.
