(* ===== verification/Signals.v ===== *)
(** * Signals: masks, handlers and delivery

    Models [src/kernel/src/syscall/sys_signal.c] and the delivery of pending signals
    at the end of [syscall_dispatch] ([src/kernel/src/syscall/syscall.c], x86-64).
    A signal frame is four words of physical memory.  The page walk that finds them,
    and makes the page a copy of its own before it is written, is the argument
    [xlate]. *)

From stdpp Require Import gmap.
From S2P Require Import Prelude Ring Sched.

Abbreviation SIG_DFL := 0 (only parsing).
Abbreviation SIG_IGN := 1 (only parsing).
Abbreviation SIG_BLOCK := 0 (only parsing).
Abbreviation SIG_UNBLOCK := 1 (only parsing).
Abbreviation SIG_SETMASK := 2 (only parsing).
Abbreviation SA_RESTART := 1 (only parsing).
Abbreviation SIGTSTP := 21 (only parsing).
Abbreviation SIGTTIN := 22 (only parsing).
Abbreviation SIGTTOU := 23 (only parsing).
Abbreviation MAX_SIGNAL_DEPTH := 4 (only parsing).
Abbreviation sig_USER_ADDR_MAX := 0x0000800000000000 (only parsing).
Abbreviation sig_EFAULT := 14 (only parsing).

Definition sys_sigaction (signum handler flags : Z) (pr : process) : Z * process :=
  if MAX_SIGNALS <=? signum then (-1, pr)
  else if (signum =? SIGKILL) || (signum =? SIGSTOP) then (-1, pr)
  else if (SIG_IGN <? handler) && (sig_USER_ADDR_MAX <=? handler) then (- sig_EFAULT, pr)
  else (0, pr <| p_handlers := <[Z.to_nat signum := (handler, u32 flags)]> (p_handlers pr) |>).

(** The mask as the caller may set it. *)
Definition safe_mask (new : Z) : Z := Z.land (u32 new) (u32 (Z.lnot (Z.lor (Z.shiftl 1 SIGKILL) (Z.shiftl 1 SIGSTOP)))).

Definition change_mask (how new : Z) (pr : process) : Z * process :=
  let m := safe_mask new in
  if how =? SIG_BLOCK then (0, pr <| p_mask := Z.lor (p_mask pr) m |>)
  else if how =? SIG_UNBLOCK then (0, pr <| p_mask := Z.land (p_mask pr) (u32 (Z.lnot m)) |>)
  else if how =? SIG_SETMASK then (0, pr <| p_mask := m |>)
  else (-1, pr).

(** The result also tells the physical address and the value of the old mask, when it
    is stored. *)
Definition sys_sigprocmask (validate : Z → bool) (xlate : Z → option Z) (how new old_mask_ptr : Z) (pr : process) : Z * process * option (Z * Z) :=
  if old_mask_ptr =? 0 then (change_mask how new pr, None)
  else if negb (validate old_mask_ptr) then (- sig_EFAULT, pr, None)
  else (change_mask how new pr, (λ ph, (ph, p_mask pr)) <$> xlate old_mask_ptr).

(** ** Delivery *)

(** [for (j = qi; j < count - 1; j++) signum[(head + j) % N] = signum[(head + j + 1) % N]],
    for [n] rounds. *)
Fixpoint shift_sigs (n j head : nat) (b : list Z) : list Z :=
  match n with
  | O => b
  | S n' =>
      let from := ((head + j + 1) mod SIG_QUEUE_SIZE)%nat in
      let to := ((head + j) mod SIG_QUEUE_SIZE)%nat in
      shift_sigs n' (S j) head (<[to := b !!! from]> b)
  end.

(** The first queued duplicate of [sig], from position [qi] on, is removed. *)
Fixpoint drop_dup (n qi : nat) (sig : Z) (q : ring Z) : option (ring Z) :=
  match n with
  | O => None
  | S n' =>
      if r_buf q !!! ((r_head q + qi) mod SIG_QUEUE_SIZE)%nat =? sig then
        Some (q <| r_buf := shift_sigs (r_count q - 1 - qi) qi (r_head q) (r_buf q) |> <| r_count := (r_count q - 1)%nat |>)
      else drop_dup n' (S qi) sig q
  end.

Definition has_bit (m sig : Z) : bool := negb (Z.land m (Z.shiftl 1 sig) =? 0).

(** The signal is no longer pending, unless a duplicate was queued. *)
Definition take_signal (sig : Z) (pr : process) : process :=
  let pr := pr <| p_pending := Z.land (p_pending pr) (u32 (Z.lnot (Z.shiftl 1 sig))) |> in
  match drop_dup (r_count (p_sigq pr)) 0 sig (p_sigq pr) with
  | Some q => pr <| p_sigq := q |> <| p_pending := Z.lor (p_pending pr) (Z.shiftl 1 sig) |>
  | None => pr
  end.

(** What a call returns to: its caller, a stop, the end of the process, or a handler
    with the frame at an address. *)
Inductive sig_outcome := SigReturn | SigStop | SigExit (status : Z) | SigHandler (sig handler frame : Z).

(** The user context at the top of the kernel stack. *)
Record uctx := mk_uctx { u_rsp : Z; u_rip : Z; u_rflags : Z }.

(** A system call at its end: its result, number and arguments, and the user context. *)
Record call := mk_call { c_result : Z; c_num : Z; c_args : list Z; c_ctx : uctx }.
#[export] Instance call_eta : Eta call := λ c, mk_call (c_result c) (c_num c) (c_args c) (c_ctx c).

(** Physical memory as 64-bit words. *)
Abbreviation words := (gmap Z Z).
Definition word (m : words) (a : Z) : Z := default 0 (m !! a).

Definition frame_addr (rsp : Z) : Z := Z.land (u64 (rsp - 32)) (u64 (Z.lnot 0xF)).

(** [frame[0] = orig_rsp; frame[1] = orig_rip; frame[2] = orig_rflags; frame[3] = result] *)
Definition put_frame (ph : Z) (cl : call) (m : words) : words :=
  <[ph + 24 := u64 (c_result cl)]> (<[ph + 16 := u_rflags (c_ctx cl)]>
    (<[ph + 8 := u_rip (c_ctx cl)]> (<[ph := u_rsp (c_ctx cl)]> m))).

Definition wants_restart (cl : call) (h : Z * Z) : bool :=
  (c_result cl =? - sched_EINTR) && negb (Z.land (snd h) SA_RESTART =? 0).

(** [xlate] is the physical address that the page of the frame gives it, once the page
    is a copy of its own; [None] when it is not mapped or cannot be copied. *)
Definition enter_handler (xlate : Z → option Z) (cl : call) (sig : Z) (h : Z * Z) (pr : process) (m : words) : sig_outcome * process * words :=
  let fr := frame_addr (u_rsp (c_ctx cl)) in
  match xlate fr with
  | None => (SigReturn, pr, m)
  | Some ph =>
      let m := put_frame ph cl m in
      if MAX_SIGNAL_DEPTH <=? p_depth pr then (SigReturn, pr, m)
      else
        let pr := pr <| p_frames := <[Z.to_nat (p_depth pr) := fr]> (p_frames pr) |> <| p_depth := p_depth pr + 1 |> in
        let restart := if wants_restart cl h then Some (c_num cl, c_args cl) else None in
        (SigHandler sig (fst h) fr, pr <| p_restart := restart |>, m)
  end.

Fixpoint signal_loop (xlate : Z → option Z) (cl : call) (n : nat) (sig : Z) (pr : process) (m : words) : sig_outcome * process * words :=
  match n with
  | O => (SigReturn, pr, m)
  | S n' =>
      if negb (has_bit (p_pending pr) sig) then signal_loop xlate cl n' (sig + 1) pr m
      else if has_bit (p_mask pr) sig then signal_loop xlate cl n' (sig + 1) pr m
      else
        let pr := take_signal sig pr in
        let h := p_handlers pr !!! Z.to_nat sig in
        if fst h =? SIG_IGN then signal_loop xlate cl n' (sig + 1) pr m
        else if fst h =? SIG_DFL then
          if (sig =? SIGCHLD) || (sig =? SIGCONT) then signal_loop xlate cl n' (sig + 1) pr m
          else if (sig =? SIGTSTP) || (sig =? SIGTTIN) || (sig =? SIGTTOU) then (SigStop, pr, m)
          else (SigExit (128 + sig), pr, m)
        else enter_handler xlate cl sig h pr m
  end.

(** Signals 1 to 31. *)
Definition check_signals (xlate : Z → option Z) (cl : call) (pr : process) (m : words) : sig_outcome * process * words :=
  signal_loop xlate cl 31 1 pr m.

(** The return from a handler: an error, or the context to go back to, with a call to
    restart or a result. *)
Inductive sigreturn_outcome := SrError | SrRestart (num : Z) (args : list Z) (ctx : uctx) | SrResult (res : Z) (ctx : uctx).

Definition get_ctx (ph : Z) (m : words) : uctx := mk_uctx (word m ph) (word m (ph + 8)) (word m (ph + 16)).

Definition sys_sigreturn (xlate : Z → option Z) (SYS_NR : Z) (pr : process) (m : words) : sigreturn_outcome * process :=
  if p_depth pr <=? 0 then (SrError, pr)
  else
    let pr := pr <| p_depth := p_depth pr - 1 |> in
    let fr := p_frames pr !!! Z.to_nat (p_depth pr) in
    if fr =? 0 then (SrError, pr)
    else match xlate fr with
         | None => (SrError, pr)
         | Some ph =>
             match p_restart pr with
             | Some (num, args) =>
                 let pr := pr <| p_restart := None |> in
                 if num <? SYS_NR then (SrRestart num args (get_ctx ph m), pr) else (SrResult (word m (ph + 24)) (get_ctx ph m), pr)
             | None => (SrResult (word m (ph + 24)) (get_ctx ph m), pr)
             end
         end.

(** ** Masks *)

Lemma land_shift_testbit m sig : 0 ≤ sig → has_bit m sig = Z.testbit m sig.
Proof.
  intros Hs. unfold has_bit. destruct (Z.testbit m sig) eqn:E.
  - destruct (Z.eqb_spec (Z.land m (Z.shiftl 1 sig)) 0) as [H0|]; [|done]. exfalso.
    assert (Z.testbit (Z.land m (Z.shiftl 1 sig)) sig = false) as Hf by (rewrite H0; apply Z.bits_0).
    rewrite Z.land_spec, E, Z.shiftl_spec, Z.sub_diag in Hf by done. done.
  - destruct (Z.eqb_spec (Z.land m (Z.shiftl 1 sig)) 0) as [|Hne]; [done|]. exfalso. apply Hne. apply Z.bits_inj_0. intros i.
    rewrite Z.land_spec. destruct (decide (i = sig)) as [->|]; [by rewrite E|].
    destruct (decide (i < 0)); [by rewrite (Z.testbit_neg_r m) by lia|].
    rewrite (Z.shiftl_spec 1 sig i) by lia. replace (Z.testbit 1 (i - sig)) with false; [apply andb_false_r|]. symmetry.
    destruct (decide (i < sig)); [by apply Z.testbit_neg_r; lia|]. change 1 with (2 ^ 0). apply Z.pow2_bits_false. lia.
Qed.

Lemma safe_mask_bits new sig : sig = SIGKILL ∨ sig = SIGSTOP → Z.testbit (safe_mask new) sig = false.
Proof. intros [-> | ->]; unfold safe_mask; rewrite Z.land_spec; apply andb_false_r. Qed.

(** No call blocks [SIGKILL] or [SIGSTOP]. *)
Definition mask_ok (pr : process) : Prop := has_bit (p_mask pr) SIGKILL = false ∧ has_bit (p_mask pr) SIGSTOP = false.

Lemma change_mask_ok how new pr : mask_ok pr → mask_ok (change_mask how new pr).2.
Proof.
  intros [Hk Hs]. rewrite land_shift_testbit in Hk, Hs by done.
  unfold change_mask. repeat case_match; (split; [|]); cbn; rewrite land_shift_testbit by done;
    rewrite ?Z.lor_spec, ?Z.land_spec, ?Hk, ?Hs, ?safe_mask_bits by tauto; done.
Qed.

(** Whatever mask a process sets, [SIGKILL] and [SIGSTOP] are never blocked, no
    handler is ever set for them, and no handler of any signal lies in the kernel. *)
Theorem kill_and_stop_not_blocked validate xlate how new old signum handler flags pr :
  mask_ok pr → 0 ≤ signum →
  Forall (λ h : Z * Z, fst h < sig_USER_ADDR_MAX) (p_handlers pr) →
  mask_ok (sys_sigprocmask validate xlate how new old pr).1.2 ∧
  (∀ sig, sig = SIGKILL ∨ sig = SIGSTOP →
    p_handlers (sys_sigaction signum handler flags pr).2 !! Z.to_nat sig = p_handlers pr !! Z.to_nat sig) ∧
  Forall (λ h : Z * Z, fst h < sig_USER_ADDR_MAX) (p_handlers (sys_sigaction signum handler flags pr).2).
Proof.
  intros Hm Hn HF. split.
  { pose proof (change_mask_ok how new pr Hm). unfold sys_sigprocmask. by repeat case_match. }
  unfold sys_sigaction. destruct (MAX_SIGNALS <=? signum); [done|]. destruct ((signum =? SIGKILL) || (signum =? SIGSTOP)) eqn:E; [done|].
  destruct ((_ <? handler) && _) eqn:E2; [done|]. cbn. split.
  - intros sig Hsig. apply list_lookup_insert_ne. apply orb_false_iff in E as [?%Z.eqb_neq ?%Z.eqb_neq]. lia.
  - apply Forall_insert; [done|]. cbn. apply andb_false_iff in E2 as [?%Z.ltb_ge | ?%Z.leb_gt]; lia.
Qed.

(** ** What is delivered *)

Lemma take_signal_same sig pr :
  p_handlers (take_signal sig pr) = p_handlers pr ∧ p_mask (take_signal sig pr) = p_mask pr ∧
  p_depth (take_signal sig pr) = p_depth pr ∧ p_frames (take_signal sig pr) = p_frames pr.
Proof. unfold take_signal. by case_match. Qed.

(** Other signals stay pending. *)
Lemma take_signal_other sig j pr :
  0 ≤ sig < 32 → 0 ≤ j < 32 → j ≠ sig → has_bit (p_pending (take_signal sig pr)) j = has_bit (p_pending pr) j.
Proof.
  intros Hs Hj Hne. rewrite !land_shift_testbit by lia.
  assert (H1 : Z.testbit (Z.shiftl 1 sig) j = false).
  { rewrite Z.shiftl_spec by lia. destruct (decide (j < sig)); [by apply Z.testbit_neg_r; lia|]. change 1 with (2 ^ 0). apply Z.pow2_bits_false. lia. }
  assert (H2 : Z.testbit (Z.land (p_pending pr) (u32 (Z.lnot (Z.shiftl 1 sig)))) j = Z.testbit (p_pending pr) j).
  { unfold u32. rewrite Z.land_spec, Z.mod_pow2_bits_low, Z.lnot_spec, H1 by lia. apply andb_true_r. }
  unfold take_signal. case_match; cbn; [rewrite Z.lor_spec, H1, orb_false_r|]; done.
Qed.

Definition ignored (sig : Z) (pr : process) : bool :=
  let h := fst (p_handlers pr !!! Z.to_nat sig) in (h =? SIG_IGN) || ((h =? SIG_DFL) && ((sig =? SIGCHLD) || (sig =? SIGCONT))).

Definition deliverable (sig : Z) (pr : process) : Prop := has_bit (p_pending pr) sig = true ∧ has_bit (p_mask pr) sig = false.

(** A delivery that enters the handler of [s]. *)
Record entered (xlate : Z → option Z) (cl : call) (sig : Z) (pr : process) (m : words) (s h fr : Z) (pr' : process) (m' : words) : Prop := {
  en_range : sig ≤ s < 32;
  en_due : deliverable s pr;
  en_handler : h = fst (p_handlers pr !!! Z.to_nat s);
  en_frame : fr = frame_addr (u_rsp (c_ctx cl));
  en_mem : ∃ ph, xlate fr = Some ph ∧ m' = put_frame ph cl m;
  en_room : p_depth pr < MAX_SIGNAL_DEPTH;
  en_depth : p_depth pr' = p_depth pr + 1;
  en_frames : p_frames pr' = <[Z.to_nat (p_depth pr) := fr]> (p_frames pr);
  en_restart : p_restart pr' = if wants_restart cl (p_handlers pr !!! Z.to_nat s) then Some (c_num cl, c_args cl) else None;
  en_first : ∀ j, sig ≤ j < s → deliverable j pr → ignored j pr = true;
}.

(** Passing over [sig] keeps what a later delivery depends on. *)
Lemma entered_later xlate cl sig pr q m s h fr pr' m' :
  (∀ j, sig < j < 32 → has_bit (p_pending q) j = has_bit (p_pending pr) j) → p_mask q = p_mask pr → p_handlers q = p_handlers pr →
  p_depth q = p_depth pr → p_frames q = p_frames pr → (deliverable sig pr → ignored sig pr = true) →
  entered xlate cl (sig + 1) q m s h fr pr' m' → entered xlate cl sig pr m s h fr pr' m'.
Proof.
  intros Hp Hm Hh Hd Hf Hig [A1 A2 A3 A4 A5 A6 A7 A8 A9 A10]. unfold deliverable, ignored in *. rewrite Hm, Hh, ?Hd, ?Hf in *.
  split; try done; [lia | by rewrite Hp in A2 by lia |].
  intros j Hj Hdj. destruct (decide (j = sig)) as [->|]; [by apply Hig|].
  apply A10; [lia|]. by rewrite Hp by lia.
Qed.

Lemma signal_loop_handler xlate cl n sig pr m s h fr pr' m' :
  0 < sig → sig + Z.of_nat n ≤ 32 → signal_loop xlate cl n sig pr m = (SigHandler s h fr, pr', m') →
  entered xlate cl sig pr m s h fr pr' m'.
Proof.
  revert sig pr. induction n as [|n IH]; intros sig pr Hs Hn; cbn [signal_loop]; [done|].
  assert (Hnext : ∀ q, signal_loop xlate cl n (sig + 1) q m = (SigHandler s h fr, pr', m') → entered xlate cl (sig + 1) q m s h fr pr' m')
    by (intros q; apply IH; lia).
  destruct (has_bit (p_pending pr) sig) eqn:Ep; cbn [negb]; [|intros Hq; apply (entered_later _ _ _ pr pr); [done..| by intros [? ?]; congruence | by apply Hnext]].
  destruct (has_bit (p_mask pr) sig) eqn:Em; [intros Hq; apply (entered_later _ _ _ pr pr); [done..| by intros [? ?]; congruence | by apply Hnext]|].
  destruct (take_signal_same sig pr) as (Eh & Emk & Ed & Ef).
  assert (Eo : ∀ j, sig < j < 32 → has_bit (p_pending (take_signal sig pr)) j = has_bit (p_pending pr) j) by (intros j Hj; apply take_signal_other; lia).
  rewrite Eh. destruct (fst (p_handlers pr !!! Z.to_nat sig) =? SIG_IGN) eqn:E1.
  { intros Hq. eapply entered_later, Hnext, Hq; try done. intros _. unfold ignored. by rewrite E1. }
  destruct (fst (p_handlers pr !!! Z.to_nat sig) =? SIG_DFL) eqn:E2.
  { destruct ((sig =? SIGCHLD) || (sig =? SIGCONT)) eqn:E3; [|by destruct ((sig =? SIGTSTP) || (sig =? SIGTTIN) || (sig =? SIGTTOU))].
    intros Hq. eapply entered_later, Hnext, Hq; try done. intros _. unfold ignored. by rewrite E1, E2, E3. }
  unfold enter_handler. destruct (xlate (frame_addr (u_rsp (c_ctx cl)))) as [ph|] eqn:E4; [|done]. rewrite Ed.
  destruct (Z.leb_spec MAX_SIGNAL_DEPTH (p_depth pr)) as [|Hlt]; [done|]. intros [= <- <- <- <- <-].
  split; cbn; rewrite ?Ed, ?Ef; try done; try lia; by exists ph.
Qed.

Lemma put_frame_read ph cl m :
  get_ctx ph (put_frame ph cl m) = c_ctx cl ∧ word (put_frame ph cl m) (ph + 24) = u64 (c_result cl).
Proof.
  unfold get_ctx, word, put_frame.
  split; [|by rewrite lookup_insert_eq].
  repeat first [rewrite lookup_insert_eq | rewrite lookup_insert_ne by lia]. by destruct (c_ctx cl).
Qed.

Definition frame_kept (ph : Z) (m m' : words) : Prop := ∀ i, i ∈ [0; 8; 16; 24] → word m' (ph + i) = word m (ph + i).

Lemma frame_kept_read ph m m' : frame_kept ph m m' → get_ctx ph m' = get_ctx ph m ∧ word m' (ph + 24) = word m (ph + 24).
Proof.
  intros H. pose proof (H 0 ltac:(set_solver)) as H0. rewrite Z.add_0_r in H0. unfold get_ctx.
  by rewrite H0, !H by set_solver.
Qed.

Lemma check_signals_handler xlate cl pr m s h fr pr' m' :
  check_signals xlate cl pr m = (SigHandler s h fr, pr', m') → entered xlate cl 1 pr m s h fr pr' m'.
Proof. apply signal_loop_handler; lia. Qed.

(** What happens between the entry of a handler and its return: the handler, other
    processes and system calls may change memory, pending signals, masks and handlers;
    and further signals may interrupt it, each with a handler that runs and returns in
    the same way.  The index counts the signals that interrupted it. *)
Definition same_stack (pr q : process) : Prop :=
  p_depth q = p_depth pr ∧ p_frames q = p_frames pr ∧ p_restart q = p_restart pr.

Inductive handler_run (SYS_NR : Z) : nat → process → words → process → words → Prop :=
| hr_end pr m : handler_run SYS_NR 0 pr m pr m
| hr_other n pr m q m1 pr' m' :
    same_stack pr q → handler_run SYS_NR n q m1 pr' m' → handler_run SYS_NR n pr m pr' m'
| hr_nested k n xlate xlate' cl sig h fr pr m pr1 m1 pr2 m2 out pr3 pr' m' :
    check_signals xlate cl pr m = (SigHandler sig h fr, pr1, m1) → handler_run SYS_NR k pr1 m1 pr2 m2 →
    sys_sigreturn xlate' SYS_NR pr2 m2 = (out, pr3) → out ≠ SrError →
    handler_run SYS_NR n pr3 m2 pr' m' → handler_run SYS_NR (S (k + n)) pr m pr' m'.

(** A return from a handler uses up the call to restart. *)
Lemma sigreturn_pops xlate SYS_NR pr m out pr' :
  sys_sigreturn xlate SYS_NR pr m = (out, pr') → out ≠ SrError →
  p_depth pr' = p_depth pr - 1 ∧ p_frames pr' = p_frames pr ∧ p_restart pr' = None.
Proof.
  unfold sys_sigreturn. intros H Ho. repeat case_match; simplify_eq; done.
Qed.

(** Nested handlers come back to the same depth, with the frames below it untouched;
    only without them the call to restart is still there. *)
Lemma handler_run_keeps SYS_NR n pr m pr' m' :
  handler_run SYS_NR n pr m pr' m' → 0 ≤ p_depth pr →
  p_depth pr' = p_depth pr ∧ (∀ i, Z.of_nat i < p_depth pr → p_frames pr' !! i = p_frames pr !! i) ∧
  p_restart pr' = match n with O => p_restart pr | S _ => None end.
Proof.
  induction 1 as [pr m|n pr m q m1 pr' m' (Ed & Ef & Er) _ IH|k n xl xl' cl sig h fr pr m pr1 m1 pr2 m2 out pr3 pr' m' Hc _ IH1 Hs Ho _ IH2]; intros Hd.
  - done.
  - rewrite <- Ed, <- Ef, <- Er. apply IH. lia.
  - apply check_signals_handler in Hc as [_ _ _ _ _ _ Hd1 Hf1 _ _].
    destruct (IH1 ltac:(lia)) as (D2 & F2 & _). destruct (sigreturn_pops _ _ _ _ _ _ Hs Ho) as (D3 & F3 & R3).
    destruct (IH2 ltac:(lia)) as (D4 & F4 & R4). split_and!; [lia| |by destruct n; rewrite R4].
    intros i Hi. rewrite F4 by lia. rewrite F3, F2 by lia. rewrite Hf1. apply list_lookup_insert_ne. lia.
Qed.

Lemma entered_sigreturn xlate xlate' SYS_NR cl pr m sig h fr pr' m' n pr1 m1 :
  entered xlate cl 1 pr m sig h fr pr' m' → handler_run SYS_NR n pr' m' pr1 m1 →
  0 ≤ p_depth pr → length (p_frames pr) = 4%nat → fr ≠ 0 → c_num cl < SYS_NR →
  xlate' fr = xlate fr → (∀ ph, xlate fr = Some ph → frame_kept ph m' m1) →
  ∃ pr'', p_depth pr'' = p_depth pr ∧
    sys_sigreturn xlate' SYS_NR pr1 m1 =
      (if wants_restart cl (p_handlers pr !!! Z.to_nat sig) && bool_decide (n = 0%nat)
       then SrRestart (c_num cl) (c_args cl) (c_ctx cl) else SrResult (u64 (c_result cl)) (c_ctx cl), pr'').
Proof.
  intros [_ Hp _ _ (ph & Hph & ->) Hlt Hd' Hf' Hr' Hlow] Hrun Hd Hl Hf Hn Hx Hk.
  destruct (handler_run_keeps _ _ _ _ _ _ Hrun ltac:(lia)) as (Hd1 & Hf1 & Hr1).
  unfold sys_sigreturn. destruct (Z.leb_spec (p_depth pr1) 0) as [|_]; [lia|].
  assert (Ed : p_depth pr1 - 1 = p_depth pr) by lia.
  assert (Ef : p_frames pr1 !!! Z.to_nat (p_depth pr) = fr)
    by (apply list_lookup_total_correct; rewrite Hf1 by lia; rewrite Hf'; apply list_lookup_insert_eq; lia).
  cbn -[word get_ctx Z.sub Z.ltb]. rewrite Ed, Ef, Hr1.
  destruct (Z.eqb_spec fr 0) as [|_]; [done|]. rewrite Hx, Hph.
  destruct (frame_kept_read _ _ _ (Hk ph Hph)) as [-> ->]. destruct (put_frame_read ph cl m) as [-> ->].
  destruct n as [|n]; [|rewrite andb_false_r; eexists; split; [|reflexivity]; reflexivity].
  rewrite Hr', andb_true_r. destruct (wants_restart _ _).
  - destruct (Z.ltb_spec (c_num cl) SYS_NR) as [_|]; [|lia]. eexists; split; [|reflexivity]; reflexivity.
  - eexists; split; [|reflexivity]; reflexivity.
Qed.


(** ** Examples *)

(** A process with a handler for signal 10 that restarts calls and one for 12. *)
Definition handled : process :=
  mk_process 10 1 10 0 0 0 0 false 4096 (Some 3%nat) None 0 0 (mk_ring (replicate SIG_QUEUE_SIZE 0) 0 0 0)
    (<[10%nat := (0x400000, SA_RESTART)]> (<[12%nat := (0x400100, 0)]> (replicate 32 (SIG_DFL, 0)))) (replicate 4 0) 0 None.

Definition interrupted : call := mk_call (- sched_EINTR) 61 [7; 0; 0; 0; 0] (mk_uctx 0x7000 0x401000 0x202).
Definition pend_all (sigs : list Z) (pr : process) : process := foldl (λ pr sig, pend_signal sig pr) pr sigs.
Definition identity_map (a : Z) : option Z := Some a.

Lemma kill_and_stop_not_blocked_witness :
  mask_ok (sys_sigprocmask (λ _, true) identity_map SIG_SETMASK 0xFFFFFFFF 0 handled).1.2 ∧
  (∀ sig, sig = SIGKILL ∨ sig = SIGSTOP →
    p_handlers (sys_sigaction 15 0x400200 0 handled).2 !! Z.to_nat sig = p_handlers handled !! Z.to_nat sig) ∧
  Forall (λ h : Z * Z, fst h < sig_USER_ADDR_MAX) (p_handlers (sys_sigaction 15 0x400200 0 handled).2).
Proof.
  apply (kill_and_stop_not_blocked (λ _, true) identity_map SIG_SETMASK 0xFFFFFFFF 0 15 0x400200 0 handled); [done | lia |].
  by apply (bool_decide_unpack _).
Defined.

(** Signal 12 interrupts the handler of signal 10, which then returns to the code that
    signal 10 interrupted, but not to the call. *)
Definition inner : call := mk_call 0 39 [0; 0; 0; 0; 0] (mk_uctx 0x6F00 0x400010 0x202).
Definition outer_pr : process := (check_signals identity_map interrupted (pend_all [10] handled) ∅).1.2.
Definition outer_m : words := (check_signals identity_map interrupted (pend_all [10] handled) ∅).2.
Definition inner_pr : process := (check_signals identity_map inner (pend_all [12] outer_pr) outer_m).1.2.
Definition inner_m : words := (check_signals identity_map inner (pend_all [12] outer_pr) outer_m).2.


(** The queue of duplicates loses its order: the removal moves the entries but not the
    tail, so the next duplicate lands past the end.  Signal 12 is counted twice and
    the duplicate of 15 is lost. *)
Definition queued (pr : process) : list Z :=
  (λ i, r_buf (p_sigq pr) !!! ((r_head (p_sigq pr) + i) mod SIG_QUEUE_SIZE)%nat) <$> seq 0 (r_count (p_sigq pr)).

Theorem signal_queue_loses_a_duplicate :
  let pr := pend_all [10; 10; 12; 12] handled in
  queued pr = [10; 12] ∧ queued (pend_all [15; 15] (take_signal 10 pr)) = [12; 12].
Proof. by vm_compute. Qed.

(** At the depth limit, or when the page of the frame is not mapped, the signal is
    forgotten: it is no longer pending when the delivery gives up. *)
Theorem undelivered_signal_is_lost :
  let pr := pend_all [10] handled in
  let deep := pr <| p_depth := MAX_SIGNAL_DEPTH |> in
  (check_signals identity_map interrupted deep ∅).1.1 = SigReturn ∧
  has_bit (p_pending (check_signals identity_map interrupted deep ∅).1.2) 10 = false ∧
  (check_signals (λ _, None) interrupted pr ∅).1.1 = SigReturn ∧
  has_bit (p_pending (check_signals (λ _, None) interrupted pr ∅).1.2) 10 = false.
Proof. by vm_compute. Qed.

(** A second signal in the handler of the first clears the call to restart. *)
Theorem nested_signal_cancels_restart :
  let '(_, pr, m) := check_signals identity_map interrupted (pend_all [10] handled) ∅ in
  let '(_, pr, m) := check_signals identity_map (mk_call 0 39 [0; 0; 0; 0; 0] (mk_uctx 0x6F00 0x400010 0x202)) (pend_all [12] pr) m in
  let '(inner, pr) := sys_sigreturn identity_map 145 pr m in
  let '(outer, _) := sys_sigreturn identity_map 145 pr m in
  inner = SrResult 0 (mk_uctx 0x6F00 0x400010 0x202) ∧ outer = SrResult (u64 (- sched_EINTR)) (mk_uctx 0x7000 0x401000 0x202).
Proof. by vm_compute. Qed.

(** Only the page of the first word of a frame is looked up, and a frame may cross a
    page: its last two words then land in the next physical page. *)
Theorem frame_crosses_into_the_next_page :
  let next_page := 0x9000 in
  let m := (check_signals (λ a, Some (0x8000 + a mod 4096)) (interrupted <| c_ctx := mk_uctx 0x7010 0x401000 0x202 |>) (pend_all [10] handled) ∅).2 in
  frame_addr 0x7010 / 4096 = 0x6 ∧ word m next_page = 0x202.
Proof. by vm_compute. Qed.
